(* ===== verification/_CoqProject ===== *)
-Q . S2P
Prelude.v
D3DTypes.v
DirtyRange.v
PageBox.v
ScratchArena.v
FramePacket.v
BufferRename.v
BufferBacking.v
VertexBuffer.v
VertexBufferSpec.v
DirtyRect.v
StagingCoverage.v
UploadSnapshot.v
TextureStaging.v
LevelAuthority.v
PageBoxPool.v
Mtl.v
StampGrid.v
TextureVersions.v
VersionBooks.v
VersionWorld.v
Visibility.v
VisibilityPasses.v
VisibilityInv.v
VisibilityWorld.v
RenderScale.v
FrameLatency.v
UploadRing.v
PlanarYuv.v
YuvDecode.v
PixelConvert.v
StretchRect.v
UploadPass.v
UploadRecovery.v
UploadRedirty.v
BitFields.v
RenderState.v
DepthStencil.v
PipelineState.v
SamplerState.v
DxsoIr.v
DxsoParser.v
DxsoText.v
DxsoRoundTrip.v
ShaderReader.v
DxsoLink.v
ShaderLink.v
ShaderCreate.v
PassCommands.v
MetalReplay.v
LastBound.v
DrawState.v
VertexStreams.v
StageUpload.v
PassData.v
PassRules.v
PassMerge.v
PassGpu.v
PassFacts.v
PassClearOnly.v
PassColorStores.v
PassDepthStores.v
PassFrameEnd.v
PassOverwritten.v
PassFold.v
PassCoalesce.v
PassJoin.v
PassRecorded.v
PassResolves.v
PassPipeline.v
PassToy.v
PassSound.v
RecorderState.v
Recorder.v
RecorderOps.v
RecorderSettle.v
RecorderOpen.v
RecorderSim.v
RecorderCalls.v
RecorderSound.v
