(* ===== verification/Prelude.v ===== *)
(** * mtld3d, verified parts

    mtld3d is Direct3D 9 for Wine over Metal.  The PE side ([windows/d3d9]) answers
    the application's calls on its own thread and records operations; the native
    side ([unix/unix]) has an encoder thread that turns them into Metal command
    buffers, and the GPU runs those in the order they are submitted.  The rules
    both sides follow live in [windows/core], most of them as modules without any
    Metal handle; those modules, the calls that drive them, and the worlds they
    run in are what is modelled here.  Paths below are under [src/]; [core/] is
    [windows/core/src/], [d3d9/] is [windows/d3d9/src/], [unix/] is [unix/unix/src/].

    ** The parts and how they meet

    - A buffer or texture owns CPU bytes in page boxes ([PageBox], recycled by
      [PageBoxPool]); a write to them is announced as a byte range ([DirtyRange])
      or a rectangle ([DirtyRect]), judged against what the GPU still reads
      ([BufferRename], [TextureStaging], [LevelAuthority]), and uploaded.
    - Buffers: [Lock] and [Unlock] ([VertexBuffer] over [BufferBacking]) queue
      uploads; the encoder lands them at the head of the frame
      ([StageUpload]); an aborted submission's uploads are issued again
      ([UploadRecovery]).
    - Textures: the staging records how much of a level was ever written
      ([StagingCoverage]); an upload reads the staging or a snapshot of it
      ([UploadSnapshot]) by a blit or, for layouts Metal cannot copy, by a render
      pass ([UploadPass], over the CPU codec of [PixelConvert]); a texture sampled
      in the frame is renamed and its old version recycled ([TextureVersions] over
      the write history of [StampGrid]); uploads that were not emitted come back
      through [UploadRedirty].
    - Shaders: creation walks a token stream behind the application's pointer
      ([ShaderReader]), parses and checks it ([DxsoParser], [ShaderCreate]); the
      encoder registers the program and links the two stages of a draw by the
      semantics they declare ([DxsoLink], [ShaderLink]).
    - Draw state: the device keeps the DWORDs a game wrote, a snapshot narrows them
      ([RenderState]), and the encoder caches the Metal objects built from it under
      a key ([PipelineState], [DepthStencil], [SamplerState]).
    - Surfaces: [StretchRect] parses and routes copies, [PlanarYuv] and
      [YuvDecode] are the YUV layouts and decodes, [RenderScale] maps rectangles
      and mip levels of a target rasterized below its reported size.
    - Draws: the encoder records render passes as calls come in, opening a pass
      when something is drawn, folding clears into load actions and putting off
      the rest ([RecorderState], [Recorder], [RecorderOps]); before a submission
      nine rules rewrite the list, moving clears, discarding loads and stores,
      dropping and joining passes ([PassRules], [PassMerge]); Metal then runs it
      ([PassGpu]).
    - Frames: occlusion queries count samples across passes, buffers and
      submissions ([Visibility*]); [FrameLatency] bounds how far the GPU may be
      behind when [Present] returns.

    ** Files

    - [Prelude]: integers at their width ([+%] wraps, [+|] saturates, [+?] checks,
      in the scopes [u32] and [u64]; [wrap_usize] at a build's pointer width, 32
      or 64 bits), the tactics [reflect_cmp], [split_ifs], [exact32], and lemmas on
      sums and filters.  [D3DTypes]: the D3D9 constants.  [Mtl]: the pixel formats
      ([unix/shared/src/mtl.rs]).
    - [DirtyRange] (core/dirty_range.rs, the byte ranges of unix/draw.rs),
      [DirtyRect] (core/dirty_rect.rs), [PageBox] (core/page_box.rs), [PageBoxPool]
      (core/page_box_pool.rs), [BufferRename] (core/buffer_rename.rs),
      [BufferBacking] (core/buffer_backing.rs), [StagingCoverage]
      (core/staging_coverage.rs), [UploadSnapshot] (core/upload_snapshot.rs),
      [TextureStaging] (core/texture_staging.rs), [LevelAuthority]
      (core/level_authority.rs), [StampGrid] and [TextureVersions]
      (core/texture_versions.rs), [RenderScale] (core/render_scale.rs),
      [PlanarYuv] (core/planar_yuv.rs), [YuvDecode] and [StretchRect]
      (core/stretch_rect.rs, unix/metal/blit.rs), [PixelConvert]
      (core/pixel_convert.rs), [UploadPass] (core/upload_pass.rs, unix/encoder.rs,
      unix/metal/upload_quad.rs), [UploadRecovery] (core/upload_recovery.rs,
      unix/encoder.rs), [UploadRedirty] (core/upload_redirty.rs): each module's
      state as a [Record], its operations as functions, with their theorems.
    - [VertexBuffer] (d3d9/vertex_buffer.rs): [vb_lock], [vb_unlock], the mapped
      flush and the [ProcessVertices] sink over a device that collects uploads;
      [VertexBufferSpec] proves them against the bytes the application stored.
    - [StageUpload] (unix/encoder.rs, unix/draw.rs, core/passes.rs): the bytes every
      kind of draw records as read (bound streams, lists and fans, instances,
      crossing elements, index buffers), [apply_stage_upload] and the drawn-range
      tracker, against draws that read in operation order, whatever Metal answers
      to an allocation.
    - [UploadRecovery] knows a buffer by its key and its device buffers by their
      handles: a rename moves the key to a fresh handle behind a copy of the old
      one, and an abort may land any prefix of a submission's blits.  That a rename
      happens, and that memory for it is had, are events there.
    - [VersionBooks], [VersionWorld]: the books of the version pool, and the
      contents of every version under uploads, renames and copies.
    - [Visibility] (core/visibility.rs, unix/encoder.rs, core/passes.rs),
      [VisibilityPasses], [VisibilityInv], [VisibilityWorld] (d3d9/query.rs): the
      slots, buffers and spans of occlusion queries, what a pass stream counts, the
      invariant, and application, encoder and GPU as one step relation.
    - [FrameLatency] (core/frame_latency.rs, core/query_fence.rs, core/extended.rs,
      d3d9/device.rs, d3d9/device/extended.rs).
    - Shaders: [BitFields] (words of bit fields), [DxsoIr] (core/dxso/ir.rs,
      core/dxso/opcode.rs), [DxsoParser] (core/dxso/parser.rs), [DxsoText] (the
      shader texts the parser is held against: items, what they denote, their
      canonical tokens), [DxsoRoundTrip] (text to program and back),
      [ShaderReader] (d3d9/device.rs, [read_shader_bytecode]), [ShaderCreate]
      (core/shader_create.rs), [DxsoLink] (core/dxso/link.rs) and [ShaderLink]
      (unix/encoder.rs, unix/draw.rs).
    - Draw state: [RenderState] (core/render_state.rs), [DepthStencil]
      (core/depth_stencil_state.rs), [PipelineState] (core/pipeline_state.rs and the
      descriptor unix/metal/pipeline.rs compiles), [SamplerState]
      (core/sampler_state.rs), with the translations of core/convert.rs they use.
    - Render passes.  [PassCommands] (unix/shared/src/commands.rs, core/passes.rs):
      render and blit commands and what each binds, reads and writes.  [PassData]
      (core/passes.rs): a pass, its attachments, flags and the questions the rules
      ask of it.  [PassRules], [PassMerge] (core/passes.rs; [apply_pass_rules] of
      unix/encoder.rs): the rules, under the names and letters of the source.
      [PassGpu] runs a pass list: leading blits, load actions, commands on an
      encoder, store actions, resolves, over memory whose texels may be undefined
      ([None]); what a draw, a blit and a resolve compute is the class [Gpu], and
      [GpuLaws] says what each may read and write.  [PassFacts]: runs
      compared by [mem_le], and rules that change one pass.  One file per rule or pair of
      rules: [PassClearOnly] (F, G, and the recorder's guarantees for a pass, [pass_wf]), [PassColorStores]
      and [PassDepthStores] (B, C, H, stencil), [PassFrameEnd] (the last depth stores of a frame),
      [PassOverwritten] (I), [PassFold] and [PassCoalesce] (E), [PassJoin] (J), [PassResolves] (the multisample resolves).  [PassRecorded],
      [PassPipeline] chain them; [PassToy] is a GPU that meets the laws, a recorded
      frame and two that go wrong, [PassSound] the theorems.
    - Recording those passes, [PassState] of core/passes.rs.  [RecorderState]:
      the bound targets (render target 0 held as an [ExtraColorSlot]), pending
      clears and blits, targets seen, viewport, and the questions asked of them;
      [PassRules.PassState], what the rules read, is its field [frame].
      [Recorder]: opening, ending and flushing passes, blits, upload passes.
      [RecorderOps]: binding targets, sRGB writes and views, the commands of a
      draw, [Clear] in its forms, [reset_frame].  [RecorderSettle]: the outline
      of a pass and what is pending as memory; [RecorderOpen]: opening and
      flushing keep that memory, the open pass and the caches against the
      bindings; [RecorderSim] and [RecorderCalls]: the invariant
      [inv] under each operation; [RecorderSound]: the calls of a frame ([Call],
      run by [calls]), what each does at once ([effects]) and the theorems.
    - Between the threads and to Metal.  [ScratchArena] (core/scratch.rs): the bump
      arena a frame's commands and payloads go into.  [FramePacket]
      (core/encoder_packet.rs with replay.rs and owner.rs, unix/shared/src/encoder_protocol.rs):
      recording, sealing and replay of a frame.  [UploadRing]
      (unix/metal/transient.rs): the buffers inline data rides to the GPU in.
      [MetalReplay] (the loop of [encode_pass], unix/metal/command.rs): the commands
      of a pass as calls on Metal's encoder; the ring is a class there ([InlineRing]).
    - What a draw leaves out.  [LastBound] (core/passes.rs, unix/draw.rs,
      unix/encoder.rs): the caches of what the open encoder has bound, the state
      changes that consult them ([Request], performed by [perform]), and the debug
      shadow.  [DrawState]: draws, clear quads and blit quads as requests, in the
      order of the source; the same with nothing left out ([always]); what each
      draw of a list of calls sees ([draws_seen]), a place holding the last value
      set; what the caches believe of it ([agrees]).
    - What the vertex slots hold.  [VertexStreams] (core/streams.rs, core/convert.rs,
      core/draw_data.rs, core/encoder_draw/draw_record.rs, unix/draw.rs): the elements
      of a declaration become attributes, attributes that cross their stride get a
      slot of their own ([remap_crossing_attributes]), the fetch built for them is
      kept and reused from draw to draw ([reuse_or_rebuild]), and each slot binds a
      multiple of 4.  Metal's vertex fetch as documented is [metal_fetch], what D3D9
      asks for is [d3d9_fetch]; [packet_draws] runs the draws of a packet.

    ** What the theorems show

    - End to end: [rename_invisible] (no texture ever shows which version is live),
      [query_answers] and [query_finishes] (an occlusion query answers the samples
      of its draws, and does answer), [unlock_publishes] (a buffer's device copy
      holds what was stored, but for what a lock held across an unlock clobbered,
      [clobbered]), [draws_see_op_order] (uploads hoisted to the head of a frame are
      invisible to its draws, but for draws spoilt by a rename that got no memory,
      which [dr_spoiled] marks), [uploads_survive_aborts] and
      [replays_bounded] (aborted submissions lose nothing but uploads given up and
      the bytes [finish] marks as torn, and replays end), [redirty_queue_exact] (the same for uploads never emitted, under
      two threads), [latency_bounds_outstanding].
    - Books and arenas: [gauge_exact], [pool_books], [versions_conserved],
      [snapshots_intact], [write_refused_only_when_full], [pool_serves_size].
    - What was written: [coverage_exact], [covers_level_iff], [written_since_covers],
      [draw_read_recorded], [authority_refines_set], [snapshot_faithful].
    - Regions and pixels: [clip_copy_region_correct], [update_surface_region_iff],
      [clip_to_level_correct], [target_rect_tiles], [rasterized_level_exists],
      [parse_rect_exact], [same_surface_route_correct], [planes_tile],
      [planar_reads_agree], [yuv_matches_blit], [convert_region_exact],
      [texel_roundtrip], [upload_pass_exact], [render_target_superset].
    - Shaders: [shader_at_pointer] (a shader behind a bare pointer is read to its
      last token and parses to what it spells), [intake_total] (any memory gives an
      error or a well-formed program), [creation_bounds] (an accepted shader names
      only constants the device uploads; what a relative read adds to its row at run
      time is not bounded by the code), [draw_links] (the two stages of a draw
      agree on the members between them).
    - Draw state: [pipeline_key_exact], [depth_stencil_key_exact],
      [sampler_key_exact] (a cache never serves a draw an object built for another
      state, and builds no object twice), [enum_value_narrows],
      [snapshot_words_eq] and [same_layouts_eq] (comparisons folded into words are
      equality), [scissor_snapshot_exact].
    - Recording: [recorder_renders_calls] (the recorded passes render what every
      call done at once would have: folded and deferred clears, shared passes and
      first-use discards are not seen), [open_pass_mirrors_bindings] (the open
      pass attaches what is bound, and the caches of the bindings are fresh),
      [restore_undoes_take] (internal passes put the colour targets back).
      [all_legal] is what the caller owes: targets a pass can be opened on
      ([well_bound]), no draw that samples what it renders to, one storage to a
      handle; [blank] says that what Rule A may discard is undefined at the start.
    - Render passes: [apply_pass_rules_keeps_texels] (the rules together lose no
      texel where Rule H strips no pass and the list is [foldable]), and the rules alone: [coalesce_keeps_texels],
      [drop_overwritten_keeps_texels], [store_rules_keep_texels],
      [merge_adjacent_keeps_texels]; [join_restores_states] (a joined pass draws
      with the states Metal gives a new encoder, [encoder_state]),
      [resolves_on_last_use] (a multisampled target is resolved where it was used
      last), [strip_color_drains_blocks].
      The depth planes the last of a frame's store rules discards ([lost_planes])
      are ones D3D9 would keep across [Present]: a divergence the code keeps on
      purpose, and the theorems except those planes rather than excuse them.
      Their hypotheses are what the recorder guarantees, [recorded]: [pass_wf] for
      each pass, [foldable] for the list, every draw's bindings set in its own pass
      ([draws_bound]), and stencil planes nothing wrote undefined ([blank]).
    - Packets and calls: [packet_replays_records] (the encoder replays what was
      recorded, each command once and in order, and its payloads lie as they were
      put), [commands_read_back] (Metal is asked for what a pass's commands were
      made of), [ring_payloads_intact] (no inline payload a submission reads is
      overwritten).  The arena's chunks come from a heap that answers with disjoint
      aligned ranges or nothing ([heap_ok]), the ring's buffers from a device that
      answers with a fresh one or nothing.
    - State caches: [deduplicated_draws_agree] (a draw sees the same whether or not
      commands are left out), [shadow_never_desyncs] (the debug build's check of
      the caches never fires).  [request_legal] is what the callers owe: arguments
      of their widths, slots within the tables, bytes that are in memory where the
      request says, and, of inline vertices, that slot 0 is among their slots.
    - Vertex streams: [elements_fetched_as_declared] (every element a shader consumes
      is read from where D3D9 says, whichever fetch was kept, unless the draw gave
      its fetch up or the element reaches past the 4 KiB of zeroes an unbound stream
      reads), [fetch_given_up_iff]
      (when a draw gives up a fetch of its own: just when some attribute
      cannot be bound, [servable]), [equal_layouts_place_alike] (the pipeline memo may
      compare layouts alone).
    - [nested_locks_zero_the_gap] is a defect: two locks held at once on a re-created
      write-only buffer upload the bytes between their windows as zeros.
    - [abort_loses_preserve] is another: the copy that fills the rest of a renamed
      device buffer is not replayed when its submission aborts.
    - [coalesce_loses_resolve] and [coalesce_encodes_clear] are two more: Rule E
      drops a resolve with the pass that carries it, and moves a clear of an extra
      render target to a pass that writes it through its sRGB view.  The
      conditions [fo_resolves] and [fo_pairs] of [foldable] exclude them.

    ** Conventions and bounds

    The shipped profile does not check overflow: plain arithmetic wraps, and the
    models say so.  State that several calls share is threaded explicitly; what
    two threads share is a step relation over their interleaved steps ([step] and
    [run] of the worlds, where an impossible step is [None]).  The recursions are
    structural: over lists of steps, of queue entries or of levels, so no fuel is
    needed, but for the shader walks: the parser's fuel is the number of tokens,
    of which every turn takes one, the pointer walk's its bound of 65536 tokens,
    and [intake_total] shows neither runs out; Rule E's
    fuel is the number of passes, of which every round moves past or drops one; a loop over a range is a fold or [for_range] over its length.  What
    Metal, the allocator or the scheduler decide is an argument or an event: an
    allocation may fail, a submission may retire at any time, abort, or abort half
    done.

    ** Not modelled, and why

    - Of the recorder, what leaves the passes alone: traces and warnings, the
      cascade counters, the pool of command vectors, the pipeline resolver, the
      dead-draw filter and the per-draw ledgers (core/passes/draw_state.rs).
      Upload passes, the registration of a retired texture's handle
      ([unregister_texture]) and the bytes a draw reads are modelled but are no
      [Call]: uploads write textures by other means than the frame's calls.  A
      clear that answers with a quad records nothing; the quad is the caller's
      draw.  The rules' theorems still take what they need of a list as
      [recorded].  Rule H is proved for the commands and attachments it leaves,
      not for what its draws then write, which is a matter of pipelines.
    - The payloads of the commands a packet carries and the leases that keep guest
      memory alive behind them (core/encoder_data.rs, core/guest_pages.rs), and the
      packet's way between the threads (core/guest_completions.rs).
    - Of the draw encoder (unix/draw.rs, unix/encoder.rs), how a draw resolves what
      it asks for: texture handles, samplers, shader variants, pipelines and the
      uniforms, many of them f32, come to [DrawInput] as values.  The shader cache's
      disk format and the registry of created shaders (unix/shader_programs.rs).
    - The shader translator (core/dxso/emit.rs, core/dxso/ff.rs, core/ff_state.rs)
      prints Metal shading language, whose meaning lies outside the repository; of
      the linkage the members are modelled, not the text that moves their lanes.
    - The COM surface of d3d9 (reference counts, private data, descriptions), the
      Metal command translation (unix/metal), presentation, the window driver
      (unix/macdrv) and the cursor: calls into systems outside the repository.
    - core/perf.rs, HUD, logs and crash reports: no effect on what is rendered.
    - Of the vertex streams, the attribute table of the fixed function and the FVF
      conversion (core/convert.rs), which produce the attributes and elements
      [VertexStreams] starts from, and the hash a shifted fetch folds its shifts into.
    - The f32 parts (LOD bias, depth bias, viewport factor, lighting): the properties here do not
      read them.
    - In [UploadRecovery] buffers exist from the start; one recreated after a failed
      warm-up, and an upload dropped because no transient buffer could be had, are
      in [StageUpload].  What [abort_loses_preserve] loses is torn there. *)

From stdpp Require Export base numbers list option gmap sets.
From Stdlib Require Export ZArith Lia Bool.

#[global] Open Scope Z_scope.

(** * Machine integers

    A [w]-bit unsigned integer is a [Z] in [[0, 2^w)].  The shipped profile
    builds with [overflow-checks = false], so a plain [+], [-] or [*] wraps;
    [saturating_*] and [checked_*] are the methods of the same names. *)

Definition u32_max : Z := 4294967295.
Definition u64_max : Z := 18446744073709551615.

Definition is_u32 (x : Z) : Prop := 0 <= x <= u32_max.
Definition is_u64 (x : Z) : Prop := 0 <= x <= u64_max.

Definition wrap32 (x : Z) : Z := x mod 4294967296.
Definition wrap64 (x : Z) : Z := x mod 18446744073709551616.
(** [usize] arithmetic of a [bits]-bit build. *)
Definition wrap_usize (bits x : Z) : Z := x mod 2 ^ bits.

(** A saturated result of an unsigned operation whose exact value is [x]. *)
Definition sat (m x : Z) : Z := Z.max 0 (Z.min m x).
(** A checked result of an unsigned operation whose exact value is [x]. *)
Definition checked (m x : Z) : option Z :=
  if (0 <=? x) && (x <=? m) then Some x else None.

Declare Scope u32_scope.
Declare Scope u64_scope.
Delimit Scope u32_scope with u32.
Delimit Scope u64_scope with u64.

Reserved Notation "x +% y" (at level 50, left associativity).
Reserved Notation "x -% y" (at level 50, left associativity).
Reserved Notation "x *% y" (at level 40, left associativity).
Reserved Notation "x +| y" (at level 50, left associativity).
Reserved Notation "x -| y" (at level 50, left associativity).
Reserved Notation "x *| y" (at level 40, left associativity).
Reserved Notation "x +? y" (at level 50, left associativity).
Reserved Notation "x *? y" (at level 40, left associativity).

Notation "x +% y" := (wrap32 (x + y)) : u32_scope.
Notation "x -% y" := (wrap32 (x - y)) : u32_scope.
Notation "x *% y" := (wrap32 (x * y)) : u32_scope.
Notation "x +| y" := (sat u32_max (x + y)) : u32_scope.
Notation "x -| y" := (sat u32_max (x - y)) : u32_scope.
Notation "x *| y" := (sat u32_max (x * y)) : u32_scope.
Notation "x +? y" := (checked u32_max (x + y)) : u32_scope.
Notation "x *? y" := (checked u32_max (x * y)) : u32_scope.

Notation "x +% y" := (wrap64 (x + y)) : u64_scope.
Notation "x -% y" := (wrap64 (x - y)) : u64_scope.
Notation "x *% y" := (wrap64 (x * y)) : u64_scope.
Notation "x +| y" := (sat u64_max (x + y)) : u64_scope.
Notation "x -| y" := (sat u64_max (x - y)) : u64_scope.
Notation "x *| y" := (sat u64_max (x * y)) : u64_scope.
Notation "x +? y" := (checked u64_max (x + y)) : u64_scope.
Notation "x *? y" := (checked u64_max (x * y)) : u64_scope.

(** [uN::div_ceil]. *)
Definition div_ceil (x y : Z) : Z :=
  if x mod y =? 0 then x / y else x / y + 1.

(** [flags & mask != 0]. *)
Definition flag (flags mask : Z) : bool := negb (Z.land flags mask =? 0).

(** [u32::next_multiple_of]. *)
Definition next_multiple_of32 (v m : Z) : Z := wrap32 (div_ceil v m * m).

(** ** Reflection and automation *)

Create HintDb mach.
Create Rewrite HintDb mach.
Create Rewrite HintDb wrap.

Ltac unfold_mach :=
  unfold is_u32, is_u64, wrap32, wrap64, sat, checked, u32_max, u64_max in *.

(** Turn the boolean comparisons the code branches on into linear facts. *)
Ltac reflect_cmp :=
  repeat match goal with
  | H : (_ && _) = true |- _ => apply andb_true_iff in H as [? ?]
  | H : (_ || _) = false |- _ => apply orb_false_iff in H as [? ?]
  | H : negb _ = true |- _ => apply negb_true_iff in H
  | H : negb _ = false |- _ => apply negb_false_iff in H
  | H : (_ <=? _) = true |- _ => apply Z.leb_le in H
  | H : (_ <=? _) = false |- _ => apply Z.leb_gt in H
  | H : (_ <? _) = true |- _ => apply Z.ltb_lt in H
  | H : (_ <? _) = false |- _ => apply Z.ltb_ge in H
  | H : (_ =? _) = true |- _ => apply Z.eqb_eq in H
  | H : (_ =? _) = false |- _ => apply Z.eqb_neq in H
  end.

(** Case-split on every [if] of the goal and the hypotheses, reflecting the
    comparisons as they appear. *)
Ltac split_ifs :=
  repeat (match goal with
  | |- context [if ?b then _ else _] => destruct b eqn:?
  | H : context [if ?b then _ else _] |- _ => destruct b eqn:?
  end; simplify_eq; reflect_cmp).

(** Linear arithmetic after unfolding the machine operations; [mod] and [/]
    are eliminated by their Euclidean equations. *)
Ltac mach := unfold_mach; split_ifs; Z.to_euclidean_division_equations; try lia.

(** ** Shared integer lemmas *)

Lemma wrap32_small x : is_u32 x -> wrap32 x = x.
Proof. intros. apply Z.mod_small. unfold_mach; lia. Qed.

Lemma wrap64_small x : is_u64 x -> wrap64 x = x.
Proof. intros. apply Z.mod_small. unfold_mach; lia. Qed.

(** Drop the wraps of a goal whose exact value is in range, innermost first. *)
Ltac exact32 := repeat match goal with
  | |- context [wrap32 ?x] =>
      lazymatch x with context [wrap32] => fail | _ => idtac end;
      rewrite (wrap32_small x) by (unfold is_u32, u32_max in *; lia)
  end.

Lemma wrap32_range x : is_u32 (wrap32 x).
Proof. pose proof (Z.mod_pos_bound x 4294967296). unfold_mach; lia. Qed.

Lemma wrap64_range x : is_u64 (wrap64 x).
Proof. pose proof (Z.mod_pos_bound x 18446744073709551616). unfold_mach; lia. Qed.

Lemma wrap_usize_small bits m x : 0 <= x < 2 ^ m -> 0 <= m <= bits -> wrap_usize bits x = x.
Proof. intros. apply Z.mod_small. pose proof (Z.pow_le_mono_r 2 m bits). lia. Qed.

Lemma wrap32_add_l x y : wrap32 (wrap32 x + y) = wrap32 (x + y).
Proof. apply Zplus_mod_idemp_l. Qed.

Lemma wrap32_add_r x y : wrap32 (x + wrap32 y) = wrap32 (x + y).
Proof. apply Zplus_mod_idemp_r. Qed.

Lemma wrap32_sub_r x y : wrap32 (x - wrap32 y) = wrap32 (x - y).
Proof. apply Zminus_mod_idemp_r. Qed.

Lemma wrap64_wrap x : wrap64 (wrap64 x) = wrap64 x.
Proof. apply Zmod_mod. Qed.

Lemma wrap64_add_l x y : wrap64 (wrap64 x + y) = wrap64 (x + y).
Proof. apply Zplus_mod_idemp_l. Qed.

Lemma wrap64_sub_l x y : wrap64 (wrap64 x - y) = wrap64 (x - y).
Proof. apply Zminus_mod_idemp_l. Qed.

Lemma sat32_range x : is_u32 (sat u32_max x).
Proof. unfold_mach; lia. Qed.

Lemma checked_Some m x y : checked m x = Some y <-> y = x /\ 0 <= x <= m.
Proof. unfold checked. split_ifs; split; intros; simplify_eq; try lia. destruct_and?; subst; done. Qed.

Lemma checked_None m x : checked m x = None <-> ~ (0 <= x <= m).
Proof. unfold checked. split_ifs; split; intros; simplify_eq; try lia; done. Qed.

(** Replace a successful checked operation by its exact value. *)
Ltac inv_checked :=
  repeat match goal with
  | H : checked _ _ = Some _ |- _ => apply checked_Some in H as [-> ?]
  end.

(** [div_ceil] is the least multiple count that reaches [x]. *)
Lemma div_ceil_spec x y q :
  0 < y -> div_ceil x y <= q <-> x <= q * y.
Proof.
  intros Hy. unfold div_ceil. pose proof (Z.div_mod x y ltac:(lia)) as E.
  pose proof (Z.mod_pos_bound x y Hy).
  split_ifs; split; intros; nia.
Qed.

Lemma div_ceil_mul_ge x y : 0 < y -> x <= div_ceil x y * y.
Proof. intros. by apply div_ceil_spec; [|lia]. Qed.

Lemma div_ceil_mul_lt x y : 0 < y -> div_ceil x y * y < x + y.
Proof.
  intros Hy. unfold div_ceil. pose proof (Z.div_mod x y ltac:(lia)).
  pose proof (Z.mod_pos_bound x y Hy). split_ifs; nia.
Qed.

Lemma div_ceil_nonneg x y : 0 <= x -> 0 < y -> 0 <= div_ceil x y.
Proof. intros. unfold div_ceil. pose proof (Z.div_pos x y). split_ifs; lia. Qed.

Lemma wrap64_add_r x y : wrap64 (x + wrap64 y) = wrap64 (x + y).
Proof. apply Zplus_mod_idemp_r. Qed.

Lemma wrap64_sub_r x y : wrap64 (x - wrap64 y) = wrap64 (x - y).
Proof. apply Zminus_mod_idemp_r. Qed.

Lemma wrap64_sub_add_l x y z : wrap64 (wrap64 (x - y) - z) = wrap64 (x - y - z).
Proof. apply wrap64_sub_l. Qed.

(** ** Sums of lists *)

Definition zsum (l : list Z) : Z := foldr Z.add 0 l.

Lemma zsum_cons x l : zsum (x :: l) = x + zsum l.
Proof. done. Qed.

Lemma zsum_app l k : zsum (l ++ k) = zsum l + zsum k.
Proof. unfold zsum. induction l as [|x l IH]; simpl; [done|]. rewrite IH. lia. Qed.

#[global] Instance zsum_proper : Proper ((≡ₚ) ==> (=)) zsum.
Proof. unfold zsum. induction 1; simpl; lia. Qed.

Lemma zsum_nonneg l : Forall (Z.le 0) l -> 0 <= zsum l.
Proof. unfold zsum. induction 1; simpl; lia. Qed.

Lemma zsum_const {A} (l : list A) b : zsum ((λ _, b) <$> l) = b * Z.of_nat (length l).
Proof. induction l as [|x l IH]; [simpl; lia|]. cbn [fmap list_fmap length]. unfold zsum in *. cbn [foldr]. rewrite IH. lia. Qed.

Lemma foldl_add_wrap {A} (f : A -> Z) l x :
  wrap64 (foldl (λ acc e, wrap64 (acc + f e)) x l) = wrap64 (x + zsum (f <$> l)).
Proof.
  revert x. induction l as [|e l IH]; intros x; cbn [foldl]; [f_equal; unfold zsum; simpl; lia|].
  rewrite IH, wrap64_add_l, fmap_cons, zsum_cons. f_equal. lia.
Qed.

Lemma foldl_sub_wrap {A} (f : A -> Z) l x :
  wrap64 (foldl (λ acc e, wrap64 (acc - f e)) x l) = wrap64 (x - zsum (f <$> l)).
Proof.
  revert x. induction l as [|e l IH]; intros x; cbn [foldl]; [f_equal; unfold zsum; simpl; lia|].
  rewrite IH, wrap64_sub_add_l, fmap_cons, zsum_cons. f_equal. lia.
Qed.

(** ** Filters *)

Lemma filter_all {A} (P : A -> Prop) `{!forall x, Decision (P x)} (l : list A) : (forall x, x ∈ l -> P x) -> filter P l = l.
Proof.
  induction l as [|x l IH]; intros HP; [done|]. rewrite filter_cons, decide_True by (apply HP; by left).
  f_equal. apply IH. intros y Hy. apply HP. by right.
Qed.

Lemma filter_none {A} (P : A -> Prop) `{!forall x, Decision (P x)} (l : list A) : (forall x, x ∈ l -> ~ P x) -> filter P l = [].
Proof.
  induction l as [|x l IH]; intros HP; [done|]. rewrite filter_cons, decide_False by (apply HP; by left).
  apply IH. intros y Hy. apply HP. by right.
Qed.

#[export] Hint Resolve wrap32_range wrap64_range sat32_range div_ceil_nonneg : mach.
#[export] Hint Rewrite wrap64_wrap wrap64_add_l wrap64_sub_l : wrap.
#[export] Hint Rewrite wrap32_small wrap64_small using (unfold_mach; lia) : mach.

(** ** Vectors *)

(** [Vec::swap_remove]: the last element takes the place of the one removed. *)
Definition swap_remove {A} (l : list A) (i : nat) : list A :=
  match last l with
  | Some x => take (length l - 1) (<[i := x]> l)
  | None => l
  end.

Lemma swap_remove_perm {A} (l : list A) i x : l !! i = Some x -> x :: swap_remove l i ≡ₚ l.
Proof.
  intros H. unfold swap_remove. destruct l as [|y l _] using rev_ind; [done|].
  rewrite last_snoc, length_app. simpl. replace (length l + 1 - 1)%nat with (length l) by lia.
  destruct (decide (i = length l)) as [->|Hne].
  - rewrite list_lookup_middle in H by done. injection H as ->.
    rewrite insert_app_r_alt by done. replace (length l - length l)%nat with 0%nat by lia. simpl.
    rewrite take_app_length. solve_Permutation.
  - assert (Hi : (i < length l)%nat) by (apply lookup_lt_Some in H; rewrite length_app in H; simpl in H; lia).
    rewrite lookup_app_l in H by done. rewrite insert_app_l by done.
    rewrite take_app_length' by (by rewrite length_insert).
    rewrite <- (take_drop_middle l i x H) at 2. rewrite insert_take_drop by done. solve_Permutation.
Qed.
