(* ===== verification/D3DTypes.v ===== *)
(** The D3D9 constants the components read ([types/src/device.rs]) and the
    flag tests over them. *)

From S2P Require Import Prelude.

Definition D3DLOCK_READONLY : Z := 16.
Definition D3DLOCK_NOOVERWRITE : Z := 4096.
Definition D3DLOCK_DISCARD : Z := 8192.
Definition D3DLOCK_NO_DIRTY_UPDATE : Z := 32768.
Definition D3DUSAGE_RENDERTARGET : Z := 1.
Definition D3DUSAGE_DEPTHSTENCIL : Z := 2.
Definition D3DUSAGE_WRITEONLY : Z := 8.
Definition D3DUSAGE_SOFTWAREPROCESSING : Z := 16.
Definition D3DUSAGE_DYNAMIC : Z := 512.
Definition D3DPOOL_DEFAULT : Z := 0.
Definition D3DPOOL_MANAGED : Z := 1.

Lemma flag_lor f a b : flag f (Z.lor a b) = flag f a || flag f b.
Proof.
  unfold flag. rewrite Z.land_lor_distr_r, <- negb_andb. f_equal.
  apply eq_bool_prop_intro. rewrite andb_True, !Is_true_true, !Z.eqb_eq.
  apply Z.lor_eq_0_iff.
Qed.

(** Clearing the bits of [b] leaves the test of a disjoint mask alone, and
    makes the test of [b] fail. *)
Lemma flag_ldiff f a b : Z.land a b = 0 -> flag (Z.ldiff f b) a = flag f a.
Proof.
  intros Hd. unfold flag. do 2 f_equal. apply Z.bits_inj. intros n.
  rewrite !Z.land_spec, Z.ldiff_spec. assert (H := f_equal (λ z, Z.testbit z n) Hd). simpl in H.
  rewrite Z.land_spec, Z.bits_0 in H. destruct (Z.testbit f n), (Z.testbit a n), (Z.testbit b n); done.
Qed.

Lemma flag_ldiff_same f b : flag (Z.ldiff f b) b = false.
Proof.
  unfold flag. apply negb_false_iff, Z.eqb_eq. apply Z.bits_inj. intros n.
  rewrite Z.land_spec, Z.ldiff_spec, Z.bits_0. destruct (Z.testbit f n), (Z.testbit b n); done.
Qed.

(** Clearing the bits of [b] clears every mask inside it. *)
Lemma flag_ldiff_sub f a b : Z.land a b = a -> flag (Z.ldiff f b) a = false.
Proof.
  intros Hs. unfold flag. apply negb_false_iff, Z.eqb_eq. apply Z.bits_inj. intros n.
  assert (H := f_equal (λ z, Z.testbit z n) Hs). simpl in H. rewrite Z.land_spec in H.
  rewrite Z.land_spec, Z.ldiff_spec, Z.bits_0.
  destruct (Z.testbit f n), (Z.testbit a n), (Z.testbit b n); done.
Qed.

(** ** Formats ([types/src/device.rs]) *)

Definition D3DFMT_R8G8B8 : Z := 20.
Definition D3DFMT_A8R8G8B8 : Z := 21.
Definition D3DFMT_X8R8G8B8 : Z := 22.
Definition D3DFMT_R5G6B5 : Z := 23.
Definition D3DFMT_X1R5G5B5 : Z := 24.
Definition D3DFMT_A1R5G5B5 : Z := 25.
Definition D3DFMT_A4R4G4B4 : Z := 26.
Definition D3DFMT_A8 : Z := 28.
Definition D3DFMT_A8B8G8R8 : Z := 32.
Definition D3DFMT_X8B8G8R8 : Z := 33.
Definition D3DFMT_A16B16G16R16 : Z := 36.
Definition D3DFMT_L8 : Z := 50.
Definition D3DFMT_A8L8 : Z := 51.
Definition D3DFMT_A32B32G32R32F : Z := 116.
Definition D3DFMT_YUY2 : Z := 0x32595559.
Definition D3DFMT_UYVY : Z := 0x59565955.
Definition D3DFMT_YV12 : Z := 0x32315659.
Definition D3DFMT_NV12 : Z := 0x3231564E.
