(* ===== verification/DirtyRange.v ===== *)
(** [dirty_range.rs]: the single conjoined byte span a staged vertex or index
    buffer has dirtied, and the byte ranges of a run of vertices. *)

From S2P Require Import Prelude.

Module DirtyRange.

(** A half-open [[min, max)] byte range; empty when [min >= max]. *)
Record t := mk { min : Z; max : Z }.

Definition empty : t := mk 0 0.

Definition full (logical_len : Z) : t := mk 0 logical_len.

Definition is_empty (r : t) : bool := max r <=? min r.

Definition span (r : t) : option (Z * Z) :=
  if is_empty r then None else Some (min r, max r).

Definition clear (_ : t) : t := mk 0 0.

Definition overlaps (r : t) (off end_ : Z) : bool :=
  negb (is_empty r) && (min r <? end_) && (off <? max r).

Definition conjoin (r : t) (offset size logical_len : Z) : t :=
  let start := if logical_len <? offset then logical_len else offset in
  let remaining := (logical_len -% start)%u32 in
  let span := if (size =? 0) || (remaining <? size) then remaining else size in
  let end_ := (start +% span)%u32 in
  if end_ <=? start then r
  else if is_empty r then mk start end_
  else mk (if start <? min r then start else min r)
          (if max r <? end_ then end_ else max r).

(** ** What a range denotes *)

(** Byte [b] lies in the tracked range. *)
Definition covers (r : t) (b : Z) : Prop := min r <= b < max r.

(** Byte [b] lies in the region a D3D9 [Lock(offset, size)] of a
    [logical_len]-byte buffer names: a zero [size] runs to the end. *)
Definition lock_region (offset size logical_len b : Z) : Prop :=
  offset <= b < logical_len /\ (size = 0 \/ b < offset + size).

(** The range of a [logical_len]-byte buffer never leaves the buffer. *)
Definition within (logical_len : Z) (r : t) : Prop :=
  0 <= min r /\ max r <= logical_len.

#[global] Instance covers_dec r b : Decision (covers r b).
Proof. unfold covers. apply _. Defined.

Lemma is_empty_covers r : is_empty r = true <-> forall b, ~ covers r b.
Proof.
  unfold is_empty, covers. split.
  - intros. reflect_cmp. lia.
  - intros H. apply Z.leb_le. destruct (Z.le_gt_cases (max r) (min r)); [done|].
    specialize (H (min r)). lia.
Qed.

Section conjoin.
Context (offset size logical_len : Z).
Context (Hoff : is_u32 offset) (Hsize : is_u32 size) (Hlen : is_u32 logical_len).

(** The clamped region [conjoin] computes is the lock region: the machine
operations do not wrap. *)
Lemma conjoin_exact r :
  let start := Z.min offset logical_len in
  let stop := if size =? 0 then logical_len else Z.min logical_len (start + size) in
  conjoin r offset size logical_len =
  if stop <=? start then r
  else if is_empty r then mk start stop
  else mk (Z.min start (min r)) (Z.max stop (max r)).
Proof.
  intros start stop. unfold conjoin.
  replace (if logical_len <? offset then logical_len else offset) with start
  by (unfold start; split_ifs; lia).
  assert (0 <= start <= logical_len) by (unfold start; unfold_mach; lia).
  rewrite (wrap32_small (logical_len - start)) by (unfold_mach; lia).
  replace (if (size =? 0) || (logical_len - start <? size) then logical_len - start else size)
  with (stop - start).
  2:{ unfold stop. destruct (size =? 0) eqn:E; simpl; split_ifs; unfold_mach; lia. }
  assert (start <= stop <= logical_len) by (unfold stop; unfold_mach; split_ifs; lia).
  rewrite wrap32_small by (unfold_mach; lia).
  replace (start + (stop - start)) with stop by lia.
  destruct (stop <=? start) eqn:?, (is_empty r) eqn:?; try done.
  f_equal; split_ifs; lia.
Qed.

(** Everything already tracked stays tracked, and every byte of the lock
region becomes tracked. *)
Lemma conjoin_covers r b :
  covers r b \/ lock_region offset size logical_len b ->
  covers (conjoin r offset size logical_len) b.
Proof.
  rewrite conjoin_exact. unfold covers, lock_region, is_empty. unfold_mach.
  intros H; destruct (size =? 0) eqn:?; split_ifs; simpl in *; lia.
Qed.

Lemma conjoin_within r :
  within logical_len r -> within logical_len (conjoin r offset size logical_len).
Proof.
  rewrite conjoin_exact. unfold within. unfold_mach.
  intros; destruct (size =? 0) eqn:?; split_ifs; simpl in *; lia.
Qed.

(** The result is the convex hull: a covered byte lies between two bytes of
the old range or the lock region. *)
Lemma conjoin_hull r b :
  covers (conjoin r offset size logical_len) b ->
  exists lo hi, lo <= b <= hi
  /\ (covers r lo \/ lock_region offset size logical_len lo)
  /\ (covers r hi \/ lock_region offset size logical_len hi).
Proof.
  rewrite conjoin_exact. unfold covers, lock_region, is_empty. unfold_mach.
  set (start := Z.min offset logical_len).
  set (stop := if size =? 0 then logical_len else Z.min logical_len (start + size)).
  assert (Hstop : stop = logical_len \/ (size <> 0 /\ stop = start + size))
  by (unfold stop; split_ifs; lia).
  destruct (stop <=? start) eqn:?; [intros; exists b, b; lia|].
  assert (offset = start) by (unfold start, stop in *; split_ifs; lia).
  assert (stop <= logical_len) by (unfold stop; split_ifs; lia).
  assert (Hs : size = 0 \/ stop <= offset + size) by (unfold stop; split_ifs; lia).
  reflect_cmp. destruct (max r <=? min r) eqn:?; simpl; intros; reflect_cmp.
  { exists b, b; lia. }
  exists (Z.min start (min r)), (Z.max stop (max r) - 1). repeat split; [lia|lia| |];
  [destruct (Z.le_gt_cases start (min r))|destruct (Z.le_gt_cases (max r) stop)]; lia.
Qed.
End conjoin.

End DirtyRange.

(** ** The vertex-buffer bytes a draw reads *)

Definition nonindexed_vb_range (stream_offset stride start_vertex vertex_count : Z)
    : option (Z * Z) :=
  if vertex_count =? 0 then None
  else
    match (start_vertex *? stride)%u32 with
    | None => Some (stream_offset, 0)
    | Some skip =>
        match (stream_offset +? skip)%u32 with
        | None => Some (stream_offset, 0)
        | Some start =>
            match (vertex_count *? stride)%u32 with
            | Some size => Some (start, size)
            | None => Some (start, 0)
            end
        end
    end.

Definition indexed_vb_range_lower_bound (stream_offset stride base_vertex index_count : Z)
    : option (Z * Z) :=
  if index_count =? 0 then None
  else if base_vertex <? 0 then Some (stream_offset, 0)
  else
    match (Z.abs base_vertex *? stride)%u32 with
    | None => Some (stream_offset, 0)
    | Some skip =>
        match (stream_offset +? skip)%u32 with
        | Some start => Some (start, 0)
        | None => Some (stream_offset, 0)
        end
    end.

Section ranges.
Context (offset stride : Z) (Hoffset : is_u32 offset) (Hstride : is_u32 stride).

(** The element of vertex [v] lies in the range a non-indexed draw over [n]
vertices from [first] records; a size of 0 runs to the end of the buffer. *)
Lemma nonindexed_vb_range_element first n v :
  is_u32 first -> is_u32 n -> first <= v < first + n ->
  exists off size, nonindexed_vb_range offset stride first n = Some (off, size)
  /\ is_u32 off /\ is_u32 size /\ off <= offset + v * stride
  /\ (size = 0 \/ 0 < stride /\ offset + v * stride + stride <= off + size).
Proof.
  intros Hf Hn Hv. unfold nonindexed_vb_range.
  assert (n <> 0) by lia. destruct (n =? 0) eqn:?; reflect_cmp; [done|].
  assert (first * stride <= v * stride) by (unfold_mach; nia).
  assert (v * stride + stride <= first * stride + n * stride) by (unfold_mach; nia).
  assert (0 < stride \/ stride = 0) by (unfold_mach; lia).
  repeat case_match; inv_checked; eexists _, _; split; try done; unfold_mach; nia.
Qed.

Lemma indexed_vb_range_element base count v :
  -2147483648 <= base <= 2147483647 -> 0 < count -> 0 <= v -> base <= v ->
  exists off, indexed_vb_range_lower_bound offset stride base count = Some (off, 0)
  /\ is_u32 off /\ off <= offset + v * stride.
Proof.
  intros Hb Hc Hv Hle. unfold indexed_vb_range_lower_bound.
  destruct (count =? 0) eqn:?; reflect_cmp; [lia|].
  assert (0 <= v * stride) by (unfold_mach; nia).
  destruct (base <? 0) eqn:?; reflect_cmp; [eexists; split; [done|unfold_mach; lia]|].
  assert (Z.abs base * stride <= v * stride) by (unfold_mach; nia).
  repeat case_match; inv_checked; eexists; split; try done; unfold_mach; lia.
Qed.

Lemma nonindexed_vb_range_u32 first n off size :
  is_u32 first -> is_u32 n -> nonindexed_vb_range offset stride first n = Some (off, size) ->
  is_u32 off /\ is_u32 size.
Proof.
  intros Hf Hn. unfold nonindexed_vb_range. repeat case_match; intros; simplify_eq; inv_checked; unfold_mach; lia.
Qed.

Lemma indexed_vb_range_u32 base count off size :
  indexed_vb_range_lower_bound offset stride base count = Some (off, size) -> is_u32 off /\ is_u32 size.
Proof.
  unfold indexed_vb_range_lower_bound. repeat case_match; intros; simplify_eq; inv_checked; unfold_mach; lia.
Qed.
End ranges.
