(* ===== verification/PageBox.v ===== *)
(** [page_box.rs]: page-granular allocations and their padded length, the
    allocation identity and the live-bytes gauge. *)

From S2P Require Import Prelude.

Definition PAGE_SIZE : Z := 16384.

Definition isize_max (usize_bits : Z) : Z := 2 ^ (usize_bits - 1) - 1.
Definition usize_max (usize_bits : Z) : Z := 2 ^ usize_bits - 1.

(** A page box: its allocation identity, padded and logical length, whether
    the native allocator owns it (a guest lease does otherwise), the count of
    readers and the bytes themselves, addressed from the start of the box. *)
Record PageBox := mkPageBox {
  pb_generation : Z;
  pb_len : Z;
  pb_logical_len : Z;
  pb_native_owned : bool;
  pb_readers : Z;
  pb_bytes : Z -> Z;
}.

(** The padded length [padded_len] names; [None] is its overflow panic. *)
Definition padded_len (usize_bits logical_len : Z) : option Z :=
  checked (usize_max usize_bits) (div_ceil (Z.max logical_len 1) PAGE_SIZE * PAGE_SIZE).

(** [Layout::from_size_align] refuses a size that could not be rounded up to
    the alignment inside [isize]. *)
Definition try_layout_for (usize_bits logical_len : Z) : option Z :=
  match padded_len usize_bits logical_len with
  | None => None
  | Some padded =>
      if padded <=? isize_max usize_bits + 1 - PAGE_SIZE then Some padded else None
  end.

(** The process-wide counters: last identity handed out, live padded bytes. *)
Record Statics := mkStatics { last_generation : Z; live_bytes : Z }.

Definition adopt (s : Statics) (padded logical : Z) (contents : Z -> Z)
    : PageBox * Statics :=
  (mkPageBox (wrap64 (last_generation s + 1)) padded logical true 0 contents,
   mkStatics (wrap64 (last_generation s + 1)) (wrap64 (live_bytes s + padded))).

(** [heap] is what the allocator answers: the contents of the pages it hands
    out, or nothing when it is out of memory. *)
Definition try_new_uninit (usize_bits : Z) (heap : Z -> option (Z -> Z)) (s : Statics)
    (logical : Z) : option (PageBox * Statics) :=
  padded ← try_layout_for usize_bits logical;
  contents ← heap padded;
  Some (adopt s padded logical contents).

Definition try_new_zeroed (usize_bits : Z) (heap : Z -> option (Z -> Z)) (s : Statics)
    (logical : Z) : option (PageBox * Statics) :=
  padded ← try_layout_for usize_bits logical;
  _ ← heap padded;
  Some (adopt s padded logical (fun _ => 0)).

Definition has_readers (pb : PageBox) : bool := negb (pb_readers pb =? 0).

Definition set_logical_len (pb : PageBox) (n : Z) : PageBox :=
  mkPageBox (pb_generation pb) (pb_len pb) n (pb_native_owned pb) (pb_readers pb) (pb_bytes pb).

(** Dropping the box: a native one returns its bytes to the gauge. *)
Definition drop_box (s : Statics) (pb : PageBox) : Statics :=
  if pb_native_owned pb
  then mkStatics (last_generation s) (wrap64 (live_bytes s - pb_len pb))
  else s.

(** [ptr::copy_nonoverlapping] of [n] bytes into a box at [dst_off], read from
    [src] at [src_off]. *)
Definition copy_into (pb : PageBox) (dst_off : Z) (src : Z -> Z) (src_off n : Z) : PageBox :=
  mkPageBox (pb_generation pb) (pb_len pb) (pb_logical_len pb) (pb_native_owned pb) (pb_readers pb)
    (fun b => if (dst_off <=? b) && (b <? dst_off + n) then src (src_off + (b - dst_off))
              else pb_bytes pb b).

(** ** Lemmas *)

(** The padded length is the least positive whole number of pages that holds
    [n] bytes. *)
Lemma padded_len_spec w n p :
  0 <= n -> padded_len w n = Some p ->
  n <= p < n + PAGE_SIZE + (if n =? 0 then 1 else 0)
  /\ p mod PAGE_SIZE = 0 /\ PAGE_SIZE <= p.
Proof.
  intros Hn [-> Hr]%checked_Some. unfold PAGE_SIZE in *.
  pose proof (div_ceil_mul_ge (Z.max n 1) 16384). pose proof (div_ceil_mul_lt (Z.max n 1) 16384).
  split; [split_ifs; lia|]. split; [apply Z_mod_mult|]. lia.
Qed.

Lemma copy_into_byte pb d src so n b :
  pb_bytes (copy_into pb d src so n) b =
    if (d <=? b) && (b <? d + n) then src (so + (b - d)) else pb_bytes pb b.
Proof. done. Qed.


(** ** Published reads

    Boxes are shared ([Arc<PageBox>]): a store maps each allocation's identity
    to the box, and a [PageBoxRead] is the identity it reads. *)

Notation Pages := (gmap Z PageBox).

Definition set_readers (pb : PageBox) (n : Z) : PageBox :=
  mkPageBox (pb_generation pb) (pb_len pb) (pb_logical_len pb) (pb_native_owned pb) n (pb_bytes pb).

(** [PageBoxRead::new]; [None] is its panic on an exhausted count. *)
Definition read_new (pages : Pages) (id : Z) : option Pages :=
  pb ← pages !! id;
  n ← (pb_readers pb +? 1)%u32;
  Some (<[id := set_readers pb n]> pages).

(** [PageBoxRead::drop]. *)
Definition read_drop (pages : Pages) (id : Z) : Pages :=
  match pages !! id with
  | Some pb => <[id := set_readers pb (pb_readers pb -% 1)%u32]> pages
  | None => pages
  end.
