(* ===== verification/ScratchArena.v ===== *)
(** [core/src/scratch.rs]: the bump arena of a frame, its two cursors (payloads
    and commands) over one pool of chunks, and the table of command regions;
    with the invariant that nothing handed out is written again.

    Memory is one byte function over absolute addresses.  The heap answers a
    request for a chunk with a base address, or with nothing when it is out of
    memory; the code aborts then, which is [None] here, as a panic is. *)

From S2P Require Import Prelude PageBox.

Definition ALIGN : Z := 16.
Definition DEFAULT_CHUNK_SIZE : Z := 64 * 1024.
Definition COMMAND_ALIGNMENT : Z := 8.
Definition COMMAND_HEADER_BYTES : Z := 8.

Inductive WireError := Truncated | TooLarge | AllocationFailed | InvalidValue.

#[export] Instance WireError_eq : EqDecision WireError.
Proof. solve_decision. Defined.

(** ** Bytes *)

  Abbreviation Memory := (Z -> Z).

Definition bytes_at (m : Memory) (p n : Z) : list Z := (λ i, m (p + i)) <$> seqZ 0 n.

(** The bytes [w 0], [w 1], ... in place of the [n] at [p]. *)
Definition write_at (m : Memory) (p n : Z) (w : Z -> Z) : Memory :=
  λ x, if (p <=? x) && (x <? p + n) then w (x - p) else m x.

Definition byte_of (bs : list Z) (i : Z) : Z := default 0 (bs !! Z.to_nat i).
Definition size_of (bs : list Z) : Z := Z.of_nat (length bs).

(** An unsigned integer of [n] bytes, lowest first. *)
Fixpoint le_bytes (n : nat) (v : Z) : list Z :=
  match n with O => [] | S n => v mod 256 :: le_bytes n (v / 256) end.
Definition le_value (bs : list Z) : Z := foldr (λ b acc, b + 256 * acc) 0 bs.

(** ** The arena *)

Record AlignedChunk := mkChunk { base : Z; length_ : Z; used : Z }.

Record CommandRegion := mkRegion { address : Z; used_bytes : Z; reserved_ : Z }.

Record ScratchArena := mkArena {
  chunks : list AlignedChunk; next_chunk : nat;
  payload_chunk : option nat; command_chunk : option nat;
  command_base : Z; command_cursor : Z; command_limit : Z;
  command_regions : list CommandRegion; chunk_size : Z; mem : Memory }.

Definition with_chunk_size (m : Memory) (size : Z) : ScratchArena :=
  mkArena [] 0 None None 0 0 0 [] size m.

Definition with_mem (a : ScratchArena) (m : Memory) : ScratchArena :=
  mkArena (chunks a) (next_chunk a) (payload_chunk a) (command_chunk a) (command_base a)
    (command_cursor a) (command_limit a) (command_regions a) (chunk_size a) m.
Definition with_chunks (a : ScratchArena) (l : list AlignedChunk) : ScratchArena :=
  mkArena l (next_chunk a) (payload_chunk a) (command_chunk a) (command_base a)
    (command_cursor a) (command_limit a) (command_regions a) (chunk_size a) (mem a).
Definition with_next (a : ScratchArena) (n : nat) : ScratchArena :=
  mkArena (chunks a) n (payload_chunk a) (command_chunk a) (command_base a)
    (command_cursor a) (command_limit a) (command_regions a) (chunk_size a) (mem a).
Definition with_payload (a : ScratchArena) (i : nat) : ScratchArena :=
  mkArena (chunks a) (next_chunk a) (Some i) (command_chunk a) (command_base a)
    (command_cursor a) (command_limit a) (command_regions a) (chunk_size a) (mem a).
Definition with_regions (a : ScratchArena) (l : list CommandRegion) : ScratchArena :=
  mkArena (chunks a) (next_chunk a) (payload_chunk a) (command_chunk a) (command_base a)
    (command_cursor a) (command_limit a) l (chunk_size a) (mem a).
Definition with_cursor (a : ScratchArena) (c : Z) : ScratchArena :=
  mkArena (chunks a) (next_chunk a) (payload_chunk a) (command_chunk a) (command_base a)
    c (command_limit a) (command_regions a) (chunk_size a) (mem a).
Definition with_region (a : ScratchArena) (i : nat) (b limit : Z) : ScratchArena :=
  mkArena (chunks a) (next_chunk a) (payload_chunk a) (Some i) b b limit
    (command_regions a) (chunk_size a) (mem a).

Definition set_used (c : AlignedChunk) (n : Z) : AlignedChunk := mkChunk (base c) (length_ c) n.

(** [self.chunks[index].used = n], which panics out of range. *)
Definition set_chunk_used (a : ScratchArena) (i : nat) (n : Z) : option ScratchArena :=
  c ← chunks a !! i; Some (with_chunks a (<[i := set_used c n]> (chunks a))).

Definition align_up (n align : Z) : Z := Z.land (n + align - 1) (Z.lnot (align - 1)).

(** What a chunk holds of the heap, whole 16-byte words. *)
Definition chunk_room (size : Z) : Z := Z.max (div_ceil size 16) 1 * 16.

Definition has_command_room (a : ScratchArena) (reserved : Z) : bool :=
  reserved <=? command_limit a - command_cursor a.
Definition open_command_bytes (a : ScratchArena) : Z := command_cursor a - command_base a.

Definition publish_command_region (a : ScratchArena) : (WireError + unit) * ScratchArena :=
  let used := open_command_bytes a in
  if u32_max <? used then (inl TooLarge, a)
  else match last (command_regions a) with
       | None => (inr tt, a)
       | Some r => (inr tt, with_regions a (removelast (command_regions a)
                              ++ [mkRegion (address r) used (reserved_ r)]))
       end.

(** Bytes a command with a payload of at most [bound] bytes reserves. *)
Definition command_reservation (usize_bits bound : Z) : WireError + Z :=
  match checked (usize_max usize_bits) (bound + COMMAND_HEADER_BYTES) with
  | None => inl TooLarge
  | Some total =>
      if (u32_max <? total) || (isize_max usize_bits <? total) then inl TooLarge
      else match checked (usize_max usize_bits) (total + (COMMAND_ALIGNMENT - 1)) with
           | None => inl TooLarge
           | Some padded => inr (Z.land padded (Z.lnot (COMMAND_ALIGNMENT - 1)))
           end
  end.

(** A callback fills the payload window and reports how much of it it used. *)
  Abbreviation Fill := ((Z -> Z) -> (Z -> Z) * (WireError + N)).

Section Operations.
Context (usize_bits : Z).
(** The heap, given the chunks it must keep clear of and the bytes asked for;
    and whether the region table may grow past the length it has. *)
Context (place : list AlignedChunk -> Z -> option Z) (can_grow : nat -> bool).

Definition alloc_zeroed_chunk (a : ScratchArena) (size : Z) : option (AlignedChunk * Memory) :=
  b ← place (chunks a) (chunk_room size);
  Some (mkChunk b size 0, write_at (mem a) b (chunk_room size) (λ _, 0)).

Definition acquire_chunk (a : ScratchArena) (required : Z) : option (nat * ScratchArena) :=
  let index := next_chunk a in
  let capacity := Z.max required (chunk_size a) in
  a ← (if (index =? length (chunks a))%nat then
         '(c, m) ← alloc_zeroed_chunk a capacity;
         Some (with_mem (with_chunks a (chunks a ++ [c])) m)
       else
         c ← chunks a !! index;
         if length_ c <? capacity then
           '(c', m) ← alloc_zeroed_chunk a capacity;
           Some (with_mem (with_chunks a (<[index := c']> (chunks a))) m)
         else Some a);
  a ← set_chunk_used a index 0;
  Some (index, with_next a (S index)).

Definition reserve_slow (a : ScratchArena) (aligned : Z) : option (Z * ScratchArena) :=
  '(index, a) ← acquire_chunk a aligned;
  let a := if aligned <=? chunk_size a then with_payload a index else a in
  c ← chunks a !! index;
  a ← set_chunk_used a index aligned;
  Some (base c, a).

Definition reserve (a : ScratchArena) (size : Z) : option (Z * ScratchArena) :=
  let aligned := align_up size ALIGN in
  match payload_chunk a with
  | Some index =>
      c ← chunks a !! index;
      if aligned <=? length_ c - used c then
        a ← set_chunk_used a index (used c + aligned);
        Some (base c + used c, a)
      else reserve_slow a aligned
  | None => reserve_slow a aligned
  end.

Definition alloc (a : ScratchArena) (data : list Z) : option (Z * ScratchArena) :=
  '(p, a) ← reserve a (size_of data);
  Some (p, with_mem a (write_at (mem a) p (size_of data) (byte_of data))).

Definition open_command_region (a : ScratchArena) (reserved : Z)
    : option ((WireError + unit) * ScratchArena) :=
  if negb (can_grow (length (command_regions a))) then Some (inl AllocationFailed, a)
  else match publish_command_region a with
  | (inl e, a) => Some (inl e, a)
  | (inr _, a) =>
      a ← match command_chunk a with
          | Some index => set_chunk_used a index (open_command_bytes a)
          | None => Some a
          end;
      '(index, a) ← acquire_chunk a reserved;
      c ← chunks a !! index;
      let a := with_region a index (base c) (base c + length_ c) in
      Some (inr tt, with_regions a (command_regions a ++ [mkRegion (base c) 0 0]))
  end.

(** [CommandHeader] as it lies in memory. *)
Definition header_bytes (opcode operand record_bytes : Z) : list Z :=
  le_bytes 2 opcode ++ le_bytes 2 operand ++ le_bytes 4 record_bytes.

Definition write_command (a : ScratchArena) (opcode operand bound : Z) (fill : Fill)
    : option ((WireError + Z) * ScratchArena) :=
  match command_reservation usize_bits bound with
  | inl e => Some (inl e, a)
  | inr reserved =>
      '(opened, a) ← (if has_command_room a reserved then Some (inr tt, a)
                      else open_command_region a reserved);
      match opened with
      | inl e => Some (inl e, a)
      | inr _ =>
          let p := command_cursor a in
          let '(window, result) := fill (λ i, mem a (p + COMMAND_HEADER_BYTES + i)) in
          let a := with_mem a (write_at (mem a) (p + COMMAND_HEADER_BYTES) bound window) in
          match result with
          | inl e => Some (inl e, a)
          | inr n =>
              let payload_used := Z.of_N n in
              if bound <? payload_used then Some (inl TooLarge, a)
              else
                let used := payload_used + COMMAND_HEADER_BYTES in
                let aligned_used := align_up used COMMAND_ALIGNMENT in
                let a := with_mem a (write_at (mem a) (p + used) (aligned_used - used) (λ _, 0)) in
                if u32_max <? used then Some (inl TooLarge, a)
                else
                  let a := with_mem a (write_at (mem a) p COMMAND_HEADER_BYTES
                                         (byte_of (header_bytes opcode operand used))) in
                  Some (inr p, with_cursor a (command_cursor a + aligned_used))
          end
      end
  end.

(** [command_slot] and the slot's [write], the payload given as its bytes. *)
Definition slot_write (a : ScratchArena) (opcode operand : Z) (payload : list Z) : option ScratchArena :=
  let record_bytes := COMMAND_HEADER_BYTES + size_of payload in
  let cursor := command_cursor a in
  if command_limit a - cursor <? record_bytes then None
  else Some (with_cursor (with_mem a (write_at (mem a) cursor record_bytes
               (byte_of (header_bytes opcode operand record_bytes ++ payload))))
               (cursor + record_bytes)).

Definition clear (a : ScratchArena) : ScratchArena :=
  mkArena ((λ c, set_used c 0) <$> filter (λ c, length_ c <= chunk_size a) (chunks a)) 0 None None
    0 0 0 [] (chunk_size a) (mem a).
End Operations.

Definition bytes_used (a : ScratchArena) : Z :=
  zsum (used <$> chunks a) + open_command_bytes a.

(** ** Bytes, read back *)

Lemma length_bytes_at m p n : length (bytes_at m p n) = Z.to_nat n.
Proof. unfold bytes_at. by rewrite length_fmap, length_seqZ. Qed.

Lemma bytes_at_ext m m' p n :
  (forall x, p <= x < p + n -> m' x = m x) -> bytes_at m' p n = bytes_at m p n.
Proof.
  intros H. apply list_fmap_ext. intros i x Hx. apply lookup_seqZ in Hx as [-> ?]. apply H. lia.
Qed.

Lemma bytes_at_app m p n k : 0 <= n -> 0 <= k -> bytes_at m p (n + k) = bytes_at m p n ++ bytes_at m (p + n) k.
Proof.
  intros. unfold bytes_at. rewrite seqZ_app, fmap_app by done. f_equal.
  rewrite Z.add_0_l, <- (Z.add_0_r n) at 1. rewrite <- fmap_add_seqZ, <- list_fmap_compose.
  apply list_fmap_ext. intros i x _. cbn. f_equal. lia.
Qed.

Lemma write_at_out m p n w x : ~ (p <= x < p + n) -> write_at m p n w x = m x.
Proof. unfold write_at. intros. destruct ((p <=? x) && (x <? p + n)) eqn:E; [reflect_cmp; lia|done]. Qed.

Lemma write_at_in m p n w x : p <= x < p + n -> write_at m p n w x = w (x - p).
Proof. unfold write_at. intros. destruct ((p <=? x) && (x <? p + n)) eqn:E; [done|]. apply andb_false_iff in E as []; reflect_cmp; lia. Qed.

Lemma bytes_at_write m p n w : bytes_at (write_at m p n w) p n = w <$> seqZ 0 n.
Proof.
  apply list_fmap_ext. intros i x Hx. apply lookup_seqZ in Hx as [-> ?].
  rewrite write_at_in by lia. f_equal. lia.
Qed.

Lemma bytes_at_write_out m p n w q k : q + k <= p \/ p + n <= q -> bytes_at (write_at m p n w) q k = bytes_at m q k.
Proof. intros. apply bytes_at_ext. intros. apply write_at_out. lia. Qed.

Lemma byte_of_list bs : byte_of bs <$> seqZ 0 (size_of bs) = bs.
Proof.
  apply list_eq. intros i. rewrite list_lookup_fmap. unfold size_of.
  destruct (decide (i < length bs)%nat) as [Hi|Hi].
  - rewrite (lookup_seqZ_lt _ _ i) by lia. cbn. unfold byte_of. rewrite Z.add_0_l, Nat2Z.id.
    apply lookup_lt_is_Some in Hi as [b ->]. done.
  - rewrite lookup_seqZ_ge, lookup_ge_None_2 by lia. done.
Qed.

Lemma bytes_at_store m p bs : bytes_at (write_at m p (size_of bs) (byte_of bs)) p (size_of bs) = bs.
Proof. by rewrite bytes_at_write, byte_of_list. Qed.

Lemma length_le_bytes n v : length (le_bytes n v) = n.
Proof. revert v. induction n as [|n IH]; intros v; cbn; [done|]. by rewrite IH. Qed.

Lemma le_value_bytes n v : 0 <= v < 256 ^ Z.of_nat n -> le_value (le_bytes n v) = v.
Proof.
  revert v. induction n as [|n IH]; intros v Hv; [cbn in *; lia|].
  cbn [le_bytes le_value foldr]. fold (le_value (le_bytes n (v / 256))). rewrite IH.
  - pose proof (Z.div_mod v 256). lia.
  - rewrite Nat2Z.inj_succ, Z.pow_succ_r in Hv by lia.
    split; [apply Z.div_pos; lia | apply Z.div_lt_upper_bound; lia].
Qed.

(** ** Alignment *)

Lemma align_up_spec n k : 0 <= n -> 0 <= k -> align_up n (2 ^ k) = div_ceil n (2 ^ k) * 2 ^ k.
Proof.
  intros Hn Hk. unfold align_up. assert (0 < 2 ^ k) as Hp by lia.
  replace (Z.lnot (2 ^ k - 1)) with (Z.lnot (Z.ones k)) by (rewrite Z.ones_equiv; f_equal; lia).
  rewrite <- Z.ldiff_land, Z.ldiff_ones_r, Z.shiftl_mul_pow2, Z.shiftr_div_pow2 by lia. f_equal.
  unfold div_ceil. pose proof (Z.div_mod n (2 ^ k)) as D. pose proof (Z.mod_pos_bound n (2 ^ k) Hp) as M.
  destruct (n mod 2 ^ k =? 0) eqn:E; reflect_cmp; symmetry;
    [apply (Z.div_unique _ _ _ (2 ^ k - 1)) | apply (Z.div_unique _ _ _ (n mod 2 ^ k - 1))]; lia.
Qed.

Lemma align_up_16 n : 0 <= n -> n <= align_up n ALIGN < n + 16 /\ align_up n ALIGN mod 16 = 0.
Proof.
  intros. change ALIGN with (2 ^ 4). rewrite align_up_spec by lia. change (2 ^ 4) with 16.
  pose proof (div_ceil_mul_ge n 16). pose proof (div_ceil_mul_lt n 16). rewrite Z_mod_mult. lia.
Qed.

Lemma align_up_8 n : 0 <= n -> n <= align_up n COMMAND_ALIGNMENT < n + 8 /\ align_up n COMMAND_ALIGNMENT mod 8 = 0.
Proof.
  intros. change COMMAND_ALIGNMENT with (2 ^ 3). rewrite align_up_spec by lia. change (2 ^ 3) with 8.
  pose proof (div_ceil_mul_ge n 8). pose proof (div_ceil_mul_lt n 8). rewrite Z_mod_mult. lia.
Qed.

Lemma chunk_room_ge n : 0 <= n -> n <= chunk_room n.
Proof. intros. unfold chunk_room. pose proof (div_ceil_mul_ge n 16). lia. Qed.

(** ** What the arena has handed out

    A chunk in use ends, for readers, at its [frozen] bytes: what the payload
    cursor has passed, or the committed part of the open command region. *)

Definition in_use (a : ScratchArena) (i : nat) (c : AlignedChunk) : Prop :=
  chunks a !! i = Some c /\ (i < next_chunk a)%nat.

Definition frozen (a : ScratchArena) (i : nat) (c : AlignedChunk) : Z :=
  if decide (command_chunk a = Some i) then open_command_bytes a else used c.

(** The [n] bytes at [p] are handed out. *)
Definition held (a : ScratchArena) (p n : Z) : Prop :=
  exists i c, in_use a i c /\ base c <= p /\ p + n <= base c + frozen a i c.

(** What was handed out stays so, with its bytes. *)
Definition keeps (a a' : ScratchArena) : Prop :=
  forall p n, held a p n -> held a' p n /\ bytes_at (mem a') p n = bytes_at (mem a) p n.

#[export] Instance keeps_preorder : PreOrder keeps.
Proof.
  split.
  - by intros a p n H.
  - intros a b c H1 H2 p n H. destruct (H1 p n H) as [Hb E1], (H2 p n Hb) as [Hc E2].
    split; [done|]. by rewrite E2.
Qed.

(** A chunk keeps its place and its frozen bytes. *)
Definition same_place (c c' : AlignedChunk) : Prop := base c' = base c /\ length_ c' = length_ c.

Lemma keeps_intro a a' :
  (forall i c, in_use a i c -> exists c', in_use a' i c' /\ same_place c c' /\ frozen a i c <= frozen a' i c'
    /\ forall x, base c <= x < base c + frozen a i c -> mem a' x = mem a x) ->
  keeps a a'.
Proof.
  intros H p n (i & c & Hc & Hp & Hn). destruct (H i c Hc) as (c' & Hc' & [Eb _] & Hf & Hm). split.
  - exists i, c'. split; [done|]. lia.
  - apply bytes_at_ext. intros x Hx. apply Hm. lia.
Qed.

Section Layout.
Context (top : Z).

Record layout (a : ScratchArena) : Prop := {
  l_size : 0 <= chunk_size a;
  l_chunk : forall i c, chunks a !! i = Some c ->
    0 < base c /\ base c mod 16 = 0 /\ 0 <= length_ c /\ base c + chunk_room (length_ c) <= top;
  l_apart : forall i j c d, i <> j -> chunks a !! i = Some c -> chunks a !! j = Some d ->
    base c + chunk_room (length_ c) <= base d \/ base d + chunk_room (length_ d) <= base c;
  l_next : (next_chunk a <= length (chunks a))%nat;
  l_used : forall i c, in_use a i c -> 0 <= used c <= length_ c;
  l_payload : forall i, payload_chunk a = Some i -> (i < next_chunk a)%nat /\ command_chunk a <> Some i;
  l_closed : command_chunk a = None -> command_base a = 0 /\ command_cursor a = 0 /\ command_limit a = 0;
  l_open : forall i, command_chunk a = Some i -> exists c, in_use a i c /\ command_base a = base c
    /\ command_limit a = base c + length_ c /\ base c <= command_cursor a <= command_limit a
    /\ open_command_bytes a mod 8 = 0 }.

Lemma frozen_le a i c : layout a -> in_use a i c -> 0 <= frozen a i c <= length_ c.
Proof.
  intros L H. unfold frozen. case_decide as E; [|by apply (l_used a L i)].
  destruct (l_open a L i E) as (c' & [Hc' _] & Eb & El & Hr & _). destruct H as [Hc _].
  rewrite Hc in Hc'. injection Hc' as <-. unfold open_command_bytes. lia.
Qed.

Lemma frozen_room a i c : layout a -> in_use a i c -> frozen a i c <= chunk_room (length_ c).
Proof.
  intros L H. pose proof (frozen_le a i c L H). pose proof (chunk_room_ge (length_ c)). lia.
Qed.

(** A write past what a chunk has frozen touches nothing handed out. *)
Lemma write_keeps_chunk a i c p n w j d :
  layout a -> in_use a i c -> base c + frozen a i c <= p -> p + n <= base c + chunk_room (length_ c) ->
  in_use a j d -> forall x, base d <= x < base d + frozen a j d -> write_at (mem a) p n w x = mem a x.
Proof.
  intros L Hc Hp Hn Hd x Hx. apply write_at_out. destruct (decide (i = j)) as [->|Hij].
  - destruct Hc as [Hc _], Hd as [Hd _]. rewrite Hc in Hd. injection Hd as <-. lia.
  - pose proof (frozen_room a j d L Hd). pose proof (frozen_le a i c L Hc).
    destruct (l_apart a L i j c d Hij (proj1 Hc) (proj1 Hd)); lia.
Qed.

Lemma keeps_write a i c p n w :
  layout a -> in_use a i c -> base c + frozen a i c <= p -> p + n <= base c + chunk_room (length_ c) ->
  keeps a (with_mem a (write_at (mem a) p n w)).
Proof.
  intros L Hc Hp Hn. apply keeps_intro. intros j d Hd. exists d. split; [done|]. split; [done|].
  split; [done|]. cbn [mem with_mem]. by apply (write_keeps_chunk a i c).
Qed.

Lemma layout_mem a m : layout a -> layout (with_mem a m).
Proof. by intros []; constructor. Qed.

(** ** The steps the operations are made of *)

Lemma set_chunk_used_Some a i n a' :
  set_chunk_used a i n = Some a' -> exists c, chunks a !! i = Some c /\ a' = with_chunks a (<[i := set_used c n]> (chunks a)).
Proof. unfold set_chunk_used. intros (c & Hc & [= <-])%bind_Some. by exists c. Qed.

Lemma in_use_insert a i c0 n j c :
  chunks a !! i = Some c0 ->
  in_use (with_chunks a (<[i := set_used c0 n]> (chunks a))) j c ->
  exists d, in_use a j d /\ same_place d c /\ (i <> j -> c = d) /\ (i = j -> used c = n).
Proof.
  intros Hi [Hc Hj]. cbn [chunks with_chunks next_chunk] in *.
  destruct (decide (i = j)) as [->|Hij].
  - rewrite list_lookup_insert_eq in Hc by (by eapply lookup_lt_Some). injection Hc as <-.
    exists c0. split; [done|]. split; [done|]. split; [done|]. done.
  - rewrite list_lookup_insert_ne in Hc by done. by exists c.
Qed.

(** Moving the mark of a chunk. *)
Lemma layout_set_used a i c n :
  layout a -> chunks a !! i = Some c -> 0 <= n <= length_ c ->
  layout (with_chunks a (<[i := set_used c n]> (chunks a))).
Proof.
  intros L Hc Hn.
  assert (P : forall j d, <[i := set_used c n]> (chunks a) !! j = Some d -> exists d', chunks a !! j = Some d' /\ same_place d' d).
  { intros j d. rewrite list_lookup_insert_Some. intros [(<- & <- & _) | [_ Hd]]; [by exists c | by exists d]. }
  constructor; cbn [chunks with_chunks next_chunk payload_chunk command_chunk chunk_size command_base command_cursor command_limit].
  - apply L.
  - intros j d (d' & Hd' & [-> ->])%P. by apply (l_chunk a L j).
  - intros j k d e Hjk (d' & Hd' & [-> ->])%P (e' & He' & [-> ->])%P. by apply (l_apart a L j k).
  - rewrite length_insert. apply L.
  - intros j d Hd. apply (in_use_insert a i c n j d Hc) in Hd as (d' & Hd' & [_ El] & Hne & He).
    destruct (decide (i = j)) as [<-|Hij].
    + rewrite (He eq_refl), El. destruct Hd' as [Hd' _]. rewrite Hc in Hd'. injection Hd' as <-. done.
    + rewrite (Hne Hij). by apply (l_used a L j).
  - apply L.
  - apply L.
  - intros j Ej. destruct (l_open a L j Ej) as (d & [Hd Hj] & Hrest). destruct (decide (i = j)) as [<-|Hij].
    + rewrite Hc in Hd. injection Hd as <-. exists (set_used c n). split; [|done]. split; [|done].
      cbn. apply list_lookup_insert_eq. by eapply lookup_lt_Some.
    + exists d. split; [|done]. split; [|done]. cbn. by rewrite list_lookup_insert_ne.
Qed.

(** Moving it up, and writing what it passes. *)
Lemma keeps_bump a i c k p n w :
  layout a -> in_use a i c -> command_chunk a <> Some i -> p = base c + used c -> 0 <= n <= k -> used c + k <= length_ c ->
  keeps a (with_mem (with_chunks a (<[i := set_used c (used c + k)]> (chunks a))) (write_at (mem a) p n w)).
Proof.
  intros L Hc Hi -> Hn Hk. pose proof (l_used a L i c Hc). apply keeps_intro. intros j d Hd.
  pose proof (chunk_room_ge (length_ c)).
  assert (Hm : forall x, base d <= x < base d + frozen a j d -> write_at (mem a) (base c + used c) n w x = mem a x).
  { apply (write_keeps_chunk a i c); [done..| | |done]; [unfold frozen; rewrite decide_False by done|]; lia. }
  destruct (decide (i = j)) as [<-|Hij].
  - exists (set_used c (used c + k)). destruct Hc as [Hc Hlt], Hd as [Hd _]. rewrite Hc in Hd. injection Hd as <-.
    split; [split; [cbn; by rewrite list_lookup_insert_eq by (by eapply lookup_lt_Some)|done]|].
    split; [done|]. split; [|done]. unfold frozen. cbn. rewrite !decide_False by done. cbn. lia.
  - exists d. destruct Hd as [Hd Hlt]. split; [split; [cbn; by rewrite list_lookup_insert_ne|done]|].
    split; [done|]. split; [done|]. done.
Qed.
End Layout.

(** The heap places a chunk below [top], aligned, clear of the chunks it is shown. *)
Definition heap_ok (top : Z) (place : list AlignedChunk -> Z -> option Z) : Prop :=
  forall l n b, place l n = Some b -> 0 < b /\ b mod 16 = 0 /\ b + n <= top
    /\ forall c, c ∈ l -> b + n <= base c \/ base c + chunk_room (length_ c) <= b.

Section Steps.
Context (top : Z) (place : list AlignedChunk -> Z -> option Z) (H : heap_ok top place).

Local Abbreviation layout := (layout top).

(** [a'] is [a] with one more chunk in use, empty, of at least [required] bytes. *)
Record acquired (a : ScratchArena) (required : Z) (a' : ScratchArena) : Prop := {
  q_layout : layout a';
  q_keeps : keeps a a';
  q_next : next_chunk a' = S (next_chunk a);
  q_same : payload_chunk a' = payload_chunk a /\ command_chunk a' = command_chunk a
    /\ command_base a' = command_base a /\ command_cursor a' = command_cursor a
    /\ command_limit a' = command_limit a /\ command_regions a' = command_regions a
    /\ chunk_size a' = chunk_size a;
  q_others : forall j d, in_use a j d -> in_use a' j d;
  q_chunk : exists c, in_use a' (next_chunk a) c /\ used c = 0 /\ required <= length_ c }.

Lemma next_not_open a : layout a -> command_chunk a <> Some (next_chunk a).
Proof. intros L E. destruct (l_open top a L _ E) as (c & [_ Hlt] & _). lia. Qed.

(** The step every path of [acquire_chunk] ends with. *)
Lemma use_chunk a b c required :
  layout a -> layout b -> chunks b !! next_chunk a = Some c -> required <= length_ c ->
  (forall j d, in_use a j d -> in_use b j d) ->
  next_chunk b = next_chunk a -> payload_chunk b = payload_chunk a -> command_chunk b = command_chunk a ->
  command_base b = command_base a -> command_cursor b = command_cursor a -> command_limit b = command_limit a ->
  command_regions b = command_regions a -> chunk_size b = chunk_size a ->
  keeps a b ->
  acquired a required (with_next (with_chunks b (<[next_chunk a := set_used c 0]> (chunks b))) (S (next_chunk a))).
Proof.
  intros La L Hc Hr Ho En Ep Ec Eb Ecu El Er Es K.
  pose proof (next_not_open a La) as Hno.
  pose proof (l_chunk top b L _ _ Hc) as (_ & _ & Hl & _).
  pose proof (layout_set_used top b _ c 0 L Hc ltac:(lia)) as L1.
  set (l := <[next_chunk a := set_used c 0]> (chunks b)) in *.
  assert (Hl' : l !! next_chunk a = Some (set_used c 0)).
  { apply list_lookup_insert_eq. by eapply lookup_lt_Some. }
  constructor; cbn [with_next with_chunks payload_chunk command_chunk command_base command_cursor command_limit
    command_regions chunk_size next_chunk]; [| | done | done | |].
  - constructor; cbn [chunks with_chunks next_chunk with_next payload_chunk command_chunk chunk_size command_base
      command_cursor command_limit].
    + apply L.
    + apply (l_chunk top _ L1).
    + apply (l_apart top _ L1).
    + apply lookup_lt_Some in Hl'. lia.
    + intros j d [Hd Hj]. cbn in *. destruct (decide (j = next_chunk a)) as [->|Hne].
      * rewrite Hl' in Hd. injection Hd as <-. cbn. lia.
      * apply (l_used top _ L1 j d). split; [done|]. cbn. lia.
    + intros j Ej. destruct (l_payload top b L j Ej) as [? ?]. split; [lia|done].
    + apply L.
    + intros j Ej. destruct (l_open top _ L1 j Ej) as (d & [Hd Hj] & Hrest). exists d. split; [|done].
      split; [done|]. cbn in *. lia.
  - etransitivity; [exact K|]. apply keeps_intro. intros j d [Hd Hj]. exists d.
    assert (j <> next_chunk a) by lia.
    split; [split; cbn; [by unfold l; rewrite list_lookup_insert_ne by done|lia]|].
    split; [done|]. split; [done|]. done.
  - intros j d Hj. pose proof (proj2 Hj). destruct (Ho j d Hj) as [Hd _].
    split; cbn; [unfold l; by rewrite list_lookup_insert_ne by lia | lia].
  - exists (set_used c 0). split; [split; cbn; [done|lia]|]. done.
Qed.

Lemma layout_new_chunk a l b size :
  layout a -> 0 <= size -> place (chunks a) (chunk_room size) = Some b ->
  (forall i c, l !! i = Some c -> chunks a !! i = Some c \/ (i = next_chunk a /\ c = mkChunk b size 0)) ->
  (forall i c, (i < next_chunk a)%nat -> chunks a !! i = Some c -> l !! i = Some c) ->
  (length (chunks a) <= length l)%nat ->
  layout (with_mem (with_chunks a l) (write_at (mem a) b (chunk_room size) (λ _, 0)))
  /\ keeps a (with_mem (with_chunks a l) (write_at (mem a) b (chunk_room size) (λ _, 0))).
Proof.
  intros L Hs Hb Hl Hk Hlen. destruct (H _ _ _ Hb) as (Hp & Ha & Ht & Hd).
  assert (Hd' : forall i c, chunks a !! i = Some c -> b + chunk_room size <= base c \/ base c + chunk_room (length_ c) <= b).
  { intros i c Hc. apply Hd. by eapply list_elem_of_lookup_2. }
  split.
  - constructor; cbn [chunks with_chunks with_mem next_chunk payload_chunk command_chunk chunk_size command_base
      command_cursor command_limit]; try apply L.
    + intros i c [Hc|[-> ->]]%Hl; [by apply (l_chunk top a L i)|]. done.
    + intros i j c d Hij Hc Hdj. apply Hl in Hc as [Hc|[-> ->]], Hdj as [Hdj|[-> ->]].
      * by apply (l_apart top a L i j).
      * cbn. destruct (Hd' i c Hc); lia.
      * cbn. destruct (Hd' j d Hdj); lia.
      * done.
    + pose proof (l_next top a L). lia.
    + intros i c [Hc Hi]. cbn in *. apply Hl in Hc as [Hc|[-> ->]]; [by apply (l_used top a L i)|lia].
    + intros i Ei. destruct (l_open top a L i Ei) as (c & [Hc Hi] & Hrest). exists c. split; [|done].
      split; [|done]. cbn. by apply Hk.
  - apply keeps_intro. intros i c [Hc Hi]. exists c. split; [split; cbn; [by apply Hk|done]|].
    split; [done|]. split; [done|]. intros x Hx. apply write_at_out.
    pose proof (frozen_room top a i c L ltac:(done)). destruct (Hd' i c Hc); lia.
Qed.

Lemma acquire_chunk_ok a required i a' :
  layout a -> 0 <= required -> acquire_chunk place a required = Some (i, a') ->
  i = next_chunk a /\ acquired a required a'.
Proof.
  intros L Hr. unfold acquire_chunk. intros (b & Hb & (c' & Hc' & [= <- <-])%bind_Some)%bind_Some.
  split; [done|]. apply set_chunk_used_Some in Hc' as (c & Hc & ->). pose proof (l_size top a L).
  destruct (next_chunk a =? length (chunks a))%nat eqn:E.
  - apply Nat.eqb_eq in E. apply bind_Some in Hb as ((d & m) & Hd & [= <-]).
    unfold alloc_zeroed_chunk in Hd. apply bind_Some in Hd as (p & Hp & [= <- <-]).
    set (size := Z.max required (chunk_size a)) in *. assert (0 <= size) by lia.
    destruct (layout_new_chunk a (chunks a ++ [mkChunk p size 0]) p size L ltac:(lia) Hp) as [L1 K].
    { intros j e He. apply lookup_app_Some in He as [He|[Hge He]]; [by left|right].
      apply list_lookup_singleton_Some in He as [E0 <-]. split; [lia|done]. }
    { intros j e _ He. by apply lookup_app_l_Some. }
    { rewrite length_app. cbn. lia. }
    cbn [chunks with_mem with_chunks] in Hc. rewrite E, lookup_app_r, Nat.sub_diag in Hc by done.
    injection Hc as <-. eapply use_chunk; try done; cbn [chunks with_mem with_chunks length_]; [|lia|].
    2:{ intros j e [He Hj]. split; [by apply lookup_app_l_Some|done]. }
    rewrite E, lookup_app_r, Nat.sub_diag by done. done.
  - apply bind_Some in Hb as (d & Hd & Hb). destruct (length_ d <? Z.max required (chunk_size a)) eqn:Ed.
    + apply bind_Some in Hb as ((e & m) & He & [= <-]). unfold alloc_zeroed_chunk in He.
      apply bind_Some in He as (p & Hp & [= <- <-]). pose proof (lookup_lt_Some _ _ _ Hd) as Hlt.
      set (size := Z.max required (chunk_size a)) in *. assert (0 <= size) by lia.
      destruct (layout_new_chunk a (<[next_chunk a := mkChunk p size 0]> (chunks a)) p size L ltac:(lia) Hp) as [L1 K].
      { intros j e He. apply list_lookup_insert_Some in He as [(<- & <- & _)|[_ He]]; [by right|by left]. }
      { intros j e Hj He. by rewrite list_lookup_insert_ne by lia. }
      { by rewrite length_insert. }
      cbn [chunks with_mem with_chunks] in Hc. rewrite list_lookup_insert_eq in Hc by done.
      injection Hc as <-. eapply use_chunk; try done; cbn [chunks with_mem with_chunks length_]; [|lia|].
      2:{ intros j e [He Hj]. split; [cbn; by rewrite list_lookup_insert_ne by lia|done]. }
      by rewrite list_lookup_insert_eq.
    + injection Hb as <-. rewrite Hd in Hc. injection Hc as <-. reflect_cmp.
      eapply use_chunk; try done. lia.
Qed.
End Steps.

(** A recorded command: opcode, operand, payload. *)
  Abbreviation Record_ := (Z * Z * list Z)%type.

(** ** The operations *)

Section Safe.
Context (top usize_bits : Z) (place : list AlignedChunk -> Z -> option Z) (can_grow : nat -> bool).
Context (H : heap_ok top place).

Local Abbreviation layout := (layout top).

(** The command side of an arena, which payloads leave alone. *)
Definition same_commands (a a' : ScratchArena) : Prop :=
  command_chunk a' = command_chunk a /\ command_base a' = command_base a /\ command_cursor a' = command_cursor a
  /\ command_limit a' = command_limit a /\ command_regions a' = command_regions a.

Lemma layout_payload a i : layout a -> (i < next_chunk a)%nat -> command_chunk a <> Some i -> layout (with_payload a i).
Proof. intros [] Hi Hc. constructor; try done. cbn. by intros j [= <-]. Qed.

(** A payload put where a chunk's mark stood, the mark moved past it. *)
Lemma bump_ok a i c data :
  layout a -> in_use a i c -> command_chunk a <> Some i -> used c + align_up (size_of data) ALIGN <= length_ c ->
  let a' := with_mem (with_chunks a (<[i := set_used c (used c + align_up (size_of data) ALIGN)]> (chunks a)))
              (write_at (mem a) (base c + used c) (size_of data) (byte_of data)) in
  layout a' /\ keeps a a' /\ held a' (base c + used c) (size_of data)
  /\ bytes_at (mem a') (base c + used c) (size_of data) = data.
Proof.
  intros L Hc Hi Hn. assert (0 <= size_of data) by (unfold size_of; lia).
  pose proof (align_up_16 (size_of data) ltac:(done)) as [Ha _]. pose proof (l_used top a L i c Hc).
  split; [apply layout_mem; apply (layout_set_used top a i c); [done|apply Hc|lia]|].
  split; [apply (keeps_bump top a i c); (done || lia)|]. split; [|apply bytes_at_store].
  exists i, (set_used c (used c + align_up (size_of data) ALIGN)). destruct Hc as [Hc Hlt].
  split; [split; cbn [in_use chunks with_mem with_chunks]; [|done]|].
  { apply list_lookup_insert_eq. by eapply lookup_lt_Some. }
  unfold frozen. cbn. rewrite decide_False by done. cbn. lia.
Qed.

Lemma alloc_ok a data p a' :
  layout a -> alloc place a data = Some (p, a') ->
  layout a' /\ keeps a a' /\ held a' p (size_of data) /\ bytes_at (mem a') p (size_of data) = data
  /\ same_commands a a'.
Proof.
  intros L. unfold alloc. intros ((q & b) & Hb & [= <- <-])%bind_Some.
  assert (0 <= size_of data) by (unfold size_of; lia). unfold reserve in Hb.
  pose proof (align_up_16 (size_of data) ltac:(done)) as [Ha _].
  assert (Slow : forall b, reserve_slow place a (align_up (size_of data) ALIGN) = Some (q, b) ->
    let a' := with_mem b (write_at (mem b) q (size_of data) (byte_of data)) in
    layout a' /\ keeps a a' /\ held a' q (size_of data) /\ bytes_at (mem a') q (size_of data) = data
    /\ same_commands a a').
  { clear b Hb. unfold reserve_slow. intros b ((i & a1) & Hq & Hb)%bind_Some.
    destruct (acquire_chunk_ok top place H a (align_up (size_of data) ALIGN) i a1 L ltac:(lia) Hq) as [-> Q].
    destruct (q_chunk _ _ _ _ Q) as (c & Hc & Hu & Hl). pose proof (q_same _ _ _ _ Q) as (_ & Ec & Eb & Ecu & El & Er & _).
    pose proof (next_not_open top a L) as Hno.
    set (a2 := if _ <=? _ then with_payload a1 (next_chunk a) else a1) in *.
    assert (layout a2 /\ keeps a1 a2 /\ in_use a2 (next_chunk a) c /\ command_chunk a2 <> Some (next_chunk a)
      /\ same_commands a1 a2) as (L2 & K2 & Hc2 & Hn2 & S2).
    { assert (command_chunk a1 <> Some (next_chunk a)) by congruence. pose proof (q_next _ _ _ _ Q).
      unfold a2. destruct (_ <=? _); [|by pose proof (q_layout _ _ _ _ Q)].
      split; [apply layout_payload; [apply Q|lia|done]|]. done. }
    apply bind_Some in Hb as (d & Hd & Hb). destruct Hc2 as [Hc2 Hlt2]. rewrite Hc2 in Hd. injection Hd as <-.
    apply bind_Some in Hb as (a3 & (e & He & ->)%set_chunk_used_Some & [= <- <-]). rewrite Hc2 in He. injection He as <-.
    pose proof (bump_ok a2 (next_chunk a) c data L2 ltac:(done) Hn2 ltac:(rewrite Hu; lia)) as B.
    rewrite Hu, Z.add_0_r, Z.add_0_l in B. destruct B as (LB & KB & HB & EB).
    split; [exact LB|]. split; [etransitivity; [exact (q_keeps _ _ _ _ Q)|]; etransitivity; [exact K2|exact KB]|].
    split; [exact HB|]. split; [exact EB|]. destruct S2 as (? & ? & ? & ? & ?).
    repeat split; cbn; congruence. }
  destruct (payload_chunk a) as [i|] eqn:Ep; [|by apply Slow].
  apply bind_Some in Hb as (c & Hc & Hb). destruct (_ <=? _) eqn:E in Hb; [|by apply Slow].
  apply bind_Some in Hb as (a3 & (e & He & ->)%set_chunk_used_Some & [= <- <-]). rewrite Hc in He. injection He as <-.
  destruct (l_payload top a L i Ep) as [Hlt Hno]. reflect_cmp.
  destruct (bump_ok a i c data L ltac:(done) Hno ltac:(lia)) as (LB & KB & HB & EB). done.
Qed.

(** ** Commands *)

(** A command as it lies in its region: header, payload, zeros up to the alignment. *)
Definition record_bytes (r : Record_) : list Z :=
  let '(opcode, operand, payload) := r in
  let used := size_of payload + COMMAND_HEADER_BYTES in
  header_bytes opcode operand used ++ payload
  ++ replicate (Z.to_nat (align_up used COMMAND_ALIGNMENT - used)) 0.

Lemma size_of_app a b : size_of (a ++ b) = size_of a + size_of b.
Proof. unfold size_of. rewrite length_app. lia. Qed.

Lemma size_header opcode operand n : size_of (header_bytes opcode operand n) = 8.
Proof. unfold header_bytes, size_of. rewrite !length_app, !length_le_bytes. done. Qed.

Lemma size_record opcode operand payload :
  size_of (record_bytes (opcode, operand, payload)) = align_up (size_of payload + COMMAND_HEADER_BYTES) COMMAND_ALIGNMENT.
Proof.
  unfold record_bytes. rewrite !size_of_app, size_header. unfold size_of at 2. rewrite length_replicate.
  assert (0 <= size_of payload) by (unfold size_of; lia). change COMMAND_HEADER_BYTES with 8.
  pose proof (align_up_8 (size_of payload + 8) ltac:(lia)). lia.
Qed.

(** The open region's cursor moved past [n] bytes written after it. *)
Lemma advance_ok a i m n :
  layout a -> command_chunk a = Some i -> 0 <= n -> n mod 8 = 0 -> command_cursor a + n <= command_limit a ->
  (forall x, ~ (command_cursor a <= x < command_limit a) -> m x = mem a x) ->
  let a' := with_cursor (with_mem a m) (command_cursor a + n) in
  layout a' /\ keeps a a' /\ held a' (command_base a) (open_command_bytes a + n)
  /\ open_command_bytes a' = open_command_bytes a + n.
Proof.
  intros L Ei Hn Hn8 Hl Hm. destruct (l_open top a L i Ei) as (c & Hc & Eb & El & Hr & H8).
  assert (Eo : command_cursor a + n - command_base a = open_command_bytes a + n) by (unfold open_command_bytes; lia).
  assert (H8' : (open_command_bytes a + n) mod 8 = 0).
  { rewrite <- Zplus_mod_idemp_l, H8, Z.add_0_l. done. }
  assert (Hf : frozen a i c = open_command_bytes a) by (unfold frozen; by rewrite decide_True).
  split; [|split; [|split]].
  - constructor; cbn [chunks with_cursor with_mem next_chunk payload_chunk command_chunk chunk_size command_base
      command_cursor command_limit]; try apply L; [congruence|].
    intros j Ej. rewrite Ei in Ej. injection Ej as <-. exists c. split; [done|]. split; [done|]. split; [done|].
    split; [lia|]. unfold open_command_bytes at 1. cbn [command_cursor command_base with_cursor with_mem]. by rewrite Eo.
  - apply keeps_intro. intros j d Hd. exists d. split; [done|]. split; [done|]. split.
    + unfold frozen, open_command_bytes at 2. cbn [command_chunk command_cursor command_base with_cursor with_mem].
      rewrite Eo. case_decide; lia.
    + intros x Hx. apply Hm. intros Hx'. destruct (decide (i = j)) as [<-|Hij].
      * destruct Hc as [Hc _], Hd as [Hd _]. rewrite Hc in Hd. injection Hd as <-.
        unfold open_command_bytes in Hf. lia.
      * pose proof (frozen_room top a j d L Hd). pose proof (chunk_room_ge (length_ c)).
        pose proof (l_chunk top a L i c (proj1 Hc)). destruct (l_apart top a L i j c d Hij (proj1 Hc) (proj1 Hd)); lia.
  - exists i, c. split; [done|]. unfold frozen. cbn [command_chunk with_cursor with_mem]. rewrite decide_True by done.
    unfold open_command_bytes at 2. cbn [command_cursor command_base with_cursor with_mem]. lia.
  - unfold open_command_bytes at 1. cbn [command_cursor command_base with_cursor with_mem]. done.
Qed.

(** The region table once the open region's length is published. *)
Definition published (a : ScratchArena) (l : list CommandRegion) : list CommandRegion :=
  match last l with
  | None => l
  | Some r => removelast l ++ [mkRegion (address r) (open_command_bytes a) (reserved_ r)]
  end.

Lemma publish_ok a a' :
  publish_command_region a = (inr tt, a') ->
  open_command_bytes a <= u32_max /\ a' = with_regions a (published a (command_regions a)).
Proof.
  unfold publish_command_region, published. destruct (_ <? _) eqn:E; [done|]. reflect_cmp.
  destruct (last _); intros [= <-]; (split; [done|]); destruct a; done.
Qed.

(** The command cursor moved to an empty chunk, the chunk it leaves marked. *)
Lemma switch_region a i c :
  layout a -> in_use a i c -> used c = 0 -> payload_chunk a <> Some i ->
  (forall j d, command_chunk a = Some j -> in_use a j d -> j <> i /\ used d = open_command_bytes a) ->
  layout (with_region a i (base c) (base c + length_ c)) /\ keeps a (with_region a i (base c) (base c + length_ c)).
Proof.
  intros L Hc Hu Hp Hd. pose proof (l_used top a L i c Hc). split.
  - constructor; try apply L; cbn.
    + intros j Ej. split; [by apply (l_payload top a L)|congruence].
    + done.
    + intros j [= <-]. exists c. split; [done|]. unfold open_command_bytes. cbn. rewrite Z.sub_diag. repeat split; lia || done.
  - apply keeps_intro. intros j d Hj. exists d. split; [done|]. split; [done|]. split; [|done].
    unfold frozen at 2. cbn. case_decide as E.
    + injection E as <-. destruct Hc as [Hc _], Hj as [Hj Hlt]. rewrite Hc in Hj. injection Hj as <-.
      unfold frozen, open_command_bytes at 2. cbn. case_decide as E; [|lia]. by destruct (Hd i c E) as [[] _].
    + unfold frozen. case_decide as E'; [|lia]. destruct (Hd j d E' Hj). lia.
Qed.

(** The mark of the open region's chunk stored when it closes. *)
Lemma close_region a b :
  layout a -> (match command_chunk a with
               | Some index => set_chunk_used a index (open_command_bytes a)
               | None => Some a end) = Some b ->
  layout b /\ keeps a b /\ same_commands a b /\ next_chunk b = next_chunk a /\ payload_chunk b = payload_chunk a
  /\ (forall j d, command_chunk b = Some j -> in_use b j d -> used d = open_command_bytes b).
Proof.
  intros L. destruct (command_chunk a) as [j|] eqn:Ej; [|intros [= <-]; split; [done|]; split; [reflexivity|]; split; [by repeat split|]; split; [done|]; split; [done|]; intros; congruence].
  intros (d & Hd & ->)%set_chunk_used_Some. destruct (l_open top a L j Ej) as (d' & [Hd' Hj] & Eb & El & Hrng & H8).
  rewrite Hd in Hd'. injection Hd' as <-.
  assert (0 <= open_command_bytes a <= length_ d) by (unfold open_command_bytes; lia).
  split; [by apply (layout_set_used top a j d)|]. split; [|split; [repeat split|split; [done|split; [done|]]]].
  - apply keeps_intro. intros k e [He Hk]. destruct (decide (j = k)) as [<-|Hjk].
    + rewrite Hd in He. injection He as <-. exists (set_used d (open_command_bytes a)).
      split; [split; [cbn; by rewrite list_lookup_insert_eq by (by eapply lookup_lt_Some)|done]|].
      split; [done|]. split; [|done]. unfold frozen. cbn. by rewrite !decide_True by done.
    + exists e. split; [split; [cbn; by rewrite list_lookup_insert_ne by done|done]|]. split; [done|]. split; done.
  - cbn. intros k e Ek [He _]. rewrite Ej in Ek. injection Ek as <-. cbn in He.
    rewrite list_lookup_insert_eq in He by (by eapply lookup_lt_Some). injection He as <-. done.
Qed.

Lemma open_region_ok a reserved a' :
  layout a -> 0 <= reserved -> open_command_region place can_grow a reserved = Some (inr tt, a') ->
  layout a' /\ keeps a a' /\ open_command_bytes a <= u32_max /\ is_Some (command_chunk a')
  /\ command_cursor a' = command_base a' /\ command_base a' + reserved <= command_limit a'
  /\ command_regions a' = published a (command_regions a) ++ [mkRegion (command_base a') 0 0].
Proof.
  intros L Hr. unfold open_command_region. destruct (negb _); [done|].
  destruct (publish_command_region a) as [[e|[]] b] eqn:Ep; [done|]. apply publish_ok in Ep as [Hu ->].
  set (b := with_regions a _). intros (b' & Hb' & ((i & b2) & Hq & (c & Hc & [= <-])%bind_Some)%bind_Some)%bind_Some.
  assert (Lb : layout b) by (destruct L; by constructor).
  apply close_region in Hb' as (L' & K' & (_ & _ & _ & _ & Er) & En & Epl & Hd); [|done].
  destruct (acquire_chunk_ok top place H b' reserved i b2 L' Hr Hq) as [-> Q].
  destruct (q_chunk _ _ _ _ Q) as (c' & Hc' & Hu' & Hl). rewrite (proj1 Hc') in Hc. injection Hc as <-.
  destruct (q_same _ _ _ _ Q) as (Ep2 & Ec2 & Eb2 & Ecu2 & _ & Er2 & _).
  destruct (switch_region b2 (next_chunk b') c' (q_layout _ _ _ _ Q) Hc' Hu') as [Ls Ks].
  - rewrite Ep2. intros E. destruct (l_payload top b' L' _ E). lia.
  - rewrite Ec2. intros j d Ej Hj. destruct (l_open top b' L' j Ej) as (e & He & _).
    assert (j <> next_chunk b') by (destruct He; lia). split; [done|].
    pose proof (q_others _ _ _ _ Q j e He) as [He2 _]. rewrite (proj1 Hj) in He2. injection He2 as <-.
    rewrite (Hd j d Ej He). unfold open_command_bytes. by rewrite Eb2, Ecu2.
  - set (a2 := with_region b2 _ _ _) in *. split; [by destruct Ls; constructor|].
    split; [transitivity b; [done|]; transitivity b'; [done|]; transitivity b2; [apply Q|]; exact Ks|].
    split; [done|]. split; [by eexists|]. split; [done|]. cbn. split; [lia|]. by rewrite Er2, Er.
Qed.

(** ** The records behind the region table *)

(** The [n] bytes at [p] are handed out and are these records. *)
Definition records_at (a : ScratchArena) (p n : Z) (rs : list Record_) : Prop :=
  held a p n /\ bytes_at (mem a) p n = rs ≫= record_bytes.

(** A closed region's descriptor names its records. *)
Definition region_holds (a : ScratchArena) (r : CommandRegion) (rs : list Record_) : Prop :=
  reserved_ r = 0 /\ rs <> [] /\ 0 < address r /\ address r mod 8 = 0 /\ used_bytes r mod 8 = 0
  /\ 0 <= used_bytes r <= u32_max /\ records_at a (address r) (used_bytes r) rs.

(** A region is open over the records [rs], the closed ones hold [rss]. *)
Definition open_log (a : ScratchArena) (rss : list (list Record_)) (rs : list Record_) : Prop :=
  is_Some (command_chunk a) /\ exists prior r, command_regions a = prior ++ [r] /\ address r = command_base a
    /\ reserved_ r = 0 /\ Forall2 (region_holds a) prior rss
    /\ records_at a (command_base a) (open_command_bytes a) rs.

Definition region_log (a : ScratchArena) (rss : list (list Record_)) : Prop :=
  (command_chunk a = None /\ command_regions a = [] /\ rss = [])
  \/ exists rss0 rs, rss = rss0 ++ [rs] /\ rs <> [] /\ open_log a rss0 rs.

Lemma records_keep a a' p n rs : keeps a a' -> records_at a p n rs -> records_at a' p n rs.
Proof. intros K [Hh E]. destruct (K p n Hh) as [? Em]. split; [done|]. by rewrite Em. Qed.

Lemma region_keep a a' r rs : keeps a a' -> region_holds a r rs -> region_holds a' r rs.
Proof. intros K (? & ? & ? & ? & ? & ? & ?). repeat split; try done; try lia; by eapply records_keep. Qed.

Lemma log_keep a a' rss : keeps a a' -> same_commands a a' -> region_log a rss -> region_log a' rss.
Proof.
  intros K (Ec & Eb & Ecu & El & Er) [(? & ? & ?)|(rss0 & rs & -> & Hne & Hs & prior & r & E & Ea & E0 & F & R)].
  - left. by rewrite Ec, Er.
  - right. exists rss0, rs. split; [done|]. split; [done|]. split; [by rewrite Ec|]. exists prior, r.
    rewrite Er, Eb. split; [done|]. split; [done|]. split; [done|]. split.
    + eapply Forall2_impl; [exact F|]. intros. by eapply region_keep.
    + unfold open_command_bytes. rewrite Ecu, Eb. by apply (records_keep a).
Qed.

Lemma open_region_bounds a : layout a -> is_Some (command_chunk a) ->
  0 < command_base a /\ command_base a mod 8 = 0 /\ open_command_bytes a mod 8 = 0 /\ 0 <= open_command_bytes a
  /\ command_base a <= command_cursor a <= command_limit a.
Proof.
  intros L [i Ei]. destruct (l_open top a L i Ei) as (c & [Hc _] & Eb & El & Hr & H8).
  destruct (l_chunk top a L i c Hc) as (Hp & H16 & _). rewrite Eb. unfold open_command_bytes in *.
  split; [done|]. split; [|split; [done|lia]]. Z.to_euclidean_division_equations; lia.
Qed.

(** Opening a region closes the one that was open over what it holds. *)
Lemma open_region_log a reserved a' rss :
  layout a -> 0 <= reserved -> region_log a rss ->
  open_command_region place can_grow a reserved = Some (inr tt, a') -> open_log a' rss [].
Proof.
  intros L Hr Lg Ho. destruct (open_region_ok a reserved a' L Hr Ho) as (L' & K & Hu & Hs & Ecu & Hl & Er).
  split; [done|]. exists (published a (command_regions a)), (mkRegion (command_base a') 0 0).
  split; [done|]. split; [done|]. split; [done|]. split.
  - unfold published. destruct Lg as [(_ & -> & ->)|(rss0 & rs & -> & Hne & Hso & prior & r & -> & Ea & E0 & F & R)]; [constructor|].
    rewrite last_snoc, removelast_last. apply Forall2_app.
    { eapply Forall2_impl; [exact F|]. intros. by eapply region_keep. }
    constructor; [|constructor]. destruct (open_region_bounds a L Hso) as (? & ? & ? & ? & ?).
    rewrite Ea, E0. repeat split; cbn; try done; try lia; by apply (K _ _ (proj1 R)) || (rewrite (proj2 (K _ _ (proj1 R))); apply R).
  - unfold open_command_bytes. rewrite Ecu, Z.sub_diag. split; [|done].
    destruct Hs as [i Ei]. destruct (l_open top a' L' i Ei) as (c & Hc & Eb & _). exists i, c.
    split; [done|]. unfold frozen, open_command_bytes. rewrite decide_True by done. lia.
Qed.

(** Committing one record's bytes at the cursor of the open region. *)
Lemma commit_ok a m r rss rs :
  layout a -> open_log a rss rs -> command_cursor a + size_of (record_bytes r) <= command_limit a ->
  (forall x, ~ (command_cursor a <= x < command_limit a) -> m x = mem a x) ->
  bytes_at m (command_cursor a) (size_of (record_bytes r)) = record_bytes r ->
  let a' := with_cursor (with_mem a m) (command_cursor a + size_of (record_bytes r)) in
  layout a' /\ keeps a a' /\ region_log a' (rss ++ [rs ++ [r]]).
Proof.
  intros L ([i Ei] & prior & d & Er & Ea & E0 & F & R) Hl Hm Hb a'. destruct r as [[opcode operand] payload].
  pose proof (size_record opcode operand payload) as Es. set (n := size_of _) in *.
  pose proof (align_up_8 (size_of payload + COMMAND_HEADER_BYTES) ltac:(unfold size_of; change COMMAND_HEADER_BYTES with 8; lia)) as [Hn H8].
  assert (0 <= n) by (unfold n, size_of; lia).
  destruct (advance_ok a i m n L Ei ltac:(done) ltac:(by rewrite Es) Hl Hm) as (L' & K & Hh & Eo). fold a' in L', K, Hh, Eo.
  split; [exact L'|]. split; [exact K|]. right. exists rss, (rs ++ [(opcode, operand, payload)]).
  split; [done|]. split; [by destruct rs|]. split; [by exists i|]. exists prior, d. split; [done|]. split; [done|].
  split; [done|]. split; [eapply Forall2_impl; [exact F|]; intros; by eapply region_keep|].
  destruct (open_region_bounds a L ltac:(by exists i)) as (_ & _ & _ & Hp & Hc).
  rewrite Eo. split; [exact Hh|]. rewrite bytes_at_app by lia. rewrite bind_app. f_equal.
  - destruct R as [Hr <-]. exact (proj2 (K _ _ Hr)).
  - cbn [mbind list_bind]. rewrite app_nil_r, <- Hb. f_equal. cbn. unfold open_command_bytes. lia.
Qed.

(** A callback that fills what it reports, whatever the window held. *)
Definition fills (f : Fill) : Prop :=
  forall w w', (f w).2 = (f w').2 /\ match (f w).2 with
    | inr n => forall i, 0 <= i < Z.of_N n -> (f w).1 i = (f w').1 i
    | inl _ => True end.

(** What it fills, or its error. *)
Definition filled (f : Fill) : WireError + list Z :=
  match f (λ _, 0) with (_, inl e) => inl e | (w, inr n) => inr (w <$> seqZ 0 (Z.of_N n)) end.

Lemma has_room_open a r rss :
  layout a -> region_log a rss -> 0 < r -> has_command_room a r = true ->
  exists rss0 rs, rss = rss0 ++ [rs] /\ open_log a rss0 rs.
Proof.
  intros L [(Ec & _)|(rss0 & rs & ? & _ & ?)] Hr; [|by exists rss0, rs].
  destruct (l_closed top a L Ec) as (_ & Ecu & El). unfold has_command_room. rewrite Ecu, El. intros E. reflect_cmp. lia.
Qed.

Lemma reservation_covers bound reserved :
  0 <= bound -> command_reservation usize_bits bound = inr reserved ->
  reserved = align_up (bound + COMMAND_HEADER_BYTES) COMMAND_ALIGNMENT /\ 0 < reserved.
Proof.
  intros Hb. unfold command_reservation.
  destruct (checked _ _) as [total|] eqn:E1; [|done]. destruct (_ || _); [done|].
  destruct (checked _ (total + _)) as [padded|] eqn:E2; [|done]. intros [= <-].
  apply checked_Some in E1 as [-> _], E2 as [-> _]. change COMMAND_HEADER_BYTES with 8 in *.
  unfold align_up at 1. rewrite Z.add_sub_assoc. split; [done|].
  pose proof (align_up_8 (bound + 8) ltac:(lia)) as [A _]. unfold align_up in A. lia.
Qed.

Lemma align_up_8_mono n k : 0 <= n <= k -> align_up n COMMAND_ALIGNMENT <= align_up k COMMAND_ALIGNMENT.
Proof.
  intros. pose proof (align_up_8 n ltac:(lia)) as [? ?]. pose proof (align_up_8 k ltac:(lia)) as [? ?].
  Z.to_euclidean_division_equations; lia.
Qed.

(** The bytes of a record as the writes put them down. *)
Lemma record_written m p bound w n opcode operand payload :
  0 <= n <= bound -> payload = w <$> seqZ 0 n ->
  let used := n + COMMAND_HEADER_BYTES in
  let m1 := write_at m (p + COMMAND_HEADER_BYTES) bound w in
  let m2 := write_at m1 (p + used) (align_up used COMMAND_ALIGNMENT - used) (λ _, 0) in
  let m3 := write_at m2 p COMMAND_HEADER_BYTES (byte_of (header_bytes opcode operand used)) in
  bytes_at m3 p (align_up used COMMAND_ALIGNMENT) = record_bytes (opcode, operand, payload).
Proof.
  intros Hn Hp used m1 m2 m3. unfold used, COMMAND_HEADER_BYTES in *.
  pose proof (align_up_8 (n + 8) ltac:(lia)) as [Ha _]. set (A := align_up (n + 8) COMMAND_ALIGNMENT) in *.
  assert (Ep : size_of payload = n) by (rewrite Hp; unfold size_of; rewrite length_fmap, length_seqZ; lia).
  cbn [record_bytes]. change COMMAND_HEADER_BYTES with 8. rewrite Ep. fold A.
  replace A with (8 + (n + (A - (n + 8)))) at 1 by lia. rewrite bytes_at_app, bytes_at_app by lia. f_equal; [|f_equal].
  - unfold m3. rewrite <- (size_header opcode operand (n + 8)) at 1 2. apply bytes_at_store.
  - unfold m3, m2. rewrite !bytes_at_write_out by lia. rewrite Hp. unfold m1.
    rewrite <- (bytes_at_write m (p + 8) n w). apply bytes_at_ext. intros x Hx.
    by rewrite !write_at_in by lia.
  - unfold m3. rewrite bytes_at_write_out by lia. unfold m2.
    replace (p + 8 + n) with (p + (n + 8)) by lia. rewrite bytes_at_write. apply list_eq. intros i.
    rewrite list_lookup_fmap. destruct (decide (i < Z.to_nat (A - (n + 8)))%nat).
    + rewrite (lookup_seqZ_lt _ _ i) by lia. by rewrite lookup_replicate_2.
    + rewrite lookup_seqZ_ge by lia. symmetry. apply lookup_replicate_None. lia.
Qed.

Lemma write_command_ok a opcode operand bound fill p a' rss :
  layout a -> region_log a rss -> 0 <= bound -> fills fill ->
  write_command usize_bits place can_grow a opcode operand bound fill = Some (inr p, a') ->
  exists payload rss', filled fill = inr payload /\ concat rss' = concat rss ++ [(opcode, operand, payload)]
    /\ size_of payload + COMMAND_HEADER_BYTES <= u32_max
    /\ layout a' /\ keeps a a' /\ region_log a' rss'.
Proof.
  intros L Lg Hb Hf. unfold write_command.
  destruct (command_reservation usize_bits bound) as [|reserved] eqn:Ereq; [done|].
  apply reservation_covers in Ereq as [Ereq Hpos]; [|done].
  intros ((opened & b) & Hopen & Hrest)%bind_Some. destruct opened as [|[]]; [done|].
  assert (exists rss0 rs, layout b /\ keeps a b /\ open_log b rss0 rs /\ concat (rss0 ++ [rs]) = concat rss
    /\ command_cursor b + reserved <= command_limit b) as (rss0 & rs & Lb & K & Ob & Ec & Hroom).
  { destruct (has_command_room a reserved) eqn:Eroom.
    - injection Hopen as <-. destruct (has_room_open a reserved rss L Lg Hpos Eroom) as (rss0 & rs & -> & Ho).
      unfold has_command_room in Eroom. reflect_cmp. exists rss0, rs. split; [done|]. split; [done|]. repeat split; try done; try apply Ho. lia.
    - exists rss, []. pose proof (open_region_log a reserved b rss L ltac:(lia) Lg Hopen) as Ho.
      destruct (open_region_ok a reserved b L ltac:(lia) Hopen) as (Lb & Kb & _ & _ & Ecu & Hl & _).
      split; [done|]. split; [done|]. split; [done|]. rewrite concat_app. cbn. rewrite app_nil_r. split; [done|lia]. }
  clear Hopen. destruct (fill _) as [w [|n]] eqn:Ef in Hrest; [done|].
  destruct (bound <? Z.of_N n) eqn:Ebn; [done|]. reflect_cmp.
  destruct (u32_max <? _) eqn:Eu; [done|]. reflect_cmp. injection Hrest as _ <-.
  destruct (Hf (λ _, 0) (λ i, mem b (command_cursor b + COMMAND_HEADER_BYTES + i))) as [E2 E1].
  rewrite Ef in E1, E2. cbn in E1, E2. unfold filled. destruct (fill (λ _, 0)) as [w0 r0] eqn:E0. cbn in E1, E2. subst r0.
  set (payload := w0 <$> seqZ 0 (Z.of_N n)).
  assert (Ew : payload = w <$> seqZ 0 (Z.of_N n)).
  { apply list_fmap_ext. intros i x Hx. apply lookup_seqZ in Hx as [-> ?]. apply E1. lia. }
  assert (Ep : size_of payload = Z.of_N n) by (unfold payload, size_of; rewrite length_fmap, length_seqZ; lia).
  exists payload, (rss0 ++ [rs ++ [(opcode, operand, payload)]]). split; [done|].
  split; [by rewrite <- Ec, !concat_app; cbn; rewrite !app_nil_r, app_assoc|].
  change COMMAND_HEADER_BYTES with 8 in *. rewrite Ep. split; [done|].
  pose proof (record_written (mem b) (command_cursor b) bound w (Z.of_N n) opcode operand payload ltac:(lia) Ew) as Hbytes.
  change COMMAND_HEADER_BYTES with 8 in Hbytes. cbv zeta in Hbytes.
  pose proof (size_record opcode operand payload) as Es. rewrite Ep in Es. change COMMAND_HEADER_BYTES with 8 in Es.
  pose proof (align_up_8_mono (Z.of_N n + 8) (bound + 8) ltac:(lia)) as Hmono.
  pose proof (align_up_8 (Z.of_N n + 8) ltac:(lia)) as [Ha _].
  pose proof (align_up_8 (bound + 8) ltac:(lia)) as [Hab _].
  rewrite <- Es in Hbytes. set (m := write_at _ _ _ _) in Hbytes.
  destruct (commit_ok b m (opcode, operand, payload) rss0 rs Lb Ob) as (L' & K' & Lg'); [| |exact Hbytes|].
  - lia.
  - intros x Hx. unfold m. rewrite !write_at_out; [done|..]; lia.
  - unfold m in L', K', Lg'. rewrite Es in L', K', Lg'. split; [exact L'|]. split; [etransitivity; [exact K|exact K']|exact Lg'].
Qed.

Lemma slot_write_ok a opcode operand payload a' rss :
  layout a -> region_log a rss -> size_of payload mod 8 = 0 ->
  slot_write a opcode operand payload = Some a' ->
  exists rss', concat rss' = concat rss ++ [(opcode, operand, payload)] /\ layout a' /\ keeps a a' /\ region_log a' rss'.
Proof.
  intros L Lg H8. unfold slot_write. destruct (_ <? _) eqn:E; [done|]. reflect_cmp. intros [= <-].
  change COMMAND_HEADER_BYTES with 8 in *. assert (0 <= size_of payload) by (unfold size_of; lia).
  assert (has_command_room a (8 + size_of payload) = true) as Hroom by (apply Z.leb_le; lia).
  destruct (has_room_open a (8 + size_of payload) rss L Lg ltac:(lia) Hroom) as (rss0 & rs & -> & Ho).
  pose proof (align_up_8 (size_of payload + 8) ltac:(lia)) as [Ha Ha8].
  assert (EA : align_up (size_of payload + 8) COMMAND_ALIGNMENT = 8 + size_of payload).
  { Z.to_euclidean_division_equations; lia. }
  pose proof (size_record opcode operand payload) as Es. change COMMAND_HEADER_BYTES with 8 in Es. rewrite EA in Es.
  assert (Er : record_bytes (opcode, operand, payload) = header_bytes opcode operand (8 + size_of payload) ++ payload).
  { cbn [record_bytes]. change COMMAND_HEADER_BYTES with 8. rewrite EA.
    replace (8 + size_of payload - (size_of payload + 8)) with 0 by lia. cbn [Z.to_nat replicate].
    by rewrite app_nil_r, (Z.add_comm (size_of payload)). }
  exists (rss0 ++ [rs ++ [(opcode, operand, payload)]]).
  split; [by rewrite !concat_app; cbn; rewrite !app_nil_r, app_assoc|].
  edestruct (commit_ok a (write_at (mem a) (command_cursor a) (8 + size_of payload)
    (byte_of (header_bytes opcode operand (8 + size_of payload) ++ payload))) (opcode, operand, payload) rss0 rs L Ho) as (L' & K' & Lg').
  - lia.
  - intros x Hx. apply write_at_out. lia.
  - rewrite <- Er, <- Es. apply bytes_at_store.
  - rewrite Es in L', K', Lg'. done.
Qed.

(** A frame starts from an arena just made or just cleared. *)
Definition empty_arena (a : ScratchArena) : Prop :=
  layout a /\ next_chunk a = O /\ region_log a [] /\ payload_chunk a = None.

Lemma empty_new m size : 0 <= size -> empty_arena (with_chunk_size m size).
Proof.
  intros. split; [|by repeat split; left]. constructor; cbn; try done; try lia. intros i c [_ Hi]. cbn in Hi. lia.
Qed.

(** Two entries of a filtered list are two entries of the list. *)
Lemma filter_two {A} (P : A -> Prop) `{!forall x, Decision (P x)} (l : list A) i j x y :
  i <> j -> filter P l !! i = Some x -> filter P l !! j = Some y ->
  exists k m, k <> m /\ l !! k = Some x /\ l !! m = Some y.
Proof.
  revert i j. induction l as [|z l IH]; intros i j Hij; [done|]. rewrite filter_cons. case_decide.
  - destruct i as [|i], j as [|j]; cbn; [done|..].
    + intros [= ->] (m & Hm)%list_elem_of_lookup_2%list_elem_of_filter%proj2%list_elem_of_lookup. by exists 0%nat, (S m).
    + intros (m & Hm)%list_elem_of_lookup_2%list_elem_of_filter%proj2%list_elem_of_lookup [= ->]. by exists (S m), 0%nat.
    + intros Hx Hy. destruct (IH i j ltac:(congruence) Hx Hy) as (k & m & ? & ? & ?). exists (S k), (S m). naive_solver.
  - intros Hx Hy. destruct (IH i j Hij Hx Hy) as (k & m & ? & ? & ?). exists (S k), (S m). naive_solver.
Qed.

Lemma empty_clear a : layout a -> empty_arena (clear a).
Proof.
  intros L. split; [|by repeat split; left].
  assert (P : forall i c, chunks (clear a) !! i = Some c -> exists d, filter (λ c, length_ c <= chunk_size a) (chunks a) !! i = Some d
    /\ same_place d c).
  { intros i c Hc. cbn in Hc. rewrite list_lookup_fmap in Hc. apply fmap_Some in Hc as (d & Hd & ->). by exists d. }
  constructor; cbn [clear next_chunk payload_chunk command_chunk chunk_size command_base command_cursor command_limit];
    try done; [apply L|..].
  - intros i c (d & Hd & [-> ->])%P. apply list_elem_of_lookup_2, list_elem_of_filter in Hd as [_ Hd].
    apply list_elem_of_lookup in Hd as [j Hd]. by apply (l_chunk top a L j).
  - intros i j c d Hij (c' & Hc & [-> ->])%P (d' & Hd & [-> ->])%P.
    destruct (filter_two _ (chunks a) i j c' d' Hij Hc Hd) as (k & l & Hkl & Hk & Hl).
    by apply (l_apart top a L k l).
  - lia.
  - intros i c [_ Hi]. cbn in Hi. lia.
Qed.
End Safe.
