(* ===== verification/FramePacket.v ===== *)
(** [core/src/encoder_packet.rs] with its [replay.rs] and [owner.rs]: a frame's
    commands recorded into its scratch arena, sealed behind a table of regions,
    and replayed by the native encoder from that table alone; with the theorem
    that the replay hands out the recorded commands, each once and in order.

    The command bytes and the payloads are memory; the region table is the list
    of its 16-byte descriptors.  [FrameMetadata], the leases and the reply
    cells of a packet are not modelled. *)

From S2P Require Import Prelude PageBox ScratchArena.

Definition CONSTANT_ROWS : Z := 256.
Definition COMMAND_REGION_BYTES : Z := 16.

(** [EncoderOpcode], by discriminant. *)
Definition SetVsConstRange : Z := 1.
Definition SetPsConstRange : Z := 2.
Definition SetFfVsConstRange : Z := 3.
Definition encoder_opcodes : list Z :=
  [1; 2; 3; 4; 6; 7; 8; 9; 10; 11; 12; 13; 14; 15; 16; 17; 18; 19; 20; 21; 22; 23; 24; 25; 26; 27; 28; 29; 30;
   31; 32; 33; 34; 35; 36; 37; 38; 39; 40; 41; 42; 43; 45; 46; 47; 48; 49].

(** [EncoderOpcode::try_from]. *)
Definition opcode_try_from (v : Z) : WireError + Z :=
  if existsb (Z.eqb v) encoder_opcodes then inr v else inl InvalidValue.

(** ** Recording *)

Record FrameRecorder := mkRecorder { error : option WireError; count : Z }.

Definition new_recorder : FrameRecorder := mkRecorder None 0.

Definition finish_record (rc : FrameRecorder) {A} (result : WireError + A) : FrameRecorder :=
  match result with
  | inr _ => mkRecorder (error rc) (count rc + 1)
  | inl e => mkRecorder (Some e) (count rc)
  end.

Section Recording.
Context (usize_bits : Z) (place : list AlignedChunk -> Z -> option Z) (can_grow : nat -> bool).

Definition push_initialized_record (a : ScratchArena) (opcode operand bound : Z) (fill : Fill)
    : option ((WireError + unit) * ScratchArena) :=
  '(r, a) ← write_command usize_bits place can_grow a opcode operand bound fill;
  Some (match r with inl e => inl e | inr _ => inr tt end, a).

(** A callback that fills the whole of a fixed payload. *)
Definition fixed_fill (payload_bytes : Z) (fill : (Z -> Z) -> (Z -> Z) * (WireError + unit)) : Fill :=
  λ w, match fill w with (w, inl e) => (w, inl e) | (w, inr _) => (w, inr (Z.to_N payload_bytes)) end.

Definition push_fixed_record (a : ScratchArena) (opcode operand payload_bytes : Z)
    (fill : (Z -> Z) -> (Z -> Z) * (WireError + unit)) : option ((WireError + unit) * ScratchArena) :=
  push_initialized_record a opcode operand payload_bytes (fixed_fill payload_bytes fill).

(** [record_draw], [record_bound_draw] and [record_snapshot_delta]: a command
    whose payload a callback writes, behind the latched error. *)
Definition record_filled (a : ScratchArena) (rc : FrameRecorder) (opcode operand bound : Z) (fill : Fill)
    : option ((WireError + unit) * ScratchArena * FrameRecorder) :=
  match error rc with
  | Some e => Some (inl e, a, rc)
  | None =>
      '(r, a) ← push_initialized_record a opcode operand bound fill;
      Some (r, a, finish_record rc r)
  end.

Definition record_constant_destination (a : ScratchArena) (rc : FrameRecorder) (opcode start_row rows : Z)
    (fill : (Z -> Z) -> (Z -> Z) * (WireError + unit)) : option ((WireError + unit) * ScratchArena * FrameRecorder) :=
  match error rc with
  | Some e => Some (inl e, a, rc)
  | None =>
      if (CONSTANT_ROWS <? start_row + rows)
         || negb ((opcode =? SetVsConstRange) || (opcode =? SetPsConstRange) || (opcode =? SetFfVsConstRange))
      then Some (inl InvalidValue, a, finish_record rc (@inl _ unit InvalidValue))
      else
        '(r, a) ← push_fixed_record a opcode start_row (rows * 16) fill;
        Some (r, a, finish_record rc r)
  end.

(** The callback of [record_constant_bytes]: the first bytes of the source, if it has that many. *)
Definition constant_source (bytes : list Z) (rows : Z) (w : Z -> Z) : (Z -> Z) * (WireError + unit) :=
  if size_of bytes <? rows * 16 then (w, inl InvalidValue) else (byte_of bytes, inr tt).

Definition record_constant_bytes (a : ScratchArena) (rc : FrameRecorder) (opcode start_row rows : Z) (bytes : list Z) :=
  record_constant_destination a rc opcode start_row rows (constant_source bytes rows).

(** [true] when the draw went straight into the open region. *)
Definition try_append_single_stream (a : ScratchArena) (rc : FrameRecorder) (extra_empty : bool)
    (opcode operand : Z) (payload : list Z) : bool * ScratchArena * FrameRecorder :=
  if match error rc with Some _ => true | None => negb extra_empty end then (false, a, rc)
  else match slot_write a opcode operand payload with
       | None => (false, a, rc)
       | Some a => (true, a, mkRecorder (error rc) (count rc + 1))
       end.
End Recording.

(** The capture half of [FramePacket::new]: a latched error is returned, else the
    open region's length is published. *)
Definition seal (a : ScratchArena) (rc : FrameRecorder) : (WireError + unit) * ScratchArena :=
  match error rc with Some e => (inl e, a) | None => publish_command_region a end.

(** [FrameRecorder::reset], of the fields kept here. *)
Definition reset_recorder (_ : FrameRecorder) : FrameRecorder := mkRecorder None 0.

(** ** Replay *)

Record CommandCursor := mkCursor {
  table : list CommandRegion; table_offset : Z; region_address : Z; region_bytes : Z; region_offset : Z }.

Definition table_bytes (t : list CommandRegion) : Z := COMMAND_REGION_BYTES * Z.of_nat (length t).

(** [CommandCursor::new]; a list of descriptors is a whole number of them. *)
Definition cursor_new (table_address : Z) (t : list CommandRegion) : WireError + CommandCursor :=
  if negb (table_bytes t =? 0) && negb (table_address mod 8 =? 0) then inl InvalidValue
  else inr (mkCursor t 0 0 0 0).

Definition is_complete (c : CommandCursor) : bool :=
  (table_offset c =? table_bytes (table c)) && (region_offset c =? region_bytes c).

(** The replaying side is a 64-bit build. *)
Definition validate_range (address len alignment : Z) : WireError + unit :=
  if (address =? 0) || negb (address mod alignment =? 0)
     || match (address +? len)%u64 with None => true | Some _ => false end
  then inl InvalidValue else inr tt.

(** The part of [next_record] that decodes at the cursor. *)
Definition decode_record (m : Memory) (c : CommandCursor) : (WireError + option Record_) * CommandCursor :=
  let remaining := (region_bytes c -% region_offset c)%u32 in
  if remaining <? COMMAND_HEADER_BYTES then (inl Truncated, c)
  else
    let address := (region_address c +% region_offset c)%u64 in
    let opcode := le_value (bytes_at m address 2) in
    let operand := le_value (bytes_at m (address + 2) 2) in
    let len := le_value (bytes_at m (address + 4) 4) in
    if len <? COMMAND_HEADER_BYTES then (inl InvalidValue, c)
    else match (len +? (COMMAND_ALIGNMENT - 1))%u32 with
         | None => (inl TooLarge, c)
         | Some padded =>
             let stride := Z.land padded (Z.lnot (COMMAND_ALIGNMENT - 1)) in
             if remaining <? stride then (inl Truncated, c)
             else
               let payload := bytes_at m (address + COMMAND_HEADER_BYTES) (len - COMMAND_HEADER_BYTES) in
               (inr (Some (opcode, operand, payload)),
                mkCursor (table c) (table_offset c) (region_address c) (region_bytes c)
                  (region_offset c +% stride)%u32)
         end.

Definition next_record (m : Memory) (c : CommandCursor) : (WireError + option Record_) * CommandCursor :=
  if region_offset c =? region_bytes c then
    if table_offset c =? table_bytes (table c) then (inr None, c)
    else match table c !! Z.to_nat (table_offset c / COMMAND_REGION_BYTES) with
         | None => (inl InvalidValue, c)
         | Some d =>
             if negb (reserved_ d =? 0) || (used_bytes d =? 0) || negb (used_bytes d mod COMMAND_ALIGNMENT =? 0)
             then (inl InvalidValue, c)
             else match validate_range (address d) (used_bytes d) COMMAND_ALIGNMENT with
                  | inl e => (inl e, c)
                  | inr _ => decode_record m (mkCursor (table c) (table_offset c + COMMAND_REGION_BYTES)
                                                (address d) (used_bytes d) 0)
                  end
         end
  else decode_record m c.

Record ReplayPacket := mkReplay { commands : CommandCursor; exhausted : bool; failure : option WireError }.

Definition replay_new (c : CommandCursor) : ReplayPacket := mkReplay c false None.

Section Replay.
Context {S : Type} (m : Memory) (consume : S -> Record_ -> S * (WireError + unit)).

Definition replay_one (p : ReplayPacket) (s : S) : (WireError + bool) * ReplayPacket * S :=
  match failure p with
  | Some e => (inl e, p, s)
  | None =>
      match next_record m (commands p) with
      | (inl e, c) => (inl e, mkReplay c (exhausted p) (Some e), s)
      | (inr None, c) => (inr false, mkReplay c true None, s)
      | (inr (Some (opcode, operand, payload)), c) =>
          match opcode_try_from opcode with
          | inl e => (inl e, mkReplay c (exhausted p) (Some e), s)
          | inr opcode =>
              match consume s (opcode, operand, payload) with
              | (s, inl e) => (inl e, mkReplay c (exhausted p) (Some e), s)
              | (s, inr _) => (inr true, mkReplay c (exhausted p) None, s)
              end
          end
      end
  end.

(** The encoder's loop over [replay_one]; [None] when the fuel runs out. *)
Fixpoint replay (fuel : nat) (p : ReplayPacket) (s : S) : option (ReplayPacket * S) :=
  match fuel with
  | O => None
  | Datatypes.S fuel =>
      match replay_one p s with
      | (inr true, p, s) => replay fuel p s
      | (_, p, s) => Some (p, s)
      end
  end.
End Replay.

(** Whether [into_frame] hands the frame on. *)
Definition into_frame (p : ReplayPacket) : bool :=
  negb (match failure p with Some _ => true | None => negb (exhausted p) || negb (is_complete (commands p)) end).

(** ** A frame, recorded *)

Inductive Op :=
  | OAlloc (data : list Z)
  | OFilled (opcode operand bound : Z) (fill : Fill)
  | OConstants (opcode start_row rows : Z) (bytes : list Z)
  | OAppend (extra_empty : bool) (opcode operand : Z) (payload : list Z).

(** The arena and the recorder, with what the calls answered: the commands
    recorded, and the payload pointers handed out with what was put there. *)
Record World := mkWorld {
  w_arena : ScratchArena; w_recorder : FrameRecorder; w_records : list Record_; w_payloads : list (Z * list Z) }.

Definition start (a : ScratchArena) : World := mkWorld a new_recorder [] [].

Section Run.
Context (usize_bits : Z) (place : list AlignedChunk -> Z -> option Z) (can_grow : nat -> bool).

Definition exec (w : World) (op : Op) : option World :=
  let '(mkWorld a rc recs pays) := w in
  match op with
  | OAlloc data => '(p, a) ← alloc place a data; Some (mkWorld a rc recs (pays ++ [(p, data)]))
  | OFilled opcode operand bound fill =>
      '(r, a, rc) ← record_filled usize_bits place can_grow a rc opcode operand bound fill;
      Some (mkWorld a rc (match r, filled fill with inr _, inr payload => recs ++ [(opcode, operand, payload)] | _, _ => recs end) pays)
  | OConstants opcode start_row rows bytes =>
      '(r, a, rc) ← record_constant_bytes usize_bits place can_grow a rc opcode start_row rows bytes;
      Some (mkWorld a rc (match r with inr _ => recs ++ [(opcode, start_row, take (Z.to_nat (rows * 16)) bytes)] | _ => recs end) pays)
  | OAppend extra_empty opcode operand payload =>
      let '(done, a, rc) := try_append_single_stream a rc extra_empty opcode operand payload in
      Some (mkWorld a rc (if done then recs ++ [(opcode, operand, payload)] else recs) pays)
  end.

Fixpoint run (w : World) (ops : list Op) : option World :=
  match ops with [] => Some w | op :: ops => w ← exec w op; run w ops end.
End Run.

Definition is_u16 (v : Z) : Prop := 0 <= v < 65536.

(** Opcodes are [EncoderOpcode]s, operands [u16]s, sizes not negative; a
    callback writes what it reports; an appended payload is whole words. *)
Definition op_legal (op : Op) : Prop :=
  match op with
  | OAlloc _ => True
  | OFilled opcode operand bound fill => opcode ∈ encoder_opcodes /\ is_u16 operand /\ 0 <= bound /\ fills fill
  | OConstants opcode start_row rows _ => opcode ∈ encoder_opcodes /\ is_u16 start_row /\ 0 <= rows
  | OAppend _ opcode operand payload => opcode ∈ encoder_opcodes /\ is_u16 operand /\ size_of payload mod 8 = 0
  end.

Section Recorded.
Context (top usize_bits : Z) (place : list AlignedChunk -> Z -> option Z) (can_grow : nat -> bool).
Context (H : heap_ok top place).

Definition record_ok (r : Record_) : Prop := r.1.1 ∈ encoder_opcodes /\ is_u16 r.1.2.

(** While no error is latched, the table holds the records and the payloads hold. *)
Definition good (w : World) : Prop :=
  error (w_recorder w) = None ->
  layout top (w_arena w) /\ Forall record_ok (w_records w) /\ count (w_recorder w) = Z.of_nat (length (w_records w))
  /\ (exists rss, region_log (w_arena w) rss /\ concat rss = w_records w)
  /\ Forall (λ '(p, data), held (w_arena w) p (size_of data) /\ bytes_at (mem (w_arena w)) p (size_of data) = data) (w_payloads w).

Lemma payloads_keep a a' pays :
  keeps a a' ->
  Forall (λ '(p, data), held a p (size_of data) /\ bytes_at (mem a) p (size_of data) = data) pays ->
  Forall (λ '(p, data), held a' p (size_of data) /\ bytes_at (mem a') p (size_of data) = data) pays.
Proof. intros K F. eapply Forall_impl; [exact F|]. intros [p data] [Hh E]. destruct (K _ _ Hh) as [? ->]. done. Qed.

(** One recorded command, however it was written. *)
Lemma good_record w a' rc' r rss' :
  good w -> error (w_recorder w) = None -> layout top a' -> keeps (w_arena w) a' -> region_log a' rss' ->
  record_ok r -> concat rss' = w_records w ++ [r] -> count rc' = count (w_recorder w) + 1 ->
  good (mkWorld a' rc' (w_records w ++ [r]) (w_payloads w)).
Proof.
  intros G E L K Lg Hr Ec Hc _. destruct (G E) as (_ & Hrs & Hcount & _ & Hp). cbn.
  split; [done|]. split; [apply Forall_app; by split; [|constructor]|].
  split; [rewrite length_app, Hc, Hcount; cbn; lia|]. split; [by exists rss'|]. by eapply payloads_keep.
Qed.

Lemma fixed_filled n f payload :
  filled (fixed_fill n f) = inr payload -> exists w u, f (λ _, 0) = (w, inr u) /\ payload = w <$> seqZ 0 (Z.of_N (Z.to_N n)).
Proof. unfold filled, fixed_fill. destruct (f _) as [w [e|u]]; [done|]. intros [= <-]. by exists w, u. Qed.

Lemma constant_fills bytes rows : fills (fixed_fill (rows * 16) (constant_source bytes rows)).
Proof.
  intros w w'. unfold fixed_fill, constant_source. destruct (_ <? _); [done|]. cbn. split; [done|]. done.
Qed.

Lemma exec_good w op w' : good w -> op_legal op -> exec usize_bits place can_grow w op = Some w' -> good w'.
Proof.
  intros G Hop. destruct w as [a rc recs pays]. destruct op as [data|opcode operand bound fill|opcode row rows bytes|ee opcode operand payload];
    cbn [exec op_legal] in *.
  - intros ((p & a') & Ha & [= <-])%bind_Some. intros E. destruct (G E) as (L & Hrs & Hcount & (rss & Lg & Ec) & Hp).
    cbn in *. destruct (alloc_ok top place H a data p a' L Ha) as (L' & K & Hh & Eb & S).
    split; [done|]. split; [done|]. split; [done|]. split; [exists rss; split; [by eapply log_keep|done]|].
    apply Forall_app. split; [by eapply payloads_keep|]. by constructor.
  - intros (((r & a') & rc') & Hr & [= <-])%bind_Some. unfold record_filled in Hr.
    destruct (error rc) as [e|] eqn:E; [injection Hr as <- <- <-; intros E'; cbn in E'; congruence|].
    apply bind_Some in Hr as ((r1 & a1) & Hw & [= <- <- <-]). unfold push_initialized_record in Hw.
    apply bind_Some in Hw as ((r2 & a2) & Hw & [= <- <-]). destruct r2 as [e|p]; [by intros E'|].
    destruct (G E) as (L & _ & _ & (rss & Lg & Ec) & _). destruct Hop as (Ho & Hu & Hb & Hf). cbn in L, Lg, Ec.
    destruct (write_command_ok top usize_bits place can_grow H a opcode operand bound fill p a2 rss L Lg Hb Hf Hw)
      as (payload & rss' & Ef & Ec' & _ & L' & K & Lg'). rewrite Ef.
    apply (good_record (mkWorld a rc recs pays) a2 _ _ rss'); try done. by rewrite <- Ec.
  - intros (((r & a') & rc') & Hr & [= <-])%bind_Some. unfold record_constant_bytes, record_constant_destination in Hr.
    destruct (error rc) as [e|] eqn:E; [injection Hr as <- <- <-; intros E'; cbn in E'; congruence|].
    destruct (_ || _) eqn:Eg in Hr; [injection Hr as <- <- <-; by intros E'|].
    apply bind_Some in Hr as ((r1 & a1) & Hw & [= <- <- <-]). unfold push_fixed_record, push_initialized_record in Hw.
    apply bind_Some in Hw as ((r2 & a2) & Hw & [= <- <-]). destruct r2 as [e|p]; [by intros E'|].
    destruct (G E) as (L & _ & _ & (rss & Lg & Ec) & _). destruct Hop as (Ho & Hu & Hb). cbn in L, Lg, Ec.
    destruct (write_command_ok top usize_bits place can_grow H a opcode row (rows * 16) _ p a2 rss L Lg ltac:(lia)
      (constant_fills bytes rows) Hw) as (payload & rss' & Ef & Ec' & _ & L' & K & Lg').
    apply fixed_filled in Ef as (w & u & Ef & ->). unfold constant_source in Ef. destruct (_ <? _) eqn:Es in Ef; [done|].
    injection Ef as <- _. reflect_cmp.
    assert (Et : byte_of bytes <$> seqZ 0 (Z.of_N (Z.to_N (rows * 16))) = take (Z.to_nat (rows * 16)) bytes).
    { rewrite Z2N.id by lia. apply list_eq. intros i. rewrite list_lookup_fmap. unfold size_of in Es.
      destruct (decide (i < Z.to_nat (rows * 16))%nat).
      - rewrite (lookup_seqZ_lt _ _ i), lookup_take_lt by lia. cbn. unfold byte_of. rewrite Z.add_0_l, Nat2Z.id.
        destruct (lookup_lt_is_Some_2 bytes i) as [b ->]; [lia|done].
      - rewrite lookup_seqZ_ge, lookup_take_ge by lia. done. }
    rewrite Et in Ec'. apply (good_record (mkWorld a rc recs pays) a2 _ _ rss'); try done. by rewrite <- Ec.
  - unfold try_append_single_stream. destruct (match error rc with Some _ => true | None => _ end) eqn:E; [by intros [= <-]|].
    destruct (error rc) as [e|] eqn:Ee; [done|]. destruct (slot_write a opcode operand payload) as [a'|] eqn:Es; [|by intros [= <-]].
    intros [= <-]. destruct (G Ee) as (L & _ & _ & (rss & Lg & Ec) & _). destruct Hop as (Ho & Hu & H8). cbn in L, Lg, Ec.
    destruct (slot_write_ok top can_grow a opcode operand payload a' rss L Lg H8 Es) as (rss' & Ec' & L' & K & Lg').
    apply (good_record (mkWorld a rc recs pays) a' _ _ rss'); try done. by rewrite <- Ec.
Qed.

Lemma run_good w ops w' : good w -> Forall op_legal ops -> run usize_bits place can_grow w ops = Some w' -> good w'.
Proof.
  revert w. induction ops as [|op ops IH]; intros w G Hl; cbn; [by intros [= <-]|].
  apply Forall_cons in Hl as [Hop Hops]. intros (w1 & Hw & Hr)%bind_Some. eapply IH; [|done|done]. by eapply exec_good.
Qed.

Lemma start_good a : empty_arena top a -> good (start a).
Proof. intros (L & _ & Lg & _) _. cbn. split; [done|]. repeat split; try constructor. by exists []. Qed.
End Recorded.

(** ** The frame, replayed *)

Section Replayed.
Context (m : Memory).

(** A region's bytes are these records, and its descriptor passes the reader's checks. *)
Definition region_in (r : CommandRegion) (rs : list Record_) : Prop :=
  reserved_ r = 0 /\ rs <> [] /\ 0 < address r /\ address r mod 8 = 0 /\ used_bytes r mod 8 = 0
  /\ 0 <= used_bytes r <= u32_max /\ address r + used_bytes r <= u64_max
  /\ bytes_at m (address r) (used_bytes r) = rs ≫= record_bytes.

(** What the cursor has still to read. *)
Definition ahead (c : CommandCursor) (recs : list Record_) : Prop :=
  exists k rs rss, recs = rs ++ concat rss /\ table_offset c = 16 * Z.of_nat k /\ (k <= length (table c))%nat
    /\ Forall2 region_in (drop k (table c)) rss
    /\ 0 <= region_offset c <= region_bytes c /\ region_bytes c <= u32_max
    /\ 0 <= region_address c /\ region_address c + region_bytes c <= u64_max
    /\ bytes_at m (region_address c + region_offset c) (region_bytes c - region_offset c) = rs ≫= record_bytes.

Lemma record_decodes p opcode operand payload rest n :
  is_u16 opcode -> is_u16 operand -> size_of payload + 8 <= u32_max ->
  bytes_at m p n = record_bytes (opcode, operand, payload) ++ rest ->
  size_of (record_bytes (opcode, operand, payload)) <= n /\
  le_value (bytes_at m p 2) = opcode /\ le_value (bytes_at m (p + 2) 2) = operand
  /\ le_value (bytes_at m (p + 4) 4) = size_of payload + 8
  /\ bytes_at m (p + 8) (size_of payload) = payload
  /\ bytes_at m (p + size_of (record_bytes (opcode, operand, payload))) (n - size_of (record_bytes (opcode, operand, payload))) = rest.
Proof.
  intros Ho Hu Hp E. set (r := record_bytes _) in *.
  assert (Hn : size_of r <= n).
  { apply (f_equal length) in E. rewrite length_bytes_at, length_app in E. unfold size_of in *. 
    assert (length r <> 0)%nat; [|lia]. unfold r, record_bytes, header_bytes. rewrite !length_app, !length_le_bytes. lia. }
  assert (0 <= size_of r) by (unfold size_of; lia).
  replace n with (size_of r + (n - size_of r)) in E by lia. rewrite bytes_at_app in E by lia.
  apply app_inj_1 in E as [E Erest]; [|rewrite length_bytes_at; unfold size_of; lia].
  split; [done|].
  assert (Esz : size_of r = align_up (size_of payload + 8) COMMAND_ALIGNMENT) by apply size_record.
  assert (0 <= size_of payload) by (unfold size_of; lia).
  pose proof (align_up_8 (size_of payload + 8) ltac:(lia)) as [Ha _]. rewrite <- Esz in Ha.
  assert (S : size_of r = 2 + (2 + (4 + (size_of payload + (size_of r - (size_of payload + 8)))))) by lia.
  rewrite S in E. rewrite !bytes_at_app in E by lia.
  unfold r, record_bytes, header_bytes in E. rewrite <- !app_assoc in E.
  apply app_inj_1 in E as [E1 E]; [|by rewrite length_bytes_at, length_le_bytes].
  apply app_inj_1 in E as [E2 E]; [|by rewrite length_bytes_at, length_le_bytes].
  apply app_inj_1 in E as [E3 E]; [|by rewrite length_bytes_at, length_le_bytes].
  apply app_inj_1 in E as [E4 _]; [|rewrite length_bytes_at; unfold size_of; lia].
  replace (p + 2 + 2) with (p + 4) in * by lia. replace (p + 4 + 4) with (p + 8) in * by lia.
  rewrite E1, E2, E3, E4, !le_value_bytes by (unfold is_u16, u32_max in *; change COMMAND_HEADER_BYTES with 8; cbn; lia).
  done.
Qed.

Lemma records_long r rs : (8 <= length ((r :: rs) ≫= record_bytes))%nat.
Proof.
  change ((r :: rs) ≫= record_bytes) with (record_bytes r ++ (rs ≫= record_bytes)). rewrite length_app.
  destruct r as [[opcode operand] payload]. unfold record_bytes, header_bytes. rewrite !length_app, !length_le_bytes. lia.
Qed.

Lemma decode_ok c r recs :
  record_ok r -> ahead c (r :: recs) -> region_offset c <> region_bytes c ->
  exists c', decode_record m c = (inr (Some r), c') /\ ahead c' recs.
Proof.
  intros [Hop Hu] (k & rs & rss & Er & Et & Hk & F & Hr & Hu32 & Ha0 & Ha & Hb) Hne.
  assert (Hrs : exists rs', rs = r :: rs' /\ recs = rs' ++ concat rss).
  { destruct rs as [|r' rs']; [|injection Er as <- ->; by exists rs'].
    apply (f_equal length) in Hb. rewrite length_bytes_at in Hb. cbn in Hb. lia. }
  destruct Hrs as (rs' & -> & ->). destruct r as [[opcode operand] payload]. cbn in Hop, Hu.
  change (((opcode, operand, payload) :: rs') ≫= record_bytes)
    with (record_bytes (opcode, operand, payload) ++ (rs' ≫= record_bytes)) in Hb.
  set (p := region_address c + region_offset c) in *. set (n := region_bytes c - region_offset c) in *.
  assert (Hop16 : is_u16 opcode).
  { unfold is_u16. apply list_elem_of_In in Hop. unfold encoder_opcodes in Hop. cbn in Hop. intuition lia. }
  assert (Hlen : size_of (record_bytes (opcode, operand, payload)) <= n).
  { apply (f_equal length) in Hb. rewrite length_bytes_at, length_app in Hb. unfold size_of. lia. }
  assert (0 <= size_of payload) by (unfold size_of; lia).
  assert (Esz : size_of (record_bytes (opcode, operand, payload)) = align_up (size_of payload + 8) COMMAND_ALIGNMENT) by apply size_record.
  pose proof (align_up_8 (size_of payload + 8) ltac:(lia)) as [Hal Hal8]. rewrite <- Esz in Hal, Hal8.
  destruct (record_decodes p opcode operand payload _ n Hop16 Hu ltac:(unfold n in *; lia) Hb) as (_ & E1 & E2 & E3 & E4 & E5).
  set (sz := size_of (record_bytes _)) in *.
  unfold decode_record, COMMAND_HEADER_BYTES, COMMAND_ALIGNMENT. fold n.
  rewrite wrap32_small by (unfold is_u32, n, u32_max in *; lia). rewrite wrap64_small by (unfold is_u64, p, u64_max, u32_max in *; lia).
  fold p. rewrite E1, E2, E3. replace (size_of payload + 8 - 8) with (size_of payload) by lia. rewrite E4.
  destruct (n <? 8) eqn:X1; reflect_cmp; [lia|]. destruct (size_of payload + 8 <? 8) eqn:X2; reflect_cmp; [lia|].
  replace (checked u32_max (size_of payload + 8 + (8 - 1))) with (Some (size_of payload + 8 + 7)).
  2:{ symmetry. apply checked_Some. split; [lia|]. unfold n, u32_max in *. Z.to_euclidean_division_equations; lia. }
  replace (Z.land (size_of payload + 8 + 7) (Z.lnot (8 - 1))) with sz.
  2:{ rewrite Esz. unfold align_up, COMMAND_ALIGNMENT. f_equal. lia. }
  destruct (n <? sz) eqn:X3; reflect_cmp; [lia|]. eexists. split; [reflexivity|].
  rewrite wrap32_small by (unfold is_u32, n, u32_max in *; lia).
  exists k, rs', rss. cbn [table table_offset region_address region_bytes region_offset].
  do 4 (split; [done|]). split; [unfold n in *; lia|]. do 3 (split; [done|]).
  rewrite <- E5. f_equal; unfold p, n; lia.
Qed.

Lemma next_ok c recs :
  ahead c recs -> Forall record_ok recs ->
  match recs with
  | [] => next_record m c = (inr None, c) /\ is_complete c = true
  | r :: recs => exists c', next_record m c = (inr (Some r), c') /\ ahead c' recs
  end.
Proof.
  intros A Hok. destruct (Z.eq_dec (region_offset c) (region_bytes c)) as [Ee|Ene].
  - destruct A as (k & rs & rss & -> & Et & Hk & F & Hr & Hu32 & Ha0 & Ha & Hb).
    assert (rs = []) as ->.
    { destruct rs as [|r rs]; [done|]. apply (f_equal length) in Hb. rewrite Ee, Z.sub_diag in Hb.
      pose proof (records_long r rs). rewrite length_bytes_at in Hb. lia. }
    cbn [app] in *. unfold next_record. rewrite (proj2 (Z.eqb_eq _ _) Ee).
    destruct (drop k (table c)) as [|d ds] eqn:Ed; inversion F as [|? rs ? rss' Hd F' E1 E2]; subst.
    + assert (k = length (table c)) as -> by (apply (f_equal length) in Ed; rewrite length_drop in Ed; cbn in Ed; lia).
      cbn. assert (Eb : table_offset c = table_bytes (table c)) by (unfold table_bytes, COMMAND_REGION_BYTES; lia).
      unfold is_complete. by rewrite Ee, Eb, !Z.eqb_refl.
    + assert (Hlk : table c !! k = Some d) by (rewrite <- (Nat.add_0_r k), <- lookup_drop, Ed; done).
      pose proof (lookup_lt_Some _ _ _ Hlk) as Hlt.
      destruct (table_offset c =? table_bytes (table c)) eqn:X; [unfold table_bytes, COMMAND_REGION_BYTES in X; reflect_cmp; lia|].
      unfold COMMAND_REGION_BYTES. rewrite Et, Z.mul_comm, Z.div_mul, Nat2Z.id, Hlk by lia.
      destruct Hd as (H0 & Hne & Hp & H8 & Hu8 & Hur & Htop & Hbytes).
      destruct rs as [|r rs]; [done|]. rewrite H0. cbn [Z.eqb negb orb].
      assert (Hlen : 0 < used_bytes d).
      { apply (f_equal length) in Hbytes. rewrite length_bytes_at in Hbytes. pose proof (records_long r rs). lia. }
      destruct (used_bytes d =? 0) eqn:X1; reflect_cmp; [lia|]. unfold COMMAND_ALIGNMENT. rewrite Hu8. cbn [negb orb].
      unfold validate_range. rewrite H8. destruct (address d =? 0) eqn:X2; reflect_cmp; [lia|]. cbn [negb orb].
      replace (checked u64_max (address d + used_bytes d)) with (Some (address d + used_bytes d)) by (symmetry; apply checked_Some; lia).
      cbn [concat]. apply Forall_cons in Hok as [Hr0 _].
      apply decode_ok; [done| |cbn; lia]. exists (S k), (r :: rs), rss'. cbn [table table_offset region_address region_bytes region_offset].
      split; [done|]. split; [lia|]. split; [lia|]. split.
      { rewrite <- (Nat.add_1_r k), <- drop_drop, Ed. done. }
      split; [lia|]. split; [lia|]. split; [lia|]. split; [done|]. rewrite Z.add_0_r, Z.sub_0_r. done.
  - unfold next_record. rewrite (proj2 (Z.eqb_neq _ _) Ene).
    destruct recs as [|r recs].
    + destruct A as (k & rs & rss & Er & _ & _ & _ & Hr & _ & _ & _ & Hb). symmetry in Er. apply app_eq_nil in Er as [-> _].
      apply (f_equal length) in Hb. rewrite length_bytes_at in Hb. cbn in Hb. lia.
    + apply Forall_cons in Hok as [Hr _]. by apply decode_ok.
Qed.

(** Running the consumer over a list of commands, up to its first error. *)
Fixpoint consume_all {S} (consume : S -> Record_ -> S * (WireError + unit)) (s : S) (recs : list Record_) : S * option WireError :=
  match recs with
  | [] => (s, None)
  | r :: recs => match consume s r with (s, inl e) => (s, Some e) | (s, inr _) => consume_all consume s recs end
  end.

Lemma replay_ok {S} (consume : S -> Record_ -> S * (WireError + unit)) recs c ex s :
  ahead c recs -> Forall record_ok recs ->
  exists p, replay m consume (Datatypes.S (length recs)) (mkReplay c ex None) s = Some (p, (consume_all consume s recs).1)
    /\ failure p = (consume_all consume s recs).2 /\ (failure p = None -> into_frame p = true).
Proof.
  revert c s. induction recs as [|r recs IH]; intros c s A Hok.
  - destruct (next_ok c [] A Hok) as [E Hc]. cbn [length replay]. unfold replay_one. cbn [failure commands]. rewrite E.
    eexists. split; [reflexivity|]. split; [done|]. intros _. unfold into_frame. cbn. by rewrite Hc.
  - destruct (next_ok c (r :: recs) A Hok) as (c' & E & A'). apply Forall_cons in Hok as [Hr Hok].
    cbn [length]. remember (Datatypes.S (length recs)) as fuel eqn:Ef. cbn [replay].
    unfold replay_one. cbn [failure commands exhausted]. rewrite E. destruct r as [[opcode operand] payload].
    assert (opcode_try_from opcode = inr opcode) as ->.
    { unfold opcode_try_from. replace (existsb (Z.eqb opcode) encoder_opcodes) with true; [done|]. symmetry.
      apply existsb_exists. exists opcode. split; [apply list_elem_of_In, Hr|apply Z.eqb_refl]. }
    cbn [consume_all]. destruct (consume s (opcode, operand, payload)) as [s' [e|u]].
    + eexists. split; [reflexivity|]. split; [done|]. done.
    + by apply IH.
Qed.
End Replayed.

Section Packet.
Context (top usize_bits : Z) (place : list AlignedChunk -> Z -> option Z) (can_grow : nat -> bool).

Lemma held_top a p n : layout top a -> held a p n -> p + n <= top.
Proof.
  intros L (i & c & Hc & _ & Hn). pose proof (frozen_room top a i c L Hc).
  pose proof (l_chunk top a L i c (proj1 Hc)). lia.
Qed.

(** A sealed table names every region with its records. *)
Lemma sealed_table a rc a' rss :
  layout top a -> top <= u64_max -> region_log a rss -> seal a rc = (inr tt, a') ->
  mem a' = mem a /\ Forall2 (region_in (mem a)) (command_regions a') rss.
Proof.
  intros L Ht Lg. unfold seal. destruct (error rc); [done|]. intros [Hu ->]%publish_ok. split; [done|].
  assert (P : forall r rs, region_holds a r rs -> region_in (mem a) r rs).
  { intros r rs (? & ? & ? & ? & ? & ? & Hh & Hb). repeat split; try done; try lia. pose proof (held_top a _ _ L Hh). lia. }
  cbn [command_regions with_regions]. unfold published.
  destruct Lg as [(_ & -> & ->)|(rss0 & rs & -> & Hne & Hs & prior & r & -> & Ea & E0 & F & R)]; [constructor|].
  rewrite last_snoc, removelast_last. apply Forall2_app; [eapply Forall2_impl; [exact F|exact P]|].
  constructor; [|constructor]. apply P. destruct (open_region_bounds top can_grow a L Hs) as (? & ? & ? & ? & ?).
  rewrite Ea, E0. repeat split; cbn; try done; try lia; apply R.
Qed.

(** C11: Whatever payloads and commands a frame records, in any order and across
    as many chunks as it takes, if no call failed and the packet seals then
    every payload pointer still reads what was put there, and the native side,
    given the region table alone, hands its consumer exactly the recorded
    commands, each once and in order, up to the first one the consumer refuses;
    with none refused the replay is complete and the frame goes on to submit. *)
Theorem packet_replays_records a0 ops w a table_address :
  heap_ok top place -> top <= u64_max -> empty_arena top a0 -> Forall op_legal ops ->
  run usize_bits place can_grow (start a0) ops = Some w ->
  seal (w_arena w) (w_recorder w) = (inr tt, a) -> table_address mod 8 = 0 ->
  Forall (λ '(p, data), bytes_at (mem a) p (size_of data) = data) (w_payloads w)
  /\ count (w_recorder w) = Z.of_nat (length (w_records w))
  /\ exists c, cursor_new table_address (command_regions a) = inr c
     /\ forall (S : Type) (consume : S -> Record_ -> S * (WireError + unit)) s, exists p,
        replay (mem a) consume (Datatypes.S (length (w_records w))) (replay_new c) s
          = Some (p, (consume_all consume s (w_records w)).1)
        /\ failure p = (consume_all consume s (w_records w)).2
        /\ (failure p = None -> into_frame p = true).
Proof.
  intros H Ht He Hl Hrun Hseal Hal.
  assert (E : error (w_recorder w) = None) by (unfold seal in Hseal; by destruct (error _)).
  destruct (run_good top usize_bits place can_grow H _ ops w (start_good top a0 He) Hl Hrun E)
    as (L & Hok & Hcount & (rss & Lg & Ec) & Hp).
  destruct (sealed_table _ _ _ _ L Ht Lg Hseal) as [Em F]. rewrite Em.
  split; [eapply Forall_impl; [exact Hp|]; by intros [p data] [_ ?]|]. split; [done|].
  exists (mkCursor (command_regions a) 0 0 0 0). split.
  - unfold cursor_new. rewrite Hal. by rewrite andb_false_r.
  - intros S consume s. apply replay_ok; [|done]. exists 0%nat, [], rss.
    cbn [table table_offset region_address region_bytes region_offset]. rewrite drop_0. unfold u64_max, u32_max.
    repeat split; done || lia.
Qed.
End Packet.

(** ** A frame over two regions *)

Definition sample_top : Z := 2 ^ 32.

(** A heap that puts every chunk past the others. *)
Definition sample_place (l : list AlignedChunk) (n : Z) : option Z :=
  let b := foldr (λ c acc, Z.max acc (align_up (base c + chunk_room (length_ c)) ALIGN)) 4096 l in
  if b + n <=? sample_top then Some b else None.

Lemma sample_heap : heap_ok sample_top sample_place.
Proof.
  intros l n b. unfold sample_place. set (f := foldr _ _ _). destruct (_ <=? _) eqn:E; [|done]. reflect_cmp. intros [= <-].
  assert (P : 0 < f /\ f mod 16 = 0 /\ forall c, c ∈ l -> base c + chunk_room (length_ c) <= f).
  { subst f. clear E. induction l as [|c l (IHp & IHm & IHc)]; cbn [foldr]; [split; [done|]; split; [done|]; intros c Hc; by apply not_elem_of_nil in Hc|].
    set (g := foldr _ _ l) in *. set (e := base c + chunk_room (length_ c)).
    destruct (Z.le_gt_cases 0 e) as [He|He].
    - pose proof (align_up_16 e He) as [? ?]. split; [lia|]. split; [by destruct (Z.max_spec g (align_up e ALIGN)) as [[_ ->]|[_ ->]]|].
      intros d [->|Hd]%elem_of_cons; [unfold e in *; lia|]. pose proof (IHc d Hd). lia.
    - assert (align_up e ALIGN <= 0).
      { unfold align_up, ALIGN. destruct (Z.le_gt_cases 0 (e + 16 - 1)).
        - rewrite Z.land_comm. assert (e + 16 - 1 < 16) by lia. 
          replace (Z.lnot (16 - 1)) with (Z.lnot (Z.ones 4)) by done. rewrite Z.land_comm, <- Z.ldiff_land, Z.ldiff_ones_r, Z.shiftr_div_pow2, Z.div_small by lia. done.
        - apply Z.lt_le_incl, Z.land_neg. split; [lia|done]. }
      rewrite Z.max_l by lia. split; [done|]. split; [done|]. intros d [->|Hd]%elem_of_cons; [fold e; lia|by apply IHc]. }
  destruct P as (? & ? & P). split; [done|]. split; [done|]. split; [done|]. intros c Hc. right. by apply P.
Qed.

Definition sample_arena : ScratchArena := with_chunk_size (λ _, 205) 64.

Definition sample_fill (payload : list Z) : Fill := λ _, (byte_of payload, inr (Z.to_N (size_of payload))).

Definition sample_ops : list Op :=
  [OAlloc [1; 2; 3]; OFilled 4 0 20 (sample_fill [9; 8; 7; 6; 5]); OConstants 1 5 1 (replicate 16 3);
   OAppend true 4 0 (replicate 8 4); OAlloc (replicate 90 1); OAppend true 4 0 (replicate 8 5); OFilled 41 7 70 (sample_fill (replicate 61 2)); OAlloc [4]].

  Abbreviation sample_run := (run 32 sample_place (λ _, true) (start sample_arena) sample_ops).

Definition list_consumer (s : list Record_) (r : Record_) : list Record_ * (WireError + unit) := (s ++ [r], inr tt).

Lemma sample_legal : Forall op_legal sample_ops.
Proof.
  assert (F : forall p, fills (sample_fill p)) by (intros p w w'; by split).
  assert (C : forall v, existsb (Z.eqb v) encoder_opcodes = true -> v ∈ encoder_opcodes).
  { intros v (x & Hx & ->%Z.eqb_eq)%existsb_exists. by apply list_elem_of_In. }
  unfold sample_ops, is_u16. repeat constructor; cbn; try done; try lia; try (by apply C); apply F.
Qed.

(** Regions, commands and payloads of a frame once sealed. *)
Definition sealed_counts (w : World) : option (nat * nat * nat) :=
  match seal (w_arena w) (w_recorder w) with
  | (inl _, _) => None
  | (inr _, a) => Some (length (command_regions a), length (w_records w), length (w_payloads w))
  end.

Lemma sealed_counts_Some w n : sealed_counts w = Some n ->
  exists a, seal (w_arena w) (w_recorder w) = (inr tt, a)
    /\ (length (command_regions a), length (w_records w), length (w_payloads w)) = n.
Proof. unfold sealed_counts. destruct (seal _ _) as [[e|[]] a]; [done|]. intros [= <-]. by exists a. Qed.

Lemma sample_counted : sample_run ≫= sealed_counts = Some (2, 4, 3)%nat.
Proof. vm_compute. reflexivity. Qed.

Lemma packet_replays_records_witness :
  exists w a, sample_run = Some w /\ (length (command_regions a), length (w_records w), length (w_payloads w)) = (2, 4, 3)%nat
    /\ Forall (λ '(p, data), bytes_at (mem a) p (size_of data) = data) (w_payloads w).
Proof.
  pose proof sample_counted as X. apply bind_Some in X as (w & E & X).
  destruct (sealed_counts_Some w _ X) as (a & Es & En).
  exists w, a. split; [exact E|]. split; [exact En|].
  destruct (packet_replays_records sample_top 32 sample_place (λ _, true) sample_arena sample_ops w a 0) as [P _].
  - exact sample_heap.
  - unfold sample_top, u64_max. lia.
  - by apply empty_new.
  - exact sample_legal.
  - exact E.
  - exact Es.
  - reflexivity.
  - exact P.
Defined.
