(* ===== verification/BufferRename.v ===== *)
(** [buffer_rename.rs]: the decisions a vertex or index buffer [Lock] makes:
    write in place or rename, which pools stage, which locks widen or record
    the pending upload, and when a renamed device buffer must be preserved. *)

From S2P Require Import Prelude D3DTypes.

Inductive PreserveKind := PreserveNone | PreserveCpu.

Inductive LockPlan := WriteInPlace | Rename (preserve : PreserveKind).

#[global] Instance PreserveKind_eq_dec : EqDecision PreserveKind.
Proof. solve_decision. Defined.
#[global] Instance LockPlan_eq_dec : EqDecision LockPlan.
Proof. solve_decision. Defined.

Definition plan_lock (flags usage logical_len offset_to_lock size_to_lock
    last_submit_seq coherent_seq : Z) : LockPlan :=
  if flag flags (Z.lor D3DLOCK_NOOVERWRITE D3DLOCK_READONLY) then WriteInPlace
  else if last_submit_seq <=? coherent_seq then WriteInPlace
  else if flag flags D3DLOCK_DISCARD then Rename PreserveNone
  else
    let effective_size :=
      if size_to_lock =? 0 then (logical_len -| offset_to_lock)%u32
      else Z.min size_to_lock (logical_len -| offset_to_lock)%u32 in
    let whole_buffer := (offset_to_lock =? 0) && (logical_len <=? effective_size) in
    if whole_buffer then Rename PreserveCpu else WriteInPlace.

Inductive BufferMapMode := Direct | Staged.

#[global] Instance BufferMapMode_eq_dec : EqDecision BufferMapMode.
Proof. solve_decision. Defined.

Definition classify_map_mode (usage pool : Z) : BufferMapMode :=
  if (pool =? D3DPOOL_DEFAULT) && flag usage D3DUSAGE_DYNAMIC then Direct else Staged.

Definition may_trust_lock_bounds (flags _usage _pool size_to_lock : Z)
    (ignore_configured : bool) : bool :=
  negb ignore_configured && negb (size_to_lock =? 0) && negb (flag flags D3DLOCK_DISCARD).

Definition records_dirty_range (flags pool : Z) : bool :=
  negb (flag flags D3DLOCK_READONLY && (pool =? D3DPOOL_MANAGED)).

Definition stage_upload_needs_preserve (device_len offset size : Z) : bool :=
  negb (offset =? 0) || negb (size =? device_len).

(** ** What the decisions guarantee *)

(** A lock that names every byte of the buffer. *)
Definition names_whole_buffer (logical_len offset size : Z) : Prop :=
  offset = 0 /\ (size = 0 \/ logical_len <= size).

(** The whole decision table of [plan_lock]. *)
Lemma plan_lock_table flags usage len off size last coh :
  is_u32 len -> is_u32 off -> is_u32 size ->
  plan_lock flags usage len off size last coh =
    if flag flags D3DLOCK_NOOVERWRITE || flag flags D3DLOCK_READONLY || (last <=? coh)
    then WriteInPlace
    else if flag flags D3DLOCK_DISCARD then Rename PreserveNone
    else if bool_decide (names_whole_buffer len off size) then Rename PreserveCpu
    else WriteInPlace.
Proof.
  intros. unfold plan_lock. rewrite flag_lor.
  destruct (flag flags D3DLOCK_NOOVERWRITE), (flag flags D3DLOCK_READONLY),
    (last <=? coh); simpl; try done.
  destruct (flag flags D3DLOCK_DISCARD); [done|].
  match goal with |- (if ?b then _ else _) = _ => replace b with
    (bool_decide (names_whole_buffer len off size)) end; [done|].
  apply eq_bool_prop_intro. rewrite bool_decide_spec, andb_True, !Is_true_true, Z.eqb_eq, Z.leb_le.
  unfold names_whole_buffer, sat. unfold_mach. split_ifs; lia.
Qed.

(** Only [Direct] buffers, the default-pool dynamic ones, share their backing
    with the GPU. *)
Lemma classify_map_mode_direct usage pool :
  classify_map_mode usage pool = Direct
  <-> pool = D3DPOOL_DEFAULT /\ flag usage D3DUSAGE_DYNAMIC = true.
Proof.
  unfold classify_map_mode. destruct (pool =? _) eqn:?, (flag _ _); simpl; reflect_cmp;
    naive_solver.
Qed.

(** A rename may skip the preserve copy exactly when the upload replaces every
    byte of the device buffer. *)
Lemma needs_preserve_false device_len offset size :
  stage_upload_needs_preserve device_len offset size = false
  <-> offset = 0 /\ size = device_len.
Proof.
  unfold stage_upload_needs_preserve. rewrite orb_false_iff, !negb_false_iff, !Z.eqb_eq. done.
Qed.
