(* ===== verification/BufferBacking.v ===== *)
(** [buffer_backing.rs]: the CPU backing of a vertex or index buffer, what it
    still holds of the device buffer, and the per-class live-bytes gauge. *)

From S2P Require Import Prelude D3DTypes PageBox BufferRename.

Inductive BackingClass := WriteOnlyStatic | Dynamic | Other.
Inductive BackingState := Mirrors | Released | Partial.

#[global] Instance BackingClass_eq_dec : EqDecision BackingClass.
Proof. solve_decision. Defined.
#[global] Instance BackingState_eq_dec : EqDecision BackingState.
Proof. solve_decision. Defined.

(** The three process-wide counters. *)
Record BackingBytes := mkBackingBytes {
  write_only_static : Z; dynamic : Z; other : Z;
}.

Definition total (g : BackingBytes) : Z :=
  wrap64 (wrap64 (write_only_static g + dynamic g) + other g).

Definition may_release_backing (usage pool : Z) : bool :=
  (pool =? D3DPOOL_DEFAULT)
  && flag usage D3DUSAGE_WRITEONLY
  && negb (flag usage (Z.lor D3DUSAGE_DYNAMIC D3DUSAGE_SOFTWAREPROCESSING)).

Definition classify_backing (usage pool : Z) : BackingClass :=
  if may_release_backing usage pool then WriteOnlyStatic
  else if flag usage D3DUSAGE_DYNAMIC then Dynamic
  else Other.

Definition counter (g : BackingBytes) (c : BackingClass) : Z :=
  match c with
  | WriteOnlyStatic => write_only_static g
  | Dynamic => dynamic g
  | Other => other g
  end.

Definition set_counter (g : BackingBytes) (c : BackingClass) (v : Z) : BackingBytes :=
  match c with
  | WriteOnlyStatic => mkBackingBytes v (dynamic g) (other g)
  | Dynamic => mkBackingBytes (write_only_static g) v (other g)
  | Other => mkBackingBytes (write_only_static g) (dynamic g) v
  end.

Definition charge (g : BackingBytes) (c : BackingClass) (n : Z) : BackingBytes :=
  set_counter g c (wrap64 (counter g c + n)).
Definition discharge (g : BackingBytes) (c : BackingClass) (n : Z) : BackingBytes :=
  set_counter g c (wrap64 (counter g c - n)).

Module BufferBacking.

Record t := mk {
  page_box : option PageBox;
  padded_len : Z;
  logical_len : Z;
  class : BackingClass;
  state : BackingState;
  pinned : bool;
}.

Definition new (g : BackingBytes) (pb : PageBox) (logical : Z) (c : BackingClass)
    : t * BackingBytes :=
  (mk (Some pb) (pb_len pb) logical c Mirrors false, charge g c (pb_len pb)).

Definition is_released (b : t) : bool := bool_decide (state b = Released).
Definition may_widen_upload (b : t) : bool := bool_decide (state b = Mirrors).

(** [read_ptr_at] and [write_ptr_at]: the offset of the pointer handed out. *)
Definition ptr_at (b : t) (offset : Z) : option Z :=
  pb ← page_box b; if pb_len pb <? offset then None else Some offset.

Definition release (g : BackingBytes) (b : t) : option PageBox * t * BackingBytes :=
  match page_box b with
  | None => (None, b, g)
  | Some pb =>
      (Some pb, mk None (padded_len b) (logical_len b) (class b) Released (pinned b),
       discharge g (class b) (padded_len b))
  end.

(** [adopt_device_copy]; [None] is the panic of [copy_from_slice] on a length
    mismatch. *)
Definition adopt_device_copy (g : BackingBytes) (b : t) (pb : PageBox)
    : option (t * BackingBytes) :=
  match state b with
  | Mirrors => Some (b, g)
  | Partial =>
      match page_box b with
      | None => if pb_len pb =? 0
                then Some (mk None (padded_len b) (logical_len b) (class b) Mirrors true, g)
                else None
      | Some own =>
          if pb_len own =? pb_len pb
          then Some (mk (Some (copy_into own 0 (pb_bytes pb) 0 (pb_len pb))) (padded_len b)
                       (logical_len b) (class b) Mirrors true, g)
          else None
      end
  | Released =>
      Some (mk (Some pb) (pb_len pb) (logical_len b) (class b) Mirrors true,
            charge g (class b) (pb_len pb))
  end.

Definition restore (g : BackingBytes) (b : t) (pb : PageBox) : t * BackingBytes :=
  (mk (Some pb) (pb_len pb) (logical_len b) (class b) Partial (pinned b),
   charge g (class b) (pb_len pb)).

Definition replace (g : BackingBytes) (b : t) (pb : PageBox)
    : option PageBox * t * BackingBytes :=
  match page_box b with
  | None => (None, b, g)
  | Some old =>
      (Some old, mk (Some pb) (pb_len pb) (logical_len b) (class b) (state b) (pinned b),
       charge (discharge g (class b) (padded_len b)) (class b) (pb_len pb))
  end.

Definition note_upload (b : t) (min max : Z) : t :=
  if bool_decide (state b = Partial) && (min =? 0) && (logical_len b <=? max)
  then mk (page_box b) (padded_len b) (logical_len b) (class b) Mirrors (pinned b)
  else b.

(** [Drop for BufferBacking]. *)
Definition drop (g : BackingBytes) (b : t) : BackingBytes :=
  match page_box b with
  | Some _ => discharge g (class b) (padded_len b)
  | None => g
  end.

(** ** Accounting *)

(** What a backing contributes to its class's counter. *)
Definition charged (b : t) : Z := match page_box b with Some _ => padded_len b | None => 0 end.

(** A backing without pages is exactly a released one, and the padded length
    is the allocation's while there is one. *)
Definition wf (b : t) : Prop :=
  (page_box b = None <-> state b = Released)
  /\ forall pb, page_box b = Some pb -> padded_len b = pb_len pb.

Lemma charge_counter g c n c' :
  counter (charge g c n) c' = if decide (c' = c) then wrap64 (counter g c + n) else counter g c'.
Proof. destruct c, c'; done. Qed.

Lemma discharge_counter g c n c' :
  counter (discharge g c n) c' = if decide (c' = c) then wrap64 (counter g c - n) else counter g c'.
Proof. destruct c, c'; done. Qed.

(** Every operation on one live backing. *)
Inductive op (g : BackingBytes) (b : t) : t -> BackingBytes -> Prop :=
  | op_release : forall o b' g', release g b = (o, b', g') -> op g b b' g'
  | op_adopt : forall pb b' g', adopt_device_copy g b pb = Some (b', g') -> op g b b' g'
  | op_restore : forall pb b' g',
      is_released b = true -> restore g b pb = (b', g') -> op g b b' g'
  | op_replace : forall pb o b' g', replace g b pb = (o, b', g') -> op g b b' g'
  | op_note : forall min max, op g b (note_upload b min max) g.

(** Live backings and the gauge, across every buffer of the process. *)
Inductive step : list t * BackingBytes -> list t * BackingBytes -> Prop :=
  | step_new : forall bs g pb logical c b g',
      new g pb logical c = (b, g') -> step (bs, g) (b :: bs, g')
  | step_op : forall bs1 bs2 g b b' g',
      op g b b' g' -> step (bs1 ++ b :: bs2, g) (bs1 ++ b' :: bs2, g')
  | step_drop : forall bs1 bs2 g b,
      step (bs1 ++ b :: bs2, g) (bs1 ++ bs2, drop g b).

(** Padded bytes the backings of class [c] hold. *)
Fixpoint held (c : BackingClass) (bs : list t) : Z :=
  match bs with
  | [] => 0
  | b :: bs => (if decide (c = class b) then charged b else 0) + held c bs
  end.

Definition gauge_ok (w : list t * BackingBytes) : Prop :=
  Forall wf (fst w) /\ forall c, counter (snd w) c = wrap64 (held c (fst w)).

Lemma held_app c bs1 bs2 : held c (bs1 ++ bs2) = held c bs1 + held c bs2.
Proof. induction bs1; simpl; lia. Qed.

(** An operation moves the gauge of its class by what the backing gained or
    lost, and no other counter. *)
Lemma op_spec g b b' g' :
  wf b -> (forall c, wrap64 (counter g c) = counter g c) -> op g b b' g' ->
  wf b' /\ class b' = class b
  /\ forall c, counter g' c =
       wrap64 (counter g c + if decide (c = class b) then charged b' - charged b else 0).
Proof.
  intros [Hw1 Hw2] Hg Hop.
  assert (Hsame : forall b2, charged b2 = charged b -> class b2 = class b -> forall c,
    counter g c = wrap64 (counter g c + if decide (c = class b) then charged b2 - charged b else 0)).
  { intros b2 -> _ c. rewrite <- Hg at 1. f_equal. case_decide; lia. }
  destruct b as [[own|] p l cl [] pn]; simpl in *;
    try discriminate (proj1 Hw1 eq_refl); try discriminate (proj2 Hw1 eq_refl); clear Hw1;
    try (specialize (Hw2 own eq_refl); subst p);
    destruct Hop as [o b' g' E|pb b' g' E|pb b' g' Hr E|pb o b' g' E|lo hi];
    unfold release, adopt_device_copy, restore, replace, note_upload, is_released in *;
    simpl in *; repeat case_match; simplify_eq;
    (split; [split; simpl; [naive_solver|intros; by simplify_eq]|]);
    (split; [done|]); try (by apply Hsame);
    intros c; rewrite ?charge_counter, ?discharge_counter; simpl;
    (case_decide; [subst c|by rewrite Z.add_0_r]);
    rewrite ?discharge_counter, ?decide_True by done; autorewrite with wrap; f_equal;
    unfold charged; simpl; lia.
Qed.

Lemma gauge_ok_step w w' : gauge_ok w -> step w w' -> gauge_ok w'.
Proof.
  intros [Hwf Hg] Hs. destruct Hs as [bs g pb l c b g' E|bs1 bs2 g b b' g' Hop|bs1 bs2 g b];
    simpl in *.
  - unfold new in E; simplify_eq. split.
    + constructor; [|done]. split; simpl; [done|intros; by simplify_eq].
    + intros c'. cbn [fst snd held class]. rewrite charge_counter. case_decide; subst; [|by rewrite Hg].
      rewrite Hg. autorewrite with wrap. f_equal. unfold charged; simpl. lia.
  - apply Forall_app in Hwf as [Hwf1 Hwf2]. inversion_clear Hwf2 as [|?? Hb Hwf2'].
    destruct (op_spec g b b' g') as (Hw' & Hc & Hcnt); [done| |done|].
    { intros. rewrite Hg. apply wrap64_wrap. }
    split; [by apply Forall_app; split; [|constructor]|].
    intros c. rewrite Hcnt, Hg. autorewrite with wrap. f_equal.
    cbn [fst]. rewrite !held_app. cbn [held]. rewrite Hc. case_decide; lia.
  - apply Forall_app in Hwf as [Hwf1 Hwf2]. inversion_clear Hwf2 as [|?? Hb Hwf2'].
    split; [by apply Forall_app|]. intros c. unfold drop. cbn [fst snd].
    specialize (Hg c). rewrite held_app in *. simpl in Hg. unfold charged in Hg.
    destruct (page_box b); [rewrite discharge_counter|]; case_decide; subst; rewrite Hg;
      autorewrite with wrap; f_equal; lia.
Qed.

(** The three live-bytes counters always read exactly the padded bytes of
    the backings that hold pages, class by class, modulo the 64-bit counter;
    every reachable backing holds pages exactly when it is not [Released].
    Reachable means any interleaving, over any number of buffers, of create,
    release, restore of a released backing, rename, adoption of a device copy,
    upload notes and destruction. *)
Theorem gauge_exact w :
  rtc step ([], mkBackingBytes 0 0 0) w ->
  gauge_ok w.
Proof.
  intros H. assert (gauge_ok ([], mkBackingBytes 0 0 0)) as H0.
  { split; [constructor|]. by intros []. }
  revert H0. induction H; eauto using gauge_ok_step.
Qed.

(** A write-only static buffer created, released and restored. *)
Lemma gauge_exact_witness :
  gauge_ok ([mk (Some (mkPageBox 2 32768 20000 true 0 (fun _ => 0))) 32768 20000
                WriteOnlyStatic Partial false],
            mkBackingBytes 32768 0 0).
Proof.
  apply gauge_exact.
  eapply rtc_l.
  { eapply (step_new [] _ (mkPageBox 1 32768 20000 true 0 (fun _ => 0)) 20000 WriteOnlyStatic).
    reflexivity. }
  eapply rtc_l. { eapply (step_op [] []). eapply op_release. reflexivity. }
  eapply rtc_l.
  { eapply (step_op [] []).
    eapply (op_restore _ _ (mkPageBox 2 32768 20000 true 0 (fun _ => 0))); reflexivity. }
  apply rtc_refl.
Defined.

End BufferBacking.
