(* ===== verification/VertexBuffer.v ===== *)
(** [vertex_buffer.rs]: [Lock] and [Unlock] of a vertex buffer, the draw-time
    flush of a mapped buffer and the [ProcessVertices] sink, with the backing,
    the pending upload range and the uploads they queue for the encoder. *)

From S2P Require Import Prelude DirtyRange PageBox D3DTypes BufferRename BufferBacking.

Definition D3D_OK : Z := 0.
Definition D3DERR_INVALIDCALL : Z := -2005530516.

(** One queued staged upload ([StageUploadOp]): [up_size] bytes of the
    transient copy, to land at [up_offset] of the buffer's device buffer. *)
Record StageUpload := mkUpload {
  up_buffer : Z; up_data : Z -> Z; up_offset : Z; up_size : Z;
}.

(** The part of the device a buffer call touches: the op stream's uploads,
    oldest first, the backings queued for retention and the backing gauge. *)
Record Device := mkDevice {
  dev_uploads : list StageUpload;
  dev_retention : list (Z * PageBox * Z);
  dev_gauge : BackingBytes;
}.

(** What the rest of the device answers during one call. *)
Record Env := mkEnv {
  alloc_pagebox_capped : Z -> PageBox + Z;
  new_zeroed : Z -> option PageBox;
  encoder_status : option Z;
  ignore_bounds : bool;
  coherent_seq : Z;
}.

Record VertexBufferInner := mkVB {
  device_inner : bool;
  buffer_id : Z;
  length : Z;
  usage : Z;
  pool : Z;
  map_mode : BufferMapMode;
  dirty : DirtyRange.t;
  backing : BufferBacking.t;
  last_submit_seq : Z;
  lock_count : Z;
}.

Definition set_dirty (vb : VertexBufferInner) (r : DirtyRange.t) : VertexBufferInner :=
  mkVB (device_inner vb) (buffer_id vb) (length vb) (usage vb) (pool vb) (map_mode vb)
    r (backing vb) (last_submit_seq vb) (lock_count vb).
Definition set_backing (vb : VertexBufferInner) (b : BufferBacking.t) : VertexBufferInner :=
  mkVB (device_inner vb) (buffer_id vb) (length vb) (usage vb) (pool vb) (map_mode vb)
    (dirty vb) b (last_submit_seq vb) (lock_count vb).
Definition set_last_submit_seq (vb : VertexBufferInner) (s : Z) : VertexBufferInner :=
  mkVB (device_inner vb) (buffer_id vb) (length vb) (usage vb) (pool vb) (map_mode vb)
    (dirty vb) (backing vb) s (lock_count vb).
Definition set_lock_count (vb : VertexBufferInner) (n : Z) : VertexBufferInner :=
  mkVB (device_inner vb) (buffer_id vb) (length vb) (usage vb) (pool vb) (map_mode vb)
    (dirty vb) (backing vb) (last_submit_seq vb) n.

Definition set_uploads (d : Device) (u : list StageUpload) : Device :=
  mkDevice u (dev_retention d) (dev_gauge d).
Definition set_gauge (d : Device) (g : BackingBytes) : Device :=
  mkDevice (dev_uploads d) (dev_retention d) g.

(** ** Operations *)

(** [Direct3DVertexBuffer9::new] around the zeroed box it allocated. *)
Definition vb_new (g : BackingBytes) (pb : PageBox) (id len_ usage_ pool_ : Z)
    : VertexBufferInner * BackingBytes :=
  let '(b, g') := BufferBacking.new g pb len_ (classify_backing usage_ pool_) in
  let mode := classify_map_mode usage_ pool_ in
  (mkVB true id len_ usage_ pool_ mode
     (match mode with Staged => DirtyRange.full len_ | Direct => DirtyRange.empty end)
     b 0 0, g').

(** [restore_backing]; [None] is [PageBox::new_zeroed]'s panic. *)
Definition restore_backing (e : Env) (vb : VertexBufferInner) (d : Device)
    : option (VertexBufferInner * Device) :=
  if BufferBacking.is_released (backing vb) then
    pb ← new_zeroed e (length vb);
    let '(b, g) := BufferBacking.restore (dev_gauge d) (backing vb) pb in
    Some (set_backing vb b, set_gauge d g)
  else Some (vb, d).

(** The [Staged] arm of [vb_lock]: widen the pending upload range. *)
Definition lock_dirty_window (e : Env) (off size flags : Z) (vb : VertexBufferInner)
    : VertexBufferInner :=
  match map_mode vb with
  | Direct => vb
  | Staged =>
      if records_dirty_range flags (pool vb) then
        let trusted := may_trust_lock_bounds flags (usage vb) (pool vb) size (ignore_bounds e) in
        let discard := flag flags D3DLOCK_DISCARD in
        let widen := negb trusted && (BufferBacking.may_widen_upload (backing vb) || discard) in
        let '(dirty_offset, dirty_size) := if widen then (0, 0) else (off, size) in
        set_dirty vb (DirtyRange.conjoin (dirty vb) dirty_offset dirty_size (length vb))
      else vb
  end.

(** The [Direct] arm of [vb_lock]: rename the backing when [plan_lock] says
    so.  [inr] is the error the call returns at once. *)
Definition lock_rename (e : Env) (off size flags : Z) (vb : VertexBufferInner) (d : Device)
    : (VertexBufferInner * Device) + (Z * VertexBufferInner * Device) :=
  let bypass_rename := flag flags (Z.lor D3DLOCK_NOOVERWRITE D3DLOCK_READONLY) in
  if bool_decide (map_mode vb = Direct) && negb bypass_rename && device_inner vb then
    match plan_lock flags (usage vb) (length vb) off size (last_submit_seq vb) (coherent_seq e) with
    | WriteInPlace => inl (vb, d)
    | Rename preserve =>
        match alloc_pagebox_capped e (length vb) with
        | inr hr => inr (hr, vb, d)
        | inl fresh =>
            match BufferBacking.replace (dev_gauge d) (backing vb) fresh with
            | (None, _, _) => inr (D3DERR_INVALIDCALL, vb, d)
            | (Some old_box, b, g) =>
                let b :=
                  match preserve with
                  | PreserveNone => b
                  | PreserveCpu =>
                      BufferBacking.mk
                        (Some (copy_into fresh 0 (pb_bytes old_box) 0 (length vb)))
                        (BufferBacking.padded_len b) (BufferBacking.logical_len b)
                        (BufferBacking.class b) (BufferBacking.state b) (BufferBacking.pinned b)
                  end in
                inl (set_last_submit_seq (set_backing vb b) 0,
                     mkDevice (dev_uploads d)
                       (dev_retention d ++ [(buffer_id vb, old_box, last_submit_seq vb)]) g)
            end
        end
    end
  else inl (vb, d).

(** What a call leaves in [*ppData]: untouched, null, or a pointer at an
    offset of the backing. *)
Inductive out_ptr := Untouched | Null | At (offset : Z).

Definition vb_lock (e : Env) (pp_null : bool) (off size flags : Z)
    (vb : VertexBufferInner) (d : Device)
    : option (Z * out_ptr * VertexBufferInner * Device) :=
  if pp_null then Some (D3DERR_INVALIDCALL, Untouched, vb, d)
  else if length vb <? off then Some (D3DERR_INVALIDCALL, Null, vb, d)
  else
    '(vb, d) ← restore_backing e vb d;
    let vb := lock_dirty_window e off size flags vb in
    Some match lock_rename e off size flags vb d with
    | inr (hr, vb, d) => (hr, Untouched, vb, d)
    | inl (vb, d) =>
        match BufferBacking.ptr_at (backing vb) off with
        | None => (D3DERR_INVALIDCALL, Null, vb, d)
        | Some p => (D3D_OK, At p, set_lock_count vb (lock_count vb +| 1)%u32, d)
        end
    end.

(** The upload [vb_unlock], the mapped flush and [write_processed] queue: a
    snapshot of [[min, max)] of the backing's bytes. *)
Definition push_stage_upload (d : Device) (id : Z) (transient : PageBox) (off size : Z) : Device :=
  set_uploads d (dev_uploads d ++ [mkUpload id (pb_bytes transient) off size]).

Definition release_backing_after_upload (e : Env) (vb : VertexBufferInner) (d : Device)
    : VertexBufferInner * Device :=
  if negb (lock_count vb =? 0) || ignore_bounds e
     || negb (may_release_backing (usage vb) (pool vb))
     || negb (BufferBacking.may_widen_upload (backing vb))
  then (vb, d)
  else
    let '(_, b, g) := BufferBacking.release (dev_gauge d) (backing vb) in
    (set_backing vb b, set_gauge d g).

(** The staged upload of [vb_unlock], once the last lock is ended. *)
Definition unlock_upload (e : Env) (vb : VertexBufferInner) (d : Device)
    : Z * VertexBufferInner * Device :=
  match map_mode vb, DirtyRange.span (dirty vb), device_inner vb with
  | Staged, Some (min, max), true =>
      match BufferBacking.ptr_at (backing vb) min, BufferBacking.page_box (backing vb) with
      | Some src, Some own =>
          let size := (max -% min)%u32 in
          match alloc_pagebox_capped e size with
          | inr hr => (hr, vb, d)
          | inl transient =>
              let transient := copy_into transient 0 (pb_bytes own) src size in
              let vb := set_backing vb (BufferBacking.note_upload (backing vb) min max) in
              let d := push_stage_upload d (buffer_id vb) transient min size in
              match encoder_status e with
              | Some hr => (hr, vb, d)
              | None =>
                  let '(vb, d) :=
                    release_backing_after_upload e (set_dirty vb (DirtyRange.clear (dirty vb))) d in
                  (D3D_OK, vb, d)
              end
          end
      | _, _ => (D3D_OK, set_dirty vb (DirtyRange.clear (dirty vb)), d)
      end
  | _, _, _ => (D3D_OK, vb, d)
  end.

Definition vb_unlock (e : Env) (vb : VertexBufferInner) (d : Device)
    : Z * VertexBufferInner * Device :=
  if lock_count vb =? 0 then unlock_upload e vb d
  else
    let vb := set_lock_count vb (lock_count vb -% 1)%u32 in
    if negb (lock_count vb =? 0) then (D3D_OK, vb, d) else unlock_upload e vb d.

(** [flush_staged_if_mapped] with [flush_mapped_dirty_span]. *)
Definition flush_staged_if_mapped (e : Env) (vb : VertexBufferInner) (d : Device)
    : VertexBufferInner * Device :=
  if (lock_count vb =? 0) || negb (bool_decide (map_mode vb = Staged)) then (vb, d)
  else
    match DirtyRange.span (dirty vb) with
    | None => (vb, d)
    | Some (min, max) =>
        match BufferBacking.ptr_at (backing vb) min, BufferBacking.page_box (backing vb) with
        | Some src, Some own =>
            let size := (max -% min)%u32 in
            match alloc_pagebox_capped e size with
            | inr _ => (vb, d)
            | inl transient =>
                let transient := copy_into transient 0 (pb_bytes own) src size in
                (set_backing vb (BufferBacking.note_upload (backing vb) min max),
                 push_stage_upload d (buffer_id vb) transient min size)
            end
        | _, _ => (vb, d)
        end
    end.

(** A byte the application stores through a mapped pointer. *)
Definition app_write (vb : VertexBufferInner) (b v : Z) : VertexBufferInner :=
  match BufferBacking.page_box (backing vb) with
  | None => vb
  | Some pb =>
      set_backing vb
        (BufferBacking.mk (Some (copy_into pb b (fun _ => v) 0 1))
           (BufferBacking.padded_len (backing vb)) (BufferBacking.logical_len (backing vb))
           (BufferBacking.class (backing vb)) (BufferBacking.state (backing vb))
           (BufferBacking.pinned (backing vb)))
  end.

(** [write_processed]: [n] bytes of [data] stored at [offset], clipped to the
    backing, and uploaded at once when the buffer is [Staged]. *)
Definition write_processed (e : Env) (vb : VertexBufferInner) (d : Device)
    (offset : Z) (data : Z -> Z) (n : Z) : option (VertexBufferInner * Device) :=
  '(vb, d) ← restore_backing e vb d;
  match BufferBacking.page_box (backing vb) with
  | None => Some (vb, d)
  | Some pb =>
      let end_ := Z.min (offset + n) (pb_len pb) in
      if end_ <=? offset then Some (vb, d)
      else
        let pb := copy_into pb offset data 0 (end_ - offset) in
        let b := backing vb in
        let vb := set_backing vb
          (BufferBacking.mk (Some pb) (BufferBacking.padded_len b) (BufferBacking.logical_len b)
             (BufferBacking.class b) (BufferBacking.state b) (BufferBacking.pinned b)) in
        if negb (bool_decide (map_mode vb = Staged)) then Some (vb, d)
        else
          let size := end_ - offset in
          match alloc_pagebox_capped e size with
          | inr _ => Some (vb, d)
          | inl transient =>
              let transient := copy_into transient 0 (pb_bytes pb) offset size in
              Some (set_backing vb
                      (BufferBacking.note_upload (backing vb) offset (offset +% size)%u32),
                    push_stage_upload d (buffer_id vb) transient offset size)
          end
  end.

Definition stamp_submit_seq (vb : VertexBufferInner) (seq : Z) : VertexBufferInner :=
  if last_submit_seq vb <? seq then set_last_submit_seq vb seq else vb.
