(* ===== verification/VertexBufferSpec.v ===== *)
(** What a staged vertex buffer promises: the device buffer, once the queued
    uploads have landed in order, holds what the application stored.  The
    application's side is ghost state beside the modelled calls. *)

From S2P Require Import Prelude DirtyRange PageBox D3DTypes BufferRename BufferBacking VertexBuffer.

(** The contents of device buffer [id] after the uploads have landed in order. *)
Definition land (D : Z -> Z) (u : StageUpload) : Z -> Z :=
  fun b => if (up_offset u <=? b) && (b <? up_offset u + up_size u)
           then up_data u (b - up_offset u) else D b.

Fixpoint device_bytes (id : Z) (D : Z -> Z) (us : list StageUpload) : Z -> Z :=
  match us with
  | [] => D
  | u :: us => device_bytes id (if up_buffer u =? id then land D u else D) us
  end.

(** A buffer, its device and the application's view of it: the bytes it last
    stored ([app]), the windows of the locks still out, the bytes stored since
    the backing was last re-created, and the bytes an upload took from a
    re-created backing that held no copy of them, until they are stored again. *)
Record World := mkWorld {
  vb : VertexBufferInner;
  dev : Device;
  app : Z -> Z;
  windows : list (Z * Z);
  written : Z -> bool;
  clobbered : Z -> bool;
}.

Definition upd (f : Z -> Z) (b v : Z) : Z -> Z := fun x => if x =? b then v else f x.

(** A zeroed box has room for what was asked, and an error is not success. *)
Definition env_ok (e : Env) : Prop :=
  (forall n pb, new_zeroed e n = Some pb -> n <= pb_len pb)
  /\ (forall n hr, alloc_pagebox_capped e n = inr hr -> hr <> D3D_OK)
  /\ encoder_status e <> Some D3D_OK.

Definition staging (v : VertexBufferInner) : Z -> Z :=
  match BufferBacking.page_box (backing v) with
  | Some pb => pb_bytes pb
  | None => fun _ => 0
  end.

(** A byte of the pending range that a re-created backing has no copy of: the
    application has not stored it since. *)
Definition missing (w : World) (b : Z) : bool :=
  bool_decide (BufferBacking.state (backing (vb w)) = Partial)
  && bool_decide (DirtyRange.covers (dirty (vb w)) b) && negb (written w b).

(** What a call that may queue an upload, and left the device [d'], clobbers. *)
Definition clobbers (w : World) (d' : Device) : Z -> bool :=
  if (List.length (dev_uploads d') =? List.length (dev_uploads (dev w)))%nat then clobbered w else fun b => clobbered w b || missing w b.

Definition lock_records (v : VertexBufferInner) (flags r : Z) : bool :=
  (r =? D3D_OK) && records_dirty_range flags (pool v).

(** The ghost half of a [Lock] that answered [r] and left [v']: the window the
    application may store into, and what [DISCARD] abandons. *)
Definition after_lock (w : World) (e : Env) (off size flags r : Z)
    (v' : VertexBufferInner) (d' : Device) : World :=
  let recreated :=
    BufferBacking.is_released (backing (vb w)) && (off <=? length (vb w)) in
  let recorded := lock_records (vb w) flags r in
  let discards := recorded && flag flags D3DLOCK_DISCARD in
  let wide := ignore_bounds e && BufferBacking.may_widen_upload (backing v') in
  mkWorld v' d'
    (if discards then staging v' else app w)
    (if recorded then (if wide then (0, 0) else (off, size)) :: windows w else windows w)
    (if discards then fun _ => true else if recreated then fun _ => false else written w)
    (if discards then fun _ => false else clobbered w).

Definition after_unlock (w : World) (v' : VertexBufferInner) (d' : Device) : World :=
  mkWorld v' d' (app w) (if lock_count v' =? 0 then [] else windows w) (written w) (clobbers w d').

Inductive step : World -> World -> Prop :=
  | st_lock : forall w e off size flags r p v' d',
      env_ok e -> is_u32 off -> is_u32 size ->
      vb_lock e false off size flags (vb w) (dev w) = Some (r, p, v', d') ->
      step w (after_lock w e off size flags r v' d')
  | st_write : forall w b v win,
      win ∈ windows w -> DirtyRange.lock_region (fst win) (snd win) (length (vb w)) b ->
      step w (mkWorld (app_write (vb w) b v) (dev w) (upd (app w) b v) (windows w)
                (fun x => (x =? b) || written w x) (fun x => negb (x =? b) && clobbered w x))
  | st_unlock : forall w e r v' d',
      env_ok e -> vb_unlock e (vb w) (dev w) = (r, v', d') ->
      step w (after_unlock w v' d')
  | st_flush : forall w e v' d',
      env_ok e -> flush_staged_if_mapped e (vb w) (dev w) = (v', d') ->
      step w (mkWorld v' d' (app w) (windows w) (written w) (clobbers w d'))
  | st_draw : forall w seq,
      step w (mkWorld (stamp_submit_seq (vb w) seq) (dev w) (app w) (windows w) (written w) (clobbered w)).

Section device.
(** The device buffer's contents before its first upload: undefined. *)
Context (D0 : Z -> Z).

Definition device (w : World) : Z -> Z :=
  device_bytes (buffer_id (vb w)) D0 (dev_uploads (dev w)).

Record inv (w : World) : Prop := mkInv {
  inv_staged : map_mode (vb w) = Staged;
  inv_device : device_inner (vb w) = true;
  inv_len : is_u32 (length (vb w));
  inv_logical : BufferBacking.logical_len (backing (vb w)) = length (vb w);
  inv_room : forall pb, BufferBacking.page_box (backing (vb w)) = Some pb ->
 length (vb w) <= pb_len pb;
  inv_backing : BufferBacking.page_box (backing (vb w)) = None
  <-> BufferBacking.state (backing (vb w)) = Released;
  inv_within : DirtyRange.within (length (vb w)) (dirty (vb w));
  inv_released : BufferBacking.state (backing (vb w)) = Released ->
     DirtyRange.is_empty (dirty (vb w)) = true /\ windows w = [];
  inv_windows : forall win b, win ∈ windows w ->
    DirtyRange.lock_region (fst win) (snd win) (length (vb w)) b ->
    0 <= b /\ DirtyRange.covers (dirty (vb w)) b;
  inv_clean : forall b, 0 <= b < length (vb w) -> ~ DirtyRange.covers (dirty (vb w)) b ->
  clobbered w b = false -> device w b = app w b;
  inv_mirrors : BufferBacking.state (backing (vb w)) = Mirrors ->
    forall b, 0 <= b < length (vb w) -> clobbered w b = false -> staging (vb w) b = app w b;
  inv_partial : BufferBacking.state (backing (vb w)) = Partial ->
    forall b, 0 <= b < length (vb w) -> written w b = true ->
      staging (vb w) b = app w b;
}.

Lemma device_bytes_app id us u D :
  device_bytes id D (us ++ [u]) =
  if up_buffer u =? id then land (device_bytes id D us) u else device_bytes id D us.
Proof. revert D; induction us as [|v us IH]; intros; simpl; [by destruct (_ =? _)|]. apply IH. Qed.

(** Queueing the pending range makes the device agree with the staging on it. *)
Lemma device_after_upload d id tr S min max b :
  0 <= min -> max <= u32_max -> min <= max ->
  device_bytes id D0 (dev_uploads
  (push_stage_upload d id (copy_into tr 0 S min (max -% min)%u32) min (max -% min)%u32)) b =
  if (min <=? b) && (b <? max) then S b else device_bytes id D0 (dev_uploads d) b.
Proof.
  intros. rewrite wrap32_small by (unfold_mach; lia).
  unfold push_stage_upload, set_uploads; cbn [dev_uploads].
  rewrite device_bytes_app. cbn [up_buffer]. rewrite Z.eqb_refl.
  unfold land; cbn [up_offset up_size up_data]. rewrite copy_into_byte.
  replace (min + (max - min)) with max by lia.
  destruct ((min <=? b) && (b <? max)) eqn:E; [|done]. reflect_cmp.
  destruct (0 <=? b - min) eqn:?, (b - min <? 0 + (max - min)) eqn:?; reflect_cmp; simpl;
  try lia. f_equal; lia.
Qed.

Lemma lock_region_whole len b : DirtyRange.lock_region 0 0 len b <-> 0 <= b < len.
Proof. unfold DirtyRange.lock_region. lia. Qed.

(** The pending range after a [Staged] lock: it grows, stays in the buffer,
and holds the announced window, or the whole buffer when the window is
not trusted or is discarded. *)
Lemma lock_dirty_window_spec e off size flags v :
  map_mode v = Staged -> is_u32 (length v) -> is_u32 off -> is_u32 size ->
  exists r, lock_dirty_window e off size flags v = set_dirty v r
  /\ (forall b, DirtyRange.covers (dirty v) b -> DirtyRange.covers r b)
  /\ (DirtyRange.within (length v) (dirty v) -> DirtyRange.within (length v) r)
  /\ (records_dirty_range flags (pool v) = true -> forall b,
  DirtyRange.lock_region off size (length v) b
  \/ ((ignore_bounds e && BufferBacking.may_widen_upload (backing v)
 || flag flags D3DLOCK_DISCARD) = true /\ 0 <= b < length v) ->
  DirtyRange.covers r b).
Proof.
  intros Hm Hl Ho Hs. unfold lock_dirty_window. rewrite Hm.
  destruct (records_dirty_range flags (pool v)).
  2:{ exists (dirty v). destruct v; split_and!; try done. }
  set (widen := negb _ && _).
  assert (Hw : ignore_bounds e && BufferBacking.may_widen_upload (backing v)
 || flag flags D3DLOCK_DISCARD = true -> widen = true).
  { unfold widen, may_trust_lock_bounds.
    destruct (ignore_bounds e), (BufferBacking.may_widen_upload _), (flag _ _), (size =? 0);
    simpl; done. }
  assert (is_u32 0) by done.
  destruct widen; (eexists; split_and!; [reflexivity|..]).
  - intros. apply DirtyRange.conjoin_covers; auto.
  - intros. by apply DirtyRange.conjoin_within.
  - intros _ b Hb. apply DirtyRange.conjoin_covers; try done. right.
    apply lock_region_whole. destruct Hb as [[? ?]|[? ?]]; unfold_mach; lia.
  - intros. apply DirtyRange.conjoin_covers; auto.
  - intros. by apply DirtyRange.conjoin_within.
  - intros _ b [Hb|[E ?]]; [|by specialize (Hw E)].
    apply DirtyRange.conjoin_covers; auto.
Qed.

Lemma vb_lock_staged w e off size flags r p v' d' :
  inv w -> env_ok e -> 0 <= off <= length (vb w) ->
  vb_lock e false off size flags (vb w) (dev w) = Some (r, p, v', d') ->
  exists v1, restore_backing e (vb w) (dev w) = Some (v1, d')
  /\ r = D3D_OK /\ p = At off
  /\ v' = set_lock_count (lock_dirty_window e off size flags v1)
 (lock_count (lock_dirty_window e off size flags v1) +| 1)%u32
  /\ BufferBacking.page_box (backing v1) <> None
  /\ (forall pb, BufferBacking.page_box (backing v1) = Some pb -> length (vb w) <= pb_len pb)
  /\ (v1 = vb w /\ BufferBacking.is_released (backing (vb w)) = false
  \/ BufferBacking.is_released (backing (vb w)) = true
 /\ v1 = set_backing (vb w) (backing v1)
 /\ BufferBacking.state (backing v1) = Partial
 /\ BufferBacking.logical_len (backing v1) = BufferBacking.logical_len (backing (vb w)))
  /\ dev_uploads d' = dev_uploads (dev w).
Proof.
  intros Hi [He1 _] Hoff. unfold vb_lock.
  destruct (length (vb w) <? off) eqn:?; reflect_cmp; [lia|].
  destruct (restore_backing e (vb w) (dev w)) as [[v1 d1]|] eqn:Hr; simpl; [|done].
  intros E.
  assert (H1 : map_mode v1 = Staged /\ length v1 = length (vb w)
  /\ BufferBacking.page_box (backing v1) <> None
  /\ (forall pb, BufferBacking.page_box (backing v1) = Some pb -> length (vb w) <= pb_len pb)
  /\ (v1 = vb w /\ BufferBacking.is_released (backing (vb w)) = false
  \/ BufferBacking.is_released (backing (vb w)) = true
 /\ v1 = set_backing (vb w) (backing v1)
 /\ BufferBacking.state (backing v1) = Partial
 /\ BufferBacking.logical_len (backing v1) = BufferBacking.logical_len (backing (vb w)))
  /\ dev_uploads d1 = dev_uploads (dev w)).
  { unfold restore_backing, BufferBacking.is_released in Hr.
    unfold BufferBacking.is_released. case_bool_decide as Hst.
    - destruct (new_zeroed e (length (vb w))) as [pb|] eqn:Hn; simplify_eq/=.
      apply He1 in Hn. split_and!; try done; [by apply inv_staged| |by right].
      intros; by simplify_eq.
    - simplify_eq. split_and!; try done; [by apply inv_staged| |by apply inv_room|by left].
      intros Hn. by apply Hst, (inv_backing _ Hi). }
  destruct H1 as (Hm & Hl & Hpb & Hroom & Hcase & Hup).
  assert (Hw : map_mode (lock_dirty_window e off size flags v1) = Staged
 /\ backing (lock_dirty_window e off size flags v1) = backing v1).
  { unfold lock_dirty_window. rewrite Hm. repeat case_match; done. }
  destruct Hw as [Hwm Hwb]. unfold lock_rename in E. rewrite Hwm in E. simpl in E.
  unfold BufferBacking.ptr_at in E. rewrite Hwb in E.
  destruct (BufferBacking.page_box (backing v1)) as [pb|] eqn:Hb; simpl in E; [|done].
  specialize (Hroom pb eq_refl). destruct (pb_len pb <? off) eqn:?; reflect_cmp; [lia|].
  simplify_eq. exists v1. rewrite Hb. split_and!; try done. intros pb' [= <-]. done.
Qed.

Lemma inv_lock w e off size flags r p v' d' :
  inv w -> env_ok e -> is_u32 off -> is_u32 size ->
  vb_lock e false off size flags (vb w) (dev w) = Some (r, p, v', d') ->
  inv (after_lock w e off size flags r v' d').
Proof.
  intros Hi He Ho Hs E. destruct (Z.le_gt_cases off (length (vb w))) as [Hle|Hgt].
  2:{ unfold vb_lock in E. destruct (length (vb w) <? off) eqn:?; reflect_cmp; [|lia].
    simplify_eq. unfold after_lock, lock_records. simpl.
    replace (off <=? length (vb w)) with false by (symmetry; apply Z.leb_gt; lia).
    rewrite andb_false_r. by destruct w. }
  eapply vb_lock_staged in E as (v1 & Hr & -> & -> & -> & Hpb & Hroom & Hcase & Hup);
  [|done|done|unfold_mach; lia].
  assert (Hv1 : map_mode v1 = Staged /\ length v1 = length (vb w) /\ dirty v1 = dirty (vb w)
  /\ pool v1 = pool (vb w) /\ device_inner v1 = true /\ buffer_id v1 = buffer_id (vb w)
  /\ BufferBacking.logical_len (backing v1) = length (vb w)).
  { destruct Hi. destruct Hcase as [[-> _]|(_ & Hv & _ & ?)]; [by split_and!|].
    split_and!; try congruence; by rewrite Hv. }
  destruct Hv1 as (Hm1 & Hl1 & Hd1 & Hp1 & Hdi1 & Hid1 & Hll1).
  destruct (lock_dirty_window_spec e off size flags v1) as (rg & -> & Hgrow & Hwith & Hwin);
  [done|rewrite Hl1; by destruct Hi|done|done|].
  rewrite Hd1, Hl1, Hp1 in *. unfold after_lock, lock_records.
  replace (off <=? length (vb w)) with true by (symmetry; apply Z.leb_le; lia).
  rewrite Z.eqb_refl. simpl andb. rewrite andb_true_r.
  set (rec := records_dirty_range flags (pool (vb w))) in *.
  destruct Hi as [I1 I2 I3 I4 I5 I6 I7 I8 I9 I10 I11 I12].
  assert (Hnr : BufferBacking.state (backing v1) <> Released).
  { destruct Hcase as [[-> H]|(_ & _ & -> & _)]; [|done].
    unfold BufferBacking.is_released in H. by apply bool_decide_eq_false in H. }
  constructor; simpl; rewrite ?Hl1; try done.
  - auto.
  - intros win b Hin Hreg. destruct rec eqn:Hrec.
    + apply elem_of_cons in Hin as [->|Hin].
      2:{ destruct (I9 win b Hin Hreg). split; [done|]. by apply Hgrow. }
      assert (0 <= off) by (unfold_mach; lia).
      destruct (ignore_bounds e && _) eqn:Hig; simpl in Hreg.
      * apply lock_region_whole in Hreg. split; [lia|].
        apply Hwin; [done|]. right. done.
      * split; [unfold DirtyRange.lock_region in Hreg; lia|]. apply Hwin; auto.
    + destruct (I9 win b Hin Hreg). split; [done|]. by apply Hgrow.
  - intros b Hb Hn Hcl. unfold device; simpl. rewrite Hid1, Hup.
    destruct (rec && flag flags D3DLOCK_DISCARD) eqn:Hdisc.
    + exfalso. apply Hn. apply andb_true_iff in Hdisc as [Hrec Hfl].
      apply Hwin; [done|]. right. by rewrite Hfl, orb_true_r.
    + apply I10; [done| |done]. intros Hc. apply Hn. by apply Hgrow.
  - intros Hst b Hb Hcl. destruct (rec && _); [done|].
    destruct Hcase as [[-> _]|(_ & _ & Hp & _)]; [by apply I11|congruence].
  - intros Hst b Hb Hwr. destruct (rec && _); [done|].
    destruct Hcase as [[-> H]|(H & _ & Hp & _)]; rewrite H in Hwr; [by apply I12|done].
Qed.

Lemma inv_write w b v win :
  inv w -> win ∈ windows w -> DirtyRange.lock_region (fst win) (snd win) (length (vb w)) b ->
  inv (mkWorld (app_write (vb w) b v) (dev w) (upd (app w) b v) (windows w)
 (fun x => (x =? b) || written w x) (fun x => negb (x =? b) && clobbered w x)).
Proof.
  intros [I1 I2 I3 I4 I5 I6 I7 I8 I9 I10 I11 I12] Hin Hreg. destruct (I9 win b Hin Hreg) as [? Hc].
  assert (BufferBacking.state (backing (vb w)) <> Released) as Hnr.
  { intros H'. destruct (I8 H') as [_ Hw]. rewrite Hw in Hin. by apply not_elem_of_nil in Hin. }
  destruct (BufferBacking.page_box (backing (vb w))) as [pb|] eqn:Hpb; [|by destruct Hnr; apply I6].
  assert (Hst : forall x, staging (app_write (vb w) b v) x = upd (staging (vb w)) b v x).
  { intros x. unfold staging, app_write. rewrite Hpb. simpl. unfold upd.
    destruct (b <=? x) eqn:?, (x <? b + 1) eqn:?, (x =? b) eqn:?; reflect_cmp; simpl; try done; lia. }
  unfold device in *. unfold app_write in *. rewrite Hpb in *.
  constructor; simpl; try done.
  - intros pb' [= <-]. simpl. by apply I5.
  - intros x Hx Hn. unfold upd. destruct (x =? b) eqn:?; reflect_cmp; [by subst|by apply I10].
  - intros Hm x Hx. rewrite Hst. unfold upd. destruct (x =? b); [done|by apply I11].
  - intros Hm x Hx. rewrite Hst. unfold upd. destruct (x =? b); [done|by apply I12].
Qed.

(** Queueing an upload of the pending range out of the backing. *)
Definition uploaded (w : World) (tr : PageBox) (min max : Z) : World :=
  mkWorld (set_backing (vb w) (BufferBacking.note_upload (backing (vb w)) min max))
  (push_stage_upload (dev w) (buffer_id (vb w))
 (copy_into tr 0 (staging (vb w)) min (max -% min)%u32) min (max -% min)%u32)
  (app w) (windows w) (written w) (fun b => clobbered w b || missing w b).

Lemma note_upload_fields b lo hi :
  BufferBacking.page_box (BufferBacking.note_upload b lo hi) = BufferBacking.page_box b
  /\ BufferBacking.logical_len (BufferBacking.note_upload b lo hi) = BufferBacking.logical_len b
  /\ (BufferBacking.state (BufferBacking.note_upload b lo hi) = BufferBacking.state b
  \/ BufferBacking.state b = Partial
 /\ BufferBacking.state (BufferBacking.note_upload b lo hi) = Mirrors
 /\ lo = 0 /\ BufferBacking.logical_len b <= hi).
Proof.
  unfold BufferBacking.note_upload. destruct (_ && _) eqn:E; simpl; [|auto].
  apply andb_true_iff in E as [E ?]. apply andb_true_iff in E as [?%bool_decide_eq_true ?].
  reflect_cmp. auto 10.
Qed.

Lemma inv_uploaded w tr min max :
  inv w -> DirtyRange.span (dirty (vb w)) = Some (min, max) ->
  inv (uploaded w tr min max)
  /\ forall b, 0 <= b < length (vb w) -> clobbered (uploaded w tr min max) b = false ->
  device (uploaded w tr min max) b = app w b.
Proof.
  intros [I1 I2 I3 I4 I5 I6 I7 I8 I9 I10 I11 I12] Hspan.
  unfold DirtyRange.span, DirtyRange.is_empty in Hspan. split_ifs.
  destruct I7 as [Hlo Hhi].
  assert (Hsv : forall b, clobbered w b || missing w b = false -> BufferBacking.state (backing (vb w)) = Partial ->
  DirtyRange.covers (dirty (vb w)) b -> written w b = true).
  { unfold missing. intros b [_ Hm]%orb_false_iff Hp Hc. rewrite !bool_decide_true in Hm by done. by apply negb_false_iff in Hm. }
  assert (Hall : forall b, 0 <= b < length (vb w) -> clobbered w b || missing w b = false ->
  device (uploaded w tr (DirtyRange.min (dirty (vb w))) (DirtyRange.max (dirty (vb w)))) b
  = app w b).
  { intros b Hb Hcl. pose proof (proj1 (proj1 (orb_false_iff _ _) Hcl)) as Hcl'. specialize (Hsv b Hcl). unfold device, uploaded; cbn [vb dev buffer_id set_backing].
    rewrite device_after_upload by (unfold_mach; lia).
    destruct (_ && _) eqn:Hc; reflect_cmp.
    - destruct (BufferBacking.state (backing (vb w))) eqn:Hs; [by apply I11| |].
      + destruct (I8 eq_refl) as [He _]. unfold DirtyRange.is_empty in He. reflect_cmp. lia.
      + apply I12; [done..|]. by apply Hsv.
    - apply I10; [done| |done]. intros [? ?]. apply andb_false_iff in Hc as [?|?]; reflect_cmp; lia. }
  split; [|done].
  destruct (note_upload_fields (backing (vb w)) (DirtyRange.min (dirty (vb w)))
  (DirtyRange.max (dirty (vb w)))) as (Hpb & Hll & Hst).
  constructor; cbn -[device BufferBacking.note_upload missing]; rewrite ?Hpb, ?Hll; try done.
  - rewrite I6. destruct Hst as [->|(-> & -> & _)]; done.
  - destruct Hst as [->|(_ & -> & _)]; done.
  - intros. by apply Hall.
  - intros Hm b Hb Hcl. unfold staging; cbn [backing vb set_backing uploaded]. rewrite Hpb.
    destruct Hst as [Hst|(Hp & _ & H0 & Hl)]; [apply I11; [congruence|done|by apply orb_false_iff in Hcl as [? _]]|].
    apply I12; [done..|]. apply Hsv; [done..|]. split; lia.
  - intros Hm b Hb. unfold staging; cbn [backing vb set_backing uploaded]. rewrite Hpb.
    destruct Hst as [Hst|(_ & Hm' & _)]; [apply I12; congruence|congruence].
Qed.

Lemma inv_lock_count w n :
  inv w -> inv (mkWorld (set_lock_count (vb w) n) (dev w) (app w) (windows w) (written w) (clobbered w)).
Proof. by intros []. Qed.

Lemma inv_submit_seq w n :
  inv w -> inv (mkWorld (stamp_submit_seq (vb w) n) (dev w) (app w) (windows w) (written w) (clobbered w)).
Proof. unfold stamp_submit_seq. case_match; [by intros []|by destruct w]. Qed.

Lemma inv_no_windows w :
  inv w -> inv (mkWorld (vb w) (dev w) (app w) [] (written w) (clobbered w)).
Proof.
  intros []. constructor; try done; simpl; [naive_solver|].
  intros ? ? ?%not_elem_of_nil. done.
Qed.

(** Nothing pending any more: the device holds every byte that is not clobbered. *)
Definition published (w : World) : Prop :=
  DirtyRange.is_empty (dirty (vb w)) = true
  /\ forall b, 0 <= b < length (vb w) -> clobbered w b = false -> device w b = app w b.

Lemma inv_cleared w :
  inv w -> (forall b, 0 <= b < length (vb w) -> clobbered w b = false -> device w b = app w b) ->
  let w' := mkWorld (set_dirty (vb w) (DirtyRange.clear (dirty (vb w)))) (dev w) (app w) []
  (written w) (clobbered w) in
  inv w' /\ published w'.
Proof.
  intros [I1 I2 I3 I4 I5 I6 I7 I8 I9 I10 I11 I12] Hall w'. split; [|done].
  constructor; try done; simpl.
  - split; simpl; unfold_mach; lia.
  - intros ? ? ?%not_elem_of_nil. done.
  - intros. by apply Hall.
Qed.

Lemma inv_released_after e w v' d' :
  inv w -> published w -> windows w = [] ->
  release_backing_after_upload e (vb w) (dev w) = (v', d') ->
  let w' := mkWorld v' d' (app w) [] (written w) (clobbered w) in
  inv w' /\ published w' /\ lock_count v' = lock_count (vb w).
Proof.
  intros Hi Hp Hw E. unfold release_backing_after_upload in E.
  destruct (_ || _) eqn:Hc; simplify_eq.
  { split_and!; [by apply inv_no_windows|done|done]. }
  apply orb_false_iff in Hc as [_ Hm]. reflect_cmp.
  unfold BufferBacking.may_widen_upload in Hm. apply bool_decide_eq_true in Hm.
  destruct Hi as [I1 I2 I3 I4 I5 I6 I7 I8 I9 I10 I11 I12], Hp as [Hp1 Hp2].
  unfold BufferBacking.release in E.
  destruct (BufferBacking.page_box (backing (vb w))) eqn:Hpb; simplify_eq.
  2:{ rewrite (proj1 I6 eq_refl) in Hm. done. }
  split_and!; [|done|done].
  constructor; try done; simpl. intros ? ? ?%not_elem_of_nil. done.
Qed.

Lemma clobbers_same w d : dev_uploads d = dev_uploads (dev w) -> clobbers w d = clobbered w.
Proof. intros E. unfold clobbers. by rewrite E, Nat.eqb_refl. Qed.

Lemma clobbers_more w d u : dev_uploads d = dev_uploads (dev w) ++ [u] -> clobbers w d = fun b => clobbered w b || missing w b.
Proof. intros E. unfold clobbers. rewrite E, length_app. simpl. by replace (_ + 1 =? _)%nat with false by (symmetry; apply Nat.eqb_neq; lia). Qed.

Lemma released_uploads e v d v' d' : release_backing_after_upload e v d = (v', d') -> dev_uploads d' = dev_uploads d.
Proof. unfold release_backing_after_upload. intros. repeat case_match; by simplify_eq. Qed.

Lemma unlock_upload_spec e w r v' d' :
  inv w -> env_ok e -> unlock_upload e (vb w) (dev w) = (r, v', d') ->
  let w' := mkWorld v' d' (app w) [] (written w) (clobbers w d') in
  inv w' /\ (r = D3D_OK -> published w') /\ lock_count v' = lock_count (vb w).
Proof.
  intros Hi (_ & He & Hes) E. unfold unlock_upload in E.
  rewrite (inv_staged _ Hi), (inv_device _ Hi) in E.
  destruct (DirtyRange.span (dirty (vb w))) as [[min max]|] eqn:Hs.
  2:{ simplify_eq. rewrite clobbers_same by done. split_and!; [by apply inv_no_windows| |done]. intros _.
    unfold DirtyRange.span in Hs. destruct (DirtyRange.is_empty _) eqn:He'; [|done].
    split; [done|]. intros. apply (inv_clean _ Hi); [done| |done].
    by apply DirtyRange.is_empty_covers. }
  assert (Hne : min < max /\ max <= length (vb w) /\ min = DirtyRange.min (dirty (vb w))).
  { destruct (inv_within _ Hi). unfold DirtyRange.span, DirtyRange.is_empty in Hs.
    split_ifs. lia. }
  destruct (BufferBacking.page_box (backing (vb w))) as [own|] eqn:Hpb.
  2:{ destruct (inv_released _ Hi) as [He' _]; [by apply (inv_backing _ Hi)|].
    unfold DirtyRange.span in Hs. by rewrite He' in Hs. }
  pose proof (inv_room _ Hi own Hpb) as Hroom.
  unfold BufferBacking.ptr_at in E. rewrite Hpb in E. simpl in E.
  destruct (pb_len own <? min) eqn:?; reflect_cmp; [lia|]. simpl in E.
  destruct (alloc_pagebox_capped e _) as [tr|hr] eqn:Ha.
  2:{ simplify_eq. rewrite clobbers_same by done. apply He in Ha. split_and!; [by apply inv_no_windows|done|done]. }
  destruct (inv_uploaded w tr min max) as [Hi' Hall]; [done..|].
  assert (Hsw : staging (vb w) = pb_bytes own) by (unfold staging; by rewrite Hpb).
  unfold uploaded in Hi', Hall. rewrite Hsw in Hi', Hall.
  destruct (encoder_status e) as [hr|] eqn:Hst.
  { simplify_eq. erewrite clobbers_more by reflexivity. split_and!; [by apply inv_no_windows in Hi'| |done]. intros ->. done. }
  apply inv_cleared in Hi' as [Hi' Hp']; [|done]. cbn [vb dev app written clobbered] in Hi', Hp'.
  destruct (release_backing_after_upload e _ _) as [v2 d2] eqn:Hrel. simplify_eq.
  pose proof (released_uploads _ _ _ _ _ Hrel) as Hup. erewrite clobbers_more by (rewrite Hup; reflexivity).
  destruct (inv_released_after e _ v' d' Hi' Hp' eq_refl Hrel) as (? & ? & ?). done.
Qed.

Lemma vb_unlock_spec e w r v' d' :
  inv w -> env_ok e -> vb_unlock e (vb w) (dev w) = (r, v', d') ->
  inv (after_unlock w v' d')
  /\ (r = D3D_OK -> lock_count v' = 0 -> published (after_unlock w v' d')).
Proof.
  intros Hi He E. unfold vb_unlock, after_unlock in *.
  destruct (lock_count (vb w) =? 0) eqn:Hlc; reflect_cmp.
  { destruct (unlock_upload_spec e w r v' d') as (? & ? & ->); [done..|].
    rewrite Hlc. simpl. auto. }
  pose proof (inv_lock_count w (lock_count (vb w) -% 1)%u32 Hi) as Hi2.
  destruct (negb _) eqn:Hn.
  { simplify_eq. reflect_cmp. rewrite clobbers_same by done. simpl in *. destruct (_ =? 0) eqn:?; reflect_cmp; [done|].
    split; [done|]. intros. done. }
  eapply (unlock_upload_spec e (mkWorld _ _ _ _ _ _)) in E as (? & ? & Hl); [|done..].
  apply negb_false_iff, Z.eqb_eq in Hn. simpl in Hl. rewrite Hl. simpl in Hn. rewrite Hn.
  simpl. auto.
Qed.

Lemma flush_spec e w v' d' :
  inv w -> flush_staged_if_mapped e (vb w) (dev w) = (v', d') ->
  inv (mkWorld v' d' (app w) (windows w) (written w) (clobbers w d')).
Proof.
  intros Hi E. unfold flush_staged_if_mapped in E.
  assert (Hw : inv (mkWorld (vb w) (dev w) (app w) (windows w) (written w) (clobbers w (dev w))))
  by (rewrite clobbers_same by done; by destruct w).
  destruct (_ || _); [by simplify_eq|].
  destruct (DirtyRange.span _) as [[min max]|] eqn:Hs; [|by simplify_eq].
  unfold BufferBacking.ptr_at in E.
  destruct (BufferBacking.page_box _) as [own|] eqn:Hpb; simpl in E; [|by simplify_eq].
  destruct (pb_len own <? min); [by simplify_eq|].
  destruct (alloc_pagebox_capped e _) as [tr|]; simplify_eq; [|done].
  destruct (inv_uploaded w tr min max) as [Hi' _]; [done..|]. erewrite clobbers_more by reflexivity.
  unfold uploaded, staging in Hi'. by rewrite Hpb in Hi'.
Qed.

Lemma inv_step w w' : inv w -> step w w' -> inv w'.
Proof.
  intros Hi Hs. destruct Hs.
  - by eapply inv_lock.
  - by eapply inv_write.
  - by eapply vb_unlock_spec.
  - by eapply flush_spec.
  - by apply inv_submit_seq.
Qed.

Lemma inv_steps w w' : inv w -> rtc step w w' -> inv w'.
Proof. intros Hi Hs. induction Hs; eauto using inv_step. Qed.
End device.

(** A freshly created buffer: its zeroed box is what the application holds. *)
Definition init (g : BackingBytes) (pb : PageBox) (id len_ usage_ pool_ : Z) : World :=
  mkWorld (fst (vb_new g pb id len_ usage_ pool_))
    (mkDevice [] [] (snd (vb_new g pb id len_ usage_ pool_))) (pb_bytes pb) [] (fun _ => false) (fun _ => false).

Lemma inv_init D0 g pb id len_ usage_ pool_ :
  classify_map_mode usage_ pool_ = Staged -> is_u32 len_ -> len_ <= pb_len pb ->
  inv D0 (init g pb id len_ usage_ pool_).
Proof.
  intros Hm Hl Hp. constructor; simpl; rewrite ?Hm; try done; simpl.
  - by intros ? [= <-].
  - intros ? ? ?%not_elem_of_nil. done.
Qed.

(** C16: the staged buffer contract.  Take any buffer that is not shared with
    the GPU, any sequence of locks, stores through the mapped pointers (each
    inside a window its lock announced), unlocks, draws and draw-time flushes,
    failed allocations and encoder errors included.  When an [Unlock] ends the
    last lock and answers success, the device buffer, with the queued uploads
    landed in order, holds at every offset the byte the application last
    stored there, whatever the device buffer held at first, but for bytes that
    are clobbered: those that an upload took from a backing re-created after a
    release, which held no copy of them, and that were not stored since.  Only
    a lock that does not store all of its window, or the gap between two locks
    held at once ([nested_locks_zero_the_gap]), leaves such a byte. *)
Theorem unlock_publishes D0 g pb id len_ usage_ pool_ w e r v' d' :
  classify_map_mode usage_ pool_ = Staged -> is_u32 len_ -> len_ <= pb_len pb ->
  rtc step (init g pb id len_ usage_ pool_) w ->
  env_ok e -> vb_unlock e (vb w) (dev w) = (r, v', d') -> r = D3D_OK -> lock_count v' = 0 ->
  forall b, 0 <= b < length v' ->
    device_bytes (buffer_id v') D0 (dev_uploads d') b = app w b
    \/ clobbered (after_unlock w v' d') b = true.
Proof.
  intros Hm Hl Hp Hs He Hu Hr Hlc b Hb.
  pose proof (inv_steps D0 _ _ (inv_init D0 g pb id len_ usage_ pool_ Hm Hl Hp) Hs) as Hi.
  destruct (vb_unlock_spec D0 e w r v' d') as [_ Hpub]; [done..|]. destruct (Hpub Hr Hlc) as [_ H].
  destruct (clobbered (after_unlock w v' d') b) eqn:E; [by right|left]. by apply H.
Qed.

(** ** Concrete runs *)

Definition zero_box (n : Z) : PageBox := mkPageBox 1 n n true 0 (fun _ => 0).

(** A device whose allocations succeed. *)
Definition good_env : Env :=
  mkEnv (fun n => inl (zero_box n)) (fun n => Some (zero_box n)) None false 0.

Lemma good_env_ok : env_ok good_env.
Proof. split_and!; simpl; [intros ?? [= <-]; done|done|done]. Qed.

(** A 300-byte default-pool write-only static buffer, freshly created. *)
Definition static_buffer : World :=
  init (mkBackingBytes 0 0 0) (zero_box 16384) 9 300 D3DUSAGE_WRITEONLY D3DPOOL_DEFAULT.

(** ... then locked whole, with 42 stored at byte 3. *)
Definition filled : World :=
  let '(v, d) :=
    match vb_lock good_env false 0 0 0 (vb static_buffer) (dev static_buffer) with
    | Some (_, _, v, d) => (v, d)
    | None => (vb static_buffer, dev static_buffer)
    end in
  let w := after_lock static_buffer good_env 0 0 0 D3D_OK v d in
  mkWorld (app_write (vb w) 3 42) (dev w) (upd (app w) 3 42) (windows w)
    (fun x => (x =? 3) || written w x) (fun x => negb (x =? 3) && clobbered w x).

Lemma unlock_publishes_witness :
  let '(r, v', d') := vb_unlock good_env (vb filled) (dev filled) in
  r = D3D_OK /\ forall b, 0 <= b < length v' ->
    device_bytes (buffer_id v') (fun _ => 77) (dev_uploads d') b = app filled b.
Proof.
  destruct (vb_unlock good_env (vb filled) (dev filled)) as [[r v'] d'] eqn:E.
  assert (Hr : r = D3D_OK /\ lock_count v' = 0) by (vm_compute in E; by simplify_eq).
  destruct Hr as [Hr Hlc]. split; [done|].
  intros b Hb. destruct (unlock_publishes (fun _ => 77) (mkBackingBytes 0 0 0) (zero_box 16384) 9 300
    D3DUSAGE_WRITEONLY D3DPOOL_DEFAULT filled good_env r v' d') with (b := b) as [H|H];
    [done|done|done| |exact good_env_ok|done|done|done|done|exact H|].
  2: { exfalso. clear -E H. vm_compute in E. injection E as <- <- <-. vm_compute in H. by destruct b as [|[p|p|]|]; try destruct p; try destruct p. }
  eapply rtc_l; [eapply (st_lock _ good_env 0 0 0); [exact good_env_ok|done|done|reflexivity]|].
  eapply rtc_l; [|apply rtc_refl].
  eapply (st_write _ 3 42 (0, 0)); [by left|].
  split; [vm_compute; by split|by left].
Defined.

(** Store [v] at each of the [n] bytes from [b]. *)
Fixpoint store_run (vb0 : VertexBufferInner) (b : Z) (v : Z) (n : nat) : VertexBufferInner :=
  match n with
  | O => vb0
  | S n => store_run (app_write vb0 b v) (b + 1) v n
  end.

Definition lock_ok (vb0 : VertexBufferInner) (d : Device) (off size : Z)
    : VertexBufferInner * Device :=
  match vb_lock good_env false off size 0 vb0 d with
  | Some (_, _, v, d') => (v, d')
  | None => (vb0, d)
  end.

(** Two nested locks of a static write-only buffer whose backing was released:
    windows [[0, 10)] and [[100, 110)], both stored in full with 1. *)
Definition nested_locks (x : Z) : (Z -> Z) * (Z -> Z) :=
  let w := static_buffer in
  let '(v, d) := lock_ok (vb w) (dev w) 0 0 in
  let '(_, v, d) := vb_unlock good_env (app_write v 50 x) d in
  let before := device_bytes 9 (fun _ => 77) (dev_uploads d) in
  let '(v, d) := lock_ok v d 0 10 in
  let v := store_run v 0 1 10 in
  let '(v, d) := lock_ok v d 100 10 in
  let v := store_run v 100 1 10 in
  let '(_, v, d) := vb_unlock good_env v d in
  let '(_, v, d) := vb_unlock good_env v d in
  (before, device_bytes 9 (fun _ => 77) (dev_uploads d)).

(** C40: on a re-created backing, two locks held at once upload the gap between
    their windows too.  The application stored [x] at byte 50, the upload
    published it and the backing was released; then it locked [[0, 10)] and
    [[100, 110)] together, stored every byte of both windows and unlocked
    twice.  Byte 50, which no lock named, is 0 on the device afterwards,
    because the pending range is the hull of the two windows and the
    re-created backing holds zeros between them. *)
Theorem nested_locks_zero_the_gap x :
  let '(before, after) := nested_locks x in
  before 50 = x /\ after 5 = 1 /\ after 105 = 1 /\ after 50 = 0.
Proof. vm_compute. done. Qed.
