(* ===== verification/DirtyRect.v ===== *)
(** [dirty_rect.rs]: the rectangle of a texture level a lock or a copy touches,
    its clamps to a level and to a format's block grid, and the check an
    [UpdateSurface] region passes. *)

From Stdlib Require Import Btauto.
From S2P Require Import Prelude.

Module DirtyRect.

Record t := mk { x : Z; y : Z; w : Z; h : Z }.

#[global] Instance eq_dec : EqDecision t.
Proof. solve_decision. Defined.

Definition full (w h : Z) : t := mk 0 0 w h.

Definition next_mip (r : t) : t :=
  let x' := x r / 2 in
  let y' := y r / 2 in
  let right := div_ceil (x r +| w r)%u32 2 in
  let bottom := div_ceil (y r +| h r)%u32 2 in
  mk x' y' (right -% x')%u32 (bottom -% y')%u32.

Definition union (r o : t) : t :=
  let x' := Z.min (x r) (x o) in
  let y' := Z.min (y r) (y o) in
  let right := Z.max (x r +% w r)%u32 (x o +% w o)%u32 in
  let bottom := Z.max (y r +% h r)%u32 (y o +% h o)%u32 in
  mk x' y' (right -% x')%u32 (bottom -% y')%u32.

Definition reaches (r : t) (width height : Z) : bool :=
  (x r <? width) && (y r <? height) && negb (w r =? 0) && negb (h r =? 0).

Definition clamp (r : t) (mip_w mip_h : Z) : option t :=
  let x' := Z.min (x r) mip_w in
  let y' := Z.min (y r) mip_h in
  let right := Z.min (x r +| w r)%u32 mip_w in
  let bottom := Z.min (y r +| h r)%u32 mip_h in
  if (right <=? x') || (bottom <=? y') then None
  else Some (mk x' y' (right -% x')%u32 (bottom -% y')%u32).

Definition clip_to_level (r : t) (level_w level_h block_w block_h : Z) : option t :=
  let bw := Z.max block_w 1 in
  let bh := Z.max block_h 1 in
  let x' := (x r -% x r mod bw)%u32 in
  let y' := (y r -% y r mod bh)%u32 in
  let right := (div_ceil (x r +| w r)%u32 bw *| bw)%u32 in
  let bottom := (div_ceil (y r +| h r)%u32 bh *| bh)%u32 in
  clamp (mk x' y' (right -% x')%u32 (bottom -% y')%u32) level_w level_h.

End DirtyRect.

Definition clip_copy_region (region : DirtyRect.t) (dst_origin src_level dst_level block : Z * Z)
    : option (DirtyRect.t * DirtyRect.t) :=
  src ← DirtyRect.clip_to_level region (fst src_level) (snd src_level) (fst block) (snd block);
  dst ← DirtyRect.clip_to_level
          (DirtyRect.mk (fst dst_origin) (snd dst_origin) (DirtyRect.w region) (DirtyRect.h region))
          (fst dst_level) (snd dst_level) (fst block) (snd block);
  let w := Z.min (DirtyRect.w src) (DirtyRect.w dst) in
  let h := Z.min (DirtyRect.h src) (DirtyRect.h dst) in
  Some (DirtyRect.mk (DirtyRect.x src) (DirtyRect.y src) w h,
        DirtyRect.mk (DirtyRect.x dst) (DirtyRect.y dst) w h).

(** The source rectangle [update_surface_region] reads: [None] when refused. *)
Definition source_region (src_rect : option (Z * Z * Z * Z)) (sw sh : Z) : option DirtyRect.t :=
  match src_rect with
  | None => Some (DirtyRect.full sw sh)
  | Some (l, t, r, b) =>
      if (l <? 0) || (t <? 0) || (r <=? l) || (b <=? t) then None
      else Some (DirtyRect.mk l t (Z.abs (r - l)) (Z.abs (b - t)))
  end.

Definition is_multiple_of (v b : Z) : bool := v mod b =? 0.

Definition update_surface_region (src_rect : option (Z * Z * Z * Z))
    (dst_point src_level dst_level block : Z * Z) : option (DirtyRect.t * (Z * Z)) :=
  let '(sw, sh) := src_level in
  region ← source_region src_rect sw sh;
  if (fst dst_point <? 0) || (snd dst_point <? 0) then None
  else
    let '(dx, dy) := dst_point in
    let '(dw, dh) := dst_level in
    let '(DirtyRect.mk rx ry rw rh) := region in
    if (sw <? (rx +| rw)%u32) || (sh <? (ry +| rh)%u32)
       || (dw <? (dx +| rw)%u32) || (dh <? (dy +| rh)%u32) then None
    else
      let bw := Z.max (fst block) 1 in
      let bh := Z.max (snd block) 1 in
      if ((1 <? bw) || (1 <? bh))
         && (negb (is_multiple_of rx bw) || negb (is_multiple_of ry bh)
             || negb (is_multiple_of dx bw) || negb (is_multiple_of dy bh)
             || (negb (is_multiple_of rw bw)
                 && (negb ((rx +% rw)%u32 =? sw) || negb ((dx +% rw)%u32 =? dw)))
             || (negb (is_multiple_of rh bh)
                 && (negb ((ry +% rh)%u32 =? sh) || negb ((dy +% rh)%u32 =? dh))))
      then None
      else Some (region, (dx, dy)).

(** ** What a rectangle denotes *)

Definition rect_ok (r : DirtyRect.t) : Prop :=
  is_u32 (DirtyRect.x r) /\ is_u32 (DirtyRect.y r) /\ is_u32 (DirtyRect.w r) /\ is_u32 (DirtyRect.h r).

Definition covers (r : DirtyRect.t) (px py : Z) : Prop :=
  DirtyRect.x r <= px < DirtyRect.x r + DirtyRect.w r
  /\ DirtyRect.y r <= py < DirtyRect.y r + DirtyRect.h r.

#[global] Instance covers_dec r px py : Decision (covers r px py).
Proof. unfold covers. apply _. Defined.

(** A non-empty rectangle inside a [lw] by [lh] level. *)
Definition inside (r : DirtyRect.t) (lw lh : Z) : Prop :=
  0 <= DirtyRect.x r /\ 0 <= DirtyRect.y r /\ 0 < DirtyRect.w r /\ 0 < DirtyRect.h r
  /\ DirtyRect.x r + DirtyRect.w r <= lw /\ DirtyRect.y r + DirtyRect.h r <= lh.

(** One axis of the two clamps, in exact arithmetic. *)
Lemma clamp_axis lo n m :
  is_u32 lo -> is_u32 n -> is_u32 m ->
  let lo' := Z.min lo m in
  let hi := Z.min (lo +| n)%u32 m in
  hi = Z.min (lo + n) m /\ (lo' < hi -> (hi -% lo')%u32 = hi - lo').
Proof.
  intros H1 H2 H3 lo' hi. assert (E : hi = Z.min (lo + n) m) by (unfold hi; unfold_mach; lia).
  split; [done|]. intros Hlt. apply wrap32_small. unfold lo' in *. unfold_mach. lia.
Qed.

Lemma clamp_None r mw mh :
  rect_ok r -> is_u32 mw -> is_u32 mh ->
  DirtyRect.clamp r mw mh = None <-> forall px py, ~ (covers r px py /\ px < mw /\ py < mh).
Proof.
  intros (?&?&?&?) ??. unfold DirtyRect.clamp.
  destruct (clamp_axis (DirtyRect.x r) (DirtyRect.w r) mw) as [-> _]; [done..|].
  destruct (clamp_axis (DirtyRect.y r) (DirtyRect.h r) mh) as [-> _]; [done..|].
  unfold covers. unfold_mach. split.
  - destruct (_ || _) eqn:E; [|done]. intros _ px py. apply orb_true_iff in E as [E|E]; reflect_cmp; lia.
  - intros H'. destruct (_ || _) eqn:E; [done|]. reflect_cmp. exfalso.
    apply (H' (DirtyRect.x r) (DirtyRect.y r)). lia.
Qed.

Lemma clamp_Some r mw mh r' :
  rect_ok r -> is_u32 mw -> is_u32 mh -> DirtyRect.clamp r mw mh = Some r' ->
  inside r' mw mh
  /\ DirtyRect.x r' = DirtyRect.x r /\ DirtyRect.y r' = DirtyRect.y r
  /\ DirtyRect.w r' = Z.min (DirtyRect.x r + DirtyRect.w r) mw - DirtyRect.x r
  /\ DirtyRect.h r' = Z.min (DirtyRect.y r + DirtyRect.h r) mh - DirtyRect.y r.
Proof.
  intros (?&?&?&?) ??. unfold DirtyRect.clamp.
  destruct (clamp_axis (DirtyRect.x r) (DirtyRect.w r) mw) as [Ex Fx]; [done..|].
  destruct (clamp_axis (DirtyRect.y r) (DirtyRect.h r) mh) as [Ey Fy]; [done..|].
  destruct (_ || _) eqn:E; [done|]. reflect_cmp. intros [= <-].
  rewrite Fx, Fy by done. rewrite Ex, Ey in *. clear Fx Fy Ex Ey.
  unfold inside, is_u32 in *; simpl. lia.
Qed.

(** One axis of the growth to the block grid, before the clamp. *)
Lemma block_axis lo n b :
  is_u32 lo -> is_u32 n -> 1 <= b <= u32_max ->
  let lo' := (lo -% lo mod b)%u32 in
  let hi := (div_ceil (lo +| n)%u32 b *| b)%u32 in
  lo' = lo - lo mod b /\ (hi -% lo')%u32 = hi - lo' /\ is_u32 lo' /\ is_u32 hi
  /\ lo' mod b = 0 /\ lo - b < lo' <= lo /\ Z.min (lo + n) u32_max <= hi
  /\ hi < lo + n + b /\ (hi = u32_max \/ hi mod b = 0).
Proof.
  intros Hlo Hn Hb lo' hi.
  pose proof (Z.mod_pos_bound lo b ltac:(lia)) as Hm.
  pose proof (Z.mod_le lo b) as Hle.
  assert (E : lo' = lo - lo mod b) by (apply wrap32_small; unfold_mach; lia).
  set (sum := (lo +| n)%u32) in *. assert (Hsum : sum = Z.min (lo + n) u32_max)
    by (unfold sum; unfold_mach; lia).
  pose proof (div_ceil_mul_ge sum b ltac:(lia)). pose proof (div_ceil_mul_lt sum b ltac:(lia)).
  assert (Hhi : hi = Z.min u32_max (div_ceil sum b * b)) by (unfold hi, sat; unfold_mach; lia).
  split_and!; try (unfold_mach; lia).
  - apply wrap32_small. unfold_mach; lia.
  - rewrite E. rewrite (Z.div_mod lo b) at 1 by lia.
    replace (b * (lo / b) + lo mod b - lo mod b) with (lo / b * b) by lia. apply Z_mod_mult.
  - destruct (Z.le_gt_cases u32_max (div_ceil sum b * b)); [left; lia|right].
    rewrite Hhi, Z.min_r by lia. apply Z_mod_mult.
Qed.

(** The grown rectangle [clip_to_level] clamps. *)
Lemma clip_to_level_grown r lw lh bw bh :
  rect_ok r -> 1 <= bw <= u32_max -> 1 <= bh <= u32_max ->
  exists g, DirtyRect.clip_to_level r lw lh bw bh = DirtyRect.clamp g lw lh /\ rect_ok g
    /\ (forall px py, covers r px py -> px < u32_max -> py < u32_max -> covers g px py)
    /\ DirtyRect.x g mod bw = 0 /\ DirtyRect.y g mod bh = 0
    /\ DirtyRect.x r - bw < DirtyRect.x g <= DirtyRect.x r
    /\ DirtyRect.y r - bh < DirtyRect.y g <= DirtyRect.y r
    /\ DirtyRect.x g + DirtyRect.w g < DirtyRect.x r + DirtyRect.w r + bw
    /\ DirtyRect.y g + DirtyRect.h g < DirtyRect.y r + DirtyRect.h r + bh
    /\ (DirtyRect.x g + DirtyRect.w g = u32_max \/ (DirtyRect.x g + DirtyRect.w g) mod bw = 0)
    /\ (DirtyRect.y g + DirtyRect.h g = u32_max \/ (DirtyRect.y g + DirtyRect.h g) mod bh = 0).
Proof.
  intros (?&?&?&?) Hbw Hbh. unfold DirtyRect.clip_to_level.
  rewrite !Z.max_l by lia.
  destruct (block_axis (DirtyRect.x r) (DirtyRect.w r) bw)
    as (_ & -> & Hx & Hhx & Hxm & Hxb & Hxr & Hxt & Hxe); [done..|].
  destruct (block_axis (DirtyRect.y r) (DirtyRect.h r) bh)
    as (_ & -> & Hy & Hhy & Hym & Hyb & Hyr & Hyt & Hye); [done..|].
  set (lx := (DirtyRect.x r -% _)%u32) in *. set (hx := (div_ceil _ bw *| _)%u32) in *.
  set (ly := (DirtyRect.y r -% _)%u32) in *. set (hy := (div_ceil _ bh *| _)%u32) in *.
  exists (DirtyRect.mk lx ly (hx - lx) (hy - ly)).
  clearbody lx hx ly hy. unfold covers, rect_ok, is_u32 in *; simpl.
  replace (lx + (hx - lx)) with hx by lia. replace (ly + (hy - ly)) with hy by lia.
  split_and!; try done; lia.
Qed.

(** Clipping a copy region to a level of a block-compressed format.  The
    result lies inside the level, starts on the block grid, ends on it or at
    the level's own edge, covers every texel of the region inside the level,
    and reaches less than one block beyond the region on either side; [None]
    means no texel of the region is in the level. *)
Theorem clip_to_level_correct r lw lh bw bh :
  rect_ok r -> is_u32 lw -> is_u32 lh -> 1 <= bw <= u32_max -> 1 <= bh <= u32_max ->
  match DirtyRect.clip_to_level r lw lh bw bh with
  | Some r' =>
      inside r' lw lh
      /\ DirtyRect.x r' mod bw = 0 /\ DirtyRect.y r' mod bh = 0
      /\ (DirtyRect.x r' + DirtyRect.w r' = lw \/ (DirtyRect.x r' + DirtyRect.w r') mod bw = 0)
      /\ (DirtyRect.y r' + DirtyRect.h r' = lh \/ (DirtyRect.y r' + DirtyRect.h r') mod bh = 0)
      /\ (forall px py, covers r px py -> px < lw -> py < lh -> covers r' px py)
      /\ (forall px py, covers r' px py ->
            DirtyRect.x r - bw < px < DirtyRect.x r + DirtyRect.w r + bw
            /\ DirtyRect.y r - bh < py < DirtyRect.y r + DirtyRect.h r + bh)
  | None => forall px py, covers r px py -> ~ (px < lw /\ py < lh)
  end.
Proof.
  intros Hr Hlw Hlh Hbw Hbh.
  destruct (clip_to_level_grown r lw lh bw bh)
    as (g & -> & Hg & Hcov & Hxm & Hym & Hx & Hy & Hxt & Hyt & Hxe & Hye);
    [done..|].
  destruct (DirtyRect.clamp g lw lh) as [r'|] eqn:E.
  - apply clamp_Some in E as (Hin & Ex & Ey & Ew & Eh); [|done..].
    assert (Hxw : DirtyRect.x r' + DirtyRect.w r' = Z.min (DirtyRect.x g + DirtyRect.w g) lw) by lia.
    assert (Hyh : DirtyRect.y r' + DirtyRect.h r' = Z.min (DirtyRect.y g + DirtyRect.h g) lh) by lia.
    destruct Hlw as [_ Hlw], Hlh as [_ Hlh].
    split_and!; [done|congruence|congruence| | | |].
    + rewrite Hxw. destruct (Z.min_spec (DirtyRect.x g + DirtyRect.w g) lw) as [[? ->]|[? ->]];
        [|by left]. destruct Hxe as [?|?]; [lia|by right].
    + rewrite Hyh. destruct (Z.min_spec (DirtyRect.y g + DirtyRect.h g) lh) as [[? ->]|[? ->]];
        [|by left]. destruct Hye as [?|?]; [lia|by right].
    + intros px py Hc ? ?. destruct (Hcov px py Hc); [lia..|].
      unfold covers. rewrite Hxw, Hyh, Ex, Ey. lia.
    + intros px py [Hpx Hpy]. rewrite Hxw, Ex in Hpx. rewrite Hyh, Ey in Hpy. lia.
  - intros px py Hc [? ?]. rewrite clamp_None in E by done.
    apply (E px py). destruct Hlw, Hlh. split_and!; try done. apply Hcov; [done|lia..].
Qed.

Lemma clip_to_level_correct_witness :
  DirtyRect.clip_to_level (DirtyRect.mk 5 2 4 9) 10 10 4 4 = Some (DirtyRect.mk 4 0 6 10)
  /\ inside (DirtyRect.mk 4 0 6 10) 10 10.
Proof.
  split; [reflexivity|].
  pose proof (clip_to_level_correct (DirtyRect.mk 5 2 4 9) 10 10 4 4
    ltac:(unfold rect_ok; simpl; unfold_mach; lia) ltac:(unfold_mach; lia) ltac:(unfold_mach; lia)
    ltac:(unfold_mach; lia) ltac:(unfold_mach; lia)) as H.
  exact (proj1 H).
Defined.

(** What [clip_to_level_correct] says of a result, for the callers. *)
Lemma clip_to_level_Some r lw lh bw bh r' :
  rect_ok r -> is_u32 lw -> is_u32 lh -> 1 <= bw <= u32_max -> 1 <= bh <= u32_max ->
  DirtyRect.clip_to_level r lw lh bw bh = Some r' ->
  inside r' lw lh
  /\ DirtyRect.x r' = DirtyRect.x r - DirtyRect.x r mod bw
  /\ DirtyRect.y r' = DirtyRect.y r - DirtyRect.y r mod bh
  /\ (forall px, DirtyRect.x r' <= px < DirtyRect.x r + DirtyRect.w r -> px < lw ->
        px < DirtyRect.x r' + DirtyRect.w r')
  /\ (forall py, DirtyRect.y r' <= py < DirtyRect.y r + DirtyRect.h r -> py < lh ->
        py < DirtyRect.y r' + DirtyRect.h r').
Proof.
  intros (?&?&?&?) Hlw Hlh Hbw Hbh. unfold DirtyRect.clip_to_level. rewrite !Z.max_l by lia.
  destruct (block_axis (DirtyRect.x r) (DirtyRect.w r) bw)
    as (Elx & -> & Hx & Hhx & _ & Hxb & Hxr & _ & _); [done..|].
  destruct (block_axis (DirtyRect.y r) (DirtyRect.h r) bh)
    as (Ely & -> & Hy & Hhy & _ & Hyb & Hyr & _ & _); [done..|].
  set (lx := (DirtyRect.x r -% _)%u32) in *. set (hx := (div_ceil _ bw *| _)%u32) in *.
  set (ly := (DirtyRect.y r -% _)%u32) in *. set (hy := (div_ceil _ bh *| _)%u32) in *.
  clearbody lx hx ly hy. intros E. apply clamp_Some in E as (Hin & Ex & Ey & Ew & Eh); [|..|done|done].
  - simpl in *. unfold is_u32 in *. split_and!; try done; try lia.
  - unfold rect_ok; simpl. unfold is_u32 in *. lia.
Qed.

(** ** Copies between two levels *)

(** Two origins at the same offset inside their block. *)
Definition congruent (region : DirtyRect.t) (dst_origin block : Z * Z) : Prop :=
  DirtyRect.x region mod fst block = fst dst_origin mod fst block
  /\ DirtyRect.y region mod snd block = snd dst_origin mod snd block.

(** Clipping a copy to its two levels.  The two halves have one size and
    each lies inside its own level, starting on the block grid; and when the
    two origins sit at the same offset in their blocks, the displacement is the
    requested one and every texel of the region that both levels hold is
    copied. *)
Theorem clip_copy_region_correct region dx dy sw sh dw dh bw bh src dst :
  rect_ok region -> is_u32 dx -> is_u32 dy ->
  is_u32 sw -> is_u32 sh -> is_u32 dw -> is_u32 dh ->
  1 <= bw <= u32_max -> 1 <= bh <= u32_max ->
  clip_copy_region region (dx, dy) (sw, sh) (dw, dh) (bw, bh) = Some (src, dst) ->
  DirtyRect.w src = DirtyRect.w dst /\ DirtyRect.h src = DirtyRect.h dst
  /\ inside src sw sh /\ inside dst dw dh
  /\ (congruent region (dx, dy) (bw, bh) ->
      DirtyRect.x dst - DirtyRect.x src = dx - DirtyRect.x region
      /\ DirtyRect.y dst - DirtyRect.y src = dy - DirtyRect.y region
      /\ forall px py, covers region px py -> px < sw -> py < sh ->
           px - DirtyRect.x region + dx < dw -> py - DirtyRect.y region + dy < dh ->
           covers src px py).
Proof.
  intros Hr Hdx Hdy Hsw Hsh Hdw Hdh Hbw Hbh. unfold clip_copy_region; simpl.
  destruct (DirtyRect.clip_to_level region _ _ _ _) as [s|] eqn:Es; [simpl|done].
  destruct (DirtyRect.clip_to_level (DirtyRect.mk dx _ _ _) _ _ _ _) as [d|] eqn:Ed; [simpl|done].
  intros [= <- <-].
  assert (Hr' : rect_ok (DirtyRect.mk dx dy (DirtyRect.w region) (DirtyRect.h region)))
    by (destruct Hr as (?&?&?&?); done).
  apply clip_to_level_Some in Es as ((?&?&?&?&?&?) & Esx & Esy & Hsx & Hsy); [|done..].
  apply clip_to_level_Some in Ed as ((?&?&?&?&?&?) & Edx & Edy & Hdx' & Hdy'); [|done..].
  destruct s as [s1 s2 s3 s4], d as [d1 d2 d3 d4], region as [r1 r2 r3 r4].
  clear Hr Hr' Hsw Hsh Hdw Hdh.
  unfold inside, congruent, covers in *; simpl in *.
  split_and!; try done; try lia. intros [C1 C2].
  split_and!; [lia..|]. intros px py [] ????.
  specialize (Hsx px). specialize (Hsy py).
  specialize (Hdx' (px - r1 + dx)). specialize (Hdy' (py - r2 + dy)).
  pose proof (Z.mod_pos_bound r1 bw ltac:(lia)). pose proof (Z.mod_pos_bound r2 bh ltac:(lia)). lia.
Qed.

Lemma clip_copy_region_correct_witness :
  clip_copy_region (DirtyRect.mk 4 4 10 10) (8, 0) (12, 12) (16, 16) (4, 4)
  = Some (DirtyRect.mk 4 4 8 8, DirtyRect.mk 8 0 8 8)
  /\ inside (DirtyRect.mk 4 4 8 8) 12 12 /\ inside (DirtyRect.mk 8 0 8 8) 16 16.
Proof.
  assert (E : clip_copy_region (DirtyRect.mk 4 4 10 10) (8, 0) (12, 12) (16, 16) (4, 4)
              = Some (DirtyRect.mk 4 4 8 8, DirtyRect.mk 8 0 8 8)) by reflexivity.
  split; [exact E|].
  pose proof (clip_copy_region_correct (DirtyRect.mk 4 4 10 10) 8 0 12 12 16 16 4 4 _ _
    ltac:(unfold rect_ok; simpl; unfold_mach; lia) ltac:(unfold_mach; lia) ltac:(unfold_mach; lia)
    ltac:(unfold_mach; lia) ltac:(unfold_mach; lia) ltac:(unfold_mach; lia) ltac:(unfold_mach; lia)
    ltac:(unfold_mach; lia) ltac:(unfold_mach; lia) E) as (_ & _ & H1 & H2 & _).
  split; [exact H1|exact H2].
Defined.

(** ** The check on an [UpdateSurface] region *)

(** D3D9's rule on one axis: the extent [n] at [s] of a [sl] level and at [d]
    of a [dl] level. *)
Definition axis_ok (s d n sl dl b : Z) : Prop :=
  s + n <= sl /\ d + n <= dl
  /\ (1 < b -> s mod b = 0 /\ d mod b = 0 /\ (n mod b = 0 \/ (s + n = sl /\ d + n = dl))).

Definition is_i32 (v : Z) : Prop := -2147483648 <= v <= 2147483647.

(** The rectangle the call names, before any check. *)
Definition named_region (src_rect : option (Z * Z * Z * Z)) (sw sh : Z) : DirtyRect.t :=
  match src_rect with
  | None => DirtyRect.mk 0 0 sw sh
  | Some (l, t, r, b) => DirtyRect.mk l t (r - l) (b - t)
  end.

(** A rectangle that is neither empty, inverted nor negative. *)
Definition named_ok (src_rect : option (Z * Z * Z * Z)) : Prop :=
  match src_rect with None => True | Some (l, t, r, b) => 0 <= l < r /\ 0 <= t < b end.

Lemma source_region_spec src_rect sw sh region :
  source_region src_rect sw sh = Some region <->
  named_ok src_rect /\ region = named_region src_rect sw sh.
Proof.
  unfold source_region, named_ok, named_region. destruct src_rect as [[[[l t] r] b]|]; [|naive_solver].
  destruct (_ || _) eqn:E.
  - split; [done|]. intros [? _]. repeat (apply orb_true_iff in E as [E|E]); reflect_cmp; lia.
  - reflect_cmp. rewrite !Z.abs_eq by lia.
    split; [intros [= <-]; split; [lia|done]|intros [_ ->]; done].
Qed.

Lemma multiple_1 v : is_multiple_of v 1 = true.
Proof. unfold is_multiple_of. by rewrite Z.mod_1_r. Qed.

(** The block test of one axis, when the extent is inside both levels. *)
Lemma axis_test s d n sl dl b :
  0 <= s -> 0 <= d -> 0 <= n -> is_u32 sl -> is_u32 dl -> 1 <= b ->
  s + n <= sl -> d + n <= dl ->
  negb (is_multiple_of s b) || negb (is_multiple_of d b)
  || (negb (is_multiple_of n b) && (negb ((s +% n)%u32 =? sl) || negb ((d +% n)%u32 =? dl))) = false
  <-> axis_ok s d n sl dl b.
Proof.
  intros ??? [_ Hsl] [_ Hdl] Hb ??.
  rewrite !wrap32_small by (unfold is_u32; lia). unfold axis_ok.
  rewrite !orb_false_iff, andb_false_iff, orb_false_iff, !negb_false_iff, !Z.eqb_eq.
  unfold is_multiple_of. rewrite !Z.eqb_eq.
  destruct (decide (b = 1)) as [->|]; [rewrite !Z.mod_1_r; naive_solver lia|].
  split; [naive_solver|]. intros (_ & _ & H'). specialize (H' ltac:(lia)). tauto.
Qed.

(** [UpdateSurface] accepts exactly the regions D3D9 defines as valid: a
    proper, non-negative rectangle and point, inside both levels, and for a
    block format aligned on both sides with an unaligned extent only where it
    ends at the edge of both levels.  What it accepts is the named region. *)
Theorem update_surface_region_iff src_rect dx dy sw sh dw dh bw bh res :
  match src_rect with None => True
  | Some (l, t, r, b) => is_i32 l /\ is_i32 t /\ is_i32 r /\ is_i32 b end ->
  is_i32 dx -> is_i32 dy ->
  0 <= sw < u32_max -> 0 <= sh < u32_max -> 0 <= dw < u32_max -> 0 <= dh < u32_max ->
  1 <= bw -> 1 <= bh ->
  let g := named_region src_rect sw sh in
  update_surface_region src_rect (dx, dy) (sw, sh) (dw, dh) (bw, bh) = Some res <->
  res = (g, (dx, dy)) /\ named_ok src_rect /\ 0 <= dx /\ 0 <= dy
  /\ axis_ok (DirtyRect.x g) dx (DirtyRect.w g) sw dw bw
  /\ axis_ok (DirtyRect.y g) dy (DirtyRect.h g) sh dh bh.
Proof.
  intros Hs Hdx Hdy Hsw Hsh Hdw Hdh Hbw Hbh g. unfold update_surface_region; simpl.
  destruct (source_region src_rect sw sh) as [region|] eqn:E; simpl.
  2:{ split; [done|]. intros (_ & Hn & _).
      assert (source_region src_rect sw sh = Some g) by by apply source_region_spec. congruence. }
  apply source_region_spec in E as [Hn Eg]. fold g in Eg. subst region.
  assert (Hg : 0 <= DirtyRect.x g <= u32_max /\ 0 <= DirtyRect.w g <= u32_max
               /\ 0 <= DirtyRect.y g <= u32_max /\ 0 <= DirtyRect.h g <= u32_max).
  { unfold g, named_region, named_ok, is_i32, u32_max in *.
    destruct src_rect as [[[[l t] r] b]|]; simpl; lia. }
  clearbody g. destruct g as [gx gy gw gh]; simpl in *.
  destruct ((dx <? 0) || (dy <? 0)) eqn:Ed.
  { split; [done|]. intros (_ & _ & ? & ? & _). apply orb_true_iff in Ed as [?|?]; reflect_cmp; lia. }
  reflect_cmp. unfold sat.
  destruct (_ || _ || _ || _) eqn:Eb.
  { split; [done|]. intros (_ & _ & _ & _ & (? & ? & _) & (? & ? & _)).
    rewrite !orb_true_iff, !Z.ltb_lt in Eb. lia. }
  reflect_cmp. rewrite !Z.max_l by lia.
  assert (is_u32 sw /\ is_u32 sh /\ is_u32 dw /\ is_u32 dh) as (?&?&?&?) by (unfold is_u32; lia).
  pose proof (axis_test gx dx gw sw dw bw) as Tx. pose proof (axis_test gy dy gh sh dh bh) as Ty.
  specialize (Tx ltac:(lia) ltac:(lia) ltac:(lia) ltac:(done) ltac:(done) ltac:(lia) ltac:(lia) ltac:(lia)).
  specialize (Ty ltac:(lia) ltac:(lia) ltac:(lia) ltac:(done) ltac:(done) ltac:(lia) ltac:(lia) ltac:(lia)).
  rewrite <- Tx, <- Ty. clear Tx Ty.
  destruct (decide (bw = 1 /\ bh = 1)) as [[-> ->]|Hb].
  - rewrite !multiple_1. simpl. naive_solver.
  - assert ((1 <? bw) || (1 <? bh) = true) as ->
      by (rewrite orb_true_iff, !Z.ltb_lt; lia).
    rewrite andb_true_l.
    match goal with |- (if ?c then _ else _) = _ <-> _ /\ _ /\ _ /\ _ /\ ?a = false /\ ?b = false =>
      replace c with (a || b) by btauto; destruct a, b; naive_solver
    end.
Qed.

Lemma update_surface_region_iff_witness :
  update_surface_region (Some (4, 4, 10, 8)) (8, 0) (10, 10) (14, 8) (4, 4)
  = Some (DirtyRect.mk 4 4 6 4, (8, 0))
  /\ axis_ok 4 8 6 10 14 4 /\ axis_ok 4 0 4 10 8 4.
Proof.
  assert (E : update_surface_region (Some (4, 4, 10, 8)) (8, 0) (10, 10) (14, 8) (4, 4)
              = Some (DirtyRect.mk 4 4 6 4, (8, 0))) by reflexivity.
  split; [exact E|].
  pose proof (update_surface_region_iff (Some (4, 4, 10, 8)) 8 0 10 10 14 8 4 4
    (DirtyRect.mk 4 4 6 4, (8, 0)) ltac:(unfold is_i32; lia) ltac:(unfold is_i32; lia)
    ltac:(unfold is_i32; lia) ltac:(unfold_mach; lia) ltac:(unfold_mach; lia) ltac:(unfold_mach; lia)
    ltac:(unfold_mach; lia) ltac:(lia) ltac:(lia)) as H.
  apply H in E as (_ & _ & _ & _ & H1 & H2). split; [exact H1|exact H2].
Defined.

(** ** Merging and scaling *)

(** The exact form of a rectangle whose edges do not overflow. *)
Definition exact (r : DirtyRect.t) : Prop :=
  rect_ok r /\ DirtyRect.x r + DirtyRect.w r <= u32_max /\ DirtyRect.y r + DirtyRect.h r <= u32_max.

Lemma union_covers r o px py :
  exact r -> exact o -> covers r px py \/ covers o px py -> covers (DirtyRect.union r o) px py.
Proof.
  destruct r as [rx ry rw rh], o as [ox oy ow oh]. intros ((?&?&?&?)&?&?) ((?&?&?&?)&?&?).
  unfold DirtyRect.union, covers, is_u32 in *; simpl in *.
  rewrite (wrap32_small (rx + rw)), (wrap32_small (ox + ow)), (wrap32_small (ry + rh)),
    (wrap32_small (oy + oh)) by (unfold is_u32; lia).
  rewrite !wrap32_small by (unfold is_u32; lia). lia.
Qed.

Lemma half_axis lo n :
  is_u32 lo -> is_u32 n -> lo + n <= u32_max ->
  (div_ceil (lo +| n)%u32 2 -% lo / 2)%u32 = div_ceil (lo + n) 2 - lo / 2
  /\ (forall p, lo <= p < lo + n -> lo / 2 <= p / 2 < div_ceil (lo + n) 2).
Proof.
  intros Hlo Hn Hs.
  assert ((lo +| n)%u32 = lo + n) as -> by (unfold_mach; lia).
  pose proof (div_ceil_mul_ge (lo + n) 2 ltac:(lia)). pose proof (div_ceil_mul_lt (lo + n) 2 ltac:(lia)).
  unfold is_u32, u32_max in *. split.
  - apply wrap32_small. unfold is_u32, u32_max. Z.to_euclidean_division_equations. lia.
  - intros p ?. Z.to_euclidean_division_equations. lia.
Qed.

(** Every texel of a level whose four sources touch the rectangle is covered by
    the next level's rectangle. *)
Lemma next_mip_covers r px py :
  exact r -> covers r px py -> covers (DirtyRect.next_mip r) (px / 2) (py / 2).
Proof.
  destruct r as [rx ry rw rh]. intros ((?&?&?&?)&?&?) [??]. simpl in *.
  destruct (half_axis rx rw) as [Ex Hx]; [done..|]. destruct (half_axis ry rh) as [Ey Hy]; [done..|].
  unfold covers, DirtyRect.next_mip; simpl. rewrite Ex, Ey.
  specialize (Hx px). specialize (Hy py). lia.
Qed.
