(* ===== verification/StagingCoverage.v ===== *)
(** [staging_coverage.rs]: exact union coverage of the writes landing in one
    texture level's staging, with the band sweep that decides it. *)

From stdpp Require Import sorting.
From S2P Require Import Prelude DirtyRect.

Definition MAX_TRACKED_RECTS : nat := 32.

Inductive CoverageState := Partial | Full | Untracked.

#[global] Instance CoverageState_eq_dec : EqDecision CoverageState.
Proof. solve_decision. Defined.

(** [a + b] on [u32] edges, which the code leaves unchecked. *)
Definition right (r : DirtyRect.t) : Z := (DirtyRect.x r +% DirtyRect.w r)%u32.
Definition bottom (r : DirtyRect.t) : Z := (DirtyRect.y r +% DirtyRect.h r)%u32.

Definition contains (outer inner : DirtyRect.t) : bool :=
  (DirtyRect.x outer <=? DirtyRect.x inner) && (DirtyRect.y outer <=? DirtyRect.y inner)
  && (right inner <=? right outer) && (bottom inner <=? bottom outer).

(** ** The band sweep *)

(** [Vec::dedup]: drop consecutive repetitions. *)
Fixpoint dedup (l : list Z) : list Z :=
  match l with
  | a :: ((b :: _) as tl) => if a =? b then dedup tl else a :: dedup tl
  | _ => l
  end.

(** [slice::windows(2)]. *)
Fixpoint windows2 (l : list Z) : list (Z * Z) :=
  match l with
  | a :: ((b :: _) as tl) => (a, b) :: windows2 tl
  | _ => []
  end.

Definition band_edges (rects : list DirtyRect.t) : list Z :=
  rects ≫= λ r, [DirtyRect.y r; bottom r].

(** [sort_unstable] of [u32]s and [sort_unstable_by_key(|r| r.x)]. *)
Definition sort_edges : list Z -> list Z := merge_sort Z.le.
Definition by_x (a b : DirtyRect.t) : Prop := DirtyRect.x a <= DirtyRect.x b.
#[global] Instance by_x_dec a b : Decision (by_x a b).
Proof. unfold by_x. apply _. Defined.
Definition sort_rects : list DirtyRect.t -> list DirtyRect.t := merge_sort by_x.

(** The [for r in &ordered] loop of one band: the prefix of the row it reaches. *)
Fixpoint scan (top bot reach : Z) (ordered : list DirtyRect.t) : Z :=
  match ordered with
  | [] => reach
  | r :: rest =>
      if (top <? DirtyRect.y r) || (bottom r <? bot) then scan top bot reach rest
      else if reach <? DirtyRect.x r then reach
      else scan top bot (Z.max reach (right r)) rest
  end.

Definition covers_level (rects : list DirtyRect.t) (level_w level_h : Z) : bool :=
  let bands := dedup (sort_edges (band_edges rects)) in
  if bool_decide (head bands = Some 0) && bool_decide (last bands = Some level_h) then
    let ordered := sort_rects rects in
    forallb (λ '(top, bot), level_w <=? scan top bot 0 ordered) (windows2 bands)
  else false.

(** ** The tracker *)

Module StagingCoverage.

Record t := mk { rects : list DirtyRect.t; written_area : Z; state : CoverageState }.

Definition new : t := mk [] 0 Partial.

Definition is_full (c : t) : bool := match state c with Full => true | _ => false end.

Definition reset (_ : t) : t := mk [] 0 Partial.

Definition mark_full (_ : t) : t := mk [] 0 Full.

Definition add (c : t) (rect : DirtyRect.t) (level_w level_h : Z) : t :=
  match DirtyRect.clamp rect level_w level_h with
  | None => c
  | Some rect =>
      if (DirtyRect.x rect =? 0) && (DirtyRect.y rect =? 0)
         && (level_w <=? DirtyRect.w rect) && (level_h <=? DirtyRect.h rect)
      then mark_full c
      else if negb (bool_decide (state c = Partial)) then c
      else if existsb (λ r, contains r rect) (rects c) then c
      else if bool_decide (MAX_TRACKED_RECTS <= length (rects c))%nat
      then mk [] (written_area c) Untracked
      else
        let c' := mk (rects c ++ [rect])
                    (written_area c +| (DirtyRect.w rect *% DirtyRect.h rect))%u64 (state c) in
        if ((level_w *% level_h)%u64 <=? written_area c')
           && covers_level (rects c') level_w level_h
        then mark_full c' else c'
  end.

End StagingCoverage.

Example covers_split : covers_level
  [DirtyRect.mk 0 0 4 8; DirtyRect.mk 4 0 4 3; DirtyRect.mk 4 3 4 5] 8 8 = true.
Proof. vm_compute. reflexivity. Qed.

Example covers_gap : covers_level
  [DirtyRect.mk 0 0 4 8; DirtyRect.mk 4 0 4 3; DirtyRect.mk 4 4 4 4] 8 8 = false.
Proof. vm_compute. reflexivity. Qed.

(** ** Sorting and bands *)

Lemma dedup_cons2 a b l : dedup (a :: b :: l) = if a =? b then dedup (b :: l) else a :: dedup (b :: l).
Proof. done. Qed.

Lemma windows2_cons2 a b l : windows2 (a :: b :: l) = (a, b) :: windows2 (b :: l).
Proof. done. Qed.

Lemma elem_of_dedup z l : z ∈ dedup l <-> z ∈ l.
Proof.
  induction l as [|a [|b l] IH]; [done..|]. rewrite dedup_cons2.
  destruct (a =? b) eqn:E; reflect_cmp; subst; rewrite ?elem_of_cons, IH, ?elem_of_cons; naive_solver.
Qed.

Lemma dedup_head a l : head (dedup (a :: l)) = Some a.
Proof.
  revert a. induction l as [|b l IH]; intros a; [done|]. rewrite dedup_cons2.
  destruct (a =? b) eqn:E; reflect_cmp; subst; [apply IH|done].
Qed.

Lemma dedup_strict l : StronglySorted Z.le l -> StronglySorted Z.lt (dedup l).
Proof.
  induction l as [|a [|b l] IH]; intros Hs; [constructor|repeat constructor|].
  apply StronglySorted_inv in Hs as [Hs Ha]. rewrite dedup_cons2.
  destruct (a =? b) eqn:E; [by apply IH|]. reflect_cmp. constructor; [by apply IH|].
  apply Forall_forall. intros z Hz. apply (proj1 (elem_of_dedup _ _)) in Hz.
  rewrite Forall_forall in Ha. pose proof (Ha b ltac:(left)).
  apply StronglySorted_inv in Hs as [_ Hb]. rewrite Forall_forall in Hb.
  apply elem_of_cons in Hz as [->|Hz]; [lia|]. specialize (Hb z Hz). lia.
Qed.

Definition bands (rects : list DirtyRect.t) : list Z := dedup (sort_edges (band_edges rects)).

Lemma bands_strict rects : StronglySorted Z.lt (bands rects).
Proof. apply dedup_strict, Sorted_StronglySorted; [apply _|]. apply (Sorted_merge_sort Z.le). Qed.

Lemma elem_of_bands z rects :
  z ∈ bands rects <-> exists r, r ∈ rects /\ (z = DirtyRect.y r \/ z = bottom r).
Proof.
  unfold bands, sort_edges. rewrite elem_of_dedup, (merge_sort_Permutation Z.le).
  unfold band_edges. rewrite list_elem_of_bind. set_solver.
Qed.

Lemma elem_of_sort_rects r rects : r ∈ sort_rects rects <-> r ∈ rects.
Proof. unfold sort_rects. by rewrite (merge_sort_Permutation by_x). Qed.

#[global] Instance by_x_total : Total by_x.
Proof. intros a b. unfold by_x. lia. Qed.
#[global] Instance by_x_trans : Transitive by_x.
Proof. intros a b c. unfold by_x. lia. Qed.

Lemma sort_rects_sorted rects : StronglySorted by_x (sort_rects rects).
Proof. apply Sorted_StronglySorted; [apply _|]. apply (Sorted_merge_sort by_x). Qed.

(** A value between the first and the last edge lies in one window. *)
Lemma windows2_find l z a b :
  StronglySorted Z.lt l -> head l = Some a -> last l = Some b -> a <= z < b ->
  exists top bot, (top, bot) ∈ windows2 l /\ top <= z < bot.
Proof.
  revert a. induction l as [|c [|d l] IH]; intros a Hs Ha Hb Hz; try rewrite windows2_cons2; try done; injection Ha as ->;
    [injection Hb as ->; lia|].
  destruct (decide (z < d)) as [|Hd].
  - exists a, d. split; [left|lia].
  - apply StronglySorted_inv in Hs as [Hs _].
    destruct (IH d Hs) as (top & bot & Hin & ?); [done|by rewrite last_cons_cons in Hb|lia|].
    exists top, bot. split; [by right|done].
Qed.

(** No edge lies strictly inside a window. *)
Lemma windows2_gap l top bot :
  StronglySorted Z.lt l -> (top, bot) ∈ windows2 l ->
  top ∈ l /\ bot ∈ l /\ top < bot /\ forall z, z ∈ l -> z <= top \/ bot <= z.
Proof.
  induction l as [|c [|d l] IH]; intros Hs Hin; [by apply elem_of_nil in Hin..|].
  apply StronglySorted_inv in Hs as [Hs Hc]. rewrite windows2_cons2 in Hin.
  rewrite Forall_forall in Hc. pose proof (Hc d ltac:(left)) as Hcd.
  apply elem_of_cons in Hin as [[= -> ->]|Hin].
  - split; [left|]. split; [right; left|]. split; [done|]. intros z [->|Hz]%elem_of_cons; [lia|].
    apply StronglySorted_inv in Hs as [_ Hd]. rewrite Forall_forall in Hd.
    apply elem_of_cons in Hz as [->|Hz]; [lia|]. specialize (Hd z Hz). lia.
  - destruct (IH Hs Hin) as (Ht & Hb & ? & Hz). split; [by right|]. split; [by right|]. split; [done|].
    intros z [->|?]%elem_of_cons; [|by apply Hz]. specialize (Hc top Ht). lia.
Qed.

(** ** The sweep decides union coverage *)

Section Level.
Context (lw lh : Z).
Context (Hlw : 0 < lw <= u32_max) (Hlh : 0 < lh <= u32_max).

Definition spans (top bot : Z) (r : DirtyRect.t) : Prop :=
  DirtyRect.y r <= top /\ bot <= DirtyRect.y r + DirtyRect.h r.

Definition in_level (px py : Z) : Prop := 0 <= px < lw /\ 0 <= py < lh.

Definition written (rs : list DirtyRect.t) (px py : Z) : Prop := exists r, r ∈ rs /\ covers r px py.

Definition all_written (rs : list DirtyRect.t) : Prop := forall px py, in_level px py -> written rs px py.

Definition clamped (rs : list DirtyRect.t) : Prop := forall r, r ∈ rs -> inside r lw lh.

Lemma edges_exact r :
  inside r lw lh ->
  right r = DirtyRect.x r + DirtyRect.w r /\ bottom r = DirtyRect.y r + DirtyRect.h r.
Proof.
  unfold inside, right, bottom. intros (?&?&?&?&?&?).
  split; apply wrap32_small; unfold is_u32; lia.
Qed.

Lemma scan_ge top bot l reach : reach <= scan top bot reach l.
Proof.
  revert reach. induction l as [|r l IH]; intros reach; simpl; [lia|].
  destruct (_ || _); [apply IH|]. destruct (_ <? _); [lia|].
  specialize (IH (Z.max reach (right r))). lia.
Qed.

Lemma scan_sound top bot l reach px :
  clamped l -> reach <= px < scan top bot reach l ->
  exists r, r ∈ l /\ spans top bot r /\ DirtyRect.x r <= px < DirtyRect.x r + DirtyRect.w r.
Proof.
  revert reach. induction l as [|r l IH]; intros reach Hl; simpl; [lia|].
  assert (Hl' : clamped l) by (intros s ?; apply Hl; by right).
  destruct (edges_exact r) as [Er Eb]; [apply Hl; left|].
  destruct (_ || _) eqn:E.
  - intros (s & ? & ?)%IH; [|done]. exists s. split; [by right|done].
  - destruct (reach <? _) eqn:E'; [lia|]. reflect_cmp. intros Hp.
    destruct (decide (px < right r)) as [|].
    + exists r. unfold spans. split; [left|]. lia.
    + destruct (IH (Z.max reach (right r))) as (s & ? & ?); [done|lia|].
      exists s. split; [by right|done].
Qed.

Lemma scan_complete top bot l reach r :
  clamped l -> StronglySorted by_x l -> r ∈ l -> spans top bot r ->
  DirtyRect.x r <= scan top bot reach l ->
  DirtyRect.x r + DirtyRect.w r <= scan top bot reach l.
Proof.
  revert reach. induction l as [|s l IH]; intros reach Hl Hs Hr Hsp; [by apply elem_of_nil in Hr|].
  assert (Hl' : clamped l) by (intros ? ?; apply Hl; by right).
  apply StronglySorted_inv in Hs as [Hs Hsl]. rewrite Forall_forall in Hsl. simpl.
  destruct (edges_exact s) as [Er Eb]; [apply Hl; left|].
  destruct (_ || _) eqn:E.
  - apply elem_of_cons in Hr as [->|Hr]; [|by apply IH].
    apply orb_true_iff in E. unfold spans in Hsp. destruct E; reflect_cmp; lia.
  - destruct (reach <? _) eqn:E'; reflect_cmp.
    + intros. apply elem_of_cons in Hr as [->|Hr]; [lia|]. specialize (Hsl r Hr). unfold by_x in Hsl. lia.
    + apply elem_of_cons in Hr as [->|Hr]; [|by apply IH].
      intros _. pose proof (scan_ge top bot l (Z.max reach (right s))). lia.
Qed.

(** The sweep reaches the level's width on a fully written row of a band. *)
Lemma scan_row rs top bot :
  clamped rs -> (top, bot) ∈ windows2 (bands rs) ->
  (forall px, 0 <= px < lw -> written rs px top) -> lw <= scan top bot 0 (sort_rects rs).
Proof.
  intros Hc Hin Hw.
  assert (Hc' : clamped (sort_rects rs)) by (intros r; rewrite elem_of_sort_rects; apply Hc).
  destruct (windows2_gap _ _ _ (bands_strict rs) Hin) as (_ & _ & Hlt & Hgap).
  destruct (decide (lw <= scan top bot 0 (sort_rects rs))) as [|Hn]; [done|]. exfalso.
  pose proof (scan_ge top bot (sort_rects rs) 0).
  destruct (Hw (scan top bot 0 (sort_rects rs))) as (r & Hr & Hx & Hy); [lia|].
  destruct (edges_exact r (Hc r Hr)) as [_ Eb].
  destruct (Hgap (bottom r)) as [|]; [apply elem_of_bands; naive_solver|lia|].
  pose proof (scan_complete top bot (sort_rects rs) 0 r Hc' (sort_rects_sorted rs)) as Hfin.
  rewrite elem_of_sort_rects in Hfin. unfold spans in Hfin. specialize (Hfin Hr ltac:(lia)). lia.
Qed.

Lemma last_le l (z b : Z) : StronglySorted Z.lt l -> last l = Some b -> z ∈ l -> z <= b.
Proof.
  revert z. induction l as [|c [|d l] IH]; intros z Hs Hb Hz; [done| |].
  - injection Hb as ->. apply list_elem_of_singleton in Hz. lia.
  - apply StronglySorted_inv in Hs as [Hs Hc]. rewrite last_cons_cons in Hb.
    apply elem_of_cons in Hz as [->|Hz]; [|by apply IH].
    rewrite Forall_forall in Hc. specialize (Hc d ltac:(left)). specialize (IH d Hs Hb ltac:(left)). lia.
Qed.

Lemma head_le l (z a : Z) : StronglySorted Z.lt l -> head l = Some a -> z ∈ l -> a <= z.
Proof.
  destruct l as [|c l]; intros Hs Ha Hz; [done|]. injection Ha as ->.
  apply StronglySorted_inv in Hs as [_ Hc]. rewrite Forall_forall in Hc.
  apply elem_of_cons in Hz as [->|Hz]; [lia|]. specialize (Hc z Hz). lia.
Qed.

Lemma bands_within rs z : clamped rs -> z ∈ bands rs -> 0 <= z <= lh.
Proof.
  intros Hc (r & Hr & Hz)%elem_of_bands. destruct (edges_exact r (Hc r Hr)) as [_ Eb].
  destruct (Hc r Hr) as (?&?&?&?&?&?). lia.
Qed.

(** The edges reach the level's top and bottom when its corners are written. *)
Lemma bands_ends rs :
  clamped rs -> all_written rs -> head (bands rs) = Some 0 /\ last (bands rs) = Some lh.
Proof.
  intros Hc Hw. pose proof (bands_strict rs) as Hs.
  assert (H0 : 0 ∈ bands rs).
  { destruct (Hw 0 0) as (r & Hr & _ & ?); [unfold in_level; lia|]. apply elem_of_bands.
    destruct (Hc r Hr). exists r. split; [done|left; lia]. }
  assert (Hh : lh ∈ bands rs).
  { destruct (Hw 0 (lh - 1)) as (r & Hr & _ & ?); [unfold in_level; lia|]. apply elem_of_bands.
    destruct (edges_exact r (Hc r Hr)) as [_ Eb]. destruct (Hc r Hr) as (?&?&?&?&?&?).
    exists r. split; [done|right; lia]. }
  split.
  - destruct (bands rs) as [|a l] eqn:E; [by apply elem_of_nil in H0|]. simpl. f_equal.
    pose proof (head_le _ _ a Hs eq_refl H0). pose proof (bands_within rs a Hc). rewrite E in H1.
    specialize (H1 ltac:(left)). lia.
  - destruct (last (bands rs)) as [b|] eqn:E.
    + pose proof (last_le _ _ _ Hs E Hh). apply last_Some_elem_of in E.
      pose proof (bands_within rs b Hc E). f_equal. lia.
    + apply last_None in E. rewrite E in Hh. by apply elem_of_nil in Hh.
Qed.

Lemma covers_level_sound rs : clamped rs -> covers_level rs lw lh = true -> all_written rs.
Proof.
  intros Hc. unfold covers_level. fold (bands rs).
  destruct (bool_decide (head _ = _) && _) eqn:E; [|done].
  apply andb_true_iff in E as [Ha Hb]. apply bool_decide_eq_true in Ha, Hb.
  rewrite forallb_forall. intros Hall px py [Hx Hy].
  destruct (windows2_find (bands rs) py 0 lh) as (top & bot & Hin & Hp); [apply bands_strict|done..|].
  specialize (Hall (top, bot)). rewrite <- list_elem_of_In in Hall. specialize (Hall Hin). simpl in Hall.
  reflect_cmp.
  destruct (scan_sound top bot (sort_rects rs) 0 px) as (r & Hr & Hsp & ?); [|lia|].
  { intros r; rewrite elem_of_sort_rects; apply Hc. }
  exists r. rewrite elem_of_sort_rects in Hr. unfold spans, covers in *. split; [done|lia].
Qed.

Lemma covers_level_complete rs : clamped rs -> all_written rs -> covers_level rs lw lh = true.
Proof.
  intros Hc Hw. unfold covers_level. fold (bands rs).
  destruct (bands_ends rs Hc Hw) as [-> ->]. rewrite !bool_decide_eq_true_2 by done. simpl.
  apply forallb_forall. intros [top bot] Hin. apply list_elem_of_In in Hin. apply Z.leb_le.
  destruct (windows2_gap _ _ _ (bands_strict rs) Hin) as (Htop & Hbot & Hlt & _).
  pose proof (bands_within rs top Hc Htop).
  pose proof (bands_within rs bot Hc Hbot).
  apply scan_row; [done..|]. intros px Hpx. apply Hw. unfold in_level. lia.
Qed.

(** ** The area test never hides full coverage *)

Definition texels (r : DirtyRect.t) : list (Z * Z) :=
  seqZ (DirtyRect.x r) (DirtyRect.w r) ≫= λ px, pair px <$> seqZ (DirtyRect.y r) (DirtyRect.h r).

Definition area (rs : list DirtyRect.t) : Z :=
  foldr (λ r acc, DirtyRect.w r * DirtyRect.h r + acc) 0 rs.

Lemma elem_of_texels r px py : (px, py) ∈ texels r <-> covers r px py.
Proof.
  unfold texels, covers. rewrite list_elem_of_bind. split.
  - intros (y & (z & [= -> ->] & Hz)%list_elem_of_fmap & Hy). apply elem_of_seqZ in Hy, Hz. lia.
  - intros [Hx Hy]. exists px. split; [|by apply elem_of_seqZ].
    apply list_elem_of_fmap. exists py. split; [done|by apply elem_of_seqZ].
Qed.

Lemma NoDup_texels r : NoDup (texels r).
Proof.
  unfold texels. apply NoDup_bind; [|intros; apply NoDup_fmap; [apply _|]|]; try apply NoDup_seqZ.
  intros x1 x2 y _ _ (?&->&_)%list_elem_of_fmap (?&[= ]&_)%list_elem_of_fmap. done.
Qed.

Lemma length_texels r :
  0 <= DirtyRect.w r -> 0 <= DirtyRect.h r ->
  Z.of_nat (length (texels r)) = DirtyRect.w r * DirtyRect.h r.
Proof.
  intros Hw Hh. unfold texels. generalize (DirtyRect.x r). revert Hw. generalize (DirtyRect.w r).
  apply (natlike_ind (λ w, forall x, Z.of_nat (length (seqZ x w ≫= _)) = w * _)); [done|].
  intros w Hw IH x. rewrite (seqZ_cons x) by lia. csimpl.
  rewrite length_app, length_fmap, length_seqZ, Nat2Z.inj_add, Z.pred_succ, IH. lia.
Qed.

Lemma length_all_texels rs :
  clamped rs -> Z.of_nat (length (rs ≫= texels)) = area rs.
Proof.
  induction rs as [|r rs IH]; intros Hc; csimpl; [done|].
  destruct (Hc r ltac:(left)) as (?&?&?&?&?&?).
  rewrite length_app, Nat2Z.inj_add, length_texels, IH by (try lia; intros ? ?; apply Hc; by right). done.
Qed.

Lemma area_reaches rs : clamped rs -> all_written rs -> lw * lh <= area rs.
Proof.
  intros Hc Hw. rewrite <- length_all_texels by done.
  pose proof (length_texels (DirtyRect.full lw lh)) as El. simpl in El. rewrite <- El by lia.
  apply Nat2Z.inj_le, submseteq_length, NoDup_submseteq; [apply NoDup_texels|].
  intros [px py] Hp%elem_of_texels. destruct (Hw px py) as (r & Hr & Hcov); [done|].
  apply list_elem_of_bind. exists r. split; [by apply elem_of_texels|done].
Qed.

(** ** The tracker against the writes it has seen *)

Inductive op := Write (r : DirtyRect.t) | MarkFull | Reset.

Definition op_ok (o : op) : Prop := match o with Write r => rect_ok r | _ => True end.

(** The tracker and, beside it, every write since the last reset. *)
Definition exec (s : StagingCoverage.t * list DirtyRect.t) (o : op) : StagingCoverage.t * list DirtyRect.t :=
  let '(c, g) := s in
  match o with
  | Write r => (StagingCoverage.add c r lw lh, r :: g)
  | MarkFull => (StagingCoverage.mark_full c, DirtyRect.full lw lh :: g)
  | Reset => (StagingCoverage.reset c, [])
  end.

Definition run (ops : list op) : StagingCoverage.t * list DirtyRect.t :=
  foldl exec (StagingCoverage.new, []) ops.

(** What a state of the tracker says of the writes [g]. *)
Definition tracks (c : StagingCoverage.t) (g : list DirtyRect.t) : Prop :=
  match StagingCoverage.state c with
  | Full => all_written g
  | Untracked => (MAX_TRACKED_RECTS < length g)%nat
  | Partial =>
    clamped (StagingCoverage.rects c) /\ ~ all_written g
    /\ (forall px py, in_level px py -> written (StagingCoverage.rects c) px py <-> written g px py)
    /\ (length (StagingCoverage.rects c) <= length g)%nat
    /\ StagingCoverage.written_area c = Z.min u64_max (area (StagingCoverage.rects c))
  end.

Lemma written_cons r g px py : written (r :: g) px py <-> covers r px py \/ written g px py.
Proof. unfold written. set_solver. Qed.

Lemma written_app a b px py : written (a ++ b) px py <-> written a px py \/ written b px py.
Proof. unfold written. set_solver. Qed.

Lemma written_one r px py : written [r] px py <-> covers r px py.
Proof. unfold written. set_solver. Qed.

Lemma all_written_cons r g : all_written g -> all_written (r :: g).
Proof. intros H px py Hp. apply written_cons. right. by apply H. Qed.

Lemma all_written_ext a b :
  (forall px py, in_level px py -> written a px py <-> written b px py) -> all_written a -> all_written b.
Proof. intros H Ha px py Hp. by apply H, Ha. Qed.

Lemma clamp_texels r mw mh r' px py :
  rect_ok r -> is_u32 mw -> is_u32 mh -> DirtyRect.clamp r mw mh = Some r' ->
  px < mw -> py < mh -> covers r' px py <-> covers r px py.
Proof.
  intros Hr Hmw Hmh Hcl Hpx Hpy. apply clamp_Some in Hcl as (_ & Ex & Ey & Ew & Eh); [|done..].
  unfold covers. rewrite Ex, Ey, Ew, Eh. lia.
Qed.

Lemma level_u32 : is_u32 lw /\ is_u32 lh.
Proof. unfold is_u32. lia. Qed.

Lemma contains_covers outer inner px py :
  inside outer lw lh -> inside inner lw lh -> contains outer inner = true ->
  covers inner px py -> covers outer px py.
Proof.
  intros Ho Hi. unfold contains. destruct (edges_exact _ Ho) as [-> ->], (edges_exact _ Hi) as [-> ->].
  intros ?. reflect_cmp. unfold covers. lia.
Qed.

Lemma area_nonneg rs : clamped rs -> 0 <= area rs.
Proof.
  intros Hc. rewrite <- length_all_texels by done. lia.
Qed.

Lemma area_snoc rs r : area (rs ++ [r]) = area rs + DirtyRect.w r * DirtyRect.h r.
Proof. induction rs as [|a rs IH]; simpl; [lia|]. rewrite IH. lia. Qed.

Lemma tracks_skip c g r :
  (forall px py, in_level px py -> covers r px py -> StagingCoverage.state c = Partial -> written g px py) ->
  tracks c g -> tracks c (r :: g).
Proof.
  intros Hskip. unfold tracks. destruct (StagingCoverage.state c); simpl; [|apply all_written_cons|lia].
  intros (Hc & Hn & Hu & Hl & Ha).
  assert (He : forall px py, in_level px py -> written (r :: g) px py <-> written g px py).
  { intros px py Hp. rewrite written_cons. naive_solver. }
  split_and!; [done| |intros px py Hp; by rewrite He, Hu|lia|done].
  intros Hall. apply Hn. by eapply all_written_ext.
Qed.

(** The sweep and its area gate together decide coverage of clamped rects. *)
Lemma gate_iff rs wa :
  clamped rs -> wa = Z.min u64_max (area rs) ->
  ((lw *% lh)%u64 <=? wa) && covers_level rs lw lh = true <-> all_written rs.
Proof.
  intros Hc ->. rewrite wrap64_small by (unfold is_u64, u64_max, u32_max in *; nia).
  rewrite andb_true_iff, Z.leb_le. split.
  - intros [_ ?]. by apply covers_level_sound.
  - intros Hw. split; [|by apply covers_level_complete].
    pose proof (area_reaches rs Hc Hw). unfold u64_max, u32_max in *. nia.
Qed.

Lemma inside_area r : inside r lw lh -> 0 <= DirtyRect.w r * DirtyRect.h r <= u64_max.
Proof. intros (?&?&?&?&?&?). unfold u64_max, u32_max in *. nia. Qed.

(** Recording a rect nothing contains, then testing for full coverage. *)
Lemma push_tracks c g r r' :
  StagingCoverage.state c = Partial -> tracks c g -> inside r' lw lh ->
  (forall px py, in_level px py -> covers r' px py <-> covers r px py) ->
  let c' := StagingCoverage.mk (StagingCoverage.rects c ++ [r'])
  (StagingCoverage.written_area c +| (DirtyRect.w r' *% DirtyRect.h r'))%u64 (StagingCoverage.state c) in
  tracks (if ((lw *% lh)%u64 <=? StagingCoverage.written_area c')
 && covers_level (StagingCoverage.rects c') lw lh
  then StagingCoverage.mark_full c' else c') (r :: g).
Proof.
  intros Est Ht Hin Hcov c'. unfold tracks in Ht. rewrite Est in Ht.
  destruct Ht as (Hc & Hn & Hu & Hl & Ha).
  assert (Hc' : clamped (StagingCoverage.rects c')).
  { intros s Hs. apply elem_of_app in Hs as [?|Hs]; [by apply Hc|].
    apply list_elem_of_singleton in Hs as ->. done. }
  assert (Hu' : forall px py, in_level px py ->
  written (StagingCoverage.rects c') px py <-> written (r :: g) px py).
  { intros px py Hp. simpl. rewrite written_app, written_one, written_cons, Hu, Hcov by done. tauto. }
  assert (Ha' : StagingCoverage.written_area c' = Z.min u64_max (area (StagingCoverage.rects c'))).
  { simpl. rewrite area_snoc, Ha. pose proof (area_nonneg _ Hc). pose proof (inside_area _ Hin).
    rewrite wrap64_small by done. unfold sat. lia. }
  pose proof (gate_iff _ _ Hc' Ha') as Hgate.
  destruct (_ && _) eqn:E.
  - unfold tracks; simpl. apply (all_written_ext _ _ Hu'), Hgate. done.
  - unfold tracks. replace (StagingCoverage.state c') with Partial by done.
    split_and!; [done| |done| |done].
    + intros Hall. assert (Hf : false = true) by (apply Hgate, (all_written_ext (r :: g)); [|done];
      intros; by rewrite Hu'). done.
    + simpl. rewrite length_app; simpl. lia.
Qed.

(** One write keeps the tracker's claim. *)
Lemma add_tracks c g r :
  rect_ok r -> tracks c g -> tracks (StagingCoverage.add c r lw lh) (r :: g).
Proof.
  intros Hr Ht. destruct level_u32 as [Ulw Ulh]. unfold StagingCoverage.add.
  destruct (DirtyRect.clamp r lw lh) as [r'|] eqn:Ecl.
  2:{ rewrite clamp_None in Ecl by done. apply tracks_skip; [|done].
    intros px py [] ?. exfalso. apply (Ecl px py). split_and!; [done|lia..]. }
  destruct (clamp_Some _ _ _ _ Hr Ulw Ulh Ecl) as (Hin & _).
  assert (Hcov : forall px py, in_level px py -> covers r' px py <-> covers r px py)
  by (intros px py [??]; apply (clamp_texels _ lw lh); [done..|lia|lia]).
  destruct (_ && _ && _ && _) eqn:Efull.
  { reflect_cmp. unfold tracks; simpl. intros px py Hp. apply written_cons. left. apply Hcov; [done|].
    destruct Hp. unfold covers. lia. }
  destruct (bool_decide_reflect (StagingCoverage.state c = Partial)) as [Est|Est]; simpl.
  2:{ apply tracks_skip; [done|done]. }
  destruct (existsb _ _) eqn:Eex.
  { apply existsb_exists in Eex as (o & Ho & Hcon). rewrite <- list_elem_of_In in Ho.
    apply tracks_skip; [|done]. intros px py Hp Hpr _. unfold tracks in Ht. rewrite Est in Ht.
    destruct Ht as (Hc & _ & Hu & _). apply Hu; [done|]. exists o. split; [done|].
    apply (contains_covers o r'); [by apply Hc|done..|]. by apply Hcov. }
  case_bool_decide as Elen; [|by apply push_tracks].
  unfold tracks in *; simpl. rewrite Est in Ht. destruct Ht as (_ & _ & _ & ? & _). lia.
Qed.

Lemma run_tracks ops :
  Forall op_ok ops -> tracks (fst (run ops)) (snd (run ops)).
Proof.
  unfold run. induction ops as [|o ops IH] using rev_ind; intros Hok.
  - unfold tracks; simpl. split_and!; [by intros ? ?%elem_of_nil| |done|done|done].
    intros Hw. destruct (Hw 0 0) as (? & ?%elem_of_nil & _); [unfold in_level; lia|done].
  - apply Forall_app in Hok as [Hok Ho]. rewrite Forall_singleton in Ho. specialize (IH Hok).
    rewrite foldl_app. simpl. destruct (foldl _ _ _) as [c g]. destruct o as [r| |]; simpl in *.
    + by apply add_tracks.
    + unfold tracks; simpl. intros px py Hp. apply written_cons. left. apply Hp.
    + unfold tracks; simpl. split_and!; [by intros ? ?%elem_of_nil| |done|done|done].
      intros Hw. destruct (Hw 0 0) as (? & ?%elem_of_nil & _); [unfold in_level; lia|done].
Qed.

End Level.

(** C36: over any sequence of writes, whole-level writes and resets on a level,
    the tracker is exact: it reports the level full only when the writes since
    the last reset cover every texel of it, reports it partial only when some
    texel is still unwritten, and stops answering only past
    [MAX_TRACKED_RECTS] writes. *)
Theorem coverage_exact lw lh ops :
  0 < lw <= u32_max -> 0 < lh <= u32_max -> Forall op_ok ops ->
  let '(c, g) := run lw lh ops in
  (StagingCoverage.is_full c = true -> all_written lw lh g)
  /\ (StagingCoverage.state c = Partial -> ~ all_written lw lh g)
  /\ (StagingCoverage.state c = Untracked -> (MAX_TRACKED_RECTS < length g)%nat).
Proof.
  intros Hlw Hlh Hok. pose proof (run_tracks lw lh Hlw Hlh ops Hok) as Ht.
  destruct (run lw lh ops) as [c g]. unfold tracks, StagingCoverage.is_full in *; simpl in *.
  destruct (StagingCoverage.state c); naive_solver.
Qed.

Definition two_halves : list op :=
  [Write (DirtyRect.mk 0 0 8 3); Write (DirtyRect.mk 0 3 5 5); Write (DirtyRect.mk 4 2 9 9)].

Lemma coverage_exact_witness :
  StagingCoverage.is_full (fst (run 8 8 two_halves)) = true
  /\ all_written 8 8 (snd (run 8 8 two_halves)).
Proof.
  split; [reflexivity|].
  pose proof (coverage_exact 8 8 two_halves ltac:(unfold u32_max; lia) ltac:(unfold u32_max; lia)
    ltac:(repeat constructor; unfold is_u32, u32_max; simpl; lia)) as H.
  exact (proj1 H eq_refl).
Defined.

(** The band sweep answers [true] exactly when the union of the clamped
    rects covers the level. *)
Theorem covers_level_iff lw lh rs :
  0 < lw <= u32_max -> 0 < lh <= u32_max -> clamped lw lh rs ->
  covers_level rs lw lh = true <-> all_written lw lh rs.
Proof.
  intros. split; [by apply covers_level_sound|by apply covers_level_complete].
Qed.

Lemma covers_level_iff_witness :
  all_written 8 8 [DirtyRect.mk 0 0 4 8; DirtyRect.mk 4 0 4 3; DirtyRect.mk 4 3 4 5].
Proof.
  apply (proj1 (covers_level_iff 8 8
    [DirtyRect.mk 0 0 4 8; DirtyRect.mk 4 0 4 3; DirtyRect.mk 4 3 4 5]
    ltac:(unfold u32_max; lia) ltac:(unfold u32_max; lia)
    ltac:(intros r Hr; repeat (apply elem_of_cons in Hr as [->|Hr]; [unfold inside; simpl; lia|]);
          by apply elem_of_nil in Hr))).
  reflexivity.
Defined.
