(* ===== verification/UploadSnapshot.v ===== *)
(** [upload_snapshot.rs]: the arena of upload snapshots, its bump cursor and
    its queue of full chunks, and that a snapshot keeps its bytes for as long
    as an upload reads it. *)

From S2P Require Import Prelude PageBox.

Definition CHUNK_BYTES : Z := 256 * 1024.
Definition SNAPSHOT_MAX_BYTES : Z := CHUNK_BYTES.
Definition MAX_CHUNKS : nat := 64.
Definition SNAPSHOT_ALIGN : Z := 16.

(** A snapshot: the chunk its published read holds, and its offset in it. *)
Record UploadSnapshot := mkUploadSnapshot { sn_read : Z; sn_offset : Z }.

Record Chunk := mkChunk { pages : Z; last_seq : Z }.

(** What the arena's operations run against: the shared boxes and the
    allocator's counters. *)
Record Mem := mkMem { m_pages : Pages; m_statics : Statics }.

Definition box_has_readers (m : Mem) (id : Z) : bool :=
  match m_pages m !! id with Some pb => has_readers pb | None => false end.

Module UploadSnapshots.

Record t := mk { active : option Chunk; cursor : Z; full : list Chunk; waited_through : Z }.

Definition new : t := mk None 0 [] 0.

Definition chunk_count (a : t) : nat :=
  length (full a) + match active a with Some _ => 1 | None => 0 end.

Definition held_bytes (m : Mem) (a : t) : Z :=
  foldr (λ c acc, match m_pages m !! pages c with Some pb => pb_len pb | None => 0 end + acc)
    0 (option_list (active a) ++ full a).

Definition note_wait (a : t) (seq : Z) : t :=
  mk (active a) (cursor a) (full a) (Z.max (waited_through a) seq).

Definition wait_target (m : Mem) (a : t) : option Z :=
  if bool_decide (chunk_count a < MAX_CHUNKS)%nat then None
  else
    oldest ← head (full a);
    if box_has_readers m (pages oldest) && (waited_through a <? last_seq oldest)
    then Some (last_seq oldest) else None.

Section Alloc.
(** The build's word size, and what the allocator answers for a padded size. *)
Context (usize_bits : Z) (heap : Z -> option (Z -> Z)).

(** The front chunk of the queue may start over. *)
Definition front_free (m : Mem) (q : list Chunk) : bool :=
  match q with front :: _ => negb (box_has_readers m (pages front)) | [] => false end.

Definition room_for (m : Mem) (a : t) (len : Z) : option Z * t * Mem :=
  let start := div_ceil (cursor a) SNAPSHOT_ALIGN * SNAPSHOT_ALIGN in
  if bool_decide (is_Some (active a)) && (start + len <=? CHUNK_BYTES) then (Some start, a, m)
  else
  let q := full a ++ option_list (active a) in
  let parked := mk None (cursor a) q (waited_through a) in
  if front_free m q then (Some 0, mk (head q) 0 (tail q) (waited_through a), m)
  else if bool_decide (chunk_count parked < MAX_CHUNKS)%nat then
  match try_new_zeroed usize_bits heap (m_statics m) CHUNK_BYTES with
  | None => (None, parked, m)
  | Some (pb, st) =>
    (Some 0, mk (Some (mkChunk (pb_generation pb) 0)) 0 q (waited_through a),
 mkMem (<[pb_generation pb := pb]> (m_pages m)) st)
  end
  else (None, parked, m).

(** The rest of [write] once [room_for] placed the request at [start].
[fill] gets the destination slice and answers whether it filled it, with
what the slice holds after.  The outer [None] is the panic of an exhausted
reader count. *)
Definition place (m : Mem) (a : t) (start len seq : Z) (fill : (Z -> Z) -> bool * (Z -> Z))
  : option (option UploadSnapshot * t * Mem) :=
  if u32_max <? start then Some (None, a, m)
  else
  match active a with
  | None => Some (None, a, m)
  | Some chunk =>
    pb ← m_pages m !! pages chunk;
    let '(filled, bytes) := fill (λ i, pb_bytes pb (start + i)) in
    let pgs := <[pages chunk := copy_into pb start bytes 0 len]> (m_pages m) in
    if filled then
    pgs ← read_new pgs (pages chunk);
    Some (Some (mkUploadSnapshot (pages chunk) start),
  mk (Some (mkChunk (pages chunk) seq)) (start + len) (full a) (waited_through a),
  mkMem pgs (m_statics m))
    else Some (None, a, mkMem pgs (m_statics m))
  end.

Definition write (m : Mem) (a : t) (len seq : Z) (fill : (Z -> Z) -> bool * (Z -> Z))
  : option (option UploadSnapshot * t * Mem) :=
  if (len =? 0) || (SNAPSHOT_MAX_BYTES <? len) then Some (None, a, m)
  else
  match room_for m a len with
  | (None, a, m) => Some (None, a, m)
  | (Some start, a, m) => place m a start len seq fill
  end.

End Alloc.
End UploadSnapshots.

(** ** Arena, memory and the snapshots uploads still read *)

(** Byte [i] of a snapshot, as an upload reads it now. *)
Definition snap_byte (m : Mem) (s : UploadSnapshot) (i : Z) : Z :=
  match m_pages m !! sn_read s with Some pb => pb_bytes pb (sn_offset s + i) | None => 0 end.

(** A live snapshot: where it is, its length and what it held when written. *)
Record Live := mkLive { lv_snap : UploadSnapshot; lv_len : Z; lv_bytes : Z -> Z }.

Record World := mkWorld { w_arena : UploadSnapshots.t; w_mem : Mem; w_live : list Live }.

Section Steps.
Context (usize_bits : Z).

(** A write whose allocator answers [heap]; a read ending; a wait noted.  The
64-bit allocation counter does not wrap. *)
Inductive step : World -> World -> Prop :=
  | step_write heap a m live len seq fill res a' m' :
  0 <= len -> last_generation (m_statics m) < u64_max ->
  UploadSnapshots.write usize_bits heap m a len seq fill = Some (res, a', m') ->
  step (mkWorld a m live)
  (mkWorld a' m' (match res with
 | Some s => mkLive s len (snap_byte m' s) :: live
 | None => live end))
  | step_done a m l1 v l2 :
  step (mkWorld a m (l1 ++ v :: l2))
  (mkWorld a (mkMem (read_drop (m_pages m) (sn_read (lv_snap v))) (m_statics m)) (l1 ++ l2))
  | step_wait a m live seq :
  step (mkWorld a m live) (mkWorld (UploadSnapshots.note_wait a seq) m live).

Definition init (w : World) : Prop :=
  w_arena w = UploadSnapshots.new /\ w_live w = []
  /\ 0 <= last_generation (m_statics (w_mem w)) <= u64_max
  /\ forall id, is_Some (m_pages (w_mem w) !! id) -> id <= last_generation (m_statics (w_mem w)).

Definition reads (id : Z) (v : Live) : Prop := sn_read (lv_snap v) = id.
#[global] Instance reads_dec id v : Decision (reads id v).
Proof. unfold reads. apply _. Defined.

Definition readers_of (live : list Live) (id : Z) : Z := Z.of_nat (length (filter (reads id) live)).

Definition chunks (a : UploadSnapshots.t) : list Chunk :=
  option_list (UploadSnapshots.active a) ++ UploadSnapshots.full a.

Definition live_ok (a : UploadSnapshots.t) (m : Mem) (v : Live) : Prop :=
  0 <= sn_offset (lv_snap v) /\ sn_offset (lv_snap v) mod SNAPSHOT_ALIGN = 0
  /\ 0 <= lv_len v /\ sn_offset (lv_snap v) + lv_len v <= CHUNK_BYTES
  /\ sn_read (lv_snap v) ∈ pages <$> chunks a
  /\ forall i, 0 <= i < lv_len v -> snap_byte m (lv_snap v) i = lv_bytes v i.

Record inv (a : UploadSnapshots.t) (m : Mem) (live : list Live) : Prop := {
  i_nodup : NoDup (pages <$> chunks a);
  i_store : forall id, id ∈ pages <$> chunks a ->
  exists pb, m_pages m !! id = Some pb /\ pb_readers pb = readers_of live id /\ pb_readers pb <= u32_max;
  i_live : forall v, v ∈ live -> live_ok a m v;
  i_cursor : 0 <= UploadSnapshots.cursor a;
  i_active : forall c v, UploadSnapshots.active a = Some c -> v ∈ live -> reads (pages c) v ->
  sn_offset (lv_snap v) + lv_len v <= UploadSnapshots.cursor a;
  i_count : (UploadSnapshots.chunk_count a <= MAX_CHUNKS)%nat;
  i_gen : 0 <= last_generation (m_statics m) <= u64_max;
  i_ids : forall id, is_Some (m_pages m !! id) -> id <= last_generation (m_statics m);
}.

Lemma chunks_active c cur q wt : chunks (UploadSnapshots.mk (Some c) cur q wt) = c :: q.
Proof. done. Qed.

Lemma chunk_count_chunks a : UploadSnapshots.chunk_count a = length (chunks a).
Proof.
  unfold UploadSnapshots.chunk_count, chunks. rewrite length_app.
  destruct (UploadSnapshots.active a); simpl; lia.
Qed.

Lemma readers_of_zero live id : readers_of live id = 0 <-> forall v, v ∈ live -> ~ reads id v.
Proof.
  unfold readers_of. split.
  - intros H v Hv Hr. assert (v ∈ filter (reads id) live) by (by apply list_elem_of_filter).
    destruct (filter (reads id) live); [by apply elem_of_nil in H0|simpl in H; lia].
  - intros H. destruct (filter (reads id) live) as [|v l] eqn:E; [done|].
    assert (Hv : v ∈ filter (reads id) live) by (rewrite E; left).
    apply list_elem_of_filter in Hv as [??]. by destruct (H v).
Qed.

(** Reordering the chunks of the arena keeps what only looks at their set. *)
Lemma live_ok_perm a a' m v : chunks a ≡ₚ chunks a' -> live_ok a m v -> live_ok a' m v.
Proof. intros Hp (?&?&?&?&Hin&?). unfold live_ok. rewrite <- Hp. done. Qed.

(** Parking the active chunk, or starting the front chunk over. *)
Lemma inv_moved a a' m live :
  inv a m live -> chunks a ≡ₚ chunks a' -> 0 <= UploadSnapshots.cursor a' ->
  (forall c v, UploadSnapshots.active a' = Some c -> v ∈ live -> ~ reads (pages c) v) ->
  inv a' m live.
Proof.
  intros [] Hp Hc Ha. split; try done.
  - by rewrite <- Hp.
  - intros id. rewrite <- Hp. auto.
  - intros v Hv. eapply live_ok_perm; [done|auto].
  - intros c v Hac Hv Hr. by destruct (Ha c v).
  - rewrite chunk_count_chunks in *. by rewrite <- Hp.
Qed.

Lemma try_new_zeroed_box heap st n pb st' :
  try_new_zeroed usize_bits heap st n = Some (pb, st') ->
  pb_generation pb = wrap64 (last_generation st + 1) /\ pb_readers pb = 0
  /\ last_generation st' = wrap64 (last_generation st + 1).
Proof.
  unfold try_new_zeroed. destruct (try_layout_for _ _); [simpl|done]. destruct (heap _); [simpl|done].
  by intros [= <- <-].
Qed.

(** A fresh chunk joins the arena. *)
Lemma inv_fresh a m live heap pb st q wt :
  inv a m live -> last_generation (m_statics m) < u64_max ->
  try_new_zeroed usize_bits heap (m_statics m) CHUNK_BYTES = Some (pb, st) ->
  chunks a ≡ₚ q -> (length q < MAX_CHUNKS)%nat ->
  inv (UploadSnapshots.mk (Some (mkChunk (pb_generation pb) 0)) 0 q wt)
  (mkMem (<[pb_generation pb := pb]> (m_pages m)) st) live.
Proof.
  intros [] Hg (Eg & Er & Es)%try_new_zeroed_box Hq Hlen.
  rewrite wrap64_small in * by (unfold is_u64; lia).
  assert (Hnew : forall id, id ∈ pages <$> chunks a -> id <> pb_generation pb).
  { intros id Hid ->. destruct (i_store0 _ Hid) as (pb' & E & _).
    assert (pb_generation pb <= last_generation (m_statics m)) by (apply i_ids0; by eexists). lia. }
  assert (Hnl : forall v, v ∈ live -> sn_read (lv_snap v) <> pb_generation pb).
  { intros v Hv. apply Hnew, i_live0, Hv. }
  assert (Hq' : forall id, id ∈ pages <$> q <-> id ∈ pages <$> chunks a) by (intros; by rewrite Hq).
  split; unfold live_ok; rewrite ?chunks_active; cbn [UploadSnapshots.cursor UploadSnapshots.active m_pages m_statics].
  - rewrite fmap_cons, NoDup_cons. split; [|by rewrite <- Hq]. intros Hin. apply Hq', Hnew in Hin. done.
  - intros id. rewrite fmap_cons, elem_of_cons, Hq'. intros [->|Hid]; simpl.
    + rewrite lookup_insert_eq. exists pb. split; [done|]. rewrite Er. split; [|done].
      symmetry. apply readers_of_zero. intros v Hv. by apply Hnl.
    + rewrite lookup_insert_ne by (symmetry; by apply Hnew). auto.
  - intros v Hv. destruct (i_live0 v Hv) as (?&?&?&?&Hin&Hb). split_and!; try done.
    + rewrite fmap_cons. right. by rewrite Hq'.
    + intros i Hi. rewrite <- Hb by done. unfold snap_byte; simpl.
      rewrite lookup_insert_ne; [done|]. symmetry. by apply Hnl.
  - done.
  - intros c v [= <-] Hv Hr. by destruct (Hnl v Hv).
  - unfold UploadSnapshots.chunk_count; simpl. lia.
  - lia.
  - intros id [pb' Hid]. apply lookup_insert_Some in Hid as [[<- _]|[_ Hid]]; [lia|].
    assert (id <= last_generation (m_statics m)) by (apply i_ids0; by eexists). lia.
Qed.

(** Finding room keeps the invariant and hands out an aligned range of the
active chunk past everything live. *)
Lemma room_for_inv heap a m live len r a' m' :
  inv a m live -> last_generation (m_statics m) < u64_max -> 0 <= len <= CHUNK_BYTES ->
  UploadSnapshots.room_for usize_bits heap m a len = (r, a', m') ->
  inv a' m' live
  /\ forall start, r = Some start ->
 is_Some (UploadSnapshots.active a') /\ UploadSnapshots.cursor a' <= start
 /\ start mod SNAPSHOT_ALIGN = 0 /\ start + len <= CHUNK_BYTES.
Proof.
  intros Hinv Hg Hlen. unfold UploadSnapshots.room_for.
  destruct (bool_decide _ && _) eqn:E.
  { apply andb_true_iff in E as [Ha Hl]. apply bool_decide_eq_true in Ha. reflect_cmp.
    intros [= <- <- <-]. split; [done|]. intros start [= <-]. split_and!; try done.
    - pose proof (div_ceil_mul_ge (UploadSnapshots.cursor a) SNAPSHOT_ALIGN). unfold SNAPSHOT_ALIGN in *. lia.
    - apply Z_mod_mult. }
  clear E. set (q := UploadSnapshots.full a ++ option_list (UploadSnapshots.active a)).
  assert (Hq : chunks a ≡ₚ q) by (unfold chunks, q; apply Permutation_app_comm).
  set (parked := UploadSnapshots.mk None _ q _).
  assert (Hpk : inv parked m live).
  { apply (inv_moved a); [done|by unfold chunks, parked; simpl|apply Hinv|done]. }
  destruct (UploadSnapshots.front_free m q) eqn:Ef.
  { intros [= <- <- <-]. destruct q as [|front rest] eqn:Eq; [done|]. simpl in *.
    split; [|intros start [= <-]; simpl; split_and!; [by eexists|lia|done|lia]].
    apply (inv_moved a); [done|done|simpl; lia|]. intros c v [= <-] Hv.
    unfold box_has_readers in Ef.
    destruct (i_store _ _ _ Hinv (pages front)) as (pb & Hpb & Hr & _).
    { rewrite Hq. rewrite fmap_cons. left. }
    rewrite Hpb in Ef. unfold has_readers in Ef. reflect_cmp. rewrite Ef in Hr.
    symmetry in Hr. rewrite readers_of_zero in Hr. by apply Hr. }
  case_bool_decide as Ec; [|intros [= <- <- <-]; done].
  destruct (try_new_zeroed _ _ _ _) as [[pb st]|] eqn:En; [|intros [= <- <- <-]; done].
  intros [= <- <- <-]. split.
  - eapply inv_fresh; [done..|]. rewrite chunk_count_chunks in Ec. done.
  - intros start [= <-]. simpl. split_and!; [by eexists|lia|done|lia].
Qed.

(** Changing one chunk's box in a way live snapshots cannot see. *)
Lemma live_ok_box a m v id pb pb' st :
  m_pages m !! id = Some pb ->
  (forall i, reads id v -> 0 <= i < lv_len v ->
 pb_bytes pb' (sn_offset (lv_snap v) + i) = pb_bytes pb (sn_offset (lv_snap v) + i)) ->
  live_ok a m v -> live_ok a (mkMem (<[id := pb']> (m_pages m)) st) v.
Proof.
  intros Hpb Hb (?&?&?&?&?&Hi). split_and!; try done. intros i Hr. rewrite <- Hi by done.
  unfold snap_byte; simpl. destruct (decide (sn_read (lv_snap v) = id)) as [E|].
  - rewrite E, lookup_insert_eq, Hpb. by apply Hb.
  - by rewrite lookup_insert_ne.
Qed.

(** Bytes stored past the cursor of the active chunk. *)
Lemma inv_store_past a m live c pb start bytes len :
  inv a m live -> UploadSnapshots.active a = Some c -> m_pages m !! pages c = Some pb ->
  UploadSnapshots.cursor a <= start ->
  inv a (mkMem (<[pages c := copy_into pb start bytes 0 len]> (m_pages m)) (m_statics m)) live.
Proof.
  intros [] Hc Hpb Hs. split; try done; cbn [m_pages m_statics].
  - intros id Hid. destruct (decide (id = pages c)) as [->|].
    + rewrite lookup_insert_eq. eexists. split; [done|]. destruct (i_store0 _ Hid) as (pb' & E & ?&?).
      rewrite Hpb in E. by injection E as <-.
    + rewrite lookup_insert_ne by done. auto.
  - intros v Hv. eapply live_ok_box; [done| |auto]. intros i Hr Hi. rewrite copy_into_byte.
    specialize (i_active0 c v Hc Hv Hr). destruct (_ && _) eqn:E; [reflect_cmp; lia|done].
  - intros id [x Hid]. apply lookup_insert_Some in Hid as [[<- _]|[_ Hid]]; apply i_ids0; by eexists.
Qed.

Lemma readers_of_cons v live id :
  readers_of (v :: live) id = readers_of live id + (if decide (reads id v) then 1 else 0).
Proof.
  unfold readers_of. rewrite filter_cons. destruct (decide (reads id v)); simpl; lia.
Qed.

(** Publishing the read of a range past the cursor. *)
Lemma inv_publish a m live c pgs start len seq :
  inv a m live -> UploadSnapshots.active a = Some c -> read_new (m_pages m) (pages c) = Some pgs ->
  UploadSnapshots.cursor a <= start -> start mod SNAPSHOT_ALIGN = 0 -> 0 <= len ->
  start + len <= CHUNK_BYTES ->
  let m' := mkMem pgs (m_statics m) in
  let s := mkUploadSnapshot (pages c) start in
  inv (UploadSnapshots.mk (Some (mkChunk (pages c) seq)) (start + len) (UploadSnapshots.full a)
 (UploadSnapshots.waited_through a)) m' (mkLive s len (snap_byte m' s) :: live).
Proof.
  intros [] Hc Hrd Hst Hal Hlen Hfit m' s. unfold read_new in Hrd.
  destruct (m_pages m !! pages c) as [pb|] eqn:Hpb; [simpl in Hrd|done].
  destruct (checked _ _) as [n|] eqn:En; simpl in Hrd; [|done]. injection Hrd as <-.
  apply checked_Some in En as [-> En].
  assert (Hch : pages <$> chunks (UploadSnapshots.mk (Some (mkChunk (pages c) seq)) (start + len)
    (UploadSnapshots.full a) (UploadSnapshots.waited_through a)) = pages <$> chunks a)
  by (unfold chunks; rewrite Hc; done).
  assert (Hcin : pages c ∈ pages <$> chunks a) by (unfold chunks; rewrite Hc; left).
  split; cbn [m_pages m_statics UploadSnapshots.cursor]; rewrite ?Hch; try done.
  - intros id Hid. rewrite readers_of_cons. unfold reads; simpl.
    destruct (i_store0 _ Hid) as (pb' & E & Hr & Hmax). destruct (decide (pages c = id)) as [<-|].
    + rewrite lookup_insert_eq. eexists. split; [done|]. simpl. rewrite Hpb in E. injection E as <-. lia.
    + rewrite lookup_insert_ne by done. exists pb'. split; [done|lia].
  - intros v [->|Hv]%elem_of_cons.
    + unfold live_ok. rewrite Hch. simpl. split_and!; try done. lia.
    + eapply live_ok_box; [done|done|]. specialize (i_live0 v Hv). unfold live_ok in *. by rewrite Hch.
  - lia.
  - intros c' v [= <-] [->|Hv]%elem_of_cons Hr; simpl in *; [lia|].
    specialize (i_active0 c v Hc Hv Hr). lia.
  - intros. rewrite chunk_count_chunks in *. apply (f_equal length) in Hch. rewrite !length_fmap in Hch. lia.
  - intros id [x Hid]. simpl in Hid. apply lookup_insert_Some in Hid as [[<- _]|[_ Hid]]; apply i_ids0; by eexists.
Qed.

Lemma write_inv heap a m live len seq fill res a' m' :
  inv a m live -> 0 <= len -> last_generation (m_statics m) < u64_max ->
  UploadSnapshots.write usize_bits heap m a len seq fill = Some (res, a', m') ->
  inv a' m' (match res with Some s => mkLive s len (snap_byte m' s) :: live | None => live end).
Proof.
  intros Hinv Hlen Hg. unfold UploadSnapshots.write.
  destruct (_ || _) eqn:E; [by intros [= <- <- <-]|]. reflect_cmp. unfold SNAPSHOT_MAX_BYTES in *.
  destruct (UploadSnapshots.room_for _ _ _ _ _) as [[r a1] m1] eqn:Er.
  eapply room_for_inv in Er as [Hinv1 Hstart]; [|done|done|lia].
  destruct r as [start|]; [|by intros [= <- <- <-]].
  destruct (Hstart start eq_refl) as ([c Hc] & Hcur & Hal & Hfit).
  unfold UploadSnapshots.place.
  destruct (u32_max <? start); [by intros [= <- <- <-]|]. rewrite Hc.
  destruct (m_pages m1 !! pages c) as [pb|] eqn:Hpb; [simpl|done].
  destruct (fill _) as [filled bytes].
  pose proof (inv_store_past _ _ _ _ _ start bytes len Hinv1 Hc Hpb Hcur) as Hinv2.
  destruct filled; [|by intros [= <- <- <-]].
  destruct (read_new _ _) as [pgs|] eqn:Hrd; [simpl|done]. intros [= <- <- <-].
  by apply (inv_publish _ _ _ _ _ _ _ _ Hinv2 Hc Hrd).
Qed.

Lemma readers_of_split l1 v l2 id :
  readers_of (l1 ++ v :: l2) id = readers_of (l1 ++ l2) id + (if decide (reads id v) then 1 else 0).
Proof.
  unfold readers_of. rewrite !filter_app, !length_app, filter_cons.
  destruct (decide (reads id v)); simpl; lia.
Qed.

Lemma drop_inv a m l1 v l2 :
  inv a m (l1 ++ v :: l2) ->
  inv a (mkMem (read_drop (m_pages m) (sn_read (lv_snap v))) (m_statics m)) (l1 ++ l2).
Proof.
  intros []. destruct (i_live0 v) as (_&_&_&_&Hin&_); [set_solver|].
  unfold read_drop. destruct (i_store0 _ Hin) as (pb & Hpb & _). rewrite Hpb.
  split; try done; cbn [m_pages m_statics].
  - intros id Hid. destruct (i_store0 _ Hid) as (pb' & E & Hr & Hmax). rewrite readers_of_split in Hr.
    unfold reads in *. destruct (decide (sn_read (lv_snap v) = id)) as [<-|].
    + rewrite lookup_insert_eq. eexists. split; [done|]. simpl. rewrite Hpb in E. injection E as <-.
      assert (0 <= readers_of (l1 ++ l2) (sn_read (lv_snap v))) by (unfold readers_of; lia).
      rewrite wrap32_small by (unfold is_u32; lia). lia.
    + rewrite lookup_insert_ne by done. exists pb'. split; [done|lia].
  - intros w Hw. eapply live_ok_box; [done|done|]. apply i_live0. set_solver.
  - intros c w Hc Hw. apply i_active0; [done|]. set_solver.
  - intros id [x Hid]. apply lookup_insert_Some in Hid as [[<- _]|[_ Hid]]; apply i_ids0; by eexists.
Qed.

Lemma step_inv w w' :
  inv (w_arena w) (w_mem w) (w_live w) -> step w w' -> inv (w_arena w') (w_mem w') (w_live w').
Proof.
  intros Hinv Hs. destruct Hs as [heap a m live len seq fill res a' m' Hlen Hg Hw|a m l1 v l2|a m live seq];
  simpl in *.
  - by eapply write_inv.
  - by apply drop_inv.
  - destruct Hinv. by split.
Qed.

Lemma reachable_inv w w' : init w -> rtc step w w' -> inv (w_arena w') (w_mem w') (w_live w').
Proof.
  intros (Ea & El & Hg & Hids) Hr.
  assert (Hinv : inv (w_arena w) (w_mem w) (w_live w)).
  { rewrite Ea, El. split; try done.
    - constructor.
    - intros id Hid. by apply elem_of_nil in Hid.
    - intros v Hv. by apply elem_of_nil in Hv.
    - unfold UploadSnapshots.chunk_count, MAX_CHUNKS; simpl. lia. }
  clear Ea El Hg Hids. induction Hr as [|x y z Hs _ IH]; [done|]. by apply IH, (step_inv x).
Qed.

End Steps.

(** C34: the snapshot arena never overwrites bytes an upload still reads.
    After any interleaving of snapshot writes (whatever the allocator answers
    and whatever the copies do), finished reads and waits, every snapshot not
    yet released lies inside one chunk at an aligned offset and still holds the
    bytes written into it, and the arena holds at most [MAX_CHUNKS] chunks. *)
Theorem snapshots_intact usize_bits w w' :
  init w -> rtc (step usize_bits) w w' ->
  (UploadSnapshots.chunk_count (w_arena w') <= MAX_CHUNKS)%nat
  /\ forall v, v ∈ w_live w' ->
       0 <= sn_offset (lv_snap v) /\ sn_offset (lv_snap v) mod SNAPSHOT_ALIGN = 0
       /\ sn_offset (lv_snap v) + lv_len v <= CHUNK_BYTES
       /\ forall i, 0 <= i < lv_len v -> snap_byte (w_mem w') (lv_snap v) i = lv_bytes v i.
Proof.
  intros Hi Hr. destruct (reachable_inv _ _ _ Hi Hr). split; [done|].
  intros v Hv. destruct (i_live0 v Hv) as (?&?&?&?&_&?). done.
Qed.

(** Two snapshots of one chunk, the first released before a third is taken. *)
Definition no_pages : Mem := mkMem ∅ (mkStatics 0 0).
Definition zeros (_ : Z) : option (Z -> Z) := Some (fun _ => 0).
Definition w0 : World := mkWorld UploadSnapshots.new no_pages [].

Definition fill_with (b : Z) (_ : Z -> Z) : bool * (Z -> Z) := (true, fun _ => b).

Definition do_write (w : World) (len seq b : Z) : World :=
  match UploadSnapshots.write 32 zeros (w_mem w) (w_arena w) len seq (fill_with b) with
  | Some (Some s, a, m) => mkWorld a m (mkLive s len (snap_byte m s) :: w_live w)
  | Some (None, a, m) => mkWorld a m (w_live w)
  | None => w
  end.

Lemma do_write_step w len seq b :
  0 <= len -> last_generation (m_statics (w_mem w)) < u64_max -> rtc (step 32) w (do_write w len seq b).
Proof.
  intros Hlen Hg. unfold do_write. destruct (UploadSnapshots.write _ _ _ _ _ _ _) as [[[r a] m]|] eqn:E;
    [|done]. apply rtc_once. destruct w as [wa wm wl].
  pose proof (step_write 32 zeros wa wm wl len seq (fill_with b) r a m Hlen Hg E) as Hs.
  by destruct r.
Qed.

Definition w1 : World := do_write (do_write w0 100 1 7) 50 1 8.

Lemma snapshots_intact_witness :
  length (w_live w1) = 2%nat
  /\ forall v, v ∈ w_live w1 ->
       forall i, 0 <= i < lv_len v -> snap_byte (w_mem w1) (lv_snap v) i = lv_bytes v i.
Proof.
  split; [vm_compute; reflexivity|].
  assert (Hi : init w0) by (split_and!; [done|done|done|done|]; intros id [? H]; done).
  assert (Hr : rtc (step 32) w0 w1).
  { unfold w1. etransitivity; apply do_write_step; try lia; vm_compute; done. }
  intros v Hv i Hi'. apply (snapshots_intact 32 w0 w1 Hi Hr); done.
Defined.

(** A request placed in an active chunk, with a copy that succeeds, is taken. *)
Lemma place_taken a m start len seq fill a' m' :
  is_Some (UploadSnapshots.active a) -> start <= CHUNK_BYTES ->
  (forall slice, fst (fill slice) = true) ->
  UploadSnapshots.place m a start len seq fill <> Some (None, a', m').
Proof.
  intros [c Hc] Hs Hf. unfold UploadSnapshots.place.
  destruct (u32_max <? start) eqn:E; [reflect_cmp; unfold CHUNK_BYTES, u32_max in *; lia|].
  rewrite Hc. destruct (m_pages m !! _) as [pb|]; [simpl|done].
  specialize (Hf (λ i, pb_bytes pb (start + i))). destruct (fill _) as [[] ?]; [|done].
  by destruct (read_new _ _).
Qed.

(** The arena refuses a snapshot only when it must.  With memory to
    allocate and a copy that succeeds, a request of at most
    [SNAPSHOT_MAX_BYTES] is refused only when the arena is at [MAX_CHUNKS] and
    its oldest chunk is still read; the wait it then names is for that chunk,
    unless a wait already covered it. *)
Theorem write_refused_only_when_full usize_bits heap a m len seq fill a' m' :
  usize_bits = 32 \/ usize_bits = 64 -> (forall n, is_Some (heap n)) ->
  (forall slice, fst (fill slice) = true) -> 0 < len <= SNAPSHOT_MAX_BYTES ->
  UploadSnapshots.write usize_bits heap m a len seq fill = Some (None, a', m') ->
  (MAX_CHUNKS <= UploadSnapshots.chunk_count a')%nat
  /\ exists oldest rest, UploadSnapshots.full a' = oldest :: rest
     /\ box_has_readers m' (pages oldest) = true
     /\ UploadSnapshots.wait_target m' a'
        = if UploadSnapshots.waited_through a' <? last_seq oldest then Some (last_seq oldest) else None.
Proof.
  intros Hb Hh Hf Hlen. unfold UploadSnapshots.write.
  destruct (_ || _) eqn:E; [apply orb_true_iff in E as [?|?]; reflect_cmp; lia|]. clear E.
  unfold UploadSnapshots.room_for. destruct (bool_decide _ && _) eqn:E.
  { apply andb_true_iff in E as [Ha Hl]. apply bool_decide_eq_true in Ha. reflect_cmp.
    intros Hp. exfalso. eapply place_taken in Hp; [done|done|lia|done]. }
  clear E. set (q := UploadSnapshots.full a ++ _).
  destruct (UploadSnapshots.front_free m q) eqn:Ef.
  { intros Hp. exfalso. destruct q as [|front rest]; [done|].
    eapply place_taken in Hp; [done|by eexists|unfold CHUNK_BYTES; lia|done]. }
  case_bool_decide as Ec.
  - unfold try_new_zeroed. assert (is_Some (try_layout_for usize_bits CHUNK_BYTES)) as [p ->]
      by (destruct Hb as [-> | ->]; vm_compute; by eexists).
    simpl. destruct (Hh p) as [? ->]. simpl. intros Hp. exfalso.
    eapply place_taken in Hp; [done|by eexists|unfold CHUNK_BYTES; lia|done].
  - intros [= <- <-]. split; [lia|]. simpl. unfold UploadSnapshots.wait_target.
    rewrite bool_decide_eq_false_2 by done. simpl.
    unfold UploadSnapshots.chunk_count, MAX_CHUNKS in Ec. simpl in Ec.
    destruct q as [|oldest rest]; [simpl in Ec; lia|]. simpl in *.
    apply negb_false_iff in Ef. exists oldest, rest. rewrite Ef. done.
Qed.

(** An arena of [MAX_CHUNKS] full chunks whose oldest is read. *)
Definition full_arena : UploadSnapshots.t :=
  UploadSnapshots.mk None 0 (map (λ i, mkChunk (Z.of_nat i) 9) (seq 1 MAX_CHUNKS)) 0.
Definition read_mem : Mem :=
  mkMem {[ 1 := mkPageBox 1 CHUNK_BYTES CHUNK_BYTES true 1 (fun _ => 0) ]} (mkStatics 64 0).

Lemma write_refused_only_when_full_witness :
  UploadSnapshots.wait_target read_mem full_arena = Some 9
  /\ (MAX_CHUNKS <= UploadSnapshots.chunk_count full_arena)%nat.
Proof.
  split; [vm_compute; reflexivity|].
  apply (write_refused_only_when_full 32 zeros full_arena read_mem 100 1 (fill_with 3)
           full_arena read_mem).
  - left. reflexivity.
  - intros n. exists (fun _ => 0). reflexivity.
  - intros slice. reflexivity.
  - unfold SNAPSHOT_MAX_BYTES, CHUNK_BYTES. lia.
  - vm_compute. reflexivity.
Defined.
