(* ===== verification/TextureStaging.v ===== *)
(** [texture_staging.rs]: the decisions a texture [LockRect] and every other
    CPU write of a level make about its staging pages, the classes that may
    release or defer their staging, the byte offset a lock hands out, and the
    copy of a partial upload's box into a snapshot. *)

From S2P Require Import Prelude D3DTypes DirtyRect UploadSnapshot.

Inductive PreserveKind := PreserveNone | PreserveCpu.

Inductive LockAction := WriteInPlace | FreshBox (preserve : PreserveKind).

#[global] Instance PreserveKind_eq_dec : EqDecision PreserveKind.
Proof. solve_decision. Defined.
#[global] Instance LockAction_eq_dec : EqDecision LockAction.
Proof. solve_decision. Defined.

Record MipShape := mkMipShape { mip_w : Z; mip_h : Z; block_w : Z; block_h : Z }.

(** ** [bitflags!] sets *)

Module StagingWrite.
Definition MAPPED : Z := 1.
Definition HAS_READERS : Z := 2.
Definition SAME_FRAME : Z := 4.
Definition OBSERVED : Z := 8.
Definition ALWAYS_RENAME : Z := 16.
Definition WHOLE_LEVEL : Z := 32.
End StagingWrite.

Module TextureFlags.
Definition DEPTH_FORMAT : Z := 4.
Definition CUBE : Z := 8.
Definition OFFSCREEN_PLAIN : Z := 16.
Definition VOLUME_TEXTURE : Z := 32.
Definition CPU_ONLY : Z := 64.
End TextureFlags.

(** ** The lock decision *)

Definition is_in_flight (slot_last_submit_seq coherent_seq : Z) : bool :=
  coherent_seq <? slot_last_submit_seq.

Definition is_whole_mip (rect : option DirtyRect.t) (shape : MipShape) : bool :=
  match rect with
  | None => true
  | Some r => (DirtyRect.x r =? 0) && (DirtyRect.y r =? 0)
              && (mip_w shape <=? DirtyRect.w r) && (mip_h shape <=? DirtyRect.h r)
  end.

Definition honoured_lock_flags (flags pool : Z) (rect : option DirtyRect.t) (shape : MipShape) : Z :=
  let flags := Z.ldiff flags D3DLOCK_NOOVERWRITE in
  if (pool =? D3DPOOL_DEFAULT) && is_whole_mip rect shape then flags
  else Z.ldiff flags D3DLOCK_DISCARD.

Definition rect_block_aligned (r : DirtyRect.t) (shape : MipShape) : bool :=
  is_multiple_of (DirtyRect.x r) (block_w shape) && is_multiple_of (DirtyRect.y r) (block_h shape)
  && (is_multiple_of (DirtyRect.w r) (block_w shape)
      || ((DirtyRect.x r +% DirtyRect.w r)%u32 =? mip_w shape))
  && (is_multiple_of (DirtyRect.h r) (block_h shape)
      || ((DirtyRect.y r +% DirtyRect.h r)%u32 =? mip_h shape)).

Definition decide_staging_write (write : Z) : LockAction :=
  if flag write StagingWrite.MAPPED || negb (flag write StagingWrite.HAS_READERS) then WriteInPlace
  else
    let seen := flag write (Z.lor StagingWrite.OBSERVED StagingWrite.ALWAYS_RENAME) in
    if flag write StagingWrite.SAME_FRAME && negb seen then WriteInPlace
    else FreshBox (if flag write StagingWrite.WHOLE_LEVEL then PreserveNone else PreserveCpu).

Definition decide_lock_action (write flags pool : Z) (rect : option DirtyRect.t) (shape : MipShape)
    : LockAction :=
  let flags := honoured_lock_flags flags pool rect shape in
  if flag flags D3DLOCK_READONLY then WriteInPlace
  else if negb (flag write StagingWrite.HAS_READERS) then WriteInPlace
  else if flag flags D3DLOCK_DISCARD then FreshBox PreserveNone
  else if is_whole_mip rect shape then FreshBox PreserveCpu
  else if match rect with Some r => negb (rect_block_aligned r shape) | None => false end
  then FreshBox PreserveCpu
  else decide_staging_write
         (Z.ldiff write (Z.lor StagingWrite.MAPPED StagingWrite.WHOLE_LEVEL)).

(** ** Released levels and the classes that release or defer *)

Definition released_level_lock_needs_readback (flags : Z) : bool := negb (flag flags D3DLOCK_DISCARD).

Definition released_level_write_needs_readback (whole_level was_uploaded : bool) : bool :=
  negb whole_level && was_uploaded.

Definition flat_class_flags : Z :=
  Z.lor (Z.lor (Z.lor TextureFlags.CUBE TextureFlags.OFFSCREEN_PLAIN) TextureFlags.DEPTH_FORMAT)
    TextureFlags.VOLUME_TEXTURE.

Definition staging_droppable_class (pool usage flags depth : Z) : bool :=
  (pool =? D3DPOOL_DEFAULT)
  && negb (flag usage (Z.lor (Z.lor D3DUSAGE_DYNAMIC D3DUSAGE_RENDERTARGET) D3DUSAGE_DEPTHSTENCIL))
  && negb (flag flags flat_class_flags) && (depth <=? 1).

Definition staging_lazy_class (pool usage flags depth : Z) : bool :=
  (pool =? D3DPOOL_DEFAULT) && flag usage D3DUSAGE_RENDERTARGET
  && negb (flag usage (Z.lor D3DUSAGE_DYNAMIC D3DUSAGE_DEPTHSTENCIL))
  && negb (flag flags flat_class_flags) && (depth <=? 1).

(** ** Offsets and snapshots *)

Definition texture_lock_offset (bits : Z) (rect : option DirtyRect.t)
    (pitch block_w block_h block_bytes : Z) : Z :=
  match rect with
  | Some r =>
      wrap_usize bits (wrap_usize bits (DirtyRect.y r / block_h * pitch)
                       + wrap_usize bits (DirtyRect.x r / block_w * block_bytes))
  | None => 0
  end.

Module SnapshotLayout.
Record t := mk { src_offset : Z; row_bytes : Z; rows : Z; pitch : Z; len : Z }.

Definition fits_source (l : t) (src_pitch src_len : Z) : bool :=
  let last_row := ((rows l -| 1)%u32 *% src_pitch)%u64 in
  match (v ← (src_offset l +? last_row)%u64; (v +? row_bytes l)%u64) with
  | Some stop => stop <=? src_len
  | None => false
  end.
End SnapshotLayout.

Inductive SnapshotBox := WholeLevel | Declined | Copy (l : SnapshotLayout.t).

(** [u64::next_multiple_of]. *)
Definition next_multiple_of (v m : Z) : Z := wrap64 (div_ceil v m * m).

(** [u32::try_from] of a [u64]. *)
Definition try_u32 (v : Z) : option Z := if v <=? u32_max then Some v else None.

Definition snapshot_box (bits : Z) (rect : DirtyRect.t) (shape : MipShape)
    (block_bytes src_pitch pitch_align : Z) : SnapshotBox :=
  if is_whole_mip (Some rect) shape then WholeLevel
  else if (DirtyRect.w rect =? 0) || (DirtyRect.h rect =? 0) || (pitch_align =? 0)
          || negb (rect_block_aligned rect shape) then Declined
  else
    let block_x := DirtyRect.x rect / block_w shape in
    let block_y := DirtyRect.y rect / block_h shape in
    let cols := (div_ceil (DirtyRect.x rect +% DirtyRect.w rect)%u32 (block_w shape) -% block_x)%u32 in
    let rows := (div_ceil (DirtyRect.y rect +% DirtyRect.h rect)%u32 (block_h shape) -% block_y)%u32 in
    let row_bytes := (cols *% block_bytes)%u64 in
    let pitch := next_multiple_of row_bytes pitch_align in
    let len := (pitch *% rows)%u64 in
    if (row_bytes =? 0) || (SNAPSHOT_MAX_BYTES <? len) then Declined
    else
      match try_u32 row_bytes, try_u32 rows, try_u32 pitch, try_u32 len with
      | Some row_bytes, Some rows, Some pitch, Some len =>
          Copy (SnapshotLayout.mk
            (texture_lock_offset bits (Some rect) src_pitch (block_w shape) (block_h shape) block_bytes)
            row_bytes rows pitch len)
      | _, _, _, _ => Declined
      end.

(** One [copy_from_slice] of [n] bytes. *)
Definition copy_row (src : Z -> Z) (from : Z) (dst : Z -> Z) (to n : Z) : Z -> Z :=
  fun b => if (to <=? b) && (b <? to + n) then src (from + (b - to)) else dst b.

(** [src] and [dst] are byte slices of [src_len] and [dst_len] bytes. *)
Definition copy_rows (bits : Z) (src : Z -> Z) (src_len src_offset src_pitch : Z)
    (dst : Z -> Z) (dst_len dst_pitch row_bytes rows : Z) : bool * (Z -> Z) :=
  if rows =? 0 then (true, dst)
  else
    let last := rows - 1 in
    let max := 2 ^ bits - 1 in
    let src_end := (v ← checked max (last * src_pitch); v ← checked max (v + src_offset);
                    checked max (v + row_bytes)) in
    let dst_end := (v ← checked max (last * dst_pitch); checked max (v + row_bytes)) in
    match src_end, dst_end with
    | Some se, Some de =>
        if (src_len <? se) || (dst_len <? de) then (false, dst)
        else (true, foldl (λ dst row, copy_row src (src_offset + row * src_pitch) dst
                                        (row * dst_pitch) row_bytes) dst (seqZ 0 rows))
    | _, _ => (false, dst)
    end.

(** ** The lock decision in one table *)

(** What lets a write land on pages a pending upload still reads: every such
    upload belongs to the frame being recorded, and nothing recorded since can
    see the version the write replaces. *)
Definition unseen (write : Z) : bool :=
  flag write StagingWrite.SAME_FRAME
  && negb (flag write StagingWrite.OBSERVED) && negb (flag write StagingWrite.ALWAYS_RENAME).

Lemma decide_lock_action_table write flags pool rect shape :
  decide_lock_action write flags pool rect shape =
    if flag flags D3DLOCK_READONLY || negb (flag write StagingWrite.HAS_READERS) then WriteInPlace
    else if is_whole_mip rect shape
    then FreshBox (if flag flags D3DLOCK_DISCARD && (pool =? D3DPOOL_DEFAULT)
                   then PreserveNone else PreserveCpu)
    else if match rect with Some r => rect_block_aligned r shape | None => true end && unseen write
    then WriteInPlace else FreshBox PreserveCpu.
Proof.
  unfold decide_lock_action, honoured_lock_flags, decide_staging_write, unseen.
  set (m := Z.lor StagingWrite.MAPPED StagingWrite.WHOLE_LEVEL).
  rewrite flag_lor, (flag_ldiff_sub write StagingWrite.MAPPED m) by done.
  rewrite (flag_ldiff_sub write StagingWrite.WHOLE_LEVEL m) by done.
  rewrite (flag_ldiff write StagingWrite.HAS_READERS m), (flag_ldiff write StagingWrite.SAME_FRAME m),
    (flag_ldiff write StagingWrite.OBSERVED m), (flag_ldiff write StagingWrite.ALWAYS_RENAME m) by done.
  assert (flag (if (pool =? D3DPOOL_DEFAULT) && is_whole_mip rect shape
                then Z.ldiff flags D3DLOCK_NOOVERWRITE
                else Z.ldiff (Z.ldiff flags D3DLOCK_NOOVERWRITE) D3DLOCK_DISCARD) D3DLOCK_READONLY
          = flag flags D3DLOCK_READONLY) as -> by (destruct (_ && _); by rewrite !flag_ldiff by done).
  assert (flag (if (pool =? D3DPOOL_DEFAULT) && is_whole_mip rect shape
                then Z.ldiff flags D3DLOCK_NOOVERWRITE
                else Z.ldiff (Z.ldiff flags D3DLOCK_NOOVERWRITE) D3DLOCK_DISCARD) D3DLOCK_DISCARD
          = (pool =? D3DPOOL_DEFAULT) && is_whole_mip rect shape && flag flags D3DLOCK_DISCARD) as ->.
  { destruct (_ && _); [by rewrite flag_ldiff by done|by rewrite flag_ldiff_same]. }
  destruct (flag flags D3DLOCK_READONLY), (flag write StagingWrite.HAS_READERS),
    (is_whole_mip rect shape), (pool =? D3DPOOL_DEFAULT), (flag flags D3DLOCK_DISCARD),
    (flag write StagingWrite.SAME_FRAME), (flag write StagingWrite.OBSERVED),
    (flag write StagingWrite.ALWAYS_RENAME); destruct rect as [r|]; try done; simpl;
    by destruct (rect_block_aligned r shape).
Qed.

(** ** A snapshot holds the box it was taken of *)

(** The rows a copy has written so far hold the source's rows. *)
Lemma copy_rows_loop src dst off sp dp rb (n : nat) row k :
  rb <= dp -> 0 <= row < Z.of_nat n -> 0 <= k < rb ->
  foldl (λ dst row, copy_row src (off + row * sp) dst (row * dp) rb) dst (seqZ 0 (Z.of_nat n))
    (row * dp + k) = src (off + row * sp + k).
Proof.
  intros Hp. induction n as [|n IH]; intros Hrow Hk; [lia|].
  rewrite seqZ_S, foldl_app. simpl. unfold copy_row at 1. rewrite Z.add_0_l.
  destruct (decide (row = Z.of_nat n)) as [->|].
  - destruct (_ && _) eqn:E; [f_equal; lia|]. apply andb_false_iff in E as [?|?]; reflect_cmp; lia.
  - destruct (_ && _) eqn:E; [reflect_cmp; nia|]. apply IH; lia.
Qed.

Lemma copy_rows_spec bits src slen off sp dst dlen dp rb n :
  0 <= off -> 0 <= sp -> 0 < n -> 0 <= rb <= dp ->
  (n - 1) * sp + off + rb <= slen -> slen < 2 ^ bits ->
  (n - 1) * dp + rb <= dlen -> dlen < 2 ^ bits ->
  exists dst', copy_rows bits src slen off sp dst dlen dp rb n = (true, dst')
  /\ forall row k, 0 <= row < n -> 0 <= k < rb -> dst' (row * dp + k) = src (off + row * sp + k).
Proof.
  intros. unfold copy_rows. destruct (n =? 0) eqn:En; reflect_cmp; [lia|].
  assert (0 <= (n - 1) * sp) by nia. assert (0 <= (n - 1) * dp) by nia.
  rewrite (proj2 (checked_Some _ ((n - 1) * sp) _)) by (split; [done|lia]). simpl.
  rewrite (proj2 (checked_Some _ ((n - 1) * sp + off) _)) by (split; [done|lia]). simpl.
  rewrite (proj2 (checked_Some _ ((n - 1) * sp + off + rb) _)) by (split; [done|lia]).
  rewrite (proj2 (checked_Some _ ((n - 1) * dp) _)) by (split; [done|lia]). simpl.
  rewrite (proj2 (checked_Some _ ((n - 1) * dp + rb) _)) by (split; [done|lia]).
  destruct (_ || _) eqn:E; [apply orb_true_iff in E as [?|?]; reflect_cmp; lia|].
  eexists. split; [done|]. intros row k Hrow Hk. rewrite <- (Z2Nat.id n) by lia.
  apply copy_rows_loop; lia.
Qed.

(** A level's staging: [src_len] bytes of block rows [src_pitch] apart. *)
Record staging_ok (bits : Z) (shape : MipShape) (block_bytes src_pitch src_len : Z) : Prop := {
  ok_bits : bits = 32 \/ bits = 64;
  ok_mip : is_u32 (mip_w shape) /\ is_u32 (mip_h shape);
  ok_block : 1 <= block_w shape /\ 1 <= block_h shape;
  ok_bytes : 1 <= block_bytes;
  ok_pitch : div_ceil (mip_w shape) (block_w shape) * block_bytes <= src_pitch <= u32_max;
  ok_len : div_ceil (mip_h shape) (block_h shape) * src_pitch <= src_len <= 2 ^ (bits - 1) - 1;
}.

(** The blocks of one axis a rectangle spans. *)
Lemma block_span lo n m b :
  0 <= lo -> 0 < n -> lo + n <= m -> m <= u32_max -> 1 <= b ->
  (div_ceil (lo +% n)%u32 b -% lo / b)%u32 = div_ceil (lo + n) b - lo / b
  /\ 0 <= lo / b < div_ceil (lo + n) b /\ div_ceil (lo + n) b <= div_ceil m b
  /\ forall p, lo <= p < lo + n -> lo / b <= p / b < div_ceil (lo + n) b.
Proof.
  intros Hlo Hn Hm Hmax Hb. rewrite (wrap32_small (lo + n)) by (unfold is_u32; lia).
  assert (Hp : forall p, lo <= p < lo + n -> lo / b <= p / b < div_ceil (lo + n) b).
  { intros p Hp. split; [apply Z.div_le_mono; lia|].
    apply Z.lt_nge. rewrite div_ceil_spec by lia. intros Hc.
    pose proof (Z.mul_div_le p b ltac:(lia)). lia. }
  assert (0 <= lo / b) by (apply Z.div_pos; lia).
  assert (Hle : div_ceil (lo + n) b <= div_ceil m b).
  { apply div_ceil_spec; [lia|]. pose proof (div_ceil_mul_ge m b). lia. }
  assert (Hmm : div_ceil m b <= m) by (apply div_ceil_spec; nia).
  specialize (Hp lo ltac:(lia)) as Hlo'.
  split; [apply wrap32_small; unfold is_u32; lia|]. split_and!; try done; lia.
Qed.

(** The offset a lock hands out, in exact arithmetic; it lies in the staging. *)
Lemma lock_offset_exact bits rect shape bb sp slen :
  staging_ok bits shape bb sp slen -> inside rect (mip_w shape) (mip_h shape) ->
  let o := DirtyRect.y rect / block_h shape * sp + DirtyRect.x rect / block_w shape * bb in
  texture_lock_offset bits (Some rect) sp (block_w shape) (block_h shape) bb = o /\ 0 <= o < slen.
Proof.
  intros [Hbits [[_ Hmw] [_ Hmh]] [Hbw Hbh] Hbb Hsp Hsl] (Hx & Hy & Hw & Hh & Hxw & Hyh) o.
  destruct (block_span (DirtyRect.x rect) (DirtyRect.w rect) (mip_w shape) (block_w shape))
    as (_ & Hbx & Hcx & _); [done..|].
  destruct (block_span (DirtyRect.y rect) (DirtyRect.h rect) (mip_h shape) (block_h shape))
    as (_ & Hby & Hcy & _); [done..|].
  unfold texture_lock_offset, wrap_usize, o. clear o.
  set (bx := DirtyRect.x rect / _) in *. set (by_ := DirtyRect.y rect / _) in *. clearbody bx by_.
  assert (bx * bb + bb <= sp) by nia. assert (by_ * sp + sp <= slen) by nia.
  assert (2 ^ (bits - 1) < 2 ^ bits) by (apply Z.pow_lt_mono_r; lia).
  assert (0 <= bx * bb) by nia. assert (0 <= by_ * sp) by nia.
  rewrite (Z.mod_small (by_ * sp)), (Z.mod_small (bx * bb)) by lia. rewrite Z.mod_small; lia.
Qed.

(** The layout of a copied box, in exact arithmetic. *)
Lemma snapshot_box_layout bits rect shape bb sp slen align l :
  staging_ok bits shape bb sp slen -> inside rect (mip_w shape) (mip_h shape) ->
  0 <= align <= 65536 -> snapshot_box bits rect shape bb sp align = Copy l ->
  let bx := DirtyRect.x rect / block_w shape in
  let by_ := DirtyRect.y rect / block_h shape in
  SnapshotLayout.src_offset l = by_ * sp + bx * bb
  /\ SnapshotLayout.row_bytes l
     = (div_ceil (DirtyRect.x rect + DirtyRect.w rect) (block_w shape) - bx) * bb
  /\ SnapshotLayout.rows l = div_ceil (DirtyRect.y rect + DirtyRect.h rect) (block_h shape) - by_
  /\ SnapshotLayout.row_bytes l <= SnapshotLayout.pitch l
  /\ SnapshotLayout.pitch l mod align = 0
  /\ SnapshotLayout.len l = SnapshotLayout.pitch l * SnapshotLayout.rows l
  /\ SnapshotLayout.len l <= SNAPSHOT_MAX_BYTES.
Proof.
  intros Hok Hin Hal. unfold snapshot_box.
  rewrite (proj1 (lock_offset_exact bits rect shape bb sp slen Hok Hin)).
  destruct Hok as [Hbits [[_ Hmw] [_ Hmh]] [Hbw Hbh] Hbb Hsp Hsl].
  destruct Hin as (Hx & Hy & Hw & Hh & Hxw & Hyh). destruct (is_whole_mip _ _); [done|].
  destruct (_ || _ || _ || _) eqn:E; [done|]. reflect_cmp.
  destruct (block_span (DirtyRect.x rect) (DirtyRect.w rect) (mip_w shape) (block_w shape))
    as (-> & Hbx & Hcx & _); [done..|].
  destruct (block_span (DirtyRect.y rect) (DirtyRect.h rect) (mip_h shape) (block_h shape))
    as (-> & Hby & Hcy & _); [done..|].
  set (bx := DirtyRect.x rect / _) in *. set (by_ := DirtyRect.y rect / _) in *.
  set (cx := div_ceil (DirtyRect.x rect + _) _) in *. set (cy := div_ceil (DirtyRect.y rect + _) _) in *.
  clearbody bx by_ cx cy. simpl.
  assert (Hrb : 0 <= (cx - bx) * bb <= sp) by nia.
  assert (Hsl' : 2 ^ (bits - 1) - 1 < 9223372036854775808) by (destruct Hbits as [-> | ->]; simpl; lia).
  assert (Hrows : 0 <= cy - by_ <= u32_max).
  { assert (div_ceil (mip_h shape) (block_h shape) <= mip_h shape) by (apply div_ceil_spec; nia). lia. }
  assert (Hrsp : (cy - by_) * sp <= slen) by nia.
  unfold u32_max in *.
  rewrite (wrap64_small ((cx - bx) * bb)) by (unfold is_u64, u64_max; lia).
  set (rb := (cx - bx) * bb) in *. clearbody rb.
  assert (Hal' : 0 < align) by lia.
  pose proof (div_ceil_mul_ge rb align Hal') as Hp1. pose proof (div_ceil_mul_lt rb align Hal') as Hp2.
  assert (Hnm : next_multiple_of rb align = div_ceil rb align * align)
    by (apply wrap64_small; unfold is_u64, u64_max; lia).
  rewrite Hnm. assert (Hpm : (div_ceil rb align * align) mod align = 0) by apply Z_mod_mult.
  set (p := div_ceil rb align * align) in *. clearbody p.
  assert (Hpr : 0 <= p * (cy - by_) <= u64_max) by (unfold u64_max; nia).
  rewrite (wrap64_small (p * (cy - by_))) by exact Hpr.
  destruct (_ || _) eqn:E2; [done|]. reflect_cmp. unfold try_u32.
  destruct (rb <=? u32_max), (cy - by_ <=? u32_max), (p <=? u32_max), (p * (cy - by_) <=? u32_max);
    try done.
  intros [= <-]. simpl. done.
Qed.

(** A texel's block in the staging, and in a snapshot of [rect]. *)
Definition staging_at (shape : MipShape) (bb sp px py k : Z) : Z :=
  py / block_h shape * sp + px / block_w shape * bb + k.
Definition snapshot_at (shape : MipShape) (rect : DirtyRect.t) (bb sp px py k : Z) : Z :=
  (py / block_h shape - DirtyRect.y rect / block_h shape) * sp
  + (px / block_w shape - DirtyRect.x rect / block_w shape) * bb + k.

(** The copy of a partial upload's box.  Whenever the arena is asked to
    take the box, its layout fits the level's staging and a snapshot chunk, the
    row copy succeeds, and every byte of every block the box touches is in the
    snapshot where the upload reads it. *)
Theorem snapshot_faithful bits rect shape bb sp slen align l src dst :
  staging_ok bits shape bb sp slen -> inside rect (mip_w shape) (mip_h shape) ->
  0 <= align <= 65536 -> snapshot_box bits rect shape bb sp align = Copy l ->
  SnapshotLayout.fits_source l sp slen = true
  /\ SnapshotLayout.len l <= SNAPSHOT_MAX_BYTES /\ SnapshotLayout.pitch l mod align = 0
  /\ exists dst',
       copy_rows bits src slen (SnapshotLayout.src_offset l) sp dst (SnapshotLayout.len l)
         (SnapshotLayout.pitch l) (SnapshotLayout.row_bytes l) (SnapshotLayout.rows l) = (true, dst')
       /\ forall px py k, covers rect px py -> 0 <= k < bb ->
            dst' (snapshot_at shape rect bb (SnapshotLayout.pitch l) px py k)
            = src (staging_at shape bb sp px py k)
            /\ 0 <= snapshot_at shape rect bb (SnapshotLayout.pitch l) px py k < SnapshotLayout.len l.
Proof.
  intros Hok Hin Hal Hbox.
  destruct (snapshot_box_layout _ _ _ _ _ _ _ _ Hok Hin Hal Hbox) as (Eo & Erb & Er & Hpitch & Hpm & El & Hmax).
  destruct Hok as [Hbits [[_ Hmw] [_ Hmh]] [Hbw Hbh] Hbb Hsp Hsl].
  destruct Hin as (Hx & Hy & Hw & Hh & Hxw & Hyh).
  destruct (block_span (DirtyRect.x rect) (DirtyRect.w rect) (mip_w shape) (block_w shape))
    as (_ & Hbx & Hcx & Hpx); [done..|].
  destruct (block_span (DirtyRect.y rect) (DirtyRect.h rect) (mip_h shape) (block_h shape))
    as (_ & Hby & Hcy & Hpy); [done..|].
  destruct l as [o rb rws pt ln]; simpl in *. unfold staging_at, snapshot_at.
  set (bx := DirtyRect.x rect / _) in *. set (by_ := DirtyRect.y rect / _) in *.
  set (cx := div_ceil (DirtyRect.x rect + _) _) in *. set (cy := div_ceil (DirtyRect.y rect + _) _) in *.
  clearbody bx by_ cx cy.
  assert (Hpow : 2 ^ (bits - 1) < 2 ^ bits /\ 2 ^ (bits - 1) <= 9223372036854775808
                 /\ SNAPSHOT_MAX_BYTES < 2 ^ bits)
    by (destruct Hbits as [-> | ->]; unfold SNAPSHOT_MAX_BYTES, CHUNK_BYTES; simpl; lia).
  assert (Hcb : cx * bb <= sp) by nia. assert (0 <= cx * bb) by nia.
  assert (Hcs : cy * sp <= slen)
    by (etransitivity; [apply Z.mul_le_mono_nonneg_r; [lia|exact Hcy]|lia]).
  assert (Hend : (rws - 1) * sp + o + rb <= slen) by (subst; nia).
  assert (0 <= o) by (subst; nia). assert (0 <= rb) by (subst; nia).
  assert (0 <= (rws - 1) * sp) by nia. assert (Hend' : (rws - 1) * pt + rb <= ln) by (subst ln; nia).
  split_and!; [|done|done|].
  - unfold SnapshotLayout.fits_source; simpl.
    assert ((rws -| 1)%u32 = rws - 1) as ->.
    { assert (div_ceil (mip_h shape) (block_h shape) <= mip_h shape) by (apply div_ceil_spec; nia).
      unfold sat, u32_max in *. lia. }
    rewrite wrap64_small by (unfold is_u64, u64_max; lia).
    rewrite (proj2 (checked_Some _ (o + (rws - 1) * sp) _)) by (split; [done|unfold u64_max; lia]). simpl.
    rewrite (proj2 (checked_Some _ (o + (rws - 1) * sp + rb) _)) by (split; [done|unfold u64_max; lia]).
    apply Z.leb_le. lia.
  - destruct (copy_rows_spec bits src slen o sp dst ln pt rb rws) as (dst' & E & Hd); [lia..|].
    exists dst'. split; [done|]. intros px py k [Hcx' Hcy'] Hk.
    specialize (Hpx px Hcx'). specialize (Hpy py Hcy').
    set (qx := px / _) in *. set (qy := py / _) in *. clearbody qx qy.
    assert (Hk' : 0 <= (qx - bx) * bb + k < rb) by (subst rb; nia).
    rewrite <- Z.add_assoc. split.
    + rewrite Hd by lia. f_equal. subst o. lia.
    + subst ln. assert ((qy - by_) * pt <= (rws - 1) * pt) by (apply Z.mul_le_mono_nonneg_r; lia).
      assert (0 <= (qy - by_) * pt) by (apply Z.mul_nonneg_nonneg; lia). lia.
Qed.

Lemma snapshot_faithful_witness :
  let shape := mkMipShape 16 16 4 4 in
  let rect := DirtyRect.mk 4 8 8 8 in
  let l := SnapshotLayout.mk 144 32 2 64 128 in
  snapshot_box 32 rect shape 16 64 64 = Copy l /\ SnapshotLayout.fits_source l 64 256 = true.
Proof.
  split; [reflexivity|].
  apply (snapshot_faithful 32 (DirtyRect.mk 4 8 8 8) (mkMipShape 16 16 4 4) 16 64 256 64
           (SnapshotLayout.mk 144 32 2 64 128) (fun _ => 0) (fun _ => 0)).
  - split; simpl; unfold is_u32, u32_max; try lia; vm_compute; split; discriminate.
  - unfold inside; simpl; lia.
  - lia.
  - reflexivity.
Defined.
