(* ===== verification/LevelAuthority.v ===== *)
(** [level_authority.rs]: which copy of a texture subresource, its staging or
    its Metal texture, holds the pixels it is defined by. *)

From S2P Require Import Prelude.

Inductive WritePlan := WriteStaging | ReadBackFirst | Overwrite.

Definition FACE_COUNT : Z := 6.

Module LevelAuthorityMask.

(** One 32-bit mask per face, indexed by the face. *)
Record t := mk { gpu : list Z }.

Definition new : t := mk (replicate 6 0).

Definition in_range (face level : Z) : bool := (face <? FACE_COUNT) && (level <? 32).

(** [self.gpu[face as usize]]. *)
Definition mask (m : t) (face : Z) : Z := default 0 (gpu m !! Z.to_nat face).

Definition gpu_wrote (m : t) (face level : Z) : t :=
  if in_range face level
  then mk (<[Z.to_nat face := Z.lor (mask m face) (Z.shiftl 1 level)]> (gpu m)) else m.

Definition gpu_holds (m : t) (face level : Z) : bool :=
  in_range face level && flag (mask m face) (Z.shiftl 1 level).

Definition plan_write (m : t) (face level : Z) (whole_level : bool) : WritePlan :=
  if negb (gpu_holds m face level) then WriteStaging
  else if whole_level then Overwrite else ReadBackFirst.

Definition staging_wrote (m : t) (face level : Z) : t :=
  if in_range face level
  then mk (<[Z.to_nat face := Z.ldiff (mask m face) (Z.shiftl 1 level)]> (gpu m)) else m.

End LevelAuthorityMask.

(** ** The masks are a set of subresources *)

Definition well_formed (m : LevelAuthorityMask.t) : Prop := length (LevelAuthorityMask.gpu m) = 6%nat.

Definition subresource (face level : Z) : Prop := 0 <= face < FACE_COUNT /\ 0 <= level < 32.

Lemma flag_bit v n : 0 <= n -> flag v (Z.shiftl 1 n) = Z.testbit v n.
Proof.
  intros Hn. unfold flag. rewrite Z.shiftl_1_l.
  destruct (Z.testbit v n) eqn:E.
  - apply negb_true_iff, Z.eqb_neq. intros H0.
    apply (f_equal (λ z, Z.testbit z n)) in H0.
    rewrite Z.land_spec, E, Z.pow2_bits_true, Z.bits_0 in H0 by done. done.
  - apply negb_false_iff, Z.eqb_eq. apply Z.bits_inj. intros i. rewrite Z.land_spec, Z.bits_0.
    destruct (decide (i = n)) as [->|]; [by rewrite E|]. rewrite Z.pow2_bits_false by done. apply andb_false_r.
Qed.

Lemma gpu_holds_bit m face level :
  subresource face level ->
  LevelAuthorityMask.gpu_holds m face level = Z.testbit (LevelAuthorityMask.mask m face) level.
Proof.
  intros [Hf Hl]. unfold LevelAuthorityMask.gpu_holds, LevelAuthorityMask.in_range.
  rewrite flag_bit by lia. replace (face <? FACE_COUNT) with true by (symmetry; lia).
  replace (level <? 32) with true by (symmetry; lia). done.
Qed.

Lemma mask_insert m face v face' :
  well_formed m -> 0 <= face < FACE_COUNT -> 0 <= face' < FACE_COUNT ->
  LevelAuthorityMask.mask (LevelAuthorityMask.mk (<[Z.to_nat face := v]> (LevelAuthorityMask.gpu m))) face'
  = if decide (face = face') then v else LevelAuthorityMask.mask m face'.
Proof.
  intros Hw Hf Hf'. unfold LevelAuthorityMask.mask, well_formed, FACE_COUNT in *; simpl.
  destruct (decide (face = face')) as [<-|].
  - by rewrite list_lookup_insert_eq by lia.
  - by rewrite list_lookup_insert_ne by lia.
Qed.

Lemma wrote_well_formed m face level :
  well_formed m ->
  well_formed (LevelAuthorityMask.gpu_wrote m face level)
  /\ well_formed (LevelAuthorityMask.staging_wrote m face level).
Proof.
  unfold well_formed, LevelAuthorityMask.gpu_wrote, LevelAuthorityMask.staging_wrote.
  intros. destruct (LevelAuthorityMask.in_range face level); simpl; by rewrite ?length_insert.
Qed.

Lemma gpu_wrote_holds m f l f' l' :
  well_formed m -> subresource f l -> subresource f' l' ->
  LevelAuthorityMask.gpu_holds (LevelAuthorityMask.gpu_wrote m f l) f' l'
  = bool_decide ((f, l) = (f', l')) || LevelAuthorityMask.gpu_holds m f' l'.
Proof.
  intros Hw [Hf Hl] Hs'. rewrite !gpu_holds_bit by done.
  unfold LevelAuthorityMask.gpu_wrote, LevelAuthorityMask.in_range.
  replace (f <? FACE_COUNT) with true by (symmetry; lia). replace (l <? 32) with true by (symmetry; lia).
  simpl. destruct Hs' as [Hf' Hl']. rewrite mask_insert by done.
  destruct (decide (f = f')) as [<-|].
  - rewrite Z.lor_spec, Z.shiftl_1_l, Z.pow2_bits_eqb by lia.
    case_bool_decide as E; [injection E as ->; by rewrite Z.eqb_refl, orb_true_r|].
    replace (l =? l') with false by (symmetry; apply Z.eqb_neq; naive_solver). by rewrite orb_false_r.
  - rewrite bool_decide_eq_false_2 by naive_solver. done.
Qed.

Lemma staging_wrote_holds m f l f' l' :
  well_formed m -> subresource f l -> subresource f' l' ->
  LevelAuthorityMask.gpu_holds (LevelAuthorityMask.staging_wrote m f l) f' l'
  = negb (bool_decide ((f, l) = (f', l'))) && LevelAuthorityMask.gpu_holds m f' l'.
Proof.
  intros Hw [Hf Hl] Hs'. rewrite !gpu_holds_bit by done.
  unfold LevelAuthorityMask.staging_wrote, LevelAuthorityMask.in_range.
  replace (f <? FACE_COUNT) with true by (symmetry; lia). replace (l <? 32) with true by (symmetry; lia).
  simpl. destruct Hs' as [Hf' Hl']. rewrite mask_insert by done.
  destruct (decide (f = f')) as [<-|].
  - rewrite Z.ldiff_spec, Z.shiftl_1_l, Z.pow2_bits_eqb by lia.
    case_bool_decide as E; [injection E as ->; by rewrite Z.eqb_refl, andb_false_r|].
    replace (l =? l') with false by (symmetry; apply Z.eqb_neq; naive_solver). by rewrite andb_true_r.
  - rewrite bool_decide_eq_false_2 by naive_solver. done.
Qed.

(** ** Refinement: a set of subresources the GPU owns *)

Inductive op := GpuWrote (face level : Z) | StagingWrote (face level : Z).

Definition op_ok (o : op) : Prop :=
  match o with GpuWrote f l | StagingWrote f l => subresource f l end.

Definition apply_mask (m : LevelAuthorityMask.t) (o : op) : LevelAuthorityMask.t :=
  match o with
  | GpuWrote f l => LevelAuthorityMask.gpu_wrote m f l
  | StagingWrote f l => LevelAuthorityMask.staging_wrote m f l
  end.

Definition apply_set (s : gset (Z * Z)) (o : op) : gset (Z * Z) :=
  match o with
  | GpuWrote f l => {[ (f, l) ]} ∪ s
  | StagingWrote f l => s ∖ {[ (f, l) ]}
  end.

Definition refines (m : LevelAuthorityMask.t) (s : gset (Z * Z)) : Prop :=
  well_formed m
  /\ forall f l, subresource f l -> LevelAuthorityMask.gpu_holds m f l = bool_decide ((f, l) ∈ s).

Lemma refines_step m s o : op_ok o -> refines m s -> refines (apply_mask m o) (apply_set s o).
Proof.
  intros Ho [Hw Hr]. destruct o as [f l|f l]; (split; [by apply wrote_well_formed|]); intros f' l' Hs'; simpl.
  - rewrite gpu_wrote_holds, Hr by done. apply eq_bool_prop_intro.
    rewrite orb_True, !bool_decide_spec. set_solver.
  - rewrite staging_wrote_holds, Hr by done. apply eq_bool_prop_intro.
    rewrite andb_True, negb_True, !bool_decide_spec. set_solver.
Qed.

(** over any sequence of GPU and staging writes of subresources, the six
    32-bit masks are exactly the set of (face, level) pairs whose last write
    was the GPU's, so a CPU write is planned to read back exactly when it
    leaves texels of such a pair untouched. *)
Theorem authority_refines_set ops f l whole :
  Forall op_ok ops -> subresource f l ->
  let m := foldl apply_mask LevelAuthorityMask.new ops in
  let s := foldl apply_set ∅ ops in
  LevelAuthorityMask.gpu_holds m f l = bool_decide ((f, l) ∈ s)
  /\ (LevelAuthorityMask.plan_write m f l whole = ReadBackFirst <-> (f, l) ∈ s /\ whole = false)
  /\ (LevelAuthorityMask.plan_write m f l whole = WriteStaging <-> (f, l) ∉ s).
Proof.
  intros Hok Hs m s. assert (Hr : refines m s).
  { unfold m, s. induction ops as [|o ops IH] using rev_ind.
    - split; [done|]. intros f' l' Hs'. rewrite gpu_holds_bit by done.
      rewrite bool_decide_eq_false_2 by set_solver. destruct Hs' as [Hf' Hl'].
      unfold LevelAuthorityMask.mask. destruct (LevelAuthorityMask.gpu _ !! _) as [v|] eqn:E; [|apply Z.bits_0].
      apply lookup_replicate in E as [-> _]. apply Z.bits_0.
    - apply Forall_app in Hok as [Hok Ho]. rewrite Forall_singleton in Ho.
      rewrite !foldl_app. simpl. by apply refines_step, IH. }
  destruct Hr as [_ Hr]. specialize (Hr f l Hs). split; [done|].
  unfold LevelAuthorityMask.plan_write. rewrite Hr.
  case_bool_decide; destruct whole; simpl; naive_solver.
Qed.

Lemma authority_refines_set_witness :
  let m := foldl apply_mask LevelAuthorityMask.new [GpuWrote 2 5; GpuWrote 0 1; StagingWrote 0 1] in
  LevelAuthorityMask.plan_write m 2 5 false = ReadBackFirst
  /\ LevelAuthorityMask.plan_write m 0 1 false = WriteStaging.
Proof.
  assert (Hok : Forall op_ok [GpuWrote 2 5; GpuWrote 0 1; StagingWrote 0 1])
    by (repeat constructor; simpl; unfold FACE_COUNT; lia).
  split.
  - apply (authority_refines_set [GpuWrote 2 5; GpuWrote 0 1; StagingWrote 0 1] 2 5 false Hok);
      [unfold subresource, FACE_COUNT; lia|]. split; [vm_compute|]; reflexivity.
  - apply (authority_refines_set [GpuWrote 2 5; GpuWrote 0 1; StagingWrote 0 1] 0 1 false Hok);
      [unfold subresource, FACE_COUNT; lia|]. vm_compute. discriminate.
Defined.
