(* ===== verification/PageBoxPool.v ===== *)
(** [page_box_pool.rs]: the bounded recycle pool of retired page boxes, its two
    lanes of size-class stacks, the byte cap they share and the gauge that
    mirrors what is parked. *)

From S2P Require Import Prelude PageBox.

Definition MAX_POOL_CLASSES : nat := 256.
Definition STAGING_SHARE_DIVISOR : Z := 4.

(** One lane: a stack per size class, its top first, and the bytes parked. *)
Record Lane := mkLane { classes : list (list PageBox); bytes : Z }.

Definition lane_new : Lane := mkLane (replicate MAX_POOL_CLASSES []) 0.

Inductive LaneKind := Buffer | Staging.

#[global] Instance LaneKind_eq_dec : EqDecision LaneKind.
Proof. solve_decision. Defined.

(** The mutex-guarded lanes, the gauge and the cap. *)
Record PageBoxPool := mkPool
  { buffer_lane : Lane; staging_lane : Lane; pooled_bytes : Z; cap_bytes : Z }.

Definition lane (p : PageBoxPool) (k : LaneKind) : Lane :=
  match k with Buffer => buffer_lane p | Staging => staging_lane p end.

Definition set_lane (p : PageBoxPool) (k : LaneKind) (l : Lane) : PageBoxPool :=
  match k with
  | Buffer => mkPool l (staging_lane p) (pooled_bytes p) (cap_bytes p)
  | Staging => mkPool (buffer_lane p) l (pooled_bytes p) (cap_bytes p)
  end.

Definition set_gauge (p : PageBoxPool) (g : Z) : PageBoxPool :=
  mkPool (buffer_lane p) (staging_lane p) g (cap_bytes p).

Definition pool_new (cap : Z) : PageBoxPool := mkPool lane_new lane_new 0 cap.

Definition set_cap (p : PageBoxPool) (cap : Z) : PageBoxPool :=
  mkPool (buffer_lane p) (staging_lane p) (pooled_bytes p) cap.

Definition enabled (p : PageBoxPool) : bool := negb (cap_bytes p =? 0).

Section Pool.
Context (usize_bits : Z).

Definition wrapu (x : Z) : Z := x mod 2 ^ usize_bits.

Definition total_bytes (p : PageBoxPool) : Z := wrapu (bytes (buffer_lane p) + bytes (staging_lane p)).

(** The size class of a request: its page count less one. *)
Definition class_of (logical_len : Z) : Z := div_ceil (Z.max logical_len 1) PAGE_SIZE - 1.

Definition pop (p : PageBoxPool) (k : LaneKind) (logical_len : Z) : option PageBox * PageBoxPool :=
  let class := class_of logical_len in
  let l := lane p k in
  if Z.of_nat MAX_POOL_CLASSES <=? class then (None, p)
  else
  match classes l !! Z.to_nat class with
  | Some (pb :: rest) =>
    let p := set_lane p k (mkLane (<[Z.to_nat class := rest]> (classes l))
                     (wrapu (bytes l - pb_len pb))) in
    (Some (set_logical_len pb logical_len), set_gauge p (total_bytes p))
  | _ => (None, p)
  end.

(** [None] is the panic of a length that cannot be padded. *)
Definition serves (p : PageBoxPool) (logical_len : Z) : option bool :=
  if enabled p then
  padded ← padded_len usize_bits logical_len;
  Some (padded / PAGE_SIZE <=? Z.of_nat MAX_POOL_CLASSES)
  else Some false.

Definition acquire (p : PageBoxPool) (logical_len : Z) : option (option PageBox * PageBoxPool) :=
  ok ← serves p logical_len;
  Some (if (ok : bool) then pop p Buffer logical_len else (None, p)).

(** [pooled_bytes()]: the [u64] gauge read as a [usize]. *)
Definition pooled_usize (p : PageBoxPool) : Z :=
  if pooled_bytes p <=? usize_max usize_bits then pooled_bytes p else usize_max usize_bits.

(** [retire] is the device's lease retirement pass, which may park boxes. *)
Definition acquire_or_retire (p : PageBoxPool) (logical_len : Z) (retire : PageBoxPool -> PageBoxPool)
  : option (option PageBox * PageBoxPool) :=
  '(r, p) ← acquire p logical_len;
  match r with
  | Some pb => Some (Some pb, p)
  | None =>
    ok ← serves p logical_len;
    if negb ok then Some (None, p)
    else
    padded ← padded_len usize_bits logical_len;
    if cap_bytes p <? wrapu (pooled_usize p + padded) then Some (None, p)
    else acquire (retire p) logical_len
  end.

Definition recycle_in (p : PageBoxPool) (k : LaneKind) (pb : PageBox) : option PageBox * PageBoxPool :=
  if negb (pb_native_owned pb) then (Some pb, p)
  else if cap_bytes p =? 0 then (Some pb, p)
  else
  let class := pb_len pb / PAGE_SIZE - 1 in
  if Z.of_nat MAX_POOL_CLASSES <=? class then (Some pb, p)
  else
  let lane_cap := match k with Buffer => cap_bytes p | Staging => cap_bytes p / STAGING_SHARE_DIVISOR end in
  let len := pb_len pb in
  let total := total_bytes p in
  let l := lane p k in
  if (cap_bytes p <? wrapu (total + len)) || (lane_cap <? wrapu (bytes l + len)) then (Some pb, p)
  else
  let stack := default [] (classes l !! Z.to_nat class) in
  (None, set_gauge (set_lane p k (mkLane (<[Z.to_nat class := pb :: stack]> (classes l))
                              (wrapu (bytes l + len))))
     (wrapu (total + len))).

Definition recycle (p : PageBoxPool) (pb : PageBox) : option PageBox * PageBoxPool := recycle_in p Buffer pb.

(** [backing] is the box when this was its last owner, [None] while another
owner remains.  Answers whether the box was parked. *)
Definition recycle_staging (p : PageBoxPool) (backing : option PageBox) : bool * PageBoxPool :=
  match backing with
  | None => (false, p)
  | Some pb =>
    if has_readers pb then (false, p)
    else let '(r, p) := recycle_in p Staging pb in
 (match r with None => true | Some _ => false end, p)
  end.

(** The padded bytes freed, and the pool with an empty staging lane. *)
Definition drain_staging (p : PageBoxPool) : Z * PageBoxPool :=
  let l := staging_lane p in
  let p' := set_lane p Staging (mkLane (map (fun _ => []) (classes l)) 0) in
  (bytes l, set_gauge p' (total_bytes p')).

(** The takes of one API call: the pool held under one lock (when it was
enabled), hits and misses. *)
Record StagingTake := mkTake { guarded : bool; hits : Z; misses : Z }.

Definition take_staging (p : PageBoxPool) : StagingTake := mkTake (enabled p) 0 0.

Definition try_take (heap : Z -> option (Z -> Z)) (s : Statics) (p : PageBoxPool) (t : StagingTake)
  (logical_len : Z) : option PageBox * Statics * PageBoxPool * StagingTake :=
  let fresh p t :=
  match try_new_uninit usize_bits heap s logical_len with
  | Some (pb, s') => (Some pb, s', p, t)
  | None => (None, s, p, t)
  end in
  if negb (guarded t) then fresh p t
  else
  match pop p Staging logical_len with
  | (Some pb, p) => (Some pb, s, p, mkTake true (hits t +| 1)%u32 (misses t))
  | (None, p) => fresh p (mkTake true (hits t) (misses t +| 1)%u32)
  end.

End Pool.

(** ** What the pool keeps true *)

Definition sum_len (l : list PageBox) : Z := foldr (λ pb acc, pb_len pb + acc) 0 l.

Lemma sum_len_app a b : sum_len (a ++ b) = sum_len a + sum_len b.
Proof. induction a as [|x a IH]; simpl; [done|]. rewrite IH. lia. Qed.

#[global] Instance sum_len_perm : Proper ((≡ₚ) ==> (=)) sum_len.
Proof. intros a b Hp. induction Hp; simpl; lia. Qed.

Definition parked_in (l : Lane) : list PageBox := concat (classes l).
Definition parked (p : PageBoxPool) : list PageBox := parked_in (buffer_lane p) ++ parked_in (staging_lane p).

(** Replacing one class stack, up to the order of the boxes. *)
Lemma concat_insert (cs : list (list PageBox)) i old :
  cs !! i = Some old ->
  exists rest, concat cs ≡ₚ old ++ rest /\ forall new, concat (<[i := new]> cs) ≡ₚ new ++ rest.
Proof.
  intros Hi. exists (concat (take i cs ++ drop (S i) cs)). split.
  - rewrite <- (take_drop_middle cs i old Hi) at 1. rewrite !concat_app. simpl.
    by rewrite Permutation_app_swap_app.
  - intros new. assert (i < length cs)%nat by (by eapply lookup_lt_Some).
    rewrite insert_take_drop by done. rewrite !concat_app. simpl. by rewrite Permutation_app_swap_app.
Qed.

(** A lane: every box sits in the stack of its size, and the byte count is the
    sum of what is parked. *)
Record lane_ok (l : Lane) : Prop := {
  l_classes : length (classes l) = MAX_POOL_CLASSES;
  l_bytes : bytes l = sum_len (parked_in l);
  l_class : forall i stack pb, classes l !! i = Some stack -> pb ∈ stack ->
    pb_len pb = (Z.of_nat i + 1) * PAGE_SIZE /\ pb_native_owned pb = true;
}.

Lemma lane_ok_positive l pb : lane_ok l -> pb ∈ parked_in l -> PAGE_SIZE <= pb_len pb.
Proof.
  intros [_ _ Hc] Hin. unfold parked_in in Hin. apply list_elem_of_In, in_concat in Hin as (stack & Hs & Hp).
  apply list_elem_of_In in Hs, Hp. apply list_elem_of_lookup in Hs as [i Hi]. destruct (Hc i stack pb Hi Hp) as [-> _].
  unfold PAGE_SIZE. lia.
Qed.

Lemma sum_len_nonneg l : (forall pb, pb ∈ l -> 0 <= pb_len pb) -> 0 <= sum_len l.
Proof.
  induction l as [|x l IH]; intros H; simpl; [lia|].
  assert (0 <= pb_len x) by (apply H; left). assert (0 <= sum_len l) by (apply IH; intros; apply H; by right). lia.
Qed.

Lemma lane_sum_nonneg l : lane_ok l -> 0 <= sum_len (parked_in l).
Proof.
  intros Hl. apply sum_len_nonneg. intros pb Hp. pose proof (lane_ok_positive l pb Hl Hp).
  unfold PAGE_SIZE in *. lia.
Qed.

(** Swapping a class stack for another of the same size keeps a lane. *)
Lemma lane_ok_insert l i old new b :
  lane_ok l -> classes l !! i = Some old ->
  (forall pb, pb ∈ new -> pb_len pb = (Z.of_nat i + 1) * PAGE_SIZE /\ pb_native_owned pb = true) ->
  b = bytes l - sum_len old + sum_len new ->
  lane_ok (mkLane (<[i := new]> (classes l)) b)
  /\ exists rest, parked_in l ≡ₚ old ++ rest
     /\ parked_in (mkLane (<[i := new]> (classes l)) b) ≡ₚ new ++ rest.
Proof.
  intros [Hn Hb Hc] Hi Hnew ->. destruct (concat_insert (classes l) i old Hi) as (rest & Ho & Hr).
  split; [|exists rest; split; [done|apply Hr]]. split; simpl.
  - by rewrite length_insert.
  - rewrite Hb. unfold parked_in; simpl. rewrite Ho, (Hr new), !sum_len_app. lia.
  - intros j stack pb Hj Hp. destruct (decide (i = j)) as [<-|].
    + rewrite list_lookup_insert_eq in Hj by (by eapply lookup_lt_Some). injection Hj as <-. by apply Hnew.
    + rewrite list_lookup_insert_ne in Hj by done. by eapply Hc.
Qed.

Section Invariant.
Context (usize_bits : Z).

(** The pool, the boxes [out] its users hold, and the largest cap it has had. *)
Record pool_ok (p : PageBoxPool) (out : list PageBox) (hi : Z) : Prop := {
  p_lanes : forall k, lane_ok (lane p k);
  p_gauge : pooled_bytes p = sum_len (parked p);
  p_cap : 0 <= cap_bytes p <= hi;
  p_hi : hi <= usize_max usize_bits;
  p_total : sum_len (parked p) <= hi;
  p_share : sum_len (parked_in (staging_lane p)) <= hi / STAGING_SHARE_DIVISOR;
  p_ids : NoDup (pb_generation <$> parked p ++ out);
  p_unread : forall pb, pb ∈ parked_in (staging_lane p) -> has_readers pb = false;
}.

Lemma sum_parked p : sum_len (parked p) = sum_len (parked_in (buffer_lane p)) + sum_len (parked_in (staging_lane p)).
Proof. apply sum_len_app. Qed.

Lemma wrapu_small x : 0 <= x <= usize_max usize_bits -> wrapu usize_bits x = x.
Proof. intros. unfold wrapu, usize_max in *. apply Z.mod_small. lia. Qed.

Lemma total_exact p :
  (forall k, lane_ok (lane p k)) -> sum_len (parked p) <= usize_max usize_bits ->
  total_bytes usize_bits p = sum_len (parked p).
Proof.
  intros Hl Ht. unfold total_bytes. pose proof (Hl Buffer) as Hb. pose proof (Hl Staging) as Hs. simpl in *.
  rewrite (l_bytes _ Hb), (l_bytes _ Hs), <- sum_parked.
  pose proof (lane_sum_nonneg _ Hb). pose proof (lane_sum_nonneg _ Hs).
  rewrite sum_parked in *. apply wrapu_small. lia.
Qed.

Definition other (k : LaneKind) : LaneKind := match k with Buffer => Staging | Staging => Buffer end.

Lemma parked_split p k : parked p ≡ₚ parked_in (lane p k) ++ parked_in (lane p (other k)).
Proof. destruct k; [done|]. apply Permutation_app_comm. Qed.

Lemma parked_set p k l g :
  parked (set_gauge (set_lane p k l) g) ≡ₚ parked_in l ++ parked_in (lane p (other k)).
Proof. destruct k; [done|]. apply Permutation_app_comm. Qed.

(** The class a request names holds boxes of its padded size. *)
Lemma class_size n : 0 <= n -> 0 <= class_of n /\ (class_of n + 1) * PAGE_SIZE = div_ceil (Z.max n 1) PAGE_SIZE * PAGE_SIZE.
Proof.
  intros Hn. unfold class_of. pose proof (div_ceil_mul_ge (Z.max n 1) PAGE_SIZE).
  unfold PAGE_SIZE in *. lia.
Qed.

(** Replacing one lane, with its gauge. *)
Lemma pool_ok_lane p out hi k l' g out' :
  pool_ok p out hi -> lane_ok l' ->
  g = sum_len (parked_in l') + sum_len (parked_in (lane p (other k))) -> g <= hi ->
  (k = Staging -> sum_len (parked_in l') <= hi / STAGING_SHARE_DIVISOR
      /\ forall pb, pb ∈ parked_in l' -> has_readers pb = false) ->
  NoDup (pb_generation <$> (parked_in l' ++ parked_in (lane p (other k))) ++ out') ->
  pool_ok (set_gauge (set_lane p k l') g) out' hi.
Proof.
  intros [] Hl Hg Hhi Hst Hids. split; try done.
  - intros k'. destruct k, k'; simpl; try done; [apply (p_lanes0 Staging)|apply (p_lanes0 Buffer)].
  - rewrite parked_set, sum_len_app. done.
  - by destruct k.
  - rewrite parked_set, sum_len_app. lia.
  - destruct k; simpl; [done|]. by apply Hst.
  - by rewrite parked_set.
  - destruct k; simpl; [done|]. by apply Hst.
Qed.

(** The box at the top of a stack is no longer than what its lane holds. *)
Lemma total_after p k l' :
  (forall k, lane_ok (lane p k)) -> lane_ok l' ->
  sum_len (parked_in l') + sum_len (parked_in (lane p (other k))) <= usize_max usize_bits ->
  total_bytes usize_bits (set_lane p k l')
  = sum_len (parked_in l') + sum_len (parked_in (lane p (other k))).
Proof.
  intros Hp Hl Hs. rewrite total_exact.
  - rewrite <- sum_len_app. apply sum_len_perm. apply (parked_set p k l' 0).
  - intros k'. destruct k, k'; simpl; try done; [apply (Hp Staging)|apply (Hp Buffer)].
  - rewrite <- sum_len_app in Hs. etransitivity; [|exact Hs]. apply Z.eq_le_incl, sum_len_perm, (parked_set p k l' 0).
Qed.

(** Popping a box: it comes from the parked ones, unread if it was staging,
with the padded size of the request. *)
Lemma pop_ok p out hi k n r p' :
  pool_ok p out hi -> 0 <= n -> pop usize_bits p k n = (r, p') ->
  match r with
  | None => p' = p
  | Some pb =>
    pool_ok p' (pb :: out) hi /\ cap_bytes p' = cap_bytes p
    /\ pb_len pb = div_ceil (Z.max n 1) PAGE_SIZE * PAGE_SIZE /\ pb_logical_len pb = n
    /\ pb_native_owned pb = true /\ (k = Staging -> has_readers pb = false)
  end.
Proof.
  intros Hok Hn. unfold pop. destruct (class_size n Hn) as [Hc Hsz]. set (i := Z.to_nat (class_of n)).
  destruct (_ <=? _); [by intros [= <- <-]|].
  destruct (classes (lane p k) !! i) as [[|pb rest]|] eqn:Ei; [by intros [= <- <-]..| |by intros [= <- <-]].
  intros [= <- <-]. destruct Hok.
  destruct (l_class _ (p_lanes0 k) i _ pb Ei ltac:(left)) as [Hlen Hnat].
  assert (Hall : forall x, x ∈ rest -> pb_len x = (Z.of_nat i + 1) * PAGE_SIZE /\ pb_native_owned x = true).
  { intros x Hx. eapply (l_class _ (p_lanes0 k)); [exact Ei|by right]. }
  destruct (lane_ok_insert (lane p k) i (pb :: rest) rest (bytes (lane p k) - pb_len pb))
  as (Hl' & more & Hold & Hnew); [done..|simpl; lia|].
  assert (Hpos : 0 < pb_len pb) by (unfold PAGE_SIZE in *; lia).
  assert (Htot : bytes (lane p k) + sum_len (parked_in (lane p (other k))) <= hi)
  by (rewrite (l_bytes _ (p_lanes0 k)), <- sum_len_app, <- parked_split; done).
  pose proof (lane_sum_nonneg _ (p_lanes0 (other k))) as Hoth.
  pose proof (lane_sum_nonneg _ Hl') as Hnn. rewrite <- (l_bytes _ Hl') in Hnn. simpl in Hnn.
  assert (Hwr : wrapu usize_bits (bytes (lane p k) - pb_len pb) = bytes (lane p k) - pb_len pb)
  by (apply wrapu_small; lia).
  rewrite Hwr. set (l' := mkLane _ _) in *.
  assert (Hsum : sum_len (parked_in l') = bytes (lane p k) - pb_len pb)
  by (rewrite <- (l_bytes _ Hl'); done).
  rewrite total_after by (done || lia). split; [|simpl; split_and!].
  - apply (pool_ok_lane p out hi k l'); [by split|done|done|lia| |].
    + intros ->. split; [rewrite (l_bytes _ (p_lanes0 Staging)) in Hsum; simpl in *; lia|]. intros x Hx. apply p_unread0. simpl in Hold, Hnew.
      rewrite Hold. rewrite Hnew in Hx. set_solver.
    + revert p_ids0. rewrite (parked_split p k), Hold, Hnew. by rewrite <- Permutation_middle.
  - by destruct k.
  - rewrite Hlen, <- Hsz. unfold i. by rewrite Z2Nat.id by lia.
  - done.
  - done.
  - intros ->. apply (p_unread0 pb). simpl in Hold. rewrite Hold. left.
Qed.

(** Parking a box that is held outside.  The boxes in existence fit the address
space together. *)
Lemma recycle_in_ok p out hi k pb r p' :
  pool_ok p (pb :: out) hi ->
  (exists q, 1 <= q /\ pb_len pb = q * PAGE_SIZE) ->
  sum_len (parked p) + pb_len pb <= usize_max usize_bits ->
  (k = Staging -> has_readers pb = false) ->
  recycle_in usize_bits p k pb = (r, p') ->
  match r with
  | Some pb' => pb' = pb /\ p' = p
  | None => pool_ok p' out hi /\ cap_bytes p' = cap_bytes p
    /\ sum_len (parked p') <= cap_bytes p
    /\ (k = Staging -> sum_len (parked_in (staging_lane p')) <= cap_bytes p / STAGING_SHARE_DIVISOR)
    /\ pb ∈ parked p'
  end.
Proof.
  intros Hok (q & Hq & Hlen) Hfit Hrd. unfold recycle_in.
  destruct (pb_native_owned pb) eqn:Hnat; [simpl|by intros [= <- <-]].
  destruct (cap_bytes p =? 0); [by intros [= <- <-]|].
  assert (Hcl : pb_len pb / PAGE_SIZE - 1 = q - 1) by (rewrite Hlen, Z.div_mul; done).
  rewrite Hcl. destruct (Z.of_nat MAX_POOL_CLASSES <=? q - 1) eqn:Ec; [by intros [= <- <-]|]. reflect_cmp.
  destruct Hok. set (i := Z.to_nat (q - 1)).
  assert (Hi : (i < length (classes (lane p k)))%nat) by (rewrite (l_classes _ (p_lanes0 k)); lia).
  apply lookup_lt_is_Some in Hi as [stack Hi]. rewrite Hi. simpl default.
  assert (Hib : (Z.of_nat i + 1) * PAGE_SIZE = pb_len pb) by (rewrite Hlen; unfold i; f_equal; lia).
  rewrite total_exact by (done || lia).
  pose proof (lane_sum_nonneg _ (p_lanes0 (other k))) as Hoth.
  pose proof (lane_sum_nonneg _ (p_lanes0 k)) as Hown.
  assert (Hsp : sum_len (parked p) = bytes (lane p k) + sum_len (parked_in (lane p (other k))))
  by (rewrite (l_bytes _ (p_lanes0 k)), <- sum_len_app, <- parked_split; done).
  rewrite <- (l_bytes _ (p_lanes0 k)) in Hown. assert (0 < pb_len pb) by (unfold PAGE_SIZE in *; lia).
  rewrite (wrapu_small (bytes (lane p k) + _)), (wrapu_small (sum_len (parked p) + _)) by lia.
  destruct (_ || _) eqn:Eb; [by intros [= <- <-]|]. reflect_cmp. intros [= <- <-].
  destruct (lane_ok_insert (lane p k) i stack (pb :: stack) (bytes (lane p k) + pb_len pb))
  as (Hl' & more & Hold & Hnew); [done|done| |simpl; lia|].
  { intros x [->|Hx]%elem_of_cons; [done|]. by eapply (l_class _ (p_lanes0 k)). }
  set (l' := mkLane _ _) in *.
  assert (Hsum : sum_len (parked_in l') = bytes (lane p k) + pb_len pb) by (rewrite <- (l_bytes _ Hl'); done).
  assert (Hst : k = Staging -> sum_len (parked_in l') <= cap_bytes p / STAGING_SHARE_DIVISOR)
  by (intros ->; lia).
  assert (Hdiv : cap_bytes p / STAGING_SHARE_DIVISOR <= hi / STAGING_SHARE_DIVISOR)
  by (apply Z.div_le_mono; [done|lia]).
  split_and!.
  - apply (pool_ok_lane p (pb :: out) hi k l'); [by split|done|lia|lia| |].
    + intros Hk. specialize (Hst Hk). split; [lia|]. intros x Hx. rewrite Hnew in Hx.
      apply elem_of_app in Hx as [[->|Hx]%elem_of_cons|Hx]; [by apply Hrd|..];
      apply p_unread0; subst k; simpl in Hold; rewrite Hold; set_solver.
    + revert p_ids0. rewrite <- Permutation_middle, (parked_split p k), Hold, Hnew. done.
  - by destruct k.
  - rewrite parked_set, sum_len_app. lia.
  - intros ->. by apply Hst.
  - rewrite parked_set, Hnew. left.
Qed.

Lemma drained_empty (l : Lane) : concat (map (fun _ : list PageBox => @nil PageBox) (classes l)) = [].
Proof. induction (classes l); done. Qed.

Lemma drain_ok p out hi :
  pool_ok p out hi ->
  fst (drain_staging usize_bits p) = sum_len (parked_in (staging_lane p))
  /\ pool_ok (snd (drain_staging usize_bits p)) out hi
  /\ parked_in (staging_lane (snd (drain_staging usize_bits p))) = []
  /\ cap_bytes (snd (drain_staging usize_bits p)) = cap_bytes p.
Proof.
  intros Hok. pose proof Hok as []. unfold drain_staging. cbn [fst snd].
  set (l' := mkLane (map _ _) 0). set (p1 := set_lane p Staging l').
  assert (He : parked_in l' = []) by apply drained_empty.
  assert (Hl' : lane_ok l').
  { split; [simpl; rewrite length_map; apply (l_classes _ (p_lanes0 Staging))|by rewrite He|].
    simpl. intros i stack pb Hi Hp. apply list_lookup_fmap_Some in Hi as (? & -> & _).
    by apply elem_of_nil in Hp. }
  pose proof (lane_sum_nonneg _ (p_lanes0 Staging)) as Hs. rewrite sum_parked in p_total0. simpl in Hs.
  split_and!; [by apply (l_bytes _ (p_lanes0 Staging))| |done|done].
  unfold p1. rewrite total_after by (try done; rewrite He; simpl; lia).
  apply (pool_ok_lane p out hi Staging l'); [done..| | |].
  - rewrite He. simpl. lia.
  - intros _. rewrite He. split; [|by intros ? ?%elem_of_nil]. simpl. apply Z.div_pos; [lia|done].
  - revert p_ids0. unfold parked. rewrite He. simpl. rewrite !fmap_app.
    intros (H1 & H2 & H3)%NoDup_app. apply NoDup_app in H1 as (H1 & _ & _).
    apply NoDup_app. split_and!; [done|set_solver|done].
Qed.

(** ** The pool in use *)

(** The pool, the boxes its users hold and the largest cap it has had. *)
Record World := mkWorld { w_pool : PageBoxPool; w_out : list PageBox; w_hi : Z }.

Definition whole_pages (pb : PageBox) : Prop := exists q, 1 <= q /\ pb_len pb = q * PAGE_SIZE.

(** What an owner may change of a box it holds. *)
Definition same_box (pb pb' : PageBox) : Prop :=
  pb_generation pb' = pb_generation pb /\ pb_len pb' = pb_len pb.

Inductive step : World -> World -> Prop :=
  | step_fresh p out hi pb :
  pb_generation pb ∉ pb_generation <$> parked p ++ out -> whole_pages pb ->
  step (mkWorld p out hi) (mkWorld p (pb :: out) hi)
  | step_use p l1 pb pb' l2 hi :
  same_box pb pb' -> step (mkWorld p (l1 ++ pb :: l2) hi) (mkWorld p (l1 ++ pb' :: l2) hi)
  | step_acquire p out hi n r p' :
  0 <= n -> acquire usize_bits p n = Some (r, p') ->
  step (mkWorld p out hi) (mkWorld p' (option_list r ++ out) hi)
  | step_take p out hi n r p' :
  0 <= n -> pop usize_bits p Staging n = (r, p') ->
  step (mkWorld p out hi) (mkWorld p' (option_list r ++ out) hi)
  | step_recycle p out hi pb r p' :
  sum_len (parked p) + pb_len pb <= usize_max usize_bits -> recycle usize_bits p pb = (r, p') ->
  step (mkWorld p (pb :: out) hi) (mkWorld p' out hi)
  | step_recycle_staging p out hi pb b p' :
  sum_len (parked p) + pb_len pb <= usize_max usize_bits ->
  recycle_staging usize_bits p (Some pb) = (b, p') ->
  step (mkWorld p (pb :: out) hi) (mkWorld p' out hi)
  | step_swap p l1 l2 hi : step (mkWorld p (l1 ++ l2) hi) (mkWorld p (l2 ++ l1) hi)
  | step_drain p out hi : step (mkWorld p out hi) (mkWorld (snd (drain_staging usize_bits p)) out hi)
  | step_cap p out hi c :
  0 <= c <= usize_max usize_bits -> step (mkWorld p out hi) (mkWorld (set_cap p c) out (Z.max hi c)).

Definition winv (w : World) : Prop :=
  pool_ok (w_pool w) (w_out w) (w_hi w) /\ Forall whole_pages (w_out w).

Lemma pool_ok_out p out out' hi :
  pool_ok p out hi -> NoDup (pb_generation <$> parked p ++ out') -> pool_ok p out' hi.
Proof. intros [] H. by split. Qed.

Lemma ids_tail p pb out :
  NoDup (pb_generation <$> parked p ++ pb :: out) -> NoDup (pb_generation <$> parked p ++ out).
Proof. rewrite <- Permutation_middle, fmap_cons, NoDup_cons. by intros [_ ?]. Qed.

Lemma pop_winv p out hi k n r p' :
  winv (mkWorld p out hi) -> 0 <= n -> pop usize_bits p k n = (r, p') ->
  winv (mkWorld p' (option_list r ++ out) hi).
Proof.
  intros [Hok Hw] Hn Hp. pose proof (pop_ok _ _ _ _ _ _ _ Hok Hn Hp) as H. destruct r as [pb|]; simpl.
  - destruct H as (Hok' & _ & Hl & _). split; [done|]. constructor; [|done].
    eexists. split; [|exact Hl]. pose proof (div_ceil_mul_ge (Z.max n 1) PAGE_SIZE).
    unfold PAGE_SIZE in *. lia.
  - by subst p'.
Qed.

Lemma recycle_winv p out hi k pb r p' :
  winv (mkWorld p (pb :: out) hi) -> sum_len (parked p) + pb_len pb <= usize_max usize_bits ->
  (k = Staging -> has_readers pb = false) -> recycle_in usize_bits p k pb = (r, p') ->
  winv (mkWorld p' out hi).
Proof.
  intros [Hok Hw] Hfit Hrd Hr. simpl in *. apply Forall_cons in Hw as [Hpb Hw].
  pose proof (recycle_in_ok _ _ _ _ _ _ _ Hok Hpb Hfit Hrd Hr) as H. split; [|done].
  destruct r; [|apply H]. destruct H as [_ ->]. eapply pool_ok_out; [done|].
  eapply ids_tail, p_ids, Hok.
Qed.

Lemma step_winv w w' : winv w -> step w w' -> winv w'.
Proof.
  intros Hi Hs. destruct Hs as [p out hi pb Hnew Hpg|p l1 pb pb' l2 hi [Hg Hl]|p out hi n r p' Hn Ha
  |p out hi n r p' Hn Hp|p out hi pb r p' Hfit Hr|p out hi pb b p' Hfit Hr|p l1 l2 hi|p out hi|p out hi c Hc].
  - destruct Hi as [Hok Hw]. split; [|by constructor]. eapply pool_ok_out; [done|].
    simpl. rewrite <- Permutation_middle, fmap_cons, NoDup_cons. split; [done|apply Hok].
  - destruct Hi as [Hok Hw]. simpl in *. split.
    + eapply pool_ok_out; [done|]. pose proof (p_ids _ _ _ Hok) as Hn.
      rewrite !fmap_app, !fmap_cons in Hn. simpl. rewrite !fmap_app, !fmap_cons, Hg. done.
    + simpl. rewrite Forall_app, Forall_cons in Hw. rewrite Forall_app, Forall_cons.
      unfold whole_pages in *. by rewrite Hl.
  - unfold acquire in Ha. destruct (serves usize_bits p n) as [[]|]; simplify_eq/=; [|done].
    by eapply pop_winv.
  - by eapply pop_winv.
  - by eapply (recycle_winv p out hi Buffer).
  - unfold recycle_staging in Hr. destruct (has_readers pb) eqn:Hrd.
    + injection Hr as <- <-. destruct Hi as [Hok Hw]. split; [|by inversion Hw].
      eapply pool_ok_out; [done|]. eapply ids_tail, p_ids, Hok.
    + destruct (recycle_in _ _ _ _) as [r p1] eqn:E. injection Hr as <- <-.
      by eapply (recycle_winv p out hi Staging).
  - destruct Hi as [Hok Hw]. simpl in *. split; simpl.
    + eapply pool_ok_out; [done|]. rewrite (Permutation_app_comm l2 l1). apply Hok.
    + by rewrite (Permutation_app_comm l2 l1).
  - destruct Hi as [Hok Hw]. split; [|done]. by apply drain_ok.
  - destruct Hi as [[] Hw]. split; [|done]. split; simpl in *; try done; try lia.
    + unfold parked in *; simpl. lia.
    + etransitivity; [done|]. apply Z.div_le_mono; [done|lia].
Qed.

Definition start (cap : Z) : World := mkWorld (pool_new cap) [] cap.

Lemma empty_lane : parked_in lane_new = [].
Proof. vm_compute. reflexivity. Qed.

Lemma start_winv cap : 0 <= cap <= usize_max usize_bits -> winv (start cap).
Proof.
  intros Hc. assert (Hl : lane_ok lane_new).
  { split; [done|done|]. intros i stack pb Hi Hp. apply lookup_replicate in Hi as [-> _].
    by apply elem_of_nil in Hp. }
  split; [|by constructor]. split; simpl; try done; try lia.
  - by intros [].
  - apply Z.div_pos; [lia|done].
  - constructor.
  - intros pb Hp. change (pb ∈ parked_in lane_new) in Hp. rewrite empty_lane in Hp. by apply elem_of_nil in Hp.
Qed.

Lemma reachable_winv cap w : 0 <= cap <= usize_max usize_bits -> rtc step (start cap) w -> winv w.
Proof.
  intros Hc Hr. pose proof (start_winv cap Hc) as Hi.
  induction Hr as [|x y z Hs _ IH]; [done|]. by apply IH, (step_winv x).
Qed.

End Invariant.

(** The recycle pool's books.  Over any sequence of acquires, staging
    takes, recycles into either lane, drains and cap changes, the lock-free
    gauge equals the bytes parked, the parked bytes never exceed the largest
    cap the pool has had nor the staging lane its quarter, and no box is parked
    twice or parked while a user holds it. *)
Theorem pool_books usize_bits cap w :
  0 <= cap <= usize_max usize_bits ->
  rtc (step usize_bits) (start cap) w ->
  pooled_bytes (w_pool w) = sum_len (parked (w_pool w))
  /\ total_bytes usize_bits (w_pool w) = sum_len (parked (w_pool w))
  /\ sum_len (parked (w_pool w)) <= w_hi w
  /\ sum_len (parked_in (staging_lane (w_pool w))) <= w_hi w / STAGING_SHARE_DIVISOR
  /\ NoDup (pb_generation <$> parked (w_pool w) ++ w_out w).
Proof.
  intros Hc Hr. destruct (reachable_winv usize_bits cap w Hc Hr) as [Hok _].
  pose proof Hok as []. split_and!; try done. apply total_exact; [done|lia].
Qed.

Lemma try_new_uninit_box usize_bits heap st n pb st' :
  try_new_uninit usize_bits heap st n = Some (pb, st') ->
  pb_len pb = div_ceil (Z.max n 1) PAGE_SIZE * PAGE_SIZE /\ pb_logical_len pb = n
  /\ has_readers pb = false.
Proof.
  unfold try_new_uninit, try_layout_for.
  destruct (padded_len usize_bits n) as [pd|] eqn:Ep; [|done]. apply checked_Some in Ep as [-> _].
  destruct (_ <=? _); [simpl|done]. destruct (heap _); [simpl|done]. by intros [= <- _].
Qed.

Lemma try_take_from usize_bits heap st p t n pb st' p' t' :
  try_take usize_bits heap st p t n = (Some pb, st', p', t') ->
  (exists q, pop usize_bits p Staging n = (Some pb, q))
  \/ exists s1, try_new_uninit usize_bits heap st n = Some (pb, s1).
Proof.
  unfold try_take.
  destruct (negb (guarded t)), (pop usize_bits p Staging n) as [[y|] q],
    (try_new_uninit usize_bits heap st n) as [[x s1]|]; intros; simplify_eq; eauto.
Qed.

(** A box that holds [n] bytes and has exactly the padded size of a request. *)
Definition fits (usize_bits n : Z) (pb : PageBox) : Prop :=
  padded_len usize_bits n = Some (pb_len pb) /\ n <= pb_len pb /\ pb_logical_len pb = n.

Lemma acquire_fits usize_bits w n r p' :
  winv usize_bits w -> 0 <= n -> acquire usize_bits (w_pool w) n = Some (r, p') ->
  match r with Some pb => fits usize_bits n pb | None => p' = w_pool w end.
Proof.
  intros [Hok _] Hn. unfold acquire, serves. destruct (enabled _); [simpl|by intros [= <- <-]].
  destruct (padded_len usize_bits n) as [padded|] eqn:Ep; [simpl|done].
  destruct (_ <=? _); [|by intros [= <- <-]]. intros [= E].
  pose proof (pop_ok usize_bits _ _ _ _ _ _ _ Hok Hn E) as Hp. destruct r as [pb|]; [|done].
  destruct Hp as (_ & _ & Hlen & Hl & _). pose proof (div_ceil_mul_ge (Z.max n 1) PAGE_SIZE ltac:(done)).
  unfold fits. rewrite Ep. apply checked_Some in Ep as [-> _]. rewrite Hlen. split_and!; [done|lia|done].
Qed.

(** What the pool hands out.  A box an acquire, an acquire retried after a
    retirement pass or a staging take answers, parked or fresh, has exactly the
    padded size of the request and is retargeted to it; a staging box is one no
    upload reads. *)
Theorem pool_serves_size usize_bits cap w n :
  0 <= cap <= usize_max usize_bits -> rtc (step usize_bits) (start cap) w -> 0 <= n ->
  (forall pb p', acquire usize_bits (w_pool w) n = Some (Some pb, p') -> fits usize_bits n pb)
  /\ (forall w' retire pb p', rtc (step usize_bits) (start cap) w' -> retire (w_pool w) = w_pool w' ->
        acquire_or_retire usize_bits (w_pool w) n retire = Some (Some pb, p') -> fits usize_bits n pb)
  /\ (forall heap st pb st' p' t',
        try_take usize_bits heap st (w_pool w) (take_staging (w_pool w)) n = (Some pb, st', p', t') ->
        div_ceil (Z.max n 1) PAGE_SIZE * PAGE_SIZE = pb_len pb /\ n <= pb_len pb /\ pb_logical_len pb = n
        /\ has_readers pb = false).
Proof.
  intros Hc Hr Hn. pose proof (reachable_winv usize_bits cap w Hc Hr) as Hw. destruct (Hw) as [Hok _].
  pose proof (div_ceil_mul_ge (Z.max n 1) PAGE_SIZE ltac:(done)) as Hge. split_and!.
  - intros pb p' E. by apply (acquire_fits _ _ _ _ _ Hw Hn E).
  - intros w' retire pb p' Hr' Hret. unfold acquire_or_retire.
    destruct (acquire usize_bits (w_pool w) n) as [[r q]|] eqn:E; [simpl|done].
    pose proof (acquire_fits _ _ _ _ _ Hw Hn E) as Hf. destruct r as [x|]; [by intros [= <- _]|]. subst q.
    destruct (serves _ _ _) as [[]|]; simpl; try done.
    destruct (padded_len _ _); [simpl|done]. destruct (_ <? _); [done|]. rewrite Hret. intros E'.
    by apply (acquire_fits _ _ _ _ _ (reachable_winv usize_bits cap w' Hc Hr') Hn E').
  - intros heap st pb st' p' t' [[q E]|[s1 E]]%try_take_from.
    + pose proof (pop_ok usize_bits _ _ _ _ _ _ _ Hok Hn E) as (_ & _ & Hlen & Hl & _ & Hrd).
      rewrite Hlen. split_and!; [done|lia|done|by apply Hrd].
    + apply try_new_uninit_box in E as (Hlen & Hl & Hrd). rewrite Hlen. split_and!; [done|lia|done..].
Qed.

Definition zero_pages (_ : Z) : option (Z -> Z) := Some (fun _ => 0).
Definition one_box : PageBox := mkPageBox 1 32768 20000 true 0 (fun _ => 0).

(** A box of two pages, parked in the staging lane. *)
Definition parked_world : World :=
  mkWorld (snd (recycle_staging 32 (pool_new 1048576) (Some one_box))) [] 1048576.

Lemma parked_world_reachable : rtc (step 32) (start 1048576) parked_world.
Proof.
  eapply rtc_l; [apply (step_fresh 32 _ _ _ one_box)|].
  - vm_compute. apply not_elem_of_nil.
  - exists 2. unfold PAGE_SIZE. simpl. lia.
  - apply rtc_once. apply (step_recycle_staging 32 (pool_new 1048576) [] 1048576 one_box true);
      [vm_compute; discriminate|reflexivity].
Qed.

Lemma pool_books_witness :
  pooled_bytes (w_pool parked_world) = 32768 /\ sum_len (parked (w_pool parked_world)) <= 1048576.
Proof.
  split; [vm_compute; reflexivity|].
  destruct (pool_books 32 1048576 parked_world ltac:(unfold usize_max; lia) parked_world_reachable)
    as (_ & _ & H & _). exact H.
Defined.

Lemma pool_serves_size_witness :
  exists pb st' p' t',
    try_take 32 zero_pages (mkStatics 1 0) (w_pool parked_world) (take_staging (w_pool parked_world)) 30000
    = (Some pb, st', p', t') /\ pb_logical_len pb = 30000 /\ hits t' = 1.
Proof.
  destruct (pool_serves_size 32 1048576 parked_world 30000 ltac:(unfold usize_max; lia)
    parked_world_reachable ltac:(lia)) as (_ & _ & H).
  destruct (try_take 32 zero_pages (mkStatics 1 0) (w_pool parked_world)
    (take_staging (w_pool parked_world)) 30000) as [[[[pb|] st'] p'] t'] eqn:E.
  - exists pb, st', p', t'. split; [reflexivity|]. split; [apply (H _ _ _ _ _ _ E)|].
    vm_compute in E. injection E as _ _ _ <-. reflexivity.
  - vm_compute in E. discriminate.
Defined.
