(* ===== verification/Mtl.v ===== *)
(** [shared/src/mtl.rs]: the pixel formats on the wire, their sRGB twins and the
    block each one addresses. *)

From S2P Require Import Prelude.

Inductive PixelFormat :=
  | A8Unorm | R8Unorm | R16Unorm | R16Float | Rg8Unorm | Rg8Snorm | B5G6R5Unorm
  | Abgr4Unorm | Bgr5A1Unorm | Rg16Unorm | Rg16Snorm | R32Float | Rg16Float | Rgba8Unorm
  | Rgba8UnormSrgb | Rgba8Snorm | Bgra8Unorm | Bgra8UnormSrgb | Rgb10A2Unorm
  | Bgr10A2Unorm | Rg32Float | Rgba16Unorm | Rgba16Snorm | Rgba16Float | Rgba32Float
  | Bc1Rgba | Bc1RgbaSrgb | Bc2Rgba | Bc2RgbaSrgb | Bc3Rgba | Bc3RgbaSrgb | Bc4RUnorm
  | Depth32Float | Depth32FloatStencil8.

#[global] Instance PixelFormat_eq_dec : EqDecision PixelFormat.
Proof. solve_decision. Defined.

(** The discriminant a format crosses the boundary as. *)
Definition repr (f : PixelFormat) : Z :=
  match f with
  | A8Unorm => 1 | R8Unorm => 10 | R16Unorm => 20 | R16Float => 25 | Rg8Unorm => 30
  | Rg8Snorm => 32 | B5G6R5Unorm => 40 | Abgr4Unorm => 42 | Bgr5A1Unorm => 43
  | Rg16Unorm => 60 | Rg16Snorm => 62 | R32Float => 55 | Rg16Float => 65
  | Rgba8Unorm => 70 | Rgba8UnormSrgb => 71 | Rgba8Snorm => 72 | Bgra8Unorm => 80
  | Bgra8UnormSrgb => 81 | Rgb10A2Unorm => 90 | Bgr10A2Unorm => 94 | Rg32Float => 105
  | Rgba16Unorm => 110 | Rgba16Snorm => 112 | Rgba16Float => 115 | Rgba32Float => 125
  | Bc1Rgba => 130 | Bc1RgbaSrgb => 131 | Bc2Rgba => 132 | Bc2RgbaSrgb => 133
  | Bc3Rgba => 134 | Bc3RgbaSrgb => 135 | Bc4RUnorm => 140 | Depth32Float => 252
  | Depth32FloatStencil8 => 260
  end.

Definition all_formats : list PixelFormat :=
  [A8Unorm; R8Unorm; R16Unorm; R16Float; Rg8Unorm; Rg8Snorm; B5G6R5Unorm; Abgr4Unorm;
   Bgr5A1Unorm; Rg16Unorm; Rg16Snorm; R32Float; Rg16Float; Rgba8Unorm; Rgba8UnormSrgb;
   Rgba8Snorm; Bgra8Unorm; Bgra8UnormSrgb; Rgb10A2Unorm; Bgr10A2Unorm; Rg32Float;
   Rgba16Unorm; Rgba16Snorm; Rgba16Float; Rgba32Float; Bc1Rgba; Bc1RgbaSrgb; Bc2Rgba;
   Bc2RgbaSrgb; Bc3Rgba; Bc3RgbaSrgb; Bc4RUnorm; Depth32Float; Depth32FloatStencil8].

(** [FromRepr]: the format of a discriminant, if one has it. *)
Definition from_repr (v : Z) : option PixelFormat :=
  snd <$> list_find (λ f, repr f = v) all_formats.

Definition srgb_twin (f : PixelFormat) : option PixelFormat :=
  match f with
  | Rgba8Unorm => Some Rgba8UnormSrgb
  | Bgra8Unorm => Some Bgra8UnormSrgb
  | Bc1Rgba => Some Bc1RgbaSrgb
  | Bc2Rgba => Some Bc2RgbaSrgb
  | Bc3Rgba => Some Bc3RgbaSrgb
  | _ => None
  end.

Module BlockLayout.
Record t := mk { width : Z; height : Z; bytes : Z }.
Definition pixel (bytes : Z) : t := mk 1 1 bytes.
Definition compressed (bytes : Z) : t := mk 4 4 bytes.
Definition unmapped : t := pixel 1.
End BlockLayout.

Definition block_layout (f : PixelFormat) : BlockLayout.t :=
  match f with
  | A8Unorm | R8Unorm => BlockLayout.pixel 1
  | R16Unorm | R16Float | Rg8Unorm | Rg8Snorm | B5G6R5Unorm | Abgr4Unorm | Bgr5A1Unorm =>
      BlockLayout.pixel 2
  | R32Float | Rg16Unorm | Rg16Snorm | Rg16Float | Rgba8Unorm | Rgba8UnormSrgb | Rgba8Snorm
  | Bgra8Unorm | Bgra8UnormSrgb | Rgb10A2Unorm | Bgr10A2Unorm | Depth32Float => BlockLayout.pixel 4
  | Rg32Float | Rgba16Unorm | Rgba16Snorm | Rgba16Float | Depth32FloatStencil8 => BlockLayout.pixel 8
  | Rgba32Float => BlockLayout.pixel 16
  | Bc1Rgba | Bc1RgbaSrgb | Bc4RUnorm => BlockLayout.compressed 8
  | Bc2Rgba | Bc2RgbaSrgb | Bc3Rgba | Bc3RgbaSrgb => BlockLayout.compressed 16
  end.

(** [TextureCreateFlags]. *)
Definition TYPE_3D : Z := 2.
Definition TYPE_CUBE : Z := 4.

(** [TextureUsage]. *)
Definition RENDER_TARGET : Z := 1.
Definition DEPTH_STENCIL : Z := 2.

(** A discriminant written by one side is read back as the same format. *)
Lemma from_repr_repr f : from_repr (repr f) = Some f.
Proof. by destruct f. Qed.

(** A twin shares the block of its linear format, so a view of it addresses the
    same bytes. *)
Lemma srgb_twin_layout f g : srgb_twin f = Some g -> block_layout g = block_layout f.
Proof. by destruct f; intros [= <-]. Qed.

Lemma block_layout_bounds f :
  let b := block_layout f in
  (BlockLayout.width b = 1 \/ BlockLayout.width b = 4) /\ BlockLayout.height b = BlockLayout.width b
  /\ 1 <= BlockLayout.bytes b <= 16.
Proof. destruct f; simpl; lia. Qed.
