(* ===== verification/StampGrid.v ===== *)
(** [texture_versions.rs], the write history: a grid of write stamps per
    subresource and the box of texels written after a given stamp. *)

From S2P Require Import Prelude Mtl.

Definition MIN_TILE_TEXELS : Z := 16.
Definition MAX_TILES_PER_AXIS : Z := 32.

Module TexelRect.
Record t := mk { x : Z; y : Z; width : Z; height : Z }.
Definition level (width height : Z) : t := mk 0 0 width height.
#[global] Instance eq_dec : EqDecision t.
Proof. solve_decision. Defined.
End TexelRect.

Definition tile_edge (extent block : Z) : Z :=
  next_multiple_of32 (Z.max (div_ceil extent MAX_TILES_PER_AXIS) MIN_TILE_TEXELS) block.

Definition level_extent (base level : Z) : Z := Z.max (Z.shiftr (Z.max base 1) level) 1.

(** [slice[a..=b].fill(v)]. *)
Definition fill_range (l : list Z) (a b v : Z) : list Z :=
  imap (λ i s, if (a <=? Z.of_nat i) && (Z.of_nat i <=? b) then v else s) l.

Module StampGrid.

Record t := mk {
  width : Z; height : Z; tile_width : Z; tile_height : Z;
  columns : Z; rows : Z; newest : Z; stamps : list Z }.

Definition new (width height : Z) (block : BlockLayout.t) : t :=
  let tile_width := tile_edge width (BlockLayout.width block) in
  let tile_height := tile_edge height (BlockLayout.height block) in
  let columns := div_ceil width tile_width in
  let rows := div_ceil height tile_height in
  mk width height tile_width tile_height columns rows 0 (replicate (Z.to_nat (columns *% rows)%u32) 0).

Definition set_stamps (g : t) (n : Z) (l : list Z) : t :=
  mk (width g) (height g) (tile_width g) (tile_height g) (columns g) (rows g) n l.

Definition stamp (g : t) (rect : TexelRect.t) (stamp : Z) : t :=
  let x_end := Z.min (TexelRect.x rect +| TexelRect.width rect)%u32 (width g) in
  let y_end := Z.min (TexelRect.y rect +| TexelRect.height rect)%u32 (height g) in
  if (x_end <=? TexelRect.x rect) || (y_end <=? TexelRect.y rect) then g
  else
    let first_column := TexelRect.x rect / tile_width g in
    let last_column := (x_end -% 1)%u32 / tile_width g in
    let first_row := TexelRect.y rect / tile_height g in
    let last_row := (y_end -% 1)%u32 / tile_height g in
    set_stamps g stamp
      (foldl (λ l row,
         let start := ((row *% columns g) +% first_column)%u32 in
         let stop := ((row *% columns g) +% last_column)%u32 in
         fill_range l start stop stamp)
         (stamps g) (seqZ first_row (last_row - first_row + 1))).

(** The [(row, column)] pairs the scan visits, row by row. *)
Definition tiles (g : t) : list (Z * Z) :=
  seqZ 0 (rows g) ≫= λ row, pair row <$> seqZ 0 (columns g).

Definition stamp_at (g : t) (row column : Z) : Z :=
  default 0 (stamps g !! Z.to_nat (row * columns g + column)).

Definition written_since (g : t) (held : Z) : option TexelRect.t :=
  if newest g <=? held then None
  else
    let '(c0, c1, r0, r1) :=
      foldl (λ acc '(row, column),
        let '(c0, c1, r0, r1) := acc in
        if held <? stamp_at g row column
        then (Z.min c0 column, Z.max c1 column, Z.min r0 row, Z.max r1 row) else acc)
        (u32_max, 0, u32_max, 0) (tiles g) in
    let x := (c0 *% tile_width g)%u32 in
    let y := (r0 *% tile_height g)%u32 in
    let x_end := Z.min ((c1 +% 1) *% tile_width g)%u32 (width g) in
    let y_end := Z.min ((r1 +% 1) *% tile_height g)%u32 (height g) in
    Some (TexelRect.mk x y (x_end -% x)%u32 (y_end -% y)%u32).

End StampGrid.

Example stamp_box :
  let g := StampGrid.stamp (StampGrid.new 512 256 (BlockLayout.pixel 4)) (TexelRect.mk 40 20 30 5) 1 in
  StampGrid.written_since g 0 = Some (TexelRect.mk 32 16 48 16) /\ StampGrid.written_since g 1 = None.
Proof. vm_compute. done. Qed.

(** ** Geometry *)

(** Extents a level can have; the bound keeps every edge inside 32 bits. *)
Definition extent_ok (e : Z) : Prop := 1 <= e <= 2147483647.

Lemma tile_edge_spec extent b :
  extent_ok extent -> 1 <= b <= 4 ->
  let t := tile_edge extent b in
  16 <= t <= 134217728 /\ t mod b = 0 /\ extent <= 32 * t.
Proof.
  intros He Hb t. unfold t, tile_edge, next_multiple_of32, MAX_TILES_PER_AXIS, MIN_TILE_TEXELS.
  pose proof (div_ceil_mul_ge extent 32 ltac:(lia)). pose proof (div_ceil_mul_lt extent 32 ltac:(lia)).
  set (v := Z.max (div_ceil extent 32) 16).
  pose proof (div_ceil_mul_ge v b ltac:(lia)). pose proof (div_ceil_mul_lt v b ltac:(lia)).
  unfold extent_ok in He.
  rewrite wrap32_small by (unfold is_u32, u32_max; lia).
  split; [lia|]. split; [apply Z_mod_mult|lia].
Qed.

(** One axis of a grid: [n] tiles of [t] texels cover [e]. *)
Record axis_ok (e t n b : Z) : Prop := {
  a_extent : extent_ok e;
  a_tile : 16 <= t <= 134217728;
  a_block : 1 <= b <= 4 /\ t mod b = 0;
  a_count : 1 <= n <= 32;
  a_cover : (n - 1) * t < e <= n * t;
}.

Lemma axis_new e b :
  extent_ok e -> 1 <= b <= 4 -> axis_ok e (tile_edge e b) (div_ceil e (tile_edge e b)) b.
Proof.
  intros He Hb. destruct (tile_edge_spec e b He Hb) as (Ht & Hm & Hc).
  pose proof (div_ceil_mul_ge e (tile_edge e b) ltac:(lia)) as H1.
  pose proof (div_ceil_mul_lt e (tile_edge e b) ltac:(lia)) as H2.
  assert (div_ceil e (tile_edge e b) <= 32) by (apply div_ceil_spec; lia).
  split; try done; [|lia]. unfold extent_ok in *. split; [|done]. nia.
Qed.

(** The tile of a texel is one of the axis's tiles. *)
Lemma axis_tile e t n b p : axis_ok e t n b -> 0 <= p < e -> 0 <= p / t < n /\ p / t * t <= p < (p / t + 1) * t.
Proof.
  intros [] Hp. pose proof (Z.mul_div_le p t ltac:(lia)). pose proof (Z.mul_succ_div_gt p t ltac:(lia)).
  assert (0 <= p / t) by (apply Z.div_pos; lia). split; [|lia]. split; [done|].
  apply Z.div_lt_upper_bound; lia.
Qed.

Record grid_ok (b : BlockLayout.t) (g : StampGrid.t) : Prop := {
  g_x : axis_ok (StampGrid.width g) (StampGrid.tile_width g) (StampGrid.columns g) (BlockLayout.width b);
  g_y : axis_ok (StampGrid.height g) (StampGrid.tile_height g) (StampGrid.rows g) (BlockLayout.height b);
  g_len : Z.of_nat (length (StampGrid.stamps g)) = StampGrid.rows g * StampGrid.columns g;
}.

Definition in_grid (g : StampGrid.t) (row column : Z) : Prop :=
  0 <= row < StampGrid.rows g /\ 0 <= column < StampGrid.columns g.

Definition block_ok (b : BlockLayout.t) : Prop :=
  1 <= BlockLayout.width b <= 4 /\ 1 <= BlockLayout.height b <= 4.

Lemma new_ok w h b : extent_ok w -> extent_ok h -> block_ok b -> grid_ok b (StampGrid.new w h b).
Proof.
  intros Hw Hh [Hbw Hbh]. pose proof (axis_new w _ Hw Hbw) as Hx. pose proof (axis_new h _ Hh Hbh) as Hy.
  split; [done|done|]. simpl. rewrite length_replicate. destruct (a_count _ _ _ _ Hx), (a_count _ _ _ _ Hy).
  rewrite wrap32_small by (unfold is_u32, u32_max; nia). nia.
Qed.

(** ** Stamping *)

Lemma fill_range_lookup l a b v i s :
  l !! i = Some s ->
  fill_range l a b v !! i = Some (if (a <=? Z.of_nat i) && (Z.of_nat i <=? b) then v else s).
Proof. intros H. unfold fill_range. by rewrite list_lookup_imap, H. Qed.

Lemma fill_range_length l a b v : length (fill_range l a b v) = length l.
Proof. apply length_imap. Qed.

(** A cell of a row-major grid lies in a run of one row iff it is in the row. *)
Lemma run_cell C row row' c c0 c1 :
  0 <= c < C -> 0 <= c0 -> c1 < C ->
  (row * C + c0 <=? row' * C + c) && (row' * C + c <=? row * C + c1)
  = (row =? row') && (c0 <=? c) && (c <=? c1).
Proof.
  intros Hc H0 H1. destruct (Z.eq_dec row row') as [<-|Hne].
  - rewrite Z.eqb_refl. simpl. f_equal; apply eq_bool_prop_intro; rewrite !Is_true_true, !Z.leb_le; lia.
  - rewrite (proj2 (Z.eqb_neq row row')) by done. simpl. apply andb_false_iff. rewrite !Z.leb_gt. nia.
Qed.

Section Run.
Context (C c0 c1 v : Z) (HC : 1 <= C <= 32) (Hc : 0 <= c0 /\ c1 < C).

Definition fill_rows (l : list Z) (rs : list Z) : list Z :=
  foldl (λ l row, fill_range l ((row *% C) +% c0)%u32 ((row *% C) +% c1)%u32 v) l rs.

Lemma fill_rows_length l rs : length (fill_rows l rs) = length l.
Proof.
  unfold fill_rows. revert l. induction rs as [|r rs IH]; intros l; simpl; [done|].
  by rewrite IH, fill_range_length.
Qed.

Lemma fill_rows_cell l rs row c s :
  (forall r, r ∈ rs -> 0 <= r < 32) -> 0 <= row -> 0 <= c < C -> 0 <= c0 <= c1 ->
  l !! Z.to_nat (row * C + c) = Some s ->
  fill_rows l rs !! Z.to_nat (row * C + c)
  = Some (if bool_decide (row ∈ rs) && (c0 <=? c) && (c <=? c1) then v else s).
Proof.
  intros Hrs Hrow Hcol H01. revert l s Hrs. unfold fill_rows.
  induction rs as [|r rs IH]; intros l s Hrs Hl; simpl; [done|].
  assert (Hr : 0 <= r < 32) by (apply Hrs; left).
  rewrite !wrap32_small by (try apply wrap32_range; unfold is_u32, u32_max; rewrite ?wrap32_small; unfold is_u32, u32_max; nia).
  erewrite IH; [|intros; apply Hrs; by right|by apply fill_range_lookup].
  rewrite Z2Nat.id by nia. rewrite run_cell by lia. f_equal.
  destruct (Z.eq_dec r row) as [->|Hne].
  - rewrite Z.eqb_refl, (bool_decide_eq_true_2 (row ∈ row :: rs)) by left. simpl.
    destruct ((c0 <=? c) && (c <=? c1)) eqn:E; [|by rewrite <- andb_assoc, E, andb_false_r].
    by destruct (bool_decide (row ∈ rs) && (c0 <=? c) && (c <=? c1)).
  - rewrite (proj2 (Z.eqb_neq r row)) by done. simpl.
    assert (bool_decide (row ∈ r :: rs) = bool_decide (row ∈ rs)) as ->; [|done].
    apply bool_decide_ext. set_solver.
Qed.

End Run.

Definition rect_u32 (r : TexelRect.t) : Prop :=
  is_u32 (TexelRect.x r) /\ is_u32 (TexelRect.y r) /\ is_u32 (TexelRect.width r) /\ is_u32 (TexelRect.height r).

Definition covers (r : TexelRect.t) (px py : Z) : Prop :=
  TexelRect.x r <= px < TexelRect.x r + TexelRect.width r
  /\ TexelRect.y r <= py < TexelRect.y r + TexelRect.height r.

#[global] Instance covers_dec r px py : Decision (covers r px py).
Proof. unfold covers. apply _. Defined.

Definition in_level (g : StampGrid.t) (px py : Z) : Prop :=
  0 <= px < StampGrid.width g /\ 0 <= py < StampGrid.height g.

(** The stamp of the tile a texel lies in. *)
Definition texel_stamp (g : StampGrid.t) (px py : Z) : Z :=
  StampGrid.stamp_at g (py / StampGrid.tile_height g) (px / StampGrid.tile_width g).

(** The same grid with other stamps. *)
Definition same_shape (g g' : StampGrid.t) : Prop :=
  StampGrid.width g' = StampGrid.width g /\ StampGrid.height g' = StampGrid.height g
  /\ StampGrid.tile_width g' = StampGrid.tile_width g /\ StampGrid.tile_height g' = StampGrid.tile_height g
  /\ StampGrid.columns g' = StampGrid.columns g /\ StampGrid.rows g' = StampGrid.rows g.

Lemma cell_lookup b g row column :
  grid_ok b g -> in_grid g row column ->
  StampGrid.stamps g !! Z.to_nat (row * StampGrid.columns g + column)
  = Some (StampGrid.stamp_at g row column).
Proof.
  intros [] [Hr Hc]. unfold StampGrid.stamp_at.
  destruct (StampGrid.stamps g !! _) as [s|] eqn:E; [done|]. exfalso.
  apply lookup_ge_None in E. destruct (a_count _ _ _ _ g_x0). nia.
Qed.

(** One stamp: the tiles the clamped rectangle touches take it, the others
    keep theirs. *)
Lemma stamp_cells b g rect s :
  grid_ok b g -> rect_u32 rect ->
  let g' := StampGrid.stamp g rect s in
  grid_ok b g' /\ same_shape g g'
  /\ ((g' = g /\ forall px py, in_level g px py -> ~ covers rect px py)
      \/ StampGrid.newest g' = s
         /\ (forall row column, in_grid g row column ->
               StampGrid.stamp_at g' row column = s
               \/ StampGrid.stamp_at g' row column = StampGrid.stamp_at g row column)
         /\ (forall px py, in_level g px py -> covers rect px py -> texel_stamp g' px py = s)
         /\ exists row column, in_grid g row column /\ StampGrid.stamp_at g' row column = s).
Proof.
  intros Hg (Hx & Hy & Hw & Hh) g'. unfold g', StampGrid.stamp. clear g'. pose proof Hg as [Gx Gy Gl].
  destruct Gx as [Ex Tx Bx Nx Cx], Gy as [Ey Ty By Ny Cy].
  assert (Hxe : Z.min (TexelRect.x rect +| TexelRect.width rect)%u32 (StampGrid.width g)
    = Z.min (TexelRect.x rect + TexelRect.width rect) (StampGrid.width g))
    by (unfold extent_ok, sat, u32_max, is_u32 in *; lia).
  assert (Hye : Z.min (TexelRect.y rect +| TexelRect.height rect)%u32 (StampGrid.height g)
    = Z.min (TexelRect.y rect + TexelRect.height rect) (StampGrid.height g))
    by (unfold extent_ok, sat, u32_max, is_u32 in *; lia).
  rewrite Hxe, Hye. clear Hxe Hye.
  set (xe := Z.min (TexelRect.x rect + _) _). set (ye := Z.min (TexelRect.y rect + _) _).
  destruct (_ || _) eqn:E.
  { split; [done|]. split; [done|]. left. split; [done|]. intros px py [] []. 
    apply orb_true_iff in E as [E|E]; reflect_cmp; lia. }
  reflect_cmp. unfold is_u32 in *.
  rewrite !wrap32_small by (unfold is_u32, u32_max; unfold extent_ok in *; lia).
  destruct (axis_tile _ _ _ _ (TexelRect.x rect) (g_x _ _ Hg)) as [Hc0 _]; [lia|].
  destruct (axis_tile _ _ _ _ (xe - 1) (g_x _ _ Hg)) as [Hc1 _]; [lia|].
  destruct (axis_tile _ _ _ _ (TexelRect.y rect) (g_y _ _ Hg)) as [Hr0 _]; [lia|].
  destruct (axis_tile _ _ _ _ (ye - 1) (g_y _ _ Hg)) as [Hr1 _]; [lia|].
  assert (Hc01 : TexelRect.x rect / StampGrid.tile_width g <= (xe - 1) / StampGrid.tile_width g)
    by (apply Z.div_le_mono; lia).
  assert (Hr01 : TexelRect.y rect / StampGrid.tile_height g <= (ye - 1) / StampGrid.tile_height g)
    by (apply Z.div_le_mono; lia).
  set (c0 := TexelRect.x rect / _) in *. set (c1 := (xe - 1) / _) in *.
  set (r0 := TexelRect.y rect / _) in *. set (r1 := (ye - 1) / _) in *.
  set (rs := seqZ r0 (r1 - r0 + 1)).
  change (foldl _ (StampGrid.stamps g) rs) with (fill_rows (StampGrid.columns g) c0 c1 s (StampGrid.stamps g) rs).
  set (g' := StampGrid.set_stamps g s _).
  assert (Hin : forall r, r ∈ rs <-> r0 <= r <= r1) by (intros r; unfold rs; rewrite elem_of_seqZ; lia).
  assert (Hcell : forall row column, in_grid g row column -> StampGrid.stamp_at g' row column
    = if bool_decide (row ∈ rs) && (c0 <=? column) && (column <=? c1) then s
      else StampGrid.stamp_at g row column).
  { intros row column Hi. unfold StampGrid.stamp_at at 1; simpl.
    pose proof (cell_lookup b g row column Hg Hi) as Hl. destruct Hi as [Hir Hic].
    erewrite fill_rows_cell; [reflexivity|try lia..|exact Hl]. intros r Hr%Hin. lia. }
  split; [split; [done|done|by simpl; rewrite fill_rows_length]|]. split; [done|]. right.
  split; [done|]. split; [|split].
  - intros row column Hi. rewrite Hcell by done. destruct (_ && _ && _); [by left|by right].
  - intros px py [Hpx Hpy] [Hcx Hcy]. unfold texel_stamp; simpl.
    destruct (axis_tile _ _ _ _ px (g_x _ _ Hg) Hpx) as [Hpc _].
    destruct (axis_tile _ _ _ _ py (g_y _ _ Hg) Hpy) as [Hpr _].
    rewrite Hcell by done.
    assert (c0 <= px / StampGrid.tile_width g <= c1)
      by (unfold c0, c1; split; apply Z.div_le_mono; lia).
    assert (r0 <= py / StampGrid.tile_height g <= r1)
      by (unfold r0, r1; split; apply Z.div_le_mono; lia).
    rewrite bool_decide_eq_true_2 by (apply Hin; lia).
    rewrite (proj2 (Z.leb_le c0 _)), (proj2 (Z.leb_le _ c1)) by lia. done.
  - exists r0, c0. split; [done|]. rewrite Hcell by done.
    rewrite (bool_decide_eq_true_2 _ (proj2 (Hin r0) ltac:(lia))).
    rewrite Z.leb_refl, (proj2 (Z.leb_le c0 c1)) by lia. done.
Qed.

(** ** The box of later writes *)

(** The four bounds the scan keeps. *)
Definition box : Type := Z * Z * Z * Z.

Definition scan_tile (g : StampGrid.t) (held : Z) (acc : box) (cell : Z * Z) : box :=
  let '(row, column) := cell in
  let '(c0, c1, r0, r1) := acc in
  if held <? StampGrid.stamp_at g row column
  then (Z.min c0 column, Z.max c1 column, Z.min r0 row, Z.max r1 row) else acc.

(** The bounds hold every later cell, and come from such cells once one was seen. *)
Definition box_ok (g : StampGrid.t) (held : Z) (seen : list (Z * Z)) (acc : box) : Prop :=
  let '(c0, c1, r0, r1) := acc in
  (forall row column, (row, column) ∈ seen -> held < StampGrid.stamp_at g row column ->
     c0 <= column <= c1 /\ r0 <= row <= r1)
  /\ ((acc = (u32_max, 0, u32_max, 0) /\ forall row column, (row, column) ∈ seen ->
          StampGrid.stamp_at g row column <= held)
      \/ (0 <= c0 <= c1 /\ c1 < StampGrid.columns g /\ 0 <= r0 <= r1 /\ r1 < StampGrid.rows g)).

Lemma scan_ok b g held cells seen acc :
  grid_ok b g -> (forall row column, (row, column) ∈ cells -> in_grid g row column) ->
  box_ok g held seen acc -> box_ok g held (seen ++ cells) (foldl (scan_tile g held) acc cells).
Proof.
  intros Hg. revert seen acc. induction cells as [|[row column] cells IH]; intros seen acc Hin Hb;
    simpl; [by rewrite app_nil_r|].
  rewrite cons_middle, app_assoc. apply IH; [intros; apply Hin; by right|].
  destruct (Hin row column ltac:(left)) as [Hr Hc].
  destruct (a_count _ _ _ _ (g_x _ _ Hg)), (a_count _ _ _ _ (g_y _ _ Hg)).
  destruct acc as [[[c0 c1] r0] r1]. simpl. destruct (held <? StampGrid.stamp_at g row column) eqn:E; reflect_cmp.
  - destruct Hb as [Hall Hor]. split.
    + intros row' column' [Hs|Hs]%elem_of_app Hst.
      * specialize (Hall _ _ Hs Hst). lia.
      * apply list_elem_of_singleton in Hs. injection Hs as -> ->. lia.
    + right. destruct Hor as [[[= -> -> -> ->] _]|Hor]; unfold u32_max in *; lia.
  - destruct Hb as [Hall Hor]. split.
    + intros row' column' [Hs|Hs]%elem_of_app Hst; [by apply Hall|].
      apply list_elem_of_singleton in Hs. injection Hs as -> ->. lia.
    + destruct Hor as [[Ea Hno]|Hor]; [left|by right]. split; [done|].
      intros row' column' [Hs|Hs]%elem_of_app; [by apply Hno|].
      apply list_elem_of_singleton in Hs. by injection Hs as -> ->.
Qed.

Lemma elem_of_tiles g row column :
  (row, column) ∈ StampGrid.tiles g <-> in_grid g row column.
Proof.
  unfold StampGrid.tiles, in_grid. rewrite list_elem_of_bind. split.
  - intros (r & (c & [= -> ->] & Hc)%list_elem_of_fmap & Hr). apply elem_of_seqZ in Hr, Hc. lia.
  - intros [Hr Hc]. exists row. split; [|apply elem_of_seqZ; lia].
    apply list_elem_of_fmap. exists column. split; [done|]. apply elem_of_seqZ. lia.
Qed.

(** A stamped grid and the writes it has seen, newest first. *)
Record sound (b : BlockLayout.t) (g : StampGrid.t) (ws : list (TexelRect.t * Z)) : Prop := {
  s_grid : grid_ok b g;
  s_stamped : forall r s px py, (r, s) ∈ ws -> in_level g px py -> covers r px py ->
    s <= texel_stamp g px py;
  s_newest : forall row column, in_grid g row column -> StampGrid.stamp_at g row column <= StampGrid.newest g;
  s_attained : StampGrid.newest g = 0
    \/ exists row column, in_grid g row column /\ StampGrid.stamp_at g row column = StampGrid.newest g;
}.

Lemma sound_new w h b : extent_ok w -> extent_ok h -> block_ok b -> sound b (StampGrid.new w h b) [].
Proof.
  intros. pose proof (new_ok w h b ltac:(done) ltac:(done) ltac:(done)) as Hg. split; [done|..|by left].
  - intros r s px py Hin. by apply elem_of_nil in Hin.
  - intros row column Hi. simpl. pose proof (cell_lookup b _ row column Hg Hi) as Hl. simpl in Hl.
    apply lookup_replicate in Hl as [-> _]. done.
Qed.

Lemma sound_stamp b g ws r s :
  sound b g ws -> rect_u32 r -> StampGrid.newest g < s -> sound b (StampGrid.stamp g r s) ((r, s) :: ws).
Proof.
  intros [Hg Hst Hn Ha] Hr Hs.
  destruct (stamp_cells b g r s Hg Hr) as (Hg' & Hsh & [[-> Hmiss]|(Hn' & Hcell & Hcov & Hex)]).
  - split; [done|..|done]; [|done]. intros r' s' px py [[= -> ->]|Hin]%elem_of_cons Hl Hc; [|by eapply Hst].
    by destruct (Hmiss px py).
  - destruct Hsh as (Ew & Eh & Etw & Eth & Ec & Er).
    assert (Hmono : forall row column, in_grid g row column ->
      StampGrid.stamp_at g row column <= StampGrid.stamp_at (StampGrid.stamp g r s) row column
      /\ StampGrid.stamp_at (StampGrid.stamp g r s) row column <= s).
    { intros row column Hi. specialize (Hn row column Hi). destruct (Hcell row column Hi); lia. }
    split; [done|..].
    + intros r' s' px py Hin Hl Hc. unfold in_level in Hl. rewrite Ew, Eh in Hl.
      apply elem_of_cons in Hin as [[= -> ->]|Hin]; [by rewrite Hcov|].
      etransitivity; [by eapply Hst|]. unfold texel_stamp. rewrite Etw, Eth. apply Hmono.
      destruct Hl as [Hlx Hly].
      split; [apply (axis_tile _ _ _ _ _ (g_y _ _ Hg) Hly)|apply (axis_tile _ _ _ _ _ (g_x _ _ Hg) Hlx)].
    + intros row column Hi. rewrite Hn'. apply Hmono. unfold in_grid in *. by rewrite Ec, Er in Hi.
    + right. destruct Hex as (row & column & Hi & E). exists row, column. rewrite Hn'.
      split; [|done]. unfold in_grid in *. by rewrite Ec, Er.
Qed.

(** One axis of the box, in exact arithmetic. *)
Lemma axis_box e t n b c0 c1 :
  axis_ok e t n b -> 0 <= c0 <= c1 -> c1 < n ->
  let lo := (c0 *% t)%u32 in
  let hi := Z.min ((c1 +% 1) *% t)%u32 e in
  (hi -% lo)%u32 = hi - lo /\ 0 <= lo < hi /\ hi <= e /\ lo mod b = 0 /\ (hi = e \/ hi mod b = 0)
  /\ forall p, 0 <= p < e -> c0 <= p / t <= c1 -> lo <= p < hi.
Proof.
  intros Ha Hc Hn lo hi. pose proof Ha as [He Ht [Hb Hm] Hcount Hcov]. unfold extent_ok in He.
  assert (Hct : c0 * t <= c1 * t) by nia. assert (Hnt : (c1 + 1) * t <= n * t) by nia.
  assert (Elo : lo = c0 * t) by (apply wrap32_small; unfold is_u32, u32_max; nia).
  assert (Ehi : hi = Z.min ((c1 + 1) * t) e).
  { unfold hi. rewrite (wrap32_small (c1 + 1)), wrap32_small; [done|unfold is_u32, u32_max; nia..]. }
  assert (Hmul : forall k, (k * t) mod b = 0).
  { intros k. rewrite Z.mul_mod, Hm, Z.mul_0_r by lia. apply Z.mod_0_l. lia. }
  assert (Hlo : c0 * t < e) by nia.
  rewrite Elo, Ehi. split; [apply wrap32_small; unfold is_u32, u32_max; nia|].
  split; [nia|]. split; [lia|]. split; [apply Hmul|]. split.
  - destruct (Z.min_spec ((c1 + 1) * t) e) as [[_ ->]|[_ ->]]; [right; apply Hmul|by left].
  - intros p Hp [H1 H2]. pose proof (Z.mul_div_le p t ltac:(lia)).
    pose proof (Z.mul_succ_div_gt p t ltac:(lia)). nia.
Qed.

Lemma written_since_box b g ws held :
  sound b g ws -> held < StampGrid.newest g -> 0 <= held ->
  exists c0 c1 r0 r1,
    foldl (scan_tile g held) (u32_max, 0, u32_max, 0) (StampGrid.tiles g) = (c0, c1, r0, r1)
    /\ 0 <= c0 <= c1 /\ c1 < StampGrid.columns g /\ 0 <= r0 <= r1 /\ r1 < StampGrid.rows g
    /\ forall row column, in_grid g row column -> held < StampGrid.stamp_at g row column ->
         c0 <= column <= c1 /\ r0 <= row <= r1.
Proof.
  intros [Hg _ Hn Ha] Hnew Hh.
  pose proof (scan_ok b g held (StampGrid.tiles g) [] (u32_max, 0, u32_max, 0) Hg) as Hb. simpl in Hb.
  destruct (foldl _ _ _) as [[[c0 c1] r0] r1]. exists c0, c1, r0, r1. split; [done|].
  destruct Hb as [Hall Hor].
  - intros row column Hi. by apply elem_of_tiles.
  - split; [by intros ? ? ?%elem_of_nil|]. left. split; [done|]. by intros ? ? ?%elem_of_nil.
  - assert (Hall' : forall row column, in_grid g row column -> held < StampGrid.stamp_at g row column ->
        c0 <= column <= c1 /\ r0 <= row <= r1) by (intros; apply Hall; [by apply elem_of_tiles|done]).
    destruct Hor as [[_ Hno]|(?&?&?&?)]; [exfalso|done].
    destruct Ha as [?|(row & column & Hi & E)]; [lia|]. apply elem_of_tiles in Hi.
    specialize (Hno row column Hi). lia.
Qed.

(** What the box says of a soundly stamped grid. *)
Definition box_spec (b : BlockLayout.t) (g : StampGrid.t) (held : Z) (later : TexelRect.t -> Prop)
    (o : option TexelRect.t) : Prop :=
  match o with
  | None => forall r px py, later r -> in_level g px py -> ~ covers r px py
  | Some box =>
      0 <= TexelRect.x box /\ 0 <= TexelRect.y box
      /\ 0 < TexelRect.width box /\ 0 < TexelRect.height box
      /\ TexelRect.x box + TexelRect.width box <= StampGrid.width g
      /\ TexelRect.y box + TexelRect.height box <= StampGrid.height g
      /\ TexelRect.x box mod BlockLayout.width b = 0 /\ TexelRect.y box mod BlockLayout.height b = 0
      /\ (TexelRect.x box + TexelRect.width box = StampGrid.width g
          \/ (TexelRect.x box + TexelRect.width box) mod BlockLayout.width b = 0)
      /\ (TexelRect.y box + TexelRect.height box = StampGrid.height g
          \/ (TexelRect.y box + TexelRect.height box) mod BlockLayout.height b = 0)
      /\ forall r px py, later r -> in_level g px py -> covers r px py -> covers box px py
  end.

Lemma written_since_sound b g ws held :
  sound b g ws -> 0 <= held ->
  box_spec b g held (λ r, exists s, (r, s) ∈ ws /\ held < s) (StampGrid.written_since g held).
Proof.
  intros Hs Hh. unfold StampGrid.written_since. destruct (_ <=? _) eqn:En; reflect_cmp.
  { intros r px py (s & Hin & Hlt) [Hx Hy] Hc. pose proof (s_grid _ _ _ Hs) as Hg.
    pose proof (s_stamped _ _ _ Hs r s px py Hin ltac:(done) Hc) as H1. unfold texel_stamp in H1.
    assert (Hi : in_grid g (py / StampGrid.tile_height g) (px / StampGrid.tile_width g))
      by (split; [apply (axis_tile _ _ _ _ _ (g_y _ _ Hg) Hy)|apply (axis_tile _ _ _ _ _ (g_x _ _ Hg) Hx)]).
    pose proof (s_newest _ _ _ Hs _ _ Hi). lia. }
  destruct (written_since_box b g ws held Hs En Hh) as (c0 & c1 & r0 & r1 & E & Hc & Hcn & Hr & Hrn & Hall).
  change (foldl _ _ (StampGrid.tiles g)) with (foldl (scan_tile g held) (u32_max, 0, u32_max, 0) (StampGrid.tiles g)).
  rewrite E. clear E. pose proof (s_grid _ _ _ Hs) as Hg.
  destruct (axis_box _ _ _ _ c0 c1 (g_x _ _ Hg) Hc Hcn) as (Ex & Hx & Hxe & Hxm & Hxb & Hxp).
  destruct (axis_box _ _ _ _ r0 r1 (g_y _ _ Hg) Hr Hrn) as (Ey & Hy & Hye & Hym & Hyb & Hyp).
  set (x := (c0 *% _)%u32) in *. set (xe := Z.min _ (StampGrid.width g)) in *.
  set (y := (r0 *% _)%u32) in *. set (ye := Z.min _ (StampGrid.height g)) in *.
  rewrite Ex, Ey.
  unfold box_spec. cbn [TexelRect.x TexelRect.y TexelRect.width TexelRect.height].
  replace (x + (xe - x)) with xe by lia. replace (y + (ye - y)) with ye by lia.
  split_and!; try done; try lia. intros r px py (s & Hin & Hlt) [Hpx Hpy] Hcov.
  assert (Hst : held < texel_stamp g px py) by (eapply Z.lt_le_trans; [exact Hlt|by eapply s_stamped]).
  apply Hall in Hst as [Hcc Hrr].
  - unfold covers; simpl. specialize (Hxp px Hpx Hcc). specialize (Hyp py Hpy Hrr). lia.
  - split; [apply (axis_tile _ _ _ _ _ (g_y _ _ Hg) Hpy)|apply (axis_tile _ _ _ _ _ (g_x _ _ Hg) Hpx)].
Qed.

(** The grid of a level after the writes [rs], stamped 1, 2, ... in order. *)
Definition stamp_all (w h : Z) (b : BlockLayout.t) (rs : list TexelRect.t) : StampGrid.t * Z :=
  foldl (λ '(g, n) r, (StampGrid.stamp g r (n + 1), n + 1)) (StampGrid.new w h b, 0) rs.

Lemma stamp_all_sound w h b rs :
  extent_ok w -> extent_ok h -> block_ok b -> Forall rect_u32 rs ->
  let '(g, n) := stamp_all w h b rs in
  n = Z.of_nat (length rs) /\ StampGrid.newest g <= n /\ StampGrid.width g = w /\ StampGrid.height g = h
  /\ exists ws, sound b g ws /\ forall i r, rs !! i = Some r -> (r, Z.of_nat i + 1) ∈ ws.
Proof.
  intros Hw Hh Hb. unfold stamp_all. induction rs as [|r rs IH] using rev_ind; intros Hrs.
  - simpl. split_and!; try done. exists []. split; [by apply sound_new|done].
  - apply Forall_app in Hrs as [Hrs Hr]. rewrite Forall_singleton in Hr. specialize (IH Hrs).
    rewrite foldl_app. simpl. destruct (foldl _ _ rs) as [g n].
    destruct IH as (En & Hn & Ew & Eh & ws & Hs & Hws). rewrite length_app. simpl.
    pose proof (sound_stamp b g ws r (n + 1) Hs Hr ltac:(lia)) as Hs'.
    destruct (stamp_cells b g r (n + 1) (s_grid _ _ _ Hs) Hr) as (_ & (Ew' & Eh' & _) & Hcase).
    split_and!; [lia| |congruence|congruence|].
    + destruct Hcase as [[-> _]|[-> _]]; lia.
    + exists ((r, n + 1) :: ws). split; [done|]. intros i r' Hi.
      apply lookup_app_Some in Hi as [Hi|[Hge Hi]]; [right; by apply Hws|].
      apply list_lookup_singleton_Some in Hi as [Hi ->].
      replace (Z.of_nat i + 1) with (n + 1) by lia. left.
Qed.

(** The write history of a level never loses a write.  After any sequence
    of writes, the box of what was written after the first [held] of them lies
    inside the level, starts on the format's block grid, ends on it or at the
    level's edge, and covers every texel a later write touched; no box means no
    later write touched the level. *)
Theorem written_since_covers w h b rs held :
  extent_ok w -> extent_ok h -> block_ok b -> Forall rect_u32 rs ->
  let g := fst (stamp_all w h b rs) in
  box_spec b g (Z.of_nat held) (λ r, r ∈ drop held rs) (StampGrid.written_since g (Z.of_nat held)).
Proof.
  intros Hw Hh Hb Hrs g. pose proof (stamp_all_sound w h b rs Hw Hh Hb Hrs) as H. unfold g. clear g.
  destruct (stamp_all w h b rs) as [g n]. destruct H as (_ & _ & _ & _ & ws & Hs & Hws). simpl.
  pose proof (written_since_sound b g ws (Z.of_nat held) Hs ltac:(lia)) as Hbox.
  assert (Hlater : forall r, r ∈ drop held rs -> exists s, (r, s) ∈ ws /\ Z.of_nat held < s).
  { intros r Hr. apply list_elem_of_lookup in Hr as [i Hi]. rewrite lookup_drop in Hi.
    exists (Z.of_nat (held + i) + 1). split; [by apply Hws|lia]. }
  unfold box_spec in *. destruct (StampGrid.written_since g (Z.of_nat held)); naive_solver.
Qed.

Lemma written_since_covers_witness :
  let rs := [TexelRect.mk 0 0 64 64; TexelRect.mk 20 5 10 10; TexelRect.mk 50 40 8 8] in
  StampGrid.written_since (fst (stamp_all 64 64 (BlockLayout.compressed 8) rs)) 1
  = Some (TexelRect.mk 16 0 48 48)
  /\ covers (TexelRect.mk 16 0 48 48) 55 45.
Proof.
  intros rs. assert (E : StampGrid.written_since (fst (stamp_all 64 64 (BlockLayout.compressed 8) rs)) 1
    = Some (TexelRect.mk 16 0 48 48)) by (vm_compute; reflexivity).
  split; [exact E|].
  pose proof (written_since_covers 64 64 (BlockLayout.compressed 8) rs 1
    ltac:(unfold extent_ok; lia) ltac:(unfold extent_ok; lia) ltac:(unfold block_ok; simpl; lia)
    ltac:(repeat constructor; unfold is_u32, u32_max; simpl; lia)) as H.
  cbv zeta in H. change (Z.of_nat 1) with 1 in H. rewrite E in H.
  destruct H as (_ & _ & _ & _ & _ & _ & _ & _ & _ & _ & H).
  apply (H (TexelRect.mk 50 40 8 8)).
  - right. left.
  - assert (E2 : StampGrid.width (fst (stamp_all 64 64 (BlockLayout.compressed 8) rs)) = 64
              /\ StampGrid.height (fst (stamp_all 64 64 (BlockLayout.compressed 8) rs)) = 64)
      by (split; vm_compute; reflexivity).
    destruct E2 as [-> ->] || (unfold in_level; rewrite (proj1 E2), (proj2 E2); lia).
  - unfold covers; simpl; lia.
Defined.
