(* ===== verification/TextureVersions.v ===== *)
(** [texture_versions.rs]: the pool of retired GPU versions of renamed textures,
    its retirement and destroy queues and byte budget, and the copy plan that
    brings a reused version up to the live one. *)

From stdpp Require Import sorting.
From S2P Require Import Prelude Mtl StampGrid.

Definition SPARE_MAX_IDLE_SUBMITS : Z := 8.
Definition VERSION_POOL_CEILING_BYTES : Z := 2 ^ 30.
Definition VERSION_POOL_WORKING_SET_DIVISOR : Z := 8.
Definition VERSION_POOL_PRESSURE_QUARTERS : Z := 3.
Definition STATE_MAX_IDLE_SUBMITS : Z := 120.
Definition MIN_DESTROYS_PER_DRAIN : nat := 64.
Definition DESTROY_SPREAD_DRAINS : nat := 8.

Module VersionBudget.
Record t := mk { spare_cap : Z; pressure_above : Z }.

Definition from_working_set (working_set : Z) : t :=
  if working_set =? 0 then mk VERSION_POOL_CEILING_BYTES u64_max
  else
    let share := working_set / VERSION_POOL_WORKING_SET_DIVISOR in
    mk (if share <? VERSION_POOL_CEILING_BYTES then share else VERSION_POOL_CEILING_BYTES)
       (working_set / 4 *% VERSION_POOL_PRESSURE_QUARTERS)%u64.

Definition resume_below (b : t) : Z := (pressure_above b -| spare_cap b)%u64.
End VersionBudget.

(** ** Shapes and write histories *)

Module VersionShape.
Record t := mk {
  width : Z; height : Z; depth : Z; levels : Z; pixel_format : PixelFormat;
  storage_mode : Z; flags : Z; usage : Z; swizzle : list Z }.

#[global] Instance eq_dec : EqDecision t.
Proof. solve_decision. Defined.

Definition slices (s : t) : Z := if flag (flags s) TYPE_CUBE then 6 else 1.

Definition level_bytes (s : t) (level : Z) : Z :=
  let block := block_layout (pixel_format s) in
  let w := div_ceil (level_extent (width s) level) (BlockLayout.width block) in
  let h := div_ceil (level_extent (height s) level) (BlockLayout.height block) in
  let d := if flag (flags s) TYPE_3D then level_extent (depth s) level else 1 in
  (((w *% h) *% d) *% BlockLayout.bytes block)%u64.

Definition bytes (s : t) : Z :=
  (foldl (λ total level, (total +% level_bytes s level)%u64) 0 (seqZ 0 (levels s)) *% slices s)%u64.
End VersionShape.

Definition records_every_write (desc_flags : Z) (pixel_format : PixelFormat) (application_usage : Z) : bool :=
  negb (flag desc_flags TYPE_3D)
  && negb (flag application_usage (Z.lor RENDER_TARGET DEPTH_STENCIL))
  && negb (bool_decide (pixel_format = Depth32Float \/ pixel_format = Depth32FloatStencil8)).

Module WriteHistory.
Record t := mk { slices : Z; levels : Z; writes : Z; grids : list StampGrid.t }.

Definition new (shape : VersionShape.t) : t :=
  let block := block_layout (VersionShape.pixel_format shape) in
  let slices := VersionShape.slices shape in
  mk slices (VersionShape.levels shape) 0
    (seqZ 0 slices ≫= λ _,
       (λ level, StampGrid.new (level_extent (VersionShape.width shape) level)
                   (level_extent (VersionShape.height shape) level) block)
       <$> seqZ 0 (VersionShape.levels shape)).

Definition index (h : t) (slice level : Z) : nat := Z.to_nat ((slice *% levels h) +% level)%u32.

Definition grid (h : t) (slice level : Z) : option StampGrid.t := grids h !! index h slice level.

(** [writes += 1] and the stamp it hands out. *)
Definition bump (h : t) : t := mk (slices h) (levels h) (wrap64 (writes h + 1)) (grids h).

Definition stamp_one (h : t) (slice level : Z) (rect : TexelRect.t) : t :=
  mk (slices h) (levels h) (writes h)
    (alter (λ g, StampGrid.stamp g rect (writes h)) (index h slice level) (grids h)).

(** Every level but the first, on every slice: the grids are slice-major
    chunks of [levels.max(1)]. *)
Definition stamp_mips (h : t) : t :=
  mk (slices h) (levels h) (writes h)
    (imap (λ i g, if (Z.of_nat i mod Z.max (levels h) 1 =? 0) then g
                  else StampGrid.stamp g (TexelRect.level (StampGrid.width g) (StampGrid.height g)) (writes h))
       (grids h)).
End WriteHistory.

(** The rectangle an upload writes: itself, or the whole level for a compressed
    one off the block grid; [block] is the source format's, when compressed. *)
Definition rect_on_block_grid (block origin size extent : Z * Z) : bool :=
  let aligned v b := v mod b =? 0 in
  let ends o s e := match (o +? s)%u32 with Some end_ => end_ =? e | None => false end in
  aligned (fst origin) (fst block) && aligned (snd origin) (snd block)
  && (aligned (fst size) (fst block) || ends (fst origin) (fst size) (fst extent))
  && (aligned (snd size) (snd block) || ends (snd origin) (snd size) (snd extent)).

Definition upload_written_rect (rect : TexelRect.t) (extent : Z * Z) (compressed : option (Z * Z))
    : TexelRect.t :=
  let on_grid := match compressed with
    | Some block => rect_on_block_grid block (TexelRect.x rect, TexelRect.y rect)
                      (TexelRect.width rect, TexelRect.height rect) extent
    | None => true end in
  if on_grid then rect else TexelRect.level (fst extent) (snd extent).

Record UploadFootprint := mkFootprint { up_slice : Z; up_level : Z; up_full : bool }.
Record PreserveCopy := mkCopy { cp_slice : Z; cp_level : Z; cp_region : option TexelRect.t }.

(** ** The pool *)

Section Versions.
Context {V : Type}.

Record Spare := mkSpare { sp_views : V; held_writes : option Z; parked_seq : Z }.

Record Retiring := mkRetiring {
  rt_id : Z; rt_views : V; rt_seq : Z; rt_epoch : Z; birth_seq : Z; rt_held : Z; rt_bytes : Z }.

Record VersionState := mkState {
  vs_shape : VersionShape.t; vs_epoch : Z; vs_bytes : Z; history : option WriteHistory.t;
  live_birth_seq : Z; last_rename_seq : Z; spares : list Spare }.

Definition state_new (shape : VersionShape.t) (epoch : Z) (records_writes : bool) : VersionState :=
  mkState shape epoch (VersionShape.bytes shape)
  (if records_writes then Some (WriteHistory.new shape) else None) 0 0 [].

Definition set_spares (s : VersionState) (l : list Spare) : VersionState :=
  mkState (vs_shape s) (vs_epoch s) (vs_bytes s) (history s) (live_birth_seq s) (last_rename_seq s) l.
Definition set_history (s : VersionState) (h : option WriteHistory.t) : VersionState :=
  mkState (vs_shape s) (vs_epoch s) (vs_bytes s) h (live_birth_seq s) (last_rename_seq s) (spares s).
Definition set_rename (s : VersionState) (seq : Z) : VersionState :=
  mkState (vs_shape s) (vs_epoch s) (vs_bytes s) (history s) (live_birth_seq s) seq (spares s).
Definition set_birth (s : VersionState) (seq : Z) : VersionState :=
  mkState (vs_shape s) (vs_epoch s) (vs_bytes s) (history s) seq (last_rename_seq s) (spares s).

Record TextureVersions := mkVersions {
  textures : gmap Z VersionState;
  retiring : list Retiring;
  parked_bytes : Z;
  doomed : list (V * Z);
  doomed_bytes : Z;
  doomed_since_take : nat;
  doomed_arrivals : list nat;
  arrival_slot : nat;
  next_epoch : Z;
  with_spares : gset Z;
  idle : list (Z * Z * Z);
  budget : VersionBudget.t;
  pressed : bool;
  relieve_bytes : Z;
}.

Definition versions_new (b : VersionBudget.t) : TextureVersions :=
  mkVersions ∅ [] 0 [] 0 0 (replicate DESTROY_SPREAD_DRAINS 0%nat) 0 1 ∅ [] b false 0.

Definition records_writes (t : TextureVersions) (id : Z) : bool :=
  match textures t !! id with Some s => bool_decide (is_Some (history s)) | None => false end.

(** *** Field updates *)

Definition set_textures (t : TextureVersions) (m : gmap Z VersionState) : TextureVersions :=
  mkVersions m (retiring t) (parked_bytes t) (doomed t) (doomed_bytes t) (doomed_since_take t)
  (doomed_arrivals t) (arrival_slot t) (next_epoch t) (with_spares t) (idle t) (budget t)
  (pressed t) (relieve_bytes t).
Definition set_retiring (t : TextureVersions) (l : list Retiring) : TextureVersions :=
  mkVersions (textures t) l (parked_bytes t) (doomed t) (doomed_bytes t) (doomed_since_take t)
  (doomed_arrivals t) (arrival_slot t) (next_epoch t) (with_spares t) (idle t) (budget t)
  (pressed t) (relieve_bytes t).
Definition set_parked (t : TextureVersions) (b : Z) (w : gset Z) : TextureVersions :=
  mkVersions (textures t) (retiring t) b (doomed t) (doomed_bytes t) (doomed_since_take t)
  (doomed_arrivals t) (arrival_slot t) (next_epoch t) w (idle t) (budget t)
  (pressed t) (relieve_bytes t).
Definition set_doomed (t : TextureVersions) (d : list (V * Z)) (b : Z) (n : nat) : TextureVersions :=
  mkVersions (textures t) (retiring t) (parked_bytes t) d b n
  (doomed_arrivals t) (arrival_slot t) (next_epoch t) (with_spares t) (idle t) (budget t)
  (pressed t) (relieve_bytes t).
Definition set_arrivals (t : TextureVersions) (a : list nat) (slot : nat) : TextureVersions :=
  mkVersions (textures t) (retiring t) (parked_bytes t) (doomed t) (doomed_bytes t) (doomed_since_take t)
  a slot (next_epoch t) (with_spares t) (idle t) (budget t) (pressed t) (relieve_bytes t).
Definition set_epoch (t : TextureVersions) (e : Z) (i : list (Z * Z * Z)) : TextureVersions :=
  mkVersions (textures t) (retiring t) (parked_bytes t) (doomed t) (doomed_bytes t) (doomed_since_take t)
  (doomed_arrivals t) (arrival_slot t) e (with_spares t) i (budget t) (pressed t) (relieve_bytes t).
Definition set_pressure (t : TextureVersions) (p : bool) (r : Z) : TextureVersions :=
  mkVersions (textures t) (retiring t) (parked_bytes t) (doomed t) (doomed_bytes t) (doomed_since_take t)
  (doomed_arrivals t) (arrival_slot t) (next_epoch t) (with_spares t) (idle t) (budget t) p r.

(** *** The idle set, a [BTreeSet] of [(submission, id, epoch)] in order *)

Definition idle_lt (a b : Z * Z * Z) : bool :=
  let '(a1, a2, a3) := a in let '(b1, b2, b3) := b in
  (a1 <? b1) || ((a1 =? b1) && ((a2 <? b2) || ((a2 =? b2) && (a3 <? b3)))).

Fixpoint idle_insert (e : Z * Z * Z) (l : list (Z * Z * Z)) : list (Z * Z * Z) :=
  match l with
  | [] => [e]
  | x :: rest => if idle_lt e x then e :: l
     else if bool_decide (e = x) then l else x :: idle_insert e rest
  end.

(** *** Operations *)

(** [bytes * count] of spares moved to the destroy queue, in order. *)
Definition doom_spares (t : TextureVersions) (bytes : Z) (l : list Spare) : TextureVersions :=
  let b := (bytes *% Z.of_nat (length l))%u64 in
  let t := set_parked t (parked_bytes t -% b)%u64 (with_spares t) in
  set_doomed t (doomed t ++ ((λ s, (sp_views s, bytes)) <$> l)) (doomed_bytes t +% b)%u64
  (doomed_since_take t + length l).

Definition doom (t : TextureVersions) (views : V) (bytes : Z) : TextureVersions :=
  set_doomed t (doomed t ++ [(views, bytes)]) (doomed_bytes t +% bytes)%u64 (S (doomed_since_take t)).

(** The texture's state at the start of a rename: fresh, kept, or started over
under a new shape with its spares queued for destruction. *)
Definition enter (t : TextureVersions) (id : Z) (shape : VersionShape.t) (records : bool) (seq : Z)
  : VersionState * TextureVersions :=
  let epoch := next_epoch t in
  match textures t !! id with
  | None => (state_new shape epoch records,
 set_epoch t (wrap64 (epoch + 1)) (idle_insert (seq, id, epoch) (idle t)))
  | Some s =>
    if bool_decide (vs_shape s = shape) then (s, t)
    else (state_new shape epoch records,
    let t := doom_spares t (vs_bytes s) (spares s) in
    set_epoch t (wrap64 (epoch + 1)) (idle_insert (seq, id, epoch) (idle t)))
  end.

Definition take_spare (t : TextureVersions) (id : Z) (shape : VersionShape.t) (records : bool) (seq : Z)
  : option Spare * TextureVersions :=
  let '(s, t) := enter t id shape records seq in
  let s := set_rename s seq in
  let spare := last (spares s) in
  let s := set_spares s (removelast (spares s)) in
  let parked := match spare with Some _ => (parked_bytes t -% vs_bytes s)%u64 | None => parked_bytes t end in
  let with_ := if bool_decide (spares s = []) then with_spares t ∖ {[ id ]} else with_spares t in
  (spare, set_parked (set_textures t (<[id := s]> (textures t))) parked with_).

Definition preserve_plan (t : TextureVersions) (id : Z) (shape : VersionShape.t) (held : option Z)
  (upload : UploadFootprint) : list PreserveCopy :=
  let hist := s ← textures t !! id; history s in
  seqZ 0 (VersionShape.slices shape) ≫= λ slice,
  seqZ 0 (VersionShape.levels shape) ≫= λ level,
  if (slice =? up_slice upload) && (level =? up_level upload) && up_full upload then []
  else
  match hist, held with
  | Some h, Some held =>
    match WriteHistory.grid h slice level with
    | Some g =>
    match StampGrid.written_since g held with
    | None => []
    | Some dirty =>
        [mkCopy slice level
           (if bool_decide (dirty = TexelRect.level (StampGrid.width g) (StampGrid.height g))
            then None else Some dirty)]
    end
    | None => []
    end
  | _, _ => [mkCopy slice level None]
  end.

Definition retire (t : TextureVersions) (id : Z) (views : V) (seq : Z) : TextureVersions :=
  match textures t !! id with
  | Some s =>
    let entry := mkRetiring id views seq (vs_epoch s) (live_birth_seq s)
    (match history s with Some h => WriteHistory.writes h | None => 0 end) (vs_bytes s) in
    set_retiring (set_textures t (<[id := set_birth s seq]> (textures t))) (retiring t ++ [entry])
  | None => set_retiring t (retiring t ++ [mkRetiring id views seq 0 0 0 0])
  end.

Definition note_write (t : TextureVersions) (id slice level : Z) (rect : TexelRect.t) : TextureVersions :=
  match textures t !! id with
  | None => t
  | Some s =>
    match history s with
    | None => t
    | Some h =>
      if (WriteHistory.slices h <=? slice) || (WriteHistory.levels h <=? level)
      then set_textures t (<[id := set_history s None]> (textures t))
      else set_textures t
      (<[id := set_history s (Some (WriteHistory.stamp_one (WriteHistory.bump h) slice level rect))]>
   (textures t))
    end
  end.

Definition note_mip_regeneration (t : TextureVersions) (id : Z) : TextureVersions :=
  match textures t !! id with
  | None => t
  | Some s =>
    match history s with
    | None => t
    | Some h => set_textures t
      (<[id := set_history s (Some (WriteHistory.stamp_mips (WriteHistory.bump h)))]> (textures t))
    end
  end.

Definition pop_retired (t : TextureVersions) (settled : Z) : option (Retiring * TextureVersions) :=
  match retiring t with
  | [] => None
  | e :: rest => if settled <? rt_seq e then None else Some (e, set_retiring t rest)
  end.

Definition park (t : TextureVersions) (e : Retiring) (failed now : Z) : TextureVersions :=
  match textures t !! rt_id e with
  | Some s =>
    if negb (vs_epoch s =? rt_epoch e) then doom t (rt_views e) (rt_bytes e)
    else if pressed t then doom t (rt_views e) (vs_bytes s)
    else if VersionBudget.spare_cap (budget t) <? (parked_bytes t +% vs_bytes s)%u64
    then doom t (rt_views e) (vs_bytes s)
    else
    let aborted := negb (failed =? 0) && (birth_seq e <=? failed) in
    let with_ := if bool_decide (spares s = []) then {[ rt_id e ]} ∪ with_spares t else with_spares t in
    let s' := set_spares s (spares s ++
    [mkSpare (rt_views e) (if aborted then None else Some (rt_held e)) now]) in
    set_parked (set_textures t (<[rt_id e := s']> (textures t))) (parked_bytes t +% vs_bytes s)%u64 with_
  | None => doom t (rt_views e) (rt_bytes e)
  end.

(** [state.spares.drain(..count)] into the destroy queue, for a texture the
caller found through [with_spares]. *)
Definition drain_front (t : TextureVersions) (id : Z) (count : nat) : TextureVersions :=
  match textures t !! id with
  | Some s =>
    let t' := doom_spares t (vs_bytes s) (take count (spares s)) in
    let rest := drop count (spares s) in
    set_parked (set_textures t' (<[id := set_spares s rest]> (textures t'))) (parked_bytes t')
    (if bool_decide (rest = []) then with_spares t' ∖ {[ id ]} else with_spares t')
  | None => t
  end.

Definition set_pressure_for (t : TextureVersions) (allocated : Z) : TextureVersions :=
  set_pressure t
  (if pressed t then VersionBudget.resume_below (budget t) <=? allocated
 else VersionBudget.pressure_above (budget t) <? allocated)
  (allocated -| VersionBudget.pressure_above (budget t))%u64.

(** The spares of every texture holding some, as [(parked_seq, id, bytes)]. *)
Definition spare_ages (t : TextureVersions) : list (Z * Z * Z) :=
  elements (with_spares t) ≫= λ id,
  match textures t !! id with
  | Some s => (λ sp, (parked_seq sp, id, vs_bytes s)) <$> spares s
  | None => []
  end.

Definition age_le (a b : Z * Z * Z) : Prop :=
  let '(seq, id, _) := a in let '(seq', id', _) := b in seq < seq' \/ seq = seq' /\ id <= id'.

#[global] Instance age_le_dec a b : Decision (age_le a b).
Proof. destruct a as [[] ?], b as [[] ?]. unfold age_le. apply _. Defined.

Fixpoint relief_counts (oldest : list (Z * Z * Z)) (freed excess : Z) (counts : gmap Z nat) : gmap Z nat :=
  match oldest with
  | [] => counts
  | (_, id, bytes) :: rest =>
    if excess <=? freed then counts
    else relief_counts rest (freed +% bytes)%u64 excess (<[id := S (default 0%nat (counts !! id))]> counts)
  end.

Definition note_allocated (t : TextureVersions) (allocated : Z) : TextureVersions :=
  let t := set_pressure_for t allocated in
  let excess := relieve_bytes t in
  if excess =? 0 then t
  else if excess <=? doomed_bytes t then t
  else
  let oldest := merge_sort age_le (spare_ages t) in
  foldl (λ t '(id, count), drain_front t id count) t
  (map_to_list (relief_counts oldest (doomed_bytes t) excess ∅)).

Fixpoint cover_excess (rest : list (V * Z)) (covered relieve : Z) : nat :=
  match rest with
  | [] => 0
  | (_, bytes) :: rest =>
    if covered <? relieve then S (cover_excess rest (covered +% bytes)%u64 relieve) else 0
  end.

Definition nat_div_ceil (a b : nat) : nat := ((a + b - 1) / b)%nat.

Definition take_doomed (t : TextureVersions) : list V * TextureVersions :=
  let arrivals := <[arrival_slot t := doomed_since_take t]> (doomed_arrivals t) in
  let slot := (S (arrival_slot t) mod DESTROY_SPREAD_DRAINS)%nat in
  let rate := nat_div_ceil (sum_list arrivals) DESTROY_SPREAD_DRAINS in
  let len := length (doomed t) in
  let batch := (MIN_DESTROYS_PER_DRAIN `max` (rate + nat_div_ceil len DESTROY_SPREAD_DRAINS) `min` len)%nat in
  let covered := foldl (λ acc e, (acc +% snd e)%u64) 0 (take batch (doomed t)) in
  let batch := (batch + cover_excess (drop batch (doomed t)) covered (relieve_bytes t))%nat in
  let t := set_pressure (set_arrivals t arrivals slot) (pressed t) 0 in
  (fst <$> take batch (doomed t),
 set_doomed t (drop batch (doomed t))
 (foldl (λ acc e, (acc -% snd e)%u64) (doomed_bytes t) (take batch (doomed t))) 0).

Definition spare_aged (now seq : Z) : bool := ((seq +% SPARE_MAX_IDLE_SUBMITS)%u64 <? now).
Definition aged_at (now seq : Z) : bool := ((seq +% STATE_MAX_IDLE_SUBMITS)%u64 <? now).

Fixpoint count_while {A} (f : A -> bool) (l : list A) : nat :=
  match l with x :: rest => if f x then S (count_while f rest) else 0 | [] => 0 end.

(** One texture of [with_spares.retain]. *)
Definition trim_spares_of (now : Z) (t : TextureVersions) (id : Z) : TextureVersions :=
  match textures t !! id with
  | Some s => drain_front t id (count_while (λ sp, spare_aged now (parked_seq sp)) (spares s))
  | None => set_parked t (parked_bytes t) (with_spares t ∖ {[ id ]})
  end.

(** One turn of the idle loop whose front entry is due: the entry is popped, and
its state dropped or looked at again later. *)
Definition trim_idle_turn (now : Z) (t : TextureVersions) (e : Z * Z * Z) (rest : list (Z * Z * Z))
  : TextureVersions :=
  let t := set_epoch t (next_epoch t) rest in
  let '(_, raw, epoch) := e in
  match textures t !! raw with
  | Some s =>
    if negb (vs_epoch s =? epoch) then t
    else if aged_at now (last_rename_seq s) && bool_decide (spares s = [])
    then set_textures t (delete raw (textures t))
    else
    let again := if aged_at now (last_rename_seq s) then now else last_rename_seq s in
    set_epoch t (next_epoch t) (idle_insert (again, raw, epoch) rest)
  | None => t
  end.

Fixpoint trim_idle (fuel : nat) (now : Z) (t : TextureVersions) : option TextureVersions :=
  match idle t with
  | [] => Some t
  | (seq, raw, epoch) :: rest =>
    if negb (aged_at now seq) then Some t
    else match fuel with
 | O => None
 | S fuel => trim_idle fuel now (trim_idle_turn now t (seq, raw, epoch) rest)
 end
  end.

Definition trim (t : TextureVersions) (now : Z) : option TextureVersions :=
  let t := foldl (trim_spares_of now) t (elements (with_spares t)) in
  trim_idle (length (idle t)) now t.

Definition forget_texture (t : TextureVersions) (id : Z) : TextureVersions :=
  match textures t !! id with
  | None => t
  | Some s =>
    let t := set_textures t (delete id (textures t)) in
    let t := set_parked t (parked_bytes t -% (vs_bytes s *% Z.of_nat (length (spares s))))%u64
     (with_spares t ∖ {[ id ]}) in
    foldl (λ t sp, doom t (sp_views sp) (vs_bytes s)) t (spares s)
  end.

Definition drain_versions (t : TextureVersions) : list V * TextureVersions :=
  let held := elements (with_spares t) in
  let all := (rt_views <$> retiring t) ++ (fst <$> doomed t)
  ++ (held ≫= λ id, match textures t !! id with Some s => sp_views <$> spares s | None => [] end) in
  let t := set_arrivals (set_doomed (set_retiring t []) [] 0 0)
 (replicate DESTROY_SPREAD_DRAINS 0%nat) (arrival_slot t) in
  (all, set_parked
  (set_textures t (foldl (λ m id, alter (λ s, set_spares s []) id m) (textures t) held)) 0 ∅).

End Versions.
Arguments Spare V : clear implicits.
Arguments Retiring V : clear implicits.
Arguments VersionState V : clear implicits.
Arguments TextureVersions V : clear implicits.
