(* ===== verification/VersionBooks.v ===== *)
(** [texture_versions.rs], the books of the version pool: the byte counters are
    the sums they stand for, the sets point at what they name, and no version
    is lost or duplicated. *)

From stdpp Require Import sorting.
From S2P Require Import Prelude Mtl StampGrid TextureVersions.

Lemma elem_of_idle_insert e x l : x ∈ idle_insert e l <-> x = e \/ x ∈ l.
Proof.
  induction l as [|y l IH]; simpl; [rewrite list_elem_of_singleton; set_solver|].
  destruct (idle_lt e y); [set_solver|]. case_bool_decide; set_solver.
Qed.

Section Books.
Context {V : Type}.
Implicit Types (t : TextureVersions V) (s : VersionState V) (m : gmap Z (VersionState V)).

(** ** What the pool holds *)

Definition state_items (s : VersionState V) : list (V * Z) := (λ sp, (sp_views sp, vs_bytes s)) <$> spares s.

Definition items_of (m : gmap Z (VersionState V)) : list (V * Z) :=
  map_to_list m ≫= λ p, state_items (snd p).

Definition opt_items (o : option (VersionState V)) : list (V * Z) := from_option state_items [] o.

(** Every view set the pool holds: retiring, parked and queued to be destroyed. *)
Definition pool_views (t : TextureVersions V) : list V :=
  (rt_views <$> retiring t) ++ (fst <$> items_of (textures t)) ++ (fst <$> doomed t).

Definition put (id : Z) (o : option (VersionState V)) (m : gmap Z (VersionState V)) :=
  match o with Some s => <[id := s]> m | None => delete id m end.

Lemma items_put id o m : items_of (put id o m) ≡ₚ opt_items o ++ items_of (delete id m).
Proof.
  destruct o as [s|]; simpl; [|done]. unfold items_of.
  rewrite <- insert_delete_eq, map_to_list_insert by apply lookup_delete_eq. done.
Qed.

Lemma items_insert id s m : items_of (<[id := s]> m) ≡ₚ state_items s ++ items_of (delete id m).
Proof. apply (items_put id (Some s)). Qed.

Lemma items_at id m : items_of m ≡ₚ opt_items (m !! id) ++ items_of (delete id m).
Proof.
  rewrite <- items_put. destruct (m !! id) as [s|] eqn:E; simpl.
  - by rewrite insert_id.
  - by rewrite delete_id.
Qed.

Lemma state_bytes s : zsum (snd <$> state_items s) = vs_bytes s * Z.of_nat (length (spares s)).
Proof. unfold state_items. rewrite <- list_fmap_compose. apply zsum_const. Qed.

Definition opt_bytes (o : option (VersionState V)) : Z :=
  match o with Some s => vs_bytes s * Z.of_nat (length (spares s)) | None => 0 end.

Lemma opt_items_bytes o : zsum (snd <$> opt_items o) = opt_bytes o.
Proof. destruct o; simpl; [apply state_bytes|done]. Qed.

(** ** The invariant *)

Definition state_ok (s : VersionState V) : Prop :=
  vs_bytes s = VersionShape.bytes (vs_shape s) /\ 0 <= vs_bytes s < 2 ^ 63.

Definition holds_spares (t : TextureVersions V) (id : Z) : Prop :=
  exists s, textures t !! id = Some s /\ spares s <> [].

Record books (t : TextureVersions V) : Prop := {
  bk_parked : parked_bytes t = zsum (snd <$> items_of (textures t));
  bk_cap : parked_bytes t <= VersionBudget.spare_cap (budget t) <= 2 ^ 30;
  bk_doomed : doomed_bytes t = wrap64 (zsum (snd <$> doomed t));
  bk_state : forall id s, textures t !! id = Some s -> state_ok s;
  bk_with : forall id, id ∈ with_spares t <-> holds_spares t id;
  bk_idle : forall id s, textures t !! id = Some s -> exists seq, (seq, id, vs_epoch s) ∈ idle t;
}.

Lemma books_new b : 0 <= VersionBudget.spare_cap b <= 2 ^ 30 -> books (versions_new b).
Proof.
  intros Hb. unfold versions_new. split; cbn [parked_bytes textures budget doomed doomed_bytes with_spares idle].
  - unfold items_of. by rewrite map_to_list_empty.
  - lia.
  - done.
  - by intros ? ? ?%lookup_empty_Some.
  - intros id. unfold holds_spares. simpl. split; [set_solver|]. by intros (s & ?%lookup_empty_Some & _).
  - by intros ? ? ?%lookup_empty_Some.
Qed.

Lemma pool_parked_split t id :
  books t -> parked_bytes t = opt_bytes (textures t !! id) + zsum (snd <$> items_of (delete id (textures t))).
Proof. intros []. rewrite bk_parked0, (items_at id), fmap_app, zsum_app, opt_items_bytes. done. Qed.

Lemma rest_nonneg t id : books t -> 0 <= zsum (snd <$> items_of (delete id (textures t))).
Proof.
  intros []. apply zsum_nonneg, Forall_fmap, Forall_forall. intros [v b] H.
  unfold items_of in H. apply list_elem_of_bind in H as ([i s] & Hs & Hi).
  apply list_elem_of_fmap in Hs as (sp & E & _). simplify_eq/=.
  apply elem_of_map_to_list, lookup_delete_Some in Hi as [_ Hi]. destruct (bk_state0 _ _ Hi). lia.
Qed.

Lemma opt_bytes_nonneg t id : books t -> 0 <= opt_bytes (textures t !! id).
Proof.
  intros []. destruct (textures t !! id) as [s|] eqn:E; simpl; [|done]. destruct (bk_state0 _ _ E). lia.
Qed.

Lemma parked_nonneg t : books t -> 0 <= parked_bytes t.
Proof.
  intros B. rewrite (pool_parked_split t 0 B). pose proof (rest_nonneg t 0 B). pose proof (opt_bytes_nonneg t 0 B). lia.
Qed.

(** ** The one-texture update every operation is *)

(** [t'] is [t] with the state of [id] replaced by [o] and [extra] appended to
the destroy queue. *)
Record touches (t t' : TextureVersions V) (id : Z) (o : option (VersionState V)) (extra : list (V * Z)) : Prop := {
  to_textures : textures t' = put id o (textures t);
  to_ok : forall s, o = Some s -> state_ok s /\ exists seq, (seq, id, vs_epoch s) ∈ idle t';
  to_parked : parked_bytes t' = parked_bytes t - opt_bytes (textures t !! id) + opt_bytes o;
  to_cap : parked_bytes t' <= VersionBudget.spare_cap (budget t');
  to_budget : budget t' = budget t;
  to_doomed : doomed t' = doomed t ++ extra;
  to_doomed_bytes : doomed_bytes t' = wrap64 (doomed_bytes t + zsum (snd <$> extra));
  to_with : forall i, i ∈ with_spares t' <->
  if decide (i = id) then exists s, o = Some s /\ spares s <> [] else i ∈ with_spares t;
  to_idle : forall seq i e, i <> id -> (seq, i, e) ∈ idle t -> (seq, i, e) ∈ idle t';
}.

Lemma lookup_put id o m i : put id o m !! i = if decide (i = id) then o else m !! i.
Proof. destruct o; simpl; destruct (decide (i = id)) as [->|]; by simplify_map_eq. Qed.

Lemma touches_books t t' id o extra : books t -> touches t t' id o extra -> books t'.
Proof.
  intros B []. pose proof (pool_parked_split t id B) as Hp. destruct B. split.
  - rewrite to_textures0, items_put, fmap_app, zsum_app, opt_items_bytes, to_parked0. lia.
  - rewrite to_budget0 in *. lia.
  - rewrite to_doomed0, fmap_app, zsum_app, to_doomed_bytes0, bk_doomed0, wrap64_add_l. done.
  - intros i s. rewrite to_textures0, lookup_put. destruct (decide _); [intros E; by apply to_ok0 in E as [? _]|apply bk_state0].
  - intros i. rewrite to_with0. unfold holds_spares. setoid_rewrite to_textures0.
    setoid_rewrite lookup_put. destruct (decide _); [done|apply bk_with0].
  - intros i s. rewrite to_textures0, lookup_put. destruct (decide _) as [->|Hne].
    + intros E. by apply to_ok0 in E as [_ ?].
    + intros E. destruct (bk_idle0 _ _ E) as [seq ?]. exists seq. by apply to_idle0.
Qed.

(** What the touched texture, the destroy queue and the retiring queue gain is
what comes in less what goes out. *)
Lemma touches_conserve t t' id o extra out ins :
  touches t t' id o extra ->
  (fst <$> opt_items o) ++ (fst <$> extra) ++ (rt_views <$> retiring t') ++ out
  ≡ₚ (fst <$> opt_items (textures t !! id)) ++ (rt_views <$> retiring t) ++ ins ->
  pool_views t' ++ out ≡ₚ pool_views t ++ ins.
Proof.
  intros [] H. unfold pool_views. rewrite to_textures0, to_doomed0, items_put, (items_at id (textures t)).
  rewrite !fmap_app. set (D := fst <$> items_of _). set (Q := fst <$> doomed t) in *.
  transitivity (((fst <$> opt_items o) ++ (fst <$> extra) ++ (rt_views <$> retiring t') ++ out) ++ D ++ Q);
  [solve_Permutation|]. rewrite H. solve_Permutation.
Qed.

(** ** Each operation *)

Lemma parked_drop t id s n :
  books t -> textures t !! id = Some s -> (n <= length (spares s))%nat ->
  wrap64 (parked_bytes t - wrap64 (vs_bytes s * Z.of_nat n)) = parked_bytes t - vs_bytes s * Z.of_nat n
  /\ 0 <= parked_bytes t - vs_bytes s * Z.of_nat n.
Proof.
  intros B E Hn. pose proof (pool_parked_split t id B) as Hp. pose proof (rest_nonneg t id B).
  rewrite E in Hp. simpl in Hp. destruct (bk_state _ B _ _ E). pose proof (bk_cap _ B).
  assert (0 <= vs_bytes s * Z.of_nat n <= vs_bytes s * Z.of_nat (length (spares s))) by nia.
  rewrite wrap64_sub_r, wrap64_small by (unfold is_u64, u64_max; lia). lia.
Qed.

Lemma spares_bytes (s : VersionState V) (l : list (Spare V)) :
  zsum (snd <$> ((λ sp : Spare V, (sp_views sp, vs_bytes s)) <$> l)) = vs_bytes s * Z.of_nat (length l).
Proof. rewrite <- list_fmap_compose. apply zsum_const. Qed.

Lemma doom_books t v b : books t -> books (doom t v b).
Proof.
  intros []. split; simpl; try done.
  rewrite fmap_app, zsum_app, bk_doomed0, wrap64_add_l. simpl. f_equal. unfold zsum; simpl; lia.
Qed.

Lemma doom_views t v b : pool_views (doom t v b) ≡ₚ v :: pool_views t.
Proof. unfold pool_views, doom; simpl. rewrite fmap_app. simpl. solve_Permutation. Qed.

(** Only the fields the books read. *)
Lemma books_frame t t' :
  books t -> textures t' = textures t -> parked_bytes t' = parked_bytes t -> doomed t' = doomed t ->
  doomed_bytes t' = doomed_bytes t -> with_spares t' = with_spares t -> idle t' = idle t ->
  budget t' = budget t -> books t'.
Proof.
  intros [] Et Ep Ed Eb Ew Ei Eu. split; rewrite ?Et, ?Ep, ?Ed, ?Eb, ?Ew, ?Ei, ?Eu; try done.
  intros id. unfold holds_spares. rewrite Et. apply bk_with0.
Qed.

Lemma edit_touches t id s s' r :
  books t -> textures t !! id = Some s -> vs_shape s' = vs_shape s -> vs_epoch s' = vs_epoch s ->
  vs_bytes s' = vs_bytes s -> spares s' = spares s ->
  touches t (set_retiring (set_textures t (<[id := s']> (textures t))) r) id (Some s') [].
Proof.
  intros B E Hsh He Hb Hs. destruct (bk_state _ B _ _ E) as [Hok Hr]. split; simpl; try done.
  - intros ? [= <-]. unfold state_ok. rewrite Hb, Hsh, He. split; [done|by apply (bk_idle _ B)].
  - rewrite E. simpl. rewrite Hb, Hs. lia.
  - apply (bk_cap _ B).
  - by rewrite app_nil_r.
  - rewrite (bk_doomed _ B), wrap64_add_l. simpl. f_equal. lia.
  - intros i. destruct (decide _) as [->|]; [|done]. rewrite (bk_with _ B). unfold holds_spares.
    rewrite E. split; [intros (? & [= <-] & ?); exists s'; by rewrite Hs|].
    intros (? & [= <-] & H). exists s. by rewrite <- Hs.
Qed.

Lemma drain_front_touches t id s n :
  books t -> textures t !! id = Some s -> (n <= length (spares s))%nat ->
  touches t (drain_front t id n) id (Some (set_spares s (drop n (spares s))))
  ((λ sp, (sp_views sp, vs_bytes s)) <$> take n (spares s)).
Proof.
  intros B E Hn. unfold drain_front. rewrite E. destruct (bk_state _ B _ _ E) as [Hok Hr].
  destruct (parked_drop t id s n B E Hn) as [Hp Hp0].
  assert (Hl : length (take n (spares s)) = n) by (rewrite length_take; lia).
  split; simpl; try done.
  - intros ? [= <-]. unfold state_ok; simpl. split; [done|by apply (bk_idle _ B)].
  - rewrite Hl, Hp, E. simpl. rewrite length_drop, Nat2Z.inj_sub by done. ring.
  - rewrite Hl, Hp. pose proof (bk_cap _ B). assert (0 <= vs_bytes s * Z.of_nat n) by (apply Z.mul_nonneg_nonneg; lia). simpl. lia.
  - rewrite Hl, spares_bytes, Hl, wrap64_add_r. done.
  - intros i. destruct (decide (i = id)) as [->|Hne].
    + case_bool_decide as Hd.
      * split; [set_solver|]. intros (? & [= <-] & H). simpl in H. done.
      * rewrite (bk_with _ B). unfold holds_spares. split; [|intros _; exists s; split; [done|]; intros E0; by rewrite E0, drop_nil in Hd].
        intros _. eexists; split; [done|]. done.
    + case_bool_decide; [|done]. set_solver.
Qed.

Lemma drain_front_books t id n :
  books t -> (forall s, textures t !! id = Some s -> (n <= length (spares s))%nat) ->
  books (drain_front t id n).
Proof.
  intros B Hn. destruct (textures t !! id) as [s|] eqn:E.
  - eapply touches_books; [done|]. exact (drain_front_touches t id s n B E (Hn s eq_refl)).
  - unfold drain_front. by rewrite E.
Qed.

Lemma drain_front_views t id n :
  books t -> (forall s, textures t !! id = Some s -> (n <= length (spares s))%nat) ->
  pool_views (drain_front t id n) ≡ₚ pool_views t.
Proof.
  intros B Hn. destruct (textures t !! id) as [s|] eqn:E; [|unfold drain_front; by rewrite E].
  pose proof (touches_conserve _ _ _ _ _ [] [] (drain_front_touches t id s n B E (Hn _ eq_refl))) as H.
  rewrite !app_nil_r in H. apply H. rewrite E. cbn [opt_items from_option]. unfold state_items. cbn [set_spares spares vs_bytes].
  rewrite <- (take_drop n (spares s)) at 3. rewrite !fmap_app. unfold drain_front. rewrite E. simpl. solve_Permutation.
Qed.

Lemma retire_books t id v seq : books t -> books (retire t id v seq).
Proof.
  intros B. unfold retire. destruct (textures t !! id) as [s|] eqn:E.
  - eapply touches_books; [done|]. by apply (edit_touches t id s).
  - by eapply books_frame.
Qed.

Lemma retire_views t id v seq : pool_views (retire t id v seq) ≡ₚ v :: pool_views t.
Proof.
  unfold retire, pool_views. destruct (textures t !! id) as [s|] eqn:E; simpl.
  - rewrite (items_insert), (items_at id (textures t)), E, !fmap_app. simpl. solve_Permutation.
  - rewrite fmap_app. simpl. solve_Permutation.
Qed.

(** An edit of a texture's history. *)
Lemma history_books t id s h :
  books t -> textures t !! id = Some s -> books (set_textures t (<[id := set_history s h]> (textures t))).
Proof. intros B E. eapply touches_books; [done|]. by apply (edit_touches t id s (set_history s h) (retiring t)). Qed.

Lemma history_views t id s h :
  textures t !! id = Some s -> pool_views (set_textures t (<[id := set_history s h]> (textures t))) ≡ₚ pool_views t.
Proof.
  intros E. unfold pool_views; simpl.
  rewrite (items_insert), (items_at id (textures t)), E, !fmap_app. done.
Qed.

Lemma note_write_books t id sl lv r :
  books t -> books (note_write t id sl lv r) /\ pool_views (note_write t id sl lv r) ≡ₚ pool_views t.
Proof.
  intros B. unfold note_write. destruct (textures t !! id) as [s|] eqn:E; [|done].
  destruct (history s); [|done]. destruct (_ || _); split; eauto using history_books, history_views.
Qed.

Lemma note_mip_regeneration_books t id :
  books t -> books (note_mip_regeneration t id) /\ pool_views (note_mip_regeneration t id) ≡ₚ pool_views t.
Proof.
  intros B. unfold note_mip_regeneration. destruct (textures t !! id) as [s|] eqn:E; [|done].
  destruct (history s); [|done]. split; eauto using history_books, history_views.
Qed.

Lemma park_books t e failed now :
  books t -> books (park t e failed now) /\ pool_views (park t e failed now) ≡ₚ rt_views e :: pool_views t.
Proof.
  intros B. unfold park. destruct (textures t !! rt_id e) as [s|] eqn:E; [|split; [by apply doom_books|apply doom_views]].
  destruct (negb _); [split; [by apply doom_books|apply doom_views]|].
  destruct (pressed t); [split; [by apply doom_books|apply doom_views]|].
  destruct (_ <? _) eqn:Ecap; [split; [by apply doom_books|apply doom_views]|]. apply Z.ltb_ge in Ecap.
  destruct (bk_state _ B _ _ E) as [Hok Hr]. pose proof (bk_cap _ B).
  pose proof (parked_nonneg t B).
  rewrite wrap64_small in * by (unfold is_u64, u64_max; lia).
  match goal with |- books ?T /\ _ => set (t' := T); set (s' := set_spares s _) in t' end.
  assert (Ht : touches t t' (rt_id e) (Some s') []).
  { split; simpl; try done.
    - intros s0 Es. injection Es as <-. split; [by split|exact (bk_idle _ B _ _ E)].
    - rewrite E. simpl. rewrite length_app, Nat2Z.inj_add. simpl. ring.
    - by rewrite app_nil_r.
    - rewrite (bk_doomed _ B), wrap64_add_l. simpl. f_equal. lia.
    - intros i. destruct (decide (i = rt_id e)) as [->|Hne].
      + split; [intros _; exists s'; split; [done|]; simpl; by destruct (spares s)|intros _].
        case_bool_decide; [set_solver|]. apply (bk_with _ B). by exists s.
      + case_bool_decide; set_solver. }
  split; [by eapply touches_books|].
  pose proof (touches_conserve _ _ _ _ _ [] [rt_views e] Ht) as H1. rewrite !app_nil_r in H1.
  transitivity (pool_views t ++ [rt_views e]); [apply H1|solve_Permutation].
  rewrite E. simpl. unfold state_items. simpl. rewrite !fmap_app. simpl. solve_Permutation.
Qed.
(** *** Starting a rename *)

Definition shape_bytes_ok (shape : VersionShape.t) : Prop := VersionShape.bytes shape < 2 ^ 63.

Lemma shape_bytes_nonneg shape : 0 <= VersionShape.bytes shape.
Proof. unfold VersionShape.bytes. apply wrap64_range. Qed.

Lemma state_new_ok shape e r : shape_bytes_ok shape -> state_ok (state_new (V:=V) shape e r).
Proof. intros H. split; [done|]. simpl. pose proof (shape_bytes_nonneg shape). unfold shape_bytes_ok in H. lia. Qed.

(** The old spares a rename under a new shape queues for destruction. *)
Definition reshaped (t : TextureVersions V) (id : Z) (shape : VersionShape.t) : list (V * Z) :=
  match textures t !! id with
  | Some s => if bool_decide (vs_shape s = shape) then [] else state_items s
  | None => []
  end.

Lemma enter_touches t id shape rec seq :
  books t -> shape_bytes_ok shape ->
  let '(s, t1) := enter t id shape rec seq in
  state_ok s /\ (exists q, (q, id, vs_epoch s) ∈ idle t1)
  /\ textures t1 = textures t /\ with_spares t1 = with_spares t /\ budget t1 = budget t
  /\ parked_bytes t1 = parked_bytes t - opt_bytes (textures t !! id) + opt_bytes (Some s)
  /\ doomed t1 = doomed t ++ reshaped t id shape
  /\ doomed_bytes t1 = wrap64 (doomed_bytes t + zsum (snd <$> reshaped t id shape))
  /\ (forall q i e, (q, i, e) ∈ idle t -> (q, i, e) ∈ idle t1)
  /\ retiring t1 = retiring t
  /\ (fst <$> opt_items (textures t !! id)) ≡ₚ (sp_views <$> spares s) ++ (fst <$> reshaped t id shape)
  /\ (spares s <> [] -> textures t !! id = Some s).
Proof.
  intros B Hok. unfold enter, reshaped.
  assert (Hd : doomed_bytes t = wrap64 (doomed_bytes t + 0)).
  { rewrite (bk_doomed _ B), wrap64_add_l. f_equal. lia. }
  assert (Hidle : forall e, exists q : Z, (q, id, e) ∈ idle_insert (seq, id, e) (idle t))
  by (intros e; exists seq; rewrite elem_of_idle_insert; by left).
  assert (Hkeep : forall x q i e, (q, i, e) ∈ idle t -> (q, i, e) ∈ idle_insert x (idle t))
  by (intros; rewrite elem_of_idle_insert; by right).
  destruct (textures t !! id) as [s|] eqn:E; [case_bool_decide as Hs|].
  - split_and!; try done; simpl; rewrite ?app_nil_r; try done.
    + by eapply bk_state.
    + by apply (bk_idle _ B).
    + lia.
    + unfold state_items. rewrite <- list_fmap_compose. done.
  - pose proof (parked_drop t id s _ B E ltac:(done)) as [Hp _].
    split_and!; simpl; try done; auto using state_new_ok.
    + rewrite Hp. lia.
    + unfold state_items. by rewrite spares_bytes, wrap64_add_r.
  - split_and!; simpl; rewrite ?app_nil_r; try done; auto using state_new_ok. lia.
Qed.

Lemma take_spare_ok t id shape rec seq :
  books t -> shape_bytes_ok shape ->
  let '(o, t') := take_spare t id shape rec seq in
  books t' /\ pool_views t' ++ option_list (sp_views <$> o) ≡ₚ pool_views t.
Proof.
  intros B Hok. unfold take_spare.
  pose proof (enter_touches t id shape rec seq B Hok) as H. destruct (enter t id shape rec seq) as [s t1].
  destruct H as (Hs & Hq & Et & Ew & Eu & Ep & Ed & Edb & Hi & Er & Hv & Hne).
  set (s2 := set_spares (set_rename s seq) (removelast (spares (set_rename s seq)))).
  set (t' := set_parked _ _ _).
  assert (Hparts : spares s = spares s2 ++ option_list (last (spares s))).
  { simpl. clear. induction (spares s) as [|x l _] using rev_ind; [done|]. rewrite removelast_last, last_snoc. done. }
  assert (Hlen : Z.of_nat (length (spares s)) = Z.of_nat (length (spares s2)) + (if last (spares s) then 1 else 0)).
  { rewrite Hparts at 1. rewrite length_app. destruct (last (spares s)); simpl; lia. }
  pose proof (opt_bytes_nonneg t id B) as Hob. pose proof (pool_parked_split t id B) as Hps. pose proof (rest_nonneg t id B) as Hrn.
  pose proof (bk_cap _ B) as Hcap. destruct Hs as [Hsb Hsr].
  assert (Hle : opt_bytes (Some s) <= opt_bytes (textures t !! id)).
  { simpl. destruct (decide (spares s = [])) as [E0|E0]; [rewrite E0; simpl; lia|]. by rewrite (Hne E0). }
  assert (Hb2 : opt_bytes (Some s) = opt_bytes (Some s2) + (if last (spares s) then vs_bytes s else 0)).
  { simpl. rewrite Hlen. simpl. destruct (last (spares s)); lia. }
  assert (H0 : 0 <= opt_bytes (Some s2)) by (simpl; lia).
  assert (Hp : parked_bytes t' = parked_bytes t - opt_bytes (textures t !! id) + opt_bytes (Some s2)).
  { simpl. simpl in Hb2. change (spares (set_rename s seq)) with (spares s). 
    destruct (last (spares s)); simpl in *; [rewrite wrap64_small by (unfold is_u64, u64_max; lia)|]; lia. }
  assert (Ht : touches t t' id (Some s2) (reshaped t id shape)).
  { split; try done.
    - simpl. by rewrite Et.
    - intros s0 E0. injection E0 as <-. split; [by split|exact Hq].
    - rewrite Hp. replace (budget t') with (budget t) by done. destruct (last (spares s)); lia.
    - intros i. unfold t'. cbn [with_spares set_parked set_textures]. rewrite Ew. fold s2.
      destruct (decide (i = id)) as [->|Hi0].
      + case_bool_decide as E0.
        * split; [set_solver|]. intros (? & Ex & Hx). by injection Ex as <-.
        * rewrite (bk_with _ B). split; [by exists s2|]. intros _. exists s. split; [|intros Es; apply E0; simpl; by rewrite Es].
          apply Hne. intros Es. apply E0. simpl. by rewrite Es.
      + case_bool_decide; set_solver.
    - intros q i e _. simpl. apply Hi. }
  split; [by eapply touches_books|].
  pose proof (touches_conserve _ _ _ _ _ (option_list (sp_views <$> last (spares (set_rename s seq)))) [] Ht) as H1.
  rewrite !app_nil_r in H1. apply H1. rewrite Hv, Hparts.
  assert (E1 : fst <$> opt_items (Some s2) = sp_views <$> spares s2)
  by (simpl; unfold state_items; rewrite <- list_fmap_compose; done).
  assert (E2 : retiring t' = retiring t) by exact Er.
  rewrite E1, E2, fmap_app. change (last (spares (set_rename s seq))) with (last (spares s)).
  destruct (last (spares s)); simpl; solve_Permutation.
Qed.
(** *** Pressure relief *)

Lemma relief_counts_bound excess (held : Z -> nat) l freed counts :
  (forall id, (default 0%nat (counts !! id) + length (filter (λ a, snd (fst a) = id) l) <= held id)%nat) ->
  forall id, (default 0%nat (relief_counts l freed excess counts !! id) <= held id)%nat.
Proof.
  revert freed counts. induction l as [|[[sq i] b] l IH]; intros freed counts H id; simpl.
  - specialize (H id). lia.
  - destruct (_ <=? _); [specialize (H id); lia|]. apply IH. intros j. specialize (H j).
    rewrite filter_cons in H. simpl in H. destruct (decide (i = j)) as [->|Hne].
    + rewrite lookup_insert_eq. simpl in *. lia.
    + by rewrite lookup_insert_ne.
Qed.

Definition spares_at (t : TextureVersions V) (id : Z) : list (Spare V) := from_option spares [] (textures t !! id).

(** The relief loop counts each texture's spares at most once each. *)
Definition ages_at (t : TextureVersions V) (id : Z) : list (Z * Z * Z) :=
  match textures t !! id with
  | Some s => (λ sp, (parked_seq sp, id, vs_bytes s)) <$> spares s
  | None => []
  end.

Lemma spare_ages_bound t id :
  books t -> length (filter (λ a : Z * Z * Z, snd (fst a) = id) (spare_ages t))
 = length (spares_at t id).
Proof.
  intros B. change (spare_ages t) with (elements (with_spares t) ≫= ages_at t).
  assert (Hx : forall l, NoDup l ->
  length (filter (λ a : Z * Z * Z, snd (fst a) = id) (l ≫= ages_at t))
  = if decide (id ∈ l) then length (spares_at t id) else 0%nat).
  { induction l as [|i l IH]; intros Hnd; [done|]. apply NoDup_cons in Hnd as [Hi Hnd].
    cbn [mbind list_bind]. rewrite filter_app, length_app. change (list_bind _ _ ?f l) with (l ≫= f). rewrite IH by done.
    destruct (decide (i = id)) as [->|Hne].
    - rewrite (decide_False (P := id ∈ l)), decide_True by (done || left). rewrite Nat.add_0_r.
      unfold spares_at, ages_at. destruct (textures t !! id) as [s|]; simpl; [|done].
      rewrite filter_all; [apply length_fmap|]. intros x Hk. apply list_elem_of_fmap in Hk as (? & -> & _). done.
    - rewrite filter_none; [|].
      + simpl. destruct (decide (id ∈ l)), (decide (id ∈ i :: l)); set_solver.
      + intros x Hk. unfold ages_at in Hk. destruct (textures t !! i) as [s|]; [|by apply elem_of_nil in Hk].
        apply list_elem_of_fmap in Hk as (? & -> & _). done. }
  rewrite Hx by apply NoDup_elements. unfold spares_at. destruct (decide _) as [|Hn]; [done|].
  destruct (textures t !! id) as [s|] eqn:E; simpl; [|done]. destruct (spares s) eqn:Es; [done|].
  exfalso. apply Hn, elem_of_elements, (bk_with _ B). exists s. by rewrite Es.
Qed.

(** A texture's spares are only ever taken once by a fold of [drain_front]
over distinct textures. *)
Lemma drain_front_other t id n i : i <> id -> textures (drain_front t id n) !! i = textures t !! i.
Proof. intros. unfold drain_front. destruct (textures t !! id); simpl; [by rewrite lookup_insert_ne|done]. Qed.

Lemma drain_fronts_ok l t :
  books t -> NoDup (fst <$> l) ->
  (forall id n s, (id, n) ∈ l -> textures t !! id = Some s -> (n <= length (spares s))%nat) ->
  let t' := foldl (λ t '(id, count), drain_front t id count) t l in
  books t' /\ pool_views t' ≡ₚ pool_views t.
Proof.
  revert t. induction l as [|[id n] l IH]; intros t B Hnd Hn; [done|]. simpl in Hnd. apply NoDup_cons in Hnd as [Hi Hnd].
  cbn [foldl]. assert (H1 : forall s, textures t !! id = Some s -> (n <= length (spares s))%nat) by (intros s; apply Hn; left).
  destruct (IH (drain_front t id n)) as [B' P']; [by apply drain_front_books|done| |].
  - intros i k s Hin. rewrite drain_front_other; [apply Hn; by right|].
    intros ->. apply Hi. apply list_elem_of_fmap. by exists (id, k).
  - split; [done|]. by rewrite P', drain_front_views.
Qed.

Lemma note_allocated_ok t a : books t -> books (note_allocated t a) /\ pool_views (note_allocated t a) ≡ₚ pool_views t.
Proof.
  intros B. unfold note_allocated. assert (B0 : books (set_pressure_for t a)) by (by eapply books_frame).
  assert (E0 : pool_views (set_pressure_for t a) = pool_views t) by done. rewrite <- E0.
  set (t0 := set_pressure_for t a) in *. clearbody t0. clear E0.
  destruct (_ =? 0); [done|]. destruct (_ <=? _); [done|]. apply drain_fronts_ok; [done|apply NoDup_fst_map_to_list|].
  intros id n s Hin Es. apply elem_of_map_to_list in Hin.
  pose proof (relief_counts_bound (relieve_bytes t0) (λ id, length (spares_at t0 id))
  (merge_sort age_le (spare_ages t0)) (doomed_bytes t0) ∅) as H.
  specialize (λ H0, H H0 id). unfold spares_at in H. rewrite Hin, Es in H. simpl in H. apply H. intros j.
  rewrite lookup_empty. fold (spares_at t0 j). rewrite merge_sort_Permutation, spare_ages_bound by done. done.
Qed.

(** *** The destroy batch *)

Lemma take_doomed_ok t :
  books t ->
  let '(out, t') := take_doomed t in
  books t' /\ pool_views t' ++ out ≡ₚ pool_views t.
Proof.
  intros B. unfold take_doomed. set (batch := (_ + cover_excess _ _ _)%nat). clearbody batch.
  split.
  - destruct B. split; simpl; try done.
    assert (Hd : zsum (snd <$> doomed t) = zsum (snd <$> take batch (doomed t)) + zsum (snd <$> drop batch (doomed t)))
    by (rewrite <- zsum_app, <- fmap_app, take_drop; done).
    set (T := take batch (doomed t)) in *. clearbody T.
    assert (Hw : forall l x, is_u64 x -> is_u64 (foldl (λ acc e, wrap64 (acc - snd e)) x (l : list (V * Z)))).
    { clear. induction l as [|e l IH]; intros x Hx; simpl; [done|]. apply IH, wrap64_range. }
    rewrite <- (wrap64_small (foldl _ _ _)) by (apply Hw; rewrite bk_doomed0; apply wrap64_range).
    rewrite foldl_sub_wrap, bk_doomed0, wrap64_sub_l, Hd. f_equal. lia.
  - unfold pool_views; simpl. rewrite <- (take_drop batch (doomed t)) at 3. rewrite fmap_app. solve_Permutation.
Qed.

(** *** Releasing a texture *)

Lemma foldl_doom (l : list (Spare V)) b t :
  let t' := foldl (λ t sp, doom t (sp_views sp) b) t l in
  textures t' = textures t /\ parked_bytes t' = parked_bytes t /\ with_spares t' = with_spares t
  /\ idle t' = idle t /\ budget t' = budget t /\ retiring t' = retiring t
  /\ doomed t' = doomed t ++ ((λ sp, (sp_views sp, b)) <$> l)
  /\ wrap64 (doomed_bytes t') = wrap64 (doomed_bytes t + b * Z.of_nat (length l))
  /\ (is_u64 (doomed_bytes t) -> is_u64 (doomed_bytes t')).
Proof.
  revert t. induction l as [|sp l IH]; intros t; cbn [foldl].
  - rewrite app_nil_r. simpl. rewrite Z.mul_0_r, Z.add_0_r. done.
  - destruct (IH (doom t (sp_views sp) b)) as (-> & -> & -> & -> & -> & -> & -> & -> & H). simpl.
    rewrite <- app_assoc. split_and!; try done.
    + rewrite wrap64_add_l. f_equal. lia.
    + intros _. apply H. apply wrap64_range.
Qed.

Lemma forget_texture_ok t id :
  books t -> books (forget_texture t id) /\ pool_views (forget_texture t id) ≡ₚ pool_views t.
Proof.
  intros B. unfold forget_texture. destruct (textures t !! id) as [s|] eqn:E; [|done].
  destruct (parked_drop t id s _ B E ltac:(done)) as [Hp _].
  match goal with |- context [foldl _ ?T (spares s)] => pose proof (foldl_doom (spares s) (vs_bytes s) T) as H end.
  set (t' := foldl _ _ _) in *. clearbody t'. simpl in H. destruct H as (Et & Epk & Ew & Ei & Eu & Er & Ed & Eb & Hu).
  assert (Ht : touches t t' id None (state_items s)).
  { split; try done.
    - rewrite Epk, Hp, E. simpl. lia.
    - rewrite Epk, Hp, Eu. pose proof (bk_cap _ B). destruct (bk_state _ B _ _ E).
      assert (0 <= vs_bytes s * Z.of_nat (length (spares s))) by (apply Z.mul_nonneg_nonneg; lia). lia.
    - rewrite state_bytes, <- Eb, wrap64_small; [done|]. apply Hu. rewrite (bk_doomed _ B). apply wrap64_range.
    - intros i. rewrite Ew. destruct (decide (i = id)) as [->|].
      + split; [set_solver|]. by intros (? & ? & _).
      + set_solver.
    - intros q i e _. by rewrite Ei. }
  split; [by eapply touches_books|].
  pose proof (touches_conserve _ _ _ _ _ [] [] Ht) as H1. rewrite !app_nil_r in H1. apply H1. rewrite E, Er. simpl. solve_Permutation.
Qed.

(** *** Reset *)

Lemma drop_all_lookup (l : list Z) m i :
  foldl (λ m id, alter (λ s, set_spares s []) id m) m l !! i
  = (if decide (i ∈ l) then (λ s, set_spares s []) else id) <$> m !! i.
Proof.
  revert m. induction l as [|x l IH]; intros m; cbn [foldl].
  - rewrite decide_False by set_solver. by destruct (m !! i).
  - rewrite IH. destruct (decide (x = i)) as [->|Hne].
    + rewrite lookup_alter_eq. rewrite (decide_True (P := i ∈ i :: l)) by left. destruct (decide (i ∈ l)); by destruct (m !! i).
    + rewrite lookup_alter_ne by done. destruct (decide (i ∈ l)), (decide (i ∈ x :: l)); set_solver.
Qed.

Lemma items_of_spec m v b :
  (v, b) ∈ items_of m <-> exists id s sp, m !! id = Some s /\ sp ∈ spares s /\ v = sp_views sp /\ b = vs_bytes s.
Proof.
  unfold items_of. rewrite list_elem_of_bind. split.
  - intros ([i s] & Hs & Hi). apply list_elem_of_fmap in Hs as (sp & E & Hsp). apply elem_of_map_to_list in Hi. naive_solver.
  - intros (i & s & sp & Hi & Hsp & -> & ->). exists (i, s). split; [|by apply elem_of_map_to_list].
    apply list_elem_of_fmap. by exists sp.
Qed.

Lemma items_of_none m : (forall id s, m !! id = Some s -> spares s = []) -> items_of m = [].
Proof.
  intros H. apply elem_of_nil_inv. intros [v b]. rewrite items_of_spec. intros (i & s & sp & Hi & Hsp & _).
  rewrite (H _ _ Hi) in Hsp. by apply elem_of_nil in Hsp.
Qed.

Definition views_at (m : gmap Z (VersionState V)) (id : Z) : list V :=
  match m !! id with Some s => sp_views <$> spares s | None => [] end.

(** Collecting the spares of the textures that hold some collects them all. *)
Lemma collect_views l m :
  NoDup l -> (forall id s, m !! id = Some s -> spares s <> [] -> id ∈ l) ->
  l ≫= views_at m ≡ₚ fst <$> items_of m.
Proof.
  revert m. induction l as [|x l IH]; intros m Hnd Hl.
  - rewrite items_of_none; [done|]. intros id s Hs. destruct (decide (spares s = [])) as [|Hne]; [done|].
    by apply (Hl _ _ Hs), elem_of_nil in Hne.
  - apply NoDup_cons in Hnd as [Hx Hnd]. cbn [mbind list_bind]. change (list_bind _ _ ?f l) with (l ≫= f).
    rewrite (items_at x m), fmap_app. f_equiv.
    + unfold views_at. destruct (m !! x) as [s|]; simpl; [|done]. unfold state_items. by rewrite <- list_fmap_compose.
    + rewrite <- IH; [|done|].
      * apply reflexive_eq, Forall_bind_ext, Forall_forall. intros y Hy. unfold views_at.
        rewrite lookup_delete_ne; [done|]. by intros ->.
      * intros id s Hd Hs. apply lookup_delete_Some in Hd as [Hne Hd]. specialize (Hl _ _ Hd Hs).
        by apply elem_of_cons in Hl as [->|].
Qed.

Lemma drain_versions_ok t :
  books t ->
  let '(out, t') := drain_versions t in
  books t' /\ pool_views t' = [] /\ out ≡ₚ pool_views t.
Proof.
  intros B. unfold drain_versions.
  assert (Hnone : items_of (foldl (λ m id, alter (λ s, set_spares s []) id m) (textures t) (elements (with_spares t))) = []).
  { apply items_of_none. intros id s. rewrite drop_all_lookup. destruct (decide _) as [|Hn].
    - intros (s0 & _ & ->)%fmap_Some. done.
    - rewrite option_fmap_id. intros Hs. destruct (decide (spares s = [])) as [|Hne]; [done|].
      exfalso. apply Hn, elem_of_elements, (bk_with _ B). by exists s. }
  pose proof (parked_nonneg t B) as Hpn. split; [|split].
  - destruct B. split; simpl.
    + by rewrite Hnone.
    + lia.
    + done.
    + intros id s. rewrite drop_all_lookup. intros (s0 & Hs & ->)%fmap_Some.
      destruct (decide _); [|by apply bk_state0 in Hs]. apply bk_state0 in Hs. done.
    + intros id. split; [set_solver|]. intros (s & Hs & Hne). exfalso. simpl in Hs.
      assert (items_of (foldl (λ m id, alter (λ s, set_spares s []) id m) (textures t) (elements (with_spares t))) <> []);
      [|done]. destruct (spares s) as [|sp l] eqn:El; [done|]. intros E0.
      assert (H : (sp_views sp, vs_bytes s) ∈ ([] : list (V * Z))); [|by apply elem_of_nil in H].
      rewrite <- E0. apply items_of_spec. exists id, s, sp. rewrite El. split_and!; try done. left.
    + intros id s. rewrite drop_all_lookup. intros (s0 & Hs & ->)%fmap_Some.
      destruct (bk_idle0 _ _ Hs) as [q Hq]. exists q. by destruct (decide _).
  - unfold pool_views; simpl. by rewrite Hnone.
  - change (elements (with_spares t) ≫= _) with (elements (with_spares t) ≫= views_at (textures t)).
    rewrite collect_views; [unfold pool_views; solve_Permutation|apply NoDup_elements|].
    intros id s Hs Hne. apply elem_of_elements, (bk_with _ B). by exists s.
Qed.

(** *** Trimming *)

Lemma count_while_le {A} (f : A -> bool) l : (count_while f l <= length l)%nat.
Proof. induction l as [|x l IH]; simpl; [lia|]. destruct (f x); lia. Qed.

Lemma trim_spares_ok now t id :
  books t -> books (trim_spares_of now t id) /\ pool_views (trim_spares_of now t id) ≡ₚ pool_views t.
Proof.
  intros B. unfold trim_spares_of. destruct (textures t !! id) as [s|] eqn:E.
  - split; [apply drain_front_books|apply drain_front_views]; try done;
    intros s0 E0; rewrite E in E0; injection E0 as <-; apply count_while_le.
  - split; [|done]. destruct B. split; try done. intros i. simpl. rewrite elem_of_difference, bk_with0.
    unfold holds_spares; simpl. split; [tauto|]. intros H. split; [done|]. intros ->%elem_of_singleton.
    destruct H as (s & Hs & _). congruence.
Qed.

Lemma trim_fold_ok now l t :
  books t -> books (foldl (trim_spares_of now) t l) /\ pool_views (foldl (trim_spares_of now) t l) ≡ₚ pool_views t.
Proof.
  revert t. induction l as [|id l IH]; intros t B; cbn [foldl]; [done|].
  destruct (trim_spares_ok now t id B) as [B1 P1]. destruct (IH _ B1) as [B2 P2]. split; [done|]. by rewrite P2.
Qed.

(** A change of the idle set that keeps an entry for every state. *)
Lemma idle_books t n i :
  books t -> (forall id s, textures t !! id = Some s -> exists q, (q, id, vs_epoch s) ∈ i) -> books (set_epoch t n i).
Proof. intros [] H. split; done. Qed.

Lemma trim_idle_turn_ok now t e rest :
  books t -> idle t = e :: rest ->
  books (trim_idle_turn now t e rest) /\ pool_views (trim_idle_turn now t e rest) ≡ₚ pool_views t.
Proof.
  intros B Ei. destruct e as [[seq raw] epoch]. unfold trim_idle_turn. cbn [textures set_epoch].
  assert (Hother : forall id s, textures t !! id = Some s -> (id <> raw \/ vs_epoch s <> epoch) ->
  exists q, (q, id, vs_epoch s) ∈ rest).
  { intros id s Hs Hne. destruct (bk_idle _ B _ _ Hs) as [q Hq]. rewrite Ei in Hq.
    apply elem_of_cons in Hq as [[= -> -> <-]|Hq]; [by destruct Hne|by exists q]. }
  destruct (textures t !! raw) as [s|] eqn:E.
  2:{ split; [|done]. apply idle_books; [done|]. intros id s Hs. apply (Hother _ _ Hs). left. by intros ->; congruence. }
  destruct (negb _) eqn:Eep; reflect_cmp.
  { split; [|done]. apply idle_books; [done|]. intros id s0 Hs. apply (Hother _ _ Hs).
    destruct (decide (id = raw)) as [->|]; [right|by left]. congruence. }
  destruct (aged_at _ _ && _) eqn:Eag.
  - apply andb_true_iff in Eag as [_ Hsp%bool_decide_eq_true].
    match goal with |- books ?T /\ _ => assert (Ht : touches t T raw None []) end.
    { split; simpl; try done.
      - rewrite E. simpl. rewrite Hsp. simpl. lia.
      - apply (bk_cap _ B).
      - by rewrite app_nil_r.
      - rewrite (bk_doomed _ B), wrap64_add_l. simpl. f_equal. lia.
      - intros i. destruct (decide (i = raw)) as [->|]; [|done]. rewrite (bk_with _ B). unfold holds_spares. rewrite E.
        split; [intros (? & [= <-] & ?); done|]. by intros (? & ? & _).
      - intros q i e Hne. rewrite Ei. intros Hq. by apply elem_of_cons in Hq as [[= -> -> <-]|Hq]. }
    split; [by eapply touches_books|].
    pose proof (touches_conserve _ _ _ _ _ [] [] Ht) as H1. rewrite !app_nil_r in H1. apply H1.
    rewrite E. simpl. unfold state_items. rewrite Hsp. done.
  - split; [|done]. apply (idle_books t). 1: done. intros id s0 Hs. destruct (decide (id = raw)) as [->|Hne].
    + simplify_eq. eexists. apply elem_of_idle_insert. by left.
    + destruct (Hother _ _ Hs) as [q Hq]; [by left|]. exists q. apply elem_of_idle_insert. by right.
Qed.

Lemma trim_idle_ok fuel now t t' :
  books t -> trim_idle fuel now t = Some t' -> books t' /\ pool_views t' ≡ₚ pool_views t.
Proof.
  revert t. induction fuel as [|fuel IH]; intros t B; cbn [trim_idle];
  destruct (idle t) as [|[[sq raw] ep] rest] eqn:Ei; try (intros [= <-]; done);
  destruct (negb _); try (intros [= <-]; done); try done.
  intros H. destruct (trim_idle_turn_ok now t _ _ B Ei) as [B1 P1]. destruct (IH _ B1 H) as [B2 P2].
  split; [done|]. by rewrite P2.
Qed.

Lemma trim_ok t now t' : books t -> trim t now = Some t' -> books t' /\ pool_views t' ≡ₚ pool_views t.
Proof.
  intros B H. unfold trim in H. destruct (trim_fold_ok now (elements (with_spares t)) t B) as [B1 P1].
  destruct (trim_idle_ok _ _ _ _ B1 H) as [B2 P2]. split; [done|]. by rewrite P2.
Qed.

(** Entries the idle loop has to look at. *)
Definition due (now : Z) (l : list (Z * Z * Z)) : list (Z * Z * Z) := filter (λ e, aged_at now (fst (fst e)) = true) l.

Lemma due_insert now e l : aged_at now (fst (fst e)) = false -> length (due now (idle_insert e l)) = length (due now l).
Proof.
  intros He. unfold due. induction l as [|x l IH]; simpl.
  - rewrite filter_cons_False by (by rewrite He). done.
  - destruct (idle_lt e x); [rewrite (filter_cons_False _ e) by (by rewrite He); done|].
    case_bool_decide; [done|]. rewrite !filter_cons. destruct (decide _); simpl; lia.
Qed.

Lemma trim_idle_turn_due now t e rest :
  now + STATE_MAX_IDLE_SUBMITS <= u64_max -> 0 <= now ->
  (length (due now (idle (trim_idle_turn now t e rest))) <= length (due now rest))%nat.
Proof.
  intros Hn H0. destruct e as [[seq raw] epoch]. unfold trim_idle_turn. cbn [textures set_epoch].
  destruct (textures t !! raw) as [s|]; [|done]. destruct (negb _); [done|]. destruct (_ && _); [done|].
  cbn [idle set_epoch]. rewrite due_insert; [done|]. simpl.
  destruct (aged_at now (last_rename_seq s)) eqn:E; [|done].
  unfold aged_at. rewrite wrap64_small; [apply Z.ltb_ge; unfold STATE_MAX_IDLE_SUBMITS; lia|].
  unfold is_u64, STATE_MAX_IDLE_SUBMITS in *. lia.
Qed.

Lemma trim_idle_total fuel now t :
  now + STATE_MAX_IDLE_SUBMITS <= u64_max -> 0 <= now ->
  (length (due now (idle t)) <= fuel)%nat -> exists t', trim_idle fuel now t = Some t'.
Proof.
  intros Hn H0. revert t. induction fuel as [|fuel IH]; intros t Hf; cbn [trim_idle];
  destruct (idle t) as [|[[sq raw] ep] rest] eqn:Ei; eauto; destruct (aged_at now sq) eqn:Ea; cbn [negb]; eauto.
  - exfalso. unfold due in Hf. rewrite filter_cons_True in Hf by done. simpl in Hf. lia.
  - apply IH. etrans; [apply trim_idle_turn_due; done|]. unfold due in Hf. rewrite filter_cons_True in Hf by done.
    simpl in Hf. unfold due. lia.
Qed.

Lemma trim_total now t :
  now + STATE_MAX_IDLE_SUBMITS <= u64_max -> 0 <= now -> exists t', trim t now = Some t'.
Proof. intros Hn H0. apply trim_idle_total; [done|done|]. apply length_filter. Qed.

(** ** Runs of the pool *)

Inductive pool_op :=
  | TakeSpare (id : Z) (shape : VersionShape.t) (records : bool) (seq : Z)
  | Retire (id : Z) (views : V) (seq : Z)
  | NoteWrite (id slice level : Z) (rect : TexelRect.t)
  | NoteMipRegeneration (id : Z)
  | PopPark (settled failed now : Z)
  | NoteAllocated (allocated : Z)
  | Trim (now : Z)
  | TakeDoomed
  | ForgetTexture (id : Z)
  | DrainVersions.

(** What an operation hands back and the pool it leaves; no result when a loop
would not finish. *)
Definition exec (o : pool_op) (t : TextureVersions V) : option (list V * TextureVersions V) :=
  match o with
  | TakeSpare id shape records seq =>
    let '(sp, t) := take_spare t id shape records seq in Some (option_list (sp_views <$> sp), t)
  | Retire id v seq => Some ([], retire t id v seq)
  | NoteWrite id sl lv r => Some ([], note_write t id sl lv r)
  | NoteMipRegeneration id => Some ([], note_mip_regeneration t id)
  | PopPark settled failed now =>
    match pop_retired t settled with
    | Some (e, t) => Some ([], park t e failed now)
    | None => Some ([], t)
    end
  | NoteAllocated a => Some ([], note_allocated t a)
  | Trim now => t ← trim t now; Some ([], t)
  | TakeDoomed => Some (take_doomed t)
  | ForgetTexture id => Some ([], forget_texture t id)
  | DrainVersions => Some (drain_versions t)
  end.

(** The view sets an operation puts into the pool. *)
Definition ins (o : pool_op) : list V := match o with Retire _ v _ => [v] | _ => [] end.

Definition op_ok (o : pool_op) : Prop :=
  match o with
  | TakeSpare _ shape _ _ => shape_bytes_ok shape
  | Trim now => 0 <= now /\ now + STATE_MAX_IDLE_SUBMITS <= u64_max
  | _ => True
  end.

Fixpoint run (ops : list pool_op) (t : TextureVersions V) : option (list V * TextureVersions V) :=
  match ops with
  | [] => Some ([], t)
  | o :: rest =>
    '(out, t) ← exec o t;
    '(out', t) ← run rest t;
    Some (out ++ out', t)
  end.

Lemma pop_retired_ok t settled e t' :
  books t -> pop_retired t settled = Some (e, t') -> books t' /\ rt_views e :: pool_views t' = pool_views t.
Proof.
  unfold pop_retired. intros B. destruct (retiring t) as [|e0 rest] eqn:E; [done|]. destruct (_ <? _); [done|].
  intros [= <- <-]. split; [by eapply books_frame|]. unfold pool_views. by rewrite E.
Qed.

Lemma exec_ok o t :
  books t -> op_ok o -> exists out t', exec o t = Some (out, t') /\ books t'
  /\ pool_views t' ++ out ≡ₚ pool_views t ++ ins o.
Proof.
  intros B Hok. destruct o as [id shape r seq|id v seq|id sl lv r|id|settled failed now|a|now| |id|]; cbn [exec ins op_ok] in *.
  - pose proof (take_spare_ok t id shape r seq B Hok) as H. destruct (take_spare _ _ _ _ _) as [sp t'].
    destruct H as [B' P]. do 2 eexists. split; [done|]. split; [done|]. by rewrite app_nil_r.
  - do 2 eexists. split; [done|]. split; [by apply retire_books|]. rewrite retire_views, app_nil_r. solve_Permutation.
  - destruct (note_write_books t id sl lv r B). do 2 eexists. split; [done|]. by rewrite !app_nil_r.
  - destruct (note_mip_regeneration_books t id B). do 2 eexists. split; [done|]. by rewrite !app_nil_r.
  - destruct (pop_retired t settled) as [[e t']|] eqn:E; do 2 eexists; (split; [done|]); rewrite !app_nil_r; [|done].
    destruct (pop_retired_ok _ _ _ _ B E) as [B' P]. destruct (park_books t' e failed now B') as [B2 P2].
    split; [done|]. by rewrite P2, P.
  - destruct (note_allocated_ok t a B). do 2 eexists. split; [done|]. by rewrite !app_nil_r.
  - destruct (trim_total now t) as [t' E]; [lia..|]. rewrite E. destruct (trim_ok t now t' B E).
    do 2 eexists. split; [done|]. by rewrite !app_nil_r.
  - pose proof (take_doomed_ok t B) as H. destruct (take_doomed t) as [out t']. destruct H.
    do 2 eexists. split; [done|]. by rewrite !app_nil_r.
  - destruct (forget_texture_ok t id B). do 2 eexists. split; [done|]. by rewrite !app_nil_r.
  - pose proof (drain_versions_ok t B) as H. destruct (drain_versions t) as [out t']. destruct H as (? & E & P).
    do 2 eexists. split; [done|]. rewrite E, P. by rewrite app_nil_r.
Qed.

Lemma run_ok ops t :
  books t -> Forall op_ok ops -> exists out t', run ops t = Some (out, t') /\ books t'
  /\ pool_views t' ++ out ≡ₚ pool_views t ++ (ops ≫= ins).
Proof.
  revert t. induction ops as [|o ops IH]; intros t B Hok; [by do 2 eexists|].
  apply Forall_cons in Hok as [Ho Hops]. destruct (exec_ok o t B Ho) as (out & t1 & E1 & B1 & P1).
  destruct (IH t1 B1 Hops) as (out' & t2 & E2 & B2 & P2). cbn [run]. rewrite E1. cbn [mbind option_bind]. rewrite E2.
  cbn [mbind option_bind]. do 2 eexists. split; [done|]. split; [done|]. cbn [mbind list_bind].
  change (list_bind _ _ ins ops) with (ops ≫= ins).
  transitivity ((pool_views t2 ++ out') ++ out); [solve_Permutation|]. rewrite P2.
  transitivity ((pool_views t1 ++ out) ++ (ops ≫= ins)); [solve_Permutation|]. rewrite P1. solve_Permutation.
Qed.

Lemma budget_cap working_set : 0 <= working_set -> 0 <= VersionBudget.spare_cap (VersionBudget.from_working_set working_set) <= 2 ^ 30.
Proof.
  intros H. unfold VersionBudget.from_working_set. pose proof (Z.div_pos working_set 8 H).
  unfold VERSION_POOL_CEILING_BYTES, VERSION_POOL_WORKING_SET_DIVISOR in *. destruct (_ =? 0); simpl; [lia|].
  destruct (_ <? _) eqn:E; reflect_cmp; lia.
Qed.

(** C37: the version pool keeps its books through any sequence of renames,
retirements, parks, pressure notes, trims, destroy batches, releases and
resets: every operation finishes, the parked and doomed byte counters are
the sums of what is parked and queued, the spares stay under the budget's
cap, the sets the scans use name exactly the textures they should, and
every version ever retired is held in exactly one place or was handed
back exactly once. *)
Theorem versions_conserved working_set ops :
  0 <= working_set -> Forall op_ok ops ->
  exists out t,
  run ops (versions_new (VersionBudget.from_working_set working_set)) = Some (out, t)
  /\ books t /\ pool_views t ++ out ≡ₚ (ops ≫= ins).
Proof.
  intros Hw Hok. destruct (run_ok ops _ (books_new _ (budget_cap _ Hw)) Hok) as (out & t & E & B & P).
  exists out, t. split; [done|]. split; [done|]. rewrite P. unfold pool_views; simpl. by rewrite items_of_none.
Qed.

End Books.
Arguments pool_op V : clear implicits.

Definition shape64 : VersionShape.t := VersionShape.mk 64 64 1 2 Bgra8Unorm 2 0 1 [0; 1; 2; 3].

Definition ops64 : list (pool_op Z) :=
  [TakeSpare 7 shape64 true 1; Retire 7 100 1; TakeSpare 7 shape64 true 1; Retire 7 101 1;
   NoteWrite 7 0 0 (TexelRect.mk 3 4 5 6); PopPark 1 0 2; PopPark 1 0 2; TakeSpare 7 shape64 true 2;
   NoteAllocated 5; Trim 300; TakeDoomed].

Lemma versions_conserved_witness :
  option_map fst (run ops64 (versions_new (VersionBudget.from_working_set 1000000))) = Some [101; 100]
  /\ exists out t, run ops64 (versions_new (VersionBudget.from_working_set 1000000)) = Some (out, t)
       /\ books t /\ pool_views t ++ out ≡ₚ (ops64 ≫= ins).
Proof.
  split; [vm_compute; reflexivity|]. apply (versions_conserved 1000000 ops64); [lia|].
  repeat constructor; vm_compute; intuition discriminate.
Defined.
