(* ===== verification/VersionWorld.v ===== *)
(** [texture_versions.rs] and the encoder's rename of a sampled texture: the
    contents of every GPU version, the copies a rename queues, and the proof
    that a texture's contents never show which version is live. *)

From S2P Require Import Prelude Mtl StampGrid TextureVersions VersionBooks.

(** ** The write history of a shape *)

Record Texel := mkTexel { t_slice : Z; t_level : Z; t_x : Z; t_y : Z }.

Definition shape_ok (s : VersionShape.t) : Prop :=
  0 <= VersionShape.width s <= 2147483647 /\ 0 <= VersionShape.height s <= 2147483647
  /\ 0 <= VersionShape.levels s <= 32 /\ shape_bytes_ok s.

Definition in_shape (s : VersionShape.t) (sl lv : Z) : Prop :=
  0 <= sl < VersionShape.slices s /\ 0 <= lv < VersionShape.levels s.

(** The texels of the shape's levels; a volume's depth is the texel's own. *)
Definition texel_ok (s : VersionShape.t) (t : Texel) : Prop :=
  in_shape s (t_slice t) (t_level t)
  /\ 0 <= t_x t < level_extent (VersionShape.width s) (t_level t)
  /\ 0 <= t_y t < level_extent (VersionShape.height s) (t_level t).

Definition shape_block (s : VersionShape.t) : BlockLayout.t := block_layout (VersionShape.pixel_format s).

Lemma shape_block_ok s : block_ok (shape_block s).
Proof. unfold block_ok. pose proof (block_layout_bounds (VersionShape.pixel_format s)) as H. simpl in H. unfold shape_block. lia. Qed.

Lemma slices_range s : 1 <= VersionShape.slices s <= 6.
Proof. unfold VersionShape.slices. destruct (flag _ _); lia. Qed.

Lemma level_extent_ok e l : 0 <= e <= 2147483647 -> 0 <= l -> extent_ok (level_extent e l).
Proof.
  intros He Hl. unfold extent_ok, level_extent. rewrite Z.shiftr_div_pow2 by done.
  assert (Z.max e 1 / 2 ^ l <= Z.max e 1); [|lia].
  apply Z.div_le_upper_bound; [lia|]. assert (1 <= 2 ^ l) by (pose proof (Z.pow_pos_nonneg 2 l); lia). nia.
Qed.

(** One grid of a history: sound for some list of writes, of the level's size,
    and no newer than the counter. *)
Definition grid_for (s : VersionShape.t) (lv writes : Z) (g : StampGrid.t) : Prop :=
  StampGrid.width g = level_extent (VersionShape.width s) lv
  /\ StampGrid.height g = level_extent (VersionShape.height s) lv
  /\ StampGrid.newest g <= writes /\ exists ws, sound (shape_block s) g ws.

Record hist_ok (s : VersionShape.t) (h : WriteHistory.t) : Prop := {
  h_slices : WriteHistory.slices h = VersionShape.slices s;
  h_levels : WriteHistory.levels h = VersionShape.levels s;
  h_writes : 0 <= WriteHistory.writes h;
  h_grids : forall sl lv, in_shape s sl lv ->
    exists g, WriteHistory.grid h sl lv = Some g /\ grid_for s lv (WriteHistory.writes h) g;
}.

(** The stamp of a texel's tile. *)
Definition hist_stamp (h : WriteHistory.t) (t : Texel) : Z :=
  match WriteHistory.grid h (t_slice t) (t_level t) with
  | Some g => texel_stamp g (t_x t) (t_y t)
  | None => 0
  end.

Lemma bind_const_lookup {A B} (l : list A) (k : list B) (i j : nat) :
  (i < length l)%nat -> (j < length k)%nat -> (l ≫= λ _, k) !! (i * length k + j)%nat = k !! j.
Proof.
  revert i. induction l as [|x l IH]; intros i Hi Hj; simpl in Hi; [lia|]. cbn [mbind list_bind].
  change (list_bind _ _ ?f l) with (l ≫= f). destruct i as [|i].
  - apply lookup_app_l. done.
  - rewrite lookup_app_r by (simpl; lia). rewrite <- (IH i) by lia. f_equal. simpl. lia.
Qed.

Lemma hist_index s h sl lv :
  shape_ok s -> WriteHistory.levels h = VersionShape.levels s -> in_shape s sl lv ->
  WriteHistory.index h sl lv = (Z.to_nat sl * Z.to_nat (VersionShape.levels s) + Z.to_nat lv)%nat.
Proof.
  intros (_ & _ & Hl & _) El [Hs Hv]. unfold WriteHistory.index. rewrite El. pose proof (slices_range s).
  rewrite !wrap32_small by (try apply wrap32_range; unfold is_u32, u32_max; rewrite ?wrap32_small; unfold is_u32, u32_max; nia).
  rewrite Z2Nat.inj_add, Z2Nat.inj_mul by nia. done.
Qed.

Lemma hist_index_inj s h sl lv sl' lv' :
  shape_ok s -> WriteHistory.levels h = VersionShape.levels s -> in_shape s sl lv -> in_shape s sl' lv' ->
  WriteHistory.index h sl lv = WriteHistory.index h sl' lv' -> sl = sl' /\ lv = lv'.
Proof.
  intros Hs El H1 H2. rewrite !(hist_index s h) by done. destruct H1 as [? ?], H2 as [? ?]. intros E.
  assert (sl * VersionShape.levels s + lv = sl' * VersionShape.levels s + lv') by lia.
  assert (sl = sl') by nia. subst. lia.
Qed.

Lemma hist_new_ok s : shape_ok s -> hist_ok s (WriteHistory.new s).
Proof.
  intros Hs. split; [done|done|simpl; lia|]. intros sl lv Hi. pose proof Hs as (Hw & Hh & Hl & _).
  pose proof Hi as [Hsl Hlv].
  unfold WriteHistory.grid. rewrite (hist_index s) by done. simpl.
  set (k := (λ level, StampGrid.new _ _ _) <$> seqZ 0 (VersionShape.levels s)).
  assert (Ek : Z.to_nat (VersionShape.levels s) = length k) by (unfold k; rewrite length_fmap, length_seqZ; done).
  rewrite Ek, bind_const_lookup; [|rewrite length_seqZ; lia|lia].
  unfold k. rewrite list_lookup_fmap, lookup_seqZ_lt by lia. cbn [fmap option_fmap option_map].
  rewrite Z2Nat.id by lia. rewrite Z.add_0_l. eexists. split; [done|].
  split; [done|]. split; [done|]. split; [done|]. exists []. apply sound_new; [..|apply shape_block_ok].
  all: apply level_extent_ok; lia.
Qed.

(** ** Writes *)

(** A write that stamped the tiles of the texels in [P], and no known stamp
    elsewhere but its own. *)
Definition hist_wrote (s : VersionShape.t) (h h' : WriteHistory.t) (P : Texel -> Prop) : Prop :=
  WriteHistory.writes h' = WriteHistory.writes h + 1
  /\ forall t, texel_ok s t ->
       hist_stamp h' t = WriteHistory.writes h'
       \/ hist_stamp h' t = hist_stamp h t /\ ~ P t.

Lemma grid_stamp s lv g r wr :
  shape_ok s -> 0 <= lv -> grid_for s lv wr g -> rect_u32 r ->
  grid_for s lv (wr + 1) (StampGrid.stamp g r (wr + 1))
  /\ forall px py, in_level g px py ->
       texel_stamp (StampGrid.stamp g r (wr + 1)) px py = wr + 1
       \/ texel_stamp (StampGrid.stamp g r (wr + 1)) px py = texel_stamp g px py /\ ~ covers r px py.
Proof.
  intros Hs Hlv (Ew & Eh & Hn & ws & Hso) Hr.
  pose proof (sound_stamp _ g ws r (wr + 1) Hso Hr ltac:(lia)) as Hso'.
  destruct (stamp_cells _ g r (wr + 1) (s_grid _ _ _ Hso) Hr)
    as (_ & (E1 & E2 & E3 & E4 & E5 & E6) & [[Eg Hmiss]|(Hn' & Hcell & Hcov & _)]).
  - rewrite Eg in *. split; [split_and!; try done; [lia|by eexists]|]. intros px py Hl. right. split; [done|]. by apply Hmiss.
  - split; [split_and!; [congruence|congruence|lia|by eexists]|]. intros px py Hl.
    destruct (decide (covers r px py)) as [Hc|Hc]; [left; by apply Hcov|].
    unfold texel_stamp. rewrite E3, E4. destruct Hl as [Hx Hy].
    destruct (Hcell (py / StampGrid.tile_height g) (px / StampGrid.tile_width g)) as [E|E].
    + split; [apply (axis_tile _ _ _ _ _ (g_y _ _ (s_grid _ _ _ Hso)) Hy)|apply (axis_tile _ _ _ _ _ (g_x _ _ (s_grid _ _ _ Hso)) Hx)].
    + by left.
    + right. by rewrite E.
Qed.

Lemma grid_newer s lv wr g : grid_for s lv wr g -> grid_for s lv (wr + 1) g.
Proof. intros (? & ? & ? & ?). split_and!; try done. lia. Qed.

Lemma texel_in_grid s wr g t : texel_ok s t -> grid_for s (t_level t) wr g -> in_level g (t_x t) (t_y t).
Proof. intros (_ & Hx & Hy) (Ew & Eh & _). unfold in_level. by rewrite Ew, Eh. Qed.

Definition in_rect (sl lv : Z) (r : TexelRect.t) (t : Texel) : Prop :=
  t_slice t = sl /\ t_level t = lv /\ covers r (t_x t) (t_y t).

#[global] Instance in_rect_dec sl lv r t : Decision (in_rect sl lv r t).
Proof. unfold in_rect. apply _. Defined.

Lemma hist_stamp_one s h sl lv r :
  shape_ok s -> hist_ok s h -> in_shape s sl lv -> rect_u32 r -> WriteHistory.writes h < u64_max ->
  let h' := WriteHistory.stamp_one (WriteHistory.bump h) sl lv r in
  hist_ok s h' /\ hist_wrote s h h' (in_rect sl lv r).
Proof.
  intros Hs [Es El Hw Hg] Hi Hr Hmax h'.
  assert (Ew : WriteHistory.writes h' = WriteHistory.writes h + 1)
    by (simpl; apply wrap64_small; unfold is_u64; lia).
  assert (Hgrid : forall sl' lv', in_shape s sl' lv' -> forall g, WriteHistory.grid h sl' lv' = Some g ->
    WriteHistory.grid h' sl' lv' = Some (if decide (sl' = sl /\ lv' = lv) then StampGrid.stamp g r (WriteHistory.writes h + 1) else g)).
  { intros sl' lv' Hi' g Eg. unfold WriteHistory.grid in *. simpl.
    rewrite wrap64_small by (unfold is_u64; lia).
    change (WriteHistory.index (WriteHistory.bump h) sl lv) with (WriteHistory.index h sl lv).
    change (WriteHistory.index h' sl' lv') with (WriteHistory.index h sl' lv').
    destruct (decide (sl' = sl /\ lv' = lv)) as [[-> ->]|Hne].
    - rewrite list_lookup_alter, decide_True by done. by rewrite Eg.
    - rewrite list_lookup_alter, decide_False; [done|]. intros E. apply Hne.
      symmetry in E. by apply (hist_index_inj s h) in E. }
  split.
  - split; [done|done|lia|]. intros sl' lv' Hi'. destruct (Hg sl' lv' Hi') as (g & Eg & Hgf).
    eexists. split; [by apply Hgrid|]. rewrite Ew. destruct (decide _) as [[-> ->]|]; [|by apply grid_newer].
    apply grid_stamp; try done. by destruct Hi as [_ [? _]].
  - split; [done|]. intros t Ht. pose proof Ht as (Hit & _ & _). destruct (Hg _ _ Hit) as (g & Eg & Hgf).
    unfold hist_stamp. rewrite (Hgrid _ _ Hit g Eg), Eg, Ew. unfold in_rect.
    destruct (decide _) as [[E1 E2]|Hne]; [|right; split; [done|tauto]].
    rewrite E2 in Hgf. destruct (grid_stamp s lv g r _ Hs ltac:(destruct Hi; lia) Hgf Hr) as [_ H].
    destruct (H (t_x t) (t_y t)) as [H1|[H1 H2]]; [eapply texel_in_grid; [done|by rewrite E2]|by left|right]. tauto.
Qed.

Lemma hist_regen s h :
  shape_ok s -> hist_ok s h -> WriteHistory.writes h < u64_max ->
  let h' := WriteHistory.stamp_mips (WriteHistory.bump h) in
  hist_ok s h' /\ hist_wrote s h h' (λ t, t_level t <> 0).
Proof.
  intros Hs [Es El Hw Hg] Hmax h'.
  assert (Ew : WriteHistory.writes h' = WriteHistory.writes h + 1)
    by (simpl; apply wrap64_small; unfold is_u64; lia).
  assert (Hgrid : forall sl lv, in_shape s sl lv -> forall g, WriteHistory.grid h sl lv = Some g ->
    WriteHistory.grid h' sl lv = Some (if decide (lv = 0) then g
      else StampGrid.stamp g (TexelRect.level (StampGrid.width g) (StampGrid.height g)) (WriteHistory.writes h + 1))).
  { intros sl lv Hi g Eg. unfold WriteHistory.grid in *. simpl.
    rewrite wrap64_small by (unfold is_u64; lia).
    change (WriteHistory.index h' sl lv) with (WriteHistory.index h sl lv).
    rewrite list_lookup_imap, Eg. cbn [fmap option_fmap option_map]. f_equal.
    rewrite (hist_index s) by done. pose proof Hi as [? ?]. rewrite El.
    replace (Z.max (VersionShape.levels s) 1) with (VersionShape.levels s) by lia.
    replace (Z.of_nat _) with (lv + sl * VersionShape.levels s) by lia.
    rewrite Z_mod_plus_full, Z.mod_small by lia.
    destruct (decide (lv = 0)) as [->|Hne]; [done|]. by rewrite (proj2 (Z.eqb_neq _ _) Hne). }
  assert (Hlev : forall sl lv g wr, in_shape s sl lv -> grid_for s lv wr g ->
    rect_u32 (TexelRect.level (StampGrid.width g) (StampGrid.height g))).
  { intros sl lv g wr [? Hlv] (E1 & E2 & _). rewrite E1, E2. destruct Hs as (Hw1 & Hh1 & _).
    pose proof (level_extent_ok _ lv Hw1 ltac:(lia)). pose proof (level_extent_ok _ lv Hh1 ltac:(lia)).
    unfold extent_ok in *. repeat split; simpl; unfold u32_max; lia. }
  split.
  - split; [done|done|lia|]. intros sl lv Hi. destruct (Hg sl lv Hi) as (g & Eg & Hgf).
    eexists. split; [by apply Hgrid|]. rewrite Ew. destruct (decide _) as [|]; [by apply grid_newer|].
    apply grid_stamp; try done; [destruct Hi; lia|by eapply Hlev].
  - split; [done|]. intros t Ht. pose proof Ht as (Hit & _ & _). destruct (Hg _ _ Hit) as (g & Eg & Hgf).
    unfold hist_stamp. rewrite (Hgrid _ _ Hit g Eg), Eg, Ew. destruct (decide _) as [E0|Hne]; [right; split; [done|intros Hx; by apply Hx]|].
    destruct (grid_stamp s (t_level t) g _ _ Hs ltac:(destruct Hit; lia) Hgf (Hlev _ _ _ _ Hit Hgf)) as [_ H].
    destruct (H (t_x t) (t_y t)) as [H1|[H1 H2]]; [by eapply texel_in_grid|by left|]. exfalso. apply H2.
    pose proof (texel_in_grid _ _ _ _ Ht Hgf) as [Hx Hy]. unfold covers; simpl. lia.
Qed.

(** ** The copy plan of one subresource *)

Lemma hist_box s h t held :
  hist_ok s h -> texel_ok s t -> 0 <= held -> held < hist_stamp h t ->
  exists g box, WriteHistory.grid h (t_slice t) (t_level t) = Some g
    /\ StampGrid.written_since g held = Some box /\ covers box (t_x t) (t_y t).
Proof.
  intros [_ _ _ Hg] Ht H0 Hst. pose proof Ht as (Hi & _ & _). destruct (Hg _ _ Hi) as (g & Eg & Hgf).
  unfold hist_stamp in Hst. rewrite Eg in Hst. pose proof (texel_in_grid _ _ _ _ Ht Hgf) as Hl.
  destruct Hgf as (_ & _ & _ & ws & Hso).
  (* the tile's stamp counts as a write of this texel alone *)
  set (r := TexelRect.mk (t_x t) (t_y t) 1 1).
  assert (Hso' : sound (shape_block s) g ((r, texel_stamp g (t_x t) (t_y t)) :: ws)).
  { destruct Hso as [Hgr Hst0 Hn Ha]. split; [done| |done|done].
    intros r' s' px py [[= -> ->]|Hin]%elem_of_cons Hl' Hc; [|by eapply Hst0].
    unfold covers in Hc. simpl in Hc. replace px with (t_x t) by lia. replace py with (t_y t) by lia. done. }
  pose proof (written_since_sound _ g _ held Hso' H0) as Hbox.
  assert (Hc : covers r (t_x t) (t_y t)) by (unfold covers; simpl; lia).
  destruct (StampGrid.written_since g held) as [box|] eqn:E.
  - exists g, box. split; [done|]. split; [done|]. destruct Hbox as (_ & _ & _ & _ & _ & _ & _ & _ & _ & _ & Hb).
    apply (Hb r); try done. exists (texel_stamp g (t_x t) (t_y t)). split; [left|done].
  - exfalso. apply (Hbox r (t_x t) (t_y t)); try done. exists (texel_stamp g (t_x t) (t_y t)). split; [left|done].
Qed.

(** ** The world *)

Section World.
Context {A : Type} (shape_of : Z -> VersionShape.t) (usage_of : Z -> Z).

(** An upload job as the encoder reads it; [j_compressed] is the source
format's block when it is block compressed. *)
Record UploadView := mkJob {
  j_id : Z; j_slice : Z; j_level : Z; j_x : Z; j_y : Z; j_w : Z; j_h : Z; j_depth : Z;
  j_compressed : option (Z * Z); j_data : Texel -> A }.

Record World := mkWorld {
  w_pool : TextureVersions Z; w_live : gmap Z Z; w_content : Z -> Texel -> A }.

Definition world_new (b : VersionBudget.t) (c : Z -> Texel -> A) : World := mkWorld (versions_new b) ∅ c.

Definition live_views (w : World) : list Z := snd <$> map_to_list (w_live w).

(** Every version something names. *)
Definition versions (w : World) : list Z := live_views w ++ pool_views (w_pool w).

Definition level_size (id level : Z) : Z * Z :=
  (level_extent (VersionShape.width (shape_of id)) level, level_extent (VersionShape.height (shape_of id)) level).

(** The rectangle [note_upload_write] stamps and the upload writes. *)
Definition written_rect (j : UploadView) : TexelRect.t :=
  upload_written_rect (TexelRect.mk (j_x j) (j_y j) (j_w j) (j_h j)) (level_size (j_id j) (j_level j)) (j_compressed j).

Definition note_upload_write (p : TextureVersions Z) (j : UploadView) : TextureVersions Z :=
  if (1 <? j_depth j) || negb (records_writes p (j_id j)) then p
  else note_write p (j_id j) (j_slice j) (j_level j) (written_rect j).

Definition job_writes (j : UploadView) (t : Texel) : Prop := in_rect (j_slice j) (j_level j) (written_rect j) t.

#[local] Instance job_writes_dec j t : Decision (job_writes j t).
Proof. unfold job_writes. apply _. Defined.

Definition write_version (c : Z -> Texel -> A) (v : Z) (P : Texel -> Prop) `{!forall t, Decision (P t)}
  (data : Texel -> A) : Z -> Texel -> A :=
  λ x t, if decide (x = v /\ P t) then data t else c x t.

Definition full_cover (j : UploadView) : bool :=
  let is_volume := flag (VersionShape.flags (shape_of (j_id j))) TYPE_3D in
  let '(mip_w, mip_h) := level_size (j_id j) (j_level j) in
  let mip_depth := level_extent (VersionShape.depth (shape_of (j_id j))) (j_level j) in
  (negb is_volume || (mip_depth <=? j_depth j)) && (j_x j =? 0) && (j_y j =? 0)
  && (mip_w <=? j_w j) && (mip_h <=? j_h j).

(** What one preserve copy covers. *)
Definition in_copy (t : Texel) (c : PreserveCopy) : bool :=
  (t_slice t =? cp_slice c) && (t_level t =? cp_level c)
  && match cp_region c with Some r => bool_decide (covers r (t_x t) (t_y t)) | None => true end.

Definition apply_copies (plan : list PreserveCopy) (old new : Z) (c : Z -> Texel -> A) : Z -> Texel -> A :=
  λ x t, if bool_decide (x = new) && existsb (in_copy t) plan then c old t else c x t.

Definition upload (w : World) (j : UploadView) : option World :=
  v ← w_live w !! j_id j;
  Some (mkWorld (note_upload_write (w_pool w) j) (w_live w)
  (write_version (w_content w) v (job_writes j) (j_data j))).

Definition records_id (id : Z) : bool :=
  records_every_write (VersionShape.flags (shape_of id)) (VersionShape.pixel_format (shape_of id)) (usage_of id).

(** [rename_sampled_texture]: the copies and the retirement; [fresh] is the
version an allocation returns when no spare is left. *)
Definition rename (w : World) (j : UploadView) (fresh seq : Z) : option World :=
  let id := j_id j in
  old ← w_live w !! id;
  let '(spare, p) := take_spare (w_pool w) id (shape_of id) (records_id id) seq in
  '(v, held) ← match spare with
  | Some sp => Some (sp_views sp, held_writes sp)
  | None => if decide (fresh ∈ versions w) then None else Some (fresh, None)
  end;
  let plan := preserve_plan p id (shape_of id) held (mkFootprint (j_slice j) (j_level j) (full_cover j)) in
  Some (mkWorld (retire p id old seq) (<[id := v]> (w_live w)) (apply_copies plan old v (w_content w))).

Inductive wop :=
  | Create (id v : Z) (init : Texel -> A)
  | Destroy (id : Z)
  | Upload (j : UploadView)
  | BlitWrite (id slice level : Z) (rect : TexelRect.t) (data : Texel -> A)
  | Regenerate (id : Z) (data : Texel -> A)
  | Rename (j : UploadView) (fresh seq : Z)
  | RenameFailed (j : UploadView) (seq : Z)
  | Reclaim (settled failed now : Z)
  | Pressure (allocated : Z)
  | TrimPool (now : Z)
  | Destroys
  | ResetPool.

Definition with_pool (w : World) (p : TextureVersions Z) : World := mkWorld p (w_live w) (w_content w).

Definition wstep (o : wop) (w : World) : option World :=
  match o with
  | Create id v init =>
    if decide (w_live w !! id = None /\ v ∉ versions w)
    then Some (mkWorld (w_pool w) (<[id := v]> (w_live w)) (write_version (w_content w) v (λ _, True) init))
    else None
  | Destroy id => Some (mkWorld (forget_texture (w_pool w) id) (delete id (w_live w)) (w_content w))
  | Upload j => upload w j
  | BlitWrite id sl lv r data =>
    v ← w_live w !! id;
    Some (mkWorld (note_write (w_pool w) id sl lv r) (w_live w)
  (write_version (w_content w) v (in_rect sl lv r) data))
  | Regenerate id data =>
    v ← w_live w !! id;
    Some (mkWorld (note_mip_regeneration (w_pool w) id) (w_live w)
  (write_version (w_content w) v (λ t, t_level t ≠ 0) data))
  | Rename j fresh seq => w ← rename w j fresh seq; upload w j
  | RenameFailed j seq =>
    let '(spare, p) := take_spare (w_pool w) (j_id j) (shape_of (j_id j)) (records_id (j_id j)) seq in
    match spare with Some _ => None | None => upload (with_pool w p) j end
  | Reclaim settled failed now =>
    Some (with_pool w match pop_retired (w_pool w) settled with
            | Some (e, p) => park p e failed now
            | None => w_pool w
            end)
  | Pressure a => Some (with_pool w (note_allocated (w_pool w) a))
  | TrimPool now => p ← trim (w_pool w) now; Some (with_pool w p)
  | Destroys => Some (with_pool w (snd (take_doomed (w_pool w))))
  | ResetPool => Some (with_pool w (snd (drain_versions (w_pool w))))
  end.

Fixpoint wrun (ops : list wop) (w : World) : option World :=
  match ops with [] => Some w | o :: rest => w ← wstep o w; wrun rest w end.

(** ** The specification: one content per texture, no versions *)

Definition write_texture (a : Z -> Texel -> A) (id : Z) (P : Texel -> Prop) `{!forall t, Decision (P t)}
  (data : Texel -> A) : Z -> Texel -> A :=
  λ i t, if decide (i = id /\ P t) then data t else a i t.

Definition sstep (o : wop) (a : Z -> Texel -> A) : Z -> Texel -> A :=
  match o with
  | Create id _ init => write_texture a id (λ _, True) init
  | Upload j | Rename j _ _ | RenameFailed j _ => write_texture a (j_id j) (job_writes j) (j_data j)
  | BlitWrite id sl lv r data => write_texture a id (in_rect sl lv r) data
  | Regenerate id data => write_texture a id (λ t, t_level t ≠ 0) data
  | _ => a
  end.

Definition srun (ops : list wop) (a : Z -> Texel -> A) : Z -> Texel -> A := foldl (λ a o, sstep o a) a ops.

Definition job_ok (j : UploadView) : Prop :=
  is_u32 (j_x j) /\ is_u32 (j_y j) /\ is_u32 (j_w j) /\ is_u32 (j_h j)
  /\ (1 < j_depth j -> flag (VersionShape.flags (shape_of (j_id j))) TYPE_3D = true)
  /\ 0 <= j_slice j /\ 0 <= j_level j.

Definition wop_ok (o : wop) : Prop :=
  match o with
  | Upload j | Rename j _ _ | RenameFailed j _ => job_ok j
  | BlitWrite _ sl lv r _ => 0 <= sl /\ 0 <= lv /\ rect_u32 r
  | _ => True
  end.

(** ** The invariant *)

Definition held_ok (c : Z -> Texel -> A) (s : VersionShape.t) (h : WriteHistory.t) (live v k : Z) : Prop :=
  0 <= k <= WriteHistory.writes h
  /\ forall t, texel_ok s t -> hist_stamp h t <= k -> c v t = c live t.

Record state_inv (n : Z) (c : Z -> Texel -> A) (id live : Z) (s : VersionState Z) : Prop := {
  si_shape : vs_shape s = shape_of id;
  si_hist : forall h, history s = Some h -> hist_ok (shape_of id) h /\ WriteHistory.writes h <= n
  /\ flag (VersionShape.flags (shape_of id)) TYPE_3D = false;
  si_spares : forall h sp k, history s = Some h -> sp ∈ spares s -> held_writes sp = Some k ->
  held_ok c (shape_of id) h live (sp_views sp) k;
}.

Record inv (n : Z) (w : World) : Prop := {
  inv_books : books (w_pool w);
  inv_nodup : NoDup (versions w);
  inv_epoch : 1 <= next_epoch (w_pool w) <= n + 1;
  inv_state : forall id s, textures (w_pool w) !! id = Some s ->
  1 <= vs_epoch s < next_epoch (w_pool w)
  /\ exists v, w_live w !! id = Some v /\ state_inv n (w_content w) id v s;
  inv_retiring : forall e, e ∈ retiring (w_pool w) ->
  0 <= rt_epoch e < next_epoch (w_pool w)
  /\ forall s h v, textures (w_pool w) !! rt_id e = Some s -> vs_epoch s = rt_epoch e ->
 history s = Some h -> w_live w !! rt_id e = Some v ->
 held_ok (w_content w) (shape_of (rt_id e)) h v (rt_views e) (rt_held e);
}.

Lemma live_elem w id v : w_live w !! id = Some v -> v ∈ live_views w.
Proof. intros H. unfold live_views. apply list_elem_of_fmap. exists (id, v). split; [done|]. by apply elem_of_map_to_list. Qed.

Lemma live_insert (m : gmap Z Z) id v :
  snd <$> map_to_list (<[id := v]> m) ≡ₚ v :: (snd <$> map_to_list (delete id m)).
Proof. rewrite <- insert_delete_eq, map_to_list_insert by apply lookup_delete_eq. done. Qed.

Lemma live_at (m : gmap Z Z) id v :
  m !! id = Some v -> snd <$> map_to_list m ≡ₚ v :: (snd <$> map_to_list (delete id m)).
Proof. intros H. rewrite <- live_insert. by rewrite insert_id. Qed.

Lemma spare_elem (p : TextureVersions Z) id s sp :
  textures p !! id = Some s -> sp ∈ spares s -> sp_views sp ∈ pool_views p.
Proof.
  intros H Hs. unfold pool_views. rewrite !elem_of_app. right. left. apply list_elem_of_fmap.
  exists (sp_views sp, vs_bytes s). split; [done|]. apply items_of_spec. eauto 10.
Qed.

Lemma retiring_elem (p : TextureVersions Z) e : e ∈ retiring p -> rt_views e ∈ pool_views p.
Proof. intros H. unfold pool_views. rewrite !elem_of_app. left. apply list_elem_of_fmap. eauto. Qed.

(** Two textures never share a live version, and the pool holds no live one. *)
Lemma live_inj n w id id' v : inv n w -> w_live w !! id = Some v -> w_live w !! id' = Some v -> id = id'.
Proof.
  intros I H H'. destruct (decide (id = id')) as [|Hne]; [done|]. exfalso.
  pose proof (inv_nodup _ _ I) as Hnd. unfold versions, live_views in Hnd. rewrite (live_at _ _ _ H) in Hnd.
  simpl in Hnd. apply NoDup_cons in Hnd as [Hn _]. apply Hn, elem_of_app. left. apply list_elem_of_fmap.
  exists (id', v). split; [done|]. apply elem_of_map_to_list. by rewrite lookup_delete_ne.
Qed.

Lemma live_not_pooled n w id v : inv n w -> w_live w !! id = Some v -> v ∉ pool_views (w_pool w).
Proof.
  intros I H Hp. pose proof (inv_nodup _ _ I) as Hnd. apply NoDup_app in Hnd as (_ & Hnd & _).
  apply (Hnd v); [by eapply live_elem|done].
Qed.

(** ** Writes to a live version *)

(** A write of [P] the history of [id] has taken note of, or has none to. *)
Inductive hist_edit (id : Z) (P : Texel -> Prop) (p : TextureVersions Z) : TextureVersions Z -> Prop :=
  | edit_none : (forall s, textures p !! id = Some s -> history s = None) -> hist_edit id P p p
  | edit_some s h o :
  textures p !! id = Some s -> history s = Some h ->
  (forall h', o = Some h' -> hist_ok (shape_of id) h' /\ hist_wrote (shape_of id) h h' P) ->
  hist_edit id P p (set_textures p (<[id := set_history s o]> (textures p))).

Lemma hist_edit_books id P p p' : books p -> hist_edit id P p p' -> books p' /\ pool_views p' ≡ₚ pool_views p.
Proof. intros B [H|s h o Hs Hh Ho]; [done|]. split; [by eapply history_books|by eapply history_views]. Qed.

Lemma write_version_other c v P `{!forall t, Decision (P t)} data x t :
  x <> v \/ ~ P t -> write_version c v P data x t = c x t.
Proof. intros Hx. unfold write_version. destruct (decide _); naive_solver. Qed.

Lemma held_ok_same c c' s h live v k :
  (forall t, c' v t = c v t) -> (forall t, c' live t = c live t) -> held_ok c s h live v k -> held_ok c' s h live v k.
Proof. intros H1 H2 [Hk H]. split; [done|]. intros t Ht Hs. rewrite H1, H2. by apply H. Qed.

Lemma held_ok_wrote c s h h' live v k P `{!forall t, Decision (P t)} data :
  hist_wrote s h h' P -> v <> live -> held_ok c s h live v k -> held_ok (write_version c live P data) s h' live v k.
Proof.
  intros [Ew Hst] Hne [Hk Hc]. split; [lia|]. intros t Ht Hs.
  destruct (Hst t Ht) as [E|[E Hn]]; [lia|]. rewrite E in Hs.
  rewrite !write_version_other by auto. by apply Hc.
Qed.

Lemma live_write n w id v p' P `{!forall t, Decision (P t)} data :
  inv n w -> w_live w !! id = Some v -> hist_edit id P (w_pool w) p' ->
  inv (n + 1) (mkWorld p' (w_live w) (write_version (w_content w) v P data)).
Proof.
  intros I Hv He. destruct (hist_edit_books _ _ _ _ (inv_books _ _ I) He) as [B' Hpv].
  pose proof (live_not_pooled _ _ _ _ I Hv) as Hnp.
  assert (Hsame : forall x t, x <> v -> write_version (w_content w) v P data x t = w_content w x t)
  by (intros; apply write_version_other; auto).
  assert (Hstate : forall i s, textures p' !! i = Some s -> exists s0, textures (w_pool w) !! i = Some s0
 /\ vs_epoch s = vs_epoch s0 /\ vs_shape s = vs_shape s0 /\ spares s = spares s0
 /\ forall h', history s = Some h' -> exists h, history s0 = Some h
  /\ (h' = h /\ i <> id \/ hist_ok (shape_of id) h' /\ hist_wrote (shape_of id) h h' P /\ i = id)).
  { intros i s Hs. destruct He as [Hno|s1 h1 o Hs1 Hh1 Ho].
    - exists s. split_and!; try done. intros h' Eh. exists h'. split; [done|]. left. split; [done|].
      intros ->. rewrite (Hno _ Hs) in Eh. done.
    - simpl in Hs. destruct (decide (i = id)) as [->|Hne].
      + rewrite lookup_insert_eq in Hs. injection Hs as <-. exists s1. split_and!; try done.
        simpl. intros h' Eh. exists h1. split; [done|]. right. destruct (Ho _ Eh). done.
      + rewrite lookup_insert_ne in Hs by done. exists s. split_and!; try done. intros h' Eh. exists h'. auto. }
  assert (Hret : retiring p' = retiring (w_pool w) /\ next_epoch p' = next_epoch (w_pool w)) by (by destruct He).
  destruct Hret as [Er Ene]. split; cbn [w_pool w_live w_content].
  - done.
  - unfold versions, live_views in *. cbn [w_pool w_live]. rewrite Hpv. apply I.
  - rewrite Ene. pose proof (inv_epoch _ _ I). lia.
  - intros i s Hs. destruct (Hstate i s Hs) as (s0 & Hs0 & Ee & Es & Esp & Hh).
    destruct (inv_state _ _ I _ _ Hs0) as (Hep & x & Hx & [Ssh Shi Ssp]). rewrite Ene, Ee. split; [done|].
    exists x. split; [done|]. split; [congruence| |].
    + intros h' Eh. destruct (Hh _ Eh) as (h & Eh0 & [[-> _]|(Hok & [Hw _] & ->)]);
      destruct (Shi _ Eh0) as (? & ? & ?); split_and!; try done; lia.
    + intros h' sp k Eh Hsp Hk. rewrite Esp in Hsp. destruct (Hh _ Eh) as (h & Eh0 & Hcase).
      pose proof (Ssp _ _ _ Eh0 Hsp Hk) as Hheld. pose proof (spare_elem _ _ _ _ Hs0 Hsp) as Hin.
      assert (Hspv : sp_views sp <> v) by (intros E; by rewrite E in Hin).
      destruct Hcase as [[-> Hne]|(_ & Hw & ->)].
      * eapply held_ok_same; [..|exact Hheld]; intros t; apply Hsame; [done|].
        intros ->. apply Hne. by eapply live_inj.
      * rewrite Hv in Hx. injection Hx as <-. by eapply held_ok_wrote.
  - intros e Hin. rewrite Er in Hin. destruct (inv_retiring _ _ I _ Hin) as [Hep Hr]. rewrite Ene. split; [done|].
    intros s h' x Hs Ee Eh Hx. destruct (Hstate _ s Hs) as (s0 & Hs0 & Ee0 & _ & _ & Hh).
    destruct (Hh _ Eh) as (h & Eh0 & Hcase). pose proof (Hr s0 h x Hs0 ltac:(congruence) Eh0 Hx) as Hheld.
    pose proof (retiring_elem _ _ Hin) as Hinp.
    assert (Hrv : rt_views e <> v) by (intros E; by rewrite E in Hinp).
    destruct Hcase as [[-> Hne]|(_ & Hw & E)].
    + eapply held_ok_same; [..|exact Hheld]; intros t; apply Hsame; [done|]. intros ->. apply Hne. by eapply live_inj.
    + rewrite E in *. rewrite Hv in Hx. injection Hx as <-. by eapply held_ok_wrote.
Qed.

Context (shapes_ok : forall id, shape_ok (shape_of id)).

Lemma note_write_edit n w id sl lv r (P : Texel -> Prop) :
  inv n w -> n < u64_max -> 0 <= sl -> 0 <= lv -> rect_u32 r -> (forall t, P t <-> in_rect sl lv r t) ->
  hist_edit id P (w_pool w) (note_write (w_pool w) id sl lv r).
Proof.
  intros I Hn H0 H1 Hr HP. unfold note_write. destruct (textures (w_pool w) !! id) as [s|] eqn:E; [|apply edit_none; by rewrite E].
  destruct (history s) as [h|] eqn:Eh; [|apply edit_none; congruence].
  destruct (inv_state _ _ I _ _ E) as (_ & v & _ & [_ Shi _]). destruct (Shi _ Eh) as (Hok & Hw & _).
  destruct (_ || _) eqn:Erange; eapply edit_some; try done. intros h' [= <-]. reflect_cmp.
  destruct (hist_stamp_one (shape_of id) h sl lv r) as [Ok [Ww Wt]]; try done; [|lia|].
  - destruct Hok as [Es El _ _]. split; lia.
  - split; [done|]. split; [done|]. intros t Ht. destruct (Wt t Ht) as [?|[? ?]]; [by left|right]. by rewrite HP.
Qed.

Lemma regen_edit n w id :
  inv n w -> n < u64_max -> hist_edit id (λ t, t_level t ≠ 0) (w_pool w) (note_mip_regeneration (w_pool w) id).
Proof.
  intros I Hn. unfold note_mip_regeneration. destruct (textures (w_pool w) !! id) as [s|] eqn:E; [|apply edit_none; by rewrite E].
  destruct (history s) as [h|] eqn:Eh; [|apply edit_none; congruence].
  destruct (inv_state _ _ I _ _ E) as (_ & v & _ & [_ Shi _]). destruct (Shi _ Eh) as (Hok & Hw & _).
  eapply edit_some; try done. intros h' [= <-]. apply hist_regen; try done. lia.
Qed.

Lemma upload_rect_ok j : job_ok j -> rect_u32 (written_rect j).
Proof.
  intros (? & ? & ? & ? & _ & _ & Hl). unfold written_rect, upload_written_rect.
  destruct (match _ with Some _ => _ | None => _ end); [done|].
  destruct (shapes_ok (j_id j)) as (Hw & Hh & _).
  pose proof (level_extent_ok _ (j_level j) Hw Hl). pose proof (level_extent_ok _ (j_level j) Hh Hl).
  unfold extent_ok in *. repeat split; simpl; unfold u32_max; lia.
Qed.

Lemma upload_edit n w j :
  inv n w -> n < u64_max -> job_ok j ->
  hist_edit (j_id j) (job_writes j) (w_pool w) (note_upload_write (w_pool w) j).
Proof.
  intros I Hn Hj. unfold note_upload_write, records_writes.
  destruct (textures (w_pool w) !! j_id j) as [s|] eqn:E; [|rewrite orb_true_r; apply edit_none; by rewrite E].
  destruct (history s) as [h|] eqn:Eh.
  2:{ rewrite bool_decide_eq_false_2 by (by intros [? ?]). rewrite orb_true_r. apply edit_none. congruence. }
  rewrite bool_decide_eq_true_2 by eauto. simpl. rewrite orb_false_r.
  pose proof Hj as (_ & _ & _ & _ & Hd & H0 & H1).
  destruct (1 <? j_depth j) eqn:Ed; reflect_cmp.
  { exfalso. destruct (inv_state _ _ I _ _ E) as (_ & v & _ & [_ Shi _]). destruct (Shi _ Eh) as (_ & _ & H3).
    by rewrite Hd in H3. }
  eapply note_write_edit; eauto; by apply upload_rect_ok.
Qed.

Lemma upload_inv n w j w' :
  inv n w -> n < u64_max -> job_ok j -> upload w j = Some w' -> inv (n + 1) w'.
Proof.
  intros I Hn Hj. unfold upload. destruct (w_live w !! j_id j) as [v|] eqn:Ev; [|done].
  intros [= <-]. eapply live_write; [done|done|]. by eapply upload_edit.
Qed.

(** ** Steps that only let go of versions *)

(** [p'] holds no more than [p]: fewer textures, spares that were spares or
retiring versions of the same epoch, fewer retiring versions. *)
Record pool_le (p p' : TextureVersions Z) : Prop := {
  le_epoch : next_epoch p' = next_epoch p;
  le_retiring : forall e, e ∈ retiring p' -> e ∈ retiring p;
  le_state : forall id s', textures p' !! id = Some s' -> exists s, textures p !! id = Some s
  /\ vs_shape s' = vs_shape s /\ vs_epoch s' = vs_epoch s /\ history s' = history s
  /\ forall sp, sp ∈ spares s' -> sp ∈ spares s
 \/ exists e, e ∈ retiring p /\ rt_id e = id /\ rt_epoch e = vs_epoch s /\ sp_views sp = rt_views e
          /\ forall k, held_writes sp = Some k -> k = rt_held e;
}.

Lemma pool_le_refl p p' :
  textures p' = textures p -> retiring p' = retiring p -> next_epoch p' = next_epoch p -> pool_le p p'.
Proof. intros Et Er En. split; rewrite ?Et, ?Er; eauto 10. Qed.

Lemma pool_le_trans p p1 p2 : pool_le p p1 -> pool_le p1 p2 -> pool_le p p2.
Proof.
  intros [E1 R1 S1] [E2 R2 S2]. split; [congruence|auto|]. intros id s2 H2.
  destruct (S2 _ _ H2) as (s1 & H1 & ? & Ee & ? & Sp2). destruct (S1 _ _ H1) as (s & Hs & ? & ? & ? & Sp1).
  exists s. split_and!; try congruence. intros sp Hsp. destruct (Sp2 _ Hsp) as [Hin|(e & He & ? & ? & ? & ?)]; [by apply Sp1|].
  right. exists e. split_and!; auto; congruence.
Qed.

Lemma pool_le_fold {B} (f : TextureVersions Z -> B -> TextureVersions Z) l p :
  (forall p x, pool_le p (f p x)) -> pool_le p (foldl f p l).
Proof.
  intros Hf. revert p. induction l as [|x l IH]; intros p; cbn [foldl]; [by apply pool_le_refl|].
  eapply pool_le_trans; [apply Hf|apply IH].
Qed.

Lemma pool_le_delete p p' id :
  textures p' = delete id (textures p) -> retiring p' = retiring p -> next_epoch p' = next_epoch p -> pool_le p p'.
Proof.
  intros Et Er En. split; rewrite ?Er; auto. intros i s. rewrite Et. intros [? H]%lookup_delete_Some. eauto 10.
Qed.

Lemma drain_front_le p id n : pool_le p (drain_front p id n).
Proof.
  unfold drain_front. destruct (textures p !! id) as [s|] eqn:E; [|by apply pool_le_refl].
  split; [done|done|]. simpl. intros i s' Hs. destruct (decide (i = id)) as [->|Hne].
  - rewrite lookup_insert_eq in Hs. injection Hs as <-. exists s. split_and!; try done. simpl. intros sp Hsp. left.
    rewrite <- (take_drop n (spares s)). apply elem_of_app. by right.
  - rewrite lookup_insert_ne in Hs by done. eauto 10.
Qed.

Lemma note_allocated_le p a : pool_le p (note_allocated p a).
Proof.
  unfold note_allocated. destruct (_ =? 0); [by apply pool_le_refl|]. destruct (_ <=? _); [by apply pool_le_refl|].
  eapply pool_le_trans; [apply (pool_le_refl _ (set_pressure_for p a)); done|].
  apply pool_le_fold. intros p0 [id c]. apply drain_front_le.
Qed.

Lemma trim_le p now p' : trim p now = Some p' -> pool_le p p'.
Proof.
  unfold trim. intros H. eapply (pool_le_trans _ (foldl (trim_spares_of now) p (elements (with_spares p)))).
  { apply pool_le_fold. intros q id. unfold trim_spares_of. destruct (textures q !! id); [apply drain_front_le|by apply pool_le_refl]. }
  set (q := foldl _ _ _) in *. clearbody q. revert H. generalize (length (idle q)). intros fuel. revert q.
  induction fuel as [|fuel IH]; intros q; cbn [trim_idle]; destruct (idle q) as [|[[sq raw] ep] rest] eqn:Ei;
  try (intros [= <-]; by apply pool_le_refl);
  destruct (negb _); try (intros [= <-]; by apply pool_le_refl); try done.
  intros H. eapply pool_le_trans; [|by apply IH]. unfold trim_idle_turn. cbn [textures set_epoch].
  destruct (textures q !! raw); [|by apply pool_le_refl]. destruct (negb _); [by apply pool_le_refl|].
  destruct (_ && _); [by eapply pool_le_delete|by apply pool_le_refl].
Qed.

Lemma take_doomed_le p : pool_le p (snd (take_doomed p)).
Proof. by apply pool_le_refl. Qed.

Lemma drain_versions_le p : pool_le p (snd (drain_versions p)).
Proof.
  unfold drain_versions. split; [done|by intros e ?%elem_of_nil|]. simpl. intros id s'. rewrite drop_all_lookup.
  intros (s & Hs & ->)%fmap_Some. exists s. split; [done|]. destruct (decide _); simpl; split_and!; try done; eauto.
  by intros sp ?%elem_of_nil.
Qed.

Lemma forget_texture_textures (p : TextureVersions Z) id : textures (forget_texture p id) = delete id (textures p).
Proof.
  unfold forget_texture. destruct (textures p !! id) as [s|] eqn:E; [|by rewrite delete_id].
  match goal with |- context [foldl _ ?T (spares s)] => pose proof (foldl_doom (spares s) (vs_bytes s) T) as H end.
  destruct H as (Et & _). exact Et.
Qed.

Lemma forget_texture_le p id : pool_le p (forget_texture p id).
Proof.
  unfold forget_texture. destruct (textures p !! id) as [s|] eqn:E; [|by apply pool_le_refl].
  match goal with |- context [foldl _ ?T (spares s)] => pose proof (foldl_doom (spares s) (vs_bytes s) T) as H;
  assert (En : next_epoch (foldl (λ t sp, doom t (sp_views sp) (vs_bytes s)) T (spares s)) = next_epoch p) end.
  { match goal with |- context [foldl _ ?T _] => change (next_epoch p) with (next_epoch T); generalize T end.
    clear. induction (spares s) as [|x l IH]; intros T; [done|]. cbn [foldl]. by rewrite IH. }
  simpl in H. destruct H as (Et & _ & _ & _ & _ & Er & _). by eapply pool_le_delete.
Qed.

Lemma reclaim_le p settled failed now :
  pool_le p match pop_retired p settled with Some (e, q) => park q e failed now | None => p end.
Proof.
  unfold pop_retired. destruct (retiring p) as [|e rest] eqn:Er; [by apply pool_le_refl|].
  destruct (_ <? _); [by apply pool_le_refl|].
  assert (H0 : pool_le p (set_retiring p rest)).
  { split; [done|intros x Hx; rewrite Er; by right|]. eauto 10. }
  unfold park. cbn [textures set_retiring]. destruct (textures p !! rt_id e) as [s|] eqn:E;
  [|eapply pool_le_trans; [done|by apply pool_le_refl]].
  destruct (negb (vs_epoch s =? rt_epoch e)) eqn:Eep; [eapply pool_le_trans; [done|by apply pool_le_refl]|].
  destruct (pressed _); [eapply pool_le_trans; [done|by apply pool_le_refl]|].
  destruct (_ <? _); [eapply pool_le_trans; [done|by apply pool_le_refl]|].
  reflect_cmp. split; [done|intros x Hx; rewrite Er; by right|]. simpl. intros id s' Hs.
  destruct (decide (id = rt_id e)) as [->|Hne].
  - rewrite lookup_insert_eq in Hs. injection Hs as <-. exists s. split_and!; try done. simpl.
    intros sp [Hsp|Hsp]%elem_of_app; [by left|right]. apply list_elem_of_singleton in Hsp as ->.
    exists e. split_and!; try done; [rewrite Er; left|]. simpl. intros k. destruct (_ && _); [done|]. by intros [= <-].
  - rewrite lookup_insert_ne in Hs by done. eauto 10.
Qed.

Lemma inv_le n w w' :
  inv n w -> pool_le (w_pool w) (w_pool w') -> books (w_pool w') -> NoDup (versions w') ->
  w_content w' = w_content w ->
  (forall id v, w_live w' !! id = Some v -> w_live w !! id = Some v) ->
  (forall id s, textures (w_pool w') !! id = Some s -> w_live w' !! id = w_live w !! id) ->
  inv n w'.
Proof.
  intros I [Le Lr Ls] B Hnd Ec Hl1 Hl2. split; try done.
  - rewrite Le. apply I.
  - intros id s' Hs'. destruct (Ls _ _ Hs') as (s & Hs & Esh & Eep & Eh & Hsp).
    destruct (inv_state _ _ I _ _ Hs) as (Hep & v & Hv & [Ssh Shi Ssp]). rewrite Le, Eep, Ec. split; [done|].
    exists v. rewrite (Hl2 _ _ Hs'). split; [done|]. split; [congruence|by rewrite Eh|].
    intros h sp k Hh Hin Hk. rewrite Eh in Hh. destruct (Hsp _ Hin) as [Hin'|(e & He & Eid & Eep' & Ev & Hheld)]; [by eapply Ssp|].
    destruct (inv_retiring _ _ I _ He) as [_ Hr]. rewrite Eid in Hr. rewrite Ev, (Hheld _ Hk). by eapply Hr.
  - intros e He. destruct (inv_retiring _ _ I _ (Lr _ He)) as [Hep Hr]. rewrite Le, Ec. split; [done|].
    intros s' h v Hs' Ee Eh Hv. destruct (Ls _ _ Hs') as (s & Hs & _ & Eep & Ehs & _).
    eapply Hr; [exact Hs|congruence|congruence|by apply Hl1].
Qed.

Lemma inv_pool_le n w p out :
  inv n w -> pool_le (w_pool w) p -> books p -> pool_views p ++ out ≡ₚ pool_views (w_pool w) ->
  inv n (with_pool w p).
Proof.
  intros I Hle B Hp. eapply inv_le; try done. pose proof (inv_nodup _ _ I) as Hnd.
  unfold versions, live_views in *. simpl. rewrite <- Hp, app_assoc in Hnd. by apply NoDup_app in Hnd as [? _].
Qed.

(** ** Renames *)

Lemma take_spare_spec (p : TextureVersions Z) id shape rec seq :
  (forall s, textures p !! id = Some s -> vs_shape s = shape) ->
  let '(o, p') := take_spare p id shape rec seq in
  retiring p' = retiring p /\ exists s2, textures p' = <[id := s2]> (textures p) /\ vs_shape s2 = shape
 /\ ((exists s, textures p !! id = Some s /\ vs_epoch s2 = vs_epoch s /\ history s2 = history s
  /\ next_epoch p' = next_epoch p /\ spares s = spares s2 ++ option_list o)
 \/ textures p !! id = None /\ o = None /\ vs_epoch s2 = next_epoch p
  /\ next_epoch p' = wrap64 (next_epoch p + 1) /\ spares s2 = []
  /\ history s2 = if rec then Some (WriteHistory.new shape) else None).
Proof.
  intros Hsh. unfold take_spare, enter. destruct (textures p !! id) as [s|] eqn:E.
  - rewrite bool_decide_eq_true_2 by auto. split; [done|]. eexists. split; [done|]. split; [exact (Hsh s eq_refl)|]. left.
    exists s. split_and!; try done. simpl. clear. induction (spares s) as [|x l _] using rev_ind; [done|].
    by rewrite removelast_last, last_snoc.
  - split; [done|]. eexists. split; [done|]. split; [done|]. right. done.
Qed.

Lemma inv_mono n m w : inv n w -> n <= m -> inv m w.
Proof.
  intros [] Hnm. split; try done; [lia|]. intros id s Hs. destruct (inv_state0 _ _ Hs) as (? & v & ? & [? Hh ?]).
  split; [done|]. exists v. split; [done|]. split; try done. intros h Eh. destruct (Hh _ Eh) as (? & ? & ?). split_and!; try done. lia.
Qed.

(** The pool and live set of a rename, with the new version given all of the
old one's contents. *)
Definition handed (c : Z -> Texel -> A) (old v : Z) : Z -> Texel -> A := λ x t, if decide (x = v) then c old t else c x t.

Lemma handed_other c old v x t : x <> v -> handed c old v x t = c x t.
Proof. intros. unfold handed. by rewrite decide_False. Qed.

Lemma handed_new c old v t : handed c old v v t = c old t.
Proof. unfold handed. by rewrite decide_True. Qed.

Lemma held_ok_handed c s h old v x k :
  x <> v -> held_ok c s h old x k -> held_ok (handed c old v) s h v x k.
Proof. intros Hx [Hk H]. split; [done|]. intros t Ht Hs. rewrite handed_new, handed_other by done. by apply H. Qed.

Lemma held_ok_handed_old c s h old v : old <> v -> 0 <= WriteHistory.writes h ->
  held_ok (handed c old v) s h v old (WriteHistory.writes h).
Proof. intros Hne Hw. split; [lia|]. intros t _ _. by rewrite handed_new, handed_other. Qed.

(** What a rename changes, whichever version it takes. *)
Record renamed (w : World) (id : Z) (rec : bool) (seq old v : Z) (o : option (Spare Z)) (p : TextureVersions Z) : Prop := {
  rn_take : take_spare (w_pool w) id (shape_of id) rec seq = (o, p);
  rn_old : w_live w !! id = Some old;
  rn_rec : rec = records_id id;
  rn_new : match o with Some sp => v = sp_views sp | None => v ∉ versions w end;
}.

Lemma renamed_versions n w id rec seq old v o p :
  inv n w -> renamed w id rec seq old v o p ->
  NoDup (v :: old :: (snd <$> map_to_list (delete id (w_live w))) ++ pool_views p) /\ books p
  /\ pool_views p ++ option_list (sp_views <$> o) ≡ₚ pool_views (w_pool w).
Proof.
  intros I [Ht Ho Hr Hv].
  pose proof (take_spare_ok (w_pool w) id (shape_of id) rec seq (inv_books _ _ I) ltac:(apply shapes_ok)) as H.
  rewrite Ht in H. destruct H as [B Hp]. split; [|done]. pose proof (inv_nodup _ _ I) as Hnd.
  assert (Hvs : versions w ≡ₚ old :: (snd <$> map_to_list (delete id (w_live w))) ++ pool_views (w_pool w)).
  { unfold versions, live_views. by rewrite (live_at _ _ _ Ho). }
  destruct o as [sp|]; simpl in Hp.
  - rewrite <- Hp in Hvs. rewrite Hv. eapply (NoDup_Permutation_proper). 2: exact Hnd. rewrite Hvs. solve_Permutation.
  - rewrite app_nil_r in Hp. rewrite Hp. apply NoDup_cons. rewrite <- Hvs. done.
Qed.

Lemma records_2d id : records_id id = true -> flag (VersionShape.flags (shape_of id)) TYPE_3D = false.
Proof. unfold records_id, records_every_write. destruct (flag _ TYPE_3D); [done|done]. Qed.

Lemma rename_inv n w id rec seq old v o p :
  inv n w -> n + 1 < u64_max -> renamed w id rec seq old v o p ->
  inv (n + 1) (mkWorld (retire p id old seq) (<[id := v]> (w_live w)) (handed (w_content w) old v)).
Proof.
  intros I Hn Rn. destruct (renamed_versions _ _ _ _ _ _ _ _ _ I Rn) as (Hnd & Bp & Hpp).
  destruct Rn as [Ht Ho Hrec Hnew]. pose proof (inv_epoch _ _ I) as Hep.
  pose proof (take_spare_spec (w_pool w) id (shape_of id) rec seq) as Hspec. rewrite Ht in Hspec.
  destruct Hspec as (Er & s2 & Et & Esh & Hcase).
  { intros s Hs. destruct (inv_state _ _ I _ _ Hs) as (_ & x & _ & [? _ _]). done. }
  apply NoDup_cons in Hnd as [Hvn Hnd]. apply NoDup_cons in Hnd as [Hon Hnd].
  assert (Hov : old <> v) by (intros ->; apply Hvn; left).
  assert (Epool : forall i s, textures p !! i = Some s -> i <> id -> textures (w_pool w) !! i = Some s)
  by (intros i s Hs Hne; rewrite Et, lookup_insert_ne in Hs; done).
  assert (Elive : forall i x, i <> id -> w_live w !! i = Some x -> x <> v).
  { intros i x Hne Hx ->. apply Hvn. right. apply elem_of_app. left. apply list_elem_of_fmap. exists (i, v).
    split; [done|]. apply elem_of_map_to_list. by rewrite lookup_delete_ne. }
  assert (Eview : forall x, x ∈ pool_views p -> x <> v).
  { intros x Hx ->. apply Hvn. right. apply elem_of_app. by right. }
  set (entry := mkRetiring id old seq (vs_epoch s2) (live_birth_seq s2)
  (match history s2 with Some h => WriteHistory.writes h | None => 0 end) (vs_bytes s2)).
  assert (Ete : textures p !! id = Some s2) by (by rewrite Et, lookup_insert_eq).
  assert (Eret : retire p id old seq
  = set_retiring (set_textures p (<[id := set_birth s2 seq]> (textures p))) (retiring p ++ [entry])).
  { unfold retire. by rewrite Ete. }
  assert (Hne2 : next_epoch (w_pool w) <= next_epoch p <= n + 2 /\ 1 <= vs_epoch s2 < next_epoch p).
  { destruct Hcase as [(s & Hs & E1 & _ & E2 & _)|(_ & _ & E1 & E2 & _)].
    - destruct (inv_state _ _ I _ _ Hs) as [? _]. lia.
    - rewrite wrap64_small in E2 by (unfold is_u64; lia). lia. }
  assert (Hs2 : state_inv (n + 1) (handed (w_content w) old v) id v (set_birth s2 seq)).
  { destruct Hcase as [(s & Hs & _ & Eh & _ & Esp)|(_ & _ & _ & _ & Esp & Eh)].
    - destruct (inv_state _ _ I _ _ Hs) as (_ & x & Hx & [_ Shi Ssp]). rewrite Ho in Hx. injection Hx as <-.
      split; simpl; [done| |].
      + intros h Hh. rewrite Eh in Hh. destruct (Shi _ Hh) as (? & ? & ?). split_and!; try done. lia.
      + intros h sp k Hh Hsp Hk. rewrite Eh in Hh. apply held_ok_handed.
        * apply Eview. by eapply spare_elem.
        * eapply Ssp; [done| |done]. rewrite Esp. apply elem_of_app. by left.
    - split; simpl; [done| |].
      + intros h Hh. rewrite Eh in Hh. destruct rec; [|done]. injection Hh as <-. split; [by apply hist_new_ok|].
        split; [simpl; lia|]. by apply records_2d.
      + intros h sp k _ Hsp. rewrite Esp in Hsp. by apply elem_of_nil in Hsp. }
  rewrite Eret. split; cbn [w_pool w_live w_content].
  - pose proof (retire_books p id old seq Bp) as H. by rewrite Eret in H.
  - unfold versions, live_views; cbn [w_pool w_live]. rewrite live_insert.
    pose proof (retire_views p id old seq) as Hrv. rewrite Eret in Hrv. rewrite Hrv.
    apply NoDup_cons. split.
    + rewrite elem_of_app, elem_of_cons. intros H. apply Hvn. rewrite elem_of_cons, elem_of_app. tauto.
    + eapply NoDup_Permutation_proper; [|apply NoDup_cons; split; [exact Hon|exact Hnd]]. solve_Permutation.
  - simpl. lia.
  - simpl. intros i s Hs. destruct (decide (i = id)) as [->|Hne].
    + rewrite lookup_insert_eq in Hs. injection Hs as <-. split; [simpl; lia|]. exists v. by rewrite lookup_insert_eq.
    + rewrite lookup_insert_ne in Hs by done. pose proof Hs as Hsp. apply Epool in Hs; [|done].
      destruct (inv_state _ _ I _ _ Hs) as (He & x & Hx & [Ssh Shi Ssp]). split; [lia|]. exists x.
      rewrite lookup_insert_ne by done. split; [done|]. split; [done| |].
      * intros h Hh. destruct (Shi _ Hh) as (? & ? & ?). split_and!; try done. lia.
      * intros h sp k Hh Hin Hk. eapply held_ok_same; [..|by eapply Ssp]; intros t; apply handed_other.
        -- apply Eview. by eapply spare_elem.
        -- by eapply Elive.
  - simpl. intros e He. apply elem_of_app in He as [He|He].
    + pose proof (retiring_elem _ _ He) as Hev. rewrite Er in He. destruct (inv_retiring _ _ I _ He) as [Hepr Hr].
      split; [lia|]. intros s h x Hs Ee Eh Hx. destruct (decide (rt_id e = id)) as [Eid|Hne].
      * rewrite Eid in *. rewrite lookup_insert_eq in Hs. rewrite lookup_insert_eq in Hx. injection Hs as <-. injection Hx as <-. simpl in Ee, Eh.
        destruct Hcase as [(s & Hs & E1 & E2 & _)|(_ & _ & E1 & _)]; [|lia].
        apply held_ok_handed; [by apply Eview|]. eapply Hr; [exact Hs|congruence|congruence|done].
      * rewrite lookup_insert_ne in Hs by done. rewrite lookup_insert_ne in Hx by done. apply Epool in Hs; [|done].
        eapply held_ok_same; [..|by eapply Hr]; intros t; apply handed_other; [by apply Eview|by eapply Elive].
    + apply list_elem_of_singleton in He as ->. simpl. split; [lia|]. intros s h x Hs _ Eh Hx.
      rewrite lookup_insert_eq in Hs. rewrite lookup_insert_eq in Hx. injection Hs as <-. injection Hx as <-. simpl in Eh. rewrite Eh.
      apply held_ok_handed_old; [done|]. destruct Hs2 as [_ Shi _]. simpl in Shi. destruct (Shi _ Eh) as ([] & _). done.
Qed.

(** ** The copy plan makes the new version whole *)

Lemma full_cover_writes j t :
  full_cover j = true -> texel_ok (shape_of (j_id j)) t -> t_slice t = j_slice j -> t_level t = j_level j -> job_writes j t.
Proof.
  unfold full_cover, job_writes, in_rect. intros Hf (_ & Hx & Hy) Es El. split; [done|]. split; [done|].
  unfold level_size in Hf. reflect_cmp. rewrite El in *. unfold written_rect, upload_written_rect, level_size.
  destruct (match _ with Some _ => _ | None => _ end); unfold covers; simpl; lia.
Qed.

Lemma in_copy_exists plan t c : c ∈ plan -> in_copy t c = true -> existsb (in_copy t) plan = true.
Proof. intros H Hc. apply existsb_exists. exists c. split; [by apply list_elem_of_In|done]. Qed.

Lemma plan_elem (p : TextureVersions Z) id held up sl lv c :
  in_shape (shape_of id) sl lv ->
  c ∈ (if (sl =? up_slice up) && (lv =? up_level up) && up_full up then [] else
  match (s ← textures p !! id; history s), held with
  | Some h, Some held =>
    match WriteHistory.grid h sl lv with
    | Some g =>
    match StampGrid.written_since g held with
    | None => []
    | Some dirty =>
        [mkCopy sl lv
           (if bool_decide (dirty = TexelRect.level (StampGrid.width g) (StampGrid.height g))
            then None else Some dirty)]
    end
    | None => []
    end
  | _, _ => [mkCopy sl lv None]
  end) ->
  c ∈ preserve_plan p id (shape_of id) held up.
Proof.
  intros [Hs Hl] Hc. unfold preserve_plan. apply list_elem_of_bind. exists sl. split; [|apply elem_of_seqZ; lia].
  apply list_elem_of_bind. exists lv. split; [exact Hc|apply elem_of_seqZ; lia].
Qed.

(** A texel the upload does not rewrite with its whole subresource is copied,
or the version already agrees with the old one there. *)
Lemma plan_covers (p : TextureVersions Z) id s h held up t c old v :
  textures p !! id = Some s -> texel_ok (shape_of id) t ->
  (forall h, history s = Some h -> hist_ok (shape_of id) h) ->
  (forall k, history s = Some h -> held = Some k -> held_ok c (shape_of id) h old v k) ->
  history s = Some h \/ history s = None \/ held = None ->
  (t_slice t =? up_slice up) && (t_level t =? up_level up) && up_full up = false ->
  apply_copies (preserve_plan p id (shape_of id) held up) old v c v t = c old t.
Proof.
  intros Ep Ht Hok Hheld Hcase Hskip. unfold apply_copies. rewrite bool_decide_eq_true_2 by done. simpl.
  pose proof Ht as (Hi & _ & _).
  pose proof (λ c, plan_elem p id held up (t_slice t) (t_level t) c Hi) as Hin. rewrite Hskip, Ep in Hin.
  cbn [mbind option_bind] in Hin.
  assert (Hwhole : mkCopy (t_slice t) (t_level t) None ∈ preserve_plan p id (shape_of id) held up ->
  existsb (in_copy t) (preserve_plan p id (shape_of id) held up) = true).
  { intros H. eapply in_copy_exists; [exact H|]. unfold in_copy. simpl. by rewrite !Z.eqb_refl. }
  destruct (history s) as [h0|] eqn:Eh; [|rewrite Hwhole; [done|]; apply Hin; left].
  destruct held as [k|]; [|rewrite Hwhole; [done|]; apply Hin; left].
  destruct Hcase as [[= ->]|[?|?]]; [|done|done].
  destruct (Hheld k eq_refl eq_refl) as [Hk Hagree].
  destruct (decide (hist_stamp h t <= k)) as [Hle|Hgt].
  { destruct (existsb _ _); [done|]. by apply Hagree. }
  destruct (hist_box (shape_of id) h t k (Hok _ eq_refl) Ht ltac:(lia) ltac:(lia)) as (g & box & Eg & Ew & Hc).
  rewrite Eg, Ew in Hin. specialize (Hin _ ltac:(left)). erewrite in_copy_exists; [done|exact Hin|].
  unfold in_copy. simpl. rewrite !Z.eqb_refl. simpl. case_bool_decide; [done|]. by apply bool_decide_eq_true_2.
Qed.

(** ** Refinement *)

Lemma held_ok_ext c c' s h live v k :
  (forall t, texel_ok s t -> c' v t = c v t) -> (forall t, texel_ok s t -> c' live t = c live t) ->
  held_ok c s h live v k -> held_ok c' s h live v k.
Proof. intros H1 H2 [Hk H]. split; [done|]. intros t Ht Hs. rewrite H1, H2 by done. by apply H. Qed.

(** The invariant reads a live version only inside its texture's levels. *)
Lemma inv_ext n p l c c' id v :
  inv n (mkWorld p l c) -> l !! id = Some v -> (forall x t, x <> v -> c' x t = c x t) ->
  (forall t, texel_ok (shape_of id) t -> c' v t = c v t) -> inv n (mkWorld p l c').
Proof.
  intros I Hv Hother Hsame. pose proof (live_not_pooled _ _ _ _ I Hv) as Hnp. simpl in Hnp.
  assert (Hlive : forall i x, l !! i = Some x -> forall t, texel_ok (shape_of i) t -> c' x t = c x t).
  { intros i x Hx t Ht. destruct (decide (x = v)) as [->|]; [|by apply Hother].
    rewrite (live_inj _ _ _ _ _ I Hx Hv) in Ht. by apply Hsame. }
  assert (Hview : forall x, x ∈ pool_views p -> forall t, c' x t = c x t).
  { intros x Hx t. apply Hother. by intros ->. }
  pose proof I as I0. destruct I. split; try done; cbn [w_pool w_live w_content] in *.
  - intros i s Hs. destruct (inv_state0 _ _ Hs) as (He & x & Hx & [Ssh Shi Ssp]). split; [done|]. exists x.
    split; [done|]. split; try done. intros h sp k Hh Hsp Hk. eapply held_ok_ext; [| |by eapply Ssp].
    + intros t _. apply Hview. by eapply spare_elem.
    + by apply Hlive.
  - intros e He. destruct (inv_retiring0 _ He) as [Hep Hr]. split; [done|]. intros s h x Hs Ee Eh Hx.
    eapply held_ok_ext; [| |by eapply Hr].
    + intros t _. apply Hview. by apply retiring_elem.
    + by apply Hlive.
Qed.

(** Each live version holds its texture's contents. *)
Definition sim (w : World) (a : Z -> Texel -> A) : Prop :=
  forall id v t, w_live w !! id = Some v -> texel_ok (shape_of id) t -> w_content w v t = a id t.

Lemma sim_write n w id v p P `{!forall t, Decision (P t)} data a :
  inv n w -> sim w a -> w_live w !! id = Some v ->
  sim (mkWorld p (w_live w) (write_version (w_content w) v P data)) (write_texture a id P data).
Proof.
  intros I S Hv i x t Hx Ht. cbn [w_live w_content] in *. unfold write_version, write_texture.
  destruct (decide (i = id)) as [->|Hne].
  - rewrite Hv in Hx. injection Hx as <-. destruct (decide (v = v /\ P t)), (decide (id = id /\ P t)); try tauto. by apply S.
  - rewrite !decide_False; [by apply S|tauto|]. intros [-> _]. apply Hne. by eapply live_inj.
Qed.

Lemma upload_step n w j w' a :
  inv n w -> n < u64_max -> job_ok j -> sim w a -> upload w j = Some w' ->
  inv (n + 1) w' /\ sim w' (write_texture a (j_id j) (job_writes j) (j_data j)).
Proof.
  intros I Hn Hj S H. split; [by eapply upload_inv|]. unfold upload in H.
  destruct (w_live w !! j_id j) as [v|] eqn:Ev; [|done]. simpl in H. injection H as <-. by eapply sim_write.
Qed.

(** A taken spare agrees with the live version at every tile not stamped since. *)
Lemma taken_held n w id rec seq old v o p s :
  inv n w -> renamed w id rec seq old v o p -> textures p !! id = Some s ->
  (forall h, history s = Some h -> hist_ok (shape_of id) h)
  /\ forall sp h k, o = Some sp -> history s = Some h -> held_writes sp = Some k ->
 held_ok (w_content w) (shape_of id) h old v k.
Proof.
  intros I [Ht Ho Hrec Hnew] Hs. pose proof (take_spare_spec (w_pool w) id (shape_of id) rec seq) as Hspec.
  rewrite Ht in Hspec. destruct Hspec as (Er & s2 & Et & Esh & Hcase).
  { intros s0 Hs0. destruct (inv_state _ _ I _ _ Hs0) as (_ & x & _ & [? _ _]). done. }
  rewrite Et, lookup_insert_eq in Hs. injection Hs as <-.
  destruct Hcase as [(s0 & Hs0 & _ & Eh & _ & Esp)|(_ & -> & _ & _ & _ & Eh)].
  - destruct (inv_state _ _ I _ _ Hs0) as (_ & x & Hx & [_ Shi Ssp]). rewrite Ho in Hx. injection Hx as <-. rewrite Eh.
    split; [intros h Hh; by destruct (Shi _ Hh)|]. intros sp h k -> Hh Hk. simpl in Hnew. rewrite Hnew.
    eapply Ssp; [done| |done]. rewrite Esp. apply elem_of_app. right. left.
  - split; [|done]. intros h Hh. rewrite Eh in Hh. destruct rec; [|done]. injection Hh as <-. by apply hist_new_ok.
Qed.

Lemma rename_step n w j fresh seq w1 w' a :
  inv n w -> n + 2 < u64_max -> job_ok j -> sim w a -> rename w j fresh seq = Some w1 -> upload w1 j = Some w' ->
  inv (n + 2) w' /\ sim w' (write_texture a (j_id j) (job_writes j) (j_data j)).
Proof.
  intros I Hn Hj S Hr Hu. unfold rename in Hr. destruct (w_live w !! j_id j) as [old|] eqn:Eo; [|done]. simpl in Hr.
  destruct (take_spare _ _ _ _ _) as [o p] eqn:Et.
  assert (Hv : exists v held, renamed w (j_id j) (records_id (j_id j)) seq old v o p
  /\ w1 = mkWorld (retire p (j_id j) old seq) (<[j_id j := v]> (w_live w))
 (apply_copies (preserve_plan p (j_id j) (shape_of (j_id j)) held (mkFootprint (j_slice j) (j_level j) (full_cover j)))
  old v (w_content w))
  /\ (held = None \/ exists sp, o = Some sp /\ held = held_writes sp)).
  { destruct o as [sp|]; simpl in Hr.
    - injection Hr as <-. eexists _, _. split; [by split|]. split; [done|]. right. by exists sp.
    - destruct (decide _) as [|Hf]; [done|]. simpl in Hr. injection Hr as <-. eexists _, _. split; [by split|].
      split; [done|]. by left. }
  destruct Hv as (v & held & Rn & -> & Hheld). clear Hr.
  pose proof (rename_inv _ _ _ _ _ _ _ _ _ I ltac:(lia) Rn) as I1.
  destruct (renamed_versions _ _ _ _ _ _ _ _ _ I Rn) as (Hnd & _ & _).
  assert (Hov : old <> v) by (intros ->; apply NoDup_cons in Hnd as [Hnd _]; apply Hnd; left).
  set (w1 := mkWorld _ _ (handed _ _ _)) in I1.
  assert (S1 : sim w1 a).
  { intros i x t Hx Ht. cbn [w1 w_live w_content] in *. destruct (decide (i = j_id j)) as [->|Hne].
    - rewrite lookup_insert_eq in Hx. injection Hx as <-. rewrite handed_new. by apply S.
    - rewrite lookup_insert_ne in Hx by done. rewrite handed_other; [by apply S|]. intros ->.
      assert (Hx1 : w_live w1 !! i = Some v) by (simpl; by rewrite lookup_insert_ne).
      assert (Hx2 : w_live w1 !! j_id j = Some v) by (simpl; by rewrite lookup_insert_eq).
      apply Hne. by eapply live_inj. }
  unfold upload in Hu. cbn [w_live] in Hu. rewrite lookup_insert_eq in Hu. simpl in Hu. injection Hu as <-.
  destruct (upload_step _ w1 j (mkWorld (note_upload_write (w_pool w1) j) (w_live w1)
 (write_version (w_content w1) v (job_writes j) (j_data j))) a I1 ltac:(lia) Hj S1) as [I2 S2].
  { unfold upload. cbn [w1 w_live]. by rewrite lookup_insert_eq. }
  replace (n + 1 + 1) with (n + 2) in I2 by lia. cbn [w1 w_pool w_live w_content] in I2, S2.
  assert (Hother : forall c x t, x <> v -> write_version (apply_copies c old v (w_content w)) v (job_writes j) (j_data j) x t
 = write_version (handed (w_content w) old v) v (job_writes j) (j_data j) x t).
  { intros c x t Hx. rewrite !write_version_other by auto. rewrite handed_other by done. unfold apply_copies.
    by rewrite bool_decide_eq_false_2. }
  assert (Hsame : forall t, texel_ok (shape_of (j_id j)) t ->
  write_version (apply_copies (preserve_plan p (j_id j) (shape_of (j_id j)) held
 (mkFootprint (j_slice j) (j_level j) (full_cover j))) old v (w_content w)) v (job_writes j) (j_data j) v t
 = write_version (handed (w_content w) old v) v (job_writes j) (j_data j) v t).
  { intros t Htx. unfold write_version. destruct (decide (v = v /\ job_writes j t)) as [|Hnw]; [done|]. rewrite handed_new.
    assert (exists s, textures p !! j_id j = Some s) as [s Hs].
    { unfold take_spare in Et. destruct (enter _ _ _ _ _). injection Et as _ <-. simpl. rewrite lookup_insert_eq. eauto. }
    destruct (taken_held _ _ _ _ _ _ _ _ _ _ I Rn Hs) as [Hok Hh].
    destruct (history s) as [h|] eqn:Ehs.
    - eapply (plan_covers p (j_id j) s h); eauto; [by rewrite Ehs| |].
      + intros k Eh Ek. rewrite Ek in Hheld. destruct Hheld as [?|(sp & Esp & Hk)]; [done|]. by eapply Hh.
      + simpl. apply not_true_iff_false. intros Hf. reflect_cmp. apply Hnw. split; [done|]. by apply full_cover_writes.
    - eapply (plan_covers p (j_id j) s (WriteHistory.new (shape_of (j_id j)))); eauto; rewrite ?Ehs; try done.
      simpl. apply not_true_iff_false. intros Hf. reflect_cmp. apply Hnw. split; [done|]. by apply full_cover_writes. }
  split.
  - eapply inv_ext; [exact I2|apply lookup_insert_eq|apply Hother|exact Hsame].
  - intros i x t Hx Ht. specialize (S2 i x t Hx Ht). cbn [w_live w_content] in *. rewrite <- S2.
    destruct (decide (x = v)) as [->|Hxv]; [|by apply Hother].
    assert (Hx2 : <[j_id j := v]> (w_live w) !! j_id j = Some v) by apply lookup_insert_eq.
    assert (i = j_id j) as -> by (by eapply (live_inj _ _ _ _ _ I2)). by apply Hsame.
Qed.

Lemma rename_failed_step n w j seq w' a p :
  inv n w -> n + 2 < u64_max -> job_ok j -> sim w a ->
  take_spare (w_pool w) (j_id j) (shape_of (j_id j)) (records_id (j_id j)) seq = (None, p) ->
  upload (with_pool w p) j = Some w' ->
  inv (n + 2) w' /\ sim w' (write_texture a (j_id j) (job_writes j) (j_data j)).
Proof.
  intros I Hn Hj S Et Hu.
  assert (I1 : inv (n + 1) (with_pool w p)).
  2:{ destruct (upload_step _ (with_pool w p) j w' a I1 ltac:(lia) Hj S Hu) as [I2 S2].
    replace (n + 1 + 1) with (n + 2) in I2 by lia. done. }
  destruct (w_live w !! j_id j) as [v|] eqn:Ev.
  2:{ unfold upload in Hu. simpl in Hu. by rewrite Ev in Hu. }
  pose proof (take_spare_ok (w_pool w) (j_id j) (shape_of (j_id j)) (records_id (j_id j)) seq (inv_books _ _ I) ltac:(apply shapes_ok)) as H.
  rewrite Et in H. destruct H as [B Hp]. simpl in Hp. rewrite app_nil_r in Hp. pose proof (inv_epoch _ _ I) as Hep.
  pose proof (take_spare_spec (w_pool w) (j_id j) (shape_of (j_id j)) (records_id (j_id j)) seq) as Hspec. rewrite Et in Hspec.
  destruct Hspec as (Er & s2 & Ett & Esh & Hcase).
  { intros s0 Hs0. destruct (inv_state _ _ I _ _ Hs0) as (_ & x & _ & [? _ _]). done. }
  destruct Hcase as [(s & Hs & E1 & E2 & E3 & Esp)|(Hnone & _ & E1 & E2 & E3 & E4)].
  - apply (inv_mono n); [|lia]. eapply (inv_pool_le n w p []); [done| |done|by rewrite app_nil_r].
    split; [done|by rewrite Er|]. intros i s' Hs'. rewrite Ett in Hs'. destruct (decide (i = j_id j)) as [->|Hne].
    + rewrite lookup_insert_eq in Hs'. injection Hs' as <-. exists s. split; [done|].
      destruct (inv_state _ _ I _ _ Hs) as (_ & x & _ & [? _ _]). split_and!; [congruence|done|done|].
      intros sp Hsp. left. rewrite Esp. apply elem_of_app. by left.
    + rewrite lookup_insert_ne in Hs' by done. eauto 10.
  - rewrite wrap64_small in E2 by (unfold is_u64; lia). split; cbn [with_pool w_pool w_live w_content]; [done| |lia| |].
    + unfold versions, live_views. cbn [with_pool w_pool w_live]. rewrite Hp. apply I.
    + intros i s' Hs'. rewrite Ett in Hs'. destruct (decide (i = j_id j)) as [->|Hne].
      * rewrite lookup_insert_eq in Hs'. injection Hs' as <-. split; [lia|]. exists v. split; [done|]. split; [done| |].
        -- intros h Hh. rewrite E4 in Hh. destruct (records_id (j_id j)) eqn:Erec; [|done]. injection Hh as <-.
 split; [by apply hist_new_ok|]. split; [simpl; lia|]. by apply records_2d.
        -- intros h sp k _ Hsp. rewrite E3 in Hsp. by apply elem_of_nil in Hsp.
      * rewrite lookup_insert_ne in Hs' by done. destruct (inv_state _ _ I _ _ Hs') as (He & x & Hx & [Ssh Shi Ssp]).
        split; [lia|]. exists x. split; [done|]. split; try done. intros h Hh. destruct (Shi _ Hh) as (? & ? & ?).
        split_and!; try done. lia.
    + intros e He. rewrite Er in He. destruct (inv_retiring _ _ I _ He) as [Hre Hr]. split; [lia|].
      intros s' h x Hs' Ee Eh Hx. rewrite Ett in Hs'. destruct (decide (rt_id e = j_id j)) as [Eid|Hne].
      * rewrite Eid, lookup_insert_eq in Hs'. injection Hs' as <-. lia.
      * rewrite lookup_insert_ne in Hs' by done. by eapply Hr.
Qed.

Lemma create_step n w id v init a :
  inv n w -> sim w a -> w_live w !! id = None -> v ∉ versions w ->
  let w' := mkWorld (w_pool w) (<[id := v]> (w_live w)) (write_version (w_content w) v (λ _, True) init) in
  inv n w' /\ sim w' (write_texture a id (λ _, True) init).
Proof.
  intros I S Hid Hv w'.
  assert (Hsame : forall x t, x ∈ versions w -> w_content w' x t = w_content w x t).
  { intros x t Hx. apply write_version_other. left. by intros ->. }
  assert (Hlive : forall i x, w_live w !! i = Some x -> x ∈ versions w).
  { intros i x Hx. apply elem_of_app. left. by eapply live_elem. }
  assert (Hpool : forall x, x ∈ pool_views (w_pool w) -> x ∈ versions w) by (intros; apply elem_of_app; by right).
  split.
  - split; cbn [w' w_pool w_live w_content].
    + apply I.
    + unfold versions, live_views. cbn [w' w_pool w_live]. rewrite live_insert, delete_id by done.
      apply NoDup_cons. split; [exact Hv|apply I].
    + apply I.
    + intros i s Hs. destruct (inv_state _ _ I _ _ Hs) as (He & x & Hx & [Ssh Shi Ssp]). split; [done|]. exists x.
      rewrite lookup_insert_ne by (intros ->; congruence). split; [done|]. split; try done.
      intros h sp k Hh Hsp Hk. eapply held_ok_same; [| |by eapply Ssp]; intros t; apply Hsame; eauto using spare_elem.
    + intros e He. destruct (inv_retiring _ _ I _ He) as [Hep Hr]. split; [done|]. intros s h x Hs Ee Eh Hx.
      destruct (inv_state _ _ I _ _ Hs) as (_ & y & Hy & _).
      rewrite lookup_insert_ne in Hx by (intros Eq; rewrite <- Eq in Hy; congruence).
      eapply held_ok_same; [| |by eapply Hr]; intros t; apply Hsame; eauto using retiring_elem.
  - intros i x t Hx Ht. cbn [w' w_live w_content] in *. unfold write_version, write_texture.
    destruct (decide (i = id)) as [->|Hne].
    + rewrite lookup_insert_eq in Hx. injection Hx as <-. by rewrite !decide_True.
    + rewrite lookup_insert_ne in Hx by done. rewrite !decide_False; [by apply S|tauto|].
      intros [-> _]. apply Hv. eauto.
Qed.

Lemma destroy_step n w id a :
  inv n w -> sim w a ->
  let w' := mkWorld (forget_texture (w_pool w) id) (delete id (w_live w)) (w_content w) in
  inv n w' /\ sim w' a.
Proof.
  intros I S w'. destruct (forget_texture_ok (w_pool w) id (inv_books _ _ I)) as [B Hp]. split.
  - apply (inv_le n w); try done.
    + apply forget_texture_le.
    + pose proof (inv_nodup _ _ I) as Hnd. unfold versions, live_views in *. cbn [w' w_pool w_live]. rewrite Hp.
      destruct (w_live w !! id) as [v|] eqn:E; [|by rewrite delete_id].
      rewrite (live_at _ _ _ E) in Hnd. by apply NoDup_cons in Hnd as [_ ?].
    + intros i x. cbn [w' w_live]. intros [_ ?]%lookup_delete_Some. done.
    + intros i s Hs. cbn [w' w_live w_pool] in *. destruct (decide (i = id)) as [->|]; [|by rewrite lookup_delete_ne].
      exfalso. rewrite forget_texture_textures, lookup_delete_eq in Hs. done.
  - intros i x t Hx Ht. cbn [w' w_live w_content] in *. apply lookup_delete_Some in Hx as [_ Hx]. by apply S.
Qed.

Lemma pool_step n w p out a :
  inv n w -> sim w a -> pool_le (w_pool w) p -> books p /\ pool_views p ++ out ≡ₚ pool_views (w_pool w) ->
  inv n (with_pool w p) /\ sim (with_pool w p) a.
Proof. intros I S Hle [B Hp]. split; [by eapply inv_pool_le|done]. Qed.

Lemma wstep_refines n w o w' a :
  inv n w -> n + 2 < u64_max -> wop_ok o -> sim w a -> wstep o w = Some w' ->
  inv (n + 2) w' /\ sim w' (sstep o a).
Proof.
  intros I Hn Hok S Hst.
  assert (Hm : forall m, n <= m <= n + 2 -> inv m w' /\ sim w' (sstep o a) -> inv (n + 2) w' /\ sim w' (sstep o a)).
  { intros m Hm [? ?]. split; [|done]. eapply inv_mono; [done|lia]. }
  pose proof (inv_books _ _ I) as B.
  destruct o as [id v init|id|j|id sl lv r data|id data|j fresh seq|j seq|settled failed now|al|now| |]; cbn [wstep wop_ok] in *.
  - destruct (decide _) as [[H1 H2]|]; [|done]. injection Hst as <-. apply (Hm n); [lia|]. by apply create_step.
  - injection Hst as <-. apply (Hm n); [lia|]. by apply destroy_step.
  - apply (Hm (n + 1)); [lia|]. eapply upload_step; eauto; lia.
  - destruct (w_live w !! id) as [v|] eqn:Ev; [|done]. simpl in Hst. injection Hst as <-. destruct Hok as (? & ? & ?).
    apply (Hm (n + 1)); [lia|]. split; [|by eapply sim_write]. eapply live_write; [done|done|].
    eapply note_write_edit; eauto; lia.
  - destruct (w_live w !! id) as [v|] eqn:Ev; [|done]. simpl in Hst. injection Hst as <-.
    apply (Hm (n + 1)); [lia|]. split; [|by eapply sim_write]. eapply live_write; [done|done|].
    eapply regen_edit; eauto; lia.
  - destruct (rename w j fresh seq) as [w1|] eqn:Er; [|done]. simpl in Hst. by eapply rename_step.
  - destruct (take_spare _ _ _ _ _) as [[sp|] p] eqn:Et; [done|]. by eapply rename_failed_step.
  - injection Hst as <-. apply (Hm n); [lia|]. eapply (pool_step n w _ []); [done|done|apply reclaim_le|]. rewrite app_nil_r.
    destruct (pop_retired (w_pool w) settled) as [[e q]|] eqn:E; [|done].
    destruct (pop_retired_ok _ _ _ _ B E) as [B' P]. destruct (park_books q e failed now B') as [B2 P2].
    split; [done|]. by rewrite P2, P.
  - injection Hst as <-. apply (Hm n); [lia|]. eapply (pool_step n w _ []); [done|done|apply note_allocated_le|].
    rewrite app_nil_r. by apply note_allocated_ok.
  - destruct (trim (w_pool w) now) as [p|] eqn:E; [|done]. simpl in Hst. injection Hst as <-. apply (Hm n); [lia|].
    eapply (pool_step n w _ []); [done|done|by eapply trim_le|]. rewrite app_nil_r. by eapply trim_ok.
  - pose proof (take_doomed_ok (w_pool w) B) as H. pose proof (take_doomed_le (w_pool w)) as Hle.
    destruct (take_doomed (w_pool w)) as [out q]. assert (w' = with_pool w q) as -> by (cbn [snd] in Hst; congruence).
    apply (Hm n); [lia|]. by eapply (pool_step n w q out).
  - pose proof (drain_versions_ok (w_pool w) B) as H. pose proof (drain_versions_le (w_pool w)) as Hle.
    destruct (drain_versions (w_pool w)) as [out q]. assert (w' = with_pool w q) as -> by (cbn [snd] in Hst; congruence).
    destruct H as (B' & E & P). apply (Hm n); [lia|]. eapply (pool_step n w q out); [done|done|done|].
    split; [done|]. by rewrite E, P.
Qed.

Lemma inv_new b c : 0 <= VersionBudget.spare_cap b <= 2 ^ 30 -> inv 0 (world_new b c).
Proof.
  intros Hb. split; simpl.
  - by apply books_new.
  - unfold versions, live_views, pool_views; simpl. rewrite map_to_list_empty, items_of_none by done. simpl. constructor.
  - lia.
  - by intros ? ? ?%lookup_empty_Some.
  - by intros ? ?%elem_of_nil.
Qed.

(** C3: renames are invisible.  Run any sequence of texture creations and
releases, uploads with or without a rename, device-side copies, mip
regenerations, reclaims, pressure notes, trims, destroy batches and resets:
the version that is live for a texture holds, at every texel of its levels,
exactly what a texture with one fixed storage would hold after the same
writes.  Whatever spare a rename takes and however little the copy plan
copies into it, no write is lost and none of another version shows. *)
Theorem rename_invisible working_set (c : Z -> Texel -> A) ops w' :
  0 <= working_set -> Forall wop_ok ops -> 2 * Z.of_nat (length ops) + 2 < u64_max ->
  wrun ops (world_new (VersionBudget.from_working_set working_set) c) = Some w' ->
  forall a id v t, w_live w' !! id = Some v -> texel_ok (shape_of id) t ->
  w_content w' v t = srun ops a id t.
Proof.
  intros Hw Hok Hlen Hrun a id v t Hv Ht.
  assert (H : forall n w a, inv n w -> sim w a -> n + 2 * Z.of_nat (length ops) + 2 < u64_max ->
  wrun ops w = Some w' -> sim w' (srun ops a)).
  { clear Hlen Hrun. induction ops as [|o ops IH]; intros n w a0 I S Hl Hrun; [by injection Hrun as <-|].
    apply Forall_cons in Hok as [Ho Hok]. cbn [wrun] in Hrun. destruct (wstep o w) as [w1|] eqn:E; [|done].
    simpl in Hrun, Hl. destruct (wstep_refines n w o w1 a0 I ltac:(lia) Ho S E) as [I1 S1].
    unfold srun. simpl. eapply (IH Hok (n + 2) w1); [done|done|lia|done]. }
  eapply H; [by apply inv_new, budget_cap| |lia|exact Hrun|done|done].
  intros i x y Hx. simpl in Hx. by apply lookup_empty_Some in Hx.
Qed.

End World.

(** A texture rewritten while sampled: two renames, one into a reused spare. *)
Definition demo_shape (_ : Z) : VersionShape.t := VersionShape.mk 64 64 1 2 Bgra8Unorm 2 0 1 [0; 1; 2; 3].

Definition demo_job (x y d : Z) : UploadView (A := Z) := mkJob 7 0 0 x y 8 8 1 None (λ _, d).

Definition demo_ops : list (wop (A := Z)) :=
  [Create 7 100 (λ _, 5); Upload (demo_job 0 0 6); Rename (demo_job 16 16 7) 101 1; Rename (demo_job 40 40 8) 102 1;
   Reclaim 1 0 2; Reclaim 1 0 2; Rename (demo_job 48 0 9) 103 2; Upload (demo_job 0 48 4)].

Definition demo_end : option (World (A := Z)) :=
  wrun demo_shape (λ _, 0) demo_ops (world_new (VersionBudget.from_working_set 1000000) (λ _ _, 0)).

Lemma rename_invisible_witness :
  (w ← demo_end; w_live w !! 7) = Some 101
  /\ exists w, demo_end = Some w /\ w_content w 101 (mkTexel 0 0 41 42) = 8
      /\ forall t, texel_ok (demo_shape 7) t -> w_content w 101 t = srun demo_shape demo_ops (λ _ _, 0) 7 t.
Proof.
  assert (Hlive : (w ← demo_end; w_live w !! 7) = Some 101) by (vm_compute; reflexivity).
  assert (Hval : (λ w, w_content w 101 (mkTexel 0 0 41 42)) <$> demo_end = Some 8) by (vm_compute; reflexivity).
  split; [exact Hlive|]. destruct demo_end as [w|] eqn:E; [|discriminate]. exists w. split; [reflexivity|].
  split; [injection Hval; auto|]. intros t Ht. cbn [mbind option_bind] in Hlive.
  assert (Hshape : forall id, shape_ok (demo_shape id)).
  { intros id. unfold shape_ok, demo_shape, shape_bytes_ok. simpl. split; [lia|]. split; [lia|]. split; [lia|]. vm_compute. reflexivity. }
  assert (Hops : Forall (wop_ok demo_shape) demo_ops).
  { repeat constructor; unfold is_u32, u32_max; simpl; lia. }
  assert (Hn : 2 * Z.of_nat (length demo_ops) + 2 < u64_max) by (vm_compute; reflexivity).
  exact (rename_invisible demo_shape (λ _, 0) Hshape 1000000 (λ _ _, 0) demo_ops w ltac:(lia) Hops Hn E
           (λ _ _, 0) 7 101 t Hlive Ht).
Defined.
