(* ===== verification/Visibility.v ===== *)
(** [visibility.rs] and the encoder functions that drive it: the occlusion
    query mailbox, the slot allocator, the pool of visibility buffers, the open
    spans and pending segments, and the pass stream their Counting modes go to. *)

From S2P Require Import Prelude.

Definition SLOT_BYTES : Z := 8.
Definition BUFFER_SLOTS_256K : Z := 32768.
Definition BUFFER_SLOTS_64K : Z := 8192.
Definition MIN_BUFFER_SLOTS : Z := 2048.

Inductive QueryStatus := NeverIssued | Pending | Issued.
Definition status_code (s : QueryStatus) : Z := match s with NeverIssued => 0 | Pending => 1 | Issued => 2 end.

Inductive EndIssue := Close | OpenAndClose | Keep.

(** ** The query mailbox *)

Record QueryMailbox := mkMailbox {
  issue_generation : Z; seq_begin : Z; seq_end : Z; carried : Z; accumulated : Z;
  logical_area : Z; render_area : Z; draws_at_begin : Z; draws_in_span : Z;
  offset_begin : Z; status_ : Z; end_requested_ : Z; uncounted : Z;
  requested_generation : Z; result_generation : Z; end_generation : Z }.

Definition mailbox_new : QueryMailbox := mkMailbox 0 0 0 0 0 0 0 0 0 0 0 0 0 0 0 0.

(** [VisibilityQueryCore]: what each side reads and stores. *)
Module QueryCore.
Definition status (m : QueryMailbox) : QueryStatus :=
  if (status_ m =? status_code Issued) && (result_generation m =? requested_generation m) then Issued
  else if (requested_generation m =? 0) && (status_ m =? status_code NeverIssued) then NeverIssued
  else Pending.

Definition area (s : Z * Z) : Z := (fst s * snd s).

Definition begin_recorded (generation seq offset : Z) (logical render : Z * Z) (draws_seen : Z)
    (m : QueryMailbox) : QueryMailbox :=
  mkMailbox generation seq (seq_end m) 0 0 (area logical) (area render) draws_seen 0 offset
    (status_code Pending) (end_requested_ m) 0 (requested_generation m) (result_generation m) (end_generation m).

Definition resume (seq offset : Z) (m : QueryMailbox) : QueryMailbox :=
  mkMailbox (issue_generation m) seq (seq_end m) (carried m) (accumulated m) (logical_area m)
    (render_area m) (draws_at_begin m) (draws_in_span m) offset (status_ m) (end_requested_ m)
    (uncounted m) (requested_generation m) (result_generation m) (end_generation m).

Definition end_recorded (generation seq draws_seen : Z) (m : QueryMailbox) : QueryMailbox :=
  mkMailbox (issue_generation m) (seq_begin m) seq (carried m) (accumulated m) (logical_area m)
    (render_area m) (draws_at_begin m) (draws_seen -% draws_at_begin m)%u64 (offset_begin m) (status_ m)
    (end_requested_ m) (uncounted m) (requested_generation m) (result_generation m) generation.

Definition mark_uncounted (m : QueryMailbox) : QueryMailbox :=
  mkMailbox (issue_generation m) (seq_begin m) (seq_end m) (carried m) (accumulated m) (logical_area m)
    (render_area m) (draws_at_begin m) (draws_in_span m) (offset_begin m) (status_ m) (end_requested_ m)
    1 (requested_generation m) (result_generation m) (end_generation m).

Definition get_u64 (m : QueryMailbox) : Z :=
  if result_generation m =? requested_generation m then accumulated m else 0.

(** [checked_add(1).expect(..)]: no result where the code panics. *)
Definition mark_armed (m : QueryMailbox) : option (Z * QueryMailbox) :=
  generation ← (requested_generation m +? 1)%u64;
  Some (generation,
    mkMailbox (issue_generation m) (seq_begin m) (seq_end m) (carried m) (accumulated m) (logical_area m)
      (render_area m) (draws_at_begin m) (draws_in_span m) (offset_begin m) (status_code Pending) 0
      (uncounted m) generation (result_generation m) (end_generation m)).

Definition mark_end_requested (m : QueryMailbox) : Z * QueryMailbox :=
  (requested_generation m,
   mkMailbox (issue_generation m) (seq_begin m) (seq_end m) (carried m) (accumulated m) (logical_area m)
     (render_area m) (draws_at_begin m) (draws_in_span m) (offset_begin m) (status_ m) 1
     (uncounted m) (requested_generation m) (result_generation m) (end_generation m)).

Definition end_requested (m : QueryMailbox) : bool := negb (end_requested_ m =? 0).

Definition span_open (m : QueryMailbox) : bool := negb (requested_generation m =? 0) && negb (end_requested m).

Definition end_issue (m : QueryMailbox) : EndIssue :=
  if requested_generation m =? 0 then OpenAndClose else if end_requested m then Keep else Close.

Definition accumulate_segment (summed : Z) (m : QueryMailbox) : QueryMailbox :=
  mkMailbox (issue_generation m) (seq_begin m) (seq_end m) (carried m +| summed)%u64 (accumulated m)
    (logical_area m) (render_area m) (draws_at_begin m) (draws_in_span m) (offset_begin m) (status_ m)
    (end_requested_ m) (uncounted m) (requested_generation m) (result_generation m) (end_generation m).

(** The products are of [u64]s held in a [u128], so they are exact. *)
Definition logical_samples (render_samples render_area logical_area : Z) : Z :=
  if (render_area =? 0) || (logical_area =? 0) || (render_area =? logical_area) then render_samples
  else Z.min u64_max ((render_samples * logical_area + render_area / 2) / render_area).

Definition publish_span (m : QueryMailbox) : QueryMailbox :=
  let unknown := negb (uncounted m =? 0) && negb (draws_in_span m =? 0) in
  let result := if unknown then u32_max else logical_samples (carried m) (render_area m) (logical_area m) in
  mkMailbox (issue_generation m) (seq_begin m) (seq_end m) (carried m) result (logical_area m)
    (render_area m) (draws_at_begin m) (draws_in_span m) (offset_begin m) (status_code Issued) (end_requested_ m)
    (uncounted m) (requested_generation m) (issue_generation m) (end_generation m).
End QueryCore.

(** ** Buffers and their pool *)

Inductive BufferNeed := Ready | First (slots : Z) | Grow (slots : Z) | Spill (slots : Z).

(** A visibility buffer; [vb_id] names its backing and the handle that wraps it. *)
Record RetiredVisibilityBuffer := mkBuffer {
  vb_id : Z; vb_slots : Z; release_seq : Z; vb_index : Z; reserved : Z }.

Definition set_reserved (b : RetiredVisibilityBuffer) (r : Z) : RetiredVisibilityBuffer :=
  mkBuffer (vb_id b) (vb_slots b) (release_seq b) (vb_index b) r.

(** The counters of every backing, by backing and slot. *)
Definition Memory : Type := Z -> Z -> Z.

Definition clear_reserved (mem : Memory) (b : RetiredVisibilityBuffer) : Memory * RetiredVisibilityBuffer :=
  (λ id s, if (id =? vb_id b) && (s <? Z.min (reserved b) (vb_slots b)) then 0 else mem id s, set_reserved b 0).

(** [sum_slots] over a backing of [slots] counters. *)
Definition sum_slots (counter : Z -> Z) (slots begin end_ : Z) : Z :=
  let end_ := Z.min end_ slots in
  if end_ <=? begin then 0
  else foldl (λ acc s, (acc +% counter s)%u64) 0 (seqZ begin (end_ - begin)).

(** The first index whose key is least ([min_by_key]), among those [ok]. *)
Fixpoint min_by {A} (key : A -> Z) (ok : A -> bool) (l : list A) (i : nat) (best : option (nat * Z)) : option (nat * Z) :=
  match l with
  | [] => best
  | x :: rest =>
      min_by key ok rest (S i)
        (if ok x then match best with
           | Some (_, k) => if key x <? k then Some (i, key x) else best
           | None => Some (i, key x)
           end
         else best)
  end.

Module VisibilityBufferPool.
Record t := mk { retired : list RetiredVisibilityBuffer; free : list RetiredVisibilityBuffer; cap : nat }.

Definition new (cap : nat) : t := mk [] [] cap.

Definition acquire (p : t) (slots : Z) : option (RetiredVisibilityBuffer * t) :=
  '(at_, _) ← min_by vb_slots (λ b, slots <=? vb_slots b) (free p) 0 None;
  b ← free p !! at_;
  Some (b, mk (retired p) (swap_remove (free p) at_) (cap p)).

Definition retire (p : t) (b : RetiredVisibilityBuffer) : t := mk (retired p ++ [b]) (free p) (cap p).

Fixpoint trim_loop (fuel : nat) (cap : nat) (free evicted : list RetiredVisibilityBuffer)
    : list RetiredVisibilityBuffer * list RetiredVisibilityBuffer :=
  match fuel with
  | O => (free, evicted)
  | S fuel =>
      if (cap <? length free)%nat then
        let smallest := match min_by vb_slots (λ _, true) free 0 None with Some (i, _) => i | None => 0%nat end in
        match free !! smallest with
        | Some b => trim_loop fuel cap (swap_remove free smallest) (evicted ++ [b])
        | None => (free, evicted)
        end
      else (free, evicted)
  end.

(** Every turn removes a buffer, so the length of the list bounds the turns. *)
Definition trim_free (p : t) : list RetiredVisibilityBuffer * t :=
  let '(free', evicted) := trim_loop (length (free p)) (cap p) (free p) [] in
  (evicted, mk (retired p) free' (cap p)).

Definition give_back (p : t) (b : RetiredVisibilityBuffer) : list RetiredVisibilityBuffer * t :=
  trim_free (mk (retired p) (free p ++ [b]) (cap p)).

Fixpoint release_loop (fuel : nat) (coherent : Z) (i : nat) (retired free : list RetiredVisibilityBuffer)
    : list RetiredVisibilityBuffer * list RetiredVisibilityBuffer :=
  match fuel with
  | O => (retired, free)
  | S fuel =>
      match retired !! i with
      | Some b =>
          if release_seq b <=? coherent
          then release_loop fuel coherent i (swap_remove retired i) (free ++ [b])
          else release_loop fuel coherent (S i) retired free
      | None => (retired, free)
      end
  end.

(** Every turn drops a buffer or steps over one. *)
Definition release_up_to (p : t) (coherent : Z) : list RetiredVisibilityBuffer * t :=
  let '(retired', free') := release_loop (length (retired p)) coherent 0 (retired p) (free p) in
  trim_free (mk retired' free' (cap p)).

Definition sum_retired (p : t) (mem : Memory) (seq index : Z) (span : Z * Z) : option Z :=
  '(_, b) ← list_find (λ b, release_seq b = seq /\ vb_index b = index) (retired p);
  Some (sum_slots (mem (vb_id b)) (vb_slots b) (fst span) (snd span)).
End VisibilityBufferPool.

(** ** The query state *)

Record PendingSegment := mkSegment {
  submit_seq : Z; buffer : Z; core : Z; seg_generation : Z; span : Z * Z; closes_span : bool }.

Record VisibilityQueryState := mkVis {
  next : Z; capacity : Z;
  pool : VisibilityBufferPool.t;
  pending : list PendingSegment;
  active : list Z;
  frame_buffers : list RetiredVisibilityBuffer;
  buffer_slots : Z;
  peak_slots : Z;
  exhausted_this_frame : bool;
  draws_seen : Z }.

(** The mailboxes the queries' [Arc]s name. *)
Notation Cores := (gmap Z QueryMailbox).

Definition generation_of (cores : Cores) (q : Z) : Z := from_option issue_generation 0 (cores !! q).
Definition offset_of (cores : Cores) (q : Z) : Z := from_option offset_begin 0 (cores !! q).
Definition on_cores (f : QueryMailbox -> QueryMailbox) (qs : list Z) (cores : Cores) : Cores :=
  foldl (λ cs q, alter f q cs) cores qs.

Module VisState.
Definition new (buffer_slots : Z) : VisibilityQueryState :=
  mkVis 0 0 (VisibilityBufferPool.new 16) [] [] [] buffer_slots 0 false 0.

Definition set_alloc (v : VisibilityQueryState) (n c : Z) (x : bool) : VisibilityQueryState :=
  mkVis n c (pool v) (pending v) (active v) (frame_buffers v) (buffer_slots v) (peak_slots v) x (draws_seen v).
Definition set_pool (v : VisibilityQueryState) (p : VisibilityBufferPool.t) : VisibilityQueryState :=
  mkVis (next v) (capacity v) p (pending v) (active v) (frame_buffers v) (buffer_slots v) (peak_slots v)
    (exhausted_this_frame v) (draws_seen v).
Definition set_pending (v : VisibilityQueryState) (l : list PendingSegment) : VisibilityQueryState :=
  mkVis (next v) (capacity v) (pool v) l (active v) (frame_buffers v) (buffer_slots v) (peak_slots v)
    (exhausted_this_frame v) (draws_seen v).
Definition set_active (v : VisibilityQueryState) (l : list Z) : VisibilityQueryState :=
  mkVis (next v) (capacity v) (pool v) (pending v) l (frame_buffers v) (buffer_slots v) (peak_slots v)
    (exhausted_this_frame v) (draws_seen v).
Definition set_buffers (v : VisibilityQueryState) (l : list RetiredVisibilityBuffer) (peak : Z) : VisibilityQueryState :=
  mkVis (next v) (capacity v) (pool v) (pending v) (active v) l (buffer_slots v) peak
    (exhausted_this_frame v) (draws_seen v).

Definition reset_frame (v : VisibilityQueryState) : VisibilityQueryState := set_alloc v 0 0 false.

Definition note_draw (v : VisibilityQueryState) : VisibilityQueryState :=
  mkVis (next v) (capacity v) (pool v) (pending v) (active v) (frame_buffers v) (buffer_slots v) (peak_slots v)
    (exhausted_this_frame v) (draws_seen v +% 1)%u64.

(** [u32::checked_next_power_of_two]. *)
Definition checked_next_power_of_two (x : Z) : option Z :=
  let p := if x <=? 1 then 1 else 2 ^ (Z.log2 (x - 1) + 1) in
  if p <=? u32_max then Some p else None.

Definition first_buffer_slots (v : VisibilityQueryState) : Z :=
  let wanted := (peak_slots v +| peak_slots v / 4)%u32 in
  let rounded := default u32_max (checked_next_power_of_two wanted) in
  if rounded <? MIN_BUFFER_SLOTS then MIN_BUFFER_SLOTS
  else if buffer_slots v <? rounded then buffer_slots v else rounded.

Definition buffer_need (v : VisibilityQueryState) : BufferNeed :=
  match frame_buffers v with
  | [] => First (first_buffer_slots v)
  | _ =>
      if next v <? capacity v then Ready
      else if capacity v <? buffer_slots v then
        let doubled := (capacity v *| 2)%u32 in
        Grow (if doubled <? buffer_slots v then doubled else buffer_slots v)
      else Spill (buffer_slots v)
  end.

Definition try_acquire_reusable (v : VisibilityQueryState) (mem : Memory) (slots : Z)
    : option (RetiredVisibilityBuffer * VisibilityQueryState * Memory) :=
  '(b, p) ← VisibilityBufferPool.acquire (pool v) slots;
  let '(mem, b) := clear_reserved mem b in
  Some (b, set_pool v p, mem).

Definition install_first_buffer (v : VisibilityQueryState) (b : RetiredVisibilityBuffer) : VisibilityQueryState :=
  set_buffers (set_alloc v 0 (Z.min (vb_slots b) (buffer_slots v)) (exhausted_this_frame v))
    (frame_buffers v ++ [b]) (peak_slots v).

Definition install_grown_buffer (v : VisibilityQueryState) (b : RetiredVisibilityBuffer)
    : list RetiredVisibilityBuffer * VisibilityQueryState :=
  let cap := Z.min (vb_slots b) (buffer_slots v) in
  let replaced := last (frame_buffers v) in
  let v := set_alloc (set_buffers v (removelast (frame_buffers v) ++ [b]) (peak_slots v))
             (next v) cap (exhausted_this_frame v) in
  match replaced with
  | Some old => let '(evicted, p) := VisibilityBufferPool.give_back (pool v) old in (evicted, set_pool v p)
  | None => ([], v)
  end.

Definition current_buffer_index (v : VisibilityQueryState) : Z := Z.of_nat (length (frame_buffers v) - 1).

(** One open segment per active query, up to the allocator's high-water mark. *)
Definition open_segments (v : VisibilityQueryState) (cores : Cores) (seq : Z) : list PendingSegment :=
  (λ q, mkSegment seq (current_buffer_index v) q (generation_of cores q) (offset_of cores q, next v) false) <$> active v.

Definition spill_into (v : VisibilityQueryState) (cores : Cores) (seq : Z) (b : RetiredVisibilityBuffer)
    : VisibilityQueryState * Cores :=
  let v1 := set_pending v (pending v ++ open_segments v cores seq) in
  let full := match last (frame_buffers v) with
    | Some f => removelast (frame_buffers v) ++ [set_reserved f (next v)]
    | None => [] end in
  (set_buffers (set_alloc v1 0 (Z.min (vb_slots b) (buffer_slots v)) (exhausted_this_frame v)) (full ++ [b]) (peak_slots v),
   on_cores (QueryCore.resume seq 0) (active v) cores).

Definition retire_frame_buffers (v : VisibilityQueryState) (seq : Z) : VisibilityQueryState :=
  let last_ := (length (frame_buffers v) - 1)%nat in
  let retired := imap (λ i b,
    mkBuffer (vb_id b) (vb_slots b) seq (Z.of_nat i) (if (i =? last_)%nat then next v else reserved b)) (frame_buffers v) in
  let total := foldl (λ acc b, (acc +| reserved b)%u32) 0 retired in
  let p := foldl VisibilityBufferPool.retire (pool v) retired in
  set_pool (set_buffers v [] (Z.max total (peak_slots v - peak_slots v / 32))) p.

Definition mark_exhausted (v : VisibilityQueryState) (cores : Cores) : VisibilityQueryState * Cores :=
  (set_alloc v (next v) (capacity v) true, on_cores QueryCore.mark_uncounted (active v) cores).

Definition bump_slot (v : VisibilityQueryState) : option Z * VisibilityQueryState :=
  if capacity v <=? next v then (None, v)
  else (Some (next v), set_alloc v (next v + 1) (capacity v) (exhausted_this_frame v)).

Definition push_active (v : VisibilityQueryState) (q : Z) : VisibilityQueryState :=
  if bool_decide (q ∈ active v) then v else set_active v (active v ++ [q]).

Definition remove_active (v : VisibilityQueryState) (q : Z) : VisibilityQueryState :=
  set_active v (filter (λ c, c <> q) (active v)).

Definition push_pending (v : VisibilityQueryState) (cores : Cores) (seq q : Z) (span : Z * Z) (closes : bool)
    : VisibilityQueryState :=
  set_pending v (pending v ++ [mkSegment seq (current_buffer_index v) q (generation_of cores q) span closes]).

Definition split_open_spans (v : VisibilityQueryState) (cores : Cores) (seq : Z) : VisibilityQueryState :=
  set_pending v (pending v ++ open_segments v cores seq).

Definition resume_open_spans (v : VisibilityQueryState) (cores : Cores) (seq : Z) : Cores :=
  on_cores (QueryCore.resume seq (next v)) (active v) cores.

Definition drain_all_buffers (v : VisibilityQueryState) : list RetiredVisibilityBuffer * VisibilityQueryState :=
  (frame_buffers v ++ VisibilityBufferPool.retired (pool v) ++ VisibilityBufferPool.free (pool v),
   set_pool (set_buffers v [] (peak_slots v)) (VisibilityBufferPool.mk [] [] (VisibilityBufferPool.cap (pool v)))).

(** One due segment folded into its query. *)
Definition fold_segment (p : VisibilityBufferPool.t) (mem : Memory) (cores : Cores) (e : PendingSegment) : Cores :=
  if negb (seg_generation e =? generation_of cores (core e)) then cores
  else
    let '(cores, sum) :=
      if snd (span e) <=? fst (span e) then (cores, 0)
      else match VisibilityBufferPool.sum_retired p mem (submit_seq e) (buffer e) (span e) with
           | Some s => (cores, s)
           | None => (alter QueryCore.mark_uncounted (core e) cores, 0)
           end in
    let cores := alter (QueryCore.accumulate_segment sum) (core e) cores in
    if closes_span e then alter QueryCore.publish_span (core e) cores else cores.

Fixpoint intake_loop (p : VisibilityBufferPool.t) (mem : Memory) (coherent : Z) (cores : Cores)
    (l : list PendingSegment) : list PendingSegment * Cores :=
  match l with
  | [] => ([], cores)
  | e :: rest =>
      if coherent <? submit_seq e
      then let '(kept, cores) := intake_loop p mem coherent cores rest in (e :: kept, cores)
      else intake_loop p mem coherent (fold_segment p mem cores e) rest
  end.

Definition intake_completed (v : VisibilityQueryState) (mem : Memory) (cores : Cores) (coherent : Z)
    : list RetiredVisibilityBuffer * VisibilityQueryState * Cores :=
  let '(kept, cores) := intake_loop (pool v) mem coherent cores (pending v) in
  let '(evicted, p) := VisibilityBufferPool.release_up_to (pool v) coherent in
  (evicted, set_pool (set_pending v kept) p, cores).
End VisState.

(** ** The pass stream *)

Inductive VisCommand := Counting (slot : Z) | Disabled | DrawCmd (samples : Z).

Record Pass := mkPass { p_buffer : Z; p_counting : bool; p_commands : list VisCommand }.

Record PassState := mkPasses { passes : list Pass; current_pass_closed : bool; visibility_buffer : Z }.

Module PassOps.
Definition new : PassState := mkPasses [] true 0.

Definition ensure_pass_open (s : PassState) : PassState :=
  match passes s with
  | [] => mkPasses [mkPass (visibility_buffer s) false []] false (visibility_buffer s)
  | _ => if current_pass_closed s
         then mkPasses (passes s ++ [mkPass (visibility_buffer s) false []]) false (visibility_buffer s)
         else s
  end.

Definition is_counting (c : VisCommand) : bool := match c with Counting _ => true | _ => false end.

Definition push_command (c : VisCommand) (p : Pass) : Pass :=
  mkPass (p_buffer p) (p_counting p || is_counting c) (p_commands p ++ [c]).

Definition emit_command (s : PassState) (c : VisCommand) : PassState :=
  let s := ensure_pass_open s in
  mkPasses (alter (push_command c) (length (passes s) - 1)%nat (passes s)) (current_pass_closed s) (visibility_buffer s).

Definition end_current_pass (s : PassState) : PassState :=
  match passes s with [] => s | _ => mkPasses (passes s) true (visibility_buffer s) end.

Definition break_for_visibility_buffer (s : PassState) : PassState :=
  let s := end_current_pass s in mkPasses (passes s) (current_pass_closed s) (visibility_buffer s + 1).

Definition current_pass_has_counting_visibility (s : PassState) : bool :=
  if current_pass_closed s then false else match last (passes s) with Some p => p_counting p | None => false end.
End PassOps.

(** ** The encoder *)

Record Encoder := mkEncoder {
  vis : VisibilityQueryState; cores : Cores; mem : Memory; pass_state : PassState;
  current_submit_seq : Z; next_backing : Z }.

Definition set_vis (e : Encoder) (v : VisibilityQueryState) : Encoder :=
  mkEncoder v (cores e) (mem e) (pass_state e) (current_submit_seq e) (next_backing e).
Definition set_cores (e : Encoder) (v : VisibilityQueryState) (c : Cores) : Encoder :=
  mkEncoder v c (mem e) (pass_state e) (current_submit_seq e) (next_backing e).
Definition set_passes (e : Encoder) (p : PassState) : Encoder :=
  mkEncoder (vis e) (cores e) (mem e) p (current_submit_seq e) (next_backing e).

(** [provide_visibility_buffer]; [ok] is whether the page allocation and the
    Metal wrap, asked for when no free buffer fits, succeed. *)
Definition provide_visibility_buffer (e : Encoder) (ok : bool) (slots : Z) : option (RetiredVisibilityBuffer * Encoder) :=
  match VisState.try_acquire_reusable (vis e) (mem e) slots with
  | Some (b, v, m) => Some (b, mkEncoder v (cores e) m (pass_state e) (current_submit_seq e) (next_backing e))
  | None =>
      if ok then
        let id := next_backing e in
        Some (mkBuffer id slots 0 0 0,
              mkEncoder (vis e) (cores e) (λ i s, if i =? id then 0 else mem e i s) (pass_state e)
                (current_submit_seq e) (id + 1))
      else None
  end.

Definition spill_visibility_buffer (e : Encoder) (b : RetiredVisibilityBuffer) : Encoder :=
  let e := set_passes e (PassOps.break_for_visibility_buffer (pass_state e)) in
  let '(v, c) := VisState.spill_into (vis e) (cores e) (current_submit_seq e) b in
  set_cores e v c.

Definition allocate_visibility_slot (e : Encoder) (ok : bool) : option Z * Encoder :=
  if exhausted_this_frame (vis e) then (None, e)
  else
    let provided :=
      match VisState.buffer_need (vis e) with
      | Ready => Some e
      | First slots =>
          '(b, e) ← provide_visibility_buffer e ok slots; Some (set_vis e (VisState.install_first_buffer (vis e) b))
      | Grow slots =>
          '(b, e) ← provide_visibility_buffer e ok slots; Some (set_vis e (snd (VisState.install_grown_buffer (vis e) b)))
      | Spill slots =>
          '(b, e) ← provide_visibility_buffer e ok slots; Some (spill_visibility_buffer e b)
      end in
    let '(slot, e) := match provided with
      | Some e => let '(slot, v) := VisState.bump_slot (vis e) in (slot, set_vis e v)
      | None => (None, e)
      end in
    match slot with
    | Some _ => (slot, e)
    | None => let '(v, c) := VisState.mark_exhausted (vis e) (cores e) in (None, set_cores e v c)
    end.

Definition reserve_draw_visibility_slot (e : Encoder) (ok : bool) : option Z * Encoder :=
  if bool_decide (active (vis e) = []) || PassOps.current_pass_has_counting_visibility (pass_state e)
  then (None, e) else allocate_visibility_slot e ok.

Definition begin_visibility_query (e : Encoder) (ok : bool) (q generation : Z) (logical render : Z * Z) : Encoder :=
  let '(slot, e) := allocate_visibility_slot e ok in
  let c := alter (QueryCore.begin_recorded generation (current_submit_seq e) (default (next (vis e)) slot)
                    logical render (draws_seen (vis e))) q (cores e) in
  let v := VisState.push_active (vis e) q in
  match slot with
  | None => set_cores e v (alter QueryCore.mark_uncounted q c)
  | Some slot => set_passes (set_cores e v c) (PassOps.emit_command (pass_state e) (Counting slot))
  end.

Definition end_visibility_query (e : Encoder) (ok : bool) (q generation : Z) : Encoder :=
  let '(slot, e) := allocate_visibility_slot e ok in
  let begin := offset_of (cores e) q in
  let c := alter (QueryCore.end_recorded generation (current_submit_seq e) (draws_seen (vis e))) q (cores e) in
  let v := VisState.remove_active (vis e) q in
  let '(p, c) := match slot with
    | Some slot =>
        (PassOps.emit_command (pass_state e) (if bool_decide (active v = []) then Disabled else Counting slot), c)
    | None => (pass_state e, alter QueryCore.mark_uncounted q c)
    end in
  let v := VisState.push_pending v c (current_submit_seq e) q (begin, default begin slot) true in
  set_passes (set_cores e v c) p.

(** [begin_render_pass_if_needed] and the draw it is for. *)
Definition emit_draw (e : Encoder) (ok : bool) (samples : Z) : Encoder :=
  let '(arm_slot, e) := reserve_draw_visibility_slot e ok in
  let p := PassOps.ensure_pass_open (pass_state e) in
  let e := set_vis e (VisState.note_draw (vis e)) in
  let p := match arm_slot with Some slot => PassOps.emit_command p (Counting slot) | None => p end in
  set_passes e (PassOps.emit_command p (DrawCmd samples)).

(** The synthetic quad of a [Clear]: a counting pass ends first. *)
Definition emit_clear_quad (e : Encoder) (samples : Z) : Encoder :=
  let p := pass_state e in
  let p := if PassOps.current_pass_has_counting_visibility p then PassOps.end_current_pass p else p in
  set_passes e (PassOps.emit_command p (DrawCmd samples)).

(** What a submission hands the GPU: its passes and the backing each buffer
    index is bound to. *)
Record Submission := mkSubmission { sub_seq : Z; sub_passes : list Pass; sub_bound : list Z }.

(** [finalize_submit], and the start of the frame that follows it. *)
Definition submit_frame (e : Encoder) : Submission * Encoder :=
  let seq := current_submit_seq e in
  let p := PassOps.end_current_pass (pass_state e) in
  let v := VisState.split_open_spans (vis e) (cores e) seq in
  let sub := mkSubmission seq (passes p) (vb_id <$> frame_buffers v) in
  let v := VisState.reset_frame (VisState.retire_frame_buffers v seq) in
  let c := VisState.resume_open_spans v (cores e) (seq + 1) in
  (sub, mkEncoder v c (mem e) PassOps.new (seq + 1) (next_backing e)).

Definition intake_visibility (e : Encoder) (coherent : Z) : Encoder :=
  let '(_, v, c) := VisState.intake_completed (vis e) (mem e) (cores e) coherent in set_cores e v c.
