(* ===== verification/VisibilityPasses.v ===== *)
(** The counting that [Visibility] drives: the pool's list lemmas, what the GPU
    counts for a command stream, what each pass operation does to the mode, and
    sums over slot ranges. *)

From S2P Require Import Prelude Visibility.

(** ** Lists *)

Lemma filter_ext_in {A} (P Q : A -> Prop) `{!forall x, Decision (P x)} `{!forall x, Decision (Q x)} (l : list A) :
  (forall x, x ∈ l -> P x <-> Q x) -> filter P l = filter Q l.
Proof.
  induction l as [|x l IH]; intros Hl; [done|]. rewrite !filter_cons, IH by (intros; apply Hl; by right).
  pose proof (Hl x ltac:(left)). destruct (decide (P x)), (decide (Q x)); tauto.
Qed.

Lemma filter_empty_in {A} (P : A -> Prop) `{!forall x, Decision (P x)} (l : list A) :
  (forall x, x ∈ l -> ~ P x) -> filter P l = [].
Proof.
  induction l as [|x l IH]; intros Hl; [done|]. rewrite filter_cons, decide_False by (apply Hl; left).
  apply IH. intros; apply Hl; by right.
Qed.

Lemma min_by_spec {A} (key : A -> Z) (ok : A -> bool) (l pre : list A) best i k :
  (forall j c, best = Some (j, c) -> exists b, pre !! j = Some b /\ ok b = true) ->
  min_by key ok l (length pre) best = Some (i, k) -> exists b, (pre ++ l) !! i = Some b /\ ok b = true.
Proof.
  revert pre best. induction l as [|x l IH]; intros pre best Hb H; simpl in H.
  - rewrite app_nil_r. by eapply Hb.
  - replace (S (length pre)) with (length (pre ++ [x])) in H by (rewrite length_app; simpl; lia).
    replace (pre ++ x :: l) with ((pre ++ [x]) ++ l) by (by rewrite <- app_assoc).
    eapply IH; [|exact H]. intros j c Hj. destruct (ok x) eqn:Ex.
    + assert (j = length pre \/ best = Some (j, c)) as [->|Hb'].
      { destruct best as [[j0 k0]|]; [destruct (_ <? _)|]; naive_solver. }
      * exists x. split; [|done]. by rewrite list_lookup_middle.
      * destruct (Hb _ _ Hb') as (b & Hl & Ho). exists b. split; [|done]. by apply lookup_app_l_Some.
    + destruct (Hb _ _ Hj) as (b & Hl & Ho). exists b. split; [|done]. by apply lookup_app_l_Some.
Qed.

Lemma acquire_spec p slots b p' :
  VisibilityBufferPool.acquire p slots = Some (b, p') ->
  slots <= vb_slots b /\ VisibilityBufferPool.retired p' = VisibilityBufferPool.retired p
  /\ b :: VisibilityBufferPool.free p' ≡ₚ VisibilityBufferPool.free p.
Proof.
  unfold VisibilityBufferPool.acquire. destruct (min_by _ _ _ _ _) as [[i k]|] eqn:Em; [|done]. simpl.
  destruct (VisibilityBufferPool.free p !! i) as [b0|] eqn:El; [|done]. simpl. intros [= <- <-].
  destruct (min_by_spec vb_slots (λ b, slots <=? vb_slots b) (VisibilityBufferPool.free p) [] None i k) as (b1 & H1 & H2);
    [done|exact Em|]. simpl in H1. rewrite El in H1. injection H1 as <-. split; [lia|]. split; [done|]. by apply swap_remove_perm.
Qed.

Lemma trim_loop_sub fuel cap free ev free' ev' :
  VisibilityBufferPool.trim_loop fuel cap free ev = (free', ev') -> exists out, free' ++ out ≡ₚ free.
Proof.
  revert free ev. induction fuel as [|fuel IH]; intros free ev H; simpl in H.
  - injection H as <- <-. exists []. by rewrite app_nil_r.
  - destruct (_ <? _)%nat; [|injection H as <- <-; exists []; by rewrite app_nil_r].
    set (i := match min_by _ _ _ _ _ with Some (i, _) => i | None => 0%nat end) in H. clearbody i.
    destruct (free !! i) as [b|] eqn:El; [|injection H as <- <-; exists []; by rewrite app_nil_r].
    apply IH in H as [out Ho]. exists (b :: out). rewrite <- (swap_remove_perm _ _ _ El), <- Ho. solve_Permutation.
Qed.

Lemma trim_free_spec p ev p' :
  VisibilityBufferPool.trim_free p = (ev, p') ->
  VisibilityBufferPool.retired p' = VisibilityBufferPool.retired p
  /\ exists out, VisibilityBufferPool.free p' ++ out ≡ₚ VisibilityBufferPool.free p.
Proof.
  unfold VisibilityBufferPool.trim_free. destruct (VisibilityBufferPool.trim_loop _ _ _ _) as [f e] eqn:E.
  intros [= <- <-]. split; [done|]. by eapply trim_loop_sub.
Qed.

Lemma release_loop_spec fuel coh i r f r' f' :
  (length r - i <= fuel)%nat -> (forall b, b ∈ take i r -> coh < release_seq b) ->
  VisibilityBufferPool.release_loop fuel coh i r f = (r', f') ->
  r' ++ f' ≡ₚ r ++ f
  /\ (forall b, b ∈ r' <-> b ∈ r /\ coh < release_seq b)
  /\ (forall b, b ∈ f' -> b ∈ f \/ b ∈ r /\ release_seq b <= coh).
Proof.
  revert i r f. induction fuel as [|fuel IH]; intros i r f Hf Hpre H; simpl in H.
  - injection H as <- <-. split; [done|]. split; [|auto]. intros b. split; [|tauto]. intros Hb. split; [done|].
    apply Hpre. by rewrite take_ge by lia.
  - destruct (r !! i) as [b|] eqn:El.
    + pose proof (lookup_lt_Some _ _ _ El) as Hlt. pose proof (swap_remove_perm _ _ _ El) as Hp.
      assert (Hlen : length (swap_remove r i) = (length r - 1)%nat)
        by (apply Permutation_length in Hp; simpl in Hp; lia).
      assert (Hmem : forall c, c ∈ r <-> c = b \/ c ∈ swap_remove r i)
        by (intros c; rewrite <- elem_of_cons; by rewrite Hp).
      destruct (release_seq b <=? coh) eqn:E; reflect_cmp.
      * apply IH in H as (H1 & H2 & H3); [|lia|].
        -- split; [transitivity ((b :: swap_remove r i) ++ f); [rewrite H1; solve_Permutation|by rewrite Hp]|]. split.
           ++ intros c. rewrite H2, Hmem. split; [tauto|]. intros [[->|?] ?]; [lia|done].
           ++ intros c Hc. destruct (H3 c Hc) as [Hin|[Hin Hle]].
              ** apply elem_of_app in Hin as [Hin|Hin]; [by left|]. apply list_elem_of_singleton in Hin as ->.
                 right. split; [by eapply list_elem_of_lookup_2|done].
              ** right. split; [|done]. apply Hmem. by right.
        -- intros c Hc. apply Hpre. unfold swap_remove in Hc. destruct (last r); [|done].
           rewrite take_take in Hc. rewrite take_insert_ge in Hc by lia. by rewrite Nat.min_l in Hc by lia.
      * apply IH in H as (H1 & H2 & H3); [done|lia|]. intros c Hc. rewrite (take_S_r _ _ _ El) in Hc.
        apply elem_of_app in Hc as [Hc|Hc]; [by apply Hpre|]. by apply list_elem_of_singleton in Hc as ->.
    + injection H as <- <-. apply lookup_ge_None in El. split; [done|]. split; [|auto]. intros b. split; [|tauto].
      intros Hb. split; [done|]. apply Hpre. by rewrite take_ge.
Qed.

Lemma release_up_to_spec p coh ev p' :
  VisibilityBufferPool.release_up_to p coh = (ev, p') ->
  (exists out, (VisibilityBufferPool.retired p' ++ VisibilityBufferPool.free p') ++ out
     ≡ₚ VisibilityBufferPool.retired p ++ VisibilityBufferPool.free p)
  /\ (forall b, b ∈ VisibilityBufferPool.retired p' <-> b ∈ VisibilityBufferPool.retired p /\ coh < release_seq b)
  /\ (forall b, b ∈ VisibilityBufferPool.free p' -> b ∈ VisibilityBufferPool.free p
        \/ b ∈ VisibilityBufferPool.retired p /\ release_seq b <= coh).
Proof.
  unfold VisibilityBufferPool.release_up_to.
  destruct (VisibilityBufferPool.release_loop _ _ _ _ _) as [r f] eqn:E. intros H.
  apply trim_free_spec in H as [Er [out Ho]]. simpl in Er, Ho. rewrite Er.
  apply release_loop_spec in E as (H1 & H2 & H3); [|lia|by intros b ?%elem_of_nil].
  split; [exists out; by rewrite <- app_assoc, Ho|]. split; [done|]. intros b Hb. apply H3. rewrite <- Ho.
  apply elem_of_app. by left.
Qed.

(** ** What the GPU counts *)

(** One command: the mode it leaves, and the slot and samples it counts. *)
Definition command_step (mode : option Z) (c : VisCommand) : option Z * option (Z * Z) :=
  match c with
  | Counting s => (Some s, None)
  | Disabled => (None, None)
  | DrawCmd n => (mode, match mode with Some s => Some (s, n) | None => None end)
  end.

Fixpoint commands_mode (mode : option Z) (l : list VisCommand) : option Z :=
  match l with [] => mode | c :: rest => commands_mode (fst (command_step mode c)) rest end.

(** The samples a command list adds to slot [s]. *)
Fixpoint commands_count (mode : option Z) (l : list VisCommand) (s : Z) : Z :=
  match l with
  | [] => 0
  | c :: rest =>
      let '(mode, hit) := command_step mode c in
      match hit with Some (s', n) => if s =? s' then n else 0 | None => 0 end + commands_count mode rest s
  end.

(** A Metal encoder starts with counting off; only a pass with a Counting mode
    has a buffer attached. *)
Fixpoint gpu_commands (id : Z) (mode : option Z) (l : list VisCommand) (m : Memory) : Memory :=
  match l with
  | [] => m
  | c :: rest =>
      let '(mode, hit) := command_step mode c in
      gpu_commands id mode rest
        match hit with
        | Some (s', n) => λ i s, if (i =? id) && (s =? s') then m i s + n else m i s
        | None => m
        end
  end.

Definition gpu_pass (bound : list Z) (m : Memory) (p : Pass) : Memory :=
  match bound !! Z.to_nat (p_buffer p) with
  | Some id => if p_counting p then gpu_commands id None (p_commands p) m else m
  | None => m
  end.

Definition gpu_submission (sub : Submission) (m : Memory) : Memory := foldl (gpu_pass (sub_bound sub)) m (sub_passes sub).

Definition pass_count (p : Pass) (b s : Z) : Z :=
  if (p_buffer p =? b) && p_counting p then commands_count None (p_commands p) s else 0.

Definition counts (ps : list Pass) (b s : Z) : Z := zsum ((λ p, pass_count p b s) <$> ps).

Lemma gpu_commands_mem id mode l m i s :
  gpu_commands id mode l m i s = m i s + (if i =? id then commands_count mode l s else 0).
Proof.
  revert mode m. induction l as [|c l IH]; intros mode m; simpl; [destruct (i =? id); lia|].
  destruct (command_step mode c) as [mode' hit] eqn:E. rewrite IH.
  destruct hit as [[s' n]|]; [|destruct (i =? id); lia].
  destruct (i =? id) eqn:Ei; simpl; [|lia]. destruct (s =? s'); lia.
Qed.

Lemma gpu_submission_mem ps bound m :
  NoDup bound -> (forall p, p ∈ ps -> 0 <= p_buffer p) ->
  forall b id s, 0 <= b -> bound !! Z.to_nat b = Some id ->
    foldl (gpu_pass bound) m ps id s = m id s + counts ps b s.
Proof.
  intros Hnd Hps b id s Hb Hid. unfold counts. revert m. induction ps as [|p ps IH]; intros m; cbn [foldl].
  - simpl. lia.
  - rewrite IH by (intros; apply Hps; by right). rewrite fmap_cons, zsum_cons.
    assert (gpu_pass bound m p id s = m id s + pass_count p b s); [|lia].
    unfold gpu_pass, pass_count. specialize (Hps p ltac:(left)).
    destruct (bound !! Z.to_nat (p_buffer p)) as [id'|] eqn:E.
    + destruct (p_counting p); [|rewrite andb_false_r; lia]. rewrite andb_true_r, gpu_commands_mem.
      destruct (p_buffer p =? b) eqn:Eb; reflect_cmp.
      * subst. rewrite Hid in E. injection E as ->. by rewrite Z.eqb_refl.
      * destruct (id =? id') eqn:Ei; [|lia]. reflect_cmp. subst. exfalso. apply Eb.
        pose proof (NoDup_lookup _ _ _ _ Hnd Hid E). lia.
    + destruct (p_buffer p =? b) eqn:Eb; reflect_cmp; [|simpl; lia]. subst. congruence.
Qed.

(** A backing no index is bound to keeps its counters. *)
Lemma gpu_submission_other ps bound m id s : id ∉ bound -> foldl (gpu_pass bound) m ps id s = m id s.
Proof.
  intros Hid. revert m. induction ps as [|p ps IH]; intros m; cbn [foldl]; [done|]. rewrite IH. unfold gpu_pass.
  destruct (bound !! _) as [id'|] eqn:E; [|done]. destruct (p_counting p); [|done]. rewrite gpu_commands_mem.
  destruct (id =? id') eqn:Ei; [|lia]. reflect_cmp. subst. exfalso. apply Hid. by eapply list_elem_of_lookup_2.
Qed.

(** ** The pass stream *)

(** The counting mode the next command finds, and whether the open pass counts. *)
Definition pass_mode (s : PassState) : option Z :=
  if current_pass_closed s then None
  else match last (passes s) with Some p => commands_mode None (p_commands p) | None => None end.

Record pass_ok (s : PassState) : Prop := {
  po_open : current_pass_closed s = false -> exists p, last (passes s) = Some p /\ p_buffer p = visibility_buffer s;
  po_latch : forall p, p ∈ passes s -> p_counting p = false -> commands_mode None (p_commands p) = None
     /\ forall s, commands_count None (p_commands p) s = 0;
  po_buffers : forall p, p ∈ passes s -> 0 <= p_buffer p <= visibility_buffer s;
}.

Lemma commands_mode_snoc mode l c : commands_mode mode (l ++ [c]) = fst (command_step (commands_mode mode l) c).
Proof. revert mode. induction l as [|d l IH]; intros mode; simpl; [done|]. apply IH. Qed.

Lemma commands_count_snoc mode l c s :
  commands_count mode (l ++ [c]) s = commands_count mode l s
    + match snd (command_step (commands_mode mode l) c) with Some (s', n) => if s =? s' then n else 0 | None => 0 end.
Proof.
  revert mode. induction l as [|d l IH]; intros mode; simpl.
  - destruct (command_step mode c) as [m h]. simpl. lia.
  - destruct (command_step mode d) as [m h]. simpl. rewrite IH. lia.
Qed.

Lemma counts_snoc ps p b s : counts (ps ++ [p]) b s = counts ps b s + pass_count p b s.
Proof. unfold counts. rewrite fmap_app, zsum_app. simpl. unfold zsum. simpl. lia. Qed.

Lemma passes_last (ps : list Pass) p : last ps = Some p -> exists l, ps = l ++ [p].
Proof. apply last_Some. Qed.

Lemma ensure_spec s :
  pass_ok s -> 0 <= visibility_buffer s ->
  let s' := PassOps.ensure_pass_open s in
  pass_ok s' /\ current_pass_closed s' = false /\ visibility_buffer s' = visibility_buffer s
  /\ (forall b t, counts (passes s') b t = counts (passes s) b t) /\ pass_mode s' = pass_mode s.
Proof.
  intros Hok Hv. pose proof Hok as [Ho Hl Hb]. unfold PassOps.ensure_pass_open.
  set (n := mkPass (visibility_buffer s) false []).
  assert (Hnew : forall l, passes s = l -> current_pass_closed s = true \/ l = [] ->
    let s' := mkPasses (l ++ [n]) false (visibility_buffer s) in
    pass_ok s' /\ current_pass_closed s' = false /\ visibility_buffer s' = visibility_buffer s
    /\ (forall b t, counts (passes s') b t = counts (passes s) b t) /\ pass_mode s' = pass_mode s).
  { intros l El Hc s'. split_and!; try done.
    - split; simpl.
      + intros _. exists n. split; [apply last_snoc|done].
      + intros p Hp. rewrite El in Hl. apply elem_of_app in Hp as [Hp|Hp]; [by apply Hl|].
        apply list_elem_of_singleton in Hp as ->. done.
      + intros p Hp. rewrite El in Hb. apply elem_of_app in Hp as [Hp|Hp]; [by apply Hb|].
        apply list_elem_of_singleton in Hp as ->. simpl. lia.
    - intros b t. rewrite El. unfold s'. cbn [passes]. rewrite counts_snoc. unfold pass_count. simpl.
      rewrite andb_false_r. lia.
    - unfold pass_mode, s'. cbn [passes current_pass_closed]. rewrite last_snoc. simpl.
      rewrite El. destruct Hc as [->| ->]; [done|]. by destruct (current_pass_closed s). }
  destruct (passes s) as [|p0 l] eqn:E; [by apply (Hnew []); [|right]|].
  destruct (current_pass_closed s) eqn:Ec; [apply (Hnew (p0 :: l)); auto|].
  split_and!; try done. intros b t. by rewrite E.
Qed.

Lemma alter_last {A} (f : A -> A) (l : list A) x : alter f (length (l ++ [x]) - 1)%nat (l ++ [x]) = l ++ [f x].
Proof.
  rewrite length_app. simpl. replace (length l + 1 - 1)%nat with (length l) by lia.
  induction l as [|y l IH]; [done|]. simpl. f_equal. apply IH.
Qed.

Lemma emit_spec s c :
  pass_ok s -> 0 <= visibility_buffer s ->
  let s' := PassOps.emit_command s c in
  pass_ok s' /\ current_pass_closed s' = false /\ visibility_buffer s' = visibility_buffer s
  /\ pass_mode s' = fst (command_step (pass_mode s) c)
  /\ (forall b t, counts (passes s') b t = counts (passes s) b t
        + match snd (command_step (pass_mode s) c) with
          | Some (t', n) => if (b =? visibility_buffer s) && (t =? t') then n else 0
          | None => 0
          end).
Proof.
  intros Hok Hv. destruct (ensure_spec s Hok Hv) as (Hok1 & Hopen & Evb & Ec & Em). unfold PassOps.emit_command.
  set (s1 := PassOps.ensure_pass_open s) in *. clearbody s1. destruct Hok1 as [Ho Hl Hb].
  destruct (Ho Hopen) as (p & Hlast & Ep). destruct (passes_last _ _ Hlast) as [l El]. rewrite El, alter_last.
  cbn [current_pass_closed visibility_buffer passes].
  assert (Emode : commands_mode None (p_commands p) = pass_mode s).
  { rewrite <- Em. unfold pass_mode. by rewrite Hopen, Hlast. }
  assert (Hp : p ∈ passes s1) by (rewrite El; apply elem_of_app; right; left).
  set (p' := PassOps.push_command c p).
  assert (Hp' : p_counting p' = false -> commands_mode None (p_commands p') = None
                /\ forall t, commands_count None (p_commands p') t = 0).
  { simpl. intros [Hc Hic]%orb_false_iff. destruct (Hl p Hp Hc) as [H1 H2].
    rewrite commands_mode_snoc, H1. split; [by destruct c|]. intros t. rewrite commands_count_snoc, H1, H2. by destruct c. }
  split; [|split; [done|split; [done|split]]].
  - split; simpl.
    + intros _. exists p'. by rewrite last_snoc.
    + intros q Hq. apply elem_of_app in Hq as [Hq|Hq].
      * apply Hl. rewrite El. apply elem_of_app. by left.
      * apply list_elem_of_singleton in Hq as ->. exact Hp'.
    + intros q Hq. apply elem_of_app in Hq as [Hq|Hq].
      * apply Hb. rewrite El. apply elem_of_app. by left.
      * apply list_elem_of_singleton in Hq as ->. simpl. by apply Hb.
  - unfold pass_mode at 1. cbn [current_pass_closed passes]. rewrite Hopen, last_snoc. simpl.
    by rewrite commands_mode_snoc, Emode.
  - intros b t. rewrite <- Ec, El, !counts_snoc.
    assert (pass_count p' b t = pass_count p b t
      + match snd (command_step (pass_mode s) c) with
        | Some (t', n) => if (b =? visibility_buffer s) && (t =? t') then n else 0 | None => 0 end); [|lia].
    unfold pass_count. simpl p_buffer. rewrite <- Evb, <- Ep, (Z.eqb_sym b). destruct (p_buffer p =? b); simpl.
    2:{ by destruct (snd _) as [[]|]. }
    rewrite commands_count_snoc, Emode. destruct (p_counting p) eqn:Ecnt; simpl; [done|].
    destruct (Hl p Hp Ecnt) as [H1 H2]. rewrite H2, <- Emode, H1. by destruct c.
Qed.

Lemma end_pass_spec s :
  pass_ok s ->
  let s' := PassOps.end_current_pass s in
  pass_ok s' /\ visibility_buffer s' = visibility_buffer s /\ passes s' = passes s /\ pass_mode s' = None.
Proof.
  intros [Ho Hl Hb]. unfold PassOps.end_current_pass. destruct (passes s) as [|p l] eqn:E.
  - split; [split; rewrite ?E; done|]. split; [done|]. split; [done|]. unfold pass_mode. rewrite E. by destruct (current_pass_closed s).
  - split; [split; simpl; done|]. done.
Qed.

Lemma break_spec s :
  pass_ok s -> 0 <= visibility_buffer s ->
  let s' := PassOps.break_for_visibility_buffer s in
  pass_ok s' /\ visibility_buffer s' = visibility_buffer s + 1 /\ passes s' = passes s /\ pass_mode s' = None.
Proof.
  intros Hok Hv. destruct (end_pass_spec s Hok) as ([Ho Hl Hb] & Ev & Ep & Em). unfold PassOps.break_for_visibility_buffer.
  set (s1 := PassOps.end_current_pass s) in *. split; [|split; [simpl; lia|]].
  - split; simpl; [|done|].
    + intros Hc. exfalso. destruct (Ho Hc) as (p & Hp & _). unfold s1, PassOps.end_current_pass in Hc, Hp.
      destruct (passes s) as [|? ?] eqn:E; [by rewrite E in Hp|done].
    + intros p Hp. specialize (Hb p Hp). lia.
  - split; [exact Ep|]. unfold pass_mode in *. simpl. exact Em.
Qed.

Lemma not_counting_mode s : pass_ok s -> PassOps.current_pass_has_counting_visibility s = false -> pass_mode s = None.
Proof.
  intros [Ho Hl Hb]. unfold PassOps.current_pass_has_counting_visibility, pass_mode.
  destruct (current_pass_closed s); [done|]. destruct (last (passes s)) as [p|] eqn:E; [|done].
  intros Hc. apply Hl; [|done]. apply passes_last in E as [l ->]. apply elem_of_app. right. left.
Qed.

(** ** Segments *)

(** The samples the slots [lo, hi) of buffer [b] count. *)
Definition seg (c : Z -> Z -> Z) (b lo hi : Z) : Z := zsum (c b <$> seqZ lo (hi - lo)).

Lemma seg_empty c b lo hi : hi <= lo -> seg c b lo hi = 0.
Proof. intros H. unfold seg. by rewrite seqZ_nil by lia. Qed.

Lemma seg_ext c c' b b' lo hi : (forall s, lo <= s < hi -> c b s = c' b' s) -> seg c b lo hi = seg c' b' lo hi.
Proof.
  intros H. unfold seg. f_equal. apply list_fmap_ext. intros i x Hx. apply H.
  apply lookup_seqZ in Hx as [-> ?]. lia.
Qed.

Lemma seg_snoc c b lo hi : lo <= hi -> seg c b lo (hi + 1) = seg c b lo hi + c b hi.
Proof.
  intros H. unfold seg. replace (hi + 1 - lo) with ((hi - lo) + 1) by lia.
  rewrite (seqZ_app lo (hi - lo) 1) by lia. rewrite fmap_app, zsum_app.
  replace (lo + (hi - lo)) with hi by lia. unfold seqZ; simpl. unfold zsum at 2; simpl.
  rewrite !Z.add_0_r. done.
Qed.

Lemma seg_zero c b lo hi : (forall s, lo <= s < hi -> c b s = 0) -> seg c b lo hi = 0.
Proof.
  intros H. destruct (Z_le_dec hi lo) as [?|Hlt]; [by apply seg_empty|].
  replace hi with (lo + Z.of_nat (Z.to_nat (hi - lo))) in * by lia. clear Hlt.
  induction (Z.to_nat (hi - lo)) as [|n IH]; [apply seg_empty; lia|].
  replace (lo + Z.of_nat (S n)) with ((lo + Z.of_nat n) + 1) in * by lia. rewrite seg_snoc by lia.
  rewrite IH, H; [lia|lia|]. intros s Hs. apply H. lia.
Qed.

(** Past the last slot that counted, a longer segment counts no more. *)
Lemma seg_extend c b lo hi hi' : hi <= hi' -> (forall s, hi <= s < hi' -> c b s = 0) -> seg c b lo hi' = seg c b lo hi.
Proof.
  intros H Hz. replace hi' with (hi + Z.of_nat (Z.to_nat (hi' - hi))) in * by lia. clear H.
  induction (Z.to_nat (hi' - hi)) as [|n IH]; [f_equal; lia|].
  replace (hi + Z.of_nat (S n)) with ((hi + Z.of_nat n) + 1) in * by lia.
  destruct (Z_le_dec lo (hi + Z.of_nat n)) as [Hl|Hl].
  - rewrite seg_snoc by done. rewrite IH, Hz; [lia|lia|]. intros s Hs. apply Hz. lia.
  - rewrite !seg_empty by lia. done.
Qed.

(** Adding [n] samples at one slot. *)
Lemma seg_hit c c' b lo hi t n :
  (forall s, lo <= s < hi -> c' b s = c b s + (if s =? t then n else 0)) -> lo <= t < hi ->
  seg c' b lo hi = seg c b lo hi + n.
Proof.
  intros H Ht. replace hi with (lo + Z.of_nat (Z.to_nat (hi - lo))) in * by lia. revert Ht H.
  induction (Z.to_nat (hi - lo)) as [|k IH]; intros Ht H; [lia|].
  replace (lo + Z.of_nat (S k)) with ((lo + Z.of_nat k) + 1) in * by lia. rewrite !seg_snoc by lia.
  rewrite H by lia. destruct (Z.eq_dec t (lo + Z.of_nat k)) as [->|Hne].
  - rewrite Z.eqb_refl. rewrite (seg_ext c' c b b lo (lo + Z.of_nat k)); [lia|].
    intros s Hs. rewrite H by lia. rewrite (proj2 (Z.eqb_neq s _)) by lia. lia.
  - rewrite IH; [|lia|intros; apply H; lia]. rewrite (proj2 (Z.eqb_neq _ t)) by lia. lia.
Qed.

Lemma seg_nonneg c b lo hi : (forall s, lo <= s < hi -> 0 <= c b s) -> 0 <= seg c b lo hi.
Proof.
  intros H. unfold seg. apply zsum_nonneg, Forall_fmap, Forall_forall. intros s Hs. simpl.
  apply elem_of_seqZ in Hs. apply H. lia.
Qed.

Lemma sum_slots_seg counter c b slots lo hi :
  (forall s, counter s = c b s) -> hi <= slots -> seg c b lo hi <= u64_max -> (forall s, lo <= s < hi -> 0 <= c b s) ->
  sum_slots counter slots lo hi = seg c b lo hi.
Proof.
  intros Hc Hs Hmax Hn. unfold sum_slots. rewrite Z.min_l by done. destruct (hi <=? lo) eqn:E; reflect_cmp.
  - by rewrite seg_empty.
  - assert (Hw : forall l x, is_u64 x -> is_u64 (foldl (λ acc s, wrap64 (acc + counter s)) x l)).
    { clear. induction l as [|e l IH]; intros x Hx; simpl; [done|]. apply IH, wrap64_range. }
    rewrite <- (wrap64_small (foldl _ _ _)) by (apply Hw; unfold is_u64, u64_max; lia).
    rewrite foldl_add_wrap. rewrite (list_fmap_ext counter (c b)) by (intros; apply Hc).
    fold (seg c b lo hi). rewrite Z.add_0_l. apply wrap64_small. split; [by apply seg_nonneg|done].
Qed.
