(* ===== verification/VisibilityInv.v ===== *)
(** The invariant of the occlusion queries: slots, buffers, passes in flight and
    the samples every open or pending bracket still has to come, and that each
    operation of the encoder and the GPU keeps it. *)

From Stdlib Require Import Sorted.
From S2P Require Import Prelude Visibility VisibilityPasses.

(** ** The specification: what the draws of each bracket add up to *)

(** The packets the API thread queues for the encoder. *)
Inductive Packet :=
  | PBegin (q generation : Z) (logical render : Z * Z)
  | PEnd (q generation : Z)
  | PDraw (samples : Z)
  | PQuad (samples : Z)
  | PPassEnd
  | PSubmit.

(** A query's latest bracket: its samples and draws so far. *)
Record Span := mkSpan { sp_gen : Z; sp_open : bool; sp_total : Z; sp_draws : Z; sp_areas : Z * Z }.

Definition span_draw (n : Z) (s : Span) : Span :=
  if sp_open s then mkSpan (sp_gen s) true (sp_total s + n) (sp_draws s + 1) (sp_areas s) else s.

Definition span_close (s : Span) : Span := mkSpan (sp_gen s) false (sp_total s) (sp_draws s) (sp_areas s).

Definition spec_packet (T : gmap Z Span) (p : Packet) : gmap Z Span :=
  match p with
  | PBegin q g logical render => <[q := mkSpan g true 0 0 (QueryCore.area logical, QueryCore.area render)]> T
  | PEnd q _ => alter span_close q T
  | PDraw n => span_draw n <$> T
  | _ => T
  end.

Definition spec_run (l : list Packet) : gmap Z Span := foldl spec_packet ∅ l.

(** The answer a bracket's query gives: the samples in the pixels the
    application was told of, or the permissive count when an allocation failed
    and something was drawn. *)
Definition answer (a : Z) (s : Span) (failed : bool) : Prop :=
  a = QueryCore.logical_samples (sp_total s) (snd (sp_areas s)) (fst (sp_areas s))
  \/ a = u32_max /\ sp_draws s <> 0 /\ failed = true.

(** ** The invariant *)

Section Inv.
Context (max_total : Z) (Hmax : max_total <= u64_max).

Definition cur (e : Encoder) : Z := current_submit_seq e.
Definition idx (e : Encoder) : Z := VisState.current_buffer_index (vis e).
Definition here (e : Encoder) : Z -> Z -> Z := counts (passes (pass_state e)).
Definition frame (e : Encoder) : list RetiredVisibilityBuffer := frame_buffers (vis e).
Definition retired (e : Encoder) : list RetiredVisibilityBuffer := VisibilityBufferPool.retired (pool (vis e)).
Definition free (e : Encoder) : list RetiredVisibilityBuffer := VisibilityBufferPool.free (pool (vis e)).

Record count_inv (e : Encoder) : Prop := {
  c_vbuf : visibility_buffer (pass_state e) = idx e;
  c_pass : pass_ok (pass_state e);
  c_slots : 1 <= buffer_slots (vis e) <= u32_max;
  c_next : 0 <= next (vis e) <= capacity (vis e) /\ capacity (vis e) <= buffer_slots (vis e);
  c_empty : frame e = [] -> next (vis e) = 0 /\ capacity (vis e) = 0;
  c_last : forall b, last (frame e) = Some b -> 1 <= capacity (vis e) <= vb_slots b;
  c_high : forall s, next (vis e) <= s -> here e (idx e) s = 0;
  c_later : forall b s, idx e < b -> here e b s = 0;
  c_nonneg : forall b s, 0 <= here e b s;
  c_mode : forall t, pass_mode (pass_state e) = Some t -> 0 <= t < next (vis e);
}.

(** [extra] is a buffer provided and not yet installed. *)
Record buf_inv (F : Z -> list Pass) (coh : Z) (fl : list Submission) (extra : list RetiredVisibilityBuffer)
  (e : Encoder) : Prop := {
  b_ids : NoDup (vb_id <$> frame e ++ extra ++ retired e ++ free e);
  b_old : forall b, b ∈ frame e ++ extra ++ retired e ++ free e -> vb_id b < next_backing e;
  b_slots : forall b, b ∈ frame e ++ extra ++ retired e ++ free e -> 0 <= reserved b <= vb_slots b;
  b_frame : forall b s, b ∈ frame e ++ extra -> mem e (vb_id b) s = 0;
  b_full : forall i b s, frame e !! i = Some b -> (S i < length (frame e))%nat -> reserved b <= s -> here e (Z.of_nat i) s = 0;
  b_free : forall b s, b ∈ free e -> reserved b <= s -> mem e (vb_id b) s = 0;
  b_ret : forall b, b ∈ retired e -> release_seq b < cur e /\ 0 <= vb_index b
  /\ (forall s, reserved b <= s -> counts (F (release_seq b)) (vb_index b) s = 0)
  /\ (forall s, mem e (vb_id b) s = if release_seq b <=? coh then counts (F (release_seq b)) (vb_index b) s else 0);
  b_key : NoDup ((λ b, (release_seq b, vb_index b)) <$> retired e);
  b_coh : coh < cur e;
  b_flights : sub_seq <$> fl = seqZ (coh + 1) (cur e - coh - 1);
  b_flight : forall sub, sub ∈ fl -> sub_passes sub = F (sub_seq sub) /\ NoDup (sub_bound sub)
  /\ (forall p, p ∈ sub_passes sub -> 0 <= p_buffer p)
  /\ (forall id, id ∈ sub_bound sub -> exists b, b ∈ retired e /\ vb_id b = id /\ release_seq b = sub_seq sub)
  /\ (forall b, b ∈ retired e -> release_seq b = sub_seq sub -> sub_bound sub !! Z.to_nat (vb_index b) = Some (vb_id b));
}.

Definition frame_passes (F : Z -> list Pass) (e : Encoder) (s : Z) : list Pass :=
  if s =? cur e then passes (pass_state e) else F s.

Definition segval (F : Z -> list Pass) (e : Encoder) (g : PendingSegment) : Z :=
  seg (counts (frame_passes F e (submit_seq g))) (buffer g) (fst (span g)) (snd (span g)).

Definition mine (q g : Z) (s : PendingSegment) : Prop := core s = q /\ seg_generation s = g.

#[local] Instance mine_dec q g s : Decision (mine q g s).
Proof. unfold mine. apply _. Defined.

Definition own (e : Encoder) (q g : Z) : list PendingSegment := filter (mine q g) (pending (vis e)).

(** The samples of a query's current bracket not yet folded in. *)
Definition waiting (F : Z -> list Pass) (e : Encoder) (q g : Z) : Z := zsum (segval F e <$> own e q g).

Definition open_part (e : Encoder) (m : QueryMailbox) (s : Span) : Z :=
  if sp_open s then seg (here e) (idx e) (offset_begin m) (next (vis e)) else 0.

(** Open brackets have no closing segment; a closed one has exactly one, last. *)
Definition closing (open : bool) (l : list PendingSegment) : Prop :=
  if open then Forall (λ g, closes_span g = false) l
  else exists k g, l = k ++ [g] /\ closes_span g = true /\ Forall (λ g, closes_span g = false) k.

Record query_inv (F : Z -> list Pass) (failed : bool) (e : Encoder) (q : Z) (m : QueryMailbox) (s : Span) : Prop := {
  qi_gen : issue_generation m = sp_gen s /\ 1 <= sp_gen s;
  qi_areas : (logical_area m, render_area m) = sp_areas s;
  qi_open : q ∈ active (vis e) <-> sp_open s = true;
  qi_draws : if sp_open s then wrap64 (draws_seen (vis e) - draws_at_begin m) = wrap64 (sp_draws s)
   else draws_in_span m = wrap64 (sp_draws s);
  qi_offset : sp_open s = true -> 0 <= offset_begin m <= next (vis e);
  qi_failed : uncounted m <> 0 -> failed = true;
  qi_totals : 0 <= sp_total s <= max_total /\ 0 <= sp_draws s <= u64_max /\ (sp_draws s = 0 -> sp_total s = 0);
  qi_carried : 0 <= carried m;
  qi_result : result_generation m <= issue_generation m;
  qi_done : result_generation m = issue_generation m ->
  sp_open s = false /\ answer (accumulated m) s failed /\ own e q (sp_gen s) = [];
  qi_wait : result_generation m <> issue_generation m ->
  closing (sp_open s) (own e q (sp_gen s))
  /\ carried m + waiting F e q (sp_gen s) + open_part e m s <= sp_total s
  /\ (uncounted m = 0 -> carried m + waiting F e q (sp_gen s) + open_part e m s = sp_total s);
}.

(** A pending segment names counters that are still there. *)
Record pend_ok (e : Encoder) (g : PendingSegment) : Prop := {
  pe_seq : submit_seq g <= cur e;
  pe_lo : 0 <= fst (span g) /\ 0 <= buffer g;
  pe_gen : exists m, cores e !! core g = Some m /\ 1 <= seg_generation g <= issue_generation m;
  pe_here : submit_seq g = cur e -> fst (span g) < snd (span g) ->
  exists b, frame e !! Z.to_nat (buffer g) = Some b /\ snd (span g) <= vb_slots b
  /\ (buffer g = idx e -> snd (span g) <= next (vis e));
  pe_there : submit_seq g < cur e -> fst (span g) < snd (span g) ->
  exists b, b ∈ retired e /\ release_seq b = submit_seq g /\ vb_index b = buffer g /\ snd (span g) <= vb_slots b;
}.

(** Open and still exactly counted. *)
Definition counted (e : Encoder) (q : Z) (m : QueryMailbox) : Prop :=
  q ∈ active (vis e) /\ cores e !! q = Some m /\ uncounted m = 0.

Record span_inv (F : Z -> list Pass) (T : gmap Z Span) (failed : bool) (e : Encoder) : Prop := {
  si_nodup : NoDup (active (vis e));
  si_active : forall q, q ∈ active (vis e) -> is_Some (T !! q);
  si_query : forall q s, T !! q = Some s -> exists m, cores e !! q = Some m /\ query_inv F failed e q m s;
  si_fresh : forall q m, cores e !! q = Some m -> T !! q = None -> issue_generation m = 0 /\ result_generation m = 0;
  si_pending : forall g, g ∈ pending (vis e) -> pend_ok e g;
  si_sorted : StronglySorted Z.le (submit_seq <$> pending (vis e));
  si_mode : forall t, pass_mode (pass_state e) = Some t ->
  (forall q m, counted e q m -> offset_begin m <= t)
  /\ (forall g, g ∈ pending (vis e) -> submit_seq g = cur e -> buffer g = idx e -> fst (span g) < snd (span g) ->
  snd (span g) <= t);
  si_latch : PassOps.current_pass_has_counting_visibility (pass_state e) = true ->
  forall q m, counted e q m -> pass_mode (pass_state e) <> None;
  si_exhausted : exhausted_this_frame (vis e) = true -> failed = true /\ forall q m, ~ counted e q m;
}.

Record inv (F : Z -> list Pass) (T : gmap Z Span) (failed : bool) (coh : Z) (fl : list Submission) (e : Encoder) : Prop := {
  i_count : count_inv e;
  i_buf : buf_inv F coh fl [] e;
  i_span : span_inv F T failed e;
}.

(** ** Framing *)

(** Changes the spans do not see: storage replaced by storage at least as
large, and the pool's free list. *)
Lemma span_inv_ext F T failed e e' :
  span_inv F T failed e ->
  cores e' = cores e -> pending (vis e') = pending (vis e) -> active (vis e') = active (vis e) ->
  pass_state e' = pass_state e -> next (vis e') = next (vis e) -> idx e' = idx e -> cur e' = cur e ->
  exhausted_this_frame (vis e') = exhausted_this_frame (vis e) -> draws_seen (vis e') = draws_seen (vis e) ->
  retired e' = retired e ->
  (forall i b, frame e !! i = Some b -> exists b', frame e' !! i = Some b'
 /\ (vb_slots b <= vb_slots b' \/ Z.of_nat i = idx e /\ next (vis e) <= vb_slots b')) ->
  span_inv F T failed e'.
Proof.
  intros S Ec Ep Ea Eps En Ei Ecur Ex Ed Er Hfr.
  assert (Ehere : here e' = here e) by (unfold here; by rewrite Eps).
  assert (Eseg : forall g, segval F e' g = segval F e g) by (intros; unfold segval, frame_passes; by rewrite Ecur, Eps).
  assert (Eown : forall q g, own e' q g = own e q g) by (intros; unfold own; by rewrite Ep).
  assert (Ecnt : forall q m, counted e' q m <-> counted e q m) by (intros; unfold counted; by rewrite Ea, Ec).
  destruct S. split.
  - by rewrite Ea.
  - intros q. rewrite Ea. auto.
  - intros q s Hs. destruct (si_query0 q s Hs) as (m & Hm & []). exists m. rewrite Ec. split; [done|].
    split; rewrite ?Ea, ?Ed, ?En, ?Eown; try done. unfold waiting, open_part. rewrite Eown, Ehere, Ei, En.
    intros Hne. destruct (qi_wait0 Hne) as (? & ? & ?). unfold waiting in *.
    rewrite (list_fmap_ext (segval F e') (segval F e)) by (intros; apply Eseg). done.
  - rewrite Ec. auto.
  - intros g. rewrite Ep. intros Hg. destruct (si_pending0 g Hg). split; rewrite ?Ecur, ?Ec, ?Er; try done.
    intros Hs Hlt. destruct (pe_here0 Hs Hlt) as (b & Hb & Hsl & Hn). destruct (Hfr _ _ Hb) as (b' & Hb' & Hcase).
    exists b'. split; [done|]. rewrite Ei, En. split; [|done]. destruct Hcase as [?|[Hi ?]]; [lia|].
    assert (buffer g = idx e) by lia. specialize (Hn ltac:(done)). lia.
  - by rewrite Ep.
  - intros t. rewrite Eps, Ep, Ecur, Ei. intros Ht. destruct (si_mode0 t Ht) as [H1 H2]. split; [|done].
    intros q m Hq. apply H1 with q. by apply Ecnt.
  - rewrite Eps. intros Hl q m Hq. eapply si_latch0; [done|by apply Ecnt].
  - rewrite Ex. intros Hx. destruct (si_exhausted0 Hx) as [? H]. split; [done|]. intros q m Hq. by apply (H q m), Ecnt.
Qed.

(** ** Providing a slot *)

Lemma provide_spec F coh fl e ok slots b e' :
  buf_inv F coh fl [] e -> 0 <= slots ->
  provide_visibility_buffer e ok slots = Some (b, e') ->
  slots <= vb_slots b /\ buf_inv F coh fl [b] e'
  /\ cores e' = cores e /\ pass_state e' = pass_state e /\ cur e' = cur e
  /\ retired e' = retired e /\ exists p, vis e' = VisState.set_pool (vis e) p.
Proof.
  intros B Hs. unfold provide_visibility_buffer, VisState.try_acquire_reusable.
  destruct (VisibilityBufferPool.acquire (pool (vis e)) slots) as [[b0 p]|] eqn:Ea.
  - simpl. intros [= <- <-]. destruct (acquire_spec _ _ _ _ Ea) as (Hsl & Er & Hp).
    set (b1 := set_reserved b0 0). split; [done|]. split; [|split_and!; try done; by exists p].
    assert (Hperm : frame e ++ [b0] ++ retired e ++ VisibilityBufferPool.free p ≡ₚ frame e ++ [] ++ retired e ++ free e).
    { unfold free. rewrite <- Hp. solve_Permutation. }
    assert (Hids : vb_id <$> frame e ++ [b1] ++ retired e ++ VisibilityBufferPool.free p
         ≡ₚ vb_id <$> frame e ++ [] ++ retired e ++ free e).
    { rewrite <- Hperm. rewrite !fmap_app. done. }
    assert (Hin : forall c, c ∈ frame e ++ [b1] ++ retired e ++ VisibilityBufferPool.free p ->
    c = b1 \/ c ∈ frame e ++ [] ++ retired e ++ free e).
    { intros c. rewrite <- Hperm, !elem_of_app, !list_elem_of_singleton. tauto. }
    assert (Hb0 : b0 ∈ free e) by (unfold free; rewrite <- Hp; left).
    destruct B. pose proof (b_slots0 b0 ltac:(rewrite !elem_of_app; auto)) as Hb0s.
    assert (Hne : forall c, c ∈ frame e ++ retired e ++ VisibilityBufferPool.free p -> vb_id c <> vb_id b0).
    { intros c Hc Hid. assert (Hnd : NoDup (vb_id <$> b0 :: frame e ++ retired e ++ VisibilityBufferPool.free p)).
      { eapply NoDup_Permutation_proper; [|exact b_ids0]. rewrite <- Hperm. apply fmap_Permutation. solve_Permutation. }
      simpl in Hnd. apply NoDup_cons in Hnd as [Hn _]. apply Hn. rewrite <- Hid. by apply list_elem_of_fmap_2. }
    split; cbn [mem vis pass_state next_backing cores].
    + unfold retired, free; cbn [vis]. simpl. rewrite Er. eapply NoDup_Permutation_proper; [exact Hids|done].
    + unfold retired, free; cbn [vis]. simpl. rewrite Er. intros c Hc. destruct (Hin c Hc) as [->|Hc']; [|by apply b_old0].
      simpl. apply b_old0. rewrite !elem_of_app; auto.
    + unfold retired, free; cbn [vis]. simpl. rewrite Er. intros c Hc. destruct (Hin c Hc) as [->|Hc']; [|by apply b_slots0].
      simpl. lia.
    + intros c s Hc. unfold frame in Hc; cbn [vis frame_buffers VisState.set_pool] in Hc.
      destruct (_ && _) eqn:E; [done|]. apply elem_of_app in Hc as [Hc|Hc].
      * apply b_frame0. apply elem_of_app; by left.
      * apply list_elem_of_singleton in Hc as ->. simpl in *. rewrite Z.eqb_refl in E. simpl in E. reflect_cmp.
        apply b_free0; [done|lia].
    + done.
    + unfold free; cbn [vis]. simpl. intros c s Hc Hr.
      rewrite (proj2 (Z.eqb_neq _ _)) by (apply Hne; rewrite !elem_of_app; auto). simpl. apply b_free0; [|done].
      unfold free. rewrite <- Hp. by right.
    + unfold retired; cbn [vis]. simpl. rewrite Er. intros c Hc. destruct (b_ret0 c Hc) as (? & ? & ? & Hm).
      split_and!; try done. intros s.
      rewrite (proj2 (Z.eqb_neq _ _)) by (apply Hne; rewrite !elem_of_app; auto). simpl. apply Hm.
    + unfold retired; cbn [vis]. simpl. by rewrite Er.
    + done.
    + done.
    + unfold retired; cbn [vis]. simpl. rewrite Er. done.
  - cbn [mbind option_bind]. destruct ok; [|done]. intros [= <- <-]. split; [simpl; lia|].
    split; [|split_and!; try done; exists (pool (vis e)); by destruct (vis e)].
    set (b := mkBuffer (next_backing e) slots 0 0 0). destruct B.
    assert (Hold : forall c, c ∈ frame e ++ [] ++ retired e ++ free e -> vb_id c <> next_backing e)
    by (intros c Hc; specialize (b_old0 c Hc); lia).
    assert (Hcase : forall c, c ∈ frame e ++ [b] ++ retired e ++ free e -> c = b \/ c ∈ frame e ++ [] ++ retired e ++ free e).
    { intros c. rewrite !elem_of_app, list_elem_of_singleton. tauto. }
    assert (Hmem : forall c s, c ∈ frame e ++ [] ++ retired e ++ free e ->
    (if vb_id c =? next_backing e then 0 else mem e (vb_id c) s) = mem e (vb_id c) s).
    { intros c s Hc. by rewrite (proj2 (Z.eqb_neq _ _)) by (by apply Hold). }
    split; cbn [mem vis pass_state next_backing cores]; unfold frame, retired, free; cbn [vis];
    fold (frame e) (retired e) (free e).
    + eapply NoDup_Permutation_proper with (y := vb_id <$> b :: frame e ++ [] ++ retired e ++ free e);
      [apply fmap_Permutation; solve_Permutation|]. simpl. apply NoDup_cons. split; [|done].
      intros Hin. apply list_elem_of_fmap in Hin as (c & Ec & Hc). by apply (Hold c Hc).
    + intros c Hc. destruct (Hcase c Hc) as [->|Hc']; [simpl; lia|]. specialize (b_old0 c Hc'). lia.
    + intros c Hc. destruct (Hcase c Hc) as [->|Hc']; [simpl; lia|]. by apply b_slots0.
    + intros c s Hc. apply elem_of_app in Hc as [Hc|Hc].
      * rewrite Hmem by (apply elem_of_app; by left). apply b_frame0. apply elem_of_app; by left.
      * apply list_elem_of_singleton in Hc as ->. simpl. by rewrite Z.eqb_refl.
    + done.
    + intros c s Hc Hr. rewrite Hmem by (rewrite !elem_of_app; auto). by apply b_free0.
    + intros c Hc. destruct (b_ret0 c Hc) as (? & ? & ? & Hm). split_and!; try done. intros s.
      rewrite Hmem by (rewrite !elem_of_app; auto). apply Hm.
    + done.
    + done.
    + done.
    + done.
Qed.

(** What providing room keeps: the open set, the counts, the clocks. *)
Record keeps (e e' : Encoder) : Prop := {
  k_active : active (vis e') = active (vis e);
  k_here : here e' = here e;
  k_cur : cur e' = cur e;
  k_draws : draws_seen (vis e') = draws_seen (vis e);
  k_exhausted : exhausted_this_frame (vis e') = exhausted_this_frame (vis e);
}.

Lemma count_inv_pool e e' p :
  count_inv e -> pass_state e' = pass_state e -> vis e' = VisState.set_pool (vis e) p -> count_inv e'.
Proof.
  intros [] Ep Ev. split; unfold idx, here, frame in *; rewrite ?Ep, ?Ev; try done.
Qed.

Lemma span_inv_pool F T failed e e' p :
  span_inv F T failed e -> pass_state e' = pass_state e -> vis e' = VisState.set_pool (vis e) p ->
  cores e' = cores e -> cur e' = cur e -> retired e' = retired e -> span_inv F T failed e'.
Proof.
  intros S Ep Ev Ec Ecur Er. eapply (span_inv_ext F T failed e); try done; unfold idx, frame; rewrite ?Ev; try done.
  intros i b Hb. exists b. split; [done|]. left. lia.
Qed.

Lemma install_first_spec F T failed coh fl e b :
  count_inv e -> buf_inv F coh fl [b] e -> span_inv F T failed e -> frame e = [] -> 1 <= vb_slots b ->
  let e' := set_vis e (VisState.install_first_buffer (vis e) b) in
  count_inv e' /\ buf_inv F coh fl [] e' /\ span_inv F T failed e' /\ keeps e e' /\ next (vis e') < capacity (vis e').
Proof.
  intros C B S Hf Hb e'. pose proof C as []. destruct (c_empty0 Hf) as [En Ecap].
  assert (Ef' : frame e' = [b]) by (unfold frame, e'; simpl; unfold frame in Hf; by rewrite Hf).
  assert (Eidx : idx e' = idx e).
  { unfold idx, VisState.current_buffer_index. fold (frame e') (frame e). by rewrite Ef', Hf. }
  assert (Enext : next (vis e') = next (vis e)) by (simpl; lia).
  split; [|split; [|split; [|split; [by split|simpl; lia]]]].
  - split; rewrite ?Eidx; try done.
    + change (0 <= 0 <= Z.min (vb_slots b) (buffer_slots (vis e)) /\ Z.min (vb_slots b) (buffer_slots (vis e)) <= buffer_slots (vis e)). lia.
    + rewrite Ef'. done.
    + rewrite Ef'. intros c [= <-]. change (1 <= Z.min (vb_slots b) (buffer_slots (vis e)) <= vb_slots b). lia.
    + rewrite Enext. done.
    + rewrite Enext. done.
  - destruct B. rewrite Hf in *. split; rewrite ?Ef'; try done.
    intros i c s Hc Hi. simpl in Hi. lia.
  - eapply (span_inv_ext F T failed e); try done. rewrite Hf. done.
Qed.

Lemma install_grown_spec F T failed coh fl e b :
  count_inv e -> buf_inv F coh fl [b] e -> span_inv F T failed e -> frame e <> [] ->
  capacity (vis e) <= next (vis e) -> capacity (vis e) < Z.min (vb_slots b) (buffer_slots (vis e)) ->
  let e' := set_vis e (snd (VisState.install_grown_buffer (vis e) b)) in
  count_inv e' /\ buf_inv F coh fl [] e' /\ span_inv F T failed e' /\ keeps e e' /\ next (vis e') < capacity (vis e').
Proof.
  intros C B S Hf Hfull Hb e'. pose proof C as []. pose proof B as B0.
  destruct (frame e) as [|old l _] eqn:Efr using rev_ind; [done|]. clear Hf.
  assert (Efv : frame_buffers (vis e) = l ++ [old]) by exact Efr.
  destruct (VisibilityBufferPool.give_back (pool (vis e)) old) as [ev p] eqn:Egb.
  assert (Evis : vis e' = VisState.set_pool (VisState.set_alloc (VisState.set_buffers (vis e) (l ++ [b]) (peak_slots (vis e)))
   (next (vis e)) (Z.min (vb_slots b) (buffer_slots (vis e))) (exhausted_this_frame (vis e))) p).
  { unfold e', VisState.install_grown_buffer. cbn [vis set_vis]. rewrite Efv, last_snoc, removelast_last.
    cbn [pool VisState.set_alloc VisState.set_buffers]. by rewrite Egb. }
  unfold VisibilityBufferPool.give_back in Egb. apply trim_free_spec in Egb as [Er [out Ho]]. simpl in Er, Ho.
  assert (Ef' : frame e' = l ++ [b]) by (unfold frame; by rewrite Evis).
  assert (Er' : retired e' = retired e) by (unfold retired; rewrite Evis; exact Er).
  assert (Efree : exists out, free e' ++ out ≡ₚ old :: free e).
  { exists out. unfold free. rewrite Evis. simpl. rewrite Ho. fold (free e). solve_Permutation. }
  assert (Hfree : forall c, c ∈ free e' -> c = old \/ c ∈ free e).
  { intros c Hc. destruct Efree as [o E]. assert (Hin : c ∈ old :: free e) by (rewrite <- E; apply elem_of_app; by left).
    by apply elem_of_cons. }
  assert (Eidx : idx e' = idx e).
  { unfold idx, VisState.current_buffer_index. fold (frame e') (frame e). rewrite Ef', Efr, !length_app. done. }
  assert (Hold : old ∈ frame e) by (rewrite Efr; apply elem_of_app; right; left).
  assert (Ecaps : capacity (vis e') = Z.min (vb_slots b) (buffer_slots (vis e)) /\ buffer_slots (vis e') = buffer_slots (vis e)
 /\ next (vis e') = next (vis e)) by (rewrite Evis; done).
  destruct Ecaps as (Ecap & Ebs & Enext). destruct c_next0 as [? ?].
  split; [|split; [|split; [|split]]].
  - split; rewrite ?Eidx, ?Ebs, ?Ecap, ?Enext; try done.
    + lia.
    + rewrite Ef'. by destruct l.
    + rewrite Ef', last_snoc. intros c [= <-]. specialize (c_last0 old). rewrite last_snoc in c_last0.
      specialize (c_last0 eq_refl). lia.
  - destruct B. split; rewrite ?Er', ?Ef', ?app_nil_l; try done.
    + destruct Efree as [o E].
      assert (Hnd : NoDup ((vb_id <$> (l ++ [b]) ++ retired e ++ free e') ++ (vb_id <$> o))).
      { eapply NoDup_Permutation_proper; [|exact b_ids0]. rewrite <- fmap_app. apply fmap_Permutation.
        rewrite Efr. transitivity ((l ++ [b]) ++ retired e ++ (free e' ++ o)); [solve_Permutation|]. rewrite E. solve_Permutation. }
      by apply NoDup_app in Hnd as [? _].
    + intros c Hc. apply b_old0. rewrite Efr. rewrite !elem_of_app, !list_elem_of_singleton in *.
      destruct Hc as [[?|?]|[?|Hc]]; auto. destruct (Hfree c Hc); auto.
    + intros c Hc. apply b_slots0. rewrite Efr. rewrite !elem_of_app, !list_elem_of_singleton in *.
      destruct Hc as [[?|?]|[?|Hc]]; auto. destruct (Hfree c Hc); auto.
    + intros c s. rewrite app_nil_r. intros Hc. apply (b_frame0 c s). rewrite Efr. rewrite !elem_of_app, !list_elem_of_singleton in *. tauto.
    + intros i c s Hc Hlen. rewrite length_app in Hlen. simpl in Hlen. rewrite lookup_app_l in Hc by lia.
      apply (b_full0 i c s); rewrite Efr; [by apply lookup_app_l_Some|rewrite length_app; simpl; lia].
    + intros c s Hc Hr. change (mem e' (vb_id c) s) with (mem e (vb_id c) s). destruct (Hfree c Hc) as [->|Hc']; [|by apply b_free0].
      apply b_frame0. apply elem_of_app. by left.
  - eapply (span_inv_ext F T failed e); try done; try (by rewrite Evis).
    intros i c. rewrite Ef', Efr. intros Hc. apply lookup_snoc_Some in Hc as [[Hi Hc]|[-> ->]].
    + exists c. split; [by apply lookup_app_l_Some|]. left. lia.
    + exists b. split; [by rewrite list_lookup_middle|]. right. split; [|lia]. unfold idx, VisState.current_buffer_index.
      fold (frame e). rewrite Efr, length_app. simpl. lia.
  - split; try done; by rewrite Evis.
  - lia.
Qed.

(** ** Cutting the open spans *)

Lemma filter_segment_of (mk : Z -> PendingSegment) q g (l : list Z) :
  NoDup l -> (forall x, core (mk x) = x) -> (q ∈ l -> seg_generation (mk q) = g) ->
  filter (mine q g) (mk <$> l) = if decide (q ∈ l) then [mk q] else [].
Proof.
  intros Hnd Hc. induction Hnd as [|x l Hx Hnd IH]; intros Hg; [done|].
  rewrite fmap_cons, filter_cons. destruct (decide (mine q g (mk x))) as [[H1 _]|Hn].
  - rewrite Hc in H1. subst x. rewrite IH by done. rewrite (decide_False (P := q ∈ l)) by done.
    by rewrite decide_True by left.
  - assert (Hne : q <> x) by (intros ->; apply Hn; split; [apply Hc|by apply Hg; left]).
    rewrite IH by (intros; apply Hg; by right). destruct (decide (q ∈ l)) as [Hi|Hi].
    + by rewrite decide_True by (by right).
    + by rewrite decide_False by (rewrite elem_of_cons; tauto).
Qed.

Lemma on_cores_lookup f qs (cs : Cores) q :
  NoDup qs -> on_cores f qs cs !! q = if decide (q ∈ qs) then f <$> cs !! q else cs !! q.
Proof.
  intros Hnd. revert cs. unfold on_cores. induction Hnd as [|x l Hx Hnd IH]; intros cs; simpl; [done|].
  rewrite IH. destruct (decide (q = x)) as [->|Hne].
  - rewrite decide_False by done. rewrite decide_True by left. by rewrite lookup_alter_eq.
  - rewrite lookup_alter_ne by done. destruct (decide (q ∈ l)) as [Hi|Hi].
    + by rewrite decide_True by (by right).
    + by rewrite decide_False by (rewrite elem_of_cons; tauto).
Qed.

Lemma generation_of_Some (cs : Cores) q m : cs !! q = Some m -> generation_of cs q = issue_generation m.
Proof. unfold generation_of. by intros ->. Qed.

Lemma offset_of_Some (cs : Cores) q m : cs !! q = Some m -> offset_of cs q = offset_begin m.
Proof. unfold offset_of. by intros ->. Qed.

(** Every open span gets a segment up to the high-water mark, and counts on
from an offset where nothing has counted yet. *)
Record cut (F F' : Z -> list Pass) (e e' : Encoder) (off : Z) : Prop := {
  cut_cores : cores e' = on_cores (QueryCore.resume (cur e') off) (active (vis e)) (cores e);
  cut_pending : pending (vis e') = pending (vis e) ++ VisState.open_segments (vis e) (cores e) (cur e);
  cut_active : active (vis e') = active (vis e);
  cut_draws : draws_seen (vis e') = draws_seen (vis e);
  cut_off : 0 <= off <= next (vis e');
  cut_seg : forall g, submit_seq g <= cur e -> segval F' e' g = segval F e g;
  cut_empty : seg (here e') (idx e') off (next (vis e')) = 0;
}.

Lemma cut_lookup F F' e e' off q m : cut F F' e e' off -> NoDup (active (vis e)) -> cores e !! q = Some m ->
  cores e' !! q = Some (if decide (q ∈ active (vis e)) then QueryCore.resume (cur e') off m else m).
Proof. intros [] Hnd Hm. rewrite cut_cores0, on_cores_lookup, Hm by done. by destruct (decide _). Qed.

Lemma cut_lookup_None F F' e e' off q : cut F F' e e' off -> NoDup (active (vis e)) ->
  cores e !! q = None -> cores e' !! q = None.
Proof. intros [] Hnd Hm. rewrite cut_cores0, on_cores_lookup, Hm by done. by destruct (decide _). Qed.

Lemma cut_back F F' e e' off q m' : cut F F' e e' off -> NoDup (active (vis e)) -> cores e' !! q = Some m' ->
  exists m, cores e !! q = Some m /\ m' = if decide (q ∈ active (vis e)) then QueryCore.resume (cur e') off m else m.
Proof.
  intros C Hnd Hm. destruct (cores e !! q) as [m|] eqn:E.
  - rewrite (cut_lookup _ _ _ _ _ _ _ C Hnd E) in Hm. injection Hm as <-. eauto.
  - rewrite (cut_lookup_None _ _ _ _ _ _ C Hnd E) in Hm. done.
Qed.

Lemma cut_query F F' T failed e e' off q s :
  cut F F' e e' off -> span_inv F T failed e -> T !! q = Some s ->
  exists m, cores e' !! q = Some m /\ query_inv F' failed e' q m s.
Proof.
  intros C S Hs. pose proof C as []. destruct S. destruct (si_query0 q s Hs) as (m & Hm & Q).
  eexists. split; [by eapply cut_lookup|]. pose proof Q as [[Hg1 Hg2] ?].
  assert (waiting F' e' q (sp_gen s) = waiting F e q (sp_gen s)
 + (if decide (q ∈ active (vis e)) then seg (here e) (idx e) (offset_begin m) (next (vis e)) else 0)
   /\ own e' q (sp_gen s) = own e q (sp_gen s) ++ (if decide (q ∈ active (vis e)) then
 [mkSegment (cur e) (idx e) q (sp_gen s) (offset_begin m, next (vis e)) false] else [])) as [Hw Ho].
   { assert (Ho : own e' q (sp_gen s) = own e q (sp_gen s) ++ (if decide (q ∈ active (vis e)) then
 [mkSegment (cur e) (idx e) q (sp_gen s) (offset_begin m, next (vis e)) false] else [])).
     { unfold own. rewrite cut_pending0, filter_app. f_equal. unfold VisState.open_segments.
       rewrite (filter_segment_of _ q (sp_gen s)); [|done|done|].
       2:{ intros _. simpl. by rewrite (generation_of_Some _ _ _ Hm). }
       destruct (decide _); [|done]. by rewrite (generation_of_Some _ _ _ Hm), (offset_of_Some _ _ _ Hm), Hg1. }
     split; [|done]. unfold waiting. rewrite Ho, fmap_app, zsum_app.
     assert (E : segval F' e' <$> own e q (sp_gen s) = segval F e <$> own e q (sp_gen s)).
     { apply list_fmap_ext. intros i g Hgi. apply cut_seg0. apply list_elem_of_lookup_2, list_elem_of_filter in Hgi as [_ Hgi].
       apply (pe_seq _ _ (si_pending0 g Hgi)). }
     rewrite E. f_equal. destruct (decide _); [|done]. simpl. unfold zsum. cbn [foldr]. rewrite Z.add_0_r.
     rewrite cut_seg0 by (simpl; lia). unfold segval, frame_passes. cbn [submit_seq buffer span fst snd].
     by rewrite Z.eqb_refl. }
   assert (Hopen : open_part e m s = if decide (q ∈ active (vis e)) then seg (here e) (idx e) (offset_begin m) (next (vis e)) else 0).
   { unfold open_part. destruct (decide _) as [Ha|Ha]; [by rewrite (proj1 qi_open0 Ha)|].
     destruct (sp_open s); [|done]. exfalso. by apply Ha, qi_open0. }
   set (m' := if decide _ then _ else _).
   assert (Hf : issue_generation m' = issue_generation m /\ carried m' = carried m /\ uncounted m' = uncounted m
 /\ result_generation m' = result_generation m /\ draws_at_begin m' = draws_at_begin m /\ draws_in_span m' = draws_in_span m
 /\ logical_area m' = logical_area m /\ render_area m' = render_area m /\ accumulated m' = accumulated m)
   by (unfold m'; by destruct (decide _)).
   destruct Hf as (F1 & F2 & F3 & F4 & F5 & F6 & F7 & F8 & F9).
   assert (Hopen' : open_part e' m' s = 0).
   { unfold open_part. destruct (sp_open s) eqn:Eo; [|done]. unfold m'. rewrite decide_True by (by apply qi_open0). done. }
   split; rewrite ?F1, ?F2, ?F3, ?F4, ?F5, ?F6, ?F7, ?F8, ?F9, ?cut_draws0, ?cut_active0; try done.
  - intros Eo. unfold m'. rewrite decide_True by (by apply qi_open0). done.
  - intros Hd. destruct (qi_done0 Hd) as (Eo & Ha & Hown). split; [done|]. split; [done|].
    rewrite Ho, Hown, decide_False; [done|]. intros Hin. apply qi_open0 in Hin. congruence.
  - intros Hd. destruct (qi_wait0 Hd) as (Hc & Hle & Heq). rewrite Hw, Hopen', Ho. rewrite Hopen in *.
    split; [|split; [lia|intros; specialize (Heq ltac:(done)); lia]].
    destruct (sp_open s) eqn:Eo; simpl in *.
    + apply Forall_app. split; [done|]. destruct (decide _); [by apply Forall_singleton|done].
    + rewrite decide_False by (intros Hin; apply qi_open0 in Hin; congruence). by rewrite app_nil_r.
Qed.

Lemma cut_sorted F F' T failed e e' off :
  cut F F' e e' off -> span_inv F T failed e -> StronglySorted Z.le (submit_seq <$> pending (vis e')).
Proof.
  intros [] []. rewrite cut_pending0, fmap_app.
  assert (Hin : forall g, g ∈ pending (vis e) -> submit_seq g <= cur e) by (intros g Hg; apply (pe_seq _ _ (si_pending0 g Hg))).
  clear -si_sorted0 Hin. induction (pending (vis e)) as [|g l IH]; simpl.
  - unfold VisState.open_segments. induction (active (vis e)); simpl; constructor; [done|].
    apply Forall_fmap, Forall_fmap, Forall_forall. intros; simpl; lia.
  - simpl in si_sorted0. inversion si_sorted0 as [|? ? H1 H2]; subst. constructor.
    + apply IH; [done|]. intros; apply Hin; by right.
    + apply Forall_app. split; [done|]. apply Forall_fmap, Forall_fmap, Forall_forall. intros; simpl. apply Hin. left.
Qed.

Lemma cut_counted F F' e e' off q m' :
  cut F F' e e' off -> NoDup (active (vis e)) -> counted e' q m' -> exists m, counted e q m.
Proof.
  intros C Hnd (Ha & Hm & Hu). destruct (cut_back _ _ _ _ _ _ _ C Hnd Hm) as (m & Hm0 & ->).
  exists m. rewrite (cut_active _ _ _ _ _ C) in Ha. split; [done|]. split; [done|]. by destruct (decide _).
Qed.

(** The generations of the segments stay those of spans already issued. *)
Lemma cut_gen F F' T failed e e' off g :
  cut F F' e e' off -> span_inv F T failed e -> g ∈ pending (vis e') ->
  submit_seq g <= cur e /\ (0 <= fst (span g) /\ 0 <= buffer g)
  /\ (exists m, cores e' !! core g = Some m /\ 1 <= seg_generation g <= issue_generation m)
  /\ (g ∈ pending (vis e) \/ submit_seq g = cur e /\ buffer g = idx e /\ snd (span g) = next (vis e)).
Proof.
  intros C S Hg. rewrite (cut_pending _ _ _ _ _ C) in Hg. apply elem_of_app in Hg as [Hg|Hg].
  - destruct (si_pending _ _ _ _ S g Hg). split; [done|]. split; [done|]. split; [|by left].
    destruct pe_gen0 as (m & Hm & Hr). eexists. split; [eapply cut_lookup; [done|apply S|done]|]. by destruct (decide _).
  - apply list_elem_of_fmap in Hg as (q & -> & Hq). destruct (si_active _ _ _ _ S q Hq) as [s Hs].
    destruct (si_query _ _ _ _ S q s Hs) as (m & Hm & Q). cbn [submit_seq buffer core seg_generation span fst snd].
    rewrite (offset_of_Some _ _ _ Hm), (generation_of_Some _ _ _ Hm). destruct Q.
    specialize (qi_offset0 (proj1 qi_open0 Hq)). split; [lia|].
    split; [split; [lia|unfold VisState.current_buffer_index; lia]|]. split; [|by right].
    eexists. split; [eapply cut_lookup; [done|apply S|done]|]. destruct qi_gen0. destruct (decide _); simpl; lia.
Qed.

(** ** Spilling into the next buffer *)

Lemma closed_latch s : current_pass_closed s = true -> PassOps.current_pass_has_counting_visibility s = false.
Proof. unfold PassOps.current_pass_has_counting_visibility. by intros ->. Qed.

Lemma end_pass_latch s : PassOps.current_pass_has_counting_visibility (PassOps.end_current_pass s) = false.
Proof. unfold PassOps.end_current_pass, PassOps.current_pass_has_counting_visibility. destruct (passes s) eqn:E; [rewrite E|done].
  by destruct (current_pass_closed s). Qed.

Lemma break_latch s : PassOps.current_pass_has_counting_visibility (PassOps.break_for_visibility_buffer s) = false.
Proof.
  pose proof (end_pass_latch s) as H. unfold PassOps.break_for_visibility_buffer.
  unfold PassOps.current_pass_has_counting_visibility in *. by simpl.
Qed.

Section Spill.
Context (F : Z -> list Pass) (T : gmap Z Span) (failed : bool) (coh : Z) (fl : list Submission)
  (e : Encoder) (b : RetiredVisibilityBuffer).
Context (C : count_inv e) (B : buf_inv F coh fl [b] e) (S : span_inv F T failed e).
Context (Hf : frame e <> []) (Hb : 1 <= vb_slots b) (Hx : exhausted_this_frame (vis e) = false).

Let e' := spill_visibility_buffer e b.

Lemma spill_frame : exists l old, frame e = l ++ [old] /\ frame e' = (l ++ [set_reserved old (next (vis e))]) ++ [b].
Proof.
  destruct (frame e) as [|old l _] eqn:E using rev_ind; [done|]. exists l, old. split; [done|].
  unfold frame, e', spill_visibility_buffer, VisState.spill_into in *. cbn. by rewrite E, last_snoc, removelast_last.
Qed.

Lemma spill_idx : idx e' = idx e + 1 /\ idx e = Z.of_nat (length (frame e)) - 1.
Proof.
  destruct spill_frame as (l & old & E & E'). unfold idx, VisState.current_buffer_index. fold (frame e') (frame e).
  rewrite E, E', !length_app. simpl. lia.
Qed.

Lemma spill_passes : passes (pass_state e') = passes (pass_state e) /\ pass_mode (pass_state e') = None
  /\ visibility_buffer (pass_state e') = visibility_buffer (pass_state e) + 1 /\ pass_ok (pass_state e').
Proof.
  assert (H0 : 0 <= visibility_buffer (pass_state e)) by (rewrite (c_vbuf _ C); unfold idx, VisState.current_buffer_index; lia).
  by destruct (break_spec (pass_state e) (c_pass _ C) H0) as (? & ? & ? & ?).
Qed.

Lemma spill_fields : cur e' = cur e /\ retired e' = retired e /\ free e' = free e /\ mem e' = mem e
  /\ next (vis e') = 0 /\ capacity (vis e') = Z.min (vb_slots b) (buffer_slots (vis e))
  /\ buffer_slots (vis e') = buffer_slots (vis e) /\ exhausted_this_frame (vis e') = exhausted_this_frame (vis e)
  /\ next_backing e' = next_backing e.
Proof. done. Qed.

Lemma spill_cut : cut F F e e' 0.
Proof.
  destruct spill_passes as (Ep & _). split; try done.
  intros g Hg. unfold segval, frame_passes. change (cur e') with (cur e). by rewrite Ep.
Qed.

Lemma spill_count : count_inv e'.
Proof.
  destruct spill_passes as (Ep & Em & Ev & Ho). destruct spill_idx as [Ei Ei']. destruct spill_frame as (l & old & E & E').
  pose proof C as []. split; unfold here in *; rewrite ?Ep, ?Ei, ?Em; try done.
  - rewrite Ev. lia.
  - change (0 <= 0 <= Z.min (vb_slots b) (buffer_slots (vis e)) /\ Z.min (vb_slots b) (buffer_slots (vis e)) <= buffer_slots (vis e)). lia.
  - rewrite E'. intros [_ ?]%app_nil. done.
  - rewrite E', last_snoc. intros ? [= <-].
    change (1 <= Z.min (vb_slots b) (buffer_slots (vis e)) <= vb_slots b). lia.
  - intros s _. apply c_later0. lia.
  - intros c s Hc. apply c_later0. lia.
Qed.

Lemma spill_buf : buf_inv F coh fl [] e'.
Proof.
  destruct spill_passes as (Ep & _). destruct spill_idx as [Ei Ei']. destruct spill_frame as (l & old & E & E').
  destruct spill_fields as (Ecur & Er & Efr & Em & En & _ & _ & _ & Enb).
  destruct C as []. destruct B. specialize (c_last0 old). rewrite E, last_snoc in c_last0. specialize (c_last0 eq_refl).
  assert (Hin : forall c, c ∈ frame e' ++ [] ++ retired e ++ free e ->
 c = set_reserved old (next (vis e)) \/ c ∈ frame e ++ [b] ++ retired e ++ free e).
  { intros c. rewrite E', E, !elem_of_app, !list_elem_of_singleton. intuition (subst; auto). by apply elem_of_nil in H. }
  assert (Hold : old ∈ frame e) by (rewrite E; apply elem_of_app; right; left).
  assert (Hold' : old ∈ frame e ++ [b] ++ retired e ++ free e) by (apply elem_of_app; by left).
  split; rewrite ?Er, ?Efr, ?Em, ?Enb, ?Ecur; try done.
  - eapply NoDup_Permutation_proper; [|exact b_ids0]. rewrite E', E, !fmap_app. simpl. rewrite <- !app_assoc. done.
  - intros c Hc. destruct (Hin c Hc) as [->|Hc']; [simpl; by apply b_old0|by apply b_old0].
  - intros c Hc. destruct (Hin c Hc) as [->|Hc']; [simpl|by apply b_slots0]. destruct c_next0. lia.
  - intros c s. rewrite app_nil_r, E', !elem_of_app, !list_elem_of_singleton. intros [[Hc| ->]| ->].
    + apply b_frame0. rewrite E, !elem_of_app. auto.
    + simpl. apply b_frame0. rewrite elem_of_app. by left.
    + apply b_frame0. rewrite elem_of_app, list_elem_of_singleton. by right.
  - intros i c s Hc Hi. unfold here. rewrite Ep. fold (here e). rewrite E' in Hc, Hi.
    rewrite !length_app in Hi; simpl in Hi. rewrite lookup_app_l in Hc by (rewrite length_app; simpl; lia).
    apply lookup_snoc_Some in Hc as [[Hl Hc]|[-> <-]].
    + apply b_full0; rewrite E; [by apply lookup_app_l_Some|rewrite length_app; simpl; lia].
    + simpl. intros Hs. replace (Z.of_nat (length l)) with (idx e); [by apply c_high0|].
      rewrite Ei', E, length_app. simpl. lia.
Qed.

Lemma spill_span : span_inv F T failed e'.
Proof.
  destruct spill_passes as (Ep & Em & _). destruct spill_idx as [Ei Ei']. destruct spill_frame as (l & old & E & E').
  destruct spill_fields as (Ecur & Er & _). pose proof spill_cut as K. pose proof S as [].
  assert (Hlast : forall c, last (frame e) = Some c -> 1 <= capacity (vis e) <= vb_slots c) by apply C.
  specialize (Hlast old). rewrite E, last_snoc in Hlast. specialize (Hlast eq_refl).
  split.
  - by rewrite (cut_active _ _ _ _ _ K).
  - by rewrite (cut_active _ _ _ _ _ K).
  - intros q s Hs. by eapply cut_query.
  - intros q m' Hm HT. destruct (cut_back _ _ _ _ _ _ _ K si_nodup0 Hm) as (m & Hm0 & ->).
    destruct (si_fresh0 q m Hm0 HT). by destruct (decide _).
  - intros g Hg. destruct (cut_gen _ _ _ _ _ _ _ _ K S Hg) as (H1 & H2 & H3 & Hcase). split; rewrite ?Ecur, ?Er; try done.
    + intros Hs Hlt. destruct Hcase as [Hold|(_ & Eb & En)].
      * destruct (pe_here _ _ (si_pending0 g Hold) Hs Hlt) as (c & Hc & Hsl & Hn). rewrite E in Hc.
        apply lookup_snoc_Some in Hc as [[Hl Hc]|[Hl <-]].
        -- exists c. split; [rewrite E'; by do 2 apply lookup_app_l_Some|]. split; [done|]. rewrite Ei, Ei', E, length_app. simpl. lia.
        -- exists (set_reserved old (next (vis e))). split.
 ++ rewrite E'. apply lookup_app_l_Some. rewrite Hl. by rewrite list_lookup_middle.
 ++ split; [done|]. rewrite Ei, Ei', E, length_app. simpl. lia.
      * exists (set_reserved old (next (vis e))). rewrite Eb, Ei', E, length_app. simpl. split.
        -- rewrite E'. replace (Z.to_nat _) with (length l) by lia. apply lookup_app_l_Some. by rewrite list_lookup_middle.
        -- rewrite Ei, Ei', E, length_app. simpl. destruct (c_next _ C). lia.
    + intros Hs Hlt. destruct Hcase as [Hold|(Es & _)]; [|lia]. apply (pe_there _ _ (si_pending0 g Hold) Hs Hlt).
  - by eapply cut_sorted.
  - rewrite Em. done.
  - intros Hl. exfalso. revert Hl. unfold e', spill_visibility_buffer. simpl. by rewrite break_latch.
  - change (exhausted_this_frame (vis e')) with (exhausted_this_frame (vis e)). by rewrite Hx.
Qed.

Lemma spill_spec :
  count_inv e' /\ buf_inv F coh fl [] e' /\ span_inv F T failed e' /\ keeps e e' /\ next (vis e') < capacity (vis e').
Proof.
  split; [apply spill_count|]. split; [apply spill_buf|]. split; [apply spill_span|].
  destruct spill_passes as (Ep & _). split; [split; try done|].
  - unfold here. by rewrite Ep.
  - change (0 < Z.min (vb_slots b) (buffer_slots (vis e))). pose proof (c_slots _ C). lia.
Qed.
End Spill.

(** ** Reserving a slot *)

Lemma query_inv_mono F failed failed' e q m s :
  (failed = true -> failed' = true) -> query_inv F failed e q m s -> query_inv F failed' e q m s.
Proof.
  intros Hf []. split; try done; [auto|]. intros Hd. destruct (qi_done0 Hd) as (? & Ha & ?). split; [done|]. split; [|done].
  destruct Ha as [?|(? & ? & ?)]; [by left|right; auto].
Qed.

Lemma span_inv_mono F T failed failed' e :
  (failed = true -> failed' = true) -> span_inv F T failed e -> span_inv F T failed' e.
Proof.
  intros Hf []. split; try done.
  - intros q s Hs. destruct (si_query0 q s Hs) as (m & Hm & Q). exists m. split; [done|]. by eapply query_inv_mono.
  - intros Hx. destruct (si_exhausted0 Hx). auto.
Qed.

Lemma bump_spec F T failed coh fl e :
  count_inv e -> buf_inv F coh fl [] e -> span_inv F T failed e -> next (vis e) < capacity (vis e) ->
  let e' := set_vis e (snd (VisState.bump_slot (vis e))) in
  fst (VisState.bump_slot (vis e)) = Some (next (vis e))
  /\ count_inv e' /\ buf_inv F coh fl [] e' /\ span_inv F T failed e' /\ keeps e e'
  /\ next (vis e') = next (vis e) + 1 /\ idx e' = idx e.
Proof.
  intros C B S Hn. unfold VisState.bump_slot. rewrite (proj2 (Z.leb_gt _ _)) by done. cbn [fst snd].
  set (e' := set_vis e _). assert (En : next (vis e') = next (vis e) + 1) by done.
  split; [done|]. split; [|split; [|split; [|split; [done|done]]]].
  - destruct C. split; try done; rewrite ?En.
    + change (capacity (vis e')) with (capacity (vis e)). change (buffer_slots (vis e')) with (buffer_slots (vis e)). lia.
    + intros H. exfalso. destruct (c_empty0 H). lia.
    + intros s Hs. apply (c_high0 s). lia.
    + intros t Ht. specialize (c_mode0 t Ht). lia.
  - by destruct B.
  - assert (Hseg : forall m s, sp_open s = true -> 0 <= offset_begin m <= next (vis e) -> open_part e' m s = open_part e m s).
    { intros m s Ho Hoff. unfold open_part. rewrite Ho, En. change (here e') with (here e). change (idx e') with (idx e).
      rewrite seg_snoc by lia. rewrite (c_high _ C) by lia. lia. }
    assert (Hopen : forall m s, (sp_open s = true -> 0 <= offset_begin m <= next (vis e)) -> open_part e' m s = open_part e m s).
    { intros m s Hoff. destruct (sp_open s) eqn:Ho; [apply Hseg; auto|]. unfold open_part. by rewrite Ho. }
    destruct S. split; try done.
    + intros q s Hs. destruct (si_query0 q s Hs) as (m & Hm & []). exists m. split; [done|]. split; try done.
      * intros Ho. specialize (qi_offset0 Ho). lia.
      * intros Hd. rewrite Hopen by done. exact (qi_wait0 Hd).
    + intros g Hg. destruct (si_pending0 g Hg). split; try done. intros Hs Hlt.
      destruct (pe_here0 Hs Hlt) as (b & ? & ? & Hi). exists b. split; [done|]. split; [done|]. intros Hi'.
      specialize (Hi Hi'). lia.
Qed.

Lemma exhaust_spec F T failed coh fl e v c :
  count_inv e -> buf_inv F coh fl [] e -> span_inv F T failed e ->
  VisState.mark_exhausted (vis e) (cores e) = (v, c) ->
  let e' := set_cores e v c in
  count_inv e' /\ buf_inv F coh fl [] e' /\ span_inv F T true e' /\ active v = active (vis e)
  /\ draws_seen v = draws_seen (vis e) /\ exhausted_this_frame v = true
  /\ here e' = here e /\ idx e' = idx e /\ next v = next (vis e).
Proof.
  intros C B S. unfold VisState.mark_exhausted. intros [= <- <-]. split; [by destruct C|]. split; [by destruct B|].
  split; [|done]. set (e' := set_cores e _ _).
  assert (Hc : forall q, cores e' !! q = if decide (q ∈ active (vis e)) then QueryCore.mark_uncounted <$> cores e !! q else cores e !! q)
  by (intros; apply on_cores_lookup, (si_nodup _ _ _ _ S)).
  assert (Hno : forall q m, ~ counted e' q m).
  { intros q m (Ha & Hm & Hu). change (active (vis e')) with (active (vis e)) in Ha. rewrite Hc, decide_True in Hm by done.
    destruct (cores e !! q); [|done]. simplify_eq/=. }
  destruct S. split; try done.
  - intros q s Hs. destruct (si_query0 q s Hs) as (m & Hm & []).
    exists (if decide (q ∈ active (vis e)) then QueryCore.mark_uncounted m else m). rewrite Hc, Hm.
    split; [by destruct (decide _)|]. destruct (decide _) as [Ha|Ha].
    + split; try done.
      * intros Hd. destruct (qi_done0 Hd) as (Ho & _). apply qi_open0 in Ha. congruence.
      * intros Hd. destruct (qi_wait0 Hd) as (? & ? & _). split; [done|]. split; [done|]. done.
    + split; try done. intros Hd. destruct (qi_done0 Hd) as (Ho & Hans & ?). split; [done|]. split; [|done].
      destruct Hans as [?|(? & ? & ?)]; [by left|by right].
  - intros q m. rewrite Hc. intros Hm HT. destruct (decide _) as [Ha|Ha]; [|by apply (si_fresh0 q)].
    destruct (si_active0 q Ha). congruence.
  - intros g Hg. destruct (si_pending0 g Hg) as [? ? (m & Hm & ?) ? ?]. split; try done. rewrite Hc, Hm.
    destruct (decide _); simpl; eauto.
  - intros t Ht. destruct (si_mode0 t Ht) as [_ H2]. split; [|done]. intros q m Hq. by destruct (Hno q m).
  - intros _ q m Hq. by destruct (Hno q m).
Qed.

(** What a reserved slot is: past everything counted so far. *)
Record reserved_slot (e : Encoder) (s : Z) : Prop := {
  rs_next : next (vis e) = s + 1;
  rs_nonneg : 0 <= s;
  rs_live : exhausted_this_frame (vis e) = false;
  rs_zero : here e (idx e) s = 0;
  rs_mode : forall t, pass_mode (pass_state e) = Some t -> t < s;
  rs_offsets : forall q m, q ∈ active (vis e) -> cores e !! q = Some m -> offset_begin m <= s;
  rs_pending : forall g, g ∈ pending (vis e) -> submit_seq g = cur e -> buffer g = idx e -> fst (span g) < snd (span g) ->
 snd (span g) <= s;
}.

Lemma buffer_need_first_pos e : count_inv e -> 1 <= VisState.first_buffer_slots (vis e).
Proof.
  intros C. destruct (c_slots _ C). unfold VisState.first_buffer_slots, MIN_BUFFER_SLOTS.
  set (r := default _ _). clearbody r. destruct (r <? 2048) eqn:E; [lia|]. apply Z.ltb_ge in E. destruct (_ <? r); lia.
Qed.

(** Providing room for one more slot. *)
Lemma provided_spec F T failed coh fl e ok p :
  inv F T failed coh fl e -> exhausted_this_frame (vis e) = false ->
  match VisState.buffer_need (vis e) with
  | Ready => Some e
  | First slots =>
    '(b, e) ← provide_visibility_buffer e ok slots; Some (set_vis e (VisState.install_first_buffer (vis e) b))
  | Grow slots =>
    '(b, e) ← provide_visibility_buffer e ok slots; Some (set_vis e (snd (VisState.install_grown_buffer (vis e) b)))
  | Spill slots =>
    '(b, e) ← provide_visibility_buffer e ok slots; Some (spill_visibility_buffer e b)
  end = p ->
  match p with
  | Some e' => count_inv e' /\ buf_inv F coh fl [] e' /\ span_inv F T failed e' /\ keeps e e' /\ next (vis e') < capacity (vis e')
  | None => ok = false
  end.
Proof.
  intros [C B S] Hx. unfold VisState.buffer_need.
  assert (Hnone : forall slots, provide_visibility_buffer e ok slots = None -> ok = false).
  { intros slots. unfold provide_visibility_buffer. destruct (VisState.try_acquire_reusable _ _ _) as [[[] ?]|]; [done|]. by destruct ok. }
  assert (Hprov : forall slots b e1, 1 <= slots -> provide_visibility_buffer e ok slots = Some (b, e1) ->
 slots <= vb_slots b /\ buf_inv F coh fl [b] e1 /\ count_inv e1 /\ span_inv F T failed e1 /\ keeps e e1
 /\ exists p, vis e1 = VisState.set_pool (vis e) p).
  { intros slots b e1 Hs Hp. destruct (provide_spec F coh fl e ok slots b e1 B ltac:(lia) Hp) as (H1 & H2 & H3 & H4 & H5 & H6 & q & H7).
    split; [done|]. split; [done|]. split; [by eapply count_inv_pool|]. split; [by eapply span_inv_pool|].
    split; [|by exists q]. split; unfold here; rewrite ?H7, ?H4; done. }
  assert (Htrans : forall e1 e2, keeps e e1 -> keeps e1 e2 -> keeps e e2)
  by (intros e1 e2 [] []; split; congruence).
  fold (frame e). destruct (frame e) as [|b0 l0] eqn:Ef; [|destruct (next (vis e) <? capacity (vis e)) eqn:En;
  [|destruct (capacity (vis e) <? buffer_slots (vis e)) eqn:Ec]]; reflect_cmp; intros <-.
  - destruct (provide_visibility_buffer e ok _) as [[b e1]|] eqn:Ep; [|by eapply Hnone]. simpl.
    pose proof (buffer_need_first_pos e C).
    destruct (Hprov _ _ _ ltac:(done) Ep) as (H1 & H2 & H3 & H4 & H5 & p & H6).
    destruct (install_first_spec F T failed coh fl e1 b H3 H2 H4) as (? & ? & ? & ? & ?); [by unfold frame; rewrite H6|lia|].
    split_and!; eauto.
  - split_and!; try done.
  - destruct (provide_visibility_buffer e ok _) as [[b e1]|] eqn:Ep; [|by eapply Hnone]. simpl.
    destruct (c_slots _ C). pose proof (c_last _ C) as Hl. rewrite Ef in Hl. destruct (last_is_Some (b0 :: l0)) as [_ Hlast].
    destruct (Hlast ltac:(done)) as [bl Hbl]. specialize (Hl bl Hbl).
    assert (Hslots : capacity (vis e) < (if (capacity (vis e) *| 2)%u32 <? buffer_slots (vis e) then (capacity (vis e) *| 2)%u32 else buffer_slots (vis e))).
    { unfold sat, u32_max in *. destruct (_ <? buffer_slots (vis e)) eqn:E; reflect_cmp; lia. }
    destruct ((λ H, Hprov _ _ _ H Ep) ltac:(lia)) as (H1 & H2 & H3 & H4 & H5 & p & H6).
    destruct (install_grown_spec F T failed coh fl e1 b H3 H2 H4) as (? & ? & ? & ? & ?).
    + unfold frame. rewrite H6. simpl. fold (frame e). by rewrite Ef.
    + by rewrite H6.
    + rewrite H6. simpl. destruct (_ <? _) in H1, Hslots; lia.
    + split_and!; eauto.
  - destruct (provide_visibility_buffer e ok _) as [[b e1]|] eqn:Ep; [|by eapply Hnone]. simpl.
    destruct (c_slots _ C). destruct ((λ H, Hprov _ _ _ H Ep) ltac:(lia)) as (H1 & H2 & H3 & H4 & H5 & p & H6).
    destruct (spill_spec F T failed coh fl e1 b H3 H2 H4) as (? & ? & ? & ? & ?).
    + unfold frame. rewrite H6. simpl. fold (frame e). by rewrite Ef.
    + lia.
    + by rewrite H6.
    + split_and!; eauto.
Qed.

Lemma allocate_spec F T failed coh fl e ok slot e' :
  inv F T failed coh fl e -> allocate_visibility_slot e ok = (slot, e') ->
  inv F T (failed || negb ok) coh fl e'
  /\ active (vis e') = active (vis e) /\ cur e' = cur e /\ draws_seen (vis e') = draws_seen (vis e)
  /\ match slot with
 | Some s => reserved_slot e' s
 | None => exhausted_this_frame (vis e') = true
 end.
Proof.
  intros I. unfold allocate_visibility_slot. destruct (exhausted_this_frame (vis e)) eqn:Hx.
  { intros [= <- <-]. split; [|done]. destruct I as [C B S]. split; try done. eapply span_inv_mono; [|done]. by intros ->. }
  set (p := match VisState.buffer_need (vis e) with Ready => _ | First _ => _ | Grow _ => _ | Spill _ => _ end).
  pose proof (provided_spec F T failed coh fl e ok p I Hx eq_refl) as Hp. clearbody p. destruct p as [e1|].
  - destruct Hp as (C & B & S & K & Hn). destruct (bump_spec F T failed coh fl e1 C B S Hn) as (Hs & C' & B' & S' & K' & Hn' & Hi').
    destruct (VisState.bump_slot (vis e1)) as [s v] eqn:Eb. cbn [fst snd] in *. subst s. intros [= <- <-].
    destruct K as [K1 K2 K3 K4 K5]. destruct K' as [K1' K2' K3' K4' K5'].
    split; [split; try done; eapply span_inv_mono; [|done]; by intros ->|].
    split; [congruence|]. split; [congruence|]. split; [congruence|].
    split; [done| | | | | |].
    + destruct (c_next _ C). lia.
    + congruence.
    + rewrite K2', Hi'. apply (c_high _ C). lia.
    + intros t Ht. apply (c_mode _ C t). exact Ht.
    + intros q m Hq Hm. destruct (si_active _ _ _ _ S q ltac:(by rewrite <- K1')) as [s Hs].
      destruct (si_query _ _ _ _ S q s Hs) as (m0 & Hm0 & Q). change (cores (set_vis e1 v)) with (cores e1) in Hm.
      rewrite Hm0 in Hm. injection Hm as ->. apply (qi_offset _ _ _ _ _ _ Q), (qi_open _ _ _ _ _ _ Q). by rewrite <- K1'.
    + intros g Hg Hs Hb Hlt.
      assert (Epd : pending (vis (set_vis e1 v)) = pending (vis e1)).
      { unfold VisState.bump_slot in Eb. destruct (_ <=? _); by simplify_eq. }
      rewrite Epd in Hg. destruct (pe_here _ _ (si_pending _ _ _ _ S g Hg) Hs Hlt) as (b & _ & _ & Hi). apply Hi. congruence.
  - subst ok. destruct I as [C B S]. destruct (VisState.mark_exhausted (vis e) (cores e)) as [v c] eqn:Em. intros [= <- <-].
    destruct (exhaust_spec F T failed coh fl e v c C B S Em) as (C' & B' & S' & Ha & Hd & He & _).
    rewrite orb_true_r. split; [by split|]. done.
Qed.

(** ** One query's step *)

(** What a step of query [q] leaves alone: the counters, the clocks, the
storage and the other queries. *)
Record steps_query (e e' : Encoder) (q : Z) (m m' : QueryMailbox) (extra : list PendingSegment) : Prop := {
  sq_core : cores e !! q = Some m;
  sq_cores : cores e' = <[q := m']> (cores e);
  sq_pending : pending (vis e') = pending (vis e) ++ extra;
  sq_extra : forall g, g ∈ extra -> core g = q /\ submit_seq g = cur e /\ pend_ok e' g;
  sq_active : forall x, x <> q -> (x ∈ active (vis e') <-> x ∈ active (vis e));
  sq_nodup : NoDup (active (vis e'));
  sq_next : next (vis e') = next (vis e);
  sq_idx : idx e' = idx e;
  sq_cur : cur e' = cur e;
  sq_draws : draws_seen (vis e') = draws_seen (vis e);
  sq_frame : frame e' = frame e;
  sq_retired : retired e' = retired e;
  sq_here : forall b s, here e' b s = here e b s;
  sq_gen : issue_generation m <= issue_generation m';
}.

Lemma steps_segval F e e' q m m' extra g : steps_query e e' q m m' extra -> segval F e' g = segval F e g.
Proof.
  intros []. unfold segval, frame_passes. rewrite sq_cur0. destruct (submit_seq g =? cur e); [|done].
  apply seg_ext. intros; apply sq_here0.
Qed.

Lemma steps_own e e' q m m' extra g : steps_query e e' q m m' extra ->
  own e' q g = own e q g ++ filter (λ s, seg_generation s = g) extra.
Proof.
  intros []. unfold own. rewrite sq_pending0, filter_app. f_equal. apply filter_ext_in.
  intros s Hs. destruct (sq_extra0 s Hs) as (Hc & _). unfold mine. tauto.
Qed.

Lemma steps_own_other e e' q m m' extra x g : steps_query e e' q m m' extra -> x <> q -> own e' x g = own e x g.
Proof.
  intros [] Hx. unfold own. rewrite sq_pending0, filter_app.
  assert (E : filter (mine x g) extra = []).
  { apply filter_empty_in. intros s Hs [Hc _]. destruct (sq_extra0 s Hs) as (Hc' & _). congruence. }
  by rewrite E, app_nil_r.
Qed.

Lemma steps_span F T failed e e' q m m' s' extra :
  span_inv F T failed e -> steps_query e e' q m m' extra ->
  (q ∈ active (vis e') -> sp_open s' = true) ->
  query_inv F failed e' q m' s' ->
  (forall t, pass_mode (pass_state e') = Some t ->
  (forall q m, counted e' q m -> offset_begin m <= t)
  /\ (forall g, g ∈ pending (vis e') -> submit_seq g = cur e' -> buffer g = idx e' -> fst (span g) < snd (span g) ->
  snd (span g) <= t)) ->
  (PassOps.current_pass_has_counting_visibility (pass_state e') = true ->
  forall q m, counted e' q m -> pass_mode (pass_state e') <> None) ->
  (exhausted_this_frame (vis e') = true -> failed = true /\ forall q m, ~ counted e' q m) ->
  span_inv F (<[q := s']> T) failed e'.
Proof.
  intros S K Ha Q Hmode Hlatch Hx. pose proof K as []. pose proof S as [].
  assert (Hsorted : forall l l', StronglySorted Z.le l -> (forall x, x ∈ l -> x <= cur e) -> Forall (eq (cur e)) l' ->
  StronglySorted Z.le (l ++ l')).
  { clear. induction l as [|x l IH]; intros l' Hl Hin Hl'; simpl.
    - induction Hl' as [|y l' -> Hl' IH]; constructor; [done|]. eapply Forall_impl; [exact Hl'|]. simpl. intros; lia.
    - inversion Hl; subst. constructor; [apply IH; [done| |done]; intros; apply Hin; by right|].
      apply Forall_app. split; [done|]. eapply Forall_impl; [exact Hl'|]. intros y <-. apply Hin. left. }
  split; try done.
  - intros x Hx'. destruct (decide (x = q)) as [->|Hne]; [by rewrite lookup_insert_eq|].
    rewrite lookup_insert_ne by done. apply si_active0. by apply sq_active0.
  - intros x s. destruct (decide (x = q)) as [->|Hne].
    + rewrite lookup_insert_eq. intros [= <-]. exists m'. split; [by rewrite sq_cores0, lookup_insert_eq|done].
    + rewrite lookup_insert_ne by done. intros Hs. destruct (si_query0 x s Hs) as (m0 & Hm0 & Q0). exists m0.
      split; [by rewrite sq_cores0, lookup_insert_ne|].
      assert (Eown : own e' x (sp_gen s) = own e x (sp_gen s)) by (by eapply steps_own_other).
      assert (Eopen : open_part e' m0 s = open_part e m0 s).
      { unfold open_part. rewrite sq_idx0, sq_next0. destruct (sp_open s); [|done]. apply seg_ext. intros; apply sq_here0. }
      assert (Ewait : waiting F e' x (sp_gen s) = waiting F e x (sp_gen s)).
      { unfold waiting. rewrite Eown. f_equal. apply list_fmap_ext. intros; by eapply steps_segval. }
      destruct Q0. split; rewrite ?Eown, ?Eopen, ?Ewait, ?sq_draws0, ?sq_next0, ?sq_active0 by done; done.
  - intros x m0. destruct (decide (x = q)) as [->|Hne]; [by rewrite lookup_insert_eq|].
    rewrite sq_cores0, !lookup_insert_ne by done. apply si_fresh0.
  - intros g. rewrite sq_pending0, elem_of_app. intros [Hg|Hg]; [|by apply sq_extra0].
    destruct (si_pending0 g Hg) as [? ? (m0 & Hm0 & Hg0) ? ?]. split; rewrite ?sq_cur0, ?sq_frame0, ?sq_retired0, ?sq_idx0, ?sq_next0; try done.
    rewrite sq_cores0. destruct (decide (core g = q)) as [Eq|Hne].
    + exists m'. rewrite Eq, lookup_insert_eq. split; [done|]. rewrite Eq, sq_core0 in Hm0. injection Hm0 as <-. lia.
    + exists m0. by rewrite lookup_insert_ne.
  - rewrite sq_pending0, fmap_app. apply Hsorted; [done| |].
    + intros x Hx'. apply list_elem_of_fmap in Hx' as (g & -> & Hg). apply (pe_seq _ _ (si_pending0 g Hg)).
    + apply Forall_fmap, Forall_forall. intros g Hg. symmetry. by apply sq_extra0.
Qed.

Lemma push_active_elem v q x : x ∈ active (VisState.push_active v q) <-> x = q \/ x ∈ active v.
Proof.
  unfold VisState.push_active. destruct (bool_decide (q ∈ active v)) eqn:E.
  - apply bool_decide_eq_true in E. split; [auto|]. intros [->|?]; done.
  - simpl. rewrite elem_of_app, list_elem_of_singleton. tauto.
Qed.

Lemma push_active_nodup v q : NoDup (active v) -> NoDup (active (VisState.push_active v q)).
Proof.
  intros H. unfold VisState.push_active. destruct (bool_decide (q ∈ active v)) eqn:E; [done|].
  apply bool_decide_eq_false in E. simpl. apply NoDup_app. split; [done|]. split; [|apply NoDup_singleton].
  intros x Hx ->%list_elem_of_singleton. done.
Qed.

(** The counting state and the storage are not a query's to change. *)
Lemma count_inv_emit e e' :
  count_inv e -> visibility_buffer (pass_state e') = visibility_buffer (pass_state e) -> pass_ok (pass_state e') ->
  idx e' = idx e -> frame e' = frame e -> next (vis e') = next (vis e) -> capacity (vis e') = capacity (vis e) ->
  buffer_slots (vis e') = buffer_slots (vis e) -> (forall b s, here e' b s = here e b s) ->
  (forall t, pass_mode (pass_state e') = Some t -> 0 <= t < next (vis e)) -> count_inv e'.
Proof.
  intros [] Ev Hok Ei Ef En Ec Eb Eh Hm. split; rewrite ?Ev, ?Ei, ?Ef, ?En, ?Ec, ?Eb; try done; intros; rewrite ?Eh; auto.
Qed.

Lemma buf_inv_same F coh fl x e e' :
  buf_inv F coh fl x e -> frame e' = frame e -> retired e' = retired e -> free e' = free e -> mem e' = mem e ->
  cur e' = cur e -> next_backing e' = next_backing e ->
  (forall i s, 0 <= i < Z.of_nat (length (frame e)) - 1 -> here e' i s = here e i s) -> buf_inv F coh fl x e'.
Proof.
  intros [] Ef Er Efr Em Ec Ei Eh. split; rewrite ?Ef, ?Er, ?Efr, ?Em, ?Ec, ?Ei; try done.
  intros i b s Hb Hl Hs. rewrite Eh by lia. by apply (b_full0 i b).
Qed.

(** ** What the encoder leaves of a mailbox *)

(** Bookkeeping of slots and submissions changes no generation, status or result. *)
Record held (m m' : QueryMailbox) : Prop := {
  h_issue : issue_generation m' = issue_generation m;
  h_requested : requested_generation m' = requested_generation m;
  h_end : end_requested_ m' = end_requested_ m;
  h_status : status_ m' = status_ m;
  h_result : result_generation m' = result_generation m;
}.

Lemma held_refl m : held m m.
Proof. done. Qed.

Lemma held_trans m1 m2 m3 : held m1 m2 -> held m2 m3 -> held m1 m3.
Proof. intros [] []. split; congruence. Qed.

Definition cores_rel (R : QueryMailbox -> QueryMailbox -> Prop) (cs cs' : Cores) : Prop :=
  forall q, match cs !! q with Some m => exists m', cs' !! q = Some m' /\ R m m' | None => cs' !! q = None end.

Lemma cores_held_refl cs : cores_rel held cs cs.
Proof. intros q. destruct (cs !! q) as [m|]; [|done]. exists m. split; [done|apply held_refl]. Qed.

Lemma cores_held_trans cs1 cs2 cs3 : cores_rel held cs1 cs2 -> cores_rel held cs2 cs3 -> cores_rel held cs1 cs3.
Proof.
  intros H1 H2 q. specialize (H1 q). specialize (H2 q). destruct (cs1 !! q) as [m|].
  - destruct H1 as (m' & E & Hh). rewrite E in H2. destruct H2 as (m'' & E' & Hh'). exists m''. split; [done|]. by eapply held_trans.
  - by rewrite H1 in H2.
Qed.

Lemma cores_held_alter f q (cs : Cores) : (forall m, held m (f m)) -> cores_rel held cs (alter f q cs).
Proof.
  intros Hf x. destruct (decide (x = q)) as [->|Hne]; [rewrite lookup_alter_eq|rewrite lookup_alter_ne by done].
  - destruct (cs !! q) as [m|]; simpl; eauto.
  - destruct (cs !! x) as [m|]; [exists m; split; [done|apply held_refl]|done].
Qed.

Lemma cores_held_on f qs (cs : Cores) : (forall m, held m (f m)) -> cores_rel held cs (on_cores f qs cs).
Proof.
  intros Hf. revert cs. induction qs as [|q qs IH]; intros cs; [apply cores_held_refl|].
  eapply cores_held_trans; [by apply cores_held_alter|apply IH].
Qed.

Lemma provide_cores e ok slots b e' : provide_visibility_buffer e ok slots = Some (b, e') -> cores e' = cores e.
Proof.
  unfold provide_visibility_buffer. destruct (VisState.try_acquire_reusable _ _ _) as [[[? ?] ?]|]; [by intros [= _ <-]|].
  destruct ok; [by intros [= _ <-]|done].
Qed.

Lemma allocate_held e ok slot e' : allocate_visibility_slot e ok = (slot, e') -> cores_rel held (cores e) (cores e').
Proof.
  unfold allocate_visibility_slot. destruct (exhausted_this_frame (vis e)); [intros [= _ <-]; apply cores_held_refl|].
  set (p := match VisState.buffer_need (vis e) with Ready => _ | First _ => _ | Grow _ => _ | Spill _ => _ end).
  assert (Hp : match p with Some e1 => cores_rel held (cores e) (cores e1) | None => True end).
  { unfold p. destruct (VisState.buffer_need (vis e)); [apply cores_held_refl|..];
    destruct (provide_visibility_buffer e ok _) as [[b e1]|] eqn:Ep; try done; simpl;
    rewrite <- (provide_cores _ _ _ _ _ Ep); try apply cores_held_refl. by apply cores_held_on. }
  clearbody p. assert (Hx : forall e1 : Encoder, cores_rel held (cores e) (cores e1) ->
 cores_rel held (cores e) (snd (VisState.mark_exhausted (vis e1) (cores e1)))).
  { intros e1 H1. eapply cores_held_trans; [exact H1|]. by apply cores_held_on. }
  destruct p as [e1|].
  - destruct (VisState.bump_slot (vis e1)) as [[s|] v]; [by intros [= _ <-]|].
    intros [= _ <-]. by apply (Hx (set_vis e1 v)).
  - intros [= _ <-]. apply Hx, cores_held_refl.
Qed.

Lemma alter_Some {A} (f : A -> A) (q : Z) (m : A) (cs : gmap Z A) : cs !! q = Some m -> alter f q cs = <[q := f m]> cs.
Proof.
  intros H. apply map_eq. intros x. destruct (decide (x = q)) as [->|Hne].
  - by rewrite lookup_alter_eq, H, lookup_insert_eq.
  - by rewrite lookup_alter_ne, lookup_insert_ne.
Qed.

(** ** Emitting a visibility mode *)

Lemma push_latch s c : PassOps.current_pass_has_counting_visibility (PassOps.emit_command s c)
  = PassOps.is_counting c || PassOps.current_pass_has_counting_visibility s.
Proof.
  unfold PassOps.emit_command.
  assert (H1 : current_pass_closed (PassOps.ensure_pass_open s) = false \/ passes (PassOps.ensure_pass_open s) = [])
  by (unfold PassOps.ensure_pass_open; destruct (passes s) eqn:E; [by left|destruct (current_pass_closed s) eqn:E'; by left]).
  assert (H2 : exists l p, passes (PassOps.ensure_pass_open s) = l ++ [p]
 /\ p_counting p = PassOps.current_pass_has_counting_visibility s).
  { unfold PassOps.ensure_pass_open, PassOps.current_pass_has_counting_visibility.
    destruct (passes s) as [|p l _] eqn:E using rev_ind.
    - exists [], (mkPass (visibility_buffer s) false []). split; [done|]. by destruct (current_pass_closed s).
    - destruct (l ++ [p]) as [|p0 l0] eqn:El; [by destruct l|]. destruct (current_pass_closed s) eqn:Ec.
      + exists (p0 :: l0), (mkPass (visibility_buffer s) false []). done.
      + exists l, p. rewrite E. split; [done|]. by rewrite <- El, last_snoc. }
  destruct H2 as (l & p & El & Ep). rewrite El, alter_last. unfold PassOps.current_pass_has_counting_visibility at 1.
  cbn [current_pass_closed passes]. destruct H1 as [->|H1]; [|rewrite El in H1; by destruct l].
  rewrite last_snoc. simpl. rewrite Ep. apply orb_comm.
Qed.

Definition is_draw (c : VisCommand) : bool := match c with DrawCmd _ => true | _ => false end.

(** A mode command moves the mode and counts nothing. *)
Lemma emit_mode_spec e c :
  count_inv e -> is_draw c = false ->
  let p := PassOps.emit_command (pass_state e) c in
  pass_ok p /\ visibility_buffer p = visibility_buffer (pass_state e) /\ (forall b s, counts (passes p) b s = here e b s)
  /\ pass_mode p = match c with Counting s => Some s | _ => None end.
Proof.
  intros C Hc p. pose proof (c_vbuf _ C) as Hv.
  assert (H0 : 0 <= visibility_buffer (pass_state e)) by (rewrite Hv; unfold idx, VisState.current_buffer_index; lia).
  destruct (emit_spec (pass_state e) c (c_pass _ C) H0) as (H1 & _ & H2 & H3 & H4). fold p in H1, H2, H3, H4.
  split; [done|]. split; [done|]. split.
  - intros b s. rewrite H4. unfold here. destruct c; [simpl; lia..|done].
  - rewrite H3. by destruct c.
Qed.

(** ** BEGIN and END *)

Lemma own_stale F T failed e q m g : span_inv F T failed e -> cores e !! q = Some m -> issue_generation m < g -> own e q g = [].
Proof.
  intros S Hm Hg. apply filter_empty_in. intros s Hs [Hc Hgen].
  destruct (pe_gen _ _ (si_pending _ _ _ _ S s Hs)) as (m0 & Hm0 & Hr). rewrite Hc, Hm in Hm0. injection Hm0 as <-. lia.
Qed.

Lemma result_le F T failed e q m : span_inv F T failed e -> cores e !! q = Some m -> result_generation m <= issue_generation m.
Proof.
  intros S Hm. destruct (T !! q) as [s|] eqn:E.
  - destruct (si_query _ _ _ _ S q s E) as (m0 & Hm0 & Q). rewrite Hm in Hm0. injection Hm0 as <-. apply Q.
  - destruct (si_fresh _ _ _ _ S q m Hm E). lia.
Qed.

(** What [begin_recorded] and the flag after it leave in the mailbox. *)
Lemma begin_query F failed e' q m' gen seq off logical render d s' :
  own e' q gen = [] -> q ∈ active (vis e') -> 1 <= gen -> 0 <= off <= next (vis e') -> draws_seen (vis e') = d ->
  seg (here e') (idx e') off (next (vis e')) = 0 -> 0 <= max_total ->
  (exists m, result_generation m < gen /\ (m' = QueryCore.begin_recorded gen seq off logical render d m
  \/ failed = true /\ m' = QueryCore.mark_uncounted (QueryCore.begin_recorded gen seq off logical render d m))) ->
  s' = mkSpan gen true 0 0 (QueryCore.area logical, QueryCore.area render) ->
  query_inv F failed e' q m' s'.
Proof.
  intros Hown Ha Hg Hoff Hd Hseg Hmx (m & Hr & Hm) ->.
  assert (Hw : waiting F e' q gen = 0) by (unfold waiting; by rewrite Hown).
  assert (Hf : issue_generation m' = gen /\ (logical_area m', render_area m') = (QueryCore.area logical, QueryCore.area render)
  /\ draws_at_begin m' = d /\ offset_begin m' = off /\ (uncounted m' <> 0 -> failed = true) /\ carried m' = 0
  /\ result_generation m' = result_generation m) by (destruct Hm as [->|[? ->]]; split_and!; done).
  destruct Hf as (F1 & F2 & F3 & F4 & F5 & F6 & F7).
  assert (Ho : open_part e' m' (mkSpan gen true 0 0 (QueryCore.area logical, QueryCore.area render)) = 0)
  by (unfold open_part; simpl; by rewrite F4).
  split; cbn [sp_gen sp_open sp_total sp_draws sp_areas]; rewrite ?F1, ?F2, ?F3, ?F4, ?F6, ?F7, ?Hd, ?Hown, ?Hw, ?Ho; try done; try lia.
  - by rewrite Z.sub_diag.
  - intros _. split; [constructor|]. lia.
Qed.

Lemma begin_spec F T failed coh fl e ok q m gen logical render :
  0 <= max_total -> inv F T failed coh fl e -> cores e !! q = Some m -> issue_generation m < gen -> 1 <= gen ->
  let e' := begin_visibility_query e ok q gen logical render in
  inv F (<[q := mkSpan gen true 0 0 (QueryCore.area logical, QueryCore.area render)]> T) (failed || negb ok) coh fl e'.
Proof.
  intros Hmx I Hm Hgen Hgen1. unfold begin_visibility_query.
  destruct (allocate_visibility_slot e ok) as [slot e1] eqn:Ea.
  destruct (allocate_spec _ _ _ _ _ _ _ _ _ I Ea) as ([C B S] & _ & _ & _ & Hslot).
  pose proof (allocate_held _ _ _ _ Ea q) as Hh. rewrite Hm in Hh. destruct Hh as (m1 & Hm1 & []).
  set (failed1 := failed || negb ok) in *.
  assert (Hres : result_generation m1 < gen) by (pose proof (result_le _ _ _ _ _ _ S Hm1); lia).
  assert (Hstale : own e1 q gen = []) by (eapply own_stale; [done|done|lia]).
  set (off := default (next (vis e1)) slot).
  set (b := QueryCore.begin_recorded gen (current_submit_seq e1) off logical render (draws_seen (vis e1))).
  rewrite (alter_Some b q m1) by done.
  assert (Hv : forall v, v = VisState.push_active (vis e1) q -> next v = next (vis e1) /\ capacity v = capacity (vis e1)
 /\ pool v = pool (vis e1) /\ pending v = pending (vis e1) /\ frame_buffers v = frame_buffers (vis e1)
 /\ buffer_slots v = buffer_slots (vis e1) /\ exhausted_this_frame v = exhausted_this_frame (vis e1)
 /\ draws_seen v = draws_seen (vis e1)) by (intros v ->; unfold VisState.push_active; by destruct (bool_decide _)).
  destruct (Hv _ eq_refl) as (V1 & V2 & V3 & V4 & V5 & V6 & V7 & V8). clear Hv.
  assert (Hsteps : forall e2 m2, vis e2 = VisState.push_active (vis e1) q -> cores e2 = <[q := m2]> (cores e1) ->
 cur e2 = cur e1 -> issue_generation m2 = gen -> (forall b s, here e2 b s = here e1 b s) -> steps_query e1 e2 q m1 m2 []).
  { intros e2 m2 Ev Ec Ecur Eg Eh. split; unfold idx, VisState.current_buffer_index, frame, retired; rewrite ?Ev; try done.
    - by rewrite V4, app_nil_r.
    - by intros g ?%elem_of_nil.
    - intros x Hx. rewrite push_active_elem. tauto.
    - apply push_active_nodup, S.
    - by rewrite V5.
    - by rewrite V3.
    - rewrite Eg, h_issue0. lia. }
  assert (Hact : q ∈ active (VisState.push_active (vis e1) q)) by (apply push_active_elem; by left).
  destruct slot as [s|].
  - destruct Hslot as [R1 R2 Rl R3 R4 R5 R6]. destruct (emit_mode_spec e1 (Counting s) C eq_refl) as (P1 & P2 & P3 & P4).
    set (e2 := set_passes _ _). pose proof (Hsteps e2 (b m1) eq_refl eq_refl eq_refl eq_refl P3) as K.
    assert (Hoffs : forall x mx, counted e2 x mx -> offset_begin mx <= s).
    { intros x mx (Hx & Hmx' & _). rewrite (sq_cores _ _ _ _ _ _ K) in Hmx'. destruct (decide (x = q)) as [->|Hne].
      - rewrite lookup_insert_eq in Hmx'. injection Hmx' as <-. simpl. unfold off. simpl. lia.
      - rewrite lookup_insert_ne in Hmx' by done. apply (R5 x mx); [|done]. by apply (sq_active _ _ _ _ _ _ K x Hne). }
    split.
    + eapply count_inv_emit; [exact C|done|done|by apply K|by apply K|by apply K|done|done|exact P3|].
      intros t Ht. cbn [e2 set_passes pass_state] in Ht. rewrite P4 in Ht. injection Ht as <-. lia.
    + eapply buf_inv_same; [exact B|by apply K|by apply K|unfold free; cbn; by rewrite V3|done|done|done|].
      intros i t _. apply P3.
    + eapply (steps_span F T failed1 e1 e2 q m1 (b m1)); [done|exact K|done| | | |].
      * assert (Eoff : off = s) by done.
        apply (begin_query F failed1 e2 q (b m1) gen (current_submit_seq e1) off logical render (draws_seen (vis e1)));
        rewrite ?Eoff, ?(sq_next _ _ _ _ _ _ K), ?(sq_idx _ _ _ _ _ _ K); try done.
        -- by rewrite (steps_own _ _ _ _ _ _ _ K), Hstale.
        -- lia.
        -- rewrite R1, seg_snoc, seg_empty by lia. rewrite (sq_here _ _ _ _ _ _ K), R3. lia.
        -- exists m1. split; [done|]. left. by rewrite <- Eoff.
      * intros t Ht. cbn [e2 set_passes pass_state] in Ht. rewrite P4 in Ht. injection Ht as <-. split; [exact Hoffs|].
        intros g. rewrite (sq_pending _ _ _ _ _ _ K), app_nil_r, (sq_cur _ _ _ _ _ _ K), (sq_idx _ _ _ _ _ _ K). apply R6.
      * intros _ x mx _. cbn [e2 set_passes pass_state]. by rewrite P4.
      * cbn. rewrite V7. congruence.
  - destruct (si_exhausted _ _ _ _ S Hslot) as [Hfail Hno].
    rewrite (alter_Some _ q (b m1)) by (by rewrite lookup_insert_eq). rewrite insert_insert_eq.
    set (e2 := set_cores _ _ _).
    pose proof (Hsteps e2 (QueryCore.mark_uncounted (b m1)) eq_refl eq_refl eq_refl eq_refl (λ _ _, eq_refl)) as K.
    assert (Hno2 : forall x mx, ~ counted e2 x mx).
    { intros x mx (Hx & Hmx' & Hu). rewrite (sq_cores _ _ _ _ _ _ K) in Hmx'. destruct (decide (x = q)) as [->|Hne].
      - rewrite lookup_insert_eq in Hmx'. injection Hmx' as <-. done.
      - rewrite lookup_insert_ne in Hmx' by done. apply (Hno x mx). split; [|done].
        by apply (sq_active _ _ _ _ _ _ K x Hne). }
    split.
    + eapply count_inv_emit; [exact C|done|apply C|by apply K|by apply K|by apply K|done|done|done|apply C].
    + eapply buf_inv_same; [exact B|by apply K|by apply K|unfold free; cbn; by rewrite V3|done|done|done|done].
    + eapply (steps_span F T failed1 e1 e2 q m1 _); [done|exact K|done| | | |].
      * apply (begin_query F failed1 e2 q _ gen (current_submit_seq e1) off logical render (draws_seen (vis e1)));
        rewrite ?(sq_next _ _ _ _ _ _ K), ?(sq_idx _ _ _ _ _ _ K); try done.
        -- by rewrite (steps_own _ _ _ _ _ _ _ K), Hstale.
        -- unfold off. simpl. destruct (c_next _ C). lia.
        -- apply seg_empty. unfold off. simpl. lia.
        -- exists m1. split; [done|]. right. by split.
      * intros t Ht. split; [intros x mx Hx; by destruct (Hno2 x mx)|].
        intros g. rewrite (sq_pending _ _ _ _ _ _ K), app_nil_r, (sq_cur _ _ _ _ _ _ K), (sq_idx _ _ _ _ _ _ K).
        apply (si_mode _ _ _ _ S t Ht).
      * intros _ x mx Hx. by destruct (Hno2 x mx).
      * done.
Qed.

Lemma end_query F failed failed' e e' q m m' s extra hi g d :
  query_inv F failed e q m s -> sp_open s = true -> steps_query e e' q m m' extra ->
  extra = [mkSegment (cur e) (idx e) q (sp_gen s) (offset_begin m, hi) true] ->
  q ∉ active (vis e') -> (failed = true -> failed' = true) ->
  d = draws_seen (vis e) ->
  (m' = QueryCore.end_recorded g (cur e) d m
 /\ seg (here e) (idx e) (offset_begin m) hi = seg (here e) (idx e) (offset_begin m) (next (vis e))
 \/ m' = QueryCore.mark_uncounted (QueryCore.end_recorded g (cur e) d m) /\ hi = offset_begin m /\ failed' = true) ->
  (forall b t, 0 <= here e b t) ->
  query_inv F failed' e' q m' (span_close s).
Proof.
  intros Q Ho K -> Hna Hmono -> Hcase Hpos. pose proof Q as [[Hg1 Hg2] ?].
  assert (Hf : issue_generation m' = issue_generation m /\ (logical_area m', render_area m') = (logical_area m, render_area m)
  /\ draws_in_span m' = wrap64 (draws_seen (vis e) - draws_at_begin m) /\ (uncounted m' <> 0 -> failed' = true)
  /\ carried m' = carried m /\ result_generation m' = result_generation m)
  by (destruct Hcase as [[-> _]|(-> & _ & ?)]; split_and!; auto).
  destruct Hf as (F1 & F2 & F3 & F4 & F5 & F6).
  assert (Eown : own e' q (sp_gen s) = own e q (sp_gen s) ++ [mkSegment (cur e) (idx e) q (sp_gen s) (offset_begin m, hi) true]).
  { rewrite (steps_own _ _ _ _ _ _ _ K). f_equal. rewrite filter_cons. simpl. by rewrite decide_True. }
  assert (Hne : result_generation m <> issue_generation m) by (intros Hd; destruct (qi_done0 Hd); congruence).
  destruct (qi_wait0 Hne) as (Hcl & Hle & Heq). rewrite Ho in *. simpl in Hcl.
  assert (Ew : waiting F e' q (sp_gen s) = waiting F e q (sp_gen s) + seg (here e) (idx e) (offset_begin m) hi).
  { unfold waiting. rewrite Eown, fmap_app, zsum_app. f_equal.
    - f_equal. apply list_fmap_ext. intros; by eapply steps_segval.
    - simpl. unfold zsum. cbn [foldr]. rewrite Z.add_0_r, (steps_segval _ _ _ _ _ _ _ _ K).
      unfold segval, frame_passes. cbn [submit_seq buffer span fst snd]. by rewrite Z.eqb_refl. }
  assert (Eopen : open_part e m s = seg (here e) (idx e) (offset_begin m) (next (vis e))) by (unfold open_part; by rewrite Ho).
  split; cbn [span_close sp_gen sp_open sp_total sp_draws sp_areas]; rewrite ?F1, ?F2, ?F3, ?F5, ?F6, ?Eown, ?Ew; try done.
  intros _. split; [by exists (own e q (sp_gen s)), (mkSegment (cur e) (idx e) q (sp_gen s) (offset_begin m, hi) true)|].
  assert (Eo : open_part e' m' (span_close s) = 0) by done. rewrite Eo.
  change (sp_total (span_close s)) with (sp_total s). rewrite Eopen in *.
  pose proof (seg_nonneg (here e) (idx e) (offset_begin m) (next (vis e)) ltac:(intros; apply Hpos)).
  destruct Hcase as [[-> Hs]|(-> & -> & ?)].
  - rewrite Hs. split; [lia|]. intros Hu. specialize (Heq Hu). lia.
  - rewrite seg_empty by lia. split; [lia|]. done.
Qed.

Lemma end_spec F T failed coh fl e ok q g s :
  inv F T failed coh fl e -> T !! q = Some s -> sp_open s = true ->
  inv F (<[q := span_close s]> T) (failed || negb ok) coh fl (end_visibility_query e ok q g).
Proof.
  intros I Hs Ho. unfold end_visibility_query. destruct (allocate_visibility_slot e ok) as [slot e1] eqn:Ea.
  destruct (allocate_spec _ _ _ _ _ _ _ _ _ I Ea) as ([C B S] & _ & _ & _ & Hslot).
  set (failed1 := failed || negb ok) in *.
  destruct (si_query _ _ _ _ S q s Hs) as (m & Hm & Q). pose proof Q as [[Hg1 Hg2] ?].
  assert (Ha : q ∈ active (vis e1)) by (by apply qi_open0).
  specialize (qi_offset0 Ho). rewrite (offset_of_Some _ _ _ Hm).
  set (r := QueryCore.end_recorded g (current_submit_seq e1) (draws_seen (vis e1))). rewrite (alter_Some r q m) by done.
  assert (Hrem : forall x, x ∈ active (VisState.remove_active (vis e1) q) <-> x <> q /\ x ∈ active (vis e1))
  by (intros x; unfold VisState.remove_active; simpl; rewrite list_elem_of_filter; tauto).
  assert (Hsteps : forall e2 m2 hi, vis e2 = VisState.set_pending (VisState.remove_active (vis e1) q)
  (pending (vis e1) ++ [mkSegment (cur e1) (idx e1) q (sp_gen s) (offset_begin m, hi) true]) ->
 cores e2 = <[q := m2]> (cores e1) -> cur e2 = cur e1 -> issue_generation m2 = issue_generation m ->
 (forall b s, here e2 b s = here e1 b s) -> (offset_begin m < hi -> hi <= next (vis e1)) ->
 steps_query e1 e2 q m m2 [mkSegment (cur e1) (idx e1) q (sp_gen s) (offset_begin m, hi) true]).
  { intros e2 m2 hi Ev Ec Ecur Eg Eh Hhi. split; unfold idx, VisState.current_buffer_index, frame, retired; rewrite ?Ev; try done.
    - intros x Hx%list_elem_of_singleton. subst x. split; [done|]. split; [done|].
      split; cbn [submit_seq buffer core seg_generation span fst snd]; rewrite ?Ecur; try lia.
      + exists m2. rewrite Ec, lookup_insert_eq. split; [done|]. lia.
      + intros _ Hlt. specialize (Hhi Hlt). unfold frame. rewrite Ev. cbn [VisState.set_pending frame_buffers VisState.remove_active VisState.set_active].
        fold (frame e1). destruct (last (frame e1)) as [bl|] eqn:El.
        * exists bl. pose proof (c_last _ C bl El). destruct (c_next _ C). split; [|split; [lia|by cbn]].
          unfold idx, VisState.current_buffer_index. fold (frame e1). rewrite Nat2Z.id. rewrite last_lookup in El.
          by replace (length (frame e1) - 1)%nat with (pred (length (frame e1))) by lia.
        * apply last_None in El. destruct (c_empty _ C El). lia.
    - intros x Hx. cbn [VisState.set_pending active]. rewrite Hrem. tauto.
    - cbn. apply NoDup_filter, S.
    - by rewrite Eg. }
  assert (Hgen : forall (cs : Cores) m2, cs !! q = Some m2 -> issue_generation m2 = issue_generation m -> generation_of cs q = sp_gen s)
  by (intros cs m2 Hc Hi; rewrite (generation_of_Some _ _ _ Hc); congruence).
  assert (Hna : q ∉ active (VisState.remove_active (vis e1) q)) by (rewrite Hrem; tauto).
  destruct slot as [t|].
  - destruct Hslot as [R1 R2 Rl R3 R4 R5x R6]. pose proof (R5x q m Ha Hm) as R5.
    set (c := if bool_decide _ then Disabled else Counting t).
    assert (Hc : is_draw c = false) by (unfold c; by destruct (bool_decide _)).
    destruct (emit_mode_spec e1 c C Hc) as (P1 & P2 & P3 & P4). cbn [fst snd]. unfold VisState.push_pending.
    rewrite (Hgen _ (r m)) by (by rewrite ?lookup_insert_eq).
    set (e2 := set_passes _ _).
    pose proof (Hsteps e2 (r m) t eq_refl eq_refl eq_refl eq_refl P3 ltac:(lia)) as K.
    assert (Hmode : forall u, pass_mode (pass_state e2) = Some u -> u = t).
    { intros u. cbn [e2 set_passes pass_state]. rewrite P4. unfold c. destruct (bool_decide _); congruence. }
    split.
    + eapply count_inv_emit; [exact C|done|done|by apply K|by apply K|by apply K|done|done|exact P3|].
      intros u Hu. rewrite (Hmode u Hu). lia.
    + eapply buf_inv_same; [exact B|by apply K|by apply K|done|done|done|done|]. intros i u _. apply P3.
    + eapply (steps_span F T failed1 e1 e2 q m (r m)); [done|exact K|done| | | |].
      * eapply (end_query F failed1 failed1 e1 e2 q m (r m) s _ t g); [done|done|exact K|done|done|done|done| |apply C].
        left. split; [done|]. rewrite R1, seg_snoc, R3 by lia. lia.
      * intros u Hu. rewrite (Hmode u Hu). split.
        -- intros x mx (Hx & Hmx & _). assert (Hne : x <> q) by (intros ->; by apply Hna).
 rewrite (sq_cores _ _ _ _ _ _ K), lookup_insert_ne in Hmx by done.
 eapply R5x; [|done]. by apply (sq_active _ _ _ _ _ _ K x Hne).
        -- intros x. rewrite (sq_pending _ _ _ _ _ _ K), (sq_cur _ _ _ _ _ _ K), (sq_idx _ _ _ _ _ _ K), elem_of_app, list_elem_of_singleton.
 intros [Hx| ->]; [by apply R6|simpl; lia].
      * intros Hl x mx (Hx & _). cbn [e2 set_passes pass_state]. rewrite P4. unfold c.
        destruct (bool_decide _) eqn:E; [|done]. apply bool_decide_eq_true in E.
        cbn in Hx, E. rewrite E in Hx. by apply elem_of_nil in Hx.
      * cbn. congruence.
  - destruct (si_exhausted _ _ _ _ S Hslot) as [Hfail Hno].
    rewrite (alter_Some _ q (r m)) by (by rewrite lookup_insert_eq). rewrite insert_insert_eq. cbn [fst snd default]. unfold VisState.push_pending.
    rewrite (Hgen _ (QueryCore.mark_uncounted (r m))) by (by rewrite ?lookup_insert_eq).
    set (e2 := set_passes _ _).
    pose proof (Hsteps e2 (QueryCore.mark_uncounted (r m)) (offset_begin m) eq_refl eq_refl eq_refl eq_refl (λ _ _, eq_refl) ltac:(lia)) as K.
    assert (Hno2 : forall x mx, ~ counted e2 x mx).
    { intros x mx (Hx & Hmx & Hu). assert (Hne : x <> q) by (intros ->; by apply Hna).
      rewrite (sq_cores _ _ _ _ _ _ K), lookup_insert_ne in Hmx by done. apply (Hno x mx). split; [|done].
      by apply (sq_active _ _ _ _ _ _ K x Hne). }
    split.
    + eapply count_inv_emit; [exact C|done|apply C|by apply K|by apply K|by apply K|done|done|done|apply C].
    + eapply buf_inv_same; [exact B|by apply K|by apply K|done|done|done|done|done].
    + eapply (steps_span F T failed1 e1 e2 q m _); [done|exact K|done| | | |].
      * eapply (end_query F failed1 failed1 e1 e2 q m _ s _ (offset_begin m) g); [done|done|exact K|done|done|done|done| |apply C].
        right. done.
      * intros u Hu. split; [intros x mx Hx; by destruct (Hno2 x mx)|]. intros x.
        rewrite (sq_pending _ _ _ _ _ _ K), (sq_cur _ _ _ _ _ _ K), (sq_idx _ _ _ _ _ _ K), elem_of_app, list_elem_of_singleton.
        intros [Hx| ->]; [by apply (si_mode _ _ _ _ S u Hu)|simpl; lia].
      * intros _ x mx Hx. by destruct (Hno2 x mx).
      * done.
Qed.

(** ** Draws *)

Definition hit (M : option Z) (n b i u : Z) : Z :=
  match M with Some t => if (b =? i) && (u =? t) then n else 0 | None => 0 end.

Lemma hit_nonneg M n b i u : 0 <= n -> 0 <= hit M n b i u.
Proof. intros. unfold hit. destruct M; [destruct (_ && _)|]; lia. Qed.

Section Draw.
Context (F : Z -> list Pass) (T : gmap Z Span) (failed : bool) (coh : Z) (fl : list Submission).
Context (e e' : Encoder) (n : Z) (M : option Z).
Context (I : inv F T failed coh fl e) (Hn : 0 <= n).
Context (Ev : vis e' = VisState.note_draw (vis e)) (Ec : cores e' = cores e) (Em : mem e' = mem e)
  (Ecur : cur e' = cur e) (Eb : next_backing e' = next_backing e)
  (Hok : pass_ok (pass_state e')) (Evb : visibility_buffer (pass_state e') = visibility_buffer (pass_state e))
  (Emode : pass_mode (pass_state e') = M)
  (Ehere : forall b u, here e' b u = here e b u + hit M n b (idx e) u).
Context (HM : forall t, M = Some t -> 0 <= t < next (vis e)
  /\ (forall q m, counted e q m -> offset_begin m <= t)
  /\ (forall g, g ∈ pending (vis e) -> submit_seq g = cur e -> buffer g = idx e -> fst (span g) < snd (span g) ->
  snd (span g) <= t))
  (HN : M = None -> forall q m, ~ counted e q m).
Context (Hbound : forall q s, T !! q = Some s -> sp_open s = true -> sp_total s + n <= max_total /\ sp_draws s + 1 <= u64_max).

Lemma draw_fields : next (vis e') = next (vis e) /\ idx e' = idx e /\ frame e' = frame e /\ retired e' = retired e
  /\ free e' = free e /\ active (vis e') = active (vis e) /\ pending (vis e') = pending (vis e)
  /\ capacity (vis e') = capacity (vis e) /\ buffer_slots (vis e') = buffer_slots (vis e)
  /\ exhausted_this_frame (vis e') = exhausted_this_frame (vis e)
  /\ draws_seen (vis e') = wrap64 (draws_seen (vis e) + 1).
Proof. unfold idx, VisState.current_buffer_index, frame, retired, free. by rewrite Ev. Qed.

Lemma draw_count : count_inv e'.
Proof.
  destruct draw_fields as (En & Ei & Ef & _ & _ & _ & _ & Eca & Ebs & _). destruct I as [[] _ _].
  assert (Hh : forall b u, b <> idx e \/ next (vis e) <= u -> hit M n b (idx e) u = 0).
  { intros b u Hb. unfold hit. destruct M as [t|] eqn:E; [|done]. destruct (HM t eq_refl) as [? _].
    destruct (_ && _) eqn:E'; [|done]. reflect_cmp. lia. }
  split; rewrite ?Ei, ?En, ?Ef, ?Eca, ?Ebs, ?Evb; try done.
  - intros u Hu. rewrite Ehere, Hh by auto. by rewrite c_high0.
  - intros b u Hb. rewrite Ehere, Hh by lia. by rewrite c_later0.
  - intros b u. rewrite Ehere. pose proof (hit_nonneg M n b (idx e) u Hn). specialize (c_nonneg0 b u). lia.
  - intros t Ht. apply HM. congruence.
Qed.

Lemma draw_buf : buf_inv F coh fl [] e'.
Proof.
  destruct draw_fields as (En & Ei & Ef & Er & Efr & _). destruct I as [C B _].
  eapply buf_inv_same; try done. intros i s Hi. rewrite Ehere.
  assert (hit M n i (idx e) s = 0); [|lia]. unfold hit. destruct M; [|done].
  destruct (_ && _) eqn:E'; [|done]. reflect_cmp. unfold idx, VisState.current_buffer_index in *. fold (frame e) in *. lia.
Qed.

Lemma draw_segval g : g ∈ pending (vis e) -> segval F e' g = segval F e g.
Proof.
  intros Hg. unfold segval, frame_passes. rewrite Ecur. destruct (submit_seq g =? cur e) eqn:E; [|done]. reflect_cmp.
  destruct (Z_le_dec (snd (span g)) (fst (span g))) as [Hle|Hlt]; [by rewrite !seg_empty|].
  apply seg_ext. intros u Hu. fold (here e') (here e). rewrite Ehere.
  assert (hit M n (buffer g) (idx e) u = 0); [|lia]. unfold hit. destruct M as [t|] eqn:EM; [|done].
  destruct (_ && _) eqn:E'; [|done]. reflect_cmp. destruct (HM t eq_refl) as (_ & _ & Hp).
  specialize (Hp g Hg ltac:(done) ltac:(done) ltac:(lia)). lia.
Qed.

(** The draw lands between [0] and [n] samples in an open span, and exactly
[n] in one that is still counted. *)
Lemma draw_open m s q : T !! q = Some s -> cores e !! q = Some m -> sp_open s = true -> q ∈ active (vis e) ->
  0 <= offset_begin m <= next (vis e) ->
  exists k, open_part e' m (span_draw n s) = open_part e m s + k /\ 0 <= k <= n /\ (uncounted m = 0 -> k = n).
Proof.
  intros Hs Hm Ho Ha Hoff. destruct draw_fields as (En & Ei & _). unfold open_part, span_draw. rewrite Ho. cbn [sp_open].
  rewrite En, Ei. destruct M as [t|] eqn:EM.
  - destruct (HM t eq_refl) as (Ht & Hcnt & _). destruct (Z_le_dec (offset_begin m) t) as [Hle|Hgt].
    + exists n. split; [|lia]. apply seg_hit with t; [|lia]. intros u Hu. rewrite Ehere. unfold hit.
      by rewrite Z.eqb_refl.
    + exists 0. split; [|split; [lia|]].
      * rewrite Z.add_0_r. apply seg_ext. intros u Hu. rewrite Ehere. unfold hit. rewrite Z.eqb_refl.
        rewrite (proj2 (Z.eqb_neq u t)) by lia. simpl. lia.
      * intros Hu. specialize (Hcnt q m). unfold counted in Hcnt. exfalso. apply Hgt, Hcnt. done.
  - exists 0. split; [|split; [lia|]].
    + rewrite Z.add_0_r. apply seg_ext. intros u Hu. rewrite Ehere. unfold hit. lia.
    + intros Hu. exfalso. by apply (HN eq_refl q m).
Qed.

Lemma draw_query q m s : T !! q = Some s -> cores e !! q = Some m -> query_inv F failed e q m s ->
  query_inv F failed e' q m (span_draw n s).
Proof.
  intros Hs Hm Q. pose proof Q as []. pose proof (i_span _ _ _ _ _ _ I) as S.
  destruct draw_fields as (En & Ei & _ & _ & _ & Ea & Ep & _ & _ & _ & Ed).
  assert (Eg : sp_gen (span_draw n s) = sp_gen s /\ sp_areas (span_draw n s) = sp_areas s /\ sp_open (span_draw n s) = sp_open s)
  by (unfold span_draw; by destruct (sp_open s) eqn:?).
  destruct Eg as (G1 & G2 & G3).
  assert (Eown : own e' q (sp_gen s) = own e q (sp_gen s)) by (unfold own; by rewrite Ep).
  assert (Ew : waiting F e' q (sp_gen s) = waiting F e q (sp_gen s)).
  { unfold waiting. rewrite Eown. f_equal. apply list_fmap_ext. intros i g Hg. apply draw_segval.
    apply list_elem_of_lookup_2, list_elem_of_filter in Hg. by apply Hg. }
  destruct (sp_open s) eqn:Ho.
  - assert (Haq : q ∈ active (vis e)) by (by apply qi_open0).
    destruct (draw_open m s q Hs Hm Ho Haq (qi_offset0 eq_refl)) as (k & Hk & Hkn & Hk1).
    destruct (Hbound q s Hs Ho) as [Hb1 Hb2]. destruct qi_totals0 as (Ht1 & Ht2 & Ht3).
    assert (Es : sp_total (span_draw n s) = sp_total s + n /\ sp_draws (span_draw n s) = sp_draws s + 1)
    by (unfold span_draw; by rewrite Ho). destruct Es as [E1 E2].
    split; rewrite ?G1, ?G2, ?G3, ?E1, ?E2, ?Ea, ?En, ?Ed, ?Eown, ?Ew, ?Hk; try done.
    + rewrite wrap64_sub_l. replace (draws_seen (vis e) + 1 - draws_at_begin m) with ((draws_seen (vis e) - draws_at_begin m) + 1) by lia.
      rewrite <- wrap64_add_l, qi_draws0, wrap64_add_l. done.
    + split; [lia|]. split; [lia|]. lia.
    + intros Hd. destruct (qi_done0 Hd). congruence.
    + intros Hd. destruct (qi_wait0 Hd) as (? & ? & Heq). split; [done|]. split; [lia|].
      intros Hu. specialize (Heq Hu). specialize (Hk1 Hu). lia.
  - assert (Es : span_draw n s = s) by (unfold span_draw; by rewrite Ho). rewrite Es in *.
    assert (Eo : open_part e' m s = open_part e m s) by (unfold open_part; by rewrite Ho).
    split; rewrite ?Ho, ?Ea, ?En, ?Ed, ?Eown, ?Ew, ?Eo; try done; congruence.
Qed.

Lemma draw_inv : inv F (span_draw n <$> T) failed coh fl e'.
Proof.
  destruct draw_fields as (En & Ei & Ef & Er & _ & Ea & Ep & _ & _ & Ex & Ed).
  split; [apply draw_count|apply draw_buf|]. pose proof (i_span _ _ _ _ _ _ I) as S. destruct S.
  assert (Hcnt : forall q m, counted e' q m <-> counted e q m) by (intros; unfold counted; by rewrite Ea, Ec).
  split; rewrite ?Ea, ?Ep, ?Ecur, ?Ei, ?Ec, ?Ex; try done.
  - intros q Hq. rewrite lookup_fmap. destruct (si_active0 q Hq) as [s ->]. by eexists.
  - intros q s'. rewrite lookup_fmap. destruct (T !! q) as [s|] eqn:E; [|done]. intros [= <-].
    destruct (si_query0 q s E) as (m & Hm & Q). exists m. split; [done|]. by apply draw_query.
  - intros q m Hm. rewrite lookup_fmap. destruct (T !! q) eqn:E; [done|]. intros _. by apply (si_fresh0 q).
  - intros g Hg. destruct (si_pending0 g Hg). split; rewrite ?Ecur, ?Ec, ?Ef, ?Er, ?Ei, ?En; done.
  - rewrite Emode. intros t Ht. destruct (HM t Ht) as (_ & H1 & H2). split; [|done]. intros q m Hq. by apply (H1 q), Hcnt.
  - intros _ q m Hq. rewrite Emode. intros E. by apply (HN E q m), Hcnt.
  - intros Hx. destruct (si_exhausted0 Hx) as [? Hno]. split; [done|]. intros q m Hq. by apply (Hno q m), Hcnt.
Qed.
End Draw.

Lemma draw_spec F T failed coh fl e ok n :
  inv F T failed coh fl e -> 0 <= n ->
  (forall q s, T !! q = Some s -> sp_open s = true -> sp_total s + n <= max_total /\ sp_draws s + 1 <= u64_max) ->
  inv F (span_draw n <$> T) (failed || negb ok) coh fl (emit_draw e ok n).
Proof.
  intros I Hn Hb. unfold emit_draw. destruct (reserve_draw_visibility_slot e ok) as [arm e1] eqn:Er.
  assert (H1 : inv F T (failed || negb ok) coh fl e1
  /\ match arm with Some s => reserved_slot e1 s | None => pass_mode (pass_state e1) = None -> forall q m, ~ counted e1 q m end).
  { revert Er. unfold reserve_draw_visibility_slot.
    assert (Hmono : inv F T (failed || negb ok) coh fl e) by (destruct I; split; try done; eapply span_inv_mono; [|done]; by intros ->).
    destruct (bool_decide (active (vis e) = [])) eqn:Ea; simpl.
    - apply bool_decide_eq_true in Ea. intros [= <- <-]. split; [done|]. intros _ q m (Hq & _). rewrite Ea in Hq. by apply elem_of_nil in Hq.
    - destruct (PassOps.current_pass_has_counting_visibility (pass_state e)) eqn:El.
      + intros [= <- <-]. split; [done|]. intros Hm q m Hc. by apply (si_latch _ _ _ _ (i_span _ _ _ _ _ _ I) El q m).
      + intros Hal. destruct (allocate_spec _ _ _ _ _ _ _ _ _ I Hal) as (I1 & _ & _ & _ & Hs). split; [done|].
        destruct arm; [done|]. intros _. by apply (si_exhausted _ _ _ _ (i_span _ _ _ _ _ _ I1) Hs). }
  destruct H1 as [I1 Harm]. pose proof I1 as [C B S]. set (failed1 := failed || negb ok) in *.
  assert (H0 : 0 <= visibility_buffer (pass_state e1)) by (rewrite (c_vbuf _ C); unfold idx, VisState.current_buffer_index; lia).
  destruct (ensure_spec (pass_state e1) (c_pass _ C) H0) as (Q1 & _ & Q2 & Q3 & Q4).
  set (p1 := PassOps.ensure_pass_open (pass_state e1)) in *.
  set (p2 := match arm with Some s => PassOps.emit_command p1 (Counting s) | None => p1 end).
  set (M := match arm with Some s => Some s | None => pass_mode (pass_state e1) end).
  assert (P2 : pass_ok p2 /\ visibility_buffer p2 = visibility_buffer (pass_state e1) /\ pass_mode p2 = M
 /\ forall b s, counts (passes p2) b s = here e1 b s).
  { unfold p2, M. destruct arm as [s|]; [|done].
    destruct (emit_spec p1 (Counting s) Q1 ltac:(lia)) as (W1 & _ & W2 & W3 & W4).
    split; [done|]. split; [congruence|]. split; [done|]. intros b u. rewrite W4. simpl. rewrite Q3. unfold here. lia. }
  destruct P2 as (W1 & W2 & W3 & W4).
  destruct (emit_spec p2 (DrawCmd n) W1 ltac:(lia)) as (U1 & _ & U2 & U3 & U4).
  eapply (draw_inv F T failed1 coh fl e1 _ n M); try done.
  - cbn [set_passes set_vis pass_state]. congruence.
  - cbn [set_passes set_vis pass_state]. rewrite U3. exact W3.
  - intros b u. unfold here at 1. cbn [set_passes set_vis pass_state]. rewrite U4, W4, W3, W2, (c_vbuf _ C).
    unfold hit. by destruct M.
  - unfold M. destruct arm as [s|].
    + intros t [= <-]. destruct Harm. split; [lia|]. split; [|done]. intros q m (Ha & Hm & _). by apply (rs_offsets0 q).
    + intros t Ht. split; [by apply (c_mode _ C)|]. by apply (si_mode _ _ _ _ S).
  - unfold M. by destruct arm.
Qed.

(** A step that moves only the open pass, and leaves it not counting. *)
Lemma uncounting_inv F T failed coh fl e p :
  inv F T failed coh fl e -> pass_ok p -> visibility_buffer p = visibility_buffer (pass_state e) ->
  (forall b s, counts (passes p) b s = here e b s) -> pass_mode p = None ->
  PassOps.current_pass_has_counting_visibility p = false ->
  inv F T failed coh fl (set_passes e p).
Proof.
  intros [C B S] Hok Hv Hh Hm Hl. set (e' := set_passes e p). split.
  - eapply count_inv_emit; try done. cbn. by rewrite Hm.
  - eapply buf_inv_same; try done. intros i s _. apply Hh.
  - assert (Hseg : forall g, segval F e' g = segval F e g).
    { intros g. unfold segval, frame_passes. change (cur e') with (cur e). destruct (_ =? _); [|done]. apply seg_ext. intros; apply Hh. }
    destruct S. split; try done.
    + intros q s Hs. destruct (si_query0 q s Hs) as (m & Hm' & []). exists m. split; [done|]. split; try done.
      assert (Eo : open_part e' m s = open_part e m s)
      by (unfold open_part; destruct (sp_open s); [|done]; apply seg_ext; intros; apply Hh).
      assert (Ew : waiting F e' q (sp_gen s) = waiting F e q (sp_gen s)).
      { unfold waiting. change (own e' q (sp_gen s)) with (own e q (sp_gen s)). by rewrite (list_fmap_ext (segval F e') (segval F e)). }
      intros Hd. destruct (qi_wait0 Hd) as (? & ? & ?). by rewrite Eo, Ew.
    + intros g Hg. by destruct (si_pending0 g Hg).
    + cbn. by rewrite Hm.
    + cbn. by rewrite Hl.
Qed.

Lemma quad_spec F T failed coh fl e n :
  inv F T failed coh fl e -> inv F T failed coh fl (emit_clear_quad e n).
Proof.
  intros I. pose proof I as [C B S]. unfold emit_clear_quad.
  assert (H0 : 0 <= visibility_buffer (pass_state e)) by (rewrite (c_vbuf _ C); unfold idx, VisState.current_buffer_index; lia).
  set (p1 := if PassOps.current_pass_has_counting_visibility (pass_state e) then PassOps.end_current_pass (pass_state e) else pass_state e).
  assert (P1 : pass_ok p1 /\ visibility_buffer p1 = visibility_buffer (pass_state e) /\ pass_mode p1 = None
 /\ (forall b s, counts (passes p1) b s = here e b s) /\ PassOps.current_pass_has_counting_visibility p1 = false).
  { unfold p1. destruct (PassOps.current_pass_has_counting_visibility (pass_state e)) eqn:E.
    - destruct (end_pass_spec _ (c_pass _ C)) as (? & ? & Ep & ?). split_and!; try done; [|apply end_pass_latch].
      intros. by rewrite Ep.
    - split_and!; try done; [apply C|]. apply not_counting_mode; [apply C|done]. }
  destruct P1 as (P1 & P2 & P3 & P4 & P5).
  destruct (emit_spec p1 (DrawCmd n) P1 ltac:(lia)) as (U1 & _ & U2 & U3 & U4). rewrite P3 in *.
  apply uncounting_inv; try done; [lia| |].
  - intros b s. rewrite U4. simpl. rewrite P4. lia.
  - by rewrite push_latch, P5.
Qed.

Lemma pass_end_spec F T failed coh fl e :
  inv F T failed coh fl e -> inv F T failed coh fl (set_passes e (PassOps.end_current_pass (pass_state e))).
Proof.
  intros I. destruct (end_pass_spec _ (c_pass _ (i_count _ _ _ _ _ _ I))) as (? & ? & Ep & ?).
  apply uncounting_inv; try done; [|apply end_pass_latch]. intros. by rewrite Ep.
Qed.

(** ** Submitting the frame *)

Lemma foldl_retire l p : foldl VisibilityBufferPool.retire p l
  = VisibilityBufferPool.mk (VisibilityBufferPool.retired p ++ l) (VisibilityBufferPool.free p) (VisibilityBufferPool.cap p).
Proof.
  revert p. induction l as [|b l IH]; intros p; simpl; [by destruct p; rewrite app_nil_r|].
  rewrite IH. simpl. by rewrite <- app_assoc.
Qed.

Section Submit.
Context (F : Z -> list Pass) (T : gmap Z Span) (failed : bool) (coh : Z) (fl : list Submission) (e : Encoder).
Context (I : inv F T failed coh fl e).

Let e' := snd (submit_frame e).
Let sub := fst (submit_frame e).

Definition flown : Z -> list Pass := λ s, if s =? cur e then passes (pass_state e) else F s.

(** The frame's buffers as they retire. *)
Definition stamped : list RetiredVisibilityBuffer :=
  imap (λ i b, mkBuffer (vb_id b) (vb_slots b) (cur e) (Z.of_nat i)
  (if (i =? length (frame e) - 1)%nat then next (vis e) else reserved b)) (frame e).

Lemma stamped_lookup i b : frame e !! i = Some b -> exists b', stamped !! i = Some b' /\ vb_id b' = vb_id b
  /\ vb_slots b' = vb_slots b /\ release_seq b' = cur e /\ vb_index b' = Z.of_nat i.
Proof. intros H. unfold stamped. rewrite list_lookup_imap, H. simpl. eexists. split; [done|]. done. Qed.

Lemma stamped_in b' : b' ∈ stamped -> exists i b, frame e !! i = Some b /\ vb_id b' = vb_id b /\ vb_slots b' = vb_slots b
  /\ release_seq b' = cur e /\ vb_index b' = Z.of_nat i
  /\ reserved b' = if (i =? length (frame e) - 1)%nat then next (vis e) else reserved b.
Proof.
  intros H. apply list_elem_of_lookup in H as [i H]. unfold stamped in H. rewrite list_lookup_imap in H.
  destruct (frame e !! i) as [b|] eqn:E; [|done]. injection H as <-. exists i, b. done.
Qed.

Lemma stamped_ids : vb_id <$> stamped = vb_id <$> frame e.
Proof.
  apply list_eq. intros i. rewrite !list_lookup_fmap. unfold stamped. rewrite list_lookup_imap. by destruct (frame e !! i).
Qed.

Lemma submit_fields : cur e' = cur e + 1 /\ retired e' = retired e ++ stamped /\ free e' = free e /\ frame e' = []
  /\ mem e' = mem e /\ next_backing e' = next_backing e /\ next (vis e') = 0 /\ capacity (vis e') = 0
  /\ pass_state e' = PassOps.new /\ idx e' = 0 /\ buffer_slots (vis e') = buffer_slots (vis e)
  /\ exhausted_this_frame (vis e') = false /\ active (vis e') = active (vis e) /\ draws_seen (vis e') = draws_seen (vis e)
  /\ pending (vis e') = pending (vis e) ++ VisState.open_segments (vis e) (cores e) (cur e)
  /\ cores e' = on_cores (QueryCore.resume (cur e') 0) (active (vis e)) (cores e).
Proof.
  unfold e', submit_frame. cbn [snd].
  unfold VisState.retire_frame_buffers. rewrite foldl_retire. done.
Qed.

Lemma end_pass_passes s : passes (PassOps.end_current_pass s) = passes s.
Proof. unfold PassOps.end_current_pass. by destruct (passes s) eqn:?. Qed.

Lemma sub_fields : sub_seq sub = cur e /\ sub_passes sub = passes (pass_state e) /\ sub_bound sub = vb_id <$> frame e.
Proof. unfold sub, submit_frame. cbn. rewrite end_pass_passes. done. Qed.

Lemma submit_cut : cut F flown e e' 0.
Proof.
  destruct submit_fields as (Ecur & _ & _ & _ & _ & _ & En & _ & _ & _ & _ & _ & Ea & Ed & Ep & Ec).
  split; try done; rewrite ?En; try lia.
  intros g Hg. unfold segval, frame_passes, flown. rewrite Ecur.
  rewrite (proj2 (Z.eqb_neq _ _)) by lia. by destruct (submit_seq g =? cur e).
Qed.

Lemma submit_count : count_inv e'.
Proof.
  destruct submit_fields as (_ & _ & _ & Ef & _ & _ & En & Eca & Ep & Ei & Ebs & _).
  destruct I as [[] _ _].
  split; unfold here; rewrite ?Ef, ?En, ?Eca, ?Ep, ?Ei, ?Ebs; try done; try lia.
  split; simpl; try done; intros p Hp; by apply elem_of_nil in Hp.
Qed.

Lemma flown_old s : s <> cur e -> flown s = F s.
Proof. intros H. unfold flown. by rewrite (proj2 (Z.eqb_neq _ _)). Qed.

Lemma submit_retired_in b' : b' ∈ stamped ->
  release_seq b' < cur e + 1 /\ 0 <= vb_index b' /\ 0 <= reserved b' <= vb_slots b'
  /\ (forall s, reserved b' <= s -> counts (flown (release_seq b')) (vb_index b') s = 0)
  /\ (forall s, mem e (vb_id b') s = if release_seq b' <=? coh then counts (flown (release_seq b')) (vb_index b') s else 0).
Proof.
  intros Hb. destruct (stamped_in b' Hb) as (i & b & Hi & Eid & Esl & Ers & Eix & Er). destruct I as [C B _]. destruct B.
  pose proof (list_elem_of_lookup_2 _ _ _ Hi) as Hin.
  assert (Hlt : (i < length (frame e))%nat) by (by eapply lookup_lt_Some).
  assert (Ecase : (i =? length (frame e) - 1)%nat = true -> last (frame e) = Some b /\ Z.of_nat i = idx e).
  { intros E%Nat.eqb_eq. rewrite last_lookup. replace (pred (length (frame e))) with i by lia. split; [done|].
    unfold idx, VisState.current_buffer_index. fold (frame e). lia. }
  rewrite Eid, Esl, Ers, Eix. split; [lia|]. split; [lia|]. unfold flown. rewrite Z.eqb_refl. split_and!.
  - rewrite Er. destruct (_ =? _)%nat; [destruct (c_next _ C); lia|]. apply b_slots0. apply elem_of_app; by left.
  - rewrite Er. destruct (_ =? _)%nat eqn:E; [|apply b_slots0; apply elem_of_app; by left].
    destruct (Ecase eq_refl) as [Hl _]. destruct (c_next _ C). pose proof (c_last _ C b Hl). lia.
  - intros s Hs. rewrite Er in Hs. destruct (_ =? _)%nat eqn:E.
    + destruct (Ecase eq_refl) as [_ ->]. by apply (c_high _ C).
    + apply Nat.eqb_neq in E. apply (b_full0 i b); [done|lia|done].
  - intros s. rewrite (proj2 (Z.leb_gt _ _)) by lia. apply b_frame0. apply elem_of_app; by left.
Qed.

Lemma submit_buf : buf_inv flown coh (fl ++ [sub]) [] e'.
Proof.
  destruct submit_fields as (Ecur & Er & Efr & Ef & Em & Enb & _). destruct sub_fields as (Ss & Sp & Sb).
  pose proof I as [C B _]. pose proof B as [].
  assert (Hids : vb_id <$> [] ++ [] ++ (retired e ++ stamped) ++ free e ≡ₚ vb_id <$> frame e ++ [] ++ retired e ++ free e).
  { rewrite !fmap_app, stamped_ids. simpl. solve_Permutation. }
  assert (Hfr : forall b', b' ∈ stamped -> exists b, b ∈ frame e ++ [] ++ retired e ++ free e /\ vb_id b' = vb_id b).
  { intros b' Hb. destruct (stamped_in b' Hb) as (i & b & Hi & Eid & _). exists b. split; [|done].
    apply elem_of_app. left. by eapply list_elem_of_lookup_2. }
  assert (Hsplit : forall b', b' ∈ [] ++ [] ++ (retired e ++ stamped) ++ free e ->
 b' ∈ stamped \/ b' ∈ frame e ++ [] ++ retired e ++ free e).
  { intros b'. rewrite !app_nil_l, !elem_of_app. tauto. }
  assert (Hret : forall b, b ∈ retired e ++ stamped -> b ∈ retired e \/ b ∈ stamped) by (intros b; by rewrite elem_of_app).
  assert (Hold : forall b, b ∈ retired e -> flown (release_seq b) = F (release_seq b))
  by (intros b Hb; apply flown_old; destruct (b_ret0 b Hb); lia).
  split; rewrite ?Ef, ?Er, ?Efr, ?Em, ?Enb, ?Ecur.
  - by eapply NoDup_Permutation_proper.
  - intros b' Hb. destruct (Hsplit b' Hb) as [Hs|Hs]; [|by apply b_old0].
    destruct (Hfr b' Hs) as (b & Hin & ->). by apply b_old0.
  - intros b' Hb. destruct (Hsplit b' Hb) as [Hs|Hs]; [|by apply b_slots0]. by apply submit_retired_in.
  - by intros b s ?%elem_of_nil.
  - done.
  - done.
  - intros b Hb. destruct (Hret b Hb) as [Hb'|Hb'].
    + destruct (b_ret0 b Hb') as (? & ? & ? & ?). rewrite Hold by done. split_and!; try done. lia.
    + destruct (submit_retired_in b Hb') as (? & ? & ? & ? & ?). done.
  - rewrite fmap_app. apply NoDup_app. split; [done|]. split.
    + intros k Hk Hk'. apply list_elem_of_fmap in Hk as (b & -> & Hb). apply list_elem_of_fmap in Hk' as (b' & Ek & Hb').
      destruct (stamped_in b' Hb') as (i & c & _ & _ & _ & Ers & _). destruct (b_ret0 b Hb) as [? _]. injection Ek. lia.
    + apply NoDup_alt. intros i j k Hi Hj. rewrite list_lookup_fmap in Hi, Hj. unfold stamped in Hi, Hj.
      rewrite list_lookup_imap in Hi, Hj. destruct (frame e !! i); [|done]. destruct (frame e !! j); [|done].
      simplify_eq/=. lia.
  - lia.
  - rewrite fmap_app, b_flights0. change (sub_seq <$> [sub]) with [sub_seq sub]. rewrite Ss.
    replace (cur e + 1 - coh - 1) with ((cur e - coh - 1) + 1) by lia. rewrite seqZ_app by lia. f_equal. unfold seqZ. simpl.
    f_equal. lia.
  - intros s Hs. apply elem_of_app in Hs as [Hs|Hs].
    + destruct (b_flight0 s Hs) as (H1 & H2 & H3 & H4 & H5).
      assert (Hsc : sub_seq s < cur e).
      { assert (Hin : sub_seq s ∈ sub_seq <$> fl) by (by apply list_elem_of_fmap_2). rewrite b_flights0 in Hin.
        apply elem_of_seqZ in Hin. lia. }
      split; [rewrite H1; by rewrite flown_old by lia|]. split; [done|]. split; [done|]. split.
      * intros id Hid. destruct (H4 id Hid) as (b & Hb & ?). exists b. split; [apply elem_of_app; by left|done].
      * intros b Hb Hrs. destruct (Hret b Hb) as [Hb'|Hb']; [by apply H5|].
        destruct (stamped_in b Hb') as (? & ? & _ & _ & _ & Ers & _). lia.
    + apply list_elem_of_singleton in Hs as ->. rewrite Ss, Sp, Sb. split; [unfold flown; by rewrite Z.eqb_refl|].
      split; [|split; [intros p Hp; by apply (po_buffers _ (c_pass _ C))|split]].
      * rewrite fmap_app in b_ids0. by apply NoDup_app in b_ids0 as [? _].
      * intros id Hid. apply list_elem_of_fmap in Hid as (b & -> & Hb). apply list_elem_of_lookup in Hb as [i Hi].
        destruct (stamped_lookup i b Hi) as (b' & Hb' & Eid & _ & Ers & _). exists b'. split; [|done].
        apply elem_of_app. right. by eapply list_elem_of_lookup_2.
      * intros b Hb Hrs. destruct (Hret b Hb) as [Hb'|Hb']; [destruct (b_ret0 b Hb'); lia|].
        destruct (stamped_in b Hb') as (i & c & Hi & -> & _ & _ & -> & _). rewrite Nat2Z.id, list_lookup_fmap, Hi. done.
Qed.

Lemma submit_span : span_inv flown T failed e'.
Proof.
  destruct submit_fields as (Ecur & Er & Efr & Ef & Em & Enb & En & _ & Eps & Ei & _ & Ex & Ea & Ed & _).
  pose proof I as [C B S]. pose proof submit_cut as K. pose proof S as [].
  split; rewrite ?Ea; try done.
  - intros q s Hs. by eapply cut_query.
  - intros q m' Hm HT. destruct (cut_back _ _ _ _ _ _ _ K si_nodup0 Hm) as (m & Hm0 & ->).
    destruct (si_fresh0 q m Hm0 HT). by destruct (decide _).
  - intros g Hg. destruct (cut_gen _ _ _ _ _ _ _ _ K S Hg) as (H1 & H2 & H3 & Hcase).
    split; rewrite ?Ecur, ?Er; try done; [lia|lia|]. intros _ Hlt.
    assert (Hfrm : submit_seq g = cur e -> forall b, frame e !! Z.to_nat (buffer g) = Some b -> snd (span g) <= vb_slots b ->
 exists b, b ∈ retired e ++ stamped /\ release_seq b = submit_seq g /\ vb_index b = buffer g /\ snd (span g) <= vb_slots b).
    { intros Es b Hb Hsl. destruct (stamped_lookup _ _ Hb) as (b' & Hb' & _ & Esl & Ers & Eix). exists b'.
      rewrite Esl, Ers, Eix, Z2Nat.id by lia. split; [apply elem_of_app; right; by eapply list_elem_of_lookup_2|done]. }
    destruct Hcase as [Hold|(Es & Eb & Esp)].
    + destruct (si_pending0 g Hold). destruct (Z.eq_dec (submit_seq g) (cur e)) as [Es|Hne].
      * destruct (pe_here0 Es Hlt) as (b & Hb & Hsl & _). by apply (Hfrm Es b).
      * destruct (pe_there0 ltac:(lia) Hlt) as (b & Hb & ?). exists b. split; [apply elem_of_app; by left|done].
    + destruct (last (frame e)) as [bl|] eqn:El.
      * apply (Hfrm Es bl).
        -- rewrite Eb. unfold idx, VisState.current_buffer_index. fold (frame e). rewrite Nat2Z.id. rewrite last_lookup in El.
 by replace (length (frame e) - 1)%nat with (pred (length (frame e))) by lia.
        -- pose proof (c_last _ C bl El). destruct (c_next _ C). lia.
      * apply last_None in El. destruct (c_empty _ C El). lia.
  - by eapply cut_sorted.
Qed.

Lemma submit_spec : inv flown T failed coh (fl ++ [sub]) e'.
Proof. split; [apply submit_count|apply submit_buf|apply submit_span]. Qed.
End Submit.

(** ** The GPU retires the oldest submission *)

Definition set_mem (e : Encoder) (m : Memory) : Encoder :=
  mkEncoder (vis e) (cores e) m (pass_state e) (current_submit_seq e) (next_backing e).

Lemma gpu_spec F T failed coh sub fl e :
  inv F T failed coh (sub :: fl) e -> inv F T failed (coh + 1) fl (set_mem e (gpu_submission sub (mem e))).
Proof.
  intros [C B S]. set (e' := set_mem e _). pose proof B as [].
  assert (Eseq : sub_seq sub = coh + 1 /\ sub_seq <$> fl = seqZ (coh + 1 + 1) (cur e - (coh + 1) - 1) /\ coh + 1 < cur e).
  { simpl in b_flights0. destruct (Z_le_dec (cur e - coh - 1) 0) as [Hle|Hgt]; [by rewrite seqZ_nil in b_flights0 by lia|].
    rewrite seqZ_cons in b_flights0 by lia. injection b_flights0 as H1 H2. split; [exact H1|]. split; [|lia].
    etransitivity; [exact H2|]. f_equal; lia. }
  destruct Eseq as (Es & Efl & Hlt).
  destruct (b_flight0 sub ltac:(left)) as (Hp & Hnd & Hpos & Hids & Hbound).
  assert (Hother : forall b s, b ∈ frame e ++ [] ++ retired e ++ free e -> (b ∈ retired e -> release_seq b <> coh + 1) ->
 mem e' (vb_id b) s = mem e (vb_id b) s).
  { intros b s Hb Hne. unfold e'. cbn [mem set_mem]. apply gpu_submission_other. intros Hin.
    destruct (Hids _ Hin) as (b1 & Hb1 & Eid & Ers). assert (b1 = b) as ->.
    { assert (Hb1' : b1 ∈ frame e ++ [] ++ retired e ++ free e) by (rewrite !elem_of_app; auto).
      apply list_elem_of_lookup in Hb as [i Hi]. apply list_elem_of_lookup in Hb1' as [j Hj].
      assert (i = j) as ->; [|congruence]. eapply NoDup_lookup; [exact b_ids0| |]; rewrite list_lookup_fmap; [by rewrite Hi|].
      rewrite Hj. simpl. by f_equal. }
    apply Hne; [done|]. by rewrite Ers, Es. }
  assert (Hfree : forall b, b ∈ frame e \/ b ∈ free e -> b ∈ retired e -> release_seq b <> coh + 1).
  { intros b Hb Hr _. assert (Hnd' : NoDup (frame e ++ [] ++ retired e ++ free e)) by (by eapply NoDup_fmap_1).
    rewrite app_nil_l in Hnd'. apply NoDup_app in Hnd' as (_ & H1 & H2). apply NoDup_app in H2 as (_ & H2 & _).
    destruct Hb as [Hb|Hb]; [apply (H1 b Hb), elem_of_app; by left|by apply (H2 b Hr)]. }
  split; [by destruct C| |].
  - split; try done.
    + intros b s Hb. rewrite app_nil_r in Hb. rewrite Hother; [|by apply elem_of_app; left|by auto].
      apply b_frame0. by rewrite app_nil_r.
    + intros b s Hb Hs. rewrite Hother; [by apply b_free0|by rewrite !elem_of_app; auto|by auto].
    + intros b Hb. destruct (b_ret0 b Hb) as (H1 & H2 & H3 & H4). split; [done|]. split; [done|]. split; [done|].
      intros s. destruct (Z.eq_dec (release_seq b) (coh + 1)) as [E|Hne].
      * rewrite E, Z.leb_refl. unfold e'. cbn [mem set_mem]. unfold gpu_submission.
        rewrite (gpu_submission_mem _ _ _ Hnd Hpos (vb_index b)); [|done|by apply Hbound; rewrite ?E].
        rewrite H4, E. rewrite (proj2 (Z.leb_gt _ _)) by lia. rewrite Hp, Es. lia.
      * rewrite Hother; [|by rewrite !elem_of_app; auto|done]. rewrite H4.
        destruct (release_seq b <=? coh) eqn:E1, (release_seq b <=? coh + 1) eqn:E2; reflect_cmp; lia.
    + intros s Hs. apply b_flight0. by right.
  - destruct S. split; try done. intros q s Hs. destruct (si_query0 q s Hs) as (m & Hm & []). by exists m.
    intros g Hg. by destruct (si_pending0 g Hg).
Qed.

(** ** Intake *)

Lemma sum_retired_spec F coh fl e g :
  buf_inv F coh fl [] e -> pend_ok e g -> submit_seq g < cur e -> submit_seq g <= coh ->
  fst (span g) < snd (span g) -> segval F e g <= u64_max -> (forall b s, 0 <= counts (F (submit_seq g)) b s) ->
  VisibilityBufferPool.sum_retired (pool (vis e)) (mem e) (submit_seq g) (buffer g) (span g) = Some (segval F e g).
Proof.
  intros B P Hlt Hcoh Hne Hmx Hpos. destruct (pe_there _ _ P Hlt Hne) as (b & Hb & Ers & Eix & Hsl). destruct B.
  unfold VisibilityBufferPool.sum_retired. fold (retired e).
  destruct (list_find (λ b, release_seq b = submit_seq g /\ vb_index b = buffer g) (retired e)) as [[i b']|] eqn:El.
  - apply list_find_Some in El as (Hi & [E1 E2] & _). assert (b' = b) as ->.
    { apply list_elem_of_lookup in Hb as [j Hj]. assert (i = j) as ->; [|congruence].
      eapply NoDup_lookup; [exact b_key0| |]; rewrite list_lookup_fmap; [by rewrite Hi|]. rewrite Hj. simpl. congruence. }
    simpl. destruct (b_ret0 b Hb) as (_ & _ & _ & Hm). f_equal. unfold segval, frame_passes.
    rewrite (proj2 (Z.eqb_neq _ _)) by lia. apply sum_slots_seg; try done.
    + intros s. rewrite Hm, Ers, Eix. by rewrite (proj2 (Z.leb_le _ _)).
    + unfold segval, frame_passes in Hmx. by rewrite (proj2 (Z.eqb_neq _ _)) in Hmx by lia.
  - apply list_find_None in El. rewrite Forall_forall in El. exfalso. by apply (El b Hb).
Qed.

(** The spans do not say that what flew counted nothing negative; the draws do. *)
Definition flown_nonneg (F : Z -> list Pass) : Prop := forall s b t, 0 <= counts (F s) b t.

Lemma held_fold_query F failed e e' q m m' s g rest :
  query_inv F failed e q m s -> flown_nonneg F -> (forall b t, 0 <= here e b t) ->
  pending (vis e) = g :: rest -> pending (vis e') = rest -> core g = q -> seg_generation g = issue_generation m ->
  (forall x, segval F e' x = segval F e x) -> (open_part e' m' s = open_part e m s) ->
  active (vis e') = active (vis e) -> draws_seen (vis e') = draws_seen (vis e) -> next (vis e') = next (vis e) ->
  m' = (if closes_span g then QueryCore.publish_span else id) (QueryCore.accumulate_segment (segval F e g) m) ->
  query_inv F failed e' q m' s.
Proof.
  intros Q HF Hh Hp Hp' Hc Hg Hseg Hop Ha Hd Hn Hm'. pose proof Q as [[Hg1 Hg2] ?].
  assert (Hmine : mine q (sp_gen s) g) by (split; [done|congruence]).
  assert (Eown : own e q (sp_gen s) = g :: own e' q (sp_gen s)).
  { unfold own. rewrite Hp, Hp', filter_cons. by rewrite decide_True. }
  assert (Hne : result_generation m <> issue_generation m).
  { intros Hdn. destruct (qi_done0 Hdn) as (_ & _ & Ho). by rewrite Eown in Ho. }
  destruct (qi_wait0 Hne) as (Hcl & Hle & Heq).
  assert (Ew : waiting F e q (sp_gen s) = segval F e g + waiting F e' q (sp_gen s)).
  { unfold waiting. rewrite Eown, fmap_cons, zsum_cons. f_equal. f_equal. apply list_fmap_ext. intros; symmetry; apply Hseg. }
  assert (Hsegpos : forall x, 0 <= segval F e x).
  { intros x. apply seg_nonneg. intros t _. unfold frame_passes. destruct (_ =? _); [apply Hh|apply HF]. }
  assert (Hwpos : 0 <= waiting F e' q (sp_gen s)).
  { unfold waiting. apply zsum_nonneg, Forall_fmap, Forall_forall. intros x _. simpl. rewrite Hseg. apply Hsegpos. }
  assert (Hopos : 0 <= open_part e m s).
  { unfold open_part. destruct (sp_open s); [|lia]. apply seg_nonneg. intros; apply Hh. }
  pose proof (Hsegpos g) as Hg0. destruct qi_totals0 as (Ht1 & Ht2 & Ht3).
  assert (Hsat : (carried m +| segval F e g)%u64 = carried m + segval F e g) by (unfold sat, u64_max in *; lia).
  destruct (closes_span g) eqn:Ecl.
  - assert (Hcl' : sp_open s = false /\ own e' q (sp_gen s) = []).
    { rewrite Eown in Hcl. destruct (sp_open s); simpl in Hcl; [inversion Hcl; congruence|]. split; [done|].
      destruct Hcl as (k & g' & E & _ & Hk). destruct k as [|x k]; simpl in E; injection E as E1 E2; [done|]. subst x.
      inversion Hk; congruence. }
    destruct Hcl' as [Ho Hown]. assert (Hz : open_part e m s = 0) by (unfold open_part; by rewrite Ho).
    assert (Hw0 : waiting F e' q (sp_gen s) = 0) by (unfold waiting; by rewrite Hown).
    rewrite Ho in *. subst m'.
    split; cbn [QueryCore.publish_span QueryCore.accumulate_segment issue_generation uncounted draws_in_span draws_at_begin
    result_generation carried offset_begin logical_area render_area accumulated];
    rewrite ?Ha, ?Hd, ?Hn, ?Ho, ?Hsat, ?Hown; try done; try lia.
    intros _. split; [done|]. split; [|done]. unfold answer. rewrite <- qi_areas0.
    cbn [fst snd]. rewrite wrap64_small in qi_draws0 by done. rewrite qi_draws0.
    destruct (uncounted m =? 0) eqn:Eu; reflect_cmp; simpl.
    + left. f_equal. specialize (Heq Eu). lia.
    + destruct (sp_draws s =? 0) eqn:Ed; reflect_cmp; simpl.
      * left. f_equal. specialize (Ht3 Ed). lia.
      * right. auto.
  - assert (Hcl' : closing (sp_open s) (own e' q (sp_gen s))).
    { rewrite Eown in Hcl. destruct (sp_open s); simpl in *; [by inversion Hcl|].
      destruct Hcl as (k & g' & E & H1 & Hk). destruct k as [|x k]; simpl in E; injection E as E1 E2; [congruence|].
      exists k, g'. inversion Hk. done. }
    subst m'. cbn [id] in *.
    split; cbn [QueryCore.accumulate_segment issue_generation uncounted draws_in_span draws_at_begin
    result_generation carried offset_begin logical_area render_area accumulated];
    rewrite ?Ha, ?Hd, ?Hn, ?Hsat; try done; try lia.
    intros _. rewrite Hop. split; [done|]. split; [lia|]. intros Hu. specialize (Heq Hu). lia.
Qed.

Definition with_pending (e : Encoder) (l : list PendingSegment) (cs : Cores) : Encoder :=
  set_cores e (VisState.set_pending (vis e) l) cs.

(** How intake changes a mailbox: it sums into it, and may publish it. *)
Record folded (m m' : QueryMailbox) : Prop := {
  f_issue : issue_generation m' = issue_generation m;
  f_requested : requested_generation m' = requested_generation m;
  f_end : end_requested_ m' = end_requested_ m;
  f_result : status_ m' = status_ m /\ result_generation m' = result_generation m
  \/ status_ m' = status_code Issued /\ result_generation m' = issue_generation m /\ 1 <= issue_generation m;
}.

Lemma folded_refl m : folded m m.
Proof. split; auto. Qed.

Lemma folded_trans m1 m2 m3 : folded m1 m2 -> folded m2 m3 -> folded m1 m3.
Proof. intros [? ? ? H1] [? ? ? H2]. split; [congruence..|]. destruct H2 as [[-> ->]|(-> & -> & ?)]; [done|]. right. split; [done|]. split; congruence. Qed.

Lemma cores_folded_refl cs : cores_rel folded cs cs.
Proof. intros q. destruct (cs !! q) as [m|]; [|done]. exists m. split; [done|apply folded_refl]. Qed.

Lemma cores_folded_trans cs1 cs2 cs3 : cores_rel folded cs1 cs2 -> cores_rel folded cs2 cs3 -> cores_rel folded cs1 cs3.
Proof.
  intros H1 H2 q. specialize (H1 q). specialize (H2 q). destruct (cs1 !! q) as [m|].
  - destruct H1 as (m' & E & Hh). rewrite E in H2. destruct H2 as (m'' & E' & Hh'). exists m''. split; [done|]. by eapply folded_trans.
  - by rewrite H1 in H2.
Qed.

Section Fold.
Context (F : Z -> list Pass) (T : gmap Z Span) (failed : bool) (coh : Z) (fl : list Submission) (e : Encoder).
Context (C : count_inv e) (B : buf_inv F coh fl [] e) (HF : flown_nonneg F).

Lemma fold_step g rest :
  span_inv F T failed e -> pending (vis e) = g :: rest -> submit_seq g <= coh ->
  let cs := VisState.fold_segment (pool (vis e)) (mem e) (cores e) g in
  span_inv F T failed (with_pending e rest cs) /\ cores_rel folded (cores e) cs.
Proof.
  intros S Hp Hcoh cs. pose proof (b_coh _ _ _ _ _ B) as Hcc.
  assert (Hg : g ∈ pending (vis e)) by (rewrite Hp; left). pose proof (si_pending _ _ _ _ S g Hg) as P.
  destruct (pe_gen _ _ P) as (m & Hm & Hgen1).
  assert (Hsub : forall g', g' ∈ rest -> g' ∈ pending (vis e)) by (intros; rewrite Hp; by right).
  assert (Hsorted : StronglySorted Z.le (submit_seq <$> rest)).
  { pose proof (si_sorted _ _ _ _ S) as Hs. rewrite Hp in Hs. simpl in Hs. by inversion Hs. }
  destruct (Z.eq_dec (seg_generation g) (issue_generation m)) as [Egen|Egen].
  2:{ (* a bracket since abandoned *)
    assert (Ecs : cs = cores e).
    { unfold cs, VisState.fold_segment. rewrite (generation_of_Some _ _ _ Hm). by rewrite (proj2 (Z.eqb_neq _ _)). }
    rewrite Ecs. split; [|apply cores_folded_refl].
    assert (Eown : forall q s, T !! q = Some s -> own (with_pending e rest (cores e)) q (sp_gen s) = own e q (sp_gen s)).
    { intros q s Hs. unfold own. cbn. rewrite Hp, filter_cons. rewrite decide_False; [done|]. intros [E1 E2].
      destruct (si_query _ _ _ _ S q s Hs) as (m0 & Hm0 & Q). rewrite E1, Hm0 in Hm. injection Hm as ->.
      destruct (qi_gen _ _ _ _ _ _ Q). congruence. }
    destruct S. split; try done.
    - intros q s Hs. destruct (si_query0 q s Hs) as (m0 & Hm0 & []). exists m0. split; [done|].
      split; try done; rewrite ?Eown by done; try done. intros Hd. unfold waiting. rewrite Eown by done. exact (qi_wait0 Hd).
    - intros g' Hg'. by destruct (si_pending0 g' (Hsub g' Hg')).
    - intros t Ht. destruct (si_mode0 t Ht) as [H1 H2]. split; [done|]. intros g' Hg'. apply H2. by apply Hsub. }
  assert (HT : exists s, T !! core g = Some s).
  { destruct (T !! core g) as [s|] eqn:E; [by exists s|]. destruct (si_fresh _ _ _ _ S _ _ Hm E). lia. }
  destruct HT as [s Hs]. destruct (si_query _ _ _ _ S _ s Hs) as (m0 & Hm0 & Q). rewrite Hm in Hm0. injection Hm0 as <-.
  assert (Hmx : segval F e g <= u64_max).
  { pose proof Q as []. assert (Hne : result_generation m <> issue_generation m).
    { intros Hd. destruct (qi_done0 Hd) as (_ & _ & Ho). unfold own in Ho. rewrite Hp, filter_cons in Ho.
      rewrite decide_True in Ho; [done|]. destruct qi_gen0. split; [done|congruence]. }
    destruct (qi_wait0 Hne) as (_ & Hle & _). destruct qi_totals0 as ((_ & Ht) & _).
    assert (Hseg : forall x, 0 <= segval F e x).
    { intros x. apply seg_nonneg. intros t _. unfold frame_passes. destruct (_ =? _); [apply (c_nonneg _ C)|apply HF]. }
    assert (Hw : segval F e g <= waiting F e (core g) (sp_gen s)).
    { unfold waiting, own. rewrite Hp, filter_cons. rewrite decide_True by (destruct qi_gen0; split; [done|congruence]).
      rewrite fmap_cons, zsum_cons. assert (0 <= zsum (segval F e <$> filter (mine (core g) (sp_gen s)) rest)); [|lia].
      apply zsum_nonneg, Forall_fmap, Forall_forall. intros; simpl; apply Hseg. }
    assert (0 <= open_part e m s) by (unfold open_part; destruct (sp_open s); [|lia]; apply seg_nonneg; intros; apply (c_nonneg _ C)).
    lia. }
  set (m' := (if closes_span g then QueryCore.publish_span else id) (QueryCore.accumulate_segment (segval F e g) m)).
  assert (Ecs : cs = <[core g := m']> (cores e)).
  { unfold cs, VisState.fold_segment. rewrite (generation_of_Some _ _ _ Hm), Egen, Z.eqb_refl. simpl.
    assert (Esum : (if snd (span g) <=? fst (span g) then (cores e, 0)
 else match VisibilityBufferPool.sum_retired (pool (vis e)) (mem e) (submit_seq g) (buffer g) (span g) with
  | Some s => (cores e, s) | None => (alter QueryCore.mark_uncounted (core g) (cores e), 0) end) = (cores e, segval F e g)).
    { destruct (snd (span g) <=? fst (span g)) eqn:E; reflect_cmp; [unfold segval; by rewrite seg_empty|].
      rewrite (sum_retired_spec F coh fl e g B P) by (try done; try lia; apply HF). done. }
    rewrite Esum. rewrite (alter_Some (QueryCore.accumulate_segment (segval F e g)) (core g) m (cores e) Hm). unfold m'. destruct (closes_span g); [|done].
    rewrite (alter_Some _ _ (QueryCore.accumulate_segment (segval F e g) m)) by (by rewrite lookup_insert_eq).
    by rewrite insert_insert_eq. }
  assert (Hf : folded m m').
  { unfold m'. destruct (closes_span g); simpl; split; simpl; auto. right. split; [done|]. split; [done|lia]. }
  assert (Hfields : offset_begin m' = offset_begin m /\ uncounted m' = uncounted m) by (unfold m'; by destruct (closes_span g)).
  destruct Hfields as [Hoff Hunc].
  rewrite Ecs. set (e' := with_pending e rest _).
  split.
  2:{ intros q. destruct (decide (q = core g)) as [->|Hne].
    - rewrite Hm, lookup_insert_eq. by exists m'.
    - rewrite lookup_insert_ne by done. apply cores_folded_refl. }
  assert (Hcnt : forall q mx, counted e' q mx -> exists my, counted e q my /\ offset_begin my = offset_begin mx).
  { intros q mx (Ha & Hq & Hu). cbn in Hq. destruct (decide (q = core g)) as [->|Hne].
    - rewrite lookup_insert_eq in Hq. injection Hq as <-. exists m. rewrite Hunc in Hu. by split.
    - rewrite lookup_insert_ne in Hq by done. exists mx. by split. }
  pose proof S as []. split; try done.
  - intros q sq Hsq. destruct (decide (q = core g)) as [->|Hne].
    + rewrite Hs in Hsq. injection Hsq as <-. exists m'. split; [cbn; by rewrite lookup_insert_eq|].
      eapply (held_fold_query F failed e e' (core g) m m' s g rest); try done; [apply C|].
      unfold open_part. by rewrite Hoff.
    + destruct (si_query0 q sq Hsq) as (mq & Hmq & []). exists mq. split; [cbn; by rewrite lookup_insert_ne|].
      assert (Eown : forall n, own e' q n = own e q n).
      { intros n. unfold own. cbn. rewrite Hp, filter_cons. rewrite decide_False; [done|]. intros [E1 _]. by apply Hne. }
      split; try done; rewrite ?Eown; try done. intros Hd. unfold waiting. rewrite Eown. exact (qi_wait0 Hd).
  - intros q mq. destruct (decide (q = core g)) as [->|Hne]; [by rewrite Hs|].
    cbn. rewrite lookup_insert_ne by done. apply si_fresh0.
  - intros g' Hg'. destruct (si_pending0 g' (Hsub g' Hg')) as [? ? (mq & Hmq & ?) ? ?]. split; try done. cbn.
    destruct (decide (core g' = core g)) as [E|Hne].
    + rewrite E, lookup_insert_eq. exists m'. split; [done|]. rewrite (f_issue _ _ Hf).
      rewrite E, Hm in Hmq. by injection Hmq as <-.
    + rewrite lookup_insert_ne by done. by exists mq.
  - intros t Ht. destruct (si_mode0 t Ht) as [H1 H2]. split; [|intros g' Hg'; by apply H2, Hsub].
    intros q mx Hq. destruct (Hcnt q mx Hq) as (my & Hmy & <-). by apply (H1 q).
  - intros Hl q mx Hq. destruct (Hcnt q mx Hq) as (my & Hmy & _). by apply (si_latch0 Hl q my).
  - intros Hx. destruct (si_exhausted0 Hx) as [? Hno]. split; [done|]. intros q mx Hq.
    destruct (Hcnt q mx Hq) as (my & Hmy & _). by apply (Hno q my).
Qed.
End Fold.

Lemma intake_loop_kept p mem coh cs l : (forall g, g ∈ l -> coh < submit_seq g) -> VisState.intake_loop p mem coh cs l = (l, cs).
Proof.
  induction l as [|g l IH]; intros H; [done|]. simpl. rewrite (proj2 (Z.ltb_lt _ _)) by (apply H; left).
  rewrite IH; [done|]. intros; apply H; by right.
Qed.

Lemma with_pending_inv F coh fl e l cs : count_inv e -> buf_inv F coh fl [] e ->
  count_inv (with_pending e l cs) /\ buf_inv F coh fl [] (with_pending e l cs).
Proof. intros [] []. by split. Qed.

Lemma intake_loop_spec F T failed coh fl l : flown_nonneg F -> forall e kept cs,
  count_inv e -> buf_inv F coh fl [] e -> span_inv F T failed e -> pending (vis e) = l ->
  VisState.intake_loop (pool (vis e)) (mem e) coh (cores e) l = (kept, cs) ->
  span_inv F T failed (with_pending e kept cs) /\ cores_rel folded (cores e) cs
  /\ (forall g, g ∈ kept -> coh < submit_seq g /\ g ∈ l).
Proof.
  intros HF. induction l as [|g l IH]; intros e kept cs C B S Hp H; simpl in H.
  - injection H as <- <-. split; [|split; [apply cores_folded_refl|by intros g ?%elem_of_nil]].
    destruct e as [[] ? ? ? ? ?]. cbn in Hp. subst. exact S.
  - destruct (coh <? submit_seq g) eqn:E; reflect_cmp.
    + assert (Hall : forall x, x ∈ l -> coh < submit_seq x).
      { pose proof (si_sorted _ _ _ _ S) as Hs. rewrite Hp in Hs. simpl in Hs. inversion Hs as [|? ? _ Hle]; subst.
        intros x Hx. rewrite Forall_forall in Hle. specialize (Hle (submit_seq x) ltac:(by apply list_elem_of_fmap_2)). lia. }
      rewrite intake_loop_kept in H by done. injection H as <- <-.
      split; [|split; [apply cores_folded_refl|]].
      * destruct e as [[] ? ? ? ? ?]. cbn in Hp. subst. exact S.
      * intros x Hx. split; [|done]. apply elem_of_cons in Hx as [->|Hx]; [done|by apply Hall].
    + destruct (fold_step F T failed coh fl e C B HF g l S Hp ltac:(lia)) as [S' Hf].
      destruct (with_pending_inv F coh fl e l (VisState.fold_segment (pool (vis e)) (mem e) (cores e) g) C B) as [C' B'].
      destruct (IH (with_pending e l (VisState.fold_segment (pool (vis e)) (mem e) (cores e) g)) kept cs C' B' S' eq_refl H)
      as (H1 & H2 & H3).
      split; [exact H1|]. split; [by eapply cores_folded_trans|]. intros x Hx. destruct (H3 x Hx). split; [done|by right].
Qed.

Lemma intake_spec F T failed coh fl e :
  flown_nonneg F -> inv F T failed coh fl e ->
  inv F T failed coh fl (intake_visibility e coh) /\ cores_rel folded (cores e) (cores (intake_visibility e coh))
  /\ (forall g, g ∈ pending (vis (intake_visibility e coh)) -> coh < submit_seq g /\ g ∈ pending (vis e)).
Proof.
  intros HF [C B S]. unfold intake_visibility, VisState.intake_completed.
  destruct (VisState.intake_loop (pool (vis e)) (mem e) coh (cores e) (pending (vis e))) as [kept cs] eqn:El.
  destruct (VisibilityBufferPool.release_up_to (pool (vis e)) coh) as [ev p] eqn:Er.
  destruct (intake_loop_spec F T failed coh fl _ HF e kept cs C B S eq_refl El) as (S1 & Hf & Hk).
  destruct (with_pending_inv F coh fl e kept cs C B) as [C1 B1]. set (e1 := with_pending e kept cs) in *.
  set (e' := set_cores e _ cs).
  destruct (release_up_to_spec _ _ _ _ Er) as ([out Ho] & Hr & Hfr).
  assert (Eret : retired e' = VisibilityBufferPool.retired p) by done. assert (Efree : free e' = VisibilityBufferPool.free p) by done.
  change (VisibilityBufferPool.retired (pool (vis e))) with (retired e1) in Ho, Hr, Hfr.
  change (VisibilityBufferPool.free (pool (vis e))) with (free e1) in Ho, Hfr.
  split; [|split; [exact Hf|exact Hk]].
  assert (Hin : forall b, b ∈ retired e' ++ free e' -> b ∈ retired e1 ++ free e1).
  { intros b Hb. rewrite <- Ho, <- Eret, <- Efree. apply elem_of_app. by left. }
  split.
  - destruct C1. by split.
  - pose proof B1 as []. split; try done.
    + assert (Hnd : NoDup ((vb_id <$> frame e' ++ [] ++ retired e' ++ free e') ++ (vb_id <$> out))).
      { eapply NoDup_Permutation_proper; [|exact b_ids0]. rewrite <- fmap_app. apply fmap_Permutation.
        rewrite !app_nil_l, <- Ho, <- app_assoc. done. }
      by apply NoDup_app in Hnd as [? _].
    + intros b Hb. apply b_old0. rewrite app_nil_l in *. apply elem_of_app in Hb as [Hb|Hb]; apply elem_of_app; [by left|right; by apply Hin].
    + intros b Hb. apply b_slots0. rewrite app_nil_l in *. apply elem_of_app in Hb as [Hb|Hb]; apply elem_of_app; [by left|right; by apply Hin].
    + intros b s Hb Hs. rewrite Efree in Hb. destruct (Hfr b Hb) as [Hb'|[Hb' Hle]]; [by apply b_free0|].
      destruct (b_ret0 b Hb') as (_ & _ & Hz & Hm). change (mem e' (vb_id b) s) with (mem e1 (vb_id b) s).
      rewrite Hm. rewrite (proj2 (Z.leb_le _ _)) by done. by apply Hz.
    + intros b Hb. apply b_ret0. rewrite Eret in Hb. by apply Hr in Hb as [? _].
    + assert (Hsub : exists out', retired e' ++ out' ≡ₚ retired e1).
      { exists (filter (λ b, release_seq b <= coh) (retired e1)).
        assert (Hnd1 : NoDup (retired e1)) by (by eapply NoDup_fmap_1).
        assert (Hnd2 : NoDup (retired e')).
        { assert (Hn : NoDup ((retired e' ++ free e') ++ out)).
          { eapply NoDup_Permutation_proper; [exact Ho|]. apply NoDup_fmap_1 in b_ids0. rewrite app_nil_l in b_ids0.
  by apply NoDup_app in b_ids0 as (_ & _ & ?). }
          apply NoDup_app in Hn as (Hn & _ & _). by apply NoDup_app in Hn as (? & _ & _). }
        apply NoDup_Permutation; [|done|].
        - apply NoDup_app. split; [done|]. split; [|by apply NoDup_filter]. intros b Hb Hb2.
          rewrite Eret in Hb. apply Hr in Hb as [_ Hb]. apply list_elem_of_filter in Hb2 as [Hb2 _]. lia.
        - intros b. rewrite elem_of_app, Eret, Hr, list_elem_of_filter. split; [tauto|]. intros Hb.
          destruct (Z_le_dec (release_seq b) coh); [tauto|]. left. split; [done|lia]. }
      destruct Hsub as [out' Hp]. assert (Hnd : NoDup (((λ b, (release_seq b, vb_index b)) <$> retired e') ++ ((λ b, (release_seq b, vb_index b)) <$> out'))).
      { rewrite <- fmap_app. eapply NoDup_Permutation_proper; [apply fmap_Permutation; exact Hp|done]. }
      by apply NoDup_app in Hnd as [? _].
    + intros sub Hs. destruct (b_flight0 sub Hs) as (H1 & H2 & H3 & H4 & H5). split; [done|]. split; [done|]. split; [done|].
      assert (Hsc : coh < sub_seq sub).
      { assert (Hi : sub_seq sub ∈ sub_seq <$> fl) by (by apply list_elem_of_fmap_2). rewrite b_flights0 in Hi.
        apply elem_of_seqZ in Hi. lia. }
      split.
      * intros id Hid. destruct (H4 id Hid) as (b & Hb & Eid & Ers). exists b. split; [|done]. rewrite Eret. apply Hr. split; [done|lia].
      * intros b Hb. apply H5. rewrite Eret in Hb. by apply Hr in Hb as [? _].
  - destruct S1. split; try done.
    + intros q s Hs. destruct (si_query0 q s Hs) as (m & Hm & []). by exists m.
    + intros g Hg. destruct (si_pending0 g Hg). split; try done. intros H1 H2. destruct (pe_there0 H1 H2) as (b & Hb & Ers & ?).
      exists b. split; [|done]. rewrite Eret. apply Hr. split; [done|]. destruct (Hk g Hg). lia.
Qed.
End Inv.
