(* ===== verification/VisibilityWorld.v ===== *)
(** Application, encoder and GPU together: the API half of a query
    ([query.rs]), the packet queue, the submissions in flight, and what every
    interleaving of them answers. *)

From S2P Require Import Prelude Visibility VisibilityPasses VisibilityInv.

(** ** The application, the encoder and the GPU *)

Definition D3DISSUE_END : Z := 1.
Definition D3DISSUE_BEGIN : Z := 2.

(** [query_issue] on an occlusion query, up to the packets it queues; the
    extents are those of the render target bound when the packets run. *)
Definition query_issue (q : Z) (m : QueryMailbox) (flags : Z) (logical render : Z * Z) : option (list Packet * QueryMailbox) :=
  let begin := flag flags D3DISSUE_BEGIN in
  let end_ := flag flags D3DISSUE_END in
  let '(begin, end_) :=
    if end_ && negb begin then
      match QueryCore.end_issue m with Close => (false, true) | OpenAndClose => (true, true) | Keep => (false, false) end
    else (begin, end_) in
  '(ps, m) ← (if begin then '(g, m) ← QueryCore.mark_armed m; Some ([PBegin q g logical render], m) else Some ([], m));
  Some (if end_ then let '(g, m) := QueryCore.mark_end_requested m in (ps ++ [PEnd q g], m) else (ps, m)).

(** [close_released_span]. *)
Definition close_released_span (q : Z) (m : QueryMailbox) : list Packet * QueryMailbox :=
  if QueryCore.span_open m then let '(g, m) := QueryCore.mark_end_requested m in ([PEnd q g], m) else ([], m).

(** The encoder takes one packet; [ok] is whether a buffer it wraps can be had. *)
Definition process (e : Encoder) (ok : bool) (p : Packet) : list Submission * Encoder :=
  match p with
  | PBegin q g logical render => ([], begin_visibility_query e ok q g logical render)
  | PEnd q g => ([], end_visibility_query e ok q g)
  | PDraw n => ([], emit_draw e ok n)
  | PQuad n => ([], emit_clear_quad e n)
  | PPassEnd => ([], set_passes e (PassOps.end_current_pass (pass_state e)))
  | PSubmit => let '(s, e) := submit_frame e in ([s], e)
  end.

(** [issued] and [refused] are the history: every packet queued, and whether a
    visibility buffer could ever not be had. *)
Record World := mkWorld {
  enc : Encoder; queue : list Packet; flights : list Submission; coherent : Z;
  issued : list Packet; refused : bool }.

Definition world_new (slots : Z) : World :=
  mkWorld (mkEncoder (VisState.new slots) ∅ (λ _ _, 0) PassOps.new 1 0) [] [] 0 [] false.

Inductive Label :=
  | Create (q : Z)
  | Issue (q flags : Z) (logical render : Z * Z)
  | Release (q : Z)
  | Draw (samples : Z)
  | ClearQuad (samples : Z)
  | EndPass
  | Submit
  | Process (ok : bool)
  | Retire
  | Intake.

Definition set_mailbox (e : Encoder) (q : Z) (m : QueryMailbox) : Encoder := set_cores e (vis e) (<[q := m]> (cores e)).

Definition push_packets (w : World) (e : Encoder) (ps : list Packet) : World :=
  mkWorld e (queue w ++ ps) (flights w) (coherent w) (issued w ++ ps) (refused w).

Definition step (w : World) (l : Label) : option World :=
  match l with
  | Create q =>
      match cores (enc w) !! q with
      | None => Some (push_packets w (set_mailbox (enc w) q mailbox_new) [])
      | Some _ => None
      end
  | Issue q flags logical render =>
      m ← cores (enc w) !! q;
      '(ps, m) ← query_issue q m flags logical render;
      Some (push_packets w (set_mailbox (enc w) q m) ps)
  | Release q =>
      m ← cores (enc w) !! q;
      let '(ps, m) := close_released_span q m in Some (push_packets w (set_mailbox (enc w) q m) ps)
  | Draw n => if 0 <=? n then Some (push_packets w (enc w) [PDraw n]) else None
  | ClearQuad n => Some (push_packets w (enc w) [PQuad n])
  | EndPass => Some (push_packets w (enc w) [PPassEnd])
  | Submit => Some (push_packets w (enc w) [PSubmit])
  | Process ok =>
      match queue w with
      | [] => None
      | p :: rest =>
          let '(subs, e) := process (enc w) ok p in
          Some (mkWorld e rest (flights w ++ subs) (coherent w) (issued w) (refused w || negb ok))
      end
  | Retire =>
      match flights w with
      | [] => None
      | sub :: rest =>
          Some (mkWorld (set_mem (enc w) (gpu_submission sub (mem (enc w)))) (queue w) rest (coherent w + 1) (issued w) (refused w))
      end
  | Intake => Some (mkWorld (intake_visibility (enc w) (coherent w)) (queue w) (flights w) (coherent w) (issued w) (refused w))
  end.

Fixpoint run (w : World) (ls : list Label) : option World :=
  match ls with
  | [] => Some w
  | l :: rest => w' ← step w l; run w' rest
  end.

(** The samples and the number of the draws issued. *)
Definition drawn (l : list Packet) : Z := zsum ((λ p, match p with PDraw n => n | _ => 0 end) <$> l).
Definition draws (l : list Packet) : Z := zsum ((λ p, match p with PDraw _ => 1 | _ => 0 end) <$> l).

(** ** Histories *)

Definition nonneg (p : Packet) : Prop := match p with PDraw n => 0 <= n | _ => True end.

Lemma drawn_app l l' : drawn (l ++ l') = drawn l + drawn l'.
Proof. unfold drawn. by rewrite fmap_app, zsum_app. Qed.

Lemma draws_app l l' : draws (l ++ l') = draws l + draws l'.
Proof. unfold draws. by rewrite fmap_app, zsum_app. Qed.

Lemma drawn_nonneg l : Forall nonneg l -> 0 <= drawn l.
Proof. intros H. apply zsum_nonneg, Forall_fmap. eapply Forall_impl; [exact H|]. intros []; simpl; lia. Qed.

Lemma draws_nonneg l : 0 <= draws l.
Proof. apply zsum_nonneg, Forall_fmap, Forall_forall. intros []; simpl; lia. Qed.

Lemma spec_run_snoc l p : spec_run (l ++ [p]) = spec_packet (spec_run l) p.
Proof. unfold spec_run. by rewrite foldl_app. Qed.

Lemma spec_run_app l l' : spec_run (l ++ l') = foldl spec_packet (spec_run l) l'.
Proof. unfold spec_run. by rewrite foldl_app. Qed.

(** A bracket holds draws of the history. *)
Lemma spec_bounds l q s : Forall nonneg l -> spec_run l !! q = Some s ->
  0 <= sp_total s <= drawn l /\ 0 <= sp_draws s <= draws l.
Proof.
  revert q s. induction l as [|p l IH] using rev_ind; intros q s Hl; [change (spec_run []) with (∅ : gmap Z Span); by rewrite lookup_empty|].
  apply Forall_app in Hl as [Hl Hp]. rewrite Forall_singleton in Hp.
  pose proof (drawn_nonneg l Hl). pose proof (draws_nonneg l).
  rewrite spec_run_snoc, drawn_app, draws_app. unfold drawn at 2, draws at 2.
  destruct p as [q' g la ra|q' g|n|n| |]; simpl; unfold zsum; cbn [foldr]; rewrite ?Z.add_0_r; intros Hs.
  - destruct (decide (q = q')) as [->|Hne]; [rewrite lookup_insert_eq in Hs; injection Hs as <-; simpl; lia|].
    rewrite lookup_insert_ne in Hs by done. by apply IH with q.
  - destruct (decide (q = q')) as [->|Hne]; [|rewrite lookup_alter_ne in Hs by done; by apply IH with q].
    rewrite lookup_alter_eq in Hs. destruct (spec_run l !! q') as [s0|] eqn:E; [|done]. injection Hs as <-. simpl. by apply IH with q'.
  - rewrite lookup_fmap in Hs. destruct (spec_run l !! q) as [s0|] eqn:E; [|done]. injection Hs as <-.
    specialize (IH q s0 Hl E). simpl in Hp. unfold span_draw. destruct (sp_open s0); simpl; lia.
  - by apply IH with q.
  - by apply IH with q.
  - by apply IH with q.
Qed.

Definition packet_ok (T : gmap Z Span) (cs : Cores) (p : Packet) : Prop :=
  match p with
  | PBegin q g _ _ => is_Some (cs !! q) /\ 1 <= g /\ (forall s, T !! q = Some s -> sp_gen s < g)
  | PEnd q _ => exists s, T !! q = Some s /\ sp_open s = true
  | _ => True
  end.

Fixpoint queue_ok (T : gmap Z Span) (cs : Cores) (l : list Packet) : Prop :=
  match l with
  | [] => True
  | p :: rest => packet_ok T cs p /\ queue_ok (spec_packet T p) cs rest
  end.

Lemma queue_ok_app T cs l l' : queue_ok T cs (l ++ l') <-> queue_ok T cs l /\ queue_ok (foldl spec_packet T l) cs l'.
Proof. revert T. induction l as [|p l IH]; intros T; simpl; [tauto|]. rewrite IH. tauto. Qed.

Lemma queue_ok_cores T cs cs' l : (forall q, is_Some (cs !! q) -> is_Some (cs' !! q)) -> queue_ok T cs l -> queue_ok T cs' l.
Proof.
  intros H. revert T. induction l as [|p l IH]; intros T; simpl; [done|]. intros [Hp Hq]. split; [|by apply IH].
  destruct p; simpl in *; try done. destruct Hp as (? & ? & ?). auto.
Qed.

(** Later packets never lower a bracket's generation, and leave a closed one alone. *)
Lemma queue_gen T cs l q s : queue_ok T cs l -> T !! q = Some s ->
  exists s', foldl spec_packet T l !! q = Some s' /\ sp_gen s <= sp_gen s'
    /\ (sp_gen s' = sp_gen s -> sp_open s = false -> s' = s).
Proof.
  revert T s. induction l as [|p l IH]; intros T s Hq Hs; simpl; [exists s; split; [done|]; split; [lia|done]|].
  destruct Hq as [Hp Hq].
  assert (H1 : exists s1, spec_packet T p !! q = Some s1 /\ sp_gen s <= sp_gen s1
    /\ (sp_gen s1 = sp_gen s -> sp_open s = false -> s1 = s)).
  { destruct p as [q' g la ra|q' g|n|n| |]; simpl in *; try (exists s; split; [done|]; split; [lia|done]).
    - destruct (decide (q = q')) as [->|Hne].
      + rewrite lookup_insert_eq. eexists. split; [done|]. destruct Hp as (_ & _ & Hg). specialize (Hg s Hs). simpl. split; [lia|]. intros; lia.
      + rewrite lookup_insert_ne by done. exists s. split; [done|]. split; [lia|done].
    - destruct (decide (q = q')) as [->|Hne].
      + rewrite lookup_alter_eq, Hs. simpl. eexists. split; [done|]. split; [simpl; lia|]. intros _ Ho.
        destruct Hp as (s0 & Hs0 & Ho0). congruence.
      + rewrite lookup_alter_ne by done. exists s. split; [done|]. split; [lia|done].
    - rewrite lookup_fmap, Hs. simpl. eexists. split; [done|]. unfold span_draw. destruct (sp_open s) eqn:Ho; simpl; [split; [lia|done]|].
      split; [lia|done]. }
  destruct H1 as (s1 & Hs1 & Hg1 & He1). destruct (IH _ s1 Hq Hs1) as (s' & Hs' & Hg' & He').
  exists s'. split; [done|]. split; [lia|]. intros Hg Ho. assert (s1 = s) as -> by (apply He1; [lia|done]). by apply He'.
Qed.

(** ** The world's invariant *)

(** The application's half of a mailbox against the brackets it has issued. *)
Record api_ok (T : gmap Z Span) (q : Z) (m : QueryMailbox) : Prop := {
  ao_spec : match T !! q with
    | Some s => requested_generation m = sp_gen s /\ 1 <= sp_gen s /\ end_requested_ m = (if sp_open s then 0 else 1)
    | None => requested_generation m = 0 /\ end_requested_ m = 0
    end;
  ao_never : requested_generation m = 0 -> status_ m = status_code NeverIssued;
  ao_issue : issue_generation m <= requested_generation m;
  ao_done : issue_generation m = requested_generation m -> result_generation m = issue_generation m -> issue_generation m <> 0 ->
    status_ m = status_code Issued;
}.

Record world_ok (F : Z -> list Pass) (processed : list Packet) (w : World) : Prop := {
  wi_issued : issued w = processed ++ queue w;
  wi_pos : Forall nonneg (issued w);
  wi_fpos : flown_nonneg F;
  wi_inv : inv u64_max F (spec_run processed) (refused w) (coherent w) (flights w) (enc w);
  wi_queue : queue_ok (spec_run processed) (cores (enc w)) (queue w);
  wi_api : forall q m, cores (enc w) !! q = Some m -> api_ok (spec_run (issued w)) q m;
  wi_cut : forall l, processed = l ++ [PSubmit] -> forall g, g ∈ pending (vis (enc w)) -> submit_seq g < cur (enc w);
}.

Definition world_inv (w : World) : Prop := exists F processed, world_ok F processed w.

(** What the application writes in a mailbox is no business of the encoder's. *)
Record touched (m m' : QueryMailbox) : Prop := {
  t_issue : issue_generation m' = issue_generation m;
  t_carried : carried m' = carried m;
  t_accumulated : accumulated m' = accumulated m;
  t_areas : (logical_area m', render_area m') = (logical_area m, render_area m);
  t_begin : draws_at_begin m' = draws_at_begin m;
  t_span : draws_in_span m' = draws_in_span m;
  t_offset : offset_begin m' = offset_begin m;
  t_uncounted : uncounted m' = uncounted m;
  t_result : result_generation m' = result_generation m;
}.

Lemma query_inv_touched mx F failed e e' q m m' s :
  query_inv mx F failed e q m s -> touched m m' -> vis e' = vis e -> pass_state e' = pass_state e -> cur e' = cur e ->
  query_inv mx F failed e' q m' s.
Proof.
  intros [] [] Ev Ep Ec.
  assert (Eseg : forall g, segval F e' g = segval F e g) by (intros; unfold segval, frame_passes; by rewrite Ec, Ep).
  assert (Eown : forall n, own e' q n = own e q n) by (intros; unfold own; by rewrite Ev).
  assert (Ew : forall n, waiting F e' q n = waiting F e q n)
    by (intros; unfold waiting; rewrite Eown; f_equal; apply list_fmap_ext; intros; apply Eseg).
  assert (Eo : open_part e' m' s = open_part e m s) by (unfold open_part, here, idx; by rewrite Ev, Ep, t_offset0).
  split; rewrite ?Ev, ?Eown, ?Ew, ?Eo, ?t_issue0, ?t_carried0, ?t_accumulated0, ?t_areas0, ?t_begin0, ?t_span0, ?t_offset0,
    ?t_uncounted0, ?t_result0; done.
Qed.

Lemma mailbox_inv mx F T failed coh fl e q m' :
  inv mx F T failed coh fl e ->
  match cores e !! q with Some m => touched m m' | None => m' = mailbox_new end ->
  inv mx F T failed coh fl (set_mailbox e q m').
Proof.
  intros [C B S] Hm. set (e' := set_mailbox e q m'). split; [by destruct C|by destruct B|].
  assert (Hl : forall x, cores e' !! x = if decide (x = q) then Some m' else cores e !! x).
  { intros x. cbn. destruct (decide (x = q)) as [->|?]; [apply lookup_insert_eq|by apply lookup_insert_ne]. }
  destruct S.
  assert (HT : is_Some (T !! q) -> is_Some (cores e !! q)) by (intros [s Hs]; destruct (si_query q s Hs) as (m & -> & _); by eexists).
  assert (Hcnt : forall x mx', counted e' x mx' -> exists m0, counted e x m0 /\ offset_begin m0 = offset_begin mx').
  { intros x mx' (Ha & Hx & Hu). rewrite Hl in Hx. destruct (decide (x = q)) as [->|?]; [|by exists mx'].
    injection Hx as <-. destruct (HT (si_active q Ha)) as [m E]. rewrite E in Hm. destruct Hm.
    exists m. split; [|done]. split; [done|]. split; [done|congruence]. }
  split; try done.
  - intros x s Hs. destruct (si_query x s Hs) as (m & E & Q). rewrite Hl. destruct (decide (x = q)) as [->|?].
    + rewrite E in Hm. exists m'. split; [done|]. by eapply query_inv_touched.
    + exists m. split; [done|]. by eapply query_inv_touched.
  - intros x mx'. rewrite Hl. destruct (decide (x = q)) as [->|?]; [|by apply si_fresh]. intros [= <-] Hx.
    destruct (cores e !! q) as [m|] eqn:E; [|by subst]. destruct (si_fresh q m E Hx). destruct Hm. split; congruence.
  - intros g Hg. destruct (si_pending g Hg) as [? ? (m & E & Hr) ? ?]. split; try done. rewrite Hl.
    destruct (decide (core g = q)) as [Eq|?]; [|by exists m]. subst q. rewrite E in Hm. exists m'. split; [done|].
    by rewrite (t_issue _ _ Hm).
  - intros t Ht. destruct (si_mode t Ht) as [H1 H2]. split; [|done]. intros x mx' Hx.
    destruct (Hcnt x mx' Hx) as (m0 & H0 & <-). by apply (H1 x).
  - intros Hlat x mx' Hx. destruct (Hcnt x mx' Hx) as (m0 & H0 & _). by apply (si_latch Hlat x m0).
  - intros Hx. destruct (si_exhausted Hx) as [? Hno]. split; [done|]. intros x mx' Hc.
    destruct (Hcnt x mx' Hc) as (m0 & H0 & _). by apply (Hno x m0).
Qed.

(** Queuing packets about one query. *)
Lemma push_ok F processed w q m' ps :
  world_ok F processed w ->
  match cores (enc w) !! q with Some m => touched m m' | None => m' = mailbox_new end ->
  Forall nonneg ps ->
  queue_ok (spec_run (issued w)) (<[q := m']> (cores (enc w))) ps ->
  api_ok (spec_run (issued w ++ ps)) q m' ->
  (forall x m, x <> q -> cores (enc w) !! x = Some m -> spec_run (issued w ++ ps) !! x = spec_run (issued w) !! x) ->
  world_ok F processed (push_packets w (set_mailbox (enc w) q m') ps).
Proof.
  intros [] Hm Hps Hq Ha Hx. split; cbn [push_packets issued queue flights coherent refused enc set_mailbox set_cores cores].
  - rewrite wi_issued0. by rewrite app_assoc.
  - by apply Forall_app.
  - done.
  - by apply mailbox_inv.
  - apply queue_ok_app. split.
    + eapply queue_ok_cores; [|exact wi_queue0]. intros x Hs. destruct (decide (x = q)) as [->|?]; [rewrite lookup_insert_eq; by eexists|].
      by rewrite lookup_insert_ne.
    + rewrite wi_issued0, spec_run_app in Hq. exact Hq.
  - intros x m. destruct (decide (x = q)) as [->|Hne].
    + rewrite lookup_insert_eq. by intros [= <-].
    + rewrite lookup_insert_ne by done. intros E. destruct (wi_api0 x m E). split; try done. by rewrite (Hx x m).
  - exact wi_cut0.
Qed.

(** Queuing packets about no query. *)
Lemma push_other F processed w p :
  world_ok F processed w -> nonneg p -> (forall T cs, packet_ok T cs p) ->
  (forall T q, match T !! q with
     | Some s => exists s', spec_packet T p !! q = Some s' /\ sp_gen s' = sp_gen s /\ sp_open s' = sp_open s
     | None => spec_packet T p !! q = None end) ->
  world_ok F processed (push_packets w (enc w) [p]).
Proof.
  intros [] Hp Hok HT. split; cbn [push_packets issued queue flights coherent refused enc]; try done.
  - by rewrite wi_issued0, app_assoc.
  - apply Forall_app. split; [done|by apply Forall_singleton].
  - apply queue_ok_app. split; [done|]. split; [apply Hok|done].
  - intros q m Hm. destruct (wi_api0 q m Hm). split; try done. rewrite spec_run_snoc.
    specialize (HT (spec_run (issued w)) q). destruct (spec_run (issued w) !! q) as [s|].
    + destruct HT as (s' & -> & Eg & Eo). by rewrite Eg, Eo.
    + by rewrite HT.
Qed.

Lemma query_issue_ok q m flags la ra ps m' T :
  query_issue q m flags la ra = Some (ps, m') -> api_ok T q m -> result_generation m <= issue_generation m -> 0 <= issue_generation m ->
  forall cs, cs !! q = Some m' ->
  touched m m' /\ Forall nonneg ps /\ queue_ok T cs ps /\ api_ok (foldl spec_packet T ps) q m'
  /\ (forall x, x <> q -> foldl spec_packet T ps !! x = T !! x).
Proof.
  intros Hi [Hs Hnv His Hd] Hri Hi0 cs Hcs.
  assert (Hopen : forall s, T !! q = Some s -> QueryCore.end_requested m = negb (sp_open s)).
  { intros s E. rewrite E in Hs. destruct Hs as (_ & _ & Hs). unfold QueryCore.end_requested. rewrite Hs. by destruct (sp_open s). }
  (* an END on its own *)
  assert (Hclose : forall s m1, T !! q = Some s -> sp_open s = true -> QueryCore.mark_end_requested m = m1 ->
     touched m (snd m1) /\ api_ok (spec_packet T (PEnd q (fst m1))) q (snd m1)).
  { intros s m1 E Ho <-. rewrite E in Hs. split; [done|]. split; [|done|done|done]. simpl. rewrite lookup_alter_eq, E. simpl.
    destruct Hs as (? & ? & ?). done. }
  (* a BEGIN *)
  assert (Hbegin : forall g m1, QueryCore.mark_armed m = Some (g, m1) ->
     touched m m1 /\ is_Some (T !! q) <-> touched m m1 /\ is_Some (T !! q)) by done.
  assert (Harm : forall g m1, QueryCore.mark_armed m = Some (g, m1) -> touched m m1
     /\ (1 <= g /\ forall s, T !! q = Some s -> sp_gen s < g)
     /\ api_ok (spec_packet T (PBegin q g la ra)) q m1
     /\ requested_generation m1 = g /\ issue_generation m1 < g).
  { intros g m1. unfold QueryCore.mark_armed, checked. destruct ((0 <=? requested_generation m + 1) && _) eqn:E; [|done].
    simpl. intros [= <- <-]. reflect_cmp. split; [done|]. split; [split; [lia|]|].
    - intros s Es. rewrite Es in Hs. destruct Hs as (<- & _). lia.
    - simpl. split; [|lia]. split; simpl.
      + rewrite lookup_insert_eq. simpl. lia.
      + lia.
      + lia.
      + lia. }
  clear Hbegin. revert Hi. unfold query_issue.
  set (b := flag flags D3DISSUE_BEGIN). set (en := flag flags D3DISSUE_END). clearbody b en.
  assert (Hb : forall en', (
    '(ps, m) ← ('(g, m) ← QueryCore.mark_armed m; Some ([PBegin q g la ra], m));
     Some (if (en' : bool) then let '(g, m) := QueryCore.mark_end_requested m in (ps ++ [PEnd q g], m) else (ps, m))) = Some (ps, m') ->
    touched m m' /\ Forall nonneg ps /\ queue_ok T cs ps /\ api_ok (foldl spec_packet T ps) q m'
    /\ (forall x, x <> q -> foldl spec_packet T ps !! x = T !! x)).
  { intros en'. destruct (QueryCore.mark_armed m) as [[g m1]|] eqn:Ea; [|done]. simpl.
    destruct (Harm g m1 eq_refl) as (H1 & [H2 H3] & H4 & H5 & H6). destruct en'; simpl; intros [= <- <-].
    - split; [by destruct H1; split|]. split; [by repeat constructor|]. split; [|split].
      + split; [split; [by eexists|done]|]. split; [|done]. simpl. rewrite lookup_insert_eq. by eexists.
      + destruct H4 as [W1 W0 W2 W3]. split; simpl; [|done|done|].
        * rewrite lookup_alter_eq, lookup_insert_eq. simpl. rewrite H5. done.
        * intros E _. simpl in W2. rewrite H5 in E. lia.
      + intros x Hx. simpl. by rewrite lookup_alter_ne, lookup_insert_ne.
    - split; [done|]. split; [by repeat constructor|]. split; [|split; [done|]].
      + split; [split; [by eexists|done]|done].
      + intros x Hx. simpl. by rewrite lookup_insert_ne. }
  destruct (en && negb b) eqn:Eb.
  - unfold QueryCore.end_issue. destruct (requested_generation m =? 0) eqn:Er; [apply (Hb true)|]. reflect_cmp.
    destruct (T !! q) as [s|] eqn:Es; [|destruct Hs; congruence].
    rewrite (Hopen s eq_refl). destruct (sp_open s) eqn:Ho; simpl; intros [= <- <-].
    + destruct (Hclose s _ eq_refl Ho eq_refl) as [H1 H2]. split; [done|]. split; [by repeat constructor|].
      split; [split; [by exists s|done]|]. split; [exact H2|]. intros x Hx. simpl. by rewrite lookup_alter_ne.
    + split; [done|]. split; [done|]. split; [done|]. split; [|done]. split; [simpl; by rewrite Es, Ho|done|done|done].
  - destruct b; [apply (Hb en)|]. destruct en; [done|]. intros [= <- <-]. split; [done|]. split; [done|]. split; [done|].
    split; [by split|done].
Qed.

(** ** Every step keeps it *)

Definition within (w : World) : Prop := drawn (issued w) <= u64_max /\ draws (issued w) <= u64_max.

Lemma api_ok_held T q m m' : api_ok T q m -> held m m' -> api_ok T q m'.
Proof.
  intros [] []. split.
  - by rewrite h_requested, h_end.
  - by rewrite h_requested, h_status.
  - by rewrite h_issue, h_requested.
  - rewrite h_issue, h_requested, h_result, h_status. done.
Qed.

Lemma api_ok_folded T q m m' : api_ok T q m -> folded m m' -> api_ok T q m'.
Proof.
  intros [] []. split.
  - by rewrite f_requested, f_end.
  - rewrite f_requested. destruct f_result as [[-> _]|(_ & _ & ?)]; [done|intros; lia].
  - by rewrite f_issue, f_requested.
  - rewrite f_issue, f_requested. destruct f_result as [[-> ->]|(-> & -> & _)]; done.
Qed.

Lemma api_all (R : QueryMailbox -> QueryMailbox -> Prop) T (cs cs' : Cores) :
  (forall q m m', api_ok T q m -> R m m' -> api_ok T q m') -> cores_rel R cs cs' ->
  (forall q m, cs !! q = Some m -> api_ok T q m) -> forall q m, cs' !! q = Some m -> api_ok T q m.
Proof.
  intros HR Hrel H q m' Hm. specialize (Hrel q). destruct (cs !! q) as [m|] eqn:E; [|congruence].
  destruct Hrel as (m1 & E1 & Hr). rewrite E1 in Hm. injection Hm as <-. eapply HR; [by apply H|done].
Qed.

Lemma cores_rel_some R (cs cs' : Cores) q : cores_rel R cs cs' -> is_Some (cs !! q) -> is_Some (cs' !! q).
Proof. intros H [m Hm]. specialize (H q). rewrite Hm in H. destruct H as (m' & -> & _). by eexists. Qed.

Lemma end_held e ok q g : cores_rel held (cores e) (cores (end_visibility_query e ok q g)).
Proof.
  unfold end_visibility_query. destruct (allocate_visibility_slot e ok) as [slot e1] eqn:Ea.
  eapply cores_held_trans; [by eapply allocate_held|].
  assert (H : cores_rel held (cores e1) (alter (QueryCore.end_recorded g (current_submit_seq e1) (draws_seen (vis e1))) q (cores e1)))
    by (by apply cores_held_alter).
  destruct slot; cbn; [done|]. eapply cores_held_trans; [exact H|]. by apply cores_held_alter.
Qed.

Lemma draw_held e ok n : cores_rel held (cores e) (cores (emit_draw e ok n)).
Proof.
  unfold emit_draw, reserve_draw_visibility_slot. destruct (_ || _); [apply cores_held_refl|].
  destruct (allocate_visibility_slot e ok) as [slot e1] eqn:Ea. cbn. by eapply allocate_held.
Qed.

Lemma submit_held e : cores_rel held (cores e) (cores (snd (submit_frame e))).
Proof. cbn. by apply cores_held_on. Qed.

Lemma begin_cores e ok q g la ra x : x <> q ->
  match cores e !! x with
  | Some m => exists m', cores (begin_visibility_query e ok q g la ra) !! x = Some m' /\ held m m'
  | None => cores (begin_visibility_query e ok q g la ra) !! x = None
  end.
Proof.
  intros Hx. unfold begin_visibility_query. destruct (allocate_visibility_slot e ok) as [slot e1] eqn:Ea.
  pose proof (allocate_held _ _ _ _ Ea x) as H.
  destruct slot; cbn; rewrite !lookup_alter_ne by done; exact H.
Qed.

Lemma begin_core e ok q g la ra m : cores e !! q = Some m ->
  exists m', cores (begin_visibility_query e ok q g la ra) !! q = Some m'
    /\ issue_generation m' = g /\ requested_generation m' = requested_generation m /\ end_requested_ m' = end_requested_ m
    /\ result_generation m' = result_generation m.
Proof.
  intros Hm. unfold begin_visibility_query. destruct (allocate_visibility_slot e ok) as [slot e1] eqn:Ea.
  pose proof (allocate_held _ _ _ _ Ea q) as H. rewrite Hm in H. destruct H as (m1 & Hm1 & []).
  destruct slot; cbn; rewrite !lookup_alter_eq, Hm1; simpl; eexists; split_and!; try done; congruence.
Qed.

Lemma flown_nonneg_submit e F : count_inv e -> flown_nonneg F -> flown_nonneg (flown F e).
Proof. intros C HF s b t. unfold flown. destruct (_ =? _); [apply (c_nonneg _ C)|apply HF]. Qed.

Lemma process_ok F processed w p rest ok :
  world_ok F processed w -> within w -> queue w = p :: rest ->
  exists F', world_ok F' (processed ++ [p])
    (mkWorld (snd (process (enc w) ok p)) rest (flights w ++ fst (process (enc w) ok p)) (coherent w) (issued w) (refused w || negb ok)).
Proof.
  intros [] [Hb1 Hb2] Eq. rewrite Eq in *. destruct wi_queue0 as [Hp Hq].
  assert (Hiss : issued w = (processed ++ [p]) ++ rest) by (by rewrite <- app_assoc).
  assert (Hpos : Forall nonneg processed /\ nonneg p /\ Forall nonneg rest).
  { rewrite wi_issued0 in wi_pos0. apply Forall_app in wi_pos0 as [? H]. by inversion H. }
  destruct Hpos as (Hpos & Hpp & Hposr).
  assert (Hmono : forall F e, inv u64_max F (spec_run processed) (refused w) (coherent w) (flights w) e ->
     inv u64_max F (spec_run processed) (refused w || negb ok) (coherent w) (flights w) e).
  { intros F0 e [C B S]. split; try done. eapply span_inv_mono; [|done]. by intros ->. }
  (* the packets that leave the generations alone *)
  assert (Hheld : forall F' subs e', flown_nonneg F' -> cores_rel held (cores (enc w)) (cores e') ->
     (p = PSubmit -> forall g, g ∈ pending (vis e') -> submit_seq g < cur e') ->
     inv u64_max F' (spec_run (processed ++ [p])) (refused w || negb ok) (coherent w) (flights w ++ subs) e' ->
     world_ok F' (processed ++ [p]) (mkWorld e' rest (flights w ++ subs) (coherent w) (issued w) (refused w || negb ok))).
  { intros F' subs e' HF' Hr Hcut Hinv. split; cbn [enc queue flights coherent issued refused]; try done.
    - rewrite spec_run_snoc. eapply queue_ok_cores; [|exact Hq]. intros q. by eapply cores_rel_some.
    - eapply (api_all held); [apply api_ok_held|exact Hr|done].
    - intros l El. apply app_inj_tail in El as [_ El]. by apply Hcut. }
  rewrite <- spec_run_snoc in Hq.
  destruct p as [q g la ra|q g|n|n| |]; cbn [process fst snd].
  - destruct Hp as ([m Hm] & Hg1 & Hg2). exists F.
    assert (Hlt : issue_generation m < g).
    { destruct (spec_run processed !! q) as [s|] eqn:E.
      - destruct (si_query _ _ _ _ _ (i_span _ _ _ _ _ _ _ wi_inv0) q s E) as (m0 & Hm0 & Q). rewrite Hm in Hm0. injection Hm0 as <-.
        destruct (qi_gen _ _ _ _ _ _ _ Q) as [-> _]. by apply Hg2.
      - destruct (si_fresh _ _ _ _ _ (i_span _ _ _ _ _ _ _ wi_inv0) q m Hm E). lia. }
    set (e' := begin_visibility_query (enc w) ok q g la ra).
    destruct (begin_core (enc w) ok q g la ra m Hm) as (m' & Hm' & E1 & E2 & E3 & E4). fold e' in Hm'.
    assert (Hoth : forall x, x <> q -> match cores (enc w) !! x with
        | Some m => exists m', cores e' !! x = Some m' /\ held m m' | None => cores e' !! x = None end)
      by (intros x Hx; by apply begin_cores).
    split; cbn [enc queue flights coherent issued refused]; try done.
    + rewrite app_nil_r, spec_run_snoc. eapply begin_spec; try done.
    + eapply queue_ok_cores; [|exact Hq]. intros x. destruct (decide (x = q)) as [->|Hne]; [intros _; rewrite Hm'; by eexists|].
      intros [mx Hx]. specialize (Hoth x Hne). rewrite Hx in Hoth. destruct Hoth as (mx' & -> & _). by eexists.
    + intros x mx Hx. destruct (decide (x = q)) as [->|Hne].
      * rewrite Hm' in Hx. injection Hx as <-. pose proof (wi_api0 q m Hm) as [Hs Hn Hi Hd].
        assert (Hge : g <= requested_generation m).
        { destruct (queue_gen _ _ _ q (mkSpan g true 0 0 (QueryCore.area la, QueryCore.area ra)) Hq) as (s' & Hs' & Hge & _).
          - rewrite spec_run_snoc. simpl. by rewrite lookup_insert_eq.
          - rewrite <- spec_run_app, <- Hiss in Hs'. rewrite Hs' in Hs. simpl in Hge. lia. }
        split; [by rewrite E2, E3|lia|lia|]. intros _ Hr. exfalso.
        pose proof (result_le _ _ _ _ _ _ _ (i_span _ _ _ _ _ _ _ wi_inv0) Hm). lia.
      * specialize (Hoth x Hne). destruct (cores (enc w) !! x) as [m0|] eqn:E0; [|congruence].
        destruct Hoth as (m1 & H1 & Hh). rewrite H1 in Hx. injection Hx as <-. eapply api_ok_held; [by apply wi_api0|done].
    + intros l El. by apply app_inj_tail in El as [_ El].
  - exists F. apply Hheld; [done|apply end_held|done|]. rewrite app_nil_r, spec_run_snoc. destruct Hp as (s & Hs & Ho).
    assert (Ealter : spec_packet (spec_run processed) (PEnd q g) = <[q := span_close s]> (spec_run processed))
      by (simpl; by apply alter_Some).
    rewrite Ealter. by eapply end_spec.
  - exists F. apply Hheld; [done|apply draw_held|done|]. rewrite app_nil_r, spec_run_snoc. apply draw_spec; try done.
    intros q s Hs Ho. destruct (spec_bounds _ _ _ Hpos Hs) as [? ?].
    rewrite Hiss, !drawn_app in Hb1. rewrite Hiss, !draws_app in Hb2. pose proof (drawn_nonneg rest Hposr). pose proof (draws_nonneg rest).
    unfold drawn at 2 in Hb1. unfold draws at 2 in Hb2. simpl in Hb1, Hb2. unfold zsum in Hb1, Hb2. simpl in Hb1, Hb2. lia.
  - exists F. apply Hheld; [done|apply cores_held_refl|done|]. rewrite app_nil_r, spec_run_snoc. apply quad_spec. by apply Hmono.
  - exists F. apply Hheld; [done|apply cores_held_refl|done|]. rewrite app_nil_r, spec_run_snoc. apply pass_end_spec. by apply Hmono.
  - exists (flown F (enc w)). pose proof (submit_held (enc w)) as Hsh.
    pose proof (submit_spec u64_max F _ _ _ _ _ (Hmono F _ wi_inv0)) as Hs.
    assert (Hlt : forall g, g ∈ pending (vis (snd (submit_frame (enc w)))) -> submit_seq g < cur (snd (submit_frame (enc w)))).
    { intros g Hg. destruct (submit_fields (enc w)) as (Ecur & _). rewrite Ecur.
      destruct (cut_gen u64_max _ _ _ _ _ _ _ _ (submit_cut F (enc w)) (i_span _ _ _ _ _ _ _ wi_inv0) Hg). lia. }
    destruct (submit_frame (enc w)) as [sub e'] eqn:Es. cbn [fst snd] in *.
    apply Hheld; [|exact Hsh| |].
    + apply flown_nonneg_submit; [|done]. apply wi_inv0.
    + done.
    + rewrite spec_run_snoc. exact Hs.
Qed.

Lemma intake_cur e coh : cur (intake_visibility e coh) = cur e.
Proof. unfold intake_visibility. by destruct (VisState.intake_completed _ _ _ _) as [[? ?] ?]. Qed.

Lemma step_ok w l w' : world_inv w -> within w -> step w l = Some w' -> world_inv w'.
Proof.
  intros (F & processed & W) Hb. pose proof W as [].
  assert (Hrle : forall q m, cores (enc w) !! q = Some m -> result_generation m <= issue_generation m /\ 0 <= issue_generation m).
  { intros q m Hm. pose proof (i_span _ _ _ _ _ _ _ wi_inv0) as S. split; [by eapply result_le|].
    destruct (spec_run processed !! q) as [s|] eqn:E; [|destruct (si_fresh _ _ _ _ _ S q m Hm E); lia].
    destruct (si_query _ _ _ _ _ S q s E) as (m0 & Hm0 & Q). rewrite Hm in Hm0. injection Hm0 as <-. destruct (qi_gen _ _ _ _ _ _ _ Q). lia. }
  destruct l as [q|q flags la ra|q|n|n| | |ok| |]; cbn [step].
  - destruct (cores (enc w) !! q) as [m|] eqn:E; [done|]. intros [= <-]. exists F, processed. apply push_ok; try done.
    + by rewrite E.
    + rewrite app_nil_r. destruct (spec_run (issued w) !! q) as [s|] eqn:Es.
      * exfalso. assert (Hnone : spec_run processed !! q = None).
        { destruct (spec_run processed !! q) as [s0|] eqn:E0; [|done].
          destruct (si_query _ _ _ _ _ (i_span _ _ _ _ _ _ _ wi_inv0) q s0 E0) as (? & ? & _). congruence. }
        rewrite wi_issued0, spec_run_app in Es. revert wi_queue0 Hnone Es. generalize (spec_run processed). clear -E.
        induction (queue w) as [|p l IH]; intros T; simpl; [congruence|]. intros [Hp Hq] Hn. apply IH; [done|].
        destruct p as [q' g la ra|q' g|n|n| |]; simpl in *; try done.
        -- rewrite lookup_insert_ne; [done|]. intros ->. destruct Hp as ([? ?] & _). congruence.
        -- destruct (decide (q = q')) as [->|?]; [by rewrite lookup_alter_eq, Hn|by rewrite lookup_alter_ne].
        -- by rewrite lookup_fmap, Hn.
      * split; [by rewrite Es|done|simpl; lia|done].
    + by rewrite app_nil_r.
  - destruct (cores (enc w) !! q) as [m|] eqn:E; [|done]. simpl.
    destruct (query_issue q m flags la ra) as [[ps m']|] eqn:Ei; [|done]. simpl. intros [= <-]. exists F, processed.
    destruct (Hrle q m E). destruct (query_issue_ok q m flags la ra ps m' (spec_run (issued w)) Ei (wi_api0 q m E) ltac:(done) ltac:(done)
      (<[q := m']> (cores (enc w)))) as (H1 & H2 & H3 & H4 & H5); [by rewrite lookup_insert_eq|].
    apply push_ok; try done; rewrite ?E, ?spec_run_app; try done. intros x mx Hx _. by apply H5.
  - destruct (cores (enc w) !! q) as [m|] eqn:E; [|done]. simpl. unfold close_released_span.
    pose proof (wi_api0 q m E) as [Hs Hn Hi Hd].
    destruct (QueryCore.span_open m) eqn:Eo; intros [= <-]; exists F, processed.
    + unfold QueryCore.span_open in Eo. reflect_cmp. unfold QueryCore.end_requested in *. reflect_cmp.
      destruct (spec_run (issued w) !! q) as [s|] eqn:Es; [|destruct Hs; congruence].
      assert (Ho : sp_open s = true) by (destruct Hs as (_ & _ & Hs); destruct (sp_open s); [done|congruence]).
      apply push_ok; try done.
      * by rewrite E.
      * by repeat constructor.
      * split; [by exists s|done].
      * rewrite spec_run_snoc. split; simpl; [|done|done|done]. rewrite lookup_alter_eq, Es. simpl. tauto.
      * intros x mx Hx _. rewrite spec_run_snoc. simpl. by rewrite lookup_alter_ne.
    + apply push_ok; try done.
      * by rewrite E.
      * rewrite app_nil_r. by split.
      * by rewrite app_nil_r.
  - destruct (0 <=? n) eqn:En; [|done]. reflect_cmp. intros [= <-]. exists F, processed. apply push_other; try done.
    intros T q. simpl. rewrite lookup_fmap. destruct (T !! q) as [s|]; [|done]. eexists. split; [done|]. unfold span_draw. by destruct (sp_open s) eqn:?.
  - intros [= <-]. exists F, processed. apply push_other; try done. intros T q. destruct (T !! q) as [s|] eqn:?; eauto.
  - intros [= <-]. exists F, processed. apply push_other; try done. intros T q. destruct (T !! q) as [s|] eqn:?; eauto.
  - intros [= <-]. exists F, processed. apply push_other; try done. intros T q. destruct (T !! q) as [s|] eqn:?; eauto.
  - destruct (queue w) as [|p rest] eqn:Eq; [done|]. destruct (process_ok F processed w p rest ok W Hb Eq) as [F' W'].
    destruct (process (enc w) ok p) as [subs e']. intros [= <-]. by exists F', (processed ++ [p]).
  - destruct (flights w) as [|sub rest] eqn:Ef; [done|]. intros [= <-]. exists F, processed. split; try done. by apply gpu_spec.
  - intros [= <-]. exists F, processed. destruct (intake_spec u64_max ltac:(done) _ _ _ _ _ _ wi_fpos0 wi_inv0) as (H1 & H2 & H3).
    split; cbn [enc queue flights coherent issued refused]; try done.
    + eapply queue_ok_cores; [|done]. intros q. by eapply cores_rel_some.
    + eapply (api_all folded); [apply api_ok_folded|exact H2|done].
    + intros l El g Hg. destruct (H3 g Hg) as [_ Hg']. rewrite intake_cur. by apply (wi_cut0 l El).
Qed.

Lemma query_issue_nonneg q m flags la ra ps m' : query_issue q m flags la ra = Some (ps, m') -> Forall nonneg ps.
Proof.
  unfold query_issue. destruct (if flag flags D3DISSUE_END && _ then _ else _) as [b en].
  destruct b; [destruct (QueryCore.mark_armed m) as [[g m1]|]; [|done]|]; destruct en; simpl; intros [= <- <-]; by repeat constructor.
Qed.

Lemma step_issued w l w' : step w l = Some w' -> exists ps, issued w' = issued w ++ ps /\ Forall nonneg ps.
Proof.
  assert (Hnil : exists ps, issued w = issued w ++ ps /\ Forall nonneg ps) by (exists []; by rewrite app_nil_r).
  destruct l as [q|q flags la ra|q|n|n| | |ok| |]; cbn [step].
  - destruct (cores (enc w) !! q); [done|]. intros [= <-]. by exists [].
  - destruct (cores (enc w) !! q) as [m|]; [|done]. simpl. destruct (query_issue q m flags la ra) as [[ps m']|] eqn:E; [|done].
    simpl. intros [= <-]. exists ps. split; [done|]. by eapply query_issue_nonneg.
  - destruct (cores (enc w) !! q) as [m|]; [|done]. simpl. unfold close_released_span.
    destruct (QueryCore.span_open m); intros [= <-]; eexists; (split; [done|]); by repeat constructor.
  - destruct (0 <=? n) eqn:En; [|done]. reflect_cmp. intros [= <-]. eexists. split; [done|]. by repeat constructor.
  - intros [= <-]. eexists. split; [done|]. by repeat constructor.
  - intros [= <-]. eexists. split; [done|]. by repeat constructor.
  - intros [= <-]. eexists. split; [done|]. by repeat constructor.
  - destruct (queue w); [done|]. destruct (process _ _ _). by intros [= <-].
  - destruct (flights w); [done|]. by intros [= <-].
  - by intros [= <-].
Qed.

Lemma within_mono w l w' : step w l = Some w' -> within w' -> within w.
Proof.
  intros Hs [H1 H2]. destruct (step_issued _ _ _ Hs) as (ps & E & Hp). rewrite E, drawn_app in H1. rewrite E, draws_app in H2.
  pose proof (drawn_nonneg ps Hp). pose proof (draws_nonneg ps). split; lia.
Qed.

Lemma run_within w ls w' : run w ls = Some w' -> within w' -> within w.
Proof.
  revert w. induction ls as [|l ls IH]; intros w; simpl; [by intros [= ->]|]. destruct (step w l) as [w1|] eqn:E; [|done].
  simpl. intros H Hw. eapply within_mono; [done|]. by eapply IH.
Qed.

Lemma world_run_ok w ls w' : world_inv w -> run w ls = Some w' -> within w' -> world_inv w'.
Proof.
  revert w. induction ls as [|l ls IH]; intros w Hi; simpl; [by intros [= <-]|]. destruct (step w l) as [w1|] eqn:E; [|done].
  simpl. intros H Hw. eapply IH; [|done|done]. eapply step_ok; [done| |done]. eapply within_mono; [done|]. by eapply run_within.
Qed.

Lemma world_new_inv slots : 1 <= slots <= u32_max -> world_inv (world_new slots).
Proof.
  intros Hs. exists (λ _, []), []. split; try done; [|by intros [] ?].
  split.
  - split; cbn; try done; try lia. split; cbn; try done; intros p Hp; by apply elem_of_nil in Hp.
  - split; cbn; try done; try (intros b Hb; by apply elem_of_nil in Hb); try lia; try constructor.
  - split; cbn; try done; try constructor; intros; try (by apply elem_of_nil in H).
Qed.

(** ** What the queries answer *)

(** C4: An occlusion query never answers wrongly.  For any interleaving of the
    application's calls, the encoder's work, the GPU's retirements and the
    intakes, a query whose status reads Issued holds the samples of exactly the
    draws between its last BEGIN and END (in the pixels the application was
    told of), however the bracket was cut by passes, buffers and submissions;
    or [u32::MAX], and then only if the bracket drew something and a visibility
    buffer could not be had. *)
Theorem query_answers slots ls w q m :
  1 <= slots <= u32_max -> run (world_new slots) ls = Some w ->
  drawn (issued w) <= u64_max -> draws (issued w) <= u64_max ->
  cores (enc w) !! q = Some m -> QueryCore.status m = Issued ->
  exists s, spec_run (issued w) !! q = Some s /\ sp_open s = false
    /\ (QueryCore.get_u64 m = QueryCore.logical_samples (sp_total s) (snd (sp_areas s)) (fst (sp_areas s))
        \/ QueryCore.get_u64 m = u32_max /\ sp_draws s <> 0 /\ refused w = true).
Proof.
  intros Hsl Hrun Hd1 Hd2 Hm Hst.
  destruct (world_run_ok _ _ _ (world_new_inv slots Hsl) Hrun (conj Hd1 Hd2)) as (F & processed & []).
  pose proof (i_span _ _ _ _ _ _ _ wi_inv0) as S. pose proof (wi_api0 q m Hm) as [Hs Hn Hi _].
  unfold QueryCore.status in Hst.
  destruct ((status_ m =? status_code Issued) && (result_generation m =? requested_generation m)) eqn:E;
    [|by destruct ((requested_generation m =? 0) && _)]. apply andb_true_iff in E as [E1 E2]. apply Z.eqb_eq in E1, E2.
  pose proof (result_le _ _ _ _ _ _ _ S Hm) as Hrl. assert (Eri : result_generation m = issue_generation m) by lia.
  assert (Eir : issue_generation m = requested_generation m) by lia.
  destruct (spec_run processed !! q) as [s|] eqn:Es.
  2:{ destruct (si_fresh _ _ _ _ _ S q m Hm Es). rewrite Hn in E1 by lia. done. }
  destruct (si_query _ _ _ _ _ S q s Es) as (m0 & Hm0 & Q). rewrite Hm in Hm0. injection Hm0 as <-.
  destruct (qi_done _ _ _ _ _ _ _ Q Eri) as (Ho & Hans & _). destruct (qi_gen _ _ _ _ _ _ _ Q) as [Hg _].
  destruct (queue_gen _ _ _ q s wi_queue0 Es) as (s' & Hs' & Hge & Heq). rewrite <- spec_run_app, <- wi_issued0 in Hs'.
  rewrite Hs' in Hs. destruct Hs as (Hr & _). assert (s' = s) as -> by (apply Heq; [lia|done]).
  exists s. split; [done|]. split; [done|]. unfold QueryCore.get_u64. rewrite (proj2 (Z.eqb_eq _ _)) by done. exact Hans.
Qed.

(** C5: Every ended query is answered.  Once the queue is empty, the last packet
    was a submission and the GPU has retired every submission, one intake leaves
    every query whose END was issued with status Issued. *)
Theorem query_finishes slots ls w w' l q m :
  1 <= slots <= u32_max -> run (world_new slots) ls = Some w ->
  drawn (issued w) <= u64_max -> draws (issued w) <= u64_max ->
  queue w = [] -> flights w = [] -> issued w = l ++ [PSubmit] -> step w Intake = Some w' ->
  cores (enc w') !! q = Some m -> QueryCore.end_requested m = true -> QueryCore.status m = Issued.
Proof.
  intros Hsl Hrun Hd1 Hd2 Hq Hf Hl Hstep Hm He.
  pose proof (world_run_ok _ _ _ (world_new_inv slots Hsl) Hrun (conj Hd1 Hd2)) as Hw.
  destruct Hw as (F & processed & W). pose proof W as []. rewrite Hq, app_nil_r in wi_issued0.
  cbn [step] in Hstep. injection Hstep as <-. cbn [enc] in Hm.
  destruct (intake_spec u64_max ltac:(done) _ _ _ _ _ _ wi_fpos0 wi_inv0) as (I & Hr & Hp).
  set (e' := intake_visibility (enc w) (coherent w)) in *.
  pose proof (api_all folded _ _ _ (api_ok_folded _) Hr wi_api0 q m Hm) as [Hs _ _ Hdone].
  assert (Hpend : pending (vis e') = []).
  { destruct (pending (vis e')) as [|g rest]; [done|]. destruct (Hp g) as [H1 H2]; [left|].
    rewrite wi_issued0 in Hl. specialize (wi_cut0 l Hl g H2).
    pose proof (b_flights _ _ _ _ _ (i_buf _ _ _ _ _ _ _ wi_inv0)) as Hb. rewrite Hf in Hb.
    pose proof (f_equal length Hb) as Hlen. rewrite length_seqZ in Hlen. simpl in Hlen. lia. }
  rewrite wi_issued0 in Hs. destruct (spec_run processed !! q) as [s|] eqn:Es.
  2:{ destruct Hs as [_ Hs]. unfold QueryCore.end_requested in He. by rewrite Hs in He. }
  destruct Hs as (Hreq & Hg1 & Hend).
  destruct (si_query _ _ _ _ _ (i_span _ _ _ _ _ _ _ I) q s Es) as (m0 & Hm0 & Q). rewrite Hm in Hm0. injection Hm0 as <-.
  destruct (qi_gen _ _ _ _ _ _ _ Q) as [Hg _].
  assert (Ho : sp_open s = false) by (unfold QueryCore.end_requested in He; rewrite Hend in He; by destruct (sp_open s)).
  assert (Hres : result_generation m = issue_generation m).
  { destruct (Z.eq_dec (result_generation m) (issue_generation m)) as [|Hne]; [done|].
    destruct (qi_wait _ _ _ _ _ _ _ Q Hne) as (Hc & _). unfold own in Hc. rewrite Hpend, Ho in Hc. simpl in Hc.
    destruct Hc as (k & g & Hk & _). by destruct k. }
  unfold QueryCore.status. rewrite Hdone by lia. rewrite (proj2 (Z.eqb_eq (result_generation m) _)) by lia. done.
Qed.


(** A bracket held across a submission, with a [Clear] and a pass break inside
    it, a second query begun under it, and draws outside both. *)
Definition trace : list Label :=
  [Create 1; Create 2; Draw 7; Issue 1 2 (640, 480) (640, 480); Draw 10; ClearQuad 99; EndPass;
   Issue 2 2 (4, 4) (2, 2); Draw 5; Issue 1 1 (0, 0) (0, 0); Submit; Draw 3; Issue 2 1 (0, 0) (0, 0); Draw 50; Submit]
  ++ replicate 13 (Process true) ++ [Retire; Intake; Retire].

Definition world_after (ls : list Label) : World := default (world_new 0) (run (world_new 32768) ls).
Definition mailbox_of (w : World) (q : Z) : QueryMailbox := default mailbox_new (cores (enc w) !! q).

Lemma query_answers_witness :
  exists s, spec_run (issued (world_after (trace ++ [Intake]))) !! 2 = Some s /\ sp_open s = false
    /\ (QueryCore.get_u64 (mailbox_of (world_after (trace ++ [Intake])) 2)
          = QueryCore.logical_samples (sp_total s) (snd (sp_areas s)) (fst (sp_areas s))
        \/ QueryCore.get_u64 (mailbox_of (world_after (trace ++ [Intake])) 2) = u32_max /\ sp_draws s <> 0
           /\ refused (world_after (trace ++ [Intake])) = true).
Proof.
  assert (E : is_Some (run (world_new 32768) (trace ++ [Intake]))) by (apply (bool_decide_unpack _); vm_compute; exact I).
  apply (query_answers 32768 (trace ++ [Intake])).
  - unfold u32_max. lia.
  - unfold world_after. destruct E as [w ->]. reflexivity.
  - apply Z.leb_le. vm_compute. reflexivity.
  - apply Z.leb_le. vm_compute. reflexivity.
  - assert (E2 : is_Some (cores (enc (world_after (trace ++ [Intake]))) !! 2)) by (apply (bool_decide_unpack _); vm_compute; exact I).
    unfold mailbox_of. destruct E2 as [m ->]. reflexivity.
  - vm_compute. reflexivity.
Defined.

Lemma query_finishes_witness : QueryCore.status (mailbox_of (world_after (trace ++ [Intake])) 1) = Issued.
Proof.
  assert (E : is_Some (run (world_new 32768) trace)) by (apply (bool_decide_unpack _); vm_compute; exact I).
  apply (query_finishes 32768 trace (world_after trace) (world_after (trace ++ [Intake]))
    (take 12 (issued (world_after trace))) 1).
  - unfold u32_max. lia.
  - unfold world_after. destruct E as [w ->]. reflexivity.
  - apply Z.leb_le. vm_compute. reflexivity.
  - apply Z.leb_le. vm_compute. reflexivity.
  - vm_compute. reflexivity.
  - vm_compute. reflexivity.
  - vm_compute. reflexivity.
  - unfold world_after. assert (Er : forall ls w l, run w (ls ++ [l]) = w' ← run w ls; step w' l).
    { induction ls as [|x ls IH]; intros w l; simpl; [destruct (step w l); done|]. destruct (step w x); simpl; [apply IH|done]. }
    rewrite Er. destruct E as [w ->]. reflexivity.
  - assert (E2 : is_Some (cores (enc (world_after (trace ++ [Intake]))) !! 1)) by (apply (bool_decide_unpack _); vm_compute; exact I).
    unfold mailbox_of. destruct E2 as [m ->]. reflexivity.
  - vm_compute. reflexivity.
Defined.
