(* ===== verification/RenderScale.v ===== *)
(** [render_scale.rs]: from the resolution D3D9 reports to the one that is
    rasterized.  Everything but the two [f32] values ([factor], [lod_bias]). *)

From S2P Require Import Prelude.

Definition i32_max : Z := 2147483647.

(** [compute_mip_count] of [format.rs]; [32 - leading_zeros] of a non-zero
    [u32] is the place of its top bit, plus one. *)
Definition compute_mip_count (width height : Z) : Z :=
  let max_dim := Z.max width height in
  if max_dim =? 0 then 1 else Z.log2 max_dim + 1.

(** A [RenderScale] is its percentage. *)
Module RenderScale.
Definition IDENTITY : Z := 100.

Definition from_percent (percent : Z) : Z := if percent =? 0 then 1 else if 100 <? percent then 100 else percent.

Definition is_identity (s : Z) : bool := s =? 100.

(** The products are [u64]s of [u32]s: they do not wrap. *)
Definition dimension (s logical : Z) : Z :=
  if is_identity s || (logical =? 0) then logical
  else
    let scaled := (logical * s + 50) / 100 in
    Z.max (if scaled <=? u32_max then scaled else u32_max) 1.

Definition rect (s : Z) (x y width height : Z) : Z * Z * Z * Z :=
  if is_identity s then (x, y, width, height)
  else
    let '(x1, x2) := (dimension s x, dimension s (x +| width)%u32) in
    let '(y1, y2) := (dimension s y, dimension s (y +| height)%u32) in
    (x1, y1, (x2 -% x1)%u32, (y2 -% y1)%u32).

(** [i32::try_from] of a [u32], saturating. *)
Definition signed (v : Z) : Z := Z.min v i32_max.

Definition rect_edges_i32 (s : Z) (r : Z * Z * Z * Z) : Z * Z * Z * Z :=
  let '(r0, r1, r2, r3) := r in
  if is_identity s then r
  else
    let e v := signed (dimension s (Z.max v 0)) in
    (e r0, e r1, e r2, e r3).
End RenderScale.

Definition pinned_edge (scaled v logical texture : Z) : Z :=
  match v ?= logical with
  | Lt => Z.min scaled texture
  | Eq => texture
  | Gt => Z.max scaled texture
  end.

Module TargetExtent.
Record t := mk { scale : Z; logical : Z * Z; texture : Z * Z }.

Definition whole (s : Z) (logical : Z * Z) : t :=
  mk s logical (RenderScale.dimension s (fst logical), RenderScale.dimension s (snd logical)).

(** [checked_shr]: no result for a shift of 32 or more. *)
Definition halve (base level : Z) : Z := Z.max (if level <? 32 then Z.shiftr base level else 0) 1.

Definition mip_level (s : Z) (logical base_texture : Z * Z) (level : Z) : t :=
  mk s logical (halve (fst base_texture) level, halve (snd base_texture) level).

Definition edge_x (e : t) (v : Z) : Z := pinned_edge (RenderScale.dimension (scale e) v) v (fst (logical e)) (fst (texture e)).
Definition edge_y (e : t) (v : Z) : Z := pinned_edge (RenderScale.dimension (scale e) v) v (snd (logical e)) (snd (texture e)).

Definition rect (e : t) (x y width height : Z) : Z * Z * Z * Z :=
  if RenderScale.is_identity (scale e) then (x, y, width, height)
  else
    let '(x1, x2) := (edge_x e x, edge_x e (x +| width)%u32) in
    let '(y1, y2) := (edge_y e y, edge_y e (y +| height)%u32) in
    (x1, y1, (x2 -% x1)%u32, (y2 -% y1)%u32).

Definition rect_edges_i32 (e : t) (r : Z * Z * Z * Z) : Z * Z * Z * Z :=
  let '(r0, r1, r2, r3) := r in
  if RenderScale.is_identity (scale e) then r
  else
    (RenderScale.signed (edge_x e (Z.max r0 0)), RenderScale.signed (edge_y e (Z.max r1 0)),
     RenderScale.signed (edge_x e (Z.max r2 0)), RenderScale.signed (edge_y e (Z.max r3 0))).
End TargetExtent.

Definition rasterized_level_count (s : Z) (logical : Z * Z) (levels : Z) : Z :=
  if RenderScale.is_identity s then levels
  else Z.min levels
         (compute_mip_count (RenderScale.dimension s (fst logical)) (RenderScale.dimension s (snd logical))).

Definition rasterized_level (level rasterized_levels : Z) : Z :=
  if level <? rasterized_levels then level else (rasterized_levels -| 1)%u32.

Example scaled_rect : RenderScale.rect 75 640 100 1 333 = (480, 75, 1, 250).
Proof. reflexivity. Qed.

Example deep_level : TargetExtent.rect (TargetExtent.mip_level 75 (5, 3) (480, 360) 7) 0 0 5 3 = (0, 0, 3, 2).
Proof. reflexivity. Qed.

(** ** One dimension *)

Definition scale_ok (s : Z) : Prop := 1 <= s <= 100.

Lemma from_percent_ok percent : 0 <= percent -> scale_ok (RenderScale.from_percent percent).
Proof. intros. unfold RenderScale.from_percent, scale_ok. split_ifs; lia. Qed.

(** Rounded to nearest, never zero, never above the logical size, and the
    saturating conversion never saturates. *)
Lemma dimension_exact s l : scale_ok s -> is_u32 l ->
  RenderScale.dimension s l = (if l =? 0 then 0 else Z.max ((l * s + 50) / 100) 1).
Proof.
  unfold scale_ok, is_u32, u32_max. intros Hs Hl. unfold RenderScale.dimension, RenderScale.is_identity, u32_max.
  destruct (s =? 100) eqn:E; reflect_cmp; simpl.
  - subst. destruct (l =? 0) eqn:El; reflect_cmp; [done|]. Z.to_euclidean_division_equations. lia.
  - destruct (l =? 0) eqn:El; reflect_cmp; [done|].
    rewrite (proj2 (Z.leb_le _ _)); [done|]. Z.to_euclidean_division_equations. nia.
Qed.

Lemma dimension_range s l : scale_ok s -> is_u32 l ->
  0 <= RenderScale.dimension s l <= l /\ (0 < l -> 1 <= RenderScale.dimension s l).
Proof.
  intros Hs Hl. rewrite dimension_exact by done. unfold scale_ok, is_u32, u32_max in *.
  destruct (l =? 0) eqn:E; reflect_cmp; [lia|]. Z.to_euclidean_division_equations. nia.
Qed.

Lemma dimension_mono s l l' : scale_ok s -> is_u32 l -> is_u32 l' -> l <= l' ->
  RenderScale.dimension s l <= RenderScale.dimension s l'.
Proof.
  intros Hs Hl Hl' Hle. rewrite !dimension_exact by done. unfold scale_ok, is_u32, u32_max in *.
  destruct (l =? 0) eqn:E, (l' =? 0) eqn:E'; reflect_cmp; try lia.
  pose proof (Z.div_le_mono (l * s + 50) (l' * s + 50) 100 ltac:(lia) ltac:(nia)). lia.
Qed.

(** ** Edges *)

Record extent_ok (e : TargetExtent.t) : Prop := {
  eo_scale : scale_ok (TargetExtent.scale e);
  eo_scaled : RenderScale.is_identity (TargetExtent.scale e) = false;
  eo_logical_x : 1 <= fst (TargetExtent.logical e) <= i32_max;
  eo_logical_y : 1 <= snd (TargetExtent.logical e) <= i32_max;
  eo_texture_x : 1 <= fst (TargetExtent.texture e) <= i32_max;
  eo_texture_y : 1 <= snd (TargetExtent.texture e) <= i32_max;
}.

(** What the pinning promises on one axis. *)
Lemma pinned_edge_spec s l t v v' :
  scale_ok s -> 1 <= l <= i32_max -> 1 <= t <= i32_max -> is_u32 v -> is_u32 v' -> v <= v' ->
  let edge v := pinned_edge (RenderScale.dimension s v) v l t in
  edge 0 = 0 /\ edge l = t /\ 0 <= edge v <= edge v' /\ edge v' <= u32_max
  /\ (v' <= l -> edge v' <= t) /\ (l <= v -> t <= edge v) /\ (v' <= i32_max -> edge v' <= i32_max).
Proof.
  intros Hs Hl Ht Hv Hv' Hle edge. unfold edge, pinned_edge. clear edge.
  pose proof (dimension_mono s v v' Hs Hv Hv' Hle). destruct (dimension_range s v Hs Hv) as [? _].
  destruct (dimension_range s v' Hs Hv') as [? _].
  assert (Hz : RenderScale.dimension s 0 = 0) by (unfold RenderScale.dimension; rewrite orb_true_r; done).
  rewrite Hz, Z.compare_refl. unfold is_u32, u32_max, i32_max in *.
  destruct (Z.compare_spec 0 l); [lia| |lia]. destruct (Z.compare_spec v l), (Z.compare_spec v' l); subst; lia.
Qed.

Definition edge_laws (edge : Z -> Z) (l t v v' : Z) : Prop :=
  edge 0 = 0 /\ edge l = t /\ 0 <= edge v <= edge v' /\ edge v' <= u32_max
  /\ (v' <= l -> edge v' <= t) /\ (l <= v -> t <= edge v) /\ (v' <= i32_max -> edge v' <= i32_max).

Lemma edge_x_spec e v v' : extent_ok e -> 0 <= v <= v' -> v' <= i32_max ->
  edge_laws (TargetExtent.edge_x e) (fst (TargetExtent.logical e)) (fst (TargetExtent.texture e)) v v'.
Proof. intros [] ? ?. apply pinned_edge_spec; try done; unfold is_u32, u32_max, i32_max in *; lia. Qed.

Lemma edge_y_spec e v v' : extent_ok e -> 0 <= v <= v' -> v' <= i32_max ->
  edge_laws (TargetExtent.edge_y e) (snd (TargetExtent.logical e)) (snd (TargetExtent.texture e)) v v'.
Proof. intros [] ? ?. apply pinned_edge_spec; try done; unfold is_u32, u32_max, i32_max in *; lia. Qed.

Lemma wrap32_sub_small a b : 0 <= a <= b -> b <= u32_max -> (b -% a)%u32 = b - a.
Proof. intros. apply wrap32_small. unfold is_u32, u32_max in *. lia. Qed.

Lemma sat32_small x : is_u32 x -> sat u32_max x = x.
Proof. unfold sat, is_u32. lia. Qed.

(** The converted rectangle, edge by edge. *)
Lemma target_rect_edges e x y w h : extent_ok e -> 0 <= x -> 0 <= y -> 0 <= w -> 0 <= h -> x + w <= i32_max -> y + h <= i32_max ->
  TargetExtent.rect e x y w h = (TargetExtent.edge_x e x, TargetExtent.edge_y e y,
    TargetExtent.edge_x e (x + w) - TargetExtent.edge_x e x, TargetExtent.edge_y e (y + h) - TargetExtent.edge_y e y).
Proof.
  intros He ? ? ? ? ? ?. unfold TargetExtent.rect. rewrite (eo_scaled _ He).
  destruct (edge_x_spec e x (x + w) He ltac:(lia) ltac:(done)) as (_ & _ & ? & ? & _).
  destruct (edge_y_spec e y (y + h) He ltac:(lia) ltac:(done)) as (_ & _ & ? & ? & _).
  rewrite !sat32_small by (unfold is_u32, u32_max, i32_max in *; lia). by rewrite !wrap32_sub_small.
Qed.

(** A rectangle in a scaled render target converts to a rectangle of the
    texture: it does not wrap, it stays inside the texture when it was inside the
    target, the whole target is the whole texture whatever level was bound, two
    rectangles that shared an edge share it still, and the [D3DRECT] entry point
    lands on the same pixels. *)
Theorem target_rect_tiles e x y w h :
  extent_ok e -> 0 <= x -> 0 <= y -> 0 <= w -> 0 <= h -> x + w <= i32_max -> y + h <= i32_max ->
  exists x' y' w' h', TargetExtent.rect e x y w h = (x', y', w', h')
  /\ (0 <= x' /\ 0 <= y' /\ 0 <= w' /\ 0 <= h')
  /\ (x + w <= fst (TargetExtent.logical e) -> x' + w' <= fst (TargetExtent.texture e))
  /\ (y + h <= snd (TargetExtent.logical e) -> y' + h' <= snd (TargetExtent.texture e))
  /\ (x = 0 -> w = fst (TargetExtent.logical e) -> x' = 0 /\ w' = fst (TargetExtent.texture e))
  /\ (y = 0 -> h = snd (TargetExtent.logical e) -> y' = 0 /\ h' = snd (TargetExtent.texture e))
  /\ (forall w2, 0 <= w2 -> x + w + w2 <= i32_max -> exists w2', TargetExtent.rect e (x + w) y w2 h = (x' + w', y', w2', h'))
  /\ (forall h2, 0 <= h2 -> y + h + h2 <= i32_max -> exists h2', TargetExtent.rect e x (y + h) w h2 = (x', y' + h', w', h2'))
  /\ TargetExtent.rect_edges_i32 e (x, y, x + w, y + h) = (x', y', x' + w', y' + h').
Proof.
  intros He ? ? ? ? ? ?. rewrite target_rect_edges by done. do 4 eexists. split; [done|].
  destruct (edge_x_spec e x (x + w) He ltac:(lia) ltac:(done)) as (X0 & Xl & X1 & X2 & X3 & _ & X4).
  destruct (edge_y_spec e y (y + h) He ltac:(lia) ltac:(done)) as (Y0 & Yl & Y1 & Y2 & Y3 & _ & Y4).
  rewrite !Zplus_minus. split; [lia|]. split; [done|]. split; [done|].
  split; [intros -> ->; rewrite Z.add_0_l, X0, Xl; lia|]. split; [intros -> ->; rewrite Z.add_0_l, Y0, Yl; lia|].
  split; [|split].
  - intros w2 ? ?. rewrite target_rect_edges by (try done; lia). by eexists.
  - intros h2 ? ?. rewrite target_rect_edges by (try done; lia). by eexists.
  - unfold TargetExtent.rect_edges_i32. rewrite (eo_scaled _ He), !Z.max_l by lia. unfold RenderScale.signed.
    rewrite !Z.min_l by lia. done.
Qed.

Lemma target_rect_tiles_witness :
  exists x' y' w' h', TargetExtent.rect (TargetExtent.mip_level 75 (5, 3) (480, 360) 7) 2 0 3 3 = (x', y', w', h')
  /\ (0 <= x' /\ 0 <= y' /\ 0 <= w' /\ 0 <= h')
  /\ (2 + 3 <= 5 -> x' + w' <= 3) /\ (0 + 3 <= 3 -> y' + h' <= 2).
Proof.
  destruct (target_rect_tiles (TargetExtent.mip_level 75 (5, 3) (480, 360) 7) 2 0 3 3)
    as (x' & y' & w' & h' & H1 & H2 & H3 & H4 & _); try (unfold i32_max; lia).
  - split; vm_compute; try done; split; done.
  - exists x', y', w', h'. done.
Defined.

(** ** Mip chains *)

Lemma mip_count_pos w h : 0 <= w -> 0 <= h -> 1 <= compute_mip_count w h.
Proof. intros. unfold compute_mip_count. destruct (_ =? 0); [lia|]. pose proof (Z.log2_nonneg (Z.max w h)). lia. Qed.

(** The last level of a full chain is one texel, and no earlier one is. *)
Lemma mip_count_exact w h : 1 <= w -> 1 <= h ->
  Z.shiftr (Z.max w h) (compute_mip_count w h - 1) = 1.
Proof.
  intros. unfold compute_mip_count. rewrite (proj2 (Z.eqb_neq _ _)) by lia. rewrite Z.add_simpl_r.
  pose proof (Z.log2_spec (Z.max w h) ltac:(lia)) as [H1 H2]. rewrite Z.shiftr_div_pow2 by apply Z.log2_nonneg.
  rewrite Z.pow_succ_r in H2 by apply Z.log2_nonneg. pose proof (Z.pow_pos_nonneg 2 (Z.log2 (Z.max w h)) ltac:(lia) ltac:(apply Z.log2_nonneg)).
  symmetry. apply (Z.div_unique _ _ 1 (Z.max w h - 2 ^ Z.log2 (Z.max w h))); lia.
Qed.

(** The level a reported mip level lands on always exists in the rasterized
    chain, the chain never asks for more levels than its base has, every level
    both chains hold is itself, and the order of levels is kept. *)
Theorem rasterized_level_exists s logical levels level level' :
  scale_ok s -> is_u32 (fst logical) -> is_u32 (snd logical) -> 1 <= levels ->
  levels <= compute_mip_count (fst logical) (snd logical) -> 0 <= level < levels -> level <= level' < levels ->
  let n := rasterized_level_count s logical levels in
  let base := compute_mip_count (RenderScale.dimension s (fst logical)) (RenderScale.dimension s (snd logical)) in
  1 <= n <= levels /\ n <= base
  /\ 0 <= rasterized_level level n < n
  /\ (level < n -> rasterized_level level n = level)
  /\ (n <= level -> rasterized_level level n = n - 1 /\ n = base)
  /\ rasterized_level level n <= rasterized_level level' n.
Proof.
  intros Hs Hx Hy Hl Hc Hlv Hlv' n base.
  assert (Hb : 1 <= base).
  { apply mip_count_pos; apply dimension_range; done. }
  assert (Hn : n = Z.min levels base /\ (RenderScale.is_identity s = true -> base = compute_mip_count (fst logical) (snd logical))).
  { unfold n, rasterized_level_count, base. destruct (RenderScale.is_identity s) eqn:E; [|done].
    unfold RenderScale.dimension. rewrite E. simpl. split; [lia|done]. }
  destruct Hn as [-> _]. unfold rasterized_level, sat, u32_max.
  assert (base <= 33).
  { unfold base, compute_mip_count. destruct (_ =? 0); [lia|].
    pose proof (proj1 (dimension_range s _ Hs Hx)). pose proof (proj1 (dimension_range s _ Hs Hy)).
    pose proof (Z.log2_le_mono (Z.max (RenderScale.dimension s (fst logical)) (RenderScale.dimension s (snd logical))) (2 ^ 32)
      ltac:(unfold is_u32, u32_max in *; lia)) as Hlog. rewrite Z.log2_pow2 in Hlog by lia. lia. }
  split; [lia|]. split; [lia|].
  split_and!; intros; split_ifs; lia.
Qed.

Lemma rasterized_level_exists_witness :
  let n := rasterized_level_count 75 (640, 480) 10 in
  1 <= n <= 10 /\ n <= compute_mip_count 480 360 /\ 0 <= rasterized_level 9 n < n.
Proof.
  assert (H : forall x, 1 <= x <= 1000 -> is_u32 x) by (unfold is_u32, u32_max; lia).
  destruct (rasterized_level_exists 75 (640, 480) 10 9 9 ltac:(unfold scale_ok; lia) (H 640 ltac:(lia)) (H 480 ltac:(lia))
    ltac:(lia) ltac:(apply Z.leb_le; reflexivity) ltac:(lia) ltac:(lia)) as (H1 & H2 & H3 & _).
  exact (conj H1 (conj H2 H3)).
Defined.
