(* ===== verification/FrameLatency.v ===== *)
(** [frame_latency.rs], [query_fence.rs] and the places a device uses them: how
    many presented frames the GPU may be behind when [Present] returns. *)

From S2P Require Import Prelude.

Definition DEFAULT_FRAME_LATENCY : Z := 3.
Definition MAX_FRAME_LATENCY : Z := 30.
Definition RING : Z := MAX_FRAME_LATENCY + 1.

(** ** [query_fence.rs] *)

Definition event_completed (end_seq coherent_seq : Z) : bool := (end_seq =? 0) || (end_seq <=? coherent_seq).
Definition end_in_recording_frame (end_seq current_seq : Z) : bool := negb (end_seq =? 0) && (current_seq <=? end_seq).
Definition event_needs_submit (end_seq current_seq : Z) : bool := end_in_recording_frame end_seq current_seq.

(** ** [frame_latency.rs] *)

Definition enforced_frame_latency (requested : option Z) (configured : Z) : Z :=
  if negb (configured =? 0) then configured
  else match requested with Some requested => requested | None => DEFAULT_FRAME_LATENCY end.

Definition frame_finished (target draw_retired paced_retired : Z) : bool :=
  event_completed target draw_retired && event_completed target paced_retired.

(** [frame_latency] of [extended.rs]. *)
Definition frame_latency (requested : Z) : option Z :=
  if requested =? 0 then Some DEFAULT_FRAME_LATENCY
  else if MAX_FRAME_LATENCY <? requested then None else Some requested.

Module FrameLatency.
Record t := mk { requested : option Z; configured : Z; presents : list Z; newest : Z; announced : bool }.

Definition new (configured : Z) : t := mk None configured (replicate (Z.to_nat RING) 0) 0 false.

Definition reported (b : t) : Z := match requested b with Some r => r | None => DEFAULT_FRAME_LATENCY end.

Definition enforced (b : t) : Z := enforced_frame_latency (requested b) (configured b).

Definition set (b : t) (r : Z) : bool * t :=
  (negb (announced b), mk (Some r) (configured b) (presents b) (newest b) true).

(** An index past the ring panics; the reader is [None] there. *)
Definition record_present (b : t) (seq : Z) : option (option Z * t) :=
  let newest' := (newest b + 1) mod RING in
  let presents' := <[Z.to_nat newest' := seq]> (presents b) in
  let back := enforced b in
  target ← presents' !! Z.to_nat ((newest' + RING - back) mod RING);
  Some (if negb (target =? 0) then Some target else None, mk (requested b) (configured b) presents' newest' (announced b)).
End FrameLatency.

(** ** The device *)

Record Device := mkDevice { latency : FrameLatency.t; draw_retired : Z; paced_retired : Z; presented : list Z }.

Definition device_new (configured : Z) : Device := mkDevice (FrameLatency.new configured) 0 0 [].

(** [set_maximum_frame_latency]; [false] is [D3DERR_INVALIDCALL]. *)
Definition set_maximum_frame_latency (d : Device) (value : Z) : bool * Device :=
  match frame_latency value with
  | Some stored => (true, mkDevice (snd (FrameLatency.set (latency d) stored)) (draw_retired d) (paced_retired d) (presented d))
  | None => (false, d)
  end.

(** The end of [present_texture]: no result while the present still waits. *)
Definition present_returns (d : Device) (seq : Z) : option Device :=
  '(target, b) ← FrameLatency.record_present (latency d) seq;
  let d' := mkDevice b (draw_retired d) (paced_retired d) (seq :: presented d) in
  match target with
  | Some target => if frame_finished target (draw_retired d) (paced_retired d) then Some d' else None
  | None => Some d'
  end.

(** A run of a device: the game sets a latency or presents, under sequences that
    grow, and the two retirement counters advance. *)
Inductive Event := SetLatency (value : Z) | PresentReturned (seq : Z) | Progress (draw paced : Z).

Definition step (d : Device) (e : Event) : option Device :=
  match e with
  | SetLatency v => if 0 <=? v then Some (snd (set_maximum_frame_latency d v)) else None
  | PresentReturned seq => if match presented d with [] => 0 | last :: _ => last end <? seq then present_returns d seq else None
  | Progress draw paced =>
      if (draw_retired d <=? draw) && (paced_retired d <=? paced)
      then Some (mkDevice (latency d) draw paced (presented d)) else None
  end.

Fixpoint run (d : Device) (es : list Event) : option Device :=
  match es with
  | [] => Some d
  | e :: rest => d ← step d e; run d rest
  end.

Example third_present_waits :
  run (device_new 2) [PresentReturned 1; PresentReturned 2; PresentReturned 4] = None.
Proof. reflexivity. Qed.

(** ** The ring holds the newest presents *)

Definition at_ring (b : FrameLatency.t) (i : Z) : nat := Z.to_nat ((FrameLatency.newest b + RING - i) mod RING).

Record ring_ok (b : FrameLatency.t) (history : list Z) : Prop := {
  ro_len : length (FrameLatency.presents b) = Z.to_nat RING;
  ro_newest : 0 <= FrameLatency.newest b < RING;
  ro_slots : forall i, 0 <= i < RING -> FrameLatency.presents b !! at_ring b i = Some (nth (Z.to_nat i) history 0);
  ro_requested : forall r, FrameLatency.requested b = Some r -> 1 <= r <= MAX_FRAME_LATENCY;
  ro_configured : 0 <= FrameLatency.configured b <= MAX_FRAME_LATENCY;
}.

Lemma ring_new configured : 0 <= configured <= MAX_FRAME_LATENCY -> ring_ok (FrameLatency.new configured) [].
Proof.
  intros Hc. split; try done. intros i Hi. unfold FrameLatency.new. cbn [FrameLatency.presents].
  rewrite lookup_replicate_2 by (unfold at_ring, RING, MAX_FRAME_LATENCY in *; Z.to_euclidean_division_equations; lia).
  by destruct (Z.to_nat i).
Qed.

Lemma enforced_range b history : ring_ok b history -> 1 <= FrameLatency.enforced b <= MAX_FRAME_LATENCY.
Proof.
  intros []. unfold FrameLatency.enforced, enforced_frame_latency.
  destruct (FrameLatency.configured b =? 0) eqn:E; reflect_cmp; simpl; [|unfold MAX_FRAME_LATENCY in *; lia].
  destruct (FrameLatency.requested b) as [r|] eqn:Er; [by apply ro_requested0|unfold DEFAULT_FRAME_LATENCY, MAX_FRAME_LATENCY; lia].
Qed.

(** Recording a present shifts the ring by one place. *)
Lemma record_spec b history seq : ring_ok b history ->
  exists b', FrameLatency.record_present b seq
      = Some (let t := nth (Z.to_nat (FrameLatency.enforced b)) (seq :: history) 0 in if negb (t =? 0) then Some t else None, b')
    /\ ring_ok b' (seq :: history) /\ FrameLatency.enforced b' = FrameLatency.enforced b.
Proof.
  intros R. pose proof (enforced_range b history R) as He. destruct R as [Hl Hn Hs Hr Hc].
  unfold FrameLatency.record_present.
  set (newest' := (FrameLatency.newest b + 1) mod RING).
  set (b' := FrameLatency.mk (FrameLatency.requested b) (FrameLatency.configured b)
    (<[Z.to_nat newest' := seq]> (FrameLatency.presents b)) newest' (FrameLatency.announced b)).
  assert (Hn' : 0 <= newest' < RING) by (unfold newest', RING, MAX_FRAME_LATENCY; apply Z.mod_pos_bound; lia).
  assert (R' : ring_ok b' (seq :: history)).
  { split; try done; [unfold b'; cbn [FrameLatency.presents]; by rewrite length_insert|]. intros i Hi.
    change (FrameLatency.presents b') with (<[Z.to_nat newest' := seq]> (FrameLatency.presents b)).
    destruct (Z.eq_dec i 0) as [->|Hi0].
    - assert (Ei : at_ring b' 0 = Z.to_nat newest').
      { unfold at_ring, b'. cbn [FrameLatency.newest]. unfold RING, MAX_FRAME_LATENCY in *. Z.to_euclidean_division_equations. lia. }
      rewrite Ei, list_lookup_insert_eq; [done|]. rewrite Hl. lia.
    - assert (Ei : at_ring b' i = at_ring b (i - 1) /\ at_ring b' i <> Z.to_nat newest').
      { unfold at_ring, b'. cbn [FrameLatency.newest]. unfold newest', RING, MAX_FRAME_LATENCY in *.
        Z.to_euclidean_division_equations. lia. }
      destruct Ei as [Ei Hne]. rewrite list_lookup_insert_ne by done. rewrite Ei, Hs by lia. f_equal.
      by replace (Z.to_nat i) with (S (Z.to_nat (i - 1))) by lia. }
  pose proof (ro_slots _ _ R' (FrameLatency.enforced b) ltac:(unfold RING; lia)) as Hlook.
  unfold at_ring in Hlook. cbn [b' FrameLatency.presents FrameLatency.newest] in Hlook. rewrite Hlook. simpl. by exists b'.
Qed.

(** ** The bound *)

Record device_ok (d : Device) : Prop := {
  do_ring : ring_ok (latency d) (presented d);
  do_counters : 0 <= draw_retired d /\ 0 <= paced_retired d;
  do_order : forall i j s t, presented d !! i = Some s -> presented d !! j = Some t -> (i < j)%nat -> t < s;
  do_pos : forall i s, presented d !! i = Some s -> 0 < s;
}.

Lemma latency_step_ok d e d' : device_ok d -> step d e = Some d' -> device_ok d'.
Proof.
  intros [R Hc Ho Hp]. destruct e as [v|seq|draw paced]; cbn [step].
  - destruct (0 <=? v) eqn:Ev; [|done]. reflect_cmp. intros [= <-]. unfold set_maximum_frame_latency, frame_latency.
    destruct R. destruct (v =? 0) eqn:E0; [|destruct (MAX_FRAME_LATENCY <? v) eqn:E1]; reflect_cmp; simpl; split; try done; split; try done;
      simpl; intros ? [= <-]; unfold DEFAULT_FRAME_LATENCY, MAX_FRAME_LATENCY in *; lia.
  - destruct (_ <? seq) eqn:Es; [|done]. reflect_cmp. unfold present_returns.
    destruct (record_spec (latency d) (presented d) seq R) as (b' & -> & R' & _). cbn [mbind option_bind].
    assert (D : device_ok (mkDevice b' (draw_retired d) (paced_retired d) (seq :: presented d))).
    { assert (Hnew : forall j t, presented d !! j = Some t -> t < seq /\ 0 < t).
      { intros j t Ht. split; [|by eapply Hp]. destruct (presented d) as [|last l] eqn:El; [done|].
        destruct j as [|j]; [injection Ht as <-; done|]. specialize (Ho 0%nat (S j) last t eq_refl Ht). lia. }
      split; try done; cbn [presented].
      - intros [|i] [|j] s t; simpl; intros Hs Ht Hij; try lia.
        + injection Hs as <-. by destruct (Hnew j t Ht).
        + apply (Ho i j); [done|done|lia].
      - intros [|i] s; simpl; [intros [= <-]|by apply Hp].
        destruct (presented d) as [|last l] eqn:El; [lia|]. specialize (Hp 0%nat last eq_refl). lia. }
    destruct (if negb _ then _ else _) as [target|]; [|by intros [= <-]]. destruct (frame_finished _ _ _); [by intros [= <-]|done].
  - destruct (_ && _) eqn:E; [|done]. reflect_cmp. intros [= <-]. split; simpl; try done. lia.
Qed.

Lemma latency_run_ok es d d' : device_ok d -> run d es = Some d' -> device_ok d'.
Proof.
  revert d. induction es as [|e es IH]; intros d Hd; simpl; [by intros [= <-]|].
  destruct (step d e) as [d1|] eqn:E; [|done]. simpl. apply IH. by eapply latency_step_ok.
Qed.

Lemma device_new_ok configured : 0 <= configured <= MAX_FRAME_LATENCY -> device_ok (device_new configured).
Proof. intros H. split; try done. by apply ring_new. Qed.

(** When a present may return: the present the enforced latency counts back from
    it is finished, or there is none. *)
Lemma present_returns_iff d seq : device_ok d -> 0 < seq ->
  is_Some (present_returns d seq) <->
  forall t, (seq :: presented d) !! Z.to_nat (FrameLatency.enforced (latency d)) = Some t ->
    frame_finished t (draw_retired d) (paced_retired d) = true.
Proof.
  intros [R Hc Ho Hp] Hseq. unfold present_returns.
  destruct (record_spec (latency d) (presented d) seq R) as (b' & -> & _ & _). cbn [mbind option_bind].
  set (n := Z.to_nat (FrameLatency.enforced (latency d))).
  destruct ((seq :: presented d) !! n) as [t|] eqn:El.
  - rewrite (nth_lookup_Some _ _ 0 _ El). simpl.
    assert (Ht : 0 < t) by (destruct n; [injection El as <-; done|by eapply (Hp n)]).
    rewrite (proj2 (Z.eqb_neq t 0)) by lia. simpl. destruct (frame_finished t _ _) eqn:Ef.
    + split; [|by eexists]. by intros _ ? [= <-].
    + split; [by intros [? ?]|]. intros H. specialize (H t eq_refl). congruence.
  - rewrite nth_overflow by (by apply lookup_ge_None). simpl. split; [done|by eexists].
Qed.

(** The frame-latency bound holds and is not stricter than asked.  Whatever
    the game's latency requests, presents and the GPU's progress, when a [Present]
    returns every present but the newest [L] has been drawn and shown, [L] the
    configured latency or else the game's; and a present waits only when the one
    [L] before it is not finished. *)
Theorem latency_bounds_outstanding configured es d seq :
  0 <= configured <= MAX_FRAME_LATENCY -> run (device_new configured) es = Some d ->
  match presented d with [] => 0 | last :: _ => last end < seq ->
  let L := FrameLatency.enforced (latency d) in
  1 <= L <= MAX_FRAME_LATENCY
  /\ (forall d', step d (PresentReturned seq) = Some d' -> forall i t, L <= Z.of_nat i -> presented d' !! i = Some t ->
        frame_finished t (draw_retired d') (paced_retired d') = true)
  /\ (step d (PresentReturned seq) = None ->
        exists t, (seq :: presented d) !! Z.to_nat L = Some t /\ frame_finished t (draw_retired d) (paced_retired d) = false).
Proof.
  intros Hc Hrun Hseq L. pose proof (latency_run_ok es _ d (device_new_ok configured Hc) Hrun) as D.
  assert (Hpos : 0 < seq) by (destruct (presented d) as [|last l] eqn:El; [done|pose proof (do_pos _ D 0%nat last); rewrite El in *; simpl in *; naive_solver lia]).
  pose proof (enforced_range _ _ (do_ring _ D)) as HL. fold L in HL.
  pose proof (present_returns_iff d seq D Hpos) as Hiff. fold L in Hiff.
  cbn [step]. rewrite (proj2 (Z.ltb_lt _ _)) by done. split; [done|]. split.
  - intros d' Hd' i t Hi Ht.
    assert (D' : device_ok d').
    { eapply (latency_step_ok d (PresentReturned seq)); [done|]. cbn [step]. by rewrite (proj2 (Z.ltb_lt _ _)) by done. }
    assert (Ed : presented d' = seq :: presented d /\ draw_retired d' = draw_retired d /\ paced_retired d' = paced_retired d).
    { unfold present_returns in Hd'. destruct (FrameLatency.record_present _ _) as [[tg b]|]; [|done]. simpl in Hd'.
      destruct tg as [tg|]; [destruct (frame_finished _ _ _); [|done]|]; by injection Hd' as <-. }
    destruct Ed as (Ep & Edr & Epr). rewrite Edr, Epr.
    assert (Hx : exists t0, presented d' !! Z.to_nat L = Some t0 /\ t <= t0).
    { assert (Hlt : (i < length (presented d'))%nat) by (by eapply lookup_lt_Some).
      destruct (lookup_lt_is_Some_2 (presented d') (Z.to_nat L)) as [t0 Ht0]; [lia|]. exists t0. split; [done|].
      destruct (Nat.eq_dec i (Z.to_nat L)) as [->|Hne]; [rewrite Ht0 in Ht; injection Ht; lia|].
      pose proof (do_order _ D' (Z.to_nat L) i t0 t Ht0 Ht ltac:(lia)). lia. }
    destruct Hx as (t0 & Ht0 & Hle). rewrite Ep in Ht0.
    pose proof (proj1 Hiff ltac:(rewrite Hd'; by eexists) t0 Ht0) as Hf. unfold frame_finished, event_completed in *.
    pose proof (do_pos _ D' i t Ht). apply andb_true_iff in Hf as [H1 H2].
    apply orb_true_iff in H1, H2. rewrite !Z.eqb_eq, !Z.leb_le in H1, H2. apply andb_true_iff.
    split; apply orb_true_iff; right; apply Z.leb_le; lia.
  - intros Hnone. destruct ((seq :: presented d) !! Z.to_nat L) as [t|] eqn:El.
    + exists t. split; [done|]. destruct (frame_finished t _ _) eqn:Ef; [|done]. exfalso.
      destruct (proj2 Hiff) as [? ?]; [by intros ? [= <-]|congruence].
    + exfalso. destruct (proj2 Hiff) as [? ?]; [done|congruence].
Qed.

(** Three presents under the game's latency of two: the third waits for the first. *)
Lemma latency_bounds_outstanding_witness :
  let d := default (device_new 0) (run (device_new 0) [SetLatency 2; PresentReturned 1; PresentReturned 3; Progress 1 1]) in
  1 <= FrameLatency.enforced (latency d) <= MAX_FRAME_LATENCY
  /\ (forall d', step d (PresentReturned 4) = Some d' -> forall i t, 2 <= Z.of_nat i -> presented d' !! i = Some t ->
        frame_finished t (draw_retired d') (paced_retired d') = true)
  /\ is_Some (step d (PresentReturned 4)).
Proof.
  destruct (latency_bounds_outstanding 0 [SetLatency 2; PresentReturned 1; PresentReturned 3; Progress 1 1]
    (default (device_new 0) (run (device_new 0) [SetLatency 2; PresentReturned 1; PresentReturned 3; Progress 1 1])) 4)
    as (H1 & H2 & _).
  - unfold MAX_FRAME_LATENCY. lia.
  - reflexivity.
  - reflexivity.
  - split; [exact H1|]. split; [exact H2|]. eexists. vm_compute. reflexivity.
Defined.
