(* ===== verification/UploadRing.v ===== *)
(** [unix/src/metal/transient.rs]: the upload ring, the shared-storage chunks
    inline vertex and index data ride to the GPU in, and the stamps that say
    when the GPU is done with them; with the invariant that no payload a
    submission still reads is overwritten.

    A chunk names its [MTLBuffer] by a number; the size and the bytes of every
    buffer the device ever made are a map, a buffer the ring dropped included, since the
    command buffers that name it keep it.  The device answers a request for a
    buffer with a fresh one or refuses. *)

From S2P Require Import Prelude.

Definition FIRST_CHUNK_BYTES : Z := 64 * 1024.
Definition MAX_CHUNK_BYTES : Z := 16 * 1024 * 1024.
Definition SPARE_CHUNKS : Z := 2.

(** ** Stamps *)

(** The two retirement counters, absent or at a value. *)
Record Counters := mkCounters { draw_counter : option Z; upload_counter : option Z }.

(** The submission's sequence, and whether the upload command buffer encodes it.
    The counters a stamp carries are loaded where it is read: an argument. *)
Record SubmitStamp := mkStamp { seq : Z; upload : bool }.

(** [SubmitStamp::new]. *)
Definition stamp_new (submit_seq : Z) (c : Counters) : SubmitStamp :=
  let persistent := negb (submit_seq =? 0) && bool_decide (is_Some (draw_counter c)) in
  mkStamp (if persistent then submit_seq else u64_max) false.
Definition stamp_upload (s : SubmitStamp) : SubmitStamp := mkStamp (seq s) true.
Definition persistent (s : SubmitStamp) : bool := negb (seq s =? u64_max).

Definition draw_retired (c : Counters) : Z := default 0 (draw_counter c).
Definition upload_retired (c : Counters) : Z := default 0 (upload_counter c).

Record LastUse := mkUse { u_draw : Z; u_upload : Z }.

Definition use_none : LastUse := mkUse 0 0.
Definition record_use (u : LastUse) (s : SubmitStamp) : LastUse :=
  if upload s then mkUse (u_draw u) (seq s) else mkUse (seq s) (u_upload u).
Definition retired (c : Counters) (u : LastUse) : bool :=
  ((u_draw u =? 0) || (u_draw u <=? draw_retired c)) && ((u_upload u =? 0) || (u_upload u <=? upload_retired c)).

(** ** The ring *)

Record Chunk := mkChunk { buffer : Z; capacity : Z; cursor : Z; last_use : LastUse }.

Record UploadRing := mkRing { active : option Chunk; spare : list Chunk; chunk_bytes : Z; written : Z }.

Definition ring_default : UploadRing := mkRing None [] 0 0.

  Abbreviation Buffers := (gmap Z (Z * (Z -> Z))).

Definition next_multiple_of (v m : Z) : Z := div_ceil v m * m.
Definition next_power_of_two (n : Z) : Z := if n <=? 1 then 1 else 2 ^ Z.log2_up n.

Section Ring.
(** The device: the buffers there are, the bytes asked for, the new buffer. *)
Context (make : gset Z -> Z -> option Z).

(** [Chunk::new]; what shared storage holds when new is not specified. *)
Definition chunk_new (fresh : Z -> Z) (b : Buffers) (cap : Z) : option (Chunk * Buffers) :=
  id ← make (dom b) cap; Some (mkChunk id cap 0 use_none, <[id := (cap, fresh)]> b).

(** The place for [len] bytes: the offset in the active chunk, which is the
    result's.  [None] when a chunk had to be made and the device refused; the
    count of bytes written stays. *)
Definition reserve (fresh : Z -> Z) (c : Counters) (r : UploadRing) (b : Buffers) (len align : Z)
    : option (Z * Chunk) * UploadRing * Buffers :=
  let here :=
    ch ← active r;
    let offset := next_multiple_of (cursor ch) align in
    match (offset +? len)%u64 with
    | Some e => if e <=? capacity ch then Some (offset, ch) else None
    | None => None
    end in
  match here with
  | Some (offset, ch) =>
      let ch' := mkChunk (buffer ch) (capacity ch) (offset + len) (last_use ch) in
      (Some (offset, ch'), mkRing (Some ch') (spare r) (chunk_bytes r) (written r + (offset + len - cursor ch)), b)
  | None =>
      let written := written r + len in
      let need := Z.max (Z.max (Z.max len (chunk_bytes r)) (Z.min written MAX_CHUNK_BYTES)) FIRST_CHUNK_BYTES in
      let found := list_find (λ ch, (need <= capacity ch) /\ retired c (last_use ch) = true) (spare r) in
      let next :=
        match found with
        | Some (i, ch) => Some (ch, swap_remove (spare r) i, b)
        | None => '(ch, b) ← chunk_new fresh b (next_power_of_two need); Some (ch, spare r, b)
        end in
      match next with
      | None => (None, mkRing (active r) (spare r) (chunk_bytes r) written, b)
      | Some (ch, spare, b) =>
          let ch' := mkChunk (buffer ch) (capacity ch) len use_none in
          let spare := match active r with Some full => spare ++ [full] | None => spare end in
          (Some (0, ch'), mkRing (Some ch') spare (chunk_bytes r) written, b)
      end
  end.

(** The bytes copied into a buffer at [offset]. *)
Definition copy_in (m : Z -> Z) (offset : Z) (bytes : list Z) : Z -> Z :=
  λ x, if (offset <=? x) && (x <? offset + Z.of_nat (length bytes)) then default 0 (bytes !! Z.to_nat (x - offset)) else m x.

(** [RingSlice]: the buffer and the offset. *)
Definition write (fresh : Z -> Z) (c : Counters) (r : UploadRing) (b : Buffers) (s : SubmitStamp)
    (bytes : list Z) (align : Z) : option (Z * Z) * UploadRing * Buffers :=
  match reserve fresh c r b (Z.of_nat (length bytes)) align with
  | (None, r, b) => (None, r, b)
  | (Some (offset, ch), r, b) =>
      let b := alter (λ '(n, m), (n, copy_in m offset bytes)) (buffer ch) b in
      let ch' := mkChunk (buffer ch) (capacity ch) (cursor ch) (record_use (last_use ch) s) in
      (Some (buffer ch, offset), mkRing (Some ch') (spare r) (chunk_bytes r) (written r), b)
  end.
End Ring.

(** The spares [end_submission] keeps, [kept] retired ones kept already. *)
Fixpoint retain_spares (c : Counters) (bytes kept : Z) (l : list Chunk) : list Chunk :=
  match l with
  | [] => []
  | ch :: l =>
      if negb (retired c (last_use ch)) then ch :: retain_spares c bytes kept l
      else if (capacity ch <? bytes) || (kept =? SPARE_CHUNKS) then retain_spares c bytes kept l
      else ch :: retain_spares c bytes (kept + 1) l
  end.

Definition end_submission (c : Counters) (r : UploadRing) : UploadRing :=
  let high_water := Z.min (next_power_of_two (written r)) MAX_CHUNK_BYTES in
  let chunk_bytes := Z.max (chunk_bytes r) high_water in
  mkRing (active r) (retain_spares c chunk_bytes 0 (spare r)) chunk_bytes 0.

(** ** The ring over time

    Submissions come in order of their sequence; each writes payloads for its
    upload or its render command buffer, and ends.  The counters only grow. *)

(** A payload the GPU is to read: by which command buffer, where, at what
    alignment, and what. *)
Record Payload := mkPayload { p_stamp : SubmitStamp; p_buffer : Z; p_offset : Z; p_align : Z; p_bytes : list Z }.

Definition payload_retired (c : Counters) (p : Payload) : Prop :=
  if upload (p_stamp p) then seq (p_stamp p) <= upload_retired c else seq (p_stamp p) <= draw_retired c.

#[export] Instance payload_retired_dec c p : Decision (payload_retired c p).
Proof. unfold payload_retired. destruct (upload (p_stamp p)); apply _. Defined.

Record World := mkWorld {
  w_ring : UploadRing; w_buffers : Buffers; w_counters : Counters; w_seq : Z; w_payloads : list Payload }.

Inductive Op :=
  | Write (up : bool) (bytes : list Z) (align : Z)
  | EndSubmission
  | NextSubmission (to : Z)
  | Retire (draw up : Z).

Section Run.
Context (make : gset Z -> Z -> option Z) (fresh : Z -> Z).

Definition exec (w : World) (op : Op) : World :=
  let '(mkWorld r b c s ps) := w in
  match op with
  | Write up bytes align =>
      let st := if up then stamp_upload (mkStamp s false) else mkStamp s false in
      match write make fresh c r b st bytes align with
      | (None, r, b) => mkWorld r b c s ps
      | (Some (id, offset), r, b) => mkWorld r b c s (mkPayload st id offset align bytes :: ps)
      end
  | EndSubmission => mkWorld (end_submission c r) b c s ps
  | NextSubmission to => mkWorld r b c (Z.max s to) ps
  | Retire d u =>
      mkWorld r b (mkCounters ((λ v, Z.max v d) <$> draw_counter c) ((λ v, Z.max v u) <$> upload_counter c)) s ps
  end.

Definition run (w : World) (ops : list Op) : World := fold_left exec ops w.
End Run.

(** A payload lies aligned inside its buffer and reads back. *)
Definition payload_intact (b : Buffers) (p : Payload) : Prop :=
  exists n m, b !! p_buffer p = Some (n, m) /\ 0 <= p_offset p /\ p_offset p mod p_align p = 0
    /\ p_offset p + Z.of_nat (length (p_bytes p)) <= n
    /\ forall i v, p_bytes p !! i = Some v -> m (p_offset p + Z.of_nat i) = v.

Definition ring_chunks (r : UploadRing) : list Chunk := option_list (active r) ++ spare r.

(** ** Lists *)

Lemma sublist_map {A B} (f : A -> B) l k : l `sublist_of` k -> (f <$> l) `sublist_of` (f <$> k).
Proof. induction 1; cbn; by constructor. Qed.

Lemma next_power_of_two_ge n : n <= next_power_of_two n.
Proof.
  unfold next_power_of_two. destruct (n <=? 1) eqn:E; reflect_cmp; [lia|].
  pose proof (Z.log2_up_spec n ltac:(lia)). lia.
Qed.

Lemma next_multiple_ge v m : 0 < m -> v <= next_multiple_of v m /\ next_multiple_of v m mod m = 0.
Proof. intros. unfold next_multiple_of. rewrite Z_mod_mult. pose proof (div_ceil_mul_ge v m). lia. Qed.

Lemma retain_sublist c n k l : retain_spares c n k l `sublist_of` l.
Proof.
  revert k. induction l as [|ch l IH]; intros k; cbn; [done|].
  destruct (negb _); [by apply sublist_skip|]. destruct (_ || _); [by apply sublist_cons|by apply sublist_skip].
Qed.

(** ** Where a payload goes *)

Section Placed.
Context (make : gset Z -> Z -> option Z) (fresh : Z -> Z).
(** A buffer the device makes is none of those there are. *)
Context (Hmake : forall known n id, make known n = Some id -> id ∉ known).

(** The chunk a payload of [len] bytes went to, at [offset]: the active one past
    its cursor, a retired one started again, or one the device made. *)
Definition placed (c : Counters) (r r' : UploadRing) (b b' : Buffers) (len align offset : Z) (ch : Chunk) : Prop :=
  active r' = Some ch /\ 0 <= offset /\ offset mod align = 0 /\ cursor ch = offset + len /\ cursor ch <= capacity ch
  /\ exists rest, ring_chunks r' ≡ₚ ch :: rest
  /\ ((exists old, ring_chunks r ≡ₚ old :: rest /\ buffer old = buffer ch /\ capacity old = capacity ch /\ b' = b
        /\ ((cursor old <= offset /\ last_use ch = last_use old) \/ (retired c (last_use old) = true /\ last_use ch = use_none)))
      \/ (ring_chunks r ≡ₚ rest /\ buffer ch ∉ dom b /\ b' = <[buffer ch := (capacity ch, fresh)]> b /\ last_use ch = use_none)).

Lemma reserve_placed c r b len align res r' b' :
  0 <= len -> 0 < align -> (forall ch, active r = Some ch -> 0 <= cursor ch) ->
  reserve make fresh c r b len align = (res, r', b') ->
  match res with
  | None => active r' = active r /\ spare r' = spare r /\ b' = b
  | Some (offset, ch) => placed c r r' b b' len align offset ch
  end.
Proof.
  intros Hlen Hal Hcur. unfold reserve.
  destruct (_ ≫= _) as [[offset ch]|] eqn:Here.
  - intros [= <- <- <-]. apply bind_Some in Here as (old & Ea & Here).
    destruct (checked _ _) as [e|] eqn:Ee in Here; [|done]. apply checked_Some in Ee as [-> _].
    destruct (_ <=? _) eqn:E in Here; [|done]. injection Here as <- <-. reflect_cmp.
    pose proof (next_multiple_ge (cursor old) align Hal) as [Hge Hmod]. pose proof (Hcur old Ea).
    split; [done|]. cbn [cursor capacity buffer last_use]. split; [lia|]. split; [done|]. split; [done|]. split; [lia|].
    exists (spare r). split; [done|]. left. exists old. split; [by unfold ring_chunks; rewrite Ea|].
    do 3 (split; [done|]). left. split; [lia|done].
  - clear Here. set (written' := written r + len). set (need := Z.max _ FIRST_CHUNK_BYTES).
    assert (Hneed : len <= need) by (unfold need; lia). clearbody need written'.
    destruct (list_find _ (spare r)) as [[i old]|] eqn:Ef.
    + apply list_find_Some in Ef as (Hi & [Hcap Hret] & _). intros [= <- <- <-].
      split; [done|]. cbn [cursor capacity buffer last_use]. split; [lia|]. split; [by apply Zmod_0_l|]. split; [lia|]. split; [lia|].
      exists (option_list (active r) ++ swap_remove (spare r) i). split.
      { unfold ring_chunks. cbn [active spare option_list app]. apply Permutation_cons; [done|].
        destruct (active r); cbn; [apply Permutation_app_comm|done]. }
      left. exists old. split; [|split; [done|split; [done|split; [done|by right]]]].
      unfold ring_chunks. rewrite <- (swap_remove_perm (spare r) i old Hi) at 1. by rewrite <- Permutation_middle.
    + destruct (chunk_new _ _ _ _) as [[ch b1]|] eqn:En; cbn [mbind option_bind].
      * unfold chunk_new in En. apply bind_Some in En as (id & Hid & [= <- <-]). intros [= <- <- <-].
        pose proof (next_power_of_two_ge need).
        split; [done|]. cbn [cursor capacity buffer last_use]. split; [lia|]. split; [by apply Zmod_0_l|]. split; [lia|]. split; [lia|].
        exists (ring_chunks r). split.
        { unfold ring_chunks. cbn [active spare option_list app]. apply Permutation_cons; [done|].
          destruct (active r); cbn; [by rewrite Permutation_app_comm|done]. }
        right. split; [done|]. split; [by eapply Hmake|]. done.
      * by intros [= <- <- <-].
Qed.
End Placed.

(** ** The invariant *)

Definition covers (u : LastUse) (s : SubmitStamp) : Prop := if upload s then seq s <= u_upload u else seq s <= u_draw u.

Record inv (w : World) : Prop := {
  i_seq : 0 < w_seq w;
  i_chunk : forall ch, ch ∈ ring_chunks (w_ring w) ->
    0 <= cursor ch <= capacity ch /\ (exists m, w_buffers w !! buffer ch = Some (capacity ch, m))
    /\ 0 <= u_draw (last_use ch) <= w_seq w /\ 0 <= u_upload (last_use ch) <= w_seq w;
  i_nodup : NoDup (buffer <$> ring_chunks (w_ring w));
  i_payload : forall p, p ∈ w_payloads w -> ~ payload_retired (w_counters w) p ->
    payload_intact (w_buffers w) p /\ 0 < seq (p_stamp p) <= w_seq w
    /\ forall ch, ch ∈ ring_chunks (w_ring w) -> buffer ch = p_buffer p ->
         p_offset p + Z.of_nat (length (p_bytes p)) <= cursor ch /\ covers (last_use ch) (p_stamp p) }.

(** A chunk that retired holds no payload still to be read. *)
Lemma covered_retires c u s : 0 < seq s -> covers u s -> retired c u = true ->
  if upload s then seq s <= upload_retired c else seq s <= draw_retired c.
Proof.
  unfold covers, retired. intros Hs Hc Hr. apply andb_true_iff in Hr as [Hd Hu].
  destruct (upload s); [apply orb_true_iff in Hu as [Hu|Hu] | apply orb_true_iff in Hd as [Hd|Hd]]; reflect_cmp; lia.
Qed.

Lemma payload_intact_ext b b' p : b' !! p_buffer p = b !! p_buffer p -> payload_intact b p -> payload_intact b' p.
Proof. intros E (n & m & H & Hr). exists n, m. by rewrite E. Qed.

(** Bytes copied past a payload's end leave it alone. *)
Lemma payload_intact_copy b p id offset bytes :
  0 <= p_offset p -> (p_buffer p = id -> p_offset p + Z.of_nat (length (p_bytes p)) <= offset) ->
  payload_intact b p -> payload_intact (alter (λ '(n, m), (n, copy_in m offset bytes)) id b) p.
Proof.
  intros H0 Hp (n & m & Hb & H1 & H2 & H3 & Hm). destruct (decide (p_buffer p = id)) as [<-|Hne].
  - exists n, (copy_in m offset bytes). rewrite lookup_alter_eq, Hb. do 4 (split; [done|]). intros i v Hi.
    pose proof (lookup_lt_Some _ _ _ Hi). rewrite <- (Hm i v Hi). unfold copy_in.
    destruct (offset <=? _) eqn:E; reflect_cmp; [|done]. specialize (Hp eq_refl). lia.
  - exists n, m. rewrite lookup_alter_ne by done. done.
Qed.

Lemma copied_intact b id n m offset align bytes st :
  b !! id = Some (n, m) -> 0 <= offset -> offset mod align = 0 -> offset + Z.of_nat (length bytes) <= n ->
  payload_intact (alter (λ '(n, m), (n, copy_in m offset bytes)) id b) (mkPayload st id offset align bytes).
Proof.
  intros Hb H0 Ha Hn. exists n, (copy_in m offset bytes). cbn [p_buffer p_offset p_bytes p_align].
  rewrite lookup_alter_eq, Hb. do 4 (split; [done|]). intros i v Hi. pose proof (lookup_lt_Some _ _ _ Hi). unfold copy_in.
  destruct (offset <=? _) eqn:E1; [destruct (_ <? _) eqn:E2|]; reflect_cmp; cbn; [|lia..].
  replace (Z.to_nat _) with i by lia. by rewrite Hi.
Qed.

Section Safe.
Context (make : gset Z -> Z -> option Z) (fresh : Z -> Z).
Context (Hmake : forall known n id, make known n = Some id -> id ∉ known).

Lemma ring_inv_write r b c s ps up bytes align id offset r' b' :
  inv (mkWorld r b c s ps) -> 0 < align ->
  write make fresh c r b (mkStamp s up) bytes align = (Some (id, offset), r', b') ->
  inv (mkWorld r' b' c s (mkPayload (mkStamp s up) id offset align bytes :: ps)).
Proof.
  intros [Hs Hch Hnd Hp] Hal. cbn [w_seq w_ring w_buffers w_counters w_payloads] in *. unfold write.
  destruct (reserve make fresh c r b _ align) as [[[[off ch]|] r1] b1] eqn:Hr; [|done].
  assert (Hcur : forall ch, active r = Some ch -> 0 <= cursor ch).
  { intros ch' Ea. apply Hch. unfold ring_chunks. rewrite Ea. by apply list_elem_of_here. }
  pose proof (reserve_placed make fresh Hmake c r b (Z.of_nat (length bytes)) align _ r1 b1 ltac:(lia) Hal Hcur Hr) as
    (Ea & H0 & Hmod & Hc & Hcap & rest & Eperm & Hsrc). clear Hr.
  intros [= <- <- <- <-].
  set (ch' := mkChunk (buffer ch) (capacity ch) (cursor ch) (record_use (last_use ch) (mkStamp s up))).
  set (r2 := mkRing _ _ _ _). set (len := Z.of_nat (length bytes)) in *.
  assert (Espare : spare r1 ≡ₚ rest).
  { unfold ring_chunks in Eperm. rewrite Ea in Eperm. cbn in Eperm. by apply Permutation_cons_inv in Eperm. }
  assert (Emem : forall d, d ∈ ring_chunks r2 <-> d = ch' \/ d ∈ rest).
  { intros d. change (ring_chunks r2) with (ch' :: spare r1). by rewrite elem_of_cons, Espare. }
  assert (Hrest : forall d, d ∈ rest -> d ∈ ring_chunks r /\ buffer d <> buffer ch).
  { intros d Hd. destruct Hsrc as [(old & Eold & Eb & _)|(Eold & Hfresh & _)].
    - rewrite Eold in Hnd. cbn in Hnd. apply NoDup_cons in Hnd as [Hni _]. split; [rewrite Eold; by apply list_elem_of_further|].
      intros E. apply Hni. rewrite Eb, <- E. by apply list_elem_of_fmap_2.
    - split; [by rewrite Eold|]. intros E. apply Hfresh. rewrite <- E. apply elem_of_dom.
      destruct (Hch d) as (_ & (m & ->) & _); [by rewrite Eold|done]. }
  assert (Hb1 : (exists m, b1 !! buffer ch = Some (capacity ch, m)) /\ forall i, i <> buffer ch -> b1 !! i = b !! i).
  { destruct Hsrc as [(old & Eold & Eb & Ecap & -> & _)|(Eold & _ & -> & _)].
    - rewrite <- Eb, <- Ecap. split; [|done]. apply Hch. rewrite Eold. by apply list_elem_of_here.
    - split; [exists fresh; by rewrite lookup_insert_eq|]. intros i Hi. by rewrite lookup_insert_ne. }
  destruct Hb1 as [[m Hm] Hother].
  assert (Huse : 0 <= u_draw (last_use ch) <= s /\ 0 <= u_upload (last_use ch) <= s).
  { destruct Hsrc as [(old & Eold & _ & _ & _ & [[_ ->]|[_ ->]])|(_ & _ & _ & ->)]; cbn; [|lia..].
    apply Hch. rewrite Eold. by apply list_elem_of_here. }
  constructor; cbn [w_seq w_ring w_buffers w_counters w_payloads]; [done| | |].
  - intros d [->|Hd]%Emem.
    + cbn [cursor capacity buffer last_use ch']. split; [lia|]. split; [exists (copy_in m off bytes); by rewrite lookup_alter_eq, Hm|].
      unfold record_use. cbn [seq upload]. destruct up; cbn; lia.
    + destruct (Hrest d Hd) as [Hd' Hne]. destruct (Hch d Hd') as (? & ? & ?). split; [done|]. split; [|done].
      by rewrite lookup_alter_ne, Hother by done.
  - change (ring_chunks r2) with (ch' :: spare r1). cbn [fmap list_fmap]. rewrite Espare. apply NoDup_cons. split.
    + intros (d & E & Hd)%list_elem_of_fmap. cbn in E. by destruct (Hrest d Hd).
    + destruct Hsrc as [(old & Eold & _)|(Eold & _)]; rewrite Eold in Hnd; [by apply NoDup_cons in Hnd as []|done].
  - intros p [->|Hpin]%elem_of_cons Hnr.
    + split; [by apply (copied_intact _ _ (capacity ch) m); [..|lia]|]. cbn [p_stamp p_buffer p_offset p_bytes seq]. split; [lia|].
      intros d [->|Hd]%Emem E; [|by destruct (Hrest d Hd)]. cbn [cursor last_use ch']. split; [lia|].
      unfold covers, record_use. cbn [seq upload]. destruct up; cbn; lia.
    + destruct (Hp p Hpin Hnr) as (Hi & Hsq & Hcov).
      assert (Hoff : 0 <= p_offset p) by (by destruct Hi as (? & ? & _ & ? & _)).
      (* a payload in the chunk written lies below the new one, and its reader still counts *)
      assert (Hsame : p_buffer p = buffer ch -> p_offset p + Z.of_nat (length (p_bytes p)) <= off
        /\ b1 = b /\ covers (record_use (last_use ch) (mkStamp s up)) (p_stamp p)).
      { intros E. destruct Hsrc as [(old & Eold & Eb & _ & -> & [[Hle Eu]|[Hret _]])|(_ & Hfresh & _)].
        - destruct (Hcov old) as [Hend Hc']; [rewrite Eold; by apply list_elem_of_here|congruence|].
          split; [lia|]. split; [done|]. rewrite Eu. unfold covers, record_use in *. cbn [seq upload]. 
          destruct up, (upload (p_stamp p)); cbn; lia.
        - destruct Hnr. destruct (Hcov old) as [_ Hc']; [rewrite Eold; by apply list_elem_of_here|congruence|].
          unfold payload_retired. apply (covered_retires c (last_use old)); [lia|done|done].
        - destruct Hfresh. rewrite <- E. apply elem_of_dom. destruct Hi as (? & ? & -> & _). done. }
      split.
      * apply payload_intact_copy; [done|by intros E; apply Hsame|].
        destruct (decide (p_buffer p = buffer ch)) as [E|Hne]; [destruct (Hsame E) as (_ & -> & _); done|].
        by apply (payload_intact_ext b); [apply Hother|].
      * split; [done|]. intros d [->|Hd]%Emem E.
        -- cbn [buffer ch' cursor last_use] in *. destruct (Hsame (eq_sym E)) as (? & _ & ?). split; [lia|done].
        -- apply Hcov; [by apply Hrest|done].
Qed.

Definition op_legal (op : Op) : Prop := match op with Write _ _ align => 0 < align | _ => True end.

Lemma payload_retired_grows c d u p :
  payload_retired c p -> payload_retired (mkCounters ((λ v, Z.max v d) <$> draw_counter c) ((λ v, Z.max v u) <$> upload_counter c)) p.
Proof.
  unfold payload_retired, draw_retired, upload_retired. cbn.
  destruct (upload _), (draw_counter c), (upload_counter c); cbn; lia.
Qed.

Lemma inv_exec w op : inv w -> op_legal op -> inv (exec make fresh w op).
Proof.
  intros I Hop. destruct w as [r b c s ps]. destruct op as [up bytes align| |to|d u]; cbn [exec op_legal] in *.
  - assert (E : (if up then stamp_upload (mkStamp s false) else mkStamp s false) = mkStamp s up) by by destruct up.
    rewrite E. destruct (write _ _ _ _ _ _ _ _) as [[[[id offset]|] r'] b'] eqn:Hw; [by eapply ring_inv_write|].
    (* a refused buffer leaves the chunks as they were *)
    unfold write in Hw. destruct (reserve make fresh c r b _ align) as [[[[off ch]|] r1] b1] eqn:Hr; [done|]. injection Hw as <- <-.
    assert (Hcur : forall ch, active r = Some ch -> 0 <= cursor ch).
    { intros ch' Ea. apply (i_chunk _ I). unfold ring_chunks. cbn. rewrite Ea. by apply list_elem_of_here. }
    destruct (reserve_placed make fresh Hmake c r b (Z.of_nat (length bytes)) align _ r1 b1 ltac:(lia) Hop Hcur Hr) as (Ea & Es & ->).
    assert (Er : ring_chunks r1 = ring_chunks r) by (unfold ring_chunks; by rewrite Ea, Es).
    destruct I. constructor; cbn in *; rewrite ?Er; done.
  - destruct I as [Hs Hch Hnd Hp]. cbn in *. 
    assert (S : ring_chunks (end_submission c r) `sublist_of` ring_chunks r).
    { unfold ring_chunks, end_submission. cbn. apply sublist_app; [done|]. apply retain_sublist. }
    assert (Sub : forall ch, ch ∈ ring_chunks (end_submission c r) -> ch ∈ ring_chunks r).
    { intros ch Hin. by apply (sublist_subseteq _ _ S). }
    constructor; cbn; [done| | |].
    + intros ch Hin. by apply Hch, Sub.
    + eapply sublist_NoDup; [exact Hnd|]. by apply sublist_map.
    + intros p Hin Hnr. destruct (Hp p Hin Hnr) as (? & ? & Hcov). split; [done|]. split; [done|].
      intros ch Hc. by apply Hcov, Sub.
  - destruct I as [Hs Hch Hnd Hp]. cbn in *. constructor; cbn; [lia| |done|].
    + intros ch Hin. destruct (Hch ch Hin) as (? & ? & ? & ?). split; [done|]. split; [done|]. lia.
    + intros p Hin Hnr. destruct (Hp p Hin Hnr) as (? & ? & ?). split; [done|]. split; [lia|done].
  - destruct I as [Hs Hch Hnd Hp]. cbn in *. constructor; cbn; [done|done|done|].
    intros p Hin Hnr. apply Hp; [done|]. intros Hr. by apply Hnr, payload_retired_grows.
Qed.

(** A new device's ring; the first submission's sequence is not 0. *)
Definition ring_start (c : Counters) (s : Z) : World := mkWorld ring_default ∅ c s [].

(** C35: However submissions write inline payloads for their two command buffers,
    end, and are retired by the GPU, a payload some command buffer has still to
    read lies at its aligned offset inside its buffer and reads back as it was
    written: a chunk is appended to only past what it holds, and started again
    only once every reader of it has retired. *)
Theorem ring_payloads_intact c s ops :
  0 < s -> Forall op_legal ops ->
  let w := run make fresh (ring_start c s) ops in
  forall p, p ∈ w_payloads w -> ~ payload_retired (w_counters w) p -> payload_intact (w_buffers w) p.
Proof.
  intros Hs Hl w. assert (I : inv w).
  { subst w. unfold run. assert (I : inv (ring_start c s)).
    { constructor; cbn; [done| |constructor|]; intros x Hx; by apply elem_of_nil in Hx. }
    revert I. generalize (ring_start c s). induction Hl as [|op ops Hop _ IH]; intros w I; cbn; [done|]. by apply IH, inv_exec. }
  intros p Hin Hnr. by apply (i_payload w I).
Qed.
End Safe.

(** ** Three submissions *)

Definition next_buffer (known : gset Z) (_ : Z) : option Z := Some (foldr Z.max 0 (elements known) + 1).

Lemma next_buffer_fresh known n id : next_buffer known n = Some id -> id ∉ known.
Proof.
  intros [= <-] Hin. apply elem_of_elements in Hin.
  assert (P : forall l x, x ∈ l -> x <= foldr Z.max 0 l).
  { intros l. induction l as [|y l IH]; intros x; [intros Hx; by apply elem_of_nil in Hx|]. intros [->|Hx]%elem_of_cons; cbn; [lia|].
    specialize (IH x Hx). lia. }
  pose proof (P _ _ Hin). lia.
Qed.

Definition sample_ops : list Op :=
  [Write false [1; 2; 3] 16; Write true [4; 5] 16; EndSubmission; NextSubmission 3; Write false (replicate 60 7) 256;
   EndSubmission; Retire 2 0; NextSubmission 4; Write false [9] 16].

Lemma ring_payloads_intact_witness :
  let w := run next_buffer (λ _, 0) (ring_start (mkCounters (Some 0) (Some 0)) 2) sample_ops in
  Forall (payload_intact (w_buffers w)) (filter (λ p, ~ payload_retired (w_counters w) p) (w_payloads w))
  /\ length (filter (λ p, ~ payload_retired (w_counters w) p) (w_payloads w)) = 3%nat.
Proof.
  split; [|vm_compute; reflexivity]. apply Forall_forall. intros p [Hr Hin]%list_elem_of_filter.
  apply (ring_payloads_intact next_buffer (λ _, 0) next_buffer_fresh (mkCounters (Some 0) (Some 0)) 2 sample_ops); [lia| |done|done].
  unfold sample_ops. repeat constructor; cbn; lia.
Defined.
