(* ===== verification/PlanarYuv.v ===== *)
(** [planar_yuv.rs]: where the planes of a [YV12] or [NV12] surface sit in its
    one allocation.  [usize] operations wrap at the build's width [bits]. *)

From S2P Require Import Prelude D3DTypes.

Definition MAX_TEXTURE_DIM : Z := 16384.

(** [linear_row_pitch] of [format.rs]. *)
Definition linear_row_pitch (width bytes_per_pixel : Z) : Z :=
  next_multiple_of32 (width *| bytes_per_pixel)%u32 4.

Module PlanarYuvLayout.
Record t := mk { pitch : Z; luma_rows : Z; chroma_rows : Z }.

Definition storage_rows (l : t) : Z := (luma_rows l +% chroma_rows l)%u32.

Section width.
Context (bits : Z).
Local Notation W := (wrap_usize bits).

Definition total_bytes (l : t) : Z := W (pitch l * storage_rows l).
Definition chroma_base (l : t) : Z := W (pitch l * luma_rows l).
Definition half_pitch (l : t) : Z := pitch l / 2.
Definition luma_offset (l : t) (x y : Z) : Z := W (W (y * pitch l) + x).
Definition nv12_uv_offset (l : t) (x y : Z) : Z :=
  W (W (chroma_base l + W (y / 2 * pitch l)) + W (2 * (x / 2))).
Definition yv12_v_offset (l : t) (x y : Z) : Z :=
  W (W (chroma_base l + W (y / 2 * half_pitch l)) + x / 2).
Definition yv12_u_offset (l : t) (x y : Z) : Z :=
  W (yv12_v_offset l x y + W (chroma_rows l * half_pitch l)).
End width.

Definition contains (l : t) (x y : Z) : bool := (x <? pitch l) && (y <? luma_rows l).
End PlanarYuvLayout.
Import PlanarYuvLayout.

Definition layout_from_pitch (d3d_format pitch luma_rows : Z) : option PlanarYuvLayout.t :=
  even_rows_only ← (if d3d_format =? D3DFMT_YV12 then Some true
                    else if d3d_format =? D3DFMT_NV12 then Some false else None);
  if (pitch =? 0) || (luma_rows =? 0) || (MAX_TEXTURE_DIM <? pitch) || (MAX_TEXTURE_DIM <? luma_rows) then None
  else if negb (pitch mod 2 =? 0) || (even_rows_only && negb (luma_rows mod 2 =? 0)) then None
  else
    let chroma_rows := div_ceil luma_rows 2 in
    if MAX_TEXTURE_DIM <? (luma_rows +% chroma_rows)%u32 then None
    else Some (PlanarYuvLayout.mk pitch luma_rows chroma_rows).

Definition planar_yuv_layout (d3d_format width height : Z) : option PlanarYuvLayout.t :=
  if (width =? 0) || (MAX_TEXTURE_DIM <? width) then None
  else layout_from_pitch d3d_format (linear_row_pitch width 1) height.

(** [u32::try_from(usize)]. *)
Definition u32_try_from (x : Z) : option Z := checked u32_max x.

Definition planar_yuv_layout_from_pitch (d3d_format pitch luma_rows : Z) : option PlanarYuvLayout.t :=
  p ← u32_try_from pitch;
  r ← u32_try_from luma_rows;
  layout_from_pitch d3d_format p r.

Example yv12_6x4 : planar_yuv_layout D3DFMT_YV12 6 4 = Some (mk 8 4 2)
  /\ yv12_v_offset 32 (mk 8 4 2) 5 3 = 38 /\ yv12_u_offset 32 (mk 8 4 2) 5 3 = 46 /\ total_bytes 32 (mk 8 4 2) = 48.
Proof. done. Qed.

(** ** The layouts handed out *)

Record layout_ok (fmt : Z) (l : PlanarYuvLayout.t) : Prop := {
  ly_fmt : fmt = D3DFMT_YV12 \/ fmt = D3DFMT_NV12;
  ly_pitch : 0 < pitch l <= MAX_TEXTURE_DIM;
  ly_even : pitch l mod 2 = 0;
  ly_rows : 0 < luma_rows l;
  ly_chroma : chroma_rows l = (luma_rows l + 1) / 2;
  ly_storage : luma_rows l + chroma_rows l <= MAX_TEXTURE_DIM;
  ly_yv12 : fmt = D3DFMT_YV12 -> luma_rows l mod 2 = 0;
}.

Lemma layout_from_pitch_ok fmt p r l : 0 <= p -> 0 <= r ->
  layout_from_pitch fmt p r = Some l -> layout_ok fmt l /\ pitch l = p /\ luma_rows l = r.
Proof.
  unfold layout_from_pitch. intros Hp Hr H. apply bind_Some in H as (even & Hf & H).
  assert (Hc : div_ceil r 2 = (r + 1) / 2).
  { unfold div_ceil. destruct (r mod 2 =? 0) eqn:E; reflect_cmp; Z.to_euclidean_division_equations; lia. }
  rewrite Hc in H. destruct (_ || _) eqn:E1 in H; [done|]. destruct (_ || _) eqn:E2 in H; [done|].
  destruct (_ <? _) eqn:E3 in H; [done|]. injection H as <-. reflect_cmp. unfold MAX_TEXTURE_DIM in *.
  rewrite wrap32_small in E3 by (unfold is_u32, u32_max; Z.to_euclidean_division_equations; lia).
  split; [|done]. split; simpl; try (unfold MAX_TEXTURE_DIM; lia).
  - destruct (fmt =? D3DFMT_YV12) eqn:F1, (fmt =? D3DFMT_NV12) eqn:F2; reflect_cmp; naive_solver.
  - intros ->. rewrite Z.eqb_refl in Hf. injection Hf as <-. simpl in *.
    match goal with H : negb _ = false |- _ => apply negb_false_iff, Z.eqb_eq in H; exact H | H : r mod 2 = 0 |- _ => exact H end.
Qed.

Lemma linear_row_pitch_spec width bpp : 0 <= width -> 0 <= bpp -> width * bpp <= u32_max - 3 ->
  width * bpp <= linear_row_pitch width bpp < width * bpp + 4 /\ linear_row_pitch width bpp mod 4 = 0.
Proof.
  intros. unfold linear_row_pitch, next_multiple_of32. assert (0 <= width * bpp) by nia.
  assert (E : sat u32_max (width * bpp) = width * bpp) by (unfold sat, u32_max in *; lia). rewrite E.
  pose proof (div_ceil_mul_ge (width * bpp) 4). pose proof (div_ceil_mul_lt (width * bpp) 4).
  pose proof (div_ceil_nonneg (width * bpp) 4). rewrite wrap32_small by (unfold is_u32, u32_max in *; lia).
  split; [lia|]. apply Z_mod_mult.
Qed.

Lemma planar_yuv_layout_ok fmt w h l : 0 <= w -> 0 <= h -> planar_yuv_layout fmt w h = Some l ->
  layout_ok fmt l /\ w <= pitch l < w + 4 /\ pitch l mod 4 = 0 /\ luma_rows l = h.
Proof.
  unfold planar_yuv_layout. intros Hw Hh H. destruct (_ || _) eqn:E in H; [done|]. reflect_cmp.
  unfold MAX_TEXTURE_DIM in *. destruct (linear_row_pitch_spec w 1) as [Hp Hm]; [lia|lia|unfold u32_max; lia|].
  rewrite Z.mul_1_r in Hp. apply layout_from_pitch_ok in H as (Hl & E1 & E2); [|lia|done].
  by rewrite E1.
Qed.

Lemma u32_try_from_ok x : is_u32 x -> u32_try_from x = Some x.
Proof. unfold is_u32. intros. apply checked_Some. lia. Qed.

(** ** Where the samples are *)

(** The samples of a planar surface: a luma byte per texel, a U and a V byte per
    2x2 block of texels. *)
Inductive Sample := Luma (x y : Z) | ChromaU (cx cy : Z) | ChromaV (cx cy : Z).

#[global] Instance Sample_eq_dec : EqDecision Sample.
Proof. solve_decision. Defined.

Definition sample_in (l : PlanarYuvLayout.t) (s : Sample) : Prop :=
  match s with
  | Luma x y => 0 <= x < pitch l /\ 0 <= y < luma_rows l
  | ChromaU cx cy | ChromaV cx cy => 0 <= cx < pitch l / 2 /\ 0 <= cy < chroma_rows l
  end.

(** Where a reader of the format looks for it. *)
Definition sample_offset (bits fmt : Z) (l : PlanarYuvLayout.t) (s : Sample) : Z :=
  match s with
  | Luma x y => luma_offset bits l x y
  | ChromaU cx cy => if fmt =? D3DFMT_YV12 then yv12_u_offset bits l (2 * cx) (2 * cy) else nv12_uv_offset bits l (2 * cx) (2 * cy)
  | ChromaV cx cy => if fmt =? D3DFMT_YV12 then yv12_v_offset bits l (2 * cx) (2 * cy) else nv12_uv_offset bits l (2 * cx) (2 * cy) + 1
  end.

Section exact.
Context (bits fmt : Z) (l : PlanarYuvLayout.t).
Context (Hbits : 32 <= bits) (Hl : layout_ok fmt l).
Local Notation P := (pitch l).
Local Notation R := (luma_rows l).
Local Notation CR := (chroma_rows l).

Lemma pitch_halves : P = 2 * (P / 2) /\ 1 <= P / 2.
Proof. destruct Hl. unfold MAX_TEXTURE_DIM in *. Z.to_euclidean_division_equations. lia. Qed.

Lemma usize_exact x : 0 <= x < 2 ^ 32 -> wrap_usize bits x = x.
Proof. intros. apply (wrap_usize_small bits 32); lia. Qed.

Lemma storage_rows_exact : storage_rows l = R + CR /\ 1 <= CR <= R /\ R <= 2 * CR <= R + 1.
Proof.
  destruct Hl. unfold storage_rows, MAX_TEXTURE_DIM in *.
  rewrite wrap32_small by (unfold is_u32, u32_max; Z.to_euclidean_division_equations; lia).
  Z.to_euclidean_division_equations. lia.
Qed.

Lemma total_bytes_exact : total_bytes bits l = P * R + P * CR /\ P * R + P * CR <= 2 ^ 28.
Proof.
  destruct storage_rows_exact as (E & ? & _). unfold total_bytes. rewrite E.
  destruct Hl. unfold MAX_TEXTURE_DIM in *. assert (0 <= P * (R + CR) <= 16384 * 16384) by nia.
  rewrite usize_exact by (change (2 ^ 32) with 4294967296; lia). split; [lia|].
  change (2 ^ 28) with (16384 * 16384). lia.
Qed.

Lemma planes_nonneg : 0 < P /\ 0 < R /\ 0 < P * R /\ 0 < P * CR /\ P * CR = P / 2 * CR + P / 2 * CR /\ 0 < P / 2 * CR.
Proof.
  destruct storage_rows_exact as (_ & ? & _). pose proof (ly_pitch _ _ Hl) as [? _]. pose proof (ly_rows _ _ Hl).
  destruct pitch_halves as [? ?]. split_and!; try done; try (apply Z.mul_pos_pos; lia). nia.
Qed.

(** A place in a plane of [rows] rows of [w] bytes that starts at [base], all
inside the allocation, is computed without a wrap. *)
Lemma plane_exact base w rows x y :
  0 <= base -> 0 < w -> 0 <= x < w -> 0 <= y < rows -> base + rows * w <= 2 ^ 28 ->
  0 <= y * w /\ base + y * w + x < base + rows * w.
Proof. intros. nia. Qed.

Ltac usz := repeat match goal with
  | |- context [wrap_usize bits ?x] =>
    lazymatch x with context [wrap_usize] => fail | _ => idtac end;
  rewrite (usize_exact x) by (change (2 ^ 28) with 268435456 in *; change (2 ^ 32) with 4294967296; lia)
  end.

Lemma chroma_base_exact : chroma_base bits l = P * R /\ 0 <= P * R.
Proof.
  destruct total_bytes_exact as [_ Ht], planes_nonneg as (_ & _ & ? & ? & _). unfold chroma_base. usz. lia.
Qed.

Lemma luma_exact x y : 0 <= x < P -> 0 <= y < R -> luma_offset bits l x y = P * y + x.
Proof.
  intros Hx Hy. destruct total_bytes_exact as [_ Ht], planes_nonneg as (? & ? & ? & ? & _).
  destruct (plane_exact 0 P R x y) as [? ?]; try lia. unfold luma_offset. usz. lia.
Qed.

Lemma nv12_exact x y : 0 <= x < P -> 0 <= y < R -> nv12_uv_offset bits l x y = P * R + P * (y / 2) + 2 * (x / 2).
Proof.
  intros Hx Hy. destruct total_bytes_exact as [_ Ht], storage_rows_exact as (_ & ? & ?), chroma_base_exact as [E ?], pitch_halves as [? ?], planes_nonneg as (? & ? & ? & ? & ? & ?).
  assert (0 <= x / 2 < P / 2 /\ 0 <= y / 2 < CR) by (Z.to_euclidean_division_equations; lia).
  destruct (plane_exact (P * R) P CR (2 * (x / 2)) (y / 2)) as [? ?]; try lia.
  unfold nv12_uv_offset. rewrite E. usz. lia.
Qed.

Lemma yv12_v_exact x y : 0 <= x < P -> 0 <= y < R -> yv12_v_offset bits l x y = P * R + P / 2 * (y / 2) + x / 2.
Proof.
  intros Hx Hy. destruct total_bytes_exact as [_ Ht], storage_rows_exact as (_ & ? & ?), chroma_base_exact as [E ?], pitch_halves as [? ?], planes_nonneg as (? & ? & ? & ? & ? & ?).
  assert (0 <= x / 2 < P / 2 /\ 0 <= y / 2 < CR) by (Z.to_euclidean_division_equations; lia).
  destruct (plane_exact (P * R) (P / 2) CR (x / 2) (y / 2)) as [? ?]; try lia.
  unfold yv12_v_offset, half_pitch. rewrite E. usz. lia.
Qed.

Lemma yv12_u_exact x y : 0 <= x < P -> 0 <= y < R ->
  yv12_u_offset bits l x y = P * R + P / 2 * CR + P / 2 * (y / 2) + x / 2.
Proof.
  intros Hx Hy. destruct total_bytes_exact as [_ Ht], storage_rows_exact as (_ & ? & ?), chroma_base_exact as [E ?], pitch_halves as [? ?], planes_nonneg as (? & ? & ? & ? & ? & ?).
  assert (0 <= x / 2 < P / 2 /\ 0 <= y / 2 < CR) by (Z.to_euclidean_division_equations; lia).
  destruct (plane_exact (P * R + P / 2 * CR) (P / 2) CR (x / 2) (y / 2)) as [? ?]; try lia.
  unfold yv12_u_offset, half_pitch. rewrite yv12_v_exact by done. usz. lia.
Qed.

(** Every sample but the luma ones named through the corner of its block. *)
Lemma sample_offset_exact s : sample_in l s ->
  sample_offset bits fmt l s =
  match s with
  | Luma x y => P * y + x
  | ChromaU cx cy => if fmt =? D3DFMT_YV12 then P * R + P / 2 * CR + P / 2 * cy + cx else P * R + P * cy + 2 * cx
  | ChromaV cx cy => if fmt =? D3DFMT_YV12 then P * R + P / 2 * cy + cx else P * R + P * cy + 2 * cx + 1
  end.
Proof.
  destruct storage_rows_exact as (_ & ? & ?), pitch_halves as [? ?].
  assert (D : forall k, 2 * k / 2 = k) by (intros; rewrite Z.mul_comm; apply Z.div_mul; lia).
  destruct s as [x y|cx cy|cx cy]; simpl; intros [? ?]; [by apply luma_exact| |]; destruct (fmt =? D3DFMT_YV12);
  rewrite ?yv12_u_exact, ?yv12_v_exact, ?nv12_exact, !D by lia; lia.
Qed.

Lemma row_in w x y n : 0 <= x < w -> 0 <= y < n -> 0 <= w * y + x < w * n.
Proof. intros. nia. Qed.

Tactic Notation "rows" constr(w) constr(x) constr(y) constr(n) :=
  let H := fresh in assert (H : 0 <= w * y + x < w * n) by (apply row_in; lia).

Lemma samples_in_range s : sample_in l s -> 0 <= sample_offset bits fmt l s < total_bytes bits l.
Proof.
  intros Hs. rewrite sample_offset_exact by done. destruct total_bytes_exact as [-> _], pitch_halves as [? ?], storage_rows_exact as (_ & ? & ?).
  destruct planes_nonneg as (? & ? & ? & ? & ? & ?).
  destruct s as [x y|cx cy|cx cy]; simpl in Hs; [rows P x y R; lia| |];
  (destruct (fmt =? D3DFMT_YV12); [rows (P / 2) cx cy CR; lia|rows P (2 * cx) cy CR; rows P (2 * cx + 1) cy CR; lia]).
Qed.

(** A byte of a plane is one of its row and one of its column. *)
Lemma plane_split w o rows : 0 < w -> 0 <= o < w * rows -> 0 <= o / w < rows /\ 0 <= o mod w < w /\ o = w * (o / w) + o mod w.
Proof. intros. Z.to_euclidean_division_equations. nia. Qed.

Lemma sample_at o : 0 <= o < total_bytes bits l -> exists s, sample_in l s /\ sample_offset bits fmt l s = o.
Proof.
  intros Ho. destruct total_bytes_exact as [Et _], pitch_halves as [Hp ?], storage_rows_exact as (_ & ? & ?). rewrite Et in Ho.
  destruct planes_nonneg as (? & ? & ? & ? & ? & ?).
  destruct (Z.lt_ge_cases o (P * R)).
  { destruct (plane_split P o R) as (? & ? & ?); [lia|lia|]. exists (Luma (o mod P) (o / P)).
    assert (sample_in l (Luma (o mod P) (o / P))) by done. rewrite sample_offset_exact by done. split; [done|lia]. }
  destruct (fmt =? D3DFMT_YV12) eqn:Ef.
  - destruct (Z.lt_ge_cases o (P * R + P / 2 * CR)).
    + destruct (plane_split (P / 2) (o - P * R) CR) as (? & ? & ?); [lia|lia|].
      exists (ChromaV ((o - P * R) mod (P / 2)) ((o - P * R) / (P / 2))).
      assert (Hs : sample_in l (ChromaV ((o - P * R) mod (P / 2)) ((o - P * R) / (P / 2)))) by done.
      rewrite sample_offset_exact, Ef by done. split; [done|lia].
    + destruct (plane_split (P / 2) (o - P * R - P / 2 * CR) CR) as (? & ? & ?); [lia|lia|].
      exists (ChromaU ((o - P * R - P / 2 * CR) mod (P / 2)) ((o - P * R - P / 2 * CR) / (P / 2))).
      assert (Hs : sample_in l (ChromaU ((o - P * R - P / 2 * CR) mod (P / 2)) ((o - P * R - P / 2 * CR) / (P / 2)))) by done.
      rewrite sample_offset_exact, Ef by done. split; [done|lia].
  - destruct (plane_split P (o - P * R) CR) as (? & ? & ?); [lia|lia|].
    set (c := (o - P * R) mod P) in *. set (cy := (o - P * R) / P) in *.
    assert (Hc : 0 <= c / 2 < P / 2 /\ (c = 2 * (c / 2) \/ c = 2 * (c / 2) + 1)) by (Z.to_euclidean_division_equations; lia).
    destruct Hc as [? [Ec|Ec]]; [exists (ChromaU (c / 2) cy)|exists (ChromaV (c / 2) cy)].
    + assert (sample_in l (ChromaU (c / 2) cy)) by done. rewrite sample_offset_exact, Ef by done. split; [done|lia].
    + assert (sample_in l (ChromaV (c / 2) cy)) by done. rewrite sample_offset_exact, Ef by done. split; [done|lia].
Qed.

Lemma plane_inj w x y x' y' : 0 <= x < w -> 0 <= x' < w -> w * y + x = w * y' + x' -> x = x' /\ y = y'.
Proof. intros. assert (y = y') by nia. nia. Qed.

Lemma sample_inj s s' : sample_in l s -> sample_in l s' -> sample_offset bits fmt l s = sample_offset bits fmt l s' -> s = s'.
Proof.
  intros Hs Hs'. rewrite !sample_offset_exact by done. destruct pitch_halves as [Hp ?], storage_rows_exact as (_ & ? & ?).
  destruct planes_nonneg as (? & ? & ? & ? & ? & ?).
  destruct s as [x y|x y|x y], s' as [x' y'|x' y'|x' y']; simpl in Hs, Hs';
  try rows P x y R; try rows P x' y' R; try rows (P / 2) x y CR; try rows (P / 2) x' y' CR;
  destruct (fmt =? D3DFMT_YV12); intros E; try (exfalso; lia).
  1,2: destruct (plane_inj P x y x' y'); [lia..|]; by subst.
  1,3: destruct (plane_inj (P / 2) x y x' y'); [lia..|]; by subst.
  - destruct (plane_inj P (2 * x) y (2 * x') y'); [lia..|]. f_equal; lia.
  - destruct (plane_inj P (2 * x + 1) y (2 * x' + 1) y'); [lia..|]. f_equal; lia.
Qed.
End exact.

(** The planes of a planar surface tile its allocation.  Every byte of a
    layout handed out for a [YV12] or [NV12] surface of [w] x [h] is exactly one
    sample, at the offset the readers compute without a wrap; every texel of the
    surface has its luma byte, its U and its V among them, the four texels of a
    block the same pair; and the allocation is a texture of legal extent. *)
Theorem planes_tile bits fmt w h l :
  32 <= bits -> 0 <= w -> 0 <= h -> planar_yuv_layout fmt w h = Some l ->
  (w <= pitch l < w + 4 /\ pitch l mod 4 = 0 /\ pitch l <= MAX_TEXTURE_DIM)
  /\ (0 < storage_rows l <= MAX_TEXTURE_DIM /\ total_bytes bits l = pitch l * storage_rows l)
  /\ (forall s, sample_in l s -> 0 <= sample_offset bits fmt l s < total_bytes bits l)
  /\ (forall o, 0 <= o < total_bytes bits l -> exists! s, sample_in l s /\ sample_offset bits fmt l s = o)
  /\ (forall x y, 0 <= x < w -> 0 <= y < h ->
        contains l x y = true
        /\ sample_in l (Luma x y) /\ sample_in l (ChromaU (x / 2) (y / 2)) /\ sample_in l (ChromaV (x / 2) (y / 2))
        /\ (fmt = D3DFMT_YV12 -> yv12_u_offset bits l x y = sample_offset bits fmt l (ChromaU (x / 2) (y / 2))
              /\ yv12_v_offset bits l x y = sample_offset bits fmt l (ChromaV (x / 2) (y / 2)))
        /\ (fmt = D3DFMT_NV12 -> nv12_uv_offset bits l x y = sample_offset bits fmt l (ChromaU (x / 2) (y / 2))
              /\ nv12_uv_offset bits l x y + 1 = sample_offset bits fmt l (ChromaV (x / 2) (y / 2)))).
Proof.
  intros Hbits Hw Hh H. destruct (planar_yuv_layout_ok fmt w h l Hw Hh H) as (Hl & Hp & Hm & Hr).
  destruct (storage_rows_exact fmt l Hl) as (Es & ? & ?), (total_bytes_exact bits fmt l Hbits Hl) as [Et _], (pitch_halves fmt l Hl) as [? ?].
  split; [destruct Hl; lia|]. split; [destruct Hl; rewrite Es, Et; lia|]. split; [by apply samples_in_range|]. split.
  - intros o Ho. destruct (sample_at bits fmt l Hbits Hl o Ho) as (s & Hs & Hso). exists s. split; [done|].
    intros s' [Hs' Hso']. apply (sample_inj bits fmt l Hbits Hl); congruence.
  - intros x y Hx Hy. assert (Hin : 0 <= x / 2 < pitch l / 2 /\ 0 <= y / 2 < chroma_rows l) by (Z.to_euclidean_division_equations; lia).
    split; [apply andb_true_intro; split; apply Z.ltb_lt; lia|]. split; [simpl; lia|]. split; [done|]. split; [done|].
    split; intros Ef; rewrite !(sample_offset_exact bits fmt l Hbits Hl) by done; subst fmt; simpl;
      rewrite ?(yv12_u_exact bits _ l Hbits Hl), ?(yv12_v_exact bits _ l Hbits Hl), ?(nv12_exact bits _ l Hbits Hl) by lia; lia.
Qed.

Lemma planes_tile_witness :
  total_bytes 32 (mk 8 5 3) = 64
  /\ (exists! s, sample_in (mk 8 5 3) s /\ sample_offset 32 D3DFMT_NV12 (mk 8 5 3) s = 61)
  /\ sample_in (mk 8 5 3) (ChromaV (6 / 2) (4 / 2)).
Proof.
  destruct (planes_tile 32 D3DFMT_NV12 7 5 (mk 8 5 3) ltac:(lia) ltac:(lia) ltac:(lia) eq_refl) as (_ & (_ & H1) & _ & H2 & H3).
  split; [exact H1|]. split; [apply H2; split; vm_compute; [discriminate|reflexivity]|].
  destruct (H3 6 4 ltac:(lia) ltac:(lia)) as (_ & _ & _ & H4 & _). exact H4.
Defined.
