(* ===== verification/YuvDecode.v ===== *)
(** The YUV decodes of [stretch_rect.rs], and their twins in the blit fragment
    function ([unix/unix/src/metal/blit.rs]).  Bytes are a list of [Z]s in
    [[0, 255]]; [usize] operations wrap at the build's width [bits]. *)

From S2P Require Import Prelude D3DTypes PlanarYuv.
Import PlanarYuvLayout.

Definition is_packed_yuv (fmt : Z) : bool := (fmt =? D3DFMT_YUY2) || (fmt =? D3DFMT_UYVY).
Definition is_planar_yuv (fmt : Z) : bool := (fmt =? D3DFMT_YV12) || (fmt =? D3DFMT_NV12).

(** An [i64] in 16.16 to 8 bits; the [unwrap_or] never falls back, since the
    value is clamped to a [u8] first. *)
Definition to8 (channel : Z) : Z := Z.max 0 (Z.min 255 (Z.shiftr (channel + Z.shiftl 1 15) 16)).

Definition LUMA_GAIN : Z := 76284.
Definition LUMA_OFFSET : Z := 1052836.
Definition R_FROM_CR : Z := 104595.
Definition G_FROM_CB : Z := 25690.
Definition G_FROM_CR : Z := 53281.
Definition B_FROM_CB : Z := 132186.

Definition scaled_luma (luma : Z) : Z := Z.shiftr ((Z.shiftl luma 16 - LUMA_OFFSET) * LUMA_GAIN) 16.
(** [c - 127.5] in 16.16. *)
Definition chroma (c : Z) : Z := Z.shiftl (c * 2 - 255) 15.

Definition yuv_to_rgb8 (luma cb cr : Z) : Z * Z * Z :=
  let red := scaled_luma luma + Z.shiftr (chroma cr * R_FROM_CR) 16 in
  let green := scaled_luma luma - Z.shiftr (chroma cb * G_FROM_CB) 16 - Z.shiftr (chroma cr * G_FROM_CR) 16 in
  let blue := scaled_luma luma + Z.shiftr (chroma cb * B_FROM_CB) 16 in
  (to8 red, to8 green, to8 blue).

Definition decode_packed_yuv (fmt : Z) (b0 b1 b2 b3 : Z) (odd : bool) : option (Z * Z * Z) :=
  if fmt =? D3DFMT_YUY2 then Some (yuv_to_rgb8 (if odd then b2 else b0) b1 b3)
  else if fmt =? D3DFMT_UYVY then Some (yuv_to_rgb8 (if odd then b3 else b1) b0 b2)
  else None.

(** [src.get(off)]. *)
Definition get (src : list Z) (off : Z) : option Z := src !! Z.to_nat off.

Definition decode_planar_yuv (bits fmt : Z) (src : list Z) (pitch luma_rows x y : Z) : option (Z * Z * Z) :=
  layout ← planar_yuv_layout_from_pitch fmt pitch luma_rows;
  if negb (contains layout x y) then None
  else
    luma ← get src (luma_offset bits layout x y);
    '(cb, cr) ← (if fmt =? D3DFMT_YV12
                 then cb ← get src (yv12_u_offset bits layout x y); cr ← get src (yv12_v_offset bits layout x y); Some (cb, cr)
                 else let pair := nv12_uv_offset bits layout x y in
                      cb ← get src pair; cr ← get src (wrap_usize bits (pair + 1)); Some (cb, cr));
    Some (yuv_to_rgb8 luma cb cr).

Example black_and_white : yuv_to_rgb8 16 128 128 = (1, 0, 1) /\ yuv_to_rgb8 235 128 128 = (255, 254, 255).
Proof. done. Qed.

(** ** Accuracy

    The float version computes [l = (y - 0.063) * 1.164] and
    [(l + 1.596 cv, l - 0.392 cu - 0.813 cv, l + 2.017 cu)] from bytes over 255,
    saturated.  [float_*] are those values times 255 * 10^6. *)

Definition saturate (v : Z) : Z := Z.max 0 (Z.min 255000000 v).
Definition float_luma (y : Z) : Z := 1164 * (1000 * y - 16065).
Definition float_chroma (c : Z) : Z := 1000 * c - 127500.

Definition blit_rgb (y u v : Z) : Z * Z * Z :=
  (saturate (float_luma y + 1596 * float_chroma v),
   saturate (float_luma y - 392 * float_chroma u - 813 * float_chroma v),
   saturate (float_luma y + 2017 * float_chroma u)).

Lemma shiftr16 x : Z.shiftr x 16 = x / 65536.
Proof. by rewrite Z.shiftr_div_pow2 by lia. Qed.

(** A rounded, clamped 16.16 channel is within half a step of a value that is
    near it before the clamp. *)
Lemma to8_near c v : 0 <= to8 c <= 255 /\
  (Z.abs (c * 1000000 - v * 65536) <= 100000000 -> Z.abs (1000000 * to8 c - saturate v) <= 502000).
Proof.
  unfold to8, saturate. change (Z.shiftl 1 15) with 32768. rewrite shiftr16.
  Z.to_euclidean_division_equations. lia.
Qed.

Lemma channels_near y u v : 0 <= y <= 255 -> 0 <= u <= 255 -> 0 <= v <= 255 ->
  let near c w := Z.abs (c * 1000000 - w * 65536) <= 100000000 in
  near (scaled_luma y + Z.shiftr (chroma v * R_FROM_CR) 16) (float_luma y + 1596 * float_chroma v)
  /\ near (scaled_luma y - Z.shiftr (chroma u * G_FROM_CB) 16 - Z.shiftr (chroma v * G_FROM_CR) 16)
          (float_luma y - 392 * float_chroma u - 813 * float_chroma v)
  /\ near (scaled_luma y + Z.shiftr (chroma u * B_FROM_CB) 16) (float_luma y + 2017 * float_chroma u).
Proof.
  intros Hy Hu Hv near. unfold near, scaled_luma, chroma, float_luma, float_chroma,
    LUMA_GAIN, LUMA_OFFSET, R_FROM_CR, G_FROM_CB, G_FROM_CR, B_FROM_CB.
  rewrite !shiftr16, !Z.shiftl_mul_pow2 by lia. change (2 ^ 16) with 65536. change (2 ^ 15) with 32768.
  clear near. split_and!; Z.to_euclidean_division_equations; lia.
Qed.

(** The CPU decode of a YUV sample agrees with the decode of the blit shader.
    On every byte triple each fixed-point channel is a byte within 0.502 of a
    step of the exact value of the shader's saturated formula. *)
Theorem yuv_matches_blit y u v :
  0 <= y <= 255 -> 0 <= u <= 255 -> 0 <= v <= 255 ->
  let '(r, g, b) := yuv_to_rgb8 y u v in
  let '(fr, fg, fb) := blit_rgb y u v in
  (0 <= r <= 255 /\ 0 <= g <= 255 /\ 0 <= b <= 255)
  /\ Z.abs (1000000 * r - fr) <= 502000
  /\ Z.abs (1000000 * g - fg) <= 502000
  /\ Z.abs (1000000 * b - fb) <= 502000.
Proof.
  intros Hy Hu Hv. destruct (channels_near y u v Hy Hu Hv) as (Hr & Hg & Hb).
  split_and!; try (by apply (to8_near _ 0)); by apply to8_near.
Qed.

Lemma yuv_matches_blit_witness :
  yuv_to_rgb8 81 90 240 = (255, 0, 0) /\ Z.abs (1000000 * 255 - fst (fst (blit_rgb 81 90 240))) <= 502000.
Proof.
  split; [reflexivity|].
  destruct (yuv_matches_blit 81 90 240 ltac:(lia) ltac:(lia) ltac:(lia)) as (_ & H & _). exact H.
Defined.

(** ** Where the shader reads

    The planar source is one R8 texture of [pitch] by [storage_rows] texels that
    holds the locked bytes verbatim: the byte at offset [o] is texel
    [(o mod pitch, o / pitch)].  [blit_planar_reads] is the fragment function's
    three unfiltered reads for the logical texel [(px, py)] ([uint2(p)]) under
    the decode uniform, as offsets into those bytes. *)

Definition texel_offset (width : Z) (t : Z * Z) : Z := snd t * width + fst t.

Definition blit_planar_reads (decode tex_w tex_h logical_y px py : Z) : Z * Z :=
  let pitch := Z.max tex_w 1 in
  let luma_rows := logical_y in
  let last_row := (Z.max tex_h 1 -% 1)%u32 in
  let '(bx, by_) := (Z.shiftr px 1, Z.shiftr py 1) in
  if decode =? 3 then
    let half_pitch := pitch / 2 in
    let v_offset := (by_ *% half_pitch +% bx)%u32 in
    let u_offset := ((luma_rows +% 1) / 2 *% half_pitch +% v_offset)%u32 in
    (texel_offset tex_w (u_offset mod pitch, Z.min (luma_rows +% u_offset / pitch)%u32 last_row),
     texel_offset tex_w (v_offset mod pitch, Z.min (luma_rows +% v_offset / pitch)%u32 last_row))
  else
    let row := Z.min (luma_rows +% by_)%u32 last_row in
    (texel_offset tex_w (Z.min (2 *% bx)%u32 (pitch -% 1)%u32, row),
     texel_offset tex_w (Z.min (2 *% bx +% 1)%u32 (pitch -% 1)%u32, row)).

(** [BlitDecode]'s uniform for the two planar formats. *)
Definition planar_uniform (fmt : Z) : Z := if fmt =? D3DFMT_YV12 then 3 else 4.

Lemma texel_of_offset pitch o k rows : 0 < pitch -> 0 <= o -> o < pitch * rows ->
  (k + o / pitch) * pitch + o mod pitch = k * pitch + o /\ 0 <= o / pitch < rows.
Proof. intros. Z.to_euclidean_division_equations. nia. Qed.

Section reads.
Context (bits fmt : Z) (l : PlanarYuvLayout.t) (x y : Z).
Context (Hbits : 32 <= bits) (Hl : layout_ok fmt l) (Hx : 0 <= x < pitch l) (Hy : 0 <= y < luma_rows l).

Lemma reads_bounds :
  (Z.max (pitch l) 1 = pitch l /\ Z.max (storage_rows l) 1 = luma_rows l + chroma_rows l)
  /\ (Z.shiftr x 1 = x / 2 /\ Z.shiftr y 1 = y / 2)
  /\ (0 <= x / 2 < pitch l / 2 /\ 0 <= y / 2 < chroma_rows l)
  /\ pitch l <= 16384 /\ luma_rows l + chroma_rows l <= 16384.
Proof.
  destruct (storage_rows_exact fmt l Hl) as (-> & ? & ?), (planes_nonneg fmt l Hl) as (? & ? & _), (pitch_halves fmt l Hl) as [? ?].
  rewrite !Z.shiftr_div_pow2 by lia. change (2 ^ 1) with 2. pose proof (ly_pitch _ _ Hl). pose proof (ly_storage _ _ Hl).
  unfold MAX_TEXTURE_DIM in *. split_and!; try lia; Z.to_euclidean_division_equations; lia.
Qed.

Lemma yv12_reads : fmt = D3DFMT_YV12 ->
  blit_planar_reads 3 (pitch l) (storage_rows l) (luma_rows l) x y = (yv12_u_offset bits l x y, yv12_v_offset bits l x y).
Proof.
  intros Ef. destruct reads_bounds as ([Ep Es] & [Ex Ey] & [? ?] & ? & ?), (planes_nonneg fmt l Hl) as (? & ? & ? & ? & ? & ?),
  (pitch_halves fmt l Hl) as [? ?]. rewrite (yv12_u_exact bits fmt l Hbits Hl), (yv12_v_exact bits fmt l Hbits Hl) by done.
  unfold blit_planar_reads. rewrite Ep, Es, Ex, Ey. cbn [Z.eqb Pos.eqb].
  set (q := pitch l / 2) in *. set (cx := x / 2) in *. set (cy := y / 2) in *.
  pose proof (row_in q cx cy (chroma_rows l) ltac:(lia) ltac:(lia)) as Hv.
  assert (Hsmall : q * chroma_rows l <= 16384 * 16384) by nia.
  assert (Ev : (cy *% q +% cx)%u32 = q * cy + cx).
  { rewrite (wrap32_small (cy * q)), wrap32_small by (unfold is_u32, u32_max; nia). lia. }
  assert (Ec : (luma_rows l +% 1)%u32 / 2 = chroma_rows l).
  { rewrite wrap32_small by (unfold is_u32, u32_max; lia). by rewrite (ly_chroma _ _ Hl). }
  rewrite Ev, Ec.
  assert (Eu : (chroma_rows l *% q +% (q * cy + cx))%u32 = q * chroma_rows l + (q * cy + cx)).
  { rewrite (wrap32_small (chroma_rows l * q)), wrap32_small by (unfold is_u32, u32_max; lia). lia. }
  rewrite Eu. unfold texel_offset, fst, snd.
  destruct (texel_of_offset (pitch l) (q * cy + cx) (luma_rows l) (chroma_rows l)) as [E1 ?]; [lia..|].
  destruct (texel_of_offset (pitch l) (q * chroma_rows l + (q * cy + cx)) (luma_rows l) (chroma_rows l)) as [E2 ?]; [lia..|].
  rewrite (wrap32_small (luma_rows l + chroma_rows l - 1)) by (unfold is_u32, u32_max; lia).
  rewrite !wrap32_small by (unfold is_u32, u32_max; lia). rewrite !Z.min_l by lia. rewrite E1, E2. f_equal; lia.
Qed.

Lemma nv12_reads :
  blit_planar_reads 4 (pitch l) (storage_rows l) (luma_rows l) x y = (nv12_uv_offset bits l x y, nv12_uv_offset bits l x y + 1).
Proof.
  destruct reads_bounds as ([Ep Es] & [Ex Ey] & [? ?] & ? & ?), (planes_nonneg fmt l Hl) as (? & ? & ? & ? & ? & ?),
  (pitch_halves fmt l Hl) as [? ?]. rewrite (nv12_exact bits fmt l Hbits Hl) by done.
  unfold blit_planar_reads. rewrite Ep, Es, Ex, Ey. cbn [Z.eqb Pos.eqb]. unfold texel_offset, fst, snd.
  rewrite (wrap32_small (2 * (x / 2))) by (unfold is_u32, u32_max; lia).
  rewrite !wrap32_small by (unfold is_u32, u32_max; lia). rewrite !Z.min_l by lia. f_equal; lia.
Qed.
End reads.

(** A lock pitch and a height give back the layout the extent gave. *)
Lemma layout_from_lock fmt w h l : 0 <= w -> 0 <= h -> planar_yuv_layout fmt w h = Some l ->
  planar_yuv_layout_from_pitch fmt (pitch l) h = Some l.
Proof.
  intros Hw Hh H. destruct (planar_yuv_layout_ok fmt w h l Hw Hh H) as (Hl & _ & _ & Hr).
  destruct (storage_rows_exact fmt l Hl) as (_ & ? & _). pose proof (ly_pitch _ _ Hl). pose proof (ly_storage _ _ Hl).
  unfold planar_yuv_layout_from_pitch, MAX_TEXTURE_DIM in *.
  rewrite (u32_try_from_ok (pitch l)), (u32_try_from_ok h) by (unfold is_u32, u32_max; lia). simpl.
  unfold planar_yuv_layout in H. destruct (_ || _) in H; [done|].
  destruct (layout_from_pitch_ok _ _ _ _ (proj1 (wrap32_range _)) Hh H) as (_ & E & _). by rewrite E.
Qed.

(** A texel inside the luma plane always decodes. *)
Lemma decode_planar_there bits fmt src p h l x y :
  32 <= bits -> planar_yuv_layout_from_pitch fmt p h = Some l -> total_bytes bits l <= Z.of_nat (length src) ->
  0 <= x < p -> 0 <= y < h -> is_Some (decode_planar_yuv bits fmt src p h x y).
Proof.
  intros Hbits H Hlen Hx Hy. unfold decode_planar_yuv. rewrite H. simpl.
  unfold planar_yuv_layout_from_pitch in H. apply bind_Some in H as (p' & Ep & H). apply bind_Some in H as (r' & Er & H).
  apply checked_Some in Ep as [-> ?], Er as [-> ?]. destruct (layout_from_pitch_ok fmt p h l ltac:(lia) ltac:(lia) H) as (Hl & <- & <-).
  assert (Hget : forall s, sample_in l s -> exists b, get src (sample_offset bits fmt l s) = Some b).
  { intros s Hs. pose proof (samples_in_range bits fmt l Hbits Hl s Hs). apply lookup_lt_is_Some_2. lia. }
  destruct (reads_bounds fmt l x y Hl Hx Hy) as (_ & _ & Hc & _).
  destruct (Hget (Luma x y)) as [luma Eluma]; [done|]. destruct (Hget (ChromaU (x / 2) (y / 2))) as [cb Ecb]; [done|].
  destruct (Hget (ChromaV (x / 2) (y / 2))) as [cr Ecr]; [done|].
  pose proof (samples_in_range bits fmt l Hbits Hl (ChromaV (x / 2) (y / 2)) Hc) as Hv.
  rewrite (sample_offset_exact bits fmt l Hbits Hl) in Eluma, Ecb, Ecr, Hv by done.
  assert (Hcontains : contains l x y = true) by (apply andb_true_intro; split; apply Z.ltb_lt; lia). rewrite Hcontains. simpl.
  rewrite (luma_exact bits fmt l Hbits Hl), Eluma by lia. simpl.
  destruct (fmt =? D3DFMT_YV12).
  - rewrite (yv12_u_exact bits fmt l Hbits Hl), (yv12_v_exact bits fmt l Hbits Hl), Ecb, Ecr by lia. by eexists.
  - destruct (total_bytes_exact bits fmt l Hbits Hl) as [Et Hsz]. rewrite Et in Hv. change (2 ^ 28) with 268435456 in Hsz.
    rewrite (nv12_exact bits fmt l Hbits Hl) by lia. rewrite (wrap_usize_small bits 32) by (change (2 ^ 32) with 4294967296; lia).
    rewrite Ecb, Ecr. by eexists.
Qed.

(** The blit shader reads a planar surface where the CPU does.  For every
    texel of a surface of a layout handed out, over the texture that holds its
    bytes, the CPU decode finds its bytes, succeeds, and is the conversion of its
    luma byte and of the two bytes the shader reads, whose clamps do nothing. *)
Theorem planar_reads_agree bits fmt w h l (src : list Z) x y :
  32 <= bits -> 0 <= w -> 0 <= h -> planar_yuv_layout fmt w h = Some l ->
  total_bytes bits l <= Z.of_nat (length src) -> 0 <= x < w -> 0 <= y < h ->
  let '(u, v) := blit_planar_reads (planar_uniform fmt) (pitch l) (storage_rows l) h x y in
  exists luma cb cr,
    get src (texel_offset (pitch l) (x, y)) = Some luma /\ get src u = Some cb /\ get src v = Some cr
    /\ decode_planar_yuv bits fmt src (pitch l) h x y = Some (yuv_to_rgb8 luma cb cr).
Proof.
  intros Hbits Hw Hh H Hlen Hx Hy. destruct (planar_yuv_layout_ok fmt w h l Hw Hh H) as (Hl & Hp & _ & Hr).
  pose proof (layout_from_lock fmt w h l Hw Hh H) as Hfrom.
  assert (Hget : forall s, sample_in l s -> exists b, get src (sample_offset bits fmt l s) = Some b).
  { intros s Hs. pose proof (samples_in_range bits fmt l Hbits Hl s Hs). apply lookup_lt_is_Some_2. lia. }
  destruct (reads_bounds fmt l x y Hl ltac:(lia) ltac:(lia)) as (_ & _ & Hc & _).
  destruct (Hget (Luma x y)) as [luma Eluma]; [simpl; lia|].
  destruct (Hget (ChromaU (x / 2) (y / 2))) as [cb Ecb]; [done|]. destruct (Hget (ChromaV (x / 2) (y / 2))) as [cr Ecr]; [done|].
  rewrite (sample_offset_exact bits fmt l Hbits Hl) in Eluma, Ecb, Ecr by (simpl; lia).
  assert (Hcontains : contains l x y = true) by (apply andb_true_intro; split; apply Z.ltb_lt; lia).
  assert (El : luma_offset bits l x y = texel_offset (pitch l) (x, y)).
  { rewrite (luma_exact bits fmt l Hbits Hl) by lia. unfold texel_offset, fst, snd. lia. }
  rewrite <- Hr. unfold decode_planar_yuv, planar_uniform. rewrite Hr, Hfrom. simpl. rewrite Hcontains. simpl.
  rewrite El. replace (texel_offset (pitch l) (x, y)) with (pitch l * y + x) in * by (unfold texel_offset; simpl; lia).
  rewrite Eluma. simpl. rewrite <- Hr.
  destruct (fmt =? D3DFMT_YV12) eqn:Ef in *; reflect_cmp.
  - rewrite (yv12_reads bits fmt l) by (done || lia).
    rewrite (yv12_u_exact bits fmt l Hbits Hl), (yv12_v_exact bits fmt l Hbits Hl) by lia.
    exists luma, cb, cr. by rewrite Ecb, Ecr.
  - rewrite (nv12_reads bits fmt l) by (done || lia).
    assert (Eo : nv12_uv_offset bits l x y = pitch l * luma_rows l + pitch l * (y / 2) + 2 * (x / 2)) by (apply (nv12_exact bits fmt l Hbits Hl); lia).
    pose proof (samples_in_range bits fmt l Hbits Hl (ChromaV (x / 2) (y / 2)) Hc) as Hv.
    rewrite (sample_offset_exact bits fmt l Hbits Hl), (proj2 (Z.eqb_neq _ _) Ef) in Hv by done.
    destruct (total_bytes_exact bits fmt l Hbits Hl) as [Et Hsz]. rewrite Et in Hv. change (2 ^ 28) with 268435456 in Hsz.
    rewrite Eo, (wrap_usize_small bits 32) by (change (2 ^ 32) with 4294967296; lia).
    exists luma, cb, cr. rewrite Ecb, Ecr. done.
Qed.

Lemma planar_reads_agree_witness :
  let src := [16; 60; 0; 0; 90; 235; 0; 0; 100; 200; 0; 0] in
  exists luma cb cr, get src (texel_offset 4 (1, 1)) = Some luma /\ get src 8 = Some cb /\ get src 9 = Some cr
    /\ decode_planar_yuv 32 D3DFMT_NV12 src 4 2 1 1 = Some (yuv_to_rgb8 luma cb cr).
Proof.
  exact (planar_reads_agree 32 D3DFMT_NV12 2 2 (mk 4 2 1) [16; 60; 0; 0; 90; 235; 0; 0; 100; 200; 0; 0] 1 1
    ltac:(lia) ltac:(lia) ltac:(lia) eq_refl ltac:(vm_compute; discriminate) ltac:(lia) ltac:(lia)).
Defined.
