(* ===== verification/PixelConvert.v ===== *)
(** [pixel_convert.rs]: re-encoding a region of texels between two uncompressed
    colour formats on the CPU.  Bytes are lists of [Z]s in [[0, 255]]; [usize]
    operations wrap at the build's width [bits]. *)

From S2P Require Import Prelude D3DTypes PlanarYuv YuvDecode.

Module ConvertRegion.
Record t := mk {
  src_x : Z; src_y : Z; dst_x : Z; dst_y : Z; width : Z; height : Z;
  src_pitch : Z; dst_pitch : Z; src_slice_pitch : Z; dst_slice_pitch : Z; depth : Z;
}.
End ConvertRegion.
Import ConvertRegion.

(** ** Formats *)

Definition is_convertible_rgb (fmt : Z) : bool :=
  bool_decide (fmt ∈ [D3DFMT_A8R8G8B8; D3DFMT_X8R8G8B8; D3DFMT_A8B8G8R8; D3DFMT_X8B8G8R8; D3DFMT_R8G8B8; D3DFMT_R5G6B5;
                      D3DFMT_A1R5G5B5; D3DFMT_X1R5G5B5; D3DFMT_A4R4G4B4; D3DFMT_L8; D3DFMT_A8; D3DFMT_A8L8]).

Definition can_convert_update (src_format dst_format : Z) : bool :=
  (is_convertible_rgb src_format || is_packed_yuv src_format) && is_convertible_rgb dst_format.

Definition can_convert (src_format dst_format : Z) : bool :=
  can_convert_update src_format dst_format
  || ((dst_format =? D3DFMT_A8R8G8B8) && ((src_format =? D3DFMT_A16B16G16R16) || (src_format =? D3DFMT_A32B32G32R32F)))
  || (is_planar_yuv src_format && is_convertible_rgb dst_format).

Definition rgb_bpp (fmt : Z) : Z :=
  if (fmt =? D3DFMT_L8) || (fmt =? D3DFMT_A8) then 1
  else if (fmt =? D3DFMT_R5G6B5) || (fmt =? D3DFMT_A1R5G5B5) || (fmt =? D3DFMT_X1R5G5B5) || (fmt =? D3DFMT_A4R4G4B4)
          || (fmt =? D3DFMT_A8L8) then 2
  else if fmt =? D3DFMT_R8G8B8 then 3
  else 4.

(** ** One texel *)

Definition wrap8 (x : Z) : Z := x mod 256.
Definition expand5 (v : Z) : Z := Z.lor (wrap8 (Z.shiftl v 3)) (Z.shiftr v 2).
Definition expand6 (v : Z) : Z := Z.lor (wrap8 (Z.shiftl v 2)) (Z.shiftr v 4).
Definition expand4 (v : Z) : Z := Z.lor (wrap8 (Z.shiftl v 4)) v.

Definition LUMA_WEIGHT_TOTAL : Z := 10000.
Definition LUMA_ROUNDING_HALF : Z := LUMA_WEIGHT_TOTAL / 2.
Definition luminance (r g b : Z) : Z :=
  Z.land (((2125 *% r +% 7154 *% g +% 721 *% b +% LUMA_ROUNDING_HALF) / LUMA_WEIGHT_TOTAL)%u32) 0xff.

(** [u16::from_le_bytes] and [u16::to_le_bytes]. *)
Definition u16_from_le (b0 b1 : Z) : Z := b0 + 256 * b1.
Definition u16_to_le (v : Z) : list Z := [v mod 256; v / 256].

Definition decode_rgb_pixel (fmt : Z) (px : list Z) : Z * Z * Z * Z :=
  let '(p0, p1, p2, p3) := (px !!! 0%nat, px !!! 1%nat, px !!! 2%nat, px !!! 3%nat) in
  if fmt =? D3DFMT_R5G6B5 then
    let v := u16_from_le p0 p1 in
    (expand5 (Z.land (Z.shiftr v 11) 0x1f), expand6 (Z.land (Z.shiftr v 5) 0x3f), expand5 (Z.land v 0x1f), 0xff)
  else if (fmt =? D3DFMT_A1R5G5B5) || (fmt =? D3DFMT_X1R5G5B5) then
    let v := u16_from_le p0 p1 in
    let a := if (fmt =? D3DFMT_X1R5G5B5) || flag v 0x8000 then 0xff else 0 in
    (expand5 (Z.land (Z.shiftr v 10) 0x1f), expand5 (Z.land (Z.shiftr v 5) 0x1f), expand5 (Z.land v 0x1f), a)
  else if fmt =? D3DFMT_A4R4G4B4 then
    let v := u16_from_le p0 p1 in
    (expand4 (Z.land (Z.shiftr v 8) 0xf), expand4 (Z.land (Z.shiftr v 4) 0xf), expand4 (Z.land v 0xf),
     expand4 (Z.land (Z.shiftr v 12) 0xf))
  else if fmt =? D3DFMT_A8L8 then (p0, p0, p0, p1)
  else if fmt =? D3DFMT_L8 then (p0, p0, p0, 0xff)
  else if fmt =? D3DFMT_A8 then (0, 0, 0, p0)
  else if fmt =? D3DFMT_A8B8G8R8 then (p0, p1, p2, p3)
  else if fmt =? D3DFMT_X8B8G8R8 then (p0, p1, p2, 0xff)
  else if (fmt =? D3DFMT_R8G8B8) || (fmt =? D3DFMT_X8R8G8B8) then (p2, p1, p0, 0xff)
  else (p2, p1, p0, p3).

(** The bytes written over the texel: [out] is exactly [rgb_bpp] long, and every
    byte of it is written. *)
Definition encode_rgb_pixel (fmt : Z) (rgba : Z * Z * Z * Z) : list Z :=
  let '(r, g, b, a) := rgba in
  if fmt =? D3DFMT_R5G6B5 then
    u16_to_le (Z.lor (Z.lor (Z.shiftl (Z.shiftr r 3) 11) (Z.shiftl (Z.shiftr g 2) 5)) (Z.shiftr b 3))
  else if (fmt =? D3DFMT_A1R5G5B5) || (fmt =? D3DFMT_X1R5G5B5) then
    let opaque := (fmt =? D3DFMT_X1R5G5B5) || (0x80 <=? a) in
    u16_to_le (Z.lor (Z.lor (Z.lor (Z.shiftl (if opaque then 1 else 0) 15) (Z.shiftl (Z.shiftr r 3) 10))
                            (Z.shiftl (Z.shiftr g 3) 5)) (Z.shiftr b 3))
  else if fmt =? D3DFMT_A4R4G4B4 then
    u16_to_le (Z.lor (Z.lor (Z.lor (Z.shiftl (Z.shiftr a 4) 12) (Z.shiftl (Z.shiftr r 4) 8))
                            (Z.shiftl (Z.shiftr g 4) 4)) (Z.shiftr b 4))
  else if fmt =? D3DFMT_A8L8 then [luminance r g b; a]
  else if fmt =? D3DFMT_L8 then [luminance r g b]
  else if fmt =? D3DFMT_A8 then [a]
  else if (fmt =? D3DFMT_A8B8G8R8) || (fmt =? D3DFMT_X8B8G8R8) then [r; g; b; if fmt =? D3DFMT_X8B8G8R8 then 0xff else a]
  else if fmt =? D3DFMT_R8G8B8 then [b; g; r]
  else if fmt =? D3DFMT_X8R8G8B8 then [b; g; r; 0xff]
  else [b; g; r; a].

Example r5g6b5_texel : decode_rgb_pixel D3DFMT_R5G6B5 [0x1f; 0xf8] = (255, 0, 255, 255)
  /\ encode_rgb_pixel D3DFMT_R5G6B5 (255, 0, 255, 255) = [0x1f; 0xf8].
Proof. done. Qed.

(** ** Wide channels *)

Definition quantize_u16 (channel : list Z) : Z :=
  wrap8 ((u16_from_le (channel !!! 0%nat) (channel !!! 1%nat) *% 255 +% 32767)%u32 / 65535).

(** An [f64] a widened [f32] can be: exact values are [m * 2 ^ e]. *)
Inductive f64 := NaN | Infinity (neg : bool) | Finite (neg : bool) (m e : Z).

Definition f32_from_le_bytes (channel : list Z) : f64 :=
  let v := u16_from_le (channel !!! 0%nat) (channel !!! 1%nat)
           + 65536 * u16_from_le (channel !!! 2%nat) (channel !!! 3%nat) in
  let neg := flag v 0x80000000 in
  let exponent := Z.land (Z.shiftr v 23) 0xff in
  let mantissa := Z.land v 0x7fffff in
  if exponent =? 255 then (if mantissa =? 0 then Infinity neg else NaN)
  else if exponent =? 0 then Finite neg mantissa (-149)
  else Finite neg (mantissa + 2 ^ 23) (exponent - 150).

(** [clamp(0.0, 1.0)], which keeps a NaN. *)
Definition clamp01 (v : f64) : f64 :=
  match v with
  | NaN => NaN
  | Infinity neg => if neg then Finite false 0 0 else Finite false 1 0
  | Finite true m e => if m =? 0 then v else Finite false 0 0
  | Finite false m e => if (if 0 <=? e then 1 <? m * 2 ^ e else 2 ^ (- e) <? m) then Finite false 1 0 else v
  end.

(** [(value * 255.0).round()] of a clamped value, then the truncating
    conversion; the product of a 24-bit mantissa and 255 is exact in an [f64],
    and ties round away from zero.  No integer for a NaN. *)
Definition round255 (v : f64) : option Z :=
  match v with
  | NaN | Infinity _ => None
  | Finite neg m e =>
      let magnitude := if 0 <=? e then m * 255 * 2 ^ e else (2 * (m * 255) + 2 ^ (- e)) / (2 * 2 ^ (- e)) in
      Some (if neg then - magnitude else magnitude)
  end.

(** [u8::try_from(..).unwrap_or(0)]. *)
Definition quantize_f32 (channel : list Z) : Z :=
  match round255 (clamp01 (f32_from_le_bytes channel)) with
  | Some n => if (0 <=? n) && (n <=? 255) then n else 0
  | None => 0
  end.

Example half_a_float : quantize_f32 [0; 0; 0; 0x3f] = 128 /\ quantize_f32 [0; 0; 0x80; 0x3f] = 255
  /\ quantize_f32 [0; 0; 0xc0; 0x7f] = 0 /\ quantize_f32 [0; 0; 0x80; 0x7f] = 255 /\ quantize_f32 [1; 0; 0; 0x80] = 0.
Proof. done. Qed.

(** ** Regions *)

(** [src.get(a..b)]. *)
Definition get_range (src : list Z) (a b : Z) : option (list Z) :=
  if (a <=? b) && (b <=? Z.of_nat (length src)) then Some (take (Z.to_nat (b - a)) (drop (Z.to_nat a) src)) else None.

(** Writing [bytes] through [dst.get_mut(off..off + n)], [n] their number. *)
Definition put (dst : list Z) (off : Z) (bytes : list Z) : list Z := list_inserts (Z.to_nat off) bytes dst.

(** [for i in lo..lo + n] over a body that may return [false] from the function. *)
Fixpoint for_range (n : nat) (lo : Z) (body : Z -> list Z -> bool * list Z) (dst : list Z) : bool * list Z :=
  match n with
  | O => (true, dst)
  | S n' =>
      match body lo dst with
      | (true, dst') => for_range n' (lo + 1) body dst'
      | (false, dst') => (false, dst')
      end
  end.

Definition for_texels (depth height width : Z) (body : Z -> Z -> Z -> list Z -> bool * list Z) (dst : list Z) : bool * list Z :=
  for_range (Z.to_nat depth) 0 (fun z =>
    for_range (Z.to_nat height) 0 (fun row =>
      for_range (Z.to_nat width) 0 (fun col => body z row col))) dst.

Section width.
Context (bits : Z).
Local Notation W := (wrap_usize bits).

(** The end of each loop body: the destination slice of [bpp] bytes at [off], if
it is there, takes the texel. *)
Definition store_texel (off bpp : Z) (bytes : list Z) (dst : list Z) : bool * list Z :=
  match get_range dst off (W (off + bpp)) with
  | Some _ => (true, put dst off bytes)
  | None => (false, dst)
  end.

Definition src_row (r : t) (z row : Z) : Z := W (W (z * src_slice_pitch r) + W ((src_y r +% row)%u32 * src_pitch r)).
Definition dst_row (r : t) (z row : Z) : Z := W (W (z * dst_slice_pitch r) + W ((dst_y r +% row)%u32 * dst_pitch r)).

Definition convert_planar_region (dst : list Z) (dst_format : Z) (src : list Z) (src_format : Z) (r : t) : bool * list Z :=
  if negb (depth r =? 1) || (src_pitch r =? 0) || negb (src_slice_pitch r mod src_pitch r =? 0) then (false, dst)
  else
  let luma_rows := src_slice_pitch r / src_pitch r in
  let dst_bpp := rgb_bpp dst_format in
  for_texels 1 (height r) (width r) (fun _ row col dst =>
  let sy := (src_y r +% row)%u32 in
  let dst_row := W ((dst_y r +% row)%u32 * dst_pitch r) in
  let sx := (src_x r +% col)%u32 in
  match decode_planar_yuv bits src_format src (src_pitch r) luma_rows sx sy with
  | Some (cr, cg, cb) =>
  store_texel (W (dst_row + W ((dst_x r +% col)%u32 * dst_bpp))) dst_bpp (encode_rgb_pixel dst_format (cr, cg, cb, 0xff)) dst
  | None => (false, dst)
  end) dst.

(** [quantize] takes the [n] bytes of one channel; the destination is [B, G, R, A]. *)
Definition convert_wide_region (n : Z) (quantize : list Z -> Z) (dst : list Z) (src : list Z) (r : t) : bool * list Z :=
  for_texels (depth r) (height r) (width r) (fun z row col dst =>
  let src_offset := W (src_row r z row + W (W ((src_x r +% col)%u32 * 4) * n)) in
  let dst_offset := W (dst_row r z row + W ((dst_x r +% col)%u32 * 4)) in
  match get_range src src_offset (W (src_offset + W (4 * n))) with
  | Some pixel =>
    let channel i := take (Z.to_nat n) (drop (Z.to_nat (i * n)) pixel) in
    store_texel dst_offset 4 [quantize (channel 2); quantize (channel 1); quantize (channel 0); quantize (channel 3)] dst
  | None => (false, dst)
  end) dst.

(** The source texel of the narrow and packed-YUV codecs. *)
Definition fetch_rgba (src : list Z) (src_format row_offset sx : Z) : option (Z * Z * Z * Z) :=
  if is_packed_yuv src_format then
  let off := W (row_offset + W (Z.ldiff sx 1 * 2)) in
  mp ← get_range src off (W (off + 4));
  '(cr, cg, cb) ← decode_packed_yuv src_format (mp !!! 0%nat) (mp !!! 1%nat) (mp !!! 2%nat) (mp !!! 3%nat) (Z.land sx 1 =? 1);
  Some (cr, cg, cb, 0xff)
  else
  let bpp := rgb_bpp src_format in
  let off := W (row_offset + W (sx * bpp)) in
  px ← get_range src off (W (off + bpp));
  Some (decode_rgb_pixel src_format px).

Definition convert_region (dst : list Z) (dst_format : Z) (src : list Z) (src_format : Z) (r : t) : bool * list Z :=
  if negb (can_convert src_format dst_format) then (false, dst)
  else if src_format =? D3DFMT_A16B16G16R16 then convert_wide_region 2 quantize_u16 dst src r
  else if src_format =? D3DFMT_A32B32G32R32F then convert_wide_region 4 quantize_f32 dst src r
  else if is_planar_yuv src_format then convert_planar_region dst dst_format src src_format r
  else
  let dst_bpp := rgb_bpp dst_format in
  for_texels (depth r) (height r) (width r) (fun z row col dst =>
  match fetch_rgba src src_format (src_row r z row) (src_x r +% col)%u32 with
  | Some rgba =>
  store_texel (W (dst_row r z row + W ((dst_x r +% col)%u32 * dst_bpp))) dst_bpp (encode_rgb_pixel dst_format rgba) dst
  | None => (false, dst)
  end) dst.
End width.

(** One texel of a 2x1 level moved one texel right, from [R5G6B5] to [A8R8G8B8]. *)
Example one_texel :
  convert_region 32 (replicate 12 7) D3DFMT_A8R8G8B8 [0; 0; 0x1f; 0] D3DFMT_R5G6B5 (mk 1 0 2 0 1 1 4 12 4 12 1)
  = (true, replicate 8 7 ++ [255; 0; 0; 255]).
Proof. reflexivity. Qed.

(** ** The loop nest *)

Lemma for_range_ok (P : Z -> list Z -> Prop) (body : Z -> list Z -> bool * list Z) n : forall lo dst,
  P lo dst ->
  (forall i d, lo <= i < lo + Z.of_nat n -> P i d -> exists d', body i d = (true, d') /\ P (i + 1) d') ->
  exists d', for_range n lo body dst = (true, d') /\ P (lo + Z.of_nat n) d'.
Proof.
  induction n as [|n IH]; intros lo dst H0 Hstep; cbn [for_range].
  - exists dst. by rewrite Z.add_0_r.
  - destruct (Hstep lo dst) as (d1 & E1 & H1); [lia|done|]. rewrite E1.
    destruct (IH (lo + 1) d1 H1) as (d2 & E2 & H2); [intros; apply Hstep; [lia|done]|].
    exists d2. split; [done|]. by replace (lo + Z.of_nat (S n)) with (lo + 1 + Z.of_nat n) by lia.
Qed.

Lemma for_range_length n body : (forall i d, length (snd (body i d)) = length d) ->
  forall lo d, length (snd (for_range n lo body d)) = length d.
Proof.
  intros H. induction n as [|n IH]; intros lo d; cbn [for_range]; [done|].
  specialize (H lo d). destruct (body lo d) as [[] d'] eqn:E; simpl in *; [|done]. by rewrite IH.
Qed.

Lemma put_length dst off bytes : length (put dst off bytes) = length dst.
Proof. apply length_inserts. Qed.

Lemma put_inside dst off (bytes : list Z) k : 0 <= off -> off + Z.of_nat (length bytes) <= Z.of_nat (length dst) ->
  0 <= k < Z.of_nat (length bytes) -> get (put dst off bytes) (off + k) = bytes !! Z.to_nat k.
Proof.
  intros. unfold get, put. rewrite list_lookup_inserts by lia. f_equal. lia.
Qed.

Lemma put_outside dst off (bytes : list Z) b : 0 <= off -> 0 <= b -> ~ (off <= b < off + Z.of_nat (length bytes)) ->
  get (put dst off bytes) b = get dst b.
Proof.
  intros. unfold get, put. destruct (Z.lt_ge_cases b off); [apply list_lookup_inserts_lt; lia|].
  apply list_lookup_inserts_ge. lia.
Qed.

(** Every texel of a [depth] x [height] x [width] region is written in full, each
    to its own place, and nothing else is. *)
Section texels.
Context (depth height width bpp : Z) (place : Z -> Z -> Z -> Z) (bytes : Z -> Z -> Z -> list Z) (dst : list Z).

Definition in_box (z row col : Z) : Prop := 0 <= z < depth /\ 0 <= row < height /\ 0 <= col < width.
Definition before (z row col z' row' col' : Z) : Prop :=
  z' < z \/ (z' = z /\ (row' < row \/ (row' = row /\ col' < col))).

Record places_ok : Prop := {
  po_bpp : 0 < bpp;
  po_len : forall z row col, in_box z row col -> Z.of_nat (length (bytes z row col)) = bpp;
  po_in : forall z row col, in_box z row col -> 0 <= place z row col /\ place z row col + bpp <= Z.of_nat (length dst);
  po_order : forall z row col z' row' col', in_box z row col -> in_box z' row' col' -> before z row col z' row' col' ->
  place z' row' col' + bpp <= place z row col;
}.

(** The texels that come before a point of the walk are written. *)
Record written (z row col : Z) (d : list Z) : Prop := {
  wr_len : length d = length dst;
  wr_in : forall z' row' col' k, in_box z' row' col' -> before z row col z' row' col' -> 0 <= k < bpp ->
  get d (place z' row' col' + k) = bytes z' row' col' !! Z.to_nat k;
  wr_out : forall b, 0 <= b ->
  (forall z' row' col', in_box z' row' col' -> before z row col z' row' col' -> ~ (place z' row' col' <= b < place z' row' col' + bpp)) ->
  get d b = get dst b;
}.

Lemma written_same z row col z1 row1 col1 d :
  (forall z' row' col', in_box z' row' col' -> before z row col z' row' col' <-> before z1 row1 col1 z' row' col') ->
  written z row col d -> written z1 row1 col1 d.
Proof.
  intros Hb [L I O]. split; [done|..].
  - intros z' row' col' k Hx Hbf. apply I; [done|]. by apply Hb.
  - intros b Hb0 Hno. apply O; [done|]. intros z' row' col' Hx Hbf. apply Hno; [done|]. by apply Hb.
Qed.

Lemma written_step z row col d : places_ok -> in_box z row col -> written z row col d ->
  written z row (col + 1) (put d (place z row col) (bytes z row col)).
Proof.
  intros [Hbpp Hlen Hin Hord] Hx [L I O]. pose proof (Hin _ _ _ Hx) as [? ?]. pose proof (Hlen _ _ _ Hx) as Hl.
  split; [by rewrite put_length|..].
  - intros z' row' col' k Hx' Hbf Hk. destruct (decide (z' = z /\ row' = row /\ col' = col)) as [(-> & -> & ->)|Hne].
    + apply put_inside; [lia|rewrite L; lia|lia].
    + assert (Hb' : before z row col z' row' col') by (unfold before in *; lia).
      pose proof (Hord _ _ _ _ _ _ Hx Hx' Hb'). pose proof (Hin _ _ _ Hx') as [? ?].
      rewrite put_outside by lia. by apply I.
  - intros b Hb0 Hno. rewrite put_outside; [|lia|lia|rewrite Hl; apply Hno; [done|unfold before; lia]].
    apply O; [done|]. intros z' row' col' Hx' Hbf. apply Hno; [done|]. unfold before in *. lia.
Qed.

Lemma for_texels_writes body : 0 <= depth -> 0 <= height -> 0 <= width -> places_ok ->
  (forall z row col d, in_box z row col -> length d = length dst ->
 body z row col d = (true, put d (place z row col) (bytes z row col))) ->
  exists d', for_texels depth height width body dst = (true, d') /\ written depth 0 0 d'.
Proof.
  intros Hd Hh Hw Hp Hbody. unfold for_texels.
  destruct (for_range_ok (fun z d => written z 0 0 d)
  (fun z => for_range (Z.to_nat height) 0 (fun row => for_range (Z.to_nat width) 0 (fun col => body z row col)))
  (Z.to_nat depth) 0 dst) as (d' & E & H').
  - split; [done| |done]. intros z' row' col' k (? & ? & ?) Hb. unfold before in Hb. lia.
  - intros z d Hz Hzd.
    destruct (for_range_ok (fun row d => written z row 0 d) (fun row => for_range (Z.to_nat width) 0 (fun col => body z row col))
    (Z.to_nat height) 0 d Hzd) as (d1 & E1 & H1).
    + intros row d1 Hrow Hrd.
      destruct (for_range_ok (fun col d => written z row col d) (fun col => body z row col) (Z.to_nat width) 0 d1 Hrd) as (d2 & E2 & H2).
      * intros col d2 Hcol Hcd. assert (Hx : in_box z row col) by (unfold in_box; lia).
        eexists. split; [apply Hbody; [done|apply Hcd]|by apply written_step].
      * exists d2. split; [done|]. eapply written_same; [|exact H2]. intros z' row' col' (? & ? & ?). unfold before. lia.
    + exists d1. split; [done|]. eapply written_same; [|exact H1]. intros z' row' col' (? & ? & ?). unfold before. lia.
  - exists d'. split; [done|]. rewrite Z2Nat.id in H' by done. done.
Qed.
End texels.

(** ** What a conversion means

    A texel of a level of exact pitches, and the bytes it becomes. *)

Definition texel_at (pitch slice_pitch bpp z y x : Z) : Z := z * slice_pitch + y * pitch + x * bpp.

Definition texel (src : list Z) (pitch slice_pitch bpp z y x : Z) : list Z :=
  take (Z.to_nat bpp) (drop (Z.to_nat (texel_at pitch slice_pitch bpp z y x)) src).

Definition src_bpp (fmt : Z) : Z :=
  if fmt =? D3DFMT_A16B16G16R16 then 8 else if fmt =? D3DFMT_A32B32G32R32F then 16
  else if is_planar_yuv fmt then 1 else if is_packed_yuv fmt then 2 else rgb_bpp fmt.

(** [R, G, B, A] channels of [n] bytes, to [B, G, R, A] bytes. *)
Definition wide_texel (n : Z) (quantize : list Z -> Z) (px : list Z) : list Z :=
  let channel i := take (Z.to_nat n) (drop (Z.to_nat (i * n)) px) in
  [quantize (channel 2); quantize (channel 1); quantize (channel 0); quantize (channel 3)].

(** The two texels of a packed YUV macropixel are its four bytes. *)
Definition converted (bits src_format dst_format : Z) (src : list Z) (pitch slice_pitch z y x : Z) : option (list Z) :=
  let px bpp := texel src pitch slice_pitch bpp z y in
  if src_format =? D3DFMT_A16B16G16R16 then Some (wide_texel 2 quantize_u16 (px 8 x))
  else if src_format =? D3DFMT_A32B32G32R32F then Some (wide_texel 4 quantize_f32 (px 16 x))
  else
    rgba ← (if is_planar_yuv src_format then
              '(cr, cg, cb) ← decode_planar_yuv bits src_format src pitch (slice_pitch / pitch) x y; Some (cr, cg, cb, 255)
            else if is_packed_yuv src_format then
              let mp := px 4 (x / 2) in
              '(cr, cg, cb) ← decode_packed_yuv src_format (mp !!! 0%nat) (mp !!! 1%nat) (mp !!! 2%nat) (mp !!! 3%nat) (x mod 2 =? 1);
              Some (cr, cg, cb, 255)
            else Some (decode_rgb_pixel src_format (px (rgb_bpp src_format) x)));
    Some (encode_rgb_pixel dst_format rgba).

(** A rectangle of texels inside a level of [len] bytes. *)
Record inside_level (len bpp pitch slice_pitch x0 y0 w h d : Z) : Prop := {
  il_bpp : 0 < bpp;
  il_x : 0 <= x0 /\ 0 <= w /\ x0 + w <= u32_max;
  il_y : 0 <= y0 /\ 0 <= h /\ y0 + h <= u32_max;
  il_d : 0 <= d;
  il_row : (x0 + w) * bpp <= pitch;
  il_slice : (y0 + h) * pitch <= slice_pitch;
  il_len : d * slice_pitch <= len;
}.

Record region_fits (bits src_format dst_format : Z) (src dst : list Z) (r : t) : Prop := {
  rf_bits : 32 <= bits;
  rf_src_len : Z.of_nat (length src) < 2 ^ bits;
  rf_dst_len : Z.of_nat (length dst) < 2 ^ bits;
  rf_src : inside_level (Z.of_nat (length src)) (src_bpp src_format) (src_pitch r) (src_slice_pitch r)
             (src_x r) (src_y r) (width r) (height r) (depth r);
  rf_dst : inside_level (Z.of_nat (length dst)) (rgb_bpp dst_format) (dst_pitch r) (dst_slice_pitch r)
             (dst_x r) (dst_y r) (width r) (height r) (depth r);
  rf_packed : is_packed_yuv src_format = true -> src_pitch r mod 4 = 0;
  rf_planar : is_planar_yuv src_format = true ->
    depth r = 1 /\ 0 < src_pitch r /\ src_slice_pitch r mod src_pitch r = 0
    /\ exists l, planar_yuv_layout_from_pitch src_format (src_pitch r) (src_slice_pitch r / src_pitch r) = Some l
         /\ PlanarYuvLayout.total_bytes bits l <= Z.of_nat (length src);
}.

Section inside.
Context (len bpp pitch slice_pitch x0 y0 w h d : Z) (Hin : inside_level len bpp pitch slice_pitch x0 y0 w h d).
Local Notation place z row col := (texel_at pitch slice_pitch bpp z (y0 + row) (x0 + col)).

Lemma place_bounds z row col : in_box d h w z row col ->
  (0 <= z * slice_pitch /\ 0 <= (y0 + row) * pitch /\ 0 <= (x0 + col) * bpp)
  /\ (x0 + col) * bpp + bpp <= pitch
  /\ (y0 + row) * pitch + pitch <= slice_pitch
  /\ z * slice_pitch + slice_pitch <= len.
Proof.
  intros (? & ? & ?). destruct Hin. assert (0 <= pitch) by nia. assert (0 <= slice_pitch) by nia.
  split_and!; try nia.
Qed.

Lemma place_order z row col z' row' col' : in_box d h w z row col -> in_box d h w z' row' col' ->
  before z row col z' row' col' -> place z' row' col' + bpp <= place z row col.
Proof.
  intros Hx Hx'. pose proof (place_bounds _ _ _ Hx) as (? & ? & ? & ?). pose proof (place_bounds _ _ _ Hx') as (? & ? & ? & ?).
  unfold texel_at. destruct Hin. intros [?|[-> [?|[-> ?]]]].
  - assert (z' * slice_pitch + slice_pitch <= z * slice_pitch) by nia. lia.
  - assert ((y0 + row') * pitch + pitch <= (y0 + row) * pitch) by nia. lia.
  - nia.
Qed.
End inside.

Lemma wrapped_sum bits a b c : 0 <= a -> 0 <= b -> 0 <= c -> a + b + c < 2 ^ bits ->
  let W := wrap_usize bits in W (W (W a + W b) + W c) = a + b + c.
Proof. intros ? ? ? ?. cbv zeta. unfold wrap_usize. rewrite (Z.mod_small a), (Z.mod_small b), (Z.mod_small (a + b)), (Z.mod_small c) by lia. apply Z.mod_small. lia. Qed.

Lemma get_range_ok src a b : 0 <= a <= b -> b <= Z.of_nat (length src) ->
  get_range src a b = Some (take (Z.to_nat (b - a)) (drop (Z.to_nat a) src)).
Proof. intros. unfold get_range. by rewrite (proj2 (Z.leb_le a b)), (proj2 (Z.leb_le b _)) by lia. Qed.

Lemma encode_length fmt rgba : Z.of_nat (length (encode_rgb_pixel fmt rgba)) = rgb_bpp fmt \/ is_convertible_rgb fmt = false.
Proof.
  destruct (is_convertible_rgb fmt) eqn:E; [left|by right]. apply bool_decide_eq_true in E.
  destruct rgba as [[[? ?] ?] ?]. rewrite !elem_of_cons, elem_of_nil in E. destruct_or?; subst; done.
Qed.

(** The value is there for every texel of a region that fits, and it is as long
    as a destination texel. *)
Section region.
Context (bits src_format dst_format : Z) (src dst : list Z) (r : t).
Context (Hc : can_convert src_format dst_format = true) (Hf : region_fits bits src_format dst_format src dst r).
Local Notation box := (in_box (depth r) (height r) (width r)).
Local Notation value z row col :=
  (converted bits src_format dst_format src (src_pitch r) (src_slice_pitch r) z (src_y r + row) (src_x r + col)).
Local Notation place z row col :=
  (texel_at (dst_pitch r) (dst_slice_pitch r) (rgb_bpp dst_format) z (dst_y r + row) (dst_x r + col)).

Lemma u32_coordinate v i n : 0 <= v -> 0 <= i < n -> v + n <= u32_max -> (v +% i)%u32 = v + i.
Proof. intros. apply wrap32_small. unfold is_u32. lia. Qed.

Lemma dst_convertible : is_convertible_rgb dst_format = true.
Proof.
  clear Hf. unfold can_convert, can_convert_update in Hc. destruct (is_convertible_rgb dst_format) eqn:E; [done|]. exfalso.
  rewrite !andb_false_r, orb_false_r in Hc. simpl in Hc. apply andb_prop in Hc as [H _]. apply Z.eqb_eq in H. by subst.
Qed.

Lemma dst_place z row col : box z row col ->
  let W := wrap_usize bits in
  W (dst_row bits r z row + W ((dst_x r +% col)%u32 * rgb_bpp dst_format)) = place z row col
  /\ 0 <= place z row col /\ place z row col + rgb_bpp dst_format <= Z.of_nat (length dst)
  /\ W (place z row col + rgb_bpp dst_format) = place z row col + rgb_bpp dst_format.
Proof.
  intros Hx W. unfold W. clear W. destruct Hf as [_ _ Hl _ Hd _ _]. pose proof (place_bounds _ _ _ _ _ _ _ _ _ Hd _ _ _ Hx) as (? & ? & ? & ?).
  destruct Hd as [Hb [? [? Hux]] [? [? Huy]] _ _ _ _], Hx as (? & ? & ?). unfold dst_row, texel_at.
  rewrite (u32_coordinate (dst_x r) col (width r)), (u32_coordinate (dst_y r) row (height r)) by lia.
  rewrite wrapped_sum by lia. split; [done|]. split; [lia|]. split; [lia|]. apply Z.mod_small. lia.
Qed.

Lemma src_place z row col bpp x : box z row col -> 0 <= x -> 0 < bpp -> x * bpp + bpp <= src_pitch r ->
  let W := wrap_usize bits in let o := texel_at (src_pitch r) (src_slice_pitch r) bpp z (src_y r + row) x in
  W (src_row bits r z row + W (x * bpp)) = o
  /\ get_range src o (W (o + bpp)) = Some (texel src (src_pitch r) (src_slice_pitch r) bpp z (src_y r + row) x)
  /\ length (texel src (src_pitch r) (src_slice_pitch r) bpp z (src_y r + row) x) = Z.to_nat bpp.
Proof.
  intros Hx ? ? ? W o. unfold W, o. clear W o. destruct Hf as [_ Hl _ Hd _ _ _]. pose proof (place_bounds _ _ _ _ _ _ _ _ _ Hd _ _ _ Hx) as (? & ? & ? & ?).
  destruct Hd as [Hb [? [? Hux]] [? [? Huy]] _ _ _ _], Hx as (? & ? & ?). unfold src_row, texel, texel_at.
  rewrite (u32_coordinate (src_y r) row (height r)) by lia. assert (0 <= x * bpp) by nia.
  rewrite wrapped_sum by lia. split; [done|]. split.
  - unfold wrap_usize. rewrite Z.mod_small by lia. rewrite get_range_ok by lia. by rewrite Z.add_simpl_l.
  - rewrite length_take, length_drop. lia.
Qed.

Lemma store_there z row col bytes d : box z row col -> length d = length dst ->
  store_texel bits (place z row col) (rgb_bpp dst_format) bytes d = (true, put d (place z row col) bytes).
Proof.
  intros Hx Hd. destruct (dst_place z row col Hx) as (_ & ? & ? & E). unfold store_texel. rewrite E.
  rewrite get_range_ok; [done| |rewrite Hd; lia]. destruct Hf as [_ _ _ _ [] _ _]. lia.
Qed.

(** The loop body of each path writes the value of its texel. *)
Definition body_ok (body : Z -> Z -> Z -> list Z -> bool * list Z) : Prop :=
  forall z row col d, box z row col -> length d = length dst ->
  exists v, value z row col = Some v /\ Z.of_nat (length v) = rgb_bpp dst_format
  /\ body z row col d = (true, put d (place z row col) v).

Lemma encoded_length rgba : Z.of_nat (length (encode_rgb_pixel dst_format rgba)) = rgb_bpp dst_format.
Proof. destruct (encode_length dst_format rgba) as [H|H]; [done|]. by rewrite dst_convertible in H. Qed.

Lemma src_x_exact z row col : box z row col -> (src_x r +% col)%u32 = src_x r + col /\ 0 <= src_x r + col
  /\ 0 < src_bpp src_format /\ (src_x r + col) * src_bpp src_format + src_bpp src_format <= src_pitch r.
Proof.
  intros Hx. destruct Hf as [_ _ _ Hs _ _ _]. pose proof (place_bounds _ _ _ _ _ _ _ _ _ Hs _ _ _ Hx) as (? & ? & ? & ?).
  destruct Hs as [Hb [? [? Hux]] _ _ _ _ _], Hx as (? & ? & ?). rewrite (u32_coordinate (src_x r) col (width r)) by lia. lia.
Qed.

Lemma wide_body n quantize : 0 < n <= 4 -> src_bpp src_format = 4 * n -> dst_format = D3DFMT_A8R8G8B8 ->
  (forall z row col, value z row col
 = Some (wide_texel n quantize (texel src (src_pitch r) (src_slice_pitch r) (4 * n) z (src_y r + row) (src_x r + col)))) ->
  body_ok (fun z row col dst =>
  let W := wrap_usize bits in
  let src_offset := W (src_row bits r z row + W (W ((src_x r +% col)%u32 * 4) * n)) in
  let dst_offset := W (dst_row bits r z row + W ((dst_x r +% col)%u32 * 4)) in
  match get_range src src_offset (W (src_offset + W (4 * n))) with
  | Some pixel =>
    let channel i := take (Z.to_nat n) (drop (Z.to_nat (i * n)) pixel) in
    store_texel bits dst_offset 4 [quantize (channel 2); quantize (channel 1); quantize (channel 0); quantize (channel 3)] dst
  | None => (false, dst)
  end).
Proof.
  intros Hn Hb Ed Hv z row col d Hx Hd. destruct (src_x_exact z row col Hx) as (Ex & ? & _ & Hp). rewrite Hb in Hp.
  rewrite Hv. eexists. split; [done|]. split; [by subst|]. cbv zeta. rewrite Ex.
  destruct (src_place z row col (4 * n) (src_x r + col)) as (E1 & E2 & _); [done|lia|lia|lia|].
  assert (E4 : wrap_usize bits ((src_x r + col) * 4) = (src_x r + col) * 4).
  { destruct Hf as [_ Hl _ Hs _ _ _]. pose proof (place_bounds _ _ _ _ _ _ _ _ _ Hs _ _ _ Hx) as (? & ? & ? & ?). apply Z.mod_small. nia. }
  assert (En : wrap_usize bits (4 * n) = 4 * n).
  { destruct Hf as [Hbits _ _ _ _ _ _]. apply (wrap_usize_small bits 32); [|lia]. change (2 ^ 32) with 4294967296. lia. }
  rewrite E4, En, <- Z.mul_assoc, E1, E2. destruct (dst_place z row col Hx) as (E3 & _).
  pose proof (store_there z row col (wide_texel n quantize (texel src (src_pitch r) (src_slice_pitch r) (4 * n) z (src_y r + row) (src_x r + col))) d Hx Hd) as Hst.
  revert E3 Hst. rewrite Ed. change (rgb_bpp D3DFMT_A8R8G8B8) with 4. intros -> <-. done.
Qed.

Lemma fetch_ok z row col : box z row col -> is_planar_yuv src_format = false ->
  (src_format =? D3DFMT_A16B16G16R16) = false -> (src_format =? D3DFMT_A32B32G32R32F) = false ->
  exists rgba, fetch_rgba bits src src_format (src_row bits r z row) (src_x r +% col)%u32 = Some rgba
  /\ value z row col = Some (encode_rgb_pixel dst_format rgba).
Proof.
  intros Hx Hpl H16 H32. destruct (src_x_exact z row col Hx) as (-> & ? & Hb & Hp).
  unfold fetch_rgba, converted. rewrite H16, H32, Hpl. unfold src_bpp in Hb, Hp. rewrite H16, H32, Hpl in Hb, Hp.
  destruct (is_packed_yuv src_format) eqn:Hpk.
  - destruct Hf as [_ _ _ _ _ Hm _]. specialize (Hm Hpk).
    set (x := src_x r + col) in *.
    destruct (src_place z row col 4 (x / 2)) as (E1 & E2 & _); [done|Z.to_euclidean_division_equations; lia|lia|
    Z.to_euclidean_division_equations; lia|].
    assert (Ex : Z.ldiff x 1 * 2 = x / 2 * 4 /\ Z.land x 1 = x mod 2).
    { pose proof (Z.ldiff_ones_r x 1 ltac:(lia)) as L. pose proof (Z.land_ones x 1 ltac:(lia)) as A. change (Z.ones 1) with 1 in *.
      rewrite L, A, Z.shiftr_div_pow2, Z.shiftl_mul_pow2 by lia. change (2 ^ 1) with 2. lia. }
    destruct Ex as [-> ->]. rewrite E1, E2. simpl.
    assert (Hdec : forall b0 b1 b2 b3 odd, is_Some (decode_packed_yuv src_format b0 b1 b2 b3 odd)).
    { intros. unfold decode_packed_yuv. unfold is_packed_yuv in Hpk. destruct (src_format =? D3DFMT_YUY2); [by eexists|].
      simpl in Hpk. rewrite Hpk. by eexists. }
    destruct (Hdec (texel src (src_pitch r) (src_slice_pitch r) 4 z (src_y r + row) (x / 2) !!! 0%nat)
    (texel src (src_pitch r) (src_slice_pitch r) 4 z (src_y r + row) (x / 2) !!! 1%nat)
    (texel src (src_pitch r) (src_slice_pitch r) 4 z (src_y r + row) (x / 2) !!! 2%nat)
    (texel src (src_pitch r) (src_slice_pitch r) 4 z (src_y r + row) (x / 2) !!! 3%nat) (x mod 2 =? 1)) as [[[cr cg] cb] Ed].
    rewrite Ed. by eexists.
  - destruct (src_place z row col (rgb_bpp src_format) (src_x r + col)) as (E1 & E2 & _); [done|lia|lia|lia|].
    rewrite E1, E2. by eexists.
Qed.

Lemma planar_ok z row col : box z row col -> is_planar_yuv src_format = true ->
  (src_format =? D3DFMT_A16B16G16R16) = false -> (src_format =? D3DFMT_A32B32G32R32F) = false ->
  exists cr cg cb, decode_planar_yuv bits src_format src (src_pitch r) (src_slice_pitch r / src_pitch r)
  (src_x r +% col)%u32 (src_y r +% row)%u32 = Some (cr, cg, cb)
  /\ value z row col = Some (encode_rgb_pixel dst_format (cr, cg, cb, 255)).
Proof.
  intros Hx Hpl H16 H32. destruct (src_x_exact z row col Hx) as (-> & ? & _ & Hp).
  destruct Hf as [Hbits _ _ Hs _ _ Hpf]. destruct (Hpf Hpl) as (_ & Hpos & Hm & l & Hl & Hlen).
  assert (Hb1 : src_bpp src_format = 1) by (unfold src_bpp; by rewrite H16, H32, Hpl). rewrite Hb1 in *.
  pose proof (place_bounds _ _ _ _ _ _ _ _ _ Hs _ _ _ Hx) as (? & _ & Hy & _).
  destruct Hs as [_ _ [? [? Huy]] _ _ _ _], Hx as (? & ? & ?).
  rewrite (u32_coordinate (src_y r) row (height r)) by lia.
  assert (Hyr : 0 <= src_y r + row < src_slice_pitch r / src_pitch r).
  { split; [lia|]. apply Z.div_exact in Hm; [|lia]. nia. }
  destruct (decode_planar_there bits src_format src (src_pitch r) (src_slice_pitch r / src_pitch r) l (src_x r + col) (src_y r + row))
  as ([[cr cg] cb] & E); [done..|lia|done|].
  exists cr, cg, cb. split; [done|]. unfold converted. rewrite H16, H32, Hpl, E. done.
Qed.

(** The destination after the call: every texel of the region holds its value,
every other byte is what it was. *)
Record region_written (d : list Z) : Prop := {
  rw_length : length d = length dst;
  rw_texel : forall z row col, box z row col -> exists v, value z row col = Some v /\ Z.of_nat (length v) = rgb_bpp dst_format
  /\ forall k, 0 <= k < rgb_bpp dst_format -> get d (place z row col + k) = v !! Z.to_nat k;
  rw_rest : forall b, 0 <= b ->
  (forall z row col, box z row col -> ~ (place z row col <= b < place z row col + rgb_bpp dst_format)) -> get d b = get dst b;
}.

Lemma body_writes body : body_ok body ->
  exists d, for_texels (depth r) (height r) (width r) body dst = (true, d) /\ region_written d.
Proof.
  intros Hbody. destruct Hf as [_ _ _ _ Hd _ _]. pose proof Hd as [Hb [_ [Hw _]] [_ [Hh _]] Hdep _ _ _].
  destruct (for_texels_writes (depth r) (height r) (width r) (rgb_bpp dst_format) (fun z row col => place z row col)
  (fun z row col => default [] (value z row col)) dst) with (body := body) as (d & E & [L I O]); [done..| | |].
  - split; [done|..].
    + intros z row col Hx. destruct (Hbody z row col dst Hx eq_refl) as (v & -> & Hl & _). done.
    + intros z row col Hx. by destruct (dst_place z row col Hx) as (_ & ? & ? & _).
    + intros z row col z' row' col'. by apply (place_order (Z.of_nat (length dst)) _ _ _ _ _ (width r) (height r) (depth r)).
  - intros z row col d Hx Hl. destruct (Hbody z row col d Hx Hl) as (v & -> & _ & E). done.
  - exists d. split; [done|]. split; [done| |].
    + intros z row col Hx. destruct (Hbody z row col dst Hx eq_refl) as (v & Ev & Hl & _). exists v. split; [done|]. split; [done|].
      intros k Hk. rewrite I; [by rewrite Ev|done| |done]. destruct Hx as (? & ? & ?). unfold before. lia.
    + intros b Hb0 Hno. apply O; [done|]. intros z row col Hx _. by apply Hno.
Qed.

Lemma narrow_region_written : is_planar_yuv src_format = false ->
  (src_format =? D3DFMT_A16B16G16R16) = false -> (src_format =? D3DFMT_A32B32G32R32F) = false ->
  exists d, convert_region bits dst dst_format src src_format r = (true, d) /\ region_written d.
Proof.
  intros Hpl H16 H32. unfold convert_region. rewrite Hc, H16, H32, Hpl. simpl. apply body_writes.
  intros z row col d Hx Hl. destruct (fetch_ok z row col Hx Hpl H16 H32) as (rgba & -> & Ev).
  exists (encode_rgb_pixel dst_format rgba). split; [done|]. split; [apply encoded_length|].
  destruct (dst_place z row col Hx) as (-> & _). by apply store_there.
Qed.

Lemma planar_region_written : is_planar_yuv src_format = true ->
  (src_format =? D3DFMT_A16B16G16R16) = false -> (src_format =? D3DFMT_A32B32G32R32F) = false ->
  exists d, convert_region bits dst dst_format src src_format r = (true, d) /\ region_written d.
Proof.
  intros Hpl H16 H32. unfold convert_region. rewrite Hc, H16, H32, Hpl. simpl. unfold convert_planar_region.
  pose proof Hf as [_ _ _ _ _ _ Hpf]. destruct (Hpf Hpl) as (Ed & Hp & Hm & _).
  rewrite Ed, Hm, (proj2 (Z.eqb_neq (src_pitch r) 0)) by lia. simpl. replace (for_texels 1) with (for_texels (depth r)) by (by rewrite Ed). apply body_writes.
  intros z row col d Hx Hl. destruct (planar_ok z row col Hx Hpl H16 H32) as (cr & cg & cb & -> & Ev).
  exists (encode_rgb_pixel dst_format (cr, cg, cb, 255)). split; [done|]. split; [apply encoded_length|].
  destruct (dst_place z row col Hx) as (E & _). rewrite <- (store_there z row col _ d Hx Hl). f_equal. rewrite <- E. unfold dst_row.
  assert (z = 0) as -> by (destruct Hx; lia). unfold wrap_usize. rewrite Z.mul_0_l, Zmod_0_l, Z.add_0_l, Zmod_mod. done.
Qed.

Lemma wide_region_written :
  (src_format =? D3DFMT_A16B16G16R16) = true \/ (src_format =? D3DFMT_A32B32G32R32F) = true ->
  exists d, convert_region bits dst dst_format src src_format r = (true, d) /\ region_written d.
Proof.
  intros Hw. assert (Ed : dst_format = D3DFMT_A8R8G8B8).
  { clear Hf. unfold can_convert, can_convert_update in Hc.
    destruct Hw as [Hw|Hw]; apply Z.eqb_eq in Hw; subst; simpl in Hc; rewrite ?orb_false_r in Hc; apply andb_prop in Hc as [H _]; by apply Z.eqb_eq in H. }
  unfold convert_region. rewrite Hc. simpl. destruct (src_format =? D3DFMT_A16B16G16R16) eqn:H16.
  - apply body_writes, (wide_body 2 quantize_u16); [lia| |done|]; intros; unfold src_bpp, converted; by rewrite H16.
  - destruct Hw as [?|H32]; [done|]. rewrite H32. apply body_writes, (wide_body 4 quantize_f32); [lia| |done|]; intros; unfold src_bpp, converted; by rewrite H16, H32.
Qed.
End region.

(** C32: Converting a region writes exactly the region.  For every pair of formats
    the converter accepts and every region inside both levels, the call succeeds
    without a wrapped offset, each texel of the destination rectangle holds the
    re-encoded source texel, and no other byte of the destination changes. *)
Theorem convert_region_exact bits src_format dst_format src dst r :
  can_convert src_format dst_format = true -> region_fits bits src_format dst_format src dst r ->
  exists d, convert_region bits dst dst_format src src_format r = (true, d)
    /\ region_written bits src_format dst_format src dst r d.
Proof.
  intros Hc Hf. destruct (src_format =? D3DFMT_A16B16G16R16) eqn:H16; [apply wide_region_written; auto|].
  destruct (src_format =? D3DFMT_A32B32G32R32F) eqn:H32; [apply wide_region_written; auto|].
  destruct (is_planar_yuv src_format) eqn:Hpl; [by apply planar_region_written|by apply narrow_region_written].
Qed.

Lemma convert_region_exact_witness :
  let src := [0; 0; 31; 0] in let dst := replicate 12 7 in
  let r := mk 1 0 2 0 1 1 4 12 4 12 1 in
  exists d, convert_region 32 dst D3DFMT_A8R8G8B8 src D3DFMT_R5G6B5 r = (true, d)
    /\ region_written 32 D3DFMT_R5G6B5 D3DFMT_A8R8G8B8 src dst r d.
Proof.
  apply (convert_region_exact 32 D3DFMT_R5G6B5 D3DFMT_A8R8G8B8 [0; 0; 31; 0] (replicate 12 7) (mk 1 0 2 0 1 1 4 12 4 12 1)); [reflexivity|].
  split.
  - lia.
  - reflexivity.
  - reflexivity.
  - split; vm_compute; repeat split; discriminate.
  - split; vm_compute; repeat split; discriminate.
  - intros H. discriminate H.
  - intros H. discriminate H.
Defined.

(** ** Texels round trip *)

(** The bits a format leaves undefined, set. *)
Definition canonical (fmt : Z) (px : list Z) : list Z :=
  if (fmt =? D3DFMT_X8R8G8B8) || (fmt =? D3DFMT_X8B8G8R8) then take 3 px ++ [255]
  else if fmt =? D3DFMT_X1R5G5B5 then [px !!! 0%nat; Z.lor (px !!! 1%nat) 128]
  else px.

Lemma lor_shift x n y : 0 <= n -> 0 <= y < 2 ^ n -> Z.lor (Z.shiftl x n) y = x * 2 ^ n + y.
Proof.
  intros Hn Hy. assert (D : Z.land (Z.shiftl x n) y = 0).
  { apply Z.bits_inj'. intros i Hi. rewrite Z.land_spec, Z.bits_0. destruct (Z.lt_ge_cases i n).
    - by rewrite Z.shiftl_spec_low by done.
    - destruct (Z.eq_dec y 0) as [->|]; [by rewrite Z.bits_0, andb_false_r|].
      rewrite (Z.bits_above_log2 y i); [apply andb_false_r|lia|]. apply Z.log2_lt_pow2; [lia|].
      pose proof (Z.pow_le_mono_r 2 n i ltac:(lia) ltac:(lia)). lia. }
  pose proof (Z.add_lor_land (Z.shiftl x n) y). rewrite D, Z.shiftl_mul_pow2 in * by done. lia.
Qed.

Lemma field v a n : 0 <= a -> 0 <= n -> Z.land (Z.shiftr v a) (2 ^ n - 1) = v / 2 ^ a mod 2 ^ n.
Proof. intros. rewrite Z.shiftr_div_pow2 by done. replace (2 ^ n - 1) with (Z.ones n) by (rewrite Z.ones_equiv; lia). by apply Z.land_ones. Qed.

(** A check of the values below [n], one by one. *)
Lemma below (P : Z -> bool) n : forallb P (seqZ 0 n) = true -> forall v, 0 <= v < n -> P v = true.
Proof. intros H v Hv. rewrite forallb_forall in H. apply H, list_elem_of_In, elem_of_seqZ. lia. Qed.

Lemma expand5_top v : 0 <= v < 32 -> 0 <= expand5 v <= 255 /\ Z.shiftr (expand5 v) 3 = v.
Proof.
  intros Hv. pose proof (below (fun v => (0 <=? expand5 v) && (expand5 v <=? 255) && (Z.shiftr (expand5 v) 3 =? v)) 32 eq_refl v Hv) as H.
  simpl in H. reflect_cmp. lia.
Qed.

Lemma expand6_top v : 0 <= v < 64 -> 0 <= expand6 v <= 255 /\ Z.shiftr (expand6 v) 2 = v.
Proof.
  intros Hv. pose proof (below (fun v => (0 <=? expand6 v) && (expand6 v <=? 255) && (Z.shiftr (expand6 v) 2 =? v)) 64 eq_refl v Hv) as H.
  simpl in H. reflect_cmp. lia.
Qed.

Lemma expand4_top v : 0 <= v < 16 -> 0 <= expand4 v <= 255 /\ Z.shiftr (expand4 v) 4 = v.
Proof.
  intros Hv. pose proof (below (fun v => (0 <=? expand4 v) && (expand4 v <=? 255) && (Z.shiftr (expand4 v) 4 =? v)) 16 eq_refl v Hv) as H.
  simpl in H. reflect_cmp. lia.
Qed.

(** The luma of a grey is the grey. *)
Lemma luminance_grey l : 0 <= l <= 255 -> luminance l l l = l.
Proof.
  intros Hl. unfold luminance, LUMA_ROUNDING_HALF, LUMA_WEIGHT_TOTAL. change (10000 / 2) with 5000.
  exact32.
  replace (2125 * l + 7154 * l + 721 * l + 5000) with (5000 + l * 10000) by lia.
  rewrite Z.div_add by lia. change 0xff with (Z.ones 8). rewrite Z.land_ones by lia. apply Z.mod_small. simpl. lia.
Qed.

Definition is_byte (b : Z) : Prop := 0 <= b <= 255.

Lemma fields2 v a b c : 0 <= v < a * b * c -> 0 < a -> 0 < b -> 0 < c -> v = (v / (a * b) mod c * b + v / a mod b) * a + v mod a.
Proof.
  intros Hv Ha Hb Hc. assert (0 < a * b) by (by apply Z.mul_pos_pos).
  rewrite (Z.mod_small (v / (a * b)) c) by (split; [apply Z.div_pos; lia|apply Z.div_lt_upper_bound; lia]).
  rewrite <- Z.div_div by lia. pose proof (Z.div_mod v a ltac:(lia)). pose proof (Z.div_mod (v / a) b ltac:(lia)) as E.
  replace (v / a / b * b + (v / a) mod b) with (v / a) by lia. lia.
Qed.

Lemma u16_halves p0 p1 : is_byte p0 -> is_byte p1 -> u16_to_le (u16_from_le p0 p1) = [p0; p1].
Proof. unfold is_byte, u16_to_le, u16_from_le. intros. f_equal; [|f_equal]; Z.to_euclidean_division_equations; lia. Qed.

Lemma r5g6b5_roundtrip p0 p1 : is_byte p0 -> is_byte p1 ->
  encode_rgb_pixel D3DFMT_R5G6B5 (decode_rgb_pixel D3DFMT_R5G6B5 [p0; p1]) = [p0; p1].
Proof.
  intros H0 H1. set (v := u16_from_le p0 p1). assert (Hv : 0 <= v < 65536) by (unfold v, u16_from_le, is_byte in *; lia).
  change (decode_rgb_pixel D3DFMT_R5G6B5 [p0; p1]) with
    (expand5 (Z.land (Z.shiftr v 11) (2 ^ 5 - 1)), expand6 (Z.land (Z.shiftr v 5) (2 ^ 6 - 1)), expand5 (Z.land (Z.shiftr v 0) (2 ^ 5 - 1)), 0xff).
  rewrite !field by lia. change (2 ^ 5) with 32. change (2 ^ 6) with 64. change (2 ^ 11) with 2048. change (2 ^ 0) with 1. rewrite Z.div_1_r.
  set (r := v / 2048 mod 32). set (g := v / 32 mod 64). set (b := v mod 32).
  assert (Hr : 0 <= r < 32 /\ 0 <= g < 64 /\ 0 <= b < 32) by (split_and!; apply Z.mod_pos_bound; lia). destruct Hr as (Hr & Hg & Hb).
  unfold encode_rgb_pixel. cbn [Z.eqb Pos.eqb D3DFMT_R5G6B5].
  rewrite (proj2 (expand5_top r Hr)), (proj2 (expand6_top g Hg)), (proj2 (expand5_top b Hb)).
  rewrite <- Z.lor_assoc, lor_shift; [|lia|].
  2: { rewrite lor_shift by (change (2 ^ 5) with 32; lia). change (2 ^ 5) with 32. change (2 ^ 11) with 2048. lia. }
  rewrite lor_shift by (change (2 ^ 5) with 32; lia). change (2 ^ 5) with 32. change (2 ^ 11) with 2048.
  replace (r * 2048 + (g * 32 + b)) with v; [by apply u16_halves|].
  rewrite (fields2 v 32 64 32) at 1 by lia. fold r. change (32 * 64) with 2048. fold r g b. lia.
Qed.

Lemma flag_pow2 v n : 0 <= n -> flag v (2 ^ n) = (v / 2 ^ n mod 2 =? 1).
Proof.
  intros Hn. rewrite <- (Z.bit0_eqb (v / 2 ^ n)), <- Z.shiftr_div_pow2, Z.shiftr_spec, Z.add_0_l by lia.
  assert (E : Z.land v (2 ^ n) = if Z.testbit v n then 2 ^ n else 0).
  { apply Z.bits_inj'. intros i Hi. rewrite Z.land_spec, Z.pow2_bits_eqb by done.
    destruct (Z.eqb_spec n i) as [->|Hne]; [|rewrite andb_false_r; destruct (Z.testbit v n); [|by rewrite Z.bits_0]].
    - rewrite andb_true_r. destruct (Z.testbit v i); [by rewrite Z.pow2_bits_true|by rewrite Z.bits_0].
    - symmetry. by apply Z.pow2_bits_false. }
  unfold flag. rewrite E. pose proof (Z.pow_pos_nonneg 2 n ltac:(lia) Hn).
  destruct (Z.testbit v n); [|done]. apply negb_true_iff, Z.eqb_neq. lia.
Qed.

(** The packing of a 1-5-5-5 texel. *)
Lemma pack1555 a r g b : 0 <= a < 2 -> 0 <= r < 32 -> 0 <= g < 32 -> 0 <= b < 32 ->
  Z.lor (Z.lor (Z.lor (Z.shiftl a 15) (Z.shiftl r 10)) (Z.shiftl g 5)) b = ((a * 32 + r) * 32 + g) * 32 + b.
Proof.
  intros. assert (Eg : Z.lor (Z.shiftl g 5) b = g * 32 + b) by (apply lor_shift; simpl; lia).
  assert (Er : Z.lor (Z.shiftl r 10) (g * 32 + b) = r * 1024 + (g * 32 + b)) by (apply lor_shift; simpl; lia).
  assert (Ea : Z.lor (Z.shiftl a 15) (r * 1024 + (g * 32 + b)) = a * 32768 + (r * 1024 + (g * 32 + b))) by (apply lor_shift; simpl; lia).
  rewrite <- !Z.lor_assoc, Eg, Er, Ea. lia.
Qed.

Lemma pack4444 a r g b : 0 <= a < 16 -> 0 <= r < 16 -> 0 <= g < 16 -> 0 <= b < 16 ->
  Z.lor (Z.lor (Z.lor (Z.shiftl a 12) (Z.shiftl r 8)) (Z.shiftl g 4)) b = ((a * 16 + r) * 16 + g) * 16 + b.
Proof.
  intros. assert (Eg : Z.lor (Z.shiftl g 4) b = g * 16 + b) by (apply lor_shift; simpl; lia).
  assert (Er : Z.lor (Z.shiftl r 8) (g * 16 + b) = r * 256 + (g * 16 + b)) by (apply lor_shift; simpl; lia).
  assert (Ea : Z.lor (Z.shiftl a 12) (r * 256 + (g * 16 + b)) = a * 4096 + (r * 256 + (g * 16 + b))) by (apply lor_shift; simpl; lia).
  rewrite <- !Z.lor_assoc, Eg, Er, Ea. lia.
Qed.

(** The fields of a 16-bit texel. *)
Lemma fields1555 v : 0 <= v < 65536 ->
  let '(a, r, g, b) := (v / 32768, v / 1024 mod 32, v / 32 mod 32, v mod 32) in
  v = ((a * 32 + r) * 32 + g) * 32 + b /\ 0 <= a < 2 /\ 0 <= r < 32 /\ 0 <= g < 32 /\ 0 <= b < 32.
Proof.
  intros. change 32768 with (32 * 32 * 32). change 1024 with (32 * 32). rewrite <- !Z.div_div by lia.
  Z.to_euclidean_division_equations. lia.
Qed.

Lemma fields4444 v : 0 <= v < 65536 ->
  let '(a, r, g, b) := (v / 4096 mod 16, v / 256 mod 16, v / 16 mod 16, v mod 16) in
  v = ((a * 16 + r) * 16 + g) * 16 + b /\ 0 <= a < 16 /\ 0 <= r < 16 /\ 0 <= g < 16 /\ 0 <= b < 16.
Proof.
  intros. change 4096 with (16 * 16 * 16). change 256 with (16 * 16). rewrite <- !Z.div_div by lia.
  Z.to_euclidean_division_equations. lia.
Qed.

Lemma decode1555 fmt p0 p1 : is_byte p0 -> is_byte p1 -> fmt = D3DFMT_A1R5G5B5 \/ fmt = D3DFMT_X1R5G5B5 ->
  let v := u16_from_le p0 p1 in
  decode_rgb_pixel fmt [p0; p1] = (expand5 (v / 1024 mod 32), expand5 (v / 32 mod 32), expand5 (v mod 32),
    if (fmt =? D3DFMT_X1R5G5B5) || (v / 32768 =? 1) then 0xff else 0).
Proof.
  intros H0 H1 Hf v. assert (Hv : 0 <= v < 65536) by (unfold v, u16_from_le, is_byte in *; lia).
  assert (E : decode_rgb_pixel fmt [p0; p1] =
    (expand5 (Z.land (Z.shiftr v 10) (2 ^ 5 - 1)), expand5 (Z.land (Z.shiftr v 5) (2 ^ 5 - 1)), expand5 (Z.land (Z.shiftr v 0) (2 ^ 5 - 1)),
     if (fmt =? D3DFMT_X1R5G5B5) || flag v (2 ^ 15) then 0xff else 0)) by (destruct Hf; by subst fmt).
  rewrite E, !field, flag_pow2 by lia. change (2 ^ 5) with 32. change (2 ^ 10) with 1024. change (2 ^ 15) with 32768. change (2 ^ 0) with 1.
  rewrite Z.div_1_r, (Z.mod_small (v / 32768) 2) by (Z.to_euclidean_division_equations; lia). done.
Qed.

Lemma a1r5g5b5_roundtrip fmt p0 p1 : is_byte p0 -> is_byte p1 -> fmt = D3DFMT_A1R5G5B5 \/ fmt = D3DFMT_X1R5G5B5 ->
  let hi := if fmt =? D3DFMT_X1R5G5B5 then Z.lor p1 128 else p1 in
  encode_rgb_pixel fmt (decode_rgb_pixel fmt [p0; p1]) = [p0; hi] /\ decode_rgb_pixel fmt [p0; hi] = decode_rgb_pixel fmt [p0; p1].
Proof.
  intros H0 H1 Hf hi.
  assert (Hhi : is_byte hi /\ (fmt = D3DFMT_X1R5G5B5 -> hi = if p1 <? 128 then p1 + 128 else p1)).
  { unfold hi, is_byte in *. destruct (fmt =? D3DFMT_X1R5G5B5) eqn:E; reflect_cmp; [|split; [lia|done]].
    pose proof (below (fun p => Z.lor p 128 =? (if p <? 128 then p + 128 else p)) 256 eq_refl p1 ltac:(lia)) as L.
    simpl in L. apply Z.eqb_eq in L. rewrite L. split; [destruct (Z.ltb_spec p1 128); lia|done]. }
  destruct Hhi as [Hhi Ehi]. rewrite !decode1555 by done.
  assert (Hv : 0 <= u16_from_le p0 p1 < 65536) by (unfold u16_from_le, is_byte in *; lia).
  pose proof (fields1555 _ Hv) as (Ev & Ha & Hr & Hg & Hb). simpl in Ev, Ha, Hr, Hg, Hb.
  set (v := u16_from_le p0 p1) in *. set (a := v / 32768) in *.
  set (r := v / 1024 mod 32) in *. set (g := v / 32 mod 32) in *. set (b := v mod 32) in *.
  assert (E : encode_rgb_pixel fmt (expand5 r, expand5 g, expand5 b, if (fmt =? D3DFMT_X1R5G5B5) || (a =? 1) then 0xff else 0) =
    u16_to_le (Z.lor (Z.lor (Z.lor (Z.shiftl (if (fmt =? D3DFMT_X1R5G5B5) || (a =? 1) then 1 else 0) 15)
      (Z.shiftl (Z.shiftr (expand5 r) 3) 10)) (Z.shiftl (Z.shiftr (expand5 g) 3) 5)) (Z.shiftr (expand5 b) 3))).
  { destruct Hf; subst fmt; simpl; destruct (a =? 1); done. }
  rewrite E, (proj2 (expand5_top r Hr)), (proj2 (expand5_top g Hg)), (proj2 (expand5_top b Hb)), pack1555; [|destruct (_ || _); lia|done..].
  split.
  - rewrite <- (u16_halves p0 hi) by done. f_equal. unfold u16_from_le. unfold v, u16_from_le in Ev.
    destruct Hf as [->| ->].
    + unfold hi. simpl. destruct (a =? 1) eqn:Ea; reflect_cmp; lia.
    + rewrite (Ehi eq_refl). simpl. assert (a = if p1 <? 128 then 0 else 1).
      { unfold a, v, u16_from_le, is_byte in *. destruct (Z.ltb_spec p1 128); Z.to_euclidean_division_equations; lia. }
      destruct (p1 <? 128); lia.
  - destruct Hf as [->| ->]; [done|]. rewrite (Ehi eq_refl). simpl.
    assert (Ex : forall k, 0 <= k < 128 -> let u := p0 + 256 * k in
      (u + 32768) / 1024 mod 32 = u / 1024 mod 32 /\ (u + 32768) / 32 mod 32 = u / 32 mod 32 /\ (u + 32768) mod 32 = u mod 32).
    { intros. cbv zeta. Z.to_euclidean_division_equations. lia. }
    destruct (Z.ltb_spec p1 128); [|done]. destruct (Ex p1) as (X1 & X2 & X3); [unfold is_byte in *; lia|].
    unfold r, g, b, v, u16_from_le. replace (p0 + 256 * (p1 + 128)) with (p0 + 256 * p1 + 32768) by lia. by rewrite X1, X2, X3.
Qed.

Lemma a4r4g4b4_roundtrip p0 p1 : is_byte p0 -> is_byte p1 ->
  encode_rgb_pixel D3DFMT_A4R4G4B4 (decode_rgb_pixel D3DFMT_A4R4G4B4 [p0; p1]) = [p0; p1].
Proof.
  intros H0 H1. set (v := u16_from_le p0 p1). assert (Hv : 0 <= v < 65536) by (unfold v, u16_from_le, is_byte in *; lia).
  change (decode_rgb_pixel D3DFMT_A4R4G4B4 [p0; p1]) with
    (expand4 (Z.land (Z.shiftr v 8) (2 ^ 4 - 1)), expand4 (Z.land (Z.shiftr v 4) (2 ^ 4 - 1)), expand4 (Z.land (Z.shiftr v 0) (2 ^ 4 - 1)),
     expand4 (Z.land (Z.shiftr v 12) (2 ^ 4 - 1))).
  rewrite !field by lia. change (2 ^ 4) with 16. change (2 ^ 8) with 256. change (2 ^ 12) with 4096. change (2 ^ 0) with 1. rewrite Z.div_1_r.
  pose proof (fields4444 v Hv) as (Ev & Ha & Hr & Hg & Hb). cbv beta zeta in Ev, Ha, Hr, Hg, Hb.
  set (a := v / 4096 mod 16) in *. set (r := v / 256 mod 16) in *. set (g := v / 16 mod 16) in *. set (b := v mod 16) in *.
  unfold encode_rgb_pixel. cbn [Z.eqb Pos.eqb D3DFMT_A4R4G4B4 D3DFMT_R5G6B5 D3DFMT_A1R5G5B5 D3DFMT_X1R5G5B5 orb].
  rewrite (proj2 (expand4_top a Ha)), (proj2 (expand4_top r Hr)), (proj2 (expand4_top g Hg)), (proj2 (expand4_top b Hb)), pack4444 by done.
  rewrite <- Ev. by apply u16_halves.
Qed.

Lemma convertible_cases fmt : is_convertible_rgb fmt = true ->
  fmt = D3DFMT_R5G6B5 \/ (fmt = D3DFMT_A1R5G5B5 \/ fmt = D3DFMT_X1R5G5B5) \/ fmt = D3DFMT_A4R4G4B4
  \/ fmt = D3DFMT_A8L8 \/ fmt = D3DFMT_L8 \/ fmt = D3DFMT_A8 \/ fmt = D3DFMT_A8B8G8R8 \/ fmt = D3DFMT_X8B8G8R8
  \/ fmt = D3DFMT_R8G8B8 \/ fmt = D3DFMT_X8R8G8B8 \/ fmt = D3DFMT_A8R8G8B8.
Proof. intros E. apply bool_decide_eq_true in E. rewrite !elem_of_cons, elem_of_nil in E. tauto. Qed.

Lemma byte_list {n} px : length px = n -> Forall is_byte px -> forall i, (i < n)%nat -> is_byte (px !!! i).
Proof. intros <- H i Hi. rewrite Forall_lookup in H. destruct (lookup_lt_is_Some_2 px i Hi) as [b Hb]. rewrite (list_lookup_total_correct _ _ _ Hb). eauto. Qed.

(** Decoding a texel of any of the twelve formats and encoding it again gives
    its bytes back, the padding of an X format set opaque; setting that padding
    changes nothing a reader sees; and a trip through [A8R8G8B8], the form the
    converter and the upload use between formats, loses nothing. *)
Theorem texel_roundtrip fmt px :
  is_convertible_rgb fmt = true -> Z.of_nat (length px) = rgb_bpp fmt -> Forall is_byte px ->
  encode_rgb_pixel fmt (decode_rgb_pixel fmt px) = canonical fmt px
  /\ decode_rgb_pixel fmt (canonical fmt px) = decode_rgb_pixel fmt px
  /\ encode_rgb_pixel fmt (decode_rgb_pixel D3DFMT_A8R8G8B8 (encode_rgb_pixel D3DFMT_A8R8G8B8 (decode_rgb_pixel fmt px))) = canonical fmt px.
Proof.
  intros Hf Hl Hb.
  assert (Ha8 : forall rgba, decode_rgb_pixel D3DFMT_A8R8G8B8 (encode_rgb_pixel D3DFMT_A8R8G8B8 rgba) = rgba) by (by intros [[[? ?] ?] ?]).
  rewrite Ha8. cut (encode_rgb_pixel fmt (decode_rgb_pixel fmt px) = canonical fmt px
    /\ decode_rgb_pixel fmt (canonical fmt px) = decode_rgb_pixel fmt px); [tauto|].
  pose proof (byte_list px eq_refl Hb) as Hbyte.
  destruct (convertible_cases fmt Hf) as [->|[H|[->|[->|[->|[->|[->|[->|[->|[->| ->]]]]]]]]]].
  2: { assert (E : rgb_bpp fmt = 2) by (destruct H; by subst). rewrite E in Hl.
       destruct px as [|p0 [|p1 [|]]]; simpl in Hl; try lia.
       destruct (a1r5g5b5_roundtrip fmt p0 p1) as [E1 E2]; [apply (Hbyte 0%nat); simpl; lia|apply (Hbyte 1%nat); simpl; lia|done|].
       assert (Ec : canonical fmt [p0; p1] = [p0; if fmt =? D3DFMT_X1R5G5B5 then Z.lor p1 128 else p1]) by (destruct H; by subst).
       by rewrite Ec. }
  all: match type of Hl with _ = ?n => let n' := eval vm_compute in n in change n with n' in Hl end.
  all: destruct px as [|p0 [|p1 [|p2 [|p3 [|]]]]]; cbn [length] in Hl; try (exfalso; lia); try (split; reflexivity).
  all: try (assert (H0 : is_byte p0) by (apply (Hbyte 0%nat); simpl; lia)).
  - split; [|done]. change (canonical _ _) with [p0; p1]. apply r5g6b5_roundtrip; [done|apply (Hbyte 1%nat); simpl; lia].
  - split; [|done]. change (canonical _ _) with [p0; p1]. apply a4r4g4b4_roundtrip; [done|apply (Hbyte 1%nat); simpl; lia].
  - split; [|done]. change ([luminance p0 p0 p0; p1] = [p0; p1]). by rewrite luminance_grey.
  - split; [|done]. change ([luminance p0 p0 p0] = [p0]). by rewrite luminance_grey.
Qed.

Lemma texel_roundtrip_witness :
  encode_rgb_pixel D3DFMT_X1R5G5B5 (decode_rgb_pixel D3DFMT_X1R5G5B5 [0x34; 0x12]) = [0x34; 0x92]
  /\ decode_rgb_pixel D3DFMT_X1R5G5B5 [0x34; 0x92] = decode_rgb_pixel D3DFMT_X1R5G5B5 [0x34; 0x12].
Proof.
  destruct (texel_roundtrip D3DFMT_X1R5G5B5 [0x34; 0x12]) as (H1 & H2 & _); [reflexivity|reflexivity| |exact (conj H1 H2)].
  repeat constructor; discriminate.
Defined.
