(* ===== verification/StretchRect.v ===== *)
(** [stretch_rect.rs]: the rectangles, rejections and routes of [StretchRect]. *)

From S2P Require Import Prelude D3DTypes PlanarYuv YuvDecode PixelConvert.

Module StretchRegion.
Record t := mk { x : Z; y : Z; w : Z; h : Z }.
End StretchRegion.
Import StretchRegion.

Inductive RejectReason :=
  | FormatMismatch | Scaling | UnsupportedSource | UnsupportedDestination | PlanarDestination
  | EmptyRect | RectOutsideSurface | DestinationClass | SourceIntoOffscreenPlain | SameSurfaceStretch.

#[global] Instance RejectReason_eq_dec : EqDecision RejectReason.
Proof. solve_decision. Defined.

(** [cast_unsigned] of an [i32]. *)
Definition cast_unsigned (v : Z) : Z := wrap32 v.

Definition parse_rect (extracted : option (Z * Z * Z * Z)) (full_w full_h : Z) : RejectReason + StretchRegion.t :=
  match extracted with
  | None => inr (mk 0 0 full_w full_h)
  | Some (x1, y1, x2, y2) =>
      if (x2 <=? x1) || (y2 <=? y1) then inl EmptyRect
      else if (x1 <? 0) || (y1 <? 0) || (full_w <? cast_unsigned x2) || (full_h <? cast_unsigned y2) then inl RectOutsideSurface
      else inr (mk (cast_unsigned x1) (cast_unsigned y1) (Z.abs (x2 - x1)) (Z.abs (y2 - y1)))
  end.

(** [StretchSurfaceFlags]. *)
Definition IS_RENDER_TARGET : Z := 1.
Definition IS_OFFSCREEN_PLAIN_DEFAULT : Z := 2.

Definition class_reject (src dst : Z) : option RejectReason :=
  if flag dst IS_RENDER_TARGET then None
  else if negb (flag dst IS_OFFSCREEN_PLAIN_DEFAULT) then Some DestinationClass
  else if flag src IS_OFFSCREEN_PLAIN_DEFAULT then None
  else Some SourceIntoOffscreenPlain.

(** A surface is its format, width and height. *)
Definition extended_whole_surface_copy (extended rects_given : bool) (src dst : Z * Z * Z) : bool :=
  extended && negb rects_given && bool_decide (src = dst).

Inductive SameSurfaceRoute := Skip | Direct | Scratch.

Definition regions_overlap (a b : StretchRegion.t) : bool :=
  (x a <? (x b +% w b)%u32) && (x b <? (x a +% w a)%u32) && (y a <? (y b +% h b)%u32) && (y b <? (y a +% h a)%u32).

Definition same_surface_route (src_region dst_region : StretchRegion.t) (src_mip dst_mip src_slice dst_slice : Z) : SameSurfaceRoute :=
  if negb (w src_region =? w dst_region) || negb (h src_region =? h dst_region) then Scratch
  else if negb (src_mip =? dst_mip) || negb (src_slice =? dst_slice) then Direct
  else if (x src_region =? x dst_region) && (y src_region =? y dst_region) then Skip
  else if regions_overlap src_region dst_region then Scratch
  else Direct.

Inductive PlanarStretch := NotPlanar | RenderQuad | CpuConvert | Reject (r : RejectReason).

Definition planar_stretch_route (src_format dst_format : Z) (dst_is_render_target scaling : bool) : PlanarStretch :=
  if is_planar_yuv dst_format then Reject PlanarDestination
  else if negb (is_planar_yuv src_format) then NotPlanar
  else if dst_is_render_target then RenderQuad
  else if scaling then Reject Scaling
  else if can_convert src_format dst_format then CpuConvert
  else Reject FormatMismatch.

Inductive BlitDecode := DecodeNone | Yuy2 | Uyvy | Yv12 | Nv12 | OpaqueAlpha | Luminance.

(** The discriminant, which [uniform] hands the shader as a float. *)
Definition uniform (d : BlitDecode) : Z :=
  match d with DecodeNone => 0 | Yuy2 => 1 | Uyvy => 2 | Yv12 => 3 | Nv12 => 4 | OpaqueAlpha => 5 | Luminance => 6 end.

Definition blit_decode (fmt : Z) : BlitDecode :=
  if fmt =? D3DFMT_YUY2 then Yuy2
  else if fmt =? D3DFMT_UYVY then Uyvy
  else if fmt =? D3DFMT_YV12 then Yv12
  else if fmt =? D3DFMT_NV12 then Nv12
  else if fmt =? D3DFMT_L8 then Luminance
  else if (fmt =? D3DFMT_X8R8G8B8) || (fmt =? D3DFMT_X8B8G8R8) || (fmt =? D3DFMT_X1R5G5B5) then OpaqueAlpha
  else DecodeNone.

Definition quad_covers_destination (rect : StretchRegion.t) (size : Z * Z) : bool :=
  (x rect =? 0) && (y rect =? 0) && (w rect =? fst size) && (h rect =? snd size).

Definition reinterprets_packed_yuv (src_format dst_format : Z) : bool :=
  negb (src_format =? dst_format) && (is_packed_yuv src_format || is_packed_yuv dst_format).

Example overlap_by_one : same_surface_route (mk 0 0 4 4) (mk 3 3 4 4) 0 0 0 0 = Scratch
  /\ same_surface_route (mk 0 0 4 4) (mk 4 3 4 4) 0 0 0 0 = Direct.
Proof. done. Qed.

(** ** Rectangles *)

Definition is_i32 (v : Z) : Prop := -2147483648 <= v <= 2147483647.

(** A rectangle is accepted exactly when it is non-empty and inside the
    surface, and it is handed on unchanged; an empty or inverted one and one that
    leaves the surface are told apart, and nothing is clamped.  A surface may be
    larger than an [i32] can say. *)
Theorem parse_rect_exact x1 y1 x2 y2 full_w full_h :
  is_i32 x1 -> is_i32 y1 -> is_i32 x2 -> is_i32 y2 -> is_u32 full_w -> is_u32 full_h ->
  let inside := 0 <= x1 < x2 /\ 0 <= y1 < y2 /\ x2 <= full_w /\ y2 <= full_h in
  (forall r, parse_rect (Some (x1, y1, x2, y2)) full_w full_h = inr r <-> inside /\ r = mk x1 y1 (x2 - x1) (y2 - y1))
  /\ (parse_rect (Some (x1, y1, x2, y2)) full_w full_h = inl EmptyRect <-> x2 <= x1 \/ y2 <= y1)
  /\ (parse_rect (Some (x1, y1, x2, y2)) full_w full_h = inl RectOutsideSurface <-> x1 < x2 /\ y1 < y2 /\ ~ inside).
Proof.
  intros Hx1 Hy1 Hx2 Hy2 Hw Hh. unfold is_i32, is_u32, u32_max in *. cbv zeta. unfold parse_rect, cast_unsigned.
  assert (E : forall v, 0 <= v <= 2147483647 -> wrap32 v = v) by (intros; apply wrap32_small; unfold is_u32, u32_max; lia).
  destruct ((x2 <=? x1) || (y2 <=? y1)) eqn:Ee; [apply orb_true_iff in Ee; rewrite !Z.leb_le in Ee|].
  { split_and!; [intros r; split|split|split]; intros; destruct_and?; simplify_eq; try done; lia. }
  apply orb_false_iff in Ee. rewrite !Z.leb_gt in Ee.
  destruct ((x1 <? 0) || (y1 <? 0)) eqn:En; [apply orb_true_iff in En; rewrite !Z.ltb_lt in En; simpl|].
  { split_and!; [intros r; split|split|split]; intros; destruct_and?; simplify_eq; try done; lia. }
  apply orb_false_iff in En. rewrite !Z.ltb_ge in En. rewrite !E by lia. simpl.
  destruct ((full_w <? x2) || (full_h <? y2)) eqn:Eo; [apply orb_true_iff in Eo; rewrite !Z.ltb_lt in Eo|].
  { split_and!; [intros r; split|split|split]; intros; destruct_and?; simplify_eq; try done; lia. }
  apply orb_false_iff in Eo. rewrite !Z.ltb_ge in Eo. rewrite !Z.abs_eq by lia.
  split_and!; [intros r; split|split|split]; intros; destruct_and?; simplify_eq; try done; lia.
Qed.

Lemma parse_rect_exact_witness :
  parse_rect (Some (2, 1, 5, 4)) 5 4 = inr (mk 2 1 3 3) /\ parse_rect (Some (2, -1, 5, 4)) 5 4 = inl RectOutsideSurface.
Proof.
  assert (H : forall v, -9 <= v <= 9 -> is_i32 v) by (unfold is_i32; lia). assert (U : is_u32 5 /\ is_u32 4) by (unfold is_u32, u32_max; lia).
  split.
  - destruct (parse_rect_exact 2 1 5 4 5 4 (H 2 ltac:(lia)) (H 1 ltac:(lia)) (H 5 ltac:(lia)) (H 4 ltac:(lia)) (proj1 U) (proj2 U)) as [H1 _].
    apply H1. split; [lia|reflexivity].
  - destruct (parse_rect_exact 2 (-1) 5 4 5 4 (H 2 ltac:(lia)) (H (-1) ltac:(lia)) (H 5 ltac:(lia)) (H 4 ltac:(lia)) (proj1 U) (proj2 U)) as (_ & _ & H1).
    apply H1. lia.
Defined.

(** ** Copies inside one texture

    A texture is its texels: mip level, slice, column, row.  [moved] is the copy
    D3D9 asks for, every destination texel taking what its source texel held
    before the call.  [blit] is a copy in place, texel after texel in the order
    of [l], each read from what the texels before it left. *)

Definition Texture := Z -> Z -> Z -> Z -> Z.

Section same_texture.
Context (src dst : StretchRegion.t) (sm dm ss ds : Z).

Definition in_region (r : StretchRegion.t) (px py : Z) : Prop := x r <= px < x r + w r /\ y r <= py < y r + h r.

#[global] Instance in_region_dec r px py : Decision (in_region r px py).
Proof. unfold in_region. apply _. Defined.

Definition moved (t : Texture) : Texture := fun m s px py =>
  if decide (m = dm /\ s = ds /\ in_region dst px py) then t sm ss (x src + (px - x dst)) (y src + (py - y dst)) else t m s px py.

Definition blit_texel (t : Texture) (i : Z * Z) : Texture := fun m s px py =>
  if decide (m = dm /\ s = ds /\ px = x dst + fst i /\ py = y dst + snd i) then t sm ss (x src + fst i) (y src + snd i) else t m s px py.

Definition blit (t : Texture) (l : list (Z * Z)) : Texture := foldl blit_texel t l.

Definition region_ok (r : StretchRegion.t) : Prop := 0 <= x r /\ 0 <= y r /\ 0 <= w r /\ 0 <= h r /\ x r + w r <= u32_max /\ y r + h r <= u32_max.

Lemma regions_overlap_iff : region_ok src -> region_ok dst -> w src = w dst -> h src = h dst ->
  regions_overlap src dst = true <-> exists px py, in_region src px py /\ in_region dst px py.
Proof.
  unfold region_ok. intros (? & ? & ? & ? & ? & ?) (? & ? & ? & ? & ? & ?) Ew Eh. unfold regions_overlap. exact32.
  rewrite !andb_true_iff, !Z.ltb_lt. unfold in_region. split.
  - intros (((? & ?) & ?) & ?). exists (Z.max (x src) (x dst)), (Z.max (y src) (y dst)). lia.
  - intros (px & py & ? & ?). lia.
Qed.
End same_texture.

(** ** When the order of an in-place copy matters *)

Section in_place.
Context (src dst : StretchRegion.t) (sm dm ss ds : Z).
Local Notation read t i := (t sm ss (x src + fst i) (y src + snd i)).
Local Notation at_dst t i := (t dm ds (x dst + fst i) (y dst + snd i)).
Local Notation step := (blit_texel src dst sm dm ss ds).
Local Notation copy := (blit src dst sm dm ss ds).

(** The place texel [i] is read from is the one texel [j] is written to. *)
Definition clash (i j : Z * Z) : Prop := sm = dm /\ ss = ds /\ x src + fst i = x dst + fst j /\ y src + snd i = y dst + snd j.

Lemma step_at t i : at_dst (step t i) i = read t i.
Proof. unfold blit_texel. by rewrite decide_True. Qed.

Lemma step_other t j m s px py : ~ (m = dm /\ s = ds /\ px = x dst + fst j /\ py = y dst + snd j) -> step t j m s px py = t m s px py.
Proof. intros. unfold blit_texel. by rewrite decide_False. Qed.

Lemma copy_untouched l : forall t m s px py,
  (forall j, j ∈ l -> ~ (m = dm /\ s = ds /\ px = x dst + fst j /\ py = y dst + snd j)) -> copy t l m s px py = t m s px py.
Proof.
  induction l as [|j l IH]; intros t m s px py H; [done|]. unfold blit in *. cbn [foldl]. rewrite IH.
  - apply step_other, H. by left.
  - intros k Hk. apply H. by right.
Qed.

Lemma copy_at l : (forall i j, i ∈ l -> j ∈ l -> ~ clash i j) -> forall t i, i ∈ l -> at_dst (copy t l) i = read t i.
Proof.
  induction l as [|j l IH]; intros Hc t i Hi; [by apply not_elem_of_nil in Hi|]. unfold blit in *. cbn [foldl].
  assert (Hr : forall k, k ∈ j :: l -> read (step t j) k = read t k).
  { intros k Hk. apply step_other. intros (? & ? & ? & ?). apply (Hc k j Hk); [by left|]. by split_and!. }
  destruct (decide (i ∈ l)) as [Hl|Hl].
  - rewrite IH; [by apply Hr| |done]. intros a b Ha Hb. apply Hc; by right.
  - apply elem_of_cons in Hi as [->|Hi]; [|done]. pose proof (copy_untouched l (step t j) dm ds (x dst + fst j) (y dst + snd j)) as U.
    unfold blit in U. rewrite U; [apply step_at|]. intros k Hk (_ & _ & E1 & E2). apply Hl.
    replace j with k; [done|]. destruct j, k. simpl in *. f_equal; lia.
Qed.

(** [l] names every texel of the region. *)
Definition covers (l : list (Z * Z)) : Prop := forall i, i ∈ l <-> 0 <= fst i < w dst /\ 0 <= snd i < h dst.

Lemma copy_is_moved l t : covers l -> (forall i j, i ∈ l -> j ∈ l -> ~ clash i j) ->
  forall m s px py, copy t l m s px py = moved src dst sm dm ss ds t m s px py.
Proof.
  intros Hl Hc m s px py. unfold moved. destruct (decide _) as [(-> & -> & Hr)|Hn].
  - set (i := (px - x dst, py - y dst)). assert (Hi : i ∈ l) by (apply Hl; unfold in_region, i in *; simpl; lia).
    pose proof (copy_at l Hc t i Hi) as E. unfold i, fst, snd in E. by rewrite !Zplus_minus in E.
  - apply copy_untouched. intros j Hj (? & ? & ? & ?). apply Hl in Hj. apply Hn. unfold in_region. lia.
Qed.

(** Were the texel that is read second written first, the copy would be wrong. *)
Lemma clash_breaks i j : 0 <= fst i < w dst /\ 0 <= snd i < h dst -> 0 <= fst j < w dst /\ 0 <= snd j < h dst ->
  i <> j -> clash i j -> exists l t, covers l /\ at_dst (copy t l) i <> at_dst (moved src dst sm dm ss ds t) i.
Proof.
  intros Hi Hj Hne (Em & Es & Ex & Ey).
  set (all := p ← seqZ 0 (w dst); q ← seqZ 0 (h dst); [(p, q)]).
  assert (Hall : forall k, k ∈ all <-> 0 <= fst k < w dst /\ 0 <= snd k < h dst).
  { intros [p q]. unfold all. rewrite list_elem_of_bind. setoid_rewrite list_elem_of_bind. setoid_rewrite elem_of_seqZ.
    setoid_rewrite list_elem_of_singleton. simpl. split; [intros (? & (? & [= -> ->] & ?) & ?); lia|].
    intros [? ?]. exists p. split; [exists q; split; [done|lia]|lia]. }
  set (rest := filter (fun k => k <> i /\ k <> j) all).
  set (t := fun m s px py => if decide (m = sm /\ s = ss /\ px = x src + fst i /\ py = y src + snd i) then 1 else 0).
  exists (j :: i :: rest), t. split.
  - intros k. rewrite !elem_of_cons. unfold rest. rewrite list_elem_of_filter, Hall.
    destruct (decide (k = i)) as [->|]; [tauto|]. destruct (decide (k = j)) as [->|]; tauto.
  - assert (Hread : t sm ss (x src + fst i) (y src + snd i) = 1) by (unfold t; by rewrite decide_True).
    assert (Hj0 : t sm ss (x src + fst j) (y src + snd j) = 0).
    { unfold t. rewrite decide_False; [done|]. intros (_ & _ & E1 & E2). apply Hne. destruct i, j. simpl in *. f_equal; lia. }
    unfold moved. rewrite decide_True by (split_and!; [done..|unfold in_region; lia]). rewrite !Z.add_simpl_l, Hread.
    unfold blit. cbn [foldl]. pose proof (copy_untouched rest (step (step t j) i) dm ds (x dst + fst i) (y dst + snd i)) as U.
    unfold blit in U. rewrite U.
    2: { intros k Hk (_ & _ & E1 & E2). unfold rest in Hk. apply list_elem_of_filter in Hk as [[? _] _].
 match goal with H : k <> i |- _ => apply H end. destruct i, k. simpl in *. f_equal; lia. }
    rewrite step_at, Ex, Ey. unfold blit_texel. by rewrite decide_True, Hj0 by done.
Qed.
End in_place.

(** The route of a copy inside one texture is right, and scratch is used only
    where it must be.  [Skip]: the copy changes nothing.  [Direct]: copying in
    place in any order of the texels gives what D3D9 asks for.  [Scratch]: the
    sizes differ, or some order of an in-place copy would give a wrong texel. *)
Theorem same_surface_route_correct src dst sm dm ss ds :
  region_ok src -> region_ok dst ->
  match same_surface_route src dst sm dm ss ds with
  | Skip => w src = w dst /\ h src = h dst /\ forall t m s px py, moved src dst sm dm ss ds t m s px py = t m s px py
  | Direct => w src = w dst /\ h src = h dst /\ forall l t, covers dst l ->
      forall m s px py, blit src dst sm dm ss ds t l m s px py = moved src dst sm dm ss ds t m s px py
  | Scratch => w src <> w dst \/ h src <> h dst \/ exists l t i, covers dst l /\
      blit src dst sm dm ss ds t l dm ds (x dst + fst i) (y dst + snd i) <> moved src dst sm dm ss ds t dm ds (x dst + fst i) (y dst + snd i)
  end.
Proof.
  intros Hs Hd. unfold same_surface_route. destruct (_ || _) eqn:Esz; [apply orb_true_iff in Esz as [H|H]; apply negb_true_iff, Z.eqb_neq in H; auto|].
  apply orb_false_iff in Esz as [Ew Eh]. apply negb_false_iff, Z.eqb_eq in Ew, Eh.
  destruct (negb _ || _) eqn:Ems.
  { split; [done|]. split; [done|]. intros l t Hl. apply copy_is_moved; [done|]. intros i j _ _ (-> & -> & _).
    by rewrite !Z.eqb_refl in Ems. }
  apply orb_false_iff in Ems as [Em Es]. apply negb_false_iff, Z.eqb_eq in Em, Es. subst.
  destruct (_ && _) eqn:Exy.
  { apply andb_true_iff in Exy as [Ex Ey]. apply Z.eqb_eq in Ex, Ey. split; [done|]. split; [done|]. intros t m s px py.
    unfold moved. destruct (decide _) as [(-> & -> & _)|]; [|done]. by rewrite Ex, Ey, !Zplus_minus. }
  pose proof (regions_overlap_iff src dst Hs Hd Ew Eh) as Hov. destruct (regions_overlap src dst).
  - right. right. destruct (proj1 Hov eq_refl) as (px & py & [? ?] & [? ?]).
    set (i := (px - x src, py - y src)). set (j := (px - x dst, py - y dst)).
    assert (Hne : i <> j).
    { intros E. injection E as E1 E2. apply andb_false_iff in Exy. rewrite !Z.eqb_neq in Exy. lia. }
    destruct (clash_breaks src dst dm dm ds ds i j) as (l & t & Hl & Ht); [unfold i; simpl; lia|unfold j; simpl; lia|done|
      unfold clash, i, j; simpl; split_and!; lia|]. by exists l, t, i.
  - split; [done|]. split; [done|]. intros l t Hl. apply copy_is_moved; [done|]. intros i j Hi Hj (_ & _ & E1 & E2).
    apply Hl in Hi, Hj. discriminate (proj2 Hov). exists (x src + fst i), (y src + snd i). unfold in_region. lia.
Qed.

Lemma same_surface_route_correct_witness :
  (forall l t, covers (mk 4 0 4 4) l -> forall m s px py,
     blit (mk 0 0 4 4) (mk 4 0 4 4) 0 0 0 0 t l m s px py = moved (mk 0 0 4 4) (mk 4 0 4 4) 0 0 0 0 t m s px py)
  /\ exists l t i, covers (mk 1 0 4 4) l /\ blit (mk 0 0 4 4) (mk 1 0 4 4) 0 0 0 0 t l 0 0 (1 + fst i) (0 + snd i)
       <> moved (mk 0 0 4 4) (mk 1 0 4 4) 0 0 0 0 t 0 0 (1 + fst i) (0 + snd i).
Proof.
  assert (H : forall v, 0 <= v <= 4 -> region_ok (mk v 0 4 4)) by (intros; unfold region_ok, u32_max; simpl; lia).
  split.
  - pose proof (same_surface_route_correct (mk 0 0 4 4) (mk 4 0 4 4) 0 0 0 0 (H 0 ltac:(lia)) (H 4 ltac:(lia))) as (_ & _ & R). exact R.
  - destruct (same_surface_route_correct (mk 0 0 4 4) (mk 1 0 4 4) 0 0 0 0 (H 0 ltac:(lia)) (H 1 ltac:(lia))) as [R|[R|R]];
      [exfalso; apply R; reflexivity|exfalso; apply R; reflexivity|exact R].
Defined.
