(* ===== verification/UploadPass.v ===== *)
(** [upload_pass.rs], the part of [run_texture_upload_pass] of [encoder.rs] that
    places the quad, and the fragment function of
    [unix/unix/src/metal/upload_quad.rs] it draws: texture uploads a blit cannot
    express. *)

From S2P Require Import Prelude D3DTypes Mtl YuvDecode PixelConvert.

Module UploadDecode.
Inductive t := R5G6B5 | A1R5G5B5 | A4R4G4B4 | CopyBgra8 | X1R5G5B5 | R8G8B8.

Definition wire (d : t) : Z :=
  match d with R5G6B5 => 0 | A1R5G5B5 => 1 | A4R4G4B4 => 2 | CopyBgra8 => 3 | X1R5G5B5 => 4 | R8G8B8 => 5 end.

Definition bytes_per_texel (d : t) : Z :=
  match d with R5G6B5 | A1R5G5B5 | A4R4G4B4 | X1R5G5B5 => 2 | R8G8B8 => 3 | CopyBgra8 => 4 end.
End UploadDecode.

Definition upload_decode (src_d3d_format : Z) (gpu_format : PixelFormat) : option UploadDecode.t :=
  if negb (bool_decide (gpu_format = Bgra8Unorm)) then None
  else if src_d3d_format =? D3DFMT_R5G6B5 then Some UploadDecode.R5G6B5
  else if src_d3d_format =? D3DFMT_A1R5G5B5 then Some UploadDecode.A1R5G5B5
  else if src_d3d_format =? D3DFMT_X1R5G5B5 then Some UploadDecode.X1R5G5B5
  else if src_d3d_format =? D3DFMT_A4R4G4B4 then Some UploadDecode.A4R4G4B4
  else if src_d3d_format =? D3DFMT_R8G8B8 then Some UploadDecode.R8G8B8
  else if src_d3d_format =? D3DFMT_A8R8G8B8 then Some UploadDecode.CopyBgra8
  else None.

Definition is_expansion (d : UploadDecode.t) : bool :=
  match d with
  | UploadDecode.R5G6B5 | UploadDecode.A1R5G5B5 | UploadDecode.A4R4G4B4 | UploadDecode.X1R5G5B5 | UploadDecode.R8G8B8 => true
  | UploadDecode.CopyBgra8 => false
  end.

Definition is_expanded_upload (src_d3d_format : Z) (gpu_format : PixelFormat) : bool :=
  match upload_decode src_d3d_format gpu_format with Some d => is_expansion d | None => false end.

Definition upload_pass_decode (src_d3d_format : Z) (gpu_format : PixelFormat) (pitch align : Z) : option UploadDecode.t :=
  match upload_decode src_d3d_format gpu_format with
  | Some d => if is_expansion d || (pitch <? align) then Some d else None
  | None => None
  end.

Definition snapshot_pass_base (source_offset : Z) (origin : Z * Z) (pitch bytes_per_texel : Z) : Z :=
  (source_offset -% (snd origin *% pitch +% fst origin *% bytes_per_texel))%u32.

(** A shift amount is taken modulo the width of its operand. *)
Definition shr32 (v n : Z) : Z := Z.shiftr v (n mod 32).

Definition needs_render_target (src_d3d_format : Z) (gpu_format : PixelFormat) (width levels align : Z) : bool :=
  match upload_decode src_d3d_format gpu_format with
  | None => false
  | Some d =>
      if is_expansion d then true
      else
        let shift := if levels =? 0 then 0 else levels - 1 in
        let smallest := if shr32 width shift =? 0 then 1 else shr32 width shift in
        (smallest *% UploadDecode.bytes_per_texel d)%u32 <? align
  end.

(** ** The pass *)

(** What an upload job says of its source and its box.  [snapshot_offset] is set
    for a copy that holds the box alone. *)
Record UploadView := mkView {
  uv_width : Z; uv_height : Z; uv_level : Z; uv_depth : Z;
  uv_origin_x : Z; uv_origin_y : Z; uv_region_w : Z; uv_region_h : Z;
  uv_src_pitch : Z; uv_slice_pitch : Z; uv_destination_slice : Z;
  uv_snapshot_offset : option Z;
}.

(** One quad: the slice, the rectangle and the byte offset handed to the shader. *)
Record Quad := mkQuad { q_slice : Z; q_x : Z; q_y : Z; q_w : Z; q_h : Z; q_base : Z }.

Definition mip_extent (base level : Z) : Z := Z.max (shr32 (Z.max base 1) level) 1.

(** [run_texture_upload_pass]'s quads, an empty one left out as
    [emit_upload_pass] does. *)
Definition upload_quads (job : UploadView) (d : UploadDecode.t) : list Quad :=
  let mip_w := mip_extent (uv_width job) (uv_level job) in
  let mip_h := mip_extent (uv_height job) (uv_level job) in
  let depth := Z.max (uv_depth job) 1 in
  filter (fun q => q_w q <> 0 /\ q_h q <> 0)
    (if 1 <? depth then (fun s => mkQuad s 0 0 mip_w mip_h (s *| uv_slice_pitch job)%u32) <$> seqZ 0 depth
     else
       let w := Z.min (uv_region_w job) (mip_w -| uv_origin_x job)%u32 in
       let h := Z.min (uv_region_h job) (mip_h -| uv_origin_y job)%u32 in
       let base := match uv_snapshot_offset job with
                   | None => 0
                   | Some offset => snapshot_pass_base offset (uv_origin_x job, uv_origin_y job) (uv_src_pitch job)
                                      (UploadDecode.bytes_per_texel d)
                   end in
       [mkQuad (uv_destination_slice job) (uv_origin_x job) (uv_origin_y job) w h base]).

(** [mtld3d_upload_ps]: the four channels, over 255, of the pixel at [texel]. *)
Definition upload_address (base pitch bpp : Z) (texel : Z * Z) : Z := (base +% snd texel *% pitch +% fst texel *% bpp)%u32.

Definition upload_ps (base pitch decode bpp : Z) (src : Z -> Z) (texel : Z * Z) : Z * Z * Z * Z :=
  let addr := upload_address base pitch bpp texel in
  if decode =? 3 then (src (addr +% 2)%u32, src (addr +% 1)%u32, src addr, src (addr +% 3)%u32)
  else if decode =? 5 then (src (addr +% 2)%u32, src (addr +% 1)%u32, src addr, 255)
  else
    let b := Z.lor (src addr) (wrap32 (Z.shiftl (src (addr +% 1)%u32) 8)) in
    if decode =? 0 then
      let r5 := Z.land (Z.shiftr b 11) 0x1f in let g6 := Z.land (Z.shiftr b 5) 0x3f in let b5 := Z.land b 0x1f in
      (Z.lor (wrap32 (Z.shiftl r5 3)) (Z.shiftr r5 2), Z.lor (wrap32 (Z.shiftl g6 2)) (Z.shiftr g6 4),
       Z.lor (wrap32 (Z.shiftl b5 3)) (Z.shiftr b5 2), 0xff)
    else if (decode =? 1) || (decode =? 4) then
      let r5 := Z.land (Z.shiftr b 10) 0x1f in let g5 := Z.land (Z.shiftr b 5) 0x1f in let b5 := Z.land b 0x1f in
      (Z.lor (wrap32 (Z.shiftl r5 3)) (Z.shiftr r5 2), Z.lor (wrap32 (Z.shiftl g5 3)) (Z.shiftr g5 2),
       Z.lor (wrap32 (Z.shiftl b5 3)) (Z.shiftr b5 2), if (decode =? 4) || flag b 0x8000 then 0xff else 0)
    else
      ((Z.land (Z.shiftr b 8) 0xf *% 17)%u32, (Z.land (Z.shiftr b 4) 0xf *% 17)%u32, (Z.land b 0xf *% 17)%u32,
       (Z.land (Z.shiftr b 12) 0xf *% 17)%u32).

Example x1_texel : upload_ps 0 4 4 2 (fun a => if a =? 6 then 0x1f else if a =? 7 then 0x7c else 0) (1, 1) = (255, 0, 255, 255).
Proof. reflexivity. Qed.

(** ** The shader against the CPU codec *)

(** The bytes of a texel at [addr]. *)
Definition bytes_at (src : Z -> Z) (addr n : Z) : list Z := (fun i => src (addr + i)) <$> seqZ 0 n.

Lemma shader_expand n k v m : 0 <= v < m -> forallb (fun v => (Z.lor (wrap32 (Z.shiftl v n)) (Z.shiftr v k)
    =? Z.lor (wrap8 (Z.shiftl v n)) (Z.shiftr v k))) (seqZ 0 m) = true ->
  Z.lor (wrap32 (Z.shiftl v n)) (Z.shiftr v k) = Z.lor (wrap8 (Z.shiftl v n)) (Z.shiftr v k).
Proof. intros Hv H. pose proof (below _ _ H v Hv) as E. by apply Z.eqb_eq. Qed.

Lemma shader_expand5 v : 0 <= v < 32 -> Z.lor (wrap32 (Z.shiftl v 3)) (Z.shiftr v 2) = expand5 v.
Proof. intros. by apply (shader_expand 3 2 v 32). Qed.

Lemma shader_expand6 v : 0 <= v < 64 -> Z.lor (wrap32 (Z.shiftl v 2)) (Z.shiftr v 4) = expand6 v.
Proof. intros. by apply (shader_expand 2 4 v 64). Qed.

Lemma shader_expand4 v : 0 <= v < 16 -> (v *% 17)%u32 = expand4 v.
Proof. intros Hv. pose proof (below (fun v => (v *% 17)%u32 =? expand4 v) 16 eq_refl v Hv) as E. by apply Z.eqb_eq. Qed.

Lemma masked v a n : 0 <= a -> 0 <= n -> 0 <= Z.land (Z.shiftr v a) (2 ^ n - 1) < 2 ^ n.
Proof. intros. rewrite field by done. apply Z.mod_pos_bound, Z.pow_pos_nonneg; lia. Qed.

Lemma shader_u16 b0 b1 : is_byte b0 -> is_byte b1 -> Z.lor b0 (wrap32 (Z.shiftl b1 8)) = u16_from_le b0 b1.
Proof.
  unfold is_byte, u16_from_le. intros. rewrite wrap32_small by (rewrite Z.shiftl_mul_pow2 by lia; unfold is_u32, u32_max; lia).
  rewrite Z.lor_comm, lor_shift by (simpl; lia). simpl. lia.
Qed.

(** The format a decode reads. *)
Definition decode_format (d : UploadDecode.t) : Z :=
  match d with
  | UploadDecode.R5G6B5 => D3DFMT_R5G6B5 | UploadDecode.A1R5G5B5 => D3DFMT_A1R5G5B5 | UploadDecode.A4R4G4B4 => D3DFMT_A4R4G4B4
  | UploadDecode.CopyBgra8 => D3DFMT_A8R8G8B8 | UploadDecode.X1R5G5B5 => D3DFMT_X1R5G5B5 | UploadDecode.R8G8B8 => D3DFMT_R8G8B8
  end.

Lemma shader_is_codec d base pitch src texel : (forall a, is_byte (src a)) ->
  let addr := upload_address base pitch (UploadDecode.bytes_per_texel d) texel in
  addr + UploadDecode.bytes_per_texel d <= u32_max ->
  upload_ps base pitch (UploadDecode.wire d) (UploadDecode.bytes_per_texel d) src texel
  = decode_rgb_pixel (decode_format d) (bytes_at src addr (UploadDecode.bytes_per_texel d)).
Proof.
  intros Hb addr Ha. assert (H0 : 0 <= addr) by (apply wrap32_range).
  unfold upload_ps. fold addr. unfold bytes_at.
  pose proof (Hb addr). pose proof (Hb (addr + 1)).
  destruct d; cbn [UploadDecode.wire UploadDecode.bytes_per_texel decode_format Z.eqb Pos.eqb orb] in *; exact32.
  4: change (seqZ 0 4) with [0; 1; 2; 3]; cbn [fmap list_fmap]; by rewrite Z.add_0_r.
  5: change (seqZ 0 3) with [0; 1; 2]; cbn [fmap list_fmap]; by rewrite Z.add_0_r.
  all: rewrite shader_u16 by done; set (v := u16_from_le (src addr) (src (addr + 1))).
  all: pose proof (masked v 11 5 ltac:(lia) ltac:(lia)); pose proof (masked v 10 5 ltac:(lia) ltac:(lia));
       pose proof (masked v 5 5 ltac:(lia) ltac:(lia)); pose proof (masked v 5 6 ltac:(lia) ltac:(lia));
       pose proof (masked v 0 5 ltac:(lia) ltac:(lia)); pose proof (masked v 0 4 ltac:(lia) ltac:(lia));
       pose proof (masked v 4 4 ltac:(lia) ltac:(lia)); pose proof (masked v 8 4 ltac:(lia) ltac:(lia)); pose proof (masked v 12 4 ltac:(lia) ltac:(lia)).
  all: rewrite ?shader_expand5, ?shader_expand6, ?shader_expand4 by done.
  all: change (seqZ 0 2) with [0; 1]; unfold v; cbn [fmap list_fmap]; by rewrite Z.add_0_r.
Qed.

(** ** The quads *)

(** The texels an upload writes: its box, cut to the level. *)
Definition in_target (job : UploadView) (slice px py : Z) : Prop :=
  px < mip_extent (uv_width job) (uv_level job) /\ py < mip_extent (uv_height job) (uv_level job)
  /\ if 1 <? uv_depth job then 0 <= slice < uv_depth job /\ 0 <= px /\ 0 <= py
     else slice = uv_destination_slice job /\ uv_origin_x job <= px < uv_origin_x job + uv_region_w job
          /\ uv_origin_y job <= py < uv_origin_y job + uv_region_h job.

(** Where the texel's bytes are: in the level's own layout, or in a copy of the
    box alone. *)
Definition source_address (job : UploadView) (d : UploadDecode.t) (slice px py : Z) : Z :=
  let at_ x y := y * uv_src_pitch job + x * UploadDecode.bytes_per_texel d in
  if 1 <? uv_depth job then slice * uv_slice_pitch job + at_ px py
  else match uv_snapshot_offset job with
       | None => at_ px py
       | Some offset => offset + at_ (px - uv_origin_x job) (py - uv_origin_y job)
       end.

Record view_ok (job : UploadView) (d : UploadDecode.t) : Prop := {
  vo_size : 0 <= uv_width job <= u32_max /\ 0 <= uv_height job <= u32_max;
  vo_origin : is_u32 (uv_origin_x job) /\ is_u32 (uv_origin_y job);
  vo_region : 0 <= uv_region_w job /\ 0 <= uv_region_h job;
  vo_pitch : 0 <= uv_src_pitch job /\ 0 <= uv_slice_pitch job;
  vo_inside : forall slice px py, in_target job slice px py ->
    0 <= source_address job d slice px py /\ source_address job d slice px py + UploadDecode.bytes_per_texel d <= u32_max;
}.

Definition in_quad (q : Quad) (slice px py : Z) : Prop :=
  q_slice q = slice /\ q_x q <= px < q_x q + q_w q /\ q_y q <= py < q_y q + q_h q.

Lemma mip_extent_range base level : 0 <= base <= u32_max -> 1 <= mip_extent base level <= u32_max.
Proof.
  intros H. unfold mip_extent, shr32. rewrite Z.shiftr_div_pow2 by (apply Z.mod_pos_bound; lia).
  pose proof (Z.pow_pos_nonneg 2 (level mod 32) ltac:(lia) ltac:(apply Z.mod_pos_bound; lia)) as Hp. unfold u32_max in *.
  pose proof (Z.div_le_upper_bound (Z.max base 1) (2 ^ (level mod 32)) (Z.max base 1) Hp ltac:(nia)). lia.
Qed.

Lemma upload_quads_iff job d slice px py : view_ok job d ->
  in_target job slice px py <-> exists q, q ∈ upload_quads job d /\ in_quad q slice px py.
Proof.
  intros [[Hw Hh] [Hox Hoy] Hr _ _]. pose proof (mip_extent_range _ (uv_level job) Hw). pose proof (mip_extent_range _ (uv_level job) Hh).
  unfold upload_quads, in_target. set (mw := mip_extent (uv_width job) (uv_level job)) in *. set (mh := mip_extent (uv_height job) (uv_level job)) in *.
  setoid_rewrite list_elem_of_filter. unfold in_quad, is_u32, sat in *. destruct (Z.ltb_spec 1 (uv_depth job)).
  - rewrite Z.max_l, (proj2 (Z.ltb_lt 1 (uv_depth job))) by lia. setoid_rewrite list_elem_of_fmap. setoid_rewrite elem_of_seqZ. split.
    + intros (? & ? & ? & ? & ?). eexists. split; [split; [|by exists slice]|]; simpl; lia.
    + intros (q & (? & s & -> & ?) & ? & ? & ?). simpl in *. subst. lia.
  - rewrite (proj2 (Z.ltb_ge 1 (Z.max (uv_depth job) 1))) by lia. setoid_rewrite list_elem_of_singleton. split.
    + intros (? & ? & -> & ? & ?). eexists. split; [split; [|done]|]; simpl; lia.
    + intros (q & (? & ->) & ? & ? & ?). simpl in *. lia.
Qed.

(** The wraps of the base and of the shader cancel. *)
Lemma address_mod base pitch bpp px py :
  upload_address base pitch bpp (px, py) = wrap32 (base + (py * pitch + px * bpp)).
Proof.
  unfold upload_address, fst, snd. rewrite wrap32_add_r, wrap32_add_l.
  replace (base + wrap32 (py * pitch) + px * bpp) with (base + px * bpp + wrap32 (py * pitch)) by lia.
  rewrite wrap32_add_r. f_equal. lia.
Qed.

Lemma base_mod offset ox oy pitch bpp k :
  wrap32 (snapshot_pass_base offset (ox, oy) pitch bpp + k) = wrap32 (offset - (oy * pitch + ox * bpp) + k).
Proof.
  unfold snapshot_pass_base, fst, snd. rewrite wrap32_add_l.
  replace (offset - wrap32 (wrap32 (oy * pitch) + wrap32 (ox * bpp)) + k) with (offset + k - wrap32 (wrap32 (oy * pitch) + wrap32 (ox * bpp))) by lia.
  rewrite wrap32_sub_r, Z.sub_add_distr, wrap32_sub_r.
  replace (offset + k - wrap32 (oy * pitch) - ox * bpp) with (offset + k - ox * bpp - wrap32 (oy * pitch)) by lia.
  rewrite wrap32_sub_r. f_equal. lia.
Qed.

Lemma quad_address job d q slice px py : view_ok job d -> q ∈ upload_quads job d -> in_quad q slice px py ->
  upload_address (q_base q) (uv_src_pitch job) (UploadDecode.bytes_per_texel d) (px, py) = source_address job d slice px py.
Proof.
  intros Hv Hq Hin. assert (Ht : in_target job slice px py) by (apply (upload_quads_iff job d); [done|by exists q]).
  destruct (vo_inside _ _ Hv _ _ _ Ht) as [H0 H1]. pose proof (vo_pitch _ _ Hv) as [? ?]. rewrite address_mod.
  assert (Hb : 0 < UploadDecode.bytes_per_texel d) by (destruct d; done).
  destruct Ht as (? & ? & Ht). unfold upload_quads in Hq. apply list_elem_of_filter in Hq as [_ Hq].
  unfold source_address in *. destruct (Z.ltb_spec 1 (uv_depth job)).
  - rewrite Z.max_l, (proj2 (Z.ltb_lt 1 (uv_depth job))) in Hq by lia. apply list_elem_of_fmap in Hq as (s & -> & Hs).
    destruct Hin as (<- & _). cbn [q_slice q_base] in *.
    assert (0 <= py * uv_src_pitch job + px * UploadDecode.bytes_per_texel d) by nia. apply elem_of_seqZ in Hs.
    assert (Es : (s *| uv_slice_pitch job)%u32 = s * uv_slice_pitch job) by (unfold sat, u32_max in *; nia). rewrite Es.
    apply wrap32_small. unfold is_u32. lia.
  - rewrite (proj2 (Z.ltb_ge 1 (Z.max (uv_depth job) 1))) in Hq by lia. apply list_elem_of_singleton in Hq as ->. cbn [q_base].
    destruct (uv_snapshot_offset job) as [off|]; [rewrite base_mod|]; rewrite wrap32_small; unfold is_u32; lia.
Qed.

(** C31: The upload pass writes what the CPU codec would.  For every job that takes
    the pass, whose bytes lie where 32-bit offsets reach, the quads cover exactly
    the texels of the box inside the level, and at each of them the shader's
    wrapping address lands on that texel's bytes - in the level's own staging, in
    a slice of a volume, or in a snapshot of the box alone, whose base may have
    wrapped below zero - and what it returns is the CPU decode of the format. *)
Theorem upload_pass_exact job src_d3d_format gpu_format align d (src : Z -> Z) :
  upload_pass_decode src_d3d_format gpu_format (uv_src_pitch job) align = Some d ->
  view_ok job d -> (forall a, is_byte (src a)) ->
  let bpp := UploadDecode.bytes_per_texel d in
  gpu_format = Bgra8Unorm /\ bpp = rgb_bpp src_d3d_format
  /\ (forall slice px py, in_target job slice px py <-> exists q, q ∈ upload_quads job d /\ in_quad q slice px py)
  /\ forall q slice px py, q ∈ upload_quads job d -> in_quad q slice px py ->
       upload_ps (q_base q) (uv_src_pitch job) (UploadDecode.wire d) bpp src (px, py)
       = decode_rgb_pixel src_d3d_format (bytes_at src (source_address job d slice px py) bpp).
Proof.
  intros Hd Hv Hb bpp.
  assert (Hf : gpu_format = Bgra8Unorm /\ decode_format d = src_d3d_format).
  { unfold upload_pass_decode in Hd. destruct (upload_decode src_d3d_format gpu_format) as [d'|] eqn:E; [|done].
    destruct (is_expansion d' || _) in Hd; [|done]. injection Hd as ->. unfold upload_decode in E.
    destruct (bool_decide_reflect (gpu_format = Bgra8Unorm)); [|done]. split; [done|]. simpl in E.
    repeat match type of E with (if ?b then _ else _) = _ => destruct b eqn:?; [injection E as <-; reflect_cmp; by subst|] end. done. }
  destruct Hf as [-> <-]. split; [done|]. split; [by destruct d|]. split; [intros; by apply upload_quads_iff|].
  intros q slice px py Hq Hin.
  assert (Ht : in_target job slice px py) by (apply (upload_quads_iff job d); [done|by exists q]).
  pose proof (vo_inside _ _ Hv _ _ _ Ht) as [? ?]. pose proof (quad_address job d q slice px py Hv Hq Hin) as E.
  unfold bpp. rewrite shader_is_codec, E; [done..|]. by rewrite E.
Qed.

(** A snapshot of the texels right of [(3, 2)] of an 8x4 level, kept at offset 16:
    the base wraps below zero. *)
Lemma upload_pass_exact_witness :
  let job := mkView 8 4 0 1 3 2 2 2 16 0 0 (Some 16) in
  let src a := a mod 256 in
  snapshot_pass_base 16 (3, 2) 16 2 = 4294967274
  /\ upload_ps 4294967274 16 0 2 src (4, 3) = decode_rgb_pixel D3DFMT_R5G6B5 (bytes_at src 34 2).
Proof.
  split; [reflexivity|].
  destruct (upload_pass_exact (mkView 8 4 0 1 3 2 2 2 16 0 0 (Some 16)) D3DFMT_R5G6B5 Bgra8Unorm 16 UploadDecode.R5G6B5 (fun a => a mod 256))
    as (_ & _ & _ & H).
  - reflexivity.
  - split; simpl; unfold is_u32, u32_max; try lia. unfold in_target, source_address. simpl. intros. lia.
  - intros a. unfold is_byte. pose proof (Z.mod_pos_bound a 256). lia.
  - exact (H (mkQuad 0 3 2 2 2 4294967274) 0 4 3 ltac:(apply list_elem_of_singleton; reflexivity) ltac:(unfold in_quad; simpl; lia)).
Defined.

(** A texture that takes the pass for one of its uploads was created as an
    attachment.  The creation predicate holds as soon as any level's upload, on
    any pitch not below the level's tight one, takes the pass. *)
Theorem render_target_superset src_d3d_format gpu_format width levels align level pitch d :
  0 < width -> width * 4 <= u32_max -> 0 <= level < Z.max levels 1 -> 0 <= levels <= 32 ->
  mip_extent width level * UploadDecode.bytes_per_texel d <= pitch ->
  upload_pass_decode src_d3d_format gpu_format pitch align = Some d ->
  needs_render_target src_d3d_format gpu_format width levels align = true.
Proof.
  intros Hw Hw4 Hl Hls Hp Hd. unfold upload_pass_decode in Hd. unfold needs_render_target.
  destruct (upload_decode src_d3d_format gpu_format) as [d'|]; [|done].
  destruct (is_expansion d') eqn:Ee; [done|]. simpl in Hd. destruct (Z.ltb_spec pitch align); [|done]. injection Hd as ->.
  set (shift := if levels =? 0 then 0 else levels - 1).
  assert (Hs : 0 <= level <= shift /\ shift < 32) by (unfold shift; destruct (Z.eqb_spec levels 0); lia).
  unfold mip_extent in Hp. unfold shr32 in *. rewrite (Z.max_l width 1), (Z.mod_small level 32) in Hp by lia. rewrite (Z.mod_small shift) by lia.
  rewrite !Z.shiftr_div_pow2 in * by lia.
  pose proof (Z.pow_pos_nonneg 2 level ltac:(lia) ltac:(lia)). pose proof (Z.pow_le_mono_r 2 level shift ltac:(lia) ltac:(lia)).
  pose proof (Z.div_le_compat_l width (2 ^ level) (2 ^ shift) ltac:(lia) ltac:(lia)).
  pose proof (Z.div_le_upper_bound width (2 ^ shift) width ltac:(lia) ltac:(nia)). pose proof (Z.div_pos width (2 ^ shift) ltac:(lia) ltac:(lia)).
  assert (Hb : 0 < UploadDecode.bytes_per_texel d <= 4) by (by destruct d).
  set (n := if width / 2 ^ shift =? 0 then 1 else width / 2 ^ shift).
  assert (Hn : 1 <= n <= width /\ n <= Z.max (width / 2 ^ level) 1) by (unfold n; destruct (Z.eqb_spec (width / 2 ^ shift) 0); lia).
  rewrite wrap32_small by (unfold is_u32; nia). apply Z.ltb_lt. nia.
Qed.

Lemma render_target_superset_witness : needs_render_target D3DFMT_A8R8G8B8 Bgra8Unorm 64 7 16 = true.
Proof.
  apply (render_target_superset D3DFMT_A8R8G8B8 Bgra8Unorm 64 7 16 5 8 UploadDecode.CopyBgra8); unfold u32_max; try lia; try reflexivity.
Defined.
