(* ===== verification/UploadRecovery.v ===== *)
(** [upload_recovery.rs], and the staged half of its use in [encoder.rs]: uploads
    whose command buffer the GPU aborted are issued again, in order, into the
    device buffer their key has by then.  Renames move a key to a fresh device
    buffer behind a copy of the old one, which is not issued again. *)

From stdpp Require Import sorting.
From S2P Require Import Prelude BufferRename.

Definition MAX_REISSUE_ATTEMPTS : Z := 3.

Inductive UploadFate := Released | Reissue | Abandoned.

#[global] Instance UploadFate_eq_dec : EqDecision UploadFate.
Proof. solve_decision. Defined.

Section queue.
Context {T : Type}.

Record PendingUpload := mkPending { pu_key : Z; pu_seq : Z; pu_attempts : Z; pu_payload : T }.

(** The queue is the deque of its entries, front first.  [debug_assert!]s are not
part of the shipped build. *)
Definition push (q : list PendingUpload) (key seq : Z) (payload : T) : list PendingUpload :=
  q ++ [mkPending key seq 0 payload].

Definition requeue (q : list PendingUpload) (e : PendingUpload) (reissue_seq : Z) : list PendingUpload :=
  q ++ [mkPending (pu_key e) reissue_seq (Z.min 255 (pu_attempts e + 1)) (pu_payload e)].

Fixpoint front_run (keep : PendingUpload -> bool) (q : list PendingUpload) : nat :=
  match q with [] => 0 | e :: q' => if keep e then S (front_run keep q') else 0 end.

Definition poisoned_keys (q : list PendingUpload) (failed_seq : Z) : gset Z :=
  if failed_seq =? 0 then ∅
  else foldl (fun keys e => if pu_seq e <=? failed_seq then {[pu_key e]} ∪ keys else keys) ∅ q.

(** The fate of an entry the recovery walk takes out; [None] keeps it. *)
Definition fate_of (poisoned : gset Z) (coherent_seq : Z) (e : PendingUpload) : option UploadFate :=
  let owed := bool_decide (pu_key e ∈ poisoned) in
  if negb owed && (coherent_seq <? pu_seq e) then None
  else if negb owed then Some Released
  else if MAX_REISSUE_ATTEMPTS <=? pu_attempts e then Some Abandoned
  else Some Reissue.

Definition settle (q : list PendingUpload) (coherent_seq failed_seq : Z) : list (UploadFate * PendingUpload) * list PendingUpload :=
  let poisoned := poisoned_keys q failed_seq in
  if bool_decide (poisoned = ∅) then
  let retired := front_run (fun e => pu_seq e <=? coherent_seq) q in
  ((fun e => (Released, e)) <$> take retired q, drop retired q)
  else
  foldl (fun '(out, kept) e =>
  match fate_of poisoned coherent_seq e with
  | None => (out, kept ++ [e])
  | Some fate => (out ++ [(fate, e)], kept)
  end) ([], []) q.

Definition release_acknowledged (q : list PendingUpload) (coherent_seq failed_seq : Z) : list PendingUpload * list PendingUpload :=
  let clean := front_run (fun e => (pu_seq e <=? coherent_seq) && (failed_seq <? pu_seq e)) q in
  (take clean q, drop clean q).

Definition drain_all (q : list PendingUpload) : list PendingUpload * list PendingUpload := (q, []).
End queue.
Arguments PendingUpload : clear implicits.

Example poisoned_tail :
  settle [mkPending 1 4 0 10; mkPending 2 4 3 20; mkPending 3 5 0 30; mkPending 1 6 0 40] 5 4
  = ([(Reissue, mkPending 1 4 0 10); (Abandoned, mkPending 2 4 3 20); (Released, mkPending 3 5 0 30); (Reissue, mkPending 1 6 0 40)], []).
Proof. reflexivity. Qed.

(** ** The encoder around it

    One upload copies [wr_len] bytes over a buffer from [wr_off] on.  [frames] are
    the submissions the GPU has not finished, oldest first, the one being recorded
    last; the GPU runs their commands in order. *)

Record Write := mkWrite { wr_off : Z; wr_len : Z; wr_bytes : Z -> Z }.

Definition covered (w : Write) (b : Z) : bool := (wr_off w <=? b) && (b <? wr_off w + wr_len w).

Definition apply_write (w : Write) (m : Z -> Z) : Z -> Z := fun b => if covered w b then wr_bytes w (b - wr_off w) else m b.

(** A blit for the buffer of a key: the copy of a renamed device buffer into the
    fresh one, or an upload into a device buffer. *)
Inductive Blit :=
  | Copy (key src dst len : Z)
  | Put (key dst : Z) (wr : Write).

Definition blit_key (c : Blit) : Z := match c with Copy k _ _ _ | Put k _ _ => k end.
Definition blit_dst (c : Blit) : Z := match c with Copy _ _ d _ | Put _ d _ => d end.

(** The memory of the device buffers, by handle. *)
Definition run_blit (m : Z -> Z -> Z) (c : Blit) : Z -> Z -> Z :=
  fun h => if h =? blit_dst c then
             match c with
             | Copy _ src _ len => fun b => if (0 <=? b) && (b <? len) then m src b else m h b
             | Put _ _ wr => apply_write wr (m h)
             end
           else m h.

Definition run_blits (m : Z -> Z -> Z) (cs : list Blit) : Z -> Z -> Z := foldl run_blit m cs.

Record World := mkWorld {
  queue : list (PendingUpload Write);
  frames : list (list Blit);
  begun : bool;
  finished : Z;          (** the last submission the GPU finished *)
  coherent : Z;          (** the last one whose retirement is published *)
  failed : Z;            (** the last one that aborted *)
  mem : Z -> Z -> Z;     (** the device buffers, by handle *)
  device : gmap Z (Z * Z); (** the cache: a key's device buffer and its length *)
  owner : gmap Z Z;      (** the handles ever made, and the key each was made for *)
  lost : gset Z;         (** keys an upload of which was abandoned *)
  intended : Z -> Z -> Z; (** what the uploads, one after the other, should leave *)
  torn : Z -> Z -> bool; (** bytes an aborted rename took from a buffer *)
  uploads : Z;
  reissues : Z;
}.

Definition current_submit_seq (w : World) : Z := finished w + Z.of_nat (length (frames w)).

(** Blits join the frame being recorded. *)
Definition record_blits (cs : list Blit) (fs : list (list Blit)) : list (list Blit) :=
  match last fs with Some cur => take (length fs - 1) fs ++ [cur ++ cs] | None => fs end.

Definition store (m : Z -> Z -> Z) (key : Z) (wr : Write) : Z -> Z -> Z := fun k => if k =? key then apply_write wr (m k) else m k.

(** An upload reaches the frame being recorded ([apply_stage_upload] from the
    destination on).  [renamed] is the fresh device buffer when a draw of the
    frame already read what the upload overwrites, and memory for it could be
    had: the upload goes there, behind a copy of the old buffer unless it
    replaces all of it, and the cache points there.  An upload to a key without
    a cache entry is dropped.  One that got no transient buffer to copy from is
    dropped before it comes here. *)
Definition upload (w : World) (key : Z) (wr : Write) (renamed : option Z) : World :=
  match device w !! key with
  | None => w
  | Some (h, len) =>
      let '(dst, preserve) := match renamed with
        | Some fresh => (fresh, if stage_upload_needs_preserve len (wr_off wr) (wr_len wr) then [Copy key h fresh len] else [])
        | None => (h, [])
        end in
      mkWorld (push (queue w) key (current_submit_seq w) wr) (record_blits (preserve ++ [Put key dst wr]) (frames w))
        (begun w) (finished w) (coherent w) (failed w) (mem w) (<[key := (dst, len)]> (device w)) (<[dst := key]> (owner w)) (lost w)
        (store (intended w) key wr) (fun k b => torn w k b && negb ((k =? key) && covered wr b)) (uploads w + 1) (reissues w)
  end.

(** One drained entry of [settle_stage_uploads]: [reissue_stage_upload] aims it at
    the current device buffer, and finds none once the game released the key. *)
Definition settle_entry (w : World) (f : UploadFate * PendingUpload Write) : World :=
  let '(fate, e) := f in
  match fate with
  | Reissue =>
      match device w !! pu_key e with
      | None => w
      | Some (h, _) =>
          mkWorld (requeue (queue w) e (current_submit_seq w)) (record_blits [Put (pu_key e) h (pu_payload e)] (frames w)) (begun w)
             (finished w) (coherent w) (failed w) (mem w) (device w) (owner w) (lost w) (intended w) (torn w) (uploads w) (reissues w + 1)
      end
  | Abandoned => mkWorld (queue w) (frames w) (begun w) (finished w) (coherent w) (failed w) (mem w) (device w) (owner w)
                   ({[pu_key e]} ∪ lost w) (intended w) (torn w) (uploads w) (reissues w)
  | Released => w
  end.

Definition with_queue (w : World) (q : list (PendingUpload Write)) (b : bool) : World :=
  mkWorld q (frames w) b (finished w) (coherent w) (failed w) (mem w) (device w) (owner w) (lost w) (intended w) (torn w) (uploads w) (reissues w).

Definition settle_stage_uploads (w : World) : World :=
  let '(out, kept) := settle (queue w) (coherent w) (failed w) in
  foldl settle_entry (with_queue w kept true) out.

Definition release_acknowledged_uploads (w : World) : World :=
  with_queue w (snd (release_acknowledged (queue w) (coherent w) (failed w))) (begun w).

(** Dropped blits that held the copy of a rename of the key. *)
Definition drops_copy (k : Z) (cs : list Blit) : bool :=
  existsb (fun c => match c with Copy k' _ _ _ => k' =? k | Put _ _ _ => false end) cs.

(** A byte no upload still queued for the key writes again. *)
Definition unqueued (q : list (PendingUpload Write)) (k b : Z) : bool :=
  forallb (fun e => negb ((pu_key e =? k) && covered (pu_payload e) b)) q.

(** The GPU finishes the oldest submission: all its blits land, or it aborts
    with the first [n] of them done.  The failure is recorded before the
    retirement is published.  An abort that drops the copy of a rename tears the
    buffer: what no queued upload writes again is what the fresh buffer came with. *)
Definition finish (w : World) (aborted : option nat) : option World :=
  match frames w with
  | f :: (_ :: _) as rest =>
      let run := match aborted with None => f | Some n => take n f end in
      let dropped := match aborted with None => [] | Some n => drop n f end in
      Some (mkWorld (queue w) (tail (frames w)) (begun w) (finished w + 1) (coherent w)
              (match aborted with None => failed w | Some _ => finished w + 1 end)
              (run_blits (mem w) run) (device w) (owner w) (lost w) (intended w)
              (fun k b => torn w k b || (drops_copy k dropped && unqueued (queue w) k b)) (uploads w) (reissues w))
  | _ => None
  end.

Inductive Event :=
  | Upload (key : Z) (wr : Write) (renamed : option Z) (** an upload operation of the frame *)
  | Submit                             (** the frame is handed to the GPU *)
  | BeginFrame                         (** [begin_frame], which settles *)
  | ReleaseAcknowledged                (** a retention drain *)
  | Destroy (key : Z)                  (** the game released the buffer *)
  | Finish (aborted : option nat)
  | Publish (seq : Z).                 (** the retirement counter advances *)

(** An upload stays in its buffer, and a rename gets a buffer that is new. *)
Definition upload_fits (w : World) (key : Z) (wr : Write) (renamed : option Z) : bool :=
  match device w !! key with
  | None => true
  | Some (_, len) =>
      (0 <=? wr_off wr) && (0 <? wr_len wr) && (wr_off wr + wr_len wr <=? len)
      && match renamed with Some fresh => bool_decide (owner w !! fresh = None) | None => true end
  end.

Definition step (w : World) (e : Event) : option World :=
  match e with
  | Upload key wr renamed => if begun w && upload_fits w key wr renamed then Some (upload w key wr renamed) else None
  | Submit =>
      if begun w then Some (mkWorld (queue w) (frames w ++ [[]]) false (finished w) (coherent w) (failed w) (mem w) (device w) (owner w)
                              (lost w) (intended w) (torn w) (uploads w) (reissues w)) else None
  | BeginFrame => if begun w then None else Some (settle_stage_uploads w)
  | ReleaseAcknowledged => Some (release_acknowledged_uploads w)
  | Destroy key => Some (mkWorld (queue w) (frames w) (begun w) (finished w) (coherent w) (failed w) (mem w) (delete key (device w)) (owner w)
                           (lost w) (intended w) (torn w) (uploads w) (reissues w))
  | Finish aborted => finish w aborted
  | Publish seq =>
      if (coherent w <=? seq) && (seq <=? finished w)
      then Some (mkWorld (queue w) (frames w) (begun w) (finished w) seq (failed w) (mem w) (device w) (owner w) (lost w) (intended w)
                   (torn w) (uploads w) (reissues w))
      else None
  end.

Fixpoint run (w : World) (es : list Event) : option World :=
  match es with [] => Some w | e :: es' => w' ← step w e; run w' es' end.

(** The buffers at first, in the order they were made, a handle each: key and
    length.  The first frame is number 1. *)
Fixpoint made (n : Z) (bufs : list (Z * Z)) : gmap Z (Z * Z) * gmap Z Z :=
  match bufs with
  | [] => (∅, ∅)
  | (key, len) :: rest => let '(d, o) := made (n + 1) rest in (<[key := (n, len)]> d, <[n := key]> o)
  end.

Definition start (m : Z -> Z -> Z) (bufs : list (Z * Z)) : World :=
  let '(d, o) := made 1 bufs in
  mkWorld [] [[]] true 0 0 0 m d o ∅ (fun k => match d !! k with Some (h, _) => m h | None => fun _ => 0 end) (fun _ _ => false) 0 0.

(** ** Writes, byte by byte *)

(** What the last of [ws] to cover a byte leaves there. *)
Definition hit (ws : list Write) (b : Z) : option Z :=
  foldl (fun acc w => if covered w b then Some (wr_bytes w (b - wr_off w)) else acc) None ws.

Definition apply_all (ws : list Write) (m : Z -> Z) : Z -> Z := foldl (fun m w => apply_write w m) m ws.

Lemma hit_snoc ws w b : hit (ws ++ [w]) b = if covered w b then Some (wr_bytes w (b - wr_off w)) else hit ws b.
Proof. unfold hit. by rewrite foldl_app. Qed.

Lemma apply_all_hit ws m b : apply_all ws m b = default (m b) (hit ws b).
Proof.
  induction ws as [|w ws IH] using rev_ind; [done|]. rewrite hit_snoc. unfold apply_all in *. rewrite foldl_app. cbn [foldl].
  unfold apply_write at 1. destruct (covered w b); [done|exact IH].
Qed.

Lemma hit_app l k b : hit (l ++ k) b = match hit k b with Some v => Some v | None => hit l b end.
Proof.
  induction k as [|w k IH] using rev_ind; [by rewrite app_nil_r|]. rewrite app_assoc, !hit_snoc. by destruct (covered w b).
Qed.

Lemma hit_is_Some ws b : is_Some (hit ws b) <-> exists w, w ∈ ws /\ covered w b = true.
Proof.
  induction ws as [|w ws IH] using rev_ind.
  - split; [by intros [? ?]|]. intros (w & Hw & _). by apply not_elem_of_nil in Hw.
  - rewrite hit_snoc. setoid_rewrite elem_of_app. setoid_rewrite list_elem_of_singleton. destruct (covered w b) eqn:E.
    + split; [intros _; exists w; auto|by eexists].
    + rewrite IH. split; [intros (v & ? & ?); eauto|]. intros (v & [?| ->] & ?); [eauto|congruence].
Qed.

Lemma hit_None ws b : hit ws b = None <-> forall w, w ∈ ws -> covered w b = false.
Proof.
  rewrite eq_None_not_Some, hit_is_Some. split; [|intros H (w & Hw & E); by rewrite H in E].
  intros H w Hw. destruct (covered w b) eqn:E; [|done]. destruct H. eauto.
Qed.

(** ** The entries and the recorded writes of a key *)

Definition entries (k : Z) (P : Z -> bool) (q : list (PendingUpload Write)) : list (PendingUpload Write) :=
  filter (fun e => pu_key e = k /\ P (pu_seq e) = true) q.
Definition writes (k : Z) (P : Z -> bool) (q : list (PendingUpload Write)) : list Write := pu_payload <$> entries k P q.
Definition all : Z -> bool := fun _ => true.
Definition put_of (k : Z) (c : Blit) : option Write :=
  match c with Put k' _ wr => if decide (k' = k) then Some wr else None | Copy _ _ _ _ => None end.
Definition frame_writes (k : Z) (f : list Blit) : list Write := omap (put_of k) f.

Lemma writes_app k P q r : writes k P (q ++ r) = writes k P q ++ writes k P r.
Proof. unfold writes, entries. by rewrite filter_app, fmap_app. Qed.

Lemma frame_writes_app k f g : frame_writes k (f ++ g) = frame_writes k f ++ frame_writes k g.
Proof. apply omap_app. Qed.

Lemma writes_one k P e : writes k P [e] = if decide (pu_key e = k /\ P (pu_seq e) = true) then [pu_payload e] else [].
Proof. unfold writes, entries. rewrite filter_cons. by destruct (decide _). Qed.

Lemma frame_writes_one k key d w : frame_writes k [Put key d w] = if decide (key = k) then [w] else [].
Proof. unfold frame_writes. simpl. by destruct (decide _). Qed.

Lemma elem_of_frame_writes k f w : w ∈ frame_writes k f <-> exists d, Put k d w ∈ f.
Proof.
  unfold frame_writes. rewrite list_elem_of_omap. split.
  - intros ([|k' d wr] & Hin & Hp); [done|]. simpl in Hp. case_decide; [|done]. simplify_eq. eauto.
  - intros (d & Hin). exists (Put k d w). split; [done|]. simpl. by rewrite decide_True.
Qed.

Lemma elem_of_writes k P q w : w ∈ writes k P q <-> exists e, e ∈ q /\ pu_key e = k /\ P (pu_seq e) = true /\ w = pu_payload e.
Proof.
  unfold writes, entries. rewrite list_elem_of_fmap. setoid_rewrite list_elem_of_filter. naive_solver.
Qed.

Lemma writes_none k P q : (forall e, e ∈ q -> pu_key e = k -> P (pu_seq e) = false) -> writes k P q = [].
Proof.
  intros H. destruct (writes k P q) as [|w l] eqn:E; [done|]. assert (Hw : w ∈ writes k P q) by (rewrite E; by left).
  apply elem_of_writes in Hw as (e & He & Hk & HP & _). by rewrite H in HP.
Qed.

Lemma take_writes k f n w : w ∈ frame_writes k (take n f) -> w ∈ frame_writes k f.
Proof.
  rewrite <- (take_drop n f) at 2. rewrite frame_writes_app, elem_of_app. auto.
Qed.

(** ** A queue in order of its submissions *)

Definition in_order (q : list (PendingUpload Write)) : Prop := StronglySorted (fun a b => pu_seq a <= pu_seq b) q.

Definition upto (c : Z) : Z -> bool := fun s => s <=? c.
Definition after (c : Z) : Z -> bool := fun s => c <? s.

Lemma in_order_snoc q e : in_order q -> (forall x, x ∈ q -> pu_seq x <= pu_seq e) -> in_order (q ++ [e]).
Proof.
  intros H Hle. induction H as [|x q Hs IH Hx]; simpl; [repeat constructor|]. constructor.
  - apply IH. intros y Hy. apply Hle. by right.
  - rewrite Forall_app. split; [done|]. constructor; [apply Hle; by left|done].
Qed.

Lemma in_order_filter (P : PendingUpload Write -> Prop) `{!forall e, Decision (P e)} q : in_order q -> in_order (filter P q).
Proof.
  induction 1 as [|x q Hs IH Hx]; [constructor|]. rewrite filter_cons. destruct (decide (P x)); [|done].
  constructor; [done|]. rewrite Forall_forall in *. intros y Hy. apply list_elem_of_filter in Hy as [_ Hy]. auto.
Qed.

Lemma writes_split k (P : Z -> bool) q c : in_order q ->
  writes k P q = writes k (fun s => P s && upto c s) q ++ writes k (fun s => P s && after c s) q.
Proof.
  unfold writes. rewrite <- fmap_app. intros H. f_equal. unfold entries, upto, after.
  induction H as [|x q Hs IH Hx]; [done|]. rewrite !filter_cons. destruct (decide (pu_key x = k /\ P (pu_seq x) = true)) as [[Ek EP]|Ek].
  - rewrite EP. destruct (Z.leb_spec (pu_seq x) c).
    + rewrite decide_True, decide_False by (simpl; rewrite ?Z.ltb_lt; (done || lia)). simpl. by rewrite IH.
    + rewrite decide_False, decide_True by (simpl; rewrite ?Z.ltb_lt; (done || lia || naive_solver)). rewrite Forall_forall in Hx.
      rewrite IH, (filter_none (fun e => pu_key e = k /\ P (pu_seq e) && (pu_seq e <=? c) = true) q); [done|].
      intros y Hy [_ Hle]. apply andb_prop in Hle as [_ Hle]. apply Z.leb_le in Hle. specialize (Hx y Hy). simpl in Hx. lia.
  - rewrite !decide_False by (rewrite andb_true_iff; tauto). done.
Qed.

Lemma front_run_upto q c : in_order q ->
  take (front_run (fun e => pu_seq e <=? c) q) q = filter (fun e => pu_seq e <= c) q
  /\ drop (front_run (fun e => pu_seq e <=? c) q) q = filter (fun e => c < pu_seq e) q.
Proof.
  induction 1 as [|x q Hs [IH1 IH2] Hx]; [done|]. cbn [front_run]. rewrite !filter_cons. destruct (Z.leb_spec (pu_seq x) c).
  - rewrite decide_True, decide_False by lia. simpl. by rewrite IH1, IH2.
  - rewrite decide_False, decide_True by lia. simpl. rewrite Forall_forall in Hx. split.
    + symmetry. apply filter_none. intros y Hy. specialize (Hx y Hy). simpl in Hx. lia.
    + f_equal. symmetry. apply filter_all. intros y Hy. specialize (Hx y Hy). simpl in Hx. lia.
Qed.

(** ** What a settlement takes out *)

Lemma poisoned_spec (q : list (PendingUpload Write)) f k : 0 <= f -> (forall e, e ∈ q -> 1 <= pu_seq e) ->
  k ∈ poisoned_keys q f <-> exists e, e ∈ q /\ pu_key e = k /\ pu_seq e <= f.
Proof.
  intros Hf Hq. unfold poisoned_keys. destruct (Z.eqb_spec f 0) as [->|Hne].
  { split; [set_solver|]. intros (e & He & _ & Hs). specialize (Hq e He). lia. }
  assert (G : forall keys : gset Z, k ∈ foldl (fun keys e => if pu_seq e <=? f then {[pu_key e]} ∪ keys else keys) keys q
              <-> k ∈ keys \/ exists e, e ∈ q /\ pu_key e = k /\ pu_seq e <= f).
  { clear Hq. induction q as [|e q IH]; intros keys; cbn [foldl]; [split; [auto|]; intros [?|(e & He & _)]; [done|by apply not_elem_of_nil in He]|].
    rewrite IH. destruct (Z.leb_spec (pu_seq e) f); setoid_rewrite elem_of_cons; split.
    - rewrite elem_of_union, elem_of_singleton. intros [[?|?]|(x & ? & ?)]; [right; exists e; auto|auto|right; exists x; tauto].
    - rewrite elem_of_union. intros [?|(x & [->|?] & ? & ?)]; [auto|left; left; set_solver|right; eauto].
    - intros [?|(x & ? & ?)]; [auto|right; exists x; tauto].
    - intros [?|(x & [->|?] & ? & ?)]; [auto|lia|right; eauto]. }
  rewrite G. set_solver.
Qed.

Definition taken (poisoned : gset Z) (c : Z) (q : list (PendingUpload Write)) : list (UploadFate * PendingUpload Write) :=
  omap (fun e => (fun f => (f, e)) <$> fate_of poisoned c e) q.

Lemma fate_empty c (e : PendingUpload Write) : fate_of ∅ c e = if c <? pu_seq e then None else Some Released.
Proof. unfold fate_of. rewrite bool_decide_false by set_solver. by destruct (c <? pu_seq e). Qed.

Lemma settle_spec (q : list (PendingUpload Write)) c f : in_order q ->
  settle q c f = (taken (poisoned_keys q f) c q, filter (fun e => fate_of (poisoned_keys q f) c e = None) q).
Proof.
  intros Hq. unfold settle. set (p := poisoned_keys q f). case_bool_decide as Ep.
  - rewrite Ep. destruct (front_run_upto q c Hq) as [-> ->]. unfold taken.
    pose proof (fate_empty c) as E.
    f_equal.
    + clear -E. induction q as [|e q IH]; [done|]. rewrite filter_cons. cbn [omap list_omap]. rewrite E.
      destruct (Z.ltb_spec c (pu_seq e)); [rewrite decide_False by lia; done|rewrite decide_True by lia; cbn; by f_equal].
    + apply list_filter_iff. intros e. rewrite E. destruct (Z.ltb_spec c (pu_seq e)); split; (done || lia).
  - assert (G : forall out kept, foldl (fun '(out, kept) e => match fate_of p c e with
        | None => (out, kept ++ [e]) | Some fate => (out ++ [(fate, e)], kept) end) (out, kept) q
      = (out ++ taken p c q, kept ++ filter (fun e => fate_of p c e = None) q)).
    { clear Ep. clearbody p. clear Hq. induction q as [|e q IH]; intros out kept; [simpl; by rewrite !app_nil_r|].
      cbn [foldl]. unfold taken. simpl. rewrite filter_cons. destruct (fate_of p c e) as [x|] eqn:E.
      - rewrite IH, decide_False by done. simpl. by rewrite <- app_assoc.
      - rewrite IH, decide_True by done. simpl. by rewrite <- app_assoc. }
    by rewrite G.
Qed.

(** The entries issued again, in order, under the frame's number. *)
Definition reissued (held : gset Z) (out : list (UploadFate * PendingUpload Write)) : list (PendingUpload Write) :=
  omap (fun '(f, e) => if bool_decide (f = Reissue /\ pu_key e ∈ held) then Some e else None) out.
Definition reissue_blit (d : gmap Z (Z * Z)) (e : PendingUpload Write) : Blit :=
  Put (pu_key e) (default (0, 0) (d !! pu_key e)).1 (pu_payload e).
Definition abandoned_keys (out : list (UploadFate * PendingUpload Write)) : gset Z :=
  list_to_set (omap (fun '(f, e) => if bool_decide (f = Abandoned) then Some (pu_key e) else None) out).
Definition again (s : Z) (e : PendingUpload Write) : PendingUpload Write :=
  mkPending (pu_key e) s (Z.min 255 (pu_attempts e + 1)) (pu_payload e).

Lemma record_blits_last cs fs cur : record_blits cs (fs ++ [cur]) = fs ++ [cur ++ cs].
Proof.
  unfold record_blits. rewrite last_snoc, length_app. simpl.
  replace (length fs + 1 - 1)%nat with (length fs) by lia. by rewrite take_app_length.
Qed.

(** The fold over what came out, all at once. *)
Record settled (w w' : World) (fs : list (list Blit)) (cur : list Blit) (out : list (UploadFate * PendingUpload Write)) : Prop := {
  st_queue : queue w' = queue w ++ (again (current_submit_seq w) <$> reissued (dom (device w)) out);
  st_frames : frames w' = fs ++ [cur ++ (reissue_blit (device w) <$> reissued (dom (device w)) out)];
  st_lost : lost w' = abandoned_keys out ∪ lost w;
  st_reissues : reissues w' = reissues w + Z.of_nat (length (reissued (dom (device w)) out));
  st_counters : begun w' = begun w /\ finished w' = finished w /\ coherent w' = coherent w /\ failed w' = failed w /\ uploads w' = uploads w;
  st_buffers : mem w' = mem w /\ device w' = device w /\ owner w' = owner w /\ intended w' = intended w /\ torn w' = torn w;
}.

Lemma settle_fold out : forall w fs cur, frames w = fs ++ [cur] -> settled w (foldl settle_entry w out) fs cur out.
Proof.
  induction out as [|[f e] out IH]; intros w fs cur E; cbn [foldl].
  - split; simpl; rewrite ?app_nil_r; try done; [set_solver|lia].
  - unfold settle_entry at 2. destruct f.
    + destruct (IH w fs cur E) as [Q F L R ? ?]. by split.
    + destruct (device w !! pu_key e) as [[h len]|] eqn:Hg.
      2:{ destruct (IH w fs cur E) as [Q F L R ? ?]. assert (Er : reissued (dom (device w)) ((Reissue, e) :: out) = reissued (dom (device w)) out).
          { unfold reissued. simpl. rewrite bool_decide_false; [done|]. intros [_ Hd]. by apply not_elem_of_dom in Hg. }
          split; rewrite ?Er; done. }
      assert (Er : reissued (dom (device w)) ((Reissue, e) :: out) = e :: reissued (dom (device w)) out).
      { unfold reissued. simpl. rewrite bool_decide_true; [done|]. split; [done|]. by apply elem_of_dom_2 in Hg. }
      set (w1 := mkWorld _ _ _ _ _ _ _ _ _ _ _ _ _ _).
      assert (E1 : frames w1 = fs ++ [cur ++ [Put (pu_key e) h (pu_payload e)]]) by (unfold w1; cbn; by rewrite E, record_blits_last).
      assert (Ec : current_submit_seq w1 = current_submit_seq w).
      { unfold current_submit_seq. rewrite E1, E, !length_app. done. }
      destruct (IH w1 fs _ E1) as [Q F L R Hr Hb]. split; rewrite ?Er; [| |done| |done|done].
      * rewrite Q, Ec. unfold w1, requeue, again. simpl. by rewrite <- app_assoc.
      * rewrite F. cbn [fmap list_fmap]. unfold reissue_blit at 2. rewrite Hg. simpl. by rewrite <- app_assoc.
      * rewrite R. simpl. lia.
    + set (w1 := mkWorld _ _ _ _ _ _ _ _ _ _ _ _ _ _).
      assert (E1 : frames w1 = fs ++ [cur]) by done.
      destruct (IH w1 fs cur E1) as [Q F L R ? ?]. split; try done. rewrite L. unfold abandoned_keys. simpl. set_solver.
Qed.

(** ** One buffer *)

Lemma writes_ext k P P' q : (forall e, e ∈ q -> pu_key e = k -> P (pu_seq e) = P' (pu_seq e)) -> writes k P q = writes k P' q.
Proof.
  intros H. unfold writes. f_equal. unfold entries. induction q as [|e q IH]; [done|]. rewrite !filter_cons.
  rewrite IH by (intros; apply H; [by right|done]). destruct (decide (pu_key e = k)) as [Ek|Ek].
  - rewrite (H e) by (done || by left). done.
  - by rewrite !decide_False by tauto.
Qed.

Lemma hit_writes_mono k P P' q b : (forall s, P s = true -> P' s = true) -> is_Some (hit (writes k P q) b) -> is_Some (hit (writes k P' q) b).
Proof.
  rewrite !hit_is_Some. intros HP (w & Hw & Hc). exists w. split; [|done]. apply elem_of_writes in Hw as (e & ? & ? & ? & ->).
  apply elem_of_writes. exists e. auto.
Qed.

Lemma hit_writes_None k P P' q b : (forall s, P s = true -> P' s = true) -> hit (writes k P' q) b = None -> hit (writes k P q) b = None.
Proof. intros HP H. apply eq_None_not_Some. intros Hs. apply (hit_writes_mono k P P') in Hs; [|done]. rewrite H in Hs. by destruct Hs. Qed.

(** A live frame holds the buffer's entries of its number; a stale one only
    repeats what later entries write again.  [B] are the bytes that are not
    torn, [m] the device buffer the finished submissions left. *)
Record key_inv (k : Z) (B : Z -> Prop) (q : list (PendingUpload Write)) (fws : list (list Write)) (fin fail : Z) (m i : Z -> Z) : Prop := {
  ki_intended : forall b, B b -> i b = default (m b) (hit (writes k all q) b);
  ki_done : (forall e, e ∈ q -> pu_key e = k -> fail < pu_seq e) ->
    forall b v, B b -> hit (writes k (after fin) q) b = None -> hit (writes k (upto fin) q) b = Some v -> m b = v;
  ki_frames : forall n f, fws !! n = Some f -> let s := fin + 1 + Z.of_nat n in
    f = writes k (Z.eqb s) q
    \/ (forall e, e ∈ q -> pu_key e = k -> s < pu_seq e)
       /\ forall w b, w ∈ f -> covered w b = true -> is_Some (hit (writes k all q) b);
  ki_last : forall f, last fws = Some f -> f = writes k (Z.eqb (fin + Z.of_nat (length fws))) q;
}.

Lemma key_inv_mono k (B B' : Z -> Prop) q fws fin fail m i :
  (forall b, B' b -> B b) -> key_inv k B q fws fin fail m i -> key_inv k B' q fws fin fail m i.
Proof. intros HB [J D F L]. split; [by auto|by eauto|done|done]. Qed.

Section key.
Context (k : Z) (B : Z -> Prop) (q : list (PendingUpload Write)) (fws : list (list Write)) (fin fail : Z) (m i : Z -> Z).
Context (Hq : in_order q) (Hk : key_inv k B q fws fin fail m i) (Hcur : forall e, e ∈ q -> pu_seq e <= fin + Z.of_nat (length fws)).

(** What a frame writes, its queue entries write. *)
Lemma frame_covered n f w b : fws !! n = Some f -> w ∈ f -> covered w b = true -> is_Some (hit (writes k all q) b).
Proof.
  intros Hf Hw Hc. destruct (ki_frames _ _ _ _ _ _ _ _ Hk n f Hf) as [->|[_ H]]; [|by apply (H w)].
  apply (hit_writes_mono k (Z.eqb (fin + 1 + Z.of_nat n)) all); [done|]. apply hit_is_Some. eauto.
Qed.

(** An upload joins the frame being recorded and the queue. *)
Lemma key_upload B' cur fs key w : fws = fs ++ [cur] -> (forall b, B' b -> B b \/ key = k /\ covered w b = true) ->
  key_inv k B' (push q key (fin + Z.of_nat (length fws)) w) (fs ++ [cur ++ (if decide (key = k) then [w] else [])]) fin fail
  m (if decide (key = k) then apply_write w i else i).
Proof.
  intros Ef HB. destruct Hk as [J D F L]. unfold push.
  assert (Hw : forall P, writes k P (q ++ [mkPending key (fin + Z.of_nat (length fws)) 0 w])
  = writes k P q ++ (if decide (key = k /\ P (fin + Z.of_nat (length fws)) = true) then [w] else [])) by (intros; by rewrite writes_app, writes_one).
  assert (Hlen : length fws = S (length fs)) by (rewrite Ef, length_app; simpl; lia).
  assert (Hlive : cur = writes k (Z.eqb (fin + Z.of_nat (length fws))) q) by (apply L; by rewrite Ef, last_snoc).
  split.
  - intros b [Hb|[Ek Hc]]%HB; rewrite Hw, hit_app.
    + destruct (decide (key = k)) as [Ek|Ek]; [|rewrite decide_False by tauto; by apply J].
      rewrite decide_True by done. unfold hit at 1, apply_write. cbn [foldl]. destruct (covered w b); [done|by apply J].
    + rewrite !decide_True by done. unfold hit at 1, apply_write. cbn [foldl]. by rewrite Hc.
  - intros Hfail b v HB'. rewrite !Hw, !hit_app, (decide_False (P := key = k /\ upto fin _ = true)).
    2: { intros [_ H]. apply Z.leb_le in H. lia. }
    cbn [hit foldl]. intros Hn Hv. destruct (HB b HB') as [Hb|[Ek Hc]].
    2: { rewrite decide_True in Hn by (split; [done|apply Z.ltb_lt; lia]). unfold hit at 1 in Hn. cbn [foldl] in Hn. by rewrite Hc in Hn. }
    apply (D (fun e He => Hfail e ltac:(rewrite elem_of_app; by left)) b v); [done| |done].
    destruct (decide _); [|done]. by destruct (hit [w] b).
  - intros n f Hf s. rewrite !Hw. destruct (decide (n = length fs)) as [->|Hn].
    + left. rewrite lookup_app_r, Nat.sub_diag in Hf by lia. injection Hf as <-. unfold s.
      replace (fin + 1 + Z.of_nat (length fs)) with (fin + Z.of_nat (length fws)) by lia. rewrite Hlive, Z.eqb_refl. f_equal.
      repeat case_decide; tauto.
    + assert (Hlt : (n < length fs)%nat) by (apply lookup_lt_Some in Hf; rewrite length_app in Hf; simpl in Hf; lia).
      rewrite lookup_app_l in Hf by done.
      rewrite decide_False by (intros [_ H]; apply Z.eqb_eq in H; unfold s in H; lia). rewrite app_nil_r.
      destruct (F n f) as [E|[E1 E2]]; [by rewrite Ef, lookup_app_l|by left|right]. split.
      * intros e He Eek. apply elem_of_app in He as [He|He%list_elem_of_singleton]; [by apply E1|subst e; simpl in *; unfold s; lia].
      * intros w' b Hw' Hc. rewrite hit_app. destruct (hit (if decide _ then _ else _) b); [by eexists|]. by apply (E2 w').
  - intros f. rewrite last_snoc. intros [= <-]. rewrite Hw, length_app. simpl.
    replace (fin + Z.of_nat (length fs + 1)) with (fin + Z.of_nat (length fws)) by lia. rewrite Hlive, Z.eqb_refl. f_equal.
    repeat case_decide; tauto.
Qed.

Lemma key_submit : key_inv k B q (fws ++ [[]]) fin fail m i.
Proof.
  destruct Hk as [J D F L].
  assert (Hnone : writes k (Z.eqb (fin + Z.of_nat (length fws) + 1)) q = []).
  { apply writes_none. intros e He _. apply Z.eqb_neq. specialize (Hcur e He). lia. }
  split; try done.
  - intros n f Hf s. destruct (decide (n < length fws)%nat); [apply F; by rewrite lookup_app_l in Hf|].
    left. assert (n = length fws) as -> by (apply lookup_lt_Some in Hf; rewrite length_app in Hf; simpl in Hf; lia).
    rewrite lookup_app_r, Nat.sub_diag in Hf by lia. injection Hf as <-. unfold s. rewrite <- Hnone. f_equal. f_equal. lia.
  - intros f. rewrite last_snoc, length_app. intros [= <-]. rewrite <- Hnone. f_equal. f_equal. simpl. lia.
Qed.
End key.

Section key_steps.
Context (k : Z) (B : Z -> Prop) (q q' : list (PendingUpload Write)) (fws : list (list Write)) (fin fail : Z) (m i : Z -> Z).
Context (Hq : in_order q) (Hk : key_inv k B q fws fin fail m i) (Hcur : forall e, e ∈ q -> pu_seq e <= fin + Z.of_nat (length fws)).

(** Acknowledged entries leave: nothing of what they wrote is owed any more. *)
Lemma key_release c : c <= fin -> (forall e, e ∈ q -> pu_key e = k -> fail < pu_seq e) ->
  (forall P, writes k P q' = writes k (fun s => P s && after c s) q) -> (forall e, e ∈ q' -> pu_key e = k -> e ∈ q) ->
  key_inv k B q' fws fin fail m i.
Proof.
  intros Hc Hfail Hw Hsub. destruct Hk as [J D F L].
  assert (Heq : forall s, fin < s -> forall x, Z.eqb s x && after c x = Z.eqb s x).
  { intros s Hs x. unfold after. destruct (Z.eqb_spec s x); [|done]. apply Z.ltb_lt. lia. }
  split.
  - intros b Hb. rewrite (J b Hb), (writes_split k all q c Hq), hit_app, Hw.
    destruct (hit (writes k (fun s => all s && after c s) q) b) as [v|] eqn:E; [done|].
    destruct (hit (writes k (fun s => all s && upto c s) q) b) as [v|] eqn:E'; [|done]. simpl. symmetry. apply (D Hfail b v Hb).
    + apply (hit_writes_None k (after fin) (fun s => all s && after c s)); [|done]. unfold after, all. intros s. rewrite !Z.ltb_lt. simpl. rewrite Z.ltb_lt. lia.
    + rewrite (writes_split k (upto fin) q c Hq), hit_app.
      rewrite (hit_writes_None k (fun s => upto fin s && after c s) (fun s => all s && after c s)); [|intros s H; by apply andb_prop in H as [_ ->]|done].
      rewrite <- E'. f_equal. apply writes_ext. intros e _ _. unfold upto, all. simpl. destruct (Z.leb_spec (pu_seq e) c); [|by rewrite andb_false_r].
      rewrite andb_true_r. apply Z.leb_le. lia.
  - intros _ b v Hb Hn Hv. apply (D Hfail b v Hb).
    + rewrite <- Hn, Hw. f_equal. apply writes_ext. intros e _ _. unfold after. destruct (Z.ltb_spec fin (pu_seq e)); [|done]. symmetry. apply Z.ltb_lt. lia.
    + rewrite Hw in Hv. by rewrite (writes_split k (upto fin) q c Hq), hit_app, Hv.
  - intros n f Hf s. assert (Hs : fin < s) by (unfold s; lia). destruct (F n f Hf) as [->|[E1 E2]]; [left|right].
    + rewrite Hw. apply writes_ext. intros e _ _. symmetry. by apply Heq.
    + split; [by eauto|]. intros w b Hwf Hcv. rewrite Hw. specialize (E2 w b Hwf Hcv).
      rewrite (writes_ext k all (fun s => all s && after c s)) in E2; [done|]. intros e He Ek. unfold all, after. simpl. symmetry. apply Z.ltb_lt.
      specialize (E1 e He Ek). unfold s in Hs. lia.
  - intros f Hf. rewrite (L f Hf), Hw. apply writes_ext. intros e _ _. symmetry. apply Heq.
    destruct fws; [done|]. simpl. lia.
Qed.

(** Every entry of the buffer is issued again, in order, in the empty frame. *)
Lemma key_reissue fs : fws = fs ++ [[]] ->
  (forall P, writes k P q' = if P (fin + Z.of_nat (length fws)) then writes k all q else []) ->
  (forall e, e ∈ q' -> pu_key e = k -> pu_seq e = fin + Z.of_nat (length fws)) ->
  key_inv k B q' (fs ++ [writes k all q]) fin fail m i.
Proof.
  intros Ef Hw Hseq. destruct Hk as [J D F L]. assert (Hlen : length fws = S (length fs)) by (rewrite Ef, length_app; simpl; lia).
  split.
  - intros b Hb. by rewrite Hw, (J b Hb).
  - intros _ b v _ _. rewrite Hw. unfold upto. rewrite (proj2 (Z.leb_gt _ _)) by lia. done.
  - intros n f Hf s. destruct (decide (n = length fs)) as [->|Hn].
    + left. rewrite lookup_app_r, Nat.sub_diag in Hf by lia. injection Hf as <-. rewrite Hw. by rewrite (proj2 (Z.eqb_eq s _)) by (unfold s; lia).
    + assert (Hlt : (n < length fs)%nat) by (apply lookup_lt_Some in Hf; rewrite length_app in Hf; simpl in Hf; lia).
      rewrite lookup_app_l in Hf by done. right. split.
      * intros e He Ek. rewrite (Hseq e He Ek). unfold s. lia.
      * intros w b Hwf Hc. rewrite Hw. apply (frame_covered k B q fws fin fail m i Hk n f w); [by rewrite Ef, lookup_app_l|done..].
  - intros f. rewrite last_snoc, length_app. intros [= <-]. rewrite Hw. simpl. rewrite (proj2 (Z.eqb_eq _ _)) by lia. done.
Qed.

(** The oldest submission is over.  What no queued upload writes is as it was;
    after a clean end what the submission wrote is there besides. *)
Lemma key_finish B' f rest m' fail' : fws = f :: rest -> rest <> [] -> (forall b, B' b -> B b) ->
  (forall b, B' b -> hit (writes k all q) b = None -> m' b = m b) ->
  (fail' = fail /\ forall b, B' b -> m' b = default (m b) (hit f b)) \/ fail' = fin + 1 ->
  key_inv k B' q rest (fin + 1) fail' m' i.
Proof.
  intros Ef Hrest HB Hsame Hran. destruct Hk as [J D F L].
  split.
  - intros b Hb. rewrite (J b (HB b Hb)). destruct (hit (writes k all q) b) eqn:E; [done|]. simpl. symmetry. by apply Hsame.
  - intros Hfail b v Hb Hn Hv. destruct Hran as [[-> Hm]| ->].
    2: { rewrite writes_none in Hv; [done|]. intros e He Ek. specialize (Hfail e He Ek). apply Z.leb_gt. lia. }
    rewrite (writes_split k (upto (fin + 1)) q fin Hq), hit_app in Hv.
    assert (E1 : writes k (fun s => upto (fin + 1) s && after fin s) q = writes k (Z.eqb (fin + 1)) q).
    { apply writes_ext. intros e _ _. unfold upto, after. destruct (Z.eqb_spec (fin + 1) (pu_seq e)) as [<-|]; [apply andb_true_intro; split; [apply Z.leb_le|apply Z.ltb_lt]; lia|].
      apply andb_false_iff. rewrite Z.leb_gt, Z.ltb_ge. lia. }
    assert (E2 : writes k (fun s => upto (fin + 1) s && upto fin s) q = writes k (upto fin) q).
    { apply writes_ext. intros e _ _. unfold upto. destruct (Z.leb_spec (pu_seq e) fin); [|by rewrite andb_false_r]. rewrite andb_true_r. apply Z.leb_le. lia. }
    rewrite E1, E2 in Hv. rewrite (Hm b Hb).
    destruct (F 0%nat f) as [E|[E _]]; [by rewrite Ef| |].
    + rewrite E. replace (fin + 1 + Z.of_nat 0) with (fin + 1) by lia. destruct (hit (writes k (Z.eqb (fin + 1)) q) b) as [v'|] eqn:Eh; [by injection Hv|]. simpl.
      apply (D Hfail b v (HB b Hb)); [|done]. rewrite (writes_split k (after fin) q (fin + 1) Hq), hit_app.
      rewrite (hit_writes_None k (fun s => after fin s && after (fin + 1) s) (after (fin + 1))); [|intros s H; by apply andb_prop in H as [_ ->]|done].
      rewrite <- Eh. f_equal. rewrite <- E1. apply writes_ext. intros e _ _. by rewrite andb_comm.
    + rewrite (writes_none k (Z.eqb (fin + 1))), (writes_none k (upto fin)) in Hv; [done| |];
      intros e He Ek; specialize (E e He Ek); [apply Z.leb_gt|apply Z.eqb_neq]; lia.
  - intros n g Hg s. assert (Es : s = fin + 1 + Z.of_nat (S n)) by (unfold s; lia). rewrite Es. apply F. by rewrite Ef.
  - intros g Hg. rewrite (L g); [f_equal; f_equal; rewrite Ef; simpl; lia|]. rewrite Ef. by destruct rest.
Qed.
End key_steps.

(** ** Where a key's blits go

    A buffer's device buffer moves by the copies of renames, and by uploads that
    replace all of it; every blit of the key is aimed at where it is by then. *)

Section chain.
Context (k len : Z) (own : gmap Z Z).

Fixpoint chain (c : Z) (cs : list Blit) (e : Z) : Prop :=
  match cs with
  | [] => c = e
  | cmd :: cs' =>
    if decide (blit_key cmd = k) then
    match cmd with
    | Copy _ src d l => src = c /\ l = len /\ chain d cs' e
    | Put _ d wr => (d = c \/ wr_off wr = 0 /\ wr_len wr = len) /\ chain d cs' e
    end
    else chain c cs' e
  end.

Lemma chain_app c l1 l2 e : chain c (l1 ++ l2) e <-> exists p, chain c l1 p /\ chain p l2 e.
Proof.
  revert c. induction l1 as [|cmd l1 IH]; intros c; cbn [chain app].
  - split; [intros H; by exists c|]. by intros (p & -> & H).
  - destruct (decide (blit_key cmd = k)); [|apply IH]. destruct cmd as [k' src d l|k' d wr]; rewrite IH; naive_solver.
Qed.

Lemma chain_other c cs : (forall cmd, cmd ∈ cs -> blit_key cmd <> k) -> chain c cs c.
Proof.
  induction cs as [|cmd cs IH]; intros H; [done|]. cbn [chain]. rewrite decide_False by (apply H; by left).
  apply IH. intros x Hx. apply H. by right.
Qed.

Lemma chain_stay h cs : (forall c, c ∈ cs -> blit_key c = k -> exists wr, c = Put k h wr) -> chain h cs h.
Proof.
  induction cs as [|cmd cs IH]; intros H; [done|]. assert (Hcs : chain h cs h) by (apply IH; intros c Hc; apply H; by right).
  cbn [chain]. destruct (decide (blit_key cmd = k)) as [Hk|]; [|done]. destruct (H cmd (list_elem_of_here _ _) Hk) as [wr ->]. auto.
Qed.

Lemma chain_fun cs : forall c e e', chain c cs e -> chain c cs e' -> e = e'.
Proof.
  induction cs as [|cmd cs IH]; intros c e e'; cbn [chain]; [congruence|]. destruct (decide (blit_key cmd = k)); [|apply IH].
  destruct cmd; [intros (_ & _ & ?) (_ & _ & ?)|intros [_ ?] [_ ?]]; by eapply IH.
Qed.

Definition owned (cs : list Blit) : Prop := forall cmd, cmd ∈ cs -> own !! blit_dst cmd = Some (blit_key cmd).

(** Once the blits have run, the device buffer the key moved to holds what the
first one held with the uploads in order over it. *)
Lemma chain_run cs : forall c e m, chain c cs e -> owned cs -> own !! c = Some k ->
  own !! e = Some k
  /\ forall b, 0 <= b < len -> run_blits m cs e b = default (m c b) (hit (frame_writes k cs) b).
Proof.
  induction cs as [|cmd cs IH]; intros c e m Hch Ho Hc; [cbn in Hch; subst e; by split|].
  assert (Hd : own !! blit_dst cmd = Some (blit_key cmd)) by (apply Ho; by left).
  assert (Ho' : owned cs) by (intros x Hx; apply Ho; by right).
  cbn [chain] in Hch. destruct (decide (blit_key cmd = k)) as [Hk|Hk].
  - destruct cmd as [k' src d l|k' d wr]; cbn [blit_key blit_dst] in *; subst k'.
    + destruct Hch as (-> & -> & Hch). destruct (IH d e (run_blit m (Copy k c d len)) Hch Ho' Hd) as [He Hr]. split; [done|].
      intros b Hb. unfold run_blits in *. cbn [foldl]. rewrite Hr by done. unfold run_blit at 1. cbn [blit_dst]. rewrite Z.eqb_refl.
      by rewrite (proj2 (Z.leb_le _ _)), (proj2 (Z.ltb_lt _ _)) by lia.
    + destruct Hch as [Hw Hch]. destruct (IH d e (run_blit m (Put k d wr)) Hch Ho' Hd) as [He Hr]. split; [done|].
      intros b Hb. unfold run_blits in *. cbn [foldl]. rewrite Hr by done. unfold run_blit at 1. cbn [blit_dst]. rewrite Z.eqb_refl.
      unfold frame_writes. cbn [omap list_omap put_of]. rewrite decide_True by done.
      change (hit (wr :: omap (put_of k) cs) b) with (hit ([wr] ++ frame_writes k cs) b). rewrite hit_app. fold (frame_writes k cs).
      destruct (hit (frame_writes k cs) b) as [v|]; [done|]. cbn [default from_option]. unfold hit, apply_write. cbn [foldl].
      destruct (covered wr b) eqn:Ec; [done|]. destruct Hw as [->|[H1 H2]]; [done|]. exfalso. unfold covered in Ec. rewrite H1, H2 in Ec.
      apply andb_false_iff in Ec as [Ec|Ec]; reflect_cmp; lia.
  - destruct (IH c e (run_blit m cmd) Hch Ho' Hc) as [He Hr]. split; [done|]. intros b Hb. unfold run_blits in *. cbn [foldl]. rewrite Hr by done.
    assert (blit_dst cmd <> c) as Hne by (intros E; rewrite E, Hc in Hd; congruence).
    unfold run_blit at 1. rewrite (proj2 (Z.eqb_neq c (blit_dst cmd))) by congruence. f_equal.
    unfold frame_writes. cbn [omap list_omap]. destruct cmd as [|k' d wr]; [done|]. cbn [put_of blit_key] in *. by rewrite decide_False.
Qed.

(** Without a copy among them the blits end where they began, or one of them
replaces the whole buffer. *)
Lemma chain_puts cs : forall c e, chain c cs e -> drops_copy k cs = false ->
  e = c \/ exists wr, wr ∈ frame_writes k cs /\ forall b, 0 <= b < len -> covered wr b = true.
Proof.
  induction cs as [|cmd cs IH]; intros c e Hch Hd; [by left|]. cbn [chain] in Hch. unfold drops_copy in Hd. cbn [existsb] in Hd.
  apply orb_false_iff in Hd as [Hd1 Hd2]. fold (drops_copy k cs) in Hd2.
  assert (Hsub : forall wr, wr ∈ frame_writes k cs -> wr ∈ frame_writes k (cmd :: cs)).
  { intros wr (d & Hin)%elem_of_frame_writes. apply elem_of_frame_writes. exists d. by right. }
  destruct (decide (blit_key cmd = k)) as [Hk|Hk].
  - destruct cmd as [k' src d l|k' d wr]; cbn [blit_key] in Hk; subst k'; [by rewrite Z.eqb_refl in Hd1|].
    destruct Hch as [Hw Hch]. destruct (IH d e Hch Hd2) as [->|(w & Hw' & Hall)]; [|right; eauto].
    destruct Hw as [->|[H1 H2]]; [by left|right]. exists wr. split; [apply elem_of_frame_writes; exists d; by left|].
    intros b Hb. unfold covered. rewrite H1, H2. apply andb_true_intro. split; [apply Z.leb_le|apply Z.ltb_lt]; lia.
  - destruct (IH c e Hch Hd2) as [->|(w & Hw' & Hall)]; [by left|right; eauto].
Qed.
End chain.

Lemma unqueued_false q k b : unqueued q k b = false -> is_Some (hit (writes k all q) b).
Proof.
  intros H. apply hit_is_Some. unfold unqueued in H. apply not_true_iff_false in H.
  assert (exists e, e ∈ q /\ pu_key e = k /\ covered (pu_payload e) b = true) as (e & He & Hk & Hc).
  { induction q as [|e q IH]; [by destruct H|]. cbn [forallb] in H.
    destruct ((pu_key e =? k) && covered (pu_payload e) b) eqn:E.
    - apply andb_true_iff in E as [E1 E2]. exists e. split; [by left|]. split; [by apply Z.eqb_eq|done].
    - cbn [negb andb] in H. destruct (IH H) as (e' & ? & ?). exists e'. split; [by right|done]. }
  exists (pu_payload e). split; [|done]. apply elem_of_writes. by exists e.
Qed.

(** ** The whole encoder *)

Definition budget (q : list (PendingUpload Write)) : Z := zsum ((fun e => MAX_REISSUE_ATTEMPTS - pu_attempts e) <$> q).

Record world_ok (w : World) : Prop := {
  wo_frames : exists fs cur, frames w = fs ++ [cur] /\ (begun w = false -> cur = []);
  wo_counters : 0 <= coherent w <= finished w /\ 0 <= failed w <= finished w;
  wo_order : in_order (queue w);
  wo_seqs : forall e, e ∈ queue w -> 1 <= pu_seq e <= current_submit_seq w;
  wo_attempts : forall e, e ∈ queue w -> 0 <= pu_attempts e <= MAX_REISSUE_ATTEMPTS;
  wo_budget : reissues w + budget (queue w) <= MAX_REISSUE_ATTEMPTS * uploads w;
}.

(** The bytes of a buffer no abort took. *)
Definition whole (w : World) (k len b : Z) : Prop := 0 <= b < len /\ torn w k b = false.

Definition key_ok (w : World) (k h len : Z) : Prop :=
  exists c, chain k len c (concat (frames w)) h /\ owner w !! c = Some k
  /\ key_inv k (whole w k len) (queue w) (frame_writes k <$> frames w) (finished w) (failed w) (mem w c) (intended w k).

Record keys_ok (w : World) : Prop := {
  ko_device : forall k h len, device w !! k = Some (h, len) -> owner w !! h = Some k;
  ko_owned : owned (owner w) (concat (frames w));
  ko_puts : forall f c, f ∈ frames w -> c ∈ f -> exists d wr, Put (blit_key c) d wr ∈ f /\ 0 < wr_len wr;
  ko_lens : forall e, e ∈ queue w -> 0 < wr_len (pu_payload e);
  ko_keys : forall k h len, device w !! k = Some (h, len) -> k ∉ lost w -> key_ok w k h len;
}.

Lemma budget_app q r : budget (q ++ r) = budget q + budget r.
Proof. unfold budget. by rewrite fmap_app, zsum_app. Qed.

Lemma in_order_app q r c : in_order q -> (forall e, e ∈ q -> pu_seq e <= c) -> (forall e, e ∈ r -> pu_seq e = c) -> in_order (q ++ r).
Proof.
  intros Hq Hle. induction r as [|e r IH] using rev_ind; intros Hr; [by rewrite app_nil_r|]. rewrite app_assoc. apply in_order_snoc.
  - apply IH. intros x Hx. apply Hr, elem_of_app. auto.
  - intros x Hx. rewrite (Hr e) by (apply elem_of_app; right; by apply list_elem_of_singleton).
    apply elem_of_app in Hx as [Hx|Hx]; [by apply Hle|]. rewrite (Hr x); [done|apply elem_of_app; auto].
Qed.

Section out.
Context (p held : gset Z) (c : Z).

Lemma taken_cons e (q : list (PendingUpload Write)) :
  taken p c (e :: q) = match fate_of p c e with Some f => (f, e) :: taken p c q | None => taken p c q end.
Proof. unfold taken. simpl. by destruct (fate_of p c e). Qed.

Lemma reissued_cons f e l : reissued held ((f, e) :: l) = if bool_decide (f = Reissue /\ pu_key e ∈ held) then e :: reissued held l else reissued held l.
Proof. unfold reissued. simpl. by destruct (bool_decide _). Qed.

Lemma writes_cons k P (e : PendingUpload Write) q : writes k P (e :: q) = writes k P [e] ++ writes k P q.
Proof. apply (writes_app k P [e]). Qed.

Lemma elem_of_reissued e (q : list (PendingUpload Write)) :
  e ∈ reissued held (taken p c q) -> e ∈ q /\ fate_of p c e = Some Reissue /\ pu_key e ∈ held.
Proof.
  unfold reissued, taken. rewrite list_elem_of_omap. intros ([f e'] & Hin & Hb). case_bool_decide as Hb'; [|done]. injection Hb as ->.
  destruct Hb' as [-> ?]. apply list_elem_of_omap in Hin as (e' & He' & Hf). destruct (fate_of p c e') eqn:E; [|done]. injection Hf as -> ->. done.
Qed.

Lemma fate_unowed (e : PendingUpload Write) : pu_key e ∉ p -> fate_of p c e = if c <? pu_seq e then None else Some Released.
Proof. intros. unfold fate_of. rewrite bool_decide_false by done. simpl. by destruct (c <? pu_seq e). Qed.

Lemma fate_owed (e : PendingUpload Write) : pu_key e ∈ p -> fate_of p c e = Some (if MAX_REISSUE_ATTEMPTS <=? pu_attempts e then Abandoned else Reissue).
Proof. intros. unfold fate_of. rewrite bool_decide_true by done. simpl. by destruct (_ <=? _). Qed.

Lemma fate_reissue (e : PendingUpload Write) : fate_of p c e = Some Reissue -> pu_key e ∈ p /\ pu_attempts e < MAX_REISSUE_ATTEMPTS.
Proof.
  destruct (decide (pu_key e ∈ p)); [rewrite fate_owed by done|rewrite fate_unowed by done; by destruct (c <? pu_seq e)].
  destruct (Z.leb_spec MAX_REISSUE_ATTEMPTS (pu_attempts e)); [done|auto].
Qed.

(** A buffer nothing of which failed keeps what is not acknowledged. *)
Lemma kept_unowed k P (q : list (PendingUpload Write)) : k ∉ p ->
  writes k P (filter (fun e => fate_of p c e = None) q) = writes k (fun s => P s && after c s) q.
Proof.
  intros Hk. unfold writes, entries. f_equal. rewrite list_filter_filter. apply list_filter_iff. intros e. rewrite andb_true_iff. unfold after.
  split; [intros [[Ek ?] Hn]|intros (Ek & ? & Hn)]; rewrite (fate_unowed e) in * by congruence; destruct (c <? pu_seq e); naive_solver.
Qed.

Lemma kept_owed k P (q : list (PendingUpload Write)) : k ∈ p -> writes k P (filter (fun e => fate_of p c e = None) q) = [].
Proof. intros Hk. apply writes_none. intros e He Ek. apply list_elem_of_filter in He as [He _]. rewrite fate_owed in He by congruence. done. Qed.

Lemma again_writes k P s (l : list (PendingUpload Write)) :
  writes k P (again s <$> l) = if P s then writes k all l else [].
Proof.
  induction l as [|e l IH]; [by destruct (P s)|]. change (again s <$> e :: l) with ([again s e] ++ (again s <$> l)). change (e :: l) with ([e] ++ l).
  rewrite !writes_app, IH, !writes_one. unfold again at 1 2 3, all. simpl. destruct (P s); repeat case_decide; naive_solver.
Qed.

Lemma frame_of_reissued d k (l : list (PendingUpload Write)) : frame_writes k (reissue_blit d <$> l) = writes k all l.
Proof.
  induction l as [|e l IH]; [done|]. change (e :: l) with ([e] ++ l). rewrite fmap_app, frame_writes_app, writes_app, IH, writes_one.
  cbn [fmap list_fmap]. unfold reissue_blit at 1. rewrite frame_writes_one. unfold all. repeat case_decide; naive_solver.
Qed.

Lemma reissued_unowed k (q : list (PendingUpload Write)) : k ∉ p -> writes k all (reissued held (taken p c q)) = [].
Proof.
  intros Hk. apply writes_none. intros e He Ek. apply elem_of_reissued in He as (_ & He & _). rewrite fate_unowed in He by congruence.
  by destruct (c <? pu_seq e).
Qed.

(** A buffer something of which failed is issued again as a whole, unless an
entry of it is out of attempts. *)
Lemma reissued_owed k (q : list (PendingUpload Write)) : k ∈ p -> k ∈ held -> k ∉ abandoned_keys (taken p c q) ->
  writes k all (reissued held (taken p c q)) = writes k all q.
Proof.
  intros Hp Hg Ha.
  assert (Hatt : forall e, e ∈ q -> pu_key e = k -> fate_of p c e = Some Reissue).
  { intros e He Ek. rewrite fate_owed by congruence. destruct (Z.leb_spec MAX_REISSUE_ATTEMPTS (pu_attempts e)); [|done].
    destruct Ha. unfold abandoned_keys. apply elem_of_list_to_set, list_elem_of_omap. exists (Abandoned, e). split.
    - apply list_elem_of_omap. exists e. split; [done|]. rewrite fate_owed by congruence. by rewrite (proj2 (Z.leb_le _ _)).
    - rewrite bool_decide_true by done. by rewrite Ek. }
  clear Ha. induction q as [|e q IH]; [done|]. rewrite (writes_cons k all e q), <- IH by (intros; apply Hatt; [by right|done]).
  rewrite taken_cons, (writes_one k all e). destruct (decide (pu_key e = k /\ all (pu_seq e) = true)) as [[Ek _]|Ek].
  - rewrite (Hatt e), reissued_cons, bool_decide_true by (done || (by left) || (split; [done|congruence])).
    by rewrite writes_cons, writes_one, decide_True.
  - destruct (fate_of p c e) as [f|]; [|done]. rewrite reissued_cons. destruct (bool_decide _); [|done].
    by rewrite writes_cons, writes_one, decide_False.
Qed.

Lemma reissued_budget (q : list (PendingUpload Write)) : (forall e, e ∈ q -> pu_attempts e <= MAX_REISSUE_ATTEMPTS) ->
  budget (filter (fun e => fate_of p c e = None) q) + budget (reissued held (taken p c q)) <= budget q.
Proof.
  induction q as [|e q IH]; intros Ha; [done|]. specialize (IH (fun x Hx => Ha x (list_elem_of_further _ _ _ Hx))).
  pose proof (Ha e ltac:(by left)). rewrite filter_cons, taken_cons.
  assert (Hb : forall l, budget (e :: l) = MAX_REISSUE_ATTEMPTS - pu_attempts e + budget l) by done. rewrite (Hb q).
  destruct (fate_of p c e) as [f|] eqn:E.
  - rewrite decide_False, reissued_cons by done. destruct (bool_decide _); [rewrite Hb|]; lia.
  - rewrite decide_True, Hb by done. lia.
Qed.
End out.

(** ** Every step keeps the invariant *)

Lemma seq_bound w : world_ok w -> forall e, e ∈ queue w -> forall k, pu_seq e <= finished w + Z.of_nat (length (frame_writes k <$> frames w)).
Proof. intros Hw e He k. rewrite length_fmap. by apply (wo_seqs _ Hw). Qed.

Lemma again_budget s l : (forall e, e ∈ l -> 0 <= pu_attempts e < MAX_REISSUE_ATTEMPTS) ->
  budget (again s <$> l) = budget l - Z.of_nat (length l).
Proof.
  induction l as [|e l IH]; intros Hl; [done|].
  assert (Hc : forall x l, budget (x :: l) = MAX_REISSUE_ATTEMPTS - pu_attempts x + budget l) by done.
  change (again s <$> e :: l) with (again s e :: (again s <$> l)). rewrite !Hc, IH by (intros; apply Hl; by right).
  specialize (Hl e ltac:(by left)). cbn [again pu_attempts length]. unfold MAX_REISSUE_ATTEMPTS in *. lia.
Qed.

(** *** Uploads *)

Lemma upload_eq w key wr renamed h len : device w !! key = Some (h, len) ->
  exists dst pre, upload w key wr renamed
    = mkWorld (push (queue w) key (current_submit_seq w) wr) (record_blits (pre ++ [Put key dst wr]) (frames w))
        (begun w) (finished w) (coherent w) (failed w) (mem w) (<[key := (dst, len)]> (device w)) (<[dst := key]> (owner w)) (lost w)
        (store (intended w) key wr) (fun k b => torn w k b && negb ((k =? key) && covered wr b)) (uploads w + 1) (reissues w)
  /\ (pre = [] /\ dst = h \/ renamed = Some dst /\ (pre = [Copy key h dst len] \/ pre = [] /\ wr_off wr = 0 /\ wr_len wr = len)).
Proof.
  intros Hd. unfold upload. rewrite Hd. destruct renamed as [fresh|].
  - destruct (stage_upload_needs_preserve len (wr_off wr) (wr_len wr)) eqn:Ep.
    + exists fresh, [Copy key h fresh len]. split; [done|]. right. auto.
    + apply needs_preserve_false in Ep. exists fresh, []. split; [done|]. right. auto.
  - exists h, []. split; [done|]. by left.
Qed.

Lemma upload_ok w key wr renamed : world_ok w -> begun w = true -> world_ok (upload w key wr renamed).
Proof.
  intros Hw Hb. pose proof Hw as [(fs & cur & Ef & _) Hc Ho Hs Ha Hbud].
  destruct (device w !! key) as [[h len]|] eqn:Hd; [|unfold upload; by rewrite Hd].
  destruct (upload_eq w key wr renamed h len Hd) as (dst & pre & -> & _).
  assert (Ecur : current_submit_seq w = finished w + Z.of_nat (length (frames w))) by done.
  assert (Ef' : record_blits (pre ++ [Put key dst wr]) (frames w) = fs ++ [cur ++ pre ++ [Put key dst wr]]) by (by rewrite Ef, record_blits_last).
  assert (Hlen : length (record_blits (pre ++ [Put key dst wr]) (frames w)) = length (frames w)) by (rewrite Ef', Ef, !length_app; done).
  split; cbn [frames begun coherent finished failed queue reissues uploads].
  - exists fs, (cur ++ pre ++ [Put key dst wr]). split; [done|congruence].
  - done.
  - apply in_order_snoc; [done|]. intros e He. apply (Hs e He).
  - intros e He. unfold current_submit_seq. cbn [frames finished]. rewrite Hlen. fold (current_submit_seq w).
    apply elem_of_app in He as [He|He%list_elem_of_singleton]; [by apply Hs|]. subst e. simpl. rewrite Ecur, Ef, length_app. simpl. lia.
  - intros e He. apply elem_of_app in He as [He|He%list_elem_of_singleton]; [by apply Ha|]. subst e. simpl. unfold MAX_REISSUE_ATTEMPTS. lia.
  - unfold push. rewrite budget_app. assert (E : forall s, budget [mkPending key s 0 wr] = MAX_REISSUE_ATTEMPTS) by done. rewrite E. lia.
Qed.

Lemma owner_grow (o : gmap Z Z) d key x y : o !! d = None \/ o !! d = Some key -> o !! x = Some y -> <[d := key]> o !! x = Some y.
Proof. intros Hd Hx. rewrite lookup_insert. case_decide as E; [|done]. subst x. destruct Hd; congruence. Qed.

Lemma owned_grow (o o' : gmap Z Z) cs : (forall x y, o !! x = Some y -> o' !! x = Some y) -> owned o cs -> owned o' cs.
Proof. intros Ho H c Hc. by apply Ho, H. Qed.

Lemma concat_snoc (fs : list (list Blit)) cur : concat (fs ++ [cur]) = concat fs ++ cur.
Proof. by rewrite concat_app; cbn [concat]; rewrite app_nil_r. Qed.

Lemma upload_keys w key wr renamed : world_ok w -> keys_ok w -> upload_fits w key wr renamed = true -> keys_ok (upload w key wr renamed).
Proof.
  intros Hw Hk Hfit. pose proof Hw as [(fs & cur & Ef & _) Hc Ho Hs Ha Hbud]. pose proof Hk as [Kd Ko Kp Kl Kk].
  unfold upload_fits in Hfit. destruct (device w !! key) as [[h len]|] eqn:Hd; [|unfold upload; by rewrite Hd].
  rewrite !andb_true_iff in Hfit. destruct Hfit as [[[H1 H2] H3] H4]. reflect_cmp.
  destruct (upload_eq w key wr renamed h len Hd) as (dst & pre & -> & Hpre).
  assert (Hdst : owner w !! dst = None \/ owner w !! dst = Some key).
  { destruct Hpre as [[_ ->]|[-> _]]; [right; by eapply Kd|left; by apply bool_decide_eq_true in H4]. }
  assert (Hgrow : forall x y, owner w !! x = Some y -> <[dst := key]> (owner w) !! x = Some y) by (intros; by apply owner_grow).
  assert (Hown : <[dst := key]> (owner w) !! dst = Some key) by apply lookup_insert_eq.
  assert (Hkeys : forall c, c ∈ pre ++ [Put key dst wr] -> blit_key c = key /\ blit_dst c = dst).
  { intros c [Hin|Hin%list_elem_of_singleton]%elem_of_app; [|by subst c].
    destruct Hpre as [[-> _]|[_ [->|[-> _]]]]; [by apply not_elem_of_nil in Hin| |by apply not_elem_of_nil in Hin].
    apply list_elem_of_singleton in Hin. by subst c. }
  assert (Ef' : record_blits (pre ++ [Put key dst wr]) (frames w) = fs ++ [cur ++ pre ++ [Put key dst wr]]) by (by rewrite Ef, record_blits_last).
  assert (Ecat : concat (fs ++ [cur ++ pre ++ [Put key dst wr]]) = concat (frames w) ++ pre ++ [Put key dst wr]).
  { by rewrite Ef, !concat_snoc, app_assoc. }
  split; unfold key_ok; cbn [frames finished failed queue mem device owner lost intended].
  - intros k h' l. rewrite lookup_insert. case_decide; intros; simplify_eq; [done|]. apply Hgrow. by eapply Kd.
  - rewrite Ef', Ecat. intros c [Hin|Hin]%elem_of_app; [by apply Hgrow, Ko|].
    destruct (Hkeys c Hin) as [-> ->]. done.
  - rewrite Ef'. intros f c [Hf|Hf%list_elem_of_singleton]%elem_of_app Hin.
    + apply (Kp f c); [rewrite Ef; apply elem_of_app; by left|done].
    + subst f. apply elem_of_app in Hin as [Hin|Hin].
      * destruct (Kp cur c) as (d & wr' & Hp & ?); [rewrite Ef; apply elem_of_app; right; by apply list_elem_of_singleton|done|].
        exists d, wr'. split; [apply elem_of_app; by left|done].
      * destruct (Hkeys c Hin) as [-> _]. exists dst, wr. split; [|done]. apply elem_of_app. right. apply elem_of_app. right. by left.
  - intros e [He|He%list_elem_of_singleton]%elem_of_app; [by apply Kl|by subst e].
  - intros k h' l. rewrite lookup_insert. intros Hdk Hl. rewrite Ef', Ecat. case_decide as Ek.
    + subst k. injection Hdk as <- <-. rename len into l. destruct (Kk key h l Hd Hl) as (c & Hch & Hoc & Hki). exists c. split; [|split; [by apply Hgrow|]].
      * apply chain_app. exists h. split; [done|].
        destruct Hpre as [[-> ->]|[_ [->|(-> & E1 & E2)]]]; cbn [app chain blit_key]; rewrite ?decide_True by done; auto.
      * rewrite Ef, fmap_app in Hki. cbn [fmap list_fmap] in Hki.
        pose proof (key_upload key _ (queue w) _ _ _ _ _ Hki (fun b => 0 <= b < l /\ torn w key b && negb ((key =? key) && covered wr b) = false)
          (frame_writes key cur) (frame_writes key <$> fs) key wr eq_refl) as H.
        rewrite length_app, length_fmap in H. unfold current_submit_seq. rewrite Ef, length_app, fmap_app. cbn [fmap list_fmap].
        rewrite !frame_writes_app.
        assert (frame_writes key pre = []) as ->.
        { destruct Hpre as [[-> _]|[_ [->|[-> _]]]]; done. }
        rewrite frame_writes_one. cbn [app]. unfold store. rewrite Z.eqb_refl. rewrite !decide_True in H by done. rewrite ?decide_True by done. apply H.
        rewrite Z.eqb_refl. intros b [Hb Ht]. unfold whole. destruct (covered wr b); [by right|left]. by rewrite andb_true_r in Ht.
    + destruct (Kk k h' l Hdk Hl) as (c & Hch & Hoc & Hki). exists c. split; [|split; [by apply Hgrow|]].
      * apply chain_app. exists h'. split; [done|]. apply chain_other. intros x Hx. by destruct (Hkeys x Hx) as [-> _].
      * rewrite Ef, fmap_app in Hki. cbn [fmap list_fmap] in Hki.
        pose proof (key_upload k _ (queue w) _ _ _ _ _ Hki (whole w k l) (frame_writes k cur) (frame_writes k <$> fs) key wr eq_refl) as H.
        rewrite length_app, length_fmap in H. unfold current_submit_seq. rewrite Ef, length_app, fmap_app. cbn [fmap list_fmap].
        rewrite !frame_writes_app.
        assert (frame_writes k pre = []) as ->.
        { destruct Hpre as [[-> _]|[_ [->|[-> _]]]]; done. }
        rewrite frame_writes_one. cbn [app]. unfold store. rewrite (proj2 (Z.eqb_neq k key)) by congruence.
        rewrite !decide_False in H by done. rewrite ?decide_False by done.
        eapply key_inv_mono; [|apply H; auto]. intros b [Hb Ht]. split; [done|]. cbn [torn] in Ht.
        rewrite (proj2 (Z.eqb_neq k key)) in Ht by congruence. cbn in Ht. by rewrite andb_true_r in Ht.
Qed.

(** *** Submissions and settlements *)

Lemma submit_ok w : world_ok w -> begun w = true ->
  world_ok (mkWorld (queue w) (frames w ++ [[]]) false (finished w) (coherent w) (failed w) (mem w) (device w) (owner w) (lost w)
              (intended w) (torn w) (uploads w) (reissues w)).
Proof.
  intros Hw Hb. pose proof Hw as [(fs & cur & Ef & _) Hc Ho Hs Ha Hbud].
  split; cbn [frames begun coherent finished failed queue reissues uploads]; try done.
  - by exists (frames w), [].
  - intros e He. specialize (Hs e He). unfold current_submit_seq in *. cbn [frames finished]. rewrite length_app. simpl. lia.
Qed.

Lemma submit_keys w : world_ok w -> keys_ok w ->
  keys_ok (mkWorld (queue w) (frames w ++ [[]]) false (finished w) (coherent w) (failed w) (mem w) (device w) (owner w) (lost w)
              (intended w) (torn w) (uploads w) (reissues w)).
Proof.
  intros Hw [Kd Ko Kp Kl Kk].
  split; unfold key_ok; cbn [frames finished failed queue mem device owner lost intended]; try done.
  - rewrite concat_snoc, app_nil_r. done.
  - intros f c [Hf|Hf%list_elem_of_singleton]%elem_of_app Hin; [by apply (Kp f)|]. subst f. by apply not_elem_of_nil in Hin.
  - intros k h len Hd Hl. destruct (Kk k h len Hd Hl) as (c & Hch & Hoc & Hki). exists c. rewrite concat_snoc, app_nil_r, fmap_app.
    split; [done|]. split; [done|]. apply key_submit; [exact Hki|]. intros e He. by apply seq_bound.
Qed.

Section settle.
Context (w : World) (Hw : world_ok w) (Hb : begun w = false).

Let p := poisoned_keys (queue w) (failed w).
Let kept := filter (fun e => fate_of p (coherent w) e = None) (queue w).
Let re := reissued (dom (device w)) (taken p (coherent w) (queue w)).

(** A settlement, field by field. *)
Lemma settle_fields : exists fs, frames w = fs ++ [[]] /\ let w' := settle_stage_uploads w in
  queue w' = kept ++ (again (current_submit_seq w) <$> re)
  /\ frames w' = fs ++ [reissue_blit (device w) <$> re]
  /\ lost w' = abandoned_keys (taken p (coherent w) (queue w)) ∪ lost w
  /\ reissues w' = reissues w + Z.of_nat (length re)
  /\ (begun w' = true /\ finished w' = finished w /\ coherent w' = coherent w /\ failed w' = failed w /\ uploads w' = uploads w)
  /\ (mem w' = mem w /\ device w' = device w /\ owner w' = owner w /\ intended w' = intended w /\ torn w' = torn w)
  /\ current_submit_seq w' = current_submit_seq w.
Proof.
  pose proof Hw as [(fs & cur & Ef & Hcur) Hc Ho Hs Ha Hbud]. specialize (Hcur Hb). subst cur. exists fs. split; [done|]. cbn zeta.
  unfold settle_stage_uploads. rewrite (settle_spec _ _ _ Ho). fold p. fold kept. set (w0 := with_queue w kept true).
  destruct (settle_fold (taken p (coherent w) (queue w)) w0 fs [] Ef) as [Q F L R C Bf].
  set (w' := foldl _ _ _) in *. cbn [w0 with_queue queue device lost reissues begun finished coherent failed mem owner intended torn uploads] in *.
  assert (Ec : current_submit_seq w0 = current_submit_seq w) by done. rewrite Ec in Q.
  split_and!; try done; try apply C; try apply Bf.
  unfold current_submit_seq. destruct C as (_ & E & _). rewrite F, Ef, E, !length_app. done.
Qed.

Lemma settle_re e : e ∈ re -> e ∈ queue w /\ 0 <= pu_attempts e < MAX_REISSUE_ATTEMPTS /\ pu_key e ∈ dom (device w).
Proof.
  intros He. apply elem_of_reissued in He as (He & Hf & Hd). split; [done|]. pose proof (wo_attempts _ Hw e He).
  apply fate_reissue in Hf as [_ ?]. split; [lia|done].
Qed.

Lemma settle_kept e : e ∈ kept -> e ∈ queue w.
Proof. intros He. by apply list_elem_of_filter in He as [_ He]. Qed.

Lemma settle_ok : world_ok (settle_stage_uploads w).
Proof.
  pose proof Hw as [_ Hc Ho Hs Ha Hbud].
  destruct settle_fields as (fs & Ef & Q & F & L & R & (C1 & C2 & C3 & C4 & C5) & _ & Hcur). set (w' := settle_stage_uploads w) in *.
  assert (Hfin : finished w < current_submit_seq w) by (unfold current_submit_seq; rewrite Ef, length_app; simpl; lia).
  split.
  - exists fs, (reissue_blit (device w) <$> re). split; [done|congruence].
  - by rewrite C2, C3, C4.
  - rewrite Q. apply (in_order_app _ _ (current_submit_seq w)); [by apply in_order_filter|intros e He; by apply Hs, settle_kept|].
    intros e He. by apply list_elem_of_fmap in He as (e' & -> & _).
  - intros e He. rewrite Hcur. rewrite Q in He. apply elem_of_app in He as [He|He]; [by apply Hs, settle_kept|].
    apply list_elem_of_fmap in He as (e' & -> & He'). simpl. lia.
  - intros e He. rewrite Q in He. apply elem_of_app in He as [He|He]; [by apply Ha, settle_kept|].
    apply list_elem_of_fmap in He as (e' & -> & He'). pose proof (settle_re e' He'). simpl. unfold MAX_REISSUE_ATTEMPTS in *. lia.
  - rewrite R, Q, C5, budget_app.
    assert (Hag : budget (again (current_submit_seq w) <$> re) = budget re - Z.of_nat (length re)).
    { apply again_budget. intros e He. by apply settle_re. }
    pose proof (reissued_budget p (dom (device w)) (coherent w) (queue w) (fun e He => proj2 (Ha e He))) as Hsum. fold re kept in Hsum. lia.
Qed.

(** What it does to the queue of one buffer: all of it again, or its part the
    GPU acknowledged. *)
Lemma settle_key k B m i fs : frames w = fs ++ [[]] -> k ∈ dom (device w) -> k ∉ abandoned_keys (taken p (coherent w) (queue w)) ->
  key_inv k B (queue w) (frame_writes k <$> frames w) (finished w) (failed w) m i ->
  key_inv k B (queue (settle_stage_uploads w)) (frame_writes k <$> fs ++ [reissue_blit (device w) <$> re]) (finished w) (failed w) m i.
Proof.
  intros Ef Hd Hab Hki. pose proof Hw as [_ Hc Ho Hs Ha Hbud]. destruct settle_fields as (_ & _ & Q & _).
  rewrite fmap_app. cbn [fmap list_fmap]. change (list_fmap _ _ (reissue_blit (device w)) re) with (reissue_blit (device w) <$> re).
  rewrite frame_of_reissued. rewrite Ef, fmap_app in Hki. cbn [fmap list_fmap] in Hki. change (frame_writes k []) with (@nil Write) in Hki.
  assert (Hlen : finished w + Z.of_nat (length ((frame_writes k <$> fs) ++ [[]])) = current_submit_seq w).
  { unfold current_submit_seq. by rewrite Ef, !length_app, length_fmap. }
  assert (Hpois : k ∈ p <-> exists e, e ∈ queue w /\ pu_key e = k /\ pu_seq e <= failed w) by (apply poisoned_spec; [lia|intros; by apply Hs]).
  destruct (decide (k ∈ p)) as [Hp|Hp].
  - unfold re. rewrite reissued_owed by done. eapply key_reissue; [exact Hki|reflexivity| |].
    + intros P. rewrite Q, writes_app. unfold kept. rewrite (kept_owed p (coherent w)) by done. simpl. rewrite again_writes, Hlen. unfold re. by rewrite reissued_owed.
    + intros e He Ek. rewrite Hlen. rewrite Q in He. apply elem_of_app in He as [He|He].
      * unfold kept in He. apply list_elem_of_filter in He as [He _]. rewrite fate_owed in He by congruence. done.
      * by apply list_elem_of_fmap in He as (e' & -> & _).
  - unfold re. rewrite reissued_unowed by done. eapply key_release with (c := coherent w); [exact Ho|exact Hki| |lia| | |].
    + intros e He. rewrite Hlen. by apply Hs.
    + intros e He Ek. destruct (Z.le_gt_cases (pu_seq e) (failed w)); [|lia]. exfalso. apply Hp, Hpois. eauto.
    + intros P. rewrite Q, writes_app. unfold kept. rewrite (kept_unowed p (coherent w)) by done. rewrite again_writes.
      unfold re. rewrite reissued_unowed by done. by destruct (P _); rewrite app_nil_r.
    + intros e He Ek. rewrite Q in He. apply elem_of_app in He as [He|He]; [by apply settle_kept|].
      apply list_elem_of_fmap in He as (e' & -> & He'). apply elem_of_reissued in He' as (_ & Hf & _).
      apply fate_reissue in Hf as [Hf _]. simpl in Ek. congruence.
Qed.

Lemma settle_keys : keys_ok w -> keys_ok (settle_stage_uploads w).
Proof.
  intros [Kd Ko Kp Kl Kk]. pose proof Hw as [_ Hc Ho Hs Ha Hbud].
  destruct settle_fields as (fs & Ef & Q & F & L & R & (C1 & C2 & C3 & C4 & C5) & (B1 & B2 & B3 & B4 & B5) & Hcur).
  set (w' := settle_stage_uploads w) in *.
  assert (Hfin : finished w < current_submit_seq w) by (unfold current_submit_seq; rewrite Ef, length_app; simpl; lia).
  assert (Hre : forall c, c ∈ reissue_blit (device w) <$> re -> exists e h len, e ∈ re /\ c = Put (pu_key e) h (pu_payload e) /\ device w !! pu_key e = Some (h, len)).
  { intros c (e & -> & He)%list_elem_of_fmap. destruct (settle_re e He) as (_ & _ & [[h len] Hd]%elem_of_dom).
    exists e, h, len. split; [done|]. split; [|done]. unfold reissue_blit. by rewrite Hd. }
  assert (Ecat : concat (frames w') = concat (frames w) ++ (reissue_blit (device w) <$> re)).
  { by rewrite F, Ef, !concat_snoc, app_nil_r. }
  split; unfold key_ok; rewrite ?B1, ?B2, ?B3, ?B4, ?Ecat.
  - done.
  - intros c [Hin|Hin]%elem_of_app; [by apply Ko|]. destruct (Hre c Hin) as (e & h & len & _ & -> & Hd). by eapply Kd.
  - rewrite F. intros f c [Hf|Hf%list_elem_of_singleton]%elem_of_app Hin; [apply (Kp f c); [rewrite Ef; apply elem_of_app; by left|done]|].
    subst f. destruct (Hre c Hin) as (e & h & len & He & -> & _). exists h, (pu_payload e). split; [done|]. apply Kl. by apply settle_re.
  - rewrite Q. intros e [He|He]%elem_of_app; [by apply Kl, settle_kept|]. apply list_elem_of_fmap in He as (e' & -> & He'). apply (Kl e'). by apply settle_re.
  - intros k h len Hd Hl. rewrite L in Hl. apply not_elem_of_union in Hl as [Hab Hl]. destruct (Kk k h len Hd Hl) as (c & Hch & Hoc & Hki).
  exists c. split; [|split; [done|]].
  + apply chain_app. exists h. split; [done|]. apply chain_stay. intros cmd Hin Ek. destruct (Hre cmd Hin) as (e & h' & len' & _ & -> & Hd').
    cbn [blit_key] in Ek. rewrite Ek in *. exists (pu_payload e). congruence.
  + assert (Hwh : whole w' k len = whole w k len) by (unfold whole; by rewrite B5). rewrite Hwh, F, C2, C4. apply settle_key; [done|by apply elem_of_dom_2 in Hd|done|done].
Qed.
End settle.

(** *** Drains *)

Lemma front_run_ext (P P' : PendingUpload Write -> bool) q : (forall e, e ∈ q -> P e = P' e) -> front_run P q = front_run P' q.
Proof.
  induction q as [|e q IH]; intros H; [done|]. cbn [front_run]. rewrite (H e) by (by left). destruct (P' e); [|done]. f_equal. apply IH. intros. apply H. by right.
Qed.

(** A retention drain takes nothing, or the acknowledged part of a queue in which
    nothing failed. *)
Lemma release_spec q c f : in_order q -> let q' := snd (release_acknowledged q c f) in
  q' = q \/ (forall e, e ∈ q -> f < pu_seq e) /\ q' = filter (fun e => c < pu_seq e) q.
Proof.
  intros Hq q'. destruct q as [|e q]; [by left|]. destruct (Z.lt_ge_cases f (pu_seq e)) as [Hf|Hf].
  - right. assert (Hall : forall x, x ∈ e :: q -> f < pu_seq x).
    { inversion Hq as [|? ? _ Hx]; subst. rewrite Forall_forall in Hx. intros x Hin. apply elem_of_cons in Hin as [->|Hin]; [done|]. specialize (Hx x Hin). simpl in Hx. lia. }
    split; [done|]. unfold q', release_acknowledged. cbn [snd].
    rewrite (front_run_ext _ (fun x => pu_seq x <=? c)); [by apply front_run_upto|]. intros x Hx. rewrite (proj2 (Z.ltb_lt _ _)) by (by apply Hall). apply andb_true_r.
  - left. unfold q', release_acknowledged. cbn [snd front_run]. rewrite (proj2 (Z.ltb_ge f (pu_seq e))), andb_false_r by done. done.
Qed.

Lemma release_ok w : world_ok w -> world_ok (release_acknowledged_uploads w).
Proof.
  intros Hw. pose proof Hw as [Hf Hc Ho Hs Ha Hbud]. unfold release_acknowledged_uploads.
  destruct (release_spec (queue w) (coherent w) (failed w) Ho) as [E|[Hall E]]; rewrite E; [by destruct w|].
  split; cbn [with_queue frames begun coherent finished failed queue reissues uploads]; try done.
  - by apply in_order_filter.
  - intros e He. apply list_elem_of_filter in He as [_ He]. by apply Hs.
  - intros e He. apply list_elem_of_filter in He as [_ He]. by apply Ha.
  - assert (Hle : budget (filter (fun e => coherent w < pu_seq e) (queue w)) <= budget (queue w)); [|lia].
    clear -Ha. induction (queue w) as [|e q IH]; [done|]. assert (Hb : forall l, budget (e :: l) = MAX_REISSUE_ATTEMPTS - pu_attempts e + budget l) by done.
    specialize (IH (fun x Hx => Ha x (list_elem_of_further _ _ _ Hx))). pose proof (Ha e ltac:(by left)). rewrite filter_cons, (Hb q).
    destruct (decide _); [rewrite Hb|]; lia.
Qed.

Lemma release_keys w : world_ok w -> keys_ok w -> keys_ok (release_acknowledged_uploads w).
Proof.
  intros Hw [Kd Ko Kp Kl Kk]. pose proof Hw as [Hf Hc Ho Hs Ha Hbud]. unfold release_acknowledged_uploads.
  destruct (release_spec (queue w) (coherent w) (failed w) Ho) as [E|[Hall E]]; rewrite E; [by destruct w|].
  split; unfold key_ok; cbn [with_queue frames finished failed queue mem device owner lost intended]; try done.
  - intros e He. apply list_elem_of_filter in He as [_ He]. by apply Kl.
  - intros k h len Hd Hl. destruct (Kk k h len Hd Hl) as (c & Hch & Hoc & Hki). exists c. split; [done|]. split; [done|].
    eapply key_release with (c := coherent w); [exact Ho|exact Hki| |lia| | |].
    + intros e He. by apply seq_bound.
    + intros e He _. by apply Hall.
    + intros P. unfold writes, entries. f_equal. rewrite list_filter_filter. apply list_filter_iff. intros e. unfold after. rewrite andb_true_iff, Z.ltb_lt. tauto.
    + intros e He _. by apply list_elem_of_filter in He as [_ He].
Qed.

(** *** The end of a submission *)

Lemma finish_ok w w' aborted : world_ok w -> finish w aborted = Some w' -> world_ok w'.
Proof.
  intros Hw Hfin. pose proof Hw as [(fs & cur & Ef & Hcur) Hc Ho Hs Ha Hbud]. unfold finish in Hfin.
  destruct (frames w) as [|f [|g rest]] eqn:E; [done|done|]. injection Hfin as <-.
  split; cbn [frames begun coherent finished failed queue reissues uploads tail]; try done.
  - destruct fs as [|f' fs]; [done|]. injection Ef as -> Ef. by exists fs, cur.
  - destruct aborted; lia.
  - intros e He. specialize (Hs e He). unfold current_submit_seq in *. cbn [frames finished tail]. rewrite E in Hs. simpl in *. lia.
Qed.

(** What the device holds where the submission leaves a buffer: its writes over
    what was there, or part of them. *)
Lemma finish_bytes w f rest k c len h (aborted : option nat) :
  owned (owner w) f -> owner w !! c = Some k -> chain k len c (f ++ rest) h ->
  (forall wr b, wr ∈ frame_writes k f -> covered wr b = true -> is_Some (hit (writes k all (queue w)) b)) ->
  let ran := match aborted with None => f | Some n => take n f end in
  let dropped := match aborted with None => [] | Some n => drop n f end in
  exists q, chain k len q rest h /\ owner w !! q = Some k
  /\ (forall b, 0 <= b < len -> drops_copy k dropped && unqueued (queue w) k b = false -> hit (writes k all (queue w)) b = None ->
        run_blits (mem w) ran q b = mem w c b)
  /\ (aborted = None -> forall b, 0 <= b < len -> run_blits (mem w) ran q b = default (mem w c b) (hit (frame_writes k f) b)).
Proof.
  intros Hown Hc Hch Hcov ran dropped. apply chain_app in Hch as (q & Hf & Hrest). exists q. split; [done|].
  assert (Hsplit : f = ran ++ dropped) by (unfold ran, dropped; destruct aborted; [by rewrite take_drop|by rewrite app_nil_r]).
  destruct (chain_run k len (owner w) f c q (mem w) Hf Hown Hc) as [Hq Hrun]. split; [done|]. split.
  - intros b Hb Hd Hn. rewrite Hsplit in Hf. apply chain_app in Hf as (q1 & Hf1 & Hf2).
    assert (Hq1 : q = q1).
    { apply andb_false_iff in Hd as [Hd|Hd]; [|apply unqueued_false in Hd; rewrite Hn in Hd; by destruct Hd].
      destruct (chain_puts k len dropped q1 q Hf2 Hd) as [->|(wr & Hwr & Hall)]; [done|].
      destruct (Hcov wr b) as [v Hv]; [rewrite Hsplit, frame_writes_app; apply elem_of_app; by right|by apply Hall|congruence]. }
    rewrite Hq1. destruct (chain_run k len (owner w) ran c q1 (mem w) Hf1) as [_ Hrun1]; [|done|].
    { intros cmd Hin. apply Hown. rewrite Hsplit. apply elem_of_app. by left. }
    rewrite Hrun1 by done. rewrite (proj2 (hit_None (frame_writes k ran) b)); [done|]. intros wr Hwr.
    destruct (covered wr b) eqn:Ec; [|done]. destruct (Hcov wr b) as [v Hv]; [rewrite Hsplit, frame_writes_app; apply elem_of_app; by left|done|congruence].
  - intros Hnone b Hb. unfold ran. rewrite Hnone. by apply Hrun.
Qed.

Lemma finish_keys w w' aborted : world_ok w -> keys_ok w -> finish w aborted = Some w' -> keys_ok w'.
Proof.
  intros Hw [Kd Ko Kp Kl Kk] Hfin. pose proof Hw as [_ Hc Ho Hs Ha Hbud]. unfold finish in Hfin.
  destruct (frames w) as [|f [|g rest]] eqn:E; [done|done|]. injection Hfin as <-.
  change (concat (f :: g :: rest)) with (f ++ concat (g :: rest)) in Ko.
  split; unfold key_ok; cbn [frames finished failed queue mem device owner lost intended tail]; try done.
  - intros cmd Hin. apply Ko, elem_of_app. by right.
  - intros x cmd Hx. apply Kp. by right.
  - intros k h len Hd Hl. destruct (Kk k h len Hd Hl) as (c & Hch & Hoc & Hki). rewrite E in Hch, Hki. cbn [fmap list_fmap] in Hki.
    change (concat (f :: g :: rest)) with (f ++ concat (g :: rest)) in Hch.
    destruct (finish_bytes w f (concat (g :: rest)) k c len h aborted) as (q & Hq & Hoq & Hkept & Hclean); [|done|done| |].
    { intros cmd Hin. apply Ko, elem_of_app. by left. }
    { intros wr b Hwr Hcv. by eapply (frame_covered k _ _ _ _ _ _ _ Hki 0%nat). }
    exists q. split; [done|]. split; [done|].
    eapply key_finish; [exact Ho|exact Hki|reflexivity|done| | |].
    + intros b [Hb Ht]. cbn [torn] in Ht. apply orb_false_iff in Ht as [Ht _]. by split.
    + intros b [Hb Ht] Hn. cbn [torn] in Ht. apply orb_false_iff in Ht as [_ Ht]. by apply Hkept.
    + destruct aborted; [by right|left]. split; [done|]. intros b [Hb _]. by apply Hclean.
Qed.

Lemma step_keeps w e w' : world_ok w -> step w e = Some w' -> world_ok w'.
Proof.
  intros Hw. destruct e as [key wr renamed| | | |key|aborted|seq]; cbn [step].
  - destruct (begun w && _) eqn:Eb; [|done]. apply andb_true_iff in Eb as [Eb _]. intros [= <-]. by apply upload_ok.
  - destruct (begun w) eqn:Eb; [|done]. intros [= <-]. by apply submit_ok.
  - destruct (begun w) eqn:Eb; [done|]. intros [= <-]. by apply settle_ok.
  - intros [= <-]. by apply release_ok.
  - intros [= <-]. destruct Hw. by split.
  - by apply finish_ok.
  - destruct (_ && _) eqn:E; [|done]. intros [= <-]. reflect_cmp. destruct Hw. split; try done. cbn [coherent finished failed]. lia.
Qed.

Lemma step_keys w e w' : world_ok w -> keys_ok w -> step w e = Some w' -> keys_ok w'.
Proof.
  intros Hw Hk. destruct e as [key wr renamed| | | |key|aborted|seq]; cbn [step].
  - destruct (begun w && _) eqn:Eb; [|done]. apply andb_true_iff in Eb as [_ Eb]. intros [= <-]. by apply upload_keys.
  - destruct (begun w) eqn:Eb; [|done]. intros [= <-]. by apply submit_keys.
  - destruct (begun w) eqn:Eb; [done|]. intros [= <-]. by apply settle_keys.
  - intros [= <-]. by apply release_keys.
  - intros [= <-]. destruct Hk as [Kd Ko Kp Kl Kk]. split; try done; cbn [device owner lost].
    + intros k h len [_ Hd]%lookup_delete_Some. by eapply Kd.
    + intros k h len [_ Hd]%lookup_delete_Some Hl. by apply Kk.
  - by apply finish_keys.
  - destruct (_ && _); [|done]. intros [= <-]. by destruct Hk.
Qed.

Lemma made_spec bufs : forall n, let '(d, o) := made n bufs in
  (forall k h len, d !! k = Some (h, len) -> o !! h = Some k) /\ (forall h k, o !! h = Some k -> n <= h).
Proof.
  induction bufs as [|[key len] bufs IH]; intros n; cbn [made]; [by split|]. specialize (IH (n + 1)). destruct (made (n + 1) bufs) as [d o].
  destruct IH as [Hd Hn]. split.
  - intros k h l. rewrite !lookup_insert. case_decide; intros Hk; simplify_eq; [by rewrite decide_True|]. specialize (Hd k h l Hk).
    rewrite decide_False; [done|]. specialize (Hn h k Hd). lia.
  - intros h k. rewrite lookup_insert. case_decide; [lia|]. intros Hh. specialize (Hn h k Hh). lia.
Qed.

Lemma start_ok m bufs : world_ok (start m bufs).
Proof.
  unfold start. destruct (made 1 bufs) as [d o].
  split; cbn; try done; try lia.
  - by exists [], [].
  - constructor.
  - intros e He. by apply not_elem_of_nil in He.
  - intros e He. by apply not_elem_of_nil in He.
Qed.

Lemma start_keys m bufs : keys_ok (start m bufs).
Proof.
  unfold start. pose proof (made_spec bufs 1) as H. destruct (made 1 bufs) as [d o]. destruct H as [Hd Hn].
  split; unfold key_ok; cbn [frames finished failed queue mem device owner lost intended]; [done| | | |].
  - intros c Hc. by apply not_elem_of_nil in Hc.
  - intros f c ->%list_elem_of_singleton Hc. by apply not_elem_of_nil in Hc.
  - intros e He. by apply not_elem_of_nil in He.
  - intros k h len Hk _. exists h. split; [done|]. split; [by eapply Hd|]. rewrite Hk. split; try done.
    + intros n f Hf. left. destruct n; [by injection Hf as <-|done].
    + intros f [= <-]. done.
Qed.

Lemma run_keeps es : forall w w', world_ok w -> run w es = Some w' -> world_ok w'.
Proof.
  induction es as [|e es IH]; intros w w' Hw; cbn [run]; [by intros [= <-]|]. intros H. apply bind_Some in H as (w1 & H1 & H2).
  by eapply IH; [eapply step_keeps|].
Qed.

Lemma run_keys es : forall w w', world_ok w -> keys_ok w -> run w es = Some w' -> keys_ok w'.
Proof.
  induction es as [|e es IH]; intros w w' Hw Hk; cbn [run]; [by intros [= <-]|]. intros H. apply bind_Some in H as (w1 & H1 & H2).
  by eapply IH; [eapply step_keeps|eapply step_keys|].
Qed.

(** *** What a buffer is left with *)

Section left.
Context (w : World) (Hw : world_ok w) (Hk : keys_ok w).
Context (k h len : Z) (Hd : device w !! k = Some (h, len)) (Hl : k ∉ lost w).

Lemma elem_of_concat_writes wr : wr ∈ frame_writes k (concat (frames w)) -> exists n f, (frame_writes k <$> frames w) !! n = Some (frame_writes k f) /\ wr ∈ frame_writes k f.
Proof.
  intros (d & Hin)%elem_of_frame_writes. apply list_elem_of_In, in_concat in Hin as (f & Hf & Hin). apply list_elem_of_In, list_elem_of_lookup in Hf as [n Hn].
  exists n, f. split; [by rewrite list_lookup_fmap, Hn|]. apply elem_of_frame_writes. exists d. by apply list_elem_of_In.
Qed.

(** The submissions and the queue hold all that is owed. *)
Lemma intended_queued b : whole w k len b ->
  intended w k b = apply_all (writes k all (queue w)) (run_blits (mem w) (concat (frames w)) h) b.
Proof.
  intros Hb. destruct (ko_keys _ Hk k h len Hd Hl) as (c & Hch & Hoc & Hki).
  destruct (chain_run k len (owner w) _ c h (mem w) Hch (ko_owned _ Hk) Hoc) as [_ Hr].
  rewrite apply_all_hit, (ki_intended _ _ _ _ _ _ _ _ Hki b Hb). destruct (hit (writes k all (queue w)) b) as [v|] eqn:E; [done|].
  cbn [default from_option]. rewrite Hr by apply Hb. rewrite (proj2 (hit_None _ b)); [done|]. intros wr Hwr.
  destruct (covered wr b) eqn:Ec; [|done]. destruct (elem_of_concat_writes wr Hwr) as (n & f & Hn & Hf).
  destruct (frame_covered k _ _ _ _ _ _ _ Hki n _ wr b Hn Hf Ec) as [v Hv]. congruence.
Qed.

(** Once the queue let go of the buffer no submission touches it any more. *)
Lemma intended_settled b : (forall e, e ∈ queue w -> pu_key e <> k) -> whole w k len b -> mem w h b = intended w k b.
Proof.
  intros Hno Hb. destruct (ko_keys _ Hk k h len Hd Hl) as (c & Hch & Hoc & Hki).
  assert (Hw0 : writes k all (queue w) = []) by (apply writes_none; intros e He Ek; by destruct (Hno e He)).
  assert (Hc : chain k len c (concat (frames w)) c).
  { apply chain_other. intros cmd Hin Ek. apply list_elem_of_In, in_concat in Hin as (f & Hf & Hin). apply list_elem_of_In in Hf, Hin.
    destruct (ko_puts _ Hk f cmd Hf Hin) as (d & wr & Hp & Hlen). rewrite Ek in Hp. apply list_elem_of_lookup in Hf as [n Hn].
    destruct (frame_covered k _ _ _ _ _ _ _ Hki n (frame_writes k f) wr (wr_off wr)) as [v Hv].
    - by rewrite list_lookup_fmap, Hn.
    - apply elem_of_frame_writes. by exists d.
    - unfold covered. apply andb_true_intro. split; [apply Z.leb_le|apply Z.ltb_lt]; lia.
    - by rewrite Hw0 in Hv. }
  rewrite (chain_fun k len _ c h c Hch Hc), (ki_intended _ _ _ _ _ _ _ _ Hki b Hb), Hw0. done.
Qed.
End left.

(** C22: An upload is lost to an aborted submission only when it is given up, or
    when the abort tears a rename.  Whatever the order of uploads, renames onto
    fresh device buffers with their copies, submissions, retirements, partial
    aborts and drains, for every buffer the game still holds and of which no upload
    was abandoned: every byte holds what its uploads should leave once the
    submissions in flight have run into its device buffer and the queued uploads are
    written again in order; and once the queue has let go of the buffer the device
    holds exactly that.  Excepted are the bytes [finish] marks as torn, which it
    loses: the abort dropped the copy of a rename, no queued upload wrote them, and
    no upload has written them since. *)
Theorem uploads_survive_aborts m bufs es w :
  run (start m bufs) es = Some w ->
  forall k h len, device w !! k = Some (h, len) -> k ∉ lost w ->
  forall b, 0 <= b < len -> torn w k b = false ->
    intended w k b = apply_all (writes k all (queue w)) (run_blits (mem w) (concat (frames w)) h) b
    /\ ((forall e, e ∈ queue w -> pu_key e <> k) -> mem w h b = intended w k b).
Proof.
  intros Hrun k h len Hd Hl b Hb Ht. pose proof (run_keeps es _ _ (start_ok m bufs) Hrun) as Hw.
  pose proof (run_keys es _ _ (start_ok m bufs) (start_keys m bufs) Hrun) as Hk.
  split; [by apply (intended_queued w Hk k h len)|]. intros Hno. by apply (intended_settled w Hk k h len).
Qed.

(** C29: The replays end.  However the submissions fare, no upload is issued again
    more than [MAX_REISSUE_ATTEMPTS] times, so the encoder never issues more than
    that many times the uploads it was given. *)
Theorem replays_bounded m bufs es w :
  run (start m bufs) es = Some w ->
  (forall e, e ∈ queue w -> 0 <= pu_attempts e <= MAX_REISSUE_ATTEMPTS)
  /\ reissues w <= MAX_REISSUE_ATTEMPTS * uploads w.
Proof.
  intros Hrun. pose proof (run_keeps es _ _ (start_ok m bufs) Hrun) as [_ _ _ _ Ha Hb]. split; [done|].
  assert (Hn : 0 <= budget (queue w)); [|lia]. apply zsum_nonneg. apply Forall_fmap, Forall_forall. intros e He. specialize (Ha e He). simpl. lia.
Qed.

Definition byte_at (off v : Z) : Write := mkWrite off 1 (fun _ => v).

(** A buffer of four zeroes; fresh memory holds 99s.  An upload of 7, a rename
    with an upload of 9 to the next byte and an upload of 8 over it; the first
    submission aborts before the copy of the rename, and the third repairs what was
    uploaded.  The bytes no upload wrote are torn. *)
Definition first_mem : Z -> Z -> Z := fun h _ => if h =? 1 then 0 else 99.
Definition aborted_once : list Event :=
  [Upload 1 (byte_at 0 7) None; Upload 1 (byte_at 1 9) (Some 2); Submit; BeginFrame; Upload 1 (byte_at 1 8) None; Submit;
   Finish (Some 1%nat); Publish 1; BeginFrame; Submit; Finish None; Finish None; Publish 3; BeginFrame].
Definition repaired : World := default (start first_mem [(1, 4)]) (run (start first_mem [(1, 4)]) aborted_once).

Lemma run_repaired : run (start first_mem [(1, 4)]) aborted_once = Some repaired.
Proof.
  unfold repaired. destruct (run _ aborted_once) eqn:E; [done|]. exfalso.
  assert (H : bool_decide (is_Some (run (start first_mem [(1, 4)]) aborted_once)) = true) by (vm_compute; reflexivity).
  rewrite E in H. vm_compute in H. discriminate H.
Qed.

Lemma repaired_left :
  device repaired !! 1 = Some (2, 4) /\ 1 ∉ lost repaired /\ queue repaired = [] /\ torn repaired 1 0 = false /\ torn repaired 1 1 = false.
Proof. split_and!; try (vm_compute; reflexivity). apply (bool_decide_unpack _). vm_compute. exact I. Qed.

Lemma repaired_bytes :
  mem repaired 2 <$> [0; 1; 2; 3] = [7; 8; 99; 99] /\ intended repaired 1 <$> [0; 1; 2; 3] = [7; 8; 0; 0]
  /\ torn repaired 1 <$> [2; 3] = [true; true] /\ reissues repaired = 3.
Proof. split_and!; vm_compute; reflexivity. Qed.

Lemma repaired_queue : forall e, e ∈ queue repaired -> pu_key e <> 1.
Proof. destruct repaired_left as (_ & _ & -> & _). intros e He. by apply not_elem_of_nil in He. Qed.

Lemma uploads_survive_aborts_witness : mem repaired 2 0 = intended repaired 1 0 /\ mem repaired 2 1 = intended repaired 1 1.
Proof.
  destruct repaired_left as (Hd & Hl & _ & Ht0 & Ht1). split.
  - apply (uploads_survive_aborts first_mem [(1, 4)] aborted_once repaired run_repaired 1 2 4 Hd Hl 0 ltac:(lia) Ht0). exact repaired_queue.
  - apply (uploads_survive_aborts first_mem [(1, 4)] aborted_once repaired run_repaired 1 2 4 Hd Hl 1 ltac:(lia) Ht1). exact repaired_queue.
Defined.

Lemma replays_bounded_witness : reissues repaired <= 3 * uploads repaired.
Proof. destruct (replays_bounded first_mem [(1, 4)] aborted_once repaired run_repaired) as [_ H]. exact H. Defined.
