(* ===== verification/UploadRedirty.v ===== *)
(** [upload_redirty.rs]: uploads the encoder did not emit, on their way back into
    the dirty state, and the releases of staging that wait for an answer.  The
    PE-side queue; the native proxy only forwards the two calls. *)

From S2P Require Import Prelude DirtyRect.

Definition MAX_REDIRTY_ATTEMPTS : Z := 4.

(** A texture and the index of its subresource. *)
Definition RedirtySubresource : Type := Z * Z.

Record RedirtyEntry := mkEntry { re_subresource : RedirtySubresource; re_face : Z; re_level : Z; re_rect : DirtyRect.t }.
Record EmittedUpload := mkEmitted { em_subresource : RedirtySubresource; em_level : Z; em_generation : Z; em_releases_staging : bool }.

Record RedirtyQueue := mkQueue {
  declined_pending : bool; released_pending : bool; tracked : Z;
  pending : list RedirtyEntry; released : list EmittedUpload; attempts : gmap RedirtySubresource Z;
}.

Definition redirty_new : RedirtyQueue := mkQueue false false 0 [] [] ∅.

(** [decline], up to the end of the locked section: whether the upload will be
    retried, and how many subresources carry a count. *)
Definition decline_locked (q : RedirtyQueue) (e : RedirtyEntry) : (bool * Z) * RedirtyQueue :=
  let s := re_subresource e in
  let n := (default 0 (attempts q !! s) +% 1)%u32 in
  let retry := n <=? MAX_REDIRTY_ATTEMPTS in
  let attempts' := <[s := n]> (attempts q) in
  ((retry, Z.of_nat (size attempts')),
   mkQueue (declined_pending q) (released_pending q) (tracked q) (if retry then pending q ++ [e] else pending q)
     (filter (fun r => em_subresource r <> s) (released q)) attempts').

(** Its stores after the lock is dropped. *)
Definition decline_publish (q : RedirtyQueue) (retry : bool) (n : Z) : RedirtyQueue :=
  mkQueue (declined_pending q || retry) (released_pending q) n (pending q) (released q) (attempts q).

(** [note_emitted], up to the end of the locked section; nothing to publish where
    it returns early. *)
Definition note_emitted_locked (q : RedirtyQueue) (u : EmittedUpload) : option (bool * Z) * RedirtyQueue :=
  if negb (em_releases_staging u) && (tracked q =? 0) then (None, q)
  else
    let had_record := bool_decide (is_Some (attempts q !! em_subresource u)) in
    let attempts' := delete (em_subresource u) (attempts q) in
    if negb (em_releases_staging u) && negb had_record
    then (None, mkQueue (declined_pending q) (released_pending q) (tracked q) (pending q) (released q) attempts')
    else (Some (em_releases_staging u, Z.of_nat (size attempts')),
          mkQueue (declined_pending q) (released_pending q) (tracked q) (pending q)
            (if em_releases_staging u then released q ++ [u] else released q) attempts').

Definition note_emitted_publish (q : RedirtyQueue) (releases_staging : bool) (n : Z) : RedirtyQueue :=
  mkQueue (declined_pending q) (released_pending q || releases_staging) n (pending q) (released q) (attempts q).

(** [take_pending]: the swap, which answers whether to go on, then the take. *)
Definition take_pending_swap (q : RedirtyQueue) : bool * RedirtyQueue :=
  (declined_pending q, mkQueue false (released_pending q) (tracked q) (pending q) (released q) (attempts q)).
Definition take_pending_locked (q : RedirtyQueue) : list RedirtyEntry * RedirtyQueue :=
  (pending q, mkQueue (declined_pending q) (released_pending q) (tracked q) [] (released q) (attempts q)).

Definition take_released_swap (q : RedirtyQueue) : bool * RedirtyQueue :=
  (released_pending q, mkQueue (declined_pending q) false (tracked q) (pending q) (released q) (attempts q)).
Definition take_released_locked (q : RedirtyQueue) : list EmittedUpload * RedirtyQueue :=
  (released q, mkQueue (declined_pending q) (released_pending q) (tracked q) (pending q) [] (attempts q)).

Definition has_pending (q : RedirtyQueue) : bool := declined_pending q || released_pending q.

(** ** Two threads

    The encoder thread declines and acknowledges, the API thread drains; each is
    between two of its steps, and the steps interleave.  [log] is what went
    through the lock, in order. *)

Inductive EncoderAt := EncoderIdle | DeclinePublishes (retry : bool) (n : Z) | EmittedPublishes (releases : bool) (n : Z).
Inductive ApiAt := ApiIdle | TakesPending | TakesReleased.

Inductive Op :=
  | Declined (e : RedirtyEntry) (retry : bool)
  | Emitted (u : EmittedUpload)
  | TookPending (l : list RedirtyEntry)
  | TookReleased (l : list EmittedUpload).

Record Threads := mkThreads { rq : RedirtyQueue; encoder_at : EncoderAt; api_at : ApiAt; log : list Op }.

Inductive ThreadStep :=
  | CallDecline (e : RedirtyEntry) | CallEmitted (u : EmittedUpload) | EncoderStores
  | CallTakePending | CallTakeReleased | ApiLocks.

Definition thread_step (t : Threads) (s : ThreadStep) : option Threads :=
  match s, encoder_at t, api_at t with
  | CallDecline e, EncoderIdle, _ =>
      let '((retry, n), q) := decline_locked (rq t) e in
      Some (mkThreads q (DeclinePublishes retry n) (api_at t) (log t ++ [Declined e retry]))
  | CallEmitted u, EncoderIdle, _ =>
      let '(r, q) := note_emitted_locked (rq t) u in
      Some (mkThreads q (match r with Some (rel, n) => EmittedPublishes rel n | None => EncoderIdle end) (api_at t) (log t ++ [Emitted u]))
  | EncoderStores, DeclinePublishes retry n, _ => Some (mkThreads (decline_publish (rq t) retry n) EncoderIdle (api_at t) (log t))
  | EncoderStores, EmittedPublishes rel n, _ => Some (mkThreads (note_emitted_publish (rq t) rel n) EncoderIdle (api_at t) (log t))
  | CallTakePending, _, ApiIdle =>
      let '(go, q) := take_pending_swap (rq t) in Some (mkThreads q (encoder_at t) (if go then TakesPending else ApiIdle) (log t))
  | CallTakeReleased, _, ApiIdle =>
      let '(go, q) := take_released_swap (rq t) in Some (mkThreads q (encoder_at t) (if go then TakesReleased else ApiIdle) (log t))
  | ApiLocks, _, TakesPending =>
      let '(l, q) := take_pending_locked (rq t) in Some (mkThreads q (encoder_at t) ApiIdle (log t ++ [TookPending l]))
  | ApiLocks, _, TakesReleased =>
      let '(l, q) := take_released_locked (rq t) in Some (mkThreads q (encoder_at t) ApiIdle (log t ++ [TookReleased l]))
  | _, _, _ => None
  end.

Fixpoint thread_run (t : Threads) (ss : list ThreadStep) : option Threads :=
  match ss with [] => Some t | s :: ss' => t' ← thread_step t s; thread_run t' ss' end.

Definition threads_start : Threads := mkThreads redirty_new EncoderIdle ApiIdle [].

(** ** What the log says *)

(** Declines of [s] since an upload of it was last emitted. *)
Definition consecutive (s : RedirtySubresource) (l : list Op) : Z :=
  foldl (fun n o => match o with
    | Declined e _ => if decide (re_subresource e = s) then n + 1 else n
    | Emitted u => if decide (em_subresource u = s) then 0 else n
    | _ => n end) 0 l.

(** The entries accepted for a retry, and those handed out. *)
Definition accepted (l : list Op) : list RedirtyEntry := omap (fun o => match o with Declined e true => Some e | _ => None end) l.
Definition handed_out (l : list Op) : list RedirtyEntry := concat (omap (fun o => match o with TookPending l => Some l | _ => None end) l).

(** An answer still standing: emitted with a release, and since then neither a
    decline of its subresource nor a drain. *)
Definition standing (l : list Op) : list EmittedUpload :=
  foldl (fun rs o => match o with
    | Declined e _ => filter (fun r => em_subresource r <> re_subresource e) rs
    | Emitted u => if em_releases_staging u then rs ++ [u] else rs
    | TookReleased _ => []
    | TookPending _ => rs end) [] l.

(** What an operation answered, from what went before it. *)
Definition entry_ok (before : list Op) (o : Op) : Prop :=
  match o with
  | Declined e retry => retry = (consecutive (re_subresource e) before <? MAX_REDIRTY_ATTEMPTS)
  | TookReleased rs => rs = standing before
  | TookPending es => accepted before = handed_out before ++ es
  | Emitted _ => True
  end.

Record threads_ok (t : Threads) : Prop := {
  th_counts : forall s, default 0 (attempts (rq t) !! s) = consecutive s (log t) /\ (forall n, attempts (rq t) !! s = Some n -> 0 < n);
  th_tracked : match encoder_at t with
               | EncoderIdle => tracked (rq t) = 0 -> attempts (rq t) = ∅
               | DeclinePublishes _ n | EmittedPublishes _ n => n = Z.of_nat (size (attempts (rq t))) end;
  th_pending : accepted (log t) = handed_out (log t) ++ pending (rq t);
  th_released : released (rq t) = standing (log t);
  th_flags : (pending (rq t) <> [] -> declined_pending (rq t) = true \/ api_at t = TakesPending \/ exists n, encoder_at t = DeclinePublishes true n)
    /\ (released (rq t) <> [] -> released_pending (rq t) = true \/ api_at t = TakesReleased \/ exists n, encoder_at t = EmittedPublishes true n);
  th_log : forall l1 o l2, log t = l1 ++ o :: l2 -> entry_ok l1 o;
}.

Lemma consecutive_snoc s l o : consecutive s (l ++ [o]) = match o with
    | Declined e _ => if decide (re_subresource e = s) then consecutive s l + 1 else consecutive s l
    | Emitted u => if decide (em_subresource u = s) then 0 else consecutive s l
    | _ => consecutive s l end.
Proof. unfold consecutive. by rewrite foldl_app. Qed.

Lemma consecutive_range s l : 0 <= consecutive s l <= Z.of_nat (length l).
Proof.
  induction l as [|o l IH] using rev_ind; [done|]. rewrite consecutive_snoc, length_app. simpl. destruct o; repeat case_decide; lia.
Qed.

Lemma log_snoc l o : (forall l1 o l2, l = l1 ++ o :: l2 -> entry_ok l1 o) -> entry_ok l o ->
  forall l1 o' l2, l ++ [o] = l1 ++ o' :: l2 -> entry_ok l1 o'.
Proof.
  intros H Ho l1 o' l2 E. destruct l2 as [|o2 l2 _] using rev_ind.
  - apply app_inj_tail in E as [-> ->]. done.
  - rewrite app_comm_cons, app_assoc in E. apply app_inj_tail in E as [-> _]. by eapply H.
Qed.

Lemma accepted_snoc l o : accepted (l ++ [o]) = accepted l ++ match o with Declined e true => [e] | _ => [] end.
Proof. unfold accepted. rewrite omap_app. f_equal. by destruct o as [? []| | |]. Qed.

Lemma handed_out_snoc l o : handed_out (l ++ [o]) = handed_out l ++ match o with TookPending es => es | _ => [] end.
Proof. unfold handed_out. rewrite omap_app, concat_app. f_equal. destruct o; simpl; by rewrite ?app_nil_r. Qed.

Lemma standing_snoc l o : standing (l ++ [o]) = match o with
    | Declined e _ => filter (fun r => em_subresource r <> re_subresource e) (standing l)
    | Emitted u => if em_releases_staging u then standing l ++ [u] else standing l
    | TookReleased _ => []
    | TookPending _ => standing l end.
Proof. unfold standing. by rewrite foldl_app. Qed.

(** ** Every step keeps the account *)

Lemma decline_count t e : threads_ok t -> consecutive (re_subresource e) (log t) < u32_max ->
  (default 0 (attempts (rq t) !! re_subresource e) +% 1)%u32 = consecutive (re_subresource e) (log t) + 1.
Proof.
  intros Ht Hb. rewrite (proj1 (th_counts _ Ht (re_subresource e))). pose proof (consecutive_range (re_subresource e) (log t)).
  apply wrap32_small. unfold is_u32. lia.
Qed.

Lemma decline_ok t e t' : threads_ok t -> Z.of_nat (length (log t)) < u32_max -> thread_step t (CallDecline e) = Some t' -> threads_ok t'.
Proof.
  intros Ht Hlen H. pose proof Ht as [Hc Htr Hp Hr [Hf1 Hf2] Hlog]. cbn [thread_step] in H. destruct (encoder_at t) eqn:Een; [|done..].
  pose proof (consecutive_range (re_subresource e) (log t)) as Hrange.
  unfold decline_locked in H. rewrite (decline_count t e) in H by (done || lia). injection H as <-.
  set (n := consecutive (re_subresource e) (log t) + 1) in *.
  assert (Eretry : (n <=? MAX_REDIRTY_ATTEMPTS) = (consecutive (re_subresource e) (log t) <? MAX_REDIRTY_ATTEMPTS)).
  { unfold n. destruct (Z.ltb_spec (consecutive (re_subresource e) (log t)) MAX_REDIRTY_ATTEMPTS); [apply Z.leb_le|apply Z.leb_gt]; lia. }
  split; cbn [rq encoder_at api_at log attempts tracked pending released declined_pending released_pending].
  - intros s. rewrite consecutive_snoc. destruct (decide (re_subresource e = s)) as [<-|Hne].
    + rewrite lookup_insert_eq. split; [done|]. intros ? [= <-]. unfold n. lia.
    + rewrite lookup_insert_ne by done. apply Hc.
  - done.
  - rewrite accepted_snoc, handed_out_snoc, app_nil_r, Hp. destruct (n <=? _); by rewrite ?app_nil_r, ?app_assoc.
  - rewrite standing_snoc. by rewrite Hr.
  - split.
    + intros Hne. destruct (n <=? MAX_REDIRTY_ATTEMPTS); [right; right; by eexists|]. destruct (Hf1 Hne) as [?|[?|[? ?]]]; [auto|auto|congruence].
    + intros Hne. destruct Hf2 as [?|[?|[? ?]]]; [|auto|auto|congruence]. intros E. by rewrite E in Hne.
  - by apply log_snoc.
Qed.

Lemma emitted_ok t u t' : threads_ok t -> thread_step t (CallEmitted u) = Some t' -> threads_ok t'.
Proof.
  intros Ht H. pose proof Ht as [Hc Htr Hp Hr [Hf1 Hf2] Hlog]. cbn [thread_step] in H. destruct (encoder_at t) eqn:Een; [|done..].
  assert (Hlog' : forall l1 o l2, log t ++ [Emitted u] = l1 ++ o :: l2 -> entry_ok l1 o) by (by apply log_snoc).
  assert (Hcount : forall m : gmap RedirtySubresource Z, m = delete (em_subresource u) (attempts (rq t)) -> forall s,
     default 0 (m !! s) = consecutive s (log t ++ [Emitted u]) /\ (forall n, m !! s = Some n -> 0 < n)).
  { intros m -> s. rewrite consecutive_snoc. destruct (decide (em_subresource u = s)) as [<-|Hne]; [by rewrite lookup_delete_eq|by rewrite lookup_delete_ne]. }
  assert (Hacc : accepted (log t ++ [Emitted u]) = handed_out (log t ++ [Emitted u]) ++ pending (rq t)).
  { by rewrite accepted_snoc, handed_out_snoc, !app_nil_r. }
  assert (Hf1' : pending (rq t) <> [] -> declined_pending (rq t) = true \/ api_at t = TakesPending).
  { intros Hne. destruct (Hf1 Hne) as [?|[?|[? ?]]]; [auto|auto|congruence]. }
  assert (Hf2' : released (rq t) <> [] -> released_pending (rq t) = true \/ api_at t = TakesReleased).
  { intros Hne. destruct (Hf2 Hne) as [?|[?|[? ?]]]; [auto|auto|congruence]. }
  unfold note_emitted_locked in H. destruct (negb (em_releases_staging u) && (tracked (rq t) =? 0)) eqn:Efast.
  { injection H as <-. apply andb_prop in Efast as [Erel E0]. apply negb_true_iff in Erel. apply Z.eqb_eq in E0. pose proof (Htr E0) as Hempty.
    split; cbn [rq encoder_at api_at log]; try done.
    - apply Hcount. by rewrite Hempty, delete_empty.
    - rewrite standing_snoc. by rewrite Erel, Hr. }
  destruct (negb (em_releases_staging u) && negb (bool_decide (is_Some (attempts (rq t) !! em_subresource u)))) eqn:Enone.
  { injection H as <-. apply andb_prop in Enone as [Erel Enone]. apply negb_true_iff in Erel, Enone. apply bool_decide_eq_false in Enone.
    apply eq_None_not_Some in Enone.
    split; cbn [rq encoder_at api_at log attempts tracked pending released declined_pending released_pending]; try done.
    - by apply Hcount.
    - intros E0. by rewrite (Htr E0), delete_empty.
    - rewrite standing_snoc. by rewrite Erel, Hr. }
  injection H as <-.
  split; cbn [rq encoder_at api_at log attempts tracked pending released declined_pending released_pending]; try done.
  - by apply Hcount.
  - rewrite standing_snoc. by rewrite Hr.
  - split; [intros Hne; destruct (Hf1' Hne); auto|]. intros Hne. destruct (em_releases_staging u); [right; right; by eexists|destruct (Hf2' Hne); auto].
Qed.

Lemma stores_ok t t' : threads_ok t -> thread_step t EncoderStores = Some t' -> threads_ok t'.
Proof.
  intros Ht H. pose proof Ht as [Hc Htr Hp Hr [Hf1 Hf2] Hlog]. cbn [thread_step] in H.
  assert (Hsize : forall n, n = Z.of_nat (size (attempts (rq t))) -> n = 0 -> attempts (rq t) = ∅) by (intros n -> Hn; apply map_size_empty_inv; lia).
  destruct (encoder_at t) as [|retry n|rel n] eqn:Een; [done|..]; injection H as <-;
    (split; cbn [decline_publish note_emitted_publish rq encoder_at api_at log attempts tracked pending released declined_pending released_pending];
     [done|by apply Hsize|done|done| |done]).
  - split; intros Hne; [destruct (Hf1 Hne) as [->|[?|[n' [= -> _]]]]; [auto|auto|left; by rewrite orb_true_r]|destruct (Hf2 Hne) as [?|[?|[? ?]]]; [auto|auto|congruence]].
  - split; intros Hne; [destruct (Hf1 Hne) as [?|[?|[? ?]]]; [auto|auto|congruence]|destruct (Hf2 Hne) as [->|[?|[n' [= -> _]]]]; [auto|auto|left; by rewrite orb_true_r]].
Qed.

Lemma swap_ok t s t' : threads_ok t -> s = CallTakePending \/ s = CallTakeReleased -> thread_step t s = Some t' -> threads_ok t'.
Proof.
  intros Ht Hs H. pose proof Ht as [Hc Htr Hp Hr [Hf1 Hf2] Hlog].
  assert (Hidle : api_at t = ApiIdle) by (destruct Hs; subst s; cbn [thread_step] in H; by destruct (encoder_at t), (api_at t)).
  destruct Hs; subst s.
  - assert (E : t' = mkThreads (snd (take_pending_swap (rq t))) (encoder_at t) (if declined_pending (rq t) then TakesPending else ApiIdle) (log t)).
    { cbn [thread_step] in H. rewrite Hidle in H. by destruct (encoder_at t); injection H. }
    subst t'. split; cbn; try done. split; intros Hne; [destruct (Hf1 Hne) as [->|[?|?]]|destruct (Hf2 Hne) as [?|[?|?]]]; auto; congruence.
  - assert (E : t' = mkThreads (snd (take_released_swap (rq t))) (encoder_at t) (if released_pending (rq t) then TakesReleased else ApiIdle) (log t)).
    { cbn [thread_step] in H. rewrite Hidle in H. by destruct (encoder_at t); injection H. }
    subst t'. split; cbn; try done. split; intros Hne; [destruct (Hf1 Hne) as [?|[?|?]]|destruct (Hf2 Hne) as [->|[?|?]]]; auto; congruence.
Qed.

Lemma locks_ok t t' : threads_ok t -> thread_step t ApiLocks = Some t' -> threads_ok t'.
Proof.
  intros Ht H. pose proof Ht as [Hc Htr Hp Hr [Hf1 Hf2] Hlog].
  destruct (api_at t) eqn:Eapi; [cbn [thread_step] in H; rewrite Eapi in H; by destruct (encoder_at t)|..].
  - assert (E : t' = mkThreads (snd (take_pending_locked (rq t))) (encoder_at t) ApiIdle (log t ++ [TookPending (pending (rq t))])).
    { cbn [thread_step] in H. rewrite Eapi in H. by destruct (encoder_at t); injection H. }
    subst t'. split; cbn [snd take_pending_locked take_released_locked rq encoder_at api_at log attempts tracked pending released declined_pending released_pending]; [..|by apply log_snoc].
    + intros s. rewrite consecutive_snoc. apply Hc.
    + done.
    + by rewrite accepted_snoc, handed_out_snoc, !app_nil_r.
    + by rewrite standing_snoc.
    + split; intros Hne; [done|]. destruct (Hf2 Hne) as [?|[?|?]]; auto; congruence.
  - assert (E : t' = mkThreads (snd (take_released_locked (rq t))) (encoder_at t) ApiIdle (log t ++ [TookReleased (released (rq t))])).
    { cbn [thread_step] in H. rewrite Eapi in H. by destruct (encoder_at t); injection H. }
    subst t'. split; cbn [snd take_pending_locked take_released_locked rq encoder_at api_at log attempts tracked pending released declined_pending released_pending]; [..|by apply log_snoc].
    + intros s. rewrite consecutive_snoc. apply Hc.
    + done.
    + by rewrite accepted_snoc, handed_out_snoc, !app_nil_r.
    + by rewrite standing_snoc.
    + split; intros Hne; [|done]. destruct (Hf1 Hne) as [?|[?|?]]; auto; congruence.
Qed.

Lemma thread_step_ok t s t' : threads_ok t -> Z.of_nat (length (log t)) < u32_max -> thread_step t s = Some t' -> threads_ok t'.
Proof.
  intros Ht Hl H. destruct s; [by eapply decline_ok|by eapply emitted_ok|by eapply stores_ok| | |by eapply locks_ok];
    eapply swap_ok; [done| |done|done| |done]; auto.
Qed.

Lemma thread_step_log t s t' : thread_step t s = Some t' -> (length (log t') <= S (length (log t)))%nat.
Proof.
  cbn [thread_step]. intros H. destruct s; cbn [thread_step] in H; destruct (encoder_at t), (api_at t); try done;
    repeat case_match; injection H as <-; cbn [log]; rewrite ?length_app; simpl; lia.
Qed.

Lemma threads_start_ok : threads_ok threads_start.
Proof. split; cbn; try done. intros l1 o l2 E. by destruct l1. Qed.

Lemma thread_run_ok ss : forall t t', threads_ok t -> Z.of_nat (length (log t)) + Z.of_nat (length ss) <= u32_max -> thread_run t ss = Some t' -> threads_ok t'.
Proof.
  induction ss as [|s ss IH]; intros t t' Ht Hl; cbn [thread_run]; [by intros [= <-]|]. intros H. apply bind_Some in H as (t1 & H1 & H2).
  pose proof (thread_step_log _ _ _ H1). simpl in Hl. apply (IH t1); [eapply thread_step_ok; [done| |done]; lia|lia|done].
Qed.

(** C30: The redirty queue keeps its promises under any interleaving of the encoder
    and API threads, over fewer than [2^32] steps.  A declined upload is retried
    exactly when fewer than [MAX_REDIRTY_ATTEMPTS] declines of its subresource came
    since one was last emitted; every accepted entry is handed out exactly once, in
    order, or still waits; a drain of releases hands out exactly the answers
    emitted since the last drain whose subresource has not been declined again;
    and what waits is always announced, by a flag or by a thread about to act. *)
Theorem redirty_queue_exact ss t :
  thread_run threads_start ss = Some t -> Z.of_nat (length ss) <= u32_max ->
  (forall l1 o l2, log t = l1 ++ o :: l2 ->
     match o with
     | Declined e retry => retry = (consecutive (re_subresource e) l1 <? MAX_REDIRTY_ATTEMPTS)
     | TookReleased rs => rs = standing l1
     | TookPending es => accepted l1 = handed_out l1 ++ es
     | Emitted _ => True
     end)
  /\ accepted (log t) = handed_out (log t) ++ pending (rq t)
  /\ released (rq t) = standing (log t)
  /\ (encoder_at t = EncoderIdle -> api_at t = ApiIdle ->
        (pending (rq t) <> [] -> declined_pending (rq t) = true) /\ (released (rq t) <> [] -> released_pending (rq t) = true)).
Proof.
  intros Hrun Hl. pose proof (thread_run_ok ss _ t threads_start_ok ltac:(simpl; lia) Hrun) as [_ _ Hp Hr [Hf1 Hf2] Hlog].
  split; [exact Hlog|]. split; [done|]. split; [done|]. intros Ee Ea. split; intros Hne.
  - destruct (Hf1 Hne) as [?|[?|[? ?]]]; [done|congruence|congruence].
  - destruct (Hf2 Hne) as [?|[?|[? ?]]]; [done|congruence|congruence].
Qed.

(** An upload of [(1, 0)] is emitted and asks for its staging to go; before the
    drain takes it a later upload of it is declined, which cancels the release. *)
Definition cancelled_release : list ThreadStep :=
  [CallEmitted (mkEmitted (1, 0) 0 1 true); EncoderStores; CallTakeReleased; CallDecline (mkEntry (1, 0) 0 0 (DirtyRect.full 4 4)); ApiLocks; EncoderStores].

Lemma redirty_queue_exact_witness :
  let t := default threads_start (thread_run threads_start cancelled_release) in
  log t = [Emitted (mkEmitted (1, 0) 0 1 true); Declined (mkEntry (1, 0) 0 0 (DirtyRect.full 4 4)) true; TookReleased []]
  /\ (pending (rq t) <> [] -> declined_pending (rq t) = true).
Proof.
  split; [reflexivity|].
  destruct (redirty_queue_exact cancelled_release (default threads_start (thread_run threads_start cancelled_release)) eq_refl ltac:(unfold u32_max; simpl; lia))
    as (_ & _ & _ & H).
  exact (proj1 (H eq_refl eq_refl)).
Defined.
