(* ===== verification/BitFields.v ===== *)
(** Words laid out as bit fields from the lowest up, and reading a field back with
    the shift and mask the code writes. *)

From S2P Require Import Prelude.

(** The word whose fields are [(width, value)], lowest first. *)
Fixpoint pack (fields : list (Z * Z)) : Z :=
  match fields with [] => 0 | (w, v) :: fields => v + 2 ^ w * pack fields end.

Definition total_width (fields : list (Z * Z)) : Z := zsum fields.*1.
Definition fits (f : Z * Z) : Prop := 0 <= f.1 /\ 0 <= f.2 < 2 ^ f.1.

(** [fits] by computation, for closed widths. *)
Ltac pack_fits := repeat (apply Forall_cons_2; [split; cbn [fst snd Z.b2z]; lia|]); apply Forall_nil_2.

Lemma total_width_nonneg fs : Forall fits fs -> 0 <= total_width fs.
Proof.
  intros Hf. apply zsum_nonneg. apply Forall_fmap. eapply Forall_impl; [exact Hf|]. by intros f [? _].
Qed.

Lemma pack_range fs : Forall fits fs -> 0 <= pack fs < 2 ^ total_width fs.
Proof.
  induction 1 as [|[w v] fs [Hw Hv] Hfs IH]; [done|]. cbn [fst snd pack] in *.
  change (total_width ((w, v) :: fs)) with (w + total_width fs).
  rewrite Z.pow_add_r by (done || by apply total_width_nonneg). nia.
Qed.

Lemma shiftr_pack_cons w v fs : fits (w, v) -> Z.shiftr (pack ((w, v) :: fs)) w = pack fs.
Proof.
  intros [Hw Hv]. cbn [fst snd pack] in *. rewrite Z.shiftr_div_pow2 by done.
  rewrite Z.mul_comm, Z.div_add, Z.div_small by lia. lia.
Qed.

Lemma shiftr_pack fs gs : Forall fits fs -> Z.shiftr (pack (fs ++ gs)) (total_width fs) = pack gs.
Proof.
  intros Hfs. induction Hfs as [|[w v] fs Hf Hfs IH]; [apply Z.shiftr_0_r|].
  change (total_width ((w, v) :: fs)) with (w + total_width fs).
  rewrite <- Z.shiftr_shiftr by (by apply total_width_nonneg). by rewrite <- app_comm_cons, shiftr_pack_cons.
Qed.

Lemma land_pack_cons w v fs : fits (w, v) -> Z.land (pack ((w, v) :: fs)) (Z.ones w) = v.
Proof.
  intros [Hw Hv]. cbn [fst snd pack] in *. rewrite Z.land_ones by done.
  by rewrite Z.mul_comm, Z.mod_add, Z.mod_small by lia.
Qed.

(** Reading a field: shift by the width below it, mask to its own. *)
Lemma pack_field fs w v gs k m :
  Forall fits fs -> fits (w, v) -> k = total_width fs -> m = Z.ones w ->
  Z.land (Z.shiftr (pack (fs ++ (w, v) :: gs)) k) m = v.
Proof. intros Hfs Hv -> ->. by rewrite shiftr_pack, land_pack_cons. Qed.

(** Testing a one-bit field in place. *)
Lemma pack_flag fs (b : bool) gs m :
  Forall fits fs -> m = 2 ^ total_width fs -> flag (pack (fs ++ (1, Z.b2z b) :: gs)) m = b.
Proof.
  intros Hfs ->. pose proof (total_width_nonneg fs Hfs) as Hw. unfold flag.
  assert (E : Z.testbit (pack (fs ++ (1, Z.b2z b) :: gs)) (total_width fs) = b).
  { assert (Hb : fits (1, Z.b2z b)) by (split; cbn [fst snd]; destruct b; cbn; lia).
    pose proof (pack_field fs 1 (Z.b2z b) gs _ _ Hfs Hb eq_refl eq_refl) as E.
    change (Z.ones 1) with (Z.ones (Z.succ 0)) in E. apply (f_equal (λ z, Z.testbit z 0)) in E.
    rewrite Z.land_spec, Z.shiftr_spec, Z.b2z_bit0, Z.ones_spec_low, andb_true_r in E by lia. exact E. }
  destruct b; [apply negb_true_iff, Z.eqb_neq | apply negb_false_iff, Z.eqb_eq].
  - intros H0. apply (f_equal (λ z, Z.testbit z (total_width fs))) in H0.
    by rewrite Z.land_spec, E, Z.pow2_bits_true, Z.bits_0 in H0.
  - apply Z.bits_inj. intros n. rewrite Z.land_spec, Z.bits_0. destruct (decide (n = total_width fs)) as [->|Hn].
    + by rewrite E.
    + by rewrite Z.pow2_bits_false, andb_false_r.
Qed.

(** What a mask leaves is in the mask's range, whatever is masked. *)
Lemma land_ones_range a w : 0 <= w -> 0 <= Z.land a (Z.ones w) < 2 ^ w.
Proof. intros Hw. rewrite Z.land_ones by done. apply Z.mod_pos_bound. lia. Qed.

(** ** Appending fields *)

(** The side conditions of appending a field. *)
Ltac fits_done := cbn [app]; try (reflexivity || assumption); repeat (apply Forall_cons_2; [assumption|]); try apply Forall_nil_2.

(** A word with nothing below its field reads as a sum. *)
Lemma lor_shiftl_add a v n : 0 <= n -> 0 <= a < 2 ^ n -> 0 <= v -> Z.lor a (Z.shiftl v n) = a + 2 ^ n * v.
Proof.
  intros Hn Ha Hv. rewrite Z.shiftl_mul_pow2 by done.
  assert (Z.land a (v * 2 ^ n) = 0) as H0.
  { apply Z.bits_inj'. intros i Hi. rewrite Z.land_spec, Z.bits_0. destruct (Z.lt_ge_cases i n).
    - by rewrite Z.mul_pow2_bits_low, andb_false_r.
    - destruct (decide (a = 0)) as [->|]; [by rewrite Z.bits_0|]. rewrite Z.bits_above_log2; [done|lia|].
      apply Z.log2_lt_pow2; [lia|]. eapply Z.lt_le_trans; [apply Ha|]. by apply Z.pow_le_mono_r. }
  rewrite <- Z.lxor_lor, <- Z.add_nocarry_lxor by done. lia.
Qed.

Lemma pack_app fs gs : Forall fits fs -> pack (fs ++ gs) = pack fs + 2 ^ total_width fs * pack gs.
Proof.
  induction 1 as [|[w v] fs [Hw Hv] Hf IH]; [cbn; lia|]. cbn [app pack fst snd] in *. rewrite IH.
  change (total_width ((w, v) :: fs)) with (w + total_width fs).
  rewrite Z.pow_add_r by (done || by apply total_width_nonneg). lia.
Qed.

(** Or-ing the next field in appends it. *)
Lemma pack_snoc fs w v n :
  Forall fits fs -> fits (w, v) -> n = total_width fs -> Z.lor (pack fs) (Z.shiftl v n) = pack (fs ++ [(w, v)]).
Proof.
  intros Hf [Hw Hv] ->. cbn [fst snd] in *. rewrite lor_shiftl_add, pack_app by
    (done || lia || by apply pack_range || by apply total_width_nonneg). cbn [pack]. lia.
Qed.

Lemma pack_one w v : pack [(w, v)] = v.
Proof. cbn [pack]. lia. Qed.

Lemma pack_inj fs gs : fs.*1 = gs.*1 -> Forall fits fs -> Forall fits gs -> pack fs = pack gs -> fs = gs.
Proof.
  intros Hw Hf. revert gs Hw. induction Hf as [|[w v] fs Hf Hfs IH]; intros [|[w' v'] gs] Hw Hg Hp; try done.
  injection Hw as <- Hw. apply Forall_cons in Hg as [Hg Hgs].
  pose proof (land_pack_cons w v fs Hf) as E1. rewrite Hp, (land_pack_cons w v' gs Hg) in E1. subst v'.
  f_equal. apply IH; [done..|]. rewrite <- (shiftr_pack_cons w v fs Hf), Hp. by apply shiftr_pack_cons.
Qed.

Lemma b2z_fits b : fits (1, Z.b2z b).
Proof. by destruct b. Qed.
