(* ===== verification/RenderState.v ===== *)
(** [core/render_state.rs]: what a render state accepts.  The device stores the
    DWORD a game wrote; a snapshot carries the enum-valued states as bytes, and
    [enum_value] is where a DWORD becomes one.  Also the scissor rectangle as a
    draw applies it. *)

From S2P Require Import Prelude.

(** ** States by their D3D9 number *)

Definition RENDER_STATE_COUNT : nat := 210.

Definition D3DRS_ZENABLE : Z := 7.
Definition D3DRS_FILLMODE : Z := 8.
Definition D3DRS_ZWRITEENABLE : Z := 14.
Definition D3DRS_SRCBLEND : Z := 19.
Definition D3DRS_DESTBLEND : Z := 20.
Definition D3DRS_CULLMODE : Z := 22.
Definition D3DRS_ZFUNC : Z := 23.
Definition D3DRS_ALPHAFUNC : Z := 25.
Definition D3DRS_STENCILENABLE : Z := 52.
Definition D3DRS_STENCILFAIL : Z := 53.
Definition D3DRS_STENCILZFAIL : Z := 54.
Definition D3DRS_STENCILPASS : Z := 55.
Definition D3DRS_STENCILFUNC : Z := 56.
Definition D3DRS_STENCILMASK : Z := 58.
Definition D3DRS_STENCILWRITEMASK : Z := 59.
Definition D3DRS_COLORWRITEENABLE : Z := 168.
Definition D3DRS_BLENDOP : Z := 171.
Definition D3DRS_TWOSIDEDSTENCILMODE : Z := 185.
Definition D3DRS_CCW_STENCILFAIL : Z := 186.
Definition D3DRS_CCW_STENCILZFAIL : Z := 187.
Definition D3DRS_CCW_STENCILPASS : Z := 188.
Definition D3DRS_CCW_STENCILFUNC : Z := 189.
Definition D3DRS_COLORWRITEENABLE1 : Z := 190.
Definition D3DRS_COLORWRITEENABLE2 : Z := 191.
Definition D3DRS_COLORWRITEENABLE3 : Z := 192.
Definition D3DRS_SRCBLENDALPHA : Z := 207.
Definition D3DRS_DESTBLENDALPHA : Z := 208.
Definition D3DRS_BLENDOPALPHA : Z := 209.

(** The state array; a read past its end would panic, and no state does that. *)
Definition rs_at (rs : list Z) (state : Z) : Z := default 0 (rs !! Z.to_nat state).

Definition rs_ok (rs : list Z) : Prop := length rs = RENDER_STATE_COUNT /\ Forall (λ v, 0 <= v < 2 ^ 32) rs.

(** ** Value spaces *)

Inductive Space := SpaceEnum (first last default : Z) | SpaceMask (bits : Z).

Definition space_cmp (default : Z) : Space := SpaceEnum 1 8 default.
Definition space_blend (default : Z) : Space := SpaceEnum 1 17 default.

Definition space (state : Z) : option Space :=
  match state with
  | 23 => Some (space_cmp 4)
  | 25 | 56 | 189 => Some (space_cmp 8)
  | 19 | 207 => Some (space_blend 2)
  | 20 | 208 => Some (space_blend 1)
  | 171 | 209 => Some (SpaceEnum 1 5 1)
  | 8 => Some (SpaceEnum 1 3 3)
  | 22 => Some (SpaceEnum 1 3 3)
  | 53 | 54 | 55 | 186 | 187 | 188 => Some (SpaceEnum 1 8 1)
  | 168 | 190 | 191 | 192 => Some (SpaceMask 15)
  | _ => None
  end.

Definition low_byte (v : Z) : Z := Z.land v 255.

(** The slow path, warnings left out. *)
Definition enum_value_outside (rs : list Z) (state : Z) : Z :=
  let byte := low_byte (rs_at rs state) in
  match space state with
  | Some (SpaceEnum _ _ d) => d
  | Some (SpaceMask bits) => Z.land byte bits
  | None => byte
  end.

Definition enum_value (rs : list Z) (state : Z) : Z :=
  let value := rs_at rs state in
  let byte := low_byte value in
  match space state with
  | Some (SpaceEnum first last _) =>
      if (byte =? value) && (first <=? byte) && (byte <=? last) then byte else enum_value_outside rs state
  | Some (SpaceMask bits) =>
      if Z.ldiff value bits =? 0 then byte else enum_value_outside rs state
  | None => enum_value_outside rs state
  end.

(** What the state reads as: itself inside its space, its default outside it. *)
Definition narrowed (sp : Space) (v : Z) : Z :=
  match sp with
  | SpaceEnum first last d => if (first <=? v) && (v <=? last) then v else d
  | SpaceMask bits => Z.land v bits
  end.

Lemma space_bytes state sp : space state = Some sp ->
  match sp with
  | SpaceEnum first last d => 1 <= first /\ last <= 255 /\ first <= d <= last
  | SpaceMask bits => bits = 15
  end.
Proof.
  unfold space. intros H.
  repeat match type of H with
  | match ?x with _ => _ end = _ => destruct x; try discriminate H
  end; injection H as <-; cbn; done || lia.
Qed.

Lemma low_byte_eq v : 0 <= v -> low_byte v = v <-> v <= 255.
Proof.
  intros Hv. unfold low_byte. change 255 with (Z.ones 8) at 1. rewrite Z.land_ones by lia. change (2 ^ 8) with 256. split.
  - intros <-. pose proof (Z.mod_pos_bound v 256). lia.
  - intros ?. apply Z.mod_small. lia.
Qed.

Lemma enum_value_narrows rs state sp :
  0 <= rs_at rs state -> space state = Some sp -> enum_value rs state = narrowed sp (rs_at rs state).
Proof.
  intros Hv Hs. pose proof (space_bytes state sp Hs) as Hb. unfold enum_value, enum_value_outside. rewrite Hs.
  set (v := rs_at rs state) in *. destruct sp as [first last d|bits]; cbn [narrowed].
  - destruct (Z.eqb_spec (low_byte v) v) as [He|Hn]; cbn [andb]; [by rewrite He|].
    rewrite (low_byte_eq v Hv) in Hn. destruct (Z.leb_spec v last); [lia|]. by rewrite andb_false_r.
  - subst bits. assert (Z.land (low_byte v) 15 = Z.land v 15) as E by (unfold low_byte; by rewrite <- Z.land_assoc).
    destruct (Z.eqb_spec (Z.ldiff v 15) 0) as [He|_]; [|done]. rewrite <- E. apply Z.bits_inj'. intros i Hi.
    apply (f_equal (λ x, Z.testbit x i)) in He. rewrite Z.ldiff_spec, Z.bits_0 in He. unfold low_byte.
    rewrite !Z.land_spec. change 255 with (Z.ones 8). change 15 with (Z.ones 4) in *.
    rewrite !Z.testbit_ones_nonneg in * by lia. destruct (Z.ltb_spec i 4); [by rewrite andb_true_r|].
    rewrite andb_true_r in He. by rewrite He.
Qed.

(** Every narrowed state is a byte, and an enum state is in its space. *)
Lemma enum_value_in_space rs state sp :
  0 <= rs_at rs state -> space state = Some sp ->
  match sp with
  | SpaceEnum first last _ => first <= enum_value rs state <= last
  | SpaceMask bits => 0 <= enum_value rs state <= bits
  end.
Proof.
  intros Hv Hs. rewrite (enum_value_narrows rs state sp) by done. pose proof (space_bytes state sp Hs) as Hb.
  destruct sp as [first last d|bits]; cbn [narrowed].
  - destruct (_ && _) eqn:E; [|lia]. apply andb_true_iff in E as [?%Z.leb_le ?%Z.leb_le]. lia.
  - subst. change 15 with (Z.ones 4). rewrite Z.land_ones by lia. pose proof (Z.mod_pos_bound (rs_at rs state) (2 ^ 4)).
    change (Z.ones 4) with 15. lia.
Qed.

(** ** The scissor rectangle *)

Record Rect := mkRect { rx1 : Z; ry1 : Z; rx2 : Z; ry2 : Z }.

Definition I32_MAX : Z := 2147483647.

Definition saturating_i32 (value : Z) : Z := if I32_MAX <? value then I32_MAX else value.

Definition full_target_scissor (width height : Z) : Rect := mkRect 0 0 (saturating_i32 width) (saturating_i32 height).

Definition scissor_region (r : Rect) : Rect :=
  let x1 := if 0 <? rx1 r then rx1 r else 0 in
  let y1 := if 0 <? ry1 r then ry1 r else 0 in
  let x2 := if x1 <? rx2 r then rx2 r else x1 in
  let y2 := if y1 <? ry2 r then ry2 r else y1 in
  mkRect x1 y1 x2 y2.

(** [u16::try_from(v).unwrap_or(u16::MAX)] *)
Definition scissor_edge (v : Z) : Z := if (0 <=? v) && (v <=? 65535) then v else 65535.

Definition scissor_snapshot_rect (r : Rect) : list Z :=
  let c := scissor_region r in
  let x1 := scissor_edge (rx1 c) in
  let y1 := scissor_edge (ry1 c) in
  [x1; y1; scissor_edge (rx2 c) - x1; scissor_edge (ry2 c) - y1].

(** A texel the stored rectangle lets through. *)
Definition in_rect (r : Rect) (x y : Z) : Prop := rx1 r <= x < rx2 r /\ ry1 r <= y < ry2 r.

(** On any target a device can hold the snapshot lets through what the rectangle
    the game set does. *)
Lemma scissor_snapshot_exact r x y :
  0 <= x < 16384 -> 0 <= y < 16384 ->
  exists a b w h, scissor_snapshot_rect r = [a; b; w; h] /\ 0 <= w /\ 0 <= h
    /\ (in_rect r x y <-> a <= x < a + w /\ b <= y < b + h).
Proof.
  intros Hx Hy. unfold scissor_snapshot_rect, scissor_region, scissor_edge, in_rect. cbn [rx1 ry1 rx2 ry2].
  do 4 eexists. split; [reflexivity|]. repeat case_match; rewrite ?andb_true_iff, ?andb_false_iff, ?Z.leb_le, ?Z.leb_gt, ?Z.ltb_lt, ?Z.ltb_ge in *; lia.
Qed.
