(* ===== verification/DepthStencil.v ===== *)
(** [core/depth_stencil_state.rs]: the depth and stencil states of a draw as the
    game set them, what such a draw does to the two planes, the words two of them
    are compared by, and the key their Metal state object is cached under.  [core/convert.rs] translates the
    comparison and the stencil operations. *)

From S2P Require Import Prelude BitFields RenderState.

(** ** The translated enums *)

Inductive CompareFunc := CmpNever | CmpLess | CmpEqual | CmpLessEqual | CmpGreater | CmpNotEqual | CmpGreaterEqual | CmpAlways.

Inductive StencilOp := OpKeep | OpZero | OpReplace | OpIncrementClamp | OpDecrementClamp | OpInvert | OpIncrementWrap | OpDecrementWrap.

#[export] Instance CompareFunc_eq : EqDecision CompareFunc.
Proof. solve_decision. Defined.
#[export] Instance StencilOp_eq : EqDecision StencilOp.
Proof. solve_decision. Defined.

(** The wire encodings. *)
Definition compare_code (f : CompareFunc) : Z :=
  match f with
  | CmpNever => 0 | CmpLess => 1 | CmpEqual => 2 | CmpLessEqual => 3 | CmpGreater => 4 | CmpNotEqual => 5
  | CmpGreaterEqual => 6 | CmpAlways => 7
  end.

Definition stencil_op_code (o : StencilOp) : Z :=
  match o with
  | OpKeep => 0 | OpZero => 1 | OpReplace => 2 | OpIncrementClamp => 3 | OpDecrementClamp => 4 | OpInvert => 5
  | OpIncrementWrap => 6 | OpDecrementWrap => 7
  end.

(** A [D3DCMP] outside the enum compares always, a [D3DSTENCILOP] keeps. *)
Definition d3d_to_metal_cmp (func : Z) : CompareFunc :=
  match func with
  | 1 => CmpNever | 2 => CmpLess | 3 => CmpEqual | 4 => CmpLessEqual | 5 => CmpGreater | 6 => CmpNotEqual
  | 7 => CmpGreaterEqual | _ => CmpAlways
  end.

Definition d3d_to_metal_stencil_op (op : Z) : StencilOp :=
  match op with
  | 2 => OpZero | 3 => OpReplace | 4 => OpIncrementClamp | 5 => OpDecrementClamp | 6 => OpInvert
  | 7 => OpIncrementWrap | 8 => OpDecrementWrap | _ => OpKeep
  end.

(** ** Snapshots *)

Record StencilFaceState := mkFace { func : Z; fail_op : Z; depth_fail_op : Z; pass_op : Z }.

Record DepthStencilSnapshot := mkSnapshot {
  depth_enable : Z; depth_write : Z; depth_func : Z; stencil_enable : Z;
  front : StencilFaceState; back : StencilFaceState; read_mask : Z; write_mask : Z }.

Definition STENCIL_MASK_BITS : Z := 255.

Definition KEEP_FACE : StencilFaceState := mkFace 8 1 1 1.
Definition REPLACE_FACE : StencilFaceState := mkFace 8 3 3 3.

Definition inert : DepthStencilSnapshot := mkSnapshot 0 0 8 0 KEEP_FACE KEEP_FACE 0 0.
Definition depth_overwrite : DepthStencilSnapshot := mkSnapshot 1 1 8 0 KEEP_FACE KEEP_FACE 0 0.
Definition stencil_overwrite : DepthStencilSnapshot := mkSnapshot 0 0 8 1 REPLACE_FACE REPLACE_FACE 0 STENCIL_MASK_BITS.
Definition depth_stencil_overwrite : DepthStencilSnapshot := mkSnapshot 1 1 8 1 REPLACE_FACE REPLACE_FACE 0 STENCIL_MASK_BITS.

Definition snapshot_from_state (rs : list Z) : DepthStencilSnapshot :=
  let front := mkFace (enum_value rs D3DRS_STENCILFUNC) (enum_value rs D3DRS_STENCILFAIL)
                 (enum_value rs D3DRS_STENCILZFAIL) (enum_value rs D3DRS_STENCILPASS) in
  let back :=
    if rs_at rs D3DRS_TWOSIDEDSTENCILMODE =? 0 then front
    else mkFace (enum_value rs D3DRS_CCW_STENCILFUNC) (enum_value rs D3DRS_CCW_STENCILFAIL)
           (enum_value rs D3DRS_CCW_STENCILZFAIL) (enum_value rs D3DRS_CCW_STENCILPASS) in
  mkSnapshot (Z.b2z (negb (rs_at rs D3DRS_ZENABLE =? 0))) (Z.b2z (negb (rs_at rs D3DRS_ZWRITEENABLE =? 0)))
    (enum_value rs D3DRS_ZFUNC) (Z.b2z (negb (rs_at rs D3DRS_STENCILENABLE =? 0))) front back
    (rs_at rs D3DRS_STENCILMASK) (rs_at rs D3DRS_STENCILWRITEMASK).

Definition gated_on_stencil_attachment (s : DepthStencilSnapshot) (attachment_has_stencil : bool) : DepthStencilSnapshot :=
  if attachment_has_stencil then s
  else mkSnapshot (depth_enable s) (depth_write s) (depth_func s) 0 (front s) (back s) (read_mask s) (write_mask s).

Definition uses_depth (s : DepthStencilSnapshot) : bool :=
  negb (depth_enable s =? 0)
  && (negb (depth_write s =? 0) || negb (bool_decide (d3d_to_metal_cmp (depth_func s) = CmpAlways))).

(** [PipelineAttachFlags]: the planes a pipeline declares. *)
Definition HAS_DEPTH : Z := 1.
Definition ATTACH_STENCIL : Z := 2.

Definition attaches (attach bit : Z) : bool := Z.land attach bit =? bit.

(** [draw_writes_stencil] of [passes.rs]. *)
Definition face_keeps (f : StencilFaceState) : bool :=
  forallb (λ op, bool_decide (d3d_to_metal_stencil_op op = OpKeep)) [fail_op f; depth_fail_op f; pass_op f].

Definition draw_writes_stencil (ds : DepthStencilSnapshot) (attach : Z) : bool :=
  attaches attach ATTACH_STENCIL && negb (stencil_enable ds =? 0)
  && negb (Z.land (write_mask ds) STENCIL_MASK_BITS =? 0)
  && negb (face_keeps (front ds) && face_keeps (back ds)).

(** ** The key of the state object *)

Definition pack_face (f : StencilFaceState) : Z :=
  Z.lor (Z.lor (Z.lor (compare_code (d3d_to_metal_cmp (func f)))
    (Z.shiftl (stencil_op_code (d3d_to_metal_stencil_op (fail_op f))) 3))
    (Z.shiftl (stencil_op_code (d3d_to_metal_stencil_op (depth_fail_op f))) 6))
    (Z.shiftl (stencil_op_code (d3d_to_metal_stencil_op (pass_op f))) 9).

Definition key_from_snapshot (s : DepthStencilSnapshot) : Z :=
  let bits := 0 in
  let bits :=
    if negb (depth_enable s =? 0)
    then Z.lor bits (Z.lor (Z.lor 1 (Z.shiftl (Z.b2z (negb (depth_write s =? 0))) 1))
                       (Z.shiftl (compare_code (d3d_to_metal_cmp (depth_func s))) 2))
    else bits in
  if negb (stencil_enable s =? 0)
  then Z.lor bits (Z.lor (Z.lor (Z.lor (Z.lor (Z.shiftl 1 5) (Z.shiftl (pack_face (front s)) 6))
                       (Z.shiftl (pack_face (back s)) 18))
                       (Z.shiftl (Z.land (read_mask s) STENCIL_MASK_BITS) 30))
                       (Z.shiftl (Z.land (write_mask s) STENCIL_MASK_BITS) 38))
  else bits.

Record StencilFaceDescription := mkFaceDescription {
  compare_func : CompareFunc; stencil_fail : StencilOp; depth_fail : StencilOp; stencil_pass : StencilOp }.

Definition face_params (f : StencilFaceState) : StencilFaceDescription :=
  mkFaceDescription (d3d_to_metal_cmp (func f)) (d3d_to_metal_stencil_op (fail_op f))
    (d3d_to_metal_stencil_op (depth_fail_op f)) (d3d_to_metal_stencil_op (pass_op f)).

Record StencilDescription := mkStencilDescription {
  sd_front : StencilFaceDescription; sd_back : StencilFaceDescription; sd_read_mask : Z; sd_write_mask : Z }.

(** What the Metal object is built from, its label apart. *)
Record DepthStencilDescription := mkDescription {
  depth_compare_func : CompareFunc; depth_write_enable : bool; stencil : option StencilDescription }.

Definition description_from_snapshot (s : DepthStencilSnapshot) : DepthStencilDescription :=
  mkDescription (if negb (depth_enable s =? 0) then d3d_to_metal_cmp (depth_func s) else CmpAlways)
    (negb (depth_enable s =? 0) && negb (depth_write s =? 0))
    (if negb (stencil_enable s =? 0)
     then Some (mkStencilDescription (face_params (front s)) (face_params (back s))
                  (Z.land (read_mask s) STENCIL_MASK_BITS) (Z.land (write_mask s) STENCIL_MASK_BITS))
     else None).

(** ** The key is exact *)

Lemma compare_code_fits f : fits (3, compare_code f).
Proof. destruct f; by split. Qed.
Lemma stencil_op_code_fits o : fits (3, stencil_op_code o).
Proof. destruct o; by split. Qed.
Lemma compare_code_inj f g : compare_code f = compare_code g -> f = g.
Proof. by destruct f, g. Qed.
Lemma stencil_op_code_inj o p : stencil_op_code o = stencil_op_code p -> o = p.
Proof. by destruct o, p. Qed.

Definition face_fields (f : StencilFaceDescription) : list (Z * Z) :=
  [(3, compare_code (compare_func f)); (3, stencil_op_code (stencil_fail f)); (3, stencil_op_code (depth_fail f));
   (3, stencil_op_code (stencil_pass f))].

Lemma face_fields_fit f : Forall fits (face_fields f).
Proof. repeat constructor; auto using compare_code_fits, stencil_op_code_fits; apply compare_code_fits || apply stencil_op_code_fits. Qed.

Lemma pack_face_eq f : pack_face f = pack (face_fields (face_params f)).
Proof.
  pose proof (face_fields_fit (face_params f)) as H. unfold pack_face, face_fields, face_params in *.
  cbn [compare_func stencil_fail depth_fail stencil_pass] in *.
  rewrite !Forall_cons in H. destruct H as (H1 & H2 & H3 & H4 & _).
  rewrite <- (pack_one 3 (compare_code _)) at 1.
  rewrite (pack_snoc _ 3 _ 3), (pack_snoc _ 3 _ 6), (pack_snoc _ 3 _ 9) by fits_done. done.
Qed.

Lemma face_fits f : fits (12, pack_face f).
Proof. rewrite pack_face_eq. split; [done|]. apply (pack_range _ (face_fields_fit _)). Qed.

Lemma pack_face_inj f g : pack_face f = pack_face g -> face_params f = face_params g.
Proof.
  rewrite !pack_face_eq. intros H. apply pack_inj in H.
  - injection H as H1 H2 H3 H4. unfold face_params. f_equal; [by apply compare_code_inj|by apply stencil_op_code_inj..].
  - done.
  - apply face_fields_fit.
  - apply face_fields_fit.
Qed.

Definition zeroed (on : bool) (v : Z) : Z := if on then v else 0.

Lemma zeroed_fits on w v : fits (w, v) -> fits (w, zeroed on v).
Proof. intros [H1 H2]. cbn [fst snd] in *. destruct on; split; cbn [zeroed fst snd]; [done..|]. split; [done|]. by apply Z.pow_pos_nonneg. Qed.

Definition key_fields (s : DepthStencilSnapshot) : list (Z * Z) :=
  let d := negb (depth_enable s =? 0) in
  let st := negb (stencil_enable s =? 0) in
  [(1, zeroed d 1); (1, zeroed d (Z.b2z (negb (depth_write s =? 0))));
   (3, zeroed d (compare_code (d3d_to_metal_cmp (depth_func s)))); (1, zeroed st 1);
   (12, zeroed st (pack_face (front s))); (12, zeroed st (pack_face (back s)));
   (8, zeroed st (Z.land (read_mask s) STENCIL_MASK_BITS)); (8, zeroed st (Z.land (write_mask s) STENCIL_MASK_BITS))].

Lemma key_fields_fit s : Forall fits (key_fields s).
Proof.
  assert (forall m, fits (8, Z.land m STENCIL_MASK_BITS)) as Hm by (intros m; split; [done|]; by apply (land_ones_range m 8)).
  unfold key_fields. cbv zeta. repeat (apply Forall_cons_2; [apply zeroed_fits|]); [by split|apply b2z_fits|apply compare_code_fits|by split
    |apply face_fits|apply face_fits|apply Hm|apply Hm|apply Forall_nil_2].
Qed.

Lemma key_eq s : key_from_snapshot s = pack (key_fields s).
Proof.
  pose proof (key_fields_fit s) as H. unfold key_fields in *. cbv zeta in *. rewrite !Forall_cons in H.
  destruct H as (H1 & H2 & H3 & H4 & H5 & H6 & H7 & H8 & _).
  set (d := negb (depth_enable s =? 0)) in *. set (st := negb (stencil_enable s =? 0)) in *.
  set (w := zeroed d (Z.b2z _)) in *. set (f := zeroed d (compare_code _)) in *. set (a := zeroed st (pack_face (front s))) in *.
  set (b := zeroed st (pack_face (back s))) in *. set (r := zeroed st (Z.land (read_mask s) _)) in *.
  set (m := zeroed st (Z.land (write_mask s) _)) in *.
  trans (Z.lor (Z.lor (Z.lor (Z.lor (Z.lor (Z.lor (Z.lor (zeroed d 1) (Z.shiftl w 1)) (Z.shiftl f 2)) (Z.shiftl (zeroed st 1) 5))
    (Z.shiftl a 6)) (Z.shiftl b 18)) (Z.shiftl r 30)) (Z.shiftl m 38)).
  - unfold key_from_snapshot, w, f, a, b, r, m. fold d st. cbv zeta. rewrite Z.lor_0_l.
    destruct d, st; cbn [zeroed]; rewrite ?Z.shiftl_0_l, ?Z.lor_0_l, ?Z.lor_0_r, ?Z.lor_assoc; done.
  - rewrite <- (pack_one 1 (zeroed d 1)) at 1. rewrite (pack_snoc _ 1 _ 1), (pack_snoc _ 3 _ 2), (pack_snoc _ 1 _ 5), (pack_snoc _ 12 _ 6),
      (pack_snoc _ 12 _ 18), (pack_snoc _ 8 _ 30), (pack_snoc _ 8 _ 38) by fits_done. done.
Qed.

(** ** Comparing by words *)

(** [u32::from_le_bytes] of the four bytes. *)
Definition face_word (f : StencilFaceState) : Z :=
  func f + 256 * (fail_op f + 256 * (depth_fail_op f + 256 * pass_op f)).

Definition snapshot_words (s : DepthStencilSnapshot) : list Z :=
  [Z.lor (Z.lor (Z.lor (Z.lor (depth_enable s) (Z.shiftl (depth_write s) 8)) (Z.shiftl (depth_func s) 16))
     (Z.shiftl (stencil_enable s) 24)) (Z.shiftl (face_word (front s)) 32);
   Z.lor (face_word (back s)) (Z.shiftl (read_mask s) 32); write_mask s].

Definition byte_ok (v : Z) : Prop := 0 <= v < 2 ^ 8.

Definition face_ok (f : StencilFaceState) : Prop :=
  byte_ok (func f) /\ byte_ok (fail_op f) /\ byte_ok (depth_fail_op f) /\ byte_ok (pass_op f).

(** The fields are as wide as the struct declares them. *)
Definition snapshot_ok (s : DepthStencilSnapshot) : Prop :=
  byte_ok (depth_enable s) /\ byte_ok (depth_write s) /\ byte_ok (depth_func s) /\ byte_ok (stencil_enable s)
  /\ face_ok (front s) /\ face_ok (back s) /\ 0 <= read_mask s < 2 ^ 32 /\ 0 <= write_mask s < 2 ^ 32.

Definition face_bytes (f : StencilFaceState) : list (Z * Z) :=
  [(8, func f); (8, fail_op f); (8, depth_fail_op f); (8, pass_op f)].

Lemma face_word_fits f : face_ok f -> fits (32, face_word f).
Proof. unfold face_ok, byte_ok, fits, face_word. cbn [fst snd]. lia. Qed.

Lemma face_word_inj f g : face_ok f -> face_ok g -> face_word f = face_word g -> f = g.
Proof. destruct f, g. unfold face_ok, byte_ok, face_word. cbn [func fail_op depth_fail_op pass_op]. intros. f_equal; lia. Qed.

Definition first_word (s : DepthStencilSnapshot) : list (Z * Z) :=
  [(8, depth_enable s); (8, depth_write s); (8, depth_func s); (8, stencil_enable s); (32, face_word (front s))].
Definition second_word (s : DepthStencilSnapshot) : list (Z * Z) := [(32, face_word (back s)); (32, read_mask s)].

Lemma words_fit s : snapshot_ok s -> Forall fits (first_word s) /\ Forall fits (second_word s).
Proof.
  intros (H1 & H2 & H3 & H4 & Hf & Hb & Hr & _). split; repeat (apply Forall_cons_2; [try by apply face_word_fits|]);
    try apply Forall_nil_2; by split.
Qed.

Lemma snapshot_words_pack s : snapshot_ok s -> snapshot_words s = [pack (first_word s); pack (second_word s); write_mask s].
Proof.
  intros H. destruct (words_fit s H) as [Hf Hs]. unfold first_word, second_word, snapshot_words in *.
  rewrite !Forall_cons in Hf. rewrite !Forall_cons in Hs. destruct Hf as (H1 & H2 & H3 & H4 & H5 & _), Hs as (H6 & H7 & _).
  f_equal; [|f_equal].
  - rewrite <- (pack_one 8 (depth_enable s)) at 1.
    by rewrite (pack_snoc _ 8 _ 8), (pack_snoc _ 8 _ 16), (pack_snoc _ 8 _ 24), (pack_snoc _ 32 _ 32) by fits_done.
  - rewrite <- (pack_one 32 (face_word (back s))) at 1. by rewrite (pack_snoc _ 32 _ 32) by fits_done.
Qed.

(** The comparison by words is equality. *)
Lemma snapshot_words_eq s t : snapshot_ok s -> snapshot_ok t -> snapshot_words s = snapshot_words t <-> s = t.
Proof.
  intros Hs Ht. split; [|by intros ->]. rewrite !snapshot_words_pack by done. intros H.
  destruct (words_fit s Hs) as [Fs Gs], (words_fit t Ht) as [Ft Gt].
  injection H as H1 H2 H3. apply (pack_inj (first_word s) (first_word t)) in H1; [|done..].
  apply (pack_inj (second_word s) (second_word t)) in H2; [|done..].
  destruct Hs as (_ & _ & _ & _ & Hf & Hb & _), Ht as (_ & _ & _ & _ & Hf' & Hb' & _).
  injection H1 as E1 E2 E3 E4 E5. injection H2 as E6 E7.
  apply face_word_inj in E5; [|done..]. apply face_word_inj in E6; [|done..]. destruct s, t; cbn in *; by subst.
Qed.

Lemma rs_at_range rs state : rs_ok rs -> 0 <= rs_at rs state < 2 ^ 32.
Proof.
  intros [_ H]. unfold rs_at. destruct (rs !! Z.to_nat state) as [v|] eqn:E; cbn; [|lia].
  by eapply (Forall_lookup_1 (λ v, 0 <= v < 2 ^ 32)).
Qed.

Lemma enum_byte rs state first last d : rs_ok rs -> space state = Some (SpaceEnum first last d) -> byte_ok (enum_value rs state).
Proof.
  intros Hr Hs. pose proof (rs_at_range rs state Hr) as Hv. pose proof (space_bytes state _ Hs) as Hb.
  pose proof (enum_value_in_space rs state _ ltac:(lia) Hs) as He. cbn in *. unfold byte_ok. lia.
Qed.

(** What the device builds a snapshot from keeps every field to its width. *)
Lemma snapshot_from_state_ok rs : rs_ok rs -> snapshot_ok (snapshot_from_state rs).
Proof.
  intros H. unfold snapshot_from_state, snapshot_ok. cbv zeta.
  cbn [depth_enable depth_write depth_func stencil_enable front back read_mask write_mask].
  assert (forall b : bool, byte_ok (Z.b2z b)) as Hb by (intros []; by unfold byte_ok; cbn).
  assert (forall f x y z, byte_ok f -> byte_ok x -> byte_ok y -> byte_ok z -> face_ok (mkFace f x y z)) as Hk by (intros; unfold face_ok; cbn [func fail_op depth_fail_op pass_op]; auto).
  split_and!; try apply Hb; try by apply rs_at_range.
  all: try by (eapply enum_byte; [done|reflexivity]).
  all: destruct (rs_at rs D3DRS_TWOSIDEDSTENCILMODE =? 0); apply Hk; (eapply enum_byte; [done|reflexivity]).
Qed.

(** the cache key of a depth-stencil state is exact: two snapshots share a
    key just when the Metal state objects built from them are the same and
    both have the depth test on or both off.  Raw values past an enum, masks
    past the low byte and the fields behind a disabled test make no
    difference. *)
Theorem depth_stencil_key_exact (s t : DepthStencilSnapshot) :
  key_from_snapshot s = key_from_snapshot t
  <-> (depth_enable s =? 0) = (depth_enable t =? 0) /\ description_from_snapshot s = description_from_snapshot t.
Proof.
  rewrite !key_eq. split.
  - intros H. apply pack_inj in H.
    + unfold key_fields, description_from_snapshot in *. cbv zeta in *. injection H as H1 H2 H3 H4 H5 H6 H7 H8.
      destruct (depth_enable s =? 0), (depth_enable t =? 0); cbn [negb zeroed andb] in *; try done;
        destruct (stencil_enable s =? 0), (stencil_enable t =? 0); cbn [negb zeroed] in *; try done; (split; [done|]);
        rewrite ?H7, ?H8, ?(pack_face_inj _ _ H5), ?(pack_face_inj _ _ H6), ?(compare_code_inj _ _ H3); try done;
        by destruct (depth_write s =? 0), (depth_write t =? 0).
    + done.
    + apply key_fields_fit.
    + apply key_fields_fit.
  - intros [Hd H]. f_equal. unfold key_fields, description_from_snapshot in *. cbv zeta. injection H as H1 H2 H3.
    rewrite <- Hd in *. destruct (depth_enable s =? 0), (stencil_enable s =? 0), (stencil_enable t =? 0);
      cbn [negb zeroed andb] in *; try done; rewrite ?H1, ?H2; try done;
      apply (inj Some) in H3; pose proof (f_equal sd_front H3) as Hf; pose proof (f_equal sd_back H3) as Hb;
      pose proof (f_equal sd_read_mask H3) as Hr; pose proof (f_equal sd_write_mask H3) as Hw;
      cbn [sd_front sd_back sd_read_mask sd_write_mask] in *; by rewrite !pack_face_eq, Hf, Hb, Hr, Hw.
Qed.
