(* ===== verification/PipelineState.v ===== *)
(** [core/pipeline_state.rs]: the state of a draw that is baked into its Metal
    pipeline, the key the pipeline is cached under, and the description it is
    built from; [metal/pipeline.rs] turns the description into the descriptor
    Metal compiles. *)

From S2P Require Import Prelude Mtl.

(** ** The translated enums, [core/convert.rs] *)

Inductive BlendFactor :=
  | FZero | FOne | FSourceColor | FOneMinusSourceColor | FSourceAlpha | FOneMinusSourceAlpha | FDestinationAlpha
  | FOneMinusDestinationAlpha | FDestinationColor | FOneMinusDestinationColor | FSourceAlphaSaturated | FBlendColor
  | FOneMinusBlendColor.

Inductive BlendOperation := OpAdd | OpSubtract | OpReverseSubtract | OpMin | OpMax.

#[export] Instance BlendFactor_eq : EqDecision BlendFactor.
Proof. solve_decision. Defined.
#[export] Instance BlendOperation_eq : EqDecision BlendOperation.
Proof. solve_decision. Defined.

Definition d3d_to_metal_blend (d3d : Z) : BlendFactor :=
  match d3d with
  | 1 => FZero | 2 => FOne | 3 => FSourceColor | 4 => FOneMinusSourceColor
  | 5 | 12 => FSourceAlpha | 6 | 13 => FOneMinusSourceAlpha
  | 7 => FDestinationAlpha | 8 => FOneMinusDestinationAlpha | 9 => FDestinationColor | 10 => FOneMinusDestinationColor
  | 11 => FSourceAlphaSaturated | 14 => FBlendColor | 15 => FOneMinusBlendColor | _ => FZero
  end.

Definition D3DBLEND_DESTALPHA : Z := 7.
Definition D3DBLEND_INVDESTALPHA : Z := 8.

Definition d3d_to_metal_blend_rt (d3d : Z) (rt_has_alpha : bool) : BlendFactor :=
  if negb rt_has_alpha then
    if d3d =? D3DBLEND_DESTALPHA then FOne
    else if d3d =? D3DBLEND_INVDESTALPHA then FZero
    else d3d_to_metal_blend d3d
  else d3d_to_metal_blend d3d.

Definition d3d_to_metal_blend_op (op : Z) : BlendOperation :=
  match op with 1 => OpAdd | 2 => OpSubtract | 3 => OpReverseSubtract | 4 => OpMin | 5 => OpMax | _ => OpAdd end.

(** [ColorWriteMask]: alpha 1, blue 2, green 4, red 8. *)
Definition d3d_to_metal_write_mask (m : Z) : Z :=
  Z.lor (Z.lor (Z.lor (if Z.land m 1 =? 0 then 0 else 8) (if Z.land m 2 =? 0 then 0 else 4))
    (if Z.land m 4 =? 0 then 0 else 2)) (if Z.land m 8 =? 0 then 0 else 1).

(** ** The snapshot *)

(** [PipelineRsFlags] *)
Definition BLEND_ENABLE : Z := 1.
Definition SEPARATE_ALPHA_BLEND : Z := 2.
Definition ALPHA_TO_COVERAGE : Z := 4.

(** [PipelineAttachFlags] *)
Definition PA_HAS_DEPTH : Z := 1.
Definition PA_HAS_STENCIL : Z := 2.
Definition HAS_COLOR_OUTPUT : Z := 4.
Definition COLOR_HAS_ALPHA : Z := 8.

Record PipelineRsBits := mkRsBits {
  rs_flags : Z; src_blend : Z; dst_blend : Z; blend_op : Z;
  src_blend_alpha : Z; dst_blend_alpha : Z; blend_op_alpha : Z;
  color_write_mask : Z; color_write_mask_ext : list Z }.

(** Colour attachments 1 to 3, by index 0 to 2. *)
Record ExtraColorAttachments := mkExtra { formats : list PixelFormat; present_mask : Z; has_alpha_mask : Z }.

Definition NONE : ExtraColorAttachments := mkExtra [Bgra8Unorm; Bgra8Unorm; Bgra8Unorm] 0 0.

Definition is_present (e : ExtraColorAttachments) (i : nat) : bool := Z.testbit (present_mask e) (Z.of_nat i).
Definition extra_has_alpha (e : ExtraColorAttachments) (i : nat) : bool := Z.testbit (has_alpha_mask e) (Z.of_nat i).

Inductive VertexStepFunction := StepConstant | StepPerVertex | StepPerInstance.

#[export] Instance VertexStepFunction_eq : EqDecision VertexStepFunction.
Proof. solve_decision. Defined.

Definition step_code (f : VertexStepFunction) : Z :=
  match f with StepConstant => 0 | StepPerVertex => 1 | StepPerInstance => 2 end.

Record StreamLayout := mkLayout { stride : Z; step : VertexStepFunction; step_rate : Z }.

#[export] Instance StreamLayout_eq : EqDecision StreamLayout.
Proof. solve_decision. Defined.

Definition UNUSED : StreamLayout := mkLayout 0 StepPerVertex 0.
Definition is_used (l : StreamLayout) : bool := negb (stride l =? 0).

Record PipelineSnapshot := mkPipelineSnapshot {
  vs_fn : Z; ps_fn : Z; vdecl_hash : Z; stream_layouts : list StreamLayout; color_format : PixelFormat;
  attach : Z; rs : PipelineRsBits; extra : ExtraColorAttachments; ps_color_out_mask : Z; sample_count : Z }.

Definition blend_enable (r : PipelineRsBits) : bool := flag (rs_flags r) BLEND_ENABLE.
Definition separate_alpha_blend_enable (r : PipelineRsBits) : bool := flag (rs_flags r) SEPARATE_ALPHA_BLEND.
Definition alpha_to_coverage (r : PipelineRsBits) (samples : Z) : bool :=
  (1 <? samples) && flag (rs_flags r) ALPHA_TO_COVERAGE.

Definition extra_write_mask (r : PipelineRsBits) (e : ExtraColorAttachments) (out_mask : Z) (i : nat) : Z :=
  if is_present e i && Z.testbit out_mask (Z.of_nat (S i))
  then d3d_to_metal_write_mask (nth i (color_write_mask_ext r) 0)
  else 0.

Definition writes_rt0 (r : PipelineRsBits) (out_mask : Z) : bool :=
  negb (color_write_mask r =? 0) && Z.testbit out_mask 0.

Definition writes_no_color (r : PipelineRsBits) (e : ExtraColorAttachments) (out_mask : Z) : bool :=
  (color_write_mask r =? 0) && forallb (λ i, extra_write_mask r e out_mask i =? 0) (seq 0 3).

Definition has_depth (s : PipelineSnapshot) : bool := flag (attach s) PA_HAS_DEPTH.
Definition pso_has_stencil (s : PipelineSnapshot) : bool := flag (attach s) PA_HAS_STENCIL.
Definition has_color_output (s : PipelineSnapshot) : bool := flag (attach s) HAS_COLOR_OUTPUT.
Definition color_has_alpha (s : PipelineSnapshot) : bool := flag (attach s) COLOR_HAS_ALPHA.

Definition remove_color_output (s : PipelineSnapshot) : PipelineSnapshot :=
  mkPipelineSnapshot (vs_fn s) (ps_fn s) (vdecl_hash s) (stream_layouts s) (color_format s)
    (Z.ldiff (attach s) HAS_COLOR_OUTPUT) (rs s) NONE (ps_color_out_mask s) (sample_count s).

Definition extra_format (s : PipelineSnapshot) (i : nat) : PixelFormat :=
  if is_present (extra s) i then nth i (formats (extra s)) Bgra8Unorm else nth i (formats NONE) Bgra8Unorm.

(** [same_layouts]: the words of two arrays folded into one difference. *)
Definition layout_difference (l r : StreamLayout) : Z :=
  Z.lor (Z.lor (Z.lxor (stride l) (stride r)) (Z.lxor (step_code (step l)) (step_code (step r))))
    (Z.lxor (step_rate l) (step_rate r)).

Definition same_layouts (left right : list StreamLayout) : bool :=
  foldl (λ d lr, Z.lor d (layout_difference lr.1 lr.2)) 0 (zip left right) =? 0.

(** ** Blending as it reaches Metal *)

Record EffectiveBlend := mkBlend {
  eb_enable : bool; eb_src : Z; eb_dst : Z; eb_op : Z; eb_src_alpha : Z; eb_dst_alpha : Z; eb_op_alpha : Z;
  eb_separate_alpha : bool }.

Definition both_src_alpha (src dst : Z) : Z * Z :=
  match src with 12 => (5, 6) | 13 => (6, 5) | _ => (src, dst) end.

Definition min_max_factors (src dst op : Z) : Z * Z :=
  match op with 4 | 5 => (2, 2) | _ => (src, dst) end.

Definition blend_equation (src dst op : Z) : Z * Z * Z :=
  let '(src, dst) := both_src_alpha src dst in
  let '(src, dst) := min_max_factors src dst op in
  (src, dst, op).

Definition effective_blend (s : PipelineSnapshot) : EffectiveBlend :=
  let r := rs s in
  if negb (blend_enable r) || negb (has_color_output s) then mkBlend false 2 1 1 2 1 1 false
  else
    let '(src, dst, op) := blend_equation (src_blend r) (dst_blend r) (blend_op r) in
    let '(srca, dsta, opa) :=
      if separate_alpha_blend_enable r
      then blend_equation (src_blend_alpha r) (dst_blend_alpha r) (blend_op_alpha r)
      else (src, dst, op) in
    mkBlend true src dst op srca dsta opa (negb (bool_decide ((srca, dsta, opa) = (src, dst, op)))).

Definition extra_blend_factors (s : PipelineSnapshot) (b : EffectiveBlend) (i : nat)
  : BlendFactor * BlendFactor * BlendFactor * BlendFactor :=
  let a := is_present (extra s) i && extra_has_alpha (extra s) i in
  (d3d_to_metal_blend_rt (eb_src b) a, d3d_to_metal_blend_rt (eb_dst b) a,
   d3d_to_metal_blend_rt (eb_src_alpha b) a, d3d_to_metal_blend_rt (eb_dst_alpha b) a).

(** ** Key and description *)

(** [VertexAttrDesc], one attribute of the vertex descriptor. *)
Record VertexAttrDesc := mkAttr { attr_index : Z; va_offset : Z; va_format : Z; va_buffer_index : Z }.

Record PipelineKey := mkKey {
  k_vs_fn : Z; k_ps_fn : Z; k_vertex_attrs_hash : Z; k_stream_layouts : list StreamLayout; k_flags : Z; k_attach : Z;
  k_src_blend : BlendFactor; k_dst_blend : BlendFactor; k_blend_op : BlendOperation;
  k_src_blend_alpha : BlendFactor; k_dst_blend_alpha : BlendFactor; k_blend_op_alpha : BlendOperation;
  k_color_write_mask : Z; k_color_format : PixelFormat; k_extra_present_mask : Z; k_extra_has_alpha_mask : Z;
  k_extra_formats : list PixelFormat; k_extra_write_masks : list Z; k_sample_count : Z }.

(** [Flags::set] on an empty set. *)
Definition bit_if (b : bool) (bit : Z) : Z := if b then bit else 0.

(** An extra target blends: its factors are keyed before target 0's clamp. *)
Definition mrt_blend (s : PipelineSnapshot) : bool :=
  eb_enable (effective_blend s) && negb (present_mask (extra s) =? 0).

Definition extra_masks (s : PipelineSnapshot) : list Z :=
  extra_write_mask (rs s) (extra s) (ps_color_out_mask s) <$> seq 0 3.

Definition key_from_snapshot (attrs_hash : list VertexAttrDesc -> Z) (s : PipelineSnapshot) (vertex_attrs : list VertexAttrDesc)
  : PipelineKey :=
  let blend := effective_blend s in
  let color := has_color_output s in
  let mrt := eb_enable blend && negb (present_mask (extra s) =? 0) in
  let factor d3d := if mrt then d3d_to_metal_blend d3d else d3d_to_metal_blend_rt d3d (color_has_alpha s) in
  mkKey (vs_fn s) (ps_fn s) (attrs_hash vertex_attrs) (stream_layouts s)
    (Z.lor (bit_if (eb_enable blend) BLEND_ENABLE) (bit_if (alpha_to_coverage (rs s) (sample_count s)) ALPHA_TO_COVERAGE))
    (if mrt then attach s else Z.ldiff (attach s) COLOR_HAS_ALPHA)
    (factor (eb_src blend)) (factor (eb_dst blend)) (d3d_to_metal_blend_op (eb_op blend))
    (factor (eb_src_alpha blend)) (factor (eb_dst_alpha blend)) (d3d_to_metal_blend_op (eb_op_alpha blend))
    (if color then d3d_to_metal_write_mask (color_write_mask (rs s)) else 0)
    (if color then color_format s else nth 0 (formats NONE) Bgra8Unorm)
    (present_mask (extra s))
    (if eb_enable blend then Z.land (has_alpha_mask (extra s)) (present_mask (extra s)) else 0)
    (extra_format s <$> seq 0 3) (extra_masks s) (Z.max (sample_count s) 1).

Record ExtraDescription := mkExtraDescription {
  xd_format : PixelFormat; xd_write_mask : Z; xd_factors : BlendFactor * BlendFactor * BlendFactor * BlendFactor }.

(** [VertexBufferLayoutDesc]: buffer index and layout. *)
Definition vertex_layouts_from_snapshot (s : PipelineSnapshot) : list (nat * StreamLayout) :=
  List.filter (λ nl, is_used nl.2) (zip (seq 0 (length (stream_layouts s))) (stream_layouts s)).

Record PipelineDescription := mkPipelineDescription {
  d_vs_fn : Z; d_ps_fn : Z; d_vertex_attrs : list VertexAttrDesc; d_vertex_layouts : list (nat * StreamLayout);
  d_flags : Z; d_attach : Z; d_src_blend : BlendFactor; d_dst_blend : BlendFactor; d_blend_op : BlendOperation;
  d_src_blend_alpha : BlendFactor; d_dst_blend_alpha : BlendFactor; d_blend_op_alpha : BlendOperation;
  d_color_write_mask : Z; d_color_format : PixelFormat; d_extra_present_mask : Z; d_sample_count : Z;
  d_extra : list ExtraDescription }.

Definition description_from_snapshot (s : PipelineSnapshot) (vertex_attrs : list VertexAttrDesc) : PipelineDescription :=
  let blend := effective_blend s in
  let a := color_has_alpha s in
  mkPipelineDescription (vs_fn s) (ps_fn s) vertex_attrs (vertex_layouts_from_snapshot s)
    (Z.lor (Z.lor (bit_if (eb_enable blend) BLEND_ENABLE) (bit_if (eb_separate_alpha blend) SEPARATE_ALPHA_BLEND))
       (bit_if (alpha_to_coverage (rs s) (sample_count s)) ALPHA_TO_COVERAGE))
    (attach s) (d3d_to_metal_blend_rt (eb_src blend) a) (d3d_to_metal_blend_rt (eb_dst blend) a)
    (d3d_to_metal_blend_op (eb_op blend)) (d3d_to_metal_blend_rt (eb_src_alpha blend) a)
    (d3d_to_metal_blend_rt (eb_dst_alpha blend) a) (d3d_to_metal_blend_op (eb_op_alpha blend))
    (d3d_to_metal_write_mask (color_write_mask (rs s))) (color_format s) (present_mask (extra s))
    (Z.max (sample_count s) 1)
    ((λ i, mkExtraDescription (extra_format s i) (extra_write_mask (rs s) (extra s) (ps_color_out_mask s) i)
             (extra_blend_factors s blend i)) <$> seq 0 3).

(** ** What Metal compiles *)

Record BlendSetup := mkBlendSetup {
  b_factors : BlendFactor * BlendFactor * BlendFactor * BlendFactor; b_rgb_op : BlendOperation; b_alpha_op : BlendOperation }.

(** One colour attachment of the descriptor: format, write mask, blending. *)
Record ColorSetup := mkColorSetup { cs_format : PixelFormat; cs_mask : Z; cs_blend : option BlendSetup }.

Record Descriptor := mkDescriptor {
  m_vs : Z; m_ps : Z; m_attrs : list VertexAttrDesc; m_layouts : list (nat * StreamLayout); m_samples : Z; m_a2c : bool;
  m_color0 : option ColorSetup; m_extra : list (option ColorSetup); m_depth : option PixelFormat; m_stencil : bool }.

(** [create_render_pipeline], up to the call that compiles; the label is left out. *)
Definition create_render_pipeline (d : PipelineDescription) : Descriptor :=
  let blending := flag (d_flags d) BLEND_ENABLE in
  let setup f := if blending then Some (mkBlendSetup f (d_blend_op d) (d_blend_op_alpha d)) else None in
  mkDescriptor (d_vs_fn d) (d_ps_fn d) (d_vertex_attrs d) (d_vertex_layouts d) (Z.max (d_sample_count d) 1)
    (flag (d_flags d) ALPHA_TO_COVERAGE)
    (if flag (d_attach d) HAS_COLOR_OUTPUT
     then Some (mkColorSetup (d_color_format d) (d_color_write_mask d)
                  (setup (d_src_blend d, d_dst_blend d, d_src_blend_alpha d, d_dst_blend_alpha d)))
     else None)
    ((λ ix : nat * ExtraDescription,
        if Z.testbit (d_extra_present_mask d) (Z.of_nat ix.1)
        then Some (mkColorSetup (xd_format ix.2) (xd_write_mask ix.2) (setup (xd_factors ix.2))) else None)
     <$> zip (seq 0 3) (d_extra d))
    (if flag (d_attach d) PA_HAS_DEPTH
     then Some (if flag (d_attach d) PA_HAS_STENCIL then Depth32FloatStencil8 else Depth32Float) else None)
    (flag (d_attach d) PA_HAS_DEPTH && flag (d_attach d) PA_HAS_STENCIL).

(** ** The descriptor is a function of the key *)

(** Destination alpha reads as one on a target without an alpha channel. *)
Definition clamp_factor (f : BlendFactor) (a : bool) : BlendFactor :=
  if a then f else match f with FDestinationAlpha => FOne | FOneMinusDestinationAlpha => FZero | _ => f end.

Lemma blend_rt_clamp d a : d3d_to_metal_blend_rt d a = clamp_factor (d3d_to_metal_blend d) a.
Proof. destruct a; [done|]. destruct d as [|p|p]; [done| |done]. do 4 (destruct p as [p|p|]; try done). Qed.

Definition clamp_all (f : BlendFactor * BlendFactor * BlendFactor * BlendFactor) (a : bool) :=
  let '(x, y, z, w) := f in (clamp_factor x a, clamp_factor y a, clamp_factor z a, clamp_factor w a).

(** What Metal compiles, read off the key alone. *)
Definition descriptor_of_key (k : PipelineKey) (attrs : list VertexAttrDesc) : Descriptor :=
  let blending := flag (k_flags k) BLEND_ENABLE in
  let factors := (k_src_blend k, k_dst_blend k, k_src_blend_alpha k, k_dst_blend_alpha k) in
  let mrt := blending && negb (k_extra_present_mask k =? 0) in
  let setup f := if blending then Some (mkBlendSetup f (k_blend_op k) (k_blend_op_alpha k)) else None in
  mkDescriptor (k_vs_fn k) (k_ps_fn k) attrs
    (List.filter (λ nl, is_used nl.2) (zip (seq 0 (length (k_stream_layouts k))) (k_stream_layouts k)))
    (k_sample_count k) (flag (k_flags k) ALPHA_TO_COVERAGE)
    (if flag (k_attach k) HAS_COLOR_OUTPUT
     then Some (mkColorSetup (k_color_format k) (k_color_write_mask k)
                  (setup (if mrt then clamp_all factors (flag (k_attach k) COLOR_HAS_ALPHA) else factors)))
     else None)
    ((λ i, if Z.testbit (k_extra_present_mask k) (Z.of_nat i)
           then Some (mkColorSetup (nth i (k_extra_formats k) Bgra8Unorm) (nth i (k_extra_write_masks k) 0)
                        (setup (clamp_all factors (Z.testbit (k_extra_has_alpha_mask k) (Z.of_nat i)))))
           else None) <$> seq 0 3)
    (if flag (k_attach k) PA_HAS_DEPTH
     then Some (if flag (k_attach k) PA_HAS_STENCIL then Depth32FloatStencil8 else Depth32Float) else None)
    (flag (k_attach k) PA_HAS_DEPTH && flag (k_attach k) PA_HAS_STENCIL).

Lemma attach_ldiff a m bit : Z.land m bit = 0 -> flag (Z.ldiff a m) bit = flag a bit.
Proof.
  intros H. unfold flag. do 2 f_equal. apply Z.bits_inj'. intros i Hi.
  apply (f_equal (λ x, Z.testbit x i)) in H. rewrite Z.land_spec, Z.bits_0 in H.
  rewrite !Z.land_spec, Z.ldiff_spec. destruct (Z.testbit bit i); [|by rewrite !andb_false_r].
  rewrite andb_true_r in H. by rewrite H, !andb_true_r.
Qed.

Lemma key_flags e a :
  flag (Z.lor (bit_if e BLEND_ENABLE) (bit_if a ALPHA_TO_COVERAGE)) BLEND_ENABLE = e
  /\ flag (Z.lor (bit_if e BLEND_ENABLE) (bit_if a ALPHA_TO_COVERAGE)) ALPHA_TO_COVERAGE = a.
Proof. by destruct e, a. Qed.

Lemma description_flags e x a :
  flag (Z.lor (Z.lor (bit_if e BLEND_ENABLE) (bit_if x SEPARATE_ALPHA_BLEND)) (bit_if a ALPHA_TO_COVERAGE)) BLEND_ENABLE = e
  /\ flag (Z.lor (Z.lor (bit_if e BLEND_ENABLE) (bit_if x SEPARATE_ALPHA_BLEND)) (bit_if a ALPHA_TO_COVERAGE)) ALPHA_TO_COVERAGE = a.
Proof. by destruct e, x, a. Qed.

(** Blending needs a colour output. *)
Lemma blend_needs_color s : has_color_output s = false -> eb_enable (effective_blend s) = false.
Proof. intros H. unfold effective_blend. by rewrite H, orb_true_r. Qed.

Lemma descriptor_key h s attrs :
  create_render_pipeline (description_from_snapshot s attrs) = descriptor_of_key (key_from_snapshot h s attrs) attrs.
Proof.
  unfold create_render_pipeline, description_from_snapshot, descriptor_of_key, key_from_snapshot. cbv zeta.
  cbn -[flag extra_write_mask extra_format effective_blend d3d_to_metal_write_mask Z.testbit Z.max present_mask].
  fold (mrt_blend s).
  rewrite !(proj1 (description_flags _ _ _)), !(proj2 (description_flags _ _ _)), !(proj1 (key_flags _ _)), !(proj2 (key_flags _ _)).
  assert (forall bit, Z.land COLOR_HAS_ALPHA bit = 0 ->
    flag (if mrt_blend s then attach s else Z.ldiff (attach s) COLOR_HAS_ALPHA) bit = flag (attach s) bit) as Ha.
  { intros bit Hb. destruct (mrt_blend s); [done|]. by apply attach_ldiff. }
  rewrite (Ha HAS_COLOR_OUTPUT), !(Ha PA_HAS_DEPTH), !(Ha PA_HAS_STENCIL) by done. fold (mrt_blend s). fold (has_color_output s). f_equal.
  - lia.
  - destruct (has_color_output s) eqn:Hc; [|done]. do 2 f_equal. unfold mrt_blend.
    destruct (eb_enable (effective_blend s)); [|done]. cbn [andb]. do 2 f_equal.
    destruct (present_mask (extra s) =? 0); [done|]. cbn [negb]. unfold clamp_all. by rewrite !blend_rt_clamp.
  - unfold extra_blend_factors, is_present, extra_has_alpha, mrt_blend.
    assert (forall i, Z.testbit (present_mask (extra s)) i = true -> (present_mask (extra s) =? 0) = false) as Hp.
    { intros i Hb. apply Z.eqb_neq. intros H0. by rewrite H0, Z.bits_0 in Hb. }
    destruct (eb_enable (effective_blend s)); [|done]. cbn [andb].
    destruct (Z.testbit (present_mask (extra s)) (Z.of_nat 0)) eqn:E0, (Z.testbit (present_mask (extra s)) (Z.of_nat 1)) eqn:E1,
      (Z.testbit (present_mask (extra s)) (Z.of_nat 2)) eqn:E2;
      rewrite ?(Hp _ E0), ?(Hp _ E1), ?(Hp _ E2), ?Z.land_spec, ?E0, ?E1, ?E2, ?andb_true_r; cbn [negb andb];
      unfold clamp_all; by rewrite ?blend_rt_clamp.
Qed.

(** ** The key is a function of the descriptor, extra targets apart *)

Definition attach_ok (a : Z) : Prop := 0 <= a < 16 /\ (flag a PA_HAS_STENCIL = true -> flag a PA_HAS_DEPTH = true).

(** A stream a draw does not read is canonical; stencil comes with depth. *)
Definition pipeline_snapshot_ok (s : PipelineSnapshot) : Prop :=
  length (stream_layouts s) = 16%nat /\ Forall (λ l, is_used l = false -> l = UNUSED) (stream_layouts s)
  /\ attach_ok (attach s) /\ 0 <= present_mask (extra s) < 8.

Lemma used_indices (l : list StreamLayout) k n x :
  x ∈ List.filter (λ nl : nat * StreamLayout, is_used nl.2) (zip (seq k n) l) -> (k <= x.1)%nat.
Proof.
  intros [Hx _]%list_elem_of_In%List.filter_In. destruct x as [i y]. apply list_elem_of_In, elem_of_zip_l, elem_of_seq in Hx.
  cbn. lia.
Qed.

Lemma used_layouts_inj l1 l2 k :
  length l1 = length l2 -> Forall (λ l, is_used l = false -> l = UNUSED) l1 -> Forall (λ l, is_used l = false -> l = UNUSED) l2 ->
  List.filter (λ nl, is_used nl.2) (zip (seq k (length l1)) l1) = List.filter (λ nl, is_used nl.2) (zip (seq k (length l2)) l2) ->
  l1 = l2.
Proof.
  revert k l2. induction l1 as [|x l1 IH]; intros k [|y l2] Hl H1 H2; [done..|]. injection Hl as Hl.
  apply Forall_cons in H1 as [Hx H1]. apply Forall_cons in H2 as [Hy H2]. cbn [length seq zip zip_with List.filter snd].
  destruct (is_used x) eqn:Ex, (is_used y) eqn:Ey; intros H.
  - injection H as -> H. f_equal. by eapply IH.
  - exfalso. assert ((k, x) ∈ List.filter (λ nl : nat * StreamLayout, is_used nl.2) (zip (seq (S k) (length l2)) l2)) as Hin
      by (rewrite <- H; by left). apply used_indices in Hin. cbn in Hin. lia.
  - exfalso. assert ((k, y) ∈ List.filter (λ nl : nat * StreamLayout, is_used nl.2) (zip (seq (S k) (length l1)) l1)) as Hin
      by (rewrite H; by left). apply used_indices in Hin. cbn in Hin. lia.
  - rewrite (Hx eq_refl), (Hy eq_refl). f_equal. by eapply IH.
Qed.

Lemma attach_bits a b :
  attach_ok a -> attach_ok b -> flag a HAS_COLOR_OUTPUT = flag b HAS_COLOR_OUTPUT ->
  (if flag a PA_HAS_DEPTH then Some (if flag a PA_HAS_STENCIL then Depth32FloatStencil8 else Depth32Float) else None)
  = (if flag b PA_HAS_DEPTH then Some (if flag b PA_HAS_STENCIL then Depth32FloatStencil8 else Depth32Float) else None) ->
  Z.ldiff a COLOR_HAS_ALPHA = Z.ldiff b COLOR_HAS_ALPHA.
Proof.
  assert (forall x, 0 <= x < 16 -> x ∈ Z.of_nat <$> seq 0 16) as Hin.
  { intros x Hx. apply list_elem_of_fmap. exists (Z.to_nat x). rewrite elem_of_seq. lia. }
  intros [Ha Sa] [Hb Sb]. apply Hin in Ha, Hb. revert Sa Sb.
  assert (forall p q : Z, p ∈ Z.of_nat <$> seq 0 16 -> q ∈ Z.of_nat <$> seq 0 16 ->
    (flag p PA_HAS_STENCIL = true -> flag p PA_HAS_DEPTH = true) -> (flag q PA_HAS_STENCIL = true -> flag q PA_HAS_DEPTH = true) ->
    flag p HAS_COLOR_OUTPUT = flag q HAS_COLOR_OUTPUT -> flag p PA_HAS_DEPTH = flag q PA_HAS_DEPTH ->
    flag p PA_HAS_STENCIL = flag q PA_HAS_STENCIL -> Z.ldiff p COLOR_HAS_ALPHA = Z.ldiff q COLOR_HAS_ALPHA) as Hall.
  { cbn [seq fmap list_fmap]. intros p q Hp Hq. repeat (apply elem_of_cons in Hp as [->|Hp]; [|]); [..|by apply elem_of_nil in Hp].
    all: repeat (apply elem_of_cons in Hq as [->|Hq]; [by vm_compute; try naive_solver|]); by apply elem_of_nil in Hq. }
  intros Sa Sb Hc Hd. apply Hall; [done..| |].
  - by destruct (flag a PA_HAS_DEPTH), (flag b PA_HAS_DEPTH).
  - destruct (flag a PA_HAS_DEPTH), (flag b PA_HAS_DEPTH); try done.
    + by destruct (flag a PA_HAS_STENCIL), (flag b PA_HAS_STENCIL).
    + destruct (flag a PA_HAS_STENCIL); [by specialize (Sa eq_refl)|]. destruct (flag b PA_HAS_STENCIL); [by specialize (Sb eq_refl)|]. done.
Qed.

Lemma descriptor_present s1 s2 a1 a2 :
  0 <= present_mask (extra s1) < 8 -> 0 <= present_mask (extra s2) < 8 ->
  m_extra (create_render_pipeline (description_from_snapshot s1 a1))
  = m_extra (create_render_pipeline (description_from_snapshot s2 a2)) ->
  present_mask (extra s1) = present_mask (extra s2)
  /\ (extra_format s1 <$> seq 0 3) = (extra_format s2 <$> seq 0 3) /\ extra_masks s1 = extra_masks s2.
Proof.
  intros H1 H2. rewrite (descriptor_key (λ _, 0) s1), (descriptor_key (λ _, 0) s2). intros H.
  assert (forall s i, Z.testbit (present_mask (extra s)) (Z.of_nat i) = false ->
    extra_write_mask (rs s) (extra s) (ps_color_out_mask s) i = 0 /\ extra_format s i = nth i (formats NONE) Bgra8Unorm) as Hoff.
  { intros s i E. unfold extra_write_mask, extra_format, is_present. by rewrite E. }
  assert (forall A (f : nat -> A) d i, (i < 3)%nat -> nth i (f <$> seq 0 3) d = f i) as Hnth
    by (intros A f d [|[|[|i]]] Hi; done || lia).
  assert (forall i, (i < 3)%nat ->
    Z.testbit (present_mask (extra s1)) (Z.of_nat i) = Z.testbit (present_mask (extra s2)) (Z.of_nat i)
    /\ extra_format s1 i = extra_format s2 i
    /\ extra_write_mask (rs s1) (extra s1) (ps_color_out_mask s1) i
       = extra_write_mask (rs s2) (extra s2) (ps_color_out_mask s2) i) as Hi.
  { intros i Hi. apply (f_equal (λ l, nth i l None)) in H. unfold descriptor_of_key in H. cbv zeta in H. cbn [m_extra] in H.
    rewrite !Hnth in H by done. unfold key_from_snapshot in H. cbv zeta in H.
    cbn [k_extra_present_mask k_extra_formats k_extra_write_masks] in H. unfold extra_masks in H. rewrite !Hnth in H by done.
    destruct (Z.testbit (present_mask (extra s1)) (Z.of_nat i)) eqn:B1,
      (Z.testbit (present_mask (extra s2)) (Z.of_nat i)) eqn:B2; try discriminate H.
    - injection H as F1 F2 _. by split_and!.
    - destruct (Hoff s1 _ B1) as [-> ->], (Hoff s2 _ B2) as [-> ->]. by split_and!. }
  destruct (Hi 0%nat ltac:(lia)) as (A0 & B0 & C0), (Hi 1%nat ltac:(lia)) as (A1 & B1 & C1), (Hi 2%nat ltac:(lia)) as (A2 & B2 & C2).
  unfold extra_masks. cbn [seq fmap list_fmap]. split_and!; [|by rewrite B0, B1, B2|by rewrite C0, C1, C2]. apply Z.bits_inj'. intros n Hn.
  destruct (Z.lt_ge_cases n 3) as [Hl|Hge].
  - assert (n = 0 \/ n = 1 \/ n = 2) as [->|[->| ->]] by lia; done.
  - rewrite !Z.bits_above_log2; [done|lia| |lia|].
    + destruct (decide (present_mask (extra s2) = 0)) as [->|]; [cbn; lia|]. apply Z.log2_lt_pow2; [lia|].
      apply Z.lt_le_trans with (2 ^ 3); [cbn; lia|]. by apply Z.pow_le_mono_r.
    + destruct (decide (present_mask (extra s1) = 0)) as [->|]; [cbn; lia|]. apply Z.log2_lt_pow2; [lia|].
      apply Z.lt_le_trans with (2 ^ 3); [cbn; lia|]. by apply Z.pow_le_mono_r.
Qed.

Lemma effective_blend_off s : eb_enable (effective_blend s) = false -> effective_blend s = mkBlend false 2 1 1 2 1 1 false.
Proof.
  unfold effective_blend. destruct (negb (blend_enable (rs s)) || negb (has_color_output s)); [done|]. by repeat case_match.
Qed.

(** With no extra target blending the key keeps nothing the descriptor does not. *)
Lemma key_of_descriptor h s1 s2 attrs :
  pipeline_snapshot_ok s1 -> pipeline_snapshot_ok s2 -> mrt_blend s1 = false -> mrt_blend s2 = false ->
  create_render_pipeline (description_from_snapshot s1 attrs) = create_render_pipeline (description_from_snapshot s2 attrs) ->
  key_from_snapshot h s1 attrs = key_from_snapshot h s2 attrs.
Proof.
  intros (L1 & C1 & A1 & P1) (L2 & C2 & A2 & P2) M1 M2 H.
  destruct (descriptor_present s1 s2 attrs attrs P1 P2 (f_equal m_extra H)) as (Ep & Ef & Em).
  rewrite !(descriptor_key h) in H. unfold mrt_blend in M1, M2.
  unfold descriptor_of_key, key_from_snapshot in *. cbv zeta in *.
  cbn -[flag extra_write_mask extra_format effective_blend d3d_to_metal_write_mask Z.testbit Z.max present_mask clamp_all] in *.
  rewrite M1, M2 in *.
  rewrite !(proj1 (key_flags _ _)), !(proj2 (key_flags _ _)), !(attach_ldiff _ COLOR_HAS_ALPHA HAS_COLOR_OUTPUT),
    !(attach_ldiff _ COLOR_HAS_ALPHA PA_HAS_DEPTH), !(attach_ldiff _ COLOR_HAS_ALPHA PA_HAS_STENCIL) in H by done.
  injection H as E1 E2 E3 E4 E5 Ec _ _ _ Ed Es.
  fold (has_color_output s1) (has_color_output s2) in *.
  assert (has_color_output s1 = has_color_output s2) as Hc by by destruct (has_color_output s1), (has_color_output s2).
  assert (Z.ldiff (attach s1) COLOR_HAS_ALPHA = Z.ldiff (attach s2) COLOR_HAS_ALPHA) as Ha by by apply attach_bits.
  assert (stream_layouts s1 = stream_layouts s2) as Hl by (eapply used_layouts_inj; [congruence|done..]).
  rewrite Ep, Ef, Em, Hl, Ha, E1, E2, E4, E5, <- Hc in *. 
  destruct (has_color_output s1) eqn:Hc1.
  - injection Ec as F1 F2 F3. rewrite F1, F2.
    destruct (eb_enable (effective_blend s1)) eqn:B1, (eb_enable (effective_blend s2)) eqn:B2; try discriminate F3.
    + clear M2. cbn [andb] in M1, F3 |- *. rewrite ?M1 in F3; rewrite ?M1. injection F3 as G1 G2 G3 G4 G5 G6.
      apply negb_false_iff, Z.eqb_eq in M1. rewrite M1, !Z.land_0_r. f_equal; congruence.
    + rewrite (effective_blend_off s1), (effective_blend_off s2) by done. cbn. by rewrite !blend_rt_clamp; destruct (color_has_alpha s1), (color_has_alpha s2).
  - rewrite (effective_blend_off s1), (effective_blend_off s2) by (apply blend_needs_color; congruence).
    cbn. by rewrite !blend_rt_clamp; destruct (color_has_alpha s1), (color_has_alpha s2).
Qed.

(** ** Comparing snapshots *)

Lemma layout_difference_0 l r : layout_difference l r = 0 <-> l = r.
Proof.
  unfold layout_difference. rewrite !Z.lor_eq_0_iff, !Z.lxor_eq_0_iff. split; [|by intros ->].
  destruct l as [s f n], r as [s' f' n']. cbn [stride step step_rate]. intros [[-> Hf] ->].
  by replace f' with f by by destruct f, f'.
Qed.

(** The branch-free comparison of two layout arrays is equality. *)
Lemma same_layouts_eq left right : length left = length right -> same_layouts left right = true <-> left = right.
Proof.
  intros Hl. unfold same_layouts. rewrite Z.eqb_eq.
  assert (forall d, foldl (λ d lr, Z.lor d (layout_difference lr.1 lr.2)) d (zip left right) = 0 <-> d = 0 /\ left = right) as H;
    [|rewrite H; tauto].
  revert right Hl. induction left as [|x left IH]; intros [|y right] Hl d; [cbn; tauto|done|done|].
  injection Hl as Hl. cbn [zip zip_with foldl fst snd]. rewrite IH, Z.lor_eq_0_iff, layout_difference_0 by done.
  naive_solver.
Qed.

(** A pass stripped of colour takes the pipeline of a draw that writes none. *)
Lemma remove_color_output_description s attrs :
  let d := create_render_pipeline (description_from_snapshot (remove_color_output s) attrs) in
  m_color0 d = None /\ m_extra d = [None; None; None].
Proof.
  cbv zeta. unfold create_render_pipeline, description_from_snapshot, remove_color_output. cbv zeta.
  cbn [d_attach attach m_color0 m_extra d_extra_present_mask extra present_mask NONE].
  replace (flag (Z.ldiff (attach s) HAS_COLOR_OUTPUT) HAS_COLOR_OUTPUT) with false; [done|].
  unfold flag. symmetry. apply negb_false_iff, Z.eqb_eq. apply Z.bits_inj'. intros i Hi.
  rewrite Z.land_spec, Z.ldiff_spec, Z.bits_0. by destruct (Z.testbit (attach s) i), (Z.testbit HAS_COLOR_OUTPUT i).
Qed.

(** ** The property *)

(** C28: the pipeline cache never hands a draw another pipeline than its own: two
    draws with one key compile the same Metal descriptor, whatever their raw
    blend states, stale extra targets and declarations.  And a draw whose extra
    targets do not blend never compiles a pipeline a second time: two such draws
    with one descriptor have one key. *)
Theorem pipeline_key_exact (attrs_hash : list VertexAttrDesc -> Z) (s1 s2 : PipelineSnapshot) (a1 a2 : list VertexAttrDesc)
  (Hcollision : attrs_hash a1 = attrs_hash a2 -> a1 = a2) :
  (key_from_snapshot attrs_hash s1 a1 = key_from_snapshot attrs_hash s2 a2 ->
   create_render_pipeline (description_from_snapshot s1 a1) = create_render_pipeline (description_from_snapshot s2 a2))
  /\ (pipeline_snapshot_ok s1 -> pipeline_snapshot_ok s2 -> mrt_blend s1 = false -> mrt_blend s2 = false ->
      create_render_pipeline (description_from_snapshot s1 a1) = create_render_pipeline (description_from_snapshot s2 a2) ->
      key_from_snapshot attrs_hash s1 a1 = key_from_snapshot attrs_hash s2 a2).
Proof.
  split.
  - intros Hk. rewrite !(descriptor_key attrs_hash), Hk. f_equal. apply Hcollision.
    exact (f_equal k_vertex_attrs_hash Hk).
  - intros O1 O2 M1 M2 Hd. assert (a1 = a2) as <- by exact (f_equal m_attrs Hd). by apply key_of_descriptor.
Qed.

(** Two draws that do not blend, one with stale factors and a stale alpha channel. *)
Definition plain_rs : PipelineRsBits := mkRsBits 0 2 1 1 2 1 1 15 [15; 15; 15].
Definition stale_rs : PipelineRsBits := mkRsBits 2 5 6 3 9 7 2 15 [0; 3; 7].
Definition plain_snapshot : PipelineSnapshot :=
  mkPipelineSnapshot 1 2 77 (mkLayout 16 StepPerVertex 1 :: replicate 15 UNUSED) Bgra8Unorm 7 plain_rs NONE 1 1.
Definition stale_snapshot : PipelineSnapshot :=
  mkPipelineSnapshot 1 2 78 (mkLayout 16 StepPerVertex 1 :: replicate 15 UNUSED) Bgra8Unorm 15 stale_rs NONE 1 0.

Lemma pipeline_key_exact_witness :
  key_from_snapshot (λ l, Z.of_nat (length l)) plain_snapshot [] = key_from_snapshot (λ l, Z.of_nat (length l)) stale_snapshot [].
Proof.
  apply (pipeline_key_exact (λ l, Z.of_nat (length l)) plain_snapshot stale_snapshot [] [] (λ _, eq_refl)); [| |reflexivity..].
  - split_and!; [done|by repeat constructor|by split|done..].
  - split_and!; [done|by repeat constructor|by split|done..].
Defined.

(** A blending extra target that clamps both factors alike: one Metal pipeline
    under two keys, which the key's comment does not expect. *)
Definition clamped_rs (src : Z) : PipelineRsBits := mkRsBits 1 src 1 1 2 1 1 15 [15; 15; 15].
Definition clamped_snapshot (src : Z) : PipelineSnapshot :=
  mkPipelineSnapshot 1 2 77 (replicate 16 UNUSED) Bgra8Unorm 4 (clamped_rs src)
    (mkExtra [Bgra8Unorm; Bgra8Unorm; Bgra8Unorm] 1 0) 3 1.

Lemma mrt_blend_splits_keys :
  create_render_pipeline (description_from_snapshot (clamped_snapshot 7) [])
    = create_render_pipeline (description_from_snapshot (clamped_snapshot 2) [])
  /\ key_from_snapshot (λ _, 0) (clamped_snapshot 7) [] <> key_from_snapshot (λ _, 0) (clamped_snapshot 2) [].
Proof. split; [reflexivity|]. intros H. by apply (f_equal k_src_blend) in H. Qed.
