(* ===== verification/SamplerState.v ===== *)
(** [core/sampler_state.rs]: the sampler states of a texture stage, narrowed once
    into a snapshot, the key its Metal sampler is cached under and the
    description the sampler is built from.  The LOD bias, which is a shader
    uniform, is left out. *)

From S2P Require Import Prelude BitFields.

(** ** The translated enums, [core/convert.rs] *)

Inductive MinMagFilter := MinMagNearest | MinMagLinear.
Inductive MipFilter := MipNotMipmapped | MipNearest | MipLinear.
Inductive AddressMode :=
  | ClampToEdge | MirrorClampToEdge | Repeat | MirrorRepeat | ClampToZero | ClampToBorderColor.
Inductive BorderColor := TransparentBlack | OpaqueBlack | OpaqueWhite.

Definition d3d_to_metal_min_mag_filter (f : Z) : MinMagFilter :=
  match f with 1 => MinMagNearest | 2 | 3 => MinMagLinear | _ => MinMagNearest end.

Definition d3d_to_metal_mip_filter (f : Z) : MipFilter :=
  match f with 0 => MipNotMipmapped | 1 => MipNearest | 2 | 3 => MipLinear | _ => MipNotMipmapped end.

Definition d3d_to_metal_address_mode (m : Z) : AddressMode :=
  match m with
  | 1 => Repeat | 2 => MirrorRepeat | 3 => ClampToEdge | 4 => ClampToBorderColor | 5 => MirrorClampToEdge | _ => Repeat
  end.

Definition border_color_preset (color : Z) : option BorderColor :=
  if color =? 0 then Some TransparentBlack
  else if color =? 4278190080 then Some OpaqueBlack
  else if color =? 4294967295 then Some OpaqueWhite
  else None.

(** The substitution is logged, which is left out. *)
Definition d3d_border_color_to_metal (color : Z) : BorderColor := default OpaqueBlack (border_color_preset color).
Definition border_preset_for_key (color : Z) : BorderColor :=
  match border_color_preset color with Some preset => preset | None => OpaqueBlack end.

Definition border_code (b : BorderColor) : Z :=
  match b with TransparentBlack => 0 | OpaqueBlack => 1 | OpaqueWhite => 2 end.

(** ** States of a stage *)

Definition SAMPLER_STATE_COUNT : nat := 14.
Definition TEXTURE_LOD_SLOT : Z := 0.
Definition D3DSAMP_ADDRESSU : Z := 1.
Definition D3DSAMP_ADDRESSV : Z := 2.
Definition D3DSAMP_ADDRESSW : Z := 3.
Definition D3DSAMP_BORDERCOLOR : Z := 4.
Definition D3DSAMP_MAGFILTER : Z := 5.
Definition D3DSAMP_MINFILTER : Z := 6.
Definition D3DSAMP_MIPFILTER : Z := 7.
Definition D3DSAMP_MAXMIPLEVEL : Z := 9.
Definition D3DSAMP_MAXANISOTROPY : Z := 10.
Definition D3DSAMP_SRGBTEXTURE : Z := 11.

Definition ss_at (ss : list Z) (state : Z) : Z := default 0 (ss !! Z.to_nat state).

Definition sampler_state_defaults : list Z := [0; 1; 1; 1; 0; 1; 1; 0; 0; 0; 1; 0; 0; 0].

Definition MAX_MIP_LEVEL : Z := 15.
Definition MAX_ANISOTROPY : Z := 16.
Definition LOD_MAX_CLAMP : Z := 1000.
Definition TEXF_NONE : Z := 0.
Definition TEXF_POINT : Z := 1.
Definition TEXF_LINEAR : Z := 2.
Definition D3DTEXF_ANISOTROPIC : Z := 3.

Definition IS_COMPARE : Z := 1.
Definition SRGB_TEXTURE : Z := 2.

Record SamplerSnapshot := mkSampler {
  min_filter : Z; mag_filter : Z; mip_filter : Z; address_u : Z; address_v : Z; address_w : Z;
  max_anisotropy : Z; max_mip_level : Z; border_color : Z; sampler_flags : Z }.

Definition srgb_texture_enabled (ss : list Z) : bool := negb (Z.land (ss_at ss D3DSAMP_SRGBTEXTURE) 1 =? 0).

Definition filter_value (ss : list Z) (state floor : Z) : Z :=
  let value := ss_at ss state in
  if value =? D3DTEXF_ANISOTROPIC then TEXF_LINEAR
  else if value <? floor then floor
  else if TEXF_LINEAR <? value then TEXF_LINEAR
  else Z.land value 255.

Definition address_value (ss : list Z) (state : Z) : Z :=
  let value := ss_at ss state in
  let byte := Z.land value 255 in
  if (byte =? value) && (1 <=? byte) && (byte <=? 5) then byte
  else Z.land (ss_at sampler_state_defaults state) 255.

Definition clamped_max_mip_level (level : Z) : Z := if MAX_MIP_LEVEL <? level then MAX_MIP_LEVEL else Z.land level 255.

Definition clamped_max_anisotropy (value : Z) : Z :=
  if value =? 0 then 1 else if MAX_ANISOTROPY <? value then Z.land MAX_ANISOTROPY 255 else Z.land value 255.

Definition finest_level (ss : list Z) : Z :=
  let lod := clamped_max_mip_level (ss_at ss TEXTURE_LOD_SLOT) in
  if ss_at ss D3DSAMP_MIPFILTER =? 0 then lod
  else Z.max lod (clamped_max_mip_level (ss_at ss D3DSAMP_MAXMIPLEVEL)).

Definition effective_max_anisotropy (ss : list Z) : Z :=
  if existsb (λ state, ss_at ss state =? D3DTEXF_ANISOTROPIC) [D3DSAMP_MINFILTER; D3DSAMP_MAGFILTER; D3DSAMP_MIPFILTER]
  then clamped_max_anisotropy (ss_at ss D3DSAMP_MAXANISOTROPY) else 1.

Definition set_if (b : bool) (bit : Z) : Z := if b then bit else 0.

Definition snapshot_from_state (ss : list Z) (is_compare : bool) : SamplerSnapshot :=
  mkSampler (filter_value ss D3DSAMP_MINFILTER TEXF_POINT) (filter_value ss D3DSAMP_MAGFILTER TEXF_POINT)
    (filter_value ss D3DSAMP_MIPFILTER TEXF_NONE) (address_value ss D3DSAMP_ADDRESSU)
    (address_value ss D3DSAMP_ADDRESSV) (address_value ss D3DSAMP_ADDRESSW) (effective_max_anisotropy ss)
    (finest_level ss) (ss_at ss D3DSAMP_BORDERCOLOR)
    (Z.lor (set_if is_compare IS_COMPARE) (set_if (srgb_texture_enabled ss) SRGB_TEXTURE)).

Definition force_point_filter (s : SamplerSnapshot) : SamplerSnapshot :=
  mkSampler TEXF_POINT TEXF_POINT TEXF_NONE (address_u s) (address_v s) (address_w s) 1 (max_mip_level s)
    (border_color s) (sampler_flags s).

Definition sample_unfiltered (ss : list Z) : list Z :=
  let ss := <[Z.to_nat D3DSAMP_MINFILTER := 1]> ss in
  let ss := <[Z.to_nat D3DSAMP_MAGFILTER := 1]> ss in
  if ss_at ss D3DSAMP_MIPFILTER =? 0 then ss else <[Z.to_nat D3DSAMP_MIPFILTER := 1]> ss.

(** ** Key and description *)

Definition key_from_snapshot (s : SamplerSnapshot) : Z :=
  Z.lor (Z.lor (Z.lor (Z.lor (Z.lor (Z.lor (Z.lor (Z.lor (Z.lor (Z.lor (min_filter s)
    (Z.shiftl (mag_filter s) 4)) (Z.shiftl (mip_filter s) 8)) (Z.shiftl (address_u s) 12)) (Z.shiftl (address_v s) 16))
    (Z.shiftl (address_w s) 20)) (Z.shiftl (max_anisotropy s) 24)) (Z.shiftl (max_mip_level s) 32))
    (Z.shiftl (Z.b2z (flag (sampler_flags s) IS_COMPARE)) 37)) (Z.shiftl (Z.b2z (flag (sampler_flags s) SRGB_TEXTURE)) 38))
    (Z.shiftl (Z.land (border_code (border_preset_for_key (border_color s))) 3) 39).

(** What the sampler is built from; its id, the key, is left out. *)
Record SamplerDescription := mkSamplerDescription {
  sd_min : MinMagFilter; sd_mag : MinMagFilter; sd_mip : MipFilter; sd_u : AddressMode; sd_v : AddressMode; sd_w : AddressMode;
  sd_anisotropy : Z; sd_lod_min : Z; sd_lod_max : Z; sd_flags : Z; sd_border : BorderColor }.

Definition description_from_snapshot (s : SamplerSnapshot) : SamplerDescription :=
  let pinned := (mip_filter s =? TEXF_NONE) && (0 <? max_mip_level s) in
  let mip := if pinned then TEXF_POINT else mip_filter s in
  mkSamplerDescription (d3d_to_metal_min_mag_filter (min_filter s)) (d3d_to_metal_min_mag_filter (mag_filter s))
    (d3d_to_metal_mip_filter mip) (d3d_to_metal_address_mode (address_u s)) (d3d_to_metal_address_mode (address_v s))
    (d3d_to_metal_address_mode (address_w s)) (max_anisotropy s) (max_mip_level s)
    (if pinned then max_mip_level s else LOD_MAX_CLAMP) (Z.land (sampler_flags s) IS_COMPARE)
    (d3d_border_color_to_metal (border_color s)).

(** ** What narrowing guarantees *)

Definition sampler_ok (s : SamplerSnapshot) : Prop :=
  1 <= min_filter s <= 2 /\ 1 <= mag_filter s <= 2 /\ 0 <= mip_filter s <= 2
  /\ 1 <= address_u s <= 5 /\ 1 <= address_v s <= 5 /\ 1 <= address_w s <= 5
  /\ 1 <= max_anisotropy s <= 16 /\ 0 <= max_mip_level s <= 15 /\ 0 <= sampler_flags s < 4.

Lemma land_255 v : 0 <= v <= 255 -> Z.land v 255 = v.
Proof. intros H. change 255 with (Z.ones 8). rewrite Z.land_ones by lia. apply Z.mod_small. lia. Qed.

Lemma filter_value_range ss state floor :
  0 <= ss_at ss state -> 0 <= floor <= 2 -> floor <= filter_value ss state floor <= 2.
Proof.
  intros Hv Hf. unfold filter_value, TEXF_LINEAR. destruct (_ =? _); [lia|].
  destruct (Z.ltb_spec (ss_at ss state) floor); [lia|]. destruct (Z.ltb_spec 2 (ss_at ss state)); [lia|].
  rewrite land_255; lia.
Qed.

Lemma address_value_range ss state : 1 <= state <= 3 -> 1 <= address_value ss state <= 5.
Proof.
  intros Hs. unfold address_value. destruct (_ && _) eqn:E.
  - rewrite !andb_true_iff, !Z.leb_le in E. lia.
  - assert (state = 1 \/ state = 2 \/ state = 3) as [->|[->| ->]] by lia; by vm_compute.
Qed.

Lemma clamped_level_range v : 0 <= v -> 0 <= clamped_max_mip_level v <= 15.
Proof.
  intros H. unfold clamped_max_mip_level, MAX_MIP_LEVEL. destruct (Z.ltb_spec 15 v); [lia|]. rewrite land_255; lia.
Qed.

Lemma snapshot_from_state_sampler ss is_compare : Forall (λ v, 0 <= v) ss -> sampler_ok (snapshot_from_state ss is_compare).
Proof.
  intros H. assert (forall state, 0 <= ss_at ss state) as Ha.
  { intros state. unfold ss_at. destruct (ss !! Z.to_nat state) as [v|] eqn:E; cbn; [|lia].
    by eapply (Forall_lookup_1 (λ v, 0 <= v)). }
  unfold sampler_ok, snapshot_from_state. cbn [min_filter mag_filter mip_filter address_u address_v address_w max_anisotropy max_mip_level sampler_flags].
  refine (conj _ (conj _ (conj _ (conj _ (conj _ (conj _ (conj _ (conj _ _))))))));
  try (apply filter_value_range; [done|unfold TEXF_POINT, TEXF_NONE; lia]); try (apply address_value_range; unfold D3DSAMP_ADDRESSU, D3DSAMP_ADDRESSV, D3DSAMP_ADDRESSW; lia).
  all: try (unfold effective_max_anisotropy; destruct (existsb _ _); [|lia]; unfold clamped_max_anisotropy, MAX_ANISOTROPY;
    pose proof (Ha D3DSAMP_MAXANISOTROPY); destruct (Z.eqb_spec (ss_at ss D3DSAMP_MAXANISOTROPY) 0); [lia|];
    destruct (Z.ltb_spec 16 (ss_at ss D3DSAMP_MAXANISOTROPY)); [by change (Z.land 16 255) with 16|]; rewrite land_255; lia).
  all: try (unfold finest_level; pose proof (clamped_level_range _ (Ha TEXTURE_LOD_SLOT));
    pose proof (clamped_level_range _ (Ha D3DSAMP_MAXMIPLEVEL)); destruct (_ =? 0); lia).
  by destruct is_compare, (srgb_texture_enabled ss).
Qed.

Lemma force_point_filter_ok s : sampler_ok s -> sampler_ok (force_point_filter s).
Proof. unfold sampler_ok, force_point_filter. cbn. unfold TEXF_POINT, TEXF_NONE. lia. Qed.

(** ** The key is exact *)

Definition sampler_fields (s : SamplerSnapshot) : list (Z * Z) :=
  [(4, min_filter s); (4, mag_filter s); (4, mip_filter s); (4, address_u s); (4, address_v s); (4, address_w s);
   (8, max_anisotropy s); (5, max_mip_level s); (1, Z.b2z (flag (sampler_flags s) IS_COMPARE));
   (1, Z.b2z (flag (sampler_flags s) SRGB_TEXTURE)); (2, border_code (border_preset_for_key (border_color s)))].

Lemma sampler_fields_fit s : sampler_ok s -> Forall fits (sampler_fields s).
Proof.
  intros H. unfold sampler_ok in H. unfold sampler_fields.
  repeat (apply Forall_cons_2; [|]); try apply Forall_nil_2; try apply b2z_fits; try (split; cbn [fst snd]; lia).
  by destruct (border_preset_for_key (border_color s)).
Qed.

Lemma sampler_key_eq s : sampler_ok s -> key_from_snapshot s = pack (sampler_fields s).
Proof.
  intros H. apply sampler_fields_fit in H. unfold sampler_fields, key_from_snapshot in *.
  replace (Z.land (border_code (border_preset_for_key (border_color s))) 3)
    with (border_code (border_preset_for_key (border_color s))) by (by destruct (border_preset_for_key _)).
  rewrite !Forall_cons in H. destruct H as (H1 & H2 & H3 & H4 & H5 & H6 & H7 & H8 & H9 & H10 & H11 & _).
  rewrite <- (pack_one 4 (min_filter s)) at 1. 
  by rewrite (pack_snoc _ 4 _ 4), (pack_snoc _ 4 _ 8), (pack_snoc _ 4 _ 12), (pack_snoc _ 4 _ 16), (pack_snoc _ 4 _ 20),
    (pack_snoc _ 8 _ 24), (pack_snoc _ 5 _ 32), (pack_snoc _ 1 _ 37), (pack_snoc _ 1 _ 38), (pack_snoc _ 2 _ 39) by fits_done.
Qed.

Lemma address_inj a b : 1 <= a <= 5 -> 1 <= b <= 5 -> d3d_to_metal_address_mode a = d3d_to_metal_address_mode b -> a = b.
Proof.
  intros Ha Hb. assert (a = 1 \/ a = 2 \/ a = 3 \/ a = 4 \/ a = 5) as Ea by lia.
  assert (b = 1 \/ b = 2 \/ b = 3 \/ b = 4 \/ b = 5) as Eb by lia. by destruct_or!; subst.
Qed.

Lemma filter_inj a b : 1 <= a <= 2 -> 1 <= b <= 2 -> d3d_to_metal_min_mag_filter a = d3d_to_metal_min_mag_filter b -> a = b.
Proof.
  intros Ha Hb. assert (a = 1 \/ a = 2) as Ea by lia. assert (b = 1 \/ b = 2) as Eb by lia. by destruct_or!; subst.
Qed.

(** A stage pinned to one level is no stage that mipmaps. *)
Lemma mip_inj s t :
  sampler_ok s -> sampler_ok t -> sd_mip (description_from_snapshot s) = sd_mip (description_from_snapshot t) ->
  sd_lod_max (description_from_snapshot s) = sd_lod_max (description_from_snapshot t) ->
  max_mip_level s = max_mip_level t -> mip_filter s = mip_filter t.
Proof.
  unfold sampler_ok, description_from_snapshot, LOD_MAX_CLAMP, TEXF_NONE, TEXF_POINT. cbn [sd_mip sd_lod_max]. intros Hs Ht Hm Hx Hl.
  assert (mip_filter s = 0 \/ mip_filter s = 1 \/ mip_filter s = 2) as Es by lia.
  assert (mip_filter t = 0 \/ mip_filter t = 1 \/ mip_filter t = 2) as Et by lia.
  rewrite Hl in *. destruct Es as [Es|[Es|Es]], Et as [Et|[Et|Et]]; rewrite Es, Et in *; cbn in Hm, Hx; try done;
    destruct (0 <? max_mip_level t); done || lia.
Qed.

Lemma compare_bits a b :
  0 <= a < 4 -> 0 <= b < 4 -> Z.land a IS_COMPARE = Z.land b IS_COMPARE -> flag a SRGB_TEXTURE = flag b SRGB_TEXTURE -> a = b.
Proof.
  intros Ha Hb. assert (a = 0 \/ a = 1 \/ a = 2 \/ a = 3) as Ea by lia. assert (b = 0 \/ b = 1 \/ b = 2 \/ b = 3) as Eb by lia.
  by destruct_or!; subst.
Qed.

(** the sampler cache is exact: two stages share a key just when the Metal
    samplers built for them are the same and both decode sRGB or neither does.
    A border colour with no preset and an anisotropy without an anisotropic
    filter make no difference. *)
Theorem sampler_key_exact (s t : SamplerSnapshot) (Hs : sampler_ok s) (Ht : sampler_ok t) :
  key_from_snapshot s = key_from_snapshot t
  <-> description_from_snapshot s = description_from_snapshot t
      /\ flag (sampler_flags s) SRGB_TEXTURE = flag (sampler_flags t) SRGB_TEXTURE.
Proof.
  rewrite !sampler_key_eq by done. split.
  - intros H. apply pack_inj in H; [|done|by apply sampler_fields_fit..]. unfold sampler_fields in H.
    injection H as E1 E2 E3 E4 E5 E6 E7 E8 E9 E10 E11.
    assert (flag (sampler_flags s) SRGB_TEXTURE = flag (sampler_flags t) SRGB_TEXTURE) as Hsrgb
      by (by destruct (flag (sampler_flags s) SRGB_TEXTURE), (flag (sampler_flags t) SRGB_TEXTURE)).
    split; [|done]. unfold description_from_snapshot. rewrite E1, E2, E3, E4, E5, E6, E7, E8. f_equal.
    + destruct Hs as (_ & _ & _ & _ & _ & _ & _ & _ & Hs), Ht as (_ & _ & _ & _ & _ & _ & _ & _ & Ht).
      assert (sampler_flags s = 0 \/ sampler_flags s = 1 \/ sampler_flags s = 2 \/ sampler_flags s = 3) as Ea by lia.
      assert (sampler_flags t = 0 \/ sampler_flags t = 1 \/ sampler_flags t = 2 \/ sampler_flags t = 3) as Eb by lia.
      by destruct Ea as [Ea|[Ea|[Ea|Ea]]], Eb as [Eb|[Eb|[Eb|Eb]]]; rewrite Ea, Eb in *.
    + unfold d3d_border_color_to_metal. unfold border_preset_for_key in E11.
      by destruct (border_color_preset (border_color s)) as [[]|], (border_color_preset (border_color t)) as [[]|].
  - intros [H Hsrgb]. unfold sampler_fields.
    pose proof (f_equal sd_min H) as E1. pose proof (f_equal sd_mag H) as E2. pose proof (f_equal sd_u H) as E4.
    pose proof (f_equal sd_v H) as E5. pose proof (f_equal sd_w H) as E6. pose proof (f_equal sd_anisotropy H) as E7.
    pose proof (f_equal sd_lod_min H) as E8. pose proof (f_equal sd_flags H) as E9. pose proof (f_equal sd_border H) as E11.
    pose proof (mip_inj s t Hs Ht (f_equal sd_mip H) (f_equal sd_lod_max H) E8) as E3.
    cbn [sd_min sd_mag sd_u sd_v sd_w sd_anisotropy sd_lod_min sd_flags sd_border description_from_snapshot] in *.
    destruct Hs as (S1 & S2 & _ & S4 & S5 & S6 & _ & _ & S9), Ht as (T1 & T2 & _ & T4 & T5 & T6 & _ & _ & T9).
    apply filter_inj in E1, E2; [|done..]. apply address_inj in E4, E5, E6; [|done..].
    rewrite (compare_bits _ _ S9 T9 E9 Hsrgb), E1, E2, E3, E4, E5, E6, E7, E8. do 10 f_equal. f_equal. f_equal. f_equal.
    unfold d3d_border_color_to_metal in E11. unfold border_preset_for_key.
    by destruct (border_color_preset (border_color s)), (border_color_preset (border_color t)); cbn in E11; subst.
Qed.

(** A game's default stage and one with states that reach no sampler. *)
Definition odd_states : list Z := [0; 7; 1; 1; 5; 1; 0; 0; 0; 3; 16; 2; 0; 0].

Lemma sampler_key_exact_witness :
  key_from_snapshot (snapshot_from_state (<[4%nat := 4278190080]> sampler_state_defaults) false)
  = key_from_snapshot (snapshot_from_state odd_states false).
Proof.
  apply sampler_key_exact; [..|by split]; apply snapshot_from_state_sampler; repeat constructor; done.
Defined.
