(* ===== verification/DxsoIr.v ===== *)
(** [dxso/ir.rs] and [dxso/opcode.rs]: the shader program the parser builds and
    the questions shader creation asks of it.  A [u16] or [u8] field is a [Z]; an
    [f32] constant is its bit pattern; a [bitflags] set is a record of its flags;
    the [BTreeMap] of subroutines is a [gmap], whose bodies are listed in no
    particular order, which no question below depends on. *)

From S2P Require Import Prelude.

(** ** Opcodes *)

Inductive Opcode :=
  | OpNop | OpMov | OpAdd | OpSub | OpMad | OpMul | OpRcp | OpRsq | OpDp3 | OpDp4 | OpMin | OpMax | OpSlt | OpSge
  | OpExp | OpLog | OpLit | OpDst | OpLrp | OpFrc | OpM4x4 | OpM4x3 | OpM3x4 | OpM3x3 | OpM3x2 | OpCall | OpCallNz
  | OpLoop | OpRet | OpEndLoop | OpLabel | OpDcl | OpPow | OpCrs | OpSgn | OpAbs | OpNrm | OpSinCos | OpRep
  | OpEndRep | OpIf | OpIfc | OpElse | OpEndIf | OpBreak | OpBreakC | OpMovA | OpDefB | OpDefI | OpTexCoord
  | OpTexKill | OpTexLd | OpTexBem | OpTexBemL | OpTexReg2Ar | OpTexReg2Gb | OpTexM3x2Pad | OpTexM3x2Tex
  | OpTexM3x3Pad | OpTexM3x3Tex | OpTexM3x3Spec | OpTexM3x3VSpec | OpTexReg2Rgb | OpTexDp3Tex | OpTexM3x2Depth
  | OpTexDp3 | OpTexM3x3 | OpTexDepth | OpBem | OpExpP | OpLogP | OpCnd | OpDef | OpCmp | OpDp2Add | OpDsx | OpDsy
  | OpTexLdD | OpSetP | OpTexLdL | OpBreakP | OpPhase | OpEnd | OpComment.

Module Opcode.
Definition from_u16 (v : Z) : option Opcode :=
  match v with
  | 0 => Some OpNop | 1 => Some OpMov | 2 => Some OpAdd | 3 => Some OpSub | 4 => Some OpMad | 5 => Some OpMul
  | 6 => Some OpRcp | 7 => Some OpRsq | 8 => Some OpDp3 | 9 => Some OpDp4 | 10 => Some OpMin | 11 => Some OpMax
  | 12 => Some OpSlt | 13 => Some OpSge | 14 => Some OpExp | 15 => Some OpLog | 16 => Some OpLit | 17 => Some OpDst
  | 18 => Some OpLrp | 19 => Some OpFrc | 20 => Some OpM4x4 | 21 => Some OpM4x3 | 22 => Some OpM3x4
  | 23 => Some OpM3x3 | 24 => Some OpM3x2 | 25 => Some OpCall | 26 => Some OpCallNz | 27 => Some OpLoop
  | 28 => Some OpRet | 29 => Some OpEndLoop | 30 => Some OpLabel | 31 => Some OpDcl | 32 => Some OpPow
  | 33 => Some OpCrs | 34 => Some OpSgn | 35 => Some OpAbs | 36 => Some OpNrm | 37 => Some OpSinCos
  | 38 => Some OpRep | 39 => Some OpEndRep | 40 => Some OpIf | 41 => Some OpIfc | 42 => Some OpElse
  | 43 => Some OpEndIf | 44 => Some OpBreak | 45 => Some OpBreakC | 46 => Some OpMovA | 47 => Some OpDefB
  | 48 => Some OpDefI | 64 => Some OpTexCoord | 65 => Some OpTexKill | 66 => Some OpTexLd | 67 => Some OpTexBem
  | 68 => Some OpTexBemL | 69 => Some OpTexReg2Ar | 70 => Some OpTexReg2Gb | 71 => Some OpTexM3x2Pad
  | 72 => Some OpTexM3x2Tex | 73 => Some OpTexM3x3Pad | 74 => Some OpTexM3x3Tex | 76 => Some OpTexM3x3Spec
  | 77 => Some OpTexM3x3VSpec | 82 => Some OpTexReg2Rgb | 83 => Some OpTexDp3Tex | 84 => Some OpTexM3x2Depth
  | 85 => Some OpTexDp3 | 86 => Some OpTexM3x3 | 87 => Some OpTexDepth | 89 => Some OpBem | 78 => Some OpExpP
  | 79 => Some OpLogP | 80 => Some OpCnd | 81 => Some OpDef | 88 => Some OpCmp | 90 => Some OpDp2Add
  | 91 => Some OpDsx | 92 => Some OpDsy | 93 => Some OpTexLdD | 94 => Some OpSetP | 95 => Some OpTexLdL
  | 96 => Some OpBreakP | 65533 => Some OpPhase | 65535 => Some OpEnd | 65534 => Some OpComment
  | _ => None
  end.

Definition has_destination (op : Opcode) : bool :=
  match op with
  | OpMov | OpMovA | OpAdd | OpSub | OpMad | OpMul | OpRcp | OpRsq | OpDp3 | OpDp4 | OpMin | OpMax | OpSlt | OpSge
  | OpExp | OpLog | OpLit | OpDst | OpLrp | OpFrc | OpM4x4 | OpM4x3 | OpM3x4 | OpM3x3 | OpM3x2 | OpPow | OpCrs
  | OpSgn | OpAbs | OpNrm | OpSinCos | OpCnd | OpCmp | OpDp2Add | OpDsx | OpDsy | OpTexLd | OpTexLdL | OpTexLdD
  | OpTexKill | OpTexCoord | OpTexBem | OpTexBemL | OpTexReg2Ar | OpTexReg2Gb | OpTexReg2Rgb | OpTexM3x2Pad
  | OpTexM3x2Tex | OpTexM3x2Depth | OpTexM3x3Pad | OpTexM3x3Tex | OpTexM3x3 | OpTexM3x3Spec | OpTexM3x3VSpec
  | OpTexDp3 | OpTexDp3Tex | OpTexDepth | OpBem | OpExpP | OpLogP | OpSetP
      => true
  | _ => false
  end.


(** The number an opcode has in the token, for the texts below. *)
Definition to_u16 (op : Opcode) : Z :=
  match op with
  | OpNop => 0 | OpMov => 1 | OpAdd => 2 | OpSub => 3 | OpMad => 4 | OpMul => 5 | OpRcp => 6 | OpRsq => 7
  | OpDp3 => 8 | OpDp4 => 9 | OpMin => 10 | OpMax => 11 | OpSlt => 12 | OpSge => 13 | OpExp => 14 | OpLog => 15
  | OpLit => 16 | OpDst => 17 | OpLrp => 18 | OpFrc => 19 | OpM4x4 => 20 | OpM4x3 => 21 | OpM3x4 => 22 | OpM3x3 => 23
  | OpM3x2 => 24 | OpCall => 25 | OpCallNz => 26 | OpLoop => 27 | OpRet => 28 | OpEndLoop => 29 | OpLabel => 30
  | OpDcl => 31 | OpPow => 32 | OpCrs => 33 | OpSgn => 34 | OpAbs => 35 | OpNrm => 36 | OpSinCos => 37 | OpRep => 38
  | OpEndRep => 39 | OpIf => 40 | OpIfc => 41 | OpElse => 42 | OpEndIf => 43 | OpBreak => 44 | OpBreakC => 45
  | OpMovA => 46 | OpDefB => 47 | OpDefI => 48 | OpTexCoord => 64 | OpTexKill => 65 | OpTexLd => 66 | OpTexBem => 67
  | OpTexBemL => 68 | OpTexReg2Ar => 69 | OpTexReg2Gb => 70 | OpTexM3x2Pad => 71 | OpTexM3x2Tex => 72
  | OpTexM3x3Pad => 73 | OpTexM3x3Tex => 74 | OpTexM3x3Spec => 76 | OpTexM3x3VSpec => 77 | OpTexReg2Rgb => 82
  | OpTexDp3Tex => 83 | OpTexM3x2Depth => 84 | OpTexDp3 => 85 | OpTexM3x3 => 86 | OpTexDepth => 87 | OpBem => 89
  | OpExpP => 78 | OpLogP => 79 | OpCnd => 80 | OpDef => 81 | OpCmp => 88 | OpDp2Add => 90 | OpDsx => 91
  | OpDsy => 92 | OpTexLdD => 93 | OpSetP => 94 | OpTexLdL => 95 | OpBreakP => 96 | OpPhase => 65533 | OpEnd => 65535
  | OpComment => 65534
  end.

Lemma from_to_u16 op : from_u16 (to_u16 op) = Some op.
Proof. by destruct op. Qed.

Lemma to_u16_range op : 0 <= to_u16 op < 65536.
Proof. destruct op; simpl; lia. Qed.

Lemma to_u16_inj op1 op2 : to_u16 op1 = to_u16 op2 -> op1 = op2.
Proof. intros E. apply (inj Some). by rewrite <- !from_to_u16, E. Qed.
End Opcode.

#[global] Instance Opcode_eq_dec : EqDecision Opcode.
Proof.
  refine (λ op1 op2, cast_if (decide (Opcode.to_u16 op1 = Opcode.to_u16 op2))); [by apply Opcode.to_u16_inj | congruence].
Defined.

(** ** Operands and declarations *)

Inductive ShaderType := Vertex | Pixel.

Inductive RegKind :=
  | Temp | Input | Const | Addr | RastOut | AttrOut | TexcoordOut | ConstInt | ColorOut | DepthOut | Sampler | Output
  | ConstBool | LoopReg | TempFloat16 | MiscType | LabelReg | PredicateReg.

Inductive TextureType := UnknownTexture | Texture2D | TextureCube | Texture3D.

Inductive DeclUsage :=
  | Position | BlendWeight | BlendIndices | Normal | PSize | Texcoord | Tangent | Binormal | TessFactor | PositionT
  | Color | Fog | Depth | Sample.

Inductive SrcModifier :=
  | ModNone | Neg | Bias | BiasNeg | Sign | SignNeg | Comp | X2 | X2Neg | Dz | Dw | Abs | AbsNeg | Not.

Inductive CmpFunc := Gt | Eq | Ge | Lt | Ne | Le.

#[global] Instance ShaderType_eq_dec : EqDecision ShaderType. Proof. solve_decision. Defined.
#[global] Instance RegKind_eq_dec : EqDecision RegKind. Proof. solve_decision. Defined.
#[global] Instance DeclUsage_eq_dec : EqDecision DeclUsage. Proof. solve_decision. Defined.

Definition CmpFunc_from_raw (raw : Z) : option CmpFunc :=
  match raw with
  | 1 => Some Gt | 2 => Some Eq | 3 => Some Ge | 4 => Some Lt | 5 => Some Ne | 6 => Some Le
  | _ => None
  end.

Module Register.
Record t := mk { kind : RegKind; index : Z }.
End Register.

Record Swizzle := mkSwizzle { lane_x : Z; lane_y : Z; lane_z : Z; lane_w : Z }.

Definition WriteMask := Z.
Definition WriteMask_ALL : WriteMask := 0xf.

Module RelativeAddr.
Record t := mk { reg : Register.t; swizzle : Swizzle }.
End RelativeAddr.

Record DstMods := mkDstMods { SATURATE : bool; PARTIAL_PRECISION : bool; CENTROID : bool }.

Module DstOperand.
Record t := mk { reg : Register.t; write_mask : WriteMask; mods : DstMods; shift_scale : Z }.
End DstOperand.

Module SrcOperand.
Record t := mk { reg : Register.t; swizzle : Swizzle; modifier : SrcModifier; rel_addr : option RelativeAddr.t }.
End SrcOperand.

Inductive Declaration :=
  | Semantic (usage : DeclUsage) (usage_index : Z) (reg : Register.t) (mask : WriteMask)
  | SamplerDecl (texture_type : TextureType) (reg : Register.t).

(** [DefConstant], [DefIntConstant] and [DefBoolConstant] are one record over the
    value's type. *)
Module Def.
Record t (V : Type) := mk { reg : Register.t; value : V }.
#[global] Arguments mk {V} _ _. #[global] Arguments reg {V} _. #[global] Arguments value {V} _.
End Def.

Record InstrFlags := mkInstrFlags { PREDICATED : bool; TEX_PROJECTED : bool; COISSUE : bool; TEX_BIASED : bool }.

Module Instruction.
Record t := mk {
  opcode : Opcode; dst : option DstOperand.t; srcs : list SrcOperand.t; flags : InstrFlags;
  predicate : option SrcOperand.t; cmp_func : option CmpFunc;
}.
End Instruction.

Module DxsoProgram.
Record t := mk {
  bytecode : list Z; shader_type : ShaderType; major : Z; minor : Z;
  declarations : list Declaration; def_constants : list (Def.t (list Z)); def_int_constants : list (Def.t (list Z));
  def_bool_constants : list (Def.t bool); instructions : list Instruction.t;
  subroutines : gmap Z (list Instruction.t);
}.
End DxsoProgram.
Import DxsoProgram.

Inductive DxsoError :=
  | Truncated | InvalidHeader | UnsupportedShaderModel (major minor : Z) | UnknownOpcode (bits : Z)
  | UnknownRegisterType (full : Z) | UnsupportedRelativeAddressing | UnknownDeclUsage (usage : Z).

(** ** Questions about a program *)

Definition all_instructions (p : DxsoProgram.t) : list Instruction.t :=
  instructions p ++ concat (map_to_list (subroutines p)).*2.

Definition forbidden_pixel_input (d : Declaration) : bool :=
  match d with
  | Semantic Position 0 reg _ => bool_decide (Register.kind reg = Input)
  | _ => false
  end.

Definition has_invalid_pixel_input_decl (p : DxsoProgram.t) : bool :=
  if negb (bool_decide (shader_type p = Pixel)) || (major p <? 3) then false
  else existsb forbidden_pixel_input (declarations p).

Definition wrap16 (x : Z) : Z := x mod 65536.

(** [Option<u16>] under [map_or(x, |m| m.max(x))], and [Iterator::max]. *)
Definition max_with (max : option Z) (x : Z) : option Z := Some (from_option (Z.max x) x max).
Definition iter_max (l : list Z) : option Z := foldl max_with None l.

(** The matrix operand of an opcode and the rows it spans. *)
Definition matrix_rows (op : Opcode) : option nat * Z :=
  match op with
  | OpM4x4 | OpM3x4 => (Some 1%nat, 4)
  | OpM4x3 | OpM3x3 => (Some 1%nat, 3)
  | OpM3x2 => (Some 1%nat, 2)
  | _ => (None, 1)
  end.

(** One operand of the walk over an instruction's sources. *)
Definition const_reg_step (defined : list Z) (mat_src_idx : option nat) (mat_rows : Z)
    (max : option Z) (i : nat) (src : SrcOperand.t) : option Z :=
  let index := Register.index (SrcOperand.reg src) in
  if negb (bool_decide (Register.kind (SrcOperand.reg src) = Const)) then max
  else
    let span := if decide (mat_src_idx = Some i) then mat_rows else 1 in
    if (span =? 1) && bool_decide (SrcOperand.rel_addr src = None) && bool_decide (index ∈ defined) then max
    else max_with max (wrap16 (wrap16 (index + span) - 1)).

Definition const_reg_inst (defined : list Z) (max : option Z) (inst : Instruction.t) : option Z :=
  let '(mat_src_idx, mat_rows) := matrix_rows (Instruction.opcode inst) in
  foldl (λ max '(i, src), const_reg_step defined mat_src_idx mat_rows max i src) max
        (imap pair (Instruction.srcs inst)).

Definition max_const_reg (p : DxsoProgram.t) : option Z :=
  let defined := (λ d, Register.index (Def.reg d)) <$> def_constants p in
  foldl (const_reg_inst defined) None (all_instructions p).

Definition max_const_index (p : DxsoProgram.t) (kind : RegKind) : option Z :=
  let src_max := iter_max (i ← all_instructions p; s ← Instruction.srcs i;
                           if decide (Register.kind (SrcOperand.reg s) = kind) then [Register.index (SrcOperand.reg s)]
                           else []) in
  let def_max := match kind with
                 | ConstInt => iter_max ((λ d, Register.index (Def.reg d)) <$> def_int_constants p)
                 | ConstBool => iter_max ((λ d, Register.index (Def.reg d)) <$> def_bool_constants p)
                 | _ => None
                 end in
  iter_max (option_list src_max ++ option_list def_max).

(** The register files of a shader model. *)
Definition float_limit (p : DxsoProgram.t) : Z :=
  if bool_decide (shader_type p = Vertex) then 256
  else if (major p =? 0) || (major p =? 1) then 8 else if major p =? 2 then 32 else 224.

Definition int_bool_limit (p : DxsoProgram.t) : Z :=
  let has_int_bool_files :=
    if bool_decide (shader_type p = Vertex) then 2 <=? major p
    else (2 <? major p) || ((major p =? 2) && (1 <=? minor p)) in
  if has_int_bool_files then 16 else 0.

Definition violates_constant_register_limits (p : DxsoProgram.t) : bool :=
  let float_max := iter_max (option_list (max_const_reg p) ++ ((λ d, Register.index (Def.reg d)) <$> def_constants p)) in
  let over max limit := from_option (λ m, limit <=? m) false max in
  over float_max (float_limit p) || over (max_const_index p ConstInt) (int_bool_limit p)
  || over (max_const_index p ConstBool) (int_bool_limit p).

Definition uses_relative_const_addressing (p : DxsoProgram.t) : bool :=
  existsb (λ inst, existsb (λ s, bool_decide (Register.kind (SrcOperand.reg s) = Const)
                                 && negb (bool_decide (SrcOperand.rel_addr s = None))) (Instruction.srcs inst))
          (all_instructions p).

Definition reads_vpos (p : DxsoProgram.t) : bool :=
  existsb (λ d, match d with
                | Semantic _ _ reg _ => bool_decide (Register.kind reg = MiscType) && (Register.index reg =? 0)
                | SamplerDecl _ _ => false
                end) (declarations p).

(** Whether some source reads a register of [kind] no definition supplies. *)
Definition uses_undefined (p : DxsoProgram.t) (kind : RegKind) (defined : list Z) : bool :=
  existsb (λ inst, existsb (λ s, bool_decide (Register.kind (SrcOperand.reg s) = kind)
                                 && negb (bool_decide (Register.index (SrcOperand.reg s) ∈ defined))) (Instruction.srcs inst))
          (all_instructions p).

Definition uses_dynamic_int_constants (p : DxsoProgram.t) : bool :=
  uses_undefined p ConstInt ((λ d, Register.index (Def.reg d)) <$> def_int_constants p).
Definition uses_dynamic_bool_constants (p : DxsoProgram.t) : bool :=
  uses_undefined p ConstBool ((λ d, Register.index (Def.reg d)) <$> def_bool_constants p).

Definition uses_bump_env (p : DxsoProgram.t) : bool :=
  existsb (λ inst, match Instruction.opcode inst with OpTexBem | OpTexBemL | OpBem => true | _ => false end)
          (instructions p).

Definition color_out_bit (mask : Z) (inst : Instruction.t) : Z :=
  match Instruction.dst inst with
  | None => mask
  | Some dst =>
      let index := Register.index (DstOperand.reg dst) in
      if negb (bool_decide (Register.kind (DstOperand.reg dst) = ColorOut)) then mask
      else if index <=? 3 then Z.lor mask (Z.shiftl 1 index)
      else mask
  end.

Definition color_out_mask (p : DxsoProgram.t) : Z :=
  if negb (bool_decide (shader_type p = Pixel)) || (major p <? 2) then 1
  else foldl color_out_bit 0 (all_instructions p).
