(* ===== verification/DxsoParser.v ===== *)
(** [dxso/parser.rs]: the shader token stream.  A token is a [u32]; the cursor
    [pos] is the list of tokens from it on, so [bytecode.get(pos)] is its head
    and [pos += n] drops [n].  [pos.checked_add(len)] and the bound behind it both
    answer [Truncated], so one test stands for them. *)

From S2P Require Import Prelude DxsoIr.

(** ** Results

    The parser answers a value or an error, or panics on a failed [expect];
    [OutOfFuel] is the model's own.  Neither is ever an answer of [parse]. *)

Inductive result (E A : Type) := Ok (a : A) | Err (e : E) | Panic | OutOfFuel.
#[global] Arguments Ok {E A} _. #[global] Arguments Err {E A} _. #[global] Arguments Panic {E A}. #[global] Arguments OutOfFuel {E A}.

#[global] Instance result_bind E : MBind (result E) := λ A B f m,
  match m with Ok a => f a | Err e => Err e | Panic => Panic | OutOfFuel => OutOfFuel end.
#[global] Instance result_ret E : MRet (result E) := λ A, Ok.

Definition map_err {E F A} (f : E -> F) (m : result E A) : result F A :=
  match m with Ok a => Ok a | Err e => Err (f e) | Panic => Panic | OutOfFuel => OutOfFuel end.

(** What the parser's functions answer. *)
Notation outcome := (result DxsoError).

Definition ok_or {A} (e : DxsoError) (o : option A) : outcome A := match o with Some a => Ok a | None => Err e end.
Definition expect {E A} (o : option A) : result E A := match o with Some a => Ok a | None => Panic end.
Definition or_out_of_fuel {A} (o : option A) : outcome A := match o with Some a => Ok a | None => OutOfFuel end.

(** [*bytecode.get(pos).ok_or(Truncated)?] and [pos += 1]. *)
Definition next_token (rest : list Z) : outcome (Z * list Z) :=
  match rest with tok :: rest => Ok (tok, rest) | [] => Err Truncated end.

(** [remaining.checked_sub(consumed).ok_or(Truncated)]. *)
Definition checked_sub (remaining consumed : nat) : outcome nat :=
  if (consumed <=? remaining)%nat then Ok (remaining - consumed)%nat else Err Truncated.

(** ** Operand runs *)

(** The scan of an SM1 run: [while peek(n) has bit 31 { n += 1 }]. *)
Fixpoint scan_operands (fuel : nat) (peek : nat -> option Z) (n : nat) : option nat :=
  match fuel with
  | O => None
  | S fuel => if from_option (λ t, flag t 0x80000000) false (peek n) then scan_operands fuel peek (S n) else Some n
  end.

Definition operand_token_count (fuel : nat) (major opcode_token : Z) (peek : nat -> option Z) : option nat :=
  if 2 <=? major then Some (Z.to_nat (Z.land (Z.shiftr opcode_token 24) 0xF))
  else match Opcode.from_u16 (Z.land opcode_token 0xFFFF) with
       | Some (OpDef | OpDefI) => Some 5%nat
       | Some OpDefB => Some 2%nat
       | _ => scan_operands fuel peek 0
       end.

(** ** Operand tokens *)

Definition RegKind_from_bits (full : Z) : option RegKind :=
  match full with
  | 0 => Some Temp | 1 => Some Input | 2 => Some Const | 3 => Some Addr | 4 => Some RastOut | 5 => Some AttrOut
  | 6 => Some TexcoordOut | 7 => Some ConstInt | 8 => Some ColorOut | 9 => Some DepthOut | 10 => Some Sampler
  | 11 => Some Output | 14 => Some ConstBool | 15 => Some LoopReg | 16 => Some TempFloat16 | 17 => Some MiscType
  | 18 => Some LabelReg | 19 => Some PredicateReg
  | _ => None
  end.

Definition decode_reg_type (token : Z) : outcome RegKind :=
  let low := Z.land (Z.shiftr token 28) 0x7 in
  let high := Z.land (Z.shiftr token 11) 0x3 in
  let full := Z.lor low (Z.shiftl high 3) in
  ok_or (UnknownRegisterType full) (RegKind_from_bits full).

(** [Register { kind: decode_reg_type(tok)?, index: (tok & 0x7FF) as u16 }]. *)
Definition decode_register (tok : Z) : outcome Register.t :=
  kind ← decode_reg_type tok; mret (Register.mk kind (Z.land tok 0x7FF)).

Definition decode_swizzle_bits (bits : Z) : Swizzle :=
  mkSwizzle (Z.land bits 0x3) (Z.land (Z.shiftr bits 2) 0x3) (Z.land (Z.shiftr bits 4) 0x3) (Z.land (Z.shiftr bits 6) 0x3).

Definition decode_src_modifier (b : Z) : SrcModifier :=
  match b with
  | 1 => Neg | 2 => Bias | 3 => BiasNeg | 4 => Sign | 5 => SignNeg | 6 => Comp | 7 => X2 | 8 => X2Neg | 9 => Dz
  | 10 => Dw | 11 => Abs | 12 => AbsNeg | 13 => Not
  | _ => ModNone
  end.

Definition DeclUsage_from_bits (b : Z) : option DeclUsage :=
  match b with
  | 0 => Some Position | 1 => Some BlendWeight | 2 => Some BlendIndices | 3 => Some Normal | 4 => Some PSize
  | 5 => Some Texcoord | 6 => Some Tangent | 7 => Some Binormal | 8 => Some TessFactor | 9 => Some PositionT
  | 10 => Some Color | 11 => Some Fog | 12 => Some Depth | 13 => Some Sample
  | _ => None
  end.

Definition decode_decl_usage (b : Z) : outcome DeclUsage := ok_or (UnknownDeclUsage b) (DeclUsage_from_bits b).

Definition decode_texture_type (bits : Z) : TextureType :=
  match bits with 2 => Texture2D | 3 => TextureCube | 4 => Texture3D | _ => UnknownTexture end.

Definition decode_dst (bc : list Z) : outcome (DstOperand.t * nat) :=
  '(tok, _) ← next_token bc;
  if flag tok (Z.shiftl 1 13) then Err UnsupportedRelativeAddressing
  else
    kind ← decode_reg_type tok;
    let write_mask := Z.land (Z.shiftr tok 16) 0xF in
    let result_mod := Z.land (Z.shiftr tok 20) 0xF in
    let shift_raw := Z.land (Z.shiftr tok 24) 0xF in
    let shift_scale := if flag shift_raw 0x8 then shift_raw - 16 else shift_raw in
    let mods := mkDstMods (flag result_mod 1) (flag result_mod 2) (flag result_mod 4) in
    mret (DstOperand.mk (Register.mk kind (Z.land tok 0x7FF)) write_mask mods shift_scale, 1%nat).

Definition decode_src (bc : list Z) (sm1 : bool) : outcome (SrcOperand.t * nat) :=
  '(tok, rest) ← next_token bc;
  kind ← decode_reg_type tok;
  let swizzle := decode_swizzle_bits (Z.land (Z.shiftr tok 16) 0xFF) in
  let modifier := decode_src_modifier (Z.land (Z.shiftr tok 24) 0xF) in
  '(rel_addr, consumed) ←
    (if flag tok (Z.shiftl 1 13) then
       if sm1 then mret (Some (RelativeAddr.mk (Register.mk Addr 0) (mkSwizzle 0 0 0 0)), 1%nat)
       else
         '(rel_tok, _) ← next_token rest;
         reg ← decode_register rel_tok;
         mret (Some (RelativeAddr.mk reg (decode_swizzle_bits (Z.land (Z.shiftr rel_tok 16) 0xFF))), 2%nat)
     else mret (None, 1%nat));
  mret (SrcOperand.mk (Register.mk kind (Z.land tok 0x7FF)) swizzle modifier rel_addr, consumed).

(** ** The program *)

(** The locals of [parse] behind the header: the lists it builds and the label it
    is in. *)
Module Acc.
Record t := mk {
  declarations : list Declaration; def_constants : list (Def.t (list Z)); def_int_constants : list (Def.t (list Z));
  def_bool_constants : list (Def.t bool); instructions : list Instruction.t;
  subroutines : gmap Z (list Instruction.t); current_label : option Z;
}.

Definition empty : t := mk [] [] [] [] [] ∅ None.

Definition add_declaration (d : Declaration) (a : t) : t :=
  mk (declarations a ++ [d]) (def_constants a) (def_int_constants a) (def_bool_constants a) (instructions a) (subroutines a) (current_label a).
Definition add_def (d : Def.t (list Z)) (a : t) : t :=
  mk (declarations a) (def_constants a ++ [d]) (def_int_constants a) (def_bool_constants a) (instructions a) (subroutines a) (current_label a).
Definition add_def_int (d : Def.t (list Z)) (a : t) : t :=
  mk (declarations a) (def_constants a) (def_int_constants a ++ [d]) (def_bool_constants a) (instructions a) (subroutines a) (current_label a).
Definition add_def_bool (d : Def.t bool) (a : t) : t :=
  mk (declarations a) (def_constants a) (def_int_constants a) (def_bool_constants a ++ [d]) (instructions a) (subroutines a) (current_label a).

(** [subroutines.entry(id).or_default(); current_label = Some(id)]. *)
Definition open_label (id : Z) (a : t) : t :=
  mk (declarations a) (def_constants a) (def_int_constants a) (def_bool_constants a) (instructions a)
     (<[id := default [] (subroutines a !! id)]> (subroutines a)) (Some id).
Definition close_label (a : t) : t :=
  mk (declarations a) (def_constants a) (def_int_constants a) (def_bool_constants a) (instructions a) (subroutines a) None.

(** The last [match] of the loop; [None] is the [expect] failing. *)
Definition push (inst : Instruction.t) (a : t) : option t :=
  match current_label a with
  | Some label =>
      body ← subroutines a !! label;
      Some (mk (declarations a) (def_constants a) (def_int_constants a) (def_bool_constants a) (instructions a)
               (<[label := body ++ [inst]]> (subroutines a)) (current_label a))
  | None =>
      Some (mk (declarations a) (def_constants a) (def_int_constants a) (def_bool_constants a) (instructions a ++ [inst])
               (subroutines a) (current_label a))
  end.
End Acc.

Definition parse_dcl (rest : list Z) : outcome (Declaration * list Z) :=
  '(usage_token, rest) ← next_token rest;
  '(dst_token, rest) ← next_token rest;
  reg ← decode_register dst_token;
  if decide (Register.kind reg = Sampler) then
    mret (SamplerDecl (decode_texture_type (Z.land (Z.shiftr usage_token 27) 0xF)) reg, rest)
  else
    usage ← decode_decl_usage (Z.land usage_token 0x1F);
    mret (Semantic usage (Z.land (Z.shiftr usage_token 16) 0xF) reg (Z.land (Z.shiftr dst_token 16) 0xF), rest).

(** [for v in &mut value] over the four words of a definition. *)
Fixpoint read_words (n : nat) (rest : list Z) : outcome (list Z * list Z) :=
  match n with
  | O => mret ([], rest)
  | S n =>
      '(bits, rest) ← next_token rest;
      '(words, rest) ← read_words n rest;
      mret (bits :: words, rest)
  end.

Definition cast_signed (bits : Z) : Z := if bits <? 0x80000000 then bits else bits - 0x100000000.

Definition parse_def (rest : list Z) : outcome (Def.t (list Z) * list Z) :=
  '(dst_token, rest) ← next_token rest;
  reg ← decode_register dst_token;
  '(value, rest) ← read_words 4 rest;
  mret (Def.mk reg value, rest).

Definition parse_defi (rest : list Z) : outcome (Def.t (list Z) * list Z) :=
  '(dst_token, rest) ← next_token rest;
  reg ← decode_register dst_token;
  '(value, rest) ← read_words 4 rest;
  mret (Def.mk reg (map cast_signed value), rest).

Definition parse_defb (rest : list Z) : outcome (Def.t bool * list Z) :=
  '(dst_token, rest) ← next_token rest;
  reg ← decode_register dst_token;
  '(bits, rest) ← next_token rest;
  mret (Def.mk reg (negb (bits =? 0)), rest).

(** [while remaining > 0], each turn of which takes at least one operand token. *)
Fixpoint parse_srcs (fuel : nat) (sm1 : bool) (remaining : nat) (rest : list Z) : outcome (list SrcOperand.t * list Z) :=
  match remaining, fuel with
  | O, _ => mret ([], rest)
  | S _, O => OutOfFuel
  | S _, S fuel =>
      '(s, consumed) ← decode_src rest sm1;
      remaining ← checked_sub remaining consumed;
      '(srcs, rest) ← parse_srcs fuel sm1 remaining (drop consumed rest);
      mret (s :: srcs, rest)
  end.

(** [if has { let (o, consumed) = decode(..)?; pos += consumed; .. Some(o) } else { None }]. *)
Definition optional_operand {O} (has : bool) (decode : list Z -> outcome (O * nat)) (remaining : nat) (rest : list Z)
    : outcome (option O * nat * list Z) :=
  if has then
    '(o, consumed) ← decode rest;
    remaining ← checked_sub remaining consumed;
    mret (Some o, remaining, drop consumed rest)
  else mret (None, remaining, rest).

Definition instruction_cmp_func (opcode : Opcode) (token : Z) : option CmpFunc :=
  match opcode with
  | OpIfc | OpBreakC | OpSetP => CmpFunc_from_raw (Z.land (Z.shiftr token 16) 0xFF)
  | _ => None
  end.

Definition instruction_flags (major : Z) (opcode : Opcode) (token : Z) : InstrFlags :=
  let tex_control := Z.land token 0x00030000 in
  mkInstrFlags (flag token (Z.shiftl 1 28))
    ((2 <=? major) && bool_decide (opcode = OpTexLd) && (tex_control =? 0x00010000))
    (flag token 0x40000000)
    ((2 <=? major) && bool_decide (opcode = OpTexLd) && (tex_control =? 0x00020000)).

Definition parse_instruction (major : Z) (opcode : Opcode) (token : Z) (rest : list Z) : outcome (Instruction.t * list Z) :=
  token_count ← or_out_of_fuel (operand_token_count (S (length rest)) major token (λ n, rest !! n));
  let flags := instruction_flags major opcode token in
  '(dst, remaining, rest) ←
    optional_operand (Opcode.has_destination opcode && (1 <=? token_count)%nat) decode_dst token_count rest;
  '(predicate, remaining, rest) ←
    optional_operand (PREDICATED flags && (0 <? remaining)%nat) (λ bc, decode_src bc false) remaining rest;
  '(srcs, rest) ← parse_srcs remaining (major <? 2) remaining rest;
  mret (Instruction.mk opcode dst srcs flags predicate (instruction_cmp_func opcode token), rest).

(** One turn of the loop behind the opcode: [None] for the [break]. *)
Definition parse_token (major : Z) (opcode : Opcode) (token : Z) (rest : list Z) (a : Acc.t)
    : outcome (option (Acc.t * list Z)) :=
  match opcode with
  | OpEnd => mret None
  | OpComment =>
      let len := Z.to_nat (Z.land (Z.shiftr token 16) 0x7FFF) in
      if (length rest <? len)%nat then Err Truncated else mret (Some (a, drop len rest))
  | OpDcl => '(d, rest) ← parse_dcl rest; mret (Some (Acc.add_declaration d a, rest))
  | OpDef => '(d, rest) ← parse_def rest; mret (Some (Acc.add_def d a, rest))
  | OpDefI => '(d, rest) ← parse_defi rest; mret (Some (Acc.add_def_int d a, rest))
  | OpDefB => '(d, rest) ← parse_defb rest; mret (Some (Acc.add_def_bool d a, rest))
  | OpPhase => mret (Some (a, rest))
  | OpLabel =>
      let token_count := Z.land (Z.shiftr token 24) 0xF in
      if negb (token_count =? 1) then Err Truncated
      else
        '(label_src, consumed) ← decode_src rest false;
        mret (Some (Acc.open_label (Register.index (SrcOperand.reg label_src)) a, drop consumed rest))
  | OpRet => mret (Some (Acc.close_label a, rest))
  | _ =>
      '(inst, rest) ← parse_instruction major opcode token rest;
      a ← expect (Acc.push inst a);
      mret (Some (a, rest))
  end.

Fixpoint parse_loop (fuel : nat) (major : Z) (rest : list Z) (a : Acc.t) : outcome Acc.t :=
  match fuel with
  | O => OutOfFuel
  | S fuel =>
      '(token, rest) ← next_token rest;
      let opcode_bits := Z.land token 0xFFFF in
      opcode ← ok_or (UnknownOpcode opcode_bits) (Opcode.from_u16 opcode_bits);
      next ← parse_token major opcode token rest a;
      match next with
      | None => mret a
      | Some (a, rest) => parse_loop fuel major rest a
      end
  end.

Definition known_model (shader_type : ShaderType) (major minor : Z) : bool :=
  if (major =? 2) || (major =? 3) then true
  else match shader_type with
       | Vertex => (major =? 1) && (minor =? 1)
       | Pixel => (major =? 1) && (minor <=? 4)
       end.

Definition parse (bytecode : list Z) : outcome DxsoProgram.t :=
  '(first, rest) ← next_token bytecode;
  shader_type ← match Z.land (Z.shiftr first 16) 0xFFFF with
                | 0xFFFE => mret Vertex
                | 0xFFFF => mret Pixel
                | _ => Err InvalidHeader
                end;
  let major := Z.land (Z.shiftr first 8) 0xFF in
  let minor := Z.land first 0xFF in
  if negb (known_model shader_type major minor) then Err (UnsupportedShaderModel major minor)
  else
    a ← parse_loop (length bytecode) major rest Acc.empty;
    mret (DxsoProgram.mk bytecode shader_type major minor (Acc.declarations a) (Acc.def_constants a)
            (Acc.def_int_constants a) (Acc.def_bool_constants a) (Acc.instructions a) (Acc.subroutines a)).

(** The passthrough shader of the unit tests: [vs_2_0 { dcl_position v0; mov oPos, v0; }]. *)
Example passthrough_parses :
  match parse [0xFFFE0200; 0x0200001F; 0; 0x900F0000; 0x02000001; 0xC00F0000; 0x90E40000; 0x0000FFFF] with
  | Ok p => DxsoProgram.declarations p = [Semantic Position 0 (Register.mk Input 0) 0xF]
            /\ Instruction.dst <$> DxsoProgram.instructions p
               = [Some (DstOperand.mk (Register.mk RastOut 0) 0xF (mkDstMods false false false) 0)]
  | _ => False
  end.
Proof. vm_compute. done. Qed.
