(* ===== verification/DxsoText.v ===== *)
(** The text of a shader: the items a token stream spells, what they denote and
    the canonical tokens of each.  This is the specification the parser is held
    against; it models no code of its own. *)

From S2P Require Import Prelude BitFields DxsoIr DxsoParser.

(** ** Numbers of the enumerations *)

Definition RegKind_to_bits (k : RegKind) : Z :=
  match k with
  | Temp => 0 | Input => 1 | Const => 2 | Addr => 3 | RastOut => 4 | AttrOut => 5 | TexcoordOut => 6 | ConstInt => 7
  | ColorOut => 8 | DepthOut => 9 | Sampler => 10 | Output => 11 | ConstBool => 14 | LoopReg => 15 | TempFloat16 => 16
  | MiscType => 17 | LabelReg => 18 | PredicateReg => 19
  end.

Definition DeclUsage_to_bits (u : DeclUsage) : Z :=
  match u with
  | Position => 0 | BlendWeight => 1 | BlendIndices => 2 | Normal => 3 | PSize => 4 | Texcoord => 5 | Tangent => 6
  | Binormal => 7 | TessFactor => 8 | PositionT => 9 | Color => 10 | Fog => 11 | Depth => 12 | Sample => 13
  end.

Definition TextureType_to_bits (t : TextureType) : Z :=
  match t with UnknownTexture => 0 | Texture2D => 2 | TextureCube => 3 | Texture3D => 4 end.

Definition SrcModifier_to_bits (m : SrcModifier) : Z :=
  match m with
  | ModNone => 0 | Neg => 1 | Bias => 2 | BiasNeg => 3 | Sign => 4 | SignNeg => 5 | Comp => 6 | X2 => 7 | X2Neg => 8
  | Dz => 9 | Dw => 10 | Abs => 11 | AbsNeg => 12 | Not => 13
  end.

Definition CmpFunc_to_raw (c : option CmpFunc) : Z :=
  match c with
  | None => 0 | Some Gt => 1 | Some Eq => 2 | Some Ge => 3 | Some Lt => 4 | Some Ne => 5 | Some Le => 6
  end.

Definition cast_unsigned (v : Z) : Z := if v <? 0 then v + 0x100000000 else v.

(** ** Items *)

Inductive item :=
  | TComment (payload : list Z)
  | TDcl (d : Declaration)
  | TDef (d : Def.t (list Z))
  | TDefI (d : Def.t (list Z))
  | TDefB (d : Def.t bool)
  | TPhase
  | TLabel (reg : Register.t)
  | TRet
  | TInst (inst : Instruction.t).

(** *** Well-formed operands *)

Definition wf_register (r : Register.t) : Prop := 0 <= Register.index r < 2048.
Definition wf_swizzle (s : Swizzle) : Prop :=
  0 <= lane_x s < 4 /\ 0 <= lane_y s < 4 /\ 0 <= lane_z s < 4 /\ 0 <= lane_w s < 4.
Definition wf_mask (m : WriteMask) : Prop := 0 <= m < 16.
Definition wf_dst (d : DstOperand.t) : Prop :=
  wf_register (DstOperand.reg d) /\ wf_mask (DstOperand.write_mask d) /\ -8 <= DstOperand.shift_scale d < 8.

(** An SM1 source addresses relative to [a0.x] or not at all. *)
Definition wf_rel (sm1 : bool) (r : RelativeAddr.t) : Prop :=
  if sm1 then r = RelativeAddr.mk (Register.mk Addr 0) (mkSwizzle 0 0 0 0)
  else wf_register (RelativeAddr.reg r) /\ wf_swizzle (RelativeAddr.swizzle r).
Definition wf_src (sm1 : bool) (s : SrcOperand.t) : Prop :=
  wf_register (SrcOperand.reg s) /\ wf_swizzle (SrcOperand.swizzle s)
  /\ match SrcOperand.rel_addr s with Some r => wf_rel sm1 r | None => True end.

(** *** Operand tokens *)

Definition operand_fields (r : Register.t) (rel : bool) (m0 m1 nib : Z) : list (Z * Z) :=
  [(11, Register.index r); (2, RegKind_to_bits (Register.kind r) / 8); (1, Z.b2z rel); (2, 0); (4, m0); (4, m1); (4, nib);
   (3, RegKind_to_bits (Register.kind r) mod 8); (1, Z.b2z true)].
Definition operand_token r rel m0 m1 nib : Z := pack (operand_fields r rel m0 m1 nib).

Definition swizzle_lo (s : Swizzle) : Z := lane_x s + 4 * lane_y s.
Definition swizzle_hi (s : Swizzle) : Z := lane_z s + 4 * lane_w s.

Definition dst_token (d : DstOperand.t) : Z :=
  let m := DstOperand.mods d in
  operand_token (DstOperand.reg d) false (DstOperand.write_mask d)
    (Z.b2z (SATURATE m) + 2 * Z.b2z (PARTIAL_PRECISION m) + 4 * Z.b2z (CENTROID m))
    (if DstOperand.shift_scale d <? 0 then DstOperand.shift_scale d + 16 else DstOperand.shift_scale d).

Definition rel_token (r : RelativeAddr.t) : Z :=
  operand_token (RelativeAddr.reg r) false (swizzle_lo (RelativeAddr.swizzle r)) (swizzle_hi (RelativeAddr.swizzle r)) 0.

Definition src_tokens (sm1 : bool) (s : SrcOperand.t) : list Z :=
  operand_token (SrcOperand.reg s) (bool_decide (is_Some (SrcOperand.rel_addr s))) (swizzle_lo (SrcOperand.swizzle s))
    (swizzle_hi (SrcOperand.swizzle s)) (SrcModifier_to_bits (SrcOperand.modifier s))
  :: match SrcOperand.rel_addr s with Some r => if sm1 then [] else [rel_token r] | None => [] end.

(** A plain register, where only its kind, index and a mask are read. *)
Definition register_token (r : Register.t) (mask : Z) : Z := operand_token r false mask 0 0.

(** *** Reading an operand token back *)

Section operand.
Context (r : Register.t) (rel : bool) (m0 m1 nib : Z).
Hypotheses (Hr : wf_register r) (H0 : 0 <= m0 < 16) (H1 : 0 <= m1 < 16) (Hn : 0 <= nib < 16).
Local Notation tok := (operand_token r rel m0 m1 nib).

Local Ltac fields := unfold wf_register in *; pack_fits.
Local Lemma kind_fields : 0 <= RegKind_to_bits (Register.kind r) / 8 < 4 /\ 0 <= RegKind_to_bits (Register.kind r) mod 8 < 8.
Proof using. clear. destruct (Register.kind r); repeat split; vm_compute; congruence. Qed.

Lemma operand_fits : Forall fits (operand_fields r rel m0 m1 nib).
Proof using Hr H0 H1 Hn. pose proof kind_fields. unfold operand_fields. destruct rel; fields. Qed.

Lemma operand_field n w v k m :
  operand_fields r rel m0 m1 nib !! n = Some (w, v) ->
  k = total_width (take n (operand_fields r rel m0 m1 nib)) -> m = Z.ones w ->
  Z.land (Z.shiftr tok k) m = v.
Proof using Hr H0 H1 Hn.
  intros Hl -> ->. pose proof operand_fits as Hf. unfold operand_token.
  pose proof (take_drop_middle _ _ _ Hl) as E. rewrite <- E in Hf at 1. apply Forall_app in Hf as [Hf Hg].
  apply Forall_cons in Hg as [Hg _].
  rewrite <- E at 1. by apply pack_field.
Qed.

Lemma operand_reg_type : decode_reg_type tok = Ok (Register.kind r).
Proof using Hr H0 H1 Hn.
  unfold decode_reg_type. rewrite (operand_field 7 3 (RegKind_to_bits (Register.kind r) mod 8)) by done.
  rewrite (operand_field 1 2 (RegKind_to_bits (Register.kind r) / 8)) by done.
  by destruct (Register.kind r).
Qed.

Lemma operand_index : Z.land tok 0x7FF = Register.index r.
Proof using Hr H0 H1 Hn. rewrite <- (Z.shiftr_0_r tok). by apply (operand_field 0 11). Qed.

Lemma operand_register : decode_register tok = Ok r.
Proof using Hr H0 H1 Hn. unfold decode_register. rewrite operand_reg_type, operand_index. by destruct r. Qed.

Lemma operand_mask : Z.land (Z.shiftr tok 16) 0xF = m0.
Proof using Hr H0 H1 Hn. by apply (operand_field 4 4). Qed.

Lemma operand_mods : Z.land (Z.shiftr tok 20) 0xF = m1.
Proof using Hr H0 H1 Hn. by apply (operand_field 5 4). Qed.

Lemma operand_nib : Z.land (Z.shiftr tok 24) 0xF = nib.
Proof using Hr H0 H1 Hn. by apply (operand_field 6 4). Qed.

Lemma operand_swizzle : Z.land (Z.shiftr tok 16) 0xFF = m0 + 16 * m1.
Proof using Hr H0 H1 Hn.
  change 0xFF with (Z.ones (4 + 4)). rewrite Z.land_ones by lia. 
  pose proof operand_mask as E0. pose proof operand_mods as E1.
  change 0xF with (Z.ones 4) in E0, E1. rewrite Z.land_ones in E0, E1 by lia.
  replace 20 with (16 + 4) in E1 by lia. rewrite <- Z.shiftr_shiftr in E1 by lia.
  rewrite (Z.shiftr_div_pow2 _ 4) in E1 by lia.
  rewrite Z.pow_add_r, Z.rem_mul_r by lia. lia.
Qed.

Lemma operand_rel : flag tok (Z.shiftl 1 13) = rel.
Proof using Hr H0 H1 Hn.
  pose proof operand_fits as Hf. unfold operand_token, operand_fields in *.
  apply (pack_flag [_; _]); [|done]. by apply (Forall_take _ 2) in Hf.
Qed.

Lemma operand_bit31 : flag tok 0x80000000 = true.
Proof using Hr H0 H1 Hn.
  pose proof operand_fits as Hf. unfold operand_token, operand_fields in *.
  apply (pack_flag [_; _; _; _; _; _; _; _]); [|done]. by apply (Forall_take _ 8) in Hf.
Qed.
End operand.

(** *** Reading operands back *)

Lemma swizzle_nibbles s : wf_swizzle s -> 0 <= swizzle_lo s < 16 /\ 0 <= swizzle_hi s < 16.
Proof. unfold wf_swizzle, swizzle_lo, swizzle_hi. lia. Qed.

Lemma decode_swizzle_pack s : wf_swizzle s -> decode_swizzle_bits (swizzle_lo s + 16 * swizzle_hi s) = s.
Proof.
  intros (Hx & Hy & Hz & Hw). destruct s as [x y z w]. cbn [lane_x lane_y lane_z lane_w] in *.
  set (fs := [(2, x); (2, y); (2, z); (2, w)]).
  assert (Hf : Forall fits fs) by pack_fits.
  assert (E : swizzle_lo (mkSwizzle x y z w) + 16 * swizzle_hi (mkSwizzle x y z w) = pack fs)
    by (unfold swizzle_lo, swizzle_hi, fs; cbn [pack lane_x lane_y lane_z lane_w]; lia).
  rewrite E. unfold decode_swizzle_bits. rewrite <- (Z.shiftr_0_r (pack fs)) at 1.
  f_equal.
  - apply (pack_field [] 2 x); [apply (Forall_take _ 0 _ Hf)|by inversion Hf|done..].
  - apply (pack_field [(2, x)] 2 y); [apply (Forall_take _ 1 _ Hf)|by apply (Forall_drop _ 1), Forall_inv in Hf|done..].
  - apply (pack_field [(2, x); (2, y)] 2 z); [apply (Forall_take _ 2 _ Hf)|by apply (Forall_drop _ 2), Forall_inv in Hf|done..].
  - apply (pack_field [(2, x); (2, y); (2, z)] 2 w); [apply (Forall_take _ 3 _ Hf)|by apply (Forall_drop _ 3), Forall_inv in Hf|done..].
Qed.

Lemma modifier_nibble m : 0 <= SrcModifier_to_bits m < 16.
Proof. destruct m; cbn; lia. Qed.

Lemma decode_modifier m : decode_src_modifier (SrcModifier_to_bits m) = m.
Proof. by destruct m. Qed.

Lemma decode_dst_token d rest : wf_dst d -> decode_dst (dst_token d :: rest) = Ok (d, 1%nat).
Proof.
  intros (Hr & Hm & Hs). unfold wf_mask in Hm. destruct d as [r m [sat pp cen] sh].
  cbn [DstOperand.reg DstOperand.write_mask DstOperand.shift_scale] in *.
  unfold decode_dst, dst_token. cbn [DstOperand.reg DstOperand.write_mask DstOperand.shift_scale DstOperand.mods
    SATURATE PARTIAL_PRECISION CENTROID next_token mbind result_bind].
  set (mods := _ + 4 * Z.b2z cen). set (nib := if sh <? 0 then _ else _).
  assert (0 <= mods < 16) by (destruct sat, pp, cen; vm_compute; intuition congruence).
  assert (Hn : 0 <= nib < 16 /\ (if flag nib 8 then nib - 16 else nib) = sh).
  { unfold nib. assert (Hc : sh = -8 \/ sh = -7 \/ sh = -6 \/ sh = -5 \/ sh = -4 \/ sh = -3 \/ sh = -2 \/ sh = -1 \/ sh = 0
      \/ sh = 1 \/ sh = 2 \/ sh = 3 \/ sh = 4 \/ sh = 5 \/ sh = 6 \/ sh = 7) by lia.
    repeat destruct Hc as [->|Hc]; subst; vm_compute; intuition congruence. }
  destruct Hn as [Hn Hsh].
  rewrite operand_rel, operand_reg_type by done. cbn [mret result_ret].
  rewrite operand_index, operand_mask, operand_mods, operand_nib by done. rewrite Hsh.
  destruct r, sat, pp, cen; done.
Qed.

Lemma decode_rel_token r : wf_register (RelativeAddr.reg r) -> wf_swizzle (RelativeAddr.swizzle r) ->
  decode_register (rel_token r) = Ok (RelativeAddr.reg r)
  /\ decode_swizzle_bits (Z.land (Z.shiftr (rel_token r) 16) 0xFF) = RelativeAddr.swizzle r.
Proof.
  intros Hr Hs. pose proof (swizzle_nibbles _ Hs) as [? ?]. unfold rel_token.
  rewrite operand_register, operand_swizzle by (done || lia). by rewrite decode_swizzle_pack.
Qed.

Lemma decode_src_tokens sm1 s rest : wf_src sm1 s ->
  decode_src (src_tokens sm1 s ++ rest) sm1 = Ok (s, length (src_tokens sm1 s)).
Proof.
  intros (Hr & Hs & Hrel). pose proof (swizzle_nibbles _ Hs) as [? ?].
  pose proof (modifier_nibble (SrcOperand.modifier s)).
  unfold decode_src, src_tokens. rewrite <- app_comm_cons. cbn [next_token mbind result_bind].
  rewrite operand_reg_type, operand_swizzle, operand_nib, operand_rel, operand_index by done. cbn [mbind result_bind].
  rewrite decode_swizzle_pack, decode_modifier by done. destruct s as [r sw m [rel|]];
    cbn [SrcOperand.reg SrcOperand.swizzle SrcOperand.modifier SrcOperand.rel_addr] in *; [|by destruct r].
  rewrite bool_decide_true by done. destruct sm1; [rewrite Hrel; by destruct r|].
  destruct Hrel as [Hrr Hrs]. pose proof (decode_rel_token rel Hrr Hrs) as [E1 E2].
  cbn [app next_token mbind result_bind]. rewrite E1. cbn [mbind result_bind]. rewrite E2. by destruct r, rel.
Qed.

(** ** Tokens of an item *)

(** An opcode token: the opcode, the control byte, the operand count and bits 28
    and 30. *)
Definition opcode_fields (op : Opcode) (control count : Z) (pred coissue : bool) : list (Z * Z) :=
  [(16, Opcode.to_u16 op); (8, control); (4, count); (1, Z.b2z pred); (1, 0); (1, Z.b2z coissue); (1, Z.b2z false)].
Definition opcode_token op control count pred coissue : Z := pack (opcode_fields op control count pred coissue).

(** SM2 counts operands in the token; SM1 leaves the count zero. *)
Definition count_field (major : Z) (operands : list Z) : Z := if 2 <=? major then Z.of_nat (length operands) else 0.

Definition simple_token (major : Z) (op : Opcode) (operands : list Z) : Z :=
  opcode_token op 0 (count_field major operands) false false.

Definition comment_token (payload : list Z) : Z := pack [(16, 0xFFFE); (15, Z.of_nat (length payload)); (1, Z.b2z false)].

Definition usage_token (d : Declaration) : Z :=
  match d with
  | Semantic usage index _ _ => pack [(5, DeclUsage_to_bits usage); (11, 0); (4, index); (7, 0); (4, 0); (1, Z.b2z true)]
  | SamplerDecl t _ => pack [(5, 0); (11, 0); (4, 0); (7, 0); (4, TextureType_to_bits t); (1, Z.b2z true)]
  end.

Definition dcl_operands (d : Declaration) : list Z :=
  [usage_token d; match d with Semantic _ _ r mask => register_token r mask | SamplerDecl _ r => register_token r 0xF end].

Definition inst_operands (major : Z) (i : Instruction.t) : list Z :=
  option_list (dst_token <$> Instruction.dst i)
  ++ from_option (src_tokens false) [] (Instruction.predicate i)
  ++ concat (src_tokens (major <? 2) <$> Instruction.srcs i).

Definition inst_control (i : Instruction.t) : Z :=
  if TEX_PROJECTED (Instruction.flags i) then 1 else if TEX_BIASED (Instruction.flags i) then 2
  else CmpFunc_to_raw (Instruction.cmp_func i).

Definition assemble_item (major : Z) (it : item) : Z * list Z :=
  match it with
  | TComment payload => (comment_token payload, payload)
  | TDcl d => (simple_token major OpDcl (dcl_operands d), dcl_operands d)
  | TDef d => let ops := register_token (Def.reg d) 0xF :: Def.value d in (simple_token major OpDef ops, ops)
  | TDefI d => let ops := register_token (Def.reg d) 0xF :: map cast_unsigned (Def.value d) in (simple_token major OpDefI ops, ops)
  | TDefB d => let ops := [register_token (Def.reg d) 0xF; Z.b2z (Def.value d)] in (simple_token major OpDefB ops, ops)
  | TPhase => (simple_token major OpPhase [], [])
  | TLabel r => (opcode_token OpLabel 0 1 false false, [register_token r 0xF])
  | TRet => (simple_token major OpRet [], [])
  | TInst i =>
      let ops := inst_operands major i in
      (opcode_token (Instruction.opcode i) (inst_control i) (count_field major ops) (PREDICATED (Instruction.flags i))
         (COISSUE (Instruction.flags i)), ops)
  end.

Definition item_tokens (major : Z) (it : item) : list Z := let '(tok, ops) := assemble_item major it in tok :: ops.

(** *** Well-formed items *)

(** The opcodes the generic arm of the loop takes. *)
Definition is_generic (op : Opcode) : bool :=
  match op with
  | OpEnd | OpComment | OpDcl | OpDef | OpDefI | OpDefB | OpPhase | OpLabel | OpRet => false
  | _ => true
  end.

Definition takes_cmp (op : Opcode) : bool := match op with OpIfc | OpBreakC | OpSetP => true | _ => false end.

Definition wf_flags (major : Z) (i : Instruction.t) : Prop :=
  let f := Instruction.flags i in
  (TEX_PROJECTED f || TEX_BIASED f = true -> 2 <= major /\ Instruction.opcode i = OpTexLd)
  /\ TEX_PROJECTED f && TEX_BIASED f = false
  /\ (is_Some (Instruction.cmp_func i) -> takes_cmp (Instruction.opcode i) = true).

(** An operand is present as soon as the opcode or the flag asks for one and the
    instruction has any left. *)
Definition wf_presence (i : Instruction.t) : Prop :=
  match Instruction.dst i with
  | Some _ => Opcode.has_destination (Instruction.opcode i) = true
  | None => Opcode.has_destination (Instruction.opcode i) = true -> Instruction.predicate i = None /\ Instruction.srcs i = []
  end
  /\ match Instruction.predicate i with
     | Some _ => PREDICATED (Instruction.flags i) = true
     | None => PREDICATED (Instruction.flags i) = true -> Instruction.srcs i = []
     end.

Record wf_inst (major : Z) (i : Instruction.t) : Prop := {
  wf_generic : is_generic (Instruction.opcode i) = true;
  wf_dst_ok : from_option wf_dst True (Instruction.dst i);
  wf_predicate_ok : from_option (wf_src false) True (Instruction.predicate i);
  wf_srcs_ok : Forall (wf_src (major <? 2)) (Instruction.srcs i);
  wf_flags_ok : wf_flags major i;
  wf_presence_ok : wf_presence i;
  wf_count_ok : 2 <= major -> (length (inst_operands major i) <= 15)%nat;
}.

Definition wf_declaration (d : Declaration) : Prop :=
  match d with
  | Semantic _ index r mask => 0 <= index < 16 /\ wf_register r /\ wf_mask mask /\ Register.kind r <> Sampler
  | SamplerDecl _ r => wf_register r /\ Register.kind r = Sampler
  end.

Definition is_i32 (v : Z) : Prop := -0x80000000 <= v < 0x80000000.

Definition wf_item (major : Z) (it : item) : Prop :=
  match it with
  | TComment payload => Z.of_nat (length payload) < 32768 /\ Forall is_u32 payload
  | TDcl d => wf_declaration d
  | TDef d => wf_register (Def.reg d) /\ length (Def.value d) = 4%nat /\ Forall is_u32 (Def.value d)
  | TDefI d => wf_register (Def.reg d) /\ length (Def.value d) = 4%nat /\ Forall is_i32 (Def.value d)
  | TDefB d => wf_register (Def.reg d)
  | TPhase | TRet => True
  | TLabel r => wf_register r
  | TInst i => wf_inst major i
  end.

(** ** What a text denotes *)

(** Each instruction with the label it is under: [None] in the main body. *)
Fixpoint placed (cur : option Z) (items : list item) : list (option Z * Instruction.t) :=
  match items with
  | [] => []
  | TInst i :: items => (cur, i) :: placed cur items
  | TLabel r :: items => placed (Some (Register.index r)) items
  | TRet :: items => placed None items
  | _ :: items => placed cur items
  end.

Definition body_of (cur where_ : option Z) (items : list item) : list Instruction.t :=
  snd <$> filter (λ pi, pi.1 = where_) (placed cur items).

Definition labels (items : list item) : list Z :=
  omap (λ it, match it with TLabel r => Some (Register.index r) | _ => None end) items.
Definition dcls (items : list item) : list Declaration := omap (λ it, match it with TDcl d => Some d | _ => None end) items.
Definition defs (items : list item) : list (Def.t (list Z)) := omap (λ it, match it with TDef d => Some d | _ => None end) items.
Definition defis (items : list item) : list (Def.t (list Z)) := omap (λ it, match it with TDefI d => Some d | _ => None end) items.
Definition defbs (items : list item) : list (Def.t bool) := omap (λ it, match it with TDefB d => Some d | _ => None end) items.

(** The program a text denotes: declarations and definitions in order wherever
    they stand, the instructions outside every label, and for each label the
    instructions under it. *)
Definition program_of (bytecode : list Z) (ty : ShaderType) (major minor : Z) (items : list item) : DxsoProgram.t :=
  DxsoProgram.mk bytecode ty major minor (dcls items) (defs items) (defis items) (defbs items) (body_of None None items)
    (set_to_map (λ l, (l, body_of None (Some l) items)) (list_to_set (labels items) : gset Z)).

(** The token stream of a text. *)
Definition version_token (ty : ShaderType) (major minor : Z) : Z :=
  pack [(8, minor); (8, major); (16, match ty with Vertex => 0xFFFE | Pixel => 0xFFFF end)].
Definition END_TOKEN : Z := 0xFFFF.
Definition assemble (ty : ShaderType) (major minor : Z) (items : list item) : list Z :=
  version_token ty major minor :: concat (item_tokens major <$> items) ++ [END_TOKEN].

(** ** The accumulator of a text *)

Definition run_item (it : item) (a : Acc.t) : Acc.t :=
  match it with
  | TComment _ | TPhase => a
  | TDcl d => Acc.add_declaration d a
  | TDef d => Acc.add_def d a
  | TDefI d => Acc.add_def_int d a
  | TDefB d => Acc.add_def_bool d a
  | TLabel r => Acc.open_label (Register.index r) a
  | TRet => Acc.close_label a
  | TInst i => default a (Acc.push i a)
  end.

Definition run_items (items : list item) (a : Acc.t) : Acc.t := foldl (λ a it, run_item it a) a items.

(** The [expect] of the loop: the label being parsed has its entry. *)
Definition label_entered (a : Acc.t) : Prop :=
  match Acc.current_label a with Some l => is_Some (Acc.subroutines a !! l) | None => True end.

Lemma push_run i a : label_entered a -> Acc.push i a = Some (run_item (TInst i) a).
Proof. unfold label_entered, run_item, Acc.push. destruct (Acc.current_label a); [|done]. by intros [b ->]. Qed.

Lemma run_item_entered it a : label_entered a -> label_entered (run_item it a).
Proof.
  intros Ha. destruct it; try exact Ha; unfold label_entered in *; cbn [run_item Acc.open_label Acc.close_label Acc.current_label Acc.subroutines].
  - by rewrite lookup_insert_eq.
  - done.
  - unfold Acc.push. destruct (Acc.current_label a) as [l|] eqn:E; [|done].
    destruct Ha as [b Hb]. rewrite Hb. cbn. by rewrite lookup_insert_eq.
Qed.

Lemma run_items_entered items a : label_entered a -> label_entered (run_items items a).
Proof. revert a. induction items as [|it items IH]; [done|]. intros a Ha. by apply IH, run_item_entered. Qed.

(** Where the cursor is after a text, and the body each place has gained. *)
Lemma run_items_lists items a :
  Acc.declarations (run_items items a) = Acc.declarations a ++ dcls items
  /\ Acc.def_constants (run_items items a) = Acc.def_constants a ++ defs items
  /\ Acc.def_int_constants (run_items items a) = Acc.def_int_constants a ++ defis items
  /\ Acc.def_bool_constants (run_items items a) = Acc.def_bool_constants a ++ defbs items.
Proof.
  revert a. induction items as [|it items IH]; intros a; [by rewrite !app_nil_r|].
  change (run_items (it :: items) a) with (run_items items (run_item it a)).
  destruct (IH (run_item it a)) as (-> & -> & -> & ->).
  destruct it; cbn [run_item Acc.add_declaration Acc.add_def Acc.add_def_int Acc.add_def_bool Acc.open_label Acc.close_label
    Acc.declarations Acc.def_constants Acc.def_int_constants Acc.def_bool_constants dcls defs defis defbs omap list_omap];
    rewrite <- ?app_assoc; try done.
  unfold Acc.push. destruct (Acc.current_label a) as [l|]; [|done]. by destruct (Acc.subroutines a !! l).
Qed.

Lemma body_of_step cur w it items :
  body_of cur w (it :: items)
  = (match it with TInst i => if decide (cur = w) then [i] else [] | _ => [] end)
    ++ body_of (match it with TLabel r => Some (Register.index r) | TRet => None | _ => cur end) w items.
Proof. unfold body_of. destruct it; cbn [placed]; try done. rewrite filter_cons. cbn [fst]. by destruct (decide (cur = w)). Qed.

Lemma labels_label l r items : l ∈ labels (TLabel r :: items) <-> l = Register.index r \/ l ∈ labels items.
Proof. apply elem_of_cons. Qed.

Lemma run_items_bodies items a : label_entered a ->
  Acc.instructions (run_items items a) = Acc.instructions a ++ body_of (Acc.current_label a) None items
  /\ forall l, Acc.subroutines (run_items items a) !! l
     = if decide (is_Some (Acc.subroutines a !! l) \/ l ∈ labels items)
       then Some (default [] (Acc.subroutines a !! l) ++ body_of (Acc.current_label a) (Some l) items) else None.
Proof.
  revert a. induction items as [|it items IH]; intros a Ha.
  { split; [by rewrite app_nil_r|]. intros l. cbn [run_items foldl]. destruct (Acc.subroutines a !! l) as [b|] eqn:E.
    - rewrite decide_True by eauto. cbn. by rewrite app_nil_r.
    - rewrite decide_False; [done|]. intros [[? ?]|H]; [done|]. by apply not_elem_of_nil in H. }
  change (run_items (it :: items) a) with (run_items items (run_item it a)).
  destruct (IH _ (run_item_entered it a Ha)) as [Ei Es]. rewrite body_of_step, Ei. clear Ei.
  assert (Hs : forall l, Acc.subroutines (run_items items (run_item it a)) !! l = _) by exact Es. clear Es IH.
  destruct it; try (cbn [run_item Acc.add_declaration Acc.add_def Acc.add_def_int Acc.add_def_bool Acc.close_label
    Acc.instructions Acc.current_label Acc.subroutines] in *; split; [done|]; intros l; rewrite Hs, body_of_step; done).
  - cbn [run_item Acc.open_label Acc.instructions Acc.current_label Acc.subroutines] in *. split; [done|].
    intros l. rewrite Hs. clear Hs. pose proof (labels_label l reg items) as Hlab.
    destruct (decide (l = Register.index reg)) as [->|Hl].
    + rewrite lookup_insert_eq. rewrite (decide_True (P := is_Some (Some _) \/ _)) by (left; by eexists).
      rewrite decide_True by (right; apply Hlab; by left). by rewrite body_of_step.
    + rewrite lookup_insert_ne by done. rewrite body_of_step. apply decide_ext. rewrite Hlab. tauto.
  - cbn [run_item] in *. unfold label_entered, Acc.push in *. destruct (Acc.current_label a) as [l0|] eqn:E0.
    + destruct Ha as [b Hb]. rewrite Hb in *. cbn [default from_option option_bind mbind Acc.instructions Acc.current_label Acc.subroutines id] in *.
      rewrite decide_False by done. cbn [app]. split; [done|]. intros l. rewrite Hs, body_of_step. clear Hs. change (labels (TInst inst :: items)) with (labels items).
      destruct (decide (l = l0)) as [->|Hl].
      * rewrite lookup_insert_eq, Hb, !decide_True by eauto. cbn. by rewrite <- app_assoc.
      * rewrite lookup_insert_ne, (decide_False (P := Some l0 = Some l)) by congruence. done.
    + cbn [default from_option Acc.instructions Acc.current_label Acc.subroutines id] in *. rewrite decide_True by done.
      split; [by rewrite <- app_assoc|]. intros l. rewrite Hs, body_of_step. done.
Qed.

(** The parser's last step over the accumulator of a text builds the program the
    text denotes. *)
Lemma run_items_denotes bytecode ty major minor items :
  let a := run_items items Acc.empty in
  DxsoProgram.mk bytecode ty major minor (Acc.declarations a) (Acc.def_constants a) (Acc.def_int_constants a)
    (Acc.def_bool_constants a) (Acc.instructions a) (Acc.subroutines a)
  = program_of bytecode ty major minor items.
Proof.
  intros a. destruct (run_items_lists items Acc.empty) as (E1 & E2 & E3 & E4).
  destruct (run_items_bodies items Acc.empty I) as [E5 E6]. unfold program_of. f_equal; try done.
  apply map_eq. intros l. etransitivity; [apply E6|]. cbn [Acc.empty Acc.subroutines Acc.current_label]. rewrite lookup_empty.
  destruct (decide _) as [[[? ?]|H]|H]; [done|symmetry..].
  - apply lookup_set_to_map; [done|]. exists l. split; [set_solver|done].
  - apply eq_None_not_Some. intros [b Hb]. apply lookup_set_to_map in Hb as (l' & Hl & E); [|done]. simplify_eq. set_solver.
Qed.
