(* ===== verification/DxsoRoundTrip.v ===== *)
(** The parser against the shader texts: a text parses to the program it denotes,
    and whatever parses is the program of some well-formed text. *)

From S2P Require Import Prelude BitFields DxsoIr DxsoParser DxsoText.

(** ** Reading an opcode token back *)

Section opcode.
Context (op : Opcode) (control count : Z) (pred coissue : bool).
Hypotheses (Hc : 0 <= control < 256) (Hn : 0 <= count < 16).
Local Notation tok := (opcode_token op control count pred coissue).
Local Notation fs := (opcode_fields op control count pred coissue).

Lemma opcode_fits : Forall fits fs.
Proof using Hc Hn. pose proof (Opcode.to_u16_range op). unfold opcode_fields. destruct pred, coissue; pack_fits. Qed.

Lemma opcode_bits : Z.land tok 0xFFFF = Opcode.to_u16 op.
Proof using Hc Hn.
  pose proof opcode_fits as Hf. rewrite <- (Z.shiftr_0_r tok). unfold opcode_token, opcode_fields in *.
  apply (pack_field [] 16); [constructor|by apply Forall_inv in Hf|done..].
Qed.

Lemma opcode_read : Opcode.from_u16 (Z.land tok 0xFFFF) = Some op.
Proof using Hc Hn. by rewrite opcode_bits, Opcode.from_to_u16. Qed.

Lemma opcode_control : Z.land (Z.shiftr tok 16) 0xFF = control.
Proof using Hc Hn.
  pose proof opcode_fits as Hf. unfold opcode_token, opcode_fields in *.
  apply (pack_field [_] 8); [by apply (Forall_take _ 1) in Hf|by apply (Forall_drop _ 1), Forall_inv in Hf|done..].
Qed.

Lemma opcode_count : Z.land (Z.shiftr tok 24) 0xF = count.
Proof using Hc Hn.
  pose proof opcode_fits as Hf. unfold opcode_token, opcode_fields in *.
  apply (pack_field [_; _] 4); [by apply (Forall_take _ 2) in Hf|by apply (Forall_drop _ 2), Forall_inv in Hf|done..].
Qed.

Lemma opcode_predicated : flag tok (Z.shiftl 1 28) = pred.
Proof using Hc Hn.
  pose proof opcode_fits as Hf. unfold opcode_token, opcode_fields in *.
  apply (pack_flag [_; _; _]); [|done]. by apply (Forall_take _ 3) in Hf.
Qed.

Lemma opcode_coissue : flag tok 0x40000000 = coissue.
Proof using Hc Hn.
  pose proof opcode_fits as Hf. unfold opcode_token, opcode_fields in *.
  apply (pack_flag [_; _; _; _; _]); [|done]. by apply (Forall_take _ 5) in Hf.
Qed.

Lemma opcode_bit31 : flag tok 0x80000000 = false.
Proof using Hc Hn.
  pose proof opcode_fits as Hf. unfold opcode_token, opcode_fields in *.
  apply (pack_flag [_; _; _; _; _; _]); [|done]. by apply (Forall_take _ 6) in Hf.
Qed.

(** The two low bits of the control byte, in place. *)
Lemma opcode_tex_control : Z.land tok 0x00030000 = control mod 4 * 65536.
Proof using Hc Hn.
  pose proof opcode_control as E. change 0xFF with (Z.ones 8) in E. set (t := tok) in *. clearbody t.
  assert (E2 : Z.land (Z.shiftr t 16) (Z.ones 2) = control mod 4).
  { change 4 with (2 ^ 2). rewrite <- E, <- Z.land_ones by lia. by rewrite <- Z.land_assoc. }
  change 0x00030000 with (Z.shiftl (Z.ones 2) 16). rewrite <- E2, <- Z.shiftl_mul_pow2 with (n := 16) by lia.
  apply Z.bits_inj'. intros n Hn0. rewrite Z.land_spec. destruct (Z.lt_ge_cases n 16).
  - by rewrite !Z.shiftl_spec_low, andb_false_r.
  - rewrite !Z.shiftl_spec, Z.land_spec, Z.shiftr_spec by lia. do 2 f_equal. lia.
Qed.
End opcode.

(** ** Operand runs *)

(** Nothing further down the stream is taken for an operand: the next token
    clears bit 31. *)
Definition run_ends (rest : list Z) : Prop :=
  match rest with t :: _ => flag t 0x80000000 = false | [] => True end.

Lemma scan_operands_exact fuel peek n k :
  (forall i, (n <= i < n + k)%nat -> exists t, peek i = Some t /\ flag t 0x80000000 = true) ->
  from_option (λ t, flag t 0x80000000) false (peek (n + k)%nat) = false ->
  (k < fuel)%nat -> scan_operands fuel peek n = Some (n + k)%nat.
Proof.
  revert n k. induction fuel as [|fuel IH]; intros n k Hrun Hend Hf; [lia|]. cbn [scan_operands].
  destruct k as [|k].
  - rewrite Nat.add_0_r in *. by rewrite Hend.
  - destruct (Hrun n) as (t & -> & Ht); [lia|]. cbn [from_option]. rewrite Ht.
    replace (n + S k)%nat with (S n + k)%nat in * by lia. apply IH; [|done|lia]. intros i Hi. apply Hrun. lia.
Qed.

(** The run of operands in front of a token that ends it. *)
Lemma scan_operands_app fuel ops rest :
  Forall (λ t, flag t 0x80000000 = true) ops -> run_ends rest -> (length ops < fuel)%nat ->
  scan_operands fuel (λ n, (ops ++ rest) !! n) 0 = Some (length ops).
Proof.
  intros Hops Hend Hf. apply (scan_operands_exact _ _ 0 (length ops)); [|cbn|done].
  - intros i Hi. destruct (lookup_lt_is_Some_2 ops i) as [t Ht]; [lia|]. exists t. rewrite lookup_app_l by lia.
    split; [done|]. by eapply Forall_lookup_1 in Hops.
  - rewrite lookup_app_r, Nat.sub_diag by lia. destruct rest; [done|exact Hend].
Qed.

(** The fuel the parser gives the scan is enough. *)
Lemma scan_operands_fuel ops : exists n, scan_operands (S (length ops)) (λ n, ops !! n) 0 = Some n /\ (n <= length ops)%nat.
Proof.
  assert (Hsplit : exists l r, ops = l ++ r /\ Forall (λ t, flag t 0x80000000 = true) l /\ run_ends r).
  { induction ops as [|t ops (l & r & -> & Hl & Hr)]; [by exists [], []|]. destruct (flag t 0x80000000) eqn:Ht.
    - exists (t :: l), r. split; [done|]. split; [by constructor|done].
    - by exists [], (t :: l ++ r). }
  destruct Hsplit as (l & r & -> & Hl & Hr). exists (length l). rewrite length_app.
  split; [by apply scan_operands_app; [..|lia]|lia].
Qed.

Lemma src_tokens_bit31 sm1 s : wf_src sm1 s -> Forall (λ t, flag t 0x80000000 = true) (src_tokens sm1 s).
Proof.
  intros (Hr & Hs & Hrel). pose proof (swizzle_nibbles _ Hs) as [? ?]. unfold src_tokens.
  pose proof (modifier_nibble (SrcOperand.modifier s)). constructor; [by apply operand_bit31|].
  destruct (SrcOperand.rel_addr s) as [r|]; [|done]. destruct sm1; [done|]. destruct Hrel as [Hr1 Hs1].
  pose proof (swizzle_nibbles _ Hs1) as [? ?]. constructor; [apply operand_bit31; (done || lia)|done].
Qed.

Lemma dst_token_bit31 d : wf_dst d -> flag (dst_token d) 0x80000000 = true.
Proof.
  intros (Hr & Hm & Hs). unfold wf_mask in Hm. destruct d as [r m [[] [] []] sh];
    cbn [DstOperand.shift_scale DstOperand.write_mask DstOperand.reg] in *; apply operand_bit31; cbn; try done; split_ifs; lia.
Qed.

Lemma inst_operands_bit31 major i : wf_inst major i -> Forall (λ t, flag t 0x80000000 = true) (inst_operands major i).
Proof.
  intros [_ Hd Hp Hs _ _ _]. unfold inst_operands. rewrite !Forall_app. repeat split.
  - destruct (Instruction.dst i); [|done]. constructor; [by apply dst_token_bit31|done].
  - destruct (Instruction.predicate i); [|done]. by apply src_tokens_bit31.
  - apply Forall_concat, Forall_fmap. eapply Forall_impl; [exact Hs|]. intros s. apply src_tokens_bit31.
Qed.

(** ** An instruction parses back *)

Lemma src_tokens_length sm1 s : (1 <= length (src_tokens sm1 s) <= 2)%nat.
Proof. unfold src_tokens. destruct (SrcOperand.rel_addr s), sm1; cbn; lia. Qed.

Lemma parse_srcs_assembled sm1 srcs fuel rest : Forall (wf_src sm1) srcs ->
  let toks := concat (src_tokens sm1 <$> srcs) in
  (length toks <= fuel)%nat -> parse_srcs fuel sm1 (length toks) (toks ++ rest) = Ok (srcs, rest).
Proof.
  intros Hs. revert fuel. induction Hs as [|s srcs Hs1 Hs IH]; intros fuel toks Hf; subst toks; [by destruct fuel|].
  cbn [fmap list_fmap concat] in *. pose proof (src_tokens_length sm1 s). rewrite length_app in *.
  destruct fuel as [|fuel]; [lia|]. destruct (length (src_tokens sm1 s) + _)%nat eqn:E; [lia|]. cbn [parse_srcs]. rewrite <- E.
  rewrite <- app_assoc, decode_src_tokens by done. cbn [mbind result_bind].
  unfold checked_sub. rewrite (proj2 (Nat.leb_le _ _)) by lia. cbn [mbind result_bind].
  replace (length (src_tokens sm1 s) + length (concat (src_tokens sm1 <$> srcs)) - length (src_tokens sm1 s))%nat
    with (length (concat (src_tokens sm1 <$> srcs))) by lia.
  rewrite drop_app_length, IH by lia. done.
Qed.

(** An optional operand that is there, and one that is not. *)
Lemma optional_operand_some {O} (decode : list Z -> outcome (O * nat)) o toks rest n :
  decode (toks ++ rest) = Ok (o, length toks) -> (length toks <= n)%nat ->
  optional_operand true decode n (toks ++ rest) = Ok (Some o, (n - length toks)%nat, rest).
Proof.
  intros E Hn. unfold optional_operand. rewrite E. cbn [mbind result_bind]. unfold checked_sub.
  rewrite (proj2 (Nat.leb_le _ _)) by done. cbn [mbind result_bind]. by rewrite drop_app_length.
Qed.

Lemma cmp_raw_range c : 0 <= CmpFunc_to_raw c < 7.
Proof. destruct c as [[]|]; cbn; lia. Qed.

Lemma cmp_raw_back c : CmpFunc_from_raw (CmpFunc_to_raw c) = c.
Proof. by destruct c as [[]|]. Qed.

Section instruction.
Context (major : Z) (i : Instruction.t).
Hypothesis Hwf : wf_inst major i.
Local Notation op := (Instruction.opcode i).
Local Notation f := (Instruction.flags i).
Local Notation ops := (inst_operands major i).
Local Notation tok := (opcode_token op (inst_control i) (count_field major ops) (PREDICATED f) (COISSUE f)).

Lemma inst_control_range : 0 <= inst_control i < 256.
Proof using. pose proof (cmp_raw_range (Instruction.cmp_func i)). unfold inst_control. split_ifs; lia. Qed.

Lemma inst_count_range : 0 <= count_field major ops < 16.
Proof using Hwf. unfold count_field. pose proof (wf_count_ok _ _ Hwf). split_ifs; lia. Qed.

Lemma inst_flags_back : instruction_flags major op tok = f.
Proof using Hwf.
  pose proof inst_control_range. pose proof inst_count_range. unfold instruction_flags.
  rewrite opcode_predicated, opcode_coissue, opcode_tex_control by done.
  destruct (wf_flags_ok _ _ Hwf) as (Htex & Hone & Hcmp). unfold inst_control in *.
  destruct f as [pr tp co tb]. cbn [TEX_PROJECTED TEX_BIASED PREDICATED COISSUE] in *.
  assert (Hno : Instruction.opcode i = OpTexLd -> Instruction.cmp_func i = None).
  { intros E. destruct (Instruction.cmp_func i); [|done]. rewrite E in Hcmp. by discriminate Hcmp. }
  destruct tp, tb; try done.
  - destruct Htex as [Hm E]; [done|]. by rewrite E, (proj2 (Z.leb_le _ _) Hm).
  - destruct Htex as [Hm E]; [done|]. by rewrite E, (proj2 (Z.leb_le _ _) Hm).
  - destruct (decide (Instruction.opcode i = OpTexLd)) as [E|E].
    + rewrite (Hno E). cbn. by rewrite !andb_false_r.
    + by rewrite (bool_decide_false _ E), !andb_false_r.
Qed.

Lemma inst_cmp_back : instruction_cmp_func op tok = Instruction.cmp_func i.
Proof using Hwf.
  pose proof inst_control_range. pose proof inst_count_range. unfold instruction_cmp_func. rewrite opcode_control by done.
  destruct (wf_flags_ok _ _ Hwf) as (Htex & Hone & Hcmp). destruct (takes_cmp op) eqn:Ht.
  - unfold inst_control. destruct (TEX_PROJECTED f || TEX_BIASED f) eqn:Ef.
    + destruct (Htex eq_refl) as [_ E]. by rewrite E in Ht.
    + apply orb_false_iff in Ef as [-> ->]. rewrite cmp_raw_back. by destruct op.
  - destruct (Instruction.cmp_func i) as [c|]; [discriminate Hcmp; by eexists|by destruct op].
Qed.

Lemma inst_token_count rest fuel : (major < 2 -> run_ends rest) -> (length ops < fuel)%nat ->
  operand_token_count fuel major tok (λ n, (ops ++ rest) !! n) = Some (length ops).
Proof using Hwf.
  intros Hrun Hf. pose proof inst_control_range. pose proof inst_count_range.
  unfold operand_token_count. destruct (2 <=? major) eqn:Em.
  - rewrite opcode_count by done. unfold count_field. rewrite Em. by rewrite Nat2Z.id.
  - reflect_cmp. rewrite opcode_read by done.
    assert (E : scan_operands fuel (λ n, (ops ++ rest) !! n) 0 = Some (length ops))
  by (apply scan_operands_app; [by apply inst_operands_bit31|auto|done]).
    pose proof (wf_generic _ _ Hwf). by destruct op.
Qed.

Lemma parse_instruction_assembled rest : (major < 2 -> run_ends rest) ->
  parse_instruction major op tok (ops ++ rest) = Ok (i, rest).
Proof using Hwf.
  intros Hrun. unfold parse_instruction. rewrite (inst_token_count rest) by first [exact Hrun | rewrite length_app; lia].
  rewrite inst_flags_back, inst_cmp_back. cbn [or_out_of_fuel mbind result_bind].
  pose proof (wf_srcs_ok _ _ Hwf) as Hs. pose proof (wf_dst_ok _ _ Hwf) as Hd. pose proof (wf_predicate_ok _ _ Hwf) as Hp.
  destruct (wf_presence_ok _ _ Hwf) as [Hpd Hpp]. unfold inst_operands in *.
  set (srcs := concat (src_tokens (major <? 2) <$> Instruction.srcs i)) in *.
  set (pred := from_option (src_tokens false) [] (Instruction.predicate i)) in *.
(* the destination *)
  assert (Ed : forall n, n = length (option_list (dst_token <$> Instruction.dst i) ++ pred ++ srcs) ->
  optional_operand (Opcode.has_destination op && (1 <=? n)%nat) decode_dst n
  ((option_list (dst_token <$> Instruction.dst i) ++ pred ++ srcs) ++ rest)
  = Ok (Instruction.dst i, length (pred ++ srcs), (pred ++ srcs) ++ rest)).
  { intros n ->. destruct (Instruction.dst i) as [d|].
    - rewrite Hpd. change (option_list (dst_token <$> Some d)) with [dst_token d]. rewrite <- app_assoc.
  rewrite (optional_operand_some _ d [dst_token d]) by (first [by apply decode_dst_token | cbn; lia]).
  cbn [length app]. do 2 f_equal. f_equal. lia.
    - cbn [fmap option_fmap option_map option_list app]. destruct (Opcode.has_destination op); [|done].
  destruct Hpd as [Ep Es]; [done|]. subst pred srcs. rewrite Ep, Es. done. }
  rewrite (Ed _ eq_refl). clear Ed. cbn [mbind result_bind].
(* the predicate *)
  assert (Ep : optional_operand (PREDICATED f && (0 <? length (pred ++ srcs))%nat) (λ bc, decode_src bc false)
  (length (pred ++ srcs)) ((pred ++ srcs) ++ rest)
  = Ok (Instruction.predicate i, length srcs, srcs ++ rest)).
  { subst pred. destruct (Instruction.predicate i) as [p|]; cbn [from_option] in *.
    - rewrite Hpp, <- app_assoc, length_app. pose proof (src_tokens_length false p).
  rewrite (proj2 (Nat.ltb_lt _ _)) by lia. cbn [andb].
  rewrite (optional_operand_some _ p (src_tokens false p)) by (first [by apply decode_src_tokens | lia]).
  do 2 f_equal. f_equal. lia.
    - cbn [app]. destruct (PREDICATED f); [|done]. subst srcs. rewrite Hpp by done. done. }
  rewrite Ep. clear Ep. cbn [mbind result_bind].
  subst srcs. rewrite (parse_srcs_assembled (major <? 2) (Instruction.srcs i)) by done. cbn [mbind result_bind].
  by destruct i.
Qed.
End instruction.

(** ** An item parses back *)

Lemma simple_token_count major ops : (length ops <= 15)%nat -> 0 <= count_field major ops < 16.
Proof. unfold count_field. intros. split_ifs; lia. Qed.

Lemma register_token_back r mask : wf_register r -> 0 <= mask < 16 ->
  decode_register (register_token r mask) = Ok r /\ Z.land (Z.shiftr (register_token r mask) 16) 0xF = mask.
Proof. intros. split; [by apply operand_register|by apply operand_mask]. Qed.

(** The fields of a usage token. *)
Lemma usage_token_semantic u index r mask : 0 <= index < 16 ->
  let t := usage_token (Semantic u index r mask) in
  decode_decl_usage (Z.land t 0x1F) = Ok u /\ Z.land (Z.shiftr t 16) 0xF = index.
Proof.
  intros Hi t. assert (Hu : 0 <= DeclUsage_to_bits u < 14) by (destruct u; cbn; lia).
  assert (E1 : Z.land t 0x1F = DeclUsage_to_bits u).
  { rewrite <- (Z.shiftr_0_r t). apply (pack_field [] 5); [constructor|split; cbn [fst snd]; lia|done..]. }
  split; [rewrite E1; by destruct u|]. apply (pack_field [_; _] 4); [pack_fits|split; cbn [fst snd]; lia|done..].
Qed.

Lemma usage_token_sampler ty r :
  decode_texture_type (Z.land (Z.shiftr (usage_token (SamplerDecl ty r)) 27) 0xF) = ty.
Proof. by destruct ty. Qed.

Lemma usage_token_bit31 d : wf_declaration d -> flag (usage_token d) 0x80000000 = true.
Proof.
  intros Hd. destruct d as [u index r mask|[] r]; [|done..]. destruct Hd as (Hi & _).
  assert (Hu : 0 <= DeclUsage_to_bits u < 14) by (destruct u; cbn; lia).
  apply (pack_flag [_; _; _; _; _]); [pack_fits|done].
Qed.

Lemma parse_dcl_assembled d rest : wf_declaration d -> parse_dcl (dcl_operands d ++ rest) = Ok (d, rest).
Proof.
  intros Hd. unfold parse_dcl, dcl_operands. destruct d as [u index r mask|ty r]; cbn [app next_token mbind result_bind].
  - destruct Hd as (Hi & Hr & Hm & Hk). destruct (register_token_back r mask Hr Hm) as [-> ->].
    destruct (usage_token_semantic u index r mask Hi) as [Eu Ei]. cbn [mbind result_bind].
    rewrite decide_False by done. rewrite Eu, Ei. done.
  - destruct Hd as (Hr & Hk). destruct (register_token_back r 0xF Hr ltac:(lia)) as [-> _].
    cbn [mbind result_bind]. rewrite decide_True by done. by rewrite usage_token_sampler.
Qed.

Lemma read_words_app ws rest : read_words (length ws) (ws ++ rest) = Ok (ws, rest).
Proof. induction ws as [|w ws IH]; [done|]. cbn [length read_words app next_token mbind result_bind]. by rewrite IH. Qed.

Lemma cast_signed_unsigned v : is_i32 v -> cast_signed (cast_unsigned v) = v.
Proof. unfold is_i32, cast_signed, cast_unsigned. intros. split_ifs; lia. Qed.

Lemma parse_def_assembled d rest : wf_register (Def.reg d) -> length (Def.value d) = 4%nat ->
  parse_def (register_token (Def.reg d) 0xF :: Def.value d ++ rest) = Ok (d, rest).
Proof.
  intros Hr Hl. unfold parse_def. cbn [next_token mbind result_bind].
  destruct (register_token_back _ 0xF Hr ltac:(lia)) as [-> _]. cbn [mbind result_bind].
  rewrite <- Hl, read_words_app. by destruct d.
Qed.

Lemma parse_defi_assembled d rest : wf_register (Def.reg d) -> length (Def.value d) = 4%nat -> Forall is_i32 (Def.value d) ->
  parse_defi (register_token (Def.reg d) 0xF :: map cast_unsigned (Def.value d) ++ rest) = Ok (d, rest).
Proof.
  intros Hr Hl Hv. unfold parse_defi. cbn [next_token mbind result_bind].
  destruct (register_token_back _ 0xF Hr ltac:(lia)) as [-> _]. cbn [mbind result_bind].
  rewrite <- Hl, <- (length_map cast_unsigned), read_words_app. cbn [mbind result_bind].
  destruct d as [r v]. cbn [Def.reg Def.value] in *. do 2 f_equal. f_equal. rewrite map_map.
  rewrite <- (map_id v) at 2. apply map_ext_in. intros x Hx. apply cast_signed_unsigned.
  rewrite Forall_forall in Hv. apply Hv. by apply list_elem_of_In.
Qed.

(** The first token of an item: its opcode, and that it ends an operand run. *)
Definition item_opcode (it : item) : Opcode :=
  match it with
  | TComment _ => OpComment | TDcl _ => OpDcl | TDef _ => OpDef | TDefI _ => OpDefI | TDefB _ => OpDefB | TPhase => OpPhase
  | TLabel _ => OpLabel | TRet => OpRet | TInst i => Instruction.opcode i
  end.

Lemma item_head major it : wf_item major it ->
  let tok := fst (assemble_item major it) in
  Opcode.from_u16 (Z.land tok 0xFFFF) = Some (item_opcode it) /\ flag tok 0x80000000 = false.
Proof.
  assert (Hsimple : forall op ops, (length ops <= 15)%nat ->
    Opcode.from_u16 (Z.land (simple_token major op ops) 0xFFFF) = Some op /\ flag (simple_token major op ops) 0x80000000 = false).
  { intros op ops Hl. pose proof (simple_token_count major ops Hl). split; [apply opcode_read|apply opcode_bit31]; lia. }
  intros Hwf. destruct it; cbn [assemble_item fst item_opcode wf_item] in *.
  - destruct Hwf as [Hl _]. assert (Hf : Forall fits [(16, 0xFFFE); (15, Z.of_nat (length payload))]) by pack_fits.
    split; [|by apply (pack_flag [_; _])]. 
    assert (E : Z.land (comment_token payload) 0xFFFF = 0xFFFE); [|by rewrite E].
    rewrite <- (Z.shiftr_0_r (comment_token payload)). apply (pack_field [] 16); [constructor|by apply Forall_inv in Hf|done..].
  - apply Hsimple. cbn. lia.
  - apply Hsimple. cbn. lia.
  - apply Hsimple. cbn. rewrite length_map. lia.
  - apply Hsimple. cbn. lia.
  - apply Hsimple. cbn. lia.
  - split; [apply opcode_read|apply opcode_bit31]; lia.
  - apply Hsimple. cbn. lia.
  - pose proof (inst_control_range inst). pose proof (inst_count_range major inst Hwf).
    split; [by apply opcode_read|by apply opcode_bit31].
Qed.

Lemma comment_length payload : Z.of_nat (length payload) < 32768 ->
  Z.land (Z.shiftr (comment_token payload) 16) 0x7FFF = Z.of_nat (length payload).
Proof. intros. apply (pack_field [_] 15); [pack_fits|split; cbn [fst snd]; lia|done..]. Qed.

Lemma parse_token_assembled major it rest a :
  wf_item major it -> (major < 2 -> run_ends rest) -> label_entered a ->
  let '(tok, ops) := assemble_item major it in
  parse_token major (item_opcode it) tok (ops ++ rest) a = Ok (Some (run_item it a, rest)).
Proof.
  intros Hwf Hrun Ha. destruct it; cbn [assemble_item item_opcode wf_item run_item] in *.
  - destruct Hwf as [Hl _]. unfold parse_token.
    rewrite comment_length, Nat2Z.id, length_app by done. rewrite (proj2 (Nat.ltb_ge _ _)) by lia. by rewrite drop_app_length.
  - unfold parse_token. by rewrite parse_dcl_assembled.
  - destruct Hwf as (Hr & Hl & _). unfold parse_token. rewrite <- app_comm_cons. by rewrite parse_def_assembled.
  - destruct Hwf as (Hr & Hl & Hv). unfold parse_token. rewrite <- app_comm_cons. by rewrite parse_defi_assembled.
  - unfold parse_token, parse_defb. cbn [app next_token mbind result_bind].
    destruct (register_token_back (Def.reg d) 0xF Hwf ltac:(lia)) as [-> _]. by destruct d as [r []].
  - done.
  - unfold parse_token. rewrite opcode_count by lia. unfold decode_src. cbn [app next_token mbind result_bind negb Z.eqb Pos.eqb].
    unfold register_token. rewrite operand_reg_type, operand_rel, operand_index by (done || lia). done.
  - done.
  - unfold parse_token. pose proof (wf_generic _ _ Hwf) as Hg.
    pose proof (parse_instruction_assembled major inst Hwf rest Hrun) as E.
    destruct (Instruction.opcode inst); try discriminate Hg; rewrite E; cbn [mbind result_bind]; by rewrite push_run.
Qed.

(** ** A text parses to the program it denotes *)

Lemma item_tokens_cons major it : item_tokens major it = fst (assemble_item major it) :: snd (assemble_item major it).
Proof. unfold item_tokens. by destruct (assemble_item major it). Qed.

(** What follows an item ends its operand run: the next item's head, or END. *)
Lemma items_run_ends major items : Forall (wf_item major) items ->
  run_ends (concat (item_tokens major <$> items) ++ [END_TOKEN]).
Proof.
  intros [|it its Hit _]; [done|]. cbn [fmap list_fmap concat]. rewrite item_tokens_cons. cbn.
  apply (item_head major it Hit).
Qed.

Lemma parse_loop_assembled major items fuel a :
  Forall (wf_item major) items -> label_entered a -> (length items < fuel)%nat ->
  parse_loop fuel major (concat (item_tokens major <$> items) ++ [END_TOKEN]) a = Ok (run_items items a).
Proof.
  intros Hwf. revert fuel a. induction Hwf as [|it items Hit Hwf IH]; intros fuel a Ha Hf.
  - by destruct fuel; [cbn in Hf; lia|].
  - destruct fuel as [|fuel]; [cbn in Hf; lia|]. cbn [fmap list_fmap concat]. rewrite <- app_assoc, item_tokens_cons, <- app_comm_cons.
    cbn [parse_loop next_token mbind result_bind]. destruct (item_head major it Hit) as [-> _]. cbn [ok_or mbind result_bind].
    pose proof (parse_token_assembled major it (concat (item_tokens major <$> items) ++ [END_TOKEN]) a Hit) as E.
    destruct (assemble_item major it) as [tok ops]. cbn [fst snd]. rewrite E by (first [intros _; by apply items_run_ends | done]).
    cbn [mbind result_bind]. apply IH; [by apply run_item_entered|cbn in Hf; lia].
Qed.

Definition wf_version (ty : ShaderType) (major minor : Z) : Prop :=
  0 <= major < 256 /\ 0 <= minor < 256 /\ known_model ty major minor = true.

Lemma version_token_back ty major minor : 0 <= major < 256 -> 0 <= minor < 256 ->
  let t := version_token ty major minor in
  Z.land (Z.shiftr t 16) 0xFFFF = match ty with Vertex => 0xFFFE | Pixel => 0xFFFF end
  /\ Z.land (Z.shiftr t 8) 0xFF = major /\ Z.land t 0xFF = minor.
Proof.
  intros Hj Hn t. set (v := match ty with Vertex => 0xFFFE | Pixel => 0xFFFF end).
  assert (Hv : 0 <= v < 65536) by (unfold v; destruct ty; lia). repeat split.
  - apply (pack_field [_; _] 16); [pack_fits|split; cbn [fst snd]; lia|done..].
  - apply (pack_field [_] 8); [pack_fits|split; cbn [fst snd]; lia|done..].
  - rewrite <- (Z.shiftr_0_r t). apply (pack_field [] 8); [constructor|split; cbn [fst snd]; lia|done..].
Qed.

Lemma items_length major items : (length items <= length (concat (item_tokens major <$> items)))%nat.
Proof. induction items as [|it items IH]; cbn; [lia|]. rewrite item_tokens_cons, length_app. cbn. lia. Qed.

Lemma parse_of_text ty major minor items : wf_version ty major minor -> Forall (wf_item major) items ->
  parse (assemble ty major minor items) = Ok (program_of (assemble ty major minor items) ty major minor items).
Proof.
  intros (Hj & Hn & Hk) Hwf. destruct (version_token_back ty major minor Hj Hn) as (E1 & E2 & E3).
  unfold parse. rewrite <- run_items_denotes. set (bc := assemble ty major minor items).
  assert (Ebc : next_token bc = Ok (version_token ty major minor, concat (item_tokens major <$> items) ++ [END_TOKEN])) by done.
  rewrite Ebc. cbn [mbind result_bind]. rewrite E1, E2, E3.
  destruct ty; cbn [mbind result_bind mret result_ret]; rewrite Hk; cbn [negb];
    rewrite parse_loop_assembled by (first [done | unfold bc, assemble; cbn [length]; rewrite length_app;
      pose proof (items_length major items); cbn [length]; lia]); done.
Qed.

(** ** Whatever parses is a text *)

(** The outcome is a value satisfying [P] or an error: no panic, and the model's
    fuel is enough. *)
Definition answers {A} (P : A -> Prop) (o : outcome A) : Prop :=
  match o with Ok a => P a | Err _ => True | Panic | OutOfFuel => False end.

Lemma answers_bind {A B} (P : A -> Prop) (Q : B -> Prop) (m : outcome A) (f : A -> outcome B) :
  answers P m -> (forall a, P a -> answers Q (f a)) -> answers Q (m ≫= f).
Proof. destruct m; cbn; auto. Qed.

Lemma answers_ok_or {A} (P : A -> Prop) e (o : option A) : (forall a, o = Some a -> P a) -> answers P (ok_or e o).
Proof. destruct o; cbn; auto. Qed.

(** Step to the continuation of a bind, naming what the head answers. *)
Tactic Notation "answer" uconstr(lem) "as" simple_intropattern_list(p) := eapply answers_bind; [eapply lem | intros p].

Lemma next_token_answers rest : answers (λ '(t, r), rest = t :: r) (next_token rest).
Proof. by destruct rest. Qed.

Lemma reg_type_answers tok : answers (λ _, True) (decode_reg_type tok).
Proof. by apply answers_ok_or. Qed.

Lemma index_range tok : 0 <= Z.land tok 0x7FF < 2048.
Proof. apply (land_ones_range tok 11). lia. Qed.

Lemma nibble_range tok : 0 <= Z.land tok 0xF < 16.
Proof. apply (land_ones_range tok 4). lia. Qed.

Lemma swizzle_range b : wf_swizzle (decode_swizzle_bits b).
Proof. repeat split; apply (land_ones_range _ 2); lia. Qed.

Lemma register_answers tok : answers wf_register (decode_register tok).
Proof. answer reg_type_answers as k _. cbn. apply index_range. Qed.

Lemma decode_dst_answers bc : answers (λ '(d, n), wf_dst d /\ n = 1%nat /\ (1 <= length bc)%nat) (decode_dst bc).
Proof.
  answer next_token_answers as [tok r] ->. destruct (flag _ _); [done|]. answer reg_type_answers as k _. cbn.
  split; [|lia]. split; [apply index_range|]. split; [apply nibble_range|]. cbn [DstOperand.shift_scale].
  pose proof (nibble_range (Z.shiftr tok 24)) as Hn. set (sh := Z.land _ 0xF) in *. clearbody sh.
  assert (Hc : sh = 0 \/ sh = 1 \/ sh = 2 \/ sh = 3 \/ sh = 4 \/ sh = 5 \/ sh = 6 \/ sh = 7 \/ sh = 8 \/ sh = 9 \/ sh = 10
    \/ sh = 11 \/ sh = 12 \/ sh = 13 \/ sh = 14 \/ sh = 15) by lia.
  repeat destruct Hc as [->|Hc]; subst; vm_compute; intuition congruence.
Qed.

Lemma decode_src_answers bc sm1 :
  answers (λ '(s, n), wf_src sm1 s /\ n = length (src_tokens sm1 s) /\ (n <= length bc)%nat) (decode_src bc sm1).
Proof.
  answer next_token_answers as [tok r] ->. answer reg_type_answers as k _.
  set (P := λ '(rel, n), match rel with Some rl => wf_rel sm1 rl | None => True end
    /\ n = length (src_tokens sm1 (SrcOperand.mk (Register.mk k (Z.land tok 0x7FF)) (mkSwizzle 0 0 0 0) ModNone rel))
    /\ (n <= S (length r))%nat).
  eapply (answers_bind P); [|intros [rel n] (Hrel & -> & Hn); cbn].
  - destruct (flag tok _); [|cbn; lia]. destruct sm1; [cbn; split; [done|lia]|].
    answer next_token_answers as [rt r'] ->. answer register_answers as rr Hrr. cbn. split; [|lia]. split; [done|apply swizzle_range].
  - split; [|by split]. split; [apply index_range|]. split; [apply swizzle_range|done].
Qed.

Lemma parse_srcs_answers fuel sm1 remaining rest : (remaining <= fuel)%nat ->
  answers (λ '(srcs, rest'), Forall (wf_src sm1) srcs /\ remaining = length (concat (src_tokens sm1 <$> srcs)) /\ rest' `suffix_of` rest)
          (parse_srcs fuel sm1 remaining rest).
Proof.
  revert remaining rest. induction fuel as [|fuel IH]; intros [|remaining] rest Hf; [by cbn|lia|by cbn|]. cbn [parse_srcs].
  answer decode_src_answers as [s n] (Hs & -> & Hn). unfold checked_sub. destruct (Nat.leb_spec (length (src_tokens sm1 s)) (S remaining)); [|done].
  pose proof (src_tokens_length sm1 s). cbn [mbind result_bind]. answer IH as [srcs rest'] (Hss & Hr & Hsuf); [lia|]. cbn [answers mret result_ret].
  split; [by constructor|]. split; [cbn [fmap list_fmap concat]; rewrite length_app; lia|].
  etrans; [exact Hsuf|]. apply suffix_drop.
Qed.

Lemma optional_operand_answers {O} (P : O * nat -> Prop) (has : bool) decode n rest :
  answers P (decode rest) ->
  answers (λ '(o, n', rest'), rest' `suffix_of` rest
             /\ match o with Some o => has = true /\ exists c, P (o, c) /\ n = (n' + c)%nat | None => has = false /\ n' = n end)
          (optional_operand (O := O) has decode n rest).
Proof.
  intros Hd. unfold optional_operand. destruct has; [|by cbn]. answer Hd as [o c] Ho. unfold checked_sub.
  destruct (Nat.leb_spec c n); [|done]. cbn. split; [apply suffix_drop|]. split; [done|]. exists c. split; [done|lia].
Qed.

Lemma instruction_flags_wf major op tok dst srcs pred :
  wf_flags major (Instruction.mk op dst srcs (instruction_flags major op tok) pred (instruction_cmp_func op tok)).
Proof.
  unfold wf_flags, instruction_flags. cbn [Instruction.flags Instruction.opcode Instruction.cmp_func TEX_PROJECTED TEX_BIASED].
  split; [|split].
  - intros H. rewrite <- andb_orb_distrib_r in H. apply andb_true_iff in H as [H _]. apply andb_true_iff in H as [H1 H2].
    apply Z.leb_le in H1. by apply bool_decide_eq_true in H2.
  - destruct (_ && bool_decide _); [|done]. cbn [andb].
    destruct (Z.eqb_spec (Z.land tok 0x30000) 0x10000) as [->|]; [done|]. done.
  - intros [c Hc]. by destruct op.
Qed.

Lemma parse_instruction_answers major op tok rest : 0 <= major -> is_generic op = true ->
  answers (λ '(i, rest'), wf_inst major i /\ Instruction.opcode i = op /\ rest' `suffix_of` rest) (parse_instruction major op tok rest).
Proof.
  intros Hm Hg. unfold parse_instruction.
  assert (Hc : answers (λ n, 2 <= major -> (n <= 15)%nat) (or_out_of_fuel (operand_token_count (S (length rest)) major tok (λ n, rest !! n)))).
  { unfold operand_token_count. destruct (2 <=? major) eqn:E; reflect_cmp.
    - cbn. pose proof (nibble_range (Z.shiftr tok 24)). lia.
    - destruct (scan_operands_fuel rest) as (n & Hn & _). rewrite Hn. destruct (Opcode.from_u16 _) as [[]|]; cbn; lia. }
  answer Hc as count Hcount. clear Hc.
  answer optional_operand_answers as [[dst n1] r1] (Hr1 & Hd); [apply decode_dst_answers|].
  answer optional_operand_answers as [[pred n2] r2] (Hr2 & Hp); [apply decode_src_answers|].
  answer parse_srcs_answers as [srcs r3] (Hs & Hn & Hr3); [lia|]. cbn [answers mret result_ret].
  split; [|split; [done|by do 2 (etrans; [eassumption|])]].
  assert (Hlen : count = length (inst_operands major (Instruction.mk op dst srcs (instruction_flags major op tok) pred
    (instruction_cmp_func op tok)))).
  { unfold inst_operands. cbn [Instruction.dst Instruction.predicate Instruction.srcs]. rewrite !length_app, <- Hn.
    destruct dst as [d|]; [destruct Hd as (_ & c & (_ & -> & _) & ->)|destruct Hd as [_ ->]];
      (destruct pred as [p|]; [destruct Hp as (_ & c' & (_ & -> & _) & ->)|destruct Hp as [_ ->]]);
      unfold option_list; cbn [option_rect from_option fmap option_fmap option_map option_list length from_option]; cbn; lia. }
  split; cbn [Instruction.opcode Instruction.dst Instruction.predicate Instruction.srcs]; try done.
  - destruct dst; [|done]. by destruct Hd as (_ & c & (? & _) & _).
  - destruct pred; [|done]. by destruct Hp as (_ & c & (? & _) & _).
  - apply instruction_flags_wf.
  - unfold wf_presence. cbn [Instruction.opcode Instruction.dst Instruction.predicate Instruction.srcs Instruction.flags].
    assert (Hnil : n2 = 0%nat -> srcs = []).
    { intros ->. destruct srcs as [|s srcs]; [done|]. cbn [fmap list_fmap concat] in Hn. rewrite length_app in Hn.
      pose proof (src_tokens_length (major <? 2) s). lia. }
    split.
    + destruct dst as [d|]; [by destruct Hd as [[H _]%andb_true_iff _]|]. intros Hdst. rewrite Hdst in Hd. cbn [andb] in Hd.
      destruct Hd as [Hd ->]. destruct count; [|done]. destruct pred as [p|]; [|by destruct Hp as [_ ->]; auto].
      destruct Hp as ([_ Hp]%andb_true_iff & _). done.
    + destruct pred as [p|]; [by destruct Hp as [[H _]%andb_true_iff _]|]. intros Hpr. destruct Hp as [Hp ->]. apply Hnil.
      rewrite Hpr in Hp. cbn [andb] in Hp. destruct n1; [done|done].
  - intros H2. rewrite <- Hlen. auto.
Qed.

Lemma suffix_forall {A} (P : A -> Prop) l k : k `suffix_of` l -> Forall P l -> Forall P k.
Proof. intros [h ->] H. by apply Forall_app in H as [_ H]. Qed.

Lemma read_words_answers n rest : answers (λ '(ws, r), rest = ws ++ r /\ length ws = n) (read_words n rest).
Proof.
  revert rest. induction n as [|n IH]; intros rest; [by cbn|]. cbn [read_words]. answer next_token_answers as [t r] ->.
  answer IH as [ws r'] [-> <-]. done.
Qed.

Lemma cast_signed_range v : is_u32 v -> is_i32 (cast_signed v).
Proof. unfold is_i32, cast_signed, is_u32, u32_max. intros. split_ifs; lia. Qed.

Lemma parse_dcl_answers rest :
  answers (λ '(d, rest'), wf_declaration d /\ rest' `suffix_of` rest) (parse_dcl rest).
Proof.
  unfold parse_dcl. answer next_token_answers as [u r] ->. answer next_token_answers as [t r'] ->.
  answer register_answers as reg Hr. assert (Hsuf : r' `suffix_of` u :: t :: r') by by exists [u; t].
  destruct (decide _) as [Hk|Hk]; [done|]. eapply (answers_bind (λ _, True)); [by apply answers_ok_or|intros us _].
  cbn. split; [|done]. split; [apply nibble_range|]. split; [done|]. split; [apply nibble_range|done].
Qed.

(** The two four-word definitions read the same tokens. *)
Lemma def_words_answers rest : Forall is_u32 rest ->
  answers (λ '(d, rest'), wf_register (Def.reg d) /\ length (Def.value d) = 4%nat /\ Forall is_u32 (Def.value d)
             /\ rest' `suffix_of` rest) (parse_def rest).
Proof.
  intros Hu. unfold parse_def. answer next_token_answers as [t r] ->. answer register_answers as reg Hr.
  answer read_words_answers as [ws r'] [-> Hl]. cbn. apply Forall_cons in Hu as [_ Hu]. apply Forall_app in Hu as [Hu _].
  split; [done|]. split; [done|]. split; [done|]. by exists (t :: ws).
Qed.

Lemma parse_defi_def rest :
  parse_defi rest = ('(d, rest') ← parse_def rest; mret (Def.mk (Def.reg d) (map cast_signed (Def.value d)), rest')).
Proof.
  unfold parse_defi, parse_def. destruct (next_token rest) as [[t r]| | |]; try done. cbn [mbind result_bind].
  destruct (decode_register t) as [reg| | |]; try done. cbn [mbind result_bind]. by destruct (read_words 4 r) as [[ws r']| | |].
Qed.

Lemma parse_defb_answers rest : answers (λ '(d, rest'), wf_register (Def.reg d) /\ rest' `suffix_of` rest) (parse_defb rest).
Proof.
  unfold parse_defb. answer next_token_answers as [t r] ->. answer register_answers as reg Hr.
  answer next_token_answers as [b r'] ->. cbn. split; [done|]. by exists [t; b].
Qed.

(** One turn of the loop reads one well-formed item. *)
Lemma parse_token_answers major op tok rest a : 0 <= major -> Forall is_u32 rest -> label_entered a ->
  answers (λ next, match next with
                   | None => op = OpEnd
                   | Some (a', rest') => exists it, wf_item major it /\ a' = run_item it a /\ rest' `suffix_of` rest
                   end) (parse_token major op tok rest a).
Proof.
  intros Hm Hu Ha.
  assert (Hgen : is_generic op = true -> answers (λ next, match next with None => op = OpEnd
    | Some (a', rest') => exists it, wf_item major it /\ a' = run_item it a /\ rest' `suffix_of` rest end)
    ('(inst, rest) ← parse_instruction major op tok rest; a ← expect (Acc.push inst a); mret (Some (a, rest)))).
  { intros Hg. answer parse_instruction_answers as [i r] (Hi & _ & Hr); [done|done|]. rewrite push_run by done. by exists (TInst i). }
  unfold parse_token. destruct op; try (by apply Hgen); clear Hgen.
  - by exists TRet.
  - unfold answers. destruct (Z.eqb_spec (Z.land (tok ≫ 24) 0xF) 1); [|done]. cbn [negb].
    eapply (answers_bind (λ '(s, n), wf_register (SrcOperand.reg s))).
    { pose proof (decode_src_answers rest false) as H. destruct (decode_src rest false) as [[s n]| | |]; [by destruct H as [[? _] _]|done..]. }
    intros [s n] Hs. exists (TLabel (SrcOperand.reg s)). split; [done|]. split; [done|apply suffix_drop].
  - answer parse_dcl_answers as [d r] [Hd Hr]. by exists (TDcl d).
  - answer parse_defb_answers as [d r] [Hd Hr]. by exists (TDefB d).
  - rewrite parse_defi_def. eapply answers_bind with (P := λ '(d, r), wf_item major (TDefI d) /\ r `suffix_of` rest).
    + answer def_words_answers as [d r] (Hd & Hl & Hv & Hr); [done|]. cbn. rewrite length_map. split; [|done]. split; [done|].
      split; [done|]. apply Forall_map. eapply Forall_impl; [exact Hv|apply cast_signed_range].
    + intros [d r] [Hd Hr]. by exists (TDefI d).
  - answer def_words_answers as [d r] (Hd & Hl & Hv & Hr); [done|]. by exists (TDef d).
  - by exists TPhase.
  - done.
  - pose proof (land_ones_range (tok ≫ 16) 15 ltac:(lia)) as Hlen. change (Z.ones 15) with 0x7FFF in Hlen.
    destruct (Nat.ltb_spec (length rest) (Z.to_nat (Z.land (tok ≫ 16) 0x7FFF))); [done|].
    exists (TComment (take (Z.to_nat (Z.land (tok ≫ 16) 0x7FFF)) rest)). split; [|split; [done|apply suffix_drop]].
    cbn [wf_item]. rewrite length_take. split; [lia|]. by apply Forall_take.
Qed.

Lemma parse_loop_answers fuel major rest a : 0 <= major -> Forall is_u32 rest -> label_entered a -> (length rest < fuel)%nat ->
  answers (λ a', exists items, Forall (wf_item major) items /\ (length items <= length rest)%nat /\ a' = run_items items a)
          (parse_loop fuel major rest a).
Proof.
  revert rest a. induction fuel as [|fuel IH]; intros rest a Hm Hu Ha Hf; [lia|]. cbn [parse_loop].
  answer next_token_answers as [tok r] ->. apply Forall_cons in Hu as [_ Hu].
  eapply (answers_bind (λ _, True)); [by apply answers_ok_or|intros op _].
  answer parse_token_answers as [[a' r']|] Hnext; [done..| |exists []; split; [constructor|split; [cbn; lia|done]]].
  destruct Hnext as (it & Hit & -> & Hsuf).
  pose proof (IH r' (run_item it a) Hm (suffix_forall _ _ _ Hsuf Hu) (run_item_entered _ _ Ha)) as H.
  assert (Hl : (length r' < fuel)%nat) by (apply suffix_length in Hsuf; cbn in Hf; lia). specialize (H Hl).
  destruct (parse_loop fuel major r' _) as [a2| | |]; [|done..]. destruct H as (items & Hits & Hle & ->).
  exists (it :: items). split; [by constructor|]. split; [|done]. apply suffix_length in Hsuf. cbn. lia.
Qed.

(** Parsing answers a typed program or an error, and nothing else. *)
Lemma parse_answers bc : Forall is_u32 bc ->
  answers (λ p, exists ty major minor items,
             wf_version ty major minor /\ Forall (wf_item major) items /\ (length items <= length bc)%nat
             /\ p = program_of bc ty major minor items) (parse bc).
Proof.
  intros Hu. unfold parse. pose proof (next_token_answers bc) as H. destruct bc as [|first rest]; [done|].
  cbn [next_token mbind result_bind] in *. clear H.
  apply (answers_bind (λ _ : ShaderType, True)); [by repeat case_match|]. intros ty _.
  pose proof (land_ones_range (Z.shiftr first 8) 8 ltac:(lia)) as Hj. pose proof (land_ones_range first 8 ltac:(lia)) as Hn.
  change (Z.ones 8) with 0xFF in Hj, Hn. set (major := Z.land (first ≫ 8) 0xFF) in *. set (minor := Z.land first 0xFF) in *.
  destruct (known_model ty major minor) eqn:Hk; [|done]. cbn [negb]. apply Forall_cons in Hu as [_ Hu].
  answer parse_loop_answers as a (items & Hits & Hle & ->); [lia|done|done|cbn; lia|]. cbn [answers mret result_ret].
  exists ty, major, minor, items. split; [done|]. split; [done|]. split; [cbn in *; lia|]. by rewrite <- run_items_denotes.
Qed.
