(* ===== verification/ShaderReader.v ===== *)
(** [read_shader_bytecode] of [d3d9/src/device.rs]: the walk that finds the end of
    a token stream the application passes as a bare pointer.  The memory behind
    the pointer is a function from token index to token; the walk may not use
    what lies past the stream. *)

From S2P Require Import Prelude BitFields DxsoIr DxsoParser DxsoText DxsoRoundTrip.

Definition MAX_TOKENS : nat := Z.to_nat 65536.

(** [peek(n)], bounded by [MAX_TOKENS]. *)
Definition peek_at (mem : nat -> Z) (len n : nat) : option Z :=
  if (MAX_TOKENS <=? len + n)%nat then None else Some (mem (len + n)%nat).

(** The loop; the outer [None] is the model's fuel, the inner one the refusal. *)
Fixpoint read_loop (fuel : nat) (major : Z) (mem : nat -> Z) (len : nat) : option (option nat) :=
  match fuel with
  | O => None
  | S fuel =>
      if (MAX_TOKENS <=? len)%nat then Some None
      else
        let tok := mem len in
        let len := S len in
        let opcode := Z.land tok 0xFFFF in
        if opcode =? 0xFFFF then Some (Some len)
        else if opcode =? 0xFFFE then
          let payload := Z.to_nat (Z.land (Z.shiftr tok 16) 0x7FFF) in
          read_loop fuel major mem (len + payload)%nat
        else
          n ← operand_token_count (S MAX_TOKENS) major tok (peek_at mem len);
          read_loop fuel major mem (len + n)%nat
  end.

(** [slice_from_caller(ptr, len)]. *)
Definition slice_from (mem : nat -> Z) (len : nat) : list Z := map mem (seq 0 len).

Definition read_shader_bytecode (mem : nat -> Z) : option (option (list Z)) :=
  let version := mem 0%nat in
  let kind := Z.land (Z.shiftr version 16) 0xFFFF in
  if negb ((kind =? 0xFFFE) || (kind =? 0xFFFF)) then Some None
  else
    let major := Z.land (Z.shiftr version 8) 0xFF in
    option_map (option_map (slice_from mem)) (read_loop (S MAX_TOKENS) major mem 1).

(** An SM1 stream whose immediates look like END: [def c0, <0xFFFF>, ...]. *)
Example immediate_is_not_end :
  read_shader_bytecode (λ i, nth i [0xFFFE0101; 0x51; 0xA00F0000; 0xFFFF; 0xFFFF; 0; 0; 0xFFFF] 7)
  = Some (Some [0xFFFE0101; 0x51; 0xA00F0000; 0xFFFF; 0xFFFF; 0; 0; 0xFFFF]).
Proof. vm_compute. done. Qed.

(** ** The walk ends *)

Lemma scan_operands_bounded fuel peek n k :
  peek (n + k)%nat = None -> (k < fuel)%nat -> exists m, scan_operands fuel peek n = Some m.
Proof.
  revert n k. induction fuel as [|fuel IH]; intros n k Hk Hf; [lia|]. cbn [scan_operands].
  destruct (from_option _ false (peek n)) eqn:E; [|by eexists].
  destruct k as [|k]; [rewrite Nat.add_0_r in Hk; by rewrite Hk in E|]. apply (IH (S n) k); [|lia].
  by replace (S n + k)%nat with (n + S k)%nat by lia.
Qed.

Lemma token_count_total major tok mem len :
  (len <= MAX_TOKENS)%nat -> exists n, operand_token_count (S MAX_TOKENS) major tok (peek_at mem len) = Some n.
Proof.
  intros Hl. unfold operand_token_count. destruct (2 <=? major); [by eexists|].
  destruct (scan_operands_bounded (S MAX_TOKENS) (peek_at mem len) 0 (MAX_TOKENS - len)) as [m Hm]; [|lia|].
  - unfold peek_at. by rewrite (proj2 (Nat.leb_le _ _)) by lia.
  - rewrite Hm. by destruct (Opcode.from_u16 _) as [[]|]; eexists.
Qed.

(** A walk ends within the bound, refused or behind an END token. *)
Lemma read_loop_ends fuel major mem len : (0 < len)%nat -> (MAX_TOKENS - len < fuel)%nat ->
  exists r, read_loop fuel major mem len = Some r
  /\ forall n, r = Some n -> (0 < n <= MAX_TOKENS)%nat /\ Z.land (mem (pred n)) 0xFFFF = 0xFFFF.
Proof.
  revert len. induction fuel as [|fuel IH]; intros len Hl Hf; [lia|]. cbn [read_loop].
  destruct (Nat.leb_spec MAX_TOKENS len); [by eexists|].
  destruct (Z.eqb_spec (Z.land (mem len) 0xFFFF) 0xFFFF) as [E|E].
  { exists (Some (S len)). split; [done|]. intros n [= <-]. split; [lia|done]. }
  destruct (Z.land (mem len) 0xFFFF =? 0xFFFE); [apply IH; lia|].
  destruct (token_count_total major (mem len) mem (S len)) as [n ->]; [lia|]. cbn [mbind option_bind]. apply IH; lia.
Qed.

(** ** The walk follows a text *)

(** The memory at [len] holds [toks]. *)
Definition holds (mem : nat -> Z) (len : nat) (toks : list Z) : Prop := forall i t, toks !! i = Some t -> mem (len + i)%nat = t.

Lemma holds_app mem len l k : holds mem len (l ++ k) <-> holds mem len l /\ holds mem (len + length l)%nat k.
Proof.
  split.
  - intros H. split; intros i t Ht; [apply H; by apply lookup_app_l_Some|].
    rewrite <- Nat.add_assoc. apply H. rewrite lookup_app_r by lia. rewrite <- Ht. f_equal. lia.
  - intros [Hl Hk] i t Ht. apply lookup_app_Some in Ht as [Ht|[Hi Ht]]; [by apply Hl|].
    rewrite <- (Hk _ _ Ht). f_equal. lia.
Qed.

Lemma holds_cons mem len t l : holds mem len (t :: l) <-> mem len = t /\ holds mem (S len) l.
Proof.
  change (t :: l) with ([t] ++ l). rewrite holds_app. replace (len + length [t])%nat with (S len) by (cbn; lia).
  split; intros [H ?]; (split; [|done]).
  - rewrite <- (Nat.add_0_r len). by apply H.
  - intros [|i] x Hx; [injection Hx as <-; by rewrite Nat.add_0_r|done].
Qed.

Lemma slice_holds mem toks : holds mem 0 toks -> slice_from mem (length toks) = toks.
Proof.
  intros H. apply list_eq. intros i. unfold slice_from. change (map mem (seq 0 (length toks))) with (mem <$> seq 0 (length toks)). rewrite list_lookup_fmap.
  destruct (decide (i < length toks)%nat) as [Hi|Hi].
  - rewrite lookup_seq_lt by done. destruct (lookup_lt_is_Some_2 _ _ Hi) as [t Ht]. rewrite Ht. cbn. f_equal. by apply (H i).
  - rewrite lookup_seq_ge by lia. symmetry. apply lookup_ge_None. lia.
Qed.

(** The operand run the walk counts for an item is the item's. *)
Lemma item_count_field major it : wf_item major it -> 2 <= major -> (forall p, it <> TComment p) ->
  Z.land (Z.shiftr (assemble_item major it).1 24) 0xF = Z.of_nat (length (assemble_item major it).2).
Proof.
  intros Hwf Hm Hnc. assert (Hsimple : forall op ops, (length ops <= 15)%nat ->
    Z.land (Z.shiftr (simple_token major op ops) 24) 0xF = Z.of_nat (length ops)).
  { intros op ops Hl. pose proof (simple_token_count major ops Hl). unfold simple_token. rewrite opcode_count by lia.
    unfold count_field. by rewrite (proj2 (Z.leb_le _ _) Hm). }
  destruct it; cbn [assemble_item fst snd wf_item] in *; [..|apply Hsimple; cbn; lia| ].
  - by destruct (Hnc payload).
  - apply Hsimple. cbn. lia.
  - apply Hsimple. cbn. lia.
  - apply Hsimple. cbn. rewrite length_map. lia.
  - apply Hsimple. cbn. lia.
  - apply Hsimple. cbn. lia.
  - rewrite opcode_count by lia. done.
  - pose proof (inst_control_range inst). pose proof (inst_count_range major inst Hwf). rewrite opcode_count by done.
    unfold count_field. by rewrite (proj2 (Z.leb_le _ _) Hm).
Qed.

Lemma item_operands_bit31 major it : wf_item major it ->
  match it with TComment _ | TDef _ | TDefI _ | TDefB _ => True
  | _ => Forall (λ t, flag t 0x80000000 = true) (assemble_item major it).2 end.
Proof.
  intros Hwf. destruct it; try done; cbn [assemble_item snd wf_item] in *.
  - unfold dcl_operands. constructor; [by apply usage_token_bit31|]. constructor; [|done].
    destruct d; [destruct Hwf as (_ & Hr & Hm & _)|destruct Hwf as [Hr _]]; by apply operand_bit31.
  - constructor; [by apply operand_bit31|done].
  - by apply inst_operands_bit31.
Qed.

Lemma item_token_count major it mem len next :
  wf_item major it -> (forall p, it <> TComment p) -> run_ends next -> next <> [] ->
  holds mem len ((assemble_item major it).2 ++ next) -> (len + length ((assemble_item major it).2 ++ next) <= MAX_TOKENS)%nat ->
  operand_token_count (S MAX_TOKENS) major (assemble_item major it).1 (peek_at mem len)
  = Some (length (assemble_item major it).2).
Proof.
  intros Hwf Hnc Hend Hne Hh Hlen. set (ops := (assemble_item major it).2) in *. unfold operand_token_count.
  rewrite length_app in Hlen. destruct next as [|t next]; [done|]. cbn [length] in Hlen.
  destruct (Z.leb_spec 2 major) as [Hm|Hm]; [by rewrite item_count_field, Nat2Z.id|].
  destruct (item_head major it Hwf) as [-> _]. 
  assert (Hscan : Forall (λ t, flag t 0x80000000 = true) ops ->
    scan_operands (S MAX_TOKENS) (peek_at mem len) 0 = Some (length ops)).
  { intros Hops. apply (scan_operands_exact _ _ 0 (length ops)); [| |lia].
    - intros i Hi. destruct (lookup_lt_is_Some_2 ops i) as [x Hx]; [lia|]. exists x. unfold peek_at.
      rewrite (proj2 (Nat.leb_gt _ _)) by lia. split; [f_equal; apply Hh; by apply lookup_app_l_Some|].
      by eapply Forall_lookup_1 in Hops.
    - unfold peek_at. rewrite (proj2 (Nat.leb_gt _ _)) by (cbn; lia). cbn [from_option Nat.add].
      rewrite (Hh (length ops) t); [exact Hend|]. by rewrite lookup_app_r, Nat.sub_diag by lia. }
  pose proof (item_operands_bit31 major it Hwf) as Hb.
  destruct it; cbn [item_opcode wf_item] in *; try (by apply Hscan); subst ops; cbn [assemble_item snd length] in *.
  - by destruct (Hnc payload).
  - destruct Hwf as (_ & -> & _). done.
  - rewrite length_map. destruct Hwf as (_ & -> & _). done.
  - done.
  - pose proof (wf_generic _ _ Hwf). specialize (Hscan Hb). by destruct (Instruction.opcode inst).
Qed.

Lemma generic_not_end it major : wf_item major it -> (forall p, it <> TComment p) ->
  Z.land (assemble_item major it).1 0xFFFF <> 0xFFFF /\ Z.land (assemble_item major it).1 0xFFFF <> 0xFFFE.
Proof.
  intros Hwf Hnc. destruct (item_head major it Hwf) as [Hop _].
  split; intros E; rewrite E in Hop; injection Hop as Hop; destruct it; try discriminate Hop.
  - cbn in *. pose proof (wf_generic _ _ Hwf) as Hg. by rewrite <- Hop in Hg.
  - by destruct (Hnc payload).
  - cbn in *. pose proof (wf_generic _ _ Hwf) as Hg. by rewrite <- Hop in Hg.
Qed.

(** One turn of the loop steps over one item. *)
Lemma read_loop_item fuel major it mem len next :
  wf_item major it -> run_ends next -> next <> [] -> holds mem len (item_tokens major it ++ next) ->
  (len + length (item_tokens major it ++ next) <= MAX_TOKENS)%nat ->
  read_loop (S fuel) major mem len = read_loop fuel major mem (len + length (item_tokens major it))%nat.
Proof.
  intros Hwf Hend Hne Hh Hlen. rewrite item_tokens_cons, <- app_comm_cons in *. cbn [length] in *.
  apply holds_cons in Hh as [Htok Hh]. cbn [read_loop]. rewrite (proj2 (Nat.leb_gt _ _)) by lia. rewrite Htok.
  replace (len + S (length (assemble_item major it).2))%nat with (S len + length (assemble_item major it).2)%nat by lia.
  destruct (match it with TComment _ => true | _ => false end) eqn:Ec.
  - destruct it; try done. cbn [assemble_item fst snd] in *. destruct Hwf as [Hl _].
    assert (Hl2 : Z.land (comment_token payload) 0xFFFF = 0xFFFE).
    { rewrite <- (Z.shiftr_0_r (comment_token payload)). apply (pack_field [] 16); [constructor|split; cbn [fst snd]; lia|done..]. }
    by rewrite Hl2, comment_length, Nat2Z.id.
  - assert (Hnc : forall p, it <> TComment p) by (intros p ->; done).
    destruct (generic_not_end it major Hwf Hnc) as [H1 H2].
    rewrite (proj2 (Z.eqb_neq _ _) H1), (proj2 (Z.eqb_neq _ _) H2).
    rewrite (item_token_count major it mem (S len) next); try done. lia.
Qed.

Lemma read_loop_items fuel major items mem len : Forall (wf_item major) items ->
  let toks := concat (item_tokens major <$> items) ++ [END_TOKEN] in
  holds mem len toks -> (len + length toks <= MAX_TOKENS)%nat -> (length items < fuel)%nat ->
  read_loop fuel major mem len = Some (Some (len + length toks)%nat).
Proof.
  intros Hwf. revert fuel len. induction Hwf as [|it items Hit Hwf IH]; intros fuel len toks Hh Hlen Hf;
    (destruct fuel as [|fuel]; [cbn in Hf; lia|]); subst toks.
  - cbn [fmap list_fmap concat app length] in *. cbn [read_loop]. rewrite (proj2 (Nat.leb_gt _ _)) by lia.
    apply holds_cons in Hh as [-> _]. cbn [Z.eqb]. by rewrite Nat.add_1_r.
  - cbn [fmap list_fmap concat] in *. rewrite <- app_assoc in *.
    rewrite (read_loop_item fuel major it mem len (concat (item_tokens major <$> items) ++ [END_TOKEN])); try done;
      [|by apply items_run_ends|intros E; apply (f_equal length) in E; rewrite length_app in E; cbn in E; lia].
    set (next := concat (item_tokens major <$> items) ++ [END_TOKEN]) in *. rewrite length_app in Hlen.
    rewrite IH; [do 2 f_equal; rewrite length_app; lia| |lia|cbn in Hf; lia]. by apply holds_app in Hh as [_ Hh].
Qed.

(** ** Theorems *)

(** C18: a shader the application passes by pointer is read exactly and means what
    it spells: when the memory behind the pointer starts with the token stream of
    a well-formed text of at most 65536 tokens, the walk returns precisely that
    stream, whatever lies behind it, and it parses to the program the text
    denotes. *)
Theorem shader_at_pointer mem ty major minor items :
  wf_version ty major minor -> Forall (wf_item major) items ->
  (length (assemble ty major minor items) <= MAX_TOKENS)%nat -> holds mem 0 (assemble ty major minor items) ->
  read_shader_bytecode mem = Some (Some (assemble ty major minor items))
  /\ parse (assemble ty major minor items) = Ok (program_of (assemble ty major minor items) ty major minor items).
Proof.
  intros Hv Hwf Hlen Hh. split; [|by apply parse_of_text]. pose proof (slice_holds _ _ Hh) as Hslice.
  destruct Hv as (Hj & Hn & _). destruct (version_token_back ty major minor Hj Hn) as (E1 & E2 & _).
  apply holds_cons in Hh as [Hver Hh]. unfold read_shader_bytecode. rewrite Hver, E1, E2.
  assert (Hk : negb (((match ty with Vertex => 0xFFFE | Pixel => 0xFFFF end) =? 0xFFFE)
    || ((match ty with Vertex => 0xFFFE | Pixel => 0xFFFF end) =? 0xFFFF)) = false) by by destruct ty.
  rewrite Hk. unfold assemble in Hlen, Hslice. cbn [length] in Hlen.
  rewrite (read_loop_items _ major items); [cbn [option_map]; do 2 f_equal; exact Hslice|done|done|lia|].
  pose proof (items_length major items). rewrite length_app in Hlen. cbn in Hlen. lia.
Qed.

(** C19: shader creation is total on arbitrary memory: whatever tokens lie behind
    the pointer, the walk ends; what it returns is what the memory holds, at most
    65536 tokens and closed by an END token; and parsing that answers either an
    error or a program that some well-formed text denotes, so that every register
    index, write mask, swizzle lane, shift, usage index and immediate is in the
    range of its field and every operand is where its opcode and flags want it. *)
Theorem intake_total mem : (forall i, is_u32 (mem i)) ->
  exists r, read_shader_bytecode mem = Some r
  /\ forall bc, r = Some bc ->
     holds mem 0 bc /\ (length bc <= MAX_TOKENS)%nat /\ (exists pre t, bc = pre ++ [t] /\ Z.land t 0xFFFF = 0xFFFF)
     /\ ((exists e, parse bc = Err e)
         \/ exists ty major minor items, wf_version ty major minor /\ Forall (wf_item major) items
            /\ parse bc = Ok (program_of bc ty major minor items)).
Proof.
  intros Hm. unfold read_shader_bytecode. destruct (negb _); [by eexists|].
  destruct (read_loop_ends (S MAX_TOKENS) (Z.land (Z.shiftr (mem 0%nat) 8) 0xFF) mem 1) as (r & -> & Hr); [lia|lia|].
  eexists. split; [done|]. intros bc Hbc. destruct r as [n|]; [|done]. injection Hbc as <-.
  destruct (Hr n eq_refl) as [[Hn0 Hn] Hend]. unfold slice_from. split; [|split; [by rewrite length_map, length_seq|split]].
  - intros i t Ht. change (map mem (seq 0 n)) with (mem <$> seq 0 n) in Ht. rewrite list_lookup_fmap in Ht. apply fmap_Some in Ht as (j & Hj & ->).
    by apply lookup_seq in Hj as [-> _].
  - exists (map mem (seq 0 (pred n))), (mem (pred n)). split; [|done].
    replace n with (S (pred n)) at 1 by lia. by rewrite seq_S, map_app.
  - assert (Hu : Forall is_u32 (map mem (seq 0 n))) by (apply Forall_map, Forall_forall; auto).
    pose proof (parse_answers _ Hu) as H. destruct (parse _) as [p|e| |]; [right|by left; eexists|done..].
    destruct H as (ty & major & minor & items & Hv & Hi & _ & ->). by exists ty, major, minor, items.
Qed.

(** ** Witnesses *)

(** [vs_1_1 { // comment; dcl_position v0; def c0, <0xFFFF>...; mov a0.x, v0; add oPos, c[a0.x + 4], -v0 }]
    with words that look like an END token in the comment and the definition. *)
Definition sample_src (kind : RegKind) (index : Z) (modifier : SrcModifier) (rel : option RelativeAddr.t) : SrcOperand.t :=
  SrcOperand.mk (Register.mk kind index) (mkSwizzle 0 1 2 3) modifier rel.
Definition sample_dst (kind : RegKind) (index mask : Z) : DstOperand.t :=
  DstOperand.mk (Register.mk kind index) mask (mkDstMods false false false) 0.
Definition sample_inst (op : Opcode) (dst : DstOperand.t) (srcs : list SrcOperand.t) : item :=
  TInst (Instruction.mk op (Some dst) srcs (mkInstrFlags false false false false) None None).
Definition sample_text : list item :=
  [TComment [0xFFFF; 0xFFFF]; TDcl (Semantic Position 0 (Register.mk Input 0) 0xF);
   TDef (Def.mk (Register.mk Const 0) [0xFFFF; 0x80000000; 0; 0x3F800000]);
   sample_inst OpMov (sample_dst Addr 0 1) [sample_src Input 0 ModNone None];
   sample_inst OpAdd (sample_dst RastOut 0 0xF)
     [sample_src Const 4 ModNone (Some (RelativeAddr.mk (Register.mk Addr 0) (mkSwizzle 0 0 0 0))); sample_src Input 0 Neg None]].
Definition sample_stream : list Z := assemble Vertex 1 1 sample_text.

Ltac wf_sample :=
  repeat match goal with
  | |- wf_inst _ _ => constructor
  | |- wf_flags _ _ => unfold wf_flags
  | |- wf_presence _ => unfold wf_presence
  | |- _ /\ _ => split
  | |- Forall _ (_ :: _) => apply Forall_cons_2
  | |- Forall _ [] => apply Forall_nil_2
  | |- _ => first [done | progress cbn | intros; lia]
  end.

Lemma sample_text_wf : Forall (wf_item 1) sample_text.
Proof.
  repeat (apply Forall_cons_2); [..|apply Forall_nil_2].
  - split; [done|]. repeat constructor; done.
  - by repeat split.
  - split; [done|]. split; [done|]. repeat constructor; done.
  - wf_sample.
  - wf_sample.
Qed.

Lemma shader_at_pointer_witness :
  let mem := λ i, nth i sample_stream 0x12345678 in
  holds mem 0 sample_stream /\ read_shader_bytecode mem = Some (Some sample_stream)
  /\ parse sample_stream = Ok (program_of sample_stream Vertex 1 1 sample_text).
Proof.
  intros mem. assert (Hh : holds mem 0 sample_stream) by (intros i t Ht; by apply nth_lookup_Some).
  split; [exact Hh|]. apply (shader_at_pointer mem Vertex 1 1 sample_text).
  - by repeat split.
  - apply sample_text_wf.
  - apply Nat.leb_le. vm_compute. done.
  - exact Hh.
Defined.

Lemma intake_total_witness :
  exists r, read_shader_bytecode (λ i, nth i [0xFFFE0200; 0x0200001F; 0; 0x900F0000] 0xFFFF) = Some r
  /\ forall bc, r = Some bc -> length bc = 5%nat /\ is_Some (last bc).
Proof.
  destruct (intake_total (λ i, nth i [0xFFFE0200; 0x0200001F; 0; 0x900F0000] 0xFFFF)) as (r & E & H).
  - intros [|[|[|[|[|i]]]]]; cbn; done.
  - exists r. split; [exact E|]. intros bc Hbc. destruct (H bc Hbc) as (_ & _ & (pre & t & Ep & _) & _).
    split; [|by rewrite Ep, last_snoc]. subst r. vm_compute in E. by injection E as <-.
Defined.
