(* ===== verification/DxsoLink.v ===== *)
(** [dxso/link.rs]: matching the outputs of an SM3 vertex shader with the inputs of
    an SM3 pixel shader by declaration semantic.  The MSL text the plans print is
    left out; what is here decides which members both stages declare. *)

From S2P Require Import Prelude BitFields DxsoIr DxsoParser DxsoText.

Definition MAX_LINKED_INPUTS : nat := 8.

(** ** Semantics *)

(** Two bytes: a usage and its index. *)
Record semantic := mkSemantic { sem_usage : DeclUsage; sem_index : Z }.
#[global] Instance semantic_eq_dec : EqDecision semantic. Proof. solve_decision. Defined.

Definition semantic_new (usage : DeclUsage) (index : Z) : semantic := mkSemantic usage (Z.land index 0xF).

(** [usage as u8]: the discriminants count from zero in declaration order. *)
Definition usage_u8 (u : DeclUsage) : Z := DeclUsage_to_bits u.

Definition code (s : semantic) : Z := Z.lor (Z.shiftl (usage_u8 (sem_usage s)) 4) (sem_index s).

Definition from_code (c : Z) : semantic :=
  mkSemantic (default Sample (DeclUsage_from_bits (Z.shiftr c 4))) (Z.land c 0xF).

Definition is_extra (s : semantic) : bool :=
  negb match sem_usage s, sem_index s with
       | Texcoord, _ => true
       | (Color | Position), (0 | 1) => true
       | (Fog | PSize), 0 => true
       | _, _ => false
       end.

(** ** Declared elements *)

Record element := mkElement { elem_semantic : semantic; elem_reg : Register.t; elem_mask : WriteMask }.

Definition elements (p : DxsoProgram.t) : list element :=
  omap (λ d, match d with
             | Semantic usage index reg mask =>
                 Some (mkElement (semantic_new usage index) reg (if mask =? 0 then WriteMask_ALL else mask))
             | SamplerDecl _ _ => None
             end) (DxsoProgram.declarations p).

Definition is_output_kind (k : RegKind) : bool :=
  match k with RastOut | AttrOut | TexcoordOut | Output => true | _ => false end.

(** ** Sets of semantics

    [[u64; 4]], one bit per code. *)

Notation SemanticSet := (list Z).
Definition set_empty : SemanticSet := [0; 0; 0; 0].

Definition set_insert (s : semantic) (set : SemanticSet) : SemanticSet :=
  let c := code s in
  let w := Z.to_nat (Z.shiftr c 6) in
  <[w := Z.lor (set !!! w) (Z.shiftl 1 (Z.land c 63))]> set.

Definition set_contains (set : SemanticSet) (s : semantic) : bool :=
  let c := code s in flag (set !!! Z.to_nat (Z.shiftr c 6)) (Z.shiftl 1 (Z.land c 63)).

(** [(0..=u8::MAX)]. *)
Definition u8_values : list Z := Z.of_nat <$> seq 0 256.

Definition set_iter (set : SemanticSet) : list semantic :=
  from_code <$> filter (λ c, flag (set !!! Z.to_nat (Z.shiftr c 6)) (Z.shiftl 1 (Z.land c 63)) = true) u8_values.

Definition insert_extra (set : SemanticSet) (s : semantic) : SemanticSet := if is_extra s then set_insert s set else set.

Definition vs_outputs (vs : DxsoProgram.t) : SemanticSet :=
  if negb (bool_decide (DxsoProgram.shader_type vs = Vertex)) || negb (DxsoProgram.major vs =? 3) then set_empty
  else foldl (λ set e, insert_extra set (elem_semantic e)) set_empty
         (filter (λ e, is_output_kind (Register.kind (elem_reg e)) = true) (elements vs)).

(** The occupied slots of a passthrough list: up to the first zero. *)
Fixpoint passthrough_entries (codes : list Z) : list semantic :=
  match codes with c :: codes => if c =? 0 then [] else from_code c :: passthrough_entries codes | [] => [] end.

Definition passthrough_outputs (codes : list Z) : SemanticSet := foldl insert_extra set_empty (passthrough_entries codes).

(** ** The inputs of a pixel shader *)

(** [LinkInputs]: the codes in use, [codes[..len]]. *)
Notation LinkInputs := (list Z).

Definition link_position (inputs : LinkInputs) (s : semantic) : option nat :=
  fst <$> list_find (λ c, c = code s) inputs.

Definition link_iter (inputs : LinkInputs) : list semantic := from_code <$> inputs.

Fixpoint collect_inputs (es : list element) (inputs : LinkInputs) : LinkInputs :=
  match es with
  | [] => inputs
  | e :: es =>
      let s := elem_semantic e in
      if negb (is_extra s) || bool_decide (is_Some (link_position inputs s)) then collect_inputs es inputs
      else if decide (length inputs = MAX_LINKED_INPUTS) then inputs
      else collect_inputs es (inputs ++ [code s])
  end.

Definition ps_inputs (ps : DxsoProgram.t) : LinkInputs :=
  if negb (bool_decide (DxsoProgram.shader_type ps = Pixel)) || negb (DxsoProgram.major ps =? 3) then []
  else collect_inputs (filter (λ e, Register.kind (elem_reg e) = Input) (elements ps)) [].

Definition link_is_empty (inputs : LinkInputs) : bool := bool_decide (inputs = []).

(** [fold(0, |mask, (i, _)| mask | (1 << i))] over the inputs the set contains. *)
Definition mask_against (inputs : LinkInputs) (outputs : SemanticSet) : Z :=
  foldl (λ mask '(i, s), if set_contains outputs s then Z.lor mask (Z.shiftl 1 (Z.of_nat i)) else mask) 0
        (imap pair (link_iter inputs)).

(** The members the two plans declare beyond the base set: [VsOutputs::build]'s and
    [PsInputs::build]'s [extras]. *)
Definition VsOutputs_extras (vs : DxsoProgram.t) : list semantic := set_iter (vs_outputs vs).
Definition PsInputs_extras (ps : DxsoProgram.t) (linked_input_mask : Z) : list semantic :=
  if negb (DxsoProgram.major ps =? 3) then []
  else snd <$> filter (λ '(i, _), flag linked_input_mask (Z.shiftl 1 (Z.of_nat i)) = true) (imap pair (link_iter (ps_inputs ps))).

(** What [PsInputs::build]'s [read] answers for a semantic: the member it reads, or
    [None] for zero. *)
Definition ps_read (ps : DxsoProgram.t) (linked_input_mask : Z) (s : semantic) : option semantic :=
  match sem_usage s, sem_index s with
  | Position, 0 => Some s
  | PSize, 0 => None
  | _, _ =>
      if negb (is_extra s) then Some s
      else match link_position (ps_inputs ps) s with
           | Some i => if flag linked_input_mask (Z.shiftl 1 (Z.of_nat i)) then Some s else None
           | None => None
           end
  end.

(** ** Codes *)

Definition wf_semantic (s : semantic) : Prop := 0 <= sem_index s < 16.

Lemma semantic_new_wf u i : wf_semantic (semantic_new u i).
Proof. apply (land_ones_range i 4). lia. Qed.

(** The two hundred and twenty-four semantics. *)
Definition all_semantics : list semantic :=
  u ← [Position; BlendWeight; BlendIndices; Normal; PSize; Texcoord; Tangent; Binormal; TessFactor; PositionT; Color; Fog;
       Depth; Sample];
  i ← seq 0 16; [mkSemantic u (Z.of_nat i)].

Lemma all_semantics_complete s : wf_semantic s -> s ∈ all_semantics.
Proof.
  intros Hs. destruct s as [u i]. unfold wf_semantic in Hs. cbn in Hs. apply list_elem_of_bind. exists u.
  split; [|destruct u; by repeat (left || right)]. apply list_elem_of_bind. exists (Z.to_nat i).
  rewrite Z2Nat.id by lia. split; [by left|]. apply elem_of_seq. lia.
Qed.

Lemma code_facts s : wf_semantic s -> from_code (code s) = s /\ 0 <= code s < 256.
Proof.
  intros Hs. apply all_semantics_complete in Hs. revert s Hs. apply Forall_forall.
  apply (bool_decide_unpack _). vm_compute. exact I.
Qed.

Lemma from_code_code s : wf_semantic s -> from_code (code s) = s.
Proof. intros. by apply code_facts. Qed.

Lemma code_range s : wf_semantic s -> 0 <= code s < 256.
Proof. intros. by apply code_facts. Qed.

Lemma code_inj s s' : wf_semantic s -> wf_semantic s' -> code s = code s' -> s = s'.
Proof. intros Hs Hs' E. rewrite <- (from_code_code s Hs), <- (from_code_code s' Hs'). by f_equal. Qed.

(** ** Bits *)

Lemma flag_shiftl x k : 0 <= k -> flag x (Z.shiftl 1 k) = Z.testbit x k.
Proof.
  intros Hk. unfold flag. rewrite Z.shiftl_1_l. destruct (Z.testbit x k) eqn:E.
  - apply negb_true_iff, Z.eqb_neq. intros H0. apply (f_equal (λ z, Z.testbit z k)) in H0.
    by rewrite Z.land_spec, E, Z.pow2_bits_true, Z.bits_0 in H0.
  - apply negb_false_iff, Z.eqb_eq, Z.bits_inj. intros n. rewrite Z.land_spec, Z.bits_0.
    destruct (decide (n = k)) as [->|Hn]; [by rewrite E|]. by rewrite Z.pow2_bits_false, andb_false_r.
Qed.

Lemma testbit_lor_shiftl x k n : 0 <= k -> Z.testbit (Z.lor x (Z.shiftl 1 k)) n = Z.testbit x n || (n =? k).
Proof.
  intros Hk. rewrite Z.lor_spec, Z.shiftl_1_l. f_equal. destruct (Z.eqb_spec n k) as [->|Hn].
  - by apply Z.pow2_bits_true.
  - by apply Z.pow2_bits_false.
Qed.

(** Bit [c] of the four words. *)
Definition set_bit (set : SemanticSet) (c : Z) : bool := Z.testbit (set !!! Z.to_nat (Z.shiftr c 6)) (Z.land c 63).

Lemma low_bits_nonneg c : 0 <= Z.land c 63.
Proof. apply (land_ones_range c 6). lia. Qed.

Lemma set_contains_bit set s : set_contains set s = set_bit set (code s).
Proof. apply flag_shiftl, low_bits_nonneg. Qed.

Lemma code_split c c' : Z.shiftr c 6 = Z.shiftr c' 6 -> Z.land c 63 = Z.land c' 63 -> c = c'.
Proof. change 63 with (Z.ones 6). rewrite !Z.land_ones, !Z.shiftr_div_pow2 by lia. intros. Z.to_euclidean_division_equations. lia. Qed.

Lemma word_range c : 0 <= c < 256 -> 0 <= Z.shiftr c 6 < 4.
Proof. intros. rewrite Z.shiftr_div_pow2 by lia. Z.to_euclidean_division_equations. lia. Qed.

Lemma set_bit_insert set s c : length set = 4%nat -> wf_semantic s -> 0 <= c < 256 ->
  set_bit (set_insert s set) c = set_bit set c || (c =? code s).
Proof.
  intros Hl Hs Hc. pose proof (code_range s Hs) as Hr. unfold set_bit, set_insert.
  pose proof (word_range _ Hc). pose proof (word_range _ Hr).
  destruct (decide (Z.shiftr c 6 = Z.shiftr (code s) 6)) as [E|E].
  - rewrite E, list_lookup_total_insert_eq by lia. rewrite testbit_lor_shiftl by apply low_bits_nonneg. f_equal.
    destruct (Z.eqb_spec c (code s)) as [->|Hn]; [by rewrite Z.eqb_refl|].
    apply Z.eqb_neq. intros E2. by apply Hn, code_split.
  - rewrite list_lookup_total_insert_ne by lia. destruct (Z.eqb_spec c (code s)) as [->|Hn]; [done|by rewrite orb_false_r].
Qed.

(** The set of a list of semantics holds exactly its extras. *)
Definition set_of (l : list semantic) : SemanticSet := foldl insert_extra set_empty l.

Lemma set_of_snoc l s : set_of (l ++ [s]) = insert_extra (set_of l) s.
Proof. unfold set_of. by rewrite foldl_app. Qed.

Lemma set_of_length l : length (set_of l) = 4%nat.
Proof.
  induction l as [|s l IH] using rev_ind; [done|]. rewrite set_of_snoc. unfold insert_extra, set_insert.
  destruct (is_extra s); [by rewrite length_insert|done].
Qed.

Lemma set_of_bits l c : Forall wf_semantic l -> 0 <= c < 256 ->
  set_bit (set_of l) c = true <-> exists s, s ∈ l /\ is_extra s = true /\ code s = c.
Proof.
  intros Hl Hc. induction l as [|s l IH] using rev_ind.
  { split; [|intros (s & Hs & _); by apply not_elem_of_nil in Hs]. unfold set_bit. cbn.
    assert (E : set_empty !!! Z.to_nat (c ≫ 6) = 0).
    { pose proof (word_range c Hc). unfold set_empty. destruct (Z.to_nat (c ≫ 6)) as [|[|[|[|n]]]] eqn:En; [done..|lia]. }
    change (set_of []) with set_empty. by rewrite E, Z.bits_0. }
  apply Forall_app in Hl as [Hl Hs]. apply Forall_inv in Hs. specialize (IH Hl). rewrite set_of_snoc. unfold insert_extra.
  setoid_rewrite elem_of_app. setoid_rewrite list_elem_of_singleton. destruct (is_extra s) eqn:Ex.
  - rewrite set_bit_insert, orb_true_iff, IH, Z.eqb_eq by (done || apply set_of_length). split.
    + intros [(s' & ? & ? & ?)| ->]; [exists s'; tauto|exists s; tauto].
    + intros (s' & [?| ->] & ? & ?); [left; by exists s'|by right].
  - rewrite IH. split; intros (s' & Hs' & Hx & Hcode); exists s'; [tauto|]. destruct Hs' as [?| ->]; [done|congruence].
Qed.

Lemma set_of_contains l s : Forall wf_semantic l -> wf_semantic s ->
  set_contains (set_of l) s = true <-> s ∈ l /\ is_extra s = true.
Proof.
  intros Hl Hs. rewrite set_contains_bit, set_of_bits by (done || by apply code_range). split.
  - intros (s' & Hin & Hx & Hc). assert (s' = s) as -> by (apply code_inj; [by eapply Forall_forall in Hin|done..]). done.
  - intros [? ?]. by exists s.
Qed.

Lemma set_of_iter l s : Forall wf_semantic l -> s ∈ set_iter (set_of l) <-> s ∈ l /\ is_extra s = true.
Proof.
  intros Hl. unfold set_iter. rewrite list_elem_of_fmap. split.
  - intros (c & -> & Hc). apply list_elem_of_filter in Hc as [Hc Hr]. rewrite flag_shiftl in Hc by apply low_bits_nonneg.
    apply list_elem_of_fmap in Hr as (i & -> & Hi). apply elem_of_seq in Hi.
    apply set_of_bits in Hc as (s' & Hs' & Hx & <-); [|done|lia]. rewrite from_code_code; [done|]. by eapply Forall_forall in Hs'.
  - intros [Hs Hx]. assert (Hw : wf_semantic s) by (by eapply Forall_forall in Hs). pose proof (code_range s Hw).
    exists (code s). split; [by rewrite from_code_code|]. apply list_elem_of_filter. split.
    + rewrite flag_shiftl by apply low_bits_nonneg. apply set_of_bits; [done..|]. by exists s.
    + apply list_elem_of_fmap. exists (Z.to_nat (code s)). split; [lia|]. apply elem_of_seq. lia.
Qed.

(** ** The inputs of a pixel shader, collected *)

Lemma link_position_Some inputs s i : link_position inputs s = Some i -> inputs !! i = Some (code s).
Proof.
  unfold link_position. intros ([j c] & E & Hj)%fmap_Some. cbn in *. subst j. by apply list_find_Some in E as (E & -> & _).
Qed.

Lemma link_position_is_Some inputs s : is_Some (link_position inputs s) <-> code s ∈ inputs.
Proof.
  unfold link_position. rewrite fmap_is_Some. split.
  - intros [[j c] E]. apply list_find_Some in E as (E & -> & _). by eapply list_elem_of_lookup_2.
  - intros Hin. by eapply list_find_elem_of.
Qed.

Record collected (es : list element) (inputs r : LinkInputs) : Prop := {
  collected_nodup : NoDup r;
  collected_length : (length r <= MAX_LINKED_INPUTS)%nat;
  collected_from : forall c, c ∈ r -> c ∈ inputs \/ exists e, e ∈ es /\ is_extra (elem_semantic e) = true /\ code (elem_semantic e) = c;
  collected_prefix : inputs `prefix_of` r;
  collected_all : (length r < MAX_LINKED_INPUTS)%nat -> forall e, e ∈ es -> is_extra (elem_semantic e) = true -> code (elem_semantic e) ∈ r;
}.

Lemma collect_inputs_collected es inputs :
  NoDup inputs -> (length inputs <= MAX_LINKED_INPUTS)%nat -> collected es inputs (collect_inputs es inputs).
Proof.
  revert inputs. induction es as [|e es IH]; intros inputs Hnd Hl.
  { split; [done|done|by left|done|]. intros _ e He. by apply not_elem_of_nil in He. }
  cbn [collect_inputs]. destruct (is_extra (elem_semantic e)) eqn:Ex; cbn [negb orb].
  2: { destruct (IH inputs Hnd Hl) as [H1 H2 H3 H4 H5]. split; [done|done| |done|].
       - intros c Hc. destruct (H3 c Hc) as [?|(e' & ? & ?)]; [by left|right; exists e'; split; [by right|done]].
       - intros Hlt e' [->|He']%elem_of_cons Hx; [congruence|by apply H5]. }
  destruct (bool_decide_reflect (is_Some (link_position inputs (elem_semantic e)))) as [Hp|Hp].
  - apply link_position_is_Some in Hp. destruct (IH inputs Hnd Hl) as [H1 H2 H3 H4 H5]. split; [done|done| |done|].
    + intros c Hc. destruct (H3 c Hc) as [?|(e' & ? & ?)]; [by left|right; exists e'; split; [by right|done]].
    + intros Hlt e' [->|He']%elem_of_cons Hx; [by eapply elem_of_prefix|by apply H5].
  - rewrite link_position_is_Some in Hp. destruct (decide _) as [Hfull|Hfull].
    { split; [done|done|by left|done|]. intros Hlt. lia. }
    destruct (IH (inputs ++ [code (elem_semantic e)])) as [H1 H2 H3 H4 H5].
    { apply NoDup_app. split; [done|]. split; [|apply NoDup_singleton]. intros c Hc ->%list_elem_of_singleton. done. }
    { rewrite length_app. cbn. lia. }
    split; [done|done| | |].
    + intros c Hc. destruct (H3 c Hc) as [Hin|(e' & ? & ?)]; [|right; exists e'; split; [by right|done]].
      apply elem_of_app in Hin as [?| ->%list_elem_of_singleton]; [by left|right; exists e; split; [by left|done]].
    + etrans; [by eexists|exact H4].
    + intros Hlt e' [->|He']%elem_of_cons Hx; [|by apply H5]. eapply elem_of_prefix; [|exact H4].
      apply elem_of_app. right. by left.
Qed.

(** The semantics a program's elements have are in range. *)
Lemma elements_wf p : Forall (λ e, wf_semantic (elem_semantic e)) (elements p).
Proof.
  apply Forall_forall. intros e He. apply list_elem_of_omap in He as (d & _ & Hd).
  destruct d; [|done]. injection Hd as <-. apply semantic_new_wf.
Qed.

Definition is_sm3 (ty : ShaderType) (p : DxsoProgram.t) : Prop := DxsoProgram.shader_type p = ty /\ DxsoProgram.major p = 3.

(** The semantics a pixel shader's inputs and a vertex shader's outputs declare. *)
Definition input_semantics (ps : DxsoProgram.t) : list semantic :=
  elem_semantic <$> filter (λ e, Register.kind (elem_reg e) = Input) (elements ps).
Definition output_semantics (vs : DxsoProgram.t) : list semantic :=
  elem_semantic <$> filter (λ e, is_output_kind (Register.kind (elem_reg e)) = true) (elements vs).

Lemma filtered_semantics_wf (P : element -> Prop) `{!forall e, Decision (P e)} p : Forall wf_semantic (elem_semantic <$> filter P (elements p)).
Proof.
  apply Forall_fmap, Forall_forall. intros e [_ He]%list_elem_of_filter. pose proof (elements_wf p) as Hw.
  by eapply Forall_forall in He.
Qed.

Lemma ps_inputs_collected ps : is_sm3 Pixel ps ->
  collected (filter (λ e, Register.kind (elem_reg e) = Input) (elements ps)) [] (ps_inputs ps).
Proof.
  intros [E1 E2]. unfold ps_inputs. rewrite E1, E2, bool_decide_true by done. cbn [negb orb Z.eqb Pos.eqb].
  apply collect_inputs_collected; [constructor|cbn; lia].
Qed.

Lemma ps_inputs_other ps : ~ is_sm3 Pixel ps -> ps_inputs ps = [].
Proof.
  intros H. unfold ps_inputs, is_sm3 in *. destruct (bool_decide_reflect (DxsoProgram.shader_type ps = Pixel)); [|done].
  destruct (Z.eqb_spec (DxsoProgram.major ps) 3); [tauto|done].
Qed.

Lemma ps_inputs_codes ps c : c ∈ ps_inputs ps -> exists s, s ∈ input_semantics ps /\ is_extra s = true /\ code s = c.
Proof.
  intros Hc. destruct (decide (DxsoProgram.shader_type ps = Pixel /\ DxsoProgram.major ps = 3)) as [H3|H3];
    [|rewrite ps_inputs_other in Hc by done; by apply not_elem_of_nil in Hc].
  destruct (collected_from _ _ _ (ps_inputs_collected ps H3) c Hc) as [H|(e & He & Hx & Hcode)]; [by apply not_elem_of_nil in H|].
  exists (elem_semantic e). split; [|done]. apply list_elem_of_fmap. by exists e.
Qed.

Lemma vs_outputs_set vs : is_sm3 Vertex vs -> vs_outputs vs = set_of (output_semantics vs).
Proof.
  intros [E1 E2]. unfold vs_outputs. rewrite E1, E2, bool_decide_true by done. cbn [negb orb Z.eqb Pos.eqb].
  unfold set_of, output_semantics. generalize set_empty. induction (filter _ _) as [|e es IH]; intros set; [done|apply IH].
Qed.

Lemma vs_outputs_other vs : ~ is_sm3 Vertex vs -> vs_outputs vs = set_of [].
Proof.
  intros H. unfold vs_outputs, is_sm3 in *. destruct (bool_decide_reflect (DxsoProgram.shader_type vs = Vertex)); [|done].
  destruct (Z.eqb_spec (DxsoProgram.major vs) 3); [tauto|done].
Qed.

(** ** The mask *)

Lemma imap_snoc {A B} (f : nat -> A -> B) l x : imap f (l ++ [x]) = imap f l ++ [f (length l) x].
Proof. rewrite imap_app. cbn. by rewrite Nat.add_0_r. Qed.

Lemma mask_bits inputs outputs i : Z.testbit (mask_against inputs outputs) (Z.of_nat i)
  = from_option (set_contains outputs) false (link_iter inputs !! i).
Proof.
  unfold mask_against. induction (link_iter inputs) as [|s l IH] using rev_ind; [by rewrite Z.bits_0|].
  rewrite imap_snoc, foldl_app. cbn [foldl]. set (m := foldl _ 0 _) in *. clearbody m.
  assert (E : Z.testbit (if set_contains outputs s then Z.lor m (Z.shiftl 1 (Z.of_nat (length l))) else m) (Z.of_nat i)
    = Z.testbit m (Z.of_nat i) || (set_contains outputs s && (Z.of_nat i =? Z.of_nat (length l)))).
  { destruct (set_contains outputs s); [apply testbit_lor_shiftl; lia|by rewrite orb_false_r]. }
  rewrite E, IH. destruct (Nat.lt_trichotomy i (length l)) as [H|[->|H]].
  - rewrite lookup_app_l by done. rewrite (proj2 (Z.eqb_neq _ _)) by lia. by rewrite andb_false_r, orb_false_r.
  - rewrite lookup_ge_None_2, list_lookup_middle by done. by rewrite Z.eqb_refl, andb_true_r.
  - rewrite !lookup_ge_None_2 by (rewrite ?length_app; cbn; lia). rewrite (proj2 (Z.eqb_neq _ _)) by lia. by rewrite andb_false_r.
Qed.

Lemma mask_flag inputs outputs i : flag (mask_against inputs outputs) (Z.shiftl 1 (Z.of_nat i))
  = from_option (set_contains outputs) false (link_iter inputs !! i).
Proof. rewrite flag_shiftl by lia. apply mask_bits. Qed.

Lemma mask_range inputs outputs : (length inputs <= MAX_LINKED_INPUTS)%nat -> 0 <= mask_against inputs outputs < 256.
Proof.
  intros Hl. assert (H : 0 <= mask_against inputs outputs).
  { unfold mask_against. induction (link_iter inputs) as [|s l IH] using rev_ind; [done|].
    rewrite imap_snoc, foldl_app. cbn [foldl]. destruct (set_contains outputs s); [|done].
    apply Z.lor_nonneg. split; [done|]. apply Z.shiftl_nonneg. lia. }
  split; [done|]. destruct (decide (mask_against inputs outputs = 0)) as [->|H0]; [lia|].
  change 256 with (2 ^ 8). apply Z.log2_lt_pow2; [lia|]. apply Z.nle_gt. intros Hlog.
  pose proof (Z.bit_log2 (mask_against inputs outputs) ltac:(lia)) as Hb.
  rewrite <- (Z2Nat.id (Z.log2 (mask_against inputs outputs))), mask_bits in Hb by apply Z.log2_nonneg.
  rewrite lookup_ge_None_2 in Hb; [done|]. unfold link_iter. rewrite length_fmap. unfold MAX_LINKED_INPUTS in Hl. lia.
Qed.

(** ** The members *)

Lemma PsInputs_extras_elem ps mask s : DxsoProgram.major ps = 3 ->
  s ∈ PsInputs_extras ps mask <-> exists i, link_iter (ps_inputs ps) !! i = Some s /\ flag mask (Z.shiftl 1 (Z.of_nat i)) = true.
Proof.
  intros E. unfold PsInputs_extras. rewrite E. cbn [negb Z.eqb Pos.eqb]. rewrite list_elem_of_fmap. split.
  - intros ([i s'] & -> & H). apply list_elem_of_filter in H as [Hf H]. exists i. split; [|done].
    apply list_elem_of_lookup in H as [j Hj]. rewrite list_lookup_imap in Hj. apply fmap_Some in Hj as (x & Hx & [= -> ->]). done.
  - intros (i & Hi & Hf). exists (i, s). split; [done|]. apply list_elem_of_filter. split; [done|].
    apply list_elem_of_lookup. exists i. by rewrite list_lookup_imap, Hi.
Qed.

Lemma PsInputs_extras_sublist ps mask : PsInputs_extras ps mask `sublist_of` link_iter (ps_inputs ps).
Proof.
  unfold PsInputs_extras. destruct (negb _); [apply sublist_nil_l|].
  etrans; [apply fmap_sublist, sublist_filter|]. rewrite fmap_imap.
  rewrite (imap_ext _ (λ _ s, s)) by done. replace (imap (λ _ s, s) (link_iter (ps_inputs ps))) with (link_iter (ps_inputs ps)); [done|].
  apply list_eq. intros i. rewrite list_lookup_imap. by destruct (_ !! i).
Qed.

Lemma link_iter_NoDup ps : NoDup (link_iter (ps_inputs ps)).
Proof.
  destruct (decide (DxsoProgram.shader_type ps = Pixel /\ DxsoProgram.major ps = 3)) as [H3|H3];
    [|rewrite ps_inputs_other by done; constructor].
  pose proof (collected_nodup _ _ _ (ps_inputs_collected ps H3)) as Hnd. unfold link_iter.
  apply NoDup_fmap_2_strong; [|done]. intros c c' Hc Hc' E.
  assert (Hback : forall c, c ∈ ps_inputs ps -> code (from_code c) = c).
  { intros x Hx. apply ps_inputs_codes in Hx as (s & Hs & _ & <-). rewrite from_code_code; [done|].
    pose proof (filtered_semantics_wf (λ e, Register.kind (elem_reg e) = Input) ps) as Hw. by eapply Forall_forall in Hs. }
  rewrite <- (Hback c Hc), <- (Hback c' Hc'). by f_equal.
Qed.
