(* ===== verification/ShaderLink.v ===== *)
(** The encoder's side of shader linkage ([encoder.rs], [draw.rs]): which extra
    semantics each registered program reads or writes, and the mask a draw hands
    the pixel variant. *)

From S2P Require Import Prelude BitFields DxsoIr DxsoParser DxsoText DxsoLink.

(** The encoder's maps over registered programs; a [ProgramId] is its raw [u64]. *)
Record Programs := mkPrograms {
  program_cache : gmap Z DxsoProgram.t;
  prog_reads_vpos : gset Z;
  prog_link_inputs : gmap Z LinkInputs;
  prog_link_outputs : gmap Z SemanticSet;
}.

Definition no_programs : Programs := mkPrograms ∅ ∅ ∅ ∅.

Definition set_is_empty (set : SemanticSet) : bool := forallb (λ w, w =? 0) set.

Definition register_program (shader_id : Z) (program : DxsoProgram.t) (e : Programs) : Programs :=
  let inputs := ps_inputs program in
  let outputs := vs_outputs program in
  mkPrograms
    (match program_cache e !! shader_id with Some _ => program_cache e | None => <[shader_id := program]> (program_cache e) end)
    (if reads_vpos program then {[shader_id]} ∪ prog_reads_vpos e else prog_reads_vpos e)
    (if link_is_empty inputs then prog_link_inputs e else <[shader_id := inputs]> (prog_link_inputs e))
    (if set_is_empty outputs then prog_link_outputs e else <[shader_id := outputs]> (prog_link_outputs e)).

(** The vertex stage of a draw: a program, or the fixed function with its
    passthrough list. *)
Inductive VsSource := Programmable (vs_id : Z) | FixedFunction (passthrough : list Z).

Definition linked_input_mask (e : Programs) (ps_id : Z) (vs : VsSource) : Z :=
  let against outputs := from_option (λ inputs, mask_against inputs outputs) 0 (prog_link_inputs e !! ps_id) in
  match vs with
  | Programmable vs_id => match prog_link_outputs e !! vs_id with Some outputs => against outputs | None => 0 end
  | FixedFunction passthrough =>
      if negb (passthrough !!! 0%nat =? 0) then against (passthrough_outputs passthrough) else 0
  end.

(** The variant's byte: read only when the pixel shader's record carries
    [LINKED_INPUTS], which creation set from [ps_inputs]. *)
Definition draw_linked_input_mask (e : Programs) (reads_linked_inputs : bool) (ps_id : Z) (vs : VsSource) : Z :=
  if reads_linked_inputs then linked_input_mask e ps_id vs else 0.

(** [passthrough_extras]: the members a pre-transformed draw's vertex stage declares. *)
Definition passthrough_extras (passthrough : list Z) : list semantic :=
  filter (λ s, is_extra s = true) (passthrough_entries passthrough).

(** ** The maps after any registrations *)

Definition register_all (rs : list (Z * DxsoProgram.t)) : Programs :=
  foldl (λ e '(id, p), register_program id p e) no_programs rs.

(** A program id is a content hash: one id, one program. *)
Definition ids_determine (rs : list (Z * DxsoProgram.t)) : Prop :=
  forall id p p', (id, p) ∈ rs -> (id, p') ∈ rs -> p = p'.

Record maps_of (rs : list (Z * DxsoProgram.t)) (e : Programs) : Prop := {
  maps_cache : forall id p, (id, p) ∈ rs -> program_cache e !! id = Some p;
  maps_inputs : forall id p, (id, p) ∈ rs -> default [] (prog_link_inputs e !! id) = ps_inputs p;
  maps_outputs : forall id p, (id, p) ∈ rs -> default set_empty (prog_link_outputs e !! id) = vs_outputs p;
  maps_known : forall id, is_Some (program_cache e !! id) \/ is_Some (prog_link_inputs e !! id) \/ is_Some (prog_link_outputs e !! id) ->
    exists p, (id, p) ∈ rs;
}.

Lemma set_is_empty_eq (set : SemanticSet) : length set = 4%nat -> set_is_empty set = true -> set = set_empty.
Proof.
  intros Hl H. destruct set as [|a [|b [|c [|d [|]]]]]; try discriminate Hl. unfold set_is_empty in H. cbn in H.
  repeat (apply andb_true_iff in H as [?%Z.eqb_eq H]). by subst.
Qed.

Lemma vs_outputs_length p : length (vs_outputs p) = 4%nat.
Proof.
  destruct (decide (DxsoProgram.shader_type p = Vertex /\ DxsoProgram.major p = 3)) as [H|H].
  - rewrite vs_outputs_set by done. apply set_of_length.
  - by rewrite vs_outputs_other.
Qed.

Lemma register_all_maps rs : ids_determine rs -> maps_of rs (register_all rs).
Proof.
  induction rs as [|[id0 p0] rs IH] using rev_ind; intros Hids.
  { split; [by intros ?? ?%not_elem_of_nil..|]. intros id [[? ?]|[[? ?]|[? ?]]]; done. }
  assert (Hids' : ids_determine rs) by (intros id p p' ? ?; apply (Hids id); apply elem_of_app; by left).
  specialize (IH Hids'). unfold register_all. rewrite foldl_app. cbn [foldl]. set (e := foldl _ no_programs rs) in *.
  change (maps_of rs e) in IH. destruct IH as [Hc Hi Ho Hk].
  assert (Hold : forall id p, (id, p) ∈ rs ++ [(id0, p0)] -> (id = id0 /\ p = p0) \/ (id <> id0 /\ (id, p) ∈ rs)).
  { intros id p Hin. destruct (decide (id = id0)) as [->|Hne]; [left; split; [done|]|right; split; [done|]].
    - apply (Hids id0); [done|]. apply elem_of_app. right. by left.
    - apply elem_of_app in Hin as [?|[= -> ->]%list_elem_of_singleton]; done. }
  assert (Hnew : forall {V} (m : gmap Z V) (v : V) (dflt : V) (keep : bool),
    (keep = true -> v = dflt) ->
    (is_Some (m !! id0) -> default dflt (m !! id0) = v) ->
    default dflt ((if keep then m else <[id0 := v]> m) !! id0) = v).
  { intros V m v dflt keep Hkeep Hsome. destruct keep; [|by rewrite lookup_insert_eq].
    destruct (m !! id0) eqn:E; [by apply Hsome|]. cbn. symmetry. by apply Hkeep. }
  unfold register_program. split; cbn [program_cache prog_link_inputs prog_link_outputs].
  - intros id p [[-> ->]|[Hne Hin]]%Hold.
    + destruct (program_cache e !! id0) as [q|] eqn:E; [|by rewrite lookup_insert_eq].
      destruct (Hk id0) as [q' Hq]; [left; by eexists|]. rewrite (Hc _ _ Hq). f_equal. apply (Hids id0); apply elem_of_app;
        [by left|right; by left].
    + destruct (program_cache e !! id0); [by apply Hc|]. rewrite lookup_insert_ne by done. by apply Hc.
  - intros id p [[-> ->]|[Hne Hin]]%Hold.
    + apply Hnew; [by intros ?%bool_decide_eq_true|]. intros Hs. destruct (Hk id0) as [q Hq]; [by right; left|].
      rewrite (Hi _ _ Hq). f_equal. apply (Hids id0); apply elem_of_app; [by left|right; by left].
    + rewrite <- (Hi id p Hin). destruct (link_is_empty _); [done|]. by rewrite lookup_insert_ne.
  - intros id p [[-> ->]|[Hne Hin]]%Hold.
    + apply Hnew; [apply set_is_empty_eq, vs_outputs_length|]. intros Hs. destruct (Hk id0) as [q Hq]; [by right; right|].
      rewrite (Ho _ _ Hq). f_equal. apply (Hids id0); apply elem_of_app; [by left|right; by left].
    + rewrite <- (Ho id p Hin). destruct (set_is_empty _); [done|]. by rewrite lookup_insert_ne.
  - intros id H. destruct (decide (id = id0)) as [->|Hne].
    { exists p0. apply elem_of_app. right. by left. }
    destruct (Hk id) as [p Hp]; [|exists p; apply elem_of_app; by left].
    destruct (program_cache e !! id0), (link_is_empty _), (set_is_empty _); rewrite ?lookup_insert_ne in H by done; exact H.
Qed.

(** ** The mask of a draw *)

(** The vertex stage of the draw, when its programs are registered: the list whose
    extras it outputs. *)
Definition stage_semantics (rs : list (Z * DxsoProgram.t)) (vs : VsSource) (l : list semantic) : Prop :=
  match vs with
  | Programmable id => exists p, (id, p) ∈ rs /\ vs_outputs p = set_of l
  | FixedFunction codes => l = passthrough_entries codes
  end.

(** The members the vertex stage declares beyond the base set. *)
Definition vertex_members (rs : list (Z * DxsoProgram.t)) (vs : VsSource) (s : semantic) : Prop :=
  match vs with
  | Programmable id => exists p, (id, p) ∈ rs /\ s ∈ VsOutputs_extras p
  | FixedFunction codes => s ∈ passthrough_extras codes
  end.

Lemma from_code_wf c : wf_semantic (from_code c).
Proof. apply (land_ones_range c 4). lia. Qed.

Lemma mask_against_none inputs : mask_against inputs set_empty = 0.
Proof.
  unfold mask_against. assert (Hwf : Forall wf_semantic (link_iter inputs)).
  { apply Forall_fmap, Forall_forall. intros c _. apply from_code_wf. }
  induction (link_iter inputs) as [|s l IH] using rev_ind; [done|]. apply Forall_app in Hwf as [Hl Hs].
  apply Forall_inv in Hs. rewrite imap_snoc, foldl_app. cbn [foldl]. rewrite (IH Hl).
  destruct (set_contains set_empty s) eqn:E; [|done]. change set_empty with (set_of []) in E.
  apply set_of_contains in E as [E _]; [by apply not_elem_of_nil in E|constructor|done].
Qed.

Lemma passthrough_head codes : codes !!! 0%nat = 0 -> passthrough_entries codes = [].
Proof. destruct codes as [|c codes]; [done|]. cbn. by intros ->. Qed.

(** Whatever the caches left out, the draw's mask is the inputs against the vertex
    stage's outputs. *)
Lemma draw_mask_eq rs ps_id ps vs l :
  ids_determine rs -> (ps_id, ps) ∈ rs -> stage_semantics rs vs l ->
  draw_linked_input_mask (register_all rs) (negb (link_is_empty (ps_inputs ps))) ps_id vs = mask_against (ps_inputs ps) (set_of l).
Proof.
  intros Hids Hps Hvs. pose proof (register_all_maps rs Hids) as [_ Hi Ho _]. unfold draw_linked_input_mask.
  destruct (bool_decide_reflect (ps_inputs ps = [])) as [En|En]; unfold link_is_empty.
  { rewrite En, bool_decide_true by done. done. }
  rewrite bool_decide_false by done. cbn [negb]. specialize (Hi _ _ Hps). unfold linked_input_mask.
  assert (Hin : prog_link_inputs (register_all rs) !! ps_id = Some (ps_inputs ps)).
  { destruct (prog_link_inputs _ !! ps_id) as [x|]; cbn in Hi; congruence. }
  rewrite Hin. cbn [from_option]. destruct vs as [id|codes]; cbn [stage_semantics] in Hvs.
  - destruct Hvs as (p & Hp & El). specialize (Ho _ _ Hp). destruct (prog_link_outputs _ !! id) as [x|]; cbn in Ho.
    + congruence.
    + by rewrite <- El, <- Ho, mask_against_none.
  - subst l. destruct (Z.eqb_spec (codes !!! 0%nat) 0) as [E|E]; cbn [negb]; [|done].
    rewrite passthrough_head by done. symmetry. apply mask_against_none.
Qed.

Lemma passthrough_entries_wf codes : Forall wf_semantic (passthrough_entries codes).
Proof.
  induction codes as [|c codes IH]; [constructor|]. cbn. destruct (c =? 0); [constructor|]. constructor; [apply from_code_wf|done].
Qed.

(** What the pixel stage reads for a semantic outside the base set, and inside it. *)
Lemma ps_read_extra ps mask s : is_extra s = true ->
  ps_read ps mask s = match link_position (ps_inputs ps) s with
                      | Some i => if flag mask (Z.shiftl 1 (Z.of_nat i)) then Some s else None
                      | None => None
                      end.
Proof. destruct s as [u i]. intros Hx. unfold ps_read. rewrite Hx. by destruct u, i. Qed.

Lemma ps_read_base ps mask s s' : is_extra s = false -> ps_read ps mask s = Some s' -> s' = s.
Proof. destruct s as [u i]. intros Hx. unfold ps_read. rewrite Hx. destruct u, i; cbn; congruence. Qed.

(** The extras of a vertex stage are the extras of one list of semantics. *)
Lemma stage_semantics_exist rs vs :
  (forall id, vs = Programmable id -> exists p, (id, p) ∈ rs) -> ids_determine rs ->
  exists l, stage_semantics rs vs l /\ Forall wf_semantic l
  /\ forall s, vertex_members rs vs s <-> s ∈ l /\ is_extra s = true.
Proof.
  intros Hreg Hids. destruct vs as [id|codes]; cbn [stage_semantics vertex_members].
  - destruct (Hreg id eq_refl) as [p Hp].
    assert (H : exists l, vs_outputs p = set_of l /\ Forall wf_semantic l).
    { destruct (decide (DxsoProgram.shader_type p = Vertex /\ DxsoProgram.major p = 3)) as [H|H].
      - exists (output_semantics p). split; [by apply vs_outputs_set|]. apply filtered_semantics_wf.
      - exists []. split; [by apply vs_outputs_other|constructor]. }
    destruct H as (l & El & Hl). exists l. split; [by exists p|]. split; [done|]. intros s.
    rewrite <- (set_of_iter l s Hl), <- El. split; [|by exists p].
    intros (p' & Hp' & Hs). by rewrite (Hids id p p' Hp Hp').
  - exists (passthrough_entries codes). split; [done|]. split; [apply passthrough_entries_wf|]. intros s.
    unfold passthrough_extras. rewrite list_elem_of_filter. tauto.
Qed.

(** C20: a draw links its two stages by semantic: the mask fits its byte; the pixel
    stage declares no member twice and only members the vertex stage declares, so
    Metal takes the pair; every member it reads outside the base set is one it declares; and
    of the first eight extra inputs each the vertex stage writes is read from it
    and each it does not write reads zero, as does every one behind eight others. *)
Theorem draw_links rs ps_id ps vs :
  ids_determine rs -> (ps_id, ps) ∈ rs -> is_sm3 Pixel ps -> (forall id, vs = Programmable id -> exists p, (id, p) ∈ rs) ->
  let mask := draw_linked_input_mask (register_all rs) (negb (link_is_empty (ps_inputs ps))) ps_id vs in
  0 <= mask < 256
  /\ NoDup (PsInputs_extras ps mask)
  /\ (forall s, s ∈ PsInputs_extras ps mask -> vertex_members rs vs s)
  /\ (forall s s', s ∈ input_semantics ps -> ps_read ps mask s = Some s' -> s' = s /\ (is_extra s = true -> s ∈ PsInputs_extras ps mask))
  /\ (forall s, s ∈ input_semantics ps -> is_extra s = true ->
        if decide (code s ∈ ps_inputs ps)
        then (vertex_members rs vs s -> ps_read ps mask s = Some s) /\ (~ vertex_members rs vs s -> ps_read ps mask s = None)
        else length (ps_inputs ps) = MAX_LINKED_INPUTS /\ ps_read ps mask s = None).
Proof.
  intros Hids Hps H3 Hreg mask. destruct (stage_semantics_exist rs vs Hreg Hids) as (l & Hl & Hwf & Hmem).
  assert (Em : mask = mask_against (ps_inputs ps) (set_of l)) by by apply draw_mask_eq.
  pose proof (ps_inputs_collected ps H3) as Hcol. pose proof (proj2 H3) as Hmajor.
  assert (Hsem : forall i s, link_iter (ps_inputs ps) !! i = Some s -> wf_semantic s /\ is_extra s = true).
  { intros i s Hi. apply list_elem_of_lookup_2, list_elem_of_fmap in Hi as (c & -> & Hc).
    destruct (ps_inputs_codes ps c Hc) as (s' & Hs' & Hx & <-).
    assert (wf_semantic s') by (pose proof (filtered_semantics_wf (λ e, Register.kind (elem_reg e) = Input) ps) as Hw;
      by eapply Forall_forall in Hs'). by rewrite from_code_code. }
  assert (Hbit : forall i s, link_iter (ps_inputs ps) !! i = Some s ->
    flag mask (Z.shiftl 1 (Z.of_nat i)) = true <-> vertex_members rs vs s).
  { intros i s Hi. rewrite Em, mask_flag, Hi. cbn [from_option]. destruct (Hsem i s Hi).
    rewrite set_of_contains, Hmem by done. done. }
  assert (Hextra : forall s, s ∈ PsInputs_extras ps mask -> vertex_members rs vs s).
  { intros s (i & Hi & Hf)%PsInputs_extras_elem; [|done]. by apply (Hbit i s Hi). }
  assert (Hpos : forall s i, link_position (ps_inputs ps) s = Some i -> wf_semantic s -> link_iter (ps_inputs ps) !! i = Some s).
  { intros s i Hi Hs. apply link_position_Some in Hi. unfold link_iter. rewrite list_lookup_fmap, Hi. cbn. by rewrite from_code_code. }
  split; [rewrite Em; by apply mask_range, (collected_length _ _ _ Hcol)|].
  split; [eapply sublist_NoDup; [apply link_iter_NoDup|apply PsInputs_extras_sublist]|]. split; [exact Hextra|].
  assert (Hw : forall s, s ∈ input_semantics ps -> wf_semantic s).
  { intros s Hs. pose proof (filtered_semantics_wf (λ e, Register.kind (elem_reg e) = Input) ps) as Hw. by eapply Forall_forall in Hs. }
  split.
  - intros s s' Hs Hr. destruct (is_extra s) eqn:Ex; [|split; [by eapply ps_read_base|done]].
    rewrite ps_read_extra in Hr by done. destruct (link_position _ s) as [i|] eqn:Ei; [|done].
    destruct (flag mask _) eqn:Ef; [|done]. injection Hr as <-. split; [done|]. intros _.
    apply PsInputs_extras_elem; [done|]. exists i. split; [by apply Hpos, Hw|done].
  - intros s Hs Hx. rewrite ps_read_extra by done. destruct (decide (code s ∈ ps_inputs ps)) as [Hin|Hin].
    + apply link_position_is_Some in Hin as [i Hi]. rewrite Hi. pose proof (Hbit i s (Hpos s i Hi (Hw s Hs))) as Hb.
      destruct (flag mask _); split; intros Hv; [done|exfalso; by apply Hv, Hb|by apply Hb in Hv|done].
    + split.
      * destruct (decide (length (ps_inputs ps) = MAX_LINKED_INPUTS)) as [|Hne]; [done|]. destruct Hin.
        pose proof (collected_length _ _ _ Hcol). apply list_elem_of_fmap in Hs as (e & -> & He).
        apply (collected_all _ _ _ Hcol); [lia|done|done].
      * rewrite <- link_position_is_Some in Hin. destruct (link_position _ s); [by destruct Hin|done].
Qed.

(** ** Witness

    A vertex shader writing [NORMAL0] and [TANGENT0] and a pixel shader reading
    [NORMAL0], [BINORMAL0] and a texture coordinate. *)

Definition sample_program (ty : ShaderType) (ds : list Declaration) : DxsoProgram.t :=
  DxsoProgram.mk [] ty 3 0 ds [] [] [] [] ∅.
Definition sample_vs : DxsoProgram.t :=
  sample_program Vertex [Semantic Position 0 (Register.mk Output 0) 0xF; Semantic Normal 0 (Register.mk Output 1) 0x7;
                         Semantic Tangent 0 (Register.mk Output 2) 0x7].
Definition sample_ps : DxsoProgram.t :=
  sample_program Pixel [Semantic Binormal 0 (Register.mk Input 0) 0x7; Semantic Normal 0 (Register.mk Input 1) 0x7;
                        Semantic Texcoord 0 (Register.mk Input 2) 0x3].

Lemma draw_links_witness :
  let rs := [(1, sample_vs); (2, sample_ps)] in
  let mask := draw_linked_input_mask (register_all rs) (negb (link_is_empty (ps_inputs sample_ps))) 2 (Programmable 1) in
  mask = 2 /\ PsInputs_extras sample_ps mask = [mkSemantic Normal 0] /\ vertex_members rs (Programmable 1) (mkSemantic Normal 0).
Proof.
  intros rs mask. assert (Em : mask = 2) by (vm_compute; reflexivity). split; [exact Em|].
  assert (Ee : PsInputs_extras sample_ps mask = [mkSemantic Normal 0]) by (rewrite Em; vm_compute; reflexivity).
  split; [exact Ee|].
  destruct (draw_links rs 2 sample_ps (Programmable 1)) as (_ & _ & Hsub & _).
  - intros id p p' [[= -> ->]|[[= -> ->]|[]%not_elem_of_nil]%elem_of_cons]%elem_of_cons
      [[= ->]|[[= ->]|[]%not_elem_of_nil]%elem_of_cons]%elem_of_cons; done.
  - right. by left.
  - done.
  - intros id [= <-]. exists sample_vs. by left.
  - apply Hsub. change (mkSemantic Normal 0 ∈ PsInputs_extras sample_ps mask). rewrite Ee. by left.
Defined.
