(* ===== verification/ShaderCreate.v ===== *)
(** [shader_create.rs]: validation of a token stream and the metadata the API side
    keeps of it.  [ProgramId::from_tokens] is an xxh3 hash of the tokens, a
    parameter here; [ShaderStage] and [ShaderType] are one type. *)

From S2P Require Import Prelude BitFields DxsoIr DxsoParser DxsoText DxsoRoundTrip DxsoLink.

Inductive ShaderCreateError := Parse (e : DxsoError) | WrongStage | InvalidPixelInput | ConstantRegisterLimit.

Record ShaderUsage := mkShaderUsage {
  RELATIVE_CONST : bool; INT_CONST : bool; BOOL_CONST : bool; BUMP_ENV : bool; AUTOMATIC_FOG : bool; LINKED_INPUTS : bool;
}.

Record ShaderInputSemantic := mkInputSemantic { input_usage : DeclUsage; input_usage_index : Z; input_register_index : Z }.

Module ParsedShader.
Record t := mk {
  program : DxsoProgram.t; id : Z; max_const_used : Z; usage : ShaderUsage; color_out_mask : Z;
  input_semantics : list ShaderInputSemantic;
}.
End ParsedShader.

(** The loop over the declarations of a vertex shader; a usage index past [u8] is
    the [expect] failing. *)
Fixpoint vertex_semantics (ds : list Declaration) : result ShaderCreateError (list ShaderInputSemantic) :=
  match ds with
  | [] => mret []
  | Semantic usage usage_index reg _ :: ds =>
      if decide (Register.kind reg = Input) then
        if (0 <=? usage_index) && (usage_index <? 256) then
          rest ← vertex_semantics ds;
          mret (mkInputSemantic usage usage_index (Register.index reg) :: rest)
        else Panic
      else vertex_semantics ds
  | SamplerDecl _ _ :: ds => vertex_semantics ds
  end.

Definition parse_shader (from_tokens : list Z -> Z) (stage : ShaderType) (tokens : list Z)
    : result ShaderCreateError ParsedShader.t :=
  program ← map_err Parse (parse tokens);
  if negb (bool_decide (DxsoProgram.shader_type program = stage)) then Err WrongStage
  else if bool_decide (stage = Pixel) && has_invalid_pixel_input_decl program then Err InvalidPixelInput
  else if violates_constant_register_limits program then Err ConstantRegisterLimit
  else
    let max_const_used := from_option (λ m, m + 1) 0 (max_const_reg program) in
    let usage fog bump linked :=
      mkShaderUsage (uses_relative_const_addressing program) (uses_dynamic_int_constants program)
        (uses_dynamic_bool_constants program) bump fog linked in
    match stage with
    | Vertex =>
        semantics ← vertex_semantics (DxsoProgram.declarations program);
        mret (ParsedShader.mk program (from_tokens tokens) max_const_used (usage false false false) 0 semantics)
    | Pixel =>
        mret (ParsedShader.mk program (from_tokens tokens) max_const_used
                (usage (DxsoProgram.major program <? 3) (uses_bump_env program) (negb (link_is_empty (ps_inputs program))))
                (color_out_mask program) [])
    end.

(** ** Maxima *)

Lemma iter_max_spec l :
  match iter_max l with
  | Some m => m ∈ l /\ forall x, x ∈ l -> x <= m
  | None => l = []
  end.
Proof.
  unfold iter_max. induction l as [|x l IH] using rev_ind; [done|]. rewrite foldl_app. cbn [foldl].
  destruct (foldl max_with None l) as [m|]; cbn [max_with from_option].
  - destruct IH as [Hm Hall]. split.
    + apply elem_of_app. destruct (Z.max_spec x m) as [[? ->]|[? ->]]; [by left|right; by left].
    + intros y [Hy| ->%list_elem_of_singleton]%elem_of_app; [specialize (Hall y Hy); lia|lia].
  - subst l. split; [by left|]. intros y ->%list_elem_of_singleton. lia.
Qed.

Lemma iter_max_ge l x : x ∈ l -> exists m, iter_max l = Some m /\ x <= m.
Proof.
  intros Hx. pose proof (iter_max_spec l) as H. destruct (iter_max l) as [m|]; [exists m; by split; [|apply H]|].
  subst l. by apply not_elem_of_nil in Hx.
Qed.

Lemma foldl_max_bind {A} (f : A -> list Z) l acc :
  foldl max_with acc (l ≫= f) = foldl (λ acc x, foldl max_with acc (f x)) acc l.
Proof. revert acc. induction l as [|x l IH]; intros acc; [done|]. cbn [mbind list_bind foldl]. by rewrite foldl_app, IH. Qed.

(** ** The constant rows an instruction reads *)

(** The rows a source of an instruction spans. *)
Definition src_span (inst : Instruction.t) (i : nat) : Z :=
  let '(mat_src_idx, mat_rows) := matrix_rows (Instruction.opcode inst) in if decide (mat_src_idx = Some i) then mat_rows else 1.

(** A plain read of a row a [def] supplies. *)
Definition supplied (defined : list Z) (inst : Instruction.t) (i : nat) (src : SrcOperand.t) : bool :=
  (src_span inst i =? 1) && bool_decide (SrcOperand.rel_addr src = None) && bool_decide (Register.index (SrcOperand.reg src) ∈ defined).

(** The last rows of the sources that come out of the uniform buffer. *)
Definition const_tops (defined : list Z) (inst : Instruction.t) : list Z :=
  '(i, src) ← imap pair (Instruction.srcs inst);
  if negb (bool_decide (Register.kind (SrcOperand.reg src) = Const)) || supplied defined inst i src then []
  else [wrap16 (wrap16 (Register.index (SrcOperand.reg src) + src_span inst i) - 1)].

Lemma const_reg_inst_tops defined max inst :
  const_reg_inst defined max inst = foldl max_with max (const_tops defined inst).
Proof.
  unfold const_tops. rewrite foldl_max_bind. unfold const_reg_inst, supplied, src_span.
  destruct (matrix_rows (Instruction.opcode inst)) as [mi mr].
  revert max. induction (imap pair (Instruction.srcs inst)) as [|[i src] l IH]; intros max; [done|]. cbn [foldl]. rewrite <- IH. f_equal.
  unfold const_reg_step. destruct (bool_decide (_ = Const)); [|done]. cbn [negb orb]. by destruct (_ && _ && _).
Qed.

Lemma max_const_reg_tops p :
  max_const_reg p
  = iter_max (all_instructions p ≫= const_tops ((λ d, Register.index (Def.reg d)) <$> DxsoProgram.def_constants p)).
Proof.
  unfold max_const_reg, iter_max. rewrite foldl_max_bind. generalize (@None Z).
  induction (all_instructions p) as [|inst l IH]; intros acc; [done|]. cbn [foldl]. by rewrite const_reg_inst_tops.
Qed.

(** ** The instructions of a text's program *)

Lemma placed_items cur items w i : (w, i) ∈ placed cur items -> TInst i ∈ items.
Proof.
  revert cur. induction items as [|it items IH]; intros cur H; [by apply not_elem_of_nil in H|].
  destruct it; cbn [placed] in H; try (right; by eapply IH).
  apply elem_of_cons in H as [[= -> ->]|H]; [by left|right; by eapply IH].
Qed.

Lemma all_instructions_items bc ty major minor items i :
  i ∈ all_instructions (program_of bc ty major minor items) -> TInst i ∈ items.
Proof.
  assert (Hbody : forall w, i ∈ body_of None w items -> TInst i ∈ items).
  { intros w ([w' i'] & -> & H)%list_elem_of_fmap. apply list_elem_of_filter in H as [_ H]. by eapply placed_items. }
  unfold all_instructions. cbn [program_of DxsoProgram.instructions DxsoProgram.subroutines].
  intros [H|H]%elem_of_app; [by eapply Hbody|]. apply list_elem_of_In, in_concat in H as (b & Hb & Hi).
  apply list_elem_of_In, list_elem_of_fmap in Hb as ([l b'] & -> & Hb). apply elem_of_map_to_list, lookup_set_to_map in Hb as (l' & _ & [= -> <-]); [|done].
  apply list_elem_of_In in Hi. by eapply Hbody.
Qed.

(** Every source of a parsed program names a register of eleven bits. *)
Lemma typed_sources bc ty major minor items inst src :
  Forall (wf_item major) items -> inst ∈ all_instructions (program_of bc ty major minor items) -> src ∈ Instruction.srcs inst ->
  wf_register (SrcOperand.reg src).
Proof.
  intros Hwf Hi Hs. apply all_instructions_items in Hi. rewrite Forall_forall in Hwf. pose proof (wf_srcs_ok _ _ (Hwf _ Hi)) as H.
  rewrite Forall_forall in H. by destruct (H src Hs).
Qed.

Lemma omap_length {A B} (f : A -> option B) l : (length (omap f l) <= length l)%nat.
Proof. induction l as [|x l IH]; [done|]. cbn. destruct (f x); cbn; lia. Qed.

(** ** The vertex inputs *)

Lemma vertex_semantics_answers ds :
  Forall wf_declaration ds -> exists l, vertex_semantics ds = Ok l /\ (length l <= length ds)%nat.
Proof.
  induction 1 as [|d ds Hd _ (l & IH & Hl)]; [by exists []|]. destruct d as [u i reg m|ty reg]; cbn [vertex_semantics length].
  - destruct (decide (Register.kind reg = Input)); [|exists l; split; [done|lia]].
    destruct Hd as (Hi & _). rewrite (proj2 (Z.leb_le _ _)), (proj2 (Z.ltb_lt _ _)) by lia. cbn [andb]. rewrite IH.
    eexists. split; [done|]. cbn. lia.
  - exists l. split; [done|lia].
Qed.

Lemma dcls_wf major items : Forall (wf_item major) items -> Forall wf_declaration (dcls items).
Proof.
  intros Hwf. apply Forall_forall. intros d (it & Hit & Hd)%list_elem_of_omap. rewrite Forall_forall in Hwf. specialize (Hwf it Hit).
  destruct it; try done. by injection Hd as <-.
Qed.

(** ** What an accepted shader may read *)

(** The facts creation promises of a shader it accepts. *)
Record created_bounds (stage : ShaderType) (tokens : list Z) (s : ParsedShader.t) : Prop := {
  created_stage : DxsoProgram.shader_type (ParsedShader.program s) = stage;
  (* every row a source names, at the index of its token, is uploaded, or is [def]'d *)
  created_rows : forall inst i src row,
    inst ∈ all_instructions (ParsedShader.program s) -> Instruction.srcs inst !! i = Some src ->
    Register.kind (SrcOperand.reg src) = Const ->
    Register.index (SrcOperand.reg src) <= row < Register.index (SrcOperand.reg src) + src_span inst i ->
    row < ParsedShader.max_const_used s
    \/ (SrcOperand.rel_addr src = None
        /\ exists d, d ∈ DxsoProgram.def_constants (ParsedShader.program s) /\ Register.index (Def.reg d) = row);
  created_limit : 0 <= ParsedShader.max_const_used s <= float_limit (ParsedShader.program s)
                  /\ float_limit (ParsedShader.program s) <= 256;
  created_relative : RELATIVE_CONST (ParsedShader.usage s) = false ->
    forall inst src, inst ∈ all_instructions (ParsedShader.program s) -> src ∈ Instruction.srcs inst ->
    Register.kind (SrcOperand.reg src) = Const -> SrcOperand.rel_addr src = None;
  created_int_bool : forall inst src,
    inst ∈ all_instructions (ParsedShader.program s) -> src ∈ Instruction.srcs inst ->
    Register.kind (SrcOperand.reg src) = ConstInt \/ Register.kind (SrcOperand.reg src) = ConstBool ->
    Register.index (SrcOperand.reg src) < int_bool_limit (ParsedShader.program s) <= 16;
  created_semantics : (length (ParsedShader.input_semantics s) <= length tokens)%nat;
}.

Lemma src_span_range inst i : 1 <= src_span inst i <= 4.
Proof. unfold src_span. destruct (matrix_rows (Instruction.opcode inst)) as [mi mr] eqn:E. destruct (Instruction.opcode inst);
  injection E as <- <-; destruct (decide _); lia. Qed.

Lemma rows_covered p inst i src row :
  (forall inst src, inst ∈ all_instructions p -> src ∈ Instruction.srcs inst -> wf_register (SrcOperand.reg src)) ->
  inst ∈ all_instructions p -> Instruction.srcs inst !! i = Some src -> Register.kind (SrcOperand.reg src) = Const ->
  Register.index (SrcOperand.reg src) <= row < Register.index (SrcOperand.reg src) + src_span inst i ->
  row < from_option (λ m, m + 1) 0 (max_const_reg p)
  \/ (SrcOperand.rel_addr src = None /\ exists d, d ∈ DxsoProgram.def_constants p /\ Register.index (Def.reg d) = row).
Proof.
  intros Hwf Hi Hs Hk Hrow. set (defined := (λ d, Register.index (Def.reg d)) <$> DxsoProgram.def_constants p).
  destruct (supplied defined inst i src) eqn:Esup.
  - right. unfold supplied in Esup. apply andb_true_iff in Esup as [[H1 H2]%andb_true_iff H3]. apply Z.eqb_eq in H1.
    apply bool_decide_eq_true in H2, H3. split; [done|]. apply list_elem_of_fmap in H3 as (d & E & Hd). exists d. split; [done|lia].
  - left. destruct (iter_max_ge (all_instructions p ≫= const_tops defined) (Register.index (SrcOperand.reg src) + src_span inst i - 1))
      as (m & Hm & Hle).
    + apply list_elem_of_bind. exists inst. split; [|done]. unfold const_tops. apply list_elem_of_bind. exists (i, src). split.
      * rewrite Esup, bool_decide_true by done. cbn [negb orb]. apply list_elem_of_singleton.
        assert (Hr : wf_register (SrcOperand.reg src)) by (eapply Hwf; [done|by eapply list_elem_of_lookup_2]).
        unfold wf_register in Hr. pose proof (src_span_range inst i). unfold wrap16.
        rewrite (Z.mod_small (_ + _)), Z.mod_small by lia. lia.
      * apply list_elem_of_lookup. exists i. by rewrite list_lookup_imap, Hs.
    + rewrite max_const_reg_tops. fold defined. rewrite Hm. cbn [from_option]. lia.
Qed.

Lemma file_index_le p kind inst src :
  kind = ConstInt \/ kind = ConstBool -> inst ∈ all_instructions p -> src ∈ Instruction.srcs inst ->
  Register.kind (SrcOperand.reg src) = kind -> exists m, max_const_index p kind = Some m /\ Register.index (SrcOperand.reg src) <= m.
Proof.
  intros Hkind Hi Hs Hk. unfold max_const_index.
  set (reads := (i ← all_instructions p; s ← Instruction.srcs i; if decide _ then _ else [])).
  destruct (iter_max_ge reads (Register.index (SrcOperand.reg src))) as (m & Hm & Hle).
  { apply list_elem_of_bind. exists inst. split; [|done]. apply list_elem_of_bind. exists src. split; [|done].
    rewrite decide_True by done. by left. }
  set (def_max := match kind with ConstInt => _ | ConstBool => _ | _ => _ end).
  destruct (iter_max_ge (option_list (iter_max reads) ++ option_list def_max) m) as (m' & Hm' & Hle').
  { apply elem_of_app. left. rewrite Hm. by left. }
  exists m'. split; [done|lia].
Qed.

Lemma accepted_limits p : violates_constant_register_limits p = false ->
  (forall m, max_const_reg p = Some m -> m < float_limit p)
  /\ (forall kind m, kind = ConstInt \/ kind = ConstBool -> max_const_index p kind = Some m -> m < int_bool_limit p).
Proof.
  unfold violates_constant_register_limits. intros H. apply orb_false_iff in H as [[Hf Hi]%orb_false_iff Hb]. split.
  - intros m Hm. rewrite Hm in Hf.
    destruct (iter_max_ge (option_list (Some m) ++ ((λ d, Register.index (Def.reg d)) <$> DxsoProgram.def_constants p)) m)
      as (m' & Hm' & Hle); [by left|]. rewrite Hm' in Hf. cbn [from_option] in Hf. reflect_cmp. lia.
  - intros kind m [-> | ->] Hm; [rewrite Hm in Hi|rewrite Hm in Hb]; cbn [from_option] in *; by reflect_cmp.
Qed.

Lemma limits_range p : float_limit p <= 256 /\ 0 <= float_limit p /\ int_bool_limit p <= 16.
Proof. unfold float_limit, int_bool_limit. repeat split; repeat case_match; lia. Qed.

Lemma max_const_reg_nonneg p m : max_const_reg p = Some m -> 0 <= m.
Proof.
  intros Hm. rewrite max_const_reg_tops in Hm. pose proof (iter_max_spec (all_instructions p ≫= const_tops
    ((λ d, Register.index (Def.reg d)) <$> DxsoProgram.def_constants p))) as H. rewrite Hm in H. destruct H as [H _].
  apply list_elem_of_bind in H as (inst & H & _). unfold const_tops in H. apply list_elem_of_bind in H as ([i src] & H & _).
  destruct (_ || _); [by apply not_elem_of_nil in H|]. apply list_elem_of_singleton in H as ->.
  apply Z.mod_pos_bound. lia.
Qed.

Lemma relative_flag p inst src :
  uses_relative_const_addressing p = false -> inst ∈ all_instructions p -> src ∈ Instruction.srcs inst ->
  Register.kind (SrcOperand.reg src) = Const -> SrcOperand.rel_addr src = None.
Proof.
  intros Hf Hi Hs Hk. destruct (decide (SrcOperand.rel_addr src = None)) as [|Hne]; [done|]. exfalso.
  apply not_true_iff_false in Hf. apply Hf. apply existsb_exists. exists inst. split; [by apply list_elem_of_In|].
  apply existsb_exists. exists src. split; [by apply list_elem_of_In|]. by rewrite bool_decide_true, bool_decide_false.
Qed.

(** C21: creating a shader never panics, and one it accepts names no constant the
    device does not supply: of the requested stage, every float row a source
    names or a matrix operand spans at the index its token holds is inside the
    uploaded prefix or, addressed directly, supplied by a [def]; the prefix is
    inside the model's register file and the 256-row mirror; integer and boolean
    registers exist in the model; and its input semantics fit the caller's
    buffer of one slot per token.  A relatively addressed source adds an address
    register at run time and may so read past the prefix; only a shader flagged
    [RELATIVE_CONST] has one, and the draws of such a shader upload the whole
    populated prefix instead. *)
Theorem creation_bounds from_tokens stage tokens : Forall is_u32 tokens ->
  match parse_shader from_tokens stage tokens with
  | Ok s => created_bounds stage tokens s
  | Err _ => True
  | Panic | OutOfFuel => False
  end.
Proof.
  intros Hu. pose proof (parse_answers tokens Hu) as H. unfold parse_shader.
  destruct (parse tokens) as [p|e| |]; [|done..]. cbn [map_err mbind result_bind].
  destruct H as (ty & major & minor & items & _ & Hwf & Hlen & Ep).
  destruct (bool_decide_reflect (DxsoProgram.shader_type p = stage)) as [Hst|]; [|done]. cbn [negb].
  destruct (_ && has_invalid_pixel_input_decl p); [done|]. destruct (violates_constant_register_limits p) eqn:Hv; [done|].
  assert (Htyped : forall inst src, inst ∈ all_instructions p -> src ∈ Instruction.srcs inst -> wf_register (SrcOperand.reg src)).
  { subst p. intros inst src. by apply typed_sources. }
  destruct (accepted_limits p Hv) as [Hfl Hib]. destruct (limits_range p) as (Hl1 & Hl2 & Hl3).
  assert (Hb : forall usage mask sems, RELATIVE_CONST usage = uses_relative_const_addressing p -> (length sems <= length tokens)%nat ->
    created_bounds stage tokens (ParsedShader.mk p (from_tokens tokens) (from_option (λ m, m + 1) 0 (max_const_reg p)) usage mask sems)).
  { intros usage mask sems Hrel Hsem. split; cbn [ParsedShader.program ParsedShader.max_const_used ParsedShader.usage ParsedShader.input_semantics].
    - done.
    - intros inst i src row. by apply rows_covered.
    - split; [|done]. destruct (max_const_reg p) as [m|] eqn:Em; cbn [from_option]; [|lia].
      specialize (Hfl m eq_refl). pose proof (max_const_reg_nonneg p m Em). lia.
    - rewrite Hrel. intros Hr inst src. by apply relative_flag.
    - intros inst src Hi Hs Hk. split; [|done].
      destruct (file_index_le p (Register.kind (SrcOperand.reg src)) inst src) as (m & Hm & Hle); [done..|].
      specialize (Hib _ m Hk Hm). lia.
    - done. }
  destruct stage; cbn [mret result_ret mbind result_bind].
  - destruct (vertex_semantics_answers (DxsoProgram.declarations p)) as (l & -> & Hl).
    { subst p. by eapply dcls_wf. }
    cbn [mbind result_bind mret result_ret]. apply Hb; [done|]. etrans; [exact Hl|]. subst p. cbn [program_of DxsoProgram.declarations].
    etrans; [apply omap_length|done].
  - apply Hb; [done|cbn; lia].
Qed.

(** ** Witness

    [vs_2_0 { dcl_position v0; def c4, ..; m4x4 oPos, v0, c0; mov oD0, c4 }]. *)
Lemma creation_bounds_witness :
  let tokens := [0xFFFE0200; 0x0200001F; 0x80000000; 0x900F0000;
                 0x05000051; 0xA00F0004; 0x3F800000; 0; 0; 0x3F800000;
                 0x03000014; 0xC00F0000; 0x90E40000; 0xA0E40000;
                 0x02000001; 0xD00F0000; 0xA0E40004; 0x0000FFFF] in
  exists s, parse_shader (λ _, 0) Vertex tokens = Ok s /\ ParsedShader.max_const_used s = 4
  /\ ParsedShader.input_semantics s = [mkInputSemantic Position 0 0] /\ created_bounds Vertex tokens s.
Proof.
  intros tokens. pose proof (creation_bounds (λ _, 0) Vertex tokens) as H.
  destruct (parse_shader (λ _, 0) Vertex tokens) as [s|e| |] eqn:E; [|exfalso; vm_compute in E; discriminate E..].
  exists s. split; [done|]. assert (Hs : ParsedShader.max_const_used s = 4 /\ ParsedShader.input_semantics s = [mkInputSemantic Position 0 0]).
  { clear H. vm_compute in E. injection E as <-. split; reflexivity. }
  split; [apply Hs|]. split; [apply Hs|]. apply H. apply (bool_decide_unpack _). vm_compute. exact I.
Defined.
