(* ===== verification/PassCommands.v ===== *)
(** [commands.rs] of the shared crate, as the pass list reads it: the render
    command and the blit command, their kinds, the classification of each
    (what draws, what binds a texture, what a blit reads and writes), and the
    texture views that share one storage. *)

From S2P Require Import Prelude.

(** ** Render commands *)

(** [CommandType]; 18 is not used by the source either. *)
Inductive CommandType :=
  | SetRenderPipelineState | SetViewport | SetVertexBytes | DrawPrimitives | SetDepthStencilState
  | SetCullMode | SetFragmentTexture | SetFragmentSamplerState | SetVertexBytesAt | SetFragmentBytesAt
  | SetScissorRect | SetVertexBuffer | DrawIndexedPrimitives | SetVisibilityResultMode | SetBlendColor
  | SetDepthBias | DrawIndexedPrimitivesUp | SetStencilReference | SetFragmentNullTexture
  | SetVertexTexture | SetVertexSamplerState | SetVertexNullTexture | SetFragmentBuffer
  | PushDebugGroup | PopDebugGroup | SetTriangleFillMode.

#[export] Instance CommandType_eq : EqDecision CommandType.
Proof. solve_decision. Defined.

Definition command_code (k : CommandType) : Z :=
  match k with
  | SetRenderPipelineState => 1 | SetViewport => 2 | SetVertexBytes => 3 | DrawPrimitives => 4
  | SetDepthStencilState => 5 | SetCullMode => 6 | SetFragmentTexture => 7
  | SetFragmentSamplerState => 8 | SetVertexBytesAt => 9 | SetFragmentBytesAt => 10
  | SetScissorRect => 11 | SetVertexBuffer => 12 | DrawIndexedPrimitives => 13
  | SetVisibilityResultMode => 14 | SetBlendColor => 15 | SetDepthBias => 16
  | DrawIndexedPrimitivesUp => 17 | SetStencilReference => 19 | SetFragmentNullTexture => 20
  | SetVertexTexture => 21 | SetVertexSamplerState => 22 | SetVertexNullTexture => 23
  | SetFragmentBuffer => 24 | PushDebugGroup => 25 | PopDebugGroup => 26 | SetTriangleFillMode => 27
  end.

Definition all_command_types : list CommandType :=
  [SetRenderPipelineState; SetViewport; SetVertexBytes; DrawPrimitives; SetDepthStencilState;
   SetCullMode; SetFragmentTexture; SetFragmentSamplerState; SetVertexBytesAt; SetFragmentBytesAt;
   SetScissorRect; SetVertexBuffer; DrawIndexedPrimitives; SetVisibilityResultMode; SetBlendColor;
   SetDepthBias; DrawIndexedPrimitivesUp; SetStencilReference; SetFragmentNullTexture;
   SetVertexTexture; SetVertexSamplerState; SetVertexNullTexture; SetFragmentBuffer;
   PushDebugGroup; PopDebugGroup; SetTriangleFillMode].

(** The derived [from_repr]: the kind of a code on the wire, if it is one. *)
Definition command_from_repr (code : Z) : option CommandType :=
  List.find (λ k, command_code k =? code) all_command_types.

Lemma command_from_repr_code k : command_from_repr (command_code k) = Some k.
Proof. destruct k; reflexivity. Qed.

Lemma command_code_from_repr c k : command_from_repr c = Some k -> command_code k = c.
Proof.
  unfold command_from_repr. intros H.
  apply List.find_some in H as [_ H]. by apply Z.eqb_eq in H.
Qed.

Record Command := mkCommand { cmd : Z; param_a : Z; param_b : Z; param_c : Z; param_d : Z }.

#[export] Instance Command_eq : EqDecision Command.
Proof. solve_decision. Defined.

Definition is_draw (c : Command) : bool :=
  (cmd c =? command_code DrawPrimitives) || (cmd c =? command_code DrawIndexedPrimitives)
  || (cmd c =? command_code DrawIndexedPrimitivesUp).

(** [TriangleFillMode::Fill] and [VisibilityResultMode]. *)
Definition TriangleFillMode_Fill : Z := 0.
Definition VisibilityResultMode_Disabled : Z := 0.
Definition VisibilityResultMode_Counting : Z := 2.

Definition set_triangle_fill_mode (mode : Z) : Command :=
  mkCommand (command_code SetTriangleFillMode) mode 0 0 0.
Definition set_visibility_result_mode (mode offset : Z) : Command :=
  mkCommand (command_code SetVisibilityResultMode) mode offset 0 0.
Definition set_stencil_reference (value : Z) : Command :=
  mkCommand (command_code SetStencilReference) value 0 0 0.
(** The channels and the biases are [f32]s, held as their bit patterns. *)
Definition set_blend_color (r g b a : Z) : Command :=
  mkCommand (command_code SetBlendColor) r g b a.
Definition set_depth_bias (bias slope : Z) : Command :=
  mkCommand (command_code SetDepthBias) bias slope 0 0.

(** [Command::set_viewport]: 64-bit parameters, the depth range in the upper
    halves of two of them. *)
Definition set_viewport_command (vp : Z * Z * Z * Z) (min_z max_z : Z) : Command :=
  let '(x, y, w, h) := vp in
  mkCommand (command_code SetViewport) w (Z.lor (Z.shiftl min_z 32) h) (Z.lor (Z.shiftl max_z 32) x) y.

Definition set_render_pipeline_state (pipeline_handle : Z) : Command :=
  mkCommand (command_code SetRenderPipelineState) 0 pipeline_handle 0 0.
Definition set_vertex_bytes (data_ptr data_size buffer_index : Z) : Command :=
  mkCommand (command_code SetVertexBytes) buffer_index data_ptr data_size 0.
Definition draw_primitives (primitive_type vertex_start vertex_count : Z) : Command :=
  mkCommand (command_code DrawPrimitives) primitive_type vertex_start vertex_count 0.
Definition set_depth_stencil_state (state_handle : Z) : Command :=
  mkCommand (command_code SetDepthStencilState) 0 state_handle 0 0.
Definition set_cull_mode (mode : Z) : Command := mkCommand (command_code SetCullMode) mode 0 0 0.
Definition set_fragment_texture (texture_handle index : Z) : Command :=
  mkCommand (command_code SetFragmentTexture) index texture_handle 0 0.
Definition set_vertex_texture (texture_handle index : Z) : Command :=
  mkCommand (command_code SetVertexTexture) index texture_handle 0 0.
Definition set_vertex_sampler_state (sampler_handle index : Z) : Command :=
  mkCommand (command_code SetVertexSamplerState) index sampler_handle 0 0.
Definition set_vertex_null_texture (kind index : Z) : Command :=
  mkCommand (command_code SetVertexNullTexture) index kind 0 0.
Definition set_fragment_sampler_state (sampler_handle index : Z) : Command :=
  mkCommand (command_code SetFragmentSamplerState) index sampler_handle 0 0.
Definition set_fragment_null_texture (kind index : Z) : Command :=
  mkCommand (command_code SetFragmentNullTexture) index kind 0 0.
Definition set_vertex_bytes_at (data_ptr data_size buffer_index : Z) : Command :=
  mkCommand (command_code SetVertexBytesAt) buffer_index data_ptr data_size 0.
Definition set_fragment_bytes_at (data_ptr data_size buffer_index : Z) : Command :=
  mkCommand (command_code SetFragmentBytesAt) buffer_index data_ptr data_size 0.
Definition set_scissor_rect (x y width height : Z) : Command :=
  mkCommand (command_code SetScissorRect) x y (Z.lor (Z.shiftl width 32) height) 0.
Definition set_vertex_buffer (buffer_handle offset buffer_index : Z) : Command :=
  mkCommand (command_code SetVertexBuffer) buffer_index buffer_handle offset 0.
Definition set_fragment_buffer (buffer_handle offset buffer_index : Z) : Command :=
  mkCommand (command_code SetFragmentBuffer) buffer_index buffer_handle offset 0.

(** [i32::cast_unsigned] and [u32::cast_signed]. *)
Definition cast_unsigned (v : Z) : Z := v mod 2 ^ 32.
Definition cast_signed (v : Z) : Z := if v <? 2 ^ 31 then v else v - 2 ^ 32.

(** The counts of an indexed draw in one word; a shift drops what leaves 64 bits. *)
Definition pack_indexed_draw_counts (index_count index_type instance_count : Z) : Z :=
  Z.lor (Z.lor (wrap64 (Z.shiftl instance_count 40)) (Z.shiftl index_count 8)) (Z.land index_type 0xFF).
Definition unpack_indexed_draw_counts (param_d : Z) : Z * Z * Z :=
  (Z.land (Z.shiftr param_d 8) 0xFFFFFFFF, Z.land param_d 0xFF, wrap32 (Z.shiftr param_d 40)).

Definition draw_indexed_primitives (primitive_type index_count index_type index_buffer index_buffer_offset
    base_vertex instance_count : Z) : Command :=
  mkCommand (command_code DrawIndexedPrimitives) primitive_type index_buffer
    (Z.lor (Z.shiftl index_buffer_offset 32) (cast_unsigned base_vertex))
    (pack_indexed_draw_counts index_count index_type instance_count).
Definition draw_indexed_primitives_up (primitive_type index_count index_type index_ptr index_bytes instance_count : Z) : Command :=
  mkCommand (command_code DrawIndexedPrimitivesUp) primitive_type index_ptr index_bytes
    (pack_indexed_draw_counts index_count index_type instance_count).
Definition push_debug_group (draw_index : Z) : Command := mkCommand (command_code PushDebugGroup) draw_index 0 0 0.
Definition pop_debug_group : Command := mkCommand (command_code PopDebugGroup) 0 0 0 0.

Definition same_command (a b : Command) : bool :=
  (cmd a =? cmd b) && (param_a a =? param_a b) && (param_b a =? param_b b)
  && (param_c a =? param_c b) && (param_d a =? param_d b).

Lemma same_command_iff a b : same_command a b = true <-> a = b.
Proof.
  unfold same_command. rewrite !andb_true_iff, !Z.eqb_eq.
  destruct a, b; cbn. naive_solver.
Qed.

(** The texture view a sampler bind reads. *)
Definition command_sampled_texture (c : Command) : option Z :=
  if negb ((cmd c =? command_code SetFragmentTexture) || (cmd c =? command_code SetVertexTexture))
     || (param_b c =? 0)
  then None else Some (param_b c).

(** ** Blit commands *)

Inductive BlitCommandType :=
  | CopyBufferToTexture | CopyTextureToTexture | CopyBufferToBuffer | NotifyBufferDidModifyRange
  | GenerateMipmaps | CopyBufferToDepth | CopyBufferToStencil | TransferDepth.

Definition blit_from_repr (code : Z) : option BlitCommandType :=
  if code =? 1 then Some CopyBufferToTexture else if code =? 2 then Some CopyTextureToTexture
  else if code =? 3 then Some CopyBufferToBuffer else if code =? 4 then Some NotifyBufferDidModifyRange
  else if code =? 5 then Some GenerateMipmaps else if code =? 6 then Some CopyBufferToDepth
  else if code =? 7 then Some CopyBufferToStencil else if code =? 8 then Some TransferDepth else None.

Record BlitCommand := mkBlit {
  b_cmd : Z; mip_level : Z; src_handle : Z; dst_handle : Z; src_offset : Z; bytes_per_row : Z;
  origin_x : Z; origin_y : Z; region_w : Z; region_h : Z; dst_offset : Z; byte_size : Z;
  b_depth : Z; bytes_per_image : Z; dst_mip_level : Z; dst_slice : Z; src_slice : Z }.

(** The texture a blit writes, if it writes one. *)
Definition blit_written_texture (b : BlitCommand) : option Z :=
  let writes_texture :=
    match blit_from_repr (b_cmd b) with
    | Some (CopyBufferToTexture | CopyBufferToDepth | CopyBufferToStencil | TransferDepth
            | CopyTextureToTexture | GenerateMipmaps) | None => true
    | Some (CopyBufferToBuffer | NotifyBufferDidModifyRange) => false
    end in
  if negb writes_texture || (dst_handle b =? 0) then None else Some (dst_handle b).

(** The texture a blit reads, if it reads one. *)
Definition blit_read_texture (b : BlitCommand) : option Z :=
  let handle :=
    match blit_from_repr (b_cmd b) with
    | Some (CopyTextureToTexture | TransferDepth) => src_handle b
    | Some GenerateMipmaps => dst_handle b
    | Some (CopyBufferToTexture | CopyBufferToDepth | CopyBufferToStencil | CopyBufferToBuffer
            | NotifyBufferDidModifyRange) | None => 0
    end in
  if handle =? 0 then None else Some handle.

Definition blit_list_writes (blits : list BlitCommand) (target : Z) : bool :=
  if target =? 0 then false
  else existsb (λ b, bool_decide (blit_written_texture b = Some target)) blits.

(** ** Texture views

    [texture_view_to_base] maps a view to the texture whose storage it shares;
    a texture that is no view stands for itself. *)

  Abbreviation Views := (gmap Z Z).

Definition storage (views : Views) (handle : Z) : Z := default handle (views !! handle).

Definition names (views : Views) (handle target : Z) : bool :=
  (handle =? target) || bool_decide (views !! handle = Some target).

(** [handle_names_texture]. *)
Definition handle_names_texture (raw target : Z) (views : Views) : bool :=
  if (raw =? 0) || (target =? 0) then false else names views raw target.

Lemma storage_names views h t : storage views h = t -> names views h t = true.
Proof.
  unfold storage, names. destruct (views !! h) as [b|] eqn:E; cbn; intros <-.
  - apply orb_true_iff. right. by apply bool_decide_eq_true.
  - by rewrite Z.eqb_refl.
Qed.
