(* ===== verification/MetalReplay.v ===== *)
(** [encode_pass] of [unix/src/metal/command.rs], its command loop: the 32-byte
    commands of a pass read back off the wire as calls on Metal's render
    encoder; with the theorems that every command a constructor of
    [shared/src/commands.rs] packs is read back as the call it names, and that
    the debug groups a pass opens are closed.

    A call is one value of [MetalCall]; an [f32] is its bit pattern, an enum of
    Metal's its wire number, which Metal shares.  [None] is a panic: a wire word
    that does not fit where the loop narrows it. *)

From S2P Require Import Prelude PassCommands BitFields.

Definition SET_BYTES_MAX : Z := 4096.
Definition RING_VERTEX_ALIGN : Z := 256.
Definition RING_INDEX_ALIGN : Z := 16.

(** The methods of [MTLRenderCommandEncoder] the loop calls. *)
Inductive MetalCall :=
  | pushDebugGroup (draw : Z)
  | popDebugGroup
  | setRenderPipelineState (pipeline : Z)
  | setViewport (originX originY width height znear zfar : Z)
  | setVertexBytes (ptr length index : Z)
  | setVertexBuffer (buffer offset index : Z)
  | drawPrimitives (type start count : Z)
  | setDepthStencilState (state : Z)
  | setCullMode (mode : Z)
  | setTriangleFillMode (mode : Z)
  | setDepthBias (bias slope clamp : Z)
  | setFragmentTexture (texture index : Z)
  | setVertexTexture (texture index : Z)
  | setVertexSamplerState (sampler index : Z)
  | setFragmentSamplerState (sampler index : Z)
  | setFragmentBytes (ptr length index : Z)
  | setScissorRect (x y width height : Z)
  | setFragmentBuffer (buffer offset index : Z)
  | drawIndexedPrimitives (type index_count index_type index_buffer offset instance_count base_vertex : Z)
  | setVisibilityResultMode (mode offset : Z)
  | setBlendColor (red green blue alpha : Z)
  | setStencilReferenceValue (value : Z).

(** The decodes of the wire enums, with the fallbacks of an unmapped value. *)
Definition cull_or_none (raw : Z) : Z := if (raw =? 1) || (raw =? 2) then raw else 0.
Definition fill_or_fill (raw : Z) : Z := if raw =? 1 then 1 else 0.
Definition index_type_or_16 (raw : Z) : Z := if raw =? 1 then 1 else 0.
Definition visibility_or_disabled (raw : Z) : Z := if (raw =? 1) || (raw =? 2) then raw else 0.
Definition mtl_primitive_type_or_fallback (raw : Z) : Z := if (0 <=? raw) && (raw <=? 4) then raw else 3.

(** [NullTextures]: the fallback textures and the default sampler, made together. *)
Record NullTextures := mkNull {
  texture_2d : Z; texture_cube : Z; texture_3d : Z; depth_2d : option Z; null_sampler : Z }.

(** [NullTextureKind]: 0 a 2D texture, 1 a cube, 2 a volume, 3 a depth texture. *)
Definition null_kind_from_repr (raw : Z) : option Z := if (0 <=? raw) && (raw <=? 3) then Some raw else None.
Definition null_texture (n : NullTextures) (kind : Z) : Z :=
  if kind =? 0 then texture_2d n else if kind =? 1 then texture_cube n
  else if kind =? 2 then texture_3d n else default (texture_2d n) (depth_2d n).

(** What the loop reads besides the commands: the extent of the render pass and
    the fallbacks, absent when Metal could not make them. *)
Record Ctx := mkCtx { rt_width : Z; rt_height : Z; nulls : option NullTextures }.

(** [MetalHandle::borrow_retained] of a handle that is live unless it is null. *)
Definition borrow (handle : Z) : option Z := if handle =? 0 then None else Some handle.

Definition default_sampler (x : Ctx) : option Z := n ← nulls x; borrow (null_sampler n).
Definition sampler_or_default (x : Ctx) (handle : Z) : option Z :=
  if handle =? 0 then default_sampler x else borrow handle.

(** The texture and the sampler of a null-texture bind. *)
Definition null_binding (x : Ctx) (kind : Z) : option (Z * Z) :=
  n ← nulls x; t ← borrow (null_texture n kind); s ← default_sampler x; Some (t, s).

Definition to_u32 (v : Z) : option Z := if v <=? u32_max then Some v else None.

(** The upload ring as the loop uses it: a payload of so many bytes at an
    address, copied at an alignment, gives a buffer and an offset. *)
Class InlineRing (R : Type) := ring_write : R -> Z -> Z -> Z -> option (Z * Z) * R.

Section Replay.
Context {R : Type} `{!InlineRing R} (x : Ctx).

(** The loop's state: the ring and the debug groups open. *)
Record Loop := mkLoop { ring : R; debug_group_depth : Z }.

Definition skip (l : Loop) : option (list MetalCall * Loop) := Some ([], l).
Definition call (c : MetalCall) (l : Loop) : option (list MetalCall * Loop) := Some ([c], l).
(** A call that needs an object, skipped without it. *)
Definition with_object (o : option Z) (c : Z -> MetalCall) (l : Loop) : option (list MetalCall * Loop) :=
  match o with None => skip l | Some h => call (c h) l end.

(** An indexed draw over a buffer. *)
Definition indexed_call (c : Command) (buffer offset base_vertex : Z) : MetalCall :=
  let '(index_count, index_type_raw, instance_count) := unpack_indexed_draw_counts (param_d c) in
  drawIndexedPrimitives (mtl_primitive_type_or_fallback (param_a c)) index_count (index_type_or_16 index_type_raw)
    buffer offset (Z.max instance_count 1) base_vertex.

(** One turn of the loop: the calls made and the state after. *)
Definition replay_command (c : Command) (l : Loop) : option (list MetalCall * Loop) :=
  match command_from_repr (cmd c) with
  | None => skip l
  | Some PushDebugGroup => Some ([pushDebugGroup (param_a c)], mkLoop (ring l) (debug_group_depth l + 1))
  | Some PopDebugGroup =>
      if 0 <? debug_group_depth l then Some ([popDebugGroup], mkLoop (ring l) (debug_group_depth l - 1)) else skip l
  | Some SetRenderPipelineState => with_object (borrow (param_b c)) setRenderPipelineState l
  | Some SetViewport =>
      vp_y ← to_u32 (param_d c);
      call (setViewport (Z.land (param_c c) 0xFFFFFFFF) vp_y (param_a c) (Z.land (param_b c) 0xFFFFFFFF)
              (Z.shiftr (param_b c) 32) (Z.shiftr (param_c c) 32)) l
  | Some SetVertexBytes =>
      if param_b c =? 0 then skip l
      else if SET_BYTES_MAX <? param_c c then
        match ring_write (ring l) (param_b c) (param_c c) RING_VERTEX_ALIGN with
        | (None, r) => Some ([], mkLoop r (debug_group_depth l))
        | (Some (buffer, offset), r) =>
            Some ([setVertexBuffer buffer offset (param_a c)], mkLoop r (debug_group_depth l))
        end
      else call (setVertexBytes (param_b c) (param_c c) (param_a c)) l
  | Some DrawPrimitives =>
      call (drawPrimitives (mtl_primitive_type_or_fallback (param_a c)) (param_b c) (param_c c)) l
  | Some SetDepthStencilState => with_object (borrow (param_b c)) setDepthStencilState l
  | Some SetCullMode => call (setCullMode (cull_or_none (param_a c))) l
  | Some SetTriangleFillMode => call (setTriangleFillMode (fill_or_fill (param_a c))) l
  | Some SetDepthBias => slope ← to_u32 (param_b c); call (setDepthBias (param_a c) slope 0) l
  | Some SetFragmentTexture => with_object (borrow (param_b c)) (λ t, setFragmentTexture t (param_a c)) l
  | Some SetVertexTexture => with_object (borrow (param_b c)) (λ t, setVertexTexture t (param_a c)) l
  | Some SetVertexSamplerState => with_object (sampler_or_default x (param_b c)) (λ s, setVertexSamplerState s (param_a c)) l
  | Some SetFragmentSamplerState => with_object (sampler_or_default x (param_b c)) (λ s, setFragmentSamplerState s (param_a c)) l
  | Some SetFragmentNullTexture =>
      raw ← to_u32 (param_b c);
      match null_kind_from_repr raw ≫= null_binding x with
      | None => skip l
      | Some (t, s) => Some ([setFragmentTexture t (param_a c); setFragmentSamplerState s (param_a c)], l)
      end
  | Some SetVertexNullTexture =>
      raw ← to_u32 (param_b c);
      match null_kind_from_repr raw ≫= null_binding x with
      | None => skip l
      | Some (t, s) => Some ([setVertexTexture t (param_a c); setVertexSamplerState s (param_a c)], l)
      end
  | Some SetVertexBytesAt =>
      if param_b c =? 0 then skip l else call (setVertexBytes (param_b c) (param_c c) (param_a c)) l
  | Some SetFragmentBytesAt =>
      if param_b c =? 0 then skip l else call (setFragmentBytes (param_b c) (param_c c) (param_a c)) l
  | Some SetScissorRect =>
      let req_width := Z.shiftr (param_c c) 32 in
      let req_height := Z.land (param_c c) 0xFFFFFFFF in
      let left := Z.min (param_a c) (rt_width x) in
      let top := Z.min (param_b c) (rt_height x) in
      call (setScissorRect left top (Z.min req_width (rt_width x - left)) (Z.min req_height (rt_height x - top))) l
  | Some SetVertexBuffer => with_object (borrow (param_b c)) (λ b, setVertexBuffer b (param_c c) (param_a c)) l
  | Some SetFragmentBuffer => with_object (borrow (param_b c)) (λ b, setFragmentBuffer b (param_c c) (param_a c)) l
  | Some DrawIndexedPrimitives =>
      with_object (borrow (param_b c))
        (λ b, indexed_call c b (Z.shiftr (param_c c) 32) (cast_signed (Z.land (param_c c) 0xFFFFFFFF))) l
  | Some DrawIndexedPrimitivesUp =>
      if param_b c =? 0 then skip l
      else match ring_write (ring l) (param_b c) (param_c c) RING_INDEX_ALIGN with
           | (None, r) => Some ([], mkLoop r (debug_group_depth l))
           | (Some (buffer, offset), r) => Some ([indexed_call c buffer offset 0], mkLoop r (debug_group_depth l))
           end
  | Some SetVisibilityResultMode => call (setVisibilityResultMode (visibility_or_disabled (param_a c)) (param_b c)) l
  | Some SetBlendColor =>
      green ← to_u32 (param_b c); blue ← to_u32 (param_c c); alpha ← to_u32 (param_d c);
      call (setBlendColor (param_a c) green blue alpha) l
  | Some SetStencilReference => call (setStencilReferenceValue (param_a c)) l
  end.

Fixpoint replay_commands (cmds : list Command) (l : Loop) : option (list MetalCall * Loop) :=
  match cmds with
  | [] => Some ([], l)
  | c :: cmds => '(now, l) ← replay_command c l; '(later, l) ← replay_commands cmds l; Some (now ++ later, l)
  end.

(** The whole loop: the groups still open are closed behind the last command. *)
Definition encode_commands (cmds : list Command) (r : R) : option (list MetalCall * R) :=
  '(calls, l) ← replay_commands cmds (mkLoop r 0);
  Some (calls ++ replicate (Z.to_nat (debug_group_depth l)) popDebugGroup, ring l).
End Replay.
Arguments Loop : clear implicits.
Arguments mkLoop {_}.
Arguments ring {_}.
Arguments debug_group_depth {_}.

(** ** Commands read back *)

(** The arguments of each constructor of [Command]. *)
Inductive Wire :=
  | WPipeline (pipeline : Z)
  | WViewport (x y width height min_z max_z : Z)
  | WVertexBytes (ptr size index : Z)
  | WDraw (primitive start count : Z)
  | WDepthStencil (state : Z)
  | WFill (mode : Z)
  | WCull (mode : Z)
  | WFragmentTexture (texture index : Z)
  | WVertexTexture (texture index : Z)
  | WVertexSampler (sampler index : Z)
  | WVertexNull (kind index : Z)
  | WFragmentSampler (sampler index : Z)
  | WFragmentNull (kind index : Z)
  | WVertexBytesAt (ptr size index : Z)
  | WFragmentBytesAt (ptr size index : Z)
  | WScissor (x y width height : Z)
  | WVertexBuffer (buffer offset index : Z)
  | WFragmentBuffer (buffer offset index : Z)
  | WDrawIndexed (primitive index_count index_type buffer offset base_vertex instances : Z)
  | WDrawIndexedUp (primitive index_count index_type ptr bytes instances : Z)
  | WVisibility (mode offset : Z)
  | WStencil (value : Z)
  | WPush (draw : Z)
  | WPop
  | WBlend (red green blue alpha : Z)
  | WDepthBias (bias slope : Z).

Definition to_command (w : Wire) : Command :=
  match w with
  | WPipeline p => set_render_pipeline_state p
  | WViewport x y w h n f => set_viewport_command (x, y, w, h) n f
  | WVertexBytes p n i => set_vertex_bytes p n i
  | WDraw t s n => draw_primitives t s n
  | WDepthStencil s => set_depth_stencil_state s
  | WFill m => set_triangle_fill_mode m
  | WCull m => set_cull_mode m
  | WFragmentTexture t i => set_fragment_texture t i
  | WVertexTexture t i => set_vertex_texture t i
  | WVertexSampler s i => set_vertex_sampler_state s i
  | WVertexNull k i => set_vertex_null_texture k i
  | WFragmentSampler s i => set_fragment_sampler_state s i
  | WFragmentNull k i => set_fragment_null_texture k i
  | WVertexBytesAt p n i => set_vertex_bytes_at p n i
  | WFragmentBytesAt p n i => set_fragment_bytes_at p n i
  | WScissor x y w h => set_scissor_rect x y w h
  | WVertexBuffer b o i => set_vertex_buffer b o i
  | WFragmentBuffer b o i => set_fragment_buffer b o i
  | WDrawIndexed p n t b o v i => draw_indexed_primitives p n t b o v i
  | WDrawIndexedUp p n t a k i => draw_indexed_primitives_up p n t a k i
  | WVisibility m o => set_visibility_result_mode m o
  | WStencil v => set_stencil_reference v
  | WPush n => push_debug_group n
  | WPop => pop_debug_group
  | WBlend r g b a => set_blend_color r g b a
  | WDepthBias b s => set_depth_bias b s
  end.

(** The widths of the arguments, and the values of the enums among them. *)
Definition in_range (w : Wire) : Prop :=
  match w with
  | WPipeline p | WDepthStencil p => is_u64 p
  | WViewport x y w h n f => is_u32 x /\ is_u32 y /\ is_u32 w /\ is_u32 h /\ is_u32 n /\ is_u32 f
  | WVertexBytes p n i | WVertexBytesAt p n i | WFragmentBytesAt p n i
  | WVertexBuffer p n i | WFragmentBuffer p n i => is_u64 p /\ is_u32 n /\ is_u32 i
  | WDraw t s n => 0 <= t <= 4 /\ is_u32 s /\ is_u32 n
  | WFill m => 0 <= m <= 1
  | WCull m => 0 <= m <= 2
  | WFragmentTexture t i | WVertexTexture t i | WVertexSampler t i | WFragmentSampler t i => is_u64 t /\ is_u32 i
  | WVertexNull k i | WFragmentNull k i => 0 <= k <= 3 /\ is_u32 i
  | WScissor x y w h => is_u32 x /\ is_u32 y /\ is_u32 w /\ is_u32 h
  | WDrawIndexed p n t b o v i =>
      0 <= p <= 4 /\ is_u32 n /\ 0 <= t <= 1 /\ is_u64 b /\ is_u32 o /\ - 2 ^ 31 <= v < 2 ^ 31 /\ 0 <= i < 2 ^ 24
  | WDrawIndexedUp p n t a k i => 0 <= p <= 4 /\ is_u32 n /\ 0 <= t <= 1 /\ is_u64 a /\ is_u32 k /\ 0 <= i < 2 ^ 24
  | WVisibility m o => 0 <= m <= 2 /\ is_u32 o
  | WStencil v | WPush v => is_u32 v
  | WPop => True
  | WBlend r g b a => is_u32 r /\ is_u32 g /\ is_u32 b /\ is_u32 a
  | WDepthBias b s => is_u32 b /\ is_u32 s
  end.

Section ReadBack.
Context {R : Type} `{!InlineRing R} (x : Ctx).

Definition plain (c : MetalCall) (l : Loop R) : list MetalCall * Loop R := ([c], l).
Definition bound (o : option Z) (c : Z -> MetalCall) (l : Loop R) : list MetalCall * Loop R :=
  match o with None => ([], l) | Some h => ([c h], l) end.
(** Inline data too large for Metal's own inline bytes rides the ring. *)
Definition through_ring (ptr size align : Z) (c : Z -> Z -> MetalCall) (l : Loop R) : list MetalCall * Loop R :=
  match ring_write (ring l) ptr size align with
  | (None, r) => ([], mkLoop r (debug_group_depth l))
  | (Some (b, o), r) => ([c b o], mkLoop r (debug_group_depth l))
  end.

(** What each command asks of Metal, in the arguments it was made of. *)
Definition asked (w : Wire) (l : Loop R) : list MetalCall * Loop R :=
  match w with
  | WPipeline p => bound (borrow p) setRenderPipelineState l
  | WViewport x y w h n f => plain (setViewport x y w h n f) l
  | WVertexBytes p n i =>
      if p =? 0 then ([], l)
      else if n <=? SET_BYTES_MAX then plain (setVertexBytes p n i) l
      else through_ring p n RING_VERTEX_ALIGN (λ b o, setVertexBuffer b o i) l
  | WDraw t s n => plain (drawPrimitives t s n) l
  | WDepthStencil s => bound (borrow s) setDepthStencilState l
  | WFill m => plain (setTriangleFillMode m) l
  | WCull m => plain (setCullMode m) l
  | WFragmentTexture t i => bound (borrow t) (λ t, setFragmentTexture t i) l
  | WVertexTexture t i => bound (borrow t) (λ t, setVertexTexture t i) l
  | WVertexSampler s i => bound (sampler_or_default x s) (λ s, setVertexSamplerState s i) l
  | WVertexNull k i =>
      match null_binding x k with Some (t, s) => ([setVertexTexture t i; setVertexSamplerState s i], l) | None => ([], l) end
  | WFragmentSampler s i => bound (sampler_or_default x s) (λ s, setFragmentSamplerState s i) l
  | WFragmentNull k i =>
      match null_binding x k with Some (t, s) => ([setFragmentTexture t i; setFragmentSamplerState s i], l) | None => ([], l) end
  | WVertexBytesAt p n i => bound (borrow p) (λ p, setVertexBytes p n i) l
  | WFragmentBytesAt p n i => bound (borrow p) (λ p, setFragmentBytes p n i) l
  | WScissor a b w h =>
      let left := Z.min a (rt_width x) in let top := Z.min b (rt_height x) in
      plain (setScissorRect left top (Z.min w (rt_width x - left)) (Z.min h (rt_height x - top))) l
  | WVertexBuffer b o i => bound (borrow b) (λ b, setVertexBuffer b o i) l
  | WFragmentBuffer b o i => bound (borrow b) (λ b, setFragmentBuffer b o i) l
  | WDrawIndexed p n t b o v i => bound (borrow b) (λ b, drawIndexedPrimitives p n t b o (Z.max i 1) v) l
  | WDrawIndexedUp p n t a k i =>
      if a =? 0 then ([], l)
      else through_ring a k RING_INDEX_ALIGN (λ b o, drawIndexedPrimitives p n t b o (Z.max i 1) 0) l
  | WVisibility m o => plain (setVisibilityResultMode m o) l
  | WStencil v => plain (setStencilReferenceValue v) l
  | WPush n => ([pushDebugGroup n], mkLoop (ring l) (debug_group_depth l + 1))
  | WPop => if 0 <? debug_group_depth l then ([popDebugGroup], mkLoop (ring l) (debug_group_depth l - 1)) else ([], l)
  | WBlend r g b a => plain (setBlendColor r g b a) l
  | WDepthBias b s => plain (setDepthBias b s 0) l
  end.

(** Two 32-bit halves of a word, read apart. *)
Lemma halves hi lo : is_u32 hi -> is_u32 lo ->
  Z.land (Z.lor (Z.shiftl hi 32) lo) 0xFFFFFFFF = lo /\ Z.shiftr (Z.lor (Z.shiftl hi 32) lo) 32 = hi.
Proof.
  unfold is_u32, u32_max. intros. rewrite Z.lor_comm, lor_shiftl_add by lia. change 0xFFFFFFFF with (Z.ones 32).
  rewrite Z.land_ones, Z.shiftr_div_pow2 by lia. split; Z.to_euclidean_division_equations; lia.
Qed.

Lemma counts_round_trip n t i : is_u32 n -> 0 <= t <= 1 -> 0 <= i < 2 ^ 24 ->
  unpack_indexed_draw_counts (pack_indexed_draw_counts n t i) = (n, t, i).
Proof.
  unfold is_u32, u32_max. intros Hn Ht Hi. unfold pack_indexed_draw_counts, unpack_indexed_draw_counts.
  assert (E : Z.lor (Z.lor (wrap64 (Z.shiftl i 40)) (Z.shiftl n 8)) (Z.land t 0xFF) = pack [(8, t); (32, n); (24, i)]).
  { rewrite wrap64_small by (unfold is_u64, u64_max; rewrite Z.shiftl_mul_pow2 by lia; lia).
    change 0xFF with (Z.ones 8). rewrite Z.land_ones, Z.mod_small by lia. rewrite (Z.lor_comm (Z.lor _ _)), (Z.lor_comm (Z.shiftl i 40)), Z.lor_assoc.
    rewrite <- (pack_one 8 t) at 1. rewrite (pack_snoc [(8, t)] 32 n 8).
    - cbn [app]. apply (pack_snoc [(8, t); (32, n)] 24 i 40); [|split; cbn [fst snd]; lia|done].
      repeat (apply Forall_cons_2); try apply Forall_nil_2; split; cbn [fst snd]; lia.
    - apply Forall_cons_2; [split; cbn [fst snd]; lia|apply Forall_nil_2].
    - split; cbn [fst snd]; lia.
    - done. }
  assert (F : Forall fits [(8, t); (32, n); (24, i)]) by (repeat (apply Forall_cons_2); try apply Forall_nil_2; split; cbn [fst snd]; lia).
  rewrite E. inversion F as [|? ? F1 F']; inversion F' as [|? ? F2 F'']; inversion F'' as [|? ? F3 _]; subst. f_equal; [f_equal|].
  - by apply (pack_field [(8, t)] 32 n [(24, i)] 8 _); [by apply Forall_singleton|..].
  - pose proof (pack_field [] 8 t [(32, n); (24, i)] 0 0xFF) as P. rewrite Z.shiftr_0_r in P. apply P; [apply Forall_nil_2|done..].
  - assert (Z.shiftr (pack [(8, t); (32, n); (24, i)]) 40 = i) as ->.
    { change 40 with (total_width [(8, t); (32, n)]). change [(8, t); (32, n); (24, i)] with ([(8, t); (32, n)] ++ [(24, i)]).
      rewrite shiftr_pack by (apply Forall_cons_2; [done|]; by apply Forall_singleton). apply pack_one. }
    apply wrap32_small. unfold is_u32, u32_max. lia.
Qed.

Lemma cast_round_trip v : - 2 ^ 31 <= v < 2 ^ 31 -> is_u32 (cast_unsigned v) /\ cast_signed (cast_unsigned v) = v.
Proof.
  intros. unfold cast_unsigned, cast_signed, is_u32, u32_max. split; [|destruct (_ <? _) eqn:E; reflect_cmp];
    Z.to_euclidean_division_equations; lia.
Qed.

Lemma to_u32_small v : is_u32 v -> to_u32 v = Some v.
Proof. unfold is_u32, to_u32. intros. destruct (_ <=? _) eqn:E; reflect_cmp; [done|lia]. Qed.

Lemma primitive_in_range t : 0 <= t <= 4 -> mtl_primitive_type_or_fallback t = t.
Proof. intros. unfold mtl_primitive_type_or_fallback. destruct (_ && _) eqn:E; [done|]. apply andb_false_iff in E as []; reflect_cmp; lia. Qed.

Lemma null_kind_in_range k : 0 <= k <= 3 -> null_kind_from_repr k = Some k.
Proof. intros. unfold null_kind_from_repr. destruct (_ && _) eqn:E; [done|]. apply andb_false_iff in E as []; reflect_cmp; lia. Qed.

Lemma cull_in_range m : 0 <= m <= 2 -> cull_or_none m = m.
Proof. intros. unfold cull_or_none. destruct (m =? 1) eqn:E1, (m =? 2) eqn:E2; reflect_cmp; cbn; lia. Qed.
Lemma visibility_in_range m : 0 <= m <= 2 -> visibility_or_disabled m = m.
Proof. intros. unfold visibility_or_disabled. destruct (m =? 1) eqn:E1, (m =? 2) eqn:E2; reflect_cmp; cbn; lia. Qed.
Lemma two_in_range m : 0 <= m <= 1 -> fill_or_fill m = m /\ index_type_or_16 m = m.
Proof. intros. unfold fill_or_fill, index_type_or_16. destruct (m =? 1) eqn:E; reflect_cmp; lia. Qed.

(** Every command is read back as what it was made of. *)
Lemma replay_asked w l : in_range w -> replay_command x (to_command w) l = Some (asked w l).
Proof.
  destruct w; cbn [in_range]; intros Hw; unfold replay_command; cbn [to_command cmd param_a param_b param_c param_d
    set_render_pipeline_state set_viewport_command set_vertex_bytes draw_primitives set_depth_stencil_state set_triangle_fill_mode set_cull_mode
    set_fragment_texture set_vertex_texture set_vertex_sampler_state set_vertex_null_texture set_fragment_sampler_state set_fragment_null_texture
    set_vertex_bytes_at set_fragment_bytes_at set_scissor_rect set_vertex_buffer set_fragment_buffer draw_indexed_primitives draw_indexed_primitives_up
    set_visibility_result_mode set_stencil_reference push_debug_group pop_debug_group set_blend_color set_depth_bias]; rewrite command_from_repr_code;
    cbn [asked]; unfold with_object, bound, call, plain, skip, borrow.
  - by destruct (_ =? 0).
  - destruct Hw as (Hx & Hy & Hwd & Hh & Hn & Hf). destruct (halves min_z height Hn Hh) as [-> ->].
    destruct (halves max_z x0 Hf Hx) as [-> ->]. by rewrite to_u32_small.
  - destruct (ptr =? 0); [done|]. unfold through_ring. rewrite Z.ltb_antisym. destruct (size <=? SET_BYTES_MAX); [done|]. cbn [negb].
    by destruct (ring_write _ _ _ _) as [[[b o]|] r].
  - destruct Hw as [Ht _]. by rewrite primitive_in_range.
  - by destruct (_ =? 0).
  - by rewrite (proj1 (two_in_range mode Hw)).
  - by rewrite cull_in_range.
  - by destruct (_ =? 0).
  - by destruct (_ =? 0).
  - by destruct (sampler_or_default x sampler).
  - destruct Hw as [Hk _]. rewrite to_u32_small by (unfold is_u32, u32_max; lia). cbn [mbind option_bind].
    rewrite null_kind_in_range by done. cbn [mbind option_bind]. by destruct (null_binding x kind) as [[t s]|].
  - by destruct (sampler_or_default x sampler).
  - destruct Hw as [Hk _]. rewrite to_u32_small by (unfold is_u32, u32_max; lia). cbn [mbind option_bind].
    rewrite null_kind_in_range by done. cbn [mbind option_bind]. by destruct (null_binding x kind) as [[t s]|].
  - by destruct (_ =? 0).
  - by destruct (_ =? 0).
  - destruct Hw as (Hx & Hy & Hwd & Hh). by destruct (halves width height Hwd Hh) as [-> ->].
  - by destruct (_ =? 0).
  - by destruct (_ =? 0).
  - destruct Hw as (Hp & Hn & Ht & Hb & Ho & Hv & Hi). destruct (cast_round_trip base_vertex Hv) as [Hcu Hcs].
    destruct (halves offset (cast_unsigned base_vertex) Ho Hcu) as [-> ->]. rewrite Hcs. unfold indexed_call, draw_indexed_primitives. cbn [param_a param_d].
    rewrite counts_round_trip, primitive_in_range, (proj2 (two_in_range index_type Ht)) by done. by destruct (_ =? 0).
  - destruct Hw as (Hp & Hn & Ht & Ha & Hk & Hi). destruct (ptr =? 0); [done|]. unfold indexed_call, draw_indexed_primitives_up, through_ring. cbn [param_a param_d].
    rewrite counts_round_trip, primitive_in_range, (proj2 (two_in_range index_type Ht)) by done.
    by destruct (ring_write _ _ _ _) as [[[b o]|] r].
  - destruct Hw. by rewrite visibility_in_range.
  - done.
  - done.
  - by destruct (0 <? _).
  - destruct Hw as (Hr & Hg & Hb & Ha). by rewrite !to_u32_small.
  - destruct Hw as (Hb & Hs). by rewrite to_u32_small.
Qed.

(** A pass's commands, as what they ask one after the other. *)
Fixpoint all_asked (ws : list Wire) (l : Loop R) : list MetalCall * Loop R :=
  match ws with
  | [] => ([], l)
  | w :: ws => let '(now, l) := asked w l in let '(later, l) := all_asked ws l in (now ++ later, l)
  end.

(** ** Debug groups *)

(** The groups open after the calls, [None] once one is closed that was not open. *)
Definition group_step (d : option Z) (c : MetalCall) : option Z :=
  match d, c with
  | Some d, pushDebugGroup _ => Some (d + 1)
  | Some d, popDebugGroup => if 0 <? d then Some (d - 1) else None
  | d, _ => d
  end.
Definition groups (d : Z) (calls : list MetalCall) : option Z := fold_left group_step calls (Some d).

Lemma replay_groups c l calls l' :
  0 <= debug_group_depth l -> replay_command x c l = Some (calls, l') ->
  0 <= debug_group_depth l' /\ groups (debug_group_depth l) calls = Some (debug_group_depth l').
Proof.
  intros Hd. unfold replay_command, with_object, call, skip, indexed_call, mbind, option_bind. intros H.
  repeat first
    [ progress simplify_eq/=
    | match type of H with
      | context [match ?e with _ => _ end] => destruct e eqn:?
      end ];
    unfold groups; cbn; reflect_cmp; try (split; [lia|done]).
  split; [lia|]. rewrite (proj2 (Z.ltb_lt _ _)) by done. done.
Qed.

Lemma replay_all_groups cmds l calls l' :
  0 <= debug_group_depth l -> replay_commands x cmds l = Some (calls, l') ->
  0 <= debug_group_depth l' /\ groups (debug_group_depth l) calls = Some (debug_group_depth l').
Proof.
  revert l calls. induction cmds as [|c cmds IH]; intros l calls Hd; cbn; [by intros [= <- <-]|].
  intros ([now l1] & H1 & ([later l2] & H2 & [= <- <-])%bind_Some)%bind_Some.
  destruct (replay_groups c l now l1 Hd H1) as [Hd1 G1]. destruct (IH l1 later Hd1 H2) as [Hd2 G2].
  split; [done|]. unfold groups in *. by rewrite fold_left_app, G1.
Qed.

Lemma groups_close n : groups (Z.of_nat n) (replicate n popDebugGroup) = Some 0.
Proof.
  unfold groups. induction n as [|n IH]; [done|]. cbn [replicate fold_left group_step].
  destruct (_ <? _) eqn:E; reflect_cmp; [|lia]. by replace (Z.of_nat (S n) - 1) with (Z.of_nat n) by lia.
Qed.

(** Whatever the commands, every group is closed once and none before it opens. *)
Lemma groups_balance cmds r calls r' : encode_commands x cmds r = Some (calls, r') -> groups 0 calls = Some 0.
Proof.
  unfold encode_commands. intros ([cs l] & H & [= <- <-])%bind_Some.
  destruct (replay_all_groups cmds (mkLoop r 0) cs l ltac:(done) H) as [Hd G]. unfold groups in *. cbn in G.
  rewrite fold_left_app, G. pose proof (groups_close (Z.to_nat (debug_group_depth l))) as C. by rewrite Z2Nat.id in C.
Qed.

Lemma encode_asked ws r :
  Forall in_range ws ->
  encode_commands x (to_command <$> ws) r =
  let '(calls, l) := all_asked ws (mkLoop r 0) in
  Some (calls ++ replicate (Z.to_nat (debug_group_depth l)) popDebugGroup, ring l).
Proof.
  intros Hws. assert (E : forall l, replay_commands x (to_command <$> ws) l = Some (all_asked ws l)).
  { induction Hws as [|w ws Hw _ IH]; intros l; cbn; [done|]. rewrite (replay_asked w l Hw). cbn.
    destruct (asked w l) as [now l1]. rewrite IH. cbn. by destruct (all_asked ws l1) as [later l2]. }
  unfold encode_commands. rewrite E. cbn. by destruct (all_asked ws _) as [calls l].
Qed.

(** C12: A pass's commands, each packed by its constructor from arguments of
    their widths, are read back by the submit thread without a panic as exactly
    the Metal calls the arguments ask for, in order: a null handle skips its
    call, an inline payload past Metal's limit rides the upload ring, a scissor
    is clamped to the pass; and every debug group opened is closed once. *)
Theorem commands_read_back ws r :
  Forall in_range ws ->
  let '(calls, l) := all_asked ws (mkLoop r 0) in
  encode_commands x (to_command <$> ws) r = Some (calls ++ replicate (Z.to_nat (debug_group_depth l)) popDebugGroup, ring l)
  /\ groups 0 (calls ++ replicate (Z.to_nat (debug_group_depth l)) popDebugGroup) = Some 0.
Proof.
  intros Hws. pose proof (encode_asked ws r Hws) as E. destruct (all_asked ws (mkLoop r 0)) as [calls l].
  split; [exact E|]. by eapply groups_balance.
Qed.
End ReadBack.

(** A ring of one buffer that takes every payload at its next aligned offset. *)
#[local] Instance bump_ring : InlineRing Z := λ next _ size align,
  let at_ := (next + (align - 1)) / align * align in (Some (77, at_), at_ + size).
Definition sample_ctx : Ctx := mkCtx 640 480 (Some (mkNull 11 12 13 None 14)).
Definition sample_wires : list Wire :=
  [ WPush 3; WPipeline 5; WPipeline 0; WViewport 8 16 640 480 0 0x3F800000; WScissor 600 0 100 100;
    WFragmentNull 3 2; WFragmentSampler 0 2; WVertexBytes 4096 5000 0; WVertexBytes 4096 16 1;
    WDrawIndexed 3 36 1 9 12 (-4) 0; WDrawIndexedUp 3 6 0 8192 24 1; WPop; WPop; WPush 4; WDepthBias 1 2 ].

Lemma commands_read_back_witness :
  let calls :=
    [ pushDebugGroup 3; setRenderPipelineState 5; setViewport 8 16 640 480 0 0x3F800000; setScissorRect 600 0 40 100;
      setFragmentTexture 11 2; setFragmentSamplerState 14 2; setFragmentSamplerState 14 2; setVertexBuffer 77 0 0;
      setVertexBytes 4096 16 1; drawIndexedPrimitives 3 36 1 9 12 1 (-4); drawIndexedPrimitives 3 6 0 77 5008 1 0;
      popDebugGroup; pushDebugGroup 4; setDepthBias 1 2 0; popDebugGroup ] in
  encode_commands sample_ctx (to_command <$> sample_wires) 0 = Some (calls, 5032) /\ groups 0 calls = Some 0.
Proof.
  refine (commands_read_back sample_ctx sample_wires 0 _). unfold sample_wires.
  repeat (apply Forall_cons_2; [cbn; unfold is_u32, is_u64, u32_max, u64_max; lia|]). apply Forall_nil_2.
Defined.
