(* ===== verification/DrawState.v ===== *)
(** The draws and quads of a pass as the requests they make of [LastBound]
    ([unix/src/draw.rs], [unix/src/encoder.rs]), the encoder state each draw
    sees, and the theorems: what the caches leave out changes no
    draw, and the debug shadow always agrees with them. *)

From S2P Require Import Prelude PassCommands MetalReplay LastBound.

(** ** Draws and quads *)

(** The vertices of a draw: inline ones at the slots that read them, or the
    streams bound, each a buffer's handle (0 where it could not be made) and
    generation with the slots and offsets it is bound at. *)
Inductive Vertices :=
  | Up (binds : list (Z * Z * Z))
  | Bound (streams : list (Z * Z * list (Z * Z))).

(** What [draw] has resolved when it starts to emit. *)
Record DrawInput := mkDraw {
  d_scissor : Z * Z * Z * Z; d_pipeline : Z; d_depth_state : Z; d_cull : Z; d_fill : Z; d_slope_scale : Z;
  d_stencil_ref : option Z; d_blend_factor : Z;
  d_stages : list (Z * Z * Z * Z); d_unbound : list (Z * Z);
  d_vs_lod : option (list Z * Z); d_fetches : list (Z * Z * Z * Z);
  d_vs_constants : Token; d_pos_fixup : list Z * Z; d_vs_draw : list Z * Z; d_ps_constants : Token;
  d_alpha_ref : option (list Z * Z); d_fog_color : option (list Z * Z); d_bump_env : option (list Z * Z);
  d_lod_bias : option (list Z * Z); d_ps_draw : option (list Z * Z);
  d_vs_int : Token; d_vs_bool : Token; d_ps_int : Token; d_ps_bool : Token;
  d_vertices : Vertices; d_null_streams : list (Z * Z * Z);
  d_draw : list Wire }.

Definition stage_request '(stage, texture, sampler, kind) : Request :=
  if texture =? 0 then MissingStage stage kind sampler else BoundStage stage texture sampler.
Definition fetch_request '(slot, texture, sampler, kind) : Request :=
  if texture =? 0 then VertexFetchNull slot kind else VertexFetch slot texture sampler.
Definition inline_request (slot : InlineSlot) (o : option (list Z * Z)) : list Request :=
  match o with None => [] | Some (bytes, ptr) => [Inline slot bytes ptr] end.

(** The streams up to the first whose buffer could not be made, and whether all were bound. *)
Fixpoint stream_requests (streams : list (Z * Z * list (Z * Z))) : list Request * bool :=
  match streams with
  | [] => ([], true)
  | (handle, generation, slots) :: streams =>
      if handle =? 0 then ([], false)
      else let '(rs, all) := stream_requests streams in
           (((λ '(slot, offset), Stream slot handle offset generation) <$> slots) ++ rs, all)
  end.

Definition vertex_requests (v : Vertices) : list Request * bool :=
  match v with Up binds => ([UpVertices binds], true) | Bound streams => stream_requests streams end.

Definition draw_requests (d : DrawInput) : list Request :=
  let '(x, y, w, h) := d_scissor d in
  [Scissor x y w h; Pipeline (d_pipeline d)]
  ++ (if d_depth_state d =? 0 then [] else [DepthStencil (d_depth_state d)])
  ++ [Cull (d_cull d); Fill (d_fill d); DepthBias 0 (d_slope_scale d)]
  ++ (match d_stencil_ref d with None => [] | Some v => [StencilReference v] end)
  ++ [BlendFactor (d_blend_factor d)]
  ++ (stage_request <$> d_stages d)
  ++ ((λ '(stage, kind), UnboundStage stage kind) <$> d_unbound d)
  ++ inline_request VsLod (d_vs_lod d)
  ++ (fetch_request <$> d_fetches d)
  ++ [VsConstants (d_vs_constants d); Inline VsPosFixup (d_pos_fixup d).1 (d_pos_fixup d).2;
      Inline VsDraw (d_vs_draw d).1 (d_vs_draw d).2; PsConstants (d_ps_constants d)]
  ++ inline_request PsAlphaRef (d_alpha_ref d) ++ inline_request PsFogColor (d_fog_color d)
  ++ inline_request PsBumpEnv (d_bump_env d) ++ inline_request PsLodBias (d_lod_bias d) ++ inline_request PsDraw (d_ps_draw d)
  ++ [VertexUniform (d_vs_int d) VS_INT_CONST_SLOT; VertexUniform (d_vs_bool d) VS_BOOL_CONST_SLOT;
      FragmentUniform (d_ps_int d) PS_INT_CONST_SLOT; FragmentUniform (d_ps_bool d) PS_BOOL_CONST_SLOT]
  ++ (let '(rs, all) := vertex_requests (d_vertices d) in
      rs ++ if all : bool
            then ((λ '(stream, ptr, len), NullStream stream ptr len) <$> d_null_streams d) ++ (Untracked <$> d_draw d)
            else []).

Definition quad_draw : Wire := WDraw 3 0 3.

(** [emit_clear_quad_depth_stencil_inner]; the viewport commands around the quad are
    there where the depth range of the viewport is not the raw one. *)
Definition depth_quad_requests (pipeline depth_state : Z) (stencil : option Z) (viewport : Z * Z * Z * Z) (z_ptr : Z)
    (bracket : list Wire * list Wire) : list Request :=
  let '(x, y, w, h) := viewport in
  (Untracked <$> bracket.1) ++ [Pipeline pipeline; DepthStencil depth_state]
  ++ (match stencil with None => [] | Some v => [StencilReference v] end)
  ++ [Scissor x y w h; Cull CullMode_None; Fill TriangleFillMode_Fill; QuadVertices z_ptr 4; Untracked quad_draw]
  ++ (Untracked <$> bracket.2).

(** [emit_clear_quad_color_inner]. *)
Definition color_quad_requests (pipeline depth_state : Z) (viewport : Z * Z * Z * Z) (z_ptr rgba_ptr : Z) : list Request :=
  let '(x, y, w, h) := viewport in
  [Fill TriangleFillMode_Fill; DepthStencil depth_state; Scissor x y w h; Cull CullMode_None; Pipeline pipeline;
   QuadVertices z_ptr 4; Untracked (WFragmentBytesAt rgba_ptr 16 0); Untracked quad_draw].

(** The quad of [stretch_blit_scaled]; [reused] where no pass opened for it. *)
Definition blit_quad_requests (reused : bool) (pipeline depth_state : Z) (rect : Z * Z * Z * Z) (source sampler xform_ptr level_ptr : Z)
    : list Request :=
  let '(x, y, w, h) := rect in
  (if reused then [Cull CullMode_None] else [])
  ++ [Fill TriangleFillMode_Fill; Pipeline pipeline; DepthStencil depth_state; Scissor x y w h; BlitSource source sampler;
      BlitArguments xform_ptr level_ptr; Untracked quad_draw].

(** The work of a pass. *)
Inductive Work :=
  | WorkDraw (d : DrawInput)
  | WorkDepthQuad (pipeline depth_state : Z) (stencil : option Z) (viewport : Z * Z * Z * Z) (z_ptr : Z) (bracket : list Wire * list Wire)
  | WorkColorQuad (pipeline depth_state : Z) (viewport : Z * Z * Z * Z) (z_ptr rgba_ptr : Z)
  | WorkBlitQuad (reused : bool) (pipeline depth_state : Z) (rect : Z * Z * Z * Z) (source sampler xform_ptr level_ptr : Z)
(** The viewport or the visibility mode, set between draws. *)
  | WorkBetween (w : Wire).

Definition requests_of (w : Work) : list Request :=
  match w with
  | WorkDraw d => draw_requests d
  | WorkDepthQuad p d s v z b => depth_quad_requests p d s v z b
  | WorkColorQuad p d v z c => color_quad_requests p d v z c
  | WorkBlitQuad r p d v t s x l => blit_quad_requests r p d v t s x l
  | WorkBetween w => [Untracked w]
  end.

(** The same request with nothing left out. *)
Definition always (r : Request) : list Wire :=
  match r with
  | Scissor x y w h => [WScissor x y w h]
  | Pipeline p => [WPipeline p]
  | DepthStencil d => [WDepthStencil d]
  | Cull mode => [WCull mode]
  | Fill mode => [WFill mode]
  | DepthBias b s => [WDepthBias b s]
  | StencilReference v => [WStencil v]
  | BlendFactor d => let '(r, g, b, a) := d3dcolor_to_rgba_f32 d in [WBlend r g b a]
  | BoundStage i t s => [WFragmentTexture t i; WFragmentSampler s i]
  | MissingStage i k s => WFragmentNull k i :: if k =? Depth2D then [WFragmentSampler s i] else []
  | UnboundStage i k => [WFragmentNull k i]
  | BlitSource t s => [WFragmentTexture t 0; WFragmentSampler s 0]
  | VertexFetch i t s => [WVertexTexture t i; WVertexSampler s i]
  | VertexFetchNull i k => [WVertexNull k i]
  | Inline slot bytes ptr => [inline_wire slot ptr (Z.of_nat (length bytes))]
  | VsConstants t => if t.2 <=? 0 then [] else [WVertexBytesAt t.1 t.2 VS_FLOAT_CONST_SLOT]
  | PsConstants t => if t.2 <=? 0 then [] else [WFragmentBytesAt t.1 t.2 15]
  | VertexUniform t i => if t.2 <=? 0 then [] else [WVertexBytesAt t.1 t.2 i]
  | FragmentUniform t i => if t.2 <=? 0 then [] else [WFragmentBytesAt t.1 t.2 i]
  | Stream slot h o _ => [WVertexBuffer h o slot]
  | UpVertices binds => (λ '(slot, ptr, size), WVertexBytes ptr size slot) <$> binds
  | NullStream i p n => [WVertexBytesAt p n i]
  | QuadVertices p n => [WVertexBytesAt p n 0]
  | BlitArguments p q => [WVertexBytesAt p 16 0; WFragmentBytesAt q 16 0]
  | Untracked w => [w]
  end.

(** ** What draws see *)

(** The places of a render encoder that the replay's calls set; every value is
    what the last call asked for, and what Metal does with it is left open. *)
Inductive Place :=
  | PPipeline | PViewport | PDepthStencil | PCull | PFill | PBias | PScissor | PVisibility | PBlend | PStencil
  | VertexArg (i : Z) | FragmentArg (i : Z) | VertexTexture (i : Z) | VertexSampler (i : Z)
  | FragmentTexture (i : Z) | FragmentSampler (i : Z).
#[export] Instance Place_eq : EqDecision Place.
Proof. solve_decision. Defined.

(** An argument of a function is bytes or a place in a buffer. *)
Inductive Value := Nums (l : list Z) | Bytes (l : list Z) | Buffer (buffer offset : Z).

Definition EncoderState : Type := Place -> Value.

(** What the caches rely on of an encoder nothing has been set on: Metal
    documents that it fills triangles, biases depth by nothing, blends by
    (0, 0, 0, 0) and compares with stencil reference 0. *)
Record FreshEncoder (s : EncoderState) : Prop := {
  fresh_fill : s PFill = Nums [0];
  fresh_bias : s PBias = Nums [0; 0; 0];
  fresh_blend : s PBlend = Nums [0; 0; 0; 0];
  fresh_stencil : s PStencil = Nums [0] }.

Section Encoder.
Context (m : Z -> Z).

Definition sets (c : MetalCall) : option (Place * Value) :=
  match c with
  | setRenderPipelineState p => Some (PPipeline, Nums [p])
  | setViewport x y w h n f => Some (PViewport, Nums [x; y; w; h; n; f])
  | setVertexBytes p n i => Some (VertexArg i, Bytes (bytes_of m p n))
  | setVertexBuffer b o i => Some (VertexArg i, Buffer b o)
  | setDepthStencilState d => Some (PDepthStencil, Nums [d])
  | setCullMode v => Some (PCull, Nums [v])
  | setTriangleFillMode v => Some (PFill, Nums [v])
  | setDepthBias b s k => Some (PBias, Nums [b; s; k])
  | setFragmentTexture t i => Some (FragmentTexture i, Nums [t])
  | setVertexTexture t i => Some (VertexTexture i, Nums [t])
  | setVertexSamplerState s i => Some (VertexSampler i, Nums [s])
  | setFragmentSamplerState s i => Some (FragmentSampler i, Nums [s])
  | setFragmentBytes p n i => Some (FragmentArg i, Bytes (bytes_of m p n))
  | setScissorRect x y w h => Some (PScissor, Nums [x; y; w; h])
  | setFragmentBuffer b o i => Some (FragmentArg i, Buffer b o)
  | setVisibilityResultMode v o => Some (PVisibility, Nums [v; o])
  | setBlendColor r g b a => Some (PBlend, Nums [r; g; b; a])
  | setStencilReferenceValue v => Some (PStencil, Nums [v])
  | drawPrimitives _ _ _ | drawIndexedPrimitives _ _ _ _ _ _ _ | pushDebugGroup _ | popDebugGroup => None
  end.

Definition put (s : EncoderState) (p : Place) (v : Value) : EncoderState := λ q, if bool_decide (q = p) then v else s q.
Definition call_step (s : EncoderState) (c : MetalCall) : EncoderState :=
  match sets c with None => s | Some (p, v) => put s p v end.

Definition is_draw_call (c : MetalCall) : bool :=
  match c with drawPrimitives _ _ _ | drawIndexedPrimitives _ _ _ _ _ _ _ => true | _ => false end.

(** The draws among the calls, each with the state it sees. *)
Fixpoint draws_seen (s : EncoderState) (calls : list MetalCall) : list (EncoderState * MetalCall) :=
  match calls with
  | [] => []
  | c :: calls => (if is_draw_call c then [(s, c)] else []) ++ draws_seen (call_step s c) calls
  end.
Definition after (s : EncoderState) (calls : list MetalCall) : EncoderState := fold_left call_step calls s.
End Encoder.

Definition same (s s' : EncoderState) : Prop := forall p, s p = s' p.
#[export] Instance same_equivalence : Equivalence same.
Proof. unfold same. split; [done|intros a b H p; by rewrite H|intros a b c H K p; by rewrite H, K]. Qed.
Definition same_draw (a b : EncoderState * MetalCall) : Prop := same a.1 b.1 /\ a.2 = b.2.
#[export] Instance same_draw_transitive : Transitive same_draw.
Proof. intros a b c [H E] [H' E']. split; etransitivity; eauto. Qed.

(** ** What the caches believe *)

(** A handle of Metal's is an address, below every sentinel. *)
Definition is_handle (h : Z) : Prop := 0 < h < NULL_TEXTURE_SAMPLER_SENTINEL.

(** The fallback textures and the default sampler, where they could be made. *)
Definition ctx_ok (x : Ctx) : Prop :=
  is_u32 (rt_width x) /\ is_u32 (rt_height x)
  /\ forall n, nulls x = Some n ->
      texture_2d n <> 0 /\ texture_cube n <> 0 /\ texture_3d n <> 0 /\ null_sampler n <> 0 /\ depth_2d n <> Some 0.

Section Believed.
Context (m : Z -> Z) (x : Ctx).

(** The texture and the sampler behind a key of the cache. *)
Definition texture_of (key : Z) : option Z :=
  if key =? 0 then None
  else if u64_max - 3 <=? key then n ← nulls x; Some (null_texture n (u64_max - key))
  else Some key.
Definition sampler_of (key : Z) : option Z :=
  if key =? 0 then None else if key =? NULL_TEXTURE_SAMPLER_SENTINEL then default_sampler x else Some key.

Definition inline_place (p : Place) : option InlineSlot :=
  match p with
  | VertexArg i =>
      if i =? VS_POS_FIXUP_SLOT then Some VsPosFixup else if i =? VS_DRAW_SLOT then Some VsDraw
      else if i =? VS_LOD_SLOT then Some VsLod else None
  | FragmentArg i =>
      if i =? 14 then Some PsAlphaRef else if i =? 13 then Some PsFogColor else if i =? 12 then Some PsBumpEnv
      else if i =? PS_LOD_BIAS_SLOT then Some PsLodBias else if i =? PS_DRAW_SLOT then Some PsDraw else None
  | _ => None
  end.

Definition at_slot {A} (l : list A) (i : Z) : option A := if i <? 0 then None else l !! Z.to_nat i.
Definition believed_inline (c : LastBoundCache) (p : Place) : option Value :=
  k ← inline_place p; if bool_decide (inline_bytes c k = []) then None else Some (Bytes (inline_bytes c k)).
Definition believed_token (t : option Token) : option Value := t ← t; Some (Bytes (bytes_of m t.1 t.2)).
Definition clamped '(a, b, w, h) : Value :=
  let left := Z.min a (rt_width x) in let top := Z.min b (rt_height x) in
  Nums [left; top; Z.min w (rt_width x - left); Z.min h (rt_height x - top)].

(** What the caches say a place of the encoder holds, where they say anything. *)
Definition believed (c : Caches) (p : Place) : option Value :=
  let b := last_bound c in
  match p with
  | PPipeline => if pipeline b =? 0 then None else Some (Nums [pipeline b])
  | PDepthStencil => if depth_stencil b =? 0 then None else Some (Nums [depth_stencil b])
  | PCull => v ← cull_mode b; Some (Nums [v])
  | PFill => Some (Nums [triangle_fill_mode b])
  | PBias => Some (Nums [(depth_bias_bits b).1; (depth_bias_bits b).2; 0])
  | PScissor => clamped <$> scissor_rect b
  | PBlend => let '(r, g, b, a) := d3dcolor_to_rgba_f32 (blend_color b) in Some (Nums [r; g; b; a])
  | PStencil => Some (Nums [stencil_reference b])
  | PViewport | PVisibility => None
  | VertexArg i =>
      if i <? VERTEX_STREAM_SLOTS then
        '(h, o, _) ← at_slot (vertex_buffers b) i; if h =? 0 then None else Some (Buffer h o)
      else if i =? VS_FLOAT_CONST_SLOT then believed_token (vs_bound_constants c)
      else believed_inline b p
  | FragmentArg i => if i =? 15 then believed_token (ps_bound_constants c) else believed_inline b p
  | FragmentTexture i => k ← at_slot (fragment_textures b) i; t ← texture_of k; Some (Nums [t])
  | FragmentSampler i => k ← at_slot (fragment_samplers b) i; s ← sampler_of k; Some (Nums [s])
  | VertexTexture i => k ← at_slot (vertex_textures b) i; t ← texture_of k; Some (Nums [t])
  | VertexSampler i => k ← at_slot (vertex_samplers b) i; s ← sampler_of k; Some (Nums [s])
  end.

(** A slot with a fallback texture has the default sampler, unless it is a depth slot. *)
Definition paired (textures samplers : list Z) : Prop :=
  forall i k, textures !! i = Some k -> u64_max - 2 <= k -> samplers !! i = Some NULL_TEXTURE_SAMPLER_SENTINEL.

Record agrees (c : Caches) (s : EncoderState) : Prop := {
  ag_believed p v : believed c p = Some v -> s p = v;
  ag_fragment : paired (fragment_textures (last_bound c)) (fragment_samplers (last_bound c));
  ag_vertex : paired (vertex_textures (last_bound c)) (vertex_samplers (last_bound c));
  ag_lengths :
    length (fragment_textures (last_bound c)) = 16%nat /\ length (fragment_samplers (last_bound c)) = 16%nat
    /\ length (vertex_textures (last_bound c)) = 4%nat /\ length (vertex_samplers (last_bound c)) = 4%nat
    /\ length (vertex_buffers (last_bound c)) = 16%nat }.

Lemma agrees_fresh s : FreshEncoder s -> agrees fresh_caches s.
Proof.
  intros [Ff Fb Fl Fs]. split.
  - assert (T : forall {A B} (n : nat) (z : A) i (f : A -> option B), f z = None -> at_slot (replicate n z) i ≫= f = None).
    { intros A B n z i f Hf. unfold at_slot. destruct (i <? 0); [done|]. destruct (_ !! _) eqn:E; [|done].
      by apply lookup_replicate_1 in E as [-> _]. }
    assert (I : forall p, believed_inline cache_new p = None) by (intros p; unfold believed_inline; by destruct (inline_place p)).
    intros p v. destruct p; cbn -[believed_inline replicate]; rewrite ?I; try done; try (by intros [= <-]).
    + by destruct (_ <? _); [rewrite T|destruct (_ =? _)].
    + by destruct (_ =? _).
    + by rewrite T.
    + by rewrite T.
    + by rewrite T.
    + by rewrite T.
  - intros i k [-> _]%(lookup_replicate_1 16 0). unfold u64_max. lia.
  - intros i k [-> _]%(lookup_replicate_1 4 0). unfold u64_max. lia.
  - done.
Qed.

(** ** Effects of wires *)

Lemma all_asked_app {R} `{!InlineRing R} ws ws' (l : Loop R) :
  all_asked x (ws ++ ws') l =
  let '(now, l) := all_asked x ws l in let '(later, l) := all_asked x ws' l in (now ++ later, l).
Proof.
  revert l. induction ws as [|w ws IH]; intros l; cbn; [by destruct (all_asked x ws' l)|].
  destruct (asked x w l) as [c l1]. rewrite IH. destruct (all_asked x ws l1) as [cs l2].
  destruct (all_asked x ws' l2) as [cs' l3]. by rewrite app_assoc.
Qed.

Lemma after_app s a b : after m s (a ++ b) = after m (after m s a) b.
Proof. apply fold_left_app. Qed.

Lemma draws_seen_app s a b : draws_seen m s (a ++ b) = draws_seen m s a ++ draws_seen m (after m s a) b.
Proof. revert s. induction a as [|c a IH]; intros s; cbn; [done|]. by rewrite IH, app_assoc. Qed.

Lemma put_same s s' p v : same s s' -> same (put s p v) (put s' p v).
Proof. intros H q. unfold put. by case_bool_decide. Qed.

Lemma step_same s s' c : same s s' -> same (call_step m s c) (call_step m s' c).
Proof. intros H. unfold call_step. destruct (sets m c) as [[p v]|]; [by apply put_same|done]. Qed.

Lemma after_same s s' calls : same s s' -> same (after m s calls) (after m s' calls).
Proof. revert s s'. induction calls as [|c calls IH]; intros s s' H; [done|]. cbn. by apply IH, step_same. Qed.

Lemma draws_same s s' calls : same s s' -> Forall2 same_draw (draws_seen m s calls) (draws_seen m s' calls).
Proof.
  revert s s'. induction calls as [|c calls IH]; intros s s' H; cbn; [constructor|].
  apply Forall2_app; [|by apply IH, step_same]. destruct (is_draw_call c); [|constructor]. by repeat constructor.
Qed.

Lemma put_noop s p v : s p = v -> same (put s p v) s.
Proof. intros H q. unfold put. case_bool_decide; by subst. Qed.

Lemma agrees_same c s s' : agrees c s -> same s s' -> agrees c s'.
Proof. intros [A B C D] H. split; [|done..]. intros p v Hp. rewrite <- (H p). by apply A. Qed.

(** Another list of wires does the same: the ring and Metal's state end alike,
    and every draw sees the same. *)
Definition same_effect (s : EncoderState) (ws ws' : list Wire) : Prop :=
  forall {R} `{!InlineRing R} (l : Loop R),
    (all_asked x ws l).2 = (all_asked x ws' l).2
    /\ same (after m s (all_asked x ws l).1) (after m s (all_asked x ws' l).1)
    /\ Forall2 same_draw (draws_seen m s (all_asked x ws l).1) (draws_seen m s (all_asked x ws' l).1).

(** Wires that make these calls and leave the ring alone. *)
Definition quiet (ws : list Wire) (calls : list MetalCall) : Prop :=
  forallb (λ c, negb (is_draw_call c)) calls = true
  /\ forall {R} `{!InlineRing R} (l : Loop R), all_asked x ws l = (calls, l).

Lemma quiet_draws s calls : forallb (λ c, negb (is_draw_call c)) calls = true -> draws_seen m s calls = [].
Proof. revert s. induction calls as [|c calls IH]; intros s; cbn; [done|]. intros [Hc H]%andb_true_iff. destruct (is_draw_call c); [done|]. by apply IH. Qed.

Lemma quiet_app ws ws' calls calls' : quiet ws calls -> quiet ws' calls' -> quiet (ws ++ ws') (calls ++ calls').
Proof.
  intros [N H] [N' H']. split; [by rewrite forallb_app, N, N'|]. intros R HR l. by rewrite all_asked_app, H, H'.
Qed.

Lemma quiet_effect s ws ws' calls calls' :
  quiet ws calls -> quiet ws' calls' -> same (after m s calls) (after m s calls') -> same_effect s ws ws'.
Proof.
  intros [N H] [N' H'] E R HR l. rewrite H, H'. split; [done|]. split; [done|]. cbn. by rewrite !quiet_draws.
Qed.

(** What a request leaves: the wires left out change nothing, and the caches
    still say the truth. *)
Definition step_ok (s : EncoderState) (ws full : list Wire) (c' : Caches) : Prop :=
  ws `sublist_of` full /\ same_effect s ws full
  /\ forall {R} `{!InlineRing R} (l : Loop R), agrees c' (after m s (all_asked x ws l).1).
Definition performed (c : Caches) (s : EncoderState) (r : Request) : Prop :=
  exists ws c', perform m r c = Some (ws, c') /\ step_ok s ws (always r) c'.

Lemma step_quiet s ws full c' calls calls' :
  ws `sublist_of` full -> quiet ws calls -> quiet full calls' -> same (after m s calls) (after m s calls') ->
  agrees c' (after m s calls) -> step_ok s ws full c'.
Proof.
  intros Hs Q Q' E A. split; [done|]. split; [by eapply quiet_effect|]. intros R HR l. by rewrite (proj2 Q).
Qed.

Lemma performed_quiet c s r ws c' calls calls' :
  perform m r c = Some (ws, c') -> ws `sublist_of` always r -> quiet ws calls -> quiet (always r) calls' ->
  same (after m s calls) (after m s calls') -> agrees c' (after m s calls) -> performed c s r.
Proof. intros Hp Hs Q Q' E A. exists ws, c'. split; [done|]. by eapply step_quiet. Qed.

(** A state of its own behind one gate. *)
Lemma performed_gate c s r w calls (changed : bool) c' :
  agrees c s -> perform m r c = Some (if_changed changed w, if changed then c' else c) -> always r = [w] -> quiet [w] calls ->
  (changed = true -> agrees c' (after m s calls)) -> (changed = false -> same s (after m s calls)) -> performed c s r.
Proof.
  intros A Hp Ha Q A' N. destruct changed.
  - eapply (performed_quiet c s r [w] c' calls calls); try done; rewrite ?Ha; [done..|by apply A'].
  - eapply (performed_quiet c s r [] c [] calls); try done; rewrite ?Ha; [constructor; constructor|done|by apply N].
Qed.

Lemma sets_quiet w c : (forall {R} `{!InlineRing R} (l : Loop R), asked x w l = ([c], l)) -> is_draw_call c = false -> quiet [w] [c].
Proof. intros H N. split; [cbn; by rewrite N|]. intros R HR l. cbn. by rewrite H. Qed.
Lemma skips_quiet w : (forall {R} `{!InlineRing R} (l : Loop R), asked x w l = ([], l)) -> quiet [w] [].
Proof. intros H. split; [done|]. intros R HR l. cbn. by rewrite H. Qed.

(** The caches after one place is set. *)
Definition tables (c : Caches) := (fragment_textures (last_bound c), fragment_samplers (last_bound c),
  vertex_textures (last_bound c), vertex_samplers (last_bound c), length (vertex_buffers (last_bound c))).

Lemma agrees_tables c c' s0 s : agrees c s0 -> tables c' = tables c ->
  (forall p v, believed c' p = Some v -> s p = v) -> agrees c' s.
Proof. intros [A B C D] [= E1 E2 E3 E4 E5] H. split; [done|..]; rewrite ?E1, ?E2, ?E3, ?E4, ?E5; done. Qed.

Lemma agrees_put c c' s p0 v0 : agrees c s -> tables c' = tables c ->
  (forall p v, believed c' p = Some v -> p = p0 /\ v = v0 \/ p <> p0 /\ believed c p = Some v) -> agrees c' (put s p0 v0).
Proof.
  intros A T H. apply (agrees_tables c c' s); [done..|]. intros p v Hp. unfold put.
  destruct (H p v Hp) as [[-> ->]|[Hne Hc]]; [by rewrite bool_decide_true|].
  rewrite bool_decide_false by done. by apply A.
Qed.

(** One value of the cache, set at one place. *)
Ltac one_place := let q := fresh "q" in let u := fresh "u" in
  intros q u H; destruct q; try (right; split; [done|exact H]); cbn in H; try (by left; simplify_eq).

(** A handle, whose call is skipped where it is null. *)
Lemma performed_handle c s r w call p place (changed : bool) c' :
  agrees c s -> perform m r c = Some (if_changed changed w, if changed then c' else c) -> always r = [w] ->
  (forall {R} `{!InlineRing R} (l : Loop R), asked x w l = bound (borrow p) call l) ->
  (forall h, sets m (call h) = Some (place, Nums [h])) -> (forall h, is_draw_call (call h) = false) -> tables c' = tables c ->
  believed c' place = (if p =? 0 then None else Some (Nums [p])) ->
  (forall q u, q <> place -> believed c' q = Some u -> believed c q = Some u) ->
  (changed = false -> p <> 0 -> believed c place = Some (Nums [p])) -> performed c s r.
Proof.
  intros A Hp Ha Hw Hs Hd T Hb B N. destruct (p =? 0) eqn:E.
  - apply (performed_gate c s r w [] changed c'); try done.
    + apply skips_quiet. intros R HR l. rewrite Hw. unfold bound, borrow. by rewrite E.
    + intros _. apply (agrees_tables c c' s); [done..|]. intros q u Hq. apply (ag_believed _ _ A).
      destruct (decide (q = place)) as [->|Hne]; [by rewrite Hb in Hq|by apply B].
  - assert (Ep : after m s [call p] = put s place (Nums [p])) by (cbn; unfold call_step; by rewrite Hs).
    apply (performed_gate c s r w [call p] changed c'); try done.
    + apply sets_quiet; [|done]. intros R HR l. rewrite Hw. unfold bound, borrow. by rewrite E.
    + intros _. rewrite Ep. apply (agrees_put c); [done..|]. intros q u Hq.
      destruct (decide (q = place)) as [->|Hne]; [rewrite Hb in Hq; left; by simplify_eq|right; by auto].
    + intros Hc. rewrite Ep. symmetry. apply put_noop, (ag_believed _ _ A), N; [done|by apply Z.eqb_neq].
Qed.

Lemma pipeline_performed c s p : agrees c s -> performed c s (Pipeline p).
Proof.
  intros A. eapply (performed_handle c s _ (WPipeline p) setRenderPipelineState p PPipeline
    (negb (pipeline (last_bound c) =? p)) (mkCaches (set_pipeline (last_bound c) p) (vs_bound_constants c) (ps_bound_constants c)));
    [done| |done|done|done|done|done|done| |].
  - cbn. unfold gate, pipeline_changed. destruct c as [b ? ?]; cbn. by destruct (pipeline b =? p).
  - intros q u Hne H. by destruct q.
  - intros E%negb_false_iff%Z.eqb_eq Hp%Z.eqb_neq. cbn. by rewrite E, Hp.
Qed.

Lemma depth_stencil_performed c s p : agrees c s -> performed c s (DepthStencil p).
Proof.
  intros A. eapply (performed_handle c s _ (WDepthStencil p) setDepthStencilState p PDepthStencil
    (negb (depth_stencil (last_bound c) =? p)) (mkCaches (set_depth_stencil (last_bound c) p) (vs_bound_constants c) (ps_bound_constants c)));
    [done| |done|done|done|done|done|done| |].
  - cbn. unfold gate, depth_stencil_changed. destruct c as [b ? ?]; cbn. by destruct (depth_stencil b =? p).
  - intros q u Hne H. by destruct q.
  - intros E%negb_false_iff%Z.eqb_eq Hp%Z.eqb_neq. cbn. by rewrite E, Hp.
Qed.

(** A state whose one call sets its place to [v]. *)
Lemma performed_value c s r w call p v (changed : bool) c' :
  agrees c s -> perform m r c = Some (if_changed changed w, if changed then c' else c) -> always r = [w] ->
  (forall {R} `{!InlineRing R} (l : Loop R), asked x w l = ([call], l)) -> sets m call = Some (p, v) -> is_draw_call call = false ->
  tables c' = tables c ->
  (forall q u, believed c' q = Some u -> q = p /\ u = v \/ q <> p /\ believed c q = Some u) ->
  (changed = false -> believed c p = Some v) -> performed c s r.
Proof.
  intros A Hp Ha Hw Hs Hd T B N. assert (E : after m s [call] = put s p v) by (cbn; unfold call_step; by rewrite Hs).
  eapply (performed_gate c s r w [call] changed c'); try done; [by apply sets_quiet|..]; rewrite E.
  - intros _. by apply (agrees_put c).
  - intros Hc. symmetry. by apply put_noop, (ag_believed _ _ A), N.
Qed.

Lemma scissor_performed c s a b w h : agrees c s -> performed c s (Scissor a b w h).
Proof.
  intros A. eapply (performed_value c s _ (WScissor a b w h) _ PScissor (clamped (a, b, w, h))
    (negb (bool_decide (scissor_rect (last_bound c) = Some (a, b, w, h)))) (mkCaches (set_scissor (last_bound c) (Some (a, b, w, h))) (vs_bound_constants c) (ps_bound_constants c)));
    [done| |done|done|done|done|done|one_place|].
  - cbn. unfold gate, scissor_rect_changed. destruct c as [l ? ?]; cbn. by case_bool_decide.
  - intros E%negb_false_iff%bool_decide_eq_true. cbn. by rewrite E.
Qed.

Lemma cull_performed c s v : agrees c s -> performed c s (Cull v).
Proof.
  intros A. eapply (performed_value c s _ (WCull v) _ PCull (Nums [v])
    (negb (bool_decide (cull_mode (last_bound c) = Some v))) (mkCaches (set_cull (last_bound c) (Some v)) (vs_bound_constants c) (ps_bound_constants c)));
    [done| |done|done|done|done|done|one_place|].
  - cbn. unfold gate, cull_mode_changed. destruct c as [l ? ?]; cbn. by case_bool_decide.
  - intros E%negb_false_iff%bool_decide_eq_true. cbn. by rewrite E.
Qed.

Lemma fill_performed c s v : agrees c s -> performed c s (Fill v).
Proof.
  intros A. eapply (performed_value c s _ (WFill v) _ PFill (Nums [v])
    (negb (triangle_fill_mode (last_bound c) =? v)) (mkCaches (set_fill (last_bound c) v) (vs_bound_constants c) (ps_bound_constants c)));
    [done| |done|done|done|done|done|one_place|].
  - cbn. unfold gate, triangle_fill_mode_changed. destruct c as [l ? ?]; cbn. by destruct (_ =? _).
  - intros E%negb_false_iff%Z.eqb_eq. cbn. by rewrite E.
Qed.

Lemma bias_performed c s b k : agrees c s -> performed c s (DepthBias b k).
Proof.
  intros A. eapply (performed_value c s _ (WDepthBias b k) _ PBias (Nums [b; k; 0])
    (negb (bool_decide (depth_bias_bits (last_bound c) = (b, k)))) (mkCaches (set_bias (last_bound c) (b, k)) (vs_bound_constants c) (ps_bound_constants c)));
    [done| |done|done|done|done|done|one_place|].
  - cbn. unfold gate, depth_bias_changed. destruct c as [l ? ?]; cbn. by case_bool_decide.
  - intros E%negb_false_iff%bool_decide_eq_true. cbn. by rewrite E.
Qed.

Lemma stencil_performed c s v : agrees c s -> performed c s (StencilReference v).
Proof.
  intros A. eapply (performed_value c s _ (WStencil v) _ PStencil (Nums [v])
    (negb (stencil_reference (last_bound c) =? v)) (mkCaches (set_stencil_ref (last_bound c) v) (vs_bound_constants c) (ps_bound_constants c)));
    [done| |done|done|done|done|done|one_place|].
  - cbn. unfold gate, stencil_reference_changed. destruct c as [l ? ?]; cbn. by destruct (_ =? _).
  - intros E%negb_false_iff%Z.eqb_eq. cbn. by rewrite E.
Qed.

Lemma blend_performed c s v : agrees c s -> performed c s (BlendFactor v).
Proof.
  intros A. destruct (d3dcolor_to_rgba_f32 v) as [[[r g] b] a] eqn:Ev.
  eapply (performed_value c s _ (WBlend r g b a) _ PBlend (Nums [r; g; b; a])
    (negb (blend_color (last_bound c) =? v)) (mkCaches (set_blend (last_bound c) v) (vs_bound_constants c) (ps_bound_constants c)));
    [done| | |done|done|done|done| |].
  - cbn -[d3dcolor_to_rgba_f32]. rewrite Ev. unfold gate, blend_color_changed. destruct c as [l ? ?]; cbn. by destruct (_ =? _).
  - cbn -[d3dcolor_to_rgba_f32]. by rewrite Ev.
  - intros q u H. destruct q; try (right; split; [done|exact H]). cbn -[d3dcolor_to_rgba_f32] in H. rewrite Ev in H. left. by simplify_eq.
  - intros E%negb_false_iff%Z.eqb_eq. cbn -[d3dcolor_to_rgba_f32]. by rewrite E, Ev.
Qed.

(** ** Byte arguments *)

Definition place_of (slot : InlineSlot) : Place :=
  match slot with
  | VsPosFixup => VertexArg VS_POS_FIXUP_SLOT | VsDraw => VertexArg VS_DRAW_SLOT | VsLod => VertexArg VS_LOD_SLOT
  | PsAlphaRef => FragmentArg 14 | PsFogColor => FragmentArg 13 | PsBumpEnv => FragmentArg 12
  | PsLodBias => FragmentArg PS_LOD_BIAS_SLOT | PsDraw => FragmentArg PS_DRAW_SLOT
  end.

Definition inline_call (slot : InlineSlot) (ptr len : Z) : MetalCall :=
  match place_of slot with VertexArg i => setVertexBytes ptr len i | FragmentArg i => setFragmentBytes ptr len i | _ => popDebugGroup end.

Lemma inline_place_of p k : inline_place p = Some k -> p = place_of k.
Proof.
  destruct p; cbn; try done;
    repeat match goal with |- context [?a =? ?b] => destruct (a =? b) eqn:?; reflect_cmp end; intros; simplify_eq/=; done.
Qed.

(** Where the caches believe nothing but byte blobs. *)
Lemma believed_at_inline c k : believed c (place_of k) = believed_inline (last_bound c) (place_of k).
Proof. by destruct k. Qed.

Lemma inline_of_place k : inline_place (place_of k) = Some k.
Proof. by destruct k. Qed.

Lemma inline_performed c s slot bytes ptr :
  agrees c s -> bytes <> [] -> ptr <> 0 -> bytes_of m ptr (Z.of_nat (length bytes)) = bytes -> performed c s (Inline slot bytes ptr).
Proof.
  intros A Hb Hp Hm.
  eapply (performed_value c s _ (inline_wire slot ptr (Z.of_nat (length bytes))) (inline_call slot ptr (Z.of_nat (length bytes))) (place_of slot) (Bytes bytes)
    (negb (bool_decide (inline_bytes (last_bound c) slot = bytes)))
    (mkCaches (set_inline_bytes (last_bound c) (λ k, if bool_decide (k = slot) then bytes else inline_bytes (last_bound c) k))
       (vs_bound_constants c) (ps_bound_constants c))); [done| |done| | | |done| |].
  - cbn. unfold gate, inline_changed. destruct c as [l ? ?]; cbn. by case_bool_decide.
  - intros R HR l. apply Z.eqb_neq in Hp. destruct slot; cbn; unfold bound, borrow; by rewrite Hp.
  - assert (sets m (inline_call slot ptr (Z.of_nat (length bytes))) = Some (place_of slot, Bytes (bytes_of m ptr (Z.of_nat (length bytes))))) as ->
      by (by destruct slot). by rewrite Hm.
  - by destruct slot.
  - assert (B : forall p u, believed_inline (set_inline_bytes (last_bound c) (λ k, if bool_decide (k = slot) then bytes else inline_bytes (last_bound c) k)) p = Some u ->
        p = place_of slot /\ u = Bytes bytes \/ p <> place_of slot /\ believed_inline (last_bound c) p = Some u).
    { intros p u. unfold believed_inline. destruct (inline_place p) as [k|] eqn:Ek; [|done]. cbn.
      destruct (bool_decide (k = slot)) eqn:E.
      - apply bool_decide_eq_true in E as ->. apply inline_place_of in Ek as ->.
        rewrite bool_decide_false by done. intros [= <-]. by left.
      - apply bool_decide_eq_false in E. intros H. right. split; [|done]. intros ->. rewrite inline_of_place in Ek. by simplify_eq. }
    intros q u H. destruct q; try (right; split; [by destruct slot|exact H]).
    + revert H. cbn -[believed_inline]. destruct (i <? VERTEX_STREAM_SLOTS) eqn:E1.
      { intros H. right. split; [|done]. intros E. destruct slot; try discriminate E; injection E as ->; discriminate E1. }
      destruct (i =? VS_FLOAT_CONST_SLOT) eqn:E2; [|intros H; by apply B].
      intros H. right. split; [|done]. intros E. destruct slot; try discriminate E; injection E as ->; discriminate E2.
    + revert H. cbn -[believed_inline]. destruct (i =? 15) eqn:E2; [|intros H; by apply B].
      intros H. right. split; [|done]. intros E. destruct slot; try discriminate E; injection E as ->; discriminate E2.
  - intros E%negb_false_iff%bool_decide_eq_true. rewrite believed_at_inline. unfold believed_inline. rewrite inline_of_place. cbn.
    by rewrite E, bool_decide_false.
Qed.

Lemma performed_always c s r c' : perform m r c = Some (always r, c') ->
  (forall {R} `{!InlineRing R} (l : Loop R), agrees c' (after m s (all_asked x (always r) l).1)) -> performed c s r.
Proof.
  intros Hp A. exists (always r), c'. split; [done|]. split; [done|]. split; [|done].
  intros R HR l. split; [done|]. split; [done|]. by apply draws_same.
Qed.

(** One step after another. *)
Lemma step_app s ws1 full1 c1 ws2 full2 c2 :
  step_ok s ws1 full1 c1 ->
  (forall s1, agrees c1 s1 -> (exists {R} `{!InlineRing R} (l : Loop R), s1 = after m s (all_asked x ws1 l).1) -> step_ok s1 ws2 full2 c2) ->
  step_ok s (ws1 ++ ws2) (full1 ++ full2) c2.
Proof.
  intros (S1 & E1 & A1) H2. split; [apply sublist_app; [done|]|split].
  - destruct (H2 _ (A1 unit (λ u _ _ _, (None, u)) (mkLoop tt 0))) as [S2 _]; [|done]. by eexists unit, _, _.
  - intros R HR l. destruct (E1 R HR l) as (L1 & T1 & D1). rewrite !all_asked_app.
    destruct (all_asked x ws1 l) as [now k] eqn:Ea, (all_asked x full1 l) as [now' k'] eqn:Eb. cbn [fst snd] in L1, T1, D1. subst k'.
    destruct (H2 (after m s now)) as (_ & E2 & _); [pose proof (A1 R HR l) as A; by rewrite Ea in A|by exists R, HR, l; rewrite Ea|].
    destruct (E2 R HR k) as (L2 & T2 & D2).
    destruct (all_asked x ws2 k) as [later q], (all_asked x full2 k) as [later' q']. cbn [fst snd] in L2, T2, D2 |- *. subst q'.
    rewrite !after_app, !draws_seen_app. split; [done|]. split; [by rewrite T2; apply after_same|].
    apply Forall2_app; [done|]. etransitivity; [exact D2|by apply draws_same].
  - intros R HR l. rewrite all_asked_app. destruct (all_asked x ws1 l) as [now k] eqn:Ea.
    destruct (H2 (after m s now)) as (_ & _ & A2); [pose proof (A1 R HR l) as A; by rewrite Ea in A|by exists R, HR, l; rewrite Ea|].
    specialize (A2 R HR k). destruct (all_asked x ws2 k) as [later q]. cbn [fst snd] in *. by rewrite after_app.
Qed.

Lemma constants_bytes t i : t.1 <> 0 ->
  (forall {R} `{!InlineRing R} (l : Loop R), asked x (WVertexBytesAt t.1 t.2 i) l = ([setVertexBytes t.1 t.2 i], l))
  /\ (forall {R} `{!InlineRing R} (l : Loop R), asked x (WFragmentBytesAt t.1 t.2 i) l = ([setFragmentBytes t.1 t.2 i], l)).
Proof. intros Ht. apply Z.eqb_neq in Ht. split; intros R HR l; cbn; unfold bound, borrow; by rewrite Ht. Qed.

(** Constants behind a snapshot. *)
Lemma snapshot_performed c s r t w call place (prev : option Token) c' :
  agrees c s -> 0 < t.2 -> perform m r c = Some (if_changed (snapshot_changed m prev t).1 w, c') -> always r = [w] ->
  quiet [w] [call] -> sets m call = Some (place, Bytes (bytes_of m t.1 t.2)) -> tables c' = tables c ->
  believed c place = believed_token prev ->
  (forall p u, believed c' p = Some u -> p = place /\ u = Bytes (bytes_of m t.1 t.2) \/ p <> place /\ believed c p = Some u) ->
  performed c s r.
Proof.
  intros A Ht Hp Ha Q Hs T Hb B.
  assert (E : after m s [call] = put s place (Bytes (bytes_of m t.1 t.2))) by (cbn; unfold call_step; by rewrite Hs).
  assert (N : (snapshot_changed m prev t).1 = false -> s place = Bytes (bytes_of m t.1 t.2)).
  { unfold snapshot_changed. destruct (_ <=? _) eqn:En; reflect_cmp; [lia|]. destruct prev as [prev|]; cbn; [|done].
    intros H. apply (ag_believed _ _ A). rewrite Hb. cbn.
    apply negb_false_iff, orb_true_iff in H as [H|H]; apply bool_decide_eq_true in H; by rewrite H. }
  destruct (snapshot_changed m prev t).1 eqn:Ec.
  - apply (performed_quiet c s r [w] c' [call] [call]); rewrite ?Ha; try done. rewrite E. by apply (agrees_put c).
  - apply (performed_quiet c s r [] c' [] [call]); rewrite ?Ha; try done; [constructor; constructor|..].
    + rewrite E. symmetry. apply put_noop, N, eq_refl.
    + apply (agrees_tables c c' s); [done..|]. intros p u Hu.
      destruct (B p u Hu) as [[-> ->]|[_ H]]; [by apply N|by apply (ag_believed _ _ A)].
Qed.

Lemma no_constants c s r : agrees c s -> perform m r c = Some ([], c) -> always r = [] -> performed c s r.
Proof. intros A Hp Ha. apply (performed_quiet c s r [] c [] []); rewrite ?Ha; done. Qed.

Lemma vs_constants_performed c s t : agrees c s -> (0 < t.2 -> t.1 <> 0) -> performed c s (VsConstants t).
Proof.
  intros A Ht. destruct (t.2 <=? 0) eqn:En.
  - apply no_constants; cbn; unfold snapshot_changed; rewrite ?En; [done|by destruct c|done].
  - reflect_cmp. eapply (snapshot_performed c s _ t _ (setVertexBytes t.1 t.2 VS_FLOAT_CONST_SLOT) (VertexArg VS_FLOAT_CONST_SLOT)
      (vs_bound_constants c) (mkCaches (last_bound c) (Some t) (ps_bound_constants c))).
    + exact A.
    + exact En.
    + cbn. unfold snapshot_changed. destruct (t.2 <=? 0) eqn:En'; reflect_cmp; [lia|done].
    + cbn. destruct (t.2 <=? 0) eqn:En'; reflect_cmp; [lia|done].
    + apply sets_quiet; [|done]. by apply constants_bytes, Ht.
    + done.
    + done.
    + done.
    + intros p u H. destruct p; try (right; split; [done|exact H]). revert H. cbn -[believed_inline].
      destruct (i <? VERTEX_STREAM_SLOTS) eqn:E1; [intros H; right; split; [|done]; intros [= ->]; discriminate E1|].
      destruct (i =? VS_FLOAT_CONST_SLOT) eqn:E2; reflect_cmp; [intros [= <-]; left; by subst|intros H; right; split; [|done]; by intros [= ->]].
Qed.

Lemma ps_constants_performed c s t : agrees c s -> (0 < t.2 -> t.1 <> 0) -> performed c s (PsConstants t).
Proof.
  intros A Ht. destruct (t.2 <=? 0) eqn:En.
  - apply no_constants; cbn; unfold snapshot_changed; rewrite ?En; [done|by destruct c|done].
  - reflect_cmp. eapply (snapshot_performed c s _ t _ (setFragmentBytes t.1 t.2 15) (FragmentArg 15)
      (ps_bound_constants c) (mkCaches (last_bound c) (vs_bound_constants c) (Some t))).
    + exact A.
    + exact En.
    + cbn. unfold snapshot_changed. destruct (t.2 <=? 0) eqn:En'; reflect_cmp; [lia|done].
    + cbn. destruct (t.2 <=? 0) eqn:En'; reflect_cmp; [lia|done].
    + apply sets_quiet; [|done]. by apply constants_bytes, Ht.
    + done.
    + done.
    + done.
    + intros p u H. destruct p; try (right; split; [done|exact H]). revert H. cbn -[believed_inline].
      destruct (i =? 15) eqn:E2; reflect_cmp; [intros [= <-]; left; by subst|intros H; right; split; [|done]; by intros [= ->]].
Qed.

(** A place the caches believe nothing of. *)
Lemma agrees_put_unknown c s p v : agrees c s -> believed c p = None -> agrees c (put s p v).
Proof. intros A H. apply (agrees_put c); [done..|]. intros q u Hq. right. split; [|done]. intros ->. by rewrite H in Hq. Qed.

Lemma uniform_performed c s t i : agrees c s -> (0 < t.2 -> t.1 <> 0) ->
  (i = VS_INT_CONST_SLOT \/ i = VS_BOOL_CONST_SLOT -> performed c s (VertexUniform t i))
  /\ (i = PS_INT_CONST_SLOT \/ i = PS_BOOL_CONST_SLOT -> performed c s (FragmentUniform t i)).
Proof.
  intros A Ht. split; intros Hi; apply (performed_always c s _ c); try (by destruct c); cbn; intros R HR l; destruct (t.2 <=? 0) eqn:En;
    try done; reflect_cmp; specialize (Ht En); apply Z.eqb_neq in Ht; cbn; unfold bound, borrow; rewrite Ht; cbn;
    apply agrees_put_unknown; try done; by destruct Hi as [-> | ->].
Qed.
(** ** Textures and samplers

    Of the fragment stages ([f] holds) or of the vertex stage's fetches. *)

Definition textures (f : bool) (b : LastBoundCache) := if f then fragment_textures b else vertex_textures b.
Definition samplers (f : bool) (b : LastBoundCache) := if f then fragment_samplers b else vertex_samplers b.
Definition with_tables (f : bool) (c : Caches) (t k : list Z) : Caches :=
  mkCaches (if f then set_fragment_samplers (set_fragment_textures (last_bound c) t) k
            else set_vertex_samplers (set_vertex_textures (last_bound c) t) k) (vs_bound_constants c) (ps_bound_constants c).
Definition PT (f : bool) (i : Z) : Place := if f then FragmentTexture i else VertexTexture i.
Definition PS (f : bool) (i : Z) : Place := if f then FragmentSampler i else VertexSampler i.
Definition CT (f : bool) (t i : Z) : MetalCall := if f then setFragmentTexture t i else setVertexTexture t i.
Definition CS (f : bool) (k i : Z) : MetalCall := if f then setFragmentSamplerState k i else setVertexSamplerState k i.
Definition WT (f : bool) (t i : Z) : Wire := if f then WFragmentTexture t i else WVertexTexture t i.
Definition WS (f : bool) (k i : Z) : Wire := if f then WFragmentSampler k i else WVertexSampler k i.
Definition WN (f : bool) (k i : Z) : Wire := if f then WFragmentNull k i else WVertexNull k i.
Definition stages (f : bool) : nat := if f then 16%nat else 4%nat.

Lemma slot_changed_ok l i v : 0 <= i < Z.of_nat (length l) -> exists old, at_slot l i = Some old
  /\ slot_changed l i v = Some (negb (old =? v), <[Z.to_nat i := v]> l).
Proof.
  intros Hi. unfold at_slot. destruct (i <? 0) eqn:E; reflect_cmp; [lia|].
  destruct (lookup_lt_is_Some_2 l (Z.to_nat i)) as [old Ho]; [lia|]. exists old. split; [done|].
  unfold slot_changed. rewrite Ho. cbn. destruct (old =? v) eqn:Ev; [|done]. reflect_cmp. subst. by rewrite list_insert_id.
Qed.

Lemma at_slot_insert (l : list Z) i j v : 0 <= i < Z.of_nat (length l) ->
  at_slot (<[Z.to_nat i := v]> l) j = if j =? i then Some v else at_slot l j.
Proof.
  intros Hi. unfold at_slot. destruct (j =? i) eqn:E; reflect_cmp.
  - subst j. destruct (i <? 0) eqn:?; reflect_cmp; [lia|]. apply list_lookup_insert_eq. lia.
  - destruct (j <? 0) eqn:?; reflect_cmp; [done|]. apply list_lookup_insert_ne. lia.
Qed.

(** The tables of a stage replaced at one slot, and what the state must say. *)
Lemma agrees_tables_at f c s s' i t k :
  agrees c s -> 0 <= i < Z.of_nat (stages f) -> (u64_max - 2 <= t -> k = NULL_TEXTURE_SAMPLER_SENTINEL) ->
  (forall p, p <> PT f i -> p <> PS f i -> s' p = s p) ->
  (forall v, texture_of t = Some v -> s' (PT f i) = Nums [v]) -> (forall v, sampler_of k = Some v -> s' (PS f i) = Nums [v]) ->
  agrees (with_tables f c (<[Z.to_nat i := t]> (textures f (last_bound c))) (<[Z.to_nat i := k]> (samplers f (last_bound c)))) s'.
Proof.
  intros [A B C D] Hi Hk Hs Ht Hv. destruct D as (D1 & D2 & D3 & D4 & D5).
  assert (P : forall a b : list Z, length a = length b -> paired a b -> paired (<[Z.to_nat i := t]> a) (<[Z.to_nat i := k]> b)).
  { intros a b L H j q. rewrite !list_lookup_insert. case_decide as E; [|case_decide; [lia|apply H]].
    intros [= <-] Hq. rewrite decide_True by lia. by rewrite Hk. }
  split.
  - intros p v Hp. destruct (decide (p = PT f i)) as [->|N1].
    { destruct f; cbn in Hp; rewrite at_slot_insert, Z.eqb_refl in Hp by (cbn in Hi; lia); cbn in Hp;
        destruct (texture_of t) eqn:E; simplify_eq/=; by apply Ht. }
    destruct (decide (p = PS f i)) as [->|N2].
    { destruct f; cbn in Hp; rewrite at_slot_insert, Z.eqb_refl in Hp by (cbn in Hi; lia); cbn in Hp;
        destruct (sampler_of k) eqn:E; simplify_eq/=; by apply Hv. }
    rewrite Hs by done. apply A. rewrite <- Hp. destruct f, p; try done; cbn; rewrite at_slot_insert by (cbn in Hi; lia);
      destruct (_ =? i) eqn:E; reflect_cmp; try done; subst; by destruct N1 || destruct N2.
  - destruct f; cbn; [apply P; [congruence|done]|done].
  - destruct f; cbn; [done|apply P; [congruence|done]].
  - destruct f; cbn; rewrite ?length_insert; done.
Qed.

Lemma believed_texture f c i : believed c (PT f i) = (k ← at_slot (textures f (last_bound c)) i; t ← texture_of k; Some (Nums [t])).
Proof. by destruct f. Qed.
Lemma believed_sampler f c i : believed c (PS f i) = (k ← at_slot (samplers f (last_bound c)) i; v ← sampler_of k; Some (Nums [v])).
Proof. by destruct f. Qed.
Lemma stages_length f c s : agrees c s -> length (textures f (last_bound c)) = stages f /\ length (samplers f (last_bound c)) = stages f.
Proof. intros [_ _ _ (D1 & D2 & D3 & D4 & D5)]. by destruct f. Qed.
Lemma stages_paired f c s : agrees c s -> paired (textures f (last_bound c)) (samplers f (last_bound c)).
Proof. intros A. destruct f; apply A. Qed.
Definition sampler_calls (f : bool) (k i : Z) : list MetalCall :=
  match sampler_or_default x k with Some d => [CS f d i] | None => [] end.
Definition null_calls (f : bool) (k i : Z) : list MetalCall :=
  match null_binding x k with Some (t, d) => [CT f t i; CS f d i] | None => [] end.

Lemma texture_quiet f t i : t <> 0 -> quiet [WT f t i] [CT f t i].
Proof.
  intros Ht%Z.eqb_neq. apply sets_quiet; [|by destruct f]. intros R HR l. destruct f; cbn; unfold bound, borrow; by rewrite Ht.
Qed.
Lemma sampler_quiet f k i : quiet [WS f k i] (sampler_calls f k i).
Proof.
  unfold sampler_calls. destruct (sampler_or_default x k) as [d|] eqn:E; [apply sets_quiet; [|by destruct f]|apply skips_quiet];
    intros R HR l; destruct f; cbn; unfold bound; by rewrite E.
Qed.
Lemma null_quiet f k i : quiet [WN f k i] (null_calls f k i).
Proof.
  unfold null_calls. destruct (null_binding x k) as [[t d]|] eqn:E; (split; [by destruct f|]); intros R HR l; destruct f; cbn; by rewrite E.
Qed.

Lemma key_means k : 0 <= k < NULL_TEXTURE_SAMPLER_SENTINEL -> sampler_of (sampler_cache_key k) = sampler_or_default x k.
Proof.
  intros Hk. unfold sampler_cache_key, sampler_of, sampler_or_default, borrow.
  destruct (k =? 0) eqn:E; [done|]. rewrite E. destruct (k =? NULL_TEXTURE_SAMPLER_SENTINEL) eqn:E2; reflect_cmp; [lia|done].
Qed.

Lemma handle_means t : is_handle t -> texture_of t = Some t.
Proof.
  unfold is_handle, NULL_TEXTURE_SAMPLER_SENTINEL, texture_of. intros Ht.
  destruct (t =? 0) eqn:E; reflect_cmp; [lia|]. destruct (u64_max - 3 <=? t) eqn:E2; reflect_cmp; [lia|done].
Qed.

Lemma sentinel_means k : 0 <= k <= 3 -> texture_of (null_texture_tex_sentinel k) = (n ← nulls x; Some (null_texture n k)).
Proof.
  unfold texture_of, null_texture_tex_sentinel. intros Hk. destruct (_ =? 0) eqn:E; reflect_cmp; [unfold u64_max in *; lia|].
  destruct (_ <=? _) eqn:E2; reflect_cmp; [|lia]. by replace (u64_max - (u64_max - k)) with k by lia.
Qed.

Lemma null_means k : ctx_ok x -> null_binding x k = (n ← nulls x; Some (null_texture n k, null_sampler n))
  /\ default_sampler x = (n ← nulls x; Some (null_sampler n)).
Proof.
  intros (_ & _ & H). unfold null_binding, default_sampler. destruct (nulls x) as [n|]; [|done]. cbn.
  destruct (H n eq_refl) as (H1 & H2 & H3 & H4 & H5). unfold borrow.
  apply Z.eqb_neq in H4. rewrite H4. split; [|done].
  assert (null_texture n k =? 0 = false) as ->; [|done]. apply Z.eqb_neq. unfold null_texture.
  destruct (k =? 0), (k =? 1), (k =? 2), (depth_2d n) as [d|]; cbn; try done; congruence.
Qed.

Lemma places_differ f i : PT f i <> PS f i.
Proof. by destruct f. Qed.
Lemma put_at s p v : put s p v p = v.
Proof. unfold put. by rewrite bool_decide_true. Qed.
Lemma put_off s p q v : q <> p -> put s p v q = s q.
Proof. intros H. unfold put. by rewrite bool_decide_false. Qed.
Lemma after_texture f s t i calls : after m s (CT f t i :: calls) = after m (put s (PT f i) (Nums [t])) calls.
Proof. by destruct f. Qed.
Lemma after_sampler f s k i calls : after m s (CS f k i :: calls) = after m (put s (PS f i) (Nums [k])) calls.
Proof. by destruct f. Qed.

(** The state with a texture and, where there is one, a sampler at a slot. *)
Definition with_pair (f : bool) (s : EncoderState) (i : Z) (t d : option Z) : EncoderState := λ p,
  if bool_decide (p = PT f i) then match t with Some t => Nums [t] | None => s p end
  else if bool_decide (p = PS f i) then match d with Some d => Nums [d] | None => s p end else s p.

Lemma pair_agrees f c s s' i t k to d :
  agrees c s -> 0 <= i < Z.of_nat (stages f) -> (u64_max - 2 <= t -> k = NULL_TEXTURE_SAMPLER_SENTINEL) ->
  texture_of t = to -> sampler_of k = d -> same s' (with_pair f s i to d) ->
  agrees (with_tables f c (<[Z.to_nat i := t]> (textures f (last_bound c))) (<[Z.to_nat i := k]> (samplers f (last_bound c)))) s'.
Proof.
  intros A Hi Hk Ht Hd S. apply (agrees_tables_at f c s); try done.
  - intros p N1 N2. rewrite (S p). unfold with_pair. by rewrite !bool_decide_false.
  - intros v Hv. rewrite (S _). unfold with_pair. rewrite bool_decide_true by done. rewrite Ht in Hv. by rewrite Hv.
  - intros v Hv. rewrite (S _). unfold with_pair. rewrite bool_decide_false, bool_decide_true by (done || apply not_eq_sym, places_differ).
    rewrite Hd in Hv. by rewrite Hv.
Qed.

(** The calls of a gated pair leave the same pair as the calls of both. *)
Lemma pair_after f s i t k (tch kch : bool) :
  (tch = false -> s (PT f i) = Nums [t]) -> (forall d, kch = false -> sampler_or_default x k = Some d -> s (PS f i) = Nums [d]) ->
  same (after m s ((if tch then [CT f t i] else []) ++ (if kch then sampler_calls f k i else []))) (with_pair f s i (Some t) (sampler_or_default x k)).
Proof.
  intros Ht Hk p. pose proof (places_differ f i) as N. unfold with_pair, sampler_calls.
  destruct (bool_decide (p = PT f i)) eqn:E1; [|destruct (bool_decide (p = PS f i)) eqn:E2];
    (try apply bool_decide_eq_true in E1 as ->); (try apply bool_decide_eq_true in E2 as ->);
    (try apply bool_decide_eq_false in E1); (try apply bool_decide_eq_false in E2);
    destruct tch, kch, (sampler_or_default x k) as [d|] eqn:Ed; cbn [app]; rewrite ?after_texture, ?after_sampler; cbn [after fold_left];
    rewrite ?put_at, ?put_off by done; rewrite ?put_at; try done; auto.
Qed.

Lemma bind_pair f c s i t k :
  agrees c s -> 0 <= i < Z.of_nat (stages f) -> is_handle t -> 0 <= k < NULL_TEXTURE_SAMPLER_SENTINEL ->
  exists tch kch,
    slot_changed (textures f (last_bound c)) i t = Some (tch, <[Z.to_nat i := t]> (textures f (last_bound c)))
    /\ slot_changed (samplers f (last_bound c)) i (sampler_cache_key k) = Some (kch, <[Z.to_nat i := sampler_cache_key k]> (samplers f (last_bound c)))
    /\ step_ok s (if_changed tch (WT f t i) ++ if_changed kch (WS f k i)) [WT f t i; WS f k i]
         (with_tables f c (<[Z.to_nat i := t]> (textures f (last_bound c))) (<[Z.to_nat i := sampler_cache_key k]> (samplers f (last_bound c)))).
Proof.
  intros A Hi Ht Hk. destruct (stages_length f c s A) as [L1 L2].
  destruct (slot_changed_ok (textures f (last_bound c)) i t) as (ot & Hot & ->); [lia|].
  destruct (slot_changed_ok (samplers f (last_bound c)) i (sampler_cache_key k)) as (ok & Hok & ->); [lia|].
  eexists _, _. split; [done|]. split; [done|].
  assert (T : negb (ot =? t) = false -> s (PT f i) = Nums [t]).
  { intros E%negb_false_iff%Z.eqb_eq. subst ot. apply (ag_believed _ _ A). rewrite believed_texture, Hot. cbn. by rewrite handle_means. }
  assert (K : forall d, negb (ok =? sampler_cache_key k) = false -> sampler_or_default x k = Some d -> s (PS f i) = Nums [d]).
  { intros d E%negb_false_iff%Z.eqb_eq Hd. subst ok. apply (ag_believed _ _ A). rewrite believed_sampler, Hok. cbn. by rewrite key_means, Hd. }
  set (tch := negb (ot =? t)) in *. set (kch := negb (ok =? sampler_cache_key k)) in *.
  pose proof (pair_after f s i t k tch kch T K) as E.
  assert (t <> 0) by (unfold is_handle in Ht; lia).
  eapply (step_quiet s _ _ _ ((if tch then [CT f t i] else []) ++ (if kch then sampler_calls f k i else [])) ([CT f t i] ++ sampler_calls f k i)).
  - destruct tch, kch; cbn; repeat constructor.
  - apply quiet_app; [destruct tch; [by apply texture_quiet|by split]|destruct kch; [apply sampler_quiet|by split]].
  - apply (quiet_app [_] [_]); [by apply texture_quiet|apply sampler_quiet].
  - rewrite E. symmetry. by apply (pair_after f s i t k true true).
  - apply (pair_agrees f c s _ i _ _ (Some t) (sampler_or_default x k) A Hi); [|by apply handle_means|by apply key_means|exact E].
    unfold is_handle, NULL_TEXTURE_SAMPLER_SENTINEL in Ht. lia.
Qed.
(** The fallback pair of a slot. *)
Definition null_pair (f : bool) (s : EncoderState) (i k : Z) : EncoderState :=
  with_pair f s i (n ← nulls x; Some (null_texture n k)) (default_sampler x).

Lemma null_after f s i k : ctx_ok x -> same (after m s (null_calls f k i)) (null_pair f s i k).
Proof.
  intros Hx p. destruct (null_means k Hx) as [Hb Hd]. pose proof (places_differ f i) as N.
  unfold null_calls, null_pair, with_pair. rewrite Hb, Hd. destruct (nulls x) as [n|]; cbn [mbind option_bind]; [|by repeat case_bool_decide].
  rewrite after_texture, after_sampler. cbn [after fold_left].
  case_bool_decide as E1; [subst; by rewrite put_off, put_at|]. case_bool_decide as E2; [subst; by rewrite put_at|]. by rewrite !put_off.
Qed.

(** The slot has the fallback of its kind already. *)
Lemma null_held f c s i k old : agrees c s -> ctx_ok x -> at_slot (textures f (last_bound c)) i = Some old -> old = null_texture_tex_sentinel k ->
  0 <= k <= 3 -> forall n, nulls x = Some n -> s (PT f i) = Nums [null_texture n k].
Proof.
  intros A Hx Ho -> Hk n Hn. apply (ag_believed _ _ A). rewrite believed_texture, Ho. cbn. rewrite sentinel_means by done. by rewrite Hn.
Qed.

Lemma bind_null f c s i k :
  agrees c s -> ctx_ok x -> 0 <= i < Z.of_nat (stages f) -> 0 <= k <= 2 ->
  let tl := <[Z.to_nat i := null_texture_tex_sentinel k]> (textures f (last_bound c)) in
  let kl := <[Z.to_nat i := NULL_TEXTURE_SAMPLER_SENTINEL]> (samplers f (last_bound c)) in
  exists tch kch, slot_changed (textures f (last_bound c)) i (null_texture_tex_sentinel k) = Some (tch, tl)
    /\ slot_changed (samplers f (last_bound c)) i NULL_TEXTURE_SAMPLER_SENTINEL = Some (kch, kl)
    /\ step_ok s (if_changed tch (WN f k i)) [WN f k i] (with_tables f c tl kl).
Proof.
  intros A Hx Hi Hk tl kl. destruct (stages_length f c s A) as [L1 L2].
  destruct (slot_changed_ok (textures f (last_bound c)) i (null_texture_tex_sentinel k)) as (ot & Hot & ->); [lia|].
  destruct (slot_changed_ok (samplers f (last_bound c)) i NULL_TEXTURE_SAMPLER_SENTINEL) as (ok & Hok & ->); [lia|].
  eexists _, _. split; [done|]. split; [done|]. set (tch := negb (ot =? null_texture_tex_sentinel k)).
  assert (E : same (after m s (if tch then null_calls f k i else [])) (null_pair f s i k)).
  { destruct tch eqn:Et; [by apply null_after|]. cbn. apply negb_false_iff, Z.eqb_eq in Et.
    intros p. unfold null_pair, with_pair. destruct (null_means k Hx) as [_ ->]. destruct (nulls x) as [n|] eqn:En; cbn; [|by repeat case_bool_decide].
    case_bool_decide as E1; [subst p; apply (null_held f c s i k ot); [done..|lia|done]|]. case_bool_decide as E2; [|done]. subst p.
    apply (ag_believed _ _ A). rewrite believed_sampler.
    assert (at_slot (samplers f (last_bound c)) i = Some NULL_TEXTURE_SAMPLER_SENTINEL) as ->.
    { unfold at_slot in *. destruct (i <? 0) eqn:?; [done|]. apply (stages_paired f c s A _ ot); [done|]. subst ot.
      unfold null_texture_tex_sentinel. lia. }
    cbn. change (sampler_of NULL_TEXTURE_SAMPLER_SENTINEL) with (default_sampler x). destruct (null_means k Hx) as [_ ->]. by rewrite En. }
  eapply (step_quiet s _ _ _ (if tch then null_calls f k i else []) (null_calls f k i)).
  - destruct tch; cbn; repeat constructor.
  - destruct tch; [apply null_quiet|by split].
  - apply null_quiet.
  - rewrite E. symmetry. by apply null_after.
  - apply (pair_agrees f c s _ i _ _ (n ← nulls x; Some (null_texture n k)) (default_sampler x) A Hi); [done| |done|exact E].
    apply sentinel_means. lia.
Qed.

(** A depth slot without a texture: the fallback, then the slot's own sampler. *)
Lemma depth_after s i k (tch kch : bool) : ctx_ok x ->
  (forall n, tch = false -> nulls x = Some n -> s (FragmentTexture i) = Nums [null_texture n Depth2D]) ->
  (forall d, tch = false -> kch = false -> sampler_or_default x k = Some d -> s (FragmentSampler i) = Nums [d]) ->
  (tch = true -> kch = false -> k = 0) ->
  same (after m s ((if tch then null_calls true Depth2D i else []) ++ (if kch then sampler_calls true k i else [])))
       (with_pair true s i (n ← nulls x; Some (null_texture n Depth2D)) (sampler_or_default x k)).
Proof.
  intros Hx Ht Hk Hz p. destruct (null_means Depth2D Hx) as [Hb Hd].
  assert (N : forall s, same (after m s (if kch then sampler_calls true k i else []))
                 (with_pair true s i None (if kch then sampler_or_default x k else None))).
  { intros s0 q. unfold sampler_calls, with_pair. destruct kch, (sampler_or_default x k) as [d|]; cbn; unfold put; cbn; repeat case_bool_decide; by subst. }
  rewrite after_app, (N _ p).
  assert (M : same (after m s (if tch then null_calls true Depth2D i else []))
                (with_pair true s i (n ← nulls x; Some (null_texture n Depth2D)) (if tch then default_sampler x else None))).
  { destruct tch; [by apply null_after|]. intros q. cbn. unfold with_pair. destruct (nulls x) as [n|]; cbn; [|by repeat case_bool_decide].
    case_bool_decide; subst; [by apply Ht|by repeat case_bool_decide]. }
  unfold with_pair at 1. rewrite (M p). unfold with_pair.
  destruct (bool_decide (p = PT true i)); [done|]. destruct (bool_decide (p = PS true i)) eqn:E; [|done].
  apply bool_decide_eq_true in E as ->. destruct kch.
  - destruct (sampler_or_default x k) as [d|] eqn:Es; [done|]. destruct tch; [|done].
    unfold sampler_or_default, borrow in Es. destruct (k =? 0); [by rewrite Es|done].
  - destruct tch; [rewrite (Hz eq_refl eq_refl); done|]. destruct (sampler_or_default x k) as [d|]; [by apply Hk|done].
Qed.

Lemma bind_missing_depth c s i k :
  agrees c s -> ctx_ok x -> 0 <= i < 16 -> 0 <= k < NULL_TEXTURE_SAMPLER_SENTINEL -> performed c s (MissingStage i Depth2D k).
Proof.
  intros A Hx Hi Hk. destruct (stages_length true c s A) as [L1 L2]. cbn in L1, L2.
  destruct (slot_changed_ok (fragment_textures (last_bound c)) i (null_texture_tex_sentinel Depth2D)) as (ot & Hot & Et); [lia|].
  set (tch := negb (ot =? null_texture_tex_sentinel Depth2D)) in *.
  destruct (slot_changed_ok (fragment_samplers (last_bound c)) i NULL_TEXTURE_SAMPLER_SENTINEL) as (ok & Hok & Ek); [lia|].
  set (sl := if tch then <[Z.to_nat i := NULL_TEXTURE_SAMPLER_SENTINEL]> (fragment_samplers (last_bound c)) else fragment_samplers (last_bound c)).
  assert (Ls : 0 <= i < Z.of_nat (length sl)) by (unfold sl; destruct tch; rewrite ?length_insert; lia).
  destruct (slot_changed_ok sl i (sampler_cache_key k) Ls) as (ok' & Hok' & Ek').
  set (kch := negb (ok' =? sampler_cache_key k)) in *.
  assert (El : <[Z.to_nat i := sampler_cache_key k]> sl = <[Z.to_nat i := sampler_cache_key k]> (fragment_samplers (last_bound c))).
  { unfold sl. destruct tch; [|done]. by rewrite list_insert_insert_eq. }
  assert (E : same (after m s ((if tch then null_calls true Depth2D i else []) ++ (if kch then sampler_calls true k i else [])))
       (with_pair true s i (n ← nulls x; Some (null_texture n Depth2D)) (sampler_or_default x k))).
  { apply depth_after; [done|..].
    - intros n Ht Hn. apply negb_false_iff, Z.eqb_eq in Ht. by apply (null_held true c s i Depth2D ot).
    - intros d Ht Hkc Hd. apply negb_false_iff, Z.eqb_eq in Hkc. apply (ag_believed _ _ A (PS true i)). rewrite believed_sampler. cbn.
      unfold sl in Hok'. rewrite Ht in Hok'. rewrite Hok'. cbn. by rewrite Hkc, key_means, Hd.
    - intros Ht Hkc. apply negb_false_iff, Z.eqb_eq in Hkc. unfold sl in Hok'. rewrite Ht, at_slot_insert, Z.eqb_refl in Hok' by lia.
      injection Hok' as <-. unfold sampler_cache_key in Hkc. destruct (k =? 0) eqn:?; reflect_cmp; [done|lia]. }
  exists (if_changed tch (WFragmentNull Depth2D i) ++ if_changed kch (WFragmentSampler k i)).
  exists (with_tables true c (<[Z.to_nat i := null_texture_tex_sentinel Depth2D]> (fragment_textures (last_bound c)))
            (<[Z.to_nat i := sampler_cache_key k]> (fragment_samplers (last_bound c)))).
  split.
  - cbn -[null_texture_tex_sentinel]. unfold bind_missing, fragment_texture_changed. rewrite Et. cbn -[null_texture_tex_sentinel].
    unfold fragment_sampler_changed. subst tch sl. destruct (negb (ot =? _)); cbn -[null_texture_tex_sentinel] in *.
    + rewrite Ek. cbn -[null_texture_tex_sentinel]. rewrite Ek'. cbn -[null_texture_tex_sentinel]. by rewrite El.
    + rewrite Ek'. cbn -[null_texture_tex_sentinel]. done.
  - apply (step_quiet s _ _ _ ((if tch then null_calls true Depth2D i else []) ++ (if kch then sampler_calls true k i else []))
             (null_calls true Depth2D i ++ sampler_calls true k i)).
    + destruct tch, kch; cbn; repeat constructor.
    + apply quiet_app; [destruct tch; [apply (null_quiet true)|by split]|destruct kch; [apply (sampler_quiet true)|by split]].
    + apply (quiet_app [_] [_]); [apply (null_quiet true)|apply (sampler_quiet true)].
    + rewrite E. symmetry. by apply (depth_after s i k true true).
    + apply (pair_agrees true c s _ i _ _ (n ← nulls x; Some (null_texture n Depth2D)) (sampler_or_default x k) A Hi);
        [|by apply sentinel_means|by apply key_means|exact E].
      unfold null_texture_tex_sentinel, Depth2D. lia.
Qed.
Lemma bound_stage_performed c s i t k :
  agrees c s -> 0 <= i < 16 -> is_handle t -> 0 <= k < NULL_TEXTURE_SAMPLER_SENTINEL ->
  performed c s (BoundStage i t k) /\ (k <> 0 -> i = 0 -> performed c s (BlitSource t k)).
Proof.
  intros A Hi Ht Hk. destruct (bind_pair true c s i t k A Hi Ht Hk) as (tch & kch & E1 & E2 & S). cbn in E1, E2, S.
  assert (P : bind_texture (last_bound c) i t (sampler_cache_key k) k =
    Some (if_changed tch (WFragmentTexture t i) ++ if_changed kch (WFragmentSampler k i),
          last_bound (with_tables true c (<[Z.to_nat i := t]> (fragment_textures (last_bound c)))
                        (<[Z.to_nat i := sampler_cache_key k]> (fragment_samplers (last_bound c)))))).
  { unfold bind_texture, fragment_texture_changed. rewrite E1. cbn. unfold fragment_sampler_changed. cbn. by rewrite E2. }
  split.
  - eexists _, _. split; [|exact S]. cbn. by rewrite P.
  - intros Hz ->. eexists _, _. split; [|exact S]. cbn. unfold sampler_cache_key in *.
    destruct (k =? 0) eqn:?; reflect_cmp; [lia|]. by rewrite P.
Qed.

Lemma fetch_performed c s i t k :
  agrees c s -> 0 <= i < 4 -> is_handle t -> 0 <= k < NULL_TEXTURE_SAMPLER_SENTINEL -> performed c s (VertexFetch i t k).
Proof.
  intros A Hi Ht Hk. destruct (bind_pair false c s i t k A Hi Ht Hk) as (tch & kch & E1 & E2 & S). cbn in E1, E2, S.
  eexists _, _. split; [|exact S]. cbn. unfold fetch_texture, vertex_texture_changed. rewrite E1. cbn.
  unfold vertex_sampler_changed. cbn. by rewrite E2.
Qed.

Lemma fetch_null_performed c s i k : agrees c s -> ctx_ok x -> 0 <= i < 4 -> 0 <= k <= 2 -> performed c s (VertexFetchNull i k).
Proof.
  intros A Hx Hi Hk. destruct (bind_null false c s i k A Hx Hi Hk) as (tch & kch & E1 & E2 & S). cbn in E1, E2, S.
  eexists _, _. split; [|exact S]. cbn. unfold fetch_null, vertex_texture_changed. rewrite E1. cbn.
  unfold vertex_sampler_changed. cbn. by rewrite E2.
Qed.

Lemma null_stage_performed c s i k z : agrees c s -> ctx_ok x -> 0 <= i < 16 -> 0 <= k <= 2 ->
  performed c s (UnboundStage i k) /\ performed c s (MissingStage i k z).
Proof.
  intros A Hx Hi Hk. destruct (bind_null true c s i k A Hx Hi Hk) as (tch & kch & E1 & E2 & S). cbn in E1, E2, S. split.
  - eexists _, _. split; [|exact S]. cbn. unfold bind_unbound, fragment_texture_changed. rewrite E1. cbn.
    unfold fragment_sampler_changed. cbn. by rewrite E2.
  - assert (Hd : (k =? Depth2D) = false) by (apply Z.eqb_neq; unfold Depth2D; lia).
    eexists _, _. split; [|cbn; rewrite Hd; exact S]. cbn. unfold bind_missing, fragment_texture_changed. rewrite E1, Hd. cbn.
    unfold fragment_sampler_changed. destruct tch; cbn; rewrite E2; [|done]. cbn.
    destruct (stages_length true c s A) as [_ L]. cbn in L.
    destruct (slot_changed_ok (<[Z.to_nat i := NULL_TEXTURE_SAMPLER_SENTINEL]> (fragment_samplers (last_bound c))) i NULL_TEXTURE_SAMPLER_SENTINEL)
      as (o & _ & ->); [rewrite length_insert; lia|]. cbn. by rewrite list_insert_insert_eq.
Qed.

(** ** Vertex buffers *)

Definition with_buffers (c : Caches) (l : list (Z * Z * Z)) : Caches :=
  mkCaches (set_vertex_buffers (last_bound c) l) (vs_bound_constants c) (ps_bound_constants c).

Lemma agrees_buffer c s s' i e : agrees c s -> 0 <= i < 16 -> (forall p, p <> VertexArg i -> s' p = s p) ->
  (e.1.1 <> 0 -> s' (VertexArg i) = Buffer e.1.1 e.1.2) -> agrees (with_buffers c (<[Z.to_nat i := e]> (vertex_buffers (last_bound c)))) s'.
Proof.
  intros [A B C D] Hi Hs He. split; [|done|done|cbn; by rewrite length_insert].
  intros p v. destruct (decide (p = VertexArg i)) as [->|Hne].
  - cbn. destruct (i <? VERTEX_STREAM_SLOTS) eqn:E; reflect_cmp; [|unfold VERTEX_STREAM_SLOTS in *; lia].
    unfold at_slot. destruct (i <? 0) eqn:?; reflect_cmp; [lia|]. rewrite list_lookup_insert_eq by lia. destruct e as [[h o] g]. cbn.
    destruct (h =? 0) eqn:Eh; [done|]. reflect_cmp. intros [= <-]. by apply He.
  - rewrite Hs by done. intros Hp. apply A. rewrite <- Hp. destruct p as [| | | | | | | | | |j| | | | |]; try done. cbn.
    destruct (j <? VERTEX_STREAM_SLOTS); [|done]. unfold at_slot. destruct (j <? 0) eqn:?; [done|]. reflect_cmp.
    rewrite list_lookup_insert_ne; [done|]. intros E. apply Hne. f_equal. lia.
Qed.

Lemma stream_performed c s i h o g : agrees c s -> 0 <= i < 16 -> h <> 0 -> performed c s (Stream i h o g).
Proof.
  intros A Hi Hh. assert (L : length (vertex_buffers (last_bound c)) = 16%nat) by apply A.
  destruct (lookup_lt_is_Some_2 (vertex_buffers (last_bound c)) (Z.to_nat i)) as [[[h0 o0] g0] E0]; [lia|].
  set (same_place := (h0 =? h) && (o0 =? o) && (g0 =? g)).
  set (l' := <[Z.to_nat i := (h, o, g)]> (vertex_buffers (last_bound c))).
  assert (P : perform m (Stream i h o g) c = Some (if_changed (negb same_place) (WVertexBuffer h o i), with_buffers c l')).
  { cbn. unfold bind_stream, vertex_buffer_changed. rewrite E0. cbn. unfold same_place.
    destruct ((h0 =? h) && (o0 =? o)) eqn:E1; [destruct (g0 =? g) eqn:E2|]; cbn; [|done..].
    apply andb_true_iff in E1 as [Eh Eo]. reflect_cmp. subst. unfold l', with_buffers. rewrite list_insert_id by done. destruct c as [[] ? ?]; done. }
  assert (Q : quiet [WVertexBuffer h o i] [setVertexBuffer h o i]).
  { apply sets_quiet; [|done]. intros R HR l. cbn. unfold bound, borrow. apply Z.eqb_neq in Hh. by rewrite Hh. }
  assert (H0 : same_place = true -> s (VertexArg i) = Buffer h o).
  { intros E. apply andb_true_iff in E as [[Eh Eo]%andb_true_iff Eg]. reflect_cmp. subst. apply (ag_believed _ _ A). cbn.
    destruct (i <? VERTEX_STREAM_SLOTS) eqn:E; reflect_cmp; [|unfold VERTEX_STREAM_SLOTS in *; lia].
    unfold at_slot. destruct (i <? 0) eqn:?; reflect_cmp; [lia|]. rewrite E0. cbn. apply Z.eqb_neq in Hh. by rewrite Hh. }
  apply (performed_quiet c s _ _ _ (if same_place then [] else [setVertexBuffer h o i]) [setVertexBuffer h o i] P).
  - destruct same_place; cbn; repeat constructor.
  - destruct same_place; [by split|done].
  - done.
  - destruct same_place; [|done]. cbn. symmetry. by apply put_noop, H0.
  - apply (agrees_buffer c s); [done|done|..].
    + intros p Hp. destruct same_place; [done|]. cbn. by apply put_off.
    + intros _. destruct same_place; [by apply H0|]. cbn. by rewrite put_at.
Qed.

(** A slot forgotten, whatever was set there. *)
Lemma forget_ok c s i : agrees c s -> 0 <= i < 16 ->
  exists b, invalidate_vertex_buffer_slot (last_bound c) i = Some b
  /\ forall s', (forall p, p <> VertexArg i -> s' p = s p) -> agrees (mkCaches b (vs_bound_constants c) (ps_bound_constants c)) s'.
Proof.
  intros A Hi. assert (L : length (vertex_buffers (last_bound c)) = 16%nat) by apply A.
  destruct (lookup_lt_is_Some_2 (vertex_buffers (last_bound c)) (Z.to_nat i)) as [e E]; [lia|].
  unfold invalidate_vertex_buffer_slot. rewrite E. eexists. split; [done|]. intros s' Hs. by apply (agrees_buffer c s).
Qed.

(** Inline bytes set no place but their own. *)
Lemma inline_only {R} `{!InlineRing R} s p n i (l : Loop R) q : q <> VertexArg i ->
  after m s (asked x (WVertexBytes p n i) l).1 q = s q /\ after m s (asked x (WVertexBytesAt p n i) l).1 q = s q.
Proof.
  intros Hq. cbn. unfold plain, bound, through_ring.
  split; repeat match goal with |- context [match ?e with _ => _ end] => destruct e end; cbn; rewrite ?put_off by done; done.
Qed.

Lemma up_performed c s binds : agrees c s -> Forall (λ b : Z * Z * Z, 0 <= b.1.1 < 16) binds -> performed c s (UpVertices binds).
Proof.
  intros A Hb. enough (exists b, bind_inline (last_bound c) binds = Some (always (UpVertices binds), b)
    /\ forall {R} `{!InlineRing R} (l : Loop R), agrees (mkCaches b (vs_bound_constants c) (ps_bound_constants c)) (after m s (all_asked x (always (UpVertices binds)) l).1))
    as (b & E & H).
  { eapply performed_always; [|exact H]. cbn. by rewrite E. }
  revert c s A. induction Hb as [|[[i p] n] binds Hi Hb IH]; intros c s A; cbn in *.
  - destruct (forget_ok c s 0 A ltac:(lia)) as (b & E & F). unfold invalidate_vertex_buffer. rewrite E. eexists. split; [done|].
    intros R HR l. by apply F.
  - destruct (forget_ok c s i A Hi) as (b & E & F). rewrite E. cbn.
    set (c1 := mkCaches b (vs_bound_constants c) (ps_bound_constants c)) in *.
    assert (W : exists b', bind_inline b binds = Some ((λ '(slot, ptr, size), WVertexBytes ptr size slot) <$> binds, b')).
    { destruct (IH c1 s (F s ltac:(done))) as (b' & E' & _). by exists b'. }
    destruct W as (b' & W). rewrite W. cbn. exists b'. split; [done|]. intros R HR l.
    destruct (asked x (WVertexBytes p n i) l) as [now k] eqn:Ea.
    destruct (IH c1 (after m s now)) as (b2 & W2 & H2).
    { apply F. intros q Hq. pose proof (inline_only s p n i l q Hq) as [H _]. by rewrite Ea in H. }
    cbn in W2. rewrite W in W2. injection W2 as <-. specialize (H2 R HR k).
    cbn in Ea. rewrite Ea.
    destruct (all_asked x (_ <$> binds) k) as [later q]. cbn [fst] in *. by rewrite after_app.
Qed.

Lemma vertex_inline_performed c s i p n : agrees c s -> 0 <= i < 16 ->
  performed c s (NullStream i p n) /\ (i = 0 -> performed c s (QuadVertices p n)).
Proof.
  intros A Hi. destruct (forget_ok c s i A Hi) as (b & E & F).
  assert (H : forall {R} `{!InlineRing R} (l : Loop R),
    agrees (mkCaches b (vs_bound_constants c) (ps_bound_constants c)) (after m s (all_asked x [WVertexBytesAt p n i] l).1)).
  { intros R HR l. apply F. intros q Hq. pose proof (inline_only s p n i l q Hq) as [_ H].
    cbn [all_asked]. destruct (asked x _ l) as [now k]. cbn. by rewrite app_nil_r. }
  split; [|intros ->]; (eapply performed_always; [|exact H]); cbn; unfold invalidate_vertex_buffer; by rewrite E.
Qed.

(** Calls that set only what the caches believe nothing of. *)
Lemma agrees_unknown c s calls : agrees c s ->
  Forall (λ call, forall p v, sets m call = Some (p, v) -> believed c p = None) calls -> agrees c (after m s calls).
Proof.
  intros A H. revert s A. induction H as [|call calls Hc _ IH]; intros s A; [done|]. cbn. apply IH. unfold call_step.
  destruct (sets m call) as [[p v]|] eqn:E; [|done]. by apply agrees_put_unknown, (Hc p v).
Qed.

(** The commands that set nothing the caches hold. *)
Definition untracked (w : Wire) : bool :=
  match w with
  | WViewport _ _ _ _ _ _ | WDraw _ _ _ | WDrawIndexed _ _ _ _ _ _ _ | WDrawIndexedUp _ _ _ _ _ _ | WVisibility _ _ | WPush _ | WPop => true
  | WFragmentBytesAt _ _ i => i =? 0
  | _ => false
  end.

Lemma untracked_performed c s w : agrees c s -> untracked w = true -> performed c s (Untracked w).
Proof.
  intros A Hw. apply (performed_always c s _ c); [by destruct c|]. intros R HR l. apply agrees_unknown; [done|].
  assert (H : Forall (λ call, forall p v, sets m call = Some (p, v) -> believed c p = None) (asked x w l).1).
  { destruct w; try done; cbn; unfold plain, bound, through_ring;
      repeat match goal with |- context [match ?e with _ => _ end] => destruct e end;
      repeat constructor; cbn; intros p0 v0; intros [= <- <-]; try done. by apply Z.eqb_eq in Hw as ->. }
  cbn [always all_asked]. destruct (asked x w l) as [now k]. cbn in *. by rewrite app_nil_r.
Qed.

Lemma blit_arguments_performed c s p q : agrees c s -> performed c s (BlitArguments p q).
Proof.
  intros A. destruct (forget_ok c s 0 A ltac:(lia)) as (b & E & F).
  set (c1 := mkCaches b (vs_bound_constants c) (ps_bound_constants c)) in *.
  apply (performed_always c s _ c1); [cbn; unfold invalidate_vertex_buffer; by rewrite E|]. intros R HR l.
  change (always (BlitArguments p q)) with ([WVertexBytesAt p 16 0] ++ [WFragmentBytesAt q 16 0]). rewrite all_asked_app.
  destruct (all_asked x [WVertexBytesAt p 16 0] l) as [now k] eqn:Ea. destruct (all_asked x [WFragmentBytesAt q 16 0] k) as [later k'] eqn:Eb.
  cbn [fst]. rewrite after_app. apply agrees_unknown.
  - apply F. intros r Hr. pose proof (inline_only s p 16 0 l r Hr) as [_ H]. cbn [all_asked] in Ea.
    destruct (asked x _ l) as [now' k2]. injection Ea as <- <-. by rewrite app_nil_r.
  - cbn in Eb. unfold bound in Eb. destruct (borrow q); injection Eb as <- <-; repeat constructor. cbn. intros r v [= <- <-]. done.
Qed.
(** ** Whole passes *)

Definition token_ok (t : Token) : Prop := is_u64 t.1 /\ is_u32 t.2 /\ (0 < t.2 -> t.1 <> 0).
Definition sampler_ok (k : Z) : Prop := 0 <= k < NULL_TEXTURE_SAMPLER_SENTINEL.

(** What the arguments of a request are: of their widths, within their tables,
    handles of Metal's, and bytes that are in memory where the request says. *)
Definition request_legal (r : Request) : Prop :=
  match r with
  | Scissor a b w h => is_u32 a /\ is_u32 b /\ is_u32 w /\ is_u32 h
  | Pipeline p | DepthStencil p => is_u64 p
  | Cull v => 0 <= v <= 2
  | Fill v => 0 <= v <= 1
  | DepthBias b k => is_u32 b /\ is_u32 k
  | StencilReference v | BlendFactor v => is_u32 v
  | BoundStage i t k => 0 <= i < 16 /\ is_handle t /\ sampler_ok k
  | MissingStage i k z => 0 <= i < 16 /\ 0 <= k <= 3 /\ sampler_ok z
  | UnboundStage i k => 0 <= i < 16 /\ 0 <= k <= 2
  | BlitSource t k => is_handle t /\ is_handle k
  | VertexFetch i t k => 0 <= i < 4 /\ is_handle t /\ sampler_ok k
  | VertexFetchNull i k => 0 <= i < 4 /\ 0 <= k <= 2
  | Inline slot bytes ptr =>
      bytes <> [] /\ ptr <> 0 /\ is_u64 ptr /\ is_u32 (Z.of_nat (length bytes)) /\ bytes_of m ptr (Z.of_nat (length bytes)) = bytes
  | VsConstants t | PsConstants t => token_ok t
  | VertexUniform t i => token_ok t /\ (i = VS_INT_CONST_SLOT \/ i = VS_BOOL_CONST_SLOT)
  | FragmentUniform t i => token_ok t /\ (i = PS_INT_CONST_SLOT \/ i = PS_BOOL_CONST_SLOT)
  | Stream i h o _ => 0 <= i < 16 /\ 0 < h /\ is_u64 h /\ is_u32 o
  | UpVertices binds => 0 ∈ ((λ b, b.1.1) <$> binds) /\ Forall (λ b, 0 <= b.1.1 < 16 /\ is_u64 b.1.2 /\ is_u32 b.2) binds
  | NullStream i p n => 0 <= i < 16 /\ is_u64 p /\ is_u32 n
  | QuadVertices p n => is_u64 p /\ is_u32 n
  | BlitArguments p q => is_u64 p /\ is_u64 q
  | Untracked w => untracked w = true /\ in_range w
  end.

Lemma request_performed c s r : ctx_ok x -> agrees c s -> request_legal r -> performed c s r.
Proof.
  intros Hx A. destruct r; cbn [request_legal]; intros H; destruct_and?.
  - by apply scissor_performed.
  - by apply pipeline_performed.
  - by apply depth_stencil_performed.
  - by apply cull_performed.
  - by apply fill_performed.
  - by apply bias_performed.
  - by apply stencil_performed.
  - by apply blend_performed.
  - by apply bound_stage_performed.
  - destruct (decide (kind = Depth2D)) as [->|Hk]; [by apply bind_missing_depth|].
    apply null_stage_performed; try done. unfold Depth2D in *. lia.
  - by apply null_stage_performed.
  - unfold is_handle in *. apply (bound_stage_performed c s 0); try done; unfold is_handle; lia.
  - by apply fetch_performed.
  - by apply fetch_null_performed.
  - by apply inline_performed.
  - apply vs_constants_performed; [done|]. apply H.
  - apply ps_constants_performed; [done|]. apply H.
  - match goal with H : token_ok _ |- _ => by apply uniform_performed; [|apply H|] end.
  - match goal with H : token_ok _ |- _ => by apply uniform_performed; [|apply H|] end.
  - apply stream_performed; [done|done|lia].
  - apply up_performed; [done|]. eapply Forall_impl; [done|]. by intros b (? & ? & ?).
  - by apply vertex_inline_performed.
  - by apply (vertex_inline_performed c s 0); [|lia|].
  - by apply blit_arguments_performed.
  - by apply untracked_performed.
Qed.

Lemma lane_range b : 0 <= b <= 255 -> is_u32 (lane b).
Proof.
  intros Hb. assert (F : forallb (λ b, (0 <=? lane b) && (lane b <=? u32_max)) (seqZ 0 256) = true) by (vm_compute; done).
  rewrite forallb_forall in F. specialize (F b). apply andb_true_iff in F as [F1 F2].
  - unfold is_u32. lia.
  - apply list_elem_of_In, elem_of_seqZ. lia.
Qed.

Ltac in_ranges := repeat first [apply Forall_nil_2 | apply Forall_cons_2];
  cbn -[lane]; unfold token_ok, sampler_ok, is_handle, NULL_TEXTURE_SAMPLER_SENTINEL, VS_FLOAT_CONST_SLOT, is_u32, is_u64, u32_max, u64_max in *; try done; try lia.

Lemma always_in_range r : request_legal r -> Forall in_range (always r).
Proof.
  destruct r; cbn [request_legal always]; intros H; destruct_and?.
  8: { assert (L : forall v, is_u32 (lane (Z.land v 0xFF))).
       { intros v. apply lane_range. assert (Z.land v 0xFF = v mod 256) as -> by (apply (Z.land_ones v 8); lia).
         pose proof (Z.mod_pos_bound v 256 ltac:(lia)). lia. }
       cbn -[lane]. pose proof (L (Z.shiftr d3dcolor 16)). pose proof (L (Z.shiftr d3dcolor 8)).
       pose proof (L d3dcolor). pose proof (L (Z.shiftr d3dcolor 24)). in_ranges. }
  all: try (in_ranges; fail).
  all: unfold VS_INT_CONST_SLOT, VS_BOOL_CONST_SLOT, PS_INT_CONST_SLOT, PS_BOOL_CONST_SLOT in *;
    repeat match goal with |- context [if ?b then _ else _] => destruct b end; try (in_ranges; fail).
  - destruct slot; in_ranges.
  - apply Forall_fmap. eapply Forall_impl; [done|]. intros [[i p] n]. in_ranges.
Qed.

Lemma all_performed rs c : ctx_ok x -> Forall request_legal rs -> (exists s, agrees c s) ->
  exists ws c', perform_all m rs c = Some (ws, c') /\ forall s, agrees c s -> step_ok s ws (rs ≫= always) c'.
Proof.
  intros Hx Hl. revert c. induction Hl as [|r rs Hr Hl IH]; intros c [s0 A0].
  - exists [], c. split; [done|]. intros s A. by apply (step_quiet s [] [] c [] []).
  - destruct (request_performed c s0 r Hx A0 Hr) as (ws & c1 & Hp & _ & _ & A1).
    destruct (IH c1) as (ws' & c2 & Hp' & Hs'); [eexists; exact (A1 unit (λ u _ _ _, (None, u)) (mkLoop tt 0))|].
    exists (ws ++ ws'), c2. split; [cbn; rewrite Hp; cbn; by rewrite Hp'|]. intros s A.
    destruct (request_performed c s r Hx A Hr) as (ws1 & c1' & Hp1 & S). rewrite Hp in Hp1. injection Hp1 as <- <-.
    cbn. apply (step_app s ws (always r) c1); [done|]. intros s1 A1' _. by apply Hs'.
Qed.
End Believed.

(** ** The shadow *)

(** The shadow that agrees with a cache. *)
Definition shadow_of (c : LastBoundCache) : DebugBoundShadow :=
  mkShadow (fragment_samplers c) (fragment_textures c) (pipeline c) (depth_stencil c) (cull_mode c) (triangle_fill_mode c)
    ((λ '(h, o, _), (h, o)) <$> vertex_buffers c) ((λ '(x, y, w, h), (x, y, Z.lor (Z.shiftl w 32) h)) <$> scissor_rect c) (depth_bias_bits c).

Lemma shadow_in_sync c : debug_assert_in_sync c (shadow_of c) = true.
Proof.
  unfold debug_assert_in_sync. cbn. rewrite !Z.eqb_refl, !bool_decide_true by done. cbn.
  assert (Z1 : forall l : list Z, forallb (λ '(a, b), a =? b) (zip l l) = true).
  { induction l as [|a l IH]; cbn; [done|]. by rewrite Z.eqb_refl. }
  assert (Z2 : forall l : list (Z * Z * Z), forallb (λ '((h, o, _), e), bool_decide ((h, o) = e)) (zip l ((λ '(h, o, _), (h, o)) <$> l)) = true).
  { induction l as [|[[h o] g] l IH]; cbn; [done|]. by rewrite bool_decide_true. }
  by rewrite Z2, !Z1.
Qed.

Lemma record_all_app s a b : record_all s (a ++ b) = record_all s a ≫= λ s, record_all s b.
Proof. revert s. induction a as [|c a IH]; intros s; cbn; [done|]. by destruct (record s c); cbn. Qed.

Section Shadow.
Context (m : Z -> Z) (x : Ctx).

Definition recorded (b : LastBoundCache) (ws : list Wire) (b' : LastBoundCache) : Prop :=
  record_all (shadow_of b) (to_command <$> ws) = Some (shadow_of b').

Lemma store_ok {A} (l : list A) i v : 0 <= i < Z.of_nat (length l) -> store l i v = Some (<[Z.to_nat i := v]> l).
Proof. intros Hi. unfold store. destruct (lookup_lt_is_Some_2 l (Z.to_nat i)) as [o ->]; [lia|done]. Qed.

Lemma recorded_app b ws b1 ws' b2 : recorded b ws b1 -> recorded b1 ws' b2 -> recorded b (ws ++ ws') b2.
Proof. unfold recorded. intros H H'. rewrite fmap_app, record_all_app, H. exact H'. Qed.

Lemma recorded_one b w b' : record (shadow_of b) (to_command w) = Some (shadow_of b') -> recorded b [w] b'.
Proof. unfold recorded. cbn. by intros ->. Qed.

Lemma recorded_same b b' : shadow_of b = shadow_of b' -> recorded b [] b'.
Proof. unfold recorded. cbn. by intros ->. Qed.

Lemma recorded_if b w b' (ch : bool) : (ch = false -> b' = b) -> (ch = true -> record (shadow_of b) (to_command w) = Some (shadow_of b')) ->
  recorded b (if_changed ch w) b'.
Proof. destruct ch; intros H H'; [by apply recorded_one, H'|by rewrite H]. Qed.

Lemma recorded_untracked b w b' (ch : bool) : shadow_of b = shadow_of b' -> record (shadow_of b) (to_command w) = Some (shadow_of b) ->
  recorded b (if_changed ch w) b'.
Proof. intros H H'. destruct ch; [apply recorded_one; by rewrite H', H|by apply recorded_same]. Qed.

(** The slot's value is replaced, and the list is as it was where it holds it already. *)
Lemma slot_changed_inv l i v ch l' : slot_changed l i v = Some (ch, l') -> l' = <[Z.to_nat i := v]> l /\ (ch = false -> l' = l).
Proof.
  unfold slot_changed. intros (o & Ho & [= H])%bind_Some. destruct (o =? v) eqn:E; simplify_eq; [|done].
  apply Z.eqb_eq in E as ->. by rewrite list_insert_id.
Qed.

Lemma texture_recorded b i t ch b' : 0 <= i < Z.of_nat (length (fragment_textures b)) ->
  fragment_texture_changed b i t = Some (ch, b') -> recorded b (if_changed ch (WFragmentTexture t i)) b'.
Proof.
  intros Hi. unfold fragment_texture_changed. intros ([c l] & E & [= <- <-])%bind_Some. apply slot_changed_inv in E as [-> E].
  apply recorded_if; [intros H; specialize (E H); rewrite E; by destruct b|intros _]. cbn. by rewrite store_ok.
Qed.

Lemma sampler_recorded b i k ch b' : 0 <= i < Z.of_nat (length (fragment_samplers b)) ->
  fragment_sampler_changed b i (sampler_cache_key k) = Some (ch, b') -> recorded b (if_changed ch (WFragmentSampler k i)) b'.
Proof.
  intros Hi. unfold fragment_sampler_changed. intros ([c l] & E & [= <- <-])%bind_Some. apply slot_changed_inv in E as [-> E].
  apply recorded_if; [intros H; specialize (E H); rewrite E; by destruct b|intros _]. cbn. by rewrite store_ok.
Qed.

Lemma bind_texture_recorded b i t k ws b' :
  0 <= i < Z.of_nat (length (fragment_textures b)) -> length (fragment_samplers b) = length (fragment_textures b) ->
  bind_texture b i t (sampler_cache_key k) k = Some (ws, b') -> recorded b ws b'.
Proof.
  intros Hi L. unfold bind_texture. intros ([tc b1] & E1 & ([kc b2] & E2 & [= <- <-])%bind_Some)%bind_Some.
  eapply recorded_app; [by eapply texture_recorded|]. eapply sampler_recorded; [|done].
  unfold fragment_texture_changed in E1. apply bind_Some in E1 as ([? ?] & _ & [= <- <-]). cbn. lia.
Qed.

(** The fallback pair: the command sets both slots, and is left out only where both hold it. *)
Lemma null_recorded b i k tc b1 kc b2 :
  0 <= i < Z.of_nat (length (fragment_textures b)) -> length (fragment_samplers b) = length (fragment_textures b) ->
  fragment_texture_changed b i (null_texture_tex_sentinel k) = Some (tc, b1) ->
  fragment_sampler_changed b1 i NULL_TEXTURE_SAMPLER_SENTINEL = Some (kc, b2) ->
  (tc = false -> fragment_samplers b !! Z.to_nat i = Some NULL_TEXTURE_SAMPLER_SENTINEL) ->
  recorded b (if_changed tc (WFragmentNull k i)) b2.
Proof.
  intros Hi L. unfold fragment_texture_changed, fragment_sampler_changed.
  intros ([c l] & E1 & [= <- <-])%bind_Some ([c' l'] & E2 & [= <- <-])%bind_Some Hp.
  apply slot_changed_inv in E1 as [-> E1]. cbn in E2. apply slot_changed_inv in E2 as [-> _].
  apply recorded_if; intros H.
  - rewrite (E1 H). cbn. rewrite (list_insert_id (fragment_samplers b)) by (by apply Hp). by destruct b.
  - cbn -[null_texture_tex_sentinel]. rewrite store_ok by lia. cbn -[null_texture_tex_sentinel]. rewrite store_ok by lia. done.
Qed.

Lemma unbound_recorded b i k ws b' :
  0 <= i < Z.of_nat (length (fragment_textures b)) -> length (fragment_samplers b) = length (fragment_textures b) -> 0 <= k <= 2 ->
  paired (fragment_textures b) (fragment_samplers b) -> bind_unbound b i k = Some (ws, b') -> recorded b ws b'.
Proof.
  intros Hi L Hk P. unfold bind_unbound. intros ([tc b1] & E1 & ([kc b2] & E2 & [= <- <-])%bind_Some)%bind_Some.
  eapply null_recorded; [done..|]. intros ->. unfold fragment_texture_changed in E1.
  apply bind_Some in E1 as ([c l] & E1 & [= -> <-]). unfold slot_changed in E1. apply bind_Some in E1 as (o & Ho & [= E1]).
  destruct (o =? _) eqn:E; simplify_eq. apply Z.eqb_eq in E as ->. apply (P _ _ Ho). unfold null_texture_tex_sentinel. lia.
Qed.

Lemma missing_recorded b i k z ws b' :
  0 <= i < Z.of_nat (length (fragment_textures b)) -> length (fragment_samplers b) = length (fragment_textures b) -> 0 <= k <= 3 ->
  paired (fragment_textures b) (fragment_samplers b) -> bind_missing b i k z = Some (ws, b') -> recorded b ws b'.
Proof.
  intros Hi L Hk P. unfold bind_missing. intros ([tc b1] & E1 & H)%bind_Some.
  assert (L1 : length (fragment_samplers b1) = length (fragment_samplers b)).
  { unfold fragment_texture_changed in E1. by apply bind_Some in E1 as ([? ?] & _ & [= <- <-]). }
  destruct tc.
  - apply bind_Some in H as (b2 & ([kc b2'] & E2 & [= <-])%bind_Some & H).
    assert (R : recorded b [WFragmentNull k i] b2') by (eapply (null_recorded b i k true); done).
    assert (L2 : length (fragment_samplers b2') = length (fragment_samplers b1)).
    { unfold fragment_sampler_changed in E2. apply bind_Some in E2 as ([? ?] & E2 & [= <- <-]).
      apply slot_changed_inv in E2 as [-> _]. cbn. by rewrite length_insert. }
    destruct (k =? Depth2D).
    + apply bind_Some in H as ([kc' b3] & E3 & [= <- <-]). eapply (recorded_app b [_]); [done|].
      eapply sampler_recorded; [lia|done].
    + apply bind_Some in H as ([kc' b3] & E3 & [= <- <-]). unfold fragment_sampler_changed in E2, E3.
      apply bind_Some in E2 as ([? l] & E2 & [= <- <-]). apply slot_changed_inv in E2 as [-> _].
      apply bind_Some in E3 as ([? l'] & E3 & [= <- <-]). apply slot_changed_inv in E3 as [-> _]. cbn in *.
      by rewrite list_insert_insert_eq.
  - cbn in H. assert (b1 = b) as ->.
    { unfold fragment_texture_changed in E1. apply bind_Some in E1 as ([? l] & E1 & [= -> <-]).
      apply slot_changed_inv in E1 as [_ E1]. rewrite E1 by done. by destruct b. }
    destruct (k =? Depth2D) eqn:Ek.
    + apply bind_Some in H as ([kc' b3] & E3 & [= <- <-]). eapply sampler_recorded; [lia|done].
    + apply (unbound_recorded b i k); [done|done|unfold Depth2D in *; reflect_cmp; lia|done|].
      unfold bind_unbound. rewrite E1. cbn. exact H.
Qed.
Lemma forget_recorded b i b' w : 0 <= i < 16 -> length (vertex_buffers b) = 16%nat ->
  invalidate_vertex_buffer_slot b i = Some b' -> (exists p n, w = WVertexBytes p n i \/ w = WVertexBytesAt p n i) ->
  recorded b [w] b' /\ length (vertex_buffers b') = 16%nat /\ (forall j, vertex_buffers b !! j = Some (0, 0, 0) \/ j = Z.to_nat i -> vertex_buffers b' !! j = Some (0, 0, 0)).
Proof.
  intros Hi L. unfold invalidate_vertex_buffer_slot. intros (e & He & [= <-])%bind_Some (p & n & Hw). split; [|split].
  - apply recorded_one. assert (E : (i <? VERTEX_STREAM_SLOTS) = true) by (apply Z.ltb_lt; unfold VERTEX_STREAM_SLOTS; lia).
    destruct Hw as [-> | ->]; cbn; rewrite E; cbn; rewrite store_ok by (rewrite length_fmap; lia); cbn; unfold shadow_of; cbn; by rewrite list_fmap_insert.
  - cbn. by rewrite length_insert.
  - cbn. intros j Hj. rewrite list_lookup_insert. case_decide; [done|]. destruct Hj as [Hj| ->]; [done|lia].
Qed.

Lemma stream_recorded b i h o g ws b' : 0 <= i < 16 -> length (vertex_buffers b) = 16%nat ->
  bind_stream b i h o g = Some (ws, b') -> recorded b ws b'.
Proof.
  intros Hi L. unfold bind_stream, vertex_buffer_changed. intros ([bind c] & ([[h0 o0] g0] & E0 & [= E])%bind_Some & [= <- <-])%bind_Some.
  assert (R : recorded b [WVertexBuffer h o i] (set_vertex_buffers b (<[Z.to_nat i := (h, o, g)]> (vertex_buffers b)))).
  { apply recorded_one. assert (H : (i <? VERTEX_STREAM_SLOTS) = true) by (apply Z.ltb_lt; unfold VERTEX_STREAM_SLOTS; lia).
    cbn. rewrite H. cbn. rewrite store_ok by (rewrite length_fmap; lia). cbn. unfold shadow_of. cbn. by rewrite list_fmap_insert. }
  destruct (_ && _); [destruct (_ =? _)|]; injection E as <- <-; [|done..]. by apply recorded_same.
Qed.

Lemma up_recorded binds b ws b' : length (vertex_buffers b) = 16%nat -> Forall (λ u : Z * Z * Z, 0 <= u.1.1 < 16) binds ->
  (0 ∈ ((λ u, u.1.1) <$> binds) \/ vertex_buffers b !! 0%nat = Some (0, 0, 0)) -> bind_inline b binds = Some (ws, b') -> recorded b ws b'.
Proof.
  intros L F. revert b ws L. induction F as [|[[i p] n] binds Hi F IH]; intros b ws L H0; cbn.
  - intros (b1 & E & [= <- <-])%bind_Some. apply recorded_same. destruct H0 as [H0|H0]; [by apply elem_of_nil in H0|].
    unfold invalidate_vertex_buffer, invalidate_vertex_buffer_slot in E. apply bind_Some in E as (e & _ & [= <-]).
    rewrite list_insert_id by done. by destruct b.
  - intros (b1 & E & ([ws1 b2] & E2 & [= <- <-])%bind_Some)%bind_Some. cbn in Hi.
    destruct (forget_recorded b i b1 (WVertexBytes p n i) Hi L E) as (R & L1 & Z1); [eauto|].
    apply (recorded_app b [_] b1); [done|]. apply IH; [done| |done].
    destruct H0 as [[H0|H0]%elem_of_cons|H0]; [cbn in H0; right; apply Z1; right; by rewrite <- H0|by left|right; apply Z1; by left].
Qed.

Lemma untracked_recorded b w : untracked w = true -> recorded b [w] b.
Proof. intros Hw. apply recorded_one. by destruct w. Qed.

Lemma request_recorded c s r ws c' : agrees m x c s -> request_legal m r -> perform m r c = Some (ws, c') -> recorded (last_bound c) ws (last_bound c').
Proof.
  intros A Hl. destruct A as [_ PF _ (L1 & L2 & _ & _ & L5)].
  destruct r; cbn [request_legal] in Hl; destruct_and?; cbn [perform].
  16: { destruct (snapshot_changed _ _ _) as [ch v]. intros [= <- <-]. by apply recorded_if. }
  16: { destruct (snapshot_changed _ _ _) as [ch v]. intros [= <- <-]. by apply recorded_if. }
  all: intros ([ws1 b1] & E & [= <- <-])%bind_Some; cbn [last_bound]; revert E; cbn [perform_bound]; unfold gate.
  - unfold scissor_rect_changed. case_bool_decide; intros [= <- <-]; [done|]. by apply recorded_one.
  - unfold pipeline_changed. destruct (_ =? _); intros [= <- <-]; [done|]. by apply recorded_one.
  - unfold depth_stencil_changed. destruct (_ =? _); intros [= <- <-]; [done|]. by apply recorded_one.
  - unfold cull_mode_changed. case_bool_decide; intros [= <- <-]; [done|]. by apply recorded_one.
  - unfold triangle_fill_mode_changed. destruct (_ =? _); intros [= <- <-]; [done|]. by apply recorded_one.
  - unfold depth_bias_changed. case_bool_decide; intros [= <- <-]; [done|]. by apply recorded_one.
  - unfold stencil_reference_changed. destruct (_ =? _); intros [= <- <-]; [done|]. by apply recorded_one.
  - destruct (d3dcolor_to_rgba_f32 _) as [[[? ?] ?] ?]. unfold blend_color_changed. destruct (_ =? _); intros [= <- <-]; [done|]. by apply recorded_one.
  - apply bind_texture_recorded; lia.
  - apply missing_recorded; (done || lia).
  - apply unbound_recorded; (done || lia).
  - intros E. apply (bind_texture_recorded _ 0 texture sampler); [lia..|]. unfold is_handle in *. unfold sampler_cache_key.
    destruct (sampler =? 0) eqn:?; reflect_cmp; [lia|done].
  - unfold fetch_texture, vertex_texture_changed, vertex_sampler_changed.
    intros ([tc b2] & ([? ?] & _ & [= <- <-])%bind_Some & ([kc b3] & ([? ?] & _ & [= <- <-])%bind_Some & [= <- <-])%bind_Some)%bind_Some.
    apply (recorded_app _ _ (last_bound c)); by apply recorded_untracked.
  - unfold fetch_null, vertex_texture_changed, vertex_sampler_changed.
    intros ([tc b2] & ([? ?] & _ & [= <- <-])%bind_Some & ([kc b3] & ([? ?] & _ & [= <- <-])%bind_Some & [= <- <-])%bind_Some)%bind_Some.
    by apply recorded_untracked.
  - unfold inline_changed. case_bool_decide; intros [= <- <-]; [done|]. apply recorded_one. by destruct slot.
  - intros [= <- <-]. destruct (_ <=? _); [done|]. apply recorded_one.
    match goal with H : _ \/ _ |- _ => by destruct H as [-> | ->] end.
  - intros [= <- <-]. destruct (_ <=? _); [done|]. by apply recorded_one.
  - apply stream_recorded; [lia|done].
  - apply up_recorded; [done| |by left]. eapply Forall_impl; [done|]. by intros u (? & ? & ?).
  - intros (b2 & E & [= <- <-])%bind_Some. eapply forget_recorded; [|done|done|]; [lia|eauto].
  - intros (b2 & E & [= <- <-])%bind_Some. eapply (forget_recorded _ 0); [lia|done|done|eauto].
  - intros (b2 & E & [= <- <-])%bind_Some. apply (recorded_app _ [_] b2); [|by apply recorded_one].
    eapply (forget_recorded _ 0); [lia|done|done|eauto].
  - intros [= <- <-]. by apply untracked_recorded.
Qed.
End Shadow.

(** ** Passes *)

(** An encoder with Metal's defaults. *)
Definition fresh_state : EncoderState := λ p,
  match p with
  | PCull | PFill | PStencil => Nums [0]
  | PVisibility => Nums [0; 0]
  | PBias => Nums [0; 0; 0]
  | PBlend => Nums [0; 0; 0; 0]
  | _ => Nums []
  end.
Lemma fresh_state_ok : FreshEncoder fresh_state.
Proof. done. Qed.

Lemma in_range_sublist ws full : ws `sublist_of` full -> Forall in_range full -> Forall in_range ws.
Proof. intros S F. rewrite Forall_forall in *. intros w Hw. apply F. by eapply elem_of_sublist. Qed.

Lemma requests_legal m works : Forall (λ w, Forall (request_legal m) (requests_of w)) works -> Forall (request_legal m) (works ≫= requests_of).
Proof. intros F. induction F; cbn; [constructor|by apply Forall_app]. Qed.

Lemma always_all_in_range m rs : Forall (request_legal m) rs -> Forall in_range (rs ≫= always).
Proof. intros F. induction F; cbn; [constructor|]. apply Forall_app. split; [by eapply always_in_range|done]. Qed.

(** The groups the replay closes at the end hold no draw. *)
Lemma closing_draws m s n : draws_seen m s (replicate n popDebugGroup) = [].
Proof. apply quiet_draws. by induction n. Qed.

Lemma draws_seen_closed m s calls n : draws_seen m s (calls ++ replicate n popDebugGroup) = draws_seen m s calls.
Proof. by rewrite draws_seen_app, closing_draws, app_nil_r. Qed.

Lemma pass_recorded m x rs c s : ctx_ok x -> Forall (request_legal m) rs -> agrees m x c s ->
  exists ws c', perform_all m rs c = Some (ws, c') /\ recorded (last_bound c) ws (last_bound c').
Proof.
  intros Hx F. revert c s. induction F as [|r rs Hr F IH]; intros c s A; [by exists [], c|].
  destruct (request_performed m x c s r Hx A Hr) as (ws & c1 & Hp & _ & _ & A1).
  destruct (IH c1 _ (A1 unit (λ u _ _ _, (None, u)) (mkLoop tt 0))) as (ws' & c2 & Hp' & Hs').
  exists (ws ++ ws'), c2. split; [cbn; rewrite Hp; cbn; by rewrite Hp'|]. eapply recorded_app; [|done].
  by eapply request_recorded.
Qed.

(** C13: A pass is drawn the same with the caches as without them. Whatever
    draws, clear quads, blit quads and viewport changes it holds, with
    arguments in range and bytes that are in memory, the encoder's caches --
    reset when the pass opens -- index no table out of range and leave out
    only some of the commands; Metal's replay of the packed commands makes,
    with the same ring, the same draw calls, and at each, on
    an encoder that starts as Metal documents, the pipeline, states, viewport, scissor, textures, samplers and arguments of
    every slot are what they are when no command is ever left out. *)
Theorem deduplicated_draws_agree {R} `{!InlineRing R} m x s0 c0 works (r : R) :
  ctx_ok x -> FreshEncoder s0 -> Forall (λ w, Forall (request_legal m) (requests_of w)) works ->
  let full := (works ≫= requests_of) ≫= always in
  exists ws c calls calls' r',
    perform_all m (works ≫= requests_of) (reset_last_bound c0) = Some (ws, c)
    /\ ws `sublist_of` full
    /\ encode_commands x (to_command <$> ws) r = Some (calls, r')
    /\ encode_commands x (to_command <$> full) r = Some (calls', r')
    /\ Forall2 same_draw (draws_seen m s0 calls) (draws_seen m s0 calls').
Proof.
  intros Hx H0 F full. apply requests_legal in F.
  destruct (all_performed m x _ fresh_caches Hx F) as (ws & c & Hp & S); [exists s0; by apply agrees_fresh|].
  destruct (S s0 (agrees_fresh m x s0 H0)) as (Sub & E & _). destruct (E R _ (mkLoop r 0)) as (El & _ & D).
  pose proof (always_all_in_range m _ F) as Rg. pose proof (in_range_sublist _ _ Sub Rg) as Rw.
  pose proof (encode_asked x _ r Rw) as E1. pose proof (encode_asked x _ r Rg) as E2.
  destruct (all_asked x ws (mkLoop r 0)) as [calls l], (all_asked x full (mkLoop r 0)) as [calls' l'] eqn:Ef.
  fold full in D, El, E2. rewrite Ef in D, El, E2. cbn in D, El. subst l'.
  eexists ws, c, _, _, _. split; [exact Hp|]. split; [done|]. split; [exact E1|]. split; [exact E2|].
  by rewrite !draws_seen_closed.
Qed.

(** C15: The debug build's check never fires. At any point of a pass, and so
    before each of its draws, the shadow that records every packed command --
    cleared with the caches when the pass opens -- can be kept without an
    index out of range, and every assertion that compares it with the cache
    holds: no path sets state behind the cache's back or tells the cache of a
    state it does not set. *)
Theorem shadow_never_desyncs m x c0 works rs rest :
  ctx_ok x -> Forall (λ w, Forall (request_legal m) (requests_of w)) works ->
  works ≫= requests_of = rs ++ rest ->
  exists ws c sh,
    perform_all m rs (reset_last_bound c0) = Some (ws, c)
    /\ record_all shadow_default (to_command <$> ws) = Some sh
    /\ debug_assert_in_sync (last_bound c) sh = true.
Proof.
  intros Hx F E. apply requests_legal in F. rewrite E in F. apply Forall_app in F as [F _].
  destruct (pass_recorded m x rs fresh_caches fresh_state Hx F (agrees_fresh m x fresh_state fresh_state_ok)) as (ws & c & Hp & Hr).
  exists ws, c, (shadow_of (last_bound c)). split; [exact Hp|]. split; [exact Hr|]. apply shadow_in_sync.
Qed.

#[local] Existing Instance bump_ring.
(** A memory, and a pass of three draws, a clear quad between them and a blit quad. *)
Definition sample_memory (a : Z) : Z := a mod 256.
Definition sample_bytes (ptr : Z) : list Z * Z := (bytes_of sample_memory ptr 4, ptr).
Definition sample_draw (fill texture ptr : Z) (v : Vertices) : DrawInput :=
  mkDraw (0, 0, 640, 480) 900 901 1 fill 0 (Some 5) 0x80402010
    [(0, texture, 700, 0); (1, 0, 0, 3)] [(2, 1)] None [(0, 502, 0, 0); (1, 0, 0, 2)]
    (8192, 64) (sample_bytes ptr) (sample_bytes 4112) (8256, 0) None (Some (sample_bytes 4116)) None None (Some (sample_bytes 4120))
    (8300, 16) (8400, 4) (0, 0) (8500, 16) v [(7, 9000, 16)] [WDraw 3 0 36].
Definition sample_works : list Work :=
  [ WorkBetween (WViewport 0 0 640 480 0 0x3F800000);
    WorkDraw (sample_draw 0 500 4096 (Bound [(600, 1, [(0, 0); (1, 12)])]));
    WorkDepthQuad 910 911 (Some 0) (0, 0, 640, 480) 9100 ([], []);
    WorkDraw (sample_draw 1 0 4096 (Bound [(600, 2, [(0, 0); (1, 12)]); (601, 1, [(2, 0)])]));
    WorkDraw (sample_draw 1 500 4097 (Up [(0, 9200, 48)]));
    WorkBlitQuad true 920 921 (8, 8, 64, 64) 500 701 9300 9400 ].

Lemma sample_ctx_ok : ctx_ok sample_ctx.
Proof. split; [by vm_compute|]. split; [by vm_compute|]. intros n [= <-]. done. Qed.

#[local] Instance in_range_dec w : Decision (in_range w).
Proof. destruct w; cbn; unfold is_u32, is_u64; apply _. Defined.
#[local] Instance request_legal_dec m r : Decision (request_legal m r).
Proof. destruct r; cbn; unfold is_handle, sampler_ok, token_ok, is_u32, is_u64; apply _. Defined.

Lemma sample_works_legal : Forall (λ w, Forall (request_legal sample_memory) (requests_of w)) sample_works.
Proof. refine (bool_decide_eq_true_1 _ _). by vm_compute. Qed.

(** The caches leave out 38 of the pass's 102 commands. *)
Lemma sample_left_out :
  (λ '(ws, _), length ws) <$> perform_all sample_memory (sample_works ≫= requests_of) fresh_caches = Some 64%nat
  /\ length ((sample_works ≫= requests_of) ≫= always) = 102%nat.
Proof. by vm_compute. Qed.

(** At the sample pass. *)
Lemma deduplicated_draws_agree_witness :
  (λ '(ws, _), length ws) <$> perform_all sample_memory (sample_works ≫= requests_of) fresh_caches = Some 64%nat
  /\ exists ws c calls calls' r',
    perform_all sample_memory (sample_works ≫= requests_of) (reset_last_bound fresh_caches) = Some (ws, c)
    /\ ws `sublist_of` (sample_works ≫= requests_of) ≫= always
    /\ encode_commands sample_ctx (to_command <$> ws) 0 = Some (calls, r')
    /\ encode_commands sample_ctx (to_command <$> ((sample_works ≫= requests_of) ≫= always)) 0 = Some (calls', r')
    /\ Forall2 same_draw (draws_seen sample_memory fresh_state calls) (draws_seen sample_memory fresh_state calls').
Proof.
  split; [exact (proj1 sample_left_out)|].
  exact (deduplicated_draws_agree sample_memory sample_ctx fresh_state fresh_caches sample_works 0 sample_ctx_ok fresh_state_ok sample_works_legal).
Defined.

(** At the sample pass, before the draw after the clear quad. *)
Lemma shadow_never_desyncs_witness :
  exists ws c sh,
    perform_all sample_memory (take 45 (sample_works ≫= requests_of)) (reset_last_bound fresh_caches) = Some (ws, c)
    /\ record_all shadow_default (to_command <$> ws) = Some sh
    /\ debug_assert_in_sync (last_bound c) sh = true.
Proof.
  exact (shadow_never_desyncs sample_memory sample_ctx fresh_caches sample_works _ (drop 45 (sample_works ≫= requests_of))
    sample_ctx_ok sample_works_legal (eq_sym (take_drop 45 (sample_works ≫= requests_of)))).
Defined.
