(* ===== verification/VertexStreams.v ===== *)
(** Vertex streams ([core/streams.rs], the declaration half of [core/convert.rs],
    the layouts of [core/draw_data.rs] and [encoder_draw/draw_record.rs], the
    vertex bindings of [unix/draw.rs]): how the elements of a declaration come to
    be attributes of a Metal vertex descriptor, which of them need a binding of
    their own, and what each slot binds.  [xxh3] of a shifted fetch is left out;
    of a stream record, the fields that say what it binds are kept. *)

From S2P Require Import Prelude PipelineState DxsoIr DxsoText.

Definition MAX_STREAMS : Z := 16.
#[export] Instance StreamLayout_inhabited : Inhabited StreamLayout := populate UNUSED.

(** ** Formats *)

(** [VertexFormat] by its wire code. *)
Definition VF_Invalid : Z := 0.
Definition UChar4 : Z := 3.
Definition UChar4Normalized : Z := 9.
Definition UChar4NormalizedBgra : Z := 42.
Definition Short2 : Z := 16.
Definition Short4 : Z := 17.
Definition UShort2Normalized : Z := 20.
Definition UShort4Normalized : Z := 21.
Definition Short2Normalized : Z := 22.
Definition Short4Normalized : Z := 23.
Definition Half2 : Z := 25.
Definition Half4 : Z := 27.
Definition VF_Float : Z := 28.
Definition Float2 : Z := 29.
Definition Float3 : Z := 30.
Definition Float4 : Z := 31.

Definition byte_size (format : Z) : Z :=
  if bool_decide (format ∈ [UChar4; UChar4Normalized; UChar4NormalizedBgra; Short2; UShort2Normalized; Short2Normalized; Half2; VF_Float]) then 4
  else if bool_decide (format ∈ [Short4; UShort4Normalized; Short4Normalized; Half4; Float2]) then 8
  else if format =? Float3 then 12 else if format =? Float4 then 16 else 0.

(** [decl_type_to_metal_format]: by [D3DDECLTYPE], from [FLOAT1] on; the packed
    10-10-10 types, [UNUSED] and what lies past it have no format. *)
Definition decl_type_to_metal_format (ty : Z) : Z * Z :=
  let formats := [VF_Float; Float2; Float3; Float4; UChar4NormalizedBgra; UChar4; Short2; Short4; UChar4Normalized;
                  Short2Normalized; Short4Normalized; UShort2Normalized; UShort4Normalized; VF_Invalid; VF_Invalid; Half2; Half4] in
  let format := nth (Z.to_nat ty) formats VF_Invalid in (format, byte_size format).

(** ** Declarations *)

(** [D3DVERTEXELEMENT9]. *)
Record Element := mkElement { e_stream : Z; e_offset : Z; e_type : Z; e_method : Z; e_usage : Z; e_usage_index : Z }.
Record InputSemantic := mkSemantic { is_usage : DeclUsage; is_usage_index : Z; is_register : Z }.

Definition decl_usage_to_byte (u : DeclUsage) : Z :=
  match u with
  | Position => 0 | BlendWeight => 1 | BlendIndices => 2 | Normal => 3 | PSize => 4 | Texcoord => 5 | Tangent => 6
  | Binormal => 7 | TessFactor => 8 | PositionT => 9 | Color => 10 | Fog => 11 | Depth => 12 | Sample => 13
  end.

Definition lookup_semantic (semantics : list InputSemantic) (usage usage_index : Z) : option Z :=
  is_register <$> List.find (λ s, (decl_usage_to_byte (is_usage s) =? usage) && (is_usage_index s =? usage_index)) semantics.

Record ResolvedAttrs := mkResolved { r_attrs : list VertexAttrDesc; r_extents : list Z; r_used_streams : Z }.

(** [resolve_attrs]: the loop over the elements; [attr_for] says which register
    an element lands on, if any. *)
Fixpoint resolve_from (attr_for : Element -> option Z) (elements : list Element) (r : ResolvedAttrs) : ResolvedAttrs :=
  match elements with
  | [] => r
  | e :: elements =>
      let stream := e_stream e in
      if MAX_STREAMS <=? stream then resolve_from attr_for elements r
      else
        let '(format, size) := decl_type_to_metal_format (e_type e) in
        if format =? VF_Invalid then resolve_from attr_for elements r
        else match attr_for e with
             | None => resolve_from attr_for elements r
             | Some reg =>
                 let extent := r_extents r !!! Z.to_nat stream in
                 resolve_from attr_for elements
                   (mkResolved (r_attrs r ++ [mkAttr reg (e_offset e) format stream])
                      (<[Z.to_nat stream := Z.max extent (wrap32 (e_offset e + size))]> (r_extents r))
                      (Z.lor (r_used_streams r) (Z.shiftl 1 stream)))
             end
  end.
Definition resolve_attrs (attr_for : Element -> option Z) (elements : list Element) : ResolvedAttrs :=
  resolve_from attr_for elements (mkResolved [] (replicate 16 0) 0).

Definition resolve_attrs_for_vs (elements : list Element) (semantics : list InputSemantic) : ResolvedAttrs :=
  resolve_attrs (λ e, lookup_semantic semantics (e_usage e) (e_usage_index e)) elements.

(** ** Stream frequencies *)

Definition D3DSTREAMSOURCE_INDEXEDDATA : Z := 1073741824.
Definition D3DSTREAMSOURCE_INSTANCEDATA : Z := 2147483648.
Definition STREAM_FREQ_COUNT_MASK : Z := 0x7FFFFF.

Inductive StreamFreqError := FreqStreamOutOfRange | InstanceDataOnStreamZero | BothFlags | FreqZero.

Definition validate_stream_freq (stream setting : Z) : option StreamFreqError :=
  if MAX_STREAMS <=? stream then Some FreqStreamOutOfRange
  else
    let instanced := flag setting D3DSTREAMSOURCE_INSTANCEDATA in
    let indexed := flag setting D3DSTREAMSOURCE_INDEXEDDATA in
    if (stream =? 0) && instanced then Some InstanceDataOnStreamZero
    else if instanced && indexed then Some BothFlags
    else if setting =? 0 then Some FreqZero
    else None.

Definition is_instance_data (setting : Z) : bool := flag setting D3DSTREAMSOURCE_INSTANCEDATA.
Definition stream_freq_count (setting : Z) : Z := Z.land setting STREAM_FREQ_COUNT_MASK.

Definition instance_count (stream0_freq : Z) (any_used_stream_instanced : bool) : Z :=
  if negb any_used_stream_instanced then 1
  else let count := stream_freq_count stream0_freq in if count =? 0 then 1 else count.

Definition stream_step (setting : Z) : VertexStepFunction * Z :=
  if negb (is_instance_data setting) then (StepPerVertex, 1)
  else let rate := stream_freq_count setting in if rate =? 0 then (StepConstant, 0) else (StepPerInstance, rate).

Definition instanced_stream_read_bytes (instances : Z) (step : VertexStepFunction) (rate stride : Z) : Z :=
  let elements := match step with
                  | StepConstant => 1
                  | _ => if rate =? 0 then 1 else div_ceil instances rate
                  end in
  match checked u32_max (elements * stride) with Some bytes => bytes | None => u32_max end.

Definition layout_stride (app_stride extent : Z) : Z := if app_stride =? 0 then extent else app_stride.

Definition bound_stream_layout (app_stride extent freq : Z) : StreamLayout :=
  if app_stride =? 0 then mkLayout extent StepConstant 0
  else let '(step, step_rate) := stream_step freq in mkLayout (layout_stride app_stride extent) step step_rate.

Definition inline_vertex_span (count stride extent : Z) : option Z :=
  if count =? 0 then Some 0
  else
    packed ← checked u32_max (count * stride);
    last ← checked u32_max ((count - 1) * stride);
    e ← checked u32_max (last + extent);
    Some (if packed <? e then e else packed).

Definition crossing_read_size (size extent stride : Z) : Z :=
  if size =? 0 then 0 else sat u32_max (size + sat u32_max (extent - stride)).

(** ** Masks *)

(** The set bits of a mask below [width], lowest first: what the loops over
    [trailing_zeros] visit. *)
Definition set_bits (width mask : Z) : list Z := filter (λ i, Z.testbit mask i = true) (seqZ 0 width).
(** [trailing_zeros] of a [width]-bit word. *)
Definition trailing_zeros (width x : Z) : Z := default width (head (set_bits width x)).
Definition lnot16 (x : Z) : Z := Z.land (Z.lnot x) 0xFFFF.

(** ** The vertices of a draw *)

Record StreamRecord := mkRecord { sr_buffer : Z; sr_length : Z; sr_offset : Z; sr_stride : Z; sr_frequency : Z; sr_stream : Z }.
Inductive VertexView :=
  | ViewUp (address size stride : Z)
  | ViewBound (records : list StreamRecord).
Inductive StreamViewFeed := FeedInline (stride : Z) | FeedBuffer (r : StreamRecord) | FeedNull.

Definition bindings_of (v : VertexView) : list StreamRecord := match v with ViewUp _ _ _ => [] | ViewBound rs => rs end.
Definition feed (v : VertexView) (stream : Z) : StreamViewFeed :=
  match v with
  | ViewUp _ _ stride => if stream =? 0 then FeedInline stride else FeedNull
  | ViewBound rs => match List.find (λ r, sr_stream r =? stream) rs with Some r => FeedBuffer r | None => FeedNull end
  end.

(** What one stream steps by; the [or] of the offsets is kept beside it. *)
Definition feed_layout (f : StreamViewFeed) (extent : Z) : StreamLayout :=
  match f with
  | FeedInline stride => mkLayout (layout_stride stride extent) StepPerVertex 1
  | FeedBuffer r => bound_stream_layout (sr_stride r) extent (sr_frequency r)
  | FeedNull => mkLayout extent StepConstant 0
  end.
Definition feed_offset (f : StreamViewFeed) : Z := match f with FeedBuffer r => sr_offset r | _ => 0 end.

(** [stream_layouts_with] under [stream_layouts_view]: layouts, crossing streams, offsets. *)
Definition layout_step (a : ResolvedAttrs) (v : VertexView) (acc : list StreamLayout * Z * Z) (stream : Z) : list StreamLayout * Z * Z :=
  let '(layouts, crossing, offsets) := acc in
  let extent := r_extents a !!! Z.to_nat stream in
  let f := feed v stream in
  let l := feed_layout f extent in
  (<[Z.to_nat stream := l]> layouts,
   Z.lor crossing (Z.shiftl (Z.b2z (stride l <? extent)) stream),
   Z.lor offsets (feed_offset f)).
Definition stream_layouts_view (a : ResolvedAttrs) (v : VertexView) : list StreamLayout * Z * Z :=
  foldl (layout_step a v) (replicate 16 UNUSED, 0, 0) (set_bits 16 (r_used_streams a)).

(** ** Crossing attributes *)

(** [VertexFetchBinding]: the source stream of a slot and its byte advance. *)
Notation VertexFetchBinding := (Z * Z)%type (only parsing).
Inductive VertexFetchError := StreamOutOfRange | AttributeWiderThanStride | UnalignedOffset | OutsideBuffer | NoFreeSlot.
#[export] Instance VertexFetchError_eq : EqDecision VertexFetchError.
Proof. solve_decision. Defined.

(** The attribute ends within the stride. *)
Definition fits (a : VertexAttrDesc) (stride : Z) : bool :=
  match checked u32_max (va_offset a + byte_size (va_format a)) with Some e => e <=? stride | None => false end.

(** The first loop: which streams are read, and which keep their own slot. *)
Fixpoint scan (original : list StreamLayout) (attrs : list VertexAttrDesc) (reserved read : Z) : VertexFetchError + Z * Z :=
  match attrs with
  | [] => inr (reserved, read)
  | a :: attrs =>
      match original !! Z.to_nat (va_buffer_index a) with
      | None => inl StreamOutOfRange
      | Some layout =>
          let read := Z.lor read (Z.shiftl 1 (va_buffer_index a)) in
          if stride layout <? byte_size (va_format a) then inl AttributeWiderThanStride
          else
            let reserved := if fits a (stride layout) then Z.lor reserved (Z.shiftl 1 (va_buffer_index a)) else reserved in
            scan original attrs reserved read
      end
  end.

(** The last loop: the attributes rewritten in place, the layouts and bindings
    filled in, and the error that stops it. *)
Fixpoint place (original : list StreamLayout) (read : Z) (attrs : list VertexAttrDesc) (reserved : Z)
    (layouts : list StreamLayout) (bindings : list VertexFetchBinding)
    : list VertexAttrDesc * list StreamLayout * (VertexFetchError + list VertexFetchBinding) :=
  match attrs with
  | [] => ([], layouts, inr bindings)
  | a :: attrs =>
      let index := va_buffer_index a in
      let layout := original !!! Z.to_nat index in
      if fits a (stride layout) then
        let '(attrs, layouts, r) := place original read attrs reserved layouts bindings in (a :: attrs, layouts, r)
      else
        let slot := if negb (Z.testbit reserved index) then index else trailing_zeros 16 (lnot16 (Z.lor reserved read)) in
        if MAX_STREAMS <=? slot then (a :: attrs, layouts, inl NoFreeSlot)
        else
          let '(attrs, layouts, r) :=
            place original read attrs (Z.lor reserved (Z.shiftl 1 slot))
              (<[Z.to_nat slot := layout]> layouts) (<[Z.to_nat slot := (index, va_offset a)]> bindings) in
          (mkAttr (attr_index a) 0 (va_format a) slot :: attrs, layouts, r)
  end.

Definition own_bindings : list VertexFetchBinding := (λ i, (i, 0)) <$> seqZ 0 16.
Definition reserved_layouts (original : list StreamLayout) (reserved : Z) : list StreamLayout :=
  imap (λ i l, if Z.testbit reserved (Z.of_nat i) then l else UNUSED) original.

Definition remap_crossing_attributes (attrs : list VertexAttrDesc) (layouts : list StreamLayout)
    : list VertexAttrDesc * list StreamLayout * (VertexFetchError + list VertexFetchBinding) :=
  match scan layouts attrs 0 0 with
  | inl e => (attrs, layouts, inl e)
  | inr (reserved, read) => place layouts read attrs reserved (reserved_layouts layouts reserved) own_bindings
  end.

Definition offset_shift (offset : Z) : Z := Z.land offset 3.
Definition stream_shifts (streams : list (Z * Z)) : Z :=
  foldl (λ shifts '(stream, offset), Z.lor shifts (Z.shiftl (offset_shift offset) (2 * stream))) 0 streams.
(** The two bits of a stream. *)
Definition shift_of (shifts stream : Z) : Z := Z.land (Z.shiftr shifts (2 * stream)) 3.

Definition slot_binding_offset (stream_offset advance : Z) : Z := wrap32 (Z.ldiff stream_offset 3 + advance).
Definition advanced_binding_offset (base advance len : Z) : VertexFetchError + Z :=
  match checked u32_max (Z.ldiff base 3 + advance) with
  | None => inl OutsideBuffer
  | Some offset =>
      if negb (offset mod 4 =? 0) then inl UnalignedOffset
      else if len <=? offset then inl OutsideBuffer
      else inr offset
  end.

(** ** The fetch of a draw *)

Record CrossingFetch := mkFetch {
  cf_attrs : list VertexAttrDesc; cf_attr_count : nat; cf_layouts : list StreamLayout; cf_bindings : list VertexFetchBinding;
  cf_used_slots : Z; cf_shifts : Z; cf_stream_layouts : list StreamLayout; cf_source : option (Z * Z) }.

Definition empty : CrossingFetch :=
  mkFetch (replicate 16 (mkAttr 0 0 VF_Invalid 0)) 0 (replicate 16 UNUSED) (replicate 16 (0, 0)) 0 0 (replicate 16 UNUSED) None.

Definition fetch_attrs (f : CrossingFetch) : list VertexAttrDesc := take (cf_attr_count f) (cf_attrs f).

Definition set_source (f : CrossingFetch) (s : option (Z * Z)) : CrossingFetch :=
  mkFetch (cf_attrs f) (cf_attr_count f) (cf_layouts f) (cf_bindings f) (cf_used_slots f) (cf_shifts f) (cf_stream_layouts f) s.
Definition forget_source (f : CrossingFetch) : CrossingFetch := set_source f None.

Definition move_attr (bindings : list VertexFetchBinding) (shifts : Z) (a : VertexAttrDesc) : VertexAttrDesc :=
  let stream := (bindings !!! Z.to_nat (va_buffer_index a)).1 in
  mkAttr (attr_index a) (wrap32 (va_offset a + shift_of shifts stream)) (va_format a) (va_buffer_index a).
Definition used_slots_of (layouts : list StreamLayout) : Z :=
  foldl (λ mask slot, Z.lor mask (Z.shiftl 1 slot)) 0 (filter (λ slot, is_used (layouts !!! Z.to_nat slot) = true) (seqZ 0 16)).

Definition rebuild (f : CrossingFetch) (attrs : list VertexAttrDesc) (layouts : list StreamLayout) (shifts : Z)
    : CrossingFetch * option VertexFetchError :=
  if (16 <? length attrs)%nat then (f, Some NoFreeSlot)
  else
    let over prefix := prefix ++ drop (length attrs) (cf_attrs f) in
    let '(prefix, remapped, r) := remap_crossing_attributes attrs layouts in
    match r with
    | inl e => (mkFetch (over prefix) (length attrs) remapped (cf_bindings f) (cf_used_slots f) shifts layouts (cf_source f), Some e)
    | inr bindings =>
        (mkFetch (over (move_attr bindings shifts <$> prefix)) (length attrs) remapped bindings (used_slots_of remapped) shifts
           layouts (cf_source f), None)
    end.

Definition reuse_or_rebuild (f : CrossingFetch) (record : Z) (attrs : list VertexAttrDesc) (layouts : list StreamLayout) (shifts : Z)
    : CrossingFetch * option VertexFetchError :=
  if bool_decide (cf_source f = Some (record, shifts)) && bool_decide (cf_stream_layouts f = layouts) then (f, None)
  else
    let '(f, r) := rebuild (set_source f None) attrs layouts shifts in
    match r with
    | Some e => (f, Some e)
    | None => (set_source f (Some (record, shifts)), None)
    end.

(** The Metal slots that read a stream, each with its advance. *)
Definition slots_of (f : CrossingFetch) (stream : Z) : list (Z * Z) :=
  omap (λ slot, let b := cf_bindings f !!! Z.to_nat slot in if b.1 =? stream then Some (slot, b.2) else None)
    (set_bits 16 (cf_used_slots f)).

Fixpoint first_error (l : list (VertexFetchError + Z)) : option VertexFetchError :=
  match l with [] => None | inl e :: _ => Some e | inr _ :: l => first_error l end.
Definition check_advanced_offsets (f : CrossingFetch) (crossing : Z) (stream : Z -> option (Z * Z)) : option VertexFetchError :=
  first_error
    (set_bits 16 crossing ≫= λ index,
     match stream index with
     | None => []
     | Some (base, len) =>
         (λ '(_, advance), advanced_binding_offset base advance len) <$> filter (λ sa, sa.2 <> 0) (slots_of f index)
     end).

(** ** Drawing with it *)

(** A crossing stream's own offset and the length of what feeds it. *)
Definition crossing_source (v : VertexView) (stream : Z) : option (Z * Z) :=
  match v, feed v stream with
  | ViewUp _ size _, FeedInline _ => Some (0, size)
  | _, FeedBuffer r => Some (sr_offset r, sr_length r)
  | _, _ => None
  end.

(** [crossing_fetch]: the layouts the pipeline is built from, the fetch of the
    draw, and the fetch kept for the next one. *)
Definition crossing_fetch (kept : option CrossingFetch) (record : Z) (a : ResolvedAttrs) (v : VertexView)
    (layouts : list StreamLayout) (crossing : Z) : list StreamLayout * option CrossingFetch * option CrossingFetch :=
  let shifts := stream_shifts ((λ r, (sr_stream r, sr_offset r)) <$>
    filter (λ r, Z.testbit (r_used_streams a) (sr_stream r) = true) (bindings_of v)) in
  let '(f, r) := reuse_or_rebuild (default empty kept) record (r_attrs a) layouts shifts in
  match (match r with Some e => Some e | None => check_advanced_offsets f crossing (crossing_source v) end) with
  | None => (cf_layouts f, Some f, None)
  | Some _ =>
      (foldl (λ layouts stream, alter (λ l, mkLayout (r_extents a !!! Z.to_nat stream) (step l) (step_rate l)) (Z.to_nat stream) layouts)
         layouts (set_bits 16 crossing), None, Some f)
  end.

(** What a slot of the vertex stage binds: bytes at an address, a place in a
    buffer, or so many of the shared zeros. *)
Inductive SlotSource := InlineBytes (address size : Z) | BufferAt (buffer offset : Z) | Zeros (size : Z).

(** The bytes of [NULL_STREAM_ZEROS]. *)
Definition NULL_STREAM_ZEROS : Z := 4096.

(** Streams the declaration reads with nothing bound: so many zeros as the layout
    steps by, and no more than there are. *)
Definition null_slots (a : ResolvedAttrs) (v : VertexView) (layouts : list StreamLayout) : list (Z * SlotSource) :=
  omap (λ stream, match feed v stream with
                  | FeedNull => Some (stream, Zeros (stride (layouts !!! Z.to_nat stream) `min` NULL_STREAM_ZEROS))
                  | _ => None
                  end) (set_bits 16 (r_used_streams a)).

(** The bindings of [draw]'s vertex streams, by the layouts per D3D9 stream; a
    stream whose buffer could not be made drops the draw and is left out here. *)
Definition slot_bindings (a : ResolvedAttrs) (v : VertexView) (layouts : list StreamLayout) (fetch : option CrossingFetch)
    : list (Z * SlotSource) :=
  (match v with
   | ViewUp address size _ =>
       match fetch with
       | Some f => (λ '(slot, advance), (slot, InlineBytes (wrap64 (address + advance)) (wrap32 (size - advance)))) <$> slots_of f 0
       | None => [(0, InlineBytes address size)]
       end
   | ViewBound rs =>
       rs ≫= λ r,
         if is_used (layouts !!! Z.to_nat (sr_stream r)) then
           match fetch with
           | Some f => (λ '(slot, advance), (slot, BufferAt (sr_buffer r) (slot_binding_offset (sr_offset r) advance))) <$> slots_of f (sr_stream r)
           | None => [(sr_stream r, BufferAt (sr_buffer r) (sr_offset r))]
           end
         else []
   end)
  ++ null_slots a v layouts.

Record VertexInput := mkInput { vi_attrs : list VertexAttrDesc; vi_layouts : list StreamLayout; vi_slots : list (Z * SlotSource) }.

(** The vertex half of [draw], and the fetch the encoder keeps after it:
    [dropped] where the draw returns before its end, which loses the fetch. *)
Definition draw_vertices (kept : option CrossingFetch) (dropped : bool) (record : Z) (a : ResolvedAttrs) (v : VertexView)
    : VertexInput * option CrossingFetch :=
  let '(layouts, crossing, offsets) := stream_layouts_view a v in
  if (crossing =? 0) && (offset_shift offsets =? 0)
  then (mkInput (r_attrs a) layouts (slot_bindings a v layouts None), kept)
  else
    match crossing_fetch kept record a v layouts crossing with
    | (remapped, Some f, _) =>
        (mkInput (fetch_attrs f) remapped (slot_bindings a v (cf_stream_layouts f) (Some f)), if dropped then None else Some f)
    | (widened, None, kept) => (mkInput (r_attrs a) widened (slot_bindings a v widened None), kept)
    end.

(** ** Masks *)

Lemma elem_of_set_bits w mask i : i ∈ set_bits w mask <-> 0 <= i < w /\ Z.testbit mask i = true.
Proof. unfold set_bits. rewrite list_elem_of_filter, elem_of_seqZ. intuition lia. Qed.

Lemma NoDup_set_bits w mask : NoDup (set_bits w mask).
Proof. apply NoDup_filter, NoDup_seqZ. Qed.

Lemma testbit_set_bit mask s i : 0 <= s -> 0 <= i -> Z.testbit (Z.lor mask (Z.shiftl 1 s)) i = Z.testbit mask i || (i =? s).
Proof.
  intros Hs Hi. rewrite Z.lor_spec. f_equal. rewrite Z.shiftl_1_l, Z.pow2_bits_eqb by done. apply Z.eqb_sym.
Qed.

Lemma testbit_lnot16 mask i : 0 <= i < 16 -> Z.testbit (lnot16 mask) i = negb (Z.testbit mask i).
Proof.
  intros Hi. unfold lnot16. rewrite Z.land_spec, Z.lnot_spec by lia. change 0xFFFF with (Z.ones 16).
  rewrite Z.ones_spec_low by lia. by rewrite andb_true_r.
Qed.

(** The streams or slots of a mask, counted. *)
Definition card (mask : Z) : nat := length (set_bits 16 mask).

Lemma card_le mask mask' : (forall i, 0 <= i < 16 -> Z.testbit mask i = true -> Z.testbit mask' i = true) -> (card mask <= card mask')%nat.
Proof.
  intros H. apply submseteq_length, NoDup_submseteq; [apply NoDup_set_bits|].
  intros i. rewrite !elem_of_set_bits. intros [Hi Hb]. split; [done|by apply H].
Qed.

Lemma card_full mask : (card mask <= 16)%nat.
Proof. unfold card, set_bits. pose proof (length_filter (λ i, Z.testbit mask i = true) (seqZ 0 16)) as H. rewrite length_seqZ in H. lia. Qed.

Lemma free_slot mask : (card mask < 16)%nat ->
  let slot := trailing_zeros 16 (lnot16 mask) in 0 <= slot < 16 /\ Z.testbit mask slot = false.
Proof.
  intros Hc. unfold trailing_zeros. destruct (set_bits 16 (lnot16 mask)) as [|t l] eqn:E; cbn.
  - exfalso. assert (F : forall i, i ∈ seqZ 0 16 -> Z.testbit mask i = true).
    { intros i Hi%elem_of_seqZ. destruct (Z.testbit mask i) eqn:B; [done|].
      assert (H : i ∈ set_bits 16 (lnot16 mask)) by (apply elem_of_set_bits; rewrite testbit_lnot16, B by lia; split; [lia|done]).
      rewrite E in H. by apply elem_of_nil in H. }
    unfold card, set_bits in Hc. rewrite filter_all in Hc by done. rewrite length_seqZ in Hc. lia.
  - assert (H : t ∈ set_bits 16 (lnot16 mask)) by (rewrite E; constructor).
    apply elem_of_set_bits in H as [Ht B]. split; [done|]. rewrite testbit_lnot16 in B by done. by destruct (Z.testbit mask t).
Qed.

Lemma set_bits_add mask s : 0 <= s < 16 -> Z.testbit mask s = false -> card (Z.lor mask (Z.shiftl 1 s)) = S (card mask).
Proof.
  intros Hs B. assert (P : set_bits 16 (Z.lor mask (Z.shiftl 1 s)) ≡ₚ s :: set_bits 16 mask).
  { apply NoDup_Permutation; [apply NoDup_set_bits|constructor; [|apply NoDup_set_bits]|].
    - rewrite elem_of_set_bits. intros [_ H]. congruence.
    - intros i. rewrite elem_of_cons, !elem_of_set_bits. split.
      + intros [Hi H]. rewrite testbit_set_bit in H by lia. apply orb_true_iff in H as [H|H%Z.eqb_eq]; auto.
      + intros [->|[Hi H]]; (split; [done|]); rewrite testbit_set_bit by lia; [by rewrite Z.eqb_refl, orb_true_r|by rewrite H]. }
  unfold card. by rewrite P.
Qed.

Lemma total_insert {A} `{!Inhabited A} (l : list A) t t' v : 0 <= t < Z.of_nat (length l) -> 0 <= t' ->
  <[Z.to_nat t := v]> l !!! Z.to_nat t' = if t' =? t then v else l !!! Z.to_nat t'.
Proof.
  intros Ht Ht'. destruct (t' =? t) eqn:E; reflect_cmp.
  - subst. apply list_lookup_total_insert_eq. lia.
  - apply list_lookup_total_insert_ne. lia.
Qed.

Lemma testbit_used_slots layouts t : 0 <= t < 16 -> Z.testbit (used_slots_of layouts) t = is_used (layouts !!! Z.to_nat t).
Proof.
  intros Ht. unfold used_slots_of. set (P := λ slot : Z, is_used (layouts !!! Z.to_nat slot) = true).
  assert (G : forall l mask, Forall (λ s, 0 <= s) l -> Z.testbit (foldl (λ mask slot, Z.lor mask (Z.shiftl 1 slot)) mask l) t = Z.testbit mask t || bool_decide (t ∈ l)).
  { induction l as [|s l IH]; intros mask F; cbn; [by rewrite orb_false_r|]. inversion F; subst. rewrite IH, testbit_set_bit by (done || lia).
    rewrite <- orb_assoc. f_equal. destruct (t =? s) eqn:E; reflect_cmp; subst; cbn; [symmetry; apply bool_decide_eq_true; constructor|].
    apply bool_decide_ext. rewrite elem_of_cons. intuition congruence. }
  rewrite G, Z.bits_0 by (apply Forall_forall; intros s [_ Hs%elem_of_seqZ]%list_elem_of_filter; lia). cbn.
  destruct (is_used _) eqn:E.
  - apply bool_decide_eq_true, list_elem_of_filter. split; [done|]. apply elem_of_seqZ. lia.
  - apply bool_decide_eq_false. intros [H _]%list_elem_of_filter. unfold P in H. congruence.
Qed.

(** ** Remapping *)

(** An attribute names a slot. *)
Definition slot_ok (a : VertexAttrDesc) : Prop := 0 <= va_buffer_index a < 16.

Section Remap.
Context (original : list StreamLayout).
Hypothesis Horiginal : length original = 16%nat.

Definition stream_layout (stream : Z) : StreamLayout := original !!! Z.to_nat stream.
Definition crosses (a : VertexAttrDesc) : bool := negb (fits a (stride (stream_layout (va_buffer_index a)))).
Definition reads (attrs : list VertexAttrDesc) (stream : Z) : bool := existsb (λ a, va_buffer_index a =? stream) attrs.
Definition keeps (attrs : list VertexAttrDesc) (stream : Z) : bool := existsb (λ a, (va_buffer_index a =? stream) && negb (crosses a)) attrs.
Definition narrow (a : VertexAttrDesc) : bool := byte_size (va_format a) <=? stride (stream_layout (va_buffer_index a)).

Lemma scan_exact attrs reserved read : Forall slot_ok attrs ->
  match scan original attrs reserved read with
  | inr (reserved', read') =>
      Forall (λ a, narrow a = true) attrs
      /\ forall i, 0 <= i -> Z.testbit reserved' i = Z.testbit reserved i || keeps attrs i /\ Z.testbit read' i = Z.testbit read i || reads attrs i
  | inl e => e = AttributeWiderThanStride /\ Exists (λ a, narrow a = false) attrs
  end.
Proof.
  intros F. revert reserved read. induction F as [|a attrs Ha F IH]; intros reserved read; cbn [scan].
  - split; [constructor|]. intros i _. by rewrite !orb_false_r.
  - unfold slot_ok in Ha. destruct (lookup_lt_is_Some_2 original (Z.to_nat (va_buffer_index a))) as [l Hl]; [lia|]. rewrite Hl.
    assert (El : stream_layout (va_buffer_index a) = l) by (unfold stream_layout; by apply list_lookup_total_correct).
    destruct (stride l <? byte_size (va_format a)) eqn:Ew.
    { split; [done|]. constructor. unfold narrow. rewrite El. reflect_cmp. lia. }
    match goal with |- context [scan original attrs ?r ?d] => specialize (IH r d); destruct (scan original attrs r d) as [e|[r' d']] end.
    { destruct IH as [-> IH]. split; [done|]. by apply Exists_cons_tl. }
    destruct IH as [Fn IH]. split; [constructor; [|done]; unfold narrow; rewrite El; reflect_cmp; lia|].
    intros i Hi. destruct (IH i Hi) as [-> ->]. unfold keeps, reads. cbn [existsb]. rewrite testbit_set_bit by lia. rewrite (Z.eqb_sym i).
    split; [|by rewrite orb_assoc]. unfold crosses. rewrite El, negb_involutive.
    destruct (fits a (stride l)); [rewrite testbit_set_bit, (Z.eqb_sym i) by lia|]; rewrite ?andb_true_r, ?andb_false_r; [by rewrite orb_assoc|done].
Qed.

(** The free slots a list of attributes will take. *)
Fixpoint need (attrs : list VertexAttrDesc) (reserved : Z) : nat :=
  match attrs with
  | [] => 0
  | a :: attrs =>
      if negb (crosses a) then need attrs reserved
      else if negb (Z.testbit reserved (va_buffer_index a)) then need attrs (Z.lor reserved (Z.shiftl 1 (va_buffer_index a)))
      else S (need attrs reserved)
  end.

Lemma need_agree attrs r r' : Forall slot_ok attrs -> (forall a, a ∈ attrs -> Z.testbit r (va_buffer_index a) = Z.testbit r' (va_buffer_index a)) ->
  need attrs r = need attrs r'.
Proof.
  intros F. revert r r'. induction F as [|a attrs Ha F IH]; intros r r' H; cbn; [done|].
  rewrite (H a) by constructor. unfold slot_ok in Ha.
  assert (H' : forall b, b ∈ attrs -> Z.testbit r (va_buffer_index b) = Z.testbit r' (va_buffer_index b)) by (intros; apply H; by constructor).
  destruct (negb (crosses a)); [by apply IH|]. destruct (negb _); [|by rewrite (IH r r')].
  apply IH. intros b Hb. assert (Hi : 0 <= va_buffer_index b) by (rewrite Forall_forall in F; specialize (F b Hb); unfold slot_ok in F; lia).
  rewrite !testbit_set_bit by lia. by rewrite (H' b Hb).
Qed.

(** Streams that will take their own slot back are not counted. *)
Lemma need_bound attrs reserved homes : Forall slot_ok attrs -> NoDup homes ->
  (forall h, h ∈ homes -> Z.testbit reserved h = false /\ exists a, a ∈ attrs /\ va_buffer_index a = h /\ crosses a = true) ->
  (need attrs reserved + length homes <= length (filter (λ a, crosses a = true) attrs))%nat.
Proof.
  intros F. revert reserved homes. induction F as [|a attrs Ha F IH]; intros reserved homes N H; cbn [need].
  - destruct homes as [|h homes]; [cbn; lia|]. destruct (H h) as (_ & a & Hin & _); [constructor|]. by apply elem_of_nil in Hin.
  - assert (T : forall h, h ∈ homes -> h <> va_buffer_index a \/ crosses a = false ->
      exists b, b ∈ attrs /\ va_buffer_index b = h /\ crosses b = true).
    { intros h Hh D. destruct (H h Hh) as (_ & b & [->|Hb]%elem_of_cons & Eb & Cb); [|eauto]. destruct D; congruence. }
    destruct (crosses a) eqn:Ca; cbn [negb].
    + rewrite filter_cons_True by done. cbn [length]. destruct (Z.testbit reserved (va_buffer_index a)) eqn:B; cbn [negb].
      * enough ((need attrs reserved + length homes <= length (filter (λ a, crosses a = true) attrs))%nat) by lia.
        apply IH; [done|]. intros h Hh. split; [by apply H|]. apply T; [done|]. left. intros ->. destruct (H _ Hh) as [B' _]. congruence.
      * set (rest := filter (λ h, h <> va_buffer_index a) homes).
        assert (L : (length homes <= S (length rest))%nat).
        { transitivity (length (va_buffer_index a :: rest)); [|done]. apply submseteq_length, NoDup_submseteq; [done|].
          intros h Hh. destruct (decide (h = va_buffer_index a)) as [->|D]; [constructor|]. constructor. apply list_elem_of_filter. done. }
        unfold slot_ok in Ha. pose proof (IH (Z.lor reserved (Z.shiftl 1 (va_buffer_index a))) rest (NoDup_filter _ _ N)) as G. etransitivity; [|apply le_n_S, G].
        { lia. }
        intros h [D Hh]%list_elem_of_filter. destruct (H h Hh) as (Bh & b & _ & Eb & _). split; [|apply T; auto].
        assert (0 <= h) by (destruct (T h Hh (or_introl D)) as (c & Hc & <- & _); rewrite Forall_forall in F; specialize (F c Hc); unfold slot_ok in F; lia).
        rewrite testbit_set_bit, Bh by lia. by apply Z.eqb_neq.
    + rewrite filter_cons_False by congruence. apply IH; [done|]. intros h Hh. split; [by apply H|]. apply T; auto.
Qed.

(** Sixteen attributes never run out of slots. *)
Lemma slots_suffice attrs reserved read : Forall slot_ok attrs -> (length attrs <= 16)%nat ->
  (forall i, 0 <= i -> Z.testbit reserved i = keeps attrs i /\ Z.testbit read i = reads attrs i) ->
  (card (Z.lor reserved read) + need attrs reserved <= 16)%nat.
Proof.
  intros F L H. set (homes := filter (λ s, Z.testbit reserved s = false) (set_bits 16 read)).
  assert (K : forall i, keeps attrs i = true -> reads attrs i = true).
  { intros i. unfold keeps, reads. rewrite !existsb_exists. intros (a & Ha & [? _]%andb_true_iff). eauto. }
  assert (B : (need attrs reserved + length homes <= length (filter (λ a, crosses a = true) attrs))%nat).
  { apply need_bound; [done|apply NoDup_filter, NoDup_set_bits|]. intros h [Br [Hh Bd]%elem_of_set_bits]%list_elem_of_filter.
    split; [done|]. destruct (H h) as [Hr Hd]; [lia|]. rewrite Hd in Bd. unfold reads in Bd. apply existsb_exists in Bd as (a & Ha & Ea%Z.eqb_eq).
    exists a. split; [by apply list_elem_of_In|]. split; [done|]. destruct (crosses a) eqn:Ca; [done|]. rewrite Hr in Br.
    assert (keeps attrs h = true) by (apply existsb_exists; exists a; rewrite Ea, Z.eqb_refl, Ca; done). congruence. }
  assert (C1 : (card reserved <= length (filter (λ a, crosses a = false) attrs))%nat).
  { transitivity (length (va_buffer_index <$> filter (λ a, crosses a = false) attrs)); [|by rewrite length_fmap].
    apply submseteq_length, NoDup_submseteq; [apply NoDup_set_bits|]. intros i [Hi Bi]%elem_of_set_bits. destruct (H i) as [Hr _]; [lia|].
    rewrite Hr in Bi. apply existsb_exists in Bi as (a & Ha & [Ea%Z.eqb_eq Ca%negb_true_iff]%andb_true_iff).
    apply list_elem_of_fmap. exists a. split; [done|]. apply list_elem_of_filter. split; [done|by apply list_elem_of_In]. }
  assert (C2 : (card (Z.lor reserved read) <= card reserved + length homes)%nat).
  { unfold card at 2. rewrite <- length_app. apply submseteq_length, NoDup_submseteq; [apply NoDup_set_bits|].
    intros i [Hi Bi]%elem_of_set_bits. rewrite Z.lor_spec in Bi. apply elem_of_app. destruct (Z.testbit reserved i) eqn:Br.
    - left. by apply elem_of_set_bits.
    - right. apply list_elem_of_filter. split; [done|]. by apply elem_of_set_bits. }
  assert (C3 : (length (filter (λ a, crosses a = true) attrs) + length (filter (λ a, crosses a = false) attrs) <= length attrs)%nat).
  { clear. induction attrs as [|a attrs IH]; [cbn; lia|]. rewrite !filter_cons. destruct (crosses a); repeat case_decide; cbn [length]; try congruence; lia. }
  lia.
Qed.

(** *** Placing *)

Section Place.
Context (all : list VertexAttrDesc) (read : Z).
Hypothesis Hread : forall i, 0 <= i -> Z.testbit read i = reads all i.

(** A reserved slot holds a stream's layout, at the stream's own offset or at
    that of an attribute that crosses; a free one holds nothing. *)
Record placing (reserved : Z) (layouts : list StreamLayout) (bindings : list VertexFetchBinding) : Prop := {
  pl_lengths : length layouts = 16%nat /\ length bindings = 16%nat;
  pl_taken t : 0 <= t < 16 -> Z.testbit reserved t = true ->
    let b := bindings !!! Z.to_nat t in
    layouts !!! Z.to_nat t = stream_layout b.1 /\ reads all b.1 = true
    /\ (b = (t, 0) \/ exists a, a ∈ all /\ crosses a = true /\ b = (va_buffer_index a, va_offset a));
  pl_free t : 0 <= t < 16 -> Z.testbit reserved t = false -> layouts !!! Z.to_nat t = UNUSED;
  pl_home t : 0 <= t < 16 -> Z.testbit reserved t = true -> reads all t = true -> (bindings !!! Z.to_nat t).1 = t;
  pl_keeps t : 0 <= t < 16 -> keeps all t = true -> Z.testbit reserved t = true /\ bindings !!! Z.to_nat t = (t, 0) }.

(** Where an attribute went, and that it still reads what it did. *)
Definition placed (reserved : Z) (bindings : list VertexFetchBinding) (a a' : VertexAttrDesc) : Prop :=
  attr_index a' = attr_index a /\ va_format a' = va_format a /\ slot_ok a' /\ Z.testbit reserved (va_buffer_index a') = true
  /\ (bindings !!! Z.to_nat (va_buffer_index a')).1 = va_buffer_index a
  /\ (bindings !!! Z.to_nat (va_buffer_index a')).2 + va_offset a' = va_offset a
  /\ Z.testbit reserved (va_buffer_index a) = true /\ va_offset a' = if crosses a then 0 else va_offset a.

Definition extends (reserved : Z) (layouts : list StreamLayout) (bindings : list VertexFetchBinding)
    (reserved' : Z) (layouts' : list StreamLayout) (bindings' : list VertexFetchBinding) : Prop :=
  forall t, 0 <= t < 16 -> Z.testbit reserved t = true ->
    Z.testbit reserved' t = true /\ layouts' !!! Z.to_nat t = layouts !!! Z.to_nat t /\ bindings' !!! Z.to_nat t = bindings !!! Z.to_nat t.

Lemma placed_extends r l b r' l' b' a a' : slot_ok a -> extends r l b r' l' b' -> placed r b a a' -> placed r' b' a a'.
Proof.
  intros Ha E (? & ? & Hs & Hr & H1 & H2 & Hh & Hz). destruct (E _ Hs Hr) as (Er & _ & Eb). unfold placed. rewrite Eb.
  destruct (E _ Ha Hh) as (Eh & _). done.
Qed.

(** A crossing attribute takes a slot no one has. *)
Lemma take_slot reserved layouts bindings a slot : placing reserved layouts bindings ->
  a ∈ all -> slot_ok a -> crosses a = true -> 0 <= slot < 16 -> Z.testbit reserved slot = false ->
  slot = va_buffer_index a \/ reads all slot = false ->
  let reserved' := Z.lor reserved (Z.shiftl 1 slot) in
  let layouts' := <[Z.to_nat slot := stream_layout (va_buffer_index a)]> layouts in
  let bindings' := <[Z.to_nat slot := (va_buffer_index a, va_offset a)]> bindings in
  placing reserved' layouts' bindings' /\ extends reserved layouts bindings reserved' layouts' bindings'.
Proof.
  intros [[L1 L2] T F H K] Ha Sa Ca Hs Hfree Hhome reserved' layouts' bindings'.
  assert (B : forall t, 0 <= t < 16 -> Z.testbit reserved' t = Z.testbit reserved t || (t =? slot)) by (intros; apply testbit_set_bit; lia).
  assert (E1 : forall t, 0 <= t < 16 -> layouts' !!! Z.to_nat t = if t =? slot then stream_layout (va_buffer_index a) else layouts !!! Z.to_nat t)
    by (intros; apply total_insert; lia).
  assert (E2 : forall t, 0 <= t < 16 -> bindings' !!! Z.to_nat t = if t =? slot then (va_buffer_index a, va_offset a) else bindings !!! Z.to_nat t)
    by (intros; apply total_insert; lia).
  assert (Ra : reads all (va_buffer_index a) = true) by (apply existsb_exists; exists a; split; [by apply list_elem_of_In|apply Z.eqb_refl]).
  assert (Old : forall t, 0 <= t < 16 -> Z.testbit reserved t = true -> (t =? slot) = false) by (intros; apply Z.eqb_neq; congruence).
  split; [split|].
  - unfold layouts', bindings'. by rewrite !length_insert.
  - intros t Ht. rewrite B, E1, E2 by done. destruct (t =? slot) eqn:Et; [|rewrite orb_false_r; by apply T].
    intros _. split; [done|]. split; [done|]. right. eauto.
  - intros t Ht. rewrite B, E1 by done. intros [? ->]%orb_false_iff. by apply F.
  - intros t Ht. rewrite B, E2 by done. destruct (t =? slot) eqn:Et; [|rewrite orb_false_r; by apply H].
    intros _ Rt. reflect_cmp. subst t. destruct Hhome as [->|Hh]; [done|congruence].
  - intros t Ht Kt. destruct (K t Ht Kt) as [Kr Kb]. rewrite B, E2, Kr, (Old t) by done. done.
  - intros t Ht Hr. rewrite B, E1, E2, Hr, (Old t) by done. done.
Qed.

Lemma place_exact attrs reserved layouts bindings : Forall slot_ok attrs -> (forall a, a ∈ attrs -> a ∈ all) ->
  placing reserved layouts bindings -> (card (Z.lor reserved read) + need attrs reserved <= 16)%nat ->
  exists attrs' layouts' bindings' reserved',
    place original read attrs reserved layouts bindings = (attrs', layouts', inr bindings')
    /\ placing reserved' layouts' bindings' /\ extends reserved layouts bindings reserved' layouts' bindings'
    /\ Forall2 (placed reserved' bindings') attrs attrs'.
Proof.
  intros F. revert reserved layouts bindings. induction F as [|a attrs Ha F IH]; intros reserved layouts bindings Hin P N.
  { exists [], layouts, bindings, reserved. split; [done|]. split; [done|]. split; [by intros t _ ?|constructor]. }
  assert (Hin' : forall b, b ∈ attrs -> b ∈ all) by (intros; apply Hin; by constructor).
  assert (Aall : a ∈ all) by (apply Hin; constructor).
  assert (Ra : reads all (va_buffer_index a) = true) by (apply existsb_exists; exists a; split; [by apply list_elem_of_In|apply Z.eqb_refl]).
  unfold slot_ok in Ha. cbn [place need] in *. fold (stream_layout (va_buffer_index a)).
  destruct (fits a (stride (stream_layout (va_buffer_index a)))) eqn:Ef.
  - assert (Ca : crosses a = false) by (unfold crosses; by rewrite Ef). rewrite Ca in N.
    destruct (IH reserved layouts bindings Hin' P N) as (attrs' & l' & b' & r' & E & P' & X & F2). rewrite E.
    exists (a :: attrs'), l', b', r'. split; [done|]. split; [done|]. split; [done|]. constructor; [|done].
    destruct (pl_keeps _ _ _ P' (va_buffer_index a) Ha) as [Kr Kb].
    { apply existsb_exists. exists a. rewrite Z.eqb_refl, Ca. split; [by apply list_elem_of_In|done]. }
    unfold placed. rewrite Kb. split_and!; try done. by rewrite Ca.
  - assert (Ca : crosses a = true) by (unfold crosses; by rewrite Ef). rewrite Ca in N. cbn [negb] in N.
    assert (Step : forall slot, 0 <= slot < 16 -> Z.testbit reserved slot = false -> slot = va_buffer_index a \/ reads all slot = false ->
      Z.testbit (Z.lor reserved (Z.shiftl 1 slot)) (va_buffer_index a) = true ->
      (card (Z.lor (Z.lor reserved (Z.shiftl 1 slot)) read) + need attrs (Z.lor reserved (Z.shiftl 1 slot)) <= 16)%nat ->
      exists attrs' layouts' bindings' reserved',
        (if MAX_STREAMS <=? slot then (a :: attrs, layouts, inl NoFreeSlot)
         else let '(attrs, layouts, r) := place original read attrs (Z.lor reserved (Z.shiftl 1 slot))
                (<[Z.to_nat slot := stream_layout (va_buffer_index a)]> layouts) (<[Z.to_nat slot := (va_buffer_index a, va_offset a)]> bindings) in
              (mkAttr (attr_index a) 0 (va_format a) slot :: attrs, layouts, r)) = (attrs', layouts', inr bindings')
        /\ placing reserved' layouts' bindings' /\ extends reserved layouts bindings reserved' layouts' bindings'
        /\ Forall2 (placed reserved' bindings') (a :: attrs) attrs').
    { intros slot Hs Hf Hh Hb N'. destruct (take_slot reserved layouts bindings a slot P Aall Ha Ca Hs Hf Hh) as [P1 X1].
      destruct (IH _ _ _ Hin' P1 N') as (attrs' & l' & b' & r' & E & P' & X & F2). rewrite E.
      assert (Em : (MAX_STREAMS <=? slot) = false) by (unfold MAX_STREAMS; lia). rewrite Em.
      eexists _, l', b', r'. split; [done|]. split; [done|]. split.
      - intros t Ht Hr. destruct (X1 t Ht Hr) as (R1 & <- & <-). by apply X.
      - constructor; [|done]. eapply placed_extends; [done|exact X|]. unfold placed. cbn.
        pose proof (pl_lengths _ _ _ P) as [_ L2]. rewrite (total_insert bindings) by lia. rewrite Z.eqb_refl. cbn.
        split_and!; [done|done|exact Hs|rewrite testbit_set_bit by lia; by rewrite Z.eqb_refl, orb_true_r|done|lia|exact Hb|by rewrite Ca]. }
    destruct (Z.testbit reserved (va_buffer_index a)) eqn:Br; cbn [negb] in N |- *.
    + assert (C : (card (Z.lor reserved read) < 16)%nat) by lia. apply free_slot in C as [Hs Hf].
      set (slot := trailing_zeros 16 _) in *. rewrite Z.lor_spec in Hf. apply orb_false_iff in Hf as [Hf Hr]. rewrite Hread in Hr by lia.
      apply Step; [done|done|by right|rewrite testbit_set_bit, Br by lia; done|].
      assert (card (Z.lor (Z.lor reserved (Z.shiftl 1 slot)) read) <= S (card (Z.lor reserved read)))%nat.
      { rewrite <- (set_bits_add (Z.lor reserved read) slot) by (done || (rewrite Z.lor_spec, Hf, Hread, Hr by lia; done)).
        apply card_le. intros i Hi. rewrite !Z.lor_spec. destruct (Z.testbit reserved i), (Z.testbit (Z.shiftl 1 slot) i), (Z.testbit read i); done. }
      rewrite (need_agree attrs (Z.lor reserved (Z.shiftl 1 slot)) reserved); [lia|done|]. intros b Hb. rewrite testbit_set_bit;
        [|lia|rewrite Forall_forall in F; specialize (F b Hb); unfold slot_ok in F; lia].
      assert (va_buffer_index b <> slot); [|by replace (va_buffer_index b =? slot) with false by (symmetry; by apply Z.eqb_neq); rewrite orb_false_r].
      intros Eb. assert (reads all slot = true) by (apply existsb_exists; exists b; rewrite Eb, Z.eqb_refl; split; [by apply list_elem_of_In, Hin'|done]). congruence.
    + apply Step; [done|done|by left|rewrite testbit_set_bit, Z.eqb_refl by lia; apply orb_true_r|].
      assert (card (Z.lor (Z.lor reserved (Z.shiftl 1 (va_buffer_index a))) read) <= card (Z.lor reserved read))%nat; [|lia].
      apply card_le. intros i Hi. rewrite !Z.lor_spec. rewrite Z.shiftl_1_l, Z.pow2_bits_eqb by lia. rewrite (Hread i) by lia.
      destruct (va_buffer_index a =? i) eqn:Ei; [|by rewrite orb_false_r]. reflect_cmp. subst i. rewrite Ra. intros _. apply orb_true_r.
Qed.
End Place.

(** *** The remapping of a list of attributes *)

Lemma own_binding t : 0 <= t < 16 -> own_bindings !!! Z.to_nat t = (t, 0).
Proof.
  intros Ht. apply list_lookup_total_correct. unfold own_bindings. rewrite list_lookup_fmap, lookup_seqZ_lt by lia.
  cbn. f_equal. f_equal. lia.
Qed.

Lemma reserved_layout reserved t : 0 <= t < 16 ->
  reserved_layouts original reserved !!! Z.to_nat t = if Z.testbit reserved t then stream_layout t else UNUSED.
Proof.
  intros Ht. apply list_lookup_total_correct. unfold reserved_layouts. rewrite list_lookup_imap.
  destruct (lookup_lt_is_Some_2 original (Z.to_nat t)) as [l Hl]; [lia|]. rewrite Hl. cbn. rewrite Z2Nat.id by lia.
  unfold stream_layout. by rewrite (list_lookup_total_correct _ _ _ Hl).
Qed.

Lemma keeps_reads attrs t : keeps attrs t = true -> reads attrs t = true.
Proof. unfold keeps, reads. rewrite !existsb_exists. intros (a & Ha & [? _]%andb_true_iff). eauto. Qed.

Lemma reads_at attrs a : a ∈ attrs -> reads attrs (va_buffer_index a) = true.
Proof. intros Ha. apply existsb_exists. exists a. rewrite Z.eqb_refl. split; [by apply list_elem_of_In|done]. Qed.

Lemma reads_at_inv attrs t : reads attrs t = true -> exists a, a ∈ attrs /\ va_buffer_index a = t.
Proof. intros (a & Ha & E%Z.eqb_eq)%existsb_exists. exists a. split; [by apply list_elem_of_In|done]. Qed.

Lemma remap_exact attrs : Forall slot_ok attrs -> (length attrs <= 16)%nat ->
  if forallb narrow attrs
  then exists attrs' layouts' bindings' reserved',
    remap_crossing_attributes attrs original = (attrs', layouts', inr bindings')
    /\ placing attrs reserved' layouts' bindings' /\ Forall2 (placed reserved' bindings') attrs attrs'
  else remap_crossing_attributes attrs original = (attrs, original, inl AttributeWiderThanStride).
Proof.
  intros F L. unfold remap_crossing_attributes. pose proof (scan_exact attrs 0 0 F) as S.
  destruct (scan original attrs 0 0) as [e|[reserved read]].
  - destruct S as [-> E]. destruct (forallb narrow attrs) eqn:N; [|done]. exfalso.
    apply Exists_exists in E as (a & Ha & Na). rewrite forallb_forall in N. rewrite (N a) in Na; [done|by apply list_elem_of_In].
  - destruct S as [N B]. assert (forallb narrow attrs = true) as ->.
    { apply forallb_forall. intros a Ha%list_elem_of_In. rewrite Forall_forall in N. by apply N. }
    assert (B' : forall i, 0 <= i -> Z.testbit reserved i = keeps attrs i /\ Z.testbit read i = reads attrs i).
    { intros i Hi. destruct (B i Hi) as [-> ->]. by rewrite !Z.bits_0. }
    assert (P : placing attrs reserved (reserved_layouts original reserved) own_bindings).
    { split.
      - unfold reserved_layouts, own_bindings. by rewrite length_imap, length_fmap, length_seqZ.
      - intros t Ht Hr. rewrite own_binding, reserved_layout, Hr by done. split; [done|]. split; [|by left].
        apply keeps_reads. cbn; by rewrite <- (proj1 (B' t ltac:(lia))).
      - intros t Ht Hr. by rewrite reserved_layout, Hr.
      - intros t Ht _ _. by rewrite own_binding.
      - intros t Ht Hk. rewrite (proj1 (B' t ltac:(lia))), own_binding by done. done. }
    destruct (place_exact attrs read (λ i Hi, proj2 (B' i Hi)) attrs reserved _ own_bindings F ltac:(done) P) as (a' & l' & b' & r' & E & P' & _ & F2).
    { by apply slots_suffice. }
    by exists a', l', b', r'.
Qed.

(** A stream that is read has its layout at its own slot. *)
Lemma home_layout attrs reserved layouts bindings attrs' a : Forall slot_ok attrs -> placing attrs reserved layouts bindings ->
  Forall2 (placed reserved bindings) attrs attrs' -> a ∈ attrs ->
  (bindings !!! Z.to_nat (va_buffer_index a)).1 = va_buffer_index a
  /\ layouts !!! Z.to_nat (va_buffer_index a) = stream_layout (va_buffer_index a).
Proof.
  intros F P F2 Ha. pose proof Ha as [k Hk]%list_elem_of_lookup. rewrite Forall_forall in F. pose proof (F a Ha) as Sa.
  destruct (Forall2_lookup_l _ _ _ _ _ F2 Hk) as (a' & _ & (_ & _ & _ & _ & _ & _ & Hr & _)).
  pose proof (pl_home _ _ _ _ P _ Sa Hr (reads_at _ _ Ha)) as Hh. split; [done|].
  destruct (pl_taken _ _ _ _ P _ Sa Hr) as [-> _]. by rewrite Hh.
Qed.

(** What a fetch is after it was built from these layouts. *)
Definition built (attrs : list VertexAttrDesc) (shifts : Z) (f : CrossingFetch) : Prop :=
  cf_stream_layouts f = original /\ cf_used_slots f = used_slots_of (cf_layouts f) /\ forallb narrow attrs = true
  /\ exists attrs' reserved, fetch_attrs f = move_attr (cf_bindings f) shifts <$> attrs'
    /\ placing attrs reserved (cf_layouts f) (cf_bindings f) /\ Forall2 (placed reserved (cf_bindings f)) attrs attrs'.

Lemma rebuild_exact f attrs shifts : Forall slot_ok attrs -> (length attrs <= 16)%nat ->
  let '(f', r) := rebuild f attrs original shifts in
  cf_source f' = cf_source f
  /\ if forallb narrow attrs then r = None /\ built attrs shifts f' else r = Some AttributeWiderThanStride.
Proof.
  intros F L. unfold rebuild. assert ((16 <? length attrs)%nat = false) as -> by (apply Nat.ltb_ge; lia).
  pose proof (remap_exact attrs F L) as R. destruct (forallb narrow attrs) eqn:En.
  - destruct R as (attrs' & layouts' & bindings' & reserved' & -> & P & F2). split; [done|]. split; [done|].
    split; [done|]. split; [done|]. split; [done|]. exists attrs', reserved'. split; [|done]. unfold fetch_attrs. cbn.
    assert (length attrs = length (move_attr bindings' shifts <$> attrs')) as -> by (rewrite length_fmap; by eapply Forall2_length).
    by rewrite take_app_length.
  - rewrite R. done.
Qed.
End Remap.

(** *** What the placement depends on *)

Definition agree_on (o o' : list StreamLayout) (attrs : list VertexAttrDesc) : Prop :=
  forall a, a ∈ attrs -> o !!! Z.to_nat (va_buffer_index a) = o' !!! Z.to_nat (va_buffer_index a).

(** The attributes and the bindings depend on the layouts of the streams read, and on nothing else. *)
Lemma place_agree o o' read attrs reserved layouts layouts' bindings : agree_on o o' attrs ->
  let p := place o read attrs reserved layouts bindings in
  let p' := place o' read attrs reserved layouts' bindings in p.1.1 = p'.1.1 /\ p.2 = p'.2.
Proof.
  revert reserved layouts layouts' bindings. induction attrs as [|a attrs IH]; intros reserved layouts layouts' bindings H; cbn [place]; [done|].
  assert (H' : agree_on o o' attrs) by (intros b Hb; apply H; by constructor). rewrite <- (H a) by constructor.
  destruct (fits a _).
  - specialize (IH reserved layouts layouts' bindings H'). destruct (place o _ _ _ _ _) as [[? ?] ?], (place o' _ _ _ _ _) as [[? ?] ?].
    cbn in *. by destruct IH as [-> ->].
  - set (slot := if negb _ then _ else _). destruct (MAX_STREAMS <=? slot); [done|].
    match goal with |- context [place o _ _ ?r ?l ?b] => match goal with |- context [place o' _ _ _ ?l' _] => specialize (IH r l l' b H') end end.
    destruct (place o _ _ _ _ _) as [[? ?] ?], (place o' _ _ _ _ _) as [[? ?] ?]. cbn in *. by destruct IH as [-> ->].
Qed.

Lemma scan_agree o o' attrs reserved read : length o = length o' -> agree_on o o' attrs -> scan o attrs reserved read = scan o' attrs reserved read.
Proof.
  intros L. revert reserved read. induction attrs as [|a attrs IH]; intros reserved read H; cbn [scan]; [done|].
  assert (H' : agree_on o o' attrs) by (intros b Hb; apply H; by constructor).
  destruct (o !! Z.to_nat (va_buffer_index a)) as [l|] eqn:E.
  - destruct (lookup_lt_is_Some_2 o' (Z.to_nat (va_buffer_index a))) as [l' E']; [rewrite <- L; by eapply lookup_lt_Some|]. rewrite E'.
    specialize (H a ltac:(constructor)). rewrite (list_lookup_total_correct _ _ _ E), (list_lookup_total_correct _ _ _ E') in H. subst l'.
    destruct (_ <? _); [done|]. by apply IH.
  - assert (o' !! Z.to_nat (va_buffer_index a) = None) as ->; [|done]. apply lookup_ge_None. rewrite <- L. by apply lookup_ge_None.
Qed.

Lemma remap_length attrs layouts : length (remap_crossing_attributes attrs layouts).1.1 = length attrs.
Proof.
  unfold remap_crossing_attributes. destruct (scan _ _ _ _) as [|[reserved read]]; [done|].
  generalize (reserved_layouts layouts reserved) own_bindings. revert reserved.
  induction attrs as [|a attrs IH]; intros reserved l b; cbn [place]; [done|]. destruct (fits a _).
  - specialize (IH reserved l b). destruct (place _ _ _ _ _ _) as [[? ?] ?]. cbn in *. by f_equal.
  - set (slot := if negb _ then _ else _). destruct (MAX_STREAMS <=? slot); [done|].
    match goal with |- context [place _ _ _ ?r ?l ?b] => specialize (IH r l b) end. destruct (place _ _ _ _ _ _) as [[? ?] ?]. cbn in *. by f_equal.
Qed.

(** ** The slots of a fetch *)

Lemma elem_of_slots_of f stream t advance :
  (t, advance) ∈ slots_of f stream <-> 0 <= t < 16 /\ Z.testbit (cf_used_slots f) t = true /\ cf_bindings f !!! Z.to_nat t = (stream, advance).
Proof.
  unfold slots_of. rewrite list_elem_of_omap. split.
  - intros (i & [Hi Bi]%elem_of_set_bits & E). destruct (cf_bindings f !!! Z.to_nat i) as [s d] eqn:Eb. cbn in E.
    destruct (s =? stream) eqn:Es; [|done]. reflect_cmp. injection E as <- <-. subst. done.
  - intros (Ht & Bt & Eb). exists t. split; [by apply elem_of_set_bits|]. rewrite Eb. cbn. by rewrite Z.eqb_refl.
Qed.

Lemma slots_of_slots f stream : NoDup (slots_of f stream).*1.
Proof.
  unfold slots_of. assert (G : forall l, NoDup l -> NoDup (omap (λ slot, let b := cf_bindings f !!! Z.to_nat slot in if b.1 =? stream then Some (slot, b.2) else None) l).*1).
  { induction 1 as [|t l Ht N IH]; [constructor|]. cbn. destruct (_ =? stream); [|done]. cbn. constructor; [|done].
    intros ([u d] & -> & (i & Hi & E)%list_elem_of_omap)%list_elem_of_fmap. cbn in *. destruct (_ =? stream); [|done]. by injection E as <- <-. }
  apply G, NoDup_set_bits.
Qed.

(** ** Layouts of the streams *)

Lemma layouts_exact a v streams layouts crossing offsets : NoDup streams -> Forall (λ s, 0 <= s < 16) streams -> length layouts = 16%nat ->
  (forall s, s ∈ streams -> layouts !!! Z.to_nat s = UNUSED /\ Z.testbit crossing s = false) ->
  let '(l, c, o) := foldl (layout_step a v) (layouts, crossing, offsets) streams in
  length l = 16%nat
  /\ (forall t, 0 <= t < 16 ->
      let lt := feed_layout (feed v t) (r_extents a !!! Z.to_nat t) in
      l !!! Z.to_nat t = (if bool_decide (t ∈ streams) then lt else layouts !!! Z.to_nat t)
      /\ Z.testbit c t = (if bool_decide (t ∈ streams) then stride lt <? r_extents a !!! Z.to_nat t else Z.testbit crossing t))
  /\ (offset_shift o = 0 <-> offset_shift offsets = 0 /\ forall s, s ∈ streams -> offset_shift (feed_offset (feed v s)) = 0).
Proof.
  intros N. revert layouts crossing offsets. induction N as [|s streams Hs N IH]; intros layouts crossing offsets F L H; cbn [foldl].
  { split; [done|]. split; [intros t Ht; by rewrite !bool_decide_eq_false_2 by apply not_elem_of_nil|]. split; [|by intros []]. intros Ho. split; [done|]. intros s Hs. by apply elem_of_nil in Hs. }
  inversion F; subst. unfold layout_step at 2. set (lt := feed_layout (feed v s) (r_extents a !!! Z.to_nat s)).
  set (cs := Z.lor crossing _). set (os := Z.lor offsets _).
  assert (Hc : forall t, 0 <= t < 16 -> Z.testbit cs t = Z.testbit crossing t || ((t =? s) && (stride lt <? r_extents a !!! Z.to_nat s))).
  { intros t Ht. unfold cs. rewrite Z.lor_spec, Z.shiftl_spec by lia. f_equal. destruct (stride lt <? _); cbn [Z.b2z].
    - rewrite andb_true_r. destruct (t =? s) eqn:E; reflect_cmp; [subst; by rewrite Z.sub_diag|].
      destruct (Z_lt_le_dec t s); [rewrite Z.testbit_neg_r by lia; done|]. apply (Z.bits_above_log2 1); cbn; lia.
    - by rewrite Z.bits_0, andb_false_r. }
  specialize (IH (<[Z.to_nat s := lt]> layouts) cs os). destruct (foldl _ _ streams) as [[l c] o].
  destruct IH as (Ll & G & Go); [done|by rewrite length_insert|..].
  { intros t Ht. assert (t <> s) by congruence. assert (0 <= t < 16) by (rewrite Forall_forall in H3; by apply H3).
    destruct (H t ltac:(by constructor)) as [E1 E2]. rewrite total_insert, Hc, E2 by lia. replace (t =? s) with false by (symmetry; by apply Z.eqb_neq). done. }
  split; [done|]. split.
  - intros t Ht. destruct (G t Ht) as [E1 E2]. rewrite E1, E2, total_insert, Hc by lia. destruct (t =? s) eqn:E; reflect_cmp.
    + subst t. rewrite !(bool_decide_eq_true_2 (s ∈ s :: streams)), !(bool_decide_eq_false_2 (s ∈ streams)) by (done || constructor).
      split; [done|]. by rewrite (proj2 (H s ltac:(constructor))).
    + rewrite orb_false_r. rewrite (bool_decide_ext (t ∈ s :: streams) (t ∈ streams)) by (rewrite elem_of_cons; intuition congruence). done.
  - rewrite Go. unfold os, offset_shift. rewrite Z.land_lor_distr_l, Z.lor_eq_0_iff. split.
    + intros [[Ho Hf] Hr]. split; [done|]. intros t [->|Ht]%elem_of_cons; [done|by apply Hr].
    + intros [Ho Hf]. split; [split; [done|]; apply Hf; constructor|]. intros t Ht. apply Hf. by constructor.
Qed.

Lemma stream_layouts_exact a v :
  let '(l, c, o) := stream_layouts_view a v in
  length l = 16%nat
  /\ (forall t, 0 <= t < 16 ->
      let lt := feed_layout (feed v t) (r_extents a !!! Z.to_nat t) in
      l !!! Z.to_nat t = (if Z.testbit (r_used_streams a) t then lt else UNUSED)
      /\ Z.testbit c t = Z.testbit (r_used_streams a) t && (stride lt <? r_extents a !!! Z.to_nat t))
  /\ (offset_shift o = 0 <-> forall s, 0 <= s < 16 -> Z.testbit (r_used_streams a) s = true -> offset_shift (feed_offset (feed v s)) = 0).
Proof.
  unfold stream_layouts_view. pose proof (layouts_exact a v (set_bits 16 (r_used_streams a)) (replicate 16 UNUSED) 0 0 (NoDup_set_bits _ _)) as H.
  destruct (foldl _ _ _) as [[l c] o]. destruct H as (L & G & Go); [|done|..].
  - apply Forall_forall. by intros s [Hs _]%elem_of_set_bits.
  - intros s [Hs _]%elem_of_set_bits. split; [|apply Z.bits_0]. apply list_lookup_total_correct, lookup_replicate. split; [done|lia].
  - split; [done|]. split.
    + intros t Ht. destruct (G t Ht) as [-> ->]. rewrite (lookup_total_replicate_2 16) by lia. rewrite Z.bits_0.
      rewrite (bool_decide_ext _ (Z.testbit (r_used_streams a) t = true)) by (rewrite elem_of_set_bits; intuition).
      by destruct (Z.testbit (r_used_streams a) t).
    + rewrite Go. split; [intros [_ H] s Hs B; apply H; by apply elem_of_set_bits|]. intros H. split; [done|]. intros s [Hs B]%elem_of_set_bits. by apply H.
Qed.

(** ** Resolving a declaration *)

Definition element_ok (e : Element) : Prop := 0 <= e_stream e < 65536 /\ 0 <= e_offset e < 65536.

(** The attribute an element becomes, if the descriptor has it. *)
Definition kept (attr_for : Element -> option Z) (e : Element) : option VertexAttrDesc :=
  if MAX_STREAMS <=? e_stream e then None
  else let format := (decl_type_to_metal_format (e_type e)).1 in
       if format =? VF_Invalid then None else reg ← attr_for e; Some (mkAttr reg (e_offset e) format (e_stream e)).

Definition attr_ok (a : VertexAttrDesc) : Prop := slot_ok a /\ 4 <= byte_size (va_format a) <= 16 /\ 0 <= va_offset a < 65536.

Lemma format_size ty : let '(format, size) := decl_type_to_metal_format ty in
  size = byte_size format /\ (format <> VF_Invalid -> 4 <= size <= 16).
Proof.
  unfold decl_type_to_metal_format. set (formats := [_; _; _; _; _; _; _; _; _; _; _; _; _; _; _; _; _]). split; [done|].
  destruct (nth_in_or_default (Z.to_nat ty) formats VF_Invalid) as [Hin| ->]; [|done].
  assert (F : Forall (λ f, f <> VF_Invalid -> 4 <= byte_size f <= 16) formats) by (repeat constructor; vm_compute; intros; try done; split; done).
  rewrite Forall_forall in F. apply F. by apply list_elem_of_In.
Qed.

Record resolved_ok (r : ResolvedAttrs) : Prop := {
  ro_attrs : Forall attr_ok (r_attrs r);
  ro_length : length (r_extents r) = 16%nat;
  ro_used s : 0 <= s < 16 -> Z.testbit (r_used_streams r) s = reads (r_attrs r) s;
  ro_extent a : a ∈ r_attrs r -> va_offset a + byte_size (va_format a) <= r_extents r !!! Z.to_nat (va_buffer_index a);
  ro_attained s : 0 <= s < 16 -> reads (r_attrs r) s = true ->
    exists a, a ∈ r_attrs r /\ va_buffer_index a = s /\ va_offset a + byte_size (va_format a) = r_extents r !!! Z.to_nat s;
  ro_zero s : 0 <= s < 16 -> reads (r_attrs r) s = false -> r_extents r !!! Z.to_nat s = 0 }.

Lemma resolve_exact attr_for elements r : Forall element_ok elements -> resolved_ok r ->
  resolved_ok (resolve_from attr_for elements r) /\ r_attrs (resolve_from attr_for elements r) = r_attrs r ++ omap (kept attr_for) elements.
Proof.
  intros F. revert r. induction F as [|e elements He F IH]; intros r R; cbn -[decl_type_to_metal_format kept]; [by rewrite app_nil_r|].
  unfold kept at 1. destruct He as [Hs Ho]. destruct (MAX_STREAMS <=? e_stream e) eqn:Em; [by apply IH|].
  pose proof (format_size (e_type e)) as Fs. destruct (decl_type_to_metal_format (e_type e)) as [format size]. cbn [fst] in *.
  destruct Fs as [Es Fs]. destruct (format =? VF_Invalid) eqn:Ef; [by apply IH|]. destruct (attr_for e) as [reg|]; [cbn|by apply IH].
  apply Z.eqb_neq in Ef. specialize (Fs Ef). unfold MAX_STREAMS in Em. apply Z.leb_gt in Em.
  assert (W : wrap32 (e_offset e + size) = e_offset e + size) by (apply wrap32_small; unfold is_u32, u32_max; lia). rewrite W.
  set (a := mkAttr reg (e_offset e) format (e_stream e)).
  destruct (IH (mkResolved (r_attrs r ++ [a]) (<[Z.to_nat (e_stream e) := Z.max (r_extents r !!! Z.to_nat (e_stream e)) (e_offset e + size)]> (r_extents r))
    (Z.lor (r_used_streams r) (Z.shiftl 1 (e_stream e))))) as [R' E']; [|split; [done|cbn [r_attrs] in E'; by rewrite E', <- app_assoc]].
  destruct R as [Ra Rl Ru Re Rt Rz].
  assert (Rd : forall s, reads (r_attrs r ++ [a]) s = reads (r_attrs r) s || (e_stream e =? s)).
  { intros s. unfold reads. rewrite existsb_app. cbn. by rewrite orb_false_r. }
  split; cbn [r_attrs r_extents r_used_streams].
  - apply Forall_app. split; [done|]. constructor; [|done]. split; [unfold slot_ok; cbn; lia|]. cbn. subst size. lia.
  - by rewrite length_insert.
  - intros s Hs'. rewrite Rd, testbit_set_bit, Ru by lia. by rewrite Z.eqb_sym.
  - intros b [Hb|Hb%list_elem_of_singleton]%elem_of_app.
    + rewrite Forall_forall in Ra. destruct (Ra b Hb) as [Sb _]. unfold slot_ok in Sb. rewrite total_insert by lia. specialize (Re b Hb).
      destruct (_ =? _) eqn:E; [|done]. reflect_cmp. rewrite E in Re. lia.
    + subst b. cbn. rewrite list_lookup_total_insert_eq by lia. subst size. lia.
  - intros s Hs'. rewrite Rd, total_insert by lia. destruct (s =? e_stream e) eqn:E.
    + apply Z.eqb_eq in E. subst s. intros _. destruct (Z.max_spec (r_extents r !!! Z.to_nat (e_stream e)) (e_offset e + size)) as [[Hm ->]|[Hm ->]].
      * exists a. split; [apply elem_of_app; right; constructor|]. by subst size.
      * destruct (reads (r_attrs r) (e_stream e)) eqn:Er.
        -- destruct (Rt _ Hs' Er) as (b & Hb & ? & ?). exists b. split; [apply elem_of_app; by left|done].
        -- rewrite (Rz _ Hs' Er) in Hm. lia.
    + rewrite (Z.eqb_sym (e_stream e)), E, orb_false_r. intros Er. destruct (Rt _ Hs' Er) as (b & Hb & ? & ?). exists b.
      split; [apply elem_of_app; by left|done].
  - intros s Hs'. rewrite Rd, total_insert by lia. intros [Er En]%orb_false_iff. rewrite Z.eqb_sym, En. by apply Rz.
Qed.

Lemma resolve_attrs_exact attr_for elements : Forall element_ok elements ->
  resolved_ok (resolve_attrs attr_for elements) /\ r_attrs (resolve_attrs attr_for elements) = omap (kept attr_for) elements.
Proof.
  intros F. apply (resolve_exact attr_for elements (mkResolved [] (replicate 16 0) 0) F). split; cbn [r_attrs r_extents r_used_streams]; try done.
  - intros s _. apply Z.bits_0.
  - intros a Ha. by apply elem_of_nil in Ha.
  - intros s Hs _. by rewrite (lookup_total_replicate_2 16) by lia.
Qed.

(** ** Offsets and shifts *)

Lemma offset_shift_mod o : offset_shift o = o mod 4.
Proof. unfold offset_shift. by apply (Z.land_ones o 2). Qed.

Lemma round_down o : Z.ldiff o 3 = o - o mod 4.
Proof. change 3 with (Z.ones 2). rewrite Z.ldiff_ones_r by lia. rewrite Z.shiftr_div_pow2, Z.shiftl_mul_pow2 by lia. change (2 ^ 2) with 4. rewrite Z.mod_eq; lia. Qed.

Lemma shift_of_lor shifts d s s' : 0 <= d < 4 -> 0 <= s -> 0 <= s' ->
  shift_of (Z.lor shifts (Z.shiftl d (2 * s'))) s = Z.lor (shift_of shifts s) (if s =? s' then d else 0).
Proof.
  intros Hd Hs Hs'. unfold shift_of. rewrite Z.shiftr_lor, Z.land_lor_distr_l. f_equal.
  change 3 with (Z.ones 2). rewrite Z.land_ones by lia. change (2 ^ 2) with 4.
  destruct (Z.lt_trichotomy s s') as [H|[->|H]].
  - replace (s =? s') with false by (symmetry; apply Z.eqb_neq; lia). rewrite Z.shiftr_shiftl_l by lia.
    rewrite Z.shiftl_mul_pow2 by lia. replace (2 * s' - 2 * s) with (2 * (s' - s - 1) + 2) by lia. rewrite Z.pow_add_r by lia. change (2 ^ 2) with 4.
    rewrite Z.mul_assoc. apply Z.mod_mul. lia.
  - rewrite Z.eqb_refl, Z.shiftr_shiftl_l, Z.sub_diag, Z.shiftl_0_r by lia. apply Z.mod_small. lia.
  - replace (s =? s') with false by (symmetry; apply Z.eqb_neq; lia). rewrite Z.shiftr_shiftl_r by lia.
    replace (2 * s - 2 * s') with (2 * (s - s')) by lia. rewrite Z.shiftr_div_pow2 by lia. rewrite Z.div_small; [done|]. split; [lia|]. apply (Z.lt_le_trans _ (2 ^ 2)); [lia|apply Z.pow_le_mono_r; lia].
Qed.

Lemma shifts_exact streams acc s : NoDup streams.*1 -> Forall (λ so, 0 <= so.1) streams -> 0 <= s ->
  (forall o, (s, o) ∈ streams -> shift_of acc s = 0) ->
  let shifts := foldl (λ shifts '(stream, offset), Z.lor shifts (Z.shiftl (offset_shift offset) (2 * stream))) acc streams in
  (forall o, (s, o) ∈ streams -> shift_of shifts s = o mod 4) /\ (~ s ∈ streams.*1 -> shift_of shifts s = shift_of acc s).
Proof.
  intros N F Hs. revert acc N. induction F as [|[t o] streams Ht F IH]; intros acc N H; cbn [foldl].
  - split; [intros o Ho; by apply elem_of_nil in Ho|done].
  - cbn in Ht. inversion N as [|? ? Nt N']; subst.
    assert (D : 0 <= offset_shift o < 4) by (rewrite offset_shift_mod; apply Z.mod_pos_bound; lia).
    destruct (IH (Z.lor acc (Z.shiftl (offset_shift o) (2 * t))) N') as [I1 I2].
    { intros o' Ho'. rewrite shift_of_lor, (H o') by (done || by constructor). assert (s <> t) by (intros ->; apply Nt, list_elem_of_fmap; by exists (t, o')).
      by replace (s =? t) with false by (symmetry; by apply Z.eqb_neq). }
    split.
    + intros o' [[= -> ->]|Ho']%elem_of_cons; [|by apply I1]. rewrite I2 by done. rewrite shift_of_lor, Z.eqb_refl, (H o) by (done || constructor).
      by rewrite Z.lor_0_l, offset_shift_mod.
    + intros Hn. cbn in Hn. rewrite I2 by (intros ?; apply Hn; by constructor). rewrite shift_of_lor by done.
      replace (s =? t) with false by (symmetry; apply Z.eqb_neq; intros ->; apply Hn; constructor). by rewrite Z.lor_0_r.
Qed.

(** ** What a vertex reads *)

(** A vertex fetch as Metal documents it: the element the layout's step function
    picks, in what was bound last at the attribute's slot, a buffer's offset
    without its low two bits.  Past the end of bound zeros it has no value. *)
Inductive Fetched := FromBytes (address : Z) | FromBuffer (buffer offset : Z) | FromZeros (offset : Z).
Definition slot_source (slots : list (Z * SlotSource)) (t : Z) : option SlotSource := snd <$> last (filter (λ b, b.1 = t) slots).
Definition metal_element (l : StreamLayout) (vertex instance : Z) : Z :=
  match step l with StepConstant => 0 | StepPerVertex => vertex | StepPerInstance => instance / step_rate l end.
Definition metal_fetch (i : VertexInput) (a : VertexAttrDesc) (vertex instance : Z) : option Fetched :=
  l ← vi_layouts i !! Z.to_nat (va_buffer_index a);
  s ← slot_source (vi_slots i) (va_buffer_index a);
  let at_ := metal_element l vertex instance * stride l + va_offset a in
  match s with
  | InlineBytes p _ => Some (FromBytes (p + at_))
  | BufferAt b o => Some (FromBuffer b (Z.ldiff o 3 + at_))
  | Zeros n => if at_ + byte_size (va_format a) <=? n then Some (FromZeros at_) else None
  end.

(** The same by D3D9: a per-instance stream of count [n] moves on every [n]
    instances, never where [n] is 0, and a stride of 0 stays on one element. *)
Definition d3d9_element (r : StreamRecord) (vertex instance : Z) : Z :=
  if is_instance_data (sr_frequency r)
  then let count := stream_freq_count (sr_frequency r) in if count =? 0 then 0 else instance / count
  else vertex.
Definition d3d9_fetch (v : VertexView) (extent stream offset vertex instance : Z) : Fetched :=
  match feed v stream with
  | FeedInline s => FromBytes (match v with ViewUp p _ _ => p | ViewBound _ => 0 end + vertex * layout_stride s extent + offset)
  | FeedBuffer r => FromBuffer (sr_buffer r) (sr_offset r + d3d9_element r vertex instance * sr_stride r + offset)
  | FeedNull => FromZeros offset
  end.

Lemma elements_agree r extent vertex instance :
  let l := bound_stream_layout (sr_stride r) extent (sr_frequency r) in
  metal_element l vertex instance * stride l = d3d9_element r vertex instance * sr_stride r.
Proof.
  unfold bound_stream_layout, d3d9_element, stream_step, layout_stride. destruct (sr_stride r =? 0) eqn:E; [cbn; reflect_cmp; lia|].
  destruct (is_instance_data _); cbn [negb]; [|done]. destruct (stream_freq_count _ =? 0); done.
Qed.

(** ** Draws that can be served *)

Definition record_ok (r : StreamRecord) : Prop :=
  0 <= sr_stream r < 16 /\ is_u32 (sr_offset r) /\ is_u32 (sr_stride r) /\ is_u64 (sr_length r).
Definition view_ok (v : VertexView) : Prop :=
  match v with
  | ViewUp address size stride => 0 <= address /\ is_u32 size /\ is_u32 stride /\ address + size <= u64_max
  | ViewBound rs => NoDup (sr_stream <$> rs) /\ Forall record_ok rs
  end.

(** The attribute can be fetched: it is no wider than its stream steps, and if it
    ends past the step, a binding advanced to it starts on a four-byte boundary
    inside what feeds the stream. *)
Definition servable (v : VertexView) (extents : list Z) (a : VertexAttrDesc) : Prop :=
  let l := feed_layout (feed v (va_buffer_index a)) (extents !!! Z.to_nat (va_buffer_index a)) in
  byte_size (va_format a) <= stride l
  /\ (stride l < va_offset a + byte_size (va_format a) ->
      forall base len, crossing_source v (va_buffer_index a) = Some (base, len) ->
        va_offset a mod 4 = 0 /\ Z.ldiff base 3 + va_offset a <= u32_max /\ Z.ldiff base 3 + va_offset a < len).

Lemma slot_source_unique slots t src : (t, src) ∈ slots -> (forall src', (t, src') ∈ slots -> src' = src) -> slot_source slots t = Some src.
Proof.
  intros Hin U. unfold slot_source. destruct (last _) as [[t' src']|] eqn:E; cbn.
  - apply last_Some_elem_of in E. apply list_elem_of_filter in E as [Et E]. cbn in Et. subst t'. f_equal. by apply U.
  - apply last_None in E. assert (H : (t, src) ∈ filter (λ b : Z * SlotSource, b.1 = t) slots) by (by apply list_elem_of_filter).
    rewrite E in H. by apply elem_of_nil in H.
Qed.

Section Serve.
Context (a : ResolvedAttrs) (v : VertexView).
Hypothesis Ha : resolved_ok a.
Hypothesis Hv : view_ok v.
Notation attrs := (r_attrs a).

Definition layout_of (s : Z) : StreamLayout := feed_layout (feed v s) (r_extents a !!! Z.to_nat s).

Lemma attr_facts b : b ∈ attrs -> slot_ok b /\ 4 <= byte_size (va_format b) <= 16 /\ 0 <= va_offset b < 65536 /\ reads attrs (va_buffer_index b) = true.
Proof.
  intros Hb. pose proof (ro_attrs _ Ha) as F. rewrite Forall_forall in F. destruct (F b Hb) as (? & ? & ?). split_and!; try done; try lia. by apply reads_at.
Qed.

Lemma fits_exact b s : b ∈ attrs -> fits b s = negb (s <? va_offset b + byte_size (va_format b)).
Proof.
  intros Hb. destruct (attr_facts b Hb) as (_ & ? & ? & _). unfold fits, checked, u32_max.
  replace ((0 <=? va_offset b + byte_size (va_format b)) && (va_offset b + byte_size (va_format b) <=? 4294967295)) with true by (symmetry; lia).
  apply Z.leb_antisym.
Qed.

Lemma layout_of_used s : 0 <= s < 16 -> reads attrs s = true -> is_used (layout_of s) = true.
Proof.
  intros Hs R. destruct (ro_attained _ Ha s Hs R) as (b & Hb & _ & E). destruct (attr_facts b Hb) as (_ & ? & ? & _).
  unfold is_used, layout_of, feed_layout, bound_stream_layout, layout_stride. apply negb_true_iff, Z.eqb_neq.
  destruct (feed v s) as [st|r|]; cbn [stride]; [destruct (_ =? 0) eqn:?; reflect_cmp; lia| |lia].
  destruct (sr_stride r =? 0) eqn:Er; [cbn; lia|]. destruct (stream_step _). cbn [stride]. rewrite ?Er. reflect_cmp. lia.
Qed.

Lemma feed_record s r : feed v s = FeedBuffer r -> exists rs, v = ViewBound rs /\ r ∈ rs /\ sr_stream r = s /\ record_ok r.
Proof.
  intros E. destruct v as [p n st|rs]; cbn in E; [by destruct (s =? 0)|]. destruct (List.find _ rs) as [r'|] eqn:F; [|done]. injection E as ->.
  apply find_some in F as [Hin Hs%Z.eqb_eq]. exists rs. apply list_elem_of_In in Hin. split_and!; [done..|].
  destruct Hv as [_ Hr]. rewrite Forall_forall in Hr. by apply Hr.
Qed.

Lemma feed_of_record rs r : v = ViewBound rs -> r ∈ rs -> feed v (sr_stream r) = FeedBuffer r.
Proof.
  intros E Hr. pose proof Hv as Hv'. subst v. cbn in *. destruct Hv' as [N _]. destruct (List.find _ rs) as [r'|] eqn:F.
  - apply find_some in F as [Hin Hs%Z.eqb_eq]. apply list_elem_of_In in Hin. f_equal.
    apply list_elem_of_lookup in Hr as [i Hi]. apply list_elem_of_lookup in Hin as [j Hj].
    assert (j = i) as ->; [|congruence]. eapply (NoDup_lookup _ _ _ (sr_stream r)); [done|rewrite list_lookup_fmap, Hj; cbn; by f_equal|by rewrite list_lookup_fmap, Hi].
  - exfalso. pose proof (find_none _ _ F r) as H. cbn in H. rewrite Z.eqb_refl in H. specialize (H (proj1 (list_elem_of_In _ _) Hr)). done.
Qed.

(** What a stream that nothing feeds binds. *)
Definition zeros_at (l : list StreamLayout) (t : Z) : SlotSource := Zeros (stride (l !!! Z.to_nat t) `min` NULL_STREAM_ZEROS).

Lemma null_bindings l t src :
  (t, src) ∈ omap (λ stream, match feed v stream with FeedNull => Some (stream, zeros_at l stream) | _ => None end) (set_bits 16 (r_used_streams a))
  <-> src = zeros_at l t /\ 0 <= t < 16 /\ reads attrs t = true /\ feed v t = FeedNull.
Proof.
  rewrite list_elem_of_omap. split.
  - intros (s & [Hs Bs]%elem_of_set_bits & E). destruct (feed v s) eqn:F; try done. injection E as -> <-. rewrite (ro_used _ Ha) in Bs by done. done.
  - intros (-> & Ht & R & E). exists t. rewrite E, elem_of_set_bits, (ro_used _ Ha) by done. done.
Qed.

(** An attribute on a stream that nothing feeds, within the zeros bound there. *)
Definition zeros_reach (b : VertexAttrDesc) : Prop :=
  feed v (va_buffer_index b) = FeedNull -> va_offset b + byte_size (va_format b) <= NULL_STREAM_ZEROS.

(** An attribute on a stream that keeps its own layout and whose offset is on a
    four-byte boundary. *)
Lemma plain_fetch l b vertex instance : b ∈ attrs -> l !! Z.to_nat (va_buffer_index b) = Some (layout_of (va_buffer_index b)) ->
  offset_shift (feed_offset (feed v (va_buffer_index b))) = 0 -> zeros_reach b ->
  metal_fetch (mkInput attrs l (slot_bindings a v l None)) b vertex instance
  = Some (d3d9_fetch v (r_extents a !!! Z.to_nat (va_buffer_index b)) (va_buffer_index b) (va_offset b) vertex instance).
Proof.
  intros Hb El Hz Hzr. unfold zeros_reach in Hzr. destruct (attr_facts b Hb) as (Hs & _ & _ & R). unfold slot_ok in Hs. set (s := va_buffer_index b) in *.
  unfold metal_fetch. cbn [vi_layouts vi_slots]. fold s. rewrite El. cbn [mbind option_bind].
  enough (exists src, slot_source (slot_bindings a v l None) s = Some src /\ match src with
    | InlineBytes p _ => Some (FromBytes (p + (metal_element (layout_of s) vertex instance * stride (layout_of s) + va_offset b)))
    | BufferAt bf o => Some (FromBuffer bf (Z.ldiff o 3 + (metal_element (layout_of s) vertex instance * stride (layout_of s) + va_offset b)))
    | Zeros n =>
        if metal_element (layout_of s) vertex instance * stride (layout_of s) + va_offset b + byte_size (va_format b) <=? n
        then Some (FromZeros (metal_element (layout_of s) vertex instance * stride (layout_of s) + va_offset b)) else None
    end = Some (d3d9_fetch v (r_extents a !!! Z.to_nat s) s (va_offset b) vertex instance)) as (src & -> & <-) by done.
  pose proof (layout_of_used s Hs R) as Used. unfold d3d9_fetch, layout_of in *. destruct (feed v s) as [st|r|] eqn:F.
  - destruct v as [p n st'|rs] eqn:Ev; [|cbn in F; by destruct (List.find _ _)]. cbn in F. destruct (s =? 0) eqn:E0; [|done].
    injection F as ->. reflect_cmp. exists (InlineBytes p n). split; [|cbn; do 2 f_equal; lia].
    apply slot_source_unique; rewrite E0; [constructor|]. intros src [[= ->]|H]%elem_of_cons; [done|]. rewrite <- Ev in H.
    apply null_bindings in H as (_ & _ & _ & H). subst v. done.
  - destruct (feed_record s r F) as (rs & Ev & Hr & Es & _). exists (BufferAt (sr_buffer r) (sr_offset r)). split.
    + assert (U : is_used (l !!! Z.to_nat (sr_stream r)) = true) by (by rewrite Es, (list_lookup_total_correct _ _ _ El)).
      apply slot_source_unique; unfold slot_bindings, null_slots.
      * apply elem_of_app. left. rewrite Ev. apply list_elem_of_bind. exists r. split; [|done]. rewrite U, Es. constructor.
      * intros src [H|H]%elem_of_app.
        -- rewrite Ev in H. apply list_elem_of_bind in H as (r' & H & Hr'). destruct (is_used (l !!! Z.to_nat (sr_stream r'))); [|by apply elem_of_nil in H].
           apply list_elem_of_singleton in H. injection H as E ->. pose proof (feed_of_record rs r' Ev Hr') as F'. rewrite <- E, F in F'. by injection F' as <-.
        -- apply null_bindings in H as (_ & _ & _ & H). congruence.
    + cbn [feed_layout feed_offset] in *. rewrite elements_agree. rewrite round_down, <- offset_shift_mod, Hz. do 2 f_equal. lia.
  - exists (zeros_at l s). split; cycle 1.
    { unfold zeros_at. rewrite (list_lookup_total_correct _ _ _ El). cbn [feed_layout metal_element step stride]. rewrite Z.mul_0_l, Z.add_0_l.
      pose proof (ro_extent _ Ha b Hb) as E. fold s in E. specialize (Hzr eq_refl). by rewrite (proj2 (Z.leb_le _ _)) by lia. }
    apply slot_source_unique; unfold slot_bindings, null_slots.
    + apply elem_of_app. right. by apply null_bindings.
    + intros src [H|H]%elem_of_app; [|by apply null_bindings in H as (-> & _)]. exfalso.
      assert (C : (exists p n st, v = ViewUp p n st) \/ exists rs, v = ViewBound rs) by (destruct v; eauto).
      destruct C as [(p & n & st & Ev)|[rs Ev]]; rewrite Ev in H.
      * apply list_elem_of_singleton in H. injection H as E _. rewrite Ev, E in F. done.
      * apply list_elem_of_bind in H as (r' & H & Hr'). destruct (is_used (l !!! Z.to_nat (sr_stream r'))); [|by apply elem_of_nil in H].
        apply list_elem_of_singleton in H. injection H as E _. pose proof (feed_of_record rs r' Ev Hr') as F'. rewrite <- E, F in F'. done.
Qed.

Section Layouts.
Context (l : list StreamLayout).
Hypothesis Hl : length l = 16%nat /\ forall t, 0 <= t < 16 -> l !!! Z.to_nat t = if reads attrs t then layout_of t else UNUSED.

Lemma layout_at b : b ∈ attrs -> stream_layout l (va_buffer_index b) = layout_of (va_buffer_index b).
Proof. intros Hb. destruct (attr_facts b Hb) as (Hs & _ & _ & R). unfold stream_layout. by rewrite (proj2 Hl), R by apply Hs. Qed.

Lemma crosses_exact b : b ∈ attrs -> crosses l b = (stride (layout_of (va_buffer_index b)) <? va_offset b + byte_size (va_format b)).
Proof. intros Hb. unfold crosses. by rewrite fits_exact, layout_at, negb_involutive. Qed.

(** *** With a fetch *)

Section Fetch.
Context (f : CrossingFetch) (shifts : Z).
Hypothesis Hf : built l attrs shifts f.
Hypothesis Hserve : Forall (servable v (r_extents a)) attrs.
Hypothesis Hshift : forall s, 0 <= s < 16 -> reads attrs s = true -> shift_of shifts s = feed_offset (feed v s) mod 4.

(** A slot that is bound: its stream, its layout, and an advance that is 0 or an
    attribute's that crosses. *)
Lemma slot_facts t s advance : 0 <= t < 16 -> Z.testbit (cf_used_slots f) t = true -> cf_bindings f !!! Z.to_nat t = (s, advance) ->
  0 <= s < 16 /\ reads attrs s = true /\ cf_layouts f !! Z.to_nat t = Some (layout_of s) /\ (reads attrs t = true -> t = s)
  /\ (t = s /\ advance = 0 \/ exists d, d ∈ attrs /\ va_buffer_index d = s /\ va_offset d = advance
        /\ stride (layout_of s) < va_offset d + byte_size (va_format d)).
Proof.
  intros Ht U B. destruct Hf as (_ & Eu & _ & attrs' & reserved & _ & P & _). rewrite Eu, testbit_used_slots in U by done.
  destruct (Z.testbit reserved t) eqn:Rt; [|by rewrite (pl_free _ _ _ _ _ P t Ht Rt) in U].
  destruct (pl_taken _ _ _ _ _ P t Ht Rt) as (El & Rs & Hadv). rewrite B in El, Rs, Hadv. cbn [fst] in *.
  apply reads_at_inv in Rs as H. destruct H as (b & Hb & Es). destruct (attr_facts b Hb) as (Hs & _). unfold slot_ok in Hs. rewrite Es in Hs.
  assert (E' : stream_layout l s = layout_of s) by (rewrite <- Es; by apply layout_at). rewrite E' in El.
  split_and!; try done; try lia.
  - rewrite <- El. apply list_lookup_lookup_total_lt. pose proof (pl_lengths _ _ _ _ _ P). lia.
  - intros Rd. pose proof (pl_home _ _ _ _ _ P t Ht Rt Rd) as H. rewrite B in H. done.
  - destruct Hadv as [[= -> ->]|(d & Hd & Cd & [= -> ->])]; [by left|right]. exists d. split_and!; try done.
    rewrite crosses_exact in Cd by done. by apply Z.ltb_lt in Cd.
Qed.

Lemma advance_served t s advance base len : 0 <= t < 16 -> Z.testbit (cf_used_slots f) t = true -> cf_bindings f !!! Z.to_nat t = (s, advance) ->
  crossing_source v s = Some (base, len) -> is_u32 base ->
  advance mod 4 = 0 /\ 0 <= Z.ldiff base 3 + advance <= u32_max /\ (advance = 0 \/ Z.ldiff base 3 + advance < len).
Proof.
  intros Ht U B C Hb. pose proof (Z.mod_pos_bound base 4 ltac:(lia)). unfold is_u32 in Hb.
  destruct (slot_facts t s advance Ht U B) as (_ & _ & _ & _ & [[_ ->]|(d & Hd & Es & <- & Cd)]).
  - rewrite round_down. split; [done|]. split; [|by left]. pose proof (Z.mod_le base 4). lia.
  - rewrite Forall_forall in Hserve. destruct (Hserve d Hd) as [_ S]. unfold layout_of in Cd. rewrite Es in S. destruct (S Cd base len C) as (? & ? & ?).
    destruct (attr_facts d Hd) as (_ & _ & ? & _). split_and!; try done; try (by right). all: rewrite round_down. pose proof (Z.mod_le base 4). lia.
Qed.

Lemma fetch_bindings t src : (t, src) ∈ slot_bindings a v l (Some f) ->
  src = zeros_at l t /\ 0 <= t < 16 /\ reads attrs t = true /\ feed v t = FeedNull
  \/ exists s advance, 0 <= t < 16 /\ Z.testbit (cf_used_slots f) t = true /\ cf_bindings f !!! Z.to_nat t = (s, advance)
     /\ match feed v s with
        | FeedInline _ => match v with ViewUp p n _ => src = InlineBytes (wrap64 (p + advance)) (wrap32 (n - advance)) | ViewBound _ => False end
        | FeedBuffer r => src = BufferAt (sr_buffer r) (slot_binding_offset (sr_offset r) advance)
        | FeedNull => False
        end.
Proof.
  unfold slot_bindings, null_slots. intros [H|H]%elem_of_app; [right|left; by apply null_bindings].
  assert (C : (exists p n st, v = ViewUp p n st) \/ exists rs, v = ViewBound rs) by (destruct v; eauto).
  destruct C as [(p & n & st & Ev)|[rs Ev]]; rewrite Ev in H.
  - apply list_elem_of_fmap in H as ([t' advance] & [= -> ->] & (Ht & U & B)%elem_of_slots_of). exists 0, advance. split_and!; try done; try lia. by rewrite Ev.
  - apply list_elem_of_bind in H as (r & H & Hr). destruct (is_used _); [|by apply elem_of_nil in H].
    apply list_elem_of_fmap in H as ([t' advance] & [= -> ->] & (Ht & U & B)%elem_of_slots_of). exists (sr_stream r), advance. split_and!; try done; try lia.
    by rewrite (feed_of_record rs r Ev Hr).
Qed.

Lemma bindings_fetch t s advance : 0 <= t < 16 -> Z.testbit (cf_used_slots f) t = true -> cf_bindings f !!! Z.to_nat t = (s, advance) ->
  match feed v s with
  | FeedInline _ => match v with ViewUp p n _ => (t, InlineBytes (wrap64 (p + advance)) (wrap32 (n - advance))) ∈ slot_bindings a v l (Some f) | ViewBound _ => True end
  | FeedBuffer r => (t, BufferAt (sr_buffer r) (slot_binding_offset (sr_offset r) advance)) ∈ slot_bindings a v l (Some f)
  | FeedNull => (s, zeros_at l s) ∈ slot_bindings a v l (Some f)
  end.
Proof.
  intros Ht U B. pose proof (proj2 (elem_of_slots_of f s t advance) (conj Ht (conj U B))) as Hslot.
  destruct (slot_facts t s advance Ht U B) as (Hs & Rs & _). unfold slot_bindings, null_slots.
  destruct (feed v s) as [st|r|] eqn:F.
  - assert (C : (exists p n st, v = ViewUp p n st) \/ exists rs, v = ViewBound rs) by (destruct v; eauto).
    destruct C as [(p & n & st' & Ev)|[rs Ev]]; rewrite Ev in *; [|done]. cbn in F. destruct (s =? 0) eqn:E0; [|done]. reflect_cmp.
    apply elem_of_app. left. apply list_elem_of_fmap. exists (t, advance). by subst s.
  - destruct (feed_record s r F) as (rs & Ev & Hr & Es & _). apply elem_of_app. left. rewrite Ev. apply list_elem_of_bind. exists r. split; [|done].
    assert (is_used (l !!! Z.to_nat (sr_stream r)) = true) as -> by (rewrite Es, (proj2 Hl), Rs by done; by apply layout_of_used).
    apply list_elem_of_fmap. exists (t, advance). by rewrite Es.
  - apply elem_of_app. right. by apply null_bindings.
Qed.

(** A stream nothing feeds steps by its extent, so nothing crosses there. *)
Lemma null_slot t s advance : 0 <= t < 16 -> Z.testbit (cf_used_slots f) t = true -> cf_bindings f !!! Z.to_nat t = (s, advance) ->
  feed v s = FeedNull -> t = s /\ advance = 0.
Proof.
  intros Ht U B F. destruct (slot_facts t s advance Ht U B) as (_ & _ & _ & _ & [?|(d & Hd & Es & _ & Cd)]); [done|exfalso].
  pose proof (ro_extent _ Ha d Hd) as E. rewrite Es in E. unfold layout_of in Cd. rewrite F in Cd. cbn in Cd. lia.
Qed.

(** What the binding of a slot comes to for the replay. *)
Lemma slot_bound t s advance : 0 <= t < 16 -> Z.testbit (cf_used_slots f) t = true -> cf_bindings f !!! Z.to_nat t = (s, advance) ->
  slot_source (slot_bindings a v l (Some f)) t = Some
    match feed v s with
    | FeedInline _ => match v with ViewUp p n _ => InlineBytes (wrap64 (p + advance)) (wrap32 (n - advance)) | ViewBound _ => zeros_at l s end
    | FeedBuffer r => BufferAt (sr_buffer r) (slot_binding_offset (sr_offset r) advance)
    | FeedNull => zeros_at l s
    end.
Proof.
  intros Ht U B. pose proof (bindings_fetch t s advance Ht U B) as M. destruct (slot_facts t s advance Ht U B) as (_ & _ & _ & Home & _).
  assert (Inl : forall st, feed v s = FeedInline st -> exists p n st', v = ViewUp p n st').
  { intros st F. destruct v as [p n st'|rs]; [by eauto|]. cbn in F. by destruct (List.find _ _). }
  apply slot_source_unique.
  - destruct (feed v s) as [st|r|] eqn:F; [|done|]; [destruct (Inl st eq_refl) as (p & n & st' & Ev); rewrite Ev in M |- * ; done | ].
    by destruct (null_slot t s advance Ht U B F) as [-> _].
  - intros src [(-> & _ & Rt & Ft)|(s' & advance' & _ & _ & B' & Hsrc)]%fetch_bindings.
    + rewrite <- (Home Rt), Ft. done.
    + rewrite B in B'. injection B' as <- <-. destruct (feed v s) as [st|r|] eqn:F; [|done|done].
      destruct (Inl st eq_refl) as (p & n & st' & Ev). by rewrite Ev in Hsrc |- *.
Qed.

Lemma served_fetch k b b' vertex instance : attrs !! k = Some b -> fetch_attrs f !! k = Some b' -> zeros_reach b ->
  attr_index b' = attr_index b /\ va_format b' = va_format b
  /\ metal_fetch (mkInput (fetch_attrs f) (cf_layouts f) (slot_bindings a v l (Some f))) b' vertex instance
     = Some (d3d9_fetch v (r_extents a !!! Z.to_nat (va_buffer_index b)) (va_buffer_index b) (va_offset b) vertex instance).
Proof.
  intros Hk Hk' Hz. pose proof Hf as (_ & Eu & _ & attrs' & reserved & Ea & P & F2). rewrite Ea, list_lookup_fmap in Hk'.
  destruct (attrs' !! k) as [c|] eqn:Hc; [|done]. injection Hk' as <-.
  destruct (Forall2_lookup_lr _ _ _ _ _ _ F2 Hk Hc) as (Ei & Efm & Ht & Rt & B1 & B2 & _ & Hoff). unfold slot_ok in Ht.
  assert (Hb : b ∈ attrs) by (by eapply list_elem_of_lookup_2). destruct (attr_facts b Hb) as (Hs & _ & Ho & Rs). unfold slot_ok in Hs.
  assert (Hoff' : va_offset c = 0 \/ va_offset c = va_offset b) by (rewrite Hoff; destruct (crosses l b); auto).
  set (t := va_buffer_index c) in *. set (s := va_buffer_index b) in *.
  destruct (cf_bindings f !!! Z.to_nat t) as [s' advance] eqn:B. cbn [fst snd] in B1, B2. subst s'.
  assert (U : Z.testbit (cf_used_slots f) t = true).
  { rewrite Eu, testbit_used_slots by done. destruct (pl_taken _ _ _ _ _ P t Ht Rt) as [-> _]. rewrite B. cbn [fst].
    unfold s. rewrite layout_at by done. by apply layout_of_used. }
  destruct (slot_facts t s advance Ht U B) as (_ & _ & El & _ & _).
  unfold metal_fetch, move_attr. cbn [vi_layouts vi_slots attr_index va_format va_buffer_index va_offset]. fold t.
  split; [done|]. split; [done|]. rewrite El, (slot_bound t s advance Ht U B), B. cbn [mbind option_bind fst].
  assert (M : 0 <= feed_offset (feed v s) mod 4 < 4) by (apply Z.mod_pos_bound; lia).
  rewrite (Hshift s Hs Rs). assert (wrap32 (va_offset c + feed_offset (feed v s) mod 4) = va_offset c + feed_offset (feed v s) mod 4) as ->
    by (apply wrap32_small; unfold is_u32, u32_max; lia).
  unfold d3d9_fetch. destruct (feed v s) as [st|r|] eqn:F.
  - assert (C : exists p n st', v = ViewUp p n st') by (destruct v as [p n st'|rs]; [by eauto|]; cbn in F; by destruct (List.find _ _)).
    destruct C as (p & n & st' & Ev). pose proof Hv as Hv'. rewrite Ev in Hv' |- *. cbn in Hv'. destruct Hv' as (Hp & Hn & _ & Hpn).
    assert (C : crossing_source v s = Some (0, n)) by (unfold crossing_source; clear -F Ev; rewrite Ev in *; by rewrite F).
    destruct (advance_served t s advance 0 n Ht U B C) as (_ & R & Hadv); [unfold is_u32, u32_max; lia|]. change (Z.ldiff 0 3) with 0 in *. rewrite Z.add_0_l in *.
    assert (wrap64 (p + advance) = p + advance) as -> by (apply wrap64_small; unfold is_u64, is_u32, u64_max in *; lia).
    unfold layout_of. rewrite F. cbn [feed_layout feed_offset metal_element step stride]. change (0 mod 4) with 0. do 2 f_equal. lia.
  - destruct (feed_record s r F) as (rs & Ev & Hr & _ & Ho1 & Ho2 & _).
    assert (C : crossing_source v s = Some (sr_offset r, sr_length r)) by (unfold crossing_source; clear -F Ev; rewrite Ev in *; by rewrite F).
    destruct (advance_served t s advance _ _ Ht U B C Ho2) as (Hmod & R & _).
    unfold slot_binding_offset. rewrite (wrap32_small _ R), !round_down. unfold layout_of. rewrite F. cbn [feed_layout feed_offset]. rewrite elements_agree.
    rewrite round_down in R. assert ((sr_offset r - sr_offset r mod 4 + advance) mod 4 = 0) as ->.
    { rewrite Z.add_mod, Hmod, Z.add_0_r by lia. rewrite Z.mod_mod by lia. pose proof (Z.div_mod (sr_offset r) 4 ltac:(lia)).
      replace (sr_offset r - sr_offset r mod 4) with (sr_offset r / 4 * 4) by lia. apply Z.mod_mul. lia. }
    do 2 f_equal. lia.
  - destruct (null_slot t s advance Ht U B F) as [_ ->]. pose proof (ro_extent _ Ha b Hb) as E. fold s in E. specialize (Hz F).
    unfold zeros_at. rewrite (proj2 Hl), Rs by done. unfold layout_of. rewrite F. cbn [feed_layout feed_offset metal_element step stride].
    change (0 mod 4) with 0. rewrite Efm, (proj2 (Z.leb_le _ _)) by lia. do 2 f_equal. lia.
Qed.
End Fetch.

(** *** When there is one *)

Context (c : Z).
Hypothesis Hc : forall t, 0 <= t < 16 -> Z.testbit c t = reads attrs t && (stride (layout_of t) <? r_extents a !!! Z.to_nat t).

Lemma first_error_None es : first_error es = None <-> forall e, e ∈ es -> exists o, e = inr o.
Proof.
  induction es as [|[e|o] es IH]; cbn.
  - split; [|done]. intros _ e He. by apply elem_of_nil in He.
  - split; [done|]. intros H. destruct (H (inl e)) as [? ?]; [constructor|done].
  - rewrite IH. split; intros H e He; [apply elem_of_cons in He as [->|He]; eauto|apply H; by constructor].
Qed.

Lemma advanced_exact base advance len : is_u32 base -> 0 <= advance < 65536 ->
  (exists o, advanced_binding_offset base advance len = inr o)
  <-> advance mod 4 = 0 /\ Z.ldiff base 3 + advance <= u32_max /\ Z.ldiff base 3 + advance < len.
Proof.
  intros Hb Hd. unfold is_u32 in Hb. pose proof (Z.mod_pos_bound base 4 ltac:(lia)). pose proof (Z.mod_le base 4 ltac:(lia) ltac:(lia)).
  unfold advanced_binding_offset. rewrite round_down. set (o := base - base mod 4 + advance).
  assert (M : o mod 4 = advance mod 4).
  { unfold o. pose proof (Z.div_mod base 4 ltac:(lia)). replace (base - base mod 4 + advance) with (advance + base / 4 * 4) by lia. apply Z.mod_add. lia. }
  unfold checked. destruct ((0 <=? o) && (o <=? u32_max)) eqn:E1.
  - rewrite M. destruct (advance mod 4 =? 0) eqn:E2; cbn [negb]; [|split; [by intros [? ?]|reflect_cmp; lia]].
    destruct (len <=? o) eqn:E3; reflect_cmp; split; try (by intros [? ?]); try lia; eauto.
  - split; [by intros [? ?]|]. intros (_ & H1 & _). reflect_cmp; lia.
Qed.

Lemma source_range s base len : crossing_source v s = Some (base, len) -> is_u32 base.
Proof.
  unfold crossing_source. assert (C : (exists p n st, v = ViewUp p n st) \/ exists rs, v = ViewBound rs) by (destruct v; eauto).
  destruct (feed v s) as [st|r|] eqn:F; destruct C as [(p & n & st' & Ev)|[rs Ev]].
  - rewrite Ev in *. cbn in F. intros H. destruct (s =? 0) eqn:E0; cbn in H; rewrite ?E0 in H; simplify_eq. unfold is_u32, u32_max. lia.
  - clear -F Ev. rewrite Ev in *. rewrite F. done.
  - destruct (feed_record s r F) as (rs & Ev' & _). congruence.
  - destruct (feed_record s r F) as (_ & _ & _ & _ & _ & Ho & _). clear -F Ev Ho. rewrite Ev in *. rewrite F. by intros [= <- _].
  - clear -F Ev. rewrite Ev in *. rewrite F. done.
  - clear -F Ev. rewrite Ev in *. rewrite F. done.
Qed.

Lemma check_exact f shifts : built l attrs shifts f ->
  check_advanced_offsets f c (crossing_source v) = None <-> Forall (servable v (r_extents a)) attrs.
Proof.
  intros Hf. unfold check_advanced_offsets. rewrite first_error_None. split.
  - intros H. apply Forall_forall. intros b Hb. destruct (attr_facts b Hb) as (Hs & Hw & Ho & Rs). unfold slot_ok in Hs. set (s := va_buffer_index b) in *.
    pose proof Hf as (_ & Eu & N & attrs' & reserved & Ea & P & F2). rewrite forallb_forall in N.
    specialize (N b (proj1 (list_elem_of_In _ _) Hb)). unfold narrow in N. fold s in N. unfold s in N. rewrite layout_at in N by done. fold s in N. apply Z.leb_le in N.
    unfold servable. fold s. split; [exact N|]. fold (layout_of s). intros Cb base len Csrc.
    pose proof Hb as [k Hk]%list_elem_of_lookup. destruct (Forall2_lookup_l _ _ _ _ _ F2 Hk) as (b' & _ & (_ & _ & Ht & Rt & B1 & B2 & _ & Hoff)).
    assert (Cr : crosses l b = true) by (rewrite crosses_exact by done; by apply Z.ltb_lt). rewrite Cr in Hoff. rewrite Hoff, Z.add_0_r in B2. unfold slot_ok in Ht.
    assert (Hbit : Z.testbit c s = true). { rewrite Hc, Rs by done. apply Z.ltb_lt. pose proof (ro_extent _ Ha b Hb). fold s in H0. lia. }
    destruct (H (advanced_binding_offset base (va_offset b) len)) as [o Hadv].
    { apply list_elem_of_bind. exists s. split; [|by apply elem_of_set_bits]. rewrite Csrc. apply list_elem_of_fmap. exists (va_buffer_index b', va_offset b). split; [done|].
      apply list_elem_of_filter. cbn. split; [lia|]. apply elem_of_slots_of. split; [done|]. split.
      - rewrite Eu, testbit_used_slots by done. destruct (pl_taken _ _ _ _ _ P _ Ht Rt) as [-> _]. rewrite B1. unfold s. rewrite layout_at by done. by apply layout_of_used.
      - destruct (_ !!! _) as [? ?]. cbn in *. by subst. }
    apply (advanced_exact base (va_offset b) len); [by eapply source_range|done|by exists o].
  - intros S e He. apply list_elem_of_bind in He as (s & He & [Hs _]%elem_of_set_bits). destruct (crossing_source v s) as [[base len]|] eqn:C; [|by apply elem_of_nil in He].
    apply list_elem_of_fmap in He as ([t advance] & -> & [Hne (Ht & U & B)%elem_of_slots_of]%list_elem_of_filter). cbn in Hne.
    pose proof (source_range s base len C) as Hb. destruct (advance_served f shifts Hf S t s advance base len Ht U B C Hb) as (? & ? & [?|?]); [done|].
    apply advanced_exact; [done| |lia]. destruct (slot_facts f shifts Hf t s advance Ht U B) as (_ & _ & _ & _ & [[_ ?]|(d & Hd & _ & <- & _)]); [lia|].
    by destruct (attr_facts d Hd) as (_ & _ & ? & _).
Qed.
End Layouts.
End Serve.

(** ** Read ranges *)

(** The range a per-instance stream's draw records covers what any instance
    fetches of any element, unless it is saturated and so past every buffer. *)
Lemma instanced_reads_covered instances st rate str extent i offset size :
  0 <= i < instances -> 0 < rate -> 0 < str -> 0 <= extent -> 0 <= offset + size <= extent ->
  let l := mkLayout str st rate in
  let n := crossing_read_size (instanced_stream_read_bytes instances st rate str) extent str in
  st <> StepPerVertex -> n = u32_max \/ metal_element l 0 i * str + offset + size <= n.
Proof.
  intros Hi Hr Hs He Ho l n Hst. set (k := match st with StepConstant => 1 | _ => div_ceil instances rate end).
  assert (Hk : metal_element l 0 i + 1 <= k).
  { unfold metal_element, k, l. cbn. destruct st; [lia|done|]. pose proof (div_ceil_mul_ge instances rate Hr) as D.
    assert (i / rate < div_ceil instances rate); [|lia]. apply Z.div_lt_upper_bound; lia. }
  assert (Hb : instanced_stream_read_bytes instances st rate str = if k * str <=? u32_max then k * str else u32_max).
  { unfold instanced_stream_read_bytes. assert (match st with StepConstant => 1 | _ => if rate =? 0 then 1 else div_ceil instances rate end = k) as ->.
    { unfold k. destruct st; [done|done|]. by replace (rate =? 0) with false by (symmetry; apply Z.eqb_neq; lia). }
    assert (0 <= k * str) by (assert (0 <= metal_element l 0 i) by (unfold metal_element, l; cbn; destruct st; [lia|lia|by apply Z.div_pos; lia]); nia).
    unfold checked. replace (0 <=? k * str) with true by (symmetry; lia). cbn. by destruct (k * str <=? u32_max). }
  assert (Hm : metal_element l 0 i * str + str <= k * str) by nia.
  assert (0 <= metal_element l 0 i) by (unfold metal_element, l; cbn; destruct st; [lia|lia|by apply Z.div_pos; lia]).
  unfold n, crossing_read_size. rewrite Hb. destruct (k * str <=? u32_max) eqn:E.
  - replace (k * str =? 0) with false by (symmetry; apply Z.eqb_neq; nia). apply Z.leb_le in E.
    set (x := metal_element l 0 i * str) in *. set (y := k * str) in *. assert (0 <= x) by (unfold x; nia). clearbody x y. unfold sat, u32_max in *. lia.
  - left. change (u32_max =? 0) with false. cbv iota. unfold sat, u32_max. lia.
Qed.

(** ** Packets *)

(** A fetch kept within a packet was built from the declaration it remembers. *)
Definition kept_ok (decl : Z -> ResolvedAttrs) (k : option CrossingFetch) : Prop :=
  forall f, k = Some f ->
    match cf_source f with
    | None => True
    | Some (record, shifts) => length (cf_stream_layouts f) = 16%nat /\ built (cf_stream_layouts f) (r_attrs (decl record)) shifts f
    end.

Lemma kept_forget_ok decl k : kept_ok decl (forget_source <$> k).
Proof. intros f H. destruct k as [g|]; [|done]. by injection H as <-. Qed.

Definition draw_shifts (a : ResolvedAttrs) (v : VertexView) : Z :=
  stream_shifts ((λ r, (sr_stream r, sr_offset r)) <$> filter (λ r, Z.testbit (r_used_streams a) (sr_stream r) = true) (bindings_of v)).

Lemma draw_shifts_exact a v s : resolved_ok a -> view_ok v -> 0 <= s < 16 -> reads (r_attrs a) s = true ->
  shift_of (draw_shifts a v) s = feed_offset (feed v s) mod 4.
Proof.
  intros Ha Hv Hs R. unfold draw_shifts. set (streams := _ <$> _).
  assert (E1 : streams.*1 = sr_stream <$> filter (λ r, Z.testbit (r_used_streams a) (sr_stream r) = true) (bindings_of v)).
  { unfold streams. rewrite <- list_fmap_compose. by apply list_fmap_ext. }
  assert (N : NoDup streams.*1 /\ Forall (λ so, 0 <= so.1) streams).
  { rewrite E1. unfold streams. destruct v as [p n st|rs]; [split; constructor|]. destruct Hv as [N F]. cbn [bindings_of]. split.
    - eapply sublist_NoDup; [exact N|]. apply fmap_sublist, sublist_filter.
    - apply Forall_fmap, Forall_forall. intros r [_ Hr]%list_elem_of_filter. rewrite Forall_forall in F. destruct (F r Hr). cbn. lia. }
  assert (Z0 : shift_of 0 s = 0) by (unfold shift_of; by rewrite Z.shiftr_0_l).
  destruct (shifts_exact streams 0 s (proj1 N) (proj2 N) ltac:(lia)) as [I1 I2]; [by intros o _|]. unfold stream_shifts.
  destruct (feed v s) as [st|r|] eqn:F.
  - rewrite I2; [by rewrite Z0|]. rewrite E1. destruct v; [apply not_elem_of_nil|]. cbn in F. by destruct (List.find _ _).
  - destruct (feed_record v Hv s r F) as (rs & Ev & Hr & Es & _). cbn. apply I1. unfold streams. apply list_elem_of_fmap. exists r. split; [by rewrite Es|].
    apply list_elem_of_filter. rewrite Es, (ro_used _ Ha), Ev by done. done.
  - rewrite I2; [by rewrite Z0|]. rewrite E1. intros (r & Es & [_ Hr]%list_elem_of_filter)%list_elem_of_fmap.
    destruct v as [p n st|rs]; [by apply elem_of_nil in Hr|]. pose proof (feed_of_record _ Hv rs r eq_refl Hr) as F'. rewrite <- Es, F in F'. done.
Qed.

(** A draw that gives up widens the crossing streams and no others. *)
Definition widen (a : ResolvedAttrs) (layouts : list StreamLayout) (stream : Z) : list StreamLayout :=
  alter (λ l, mkLayout (r_extents a !!! Z.to_nat stream) (step l) (step_rate l)) (Z.to_nat stream) layouts.

Lemma widened_elsewhere a c layouts t : 0 <= t -> Z.testbit c t = false ->
  foldl (widen a) layouts (set_bits 16 c) !! Z.to_nat t = layouts !! Z.to_nat t.
Proof.
  intros Ht B. assert (N : Forall (λ s, 0 <= s /\ s <> t) (set_bits 16 c)).
  { apply Forall_forall. intros s [Hs Bs]%elem_of_set_bits. split; [lia|]. intros ->. congruence. }
  revert layouts. induction N as [|s l [H0 Hs] _ IH]; intros layouts; [done|]. cbn [foldl]. rewrite IH.
  unfold widen. apply list_lookup_alter_ne. lia.
Qed.

(** The fetch is used just when every attribute can be served, and the one that
    is kept remembers what it was built from. *)
Lemma crossing_fetch_exact decl k record v layouts c : kept_ok decl k -> let a := decl record in
  resolved_ok a -> view_ok v -> (length (r_attrs a) <= 16)%nat -> length layouts = 16%nat ->
  (forall t, 0 <= t < 16 -> layouts !!! Z.to_nat t = (if reads (r_attrs a) t then layout_of a v t else UNUSED)
    /\ Z.testbit c t = reads (r_attrs a) t && (stride (layout_of a v t) <? r_extents a !!! Z.to_nat t)) ->
  let '(used, fetch, k') := crossing_fetch k record a v layouts c in
  match fetch with
  | Some f => Forall (servable v (r_extents a)) (r_attrs a) /\ used = cf_layouts f /\ built layouts (r_attrs a) (draw_shifts a v) f /\ kept_ok decl (Some f)
  | None => ~ Forall (servable v (r_extents a)) (r_attrs a) /\ used = foldl (widen a) layouts (set_bits 16 c) /\ kept_ok decl k'
  end.
Proof.
  intros Hk a Ha Hv L16 Ll H. unfold crossing_fetch. fold (draw_shifts a v).
  assert (Hl : length layouts = 16%nat /\ forall t, 0 <= t < 16 -> layouts !!! Z.to_nat t = if reads (r_attrs a) t then layout_of a v t else UNUSED)
    by (split; [done|]; intros t Ht; by apply H).
  assert (Hc : forall t, 0 <= t < 16 -> Z.testbit c t = reads (r_attrs a) t && (stride (layout_of a v t) <? r_extents a !!! Z.to_nat t)) by (intros; by apply H).
  assert (Hr : let '(f, r) := reuse_or_rebuild (default empty k) record (r_attrs a) layouts (draw_shifts a v) in
    kept_ok decl (Some f) /\ match r with None => built layouts (r_attrs a) (draw_shifts a v) f | Some _ => forallb (narrow layouts) (r_attrs a) = false end).
  { unfold reuse_or_rebuild. destruct (bool_decide _ && bool_decide _) eqn:E.
    - apply andb_true_iff in E as [E1%bool_decide_eq_true E2%bool_decide_eq_true].
      assert (Hk' : kept_ok decl (Some (default empty k))) by (destruct k; [done|by intros f [= <-]]).
      split; [done|]. specialize (Hk' _ eq_refl). rewrite E1 in Hk'. rewrite E2 in Hk'. by destruct Hk'.
    - pose proof (rebuild_exact layouts Ll (set_source (default empty k) None) (r_attrs a) (draw_shifts a v)) as R.
      destruct (rebuild _ _ _ _) as [f r]. destruct R as [Es R]; [|done|].
      { apply Forall_forall. intros b Hb. by destruct (attr_facts a Ha b Hb). }
      destruct (forallb _ _); [destruct R as [-> B]|rewrite R; split; [intros g [= <-]; by rewrite Es|done]].
      split; [|exact B]. intros g [= <-]. cbn. split; [|].
      + destruct B as [-> _]. done.
      + pose proof B as [E' _]. cbn. rewrite E'. exact B. }
  destruct (reuse_or_rebuild _ _ _ _ _) as [f r]. destruct Hr as [Kf Hr]. destruct r as [e|].
  - split; [|split; done]. intros S. assert (forallb (narrow layouts) (r_attrs a) = true); [|congruence].
    apply forallb_forall. intros b Hb%list_elem_of_In. rewrite Forall_forall in S. destruct (S b Hb) as [W _]. unfold narrow.
    rewrite (layout_at a v Ha layouts Hl b Hb). by apply Z.leb_le.
  - pose proof (check_exact a v Ha Hv layouts Hl c Hc f (draw_shifts a v) Hr) as C. destruct (check_advanced_offsets _ _ _).
    + split; [|split; done]. intros S. by apply C in S.
    + split; [by apply C|]. split_and!; done.
Qed.

Record Draw := mkDraw { dr_record : Z; dr_view : VertexView; dr_dropped : bool }.
(** The draws of a packet, each with the record of its declaration. *)
Fixpoint packet_draws (decl : Z -> ResolvedAttrs) (k : option CrossingFetch) (ds : list Draw) : list VertexInput :=
  match ds with
  | [] => []
  | d :: ds =>
      let '(input, k) := draw_vertices k (dr_dropped d) (dr_record d) (decl (dr_record d)) (dr_view d) in
      input :: packet_draws decl k ds
  end.

(** A stream whose elements all lie within its step, at an offset Metal takes as
    it is. *)
Definition plain_stream (a : ResolvedAttrs) (v : VertexView) (s : Z) : Prop :=
  r_extents a !!! Z.to_nat s <= stride (layout_of a v s) /\ feed_offset (feed v s) mod 4 = 0.

Definition fetches_as_declared (a : ResolvedAttrs) (v : VertexView) (input : VertexInput) : Prop :=
  length (vi_attrs input) = length (r_attrs a)
  /\ forall n b b', r_attrs a !! n = Some b -> vi_attrs input !! n = Some b' ->
    attr_index b' = attr_index b /\ va_format b' = va_format b
    /\ (zeros_reach v b -> Forall (servable v (r_extents a)) (r_attrs a) \/ plain_stream a v (va_buffer_index b) ->
      forall vertex instance, metal_fetch input b' vertex instance
       = Some (d3d9_fetch v (r_extents a !!! Z.to_nat (va_buffer_index b)) (va_buffer_index b) (va_offset b) vertex instance)).

Lemma draw_exact decl k dropped record v : kept_ok decl k -> let a := decl record in
  resolved_ok a -> view_ok v -> (length (r_attrs a) <= 16)%nat ->
  let '(input, k') := draw_vertices k dropped record a v in
  kept_ok decl k' /\ fetches_as_declared a v input.
Proof.
  intros Hk a Ha Hv L16. unfold draw_vertices. pose proof (stream_layouts_exact a v) as S. destruct (stream_layouts_view a v) as [[l c] o].
  destruct S as (Ll & G & Go).
  assert (H : forall t, 0 <= t < 16 -> l !!! Z.to_nat t = (if reads (r_attrs a) t then layout_of a v t else UNUSED)
    /\ Z.testbit c t = reads (r_attrs a) t && (stride (layout_of a v t) <? r_extents a !!! Z.to_nat t)).
  { intros t Ht. destruct (G t Ht) as [-> ->]. by rewrite (ro_used _ Ha) by done. }
  assert (Hl : length l = 16%nat /\ forall t, 0 <= t < 16 -> l !!! Z.to_nat t = if reads (r_attrs a) t then layout_of a v t else UNUSED)
    by (split; [done|]; intros t Ht; by apply H).
  assert (At : forall b, b ∈ r_attrs a -> l !! Z.to_nat (va_buffer_index b) = Some (layout_of a v (va_buffer_index b))).
  { intros b Hb. destruct (attr_facts a Ha b Hb) as (Hs & _). unfold slot_ok in Hs. rewrite <- (layout_at a v Ha l Hl b Hb).
    apply list_lookup_lookup_total_lt. lia. }
  destruct ((c =? 0) && (offset_shift o =? 0)) eqn:E.
  - split; [done|]. split; [done|]. cbn [vi_attrs]. intros n b b' Hb Hb'. rewrite Hb in Hb'. injection Hb' as <-.
    apply list_elem_of_lookup_2 in Hb. split; [done|]. split; [done|]. intros Hz _ vertex instance. apply plain_fetch; [done..|by apply At| |done].
    reflect_cmp. destruct (attr_facts a Ha b Hb) as (Hs & _ & _ & R). apply Go; [done|done|]. by rewrite (ro_used _ Ha).
  - pose proof (crossing_fetch_exact decl k record v l c Hk Ha Hv L16 Ll H) as C.
    fold a in C. destruct (crossing_fetch k record a v l c) as [[used fetch] k']. destruct fetch as [f|].
    + destruct C as (Hserve & -> & B & K). split; [by destruct dropped|]. pose proof B as (Es & _ & _ & attrs' & reserved & Ea & _ & F2). split.
      * cbn [vi_attrs]. rewrite Ea, length_fmap. symmetry. by eapply Forall2_length.
      * cbn [vi_attrs]. intros n b b' Hb Hb'. rewrite Es.
        assert (Hsh : forall s, 0 <= s < 16 -> reads (r_attrs a) s = true -> shift_of (draw_shifts a v) s = feed_offset (feed v s) mod 4)
          by (intros; by apply draw_shifts_exact).
        split; [|split; [|intros Hz _ vertex instance; by apply (served_fetch a v Ha Hv l Hl f _ B Hserve Hsh n b b')]].
        all: rewrite Ea, list_lookup_fmap in Hb'; destruct (attrs' !! n) as [b1|] eqn:E1; [|done]; injection Hb' as <-;
          by destruct (Forall2_lookup_lr _ _ _ _ _ _ F2 Hb E1) as (? & ? & _).
    + destruct C as (C & -> & K). split; [done|]. split; [done|]. cbn [vi_attrs]. intros n b b' Hb Hb'. rewrite Hb in Hb'. injection Hb' as <-.
      apply list_elem_of_lookup_2 in Hb. split; [done|]. split; [done|]. intros Hz [S|[Hx Hm]] vertex instance; [done|].
      destruct (attr_facts a Ha b Hb) as (Hs & _ & _ & R). unfold slot_ok in Hs. apply plain_fetch; [done..| |by rewrite offset_shift_mod|done].
      rewrite widened_elsewhere; [by apply At|lia|]. destruct (H _ Hs) as [_ ->]. rewrite R. by apply Z.ltb_ge.
Qed.

Lemma packet_exact decl k ds n d input : kept_ok decl k ->
  (forall d, d ∈ ds -> resolved_ok (decl (dr_record d)) /\ (length (r_attrs (decl (dr_record d))) <= 16)%nat /\ view_ok (dr_view d)) ->
  ds !! n = Some d -> packet_draws decl k ds !! n = Some input ->
  fetches_as_declared (decl (dr_record d)) (dr_view d) input.
Proof.
  revert k n. induction ds as [|d0 ds IH]; intros k n Hk H; [done|]. cbn [packet_draws].
  destruct (H d0 ltac:(constructor)) as (R & L & V). pose proof (draw_exact decl k (dr_dropped d0) (dr_record d0) (dr_view d0) Hk R V L) as D.
  destruct (draw_vertices _ _ _ _ _) as [input0 k']. destruct D as [K D]. destruct n as [|n]; cbn.
  - intros [= <-] [= <-]. exact D.
  - apply IH; [done|]. intros d' Hd'. apply H. by constructor.
Qed.

(** C14: Every element of the declaration that the shader consumes has its one
    attribute in the descriptor Metal gets, and nothing else is there, whatever
    the draws of a packet bind and whatever fetch was kept from a draw before.
    At every vertex and instance Metal reads that attribute where D3D9 puts the
    element, at [offset + element * stride + e_offset] of the stream's buffer
    (zeros where nothing is bound), strides shorter than the elements or 0,
    offsets off four-byte boundaries and per-instance streams included, on
    these terms: every attribute of the draw can be served ([servable]; a draw
    with one that cannot gives its fetch up), or at least the element's own
    stream steps over its elements at an offset on a four-byte boundary; and an
    element of an unbound stream lies within the 4096 zeros fed there. *)
Theorem elements_fetched_as_declared (decls : Z -> (Element -> option Z) * list Element) kept0 ds n d input :
  let decl record := resolve_attrs (decls record).1 (decls record).2 in
  let a := decl (dr_record d) in
  (forall record, Forall element_ok (decls record).2 /\ (length (omap (kept (decls record).1) (decls record).2) <= 16)%nat) ->
  Forall (λ d, view_ok (dr_view d)) ds ->
  ds !! n = Some d -> packet_draws decl (forget_source <$> kept0) ds !! n = Some input ->
  length (vi_attrs input) = length (omap (kept (decls (dr_record d)).1) (decls (dr_record d)).2)
  /\ forall e reg, e ∈ (decls (dr_record d)).2 -> (decls (dr_record d)).1 e = Some reg -> e_stream e < MAX_STREAMS ->
     (decl_type_to_metal_format (e_type e)).1 <> VF_Invalid ->
     exists b, b ∈ vi_attrs input /\ attr_index b = reg /\ va_format b = (decl_type_to_metal_format (e_type e)).1
       /\ (Forall (servable (dr_view d) (r_extents a)) (r_attrs a) \/ plain_stream a (dr_view d) (e_stream e) ->
           (feed (dr_view d) (e_stream e) = FeedNull -> e_offset e + byte_size (va_format b) <= NULL_STREAM_ZEROS) ->
           forall vertex instance, metal_fetch input b vertex instance
           = Some (d3d9_fetch (dr_view d) (r_extents a !!! Z.to_nat (e_stream e)) (e_stream e) (e_offset e) vertex instance)).
Proof.
  intros decl a Hd Hv Hn Hi. rewrite Forall_forall in Hv.
  assert (R : forall record, resolved_ok (decl record) /\ r_attrs (decl record) = omap (kept (decls record).1) (decls record).2)
    by (intros record; apply resolve_attrs_exact, Hd).
  destruct (packet_exact decl (forget_source <$> kept0) ds n d input) as [L F]; [apply kept_forget_ok| |done|done|].
  { intros d' Hd'. destruct (R (dr_record d')) as [Ra ->]. split_and!; [done|apply Hd|by apply Hv]. }
  destruct (R (dr_record d)) as [_ E]. fold a in E. split; [by rewrite L; fold a; rewrite E|].
  intros e reg He Hreg Hs Hf. set (b := mkAttr reg (e_offset e) (decl_type_to_metal_format (e_type e)).1 (e_stream e)).
  assert (Hb : b ∈ r_attrs a).
  { rewrite E. apply list_elem_of_omap. exists e. split; [done|]. unfold kept. replace (MAX_STREAMS <=? e_stream e) with false by (symmetry; lia).
    replace (_ =? VF_Invalid) with false by (symmetry; by apply Z.eqb_neq). by rewrite Hreg. }
  apply list_elem_of_lookup in Hb as [k Hk]. destruct (lookup_lt_is_Some_2 (vi_attrs input) k) as [b' Hk'].
  { rewrite L. by eapply lookup_lt_Some. }
  destruct (F k b b' Hk Hk') as (? & Ef & G). exists b'. split; [by eapply list_elem_of_lookup_2|]. split; [done|]. split; [done|].
  intros S Z0. apply G; [|done]. unfold zeros_reach. by rewrite <- Ef.
Qed.

(** C25: A draw gives up its own vertex fetch just when an attribute it reads
    cannot be bound: one wider than its stream steps, or one past the step
    whose advanced offset is off a four-byte boundary or outside the buffer.
    The sixteen slots never run out and no stream is out of range, and a draw
    whose streams are only off a boundary is always served. *)
Theorem fetch_given_up_iff attr_for elements record v :
  Forall element_ok elements -> (length (omap (kept attr_for) elements) <= 16)%nat -> view_ok v ->
  let a := resolve_attrs attr_for elements in
  let '(layouts, crossing, _) := stream_layouts_view a v in
  let '(used, fetch, _) := crossing_fetch None record a v layouts crossing in
  (fetch = None <-> ~ Forall (servable v (r_extents a)) (r_attrs a))
  /\ (crossing = 0 -> fetch <> None)
  /\ (remap_crossing_attributes (r_attrs a) layouts).2 <> inl NoFreeSlot
  /\ (remap_crossing_attributes (r_attrs a) layouts).2 <> inl StreamOutOfRange.
Proof.
  intros F L Hv a. destruct (resolve_attrs_exact attr_for elements F) as [Ha Ea]. fold a in Ha, Ea. rewrite <- Ea in L.
  pose proof (stream_layouts_exact a v) as S. destruct (stream_layouts_view a v) as [[l c] o]. destruct S as (Ll & G & _).
  assert (H : forall t, 0 <= t < 16 -> l !!! Z.to_nat t = (if reads (r_attrs a) t then layout_of a v t else UNUSED)
    /\ Z.testbit c t = reads (r_attrs a) t && (stride (layout_of a v t) <? r_extents a !!! Z.to_nat t)).
  { intros t Ht. destruct (G t Ht) as [-> ->]. by rewrite (ro_used _ Ha) by done. }
  pose proof (crossing_fetch_exact (λ _, a) None record v l c ltac:(done) Ha Hv L Ll H) as C.
  destruct (crossing_fetch None record a v l c) as [[used fetch] k'].
  assert (I : fetch = None <-> ~ Forall (servable v (r_extents a)) (r_attrs a)) by (destruct fetch; [destruct C; split; done|destruct C; split; done]).
  split; [exact I|]. split.
  - intros -> Hn. apply I in Hn. apply Hn, Forall_forall. intros b Hb. destruct (attr_facts a Ha b Hb) as (Hs & ? & ? & R).
    destruct (H _ Hs) as [_ B]. rewrite Z.bits_0, R in B. symmetry in B. cbn in B. apply Z.ltb_ge in B. pose proof (ro_extent _ Ha b Hb).
    unfold servable. fold (layout_of a v (va_buffer_index b)). split; lia.
  - pose proof (remap_exact l Ll (r_attrs a)) as R. destruct (forallb _ _); [|rewrite R; [done| |done]].
    + destruct R as (? & ? & ? & ? & -> & _); [|done|done]. apply Forall_forall. intros b Hb. by destruct (attr_facts a Ha b Hb).
    + apply Forall_forall. intros b Hb. by destruct (attr_facts a Ha b Hb).
Qed.

(** C26: Equal layouts place the attributes alike. Two draws over one list of
    attributes, with the same shifts, whose remapped layouts come out equal
    have the same attributes and bindings: the pipeline memo, which compares
    the layouts and not the attributes, never serves a pipeline that fetches
    from other slots. *)
Theorem equal_layouts_place_alike f1 f2 attrs l1 l2 shifts g1 g2 :
  Forall slot_ok attrs -> (length attrs <= 16)%nat -> length l1 = 16%nat -> length l2 = 16%nat ->
  rebuild f1 attrs l1 shifts = (g1, None) -> rebuild f2 attrs l2 shifts = (g2, None) -> cf_layouts g1 = cf_layouts g2 ->
  fetch_attrs g1 = fetch_attrs g2 /\ cf_bindings g1 = cf_bindings g2.
Proof.
  intros F L L1 L2 E1 E2 E.
  assert (Home : forall l f g, length l = 16%nat -> rebuild f attrs l shifts = (g, None) ->
    forall a, a ∈ attrs -> cf_layouts g !!! Z.to_nat (va_buffer_index a) = l !!! Z.to_nat (va_buffer_index a)).
  { intros l f g Ll Eg a Ha. pose proof (rebuild_exact l Ll f attrs shifts F L) as R. rewrite Eg in R. destruct R as [_ R].
    destruct (forallb _ _); [|done]. destruct R as [_ (_ & _ & _ & attrs' & reserved & _ & P & F2)].
    by destruct (home_layout l attrs reserved _ _ attrs' a F P F2 Ha) as [_ ->]. }
  assert (A : agree_on l1 l2 attrs) by (intros a Ha; rewrite <- (Home l1 f1 g1), <- (Home l2 f2 g2), E by done; done).
  assert (R : (remap_crossing_attributes attrs l1).1.1 = (remap_crossing_attributes attrs l2).1.1
    /\ (remap_crossing_attributes attrs l1).2 = (remap_crossing_attributes attrs l2).2).
  { unfold remap_crossing_attributes. rewrite (scan_agree l1 l2) by (by rewrite ?L1, ?L2). destruct (scan l2 attrs 0 0) as [|[reserved read]]; [done|]. by apply place_agree. }
  unfold rebuild in E1, E2. destruct (16 <? length attrs)%nat; [done|].
  destruct (remap_crossing_attributes attrs l1) as [[a1 ?] r1], (remap_crossing_attributes attrs l2) as [[a2 ?] r2] eqn:D. cbn in R. destruct R as [-> ->].
  destruct r2 as [|b]; [done|]. injection E1 as <-. injection E2 as <-. cbn in *. split; [|done]. unfold fetch_attrs. cbn.
  pose proof (remap_length attrs l2) as Ln. rewrite D in Ln. cbn in Ln.
  assert (length attrs = length (move_attr b shifts <$> a2)) as -> by (by rewrite length_fmap). by rewrite !take_app_length.
Qed.

(** A declaration over three streams: position and a colour past the stride on
    stream 0, a per-instance stream 1, a stream 5 that is not bound. *)
Definition sample_elements : list Element :=
  [ mkElement 0 0 2 0 0 0; mkElement 0 28 4 0 10 0; mkElement 1 0 0 0 5 0; mkElement 5 4 1 0 5 1; mkElement 0xFF 0 17 0 0 0 ].
Definition sample_attr_for (e : Element) : option Z := Some (e_usage e + e_usage_index e).
Definition sample_decls (_ : Z) : (Element -> option Z) * list Element := (sample_attr_for, sample_elements).
Definition sample_view : VertexView :=
  ViewBound [mkRecord 600 4096 6 16 1 0; mkRecord 601 64 8 4 (D3DSTREAMSOURCE_INSTANCEDATA + 2) 1].
Definition sample_draws : list Draw := [mkDraw 1 sample_view false; mkDraw 1 (ViewUp 8192 100 16) false; mkDraw 1 sample_view true].

Lemma sample_elements_ok : Forall element_ok sample_elements.
Proof. repeat constructor; cbn; lia. Qed.

Lemma sample_views_ok : Forall (λ d, view_ok (dr_view d)) sample_draws.
Proof.
  assert (V : view_ok sample_view).
  { split; [cbn; repeat constructor; rewrite ?elem_of_cons, ?elem_of_nil; intuition congruence|]. repeat constructor; done. }
  constructor; [exact V|]. constructor; [cbn; unfold is_u32, u32_max, u64_max; lia|]. constructor; [exact V|constructor].
Qed.

Lemma sample_servable d : d ∈ sample_draws ->
  Forall (servable (dr_view d) (r_extents (resolve_attrs sample_attr_for sample_elements))) (r_attrs (resolve_attrs sample_attr_for sample_elements)).
Proof.
  intros Hd. assert (S : forall v, v = sample_view \/ v = ViewUp 8192 100 16 ->
    Forall (servable v (r_extents (resolve_attrs sample_attr_for sample_elements))) (r_attrs (resolve_attrs sample_attr_for sample_elements))).
  { assert (E : r_attrs (resolve_attrs sample_attr_for sample_elements)
      = [mkAttr 0 0 Float3 0; mkAttr 10 28 UChar4NormalizedBgra 0; mkAttr 5 0 VF_Float 1; mkAttr 6 4 Float2 5]) by reflexivity.
    intros v [->| ->]; rewrite E; repeat (apply Forall_cons_2; [|]); try apply Forall_nil_2.
    all: split; [vm_compute; discriminate|]; intros H base len C; vm_compute in H; try discriminate.
    all: vm_compute in C; injection C as <- <-; vm_compute; split; [reflexivity|split; [discriminate|reflexivity]]. }
  apply S. repeat (apply elem_of_cons in Hd as [->|Hd]; [cbn; auto|]). by apply elem_of_nil in Hd.
Qed.

Lemma sample_input : exists input,
  packet_draws (λ r, resolve_attrs (sample_decls r).1 (sample_decls r).2) (forget_source <$> None) sample_draws !! 2%nat = Some input.
Proof. eexists. vm_compute. reflexivity. Qed.

(** In the second use of the fetch the colour of vertex 3 is at 6 + 3 * 16 + 28,
    and the element of the unbound stream reads the zeros at its offset. *)
Lemma elements_fetched_as_declared_witness :
  exists input b z,
    packet_draws (λ r, resolve_attrs (sample_decls r).1 (sample_decls r).2) (forget_source <$> None) sample_draws !! 2%nat = Some input
    /\ b ∈ vi_attrs input /\ attr_index b = 10 /\ metal_fetch input b 3 0 = Some (FromBuffer 600 82)
    /\ z ∈ vi_attrs input /\ attr_index z = 6 /\ metal_fetch input z 3 0 = Some (FromZeros 4).
Proof.
  destruct sample_input as [input E].
  destruct (elements_fetched_as_declared sample_decls None sample_draws 2 (mkDraw 1 sample_view true) input) as [_ F].
  - intros record. split; [exact sample_elements_ok|]. vm_compute. lia.
  - exact sample_views_ok.
  - reflexivity.
  - exact E.
  - pose proof (sample_servable (mkDraw 1 sample_view true)) as S.
    destruct (F (mkElement 0 28 4 0 10 0) 10) as (b & Hb & Hi & _ & Hm); [constructor 2; constructor|reflexivity|reflexivity|discriminate|].
    destruct (F (mkElement 5 4 1 0 5 1) 6) as (z & Hz & Hj & Ef & Hn); [do 3 constructor 2; constructor|reflexivity|reflexivity|discriminate|].
    exists input, b, z. split; [exact E|]. split; [exact Hb|]. split; [exact Hi|]. split; [|split; [exact Hz|split; [exact Hj|]]].
    + rewrite Hm; [reflexivity|left; apply S; do 2 constructor 2; constructor|discriminate].
    + rewrite Hn; [reflexivity|left; apply S; do 2 constructor 2; constructor|intros _; rewrite Ef; vm_compute; discriminate].
Defined.

(** A buffer that ends before the colour of its first vertex. *)
Definition sample_resolved : ResolvedAttrs := resolve_attrs sample_attr_for sample_elements.
Definition sample_short : VertexView := ViewBound [mkRecord 600 30 6 16 1 0].
Lemma sample_short_ok : view_ok sample_short.
Proof. split; [repeat constructor; apply not_elem_of_nil|repeat constructor; done]. Qed.
Lemma sample_given_up :
  let s := stream_layouts_view sample_resolved sample_short in (crossing_fetch None 1 sample_resolved sample_short s.1.1 s.1.2).1.2 = None.
Proof. vm_compute. reflexivity. Qed.
Lemma sample_count : (length (omap (kept sample_attr_for) sample_elements) <= 16)%nat.
Proof. vm_compute. lia. Qed.

Lemma fetch_given_up_iff_witness :
  ~ Forall (servable sample_short (r_extents sample_resolved)) (r_attrs sample_resolved).
Proof.
  pose proof (fetch_given_up_iff sample_attr_for sample_elements 1 sample_short sample_elements_ok sample_count sample_short_ok) as H.
  pose proof sample_given_up as G. cbv zeta in H, G. fold sample_resolved in H.
  destruct (stream_layouts_view sample_resolved sample_short) as [[l c] o]. cbn [fst snd] in G.
  destruct (crossing_fetch None 1 sample_resolved sample_short l c) as [[u f] k]. cbn [fst snd] in G. destruct H as [H _]. apply H. exact G.
Defined.

Lemma equal_layouts_place_alike_witness :
  let attrs := r_attrs (resolve_attrs sample_attr_for sample_elements) in
  let layouts := (stream_layouts_view (resolve_attrs sample_attr_for sample_elements) sample_view).1.1 in
  (rebuild empty attrs layouts 2).2 = None
  /\ fetch_attrs (rebuild empty attrs layouts 2).1 = fetch_attrs (rebuild (forget_source empty) attrs layouts 2).1.
Proof.
  intros attrs layouts. assert (E : (rebuild empty attrs layouts 2).2 = None) by (vm_compute; reflexivity).
  split; [exact E|]. apply (equal_layouts_place_alike empty (forget_source empty) attrs layouts layouts 2).
  - repeat constructor; vm_compute; done.
  - vm_compute. lia.
  - vm_compute. reflexivity.
  - vm_compute. reflexivity.
  - vm_compute. reflexivity.
  - vm_compute. reflexivity.
  - vm_compute. reflexivity.
Defined.
