(* ===== verification/StageUpload.v ===== *)
(** The bytes a draw reads of a staged buffer, as [draw.rs] records them, and
    [passes.rs] ([DrawnRangeTracker]) and [encoder.rs] ([apply_stage_upload],
    the staged arm of [ensure_vbib_mtl_buffer], [reissue_stage_upload]): the
    encoder applies staged uploads in op order, but the blits that carry them
    run at the head of the frame, before every draw.  A device buffer a draw
    already read is renamed when a later upload overlaps what it read. *)

From S2P Require Import Prelude DirtyRange BufferRename PipelineState VertexStreams.

(** ** The bytes a draw reads *)

(** The index records of a draw, as far as they say which vertices it reads. *)
Inductive IndexView :=
  | IndexNone (start_vertex vertex_count : Z)
  | IndexBound (base_vertex index_count : Z)
  | IndexFan (start_vertex primitive_count : Z)
  | IndexGenerated (min_vertex maximum : Z)
  | IndexUp.

(** What a draw reads of one staged buffer: a vertex stream from its offset, by
    the stream's layout, [extent] bytes of it being consumed of an element and
    [fetch] telling that the draw has a fetch of its own; or an index buffer. *)
Inductive draw_read :=
  | VertexRead (offset : Z) (layout : StreamLayout) (extent : Z) (fetch : bool) (instances : Z) (indices : IndexView)
  | IndexRead (offset index_count index_size : Z).

(** The [read_range] of [draw]'s bound streams. *)
Definition stream_range (offset : Z) (layout : StreamLayout) (instances : Z) (indices : IndexView) : option (Z * Z) :=
  match PipelineState.step layout, indices with
  | StepPerVertex, IndexNone start_vertex vertex_count =>
      nonindexed_vb_range offset (stride layout) start_vertex vertex_count
  | StepPerVertex, IndexBound base_vertex index_count =>
      indexed_vb_range_lower_bound offset (stride layout) base_vertex index_count
  | StepPerVertex, IndexFan start_vertex primitive_count =>
      nonindexed_vb_range offset (stride layout) start_vertex (primitive_count +| 2)%u32
  | StepPerVertex, IndexGenerated min_vertex maximum =>
      nonindexed_vb_range offset (stride layout) min_vertex ((maximum -% min_vertex)%u32 +% 1)%u32
  | StepPerVertex, IndexUp => None
  | _, _ => Some (offset, instanced_stream_read_bytes instances (PipelineState.step layout) (step_rate layout) (stride layout))
  end.

(** The bytes of an index buffer a draw reads. *)
Definition index_range (offset index_count index_size : Z) : Z * Z := (offset, (index_count *| index_size)%u32).

(** What the draw notes of the buffer. *)
Definition draw_range (d : draw_read) : option (Z * Z) :=
  match d with
  | VertexRead offset layout extent fetch instances indices =>
      '(range_off, range_size) ← stream_range offset layout instances indices;
      Some (range_off, if negb fetch then range_size else crossing_read_size range_size extent (stride layout))
  | IndexRead offset index_count index_size => Some (index_range offset index_count index_size)
  end.

Definition indices_ok (i : IndexView) : Prop :=
  match i with
  | IndexNone a n => is_u32 a /\ is_u32 n
  | IndexFan a n => is_u32 a /\ is_u32 n /\ n + 2 <= u32_max
  | IndexBound base n => -2147483648 <= base <= 2147483647 /\ is_u32 n
  | IndexGenerated a b => is_u32 a /\ is_u32 b /\ a <= b /\ b - a < u32_max
  | IndexUp => True
  end.

(** The fields are of their widths; a fan is no longer than the shared pattern
    reaches, and a generated list does not name both vertex 0 and vertex
    2^32 - 1, for which its vertex count would wrap. *)
Definition draw_ok (d : draw_read) : Prop :=
  match d with
  | VertexRead offset layout extent _ instances indices =>
      is_u32 offset /\ is_u32 (stride layout) /\ is_u32 (step_rate layout) /\ is_u32 extent /\ is_u32 instances
      /\ indices_ok indices
  | IndexRead offset index_count index_size => is_u32 offset /\ is_u32 index_count /\ (index_size = 2 \/ index_size = 4)
  end.

(** Vertex [v] is one the draw may fetch.  The values of a bound index buffer
    are unknown, so any vertex at or above the base, and at or above the start
    of the stream, may be.  A fan over the shared pattern fetches
    [primitive_count + 2] vertices, a generated list those of its span, and
    inline indices only go with inline vertices. *)
Definition fetches (i : IndexView) (v : Z) : Prop :=
  match i with
  | IndexNone first n => first <= v < first + n
  | IndexBound base n => 0 < n /\ 0 <= v /\ base <= v
  | IndexFan first n => first <= v < first + n + 2
  | IndexGenerated a b => a <= v <= b
  | IndexUp => False
  end.

(** Byte [b] is one the GPU may read for the draw: of the element Metal picks
    for a vertex and an instance, the bytes up to the stride, those consumed
    past it by a fetch, and any number of them where the stride is 0. *)
Definition draw_reads (d : draw_read) (b : Z) : Prop :=
  match d with
  | VertexRead offset layout extent fetch instances indices =>
      exists v i k, fetches indices v /\ 0 <= i < instances /\ 0 <= k
      /\ (k < stride layout \/ fetch = true /\ k < extent \/ stride layout = 0)
      /\ b = offset + metal_element layout v i * stride layout + k
  | IndexRead offset index_count index_size => offset <= b < offset + index_count * index_size
  end.

(** What an instanced stream's bytes reach. *)
Lemma instanced_bytes instances rate str i :
  is_u32 instances -> is_u32 rate -> is_u32 str -> 0 <= i < instances ->
  let n := instanced_stream_read_bytes instances StepPerInstance rate str in
  is_u32 n /\ 0 <= i / rate /\ (n = 0 \/ 0 < str /\ (n = u32_max \/ i / rate * str + str <= n)).
Proof.
  intros Hn Hr Hs Hi n. assert (Hq : 0 <= i / rate).
  { destruct (decide (rate = 0)) as [->|]; [by rewrite Zdiv_0_r|]. apply Z.div_pos; unfold_mach; lia. }
  unfold n, instanced_stream_read_bytes. set (k := if rate =? 0 then 1 else div_ceil instances rate).
  assert (Hk : i / rate + 1 <= k).
  { unfold k. destruct (rate =? 0) eqn:E; reflect_cmp; [subst; rewrite Zdiv_0_r; lia|].
    assert (Hpos : 0 < rate) by (unfold_mach; lia). pose proof (div_ceil_mul_ge instances rate Hpos) as D.
    assert (Hlt : i / rate < div_ceil instances rate); [apply Z.div_lt_upper_bound; [done|]; set (q := div_ceil instances rate) in *; nia|lia]. }
  assert (i / rate * str + str <= k * str) by (unfold_mach; nia). assert (0 < str \/ str = 0) by (unfold_mach; lia).
  assert (str = 0 -> k * str = 0) by (intros ->; lia). unfold checked. destruct (_ && _) eqn:E.
  2:{ split; [unfold_mach; lia|]. split; [done|]. right. split; [|by left]. destruct (decide (str = 0)) as [Hz|]; [|lia].
      by rewrite H1 in E. }
  rewrite andb_true_iff, !Z.leb_le in E. set (x := k * str) in *. set (y := i / rate * str) in *.
  clearbody x y. unfold is_u32. lia.
Qed.

(** The element a vertex and an instance pick lies in the stream's range; a
    size of 0 runs to the end of the buffer, [u32::MAX] past it. *)
Lemma stream_range_element offset layout instances indices v i :
  is_u32 offset -> is_u32 (stride layout) -> is_u32 (step_rate layout) -> is_u32 instances -> indices_ok indices ->
  fetches indices v -> 0 <= i < instances ->
  let at_ := offset + metal_element layout v i * stride layout in
  exists off size, stream_range offset layout instances indices = Some (off, size)
  /\ is_u32 off /\ is_u32 size /\ off <= at_
  /\ (size = 0 \/ 0 < stride layout /\ (size = u32_max \/ at_ + stride layout <= off + size)).
Proof.
  intros Ho Hs Hr Hn Hok Hv Hi at_. unfold stream_range, at_, metal_element. destruct (PipelineState.step layout) eqn:Est.
  - exists offset, (instanced_stream_read_bytes instances StepConstant (step_rate layout) (stride layout)).
    split; [done|]. unfold instanced_stream_read_bytes. rewrite Z.mul_1_l.
    assert (checked u32_max (stride layout) = Some (stride layout)) as ->.
    { unfold checked. destruct (_ && _) eqn:E; [done|]. exfalso. apply andb_false_iff in E. unfold_mach. destruct E; reflect_cmp; lia. }
    unfold_mach. lia.
  - destruct indices as [first n|base n|first n|a b|]; cbn [indices_ok fetches] in *; [| | | |done].
    + destruct (nonindexed_vb_range_element offset (stride layout) Ho Hs first n v) as (o & z & -> & ? & ? & ? & ?); [tauto..|].
      exists o, z. split_and!; try done. lia.
    + destruct (indexed_vb_range_element offset (stride layout) Ho Hs base n v) as (o & -> & ? & ?); [tauto..|].
      exists o, 0. split_and!; try done. by left.
    + destruct Hok as (Ha & Hb & Hle). assert (sat u32_max (n + 2) = n + 2) as -> by (unfold_mach; lia).
      destruct (nonindexed_vb_range_element offset (stride layout) Ho Hs first (n + 2) v) as (o & z & -> & ? & ? & ? & ?); [done|unfold_mach; lia|lia|].
      exists o, z. split_and!; try done. lia.
    + destruct Hok as (Ha & Hb & Hle & Hlt).
      assert (((b -% a)%u32 +% 1)%u32 = b - a + 1) as ->.
      { rewrite (wrap32_small (b - a)) by (unfold_mach; lia). rewrite wrap32_small; unfold_mach; lia. }
      destruct (nonindexed_vb_range_element offset (stride layout) Ho Hs a (b - a + 1) v) as (o & z & -> & ? & ? & ? & ?); [done|unfold_mach; lia|lia|].
      exists o, z. split_and!; try done. lia.
  - exists offset, (instanced_stream_read_bytes instances StepPerInstance (step_rate layout) (stride layout)). split; [done|].
    destruct (instanced_bytes instances (step_rate layout) (stride layout) i) as (? & ? & ?); [done..|]. split_and!; try done; [unfold_mach; nia|].
    lia.
Qed.

(** A draw that reads a byte notes a range with it in. *)
Lemma draw_range_reads d b len :
  draw_ok d -> draw_reads d b -> is_u32 len -> b < len ->
  exists off size, draw_range d = Some (off, size) /\ is_u32 off /\ is_u32 size
    /\ off <= b /\ (size = 0 \/ b < off + size).
Proof.
  intros Hd Hr Hlen Hb. destruct d as [offset l extent fetch n ix|offset c z]; cbn [draw_ok draw_reads draw_range] in *.
  - destruct Hd as (Ho & Hs & Hrate & He & Hn & Hok). destruct Hr as (v & i & k & Hv & Hi & Hk & Hin & ->).
    destruct (stream_range_element offset l n ix v i) as (off & size & -> & Hoff & Hsize & Hlo & Hhi); [done..|].
    cbn [mbind option_bind]. set (at_ := offset + metal_element l v i * stride l) in *. clearbody at_.
    eexists _, _. split; [reflexivity|]. split; [done|].
    destruct Hhi as [->|[Hpos Hhi]]; [by destruct fetch; cbn; unfold_mach; lia|].
    destruct fetch; cbn [negb].
    + unfold crossing_read_size. destruct (size =? 0) eqn:?; reflect_cmp; [unfold_mach; lia|].
      split; [unfold_mach; lia|]. split; [lia|]. right. destruct Hin as [|[[_ ?]|]]; unfold_mach; lia.
    + split; [done|]. split; [lia|]. right. destruct Hin as [|[[? _]|]]; unfold_mach; (lia || done).
  - eexists _, _. split; [reflexivity|]. destruct Hd as (Ho & Hc & Hz). unfold_mach. destruct Hz as [-> | ->]; split_and!; lia.
Qed.

Lemma draw_range_u32 d off size : draw_ok d -> draw_range d = Some (off, size) -> is_u32 off /\ is_u32 size.
Proof.
  destruct d as [offset l extent fetch n ix|offset c z]; cbn [draw_ok draw_range].
  - intros (Ho & Hs & Hrate & He & Hn & Hok) H. destruct (stream_range offset l n ix) as [[o w]|] eqn:E; [|done].
    assert (is_u32 o /\ is_u32 w) as [H1 H2].
    { unfold stream_range in E. assert (forall st, is_u32 (instanced_stream_read_bytes n st (step_rate l) (stride l))) as Hi.
      { intros st. unfold instanced_stream_read_bytes. destruct (checked _ _) as [x|] eqn:Ex; [|unfold_mach; lia].
        revert Ex. generalize (match st with StepConstant => 1 | _ => if step_rate l =? 0 then 1 else div_ceil n (step_rate l) end * stride l).
        intros y. unfold checked. destruct (_ && _) eqn:Ey; [|done]. intros [= ->]. unfold is_u32. reflect_cmp. done. }
      destruct (PipelineState.step l); [by simplify_eq| |by simplify_eq].
      destruct ix; cbn [indices_ok] in Hok; [| | | |done].
      - eapply nonindexed_vb_range_u32; [..|exact E]; tauto.
      - by eapply indexed_vb_range_u32; [..|exact E].
      - eapply nonindexed_vb_range_u32; [..|exact E]; unfold_mach; lia.
      - eapply nonindexed_vb_range_u32; [..|exact E]; [done..|tauto|]. apply wrap32_range. }
    injection H as <- <-. split; [done|]. destruct fetch; cbn; [|done]. unfold crossing_read_size. case_match; unfold_mach; lia.
  - intros (Ho & _) [= <- <-]. split; [done|]. unfold_mach. lia.
Qed.

(** C33: recording a draw never under-covers.  Whatever was recorded before
    ([r]), after [conjoin] of the range a draw reports, every byte of the
    [len]-byte buffer the draw may read is in the recorded range, and so is
    everything recorded before; a draw that reads anything reports a range.
    The draw may be non-indexed or indexed, a fan over the shared pattern or a
    generated list, step a stream per vertex, per instance or not at all, fetch
    bytes past the stride through a fetch of its own, or read the buffer as its
    indices. *)
Theorem draw_read_recorded d r len b :
  draw_ok d -> is_u32 len -> draw_reads d b -> b < len ->
  exists off size, draw_range d = Some (off, size)
    /\ DirtyRange.covers (DirtyRange.conjoin r off size len) b
    /\ forall b', DirtyRange.covers r b' ->
          DirtyRange.covers (DirtyRange.conjoin r off size len) b'.
Proof.
  intros Hd Hlen Hr Hb.
  destruct (draw_range_reads d b len Hd Hr Hlen Hb) as (off & size & E & ? & ? & Hlo & Hhi).
  exists off, size. split_and!; [done| |].
  - apply DirtyRange.conjoin_covers; try done. right. split; [lia|done].
  - intros. apply DirtyRange.conjoin_covers; try done. by left.
Qed.

(** A fetch of the 36 bytes consumed of the elements of a 32-byte stream at
    offset 64, in a fan of two triangles from vertex 4: the last four bytes of
    vertex 7 lie past its stride. *)
Lemma draw_read_recorded_witness :
  let d := VertexRead 64 (mkLayout 32 StepPerVertex 1) 36 true 1 (IndexFan 4 2) in
  exists off size, draw_range d = Some (off, size)
    /\ DirtyRange.covers (DirtyRange.conjoin DirtyRange.empty off size 4096) 323
    /\ forall b', DirtyRange.covers DirtyRange.empty b' ->
          DirtyRange.covers (DirtyRange.conjoin DirtyRange.empty off size 4096) b'.
Proof.
  intros d. apply (draw_read_recorded d DirtyRange.empty 4096 323).
  - unfold d. cbn. unfold is_u32, u32_max. lia.
  - unfold is_u32, u32_max; lia.
  - exists 7, 0, 35. cbn. lia.
  - lia.
Defined.

(** ** The per-frame record of what draws read *)
Module DrawnRangeTracker.

Notation t := (gmap Z DirtyRange.t).

Definition range (tr : t) (id : Z) : DirtyRange.t := default DirtyRange.empty (tr !! id).

Definition note (tr : t) (id offset size logical_len : Z) : t :=
  <[id := DirtyRange.conjoin (range tr id) offset size logical_len]> tr.

Definition overlaps (tr : t) (id off end_ : Z) : bool :=
  match tr !! id with
  | Some r => DirtyRange.overlaps r off end_
  | None => false
  end.

Definition clear_buffer (tr : t) (id : Z) : t := delete id tr.

Definition clear (_ : t) : t := ∅.

End DrawnRangeTracker.

(** A [copy_buffer_to_buffer] blit. *)
Record Blit := mkBlit {
  src_buffer : Z; dst_buffer : Z; src_offset : Z; dst_offset : Z; byte_size : Z;
}.

(** A cached buffer; handle 0 is the null device buffer of a failed warm-up. *)
Record BufferState := mkBuf {
  is_staged : bool; device_buffer : Z; buf_length : Z; buf_last_submit_seq : Z;
}.

(** An upload kept until its submission is acknowledged. *)
Record StagedUploadRetry := mkRetry {
  rt_buffer : Z; rt_transient : Z; rt_offset : Z; rt_size : Z; rt_seq : Z;
}.

Record Encoder := mkEnc {
  buffer_cache : gmap Z BufferState;
  frame_blit_commands : list Blit;
  drawn_ranges : DrawnRangeTracker.t;
  pending_resource_retention : list (Z * Z);
  pending_stage_uploads : list StagedUploadRetry;
  current_submit_seq : Z;
}.

Definition set_cache (e : Encoder) (c : gmap Z BufferState) : Encoder :=
  mkEnc c (frame_blit_commands e) (drawn_ranges e) (pending_resource_retention e)
    (pending_stage_uploads e) (current_submit_seq e).
Definition push_blit (e : Encoder) (b : Blit) : Encoder :=
  mkEnc (buffer_cache e) (frame_blit_commands e ++ [b]) (drawn_ranges e)
    (pending_resource_retention e) (pending_stage_uploads e) (current_submit_seq e).
Definition set_drawn (e : Encoder) (t : DrawnRangeTracker.t) : Encoder :=
  mkEnc (buffer_cache e) (frame_blit_commands e) t (pending_resource_retention e)
    (pending_stage_uploads e) (current_submit_seq e).
Definition retain (e : Encoder) (h : Z) : Encoder :=
  mkEnc (buffer_cache e) (frame_blit_commands e) (drawn_ranges e)
    (pending_resource_retention e ++ [(h, current_submit_seq e)]) (pending_stage_uploads e)
    (current_submit_seq e).
Definition push_retry (e : Encoder) (r : StagedUploadRetry) : Encoder :=
  mkEnc (buffer_cache e) (frame_blit_commands e) (drawn_ranges e)
    (pending_resource_retention e) (pending_stage_uploads e ++ [r]) (current_submit_seq e).

(** What Metal answers to the three creates of one call: the recreate of a
    null device buffer, the transient wrapper, the buffer a rename moves to. *)
Record Metal := mkMetal {
  recreated : option Z; transient : option Z; renamed : option Z;
}.

Definition touch (s : BufferState) (seq : Z) : BufferState :=
  mkBuf (is_staged s) (device_buffer s) (buf_length s)
    (if buf_last_submit_seq s <? seq then seq else buf_last_submit_seq s).

Definition set_device (s : BufferState) (h : Z) : BufferState :=
  mkBuf (is_staged s) h (buf_length s) (buf_last_submit_seq s).

(** The rename half of [apply_stage_upload]: where the upload lands. *)
Definition upload_destination (m : Metal) (id off size : Z) (s : BufferState) (e : Encoder)
    : Z * Encoder :=
  let h := device_buffer s in
  let len := buf_length s in
  let end_ := (off +| size)%u32 in
  if DrawnRangeTracker.overlaps (drawn_ranges e) id off end_ then
    match renamed m with
    | Some fresh =>
        let e := if stage_upload_needs_preserve len off size
                 then push_blit e (mkBlit h fresh 0 0 len) else e in
        let e := set_cache e (<[id := set_device s fresh]> (buffer_cache e)) in
        let e := retain e h in
        let e := set_drawn e (DrawnRangeTracker.clear_buffer (drawn_ranges e) id) in
        (fresh, e)
    | None => (h, e)
    end
  else (h, e).

Definition apply_stage_upload (m : Metal) (id off size : Z) (e : Encoder) : Encoder :=
  match buffer_cache e !! id with
  | None => e
  | Some s =>
      if negb (is_staged s) then e
      else
        let s := touch s (current_submit_seq e) in
        let e := set_cache e (<[id := s]> (buffer_cache e)) in
        match (if device_buffer s =? 0 then recreated m else Some (device_buffer s)) with
        | None => e
        | Some h =>
            let s := set_device s h in
            let e := set_cache e (<[id := s]> (buffer_cache e)) in
            match transient m with
            | None => e
            | Some t =>
                let '(dst, e) := upload_destination m id off size s e in
                let e := push_blit e (mkBlit t dst 0 off size) in
                push_retry e (mkRetry id t off size (current_submit_seq e))
            end
        end
  end.

(** The staged arm of [ensure_vbib_mtl_buffer]; [None] for a buffer that is
    not staged. *)
Definition ensure_staged (m : Metal) (id : Z) (e : Encoder) : option (Z * Encoder) :=
  match buffer_cache e !! id with
  | None => None
  | Some s =>
      if negb (is_staged s) then None
      else
        let s := touch s (current_submit_seq e) in
        let e := set_cache e (<[id := s]> (buffer_cache e)) in
        if negb (device_buffer s =? 0) then Some (device_buffer s, e)
        else
          match recreated m with
          | None => Some (0, e)
          | Some fresh => Some (fresh, set_cache e (<[id := set_device s fresh]> (buffer_cache e)))
          end
  end.

(** Binding one staged stream of a draw: the handle the draw reads through,
    and the record of the bytes it reads. *)
Definition draw_staged (m : Metal) (id : Z) (d : draw_read) (logical_len : Z) (e : Encoder)
    : option (Z * Encoder) :=
  '(h, e) ← ensure_staged m id e;
  if h =? 0 then Some (0, e)
  else
    match draw_range d with
    | Some (off, size) =>
        Some (h, set_drawn e (DrawnRangeTracker.note (drawn_ranges e) id off size logical_len))
    | None => Some (h, e)
    end.

(** [reissue_stage_upload]: replay of an upload a failed submission lost. *)
Definition reissue_stage_upload (r : StagedUploadRetry) (e : Encoder) : bool * Encoder :=
  match buffer_cache e !! rt_buffer r with
  | None => (false, e)
  | Some s =>
      if is_staged s && negb (device_buffer s =? 0) then
        let s := touch s (current_submit_seq e) in
        let e := set_cache e (<[rt_buffer r := s]> (buffer_cache e)) in
        (true, push_blit e (mkBlit (rt_transient r) (device_buffer s) 0 (rt_offset r) (rt_size r)))
      else (false, e)
  end.

(** Submitting the frame takes its blits; the next one starts with no draw
    recorded ([reset_frame]). *)
Definition next_frame (seq : Z) (e : Encoder) : Encoder :=
  mkEnc (buffer_cache e) [] (DrawnRangeTracker.clear (drawn_ranges e))
    (pending_resource_retention e) (pending_stage_uploads e) seq.

(** ** The GPU's side: buffer memory and the blits that run before the draws *)

Definition memory := Z -> Z -> Z.

Definition run_blit (b : Blit) (M : memory) : memory :=
  fun h x => if (h =? dst_buffer b) && (dst_offset b <=? x) && (x <? dst_offset b + byte_size b)
             then M (src_buffer b) (src_offset b + (x - dst_offset b)) else M h x.

Fixpoint run_blits (bs : list Blit) (M : memory) : memory :=
  match bs with
  | [] => M
  | b :: bs => run_blits bs (run_blit b M)
  end.

(** A recorded draw: the handle it was encoded with, what it reads, the contents
    its buffer had at that point of the op stream, and the bytes a later upload
    wrote in place because no memory could be had for a rename. *)
Record Drawn := mkDrawn {
  dr_id : Z; dr_handle : Z; dr_read : draw_read; dr_len : Z; dr_expect : Z -> Z; dr_spoiled : Z -> bool;
}.

(** The encoder, the memory its blits will run on (transient copies already
    hold their bytes), the handles ever handed out, the contents op order gives
    each buffer, and the draws of the frame. *)
Record World := mkWorld {
  enc : Encoder; mem : memory; used : gset Z; contents : Z -> Z -> Z; draws : list Drawn;
}.

Definition write_mem (M : memory) (h : Z) (data : Z -> Z) : memory :=
  fun h' => if h' =? h then data else M h'.

Definition store_range (C : Z -> Z -> Z) (id off size : Z) (data : Z -> Z) : Z -> Z -> Z :=
  fun i x => if (i =? id) && (off <=? x) && (x <? off + size) then data (x - off) else C i x.

(** The handles an answer holds: each is new, and none is null. *)
Definition answers (m : Metal) : list Z :=
  option_list (recreated m) ++ option_list (transient m) ++ option_list (renamed m).

Definition fresh_answers (w : World) (m : Metal) : Prop :=
  NoDup (answers m) /\ Forall (fun h => h <> 0 /\ h ∉ used w) (answers m).

(** The device buffer of an entry once it was looked for: a null one is
    recreated, if memory can be had. *)
Definition live (m : Metal) (s : BufferState) : option Z :=
  if device_buffer s =? 0 then recreated m else Some (device_buffer s).

(** A recreated buffer holds whatever its new memory holds. *)
Definition found (m : Metal) (id : Z) (s : BufferState) (w : World) : Z -> Z -> Z :=
  match recreated m with
  | Some h => if device_buffer s =? 0 then fun i x => if i =? id then mem w h x else contents w i x else contents w
  | None => contents w
  end.

(** An upload that overlaps what was drawn and finds no memory for a rename
    overwrites the live buffer under the draws made from it. *)
Definition spoil (h off size : Z) (dr : Drawn) : Drawn :=
  mkDrawn (dr_id dr) (dr_handle dr) (dr_read dr) (dr_len dr) (dr_expect dr)
    (fun x => dr_spoiled dr x || ((dr_handle dr =? h) && (off <=? x) && (x <? off + size))).

Definition overlapping (w : World) (id off size : Z) : bool :=
  DrawnRangeTracker.overlaps (drawn_ranges (enc w)) id off (off +| size)%u32.

(** The world after an upload.  An upload that is dropped (its buffer or its
    transient wrapper could not be made) is as if it had never been made. *)
Definition uploaded (w : World) (m : Metal) (id off size : Z) (data : Z -> Z) (s : BufferState) : World :=
  let e := apply_stage_upload m id off size (enc w) in
  let U := list_to_set (answers m) ∪ used w in
  match live m s, transient m with
  | Some h, Some t =>
      mkWorld e (write_mem (mem w) t data) U (store_range (found m id s w) id off size data)
        (match renamed m with
         | Some _ => draws w
         | None => if overlapping w id off size then spoil h off size <$> draws w else draws w
         end)
  | _, _ => mkWorld e (mem w) U (found m id s w) (draws w)
  end.

(** The op stream, whatever Metal answers: each create gives a new handle or
    fails.  A draw whose buffer could not be made is dropped. *)
Inductive step : World -> World -> Prop :=
  | st_upload : forall w m id off size data s,
      buffer_cache (enc w) !! id = Some s -> is_staged s = true ->
      0 <= off -> 0 <= size -> off + size <= buf_length s -> fresh_answers w m ->
      step w (uploaded w m id off size data s)
  | st_draw : forall w m id d s h e',
      buffer_cache (enc w) !! id = Some s -> is_staged s = true ->
      draw_ok d -> fresh_answers w m -> draw_staged m id d (buf_length s) (enc w) = Some (h, e') ->
      step w (mkWorld e' (mem w) (list_to_set (answers m) ∪ used w) (found m id s w)
                (if h =? 0 then draws w
                 else draws w ++ [mkDrawn id h d (buf_length s) (found m id s w id) (fun _ => false)]))
  | st_submit : forall w seq,
      step w (mkWorld (next_frame seq (enc w)) (run_blits (frame_blit_commands (enc w)) (mem w))
                (used w) (contents w) []).

Definition gpu (w : World) : memory := run_blits (frame_blit_commands (enc w)) (mem w).

Definition entry_ok (w : World) (id : Z) (s : BufferState) : Prop :=
  is_u32 (buf_length s)
  /\ (device_buffer s <> 0 -> device_buffer s ∈ used w
       /\ forall x, 0 <= x < buf_length s -> gpu w (device_buffer s) x = contents w id x).

Definition drawn_ok (w : World) (dr : Drawn) : Prop :=
  dr_handle dr ∈ used w /\ dr_handle dr <> 0
  /\ (forall x, draw_reads (dr_read dr) x -> 0 <= x < dr_len dr ->
       gpu w (dr_handle dr) x = dr_expect dr x \/ dr_spoiled dr x = true)
  /\ ((exists s, buffer_cache (enc w) !! dr_id dr = Some s /\ device_buffer s = dr_handle dr
        /\ forall x, draw_reads (dr_read dr) x -> x < dr_len dr ->
             DirtyRange.covers (DrawnRangeTracker.range (drawn_ranges (enc w)) (dr_id dr)) x)
      \/ forall id s, buffer_cache (enc w) !! id = Some s -> device_buffer s <> dr_handle dr).

Record inv (w : World) : Prop := mkInv {
  inv_entry : forall id s, buffer_cache (enc w) !! id = Some s -> entry_ok w id s;
  inv_distinct : forall i j s s', buffer_cache (enc w) !! i = Some s ->
    buffer_cache (enc w) !! j = Some s' -> device_buffer s = device_buffer s' -> device_buffer s <> 0 -> i = j;
  inv_blits : forall b, b ∈ frame_blit_commands (enc w) ->
    src_buffer b ∈ used w /\ dst_buffer b ∈ used w;
  inv_draws : forall dr, dr ∈ draws w -> drawn_ok w dr;
}.

Lemma run_blits_app bs b M : run_blits (bs ++ [b]) M = run_blit b (run_blits bs M).
Proof. revert M; induction bs as [|b' bs IH]; intros; simpl; [done|apply IH]. Qed.

(** Memory the blits do not name passes through them. *)
Lemma run_blits_frame bs M t data h x :
  (forall b, b ∈ bs -> src_buffer b <> t /\ dst_buffer b <> t) ->
  run_blits bs (write_mem M t data) h x = write_mem (run_blits bs M) t data h x.
Proof.
  revert M. induction bs as [|b bs IH]; intros M Hb; simpl; [done|].
  assert (Hext : forall bs' M1 M2, (forall h x, M1 h x = M2 h x) ->
            forall h x, run_blits bs' M1 h x = run_blits bs' M2 h x).
  { induction bs' as [|b' bs' IH']; simpl; [done|]. intros M1 M2 He. apply IH'.
    intros. unfold run_blit. by rewrite !He. }
  rewrite <- IH by (intros; apply Hb; by right). apply Hext. intros h' x'.
  destruct (Hb b) as [Hs Hd]; [by left|]. unfold run_blit, write_mem.
  destruct (h' =? t) eqn:?, (h' =? dst_buffer b) eqn:?, (src_buffer b =? t) eqn:?;
    reflect_cmp; simpl; try done; congruence.
Qed.

Lemma run_blits_unwritten bs M h x : (forall b, b ∈ bs -> dst_buffer b <> h) -> run_blits bs M h x = M h x.
Proof.
  revert M. induction bs as [|b bs IH]; intros M Hb; simpl; [done|]. rewrite IH by (intros; apply Hb; by right).
  unfold run_blit. assert (dst_buffer b <> h) by (apply Hb; by left).
  by replace (h =? dst_buffer b) with false by (symmetry; apply Z.eqb_neq; congruence).
Qed.

(** ** A null device buffer recreated *)

(** The encoder once the buffer's device buffer is [h]. *)
Definition revived (e : Encoder) (id h : Z) (s : BufferState) : Encoder :=
  set_cache e (<[id := set_device (touch s (current_submit_seq e)) h]> (buffer_cache e)).

Lemma touch_touch s seq : touch (touch s seq) seq = touch s seq.
Proof. unfold touch; cbn. f_equal. by destruct (buf_last_submit_seq s <? seq) eqn:E; [rewrite Z.ltb_irrefl|rewrite E]. Qed.

Lemma revived_upload m id off size e s h :
  buffer_cache e !! id = Some s -> is_staged s = true -> live m s = Some h -> h <> 0 ->
  apply_stage_upload m id off size e = apply_stage_upload m id off size (revived e id h s).
Proof.
  intros Hc Hst Hl Hh. destruct s as [st d len seq]. cbn in Hst. subst st. unfold live in Hl. cbn in Hl.
  unfold apply_stage_upload, revived, upload_destination, push_blit, retain, set_drawn, push_retry, set_device, touch, set_cache.
  cbn [buffer_cache current_submit_seq frame_blit_commands drawn_ranges pending_resource_retention pending_stage_uploads].
  rewrite Hc, lookup_insert_eq. cbn [is_staged device_buffer buf_length buf_last_submit_seq negb].
  rewrite Hl, (proj2 (Z.eqb_neq _ _) Hh). rewrite !insert_insert_eq.
  assert (forall a b, (if (if a <? b then b else a) <? b then b else (if a <? b then b else a)) = if a <? b then b else a) as Hm.
  { intros a b. destruct (a <? b) eqn:E; [by rewrite Z.ltb_irrefl|by rewrite E]. }
  rewrite !Hm. destruct (transient m) as [t|]; [|done].
  destruct (DrawnRangeTracker.overlaps _ _ _ _); [|done]. destruct (renamed m); [|done].
  destruct (stage_upload_needs_preserve _ _ _);
    cbn [buffer_cache current_submit_seq frame_blit_commands drawn_ranges pending_resource_retention pending_stage_uploads]; by rewrite ?insert_insert_eq.
Qed.

Definition revived_world (w : World) (m : Metal) (id h : Z) (s : BufferState) : World :=
  mkWorld (revived (enc w) id h s) (mem w) ({[h]} ∪ used w) (found m id s w) (draws w).

Lemma inv_used w U : inv w -> used w ⊆ U -> inv (mkWorld (enc w) (mem w) U (contents w) (draws w)).
Proof.
  intros [He Hd Hb Hdr] HU. split; cbn; [|exact Hd| |].
  - intros i si Hc. destruct (He i si Hc) as [Hl H]. split; [done|]. intros Hn. destruct (H Hn). split; [by apply HU|done].
  - intros b Hin. destruct (Hb b Hin). split; by apply HU.
  - intros dr Hin. destruct (Hdr dr Hin) as (Hu & H). split; [by apply HU|done].
Qed.

Lemma found_other m id s w i x : i <> id -> found m id s w i x = contents w i x.
Proof. intros Hn. unfold found. destruct (recreated m); [|done]. destruct (_ =? _); [|done]. by rewrite (proj2 (Z.eqb_neq _ _) Hn). Qed.

Lemma live_fresh w m s h : fresh_answers w m -> live m s = Some h -> device_buffer s = 0 -> h <> 0 /\ h ∉ used w /\ recreated m = Some h.
Proof.
  intros [_ Hf] Hl Hz. rewrite Forall_forall in Hf. unfold live in Hl. rewrite Hz in Hl. cbn in Hl. destruct (Hf h); [|done].
  unfold answers. rewrite Hl. apply elem_of_app. left. apply list_elem_of_singleton. done.
Qed.

Lemma live_same m s h : live m s = Some h -> device_buffer s <> 0 -> h = device_buffer s.
Proof. unfold live. intros H Hn. rewrite (proj2 (Z.eqb_neq _ _) Hn) in H. congruence. Qed.

Lemma live_nonzero w m s h : fresh_answers w m -> live m s = Some h -> h <> 0.
Proof.
  intros Hf Hl. destruct (decide (device_buffer s = 0)) as [Hz|Hn]; [by destruct (live_fresh w m s h)|].
  by rewrite (live_same m s h).
Qed.

Section revive.
Context (w : World) (m : Metal) (id : Z) (s : BufferState) (h : Z).
Context (Hi : inv w) (Hc : buffer_cache (enc w) !! id = Some s) (Hl : live m s = Some h) (Hf : fresh_answers w m).

Lemma revived_lookup i si :
  buffer_cache (revived (enc w) id h s) !! i = Some si ->
  (i = id /\ device_buffer si = h /\ buf_length si = buf_length s) \/ (i <> id /\ buffer_cache (enc w) !! i = Some si).
Proof. unfold revived; cbn. rewrite lookup_insert. case_decide; intros; simplify_eq; [by left|by right]. Qed.

Lemma revived_gpu x : 0 <= x < buf_length s -> gpu w h x = found m id s w id x.
Proof.
  intros Hx. unfold found. destruct (decide (device_buffer s = 0)) as [Hz|Hn].
  - destruct (live_fresh w m s h) as (_ & Hu & ->); [done..|]. rewrite Hz. cbn. rewrite Z.eqb_refl.
  apply run_blits_unwritten. intros b Hb Hd. apply Hu. rewrite <- Hd. by apply (inv_blits w Hi).
  - rewrite (live_same m s h) by done. rewrite (proj2 (Z.eqb_neq _ _) Hn).
  destruct (inv_entry w Hi id s Hc) as [_ He]. destruct (He Hn) as [_ Hg]. destruct (recreated m); by apply Hg.
Qed.

(** The recreated buffer is no other's. *)
Lemma revived_distinct i si : i <> id -> buffer_cache (enc w) !! i = Some si -> device_buffer si <> 0 -> device_buffer si <> h.
Proof.
  intros Hne Hci Hn E. destruct (decide (device_buffer s = 0)) as [Hz|Hs].
  - destruct (live_fresh w m s h) as (_ & Hu & _); [done..|]. apply Hu. rewrite <- E. by apply (inv_entry w Hi i si Hci).
  - apply Hne. apply (inv_distinct w Hi i id si s); [done..| |done]. by rewrite E, (live_same m s h).
Qed.

Lemma inv_revived : inv (revived_world w m id h s).
Proof.
  pose proof (live_nonzero w m s h Hf Hl) as Hh. destruct (inv_entry w Hi id s Hc) as [Hlen _].
  split; cbn [enc mem used contents draws revived_world].
  - intros i si [(-> & Hd & Hb)|[Hne Hci]]%revived_lookup; unfold entry_ok; cbn.
  + rewrite Hd, Hb. split; [done|]. intros _. split; [set_solver|]. intros x Hx. by apply revived_gpu.
  + destruct (inv_entry w Hi i si Hci) as [? He]. split; [done|]. intros Hn. destruct (He Hn) as [? Hg]. split; [set_solver|].
    intros x Hx. rewrite found_other by done. by apply Hg.
  - intros i j si sj [(-> & Hd & _)|[Hni Hci]]%revived_lookup [(-> & Hd' & _)|[Hnj Hcj]]%revived_lookup E Hn; [done| | |].
  + destruct (revived_distinct j sj); congruence.
  + destruct (revived_distinct i si); congruence.
  + by eapply (inv_distinct w Hi).
  - intros b Hb. destruct (inv_blits w Hi b Hb). set_solver.
  - intros dr Hin. destruct (inv_draws w Hi dr Hin) as (Hu & Hz & Hr & Hcase).
  split; [set_solver|]. split; [done|]. split; [done|]. destruct Hcase as [(s0 & Hc0 & Hh0 & Hcov)|Hn].
  + left. destruct (decide (dr_id dr = id)) as [Hid|Hid].
    * assert (s0 = s) as -> by congruence. assert (h = device_buffer s) as Hhd by (apply (live_same m s h); [done|congruence]).
      eexists. cbn. rewrite Hid, lookup_insert_eq. split; [done|]. cbn. split; [congruence|]. by rewrite <- Hid.
    * exists s0. cbn. by rewrite lookup_insert_ne by done.
  + right. intros i si [(-> & -> & _)|[Hne Hci]]%revived_lookup; [|by eapply Hn].
    destruct (decide (device_buffer s = 0)) as [Hz0|Hs]; [|rewrite (live_same m s h) by done; by apply (Hn id)].
    destruct (live_fresh w m s h) as (_ & Hu' & _); [done..|]. intros ->. done.
Qed.
End revive.

(** A buffer that stays null. *)
Lemma inv_touched w id s :
  inv w -> buffer_cache (enc w) !! id = Some s ->
  inv (mkWorld (set_cache (enc w) (<[id := touch s (current_submit_seq (enc w))]> (buffer_cache (enc w)))) (mem w) (used w) (contents w) (draws w)).
Proof.
  intros Hi Hc. assert (Hlook : forall i si, <[id := touch s (current_submit_seq (enc w))]> (buffer_cache (enc w)) !! i = Some si ->
    exists si', buffer_cache (enc w) !! i = Some si' /\ device_buffer si' = device_buffer si /\ buf_length si' = buf_length si).
  { intros i si. rewrite lookup_insert. case_decide; intros; simplify_eq; eauto. }
  split; unfold entry_ok, gpu; cbn.
  - intros i si (si' & Hci & <- & <-)%Hlook. by apply (inv_entry w Hi).
  - intros i j si sj (si' & Hci & <- & _)%Hlook (sj' & Hcj & <- & _)%Hlook. by apply (inv_distinct w Hi).
  - apply (inv_blits w Hi).
  - intros dr Hin. destruct (inv_draws w Hi dr Hin) as (? & ? & ? & [(s0 & Hc0 & Hh & Hcv)|Hn]); (split_and!; [done..|]).
    + left. cbn. rewrite lookup_insert. case_decide; subst; simplify_eq; eauto 8.
    + right. intros i si (si' & Hci & <- & _)%Hlook. by eapply Hn.
Qed.

(** ** An upload to a live buffer *)

(** [apply_stage_upload] on a live staged buffer, in one equation: the upload
    goes to [dst], behind a preserve copy or nothing. *)
Lemma apply_upload_eq m id off size e s t :
  buffer_cache e !! id = Some s -> is_staged s = true -> device_buffer s <> 0 -> transient m = Some t ->
  let ov := DrawnRangeTracker.overlaps (drawn_ranges e) id off (off +| size)%u32 in
  let moved := ov && bool_decide (is_Some (renamed m)) in
  let dst := if moved then default 0 (renamed m) else device_buffer s in
  let s1 := touch s (current_submit_seq e) in
  let e' := apply_stage_upload m id off size e in
  buffer_cache e' = <[id := if moved then set_device s1 dst else s1]> (buffer_cache e)
  /\ frame_blit_commands e' = frame_blit_commands e
      ++ (if moved && stage_upload_needs_preserve (buf_length s) off size
          then [mkBlit (device_buffer s) dst 0 0 (buf_length s)] else [])
      ++ [mkBlit t dst 0 off size]
  /\ drawn_ranges e' = if moved then delete id (drawn_ranges e) else drawn_ranges e.
Proof.
  intros Hc Hst Hd Ht ov moved dst s1 e'. subst e'. unfold apply_stage_upload.
  rewrite Hc, Hst, Ht. simpl. rewrite (proj2 (Z.eqb_neq _ _) Hd).
  unfold upload_destination. simpl. fold ov.
  replace (set_device (touch s (current_submit_seq e)) (device_buffer s)) with s1 by done.
  unfold dst, moved. destruct ov; cbn [andb].
  2:{ rewrite !insert_insert_eq. done. }
  destruct (renamed m) as [f|]; cbn.
  - destruct (stage_upload_needs_preserve _ _ _); simpl; rewrite !insert_insert_eq;
      split_and!; try done. by rewrite <- app_assoc.
  - rewrite !insert_insert_eq. done.
Qed.

Section upload.
Context (w : World) (m : Metal) (id off size : Z) (data : Z -> Z) (s : BufferState) (t : Z) (U : gset Z).
Context (Hi : inv w) (Hc : buffer_cache (enc w) !! id = Some s) (Hst : is_staged s = true)
  (Hd : device_buffer s <> 0) (Ho : 0 <= off) (Hs : 0 <= size) (Hl : off + size <= buf_length s)
  (Ht : transient m = Some t) (Htu : t ∉ used w)
  (Hf : forall f, renamed m = Some f -> f <> 0 /\ f ∉ used w /\ f <> t /\ f ∈ U) (HU : {[t]} ∪ used w ⊆ U).

Let ov := overlapping w id off size.
Let moved := ov && bool_decide (is_Some (renamed m)).
Let dst := if moved then default 0 (renamed m) else device_buffer s.
Let G := run_blits (frame_blit_commands (apply_stage_upload m id off size (enc w)))
 (write_mem (mem w) t data).
Let preserved := moved && stage_upload_needs_preserve (buf_length s) off size.

Lemma device_used : device_buffer s ∈ used w.
Proof. destruct (inv_entry w Hi id s Hc) as [_ H]. by apply H. Qed.

(** The upload moves to a new handle, or stays on the live one. *)
Lemma dst_cases : moved = true /\ dst <> 0 /\ dst ∉ used w /\ dst <> t /\ dst ∈ U \/ moved = false /\ dst = device_buffer s.
Proof.
  unfold dst. destruct moved eqn:E; [left|by right]. split; [done|]. unfold moved in E. apply andb_true_iff in E as [_ E].
  apply bool_decide_eq_true in E as [f E]. rewrite E. cbn. by apply Hf.
Qed.

Lemma dst_fields : dst <> 0 /\ dst <> t /\ dst ∈ U.
Proof.
  pose proof device_used. destruct dst_cases as [(_ & ? & ? & ? & ?)|[_ ->]]; [done|].
  split; [done|]. split; [congruence|set_solver].
Qed.

Lemma not_transient k x : k ∈ used w -> write_mem (gpu w) t data k x = gpu w k x.
Proof. intros Hk. unfold write_mem. destruct (k =? t) eqn:?; reflect_cmp; [by subst|done]. Qed.

Lemma gpu_preserved k x :
  run_blits (frame_blit_commands (enc w)
  ++ (if preserved then [mkBlit (device_buffer s) dst 0 0 (buf_length s)] else []))
  (write_mem (mem w) t data) k x
  = if preserved && (k =? dst) && (0 <=? x) && (x <? buf_length s)
  then gpu w (device_buffer s) x else write_mem (gpu w) t data k x.
Proof.
  pose proof device_used as Hu.
  assert (Hbase : forall k x, run_blits (frame_blit_commands (enc w)) (write_mem (mem w) t data) k x
    = write_mem (gpu w) t data k x).
  { intros. apply run_blits_frame. intros b Hin. destruct (inv_blits w Hi b Hin).
    split; intros Eq; rewrite Eq in *; done. }
  destruct preserved; simpl; [|rewrite app_nil_r; apply Hbase].
  rewrite run_blits_app. unfold run_blit; simpl. rewrite !Hbase.
  rewrite Z.add_0_l. destruct ((k =? dst) && (0 <=? x) && (x <? buf_length s)); [|done]. rewrite not_transient by done. f_equal; lia.
Qed.

Lemma gpu_uploaded k x :
  G k x = if (k =? dst) && (off <=? x) && (x <? off + size) then data (x - off)
  else if preserved && (k =? dst) && (0 <=? x) && (x <? buf_length s)
  then gpu w (device_buffer s) x else write_mem (gpu w) t data k x.
Proof.
  destruct (apply_upload_eq m id off size (enc w) s t Hc Hst Hd Ht) as (_ & Hb & _).
  fold (overlapping w id off size) in Hb. fold ov in Hb. fold moved in Hb. fold dst in Hb. fold preserved in Hb.
  destruct dst_fields as (_ & Hdt & _).
  unfold G. rewrite Hb, app_assoc, run_blits_app. unfold run_blit; simpl.
  rewrite !gpu_preserved. destruct ((k =? dst) && _ && _); [|done].
  replace (t =? dst) with false by (symmetry; apply Z.eqb_neq; congruence).
  rewrite andb_false_r. simpl. unfold write_mem. by rewrite Z.eqb_refl.
Qed.

(** The memory after the upload: only the destination changes. *)
Lemma gpu_upload_other k x : k ∈ used w -> k <> dst -> G k x = gpu w k x.
Proof.
  intros Hk Hne. rewrite gpu_uploaded. rewrite (proj2 (Z.eqb_neq _ _) Hne). rewrite andb_false_r. simpl. by apply not_transient.
Qed.

(** The destination holds the upload over what the buffer held. *)
Lemma gpu_upload_dst x :
  0 <= x < buf_length s ->
  G dst x = if (off <=? x) && (x <? off + size) then data (x - off) else gpu w (device_buffer s) x.
Proof.
  intros Hx. rewrite gpu_uploaded, Z.eqb_refl. simpl.
  destruct ((off <=? x) && (x <? off + size)) eqn:Hr; [done|].
  unfold preserved. destruct dst_cases as [(-> & _)|[-> ->]]; cbn [andb]; [|apply not_transient, device_used].
  destruct (stage_upload_needs_preserve _ _ _) eqn:Hp.
  2:{ apply needs_preserve_false in Hp as [E1 E2]. apply andb_false_iff in Hr as [?|?]; reflect_cmp; lia. }
  cbn [andb]. destruct (0 <=? x) eqn:?, (x <? buf_length s) eqn:?; reflect_cmp; simpl; (done || lia).
Qed.

(** No draw recorded from the live buffer read a byte the upload overwrites
in place, when nothing overlaps. *)
Lemma no_overlap_disjoint x :
  ov = false -> is_u32 (buf_length s) ->
  DirtyRange.covers (DrawnRangeTracker.range (drawn_ranges (enc w)) id) x ->
  (off <=? x) && (x <? off + size) = false.
Proof.
  unfold ov, overlapping, DrawnRangeTracker.overlaps, DrawnRangeTracker.range, DirtyRange.covers.
  intros Hov Hu Hx.
  destruct (drawn_ranges (enc w) !! id) as [r|]; simpl in *; [|lia].
  unfold DirtyRange.overlaps, DirtyRange.is_empty in Hov.
  assert (E : sat u32_max (off + size) = off + size) by (unfold_mach; lia). rewrite E in Hov.
  apply andb_false_iff. repeat rewrite andb_false_iff in Hov.
  destruct Hov as [[?|?]|?]; reflect_cmp; rewrite ?Z.leb_gt, ?Z.ltb_ge; lia.
Qed.

Let D := match renamed m with
         | None => if ov then spoil (device_buffer s) off size <$> draws w else draws w
         | Some _ => draws w
         end.
Let w' := mkWorld (apply_stage_upload m id off size (enc w)) (write_mem (mem w) t data) U
  (store_range (contents w) id off size data) D.

Lemma upload_entries i si :
  buffer_cache (enc w') !! i = Some si ->
  (i = id /\ device_buffer si = dst /\ buf_length si = buf_length s)
  \/ (i <> id /\ buffer_cache (enc w) !! i = Some si).
Proof.
  destruct (apply_upload_eq m id off size (enc w) s t Hc Hst Hd Ht) as (Hca & _ & _).
  simpl. rewrite Hca. fold (overlapping w id off size). fold ov. fold moved. fold dst.
  rewrite lookup_insert. case_decide; intros; simplify_eq; [|by right].
  left. unfold dst. by destruct moved.
Qed.

Lemma dst_not_other i si : i <> id -> buffer_cache (enc w) !! i = Some si -> device_buffer si <> 0 -> device_buffer si <> dst.
Proof.
  intros Hne Hci Hn. destruct (inv_entry w Hi i si Hci) as (_ & Hu). specialize (Hu Hn) as [Hu _].
  destruct dst_cases as [(_ & _ & Hdu & _)|[_ ->]]; [congruence|].
  intros E. apply Hne. by eapply (inv_distinct w Hi).
Qed.

(** A draw of the world before, as it is after. *)
Lemma upload_draws dr' : dr' ∈ D -> exists dr, dr ∈ draws w /\ dr_id dr' = dr_id dr /\ dr_handle dr' = dr_handle dr
  /\ dr_read dr' = dr_read dr /\ dr_len dr' = dr_len dr /\ dr_expect dr' = dr_expect dr
  /\ (forall x, dr_spoiled dr x = true -> dr_spoiled dr' x = true)
  /\ (moved = false -> ov = true -> dr_handle dr = device_buffer s ->
       forall x, (off <=? x) && (x <? off + size) = true -> dr_spoiled dr' x = true).
Proof.
  intros H. assert (dr' ∈ draws w /\ (moved = false -> ov = false)
  \/ ov = true /\ exists dr, dr ∈ draws w /\ dr' = spoil (device_buffer s) off size dr) as [[Hin Hm]|(Hov & dr & Hin & ->)].
  { unfold D in H. unfold moved. destruct (renamed m) as [f|] eqn:Er.
  - left. split; [done|]. rewrite bool_decide_true by eauto. by rewrite andb_true_r.
  - destruct ov; [|by left]. right. split; [done|]. apply list_elem_of_fmap in H as (dr & -> & Hin). by exists dr. }
  - exists dr'. split_and!; try done. intros Hmv Hov. rewrite Hm in Hov by done. done.
  - exists dr. split_and!; try done; cbn.
  + intros x ->. done.
  + intros _ _ -> x Hx. by rewrite Z.eqb_refl, andb_true_l, Hx, orb_true_r.
Qed.

Lemma upload_drawn_ok dr' : dr' ∈ D -> drawn_ok w' dr'.
Proof.
  intros (dr & Hin & Hid' & Hh' & Hrd & Hln & Hex & Hsp & Hspoil)%upload_draws.
  destruct (inv_draws w Hi dr Hin) as (Hu & Hz & Hr & Hcase). destruct (inv_entry w Hi id s Hc) as (Hlen & _).
  destruct (apply_upload_eq m id off size (enc w) s t Hc Hst Hd Ht) as (Hca & _ & Hdr).
  fold (overlapping w id off size) in Hca, Hdr. fold ov in Hca, Hdr. fold moved in Hca, Hdr. fold dst in Hca.
  unfold drawn_ok. rewrite Hid', Hh', Hrd, Hln, Hex. split; [cbn; set_solver|]. split; [done|].
  assert (Hout : dr_handle dr <> dst -> forall x, draw_reads (dr_read dr) x -> 0 <= x < dr_len dr ->
   gpu w' (dr_handle dr) x = dr_expect dr x \/ dr_spoiled dr' x = true).
  { intros Hne x Hx Hb. unfold gpu; simpl. fold G. rewrite gpu_upload_other by done.
  destruct (Hr x Hx Hb); [by left|right; by apply Hsp]. }
  assert (Hret : (forall i si, buffer_cache (enc w) !! i = Some si -> device_buffer si <> dr_handle dr) ->
   dr_handle dr <> dst /\ forall i si, buffer_cache (enc w') !! i = Some si -> device_buffer si <> dr_handle dr).
  { intros Hn. assert (dr_handle dr <> dst).
  { destruct dst_cases as [(_ & _ & Hdu & _)|[_ ->]]; [congruence|]. intros E. by apply (Hn id s). }
  split; [done|]. intros i si [(-> & -> & _)|[? ?]]%upload_entries; [congruence|by eapply Hn]. }
  destruct Hcase as [(s0 & Hc0 & Hh & Hcov)|Hn].
  2:{ destruct (Hret Hn) as [Hne Hn']. split; [by apply Hout|by right]. }
  destruct (decide (dr_id dr = id)) as [Hid|Hid].
  - rewrite Hid in *. assert (s0 = s) by congruence. subst s0.
  destruct dst_cases as [(Hmv & _ & Hdu & _)|[Hmv Hdst]].
  + assert (Hne : dr_handle dr <> dst) by congruence. split; [by apply Hout|].
    right. intros i si [(-> & -> & _)|[Hni Hci]]%upload_entries; [congruence|].
    rewrite <- Hh. intros E. apply Hni. eapply (inv_distinct w Hi); [done|done|done|congruence].
  + split.
    * intros x Hx Hb. destruct ((off <=? x) && (x <? off + size)) eqn:Hin'.
      -- right. destruct (bool_dec ov true) as [Hov|Hov%not_true_is_false]; [apply (Hspoil Hmv Hov); [congruence|done]|]. exfalso.
         rewrite no_overlap_disjoint in Hin'; [done|done|done|]. apply Hcov; [done|lia].
      -- unfold gpu; simpl. fold G. rewrite <- Hh, <- Hdst, gpu_uploaded, Z.eqb_refl, andb_true_l, Hin'.
         unfold preserved. rewrite Hmv. cbn [andb]. rewrite Hdst, not_transient by (apply device_used). rewrite Hh.
         destruct (Hr x Hx Hb); [by left|right; by apply Hsp].
    * left. exists (touch s (current_submit_seq (enc w))). cbn [enc w']. rewrite Hca, Hdr, Hmv.
      split_and!; [by rewrite lookup_insert_eq|done|done].
  - assert (Hne : dr_handle dr <> dst) by (rewrite <- Hh; eapply dst_not_other; [done|done|congruence]).
  split; [by apply Hout|]. left. exists s0. cbn [enc w']. rewrite Hca, Hdr. rewrite lookup_insert_ne by done.
  split_and!; [done..|]. intros x Hx Hb. unfold DrawnRangeTracker.range.
  destruct moved; [rewrite lookup_delete_ne by done|]; by apply Hcov.
Qed.

Lemma inv_upload : inv w'.
Proof.
  destruct (inv_entry w Hi id s Hc) as (Hlen & Hcont). specialize (Hcont Hd) as [Hus Hcont].
  destruct (apply_upload_eq m id off size (enc w) s t Hc Hst Hd Ht) as (Hca & Hb & Hdr).
  fold (overlapping w id off size) in Hca, Hb. fold ov in Hca, Hb. fold moved in Hca, Hb. fold dst in Hca, Hb.
  destruct dst_fields as (Hd0 & _ & HdU).
  constructor.
  - intros i si [(-> & Hdi & Hli)|[Hne Hci]]%upload_entries; unfold entry_ok.
    + rewrite Hdi, Hli. split; [done|]. intros _. split; [done|].
      intros x Hx. unfold gpu; simpl. fold G. rewrite gpu_upload_dst by done.
      unfold store_range. rewrite Z.eqb_refl. simpl. destruct ((off <=? x) && (x <? off + size)); [done|by apply Hcont].
    + destruct (inv_entry w Hi i si Hci) as (? & Hco). split; [done|]. intros Hn. destruct (Hco Hn) as [Hiu Hco']. split; [cbn; set_solver|].
      intros x Hx. unfold gpu; simpl. fold G. rewrite gpu_upload_other by eauto using dst_not_other.
      rewrite Hco' by done. unfold store_range. by rewrite (proj2 (Z.eqb_neq _ _) Hne).
  - intros i j si sj [(-> & Hdi & _)|[Hni Hci]]%upload_entries
    [(-> & Hdj & _)|[Hnj Hcj]]%upload_entries E Hn.
    + done.
    + destruct (dst_not_other j sj Hnj Hcj); congruence.
    + destruct (dst_not_other i si Hni Hci); congruence.
    + by eapply (inv_distinct w Hi).
  - intros b. simpl. rewrite Hb. rewrite !elem_of_app.
    intros [Hin|[Hin|Hin]].
    + destruct (inv_blits w Hi b Hin). set_solver.
    + destruct (moved && stage_upload_needs_preserve (buf_length s) off size); [|by apply not_elem_of_nil in Hin].
      apply list_elem_of_singleton in Hin as ->. cbn [src_buffer dst_buffer]. set_solver.
    + apply list_elem_of_singleton in Hin as ->. cbn [src_buffer dst_buffer]. set_solver.
  - apply upload_drawn_ok.
Qed.
End upload.

(** ** The steps *)

Lemma range_note tr id off size len i :
  DrawnRangeTracker.range (DrawnRangeTracker.note tr id off size len) i =
    if decide (i = id) then DirtyRange.conjoin (DrawnRangeTracker.range tr id) off size len
    else DrawnRangeTracker.range tr i.
Proof.
  unfold DrawnRangeTracker.note, DrawnRangeTracker.range. rewrite lookup_insert.
  repeat case_decide; subst; done.
Qed.

(** A draw that finds no buffer is dropped; one that does reads through it and
    records what it reads. *)
Lemma draw_staged_none m id d len s e :
  buffer_cache e !! id = Some s -> is_staged s = true -> live m s = None ->
  draw_staged m id d len e = Some (0, set_cache e (<[id := touch s (current_submit_seq e)]> (buffer_cache e))).
Proof.
  intros Hc Hst Hl. unfold live in Hl. unfold draw_staged, ensure_staged. rewrite Hc, Hst. cbn [negb].
  cbn [device_buffer touch]. destruct (device_buffer s =? 0) eqn:E; [|done]. cbn [negb]. by rewrite Hl.
Qed.

Lemma draw_staged_some m id d len s e h :
  buffer_cache e !! id = Some s -> is_staged s = true -> live m s = Some h -> h <> 0 ->
  draw_staged m id d len e = Some (h, match draw_range d with
    | Some (off, size) => set_drawn (revived e id h s) (DrawnRangeTracker.note (drawn_ranges e) id off size len)
    | None => revived e id h s
    end).
Proof.
  intros Hc Hst Hl Hh. unfold live in Hl. unfold draw_staged, ensure_staged. rewrite Hc, Hst. cbn [negb device_buffer touch].
  destruct (device_buffer s =? 0) eqn:E; cbn [negb].
  - rewrite Hl. cbn. rewrite (proj2 (Z.eqb_neq _ _) Hh). unfold revived, set_cache, touch; cbn. rewrite insert_insert_eq.
    by destruct (draw_range d) as [[??]|].
  - injection Hl as <-. cbn. rewrite E. by destruct (draw_range d) as [[??]|].
Qed.

Lemma inv_draw w id d s h e' :
  inv w -> buffer_cache (enc w) !! id = Some s -> device_buffer s = h -> h <> 0 -> draw_ok d ->
  e' = match draw_range d with
       | Some (off, size) => set_drawn (enc w) (DrawnRangeTracker.note (drawn_ranges (enc w)) id off size (buf_length s))
       | None => enc w
       end ->
  inv (mkWorld e' (mem w) (used w) (contents w)
         (draws w ++ [mkDrawn id h d (buf_length s) (contents w id) (fun _ => false)])).
Proof.
  intros Hi Hc Hd Hh Hok He'. destruct (inv_entry w Hi id s Hc) as (Hl & Hco). rewrite Hd in Hco. specialize (Hco Hh) as [Hu Hco].
  assert (Hca : buffer_cache e' = buffer_cache (enc w)) by (subst e'; by destruct (draw_range d) as [[??]|]).
  assert (Hb : frame_blit_commands e' = frame_blit_commands (enc w)) by (subst e'; by destruct (draw_range d) as [[??]|]).
  assert (Hgrow : forall i x, DirtyRange.covers (DrawnRangeTracker.range (drawn_ranges (enc w)) i) x ->
            DirtyRange.covers (DrawnRangeTracker.range (drawn_ranges e') i) x).
  { intros i x Hx. subst e'. destruct (draw_range d) as [[off size]|] eqn:Hr; [|done]. cbn. rewrite range_note. case_decide; [subst|done].
    destruct (draw_range_u32 d off size Hok Hr). apply DirtyRange.conjoin_covers; auto. }
  assert (Hcov : forall x, draw_reads d x -> x < buf_length s ->
            DirtyRange.covers (DrawnRangeTracker.range (drawn_ranges e') id) x).
  { intros x Hx Hlt. destruct (draw_range_reads d x (buf_length s) Hok Hx Hl Hlt) as (off & size & Hr & ? & ? & ? & ?).
    subst e'. rewrite Hr. cbn. rewrite range_note, decide_True by done. apply DirtyRange.conjoin_covers; try done. right. by split. }
  constructor; unfold entry_ok, drawn_ok, gpu; cbn [enc mem used contents draws]; rewrite ?Hca, ?Hb; try apply Hi.
  intros dr [Hin|Hin]%elem_of_app; [|apply list_elem_of_singleton in Hin as ->; cbn].
  - destruct (inv_draws w Hi dr Hin) as (? & ? & ? & [(s0 & Hc0 & Hh0 & Hcv)|Hn]); (split_and!; [done..|]); [left|by right].
    exists s0. eauto 8.
  - split_and!; [done|done|intros x _ Hx; left; by apply Hco|]. left. exists s. done.
Qed.

Lemma inv_submit w seq :
  inv w -> inv (mkWorld (next_frame seq (enc w))
                 (run_blits (frame_blit_commands (enc w)) (mem w)) (used w) (contents w) []).
Proof.
  intros []. constructor; try done; intros ? ?%not_elem_of_nil; done.
Qed.

Lemma answer_in w m x : fresh_answers w m -> (recreated m = Some x \/ transient m = Some x \/ renamed m = Some x) ->
  x ∈ answers m /\ x <> 0 /\ x ∉ used w.
Proof.
  intros [_ Hf] Hx. rewrite Forall_forall in Hf. assert (x ∈ answers m) as Hin.
  { unfold answers. rewrite !elem_of_app. destruct Hx as [->|[->| ->]]; cbn; set_solver. }
  split; [done|]. by apply Hf.
Qed.

Lemma answers_distinct w m : fresh_answers w m ->
  (forall x y, recreated m = Some x -> transient m = Some y -> x <> y)
  /\ (forall x y, recreated m = Some x -> renamed m = Some y -> x <> y)
  /\ (forall x y, transient m = Some x -> renamed m = Some y -> x <> y).
Proof.
  intros [Hnd _]. unfold answers in Hnd. apply NoDup_app in Hnd as (_ & H1 & Hnd). apply NoDup_app in Hnd as (_ & H2 & _).
  split_and!; intros x y Ex Ey ->; rewrite ?Ex, ?Ey in *; cbn in *; set_solver.
Qed.

(** The upload once the buffer has a device buffer. *)
Lemma inv_wrote w m id off size data s :
  inv w -> buffer_cache (enc w) !! id = Some s -> is_staged s = true ->
  0 <= off -> 0 <= size -> off + size <= buf_length s -> fresh_answers w m ->
  inv (uploaded w m id off size data s).
Proof.
  intros Hi Hc Hst Ho Hs Hl Hf. set (U := list_to_set (answers m) ∪ used w).
  assert (HU : forall x, x ∈ answers m -> x ∈ U) by (intros x Hx; unfold U; set_solver). unfold uploaded. fold U.
  destruct (live m s) as [h|] eqn:Hlive.
  2:{ unfold live in Hlive. destruct (device_buffer s =? 0) eqn:E; [|done].
      assert (found m id s w = contents w) as -> by (unfold found; by rewrite Hlive).
      assert (apply_stage_upload m id off size (enc w)
        = set_cache (enc w) (<[id := touch s (current_submit_seq (enc w))]> (buffer_cache (enc w)))) as ->.
      { unfold apply_stage_upload. rewrite Hc, Hst. cbn [negb device_buffer touch]. by rewrite E, Hlive. }
      pose proof (inv_touched w id s Hi Hc) as Ht. apply (inv_used _ U) in Ht; [exact Ht|unfold U; cbn; set_solver]. }
  pose proof (live_nonzero w m s h Hf Hlive) as Hh.
  pose proof (inv_revived w m id s h Hi Hc Hlive Hf) as Hr. set (w1 := revived_world w m id h s) in *.
  assert (Hhu : h ∈ U).
  { destruct (decide (device_buffer s = 0)) as [Hz|Hn].
    - destruct (live_fresh w m s h Hf Hlive Hz) as (_ & _ & E). apply HU. by apply (answer_in w m h Hf); left.
    - rewrite (live_same m s h Hlive Hn). destruct (inv_entry w Hi id s Hc) as [_ He]. destruct (He Hn). unfold U. set_solver. }
  destruct (transient m) as [t|] eqn:Et.
  2:{ assert (apply_stage_upload m id off size (enc w) = enc w1) as ->.
      { rewrite (revived_upload m id off size (enc w) s h) by done. unfold w1, revived_world. cbn [enc].
        destruct s as [st d len seq]. cbn in Hst. subst st. unfold apply_stage_upload, revived, set_cache, touch, set_device.
        cbn [buffer_cache current_submit_seq]. rewrite lookup_insert_eq. cbn [is_staged negb device_buffer buf_length buf_last_submit_seq].
        rewrite (proj2 (Z.eqb_neq _ _) Hh), Et, !insert_insert_eq.
        cbn [buffer_cache current_submit_seq frame_blit_commands drawn_ranges pending_resource_retention pending_stage_uploads].
        rewrite ?insert_insert_eq. do 3 f_equal.
        destruct (seq <? _) eqn:E; [by rewrite Z.ltb_irrefl|by rewrite E]. }
      apply (inv_used _ U) in Hr; [exact Hr|]. unfold w1; cbn. unfold U in *. set_solver. }
  destruct (answers_distinct w m Hf) as (D1 & D2 & D3).
  destruct (answer_in w m t Hf) as (Hta & _ & Htu); [by right; left|].
  assert (Hth : t <> h).
  { destruct (decide (device_buffer s = 0)) as [Hz|Hn].
    - destruct (live_fresh w m s h Hf Hlive Hz) as (_ & _ & E). intros <-. by apply (D1 t t).
    - rewrite (live_same m s h Hlive Hn). intros ->. destruct (inv_entry w Hi id s Hc) as [_ He]. by destruct (He Hn). }
  rewrite (revived_upload m id off size (enc w) s h) by done.
  apply (inv_upload w1 m id off size data (set_device (touch s (current_submit_seq (enc w))) h) t U); try done.
  - unfold w1; cbn. by rewrite lookup_insert_eq.
  - unfold w1; cbn. set_solver.
  - intros f Ef. destruct (answer_in w m f Hf) as (Hfa & Hf0 & Hfu); [by right; right|]. split; [done|].
    split; [|split; [|by apply HU]].
    + unfold w1; cbn. assert (f <> h); [|set_solver]. intros ->. destruct (decide (device_buffer s = 0)) as [Hz|Hn].
      * destruct (live_fresh w m s h Hf Hlive Hz) as (_ & _ & E). by apply (D2 h h).
      * rewrite (live_same m s h Hlive Hn) in Hfu. destruct (inv_entry w Hi id s Hc) as [_ He]. by destruct (He Hn).
    + intros ->. by apply (D3 t t).
  - unfold w1; cbn. unfold U in *. set_solver.
Qed.

Lemma inv_drawn w m id d s h e' :
  inv w -> buffer_cache (enc w) !! id = Some s -> is_staged s = true -> draw_ok d -> fresh_answers w m ->
  draw_staged m id d (buf_length s) (enc w) = Some (h, e') ->
  inv (mkWorld e' (mem w) (list_to_set (answers m) ∪ used w) (found m id s w)
         (if h =? 0 then draws w
          else draws w ++ [mkDrawn id h d (buf_length s) (found m id s w id) (fun _ => false)])).
Proof.
  intros Hi Hc Hst Hok Hf E. destruct (live m s) as [h'|] eqn:Hlive.
  - pose proof (live_nonzero w m s h' Hf Hlive) as Hh. rewrite (draw_staged_some m id d (buf_length s) s (enc w) h') in E by done.
    injection E as <- <-. rewrite (proj2 (Z.eqb_neq _ _) Hh).
    pose proof (inv_revived w m id s h' Hi Hc Hlive Hf) as Hr. set (w1 := revived_world w m id h' s) in *.
    eapply (inv_draw w1 id d (set_device (touch s (current_submit_seq (enc w))) h') h') in Hr; [| |done|done|done|reflexivity].
    2:{ unfold w1; cbn. by rewrite lookup_insert_eq. }
    apply (inv_used _ (list_to_set (answers m) ∪ used w)) in Hr; [exact Hr|]. unfold w1; cbn.
    destruct (decide (device_buffer s = 0)) as [Hz|Hn].
    + destruct (live_fresh w m s h' Hf Hlive Hz) as (_ & _ & E'). destruct (answer_in w m h' Hf) as [Ha _]; [by left|]. set_solver.
    + rewrite (live_same m s h' Hlive Hn). destruct (inv_entry w Hi id s Hc) as [_ He]. destruct (He Hn). set_solver.
  - rewrite (draw_staged_none m id d (buf_length s) s (enc w)) in E by done. injection E as <- <-. cbn [Z.eqb].
    assert (found m id s w = contents w) as ->.
    { unfold found. unfold live in Hlive. destruct (device_buffer s =? 0); [by rewrite Hlive|done]. }
    pose proof (inv_touched w id s Hi Hc) as Ht. apply (inv_used _ (list_to_set (answers m) ∪ used w)) in Ht; [exact Ht|cbn; set_solver].
Qed.

Lemma order_step w w' : inv w -> step w w' -> inv w'.
Proof. intros Hi Hs. destruct Hs; eauto using inv_wrote, inv_drawn, inv_submit. Qed.

(** A frame about to start: no blit, no draw, every cached device buffer that was
    made its own handle and holding its buffer's contents. *)
Definition frame_start (w : World) : Prop :=
  frame_blit_commands (enc w) = [] /\ draws w = []
  /\ (forall i j s s', buffer_cache (enc w) !! i = Some s -> buffer_cache (enc w) !! j = Some s' ->
        device_buffer s = device_buffer s' -> device_buffer s <> 0 -> i = j)
  /\ forall id s, buffer_cache (enc w) !! id = Some s ->
       is_u32 (buf_length s)
       /\ (device_buffer s <> 0 -> device_buffer s ∈ used w
            /\ forall x, 0 <= x < buf_length s -> mem w (device_buffer s) x = contents w id x).

Lemma inv_start w : frame_start w -> inv w.
Proof.
  intros (Hb & Hd & Hdist & He). constructor; unfold entry_ok, gpu; rewrite ?Hb, ?Hd; try done;
    intros ? ?%not_elem_of_nil; done.
Qed.

(** C17: rename-at-overlap gives every draw the bytes of op order, whatever
    Metal answers.  Over any op stream of staged uploads and draws, on any
    number of buffers and across submissions, each create succeeding or failing,
    each draw of the frame that is not dropped, reading after all of the frame's
    blits have run, finds at every byte it reads exactly the contents its
    buffer had at the draw's place in the stream: a later upload never shows
    through, and an earlier one that was not dropped is never missed.  The one
    exception is the code's own: an upload that overlaps what was drawn, and for
    whose rename no memory could be had, overwrites the live buffer, so the
    draws made from it may read its bytes. *)
Theorem draws_see_op_order w0 w dr x :
  frame_start w0 -> rtc step w0 w ->
  dr ∈ draws w -> draw_reads (dr_read dr) x -> 0 <= x < dr_len dr ->
  run_blits (frame_blit_commands (enc w)) (mem w) (dr_handle dr) x = dr_expect dr x
  \/ dr_spoiled dr x = true.
Proof.
  intros H0 Hs Hin Hr Hx. assert (Hi : inv w).
  { clear Hin. apply inv_start in H0. induction Hs; eauto using order_step. }
  destruct (inv_draws w Hi dr Hin) as (_ & _ & H & _). by apply H.
Qed.

(** ** A concrete frame: draw, overlapping upload, draw *)

Definition one_buffer : World :=
  mkWorld (mkEnc {[ 1 := mkBuf true 10 64 0 ]} [] ∅ [] [] 5) (fun _ _ => 7) {[ 10 ]}
    (fun _ _ => 7) [].

Definition metal_answers : Metal := mkMetal None (Some 20) (Some 30).
Definition no_rename : Metal := mkMetal None (Some 20) None.
Definition first_draw : draw_read := VertexRead 0 (mkLayout 16 StepPerVertex 1) 16 false 1 (IndexNone 0 2).

Definition after_draw : World :=
  match draw_staged (mkMetal None None None) 1 first_draw 64 (enc one_buffer) with
  | Some (h, e') => mkWorld e' (mem one_buffer) (used one_buffer) (contents one_buffer)
                      [mkDrawn 1 h first_draw 64 (fun _ => 7) (fun _ => false)]
  | None => one_buffer
  end.

(** The upload of eight 9s over byte 16 on, as Metal answers [m]. *)
Definition after_upload (m : Metal) : World := uploaded after_draw m 1 16 8 (fun _ => 9) (mkBuf true 10 64 5).

Lemma one_buffer_start : frame_start one_buffer.
Proof.
  split_and!; [done|done| |].
  - intros i j s s' Hi Hj _ _. simpl in Hi, Hj. apply lookup_singleton_Some in Hi as [<- _].
    apply lookup_singleton_Some in Hj as [<- _]. done.
  - intros i s Hi. simpl in Hi. apply lookup_singleton_Some in Hi as [<- <-].
    split_and!; [done|intros _; split; [set_solver|done]].
Qed.

Lemma after_upload_reached m :
  fresh_answers after_draw m -> rtc step one_buffer (after_upload m).
Proof.
  intros Hf. eapply rtc_l; [|eapply rtc_l; [|apply rtc_refl]].
  - assert (fresh_answers one_buffer (mkMetal None None None)) as H0 by (split; constructor).
    exact (st_draw one_buffer (mkMetal None None None) 1 first_draw (mkBuf true 10 64 0) 10 _ eq_refl eq_refl
             ltac:(cbn; unfold is_u32, u32_max; lia) H0 eq_refl).
  - apply (st_upload after_draw m 1 16 8 (fun _ => 9) (mkBuf true 10 64 5)); try reflexivity; try done.
Qed.

(** The draw before the upload still reads 7 at byte 20; the buffer itself
    holds 9 there, in the renamed device buffer 30.  Where no memory is had for
    the rename, the draw reads the 9, and its byte is one of the spoiled. *)
Lemma draws_see_op_order_witness :
  gpu (after_upload metal_answers) 10 20 = 7 /\ gpu (after_upload metal_answers) 30 20 = 9
  /\ gpu (after_upload metal_answers) 30 40 = 7
  /\ run_blits (frame_blit_commands (enc (after_upload metal_answers))) (mem (after_upload metal_answers)) 10 20 = 7
  /\ gpu (after_upload no_rename) 10 20 = 9
  /\ exists dr, dr ∈ draws (after_upload no_rename) /\ dr_spoiled dr 20 = true /\ dr_spoiled dr 24 = false
       /\ gpu (after_upload no_rename) 10 24 = 7.
Proof.
  assert (Hreads : forall x, 0 <= x < 32 -> draw_reads first_draw x).
  { intros x Hx. exists (x / 16), 0, (x mod 16). cbn. assert (x = 16 * (x / 16) + x mod 16) by (apply Z.div_mod; lia).
    pose proof (Z.mod_pos_bound x 16 ltac:(lia)). split_and!; try lia. }
  split_and!; [vm_compute; done..| | |].
  - destruct (draws_see_op_order one_buffer (after_upload metal_answers) (mkDrawn 1 10 first_draw 64 (fun _ => 7) (fun _ => false)) 20) as [H|H];
      [apply one_buffer_start| |by left|apply Hreads; lia|cbn; lia|exact H|discriminate H].
    apply after_upload_reached. apply (bool_decide_unpack _). vm_compute. exact I.
  - vm_compute. done.
  - eexists. split; [left; reflexivity|]. split; [vm_compute; done|]. split; [vm_compute; done|].
    destruct (draws_see_op_order one_buffer (after_upload no_rename)
                (spoil 10 16 8 (mkDrawn 1 10 first_draw 64 (fun _ => 7) (fun _ => false))) 24) as [H|H];
      [apply one_buffer_start| |by left|apply Hreads; lia|cbn; lia|exact H|vm_compute in H; discriminate H].
    apply after_upload_reached. apply (bool_decide_unpack _). vm_compute. exact I.
Defined.

(** ** What a replay leaves out

    The submission that carries a rename aborts, so none of its blits runs; the
    next frame replays the uploads of its recovery queue. *)

Definition replay_all (e : Encoder) : Encoder :=
  foldl (fun e r => snd (reissue_stage_upload r e)) (next_frame (current_submit_seq e + 1) e) (pending_stage_uploads e).

(** The copy that carries the rest of a renamed buffer over is no upload, so an
    abort loses it for good: in the frame above, had the submission run, byte 40
    of the buffer would hold what it held before; after the abort and the replay
    the buffer is the fresh allocation, byte 16 holds the upload again, and byte
    40 holds whatever the allocation came with. *)
Lemma abort_loses_preserve (M : memory) :
  let e := enc (after_upload metal_answers) in
  let lost := run_blits (frame_blit_commands (replay_all e)) M in
  device_buffer <$> buffer_cache (replay_all e) !! 1 = Some 30
  /\ run_blits (frame_blit_commands e) M 30 40 = M 10 40
  /\ lost 30 16 = M 20 0 /\ lost 30 40 = M 30 40.
Proof. repeat split; vm_compute; reflexivity. Qed.
