(* ===== verification/PassData.v ===== *)
(** The render pass of [passes.rs]: its attachments with their load and store
    actions, its flags and its command list, the predicates the load/store
    rules decide with, and the join of two passes.

    The ten [color_*] fields of the source's [Pass] are the ten fields of a
    [PassColorAttachment], so render target 0 is held as one here; the depth
    and stencil fields are one [PassDepth].  A handle is a number, 0 the null
    one. *)

From S2P Require Import Prelude PassCommands.

(** ** Load and store actions *)

Inductive ColorLoad := CLoad | CClear (r g b a : Z) | CDontCare.
Inductive DepthLoad := DLoad | DClear (value : Z) | DDontCare.
Inductive StencilLoad := SLoad | SClear (value : Z) | SDontCare.
Inductive StoreAction := Store | DontCare.

#[export] Instance ColorLoad_eq : EqDecision ColorLoad.
Proof. solve_decision. Defined.
#[export] Instance DepthLoad_eq : EqDecision DepthLoad.
Proof. solve_decision. Defined.
#[export] Instance StencilLoad_eq : EqDecision StencilLoad.
Proof. solve_decision. Defined.
#[export] Instance StoreAction_eq : EqDecision StoreAction.
Proof. solve_decision. Defined.

Definition color_clears (l : ColorLoad) : bool := match l with CClear _ _ _ _ => true | _ => false end.
Definition color_loads (l : ColorLoad) : bool := match l with CLoad => true | _ => false end.
Definition depth_clears (l : DepthLoad) : bool := match l with DClear _ => true | _ => false end.
Definition depth_loads (l : DepthLoad) : bool := match l with DLoad => true | _ => false end.
Definition depth_discards (l : DepthLoad) : bool := match l with DDontCare => true | _ => false end.
Definition stencil_clears (l : StencilLoad) : bool := match l with SClear _ => true | _ => false end.
Definition stencil_loads (l : StencilLoad) : bool := match l with SLoad => true | _ => false end.
Definition stencil_discards (l : StencilLoad) : bool := match l with SDontCare => true | _ => false end.
Definition stores (s : StoreAction) : bool := match s with Store => true | DontCare => false end.

(** Whether an attachment whose load clears keeps the cleared contents at pass end. *)
Definition clear_is_stored (clears : bool) (store : StoreAction) : bool := clears && stores store.

(** ** Attachments *)

Record PassColorAttachment := mkColor {
  texture : Z; srgb_texture : Z; msaa_texture : Z; msaa_srgb_texture : Z; resolve_texture : Z;
  subresource : Z; size : Z * Z; format : Z; load : ColorLoad; store : StoreAction }.

Definition set_load (a : PassColorAttachment) (l : ColorLoad) : PassColorAttachment :=
  mkColor (texture a) (srgb_texture a) (msaa_texture a) (msaa_srgb_texture a) (resolve_texture a)
    (subresource a) (size a) (format a) l (store a).
Definition set_store (a : PassColorAttachment) (s : StoreAction) : PassColorAttachment :=
  mkColor (texture a) (srgb_texture a) (msaa_texture a) (msaa_srgb_texture a) (resolve_texture a)
    (subresource a) (size a) (format a) (load a) s.
Definition set_resolve (a : PassColorAttachment) (r : Z) : PassColorAttachment :=
  mkColor (texture a) (srgb_texture a) (msaa_texture a) (msaa_srgb_texture a) r
    (subresource a) (size a) (format a) (load a) (store a).

(** [PassColorAttachment::NONE]; [PixelFormat::Bgra8Unorm] is 80 on the wire. *)
Definition color_none : PassColorAttachment := mkColor 0 0 0 0 0 0 (0, 0) 80 CDontCare DontCare.

Definition is_bound (a : PassColorAttachment) : bool := negb (texture a =? 0).

(** The view the render pass binds, and the view a resolve writes. *)
Definition attachment_texture (a : PassColorAttachment) : Z :=
  if msaa_texture a =? 0 then (if srgb_texture a =? 0 then texture a else srgb_texture a)
  else if msaa_srgb_texture a =? 0 then msaa_texture a else msaa_srgb_texture a.
Definition resolve_view (a : PassColorAttachment) : Z :=
  if srgb_texture a =? 0 then texture a else srgb_texture a.

Definition slice (a : PassColorAttachment) : Z := Z.land (subresource a) 65535.
Definition level (a : PassColorAttachment) : Z := Z.shiftr (subresource a) 16.

Definition written_without_draws (a : PassColorAttachment) : bool :=
  clear_is_stored (color_clears (load a)) (store a) || negb (resolve_texture a =? 0).

(** [drop_color_attachment]: render target 0 goes, its extent and format stay. *)
Definition drop_attachment (a : PassColorAttachment) : PassColorAttachment :=
  mkColor 0 0 0 0 0 0 (size a) (format a) CDontCare DontCare.

(** [PassDepthFlags]. *)
Definition SAMPLEABLE : Z := 1.
Definition HAS_STENCIL : Z := 2.
Definition USED : Z := 4.
Definition STENCIL_WRITTEN : Z := 8.

Definition contains (flags bit : Z) : bool := Z.land flags bit =? bit.

Record PassDepth := mkDepth {
  depth_texture_ : Z; depth_level_ : Z; depth_size_ : Z * Z; depth_load_ : DepthLoad;
  stencil_load_ : StencilLoad; depth_store_ : StoreAction; stencil_store_ : StoreAction; depth_flags_ : Z }.

(** [PassColorFlags], one field per bit. *)
Record PassColorFlags := mkColorFlags { WRITES_OBSERVED : bool; FIRST_DRAW_COVERS : bool }.

Record Pass := mkPass {
  color : PassColorAttachment; extra_color : list PassColorAttachment; depth : PassDepth;
  viewport : Z * Z * Z * Z; commands : list Command; leading_blits : list BlitCommand;
  has_counting_visibility : bool; visibility_buffer : Z; color_flags : PassColorFlags;
  color_clear_quad_ranges : list (nat * nat) }.

Definition color_texture (p : Pass) : Z := texture (color p).
Definition color_load (p : Pass) : ColorLoad := load (color p).
Definition color_store (p : Pass) : StoreAction := store (color p).
Definition color_subresource (p : Pass) : Z := subresource (color p).
Definition color_size (p : Pass) : Z * Z := size (color p).
Definition depth_texture (p : Pass) : Z := depth_texture_ (depth p).
Definition depth_level (p : Pass) : Z := depth_level_ (depth p).
Definition depth_size (p : Pass) : Z * Z := depth_size_ (depth p).
Definition depth_load (p : Pass) : DepthLoad := depth_load_ (depth p).
Definition stencil_load (p : Pass) : StencilLoad := stencil_load_ (depth p).
Definition depth_store (p : Pass) : StoreAction := depth_store_ (depth p).
Definition stencil_store (p : Pass) : StoreAction := stencil_store_ (depth p).
Definition depth_flags (p : Pass) : Z := depth_flags_ (depth p).

(** Setters, in the order of the fields. *)
Definition with_colors (p : Pass) (c : PassColorAttachment) (e : list PassColorAttachment) : Pass :=
  mkPass c e (depth p) (viewport p) (commands p) (leading_blits p) (has_counting_visibility p)
    (visibility_buffer p) (color_flags p) (color_clear_quad_ranges p).
Definition with_depth (p : Pass) (d : PassDepth) : Pass :=
  mkPass (color p) (extra_color p) d (viewport p) (commands p) (leading_blits p)
    (has_counting_visibility p) (visibility_buffer p) (color_flags p) (color_clear_quad_ranges p).
Definition with_commands (p : Pass) (cs : list Command) (ranges : list (nat * nat)) : Pass :=
  mkPass (color p) (extra_color p) (depth p) (viewport p) cs (leading_blits p)
    (has_counting_visibility p) (visibility_buffer p) (color_flags p) ranges.

Definition set_depth_load (d : PassDepth) (l : DepthLoad) : PassDepth :=
  mkDepth (depth_texture_ d) (depth_level_ d) (depth_size_ d) l (stencil_load_ d) (depth_store_ d)
    (stencil_store_ d) (depth_flags_ d).
Definition set_stencil_load (d : PassDepth) (l : StencilLoad) : PassDepth :=
  mkDepth (depth_texture_ d) (depth_level_ d) (depth_size_ d) (depth_load_ d) l (depth_store_ d)
    (stencil_store_ d) (depth_flags_ d).
Definition set_depth_store (d : PassDepth) (s : StoreAction) : PassDepth :=
  mkDepth (depth_texture_ d) (depth_level_ d) (depth_size_ d) (depth_load_ d) (stencil_load_ d) s
    (stencil_store_ d) (depth_flags_ d).
Definition set_stencil_store (d : PassDepth) (s : StoreAction) : PassDepth :=
  mkDepth (depth_texture_ d) (depth_level_ d) (depth_size_ d) (depth_load_ d) (stencil_load_ d)
    (depth_store_ d) s (depth_flags_ d).

(** Render target 0 and the extras, in slot order. *)
Definition color_slots (p : Pass) : list PassColorAttachment := color p :: extra_color p.

(** [bound_color_attachments]: the bound ones with their slots. *)
Definition bound_color_attachments (p : Pass) : list (nat * PassColorAttachment) :=
  filter (λ sa, is_bound sa.2 = true) (imap (λ i a, (i, a)) (color_slots p)).

(** [set_color_store_of]. *)
Definition set_color_store_of (p : Pass) (slot : nat) (s : StoreAction) : Pass :=
  match slot with
  | O => with_colors p (set_store (color p) s) (extra_color p)
  | S k => with_colors p (color p) (alter (λ a, set_store a s) k (extra_color p))
  end.

(** [color_load_of]. *)
Definition color_load_of (p : Pass) (slot : nat) : option ColorLoad := load <$> color_slots p !! slot.

(** ** What a pass does to its attachments *)

Definition has_draw (p : Pass) : bool := existsb is_draw (commands p).

Definition color_written_without_draws (p : Pass) : bool :=
  negb (color_texture p =? 0) && written_without_draws (color p).

Definition depth_written_without_draws (p : Pass) : bool :=
  negb (depth_texture p =? 0)
  && (clear_is_stored (depth_clears (depth_load p)) (depth_store p)
      || (contains (depth_flags p) HAS_STENCIL
          && clear_is_stored (stencil_clears (stencil_load p)) (stencil_store p))).

Definition extent_covers (outer inner : Z * Z) : bool :=
  (inner.1 <=? outer.1) && (inner.2 <=? outer.2).

(** Whether no bound colour attachment is smaller than the depth attachment on either axis. *)
Definition color_extent_covers_depth (p : Pass) : bool :=
  if depth_texture p =? 0 then true
  else ((color_texture p =? 0) || extent_covers (color_size p) (depth_size p))
       && forallb (λ a, negb (is_bound a) || extent_covers (size a) (depth_size p)) (extra_color p).

Definition clears_depth_past_its_area (p : Pass) : bool :=
  (depth_clears (depth_load p) || stencil_clears (stencil_load p)) && negb (color_extent_covers_depth p).

(** Whether [p] repeats the depth and stencil clears of [prev], a depth-only clear pass. *)
Definition repeats_depth_clear_of (p prev : Pass) : bool :=
  (color_texture prev =? 0) && forallb (λ a, negb (is_bound a)) (extra_color prev)
  && negb (has_draw prev)
  && (depth_texture prev =? depth_texture p) && (depth_level prev =? depth_level p)
  && bool_decide (depth_size prev = depth_size p)
  && (negb (depth_clears (depth_load p)) || bool_decide (depth_load prev = depth_load p))
  && (negb (stencil_clears (stencil_load p)) || bool_decide (stencil_load prev = stencil_load p)).

(** ** What a pass reads and attaches *)

(** [commands_sample_texture]: a bind of the texture or of a view of it. *)
Definition commands_sample_texture (p : Pass) (target : Z) (views : Views) : bool :=
  existsb (λ c, match command_sampled_texture c with
                | Some t => names views t target
                | None => false end) (commands p).

Definition pass_samples_texture (p : Pass) (target : Z) (views : Views) (frame_sampled : gset Z) : bool :=
  if target =? 0 then false
  else if bool_decide (target ∈ frame_sampled) then commands_sample_texture p target views else false.

Definition pass_reads_texture (p : Pass) (target : Z) (views : Views) (frame_sampled : gset Z) : bool :=
  if target =? 0 then false
  else if pass_samples_texture p target views frame_sampled then true
  else existsb (λ b, match blit_read_texture b with
                     | Some t => names views t target
                     | None => false end) (leading_blits p).

Definition pass_attaches_texture (p : Pass) (t : Z) : bool :=
  negb (t =? 0)
  && ((color_texture p =? t) || (depth_texture p =? t) || existsb (λ a, texture a =? t) (extra_color p)).

Definition pass_attaches_color (p : Pass) (t sub : Z) : bool :=
  if t =? 0 then false
  else existsb (λ a, (texture a =? t) && (subresource a =? sub)) (color_slots p).

Definition pass_resolves_into (p : Pass) (target : Z) (views : Views) : bool :=
  if target =? 0 then false
  else existsb (λ a, negb (resolve_texture a =? 0) && names views (resolve_texture a) target)
         (color_slots p).
