(* ===== verification/PassRules.v ===== *)
(** The load/store rules of [passes.rs] that decide on one pass at a time or on
    what comes after it: A (sampled attachments load), B and C (stores nothing
    reads), the stencil and depth-load discards, the multisample resolves, G and
    H (unwritten colour attachments), F (passes that write nothing), I (cleared
    targets overwritten unread) and K (covered colour loads).

    The source walks the pass list by index, most rules back to front; here the
    walk is the recursion on the list, and a position the source keeps as an
    index is kept as the number of passes that follow it. *)

From S2P Require Import Prelude PassCommands PassData.

(** The part of [PassState] the rules read and write. *)
Record PassState := mkPassState {
  passes : list Pass; upload_pass_end : nat; seen_sampled_textures : gset Z;
  frame_sampled_textures : gset Z; stencil_written_textures : gset Z;
  texture_view_to_base : Views; backbuffer_texture : Z; backbuffer_undefined : bool }.

Definition with_passes (s : PassState) (ps : list Pass) : PassState :=
  mkPassState ps (upload_pass_end s) (seen_sampled_textures s) (frame_sampled_textures s)
    (stencil_written_textures s) (texture_view_to_base s) (backbuffer_texture s) (backbuffer_undefined s).

(** ** Rule A: attachments a sampler reads are loaded *)

Definition revert_color (sampled : gset Z) (a : PassColorAttachment) : PassColorAttachment :=
  match load a with
  | CDontCare => if bool_decide (texture a ∈ sampled) then set_load a CLoad else a
  | _ => a
  end.

Definition finalize_load (sampled : gset Z) (p : Pass) : Pass :=
  let c := revert_color sampled (color p) in
  let e := (λ a, if is_bound a then revert_color sampled a else a) <$> extra_color p in
  let d := depth p in
  let d := if depth_discards (depth_load_ d) && bool_decide (depth_texture_ d ∈ sampled)
           then set_depth_load d DLoad else d in
  let d := if stencil_discards (stencil_load_ d) && bool_decide (depth_texture_ d ∈ sampled)
           then set_stencil_load d SLoad else d in
  with_depth (with_colors p c e) d.

Definition finalize_load_actions (s : PassState) : PassState :=
  with_passes s (finalize_load (seen_sampled_textures s) <$> passes s).

(** ** Rule C: a colour store the next pass on the target clears *)

(** The map from a target to the load action its next use in forward order has
    there; the source keeps the pass and the slot and reads the load off them. *)
  Abbreviation NextColorUse := (gmap (Z * Z) ColorLoad).

Definition discard_color_step (sampled : gset Z) (acc : Pass * NextColorUse)
    (sa : nat * PassColorAttachment) : Pass * NextColorUse :=
  let '(p, next) := acc in
  let '(slot, a) := sa in
  let key := (texture a, subresource a) in
  let cleared := match next !! key with Some l => color_clears l | None => false end in
  let p' := if cleared && negb (bool_decide (texture a ∈ sampled))
            then set_color_store_of p slot DontCare else p in
  (p', <[key := load a]> next).

Fixpoint discard_color_stores (sampled : gset Z) (ps : list Pass) : list Pass * NextColorUse :=
  match ps with
  | [] => ([], ∅)
  | p :: rest =>
      let '(rest', next) := discard_color_stores sampled rest in
      let '(p', next') := foldl (discard_color_step sampled) (p, next) (bound_color_attachments p) in
      (p' :: rest', next')
  end.

(** ** Rule B and Rule C's depth arm *)

Definition depth_touched (views : Views) (frame_sampled : gset Z) (t : Z) (p : Pass) : bool :=
  pass_reads_texture p t views frame_sampled || blit_list_writes (leading_blits p) t
  || pass_resolves_into p t views.

(** [depth_touched_between]: [rest] is what follows the first pass, and the
    next pass on the texture has [after] passes behind it. *)
Definition depth_touched_between (views : Views) (frame_sampled : gset Z) (rest : list Pass)
    (after : nat) (t : Z) : bool :=
  existsb (depth_touched views frame_sampled t) (take (length rest - after) rest).

Definition discard_depth_and_stencil (p : Pass) : Pass :=
  with_depth p (set_stencil_store (set_depth_store (depth p) DontCare) DontCare).

Fixpoint discard_last_depth_stores (views : Views) (frame_sampled seen_sampled : gset Z)
    (ps : list Pass) : list Pass * gmap Z (option nat) :=
  match ps with
  | [] => ([], ∅)
  | p :: rest =>
      let '(rest', tail) := discard_last_depth_stores views frame_sampled seen_sampled rest in
      let t := depth_texture p in
      if t =? 0 then (p :: rest', tail)
      else
        let reason := match tail !! t with
                      | None => true
                      | Some (Some next) =>
                          negb (depth_touched_between views frame_sampled rest' next t)
                      | Some None => false
                      end in
        let discarded := reason && negb (contains (depth_flags p) SAMPLEABLE)
                         && negb (bool_decide (t ∈ seen_sampled)) in
        let unused := discarded && negb (contains (depth_flags p) USED) in
        ((if discarded then discard_depth_and_stencil p else p) :: rest',
         <[t := if unused then Some (length rest') else None]> tail)
  end.

(** The next pass on a level of a depth texture: how many passes follow it, and
    whether it clears each plane and reaches the whole surface. *)
Fixpoint discard_depth_stores_before_clears (views : Views) (frame_sampled seen_sampled : gset Z)
    (ps : list Pass) : list Pass * gmap (Z * Z) nat :=
  match ps with
  | [] => ([], ∅)
  | p :: rest =>
      let '(rest', next_use) := discard_depth_stores_before_clears views frame_sampled seen_sampled rest in
      let t := depth_texture p in
      if t =? 0 then (p :: rest', next_use)
      else
        let key := (t, depth_level p) in
        let p' :=
          match next_use !! key with
          | Some after =>
              match rest' !! (length rest' - S after)%nat with
              | Some next =>
                  if negb (contains (depth_flags p) SAMPLEABLE)
                     && negb (bool_decide (t ∈ seen_sampled))
                     && negb (depth_touched_between views frame_sampled rest' after t)
                     && color_extent_covers_depth next
                  then
                    let d := depth p in
                    let d := if depth_clears (depth_load next) then set_depth_store d DontCare else d in
                    let d := if stencil_clears (stencil_load next) && contains (depth_flags p) HAS_STENCIL
                             then set_stencil_store d DontCare else d in
                    with_depth p d
                  else p
              | None => p
              end
          | None => p
          end in
        (p' :: rest', <[key := length rest']> next_use)
  end.

(** ** Stencil nothing has written, depth loads nothing uses *)

Definition writes_stencil_plane (p : Pass) : bool :=
  negb (depth_texture p =? 0)
  && (contains (depth_flags p) STENCIL_WRITTEN || stencil_clears (stencil_load p)).

Definition note_stencil_writes (written : gset Z) (ps : list Pass) : gset Z :=
  foldl (λ w p, if writes_stencil_plane p then {[depth_texture p]} ∪ w else w) written ps.

(** [note_stencil_blit]: the destination of a blit that can write a stencil plane. *)
Definition blit_writes_stencil (b : BlitCommand) : bool :=
  match blit_from_repr (b_cmd b) with
  | Some (CopyBufferToStencil | TransferDepth | CopyTextureToTexture) => true
  | _ => false
  end.

Definition note_stencil_blit (b : BlitCommand) (written : gset Z) : gset Z :=
  match blit_written_texture b with
  | Some dst => if blit_writes_stencil b then {[dst]} ∪ written else written
  | None => written
  end.

Definition discard_stencil (written : gset Z) (p : Pass) : Pass :=
  if (depth_texture p =? 0) || negb (contains (depth_flags p) HAS_STENCIL)
     || bool_decide (depth_texture p ∈ written)
  then p
  else
    let d := if stencil_loads (stencil_load p) then set_stencil_load (depth p) SDontCare else depth p in
    with_depth p (set_stencil_store d DontCare).

Definition discard_unused_depth_load (p : Pass) : Pass :=
  if (depth_texture p =? 0) || contains (depth_flags p) USED then p
  else
    let d := depth p in
    let d := if negb (stores (depth_store_ d)) && depth_loads (depth_load_ d)
             then set_depth_load d DDontCare else d in
    let d := if contains (depth_flags p) HAS_STENCIL && negb (stores (stencil_store_ d))
                && stencil_loads (stencil_load_ d)
             then set_stencil_load d SDontCare else d in
    with_depth p d.

(** ** The multisample resolves *)

Definition assign_resolve (discard_backbuffer_samples : bool) (backbuffer : Z)
    (resolved : gset (Z * Z)) (a : PassColorAttachment) : PassColorAttachment * gset (Z * Z) :=
  let key := (texture a, subresource a) in
  if (msaa_texture a =? 0) || bool_decide (key ∈ resolved) then (a, resolved)
  else
    let a' := set_resolve a (resolve_view a) in
    let a' := if discard_backbuffer_samples && (texture a =? backbuffer) then set_store a' DontCare else a' in
    (a', {[key]} ∪ resolved).

Fixpoint assign_slots (discard : bool) (backbuffer : Z) (resolved : gset (Z * Z))
    (l : list PassColorAttachment) : list PassColorAttachment * gset (Z * Z) :=
  match l with
  | [] => ([], resolved)
  | a :: l' =>
      let '(a', resolved') := assign_resolve discard backbuffer resolved a in
      let '(rest, resolved'') := assign_slots discard backbuffer resolved' l' in
      (a' :: rest, resolved'')
  end.

Fixpoint assign_resolves (discard : bool) (backbuffer : Z) (ps : list Pass)
  : list Pass * gset (Z * Z) :=
  match ps with
  | [] => ([], ∅)
  | p :: rest =>
      let '(rest', resolved) := assign_resolves discard backbuffer rest in
      let '(c, resolved') := assign_resolve discard backbuffer resolved (color p) in
      let '(e, resolved'') := assign_slots discard backbuffer resolved' (extra_color p) in
      (with_colors p c e :: rest', resolved'')
  end.

Definition assign_multisample_resolves (presenting : bool) (s : PassState) : PassState :=
  let discard := presenting && backbuffer_undefined s && negb (backbuffer_texture s =? 0) in
  with_passes s (assign_resolves discard (backbuffer_texture s) (passes s)).1.

(** [note_msaa_read]: the most recent pass on the companion takes the resolve. *)
Fixpoint resolve_slot (t : Z) (l : list PassColorAttachment) : option (list PassColorAttachment) :=
  match l with
  | [] => None
  | a :: l' =>
      if (texture a =? t) && negb (msaa_texture a =? 0) then Some (set_resolve a (resolve_view a) :: l')
      else (λ r, a :: r) <$> resolve_slot t l'
  end.

Fixpoint resolve_last (t : Z) (ps : list Pass) : option (list Pass) :=
  match ps with
  | [] => None
  | p :: rest =>
      match resolve_last t rest with
      | Some rest' => Some (p :: rest')
      | None =>
          match resolve_slot t (color_slots p) with
          | Some (c :: e) => Some (with_colors p c e :: rest)
          | _ => None
          end
      end
  end.

Definition note_msaa_read (t : Z) (s : PassState) : PassState :=
  if t =? 0 then s else with_passes s (default (passes s) (resolve_last t (passes s))).

(** [finalize_store_actions]: Rules B and C, the stencil and depth-load
    discards and the resolves, in the source's order. *)
Definition finalize_store_actions (frame_continues : bool) (s : PassState) : PassState :=
  let v := texture_view_to_base s in
  let fs := frame_sampled_textures s in
  let seen := seen_sampled_textures s in
  let ps := if frame_continues then passes s else (discard_last_depth_stores v fs seen (passes s)).1 in
  let ps := (discard_color_stores seen ps).1 in
  let ps := (discard_depth_stores_before_clears v fs seen ps).1 in
  let written := note_stencil_writes (stencil_written_textures s) ps in
  let ps := discard_unused_depth_load <$> (discard_stencil written <$> ps) in
  assign_multisample_resolves (negb frame_continues)
    (mkPassState ps (upload_pass_end s) seen fs written v (backbuffer_texture s) (backbuffer_undefined s)).

(** ** Rules G, F and K *)

Definition clear_only (p : Pass) : bool :=
  negb (has_draw p) && bool_decide (leading_blits p = []).

Definition strip_dead_color (p : Pass) : Pass :=
  if negb (clear_only p) then p
  else
    let e := (λ a, if is_bound a && negb (written_without_draws a) then color_none else a) <$> extra_color p in
    let p := with_colors p (color p) e in
    if negb (color_texture p =? 0) && negb (color_written_without_draws p) && negb (depth_texture p =? 0)
    then with_colors p (drop_attachment (color p)) e else p.

Definition pass_writes (p : Pass) : bool :=
  color_written_without_draws p || existsb (λ a, is_bound a && written_without_draws a) (extra_color p)
  || depth_written_without_draws p.

Definition keeps_pass (p : Pass) : bool := negb (clear_only p) || pass_writes p.

Definition cull_dead (ps : list Pass) : list Pass := List.filter keeps_pass ps.

Definition discard_covered_load (p : Pass) : Pass :=
  if FIRST_DRAW_COVERS (color_flags p) && negb (color_texture p =? 0) && color_loads (color_load p)
  then with_colors p (set_load (color p) CDontCare) (extra_color p) else p.

(** ** Rule H: colour stripped from passes whose draws write none *)

Definition in_ranges (ranges : list (nat * nat)) (i : nat) : bool :=
  existsb (λ r, (r.1 <=? i)%nat && (i <? r.2)%nat) ranges.

(** [Vec::drain(s..e)]; the source panics on a range outside the list. *)
Definition drain {A} (r : nat * nat) (l : list A) : option (list A) :=
  if (r.1 <=? r.2)%nat && (r.2 <=? length l)%nat then Some (take r.1 l ++ drop r.2 l) else None.

Definition sets_pipeline (c : Command) : bool := cmd c =? command_code SetRenderPipelineState.

Definition to_no_color (alt : gmap Z Z) (c : Command) : Command :=
  if sets_pipeline c then
    match alt !! param_b c with
    | Some no_color => mkCommand (cmd c) (param_a c) no_color (param_c c) (param_d c)
    | None => c
    end
  else c.

Definition strips_color (alt : gmap Z Z) (p : Pass) : bool :=
  let in_clear_quad := in_ranges (color_clear_quad_ranges p) in
  negb (WRITES_OBSERVED (color_flags p) || (color_texture p =? 0) || (depth_texture p =? 0)
        || negb (color_extent_covers_depth p) || color_written_without_draws p
        || existsb written_without_draws (extra_color p))
  && existsb (λ ic, negb (in_clear_quad ic.1) && is_draw ic.2) (imap (λ i c, (i, c)) (commands p))
  && forallb (λ ic, negb (sets_pipeline ic.2) || in_clear_quad ic.1
                    || bool_decide (is_Some (alt !! param_b ic.2))) (imap (λ i c, (i, c)) (commands p))
  && (bool_decide (color_clear_quad_ranges p = [])
      || forallb (λ sa, negb (stores (store sa.2))) (bound_color_attachments p)).

Definition strip_color (alt : gmap Z Z) (p : Pass) : option Pass :=
  if strips_color alt p then
    let ranges := color_clear_quad_ranges p in
    let cs := imap (λ i c, if in_ranges ranges i then c else to_no_color alt c) (commands p) in
    cs ← foldl (λ acc r, cs ← acc; drain r cs) (Some cs) (reverse ranges);
    Some (with_commands (with_colors p (drop_attachment (color p)) [color_none; color_none; color_none]) cs [])
  else Some p.

Definition strip_color_from_no_color_draw_passes (alt : gmap Z Z) (ps : list Pass) : option (list Pass) :=
  mapM (strip_color alt) ps.

(** ** Rule I: clear-only passes whose targets are overwritten unread *)

Record ClearedTarget := mkTarget {
  t_texture : Z; t_slice : Z; t_level : Z; t_size : Z * Z; t_depth : bool }.

Inductive BlitEffect := Reads | Overwrites | Neither.

Definition blit_effect_on (b : BlitCommand) (t : ClearedTarget) (views : Views) : BlitEffect :=
  match blit_from_repr (b_cmd b) with
  | Some CopyTextureToTexture =>
      if handle_names_texture (src_handle b) (t_texture t) views then Reads
      else if handle_names_texture (dst_handle b) (t_texture t) views
              && (dst_mip_level b =? t_level t) && (dst_slice b =? t_slice t)
              && (dst_offset b =? 0) && (b_depth b <=? 1)
              && bool_decide ((region_w b, region_h b) = t_size t)
      then Overwrites else Neither
  | Some TransferDepth =>
      if handle_names_texture (src_handle b) (t_texture t) views then Reads
      else if t_depth t && (t_slice t =? 0)
              && handle_names_texture (dst_handle b) (t_texture t) views
              && (dst_mip_level b =? t_level t)
      then Overwrites else Neither
  | Some GenerateMipmaps =>
      if handle_names_texture (dst_handle b) (t_texture t) views then Reads else Neither
  | Some (CopyBufferToTexture | CopyBufferToDepth | CopyBufferToStencil | CopyBufferToBuffer
          | NotifyBufferDidModifyRange) => Neither
  | None => if (src_handle b =? t_texture t) || (dst_handle b =? t_texture t) then Reads else Neither
  end.

Definition color_target (a : PassColorAttachment) : list ClearedTarget :=
  if is_bound a && color_clears (load a)
  then [mkTarget (texture a) (slice a) (level a) (size a) false] else [].

Definition dead_clear_candidate (p : Pass) : option (list ClearedTarget) :=
  if negb (bool_decide (leading_blits p = [])) || has_counting_visibility p || has_draw p
     || existsb (λ a, negb (resolve_texture a =? 0) || negb (msaa_texture a =? 0)) (color_slots p)
     || (negb (depth_texture p =? 0) && stencil_clears (stencil_load p))
  then None
  else
    let targets :=
      concat (color_target <$> color_slots p) ++
      (if negb (depth_texture p =? 0) && depth_clears (depth_load p)
       then [mkTarget (depth_texture p) 0 (depth_level p) (depth_size p) true] else []) in
    if bool_decide (targets = []) then None else Some targets.

(** The leading blits one by one; [None] when none of them decides. *)
Fixpoint blits_decide (views : Views) (t : ClearedTarget) (bs : list BlitCommand) : option bool :=
  match bs with
  | [] => None
  | b :: rest =>
      match blit_effect_on b t views with
      | Reads => Some false
      | Overwrites => Some true
      | Neither => blits_decide views t rest
      end
  end.

Fixpoint overwritten_scan (views : Views) (frame_sampled : gset Z) (t : ClearedTarget)
    (rest : list Pass) : bool :=
  match rest with
  | [] => false
  | cand :: rest' =>
      match blits_decide views t (leading_blits cand) with
      | Some answer => answer
      | None =>
          if pass_samples_texture cand (t_texture t) views frame_sampled
             || pass_attaches_texture cand (t_texture t) || pass_resolves_into cand (t_texture t) views
          then false
          else overwritten_scan views frame_sampled t rest'
      end
  end.

Definition overwritten_before_read (views : Views) (frame_sampled : gset Z) (rest : list Pass)
    (t : ClearedTarget) : bool :=
  if ((t_size t).1 =? 0) || ((t_size t).2 =? 0) then false
  else overwritten_scan views frame_sampled t rest.

Fixpoint drop_overwritten_clear_only_passes (views : Views) (frame_sampled : gset Z)
    (ps : list Pass) : list Pass :=
  match ps with
  | [] => []
  | p :: rest =>
      let rest' := drop_overwritten_clear_only_passes views frame_sampled rest in
      match dead_clear_candidate p with
      | Some targets =>
          if forallb (overwritten_before_read views frame_sampled rest') targets
          then rest' else p :: rest'
      | None => p :: rest'
      end
  end.
