(* ===== verification/PassMerge.v ===== *)
(** The two rules of [passes.rs] that put passes together: Rule E folds a
    clear-only pass into the load actions of the next pass on its targets, and
    Rule J joins a pass onto the one before it.  Then the whole rule pipeline,
    [apply_pass_rules]. *)

From S2P Require Import Prelude PassCommands PassData PassRules.

(** ** Rule E *)

Record ClearMerge := mkMerge {
  m_color : Z; m_color_srgb : Z; m_color_subresource : Z; m_extra : list (Z * Z); m_depth : Z;
  m_depth_level : Z; needs_color : bool; needs_depth : bool; needs_stencil : bool }.

Definition extra_set (p : Pass) : list (Z * Z) := (λ a, (texture a, subresource a)) <$> extra_color p.

Definition clear_merge (p : Pass) : ClearMerge :=
  let has_work := negb (clear_only p) in
  mkMerge (color_texture p) (srgb_texture (color p)) (color_subresource p) (extra_set p)
    (depth_texture p) (depth_level p)
    (negb has_work && (color_clears (color_load p)
                       || existsb (λ a, is_bound a && color_clears (load a)) (extra_color p)))
    (negb has_work && depth_clears (depth_load p))
    (negb has_work && negb (depth_texture p =? 0) && stencil_clears (stencil_load p)).

Definition attaches_depth (w : ClearMerge) (cand : Pass) : bool :=
  (depth_texture cand =? m_depth w) && (depth_level cand =? m_depth_level w).

(** What the walk does at one candidate: give up, fold there, or go on. *)
Inductive MergeStep := Bail | Fold | Next.

Definition same_set (w : ClearMerge) (cand : Pass) : bool := bool_decide (extra_set cand = m_extra w).

(** The conditions that give up, in the source's order. *)
Definition merge_bails (views : Views) (fs : gset Z) (w : ClearMerge) (cand : Pass) : bool :=
  let extra_textures := fst <$> m_extra w in
  let depth_side := needs_depth w || needs_stencil w in
  (needs_color w && pass_reads_texture cand (m_color w) views fs)
  || (needs_color w
      && existsb (λ t, negb (t =? 0) && pass_reads_texture cand t views fs) extra_textures)
  || (needs_color w
      && (blit_list_writes (leading_blits cand) (m_color w)
          || existsb (blit_list_writes (leading_blits cand)) extra_textures))
  || (depth_side && blit_list_writes (leading_blits cand) (m_depth w))
  || (needs_color w
      && (pass_resolves_into cand (m_color w) views
          || existsb (λ t, pass_resolves_into cand t views) extra_textures))
  || (needs_color w && negb (same_set w cand)
      && existsb (λ t, negb (t =? 0)
                       && ((color_texture cand =? t) || existsb (λ a, texture a =? t) (extra_color cand)))
           extra_textures)
  || (needs_color w && same_set w cand
      && existsb (λ a, is_bound a && negb (color_loads (load a))) (extra_color cand))
  || (depth_side && pass_reads_texture cand (m_depth w) views fs)
  || (needs_color w && (color_texture cand =? m_color w)
      && (color_subresource cand =? m_color_subresource w) && color_clears (color_load cand))
  || (needs_depth w && attaches_depth w cand && depth_clears (depth_load cand))
  || (needs_stencil w && attaches_depth w cand && stencil_clears (stencil_load cand))
  || (depth_side && attaches_depth w cand && negb (color_extent_covers_depth cand)).

Definition merge_matches (w : ClearMerge) (cand : Pass) : bool :=
  (negb (needs_color w)
   || (same_set w cand && (color_texture cand =? m_color w)
       && (srgb_texture (color cand) =? m_color_srgb w)
       && (color_subresource cand =? m_color_subresource w) && color_loads (color_load cand)))
  && (negb (needs_depth w) || (attaches_depth w cand && depth_loads (depth_load cand)))
  && (negb (needs_stencil w) || (attaches_depth w cand && stencil_loads (stencil_load cand))).

(** A pass that takes one of the cleared attachments without matching all. *)
Definition merge_consumes (w : ClearMerge) (cand : Pass) : bool :=
  (needs_color w
   && existsb (λ ts, pass_attaches_color cand ts.1 ts.2)
        ((m_color w, m_color_subresource w) :: m_extra w))
  || (needs_depth w && attaches_depth w cand && depth_loads (depth_load cand))
  || (needs_stencil w && attaches_depth w cand && stencil_loads (stencil_load cand)).

Definition merge_step (views : Views) (fs : gset Z) (w : ClearMerge) (cand : Pass) : MergeStep :=
  if merge_bails views fs w cand then Bail
  else if merge_matches w cand then Fold
  else if merge_consumes w cand then Bail else Next.

(** The position of the merge target among the passes that follow. *)
Fixpoint find_clear_merge_target (views : Views) (fs : gset Z) (w : ClearMerge) (rest : list Pass)
  : option nat :=
  match rest with
  | [] => None
  | cand :: rest' =>
      match merge_step views fs w cand with
      | Bail => None
      | Fold => Some O
      | Next => S <$> find_clear_merge_target views fs w rest'
      end
  end.

(** The clears of [p] put into the load actions of the target. *)
Definition fold_clear (w : ClearMerge) (p target : Pass) : Pass :=
  let target :=
    if needs_color w
    then with_colors target (set_load (color target) (color_load p))
           (zip_with (λ a b, if is_bound a then set_load a (load b) else a) (extra_color target) (extra_color p))
    else target in
  let target := if needs_depth w then with_depth target (set_depth_load (depth target) (depth_load p)) else target in
  if needs_stencil w then with_depth target (set_stencil_load (depth target) (stencil_load p)) else target.

(** The loop; each round drops a pass or moves on, so the length is fuel enough. *)
Fixpoint coalesce (views : Views) (fs : gset Z) (fuel : nat) (ps : list Pass) : list Pass :=
  match fuel, ps with
  | S fuel, p :: rest =>
      let w := clear_merge p in
      if negb (needs_color w || needs_depth w || needs_stencil w)
      then p :: coalesce views fs fuel rest
      else
        match find_clear_merge_target views fs w rest with
        | Some t => coalesce views fs fuel (alter (fold_clear w p) t rest)
        | None => p :: coalesce views fs fuel rest
        end
  | _, _ => ps
  end.

Definition coalesce_clear_only_passes (views : Views) (fs : gset Z) (ps : list Pass) : list Pass :=
  coalesce views fs (length ps) ps.

(** ** Rule J *)

Definition JOIN_STATES : list CommandType :=
  [SetRenderPipelineState; SetViewport; SetDepthStencilState; SetCullMode; SetScissorRect;
   SetTriangleFillMode; SetDepthBias; SetStencilReference; SetBlendColor; SetVisibilityResultMode].

(** [JOIN_STATES.iter().position(..)]. *)
Definition join_state (c : Command) : option nat :=
  fst <$> list_find (λ k, command_code k = cmd c) JOIN_STATES.

(** [SetBlendColor] with [FRESH_BLEND_COLOR]: every channel is 0.0. *)
Definition fresh_blend_color_command : Command := set_blend_color 0 0 0 0.

Definition sets_fresh_value (c : Command) : bool :=
  if cmd c =? command_code SetVisibilityResultMode then param_a c =? VisibilityResultMode_Disabled
  else existsb (λ v, same_command c v)
         [set_triangle_fill_mode TriangleFillMode_Fill; set_depth_bias 0 0; set_stencil_reference 0;
          fresh_blend_color_command].

(** The offset of a visibility command is a [u32] on the wire. *)
Definition fresh_state_command (last : Command) : option Command :=
  k ← command_from_repr (cmd last);
  match k with
  | SetTriangleFillMode => Some (set_triangle_fill_mode TriangleFillMode_Fill)
  | SetDepthBias => Some (set_depth_bias 0 0)
  | SetStencilReference => Some (set_stencil_reference 0)
  | SetBlendColor => Some fresh_blend_color_command
  | SetVisibilityResultMode => Some (set_visibility_result_mode VisibilityResultMode_Disabled (param_b last))
  | _ => None
  end.

Definition same_views (a b : PassColorAttachment) : bool :=
  (srgb_texture a =? srgb_texture b) && (msaa_texture a =? msaa_texture b)
  && (msaa_srgb_texture a =? msaa_srgb_texture b) && (subresource a =? subresource b)
  && bool_decide (size a = size b) && (format a =? format b).

Definition attachments_match (a b : Pass) : bool :=
  let color_ok := (color_texture a =? color_texture b)
                  && ((color_texture a =? 0) || same_views (color a) (color b)) in
  let extras := forallb (λ xy, (texture xy.1 =? texture xy.2)
                               && ((texture xy.1 =? 0) || same_views xy.1 xy.2))
                  (zip (extra_color a) (extra_color b)) in
  let kinds := Z.lor SAMPLEABLE HAS_STENCIL in
  let depth_ok := (depth_texture a =? depth_texture b)
                  && ((depth_texture a =? 0)
                      || ((depth_level a =? depth_level b) && bool_decide (depth_size a = depth_size b)
                          && (Z.land (depth_flags a) kinds =? Z.land (depth_flags b) kinds))) in
  let binds_any := negb (color_texture a =? 0) || negb (depth_texture a =? 0)
                   || existsb is_bound (extra_color a) in
  color_ok && extras && depth_ok && binds_any.

(** [prev] stores an attachment unresolved and [next] loads it. *)
Definition carries_over (mine theirs : PassColorAttachment) : bool :=
  stores (store mine) && (resolve_texture mine =? 0) && color_loads (load theirs).

Definition color_carries_over (prev next : Pass) : bool :=
  ((color_texture prev =? 0) || carries_over (color prev) (color next))
  && forallb (λ mt, negb (is_bound mt.1) || carries_over mt.1 mt.2) (zip (extra_color prev) (extra_color next)).

Definition plane_carries_over (s : StoreAction) (loads discards : bool) : bool :=
  discards || (loads && stores s).

Definition depth_carries_over (prev next : Pass) : bool :=
  (depth_texture prev =? 0)
  || (plane_carries_over (depth_store prev) (depth_loads (depth_load next)) (depth_discards (depth_load next))
      && (negb (contains (depth_flags prev) HAS_STENCIL)
          || plane_carries_over (stencil_store prev) (stencil_loads (stencil_load next))
               (stencil_discards (stencil_load next)))).

(** The states [next] sets before its first draw. *)
Definition states_set (cs : list Command) : list bool :=
  (λ k, existsb (λ c, cmd c =? command_code k) cs) <$> JOIN_STATES.

(** The walk back over the commands of [prev]: [pending] states are still to be
    found, and the walk ends when there are none. *)
Fixpoint scan_last_set (set_before_draw : list bool) (pending : nat)
    (last_set : list (option Command)) (cs : list Command) : list (option Command) :=
  match pending, cs with
  | O, _ | _, [] => last_set
  | S pending', c :: cs' =>
      match join_state c with
      | Some st =>
          match set_before_draw !! st, last_set !! st with
          | Some false, Some None => scan_last_set set_before_draw pending' (<[st := Some c]> last_set) cs'
          | _, _ => scan_last_set set_before_draw pending last_set cs'
          end
      | None => scan_last_set set_before_draw pending last_set cs'
      end
  end.

Definition first_draw (cs : list Command) : option nat :=
  fst <$> list_find (λ c, is_draw c = true) cs.

(** The commands that put the states back, [None] where one of them has none. *)
Fixpoint restore_states (last_set : list (option Command)) : option (list Command) :=
  match last_set with
  | [] => Some []
  | None :: rest => restore_states rest
  | Some last :: rest =>
      if sets_fresh_value last then restore_states rest
      else c ← fresh_state_command last; cs ← restore_states rest; Some (c :: cs)
  end.

Definition merge_join (views : Views) (fs : gset Z) (prev next : Pass) : option (list Command) :=
  if negb (attachments_match prev next) || negb (visibility_buffer prev =? visibility_buffer next)
     || negb (bool_decide (leading_blits next = [])) || negb (color_carries_over prev next)
     || negb (depth_carries_over prev next)
  then None
  else if existsb (λ t, pass_samples_texture next t views fs)
            (color_texture prev :: depth_texture prev :: (texture <$> extra_color prev))
  then None
  else
    match first_draw (commands next) with
    | None => Some []
    | Some first =>
        let set_before_draw := states_set (take first (commands next)) in
        let pending := length (List.filter negb set_before_draw) in
        restore_states (scan_last_set set_before_draw pending (replicate (length JOIN_STATES) None)
                          (reverse (commands prev)))
    end.

Definition take_over (mine theirs : PassColorAttachment) : PassColorAttachment :=
  set_resolve (set_store mine (store theirs)) (resolve_texture theirs).

Definition absorb (p next : Pass) (join : list Command) : Pass :=
  let offset := (length (commands p) + length join)%nat in
  let d := depth p in
  mkPass (take_over (color p) (color next))
    (zip_with take_over (extra_color p) (extra_color next))
    (mkDepth (depth_texture_ d) (depth_level_ d) (depth_size_ d) (depth_load_ d) (stencil_load_ d)
       (depth_store next) (stencil_store next)
       (Z.lor (depth_flags_ d) (Z.land (depth_flags next) (Z.lor USED STENCIL_WRITTEN))))
    (viewport p) (commands p ++ join ++ commands next) (leading_blits p)
    (has_counting_visibility p || has_counting_visibility next) (visibility_buffer p)
    (mkColorFlags (WRITES_OBSERVED (color_flags p) || WRITES_OBSERVED (color_flags next))
       (FIRST_DRAW_COVERS (color_flags p)))
    (color_clear_quad_ranges p
     ++ ((λ r, ((r.1 + offset)%nat, (r.2 + offset)%nat)) <$> color_clear_quad_ranges next)).

Fixpoint merge_from (views : Views) (fs : gset Z) (prev : Pass) (rest : list Pass) : list Pass :=
  match rest with
  | [] => [prev]
  | next :: rest' =>
      match merge_join views fs prev next with
      | None => prev :: merge_from views fs next rest'
      | Some join => merge_from views fs (absorb prev next join) rest'
      end
  end.

(** The upload prefix is submitted apart and stays as it is. *)
Definition merge_adjacent_identical_passes (s : PassState) : PassState :=
  let start := upload_pass_end s in
  if (length (passes s) <? start + 2)%nat then s
  else with_passes s
         (take start (passes s) ++
          match drop start (passes s) with
          | prev :: rest => merge_from (texture_view_to_base s) (frame_sampled_textures s) prev rest
          | [] => []
          end).

(** ** The pipeline *)

(** [apply_pass_rules]; [alt] is the side map of no-colour pipelines. *)
Definition apply_pass_rules (alt : gmap Z Z) (frame_continues : bool) (s : PassState) : option PassState :=
  let v := texture_view_to_base s in
  let fs := frame_sampled_textures s in
  let s := with_passes s (drop_overwritten_clear_only_passes v fs (passes s)) in
  let s := with_passes s (coalesce_clear_only_passes v fs (passes s)) in
  let s := finalize_load_actions s in
  let s := finalize_store_actions frame_continues s in
  let s := with_passes s (strip_dead_color <$> passes s) in
  ps ← strip_color_from_no_color_draw_passes alt (passes s);
  let s := with_passes s ps in
  let s := with_passes s (cull_dead (passes s)) in
  let s := merge_adjacent_identical_passes s in
  Some (with_passes s (discard_covered_load <$> passes s)).
