(* ===== verification/PassGpu.v ===== *)
(** What a list of render passes does: the texture memory, the tile a pass works
    in, the encoder state its commands build, and the run of a pass as
    [encode_pass] hands it to Metal: leading blits, load actions, commands,
    store actions, resolves.

    The GPU itself is a class: what a draw writes, what a blit copies, how
    samples resolve.  Its laws state that a draw reads the tile, the textures
    bound on its encoder and the encoder's states, and that a blit
    reads its source and writes its destination.  A texel no one defined is
    [None], so a run is compared with another by [mem_le]: wherever the first
    defines a texel the second holds the same. *)

From S2P Require Import Prelude PassCommands PassData PassRules PassMerge.

(** ** Surfaces, memory, tiles *)

Inductive Plane := ColorPlane | DepthPlane | StencilPlane | CounterPlane.

#[export] Instance Plane_eq : EqDecision Plane.
Proof. solve_decision. Defined.

(** One plane of one subresource ([slice | level << 16]) of a texture's storage. *)
Record Surface := surface { s_texture : Z; s_sub : Z; s_plane : Plane }.

#[export] Instance Surface_eq : EqDecision Surface.
Proof. solve_decision. Defined.

  Abbreviation Texels T := (Z * Z -> option T).
  Abbreviation Mem T := (Surface -> Texels T).

(** The attachments of a pass by their place in the descriptor; the visibility
    buffer its counting draws add to is one of them. *)
Inductive Slot := SlotColor (i : nat) | SlotDepth | SlotStencil | SlotCount.

#[export] Instance Slot_eq : EqDecision Slot.
Proof. solve_decision. Defined.

  Abbreviation Tile T := (Slot -> Texels T).

Definition texels_le {T} (f g : Texels T) : Prop := forall px v, f px = Some v -> g px = Some v.

Definition mem_le {T} (dead : Surface -> Prop) (m1 m2 : Mem T) : Prop :=
  forall s, ~ dead s -> texels_le (m1 s) (m2 s).

Definition tile_le {T} (dead : Slot -> Prop) (t1 t2 : Tile T) : Prop :=
  forall s, ~ dead s -> texels_le (t1 s) (t2 s).

Definition nowhere {A} : A -> Prop := λ _, False.

(** ** The encoder *)

(** What a command sets on the encoder, as [encode_pass] dispatches it. *)
Inductive EncoderSlot :=
  | State (k : CommandType)
  | VertexBufferAt (i : Z) | FragmentBufferAt (i : Z)
  | VertexTextureAt (i : Z) | FragmentTextureAt (i : Z)
  | VertexSamplerAt (i : Z) | FragmentSamplerAt (i : Z).

#[export] Instance EncoderSlot_eq : EqDecision EncoderSlot.
Proof. solve_decision. Defined.

Definition sets (c : Command) : list EncoderSlot :=
  match command_from_repr (cmd c) with
  | Some (SetVertexBytes | SetVertexBytesAt | SetVertexBuffer) => [VertexBufferAt (param_a c)]
  | Some (SetFragmentBytesAt | SetFragmentBuffer) => [FragmentBufferAt (param_a c)]
  | Some SetFragmentTexture => [FragmentTextureAt (param_a c)]
  | Some SetVertexTexture => [VertexTextureAt (param_a c)]
  | Some SetFragmentSamplerState => [FragmentSamplerAt (param_a c)]
  | Some SetVertexSamplerState => [VertexSamplerAt (param_a c)]
  | Some SetFragmentNullTexture => [FragmentTextureAt (param_a c); FragmentSamplerAt (param_a c)]
  | Some SetVertexNullTexture => [VertexTextureAt (param_a c); VertexSamplerAt (param_a c)]
  | Some (DrawPrimitives | DrawIndexedPrimitives | DrawIndexedPrimitivesUp | PushDebugGroup
          | PopDebugGroup) | None => []
  | Some k => [State k]
  end.

(** The command that last set each slot, [None] on a fresh encoder. *)
  Abbreviation Encoder := (EncoderSlot -> option Command).

Definition fresh : Encoder := λ _, None.

Definition set_slots (c : Command) (e : Encoder) : Encoder :=
  λ sl, if bool_decide (sl ∈ sets c) then Some c else e sl.

(** The states of a Metal render encoder that a draw reads.  Metal documents what
    a fresh encoder holds: filled triangles, no depth bias, stencil reference 0,
    a blend colour of zeros and visibility results [Disabled], in which mode the
    offset is not read; a pipeline, viewport, depth-stencil state, cull mode or
    scissor that was never set is [None], Metal's own. *)
Record MetalState := mkMetalState {
  ms_pipeline : option Command; ms_viewport : option Command; ms_depth_stencil : option Command;
  ms_cull : option Command; ms_scissor : option Command;
  ms_fill : Z; ms_bias : Z * Z; ms_stencil_reference : Z; ms_blend_color : Z * Z * Z * Z;
  ms_visibility : option (Z * Z) }.

Definition last_call (k : CommandType) (e : Encoder) : option Command :=
  c ← e (State k); if cmd c =? command_code k then Some c else None.

Definition encoder_state (e : Encoder) : MetalState :=
  mkMetalState (last_call SetRenderPipelineState e) (last_call SetViewport e) (last_call SetDepthStencilState e)
    (last_call SetCullMode e) (last_call SetScissorRect e)
    (from_option param_a 0 (last_call SetTriangleFillMode e))
    (from_option (λ c, (param_a c, param_b c)) (0, 0) (last_call SetDepthBias e))
    (from_option param_a 0 (last_call SetStencilReference e))
    (from_option (λ c, (param_a c, param_b c, param_c c, param_d c)) (0, 0, 0, 0) (last_call SetBlendColor e))
    (c ← last_call SetVisibilityResultMode e; if param_a c =? 0 then None else Some (param_a c, param_b c)).

(** The pipeline bound for the next draw. *)
Definition pipeline (e : Encoder) : option Command := ms_pipeline (encoder_state e).

(** ** The render area *)

(** The smallest extent among the attachments, as [encode_pass] takes it. *)
Definition smaller (a b : Z * Z) : Z * Z := (Z.min a.1 b.1, Z.min a.2 b.2).

Definition bound_sizes (p : Pass) : list (Z * Z) :=
  (size <$> List.filter is_bound (color_slots p))
  ++ (if depth_texture p =? 0 then [] else [depth_size p]).

Definition render_area (p : Pass) : Z * Z := foldr smaller (u64_max, u64_max) (bound_sizes p).

(** What the draws of a pass rasterize into. *)
Record Target := mkTargetViews {
  tv_colors : list (option (Z * Z)); tv_depth : option (Z * Z); tv_area : Z * Z }.

Definition target_of (p : Pass) : Target :=
  mkTargetViews ((λ a, if is_bound a then Some (attachment_texture a, subresource a) else None) <$> color_slots p)
    (if depth_texture p =? 0 then None else Some (depth_texture p, depth_level p)) (render_area p).

(** ** The GPU *)

Class Gpu (T : Type) := {
  draw : Target -> Mem T -> Encoder -> Command -> Tile T -> Tile T;
  blit : BlitCommand -> Mem T -> Mem T;
  resolve : Texels T -> Texels T;
  (** The texel a clear colour leaves, through the view it is written with. *)
  color_texel : Z -> Z * Z * Z * Z -> T;
  depth_texel : Z -> T;
  stencil_texel : Z -> T;
  (** The extent of a plane; there are no texels past it. *)
  plane_extent : Surface -> Z * Z;
  (** The bindings a pipeline's functions declare. *)
  declares : option Command -> EncoderSlot -> bool }.

(** The planes a blit leaves nothing of: a depth transfer writes the whole level,
    a copy the region at its destination's origin. *)
Definition overwrites_whole (views : Views) (b : BlitCommand) (s : Surface) (extent : Z * Z) : Prop :=
  match blit_from_repr (b_cmd b) with
  | Some CopyTextureToTexture =>
      dst_handle b <> 0 /\ s_texture s = storage views (dst_handle b) /\ s_sub s = Z.lor (dst_slice b) (Z.shiftl (dst_mip_level b) 16)
      /\ (s_plane s = ColorPlane \/ s_plane s = DepthPlane) /\ dst_offset b = 0 /\ b_depth b <= 1
      /\ (region_w b, region_h b) = extent
  | Some TransferDepth =>
      dst_handle b <> 0 /\ s_texture s = storage views (dst_handle b) /\ s_sub s = Z.shiftl (dst_mip_level b) 16
      /\ s_plane s = DepthPlane
  | _ => False
  end.

Definition is_binding (sl : EncoderSlot) : Prop := match sl with State _ => False | _ => True end.

(** A surface is read through [tex] when it belongs to the storage [tex] names;
    a visibility buffer is no texture. *)
Definition read_through (views : Views) (dead : Surface -> Prop) (tex : Z) : Prop :=
  exists s, dead s /\ s_texture s = storage views tex /\ s_plane s <> CounterPlane.

Class GpuLaws (T : Type) (views : Views) `{G : Gpu T} : Prop := {
  (** A draw reads the tile and the textures bound on its encoder. *)
  draw_mono tv enc c dead m1 m2 t1 t2 :
    (forall sl b tex, enc sl = Some b -> command_sampled_texture b = Some tex -> ~ read_through views dead tex) ->
    mem_le dead m1 m2 -> tile_le nowhere t1 t2 ->
    tile_le nowhere (draw tv m1 enc c t1) (draw tv m2 enc c t2);
  (** It reads the states of the encoder, and the bindings its pipeline declares. *)
  draw_encoder tv m e1 e2 c t :
    encoder_state e1 = encoder_state e2 ->
    (forall sl, is_binding sl -> declares (pipeline e1) sl = true -> e1 sl = e2 sl) ->
    tile_le nowhere (draw tv m e1 c t) (draw tv m e2 c t);
  (** A blit reads its source, and what it overwrites whole no longer depends
      on what was there. *)
  blit_mono b dead m1 m2 s :
    (forall tex, blit_read_texture b = Some tex -> ~ read_through views dead tex) ->
    mem_le dead m1 m2 ->
    ~ dead s \/ overwrites_whole views b s (plane_extent s) ->
    texels_le (blit b m1 s) (blit b m2 s);
  (** It writes only its destination. *)
  blit_frame b m s :
    (forall tex, blit_written_texture b = Some tex -> s_texture s <> storage views tex) ->
    forall px, blit b m s px = m s px;
  (** Only the blits noted as such write a stencil plane. *)
  blit_stencil_frame b m s :
    blit_writes_stencil b = false -> s_plane s = StencilPlane -> forall px, blit b m s px = m s px;
  resolve_mono f g : texels_le f g -> texels_le (resolve f) (resolve g) }.

(** ** A pass *)

Inductive LoadAction T := LLoad | LClear (v : T) | LDontCare.
Arguments LLoad {T}. Arguments LClear {T} v. Arguments LDontCare {T}.

(** The storage a colour attachment renders into. *)
Definition color_surface (a : PassColorAttachment) : Surface :=
  surface (if msaa_texture a =? 0 then texture a else msaa_texture a) (subresource a) ColorPlane.

Definition depth_surface (p : Pass) : Surface :=
  surface (depth_texture p) (Z.shiftl (depth_level p) 16) DepthPlane.

Definition stencil_surface (p : Pass) : Surface :=
  surface (depth_texture p) (Z.shiftl (depth_level p) 16) StencilPlane.

Definition has_stencil (p : Pass) : bool := contains (depth_flags p) HAS_STENCIL.

(** The surface each slot of a pass is attached to. *)
Definition attached (p : Pass) (sl : Slot) : option Surface :=
  match sl with
  | SlotColor i => a ← color_slots p !! i; if is_bound a then Some (color_surface a) else None
  | SlotDepth => if depth_texture p =? 0 then None else Some (depth_surface p)
  | SlotStencil =>
      if (depth_texture p =? 0) || negb (has_stencil p) then None else Some (stencil_surface p)
  | SlotCount => Some (surface (visibility_buffer p) 0 CounterPlane)
  end.

Definition slots (p : Pass) : list Slot :=
  (SlotColor <$> seq 0 (length (color_slots p))) ++ [SlotDepth; SlotStencil; SlotCount].

(** The slot a surface is attached through. *)
Definition slot_of (p : Pass) (s : Surface) : option Slot :=
  snd <$> list_find (λ sl, attached p sl = Some s) (slots p).

(** The slot whose attachment resolves into a surface. *)
Definition resolves_to (views : Views) (a : PassColorAttachment) : option Surface :=
  if resolve_texture a =? 0 then None
  else Some (surface (storage views (resolve_texture a)) (subresource a) ColorPlane).

Definition resolving (views : Views) (p : Pass) (s : Surface) : option Slot :=
  (λ ia, SlotColor ia.1) <$> list_find (λ a, is_bound a = true /\ resolves_to views a = Some s) (color_slots p).

(** The extent of a slot's attachment. *)
Definition slot_size (p : Pass) (sl : Slot) : Z * Z :=
  match sl with
  | SlotColor i => match color_slots p !! i with Some a => size a | None => (0, 0) end
  | SlotDepth | SlotStencil => depth_size p
  | SlotCount => (0, 0)
  end.

(** The texels of an attachment the pass reaches: all of them when the render
    area covers it, those inside the area otherwise. *)
Definition reaches (p : Pass) (sl : Slot) (px : Z * Z) : bool :=
  extent_covers (render_area p) (slot_size p sl)
  || ((0 <=? px.1) && (px.1 <? (render_area p).1) && (0 <=? px.2) && (px.2 <? (render_area p).2)).

Section Run.
Context {T : Type} `{G : Gpu T} (views : Views).

Definition color_action (a : PassColorAttachment) : LoadAction T :=
  match load a with
  | CLoad => LLoad
  | CClear r g b x => LClear (color_texel (attachment_texture a) (r, g, b, x))
  | CDontCare => LDontCare
  end.

Definition load_action (p : Pass) (sl : Slot) : LoadAction T :=
  match sl with
  | SlotColor i => match color_slots p !! i with Some a => color_action a | None => LDontCare end
  | SlotDepth => match depth_load p with
                 | DLoad => LLoad | DClear v => LClear (depth_texel v) | DDontCare => LDontCare end
  | SlotStencil => match stencil_load p with
                   | SLoad => LLoad | SClear v => LClear (stencil_texel v) | SDontCare => LDontCare end
  | SlotCount => LLoad
  end.

Definition store_action (p : Pass) (sl : Slot) : StoreAction :=
  match sl with
  | SlotColor i => match color_slots p !! i with Some a => store a | None => DontCare end
  | SlotDepth => depth_store p
  | SlotStencil => stencil_store p
  | SlotCount => Store
  end.

(** The tile as the load actions leave it. *)
Definition open_tile (p : Pass) (m : Mem T) : Tile T :=
  λ sl px, match attached p sl with
           | None => None
           | Some s =>
               if reaches p sl px then
                 match load_action p sl with
                 | LLoad => m s px
                 | LClear v => Some v
                 | LDontCare => None
                 end
               else None
           end.

Definition exec (tv : Target) (m : Mem T) (st : Encoder * Tile T) (c : Command) : Encoder * Tile T :=
  if is_draw c then (st.1, draw tv m st.1 c st.2) else (set_slots c st.1, st.2).

Definition run_commands (tv : Target) (m : Mem T) (cs : list Command) (st : Encoder * Tile T)
  : Encoder * Tile T := foldl (exec tv m) st cs.

Definition draws (p : Pass) (m : Mem T) (t : Tile T) : Tile T :=
  (run_commands (target_of p) m (commands p) (fresh, t)).2.

Definition discards_load (p : Pass) (sl : Slot) : bool :=
  match load_action p sl with LDontCare => true | _ => false end.

(** The memory the store actions and the resolves leave.  An action of
    [DontCare] at either end gives up the whole attachment, a stored [Load] or
    [Clear] leaves the texels outside the render area as they were. *)
Definition close_tile (p : Pass) (m : Mem T) (t : Tile T) : Mem T :=
  λ s px,
    match resolving views p s with
    | Some sl => if reaches p sl px then resolve (t sl) px else m s px
    | None =>
        match slot_of p s with
        | Some sl =>
            match store_action p sl with
            | Store => if reaches p sl px then t sl px
                       else if discards_load p sl then None else m s px
            | DontCare => None
            end
        | None => m s px
        end
    end.

Definition run_blits (bs : list BlitCommand) (m : Mem T) : Mem T := foldl (λ m b, blit b m) m bs.

Definition run_render (p : Pass) (m : Mem T) : Mem T := close_tile p m (draws p m (open_tile p m)).

Definition run_pass (p : Pass) (m : Mem T) : Mem T := run_render p (run_blits (leading_blits p) m).

Definition run_passes (ps : list Pass) (m : Mem T) : Mem T := foldl (λ m p, run_pass p m) m ps.
End Run.
