(* ===== verification/PassFacts.v ===== *)
(** Runs of passes compared: the order on memories, what blits and commands do
    to it, and the comparison of two passes that differ in their load and store
    actions only, from which the rules' soundness follows. *)

From S2P Require Import Prelude PassCommands PassData PassRules PassMerge PassGpu.

(** ** The order *)

Lemma texels_le_refl {T} (f : Texels T) : texels_le f f.
Proof. by intros px v. Qed.

Lemma texels_le_trans {T} (f g h : Texels T) : texels_le f g -> texels_le g h -> texels_le f h.
Proof. intros H1 H2 px v Hv. by apply H2, H1. Qed.

Lemma mem_le_refl {T} dead (m : Mem T) : mem_le dead m m.
Proof. intros s _. apply texels_le_refl. Qed.

Lemma mem_le_trans {T} dead (m1 m2 m3 : Mem T) : mem_le dead m1 m2 -> mem_le dead m2 m3 -> mem_le dead m1 m3.
Proof. intros H1 H2 s Hs. eapply texels_le_trans; [by apply H1|by apply H2]. Qed.

Lemma mem_le_weaken {T} (d d' : Surface -> Prop) (m1 m2 : Mem T) :
  (forall s, d s -> d' s) -> mem_le d m1 m2 -> mem_le d' m1 m2.
Proof. intros Hd H s Hs. apply H. auto. Qed.

Lemma tile_le_refl {T} dead (t : Tile T) : tile_le dead t t.
Proof. intros s _. apply texels_le_refl. Qed.

Lemma tile_le_trans {T} dead (t1 t2 t3 : Tile T) : tile_le dead t1 t2 -> tile_le dead t2 t3 -> tile_le dead t1 t3.
Proof. intros H1 H2 s Hs. eapply texels_le_trans; [by apply H1|by apply H2]. Qed.

Lemma tile_le_weaken {T} (d d' : Slot -> Prop) (t1 t2 : Tile T) :
  (forall s, d s -> d' s) -> tile_le d t1 t2 -> tile_le d' t1 t2.
Proof. intros Hd H s Hs. apply H. auto. Qed.

#[export] Hint Resolve texels_le_refl mem_le_refl tile_le_refl : gpu.

(** ** Slots by index *)

Lemma color_slots_0 p : color_slots p !! 0%nat = Some (color p).
Proof. reflexivity. Qed.
Lemma color_slots_S p i : color_slots p !! S i = extra_color p !! i.
Proof. reflexivity. Qed.

Create Rewrite HintDb slots.
#[export] Hint Rewrite color_slots_0 color_slots_S @list_lookup_fmap : slots.

(** ** Shapes

    [erase] forgets the load and store actions: what it leaves decides where
    the slots of a pass are attached and what its commands do. *)

Definition erase_color (a : PassColorAttachment) : PassColorAttachment := set_store (set_load a CDontCare) DontCare.

Definition erase (p : Pass) : Pass :=
  with_depth (with_colors p (erase_color (color p)) (erase_color <$> extra_color p))
    (set_stencil_store (set_depth_store (set_stencil_load (set_depth_load (depth p) DDontCare) SDontCare)
       DontCare) DontCare).

Lemma erase_slots p : color_slots (erase p) = erase_color <$> color_slots p.
Proof. reflexivity. Qed.

Lemma erase_attached p sl : attached (erase p) sl = attached p sl.
Proof.
  destruct sl as [i| | |]; try reflexivity.
  unfold attached. rewrite erase_slots, list_lookup_fmap. by destruct (color_slots p !! i).
Qed.

Lemma erase_slot_list p : slots (erase p) = slots p.
Proof. unfold slots. by rewrite erase_slots, length_fmap. Qed.

Lemma list_find_ext_eq {A} (P Q : A -> Prop) `{!forall x, Decision (P x), !forall x, Decision (Q x)} (l : list A) :
  (forall x, P x <-> Q x) -> list_find P l = list_find Q l.
Proof.
  intros Hext. induction l as [|x l IH]; [done|]. cbn [list_find].
  destruct (decide (P x)) as [Hp|Hp], (decide (Q x)) as [Hq|Hq]; [done|by apply Hext in Hp|by apply Hext in Hq|].
  by rewrite IH.
Qed.

Lemma erase_slot_of p s : slot_of (erase p) s = slot_of p s.
Proof.
  unfold slot_of. rewrite erase_slot_list. f_equal. apply list_find_ext_eq.
  intros sl. by rewrite erase_attached.
Qed.

Lemma erase_resolving views p s : resolving views (erase p) s = resolving views p s.
Proof.
  unfold resolving. rewrite erase_slots, list_find_fmap.
  change (list_find ((λ a, is_bound a = true /\ resolves_to views a = Some s) ∘ erase_color) (color_slots p))
    with (list_find (λ a, is_bound a = true /\ resolves_to views a = Some s) (color_slots p)).
  destruct (list_find _ (color_slots p)) as [[i a]|]; reflexivity.
Qed.

Lemma erase_bound_sizes p : bound_sizes (erase p) = bound_sizes p.
Proof.
  unfold bound_sizes. rewrite erase_slots.
  replace (size <$> List.filter is_bound (erase_color <$> color_slots p))
    with (size <$> List.filter is_bound (color_slots p)); [done|].
  induction (color_slots p) as [|a l IH]; [done|]. cbn [fmap list_fmap List.filter].
  change (is_bound (erase_color a)) with (is_bound a).
  destruct (is_bound a); cbn [fmap list_fmap]; by rewrite IH.
Qed.

Lemma erase_render_area p : render_area (erase p) = render_area p.
Proof. unfold render_area. by rewrite erase_bound_sizes. Qed.

Lemma erase_slot_size p sl : slot_size (erase p) sl = slot_size p sl.
Proof.
  destruct sl as [i| | |]; try reflexivity.
  unfold slot_size. rewrite erase_slots, list_lookup_fmap. by destruct (color_slots p !! i).
Qed.

Lemma erase_reaches p sl px : reaches (erase p) sl px = reaches p sl px.
Proof. unfold reaches. by rewrite erase_render_area, erase_slot_size. Qed.

Lemma erase_target p : target_of (erase p) = target_of p.
Proof.
  unfold target_of. rewrite erase_render_area, erase_slots, <- list_fmap_compose. reflexivity.
Qed.

(** Two passes of one shape. *)
Definition same_shape (p q : Pass) : Prop := erase p = erase q.

Lemma same_shape_attached p q sl : same_shape p q -> attached p sl = attached q sl.
Proof. intros H. by rewrite <- (erase_attached p), H, erase_attached. Qed.
Lemma same_shape_slot_of p q s : same_shape p q -> slot_of p s = slot_of q s.
Proof. intros H. by rewrite <- (erase_slot_of p), H, erase_slot_of. Qed.
Lemma same_shape_resolving views p q s : same_shape p q -> resolving views p s = resolving views q s.
Proof. intros H. by rewrite <- (erase_resolving views p), H, erase_resolving. Qed.
Lemma same_shape_reaches p q sl px : same_shape p q -> reaches p sl px = reaches q sl px.
Proof. intros H. by rewrite <- (erase_reaches p), H, erase_reaches. Qed.
Lemma same_shape_commands p q : same_shape p q -> commands p = commands q.
Proof. intros H. apply (f_equal commands) in H. exact H. Qed.
Lemma same_shape_blits p q : same_shape p q -> leading_blits p = leading_blits q.
Proof. intros H. apply (f_equal leading_blits) in H. exact H. Qed.
Lemma same_shape_target p q : same_shape p q -> target_of p = target_of q.
Proof. intros H. by rewrite <- (erase_target p), H, erase_target. Qed.

Lemma slot_of_attached p s sl : slot_of p s = Some sl -> attached p sl = Some s.
Proof.
  unfold slot_of. intros H. destruct (list_find _ _) as [[i sl']|] eqn:E; [|done].
  injection H as <-. by apply list_find_Some in E as (_ & ? & _).
Qed.

(** ** The encoder a command list builds *)

Definition step_encoder (e : Encoder) (c : Command) : Encoder := if is_draw c then e else set_slots c e.

Definition encoder_after (cs : list Command) (e : Encoder) : Encoder := foldl step_encoder e cs.

Lemma encoder_after_bound cs e sl b : encoder_after cs e sl = Some b -> b ∈ cs \/ e sl = Some b.
Proof.
  revert e. induction cs as [|c cs IH]; intros e H; [by right|].
  unfold encoder_after in H. cbn [foldl] in H.
  apply IH in H as [H|H]; [left; by apply elem_of_cons; right|].
  unfold step_encoder in H. destruct (is_draw c); [by right|].
  unfold set_slots in H. destruct (bool_decide _); [|by right].
  injection H as ->. left. apply elem_of_cons. by left.
Qed.

(** ** The commands of a pass *)

Section Compare.
Context {T : Type} {views : Views} `{L : GpuLaws T views}.

Lemma run_commands_encoder tv m cs e t : (run_commands tv m cs (e, t)).1 = encoder_after cs e.
Proof.
  revert e t. induction cs as [|c cs IH]; intros e t; [done|].
  unfold run_commands, encoder_after, exec, step_encoder. cbn [foldl].
  destruct (is_draw c); cbn [fst snd]; apply IH.
Qed.

Lemma run_commands_app tv m cs1 cs2 st :
  run_commands tv m (cs1 ++ cs2) st = run_commands tv m cs2 (run_commands tv m cs1 st).
Proof. apply foldl_app. Qed.

(** Nothing a list of commands binds for sampling reads a dead surface. *)
Definition samples_none (dead : Surface -> Prop) (cs : list Command) : Prop :=
  forall c tex, c ∈ cs -> command_sampled_texture c = Some tex -> ~ read_through views dead tex.

Definition blits_none (dead : Surface -> Prop) (bs : list BlitCommand) : Prop :=
  forall b tex, b ∈ bs -> blit_read_texture b = Some tex -> ~ read_through views dead tex.

Lemma run_commands_le dead tv m1 m2 cs e t1 t2 :
  samples_none dead cs ->
  (forall sl b tex, e sl = Some b -> command_sampled_texture b = Some tex -> ~ read_through views dead tex) ->
  mem_le dead m1 m2 -> tile_le nowhere t1 t2 ->
  tile_le nowhere (run_commands tv m1 cs (e, t1)).2 (run_commands tv m2 cs (e, t2)).2.
Proof.
  intros Hs He Hm. revert e t1 t2 He. induction cs as [|c cs IH]; intros e t1 t2 He Ht; [done|].
  assert (samples_none dead cs) by (intros c' tex Hc; apply Hs; by apply elem_of_cons; right).
  unfold run_commands, exec. cbn [foldl fst snd]. destruct (is_draw c) eqn:Ed.
  - apply IH; [done|done|]. by apply (draw_mono tv e c dead).
  - apply IH; [done| |done]. intros sl b tex Hb. unfold set_slots in Hb.
    destruct (bool_decide _); [|by apply (He sl)].
    injection Hb as <-. apply Hs. apply elem_of_cons. by left.
Qed.

Lemma draws_le dead p m1 m2 t1 t2 :
  samples_none dead (commands p) -> mem_le dead m1 m2 -> tile_le nowhere t1 t2 ->
  tile_le nowhere (draws p m1 t1) (draws p m2 t2).
Proof. intros Hs Hm Ht. by apply (run_commands_le dead). Qed.

Lemma same_shape_draws p q m t : same_shape p q -> draws p m t = draws q m t.
Proof.
  intros H. unfold draws. by rewrite (same_shape_target p q H), (same_shape_commands p q H).
Qed.

Lemma no_draws p m t : has_draw p = false -> draws p m t = t.
Proof.
  unfold has_draw, draws. intros H.
  assert (forall e, (run_commands (target_of p) m (commands p) (e, t)).2 = t) as ->; [|done].
  revert H. induction (commands p) as [|c cs IH]; intros H e; [done|].
  cbn [existsb] in H. apply orb_false_iff in H as [Hc H].
  unfold run_commands, exec. cbn [foldl]. rewrite Hc. cbn [fst snd]. by apply IH.
Qed.

Lemma run_blits_le dead bs m1 m2 :
  blits_none dead bs -> mem_le dead m1 m2 -> mem_le dead (run_blits bs m1) (run_blits bs m2).
Proof.
  revert m1 m2. induction bs as [|b bs IH]; intros m1 m2 Hb Hm; [done|].
  unfold run_blits. cbn [foldl]. apply IH.
  - intros b' tex Hin. apply Hb. by apply elem_of_cons; right.
  - intros s Hs. apply (blit_mono b dead); [|done|by left].
    intros tex. apply Hb. apply elem_of_cons. by left.
Qed.

Lemma run_blits_untouched bs m s px :
  (forall b tex, b ∈ bs -> blit_written_texture b = Some tex -> s_texture s <> storage views tex) ->
  run_blits bs m s px = m s px.
Proof.
  revert m. induction bs as [|b bs IH]; intros m H; [done|].
  unfold run_blits. cbn [foldl]. fold (run_blits bs (blit b m)).
  rewrite IH; [|intros b' tex Hin; apply H; by apply elem_of_cons; right].
  apply blit_frame. intros tex. apply H. apply elem_of_cons. by left.
Qed.

(** ** A slot's load and a surface's store *)

(** What a load action leaves of the texels of a surface. *)
Definition loaded (a : LoadAction T) (f : Texels T) : Texels T :=
  λ px, match a with LLoad => f px | LClear v => Some v | LDontCare => None end.

Lemma open_tile_eq p (m : Mem T) sl px :
  open_tile p m sl px
  = s ← attached p sl; if reaches p sl px then loaded (load_action p sl) (m s) px else None.
Proof. unfold open_tile, loaded. by destruct (attached p sl). Qed.

Definition covers (p : Pass) (sl : Slot) : bool := extent_covers (render_area p) (slot_size p sl).

Lemma covers_reaches p sl px : covers p sl = true -> reaches p sl px = true.
Proof. unfold covers, reaches. by intros ->. Qed.

(** When a surface left out of [dead'] comes out of two closes in order. *)
Definition closes (dead : Surface -> Prop) (stale : Slot -> Prop) (p q : Pass) (s : Surface) : Prop :=
  match resolving views p s with
  | Some sl => ~ stale sl /\ (~ dead s \/ covers p sl = true)
  | None =>
      match slot_of p s with
      | Some sl =>
          store_action p sl = DontCare
          \/ (store_action q sl = Store /\ ~ stale sl
              /\ (covers p sl = true
                  \/ ~ dead s /\ (discards_load q sl = true -> discards_load p sl = true)))
      | None => ~ dead s
      end
  end.

Lemma close_tile_le dead stale dead' p q m1 m2 t1 t2 :
  same_shape p q -> mem_le dead m1 m2 -> tile_le stale t1 t2 ->
  (forall s, ~ dead' s -> closes dead stale p q s) ->
  mem_le dead' (close_tile views p m1 t1) (close_tile views q m2 t2).
Proof.
  intros Hpq Hm Ht Hc s Hs px v. specialize (Hc s Hs). unfold closes in Hc. unfold close_tile.
  rewrite <- (same_shape_resolving views p q s Hpq), <- (same_shape_slot_of p q s Hpq).
  destruct (resolving views p s) as [sl|].
  - destruct Hc as [Hsl Hd]. rewrite <- (same_shape_reaches p q sl px Hpq).
    destruct (reaches p sl px) eqn:Er.
    + apply resolve_mono. by apply Ht.
    + apply Hm. destruct Hd as [|Hcov]; [done|]. by rewrite covers_reaches in Er.
  - destruct (slot_of p s) as [sl|]; [|by apply Hm].
    destruct Hc as [->|(Hq & Hsl & Hd)]; [done|]. rewrite Hq.
    destruct (store_action p sl); [|done].
    rewrite <- (same_shape_reaches p q sl px Hpq).
    destruct (reaches p sl px) eqn:Er; [by apply Ht|].
    destruct Hd as [Hcov|[Hd Hl]]; [by rewrite covers_reaches in Er|].
    destruct (discards_load p sl); [done|].
    destruct (discards_load q sl); [by specialize (Hl eq_refl)|]. by apply Hm.
Qed.

(** The draws of a pass turn an order off [stale] slots into one off [stale'] slots. *)
Definition carries (stale stale' : Slot -> Prop) (p : Pass) : Prop :=
  forall m t1 t2, tile_le stale t1 t2 -> tile_le stale' (draws p m t1) (draws p m t2).

Lemma carries_nowhere p : carries nowhere nowhere p.
Proof.
  intros m t1 t2 Ht. apply (draws_le nowhere); auto with gpu.
  intros c tex _ _ (s & [] & _).
Qed.

Lemma carries_no_draw stale p : has_draw p = false -> carries stale stale p.
Proof. intros H m t1 t2 Ht. by rewrite !no_draws. Qed.

(** Two render passes of one shape over memories that agree off [dead]. *)
Lemma run_render_sim dead stale stale' dead' p q m1 m2 :
  same_shape p q -> mem_le dead m1 m2 -> samples_none dead (commands p) -> carries stale stale' q ->
  (forall sl s, ~ stale sl -> attached p sl = Some s ->
     texels_le (loaded (load_action p sl) (m1 s)) (loaded (load_action q sl) (m2 s))) ->
  (forall s, ~ dead' s -> closes dead stale' p q s) ->
  mem_le dead' (run_render views p m1) (run_render views q m2).
Proof.
  intros Hpq Hm Hsam Hig Hopen Hclose. unfold run_render.
  eapply (close_tile_le dead stale'); [done|done| |done].
  eapply tile_le_trans; [|apply Hig].
  - eapply (tile_le_weaken nowhere); [intros ? []|].
    unfold draws. rewrite (same_shape_target p q Hpq), <- (same_shape_commands p q Hpq).
    apply (run_commands_le dead); [done|intros ? ? ? [=]|done|apply tile_le_refl].
  - intros sl Hsl px v. rewrite !open_tile_eq, <- (same_shape_attached p q sl Hpq).
    destruct (attached p sl) as [s|] eqn:Ea; cbn; [|done].
    rewrite <- (same_shape_reaches p q sl px Hpq).
    destruct (reaches p sl px); [|done]. by apply Hopen.
Qed.

Lemma run_pass_sim dead stale stale' dead' p q m1 m2 :
  same_shape p q -> mem_le dead m1 m2 ->
  samples_none dead (commands p) -> blits_none dead (leading_blits p) -> carries stale stale' q ->
  (forall sl s, ~ stale sl -> attached p sl = Some s ->
     texels_le (loaded (load_action p sl) (run_blits (leading_blits p) m1 s))
               (loaded (load_action q sl) (run_blits (leading_blits q) m2 s))) ->
  (forall s, ~ dead' s -> closes dead stale' p q s) ->
  mem_le dead' (run_pass views p m1) (run_pass views q m2).
Proof.
  intros Hpq Hm Hsam Hbl Hig Hopen Hclose. unfold run_pass.
  eapply (run_render_sim dead stale stale'); [done| |done..].
  rewrite <- (same_shape_blits p q Hpq). by apply run_blits_le.
Qed.

(** The same pass over memories in order. *)
Lemma run_pass_mono p m1 m2 : mem_le nowhere m1 m2 -> mem_le nowhere (run_pass views p m1) (run_pass views p m2).
Proof.
  intros Hm.
  assert (samples_none nowhere (commands p)) by (intros c tex _ _ (s & [] & _)).
  assert (blits_none nowhere (leading_blits p)) as Hb by (intros c tex _ _ (s & [] & _)).
  apply (run_pass_sim nowhere nowhere nowhere); auto using carries_nowhere.
  - reflexivity.
  - intros sl s _ _ px v. unfold loaded. destruct (load_action p sl); try done.
    apply (run_blits_le nowhere); auto.
  - intros s _. unfold closes. destruct (resolving _ _ _); [split; [intros []|left; intros []]|].
    destruct (slot_of p s) as [sl|]; [|intros []].
    destruct (store_action p sl); [right|by left]. repeat split; [intros []|right]. split; [intros []|done].
Qed.

Lemma run_passes_mono ps m1 m2 : mem_le nowhere m1 m2 -> mem_le nowhere (run_passes views ps m1) (run_passes views ps m2).
Proof.
  revert m1 m2. induction ps as [|p ps IH]; intros m1 m2 Hm; [done|].
  unfold run_passes. cbn [foldl]. apply IH. by apply run_pass_mono.
Qed.

Lemma run_passes_cons p ps m : run_passes views (p :: ps) m = run_passes views ps (run_pass views p m).
Proof. reflexivity. Qed.

Lemma run_passes_app ps qs m : run_passes views (ps ++ qs) m = run_passes views qs (run_passes views ps m).
Proof. apply foldl_app. Qed.

(** A rule that replaces each pass by one that does as much. *)
Lemma run_passes_map (f : Pass -> Pass) ps m :
  (forall p m', p ∈ ps -> mem_le nowhere (run_pass views p m') (run_pass views (f p) m')) ->
  mem_le nowhere (run_passes views ps m) (run_passes views (f <$> ps) m).
Proof.
  revert m. induction ps as [|p ps IH]; intros m H; [apply mem_le_refl|].
  cbn [fmap list_fmap]. rewrite !run_passes_cons. eapply mem_le_trans; [|apply IH].
  - apply run_passes_mono, H. apply elem_of_cons. by left.
  - intros q m' Hq. apply H. apply elem_of_cons. by right.
Qed.
End Compare.

(** * Rules on one pass

    The rules that look at one pass: Rule A's revert, the discard of unused depth
    loads, Rule K and Rule F.  Each leaves every texel the pass defined as it
    was, given that the pass's tags say what its draws do. *)

Section Local.
Context {T : Type} {views : Views} `{L : GpuLaws T views}.

Lemma samples_nowhere cs : @samples_none views nowhere cs.
Proof. intros c tex _ _ (s & [] & _). Qed.

Lemma blits_nowhere bs : @blits_none views nowhere bs.
Proof. intros b tex _ _ (s & [] & _). Qed.

(** One memory, two passes of one shape that store alike off the stale slots. *)
Lemma run_pass_local stale stale' p q m :
  same_shape p q -> carries stale stale' q ->
  (forall sl s, ~ stale sl -> attached p sl = Some s ->
     forall f, texels_le (loaded (load_action p sl) f) (loaded (load_action q sl) f)) ->
  (forall s sl, resolving views p s = Some sl -> ~ stale' sl) ->
  (forall sl, store_action p sl = DontCare
     \/ store_action q sl = Store /\ ~ stale' sl
        /\ (covers p sl = true \/ (discards_load q sl = true -> discards_load p sl = true))) ->
  mem_le nowhere (run_pass views p m) (run_pass views q m).
Proof.
  intros Hpq Hc Hopen Hres Hstore.
  apply (run_pass_sim nowhere stale stale'); auto using samples_nowhere, blits_nowhere, mem_le_refl.
  - intros sl s Hsl Ha. rewrite <- (same_shape_blits p q Hpq). by apply (Hopen sl s).
  - intros s _. unfold closes. destruct (resolving views p s) eqn:E.
    + split; [by eapply Hres|left; intros []].
    + destruct (slot_of p s) as [sl|]; [|intros []].
      destruct (Hstore sl) as [|(? & ? & Hcov)]; [by left|right]. repeat split; auto.
      destruct Hcov; [by left|right]. split; [intros []|done].
Qed.

Lemma resolving_color p s sl : resolving views p s = Some sl -> exists i, sl = SlotColor i.
Proof.
  unfold resolving. destruct (list_find _ _) as [[i a]|]; cbn; [|done]. intros [= <-]. by exists i.
Qed.

(** ** Rule A *)

Lemma finalize_load_shape sampled p : same_shape p (finalize_load sampled p).
Proof.
  unfold same_shape, erase, finalize_load. cbn [color extra_color depth with_depth with_colors].
  assert (forall a, erase_color (revert_color sampled a) = erase_color a) as Hr.
  { intros a. unfold revert_color. destruct (load a); try done. by case_bool_decide. }
  rewrite Hr, <- list_fmap_compose.
  replace (erase_color ∘ _ <$> extra_color p) with (erase_color <$> extra_color p).
  - repeat case_match; reflexivity.
  - apply list_fmap_ext. intros i a _. cbn. destruct (is_bound a); [by rewrite Hr|done].
Qed.

Lemma revert_color_action sampled a :
  color_action (T := T) (revert_color sampled a) = color_action a \/ color_action (T := T) a = LDontCare.
Proof. unfold revert_color, color_action. destruct (load a) eqn:E; rewrite ?E; auto. Qed.

Lemma finalize_depth_load sampled p :
  depth_load (finalize_load sampled p)
  = if depth_discards (depth_load p) && bool_decide (depth_texture p ∈ sampled) then DLoad else depth_load p.
Proof.
  unfold depth_load, depth_texture, finalize_load. cbn [depth with_depth].
  destruct (depth_discards _ && _) eqn:E1; cbn [depth_load_ stencil_load_ depth_texture_ set_depth_load];
    destruct (stencil_discards _ && _); reflexivity.
Qed.

Lemma finalize_stencil_load sampled p :
  stencil_load (finalize_load sampled p)
  = if stencil_discards (stencil_load p) && bool_decide (depth_texture p ∈ sampled) then SLoad else stencil_load p.
Proof.
  unfold stencil_load, depth_texture, finalize_load. cbn [depth with_depth].
  destruct (depth_discards _ && _); cbn [stencil_load_ depth_texture_ set_depth_load];
    destruct (stencil_discards _ && _); reflexivity.
Qed.

Lemma finalize_load_action sampled p sl :
  load_action (finalize_load sampled p) sl = load_action p sl \/ load_action p sl = LDontCare.
Proof.
  destruct sl as [[|i]| | |]; cbn [load_action]; [| | | |by left].
  - apply revert_color_action.
  - rewrite !color_slots_S. cbn [finalize_load extra_color with_depth with_colors].
    rewrite list_lookup_fmap. destruct (extra_color p !! i) as [a|]; cbn; [|by left].
    destruct (is_bound a); [apply revert_color_action|by left].
  - rewrite finalize_depth_load. destruct (depth_load p); cbn [depth_discards andb]; auto.
  - rewrite finalize_stencil_load. destruct (stencil_load p); cbn [stencil_discards andb]; auto.
Qed.

Lemma finalize_store_action sampled p sl : store_action (finalize_load sampled p) sl = store_action p sl.
Proof.
  assert (forall a, store (revert_color sampled a) = store a) as Hr.
  { intros a. unfold revert_color. destruct (load a); try done. by case_bool_decide. }
  destruct sl as [[|i]| | |]; cbn [store_action]; [apply Hr| | | |reflexivity].
  - rewrite !color_slots_S. cbn [finalize_load extra_color with_depth with_colors].
    rewrite list_lookup_fmap. destruct (extra_color p !! i) as [a|]; cbn; [|done].
    destruct (is_bound a); [apply Hr|done].
  - unfold depth_store, finalize_load. cbn [depth with_depth].
    destruct (depth_discards _ && _); destruct (stencil_discards _ && _); reflexivity.
  - unfold stencil_store, finalize_load. cbn [depth with_depth].
    destruct (depth_discards _ && _); destruct (stencil_discards _ && _); reflexivity.
Qed.

Lemma finalize_load_le sampled p m :
  mem_le nowhere (run_pass views p m) (run_pass views (finalize_load sampled p) m).
Proof.
  apply (run_pass_local nowhere nowhere);
    [apply finalize_load_shape|apply carries_nowhere| |intros ? ? _ []|].
  - intros sl s _ _ f. destruct (finalize_load_action sampled p sl) as [->| ->]; [apply texels_le_refl|by intros px v].
  - intros sl. rewrite finalize_store_action. destruct (store_action p sl); [right|by left].
    split; [done|]. split; [intros []|]. right. unfold discards_load.
    by destruct (finalize_load_action sampled p sl) as [->| ->].
Qed.

(** ** Unused depth loads *)

Definition depth_planes (sl : Slot) : Prop := sl = SlotDepth \/ sl = SlotStencil.

(** What a pass that is not tagged [USED] promises of its draws. *)
Definition depth_unused (p : Pass) : Prop :=
  carries depth_planes depth_planes p
  /\ forall m t sl px, depth_planes sl -> draws p m t sl px = t sl px.

Lemma depth_unused_carries stale p :
  depth_unused p -> (forall sl, stale sl -> depth_planes sl) -> carries stale stale p.
Proof.
  intros [Hc Hk] Hs m t1 t2 Ht sl Hsl.
  assert (depth_planes sl \/ ~ depth_planes sl) as [Hd|Hd].
  { unfold depth_planes. destruct sl; auto; right; intros [?|?]; done. }
  - intros px v. rewrite !Hk by done. by apply Ht.
  - apply Hc; [|done]. by eapply tile_le_weaken.
Qed.

Lemma carries_shape stale stale' p q : same_shape p q -> carries stale stale' p -> carries stale stale' q.
Proof. intros Hpq Hc m t1 t2 Ht. rewrite <- !(same_shape_draws p q) by done. by apply Hc. Qed.

Lemma discard_unused_shape p : same_shape p (discard_unused_depth_load p).
Proof.
  unfold same_shape, discard_unused_depth_load.
  destruct (_ || _); [reflexivity|]. destruct (negb _ && _), (_ && _ && _); reflexivity.
Qed.

Lemma discard_unused_store p sl : store_action (discard_unused_depth_load p) sl = store_action p sl.
Proof.
  unfold discard_unused_depth_load. destruct (_ || _); [reflexivity|].
  destruct (negb _ && _), (_ && _ && _), sl; reflexivity.
Qed.

Lemma discard_unused_load p sl :
  load_action (discard_unused_depth_load p) sl = load_action p sl
  \/ depth_planes sl /\ store_action p sl = DontCare /\ contains (depth_flags p) USED = false.
Proof.
  unfold discard_unused_depth_load. destruct (_ || _) eqn:E0; [by left|].
  apply orb_false_iff in E0 as [_ E0].
  destruct sl; try (left; destruct (negb _ && _), (_ && _ && _); reflexivity).
  - destruct (negb (stores (depth_store_ (depth p))) && _) eqn:E1.
    + right. apply andb_true_iff in E1 as [E1 _]. repeat split; [by left| |done].
      cbn. unfold depth_store. by destruct (depth_store_ (depth p)).
    + left. destruct (_ && _ && _); reflexivity.
  - destruct (_ && _ && _) eqn:E2; [right|left; destruct (negb _ && _); reflexivity].
    apply andb_true_iff in E2 as [E2 _]. apply andb_true_iff in E2 as [_ E2].
    repeat split; [by right| |done]. cbn. unfold stencil_store.
    destruct (negb _ && _); cbn in E2; by destruct (stencil_store_ (depth p)).
Qed.

Lemma discard_unused_le p m :
  (contains (depth_flags p) USED = false -> depth_unused p) ->
  mem_le nowhere (run_pass views p m) (run_pass views (discard_unused_depth_load p) m).
Proof.
  intros Hu. set (q := discard_unused_depth_load p).
  destruct (contains (depth_flags p) USED) eqn:EU.
  { replace q with p; [apply mem_le_refl|]. unfold q, discard_unused_depth_load.
    by rewrite EU, orb_true_r. }
  pose (stale := λ sl, depth_planes sl /\ store_action p sl = DontCare).
  apply (run_pass_local stale stale); [apply discard_unused_shape| | | |].
  - eapply carries_shape; [apply discard_unused_shape|].
    apply depth_unused_carries; [by apply Hu|by intros sl [? _]].
  - intros sl s Hsl _ f. unfold q.
    destruct (discard_unused_load p sl) as [->|(? & ? & _)]; [apply texels_le_refl|]. by destruct Hsl.
  - intros s sl Hr [[->| ->] _]; apply resolving_color in Hr as [i Hr]; done.
  - intros sl. destruct (store_action p sl) eqn:E; [|by left]. right. unfold q.
    rewrite discard_unused_store. split; [done|]. split; [intros [_ Hs]; congruence|right].
    unfold discards_load. destruct (discard_unused_load p sl) as [->|(_ & ? & _)]; [done|congruence].
Qed.

(** ** Rule K *)

Definition first_slot (sl : Slot) : Prop := sl = SlotColor 0.

Lemma discard_covered_le p m :
  (FIRST_DRAW_COVERS (color_flags p) = true -> carries first_slot nowhere p) ->
  (color_texture p <> 0 -> covers p (SlotColor 0) = true) ->
  mem_le nowhere (run_pass views p m) (run_pass views (discard_covered_load p) m).
Proof.
  intros Hc Ha. unfold discard_covered_load.
  destruct (FIRST_DRAW_COVERS (color_flags p)) eqn:Ef; cbn [andb]; [|apply mem_le_refl].
  destruct (color_texture p =? 0) eqn:Et; cbn [negb andb]; [apply mem_le_refl|].
  apply Z.eqb_neq in Et. destruct (color_loads (color_load p)); [|apply mem_le_refl].
  set (q := with_colors p _ _). assert (same_shape p q) as Hpq by reflexivity.
  apply (run_pass_local first_slot nowhere); [done| | |intros ? ? _ []|].
  - apply (carries_shape _ _ p); [done|]. by apply Hc.
  - intros sl s Hsl _ f. destruct sl as [[|i]| | |]; try apply texels_le_refl. by destruct Hsl.
  - intros sl. replace (store_action q sl) with (store_action p sl) by (by destruct sl as [[|i]| | |]).
    destruct (store_action p sl); [right|by left]. split; [done|]. split; [intros []|].
    destruct sl as [[|i]| | |]; [left; by apply Ha|by right..].
Qed.

End Local.
