(* ===== verification/PassClearOnly.v ===== *)
(** Passes that draw nothing: what they leave of each surface, the soundness of
    Rule F (a pass that writes nothing goes) and of Rule G (so does a colour
    attachment it leaves unchanged). *)

From S2P Require Import Prelude PassCommands PassData PassRules PassMerge PassGpu PassFacts.

(** No surface is attached twice. *)
Definition distinct_slots (p : Pass) : Prop :=
  forall sl1 sl2 s, attached p sl1 = Some s -> attached p sl2 = Some s -> sl1 = sl2.

(** The render area covers every colour attachment: a depth surface is at least
    as large, and the colour attachments of a pass have one size. *)
Definition area_covers_colors (p : Pass) : Prop :=
  forall i s, attached p (SlotColor i) = Some s -> covers p (SlotColor i) = true.

Lemma attached_slots p sl s : attached p sl = Some s -> sl ∈ slots p.
Proof.
  unfold slots. intros H. apply elem_of_app. destruct sl as [i| | |]; [left|right; set_solver..].
  apply list_elem_of_fmap. exists i. split; [done|]. apply elem_of_seq.
  unfold attached in H. destruct (color_slots p !! i) eqn:E; [|done]. apply lookup_lt_Some in E. lia.
Qed.

Lemma slot_of_None p s : slot_of p s = None <-> forall sl, attached p sl <> Some s.
Proof.
  unfold slot_of. destruct (list_find _ (slots p)) as [[i sl]|] eqn:E; cbn.
  - apply list_find_Some in E as (_ & E & _). split; [done|]. intros H. by apply H in E.
  - split; [|done]. intros _ sl Hsl. apply list_find_None in E.
    rewrite Forall_forall in E. apply (E sl); [by eapply attached_slots|done].
Qed.

Lemma slot_of_Some p s sl : distinct_slots p -> attached p sl = Some s -> slot_of p s = Some sl.
Proof.
  intros Hd Ha. destruct (slot_of p s) as [sl'|] eqn:E.
  - apply slot_of_attached in E. by rewrite (Hd _ _ _ E Ha).
  - by apply slot_of_None with (sl := sl) in E.
Qed.

Lemma extent_covers_refl a : extent_covers a a = true.
Proof. unfold extent_covers. by rewrite !Z.leb_refl. Qed.

Lemma extent_covers_trans a b c : extent_covers a b = true -> extent_covers b c = true -> extent_covers a c = true.
Proof. unfold extent_covers. rewrite !andb_true_iff, !Z.leb_le. lia. Qed.

Lemma smaller_covers_l a b : extent_covers a (smaller a b) = true.
Proof. unfold extent_covers, smaller. cbn. rewrite !andb_true_iff, !Z.leb_le. lia. Qed.
Lemma smaller_covers_r a b : extent_covers b (smaller a b) = true.
Proof. unfold extent_covers, smaller. cbn. rewrite !andb_true_iff, !Z.leb_le. lia. Qed.
Lemma smaller_glb a b c : extent_covers a c = true -> extent_covers b c = true -> extent_covers (smaller a b) c = true.
Proof. unfold extent_covers, smaller. cbn. rewrite !andb_true_iff, !Z.leb_le. lia. Qed.

(** Fewer attachments, a larger area. *)
Lemma area_grows p q : bound_sizes q ⊆ bound_sizes p -> extent_covers (render_area q) (render_area p) = true.
Proof.
  unfold render_area. intros H.
  assert (forall l x, x ∈ l -> extent_covers x (foldr smaller (u64_max, u64_max) l) = true) as Hin.
  { induction l as [|y l IH]; intros x Hx; [by apply not_elem_of_nil in Hx|]. cbn [foldr].
    apply elem_of_cons in Hx as [->|Hx]; [apply smaller_covers_l|].
    eapply extent_covers_trans; [by apply IH|apply smaller_covers_r]. }
  assert (forall l, extent_covers (u64_max, u64_max) (foldr smaller (u64_max, u64_max) l) = true) as Htop.
  { induction l as [|y l IH]; [apply extent_covers_refl|]. cbn [foldr].
    eapply extent_covers_trans; [exact IH|apply smaller_covers_r]. }
  induction (bound_sizes q) as [|x l IH]; cbn [foldr]; [apply Htop|].
  apply smaller_glb; [apply Hin; set_solver|apply IH; set_solver].
Qed.

Lemma reaches_grows p q sl px :
  bound_sizes q ⊆ bound_sizes p -> slot_size q sl = slot_size p sl -> reaches p sl px = true -> reaches q sl px = true.
Proof.
  intros Hb Hs. pose proof (area_grows p q Hb) as Ha. unfold reaches. rewrite Hs, !orb_true_iff.
  intros [Hc|Hc]; [left; by eapply extent_covers_trans|right].
  unfold extent_covers in Ha. rewrite andb_true_iff, !Z.leb_le in Ha.
  rewrite !andb_true_iff, !Z.leb_le, !Z.ltb_lt in *. lia.
Qed.

Section ClearOnly.
Context {T : Type} {views : Views} `{L : GpuLaws T views}.

Lemma clear_only_split p : clear_only p = true -> has_draw p = false /\ leading_blits p = [].
Proof. unfold clear_only. rewrite andb_true_iff, negb_true_iff, bool_decide_eq_true. tauto. Qed.

(** What such a pass leaves of a slot's surface. *)
Definition left_behind (p : Pass) (sl : Slot) (f : Texels T) : Texels T :=
  λ px, match store_action p sl with
        | Store => if reaches p sl px then loaded (load_action p sl) f px
                   else if discards_load p sl then None else f px
        | DontCare => None
        end.

Lemma clear_only_run p m s px :
  clear_only p = true ->
  run_pass views p m s px
  = match resolving views p s with
    | Some sl => if reaches p sl px then resolve (open_tile p m sl) px else m s px
    | None => match slot_of p s with
              | Some sl => left_behind p sl (m s) px
              | None => m s px
              end
    end.
Proof.
  intros H. apply clear_only_split in H as [Hd Hb]. unfold run_pass, run_render. rewrite Hb, no_draws by done.
  unfold close_tile, run_blits. cbn [foldl]. destruct (resolving views p s); [done|].
  destruct (slot_of p s) as [sl|] eqn:E; [|done]. unfold left_behind.
  destruct (store_action p sl); [|done]. rewrite open_tile_eq, (slot_of_attached p s sl E). cbn.
  by destruct (reaches p sl px).
Qed.

(** Whether a slot's surface comes out changed. *)
Definition slot_written (p : Pass) (sl : Slot) : bool :=
  match load_action p sl with LClear _ => stores (store_action p sl) | _ => false end.

Lemma left_behind_le p sl f : slot_written p sl = false -> texels_le (left_behind p sl f) f.
Proof.
  unfold slot_written, left_behind. intros H px v. destruct (store_action p sl); [|done].
  unfold loaded, discards_load. destruct (load_action p sl); [|done|].
  - by destruct (reaches p sl px).
  - by destruct (reaches p sl px).
Qed.

Lemma color_slot_written p i a :
  color_slots p !! i = Some a -> written_without_draws a = false -> slot_written p (SlotColor i) = false.
Proof.
  intros Hi H. apply orb_false_iff in H as [H _]. unfold slot_written. cbn [load_action store_action].
  rewrite Hi. unfold color_action, clear_is_stored in *. by destruct (load a).
Qed.

Lemma unwritten_resolves views' p s :
  (forall a, a ∈ color_slots p -> is_bound a = true -> resolve_texture a = 0) -> resolving views' p s = None.
Proof.
  intros H. unfold resolving. destruct (list_find _ _) as [[i a]|] eqn:E; [|done].
  apply list_find_Some in E as (Hi & [Hb Hr] & _). apply list_elem_of_lookup_2 in Hi.
  unfold resolves_to in Hr. by rewrite (H a Hi Hb) in Hr.
Qed.

(** ** Rule F *)

Lemma color_slots_written p i a :
  pass_writes p = false -> color_slots p !! i = Some a -> is_bound a = true -> written_without_draws a = false.
Proof.
  unfold pass_writes. rewrite !orb_false_iff. intros [[H1 H2] _] Hi Hb. destruct i as [|i].
  - rewrite color_slots_0 in Hi. injection Hi as <-. apply andb_false_iff in H1 as [H1|H1]; [|done].
    unfold is_bound in Hb. unfold color_texture in H1. congruence.
  - rewrite color_slots_S in Hi. destruct (written_without_draws a) eqn:E; [|done].
    apply list_elem_of_lookup_2, list_elem_of_In in Hi.
    assert (existsb (λ a, is_bound a && written_without_draws a) (extra_color p) = true) as Hx
        by (apply existsb_exists; exists a; rewrite Hb, E; auto).
    by rewrite Hx in H2.
Qed.

Lemma depth_slots_written p sl :
  depth_written_without_draws p = false -> depth_planes sl -> is_Some (attached p sl) -> slot_written p sl = false.
Proof.
  unfold depth_written_without_draws. intros H Hsl [s Ha].
  destruct (depth_texture p =? 0) eqn:Et; [by destruct Hsl as [->| ->]; cbn in Ha; rewrite Et in Ha|].
  cbn [negb andb] in H. apply orb_false_iff in H as [H1 H2]. unfold slot_written, clear_is_stored in *.
  destruct Hsl as [->| ->]; cbn [load_action store_action].
  - by destruct (depth_load p).
  - cbn in Ha. rewrite Et in Ha. unfold has_stencil in Ha. destruct (contains _ _); [|done].
    by destruct (stencil_load p).
Qed.

Lemma cull_pass_le p m : keeps_pass p = false -> mem_le nowhere (run_pass views p m) m.
Proof.
  unfold keeps_pass. rewrite orb_false_iff, negb_false_iff. intros [Hc Hw] s _ px v.
  rewrite clear_only_run by done. rewrite unwritten_resolves.
  - destruct (slot_of p s) as [sl|] eqn:E; [|done]. apply left_behind_le. apply slot_of_attached in E.
    destruct sl as [i| | |]; [| | |done].
    + cbn in E. destruct (color_slots p !! i) as [a|] eqn:Hi; [|done]. cbn in E.
      destruct (is_bound a) eqn:Hb; [|done]. eapply color_slot_written; [done|]. by eapply color_slots_written.
    + apply depth_slots_written; [|by left|eauto]. by apply orb_false_iff in Hw as [_ Hw].
    + apply depth_slots_written; [|by right|eauto]. by apply orb_false_iff in Hw as [_ Hw].
  - intros a Ha Hb. apply list_elem_of_lookup in Ha as [i Ha].
    pose proof (color_slots_written p i a Hw Ha Hb) as H. apply orb_false_iff in H as [_ H].
    apply negb_false_iff, Z.eqb_eq in H. done.
Qed.

Lemma cull_dead_le ps m : mem_le nowhere (run_passes views ps m) (run_passes views (cull_dead ps) m).
Proof.
  revert m. induction ps as [|p ps IH]; intros m; [apply mem_le_refl|]. cbn [cull_dead List.filter].
  fold (cull_dead ps). destruct (keeps_pass p) eqn:E; rewrite run_passes_cons; [rewrite run_passes_cons; apply IH|].
  eapply mem_le_trans; [apply run_passes_mono; by apply cull_pass_le|apply IH].
Qed.
(** ** Rule G *)

(** A depth or stencil clear that stops short of its surface finds the clear
    value outside: the depth-only pass before it cleared the whole surface. *)
Definition holds (f : Texels T) (v : T) : Prop := forall px x, f px = Some x -> x = v.

Definition ready (m : Mem T) (p : Pass) : Prop :=
  forall sl s v, depth_planes sl -> attached p sl = Some s -> load_action p sl = LClear v ->
    covers p sl = true \/ holds (m s) v.

Lemma strip_slot p i a :
  color_slots p !! i = Some a ->
  exists a', color_slots (strip_dead_color p) !! i = Some a'
    /\ (a' = a \/ is_bound a' = false /\ is_bound a = true /\ written_without_draws a = false).
Proof.
  intros Hi. unfold strip_dead_color. destruct (clear_only p); cbn [negb]; [|by exists a; auto].
  set (e := _ <$> extra_color p).
  assert (forall j b c, extra_color p !! j = Some b ->
            exists b', color_slots (with_colors p c e) !! S j = Some b'
              /\ (b' = b \/ is_bound b' = false /\ is_bound b = true /\ written_without_draws b = false)) as He.
  { intros j b c Hj. rewrite color_slots_S. cbn [with_colors extra_color]. unfold e.
    rewrite list_lookup_fmap, Hj. cbn [fmap option_fmap option_map]. eexists. split; [done|].
    destruct (is_bound b); cbn; [|by left]. destruct (written_without_draws b); cbn; [by left|by right]. }
  destruct i as [|i]; [|rewrite color_slots_S in Hi; destruct (negb _ && _ && _); by apply He].
  rewrite color_slots_0 in Hi. injection Hi as <-.
  change (color_texture (with_colors p (color p) e)) with (color_texture p).
  change (color_written_without_draws (with_colors p (color p) e)) with (color_written_without_draws p).
  destruct (negb (color_texture p =? 0) && negb (color_written_without_draws p) && _) eqn:E; eexists; (split; [done|]);
    [right|by left].
  apply andb_true_iff in E as [E _]. apply andb_true_iff in E as [E1 E2].
  unfold color_written_without_draws in E2. rewrite E1 in E2. cbn [andb] in E2. apply negb_true_iff in E2.
  repeat split; done.
Qed.

Lemma strip_length p : length (color_slots (strip_dead_color p)) = length (color_slots p).
Proof.
  unfold strip_dead_color. destruct (negb (clear_only p)); [done|].
  destruct (_ && _ && _); cbn; by rewrite length_fmap.
Qed.

Lemma strip_slot_inv p i a' :
  color_slots (strip_dead_color p) !! i = Some a' -> is_bound a' = true -> color_slots p !! i = Some a'.
Proof.
  intros Hi Hb. destruct (lookup_lt_is_Some_2 (color_slots p) i) as [a Ha].
  { apply lookup_lt_Some in Hi. by rewrite <- strip_length. }
  destruct (strip_slot p i a Ha) as (b & Hb' & [->|(Hn & _)]); [by rewrite Hi in Hb'; injection Hb' as ->|].
  rewrite Hi in Hb'. injection Hb' as <-. congruence.
Qed.

Lemma strip_depth p : depth (strip_dead_color p) = depth p.
Proof. unfold strip_dead_color. destruct (negb (clear_only p)); [done|]. by destruct (_ && _ && _). Qed.

Lemma strip_visibility p : visibility_buffer (strip_dead_color p) = visibility_buffer p.
Proof. unfold strip_dead_color. destruct (negb (clear_only p)); [done|]. by destruct (_ && _ && _). Qed.

Lemma strip_clear_only p : clear_only (strip_dead_color p) = clear_only p.
Proof.
  unfold strip_dead_color. destruct (clear_only p) eqn:E; cbn [negb]; [|done].
  by destruct (_ && _ && _).
Qed.

(** A slot of the stripped pass is the slot of the pass it was. *)
Lemma strip_attached p sl s : attached (strip_dead_color p) sl = Some s -> attached p sl = Some s.
Proof.
  destruct sl as [i| | |]; cbn [attached].
  - destruct (color_slots (strip_dead_color p) !! i) as [a|] eqn:E; [|done]. cbn.
    destruct (is_bound a) eqn:Hb; [|done]. by rewrite (strip_slot_inv p i a E Hb); cbn; rewrite Hb.
  - unfold depth_texture, depth_surface, depth_texture, depth_level. by rewrite strip_depth.
  - unfold depth_texture, has_stencil, depth_flags, stencil_surface, depth_texture, depth_level. by rewrite strip_depth.
  - by rewrite strip_visibility.
Qed.

Lemma strip_slot_same p sl s :
  attached (strip_dead_color p) sl = Some s ->
  load_action (strip_dead_color p) sl = load_action p sl
  /\ store_action (strip_dead_color p) sl = store_action p sl
  /\ slot_size (strip_dead_color p) sl = slot_size p sl.
Proof.
  destruct sl as [i| | |]; cbn [attached load_action store_action slot_size].
  - destruct (color_slots (strip_dead_color p) !! i) as [a|] eqn:E; [|done]. cbn.
    destruct (is_bound a) eqn:Hb; [|done]. intros _. by rewrite (strip_slot_inv p i a E Hb).
  - intros _. unfold depth_load, depth_store, depth_size. by rewrite strip_depth.
  - intros _. unfold stencil_load, stencil_store, depth_size. by rewrite strip_depth.
  - done.
Qed.

Lemma strip_bound_sizes p : bound_sizes (strip_dead_color p) ⊆ bound_sizes p.
Proof.
  unfold bound_sizes, depth_texture, depth_size. rewrite strip_depth. intros x Hx.
  apply elem_of_app in Hx as [Hx|Hx]; apply elem_of_app; [left|by right].
  apply list_elem_of_fmap in Hx as (a & -> & Ha). apply list_elem_of_fmap. exists a. split; [done|].
  apply list_elem_of_In, List.filter_In in Ha as [Ha Hb]. apply list_elem_of_In, List.filter_In. split; [|done].
  apply list_elem_of_In, list_elem_of_lookup in Ha as [i Ha]. apply list_elem_of_In.
  by eapply list_elem_of_lookup_2, strip_slot_inv.
Qed.

Lemma list_find_pointwise {A} (P : A -> Prop) `{!forall x, Decision (P x)} (l k : list A) :
  length l = length k -> (forall i x y, l !! i = Some x -> k !! i = Some y -> (P x <-> P y)) ->
  fst <$> list_find P l = fst <$> list_find P k.
Proof.
  revert k. induction l as [|x l IH]; intros [|y k] Hlen Hp; [done..|]. cbn [list_find].
  specialize (IH k ltac:(by injection Hlen) (λ i, Hp (S i))).
  pose proof (Hp 0%nat x y eq_refl eq_refl) as H0.
  destruct (decide (P x)), (decide (P y)); try tauto.
  destruct (list_find P l) as [[]|], (list_find P k) as [[]|]; cbn in *; congruence.
Qed.

Lemma strip_resolving p s : resolving views (strip_dead_color p) s = resolving views p s.
Proof.
  unfold resolving.
  pose proof (list_find_pointwise (λ a, is_bound a = true /\ resolves_to views a = Some s)
                (color_slots (strip_dead_color p)) (color_slots p) (strip_length p)) as H.
  match type of H with ?P -> _ => assert P as Hp end.
  - intros i x y Hx Hy. destruct (strip_slot p i y Hy) as (z & Hz & [->|(Hz0 & Hy1 & Hw)]);
      rewrite Hx in Hz; injection Hz as ->; [done|].
    apply orb_false_iff in Hw as [_ Hw]. apply negb_false_iff in Hw.
    unfold resolves_to. rewrite Hw, Hz0. split; intros [? ?]; done.
  - specialize (H Hp). destruct (list_find _ (color_slots (strip_dead_color p))) as [[]|],
      (list_find _ (color_slots p)) as [[]|]; cbn in *; congruence.
Qed.

(** What is left of a slot both passes attach; the stripped pass reaches at least as far. *)
Lemma strip_left_behind p m sl s :
  area_covers_colors p -> ready m p -> attached (strip_dead_color p) sl = Some s ->
  texels_le (left_behind p sl (m s)) (left_behind (strip_dead_color p) sl (m s)).
Proof.
  intros Hac Hr Hq px v. pose proof (strip_attached p sl s Hq) as Hp.
  destruct (strip_slot_same p sl s Hq) as (Hl & Hs & Hz).
  unfold left_behind, discards_load. rewrite Hl, Hs. destruct (store_action p sl); [|done].
  destruct (reaches p sl px) eqn:Er.
  { by rewrite (reaches_grows p _ sl px (strip_bound_sizes p) Hz Er). }
  destruct (reaches (strip_dead_color p) sl px) eqn:Eq; [|done].
  destruct (load_action p sl) eqn:El; cbn [loaded]; [done| |done].
  destruct sl as [i| | |]; [by rewrite (covers_reaches p _ px (Hac i s Hp)) in Er| | |done].
  - destruct (Hr SlotDepth s _ ltac:(by left) Hp El) as [Hc|Hh]; [by rewrite covers_reaches in Er|].
    unfold loaded. intros Hm. f_equal. symmetry. by apply (Hh px).
  - destruct (Hr SlotStencil s _ ltac:(by right) Hp El) as [Hc|Hh]; [by rewrite covers_reaches in Er|].
    unfold loaded. intros Hm. f_equal. symmetry. by apply (Hh px).
Qed.

Lemma strip_dead_color_le p m :
  distinct_slots p -> area_covers_colors p -> ready m p ->
  mem_le nowhere (run_pass views p m) (run_pass views (strip_dead_color p) m).
Proof.
  intros Hd Hac Hr. destruct (clear_only p) eqn:Hc.
  2:{ unfold strip_dead_color. rewrite Hc. apply mem_le_refl. }
  intros s _ px v. rewrite !clear_only_run by (by rewrite ?strip_clear_only). rewrite strip_resolving.
  destruct (resolving views p s) as [sl|] eqn:Er.
  - unfold resolving in Er. destruct (list_find _ _) as [[i a]|] eqn:E; [|done]. injection Er as <-.
    apply list_find_Some in E as (Hi & [Hb Hrs] & _).
    assert (color_slots (strip_dead_color p) !! i = Some a) as Hi'.
    { destruct (strip_slot p i a Hi) as (b & Hbi & [->|(_ & _ & Hw)]); [done|].
      apply orb_false_iff in Hw as [_ Hw]. apply negb_false_iff in Hw.
      unfold resolves_to in Hrs. by rewrite Hw in Hrs. }
    assert (attached p (SlotColor i) = Some (color_surface a)) as Ha by (cbn [attached]; rewrite Hi; cbn; by rewrite Hb).
    assert (attached (strip_dead_color p) (SlotColor i) = Some (color_surface a)) as Ha'
        by (cbn [attached]; rewrite Hi'; cbn; by rewrite Hb).
    destruct (strip_slot_same p (SlotColor i) _ Ha') as (Hl & _ & Hz).
    assert (forall px, reaches p (SlotColor i) px = true) as Hre by (intros; by eapply covers_reaches, Hac).
    assert (forall px, reaches (strip_dead_color p) (SlotColor i) px = true) as Hre'
        by (intros; by eapply reaches_grows; [apply strip_bound_sizes| |apply Hre]).
    rewrite Hre, Hre'. apply resolve_mono. intros px' v'.
    by rewrite !open_tile_eq, Ha, Ha', Hre, Hre', Hl.
  - destruct (slot_of p s) as [sl|] eqn:Es.
    + apply slot_of_attached in Es as Ea.
      destruct (slot_of (strip_dead_color p) s) as [sl'|] eqn:Es'.
      * apply slot_of_attached in Es' as Eq. rewrite (Hd _ _ s Ea (strip_attached p sl' s Eq)).
        by apply strip_left_behind.
      * apply left_behind_le. destruct sl as [i| | |].
        -- cbn in Ea. destruct (color_slots p !! i) as [a|] eqn:Hi; [|done]. cbn in Ea.
           destruct (is_bound a) eqn:Hb; [|done]. eapply color_slot_written; [done|].
           destruct (strip_slot p i a Hi) as (b & Hbi & [->|(_ & _ & Hw)]); [|done].
           apply slot_of_None with (sl := SlotColor i) in Es'. cbn in Es'. rewrite Hbi in Es'. cbn in Es'.
           by rewrite Hb in Es'.
        -- apply slot_of_None with (sl := SlotDepth) in Es'. cbn in Es', Ea.
           unfold depth_texture, depth_surface, depth_texture, depth_level in Es', Ea. by rewrite strip_depth in Es'.
        -- apply slot_of_None with (sl := SlotStencil) in Es'. cbn in Es', Ea.
           unfold depth_texture, has_stencil, depth_flags, stencil_surface, depth_texture, depth_level in Es', Ea.
           by rewrite strip_depth in Es'.
        -- apply slot_of_None with (sl := SlotCount) in Es'. cbn in Es', Ea. by rewrite strip_visibility in Es'.
    + destruct (slot_of (strip_dead_color p) s) as [sl'|] eqn:Es'; [|done].
      apply slot_of_attached, strip_attached in Es'. by apply slot_of_None with (sl := sl') in Es.
Qed.
End ClearOnly.

(** What the recorder guarantees of the passes it hands to the rules: which
    textures are read and where that is noted, that attachments name storage
    rather than views, what the tags of a pass say of its draws.  A rule that
    changes load and store actions only keeps all of it. *)

(** [companion] takes a texture to what a pass attaches for it: its multisampled
    companion if it has one, itself otherwise; [planes] says which depth textures
    have a stencil plane. *)
Definition no_companion (companion : Z -> Z) (t : Z) : Prop := forall u, companion u = t -> u = t.

Section Wf.
Context {T : Type} {views : Views} `{L : GpuLaws T views} (companion : Z -> Z) (planes : Z -> bool).

Record pass_wf (seen sampled : gset Z) (p : Pass) : Prop := {
  wf_distinct : distinct_slots p;
  wf_area : area_covers_colors p;
  (** render targets 1 to 3 *)
  wf_extras : length (extra_color p) = 3%nat;
  (** a target with a companion is attached through it *)
  wf_companion a : a ∈ color_slots p -> is_bound a = true -> (color_surface a).(s_texture) = companion (texture a);
  (** attachments are known by the texture that owns the storage *)
  wf_color_base a : a ∈ color_slots p -> is_bound a = true ->
    storage views (texture a) = texture a /\ no_companion companion (texture a);
  wf_depth_base : depth_texture p <> 0 ->
    storage views (depth_texture p) = depth_texture p /\ no_companion companion (depth_texture p);
  wf_depth_planes : depth_texture p <> 0 -> has_stencil p = planes (depth_texture p);
  wf_depth_size : extent_covers (u64_max, u64_max) (depth_size p) = true;
  (** [emit_command] notes what a bind samples *)
  wf_samples c tex : c ∈ commands p -> command_sampled_texture c = Some tex ->
    tex ∈ sampled /\ storage views tex ∈ sampled
    /\ storage views tex ∈ seen /\ no_companion companion (storage views tex);
  (** [push_pending_leading_blit] notes what a blit reads *)
  wf_blit_reads b tex : b ∈ leading_blits p -> blit_read_texture b = Some tex ->
    storage views tex ∈ seen /\ no_companion companion (storage views tex);
  (** a blit writes a texture by its storage *)
  wf_blit_writes b tex : b ∈ leading_blits p -> blit_written_texture b = Some tex ->
    storage views tex = tex /\ no_companion companion tex;
  (** a resolve goes from the companion to the texture, or a view of it *)
  wf_resolves a : a ∈ color_slots p -> resolve_texture a <> 0 ->
    is_bound a = true /\ msaa_texture a <> 0 /\ storage views (resolve_texture a) = texture a;
  (** the tags *)
  wf_unused : contains (depth_flags p) USED = false -> depth_unused p;
  wf_covers : FIRST_DRAW_COVERS (color_flags p) = true -> carries first_slot nowhere p;
  wf_stencil_kept : contains (depth_flags p) STENCIL_WRITTEN = false ->
    forall m t px, draws p m t SlotStencil px = t SlotStencil px;
  (** an attachment's extent is that of the level it names *)
  wf_extents a : a ∈ color_slots p -> is_bound a = true -> size a = plane_extent (color_surface a);
  wf_depth_extent : depth_texture p <> 0 -> depth_size p = plane_extent (depth_surface p) }.

Lemma same_shape_covers p q sl : same_shape p q -> covers p sl = covers q sl.
Proof.
  intros H. unfold covers. rewrite <- (erase_render_area p), <- (erase_slot_size p), H.
  by rewrite erase_render_area, erase_slot_size.
Qed.

(** A property of the slots that does not look at loads and stores. *)
Lemma same_shape_slots p q (P : PassColorAttachment -> Prop) :
  same_shape p q -> (forall a, P (erase_color a) <-> P a) ->
  (forall a, a ∈ color_slots p -> P a) -> forall a, a ∈ color_slots q -> P a.
Proof.
  intros H HP Hp a Ha. apply HP.
  assert (erase_color a ∈ erase_color <$> color_slots q) as Hin by (apply list_elem_of_fmap; eauto).
  rewrite <- erase_slots, <- H, erase_slots in Hin. apply list_elem_of_fmap in Hin as (b & Hb & Hin).
  rewrite Hb. apply HP. by apply Hp.
Qed.

Lemma same_shape_depth p q : same_shape p q ->
  depth_texture p = depth_texture q /\ depth_level p = depth_level q /\ depth_size p = depth_size q
  /\ depth_flags p = depth_flags q.
Proof.
  intros H. apply (f_equal depth) in H.
  repeat split; [exact (f_equal depth_texture_ H)|exact (f_equal depth_level_ H)
                |exact (f_equal depth_size_ H)|exact (f_equal depth_flags_ H)].
Qed.

Lemma same_shape_flags p q : same_shape p q ->
  color_flags p = color_flags q /\ visibility_buffer p = visibility_buffer q /\ length (extra_color p) = length (extra_color q).
Proof.
  intros H. split; [by apply (f_equal color_flags) in H|]. split; [by apply (f_equal visibility_buffer) in H|].
  apply (f_equal extra_color) in H. cbn in H. apply (f_equal length) in H. by rewrite !length_fmap in H.
Qed.

Lemma pass_wf_shape seen sampled p q : same_shape p q -> pass_wf seen sampled p -> pass_wf seen sampled q.
Proof.
  intros H W. destruct (same_shape_depth p q H) as (Ht & Hl & Hsz & Hf).
  destruct (same_shape_flags p q H) as (Hc & _ & Hlen). split.
  - intros sl1 sl2 s. rewrite <- !(same_shape_attached p q) by done. apply W.
  - intros i s Ha. rewrite <- (same_shape_attached p q) in Ha by done. rewrite <- (same_shape_covers p q) by done.
    by apply (wf_area _ _ _ W i s).
  - rewrite <- Hlen. apply W.
  - apply (same_shape_slots p q (λ a, is_bound a = true -> s_texture (color_surface a) = companion (texture a)));
      [done|done|apply W].
  - apply (same_shape_slots p q (λ a, is_bound a = true ->
      storage views (texture a) = texture a /\ no_companion companion (texture a))); [done|done|apply W].
  - rewrite <- Ht. apply W.
  - unfold has_stencil. rewrite <- Ht, <- Hf. apply W.
  - rewrite <- Hsz. apply W.
  - rewrite <- (same_shape_commands p q) by done. apply W.
  - rewrite <- (same_shape_blits p q) by done. apply W.
  - rewrite <- (same_shape_blits p q) by done. apply W.
  - apply (same_shape_slots p q (λ a, resolve_texture a <> 0 -> is_bound a = true /\ msaa_texture a <> 0
      /\ storage views (resolve_texture a) = texture a)); [done|done|apply W].
  - rewrite <- Hf. intros HU. destruct (wf_unused _ _ _ W HU) as [Hca Hk]. split; [by eapply carries_shape|].
    intros m t sl px Hsl. rewrite <- (same_shape_draws p q) by done. by apply Hk.
  - rewrite <- Hc. intros HU. eapply carries_shape; [done|]. by apply (wf_covers _ _ _ W).
  - rewrite <- Hf. intros HU m t px. rewrite <- (same_shape_draws p q) by done. by apply (wf_stencil_kept _ _ _ W).
  - apply (same_shape_slots p q (λ a, is_bound a = true -> size a = plane_extent (color_surface a))); [done|done|apply W].
  - unfold depth_surface. rewrite <- Ht, <- Hsz, <- Hl. apply (wf_depth_extent _ _ _ W).
Qed.

(** ** Reading *)

(** A dead surface no texture noted as read belongs to is not read. *)
Lemma wf_samples_none seen sampled dead p :
  pass_wf seen sampled p ->
  (forall s, dead s -> no_companion companion (s_texture s) -> s_texture s ∉ seen \/ commands_sample_texture p (s_texture s) views = false) ->
  @samples_none views dead (commands p).
Proof.
  intros W Hd c tex Hc Hs (s & Hdead & Heq & _).
  destruct (wf_samples _ _ _ W c tex Hc Hs) as (_ & _ & Hin & Hno). rewrite <- Heq in Hin, Hno.
  destruct (Hd s Hdead Hno) as [|Hn]; [done|].
  unfold commands_sample_texture in Hn. apply not_true_iff_false in Hn. apply Hn, existsb_exists.
  exists c. split; [by apply list_elem_of_In|]. rewrite Hs. by apply storage_names.
Qed.

Lemma wf_blits_none seen sampled dead p :
  pass_wf seen sampled p ->
  (forall s, dead s -> no_companion companion (s_texture s) -> s_texture s ∉ seen
     \/ existsb (λ b, match blit_read_texture b with Some t => names views t (s_texture s) | None => false end)
          (leading_blits p) = false) ->
  @blits_none views dead (leading_blits p).
Proof.
  intros W Hd b tex Hb Hs (s & Hdead & Heq & _).
  destruct (wf_blit_reads _ _ _ W b tex Hb Hs) as (Hin & Hno). rewrite <- Heq in Hin, Hno.
  destruct (Hd s Hdead Hno) as [|Hn]; [done|]. apply not_true_iff_false in Hn. apply Hn, existsb_exists.
  exists b. split; [by apply list_elem_of_In|]. rewrite Hs. by apply storage_names.
Qed.

(** What the source asserts: a texture missing from the submission's sampled
    set is sampled by no pass. *)
Lemma sampled_noted seen sampled p t :
  pass_wf seen sampled p -> commands_sample_texture p t views = true -> t ∈ sampled.
Proof.
  intros W Hs. apply existsb_exists in Hs as (c & Hc & Hs). apply list_elem_of_In in Hc.
  destruct (command_sampled_texture c) as [tex|] eqn:E; [|done].
  destruct (wf_samples _ _ _ W c tex Hc E) as (H1 & H2 & _).
  unfold names in Hs. apply orb_true_iff in Hs as [Hs|Hs]; [by apply Z.eqb_eq in Hs as <-|].
  apply bool_decide_eq_true in Hs. unfold storage in H2. by rewrite Hs in H2.
Qed.

Lemma pass_samples_eq seen sampled p t :
  pass_wf seen sampled p -> t <> 0 -> pass_samples_texture p t views sampled = commands_sample_texture p t views.
Proof.
  intros W Ht. unfold pass_samples_texture. rewrite (proj2 (Z.eqb_neq t 0) Ht).
  case_bool_decide as Hin; [done|]. symmetry. apply not_true_iff_false. intros Hs. by eapply Hin, sampled_noted.
Qed.

Lemma pass_reads_false seen sampled p t :
  pass_wf seen sampled p -> t <> 0 -> pass_reads_texture p t views sampled = false ->
  commands_sample_texture p t views = false
  /\ existsb (λ b, match blit_read_texture b with Some u => names views u t | None => false end)
       (leading_blits p) = false.
Proof.
  intros W Ht. unfold pass_reads_texture. rewrite (proj2 (Z.eqb_neq t 0) Ht).
  rewrite (pass_samples_eq seen) by done. destruct (commands_sample_texture p t views); [done|]. tauto.
Qed.
End Wf.
