(* ===== verification/PassColorStores.v ===== *)
(** Rule C on colour: the store of a target whose next use clears it is
    discarded, and no texel the run defines at its end is lost.

    The map the rule carries back to front is a liveness analysis: a target it
    maps to a [Clear] is dead before the passes it was built from, so two
    memories that agree off the dead targets end in order. *)

From S2P Require Import Prelude PassCommands PassData PassRules PassMerge PassGpu PassFacts PassClearOnly.

Section ColorStores.
Context {T : Type} {views : Views} `{L : GpuLaws T views} (companion : Z -> Z) (planes : Z -> bool)
  (seen sampled : gset Z).
Hypothesis companion_inj : forall t u, companion t = companion u -> t = u.

  Abbreviation wf := (pass_wf (views := views) companion planes seen sampled).

Definition key (a : PassColorAttachment) : Z * Z := (texture a, subresource a).

Definition cleared_next (next : NextColorUse) (k : Z * Z) : bool :=
  match next !! k with Some l => color_clears l | None => false end.

(** The surfaces whose contents the passes [next] was built from never read. *)
Definition doomed (next : NextColorUse) (s : Surface) : Prop :=
  exists k, cleared_next next k = true /\ k.1 ∉ seen /\ s = surface (companion k.1) k.2 ColorPlane.

Lemma doomed_color next p i a :
  wf p -> color_slots p !! i = Some a -> is_bound a = true ->
  (doomed next (color_surface a) <-> cleared_next next (key a) = true /\ texture a ∉ seen).
Proof.
  intros W Hi Hb. apply list_elem_of_lookup_2 in Hi. pose proof (wf_companion _ _ _ _ _ W a Hi Hb) as Hc. split.
  - intros ([t sub] & Hn & Hs & Heq). rewrite Heq in Hc. cbn [s_texture fst snd] in *. apply companion_inj in Hc as ->.
    unfold color_surface in Heq. injection Heq as _ Hsub. unfold key. by rewrite Hsub.
  - intros [Hn Hs]. exists (key a). split; [done|]. split; [done|]. unfold key. cbn [fst snd]. by rewrite <- Hc.
Qed.

Lemma doomed_plane next s : doomed next s -> s_plane s = ColorPlane.
Proof. by intros (k & _ & _ & ->). Qed.

(** Attached keys are told apart by their surfaces. *)
Lemma key_slot p i j a b :
  wf p -> color_slots p !! i = Some a -> color_slots p !! j = Some b ->
  is_bound a = true -> is_bound b = true -> key a = key b -> i = j.
Proof.
  intros W Hi Hj Ha Hb [= Ht Hs].
  assert (color_surface a = color_surface b) as He.
  { pose proof (wf_companion _ _ _ _ _ W a (list_elem_of_lookup_2 _ _ _ Hi) Ha) as H1.
    pose proof (wf_companion _ _ _ _ _ W b (list_elem_of_lookup_2 _ _ _ Hj) Hb) as H2.
    unfold color_surface in *. cbn in H1, H2. by rewrite H1, H2, Ht, Hs. }
  assert (SlotColor i = SlotColor j) as [=]; [|done].
  apply (wf_distinct _ _ _ _ _ W _ _ (color_surface a)); cbn [attached].
  - rewrite Hi. cbn. by rewrite Ha.
  - rewrite Hj. cbn. by rewrite Hb, He.
Qed.

(** ** One pass *)

Lemma set_store_shape p i st : same_shape p (set_color_store_of p i st).
Proof.
  destruct i as [|i]; [reflexivity|]. unfold same_shape, erase. cbn. do 2 f_equal.
  apply list_eq. intros j. rewrite !list_lookup_fmap, list_lookup_alter.
  destruct (decide (i = j)) as [<-|]; [|done]. by destruct (extra_color p !! i).
Qed.

Lemma set_store_load p i st sl : load_action (T := T) (set_color_store_of p i st) sl = load_action p sl.
Proof.
  destruct i as [|i], sl as [[|j]| | |]; try reflexivity. cbn [load_action]. rewrite !color_slots_S.
  cbn [set_color_store_of with_colors extra_color]. rewrite list_lookup_alter.
  destruct (decide (i = j)) as [<-|]; [|done]. by destruct (extra_color p !! i).
Qed.

Lemma set_store_store p i st sl :
  store_action (set_color_store_of p i st) sl
  = if decide (sl = SlotColor i) then (if color_slots p !! i then st else DontCare) else store_action p sl.
Proof.
  destruct sl as [j| | |]; [|by destruct i..]. cbn [store_action].
  destruct (decide (SlotColor j = SlotColor i)) as [[= ->]|Hn].
  - destruct i as [|i]; [done|]. rewrite !color_slots_S. cbn [set_color_store_of with_colors extra_color].
    rewrite list_lookup_alter_eq. by destruct (extra_color p !! i).
  - assert (j <> i) by congruence. destruct i as [|i], j as [|j]; [done|done|done|].
    rewrite !color_slots_S. cbn [set_color_store_of with_colors extra_color].
    rewrite list_lookup_alter_ne; [done|congruence].
Qed.

(** The fold over the bound attachments of a pass, their keys apart. *)
Definition keys (l : list (nat * PassColorAttachment)) : list (Z * Z) := (λ sa, key sa.2) <$> l.

Lemma discard_fold l p next p' next' :
  NoDup (keys l) -> (forall i a, (i, a) ∈ l -> is_Some (color_slots p !! i)) ->
  foldl (discard_color_step seen) (p, next) l = (p', next') ->
  same_shape p p'
  /\ (forall sl, load_action (T := T) p' sl = load_action p sl)
  /\ (forall sl, store_action p' sl = store_action p sl
                 \/ store_action p' sl = DontCare
                    /\ exists i a, sl = SlotColor i /\ (i, a) ∈ l
                                  /\ cleared_next next (key a) = true /\ texture a ∉ seen)
  /\ (forall i a, (i, a) ∈ l -> next' !! key a = Some (load a))
  /\ (forall k, k ∉ keys l -> next' !! k = next !! k).
Proof.
  revert p next. induction l as [|[i a] l IH]; intros p next Hn Hl Hf.
  { injection Hf as <- <-. repeat split; auto. by intros ? ? ?%not_elem_of_nil. }
  cbn [foldl discard_color_step] in Hf. unfold keys in Hn. cbn [fmap list_fmap] in Hn.
  apply NoDup_cons in Hn as [Hni Hn]. cbn [snd] in Hni.
  set (q := if _ && _ then _ else p) in Hf.
  assert (same_shape p q) as Hpq by (unfold q; destruct (_ && _); [apply set_store_shape|done]).
  apply IH in Hf as (H1 & H2 & H3 & H4 & H5); [|done|].
  2:{ intros j b Hj. destruct (Hl j b) as [x Hx]; [by right|].
      unfold q. destruct (_ && _); [|eauto]. destruct i as [|i], j as [|j]; rewrite ?color_slots_S, ?color_slots_0 in *;
        [by eexists|by exists x|by eexists|]. cbn [set_color_store_of with_colors extra_color]. rewrite list_lookup_alter.
      destruct (decide (i = j)) as [->|]; rewrite Hx; by eexists. }
  split; [by etrans|]. split.
  { intros sl. rewrite H2. unfold q. destruct (_ && _); [apply set_store_load|done]. }
  split; [|split].
  - intros sl. destruct (H3 sl) as [->|(Hs & j & b & -> & Hj & Hc & Hb)].
    + unfold q. destruct (_ && negb _) eqn:E; [|by left]. rewrite set_store_store.
      destruct (decide (sl = SlotColor i)) as [->|]; [|by left]. right.
      apply andb_true_iff in E as [E1 E2]. apply negb_true_iff, bool_decide_eq_false in E2.
      split; [by destruct (color_slots p !! i)|]. exists i, a. repeat split; [by left|done..].
    + right. split; [done|]. exists j, b. repeat split; [by right| |done].
      unfold cleared_next in *. rewrite lookup_insert_ne in Hc; [done|].
      intros Heq. apply Hni. change (texture a, subresource a) with (key a) in Heq.
      rewrite Heq. apply list_elem_of_fmap. by exists (j, b).
  - intros j b [[= -> ->]|Hj]%elem_of_cons; [|by apply (H4 j)].
    rewrite H5 by done. apply lookup_insert_eq.
  - intros k [Hk1 Hk2]%not_elem_of_cons. rewrite H5 by done. by apply lookup_insert_ne.
Qed.
Lemma bound_attachments p i a :
  (i, a) ∈ bound_color_attachments p <-> color_slots p !! i = Some a /\ is_bound a = true.
Proof.
  unfold bound_color_attachments. rewrite list_elem_of_filter. cbn [snd].
  rewrite list_elem_of_lookup. split.
  - intros [Hb [j Hj]]. rewrite list_lookup_imap in Hj. destruct (color_slots p !! j) eqn:E; [|done].
    injection Hj as -> ->. done.
  - intros [Hi Hb]. split; [done|]. exists i. by rewrite list_lookup_imap, Hi.
Qed.

Lemma bound_keys_NoDup p : wf p -> NoDup (keys (bound_color_attachments p)).
Proof.
  intros W. apply NoDup_fmap_2_strong.
  - intros [i a] [j b] Hi Hj Hk. apply bound_attachments in Hi as [Hi Hba], Hj as [Hj Hbb].
    cbn in Hk. rewrite (key_slot p i j a b W Hi Hj Hba Hbb Hk) in Hi |- *. congruence.
  - apply NoDup_filter, (NoDup_fmap_1 fst). apply NoDup_alt. intros i j x Hi Hj.
    rewrite list_lookup_fmap, list_lookup_imap in Hi, Hj.
    destruct (color_slots p !! i), (color_slots p !! j); cbn in *; congruence.
Qed.

(** What the walk over one pass changes. *)
Lemma discard_pass p next p' next' :
  wf p -> foldl (discard_color_step seen) (p, next) (bound_color_attachments p) = (p', next') ->
  same_shape p p'
  /\ (forall sl, load_action (T := T) p' sl = load_action p sl)
  /\ (forall sl, store_action p' sl = store_action p sl
                 \/ store_action p' sl = DontCare
                    /\ exists s, attached p sl = Some s /\ doomed next s)
  /\ (forall i a, color_slots p !! i = Some a -> is_bound a = true -> cleared_next next' (key a) = color_clears (load a))
  /\ (forall s, doomed next' s -> doomed next s \/ is_Some (slot_of p s)).
Proof.
  intros W Hf. apply discard_fold in Hf as (H1 & H2 & H3 & H4 & H5);
    [|by apply bound_keys_NoDup|by intros i a [-> _]%bound_attachments].
  split; [done|]. split; [done|]. split; [|split].
  - intros sl. destruct (H3 sl) as [|(Hs & i & a & -> & Hi & Hc & Hn)]; [by left|right].
    apply bound_attachments in Hi as [Hi Hb]. split; [done|]. exists (color_surface a).
    split; [cbn [attached]; rewrite Hi; cbn; by rewrite Hb|]. by apply (doomed_color next p i a).
  - intros i a Hi Hb. unfold cleared_next. rewrite (H4 i a); [done|]. by apply bound_attachments.
  - intros s (k & Hc & Hn & ->).
    destruct (decide (k ∈ keys (bound_color_attachments p))) as [Hin|Hout].
    + right. apply list_elem_of_fmap in Hin as ([i a] & -> & Hi). apply bound_attachments in Hi as [Hi Hb].
      cbn [snd key fst] in *. exists (SlotColor i). apply slot_of_Some; [apply W|]. cbn [attached]. rewrite Hi. cbn.
      rewrite Hb. f_equal. pose proof (wf_companion _ _ _ _ _ W a (list_elem_of_lookup_2 _ _ _ Hi) Hb) as He.
      unfold key. cbn [fst snd]. by rewrite <- He.
    + left. exists k. split; [|done]. unfold cleared_next in *. by rewrite H5 in Hc.
Qed.

Lemma doomed_not_read next p :
  wf p -> @samples_none views (doomed next) (commands p) /\ @blits_none views (doomed next) (leading_blits p).
Proof.
  intros W.
  assert (forall s, doomed next s -> no_companion companion (s_texture s) -> s_texture s ∉ seen) as Hd.
  { intros s ([t sub] & _ & Hn & ->) Hno. cbn in *. by rewrite <- (Hno t eq_refl). }
  split; [eapply wf_samples_none|eapply wf_blits_none]; eauto.
Qed.

Lemma discard_pass_le p next p' next' m1 m2 :
  wf p -> foldl (discard_color_step seen) (p, next) (bound_color_attachments p) = (p', next') ->
  mem_le (doomed next') m1 m2 -> mem_le (doomed next) (run_pass views p m1) (run_pass views p' m2).
Proof.
  intros W Hf Hm. destruct (discard_pass p next p' next' W Hf) as (Hsh & Hl & Hs & Hn & Hd).
  destruct (doomed_not_read next' p W) as [Hsam Hbl].
  apply (run_pass_sim (doomed next') nowhere nowhere); [done..|apply carries_nowhere| |].
  - intros sl s _ Ha px v. rewrite Hl, <- (same_shape_blits p p') by done. unfold loaded.
    destruct (load_action p sl) eqn:El; try done.
    apply run_blits_le with (dead := doomed next'); [done|done|]. intros Hdead.
    destruct sl as [i| | |]; cbn in Ha.
    + destruct (color_slots p !! i) as [a|] eqn:Hi; [|done]. cbn in Ha.
      destruct (is_bound a) eqn:Hb; [|done]. injection Ha as <-.
      apply (doomed_color next' p i a) in Hdead as [Hc _]; [|done..]. rewrite (Hn i a Hi Hb) in Hc.
      cbn [load_action] in El. rewrite Hi in El. unfold color_action in El. by destruct (load a).
    + destruct (depth_texture p =? 0); [done|]. injection Ha as <-. by apply doomed_plane in Hdead.
    + destruct (_ || _); [done|]. injection Ha as <-. by apply doomed_plane in Hdead.
    + injection Ha as <-. by apply doomed_plane in Hdead.
  - intros s Hns. unfold closes. destruct (resolving views p s) as [sl|] eqn:Er.
    + split; [intros []|right]. apply resolving_color in Er as Hi. destruct Hi as [i ->].
      unfold resolving in Er. destruct (list_find _ _) as [[j a]|] eqn:E; [|done]. injection Er as ->.
      apply list_find_Some in E as (Hi & [Hb _] & _). apply (wf_area _ _ _ _ _ W i (color_surface a)).
      cbn [attached]. rewrite Hi. cbn. by rewrite Hb.
    + destruct (slot_of p s) as [sl|] eqn:Es.
      * apply slot_of_attached in Es. destruct (Hs sl) as [->|(_ & s' & Ha & Hdoom)].
        -- destruct (store_action p sl); [right|by left]. split; [done|]. split; [intros []|].
           destruct sl as [i| | |]; [left; by eapply (wf_area _ _ _ _ _ W)|right..];
             (split; [|unfold discards_load; by rewrite Hl]); intros Hdead; apply doomed_plane in Hdead.
           ++ cbn in Es. destruct (depth_texture p =? 0); [done|]. by injection Es as <-.
           ++ cbn in Es. destruct (_ || _); [done|]. by injection Es as <-.
           ++ cbn in Es. by injection Es as <-.
        -- rewrite Es in Ha. injection Ha as <-. done.
      * intros Hdead. apply Hd in Hdead as [|[sl Hsl]]; congruence.
Qed.

Lemma discard_color_stores_le ps m1 m2 :
  Forall wf ps ->
  mem_le (doomed (discard_color_stores seen ps).2) m1 m2 ->
  mem_le nowhere (run_passes views ps m1) (run_passes views (discard_color_stores seen ps).1 m2).
Proof.
  revert m1 m2. induction ps as [|p ps IH]; intros m1 m2 Hwf Hm.
  - intros s _. apply Hm. by intros (k & Hk & _).
  - apply Forall_cons in Hwf as [W Hwf]. cbn [discard_color_stores] in *.
    destruct (discard_color_stores seen ps) as [ps' next] eqn:E.
    destruct (foldl _ _ _) as [p' next'] eqn:Ef. cbn [fst snd] in *.
    rewrite !run_passes_cons. apply IH; [done|]. by eapply discard_pass_le.
Qed.

Lemma discard_color_stores_shape ps : Forall wf ps -> Forall2 same_shape ps (discard_color_stores seen ps).1.
Proof.
  induction ps as [|p ps IH]; intros Hwf; [constructor|]. apply Forall_cons in Hwf as [W Hwf].
  cbn [discard_color_stores]. destruct (discard_color_stores seen ps) as [ps' next] eqn:E.
  destruct (foldl _ _ _) as [p' next'] eqn:Ef. constructor; [|by apply IH].
  by destruct (discard_pass p next p' next' W Ef).
Qed.
End ColorStores.

(** Rule H: what is left of a pass whose colour attachments go.  The source
    drains the clear-quad blocks from the back so that the earlier ranges stay
    valid; here that is shown to keep the commands outside the blocks, in order,
    and never to drain out of bounds. *)

(** The blocks as [end_color_clear_quad_block] records them: in order, apart,
    inside the command list. *)
Fixpoint blocks_from (k : nat) (ranges : list (nat * nat)) (n : nat) : Prop :=
  match ranges with
  | [] => (k <= n)%nat
  | r :: rest => (k <= r.1)%nat /\ (r.1 <= r.2)%nat /\ blocks_from r.2 rest n
  end.

(** The elements outside the blocks, the first of them at position [i]. *)
Fixpoint outside {A} (ranges : list (nat * nat)) (i : nat) (l : list A) : list A :=
  match l with
  | [] => []
  | x :: l' => if in_ranges ranges i then outside ranges (S i) l' else x :: outside ranges (S i) l'
  end.

Lemma in_ranges_cons r rest i : in_ranges (r :: rest) i = (r.1 <=? i)%nat && (i <? r.2)%nat || in_ranges rest i.
Proof. reflexivity. Qed.

Lemma blocks_le k ranges n : blocks_from k ranges n -> (k <= n)%nat.
Proof.
  revert k. induction ranges as [|r rest IH]; intros k; [done|]. cbn. intros (H1 & H2 & H3). apply IH in H3. lia.
Qed.

Lemma blocks_weaken j k ranges n : (j <= k)%nat -> blocks_from k ranges n -> blocks_from j ranges n.
Proof. intros Hj. destruct ranges as [|r rest]; cbn; [lia|]. intros (? & ? & ?). repeat split; try lia. done. Qed.

Lemma blocks_not_before k ranges n i : blocks_from k ranges n -> (i < k)%nat -> in_ranges ranges i = false.
Proof.
  revert k. induction ranges as [|r rest IH]; intros k; [done|]. cbn [blocks_from]. intros (H1 & H2 & H3) Hi.
  rewrite in_ranges_cons, (IH r.2) by (done || lia). destruct (r.1 <=? i)%nat eqn:E; [|done].
  apply Nat.leb_le in E. lia.
Qed.

Lemma outside_app {A} ranges i (l k : list A) : outside ranges i (l ++ k) = outside ranges i l ++ outside ranges (i + length l) k.
Proof.
  revert i. induction l as [|x l IH]; intros i; cbn [app outside length]; [by rewrite Nat.add_0_r|].
  rewrite IH. replace (S i + length l)%nat with (i + S (length l))%nat by lia. by destruct (in_ranges ranges i).
Qed.

Lemma outside_ext {A} ranges ranges' i (l : list A) :
  (forall j, (i <= j < i + length l)%nat -> in_ranges ranges j = in_ranges ranges' j) ->
  outside ranges i l = outside ranges' i l.
Proof.
  revert i. induction l as [|x l IH]; intros i H; [done|]. cbn [outside]. rewrite H by (cbn; lia).
  rewrite (IH (S i)); [done|]. intros j Hj. apply H. cbn. lia.
Qed.

Lemma outside_none {A} i (l : list A) : outside [] i l = l.
Proof. revert i. induction l as [|x l IH]; intros i; [done|]. cbn. by rewrite IH. Qed.

Lemma outside_all {A} ranges i (l : list A) :
  (forall j, (i <= j < i + length l)%nat -> in_ranges ranges j = true) -> outside ranges i l = [].
Proof.
  revert i. induction l as [|x l IH]; intros i H; [done|]. cbn [outside]. rewrite H by (cbn; lia).
  apply IH. intros j Hj. apply H. cbn. lia.
Qed.

Lemma drain_blocks_from {A} ranges k (l : list A) :
  blocks_from k ranges (length l) ->
  foldr (λ r acc, l' ← acc; drain r l') (Some l) ranges = Some (outside ranges 0 l).
Proof.
  revert k. induction ranges as [|r rest IH]; intros k Hb; [by rewrite outside_none|].
  destruct Hb as (H1 & H2 & H3). cbn [foldr]. rewrite (IH r.2 H3). cbn. pose proof (blocks_le _ _ _ H3) as H4.
  set (A1 := take r.1 l). set (B := take (r.2 - r.1) (drop r.1 l)). set (C := drop r.2 l).
  assert (l = A1 ++ B ++ C) as Hl.
  { unfold A1, B, C. replace r.2 with (r.1 + (r.2 - r.1))%nat at 2 by lia. by rewrite <- drop_drop, !take_drop. }
  assert (length A1 = r.1) as La by (unfold A1; rewrite length_take; lia).
  assert (length B = r.2 - r.1)%nat as Lb by (unfold B; rewrite length_take, length_drop; lia).
  assert (forall j, (j < r.2)%nat -> in_ranges rest j = false) as Hnr by (intros j Hj; by apply (blocks_not_before r.2 rest (length l))).
  rewrite Hl, !outside_app, La, Lb. replace (0 + r.1 + (r.2 - r.1))%nat with r.2 by lia. cbn [Nat.add].
  rewrite !(outside_ext rest [] 0 A1), !(outside_ext rest [] r.1 B), !outside_none;
    [|intros j Hj; rewrite Hnr; [done|lia]|intros j Hj; rewrite Hnr; [done|lia]].
  rewrite (outside_ext (r :: rest) [] 0 A1), outside_none.
  2:{ intros j Hj. rewrite in_ranges_cons, Hnr by lia. destruct (r.1 <=? j)%nat eqn:E; [|done].
      apply Nat.leb_le in E. lia. }
  rewrite (outside_all (r :: rest) r.1 B).
  2:{ intros j Hj. rewrite in_ranges_cons, (proj2 (Nat.leb_le _ _)), (proj2 (Nat.ltb_lt _ _)) by lia. done. }
  rewrite (outside_ext (r :: rest) rest r.2 C).
  2:{ intros j Hj. rewrite in_ranges_cons, (proj2 (Nat.ltb_ge j r.2)) by lia. by rewrite andb_false_r. }
  set (D := outside rest r.2 C). unfold drain. rewrite (proj2 (Nat.leb_le r.1 r.2)) by done. cbn [andb].
  rewrite (proj2 (Nat.leb_le _ _)) by (rewrite !length_app; lia). f_equal.
  rewrite take_app_length', app_assoc, drop_app_length'; [done|rewrite length_app; lia|done].
Qed.

(** The pipelines outside the blocks swapped, the blocks still in place. *)
Definition swap_outside (alt : gmap Z Z) (ranges : list (nat * nat)) (cs : list Command) : list Command :=
  imap (λ i c, if in_ranges ranges i then c else to_no_color alt c) cs.

Lemma outside_swap alt ranges cs :
  outside ranges 0 (swap_outside alt ranges cs) = to_no_color alt <$> outside ranges 0 cs.
Proof.
  unfold swap_outside.
  assert (forall i, outside ranges i (imap (λ j c, if in_ranges ranges (i + j) then c else to_no_color alt c) cs)
                    = to_no_color alt <$> outside ranges i cs) as H; [|apply (H 0%nat)].
  induction cs as [|c cs IH]; intros i; [done|]. cbn [imap outside]. rewrite Nat.add_0_r.
  assert (imap ((λ j c, if in_ranges ranges (i + j) then c else to_no_color alt c) ∘ S) cs
          = imap (λ j c, if in_ranges ranges (S i + j) then c else to_no_color alt c) cs) as ->.
  { apply imap_ext. intros j c' _. cbn. by rewrite Nat.add_succ_r. }
  rewrite IH. by destruct (in_ranges ranges i).
Qed.

Lemma foldl_reversed {A B} (f : A -> B -> A) a l : foldl f a (reverse l) = foldr (λ r acc, f acc r) a l.
Proof. induction l as [|x l IH]; [done|]. rewrite reverse_cons, foldl_app. cbn. by rewrite IH. Qed.

Lemma strip_color_eq alt p :
  strips_color alt p = true -> blocks_from 0 (color_clear_quad_ranges p) (length (commands p)) ->
  strip_color alt p
  = Some (with_commands (with_colors p (drop_attachment (color p)) [color_none; color_none; color_none])
            (to_no_color alt <$> outside (color_clear_quad_ranges p) 0 (commands p)) []).
Proof.
  intros Hs Hb. unfold strip_color. rewrite Hs.
  assert (foldl (λ acc r, cs ← acc; drain r cs) (Some (swap_outside alt (color_clear_quad_ranges p) (commands p)))
            (reverse (color_clear_quad_ranges p))
          = Some (outside (color_clear_quad_ranges p) 0 (swap_outside alt (color_clear_quad_ranges p) (commands p)))) as H.
  { rewrite foldl_reversed. apply (drain_blocks_from _ 0). unfold swap_outside. by rewrite length_imap. }
  unfold swap_outside in H at 1. rewrite H. cbn. by rewrite outside_swap.
Qed.

(** Every pipeline that is left is a twin. *)
Lemma stripped_pipelines alt p c :
  strips_color alt p = true ->
  c ∈ to_no_color alt <$> outside (color_clear_quad_ranges p) 0 (commands p) -> sets_pipeline c = true ->
  exists k, alt !! k = Some (param_b c).
Proof.
  intros Hs (c0 & -> & Hin)%list_elem_of_fmap Hp.
  unfold strips_color in Hs. rewrite !andb_true_iff in Hs. destruct Hs as [[_ Hall] _]. rewrite forallb_forall in Hall.
  assert (exists i, commands p !! i = Some c0 /\ in_ranges (color_clear_quad_ranges p) i = false) as (i & Hi & Hr).
  { clear Hall Hp. revert Hin. generalize (commands p). intros cs.
    assert (forall k, c0 ∈ outside (color_clear_quad_ranges p) k cs ->
              exists i, cs !! i = Some c0 /\ in_ranges (color_clear_quad_ranges p) (k + i) = false) as H; [|apply (H 0%nat)].
    induction cs as [|x cs IH]; intros k; cbn [outside]; [by intros ?%elem_of_nil|].
    destruct (in_ranges _ k) eqn:E.
    - intros (i & Hi & Hr)%IH. exists (S i). by rewrite Nat.add_succ_r.
    - intros [->|(i & Hi & Hr)%IH]%elem_of_cons; [exists 0%nat; by rewrite Nat.add_0_r|]. exists (S i). by rewrite Nat.add_succ_r. }
  assert (In (i, c0) (imap (λ i c, (i, c)) (commands p))) as Hc.
  { apply list_elem_of_In, list_elem_of_lookup. exists i. by rewrite list_lookup_imap, Hi. }
  apply Hall in Hc. cbn in Hc. unfold to_no_color in *. destruct (sets_pipeline c0) eqn:E; [|congruence].
  rewrite Hr in Hc. cbn in Hc. apply bool_decide_eq_true in Hc as [x Hx]. exists (param_b c0). by rewrite Hx.
Qed.
