(* ===== verification/PassDepthStores.v ===== *)
(** Rule B and Rule C's depth arm, and the discard of stencil nothing has
    written.  As for colour, what each walk carries back to front is which
    surfaces the passes behind it never read; Rule B alone gives contents up, the
    planes of the depth textures it leaves undefined at the end of a frame. *)

From S2P Require Import Prelude PassCommands PassData PassRules PassMerge PassGpu PassFacts.
From S2P Require Import PassClearOnly.

Lemma attached_plane p sl s :
  attached p sl = Some s ->
  s_plane s = match sl with
              | SlotColor _ => ColorPlane | SlotDepth => DepthPlane
              | SlotStencil => StencilPlane | SlotCount => CounterPlane end.
Proof.
  destruct sl as [i| | |]; cbn [attached].
  - destruct (color_slots p !! i) as [a|]; [|done]. cbn. destruct (is_bound a); [|done]. by intros [= <-].
  - destruct (_ =? _); [done|]. by intros [= <-].
  - destruct (_ || _); [done|]. by intros [= <-].
  - by intros [= <-].
Qed.

Lemma attached_depth p sl s :
  attached p sl = Some s -> depth_planes sl ->
  depth_texture p <> 0 /\ s_texture s = depth_texture p /\ s_sub s = Z.shiftl (depth_level p) 16.
Proof.
  intros Ha [->| ->]; cbn in Ha; destruct (depth_texture p =? 0) eqn:E; try done; apply Z.eqb_neq in E.
  - by injection Ha as <-.
  - cbn in Ha. destruct (negb _); [done|]. by injection Ha as <-.
Qed.

Lemma shiftl16_inj a b : Z.shiftl a 16 = Z.shiftl b 16 -> a = b.
Proof. rewrite !Z.shiftl_mul_pow2 by lia. lia. Qed.

Lemma resolving_plane views p s sl : resolving views p s = Some sl -> s_plane s = ColorPlane.
Proof.
  unfold resolving. destruct (list_find _ _) as [[i a]|] eqn:E; [|done]. intros _.
  apply list_find_Some in E as (_ & [_ E] & _). unfold resolves_to in E.
  destruct (_ =? 0); [done|]. by injection E as <-.
Qed.

Lemma covers_depth p :
  extent_covers (u64_max, u64_max) (depth_size p) = true -> depth_texture p <> 0 ->
  color_extent_covers_depth p = true -> forall sl, depth_planes sl -> covers p sl = true.
Proof.
  intros Hmax Ht Hc sl Hsl. apply Z.eqb_neq in Ht.
  unfold color_extent_covers_depth in Hc. rewrite Ht in Hc. apply andb_true_iff in Hc as [H0 He].
  assert (extent_covers (render_area p) (depth_size p) = true) as Ha.
  { unfold render_area, bound_sizes. rewrite Ht, foldr_app. cbn [foldr].
    assert (forall l z, (forall x, x ∈ l -> extent_covers x (depth_size p) = true) ->
              extent_covers z (depth_size p) = true -> extent_covers (foldr smaller z l) (depth_size p) = true) as Hf.
    { induction l as [|x l IH]; intros z Hl Hz; [done|]. cbn [foldr].
      apply smaller_glb; [apply Hl; by left|]. apply IH; [intros y Hy; apply Hl; by right|done]. }
    apply Hf; [|apply smaller_glb; [apply extent_covers_refl|done]].
    intros x Hx. apply list_elem_of_fmap in Hx as (a & -> & Hin).
    apply list_elem_of_In, List.filter_In in Hin as [Hin Hb].
    cbn [color_slots In] in Hin. destruct Hin as [<-|Hin].
    - apply orb_true_iff in H0 as [H0|H0]; [|done]. unfold is_bound in Hb. unfold color_texture in H0. by rewrite H0 in Hb.
    - rewrite forallb_forall in He. specialize (He a Hin). by rewrite Hb in He. }
  destruct Hsl as [->| ->]; exact Ha.
Qed.

Section DepthStores.
Context {T : Type} {views : Views} `{L : GpuLaws T views} (companion : Z -> Z) (planes : Z -> bool)
  (seen sampled : gset Z).

  Abbreviation wf := (pass_wf (views := views) companion planes seen sampled).
  Abbreviation touched := (depth_touched views sampled).

(** A depth texture a pass does not touch is not read by it. *)
Definition unread (p : Pass) (t : Z) : Prop := t ∉ seen \/ t <> 0 /\ touched t p = false.

Lemma unread_not_read (dead : Surface -> Prop) p :
  wf p -> (forall s, dead s -> unread p (s_texture s)) ->
  @samples_none views dead (commands p) /\ @blits_none views dead (leading_blits p).
Proof.
  intros W Hd. split; [eapply wf_samples_none|eapply wf_blits_none]; eauto; intros s Hs _;
    (destruct (Hd s Hs) as [|[Hn Ht]]; [by left|right]); unfold depth_touched in Ht;
    rewrite !orb_false_iff in Ht; destruct Ht as [[Ht _] _];
    by destruct (pass_reads_false _ _ _ _ p (s_texture s) W Hn Ht).
Qed.

Lemma depth_touched_shape p q t : same_shape p q -> touched t p = touched t q.
Proof.
  intros H. unfold depth_touched, pass_reads_texture, pass_samples_texture, commands_sample_texture.
  rewrite (same_shape_commands p q H), (same_shape_blits p q H). f_equal.
  unfold pass_resolves_into. destruct (t =? 0); [done|].
  assert (forall r, existsb (λ a, negb (resolve_texture a =? 0) && names views (resolve_texture a) t) (color_slots r)
          = existsb (λ a, negb (resolve_texture a =? 0) && names views (resolve_texture a) t) (color_slots (erase r))) as He.
  { intros r. rewrite erase_slots. induction (color_slots r) as [|a l IH]; [done|]. cbn. by rewrite IH. }
  by rewrite He, H, <- He.
Qed.

(** ** Rule C's depth arm *)

Definition next_pass (rest : list Pass) (after : nat) : option Pass := rest !! (length rest - S after)%nat.

(** The planes the next pass on a level clears whole, nothing touching the
    texture on the way. *)
Definition cleared_ahead (rest : list Pass) (nu : gmap (Z * Z) nat) (s : Surface) : Prop :=
  exists k after next,
    nu !! k = Some after /\ next_pass rest after = Some next
    /\ depth_touched_between views sampled rest after k.1 = false
    /\ color_extent_covers_depth next = true
    /\ s_texture s = k.1 /\ s_sub s = Z.shiftl k.2 16
    /\ (s_plane s = DepthPlane /\ depth_clears (depth_load next) = true
        \/ s_plane s = StencilPlane /\ stencil_clears (stencil_load next) = true /\ planes k.1 = true).

Definition uses_ok (rest : list Pass) (nu : gmap (Z * Z) nat) : Prop :=
  forall k after, nu !! k = Some after ->
    (after < length rest)%nat /\ k.1 <> 0
    /\ forall next, next_pass rest after = Some next -> (depth_texture next, depth_level next) = k.

Definition depth_key (p : Pass) : Z * Z := (depth_texture p, depth_level p).

(** What the walk does to one pass. *)
Definition before_clear (nu : gmap (Z * Z) nat) (rest : list Pass) (p : Pass) : Pass :=
  match nu !! depth_key p with
  | Some after =>
      match next_pass rest after with
      | Some next =>
          if negb (contains (depth_flags p) SAMPLEABLE)
             && negb (bool_decide (depth_texture p ∈ seen))
             && negb (depth_touched_between views sampled rest after (depth_texture p))
             && color_extent_covers_depth next
          then
            let d := depth p in
            let d := if depth_clears (depth_load next) then set_depth_store d DontCare else d in
            let d := if stencil_clears (stencil_load next) && contains (depth_flags p) HAS_STENCIL
                     then set_stencil_store d DontCare else d in
            with_depth p d
          else p
      | None => p
      end
  | None => p
  end.

Lemma before_clears_cons p rest :
  discard_depth_stores_before_clears views sampled seen (p :: rest)
  = let '(rest', nu) := discard_depth_stores_before_clears views sampled seen rest in
    if depth_texture p =? 0 then (p :: rest', nu)
    else (before_clear nu rest' p :: rest', <[depth_key p := length rest']> nu).
Proof. cbn [discard_depth_stores_before_clears]. by destruct (discard_depth_stores_before_clears _ _ _ rest). Qed.

Lemma before_clear_spec nu rest p :
  same_shape p (before_clear nu rest p)
  /\ depth_load (before_clear nu rest p) = depth_load p
  /\ stencil_load (before_clear nu rest p) = stencil_load p
  /\ (forall sl, load_action (T := T) (before_clear nu rest p) sl = load_action p sl)
  /\ forall sl, store_action (before_clear nu rest p) sl = store_action p sl
       \/ (depth_planes sl
           /\ (wf p -> forall s, attached p sl = Some s -> cleared_ahead rest nu s)).
Proof.
  unfold before_clear. destruct (nu !! depth_key p) as [after|] eqn:En; [|repeat split; auto].
  destruct (next_pass rest after) as [next|] eqn:Ex; [|repeat split; auto].
  destruct (_ && _ && _ && _) eqn:Eg; [|repeat split; auto].
  apply andb_true_iff in Eg as [Eg Hcov]. apply andb_true_iff in Eg as [_ Ht]. apply negb_true_iff in Ht.
  split; [by destruct (depth_clears _), (_ && _)|]. split; [by destruct (depth_clears _), (_ && _)|].
  split; [by destruct (depth_clears _), (_ && _)|].
  split; [by intros []; destruct (depth_clears _), (_ && _)|].
  intros sl. destruct sl as [i| | |]; try (left; by destruct (depth_clears _), (_ && _)).
  - destruct (depth_clears (depth_load next)) eqn:Ed; [right|left; by destruct (_ && _)].
    split; [by left|]. intros W s Ha. destruct (attached_depth p _ s Ha ltac:(by left)) as (Hn & H1 & H2).
    exists (depth_key p), after, next. repeat split; try done. left. split; [by apply attached_plane in Ha|done].
  - destruct (stencil_clears (stencil_load next) && _) eqn:Es; [right|left; by destruct (depth_clears _)].
    apply andb_true_iff in Es as [Es Hst]. split; [by right|]. intros W s Ha.
    destruct (attached_depth p _ s Ha ltac:(by right)) as (Hn & H1 & H2).
    exists (depth_key p), after, next. repeat split; try done. right.
    split; [by apply attached_plane in Ha|]. split; [done|]. cbn [depth_key fst].
    by rewrite <- (wf_depth_planes _ _ _ _ _ W Hn).
Qed.
Lemma next_pass_cons p rest after :
  (after < length rest)%nat -> next_pass (p :: rest) after = next_pass rest after.
Proof.
  intros H. unfold next_pass. replace (length (p :: rest) - S after)%nat with (S (length rest - S after)) by (cbn; lia).
  done.
Qed.

Lemma touched_between_cons p rest after t :
  (after < length rest)%nat ->
  depth_touched_between views sampled (p :: rest) after t
  = touched t p || depth_touched_between views sampled rest after t.
Proof.
  intros H. unfold depth_touched_between.
  replace (length (p :: rest) - after)%nat with (S (length rest - after)) by (cbn; lia). done.
Qed.

Lemma touched_between_first p rest t :
  depth_touched_between views sampled (p :: rest) (length rest) t = touched t p.
Proof.
  unfold depth_touched_between. replace (length (p :: rest) - length rest)%nat with 1%nat by (cbn; lia).
  cbn. by rewrite orb_false_r.
Qed.

(** A dead plane ahead of a pass: the pass leaves it dead, or clears it. *)
Definition clears_plane (p : Pass) (s : Surface) : Prop :=
  color_extent_covers_depth p = true /\ s_texture s = depth_texture p /\ s_sub s = Z.shiftl (depth_level p) 16
  /\ (s_plane s = DepthPlane /\ depth_clears (depth_load p) = true
      \/ s_plane s = StencilPlane /\ stencil_clears (stencil_load p) = true /\ planes (depth_texture p) = true).

Lemma cleared_skip p rest nu s k after next :
  uses_ok rest nu -> nu !! k = Some after -> next_pass (p :: rest) after = Some next ->
  depth_touched_between views sampled (p :: rest) after k.1 = false ->
  color_extent_covers_depth next = true -> s_texture s = k.1 -> s_sub s = Z.shiftl k.2 16 ->
  (s_plane s = DepthPlane /\ depth_clears (depth_load next) = true
   \/ s_plane s = StencilPlane /\ stencil_clears (stencil_load next) = true /\ planes k.1 = true) ->
  unread p (s_texture s) /\ cleared_ahead rest nu s.
Proof.
  intros Hok Hk Hx Ht Hc H1 H2 Hp. destruct (Hok k after Hk) as (Hlt & Hn & _).
  rewrite touched_between_cons in Ht by done. apply orb_false_iff in Ht as [Ht1 Ht2].
  rewrite next_pass_cons in Hx by done. split; [right; by rewrite H1|]. by exists k, after, next.
Qed.

Lemma cleared_cons p rest nu s :
  uses_ok rest nu -> depth_texture p <> 0 ->
  cleared_ahead (p :: rest) (<[depth_key p := length rest]> nu) s ->
  unread p (s_texture s)
  /\ (clears_plane p s
      \/ cleared_ahead rest nu s /\ (s_texture s <> depth_texture p \/ s_sub s <> Z.shiftl (depth_level p) 16)).
Proof.
  intros Hok Hn (k & after & next & Hk & Hx & Ht & Hc & H1 & H2 & Hp).
  destruct (decide (k = depth_key p)) as [->|Hne].
  - rewrite lookup_insert_eq in Hk. injection Hk as <-.
    unfold next_pass in Hx. replace (length (p :: rest) - S (length rest))%nat with 0%nat in Hx by (cbn; lia).
    injection Hx as <-. rewrite touched_between_first in Ht. cbn [depth_key fst snd] in *.
    split; [right; by rewrite H1|]. left. by repeat split.
  - rewrite lookup_insert_ne in Hk by done.
    destruct (cleared_skip p rest nu s k after next) as [Hu Ha]; [done..|]. split; [done|right]. split; [done|].
    rewrite H1, H2. destruct k as [t l]. cbn in *. unfold depth_key in Hne.
    destruct (decide (t = depth_texture p)) as [->|]; [right|by left].
    intros Hl%shiftl16_inj. by subst.
Qed.

Lemma cleared_cons_none p rest nu s :
  uses_ok rest nu -> cleared_ahead (p :: rest) nu s -> unread p (s_texture s) /\ cleared_ahead rest nu s.
Proof.
  intros Hok (k & after & next & Hk & Hx & Ht & Hc & H1 & H2 & Hp).
  by apply (cleared_skip p rest nu s k after next).
Qed.

Lemma uses_ok_cons p rest nu :
  uses_ok rest nu -> depth_texture p <> 0 -> uses_ok (p :: rest) (<[depth_key p := length rest]> nu).
Proof.
  intros Hok Hn k after Hk. destruct (decide (k = depth_key p)) as [->|Hne].
  - rewrite lookup_insert_eq in Hk. injection Hk as <-. split; [cbn; lia|]. split; [done|].
    unfold next_pass. replace (length (p :: rest) - S (length rest))%nat with 0%nat by (cbn; lia).
    by intros next [= <-].
  - rewrite lookup_insert_ne in Hk by done. destruct (Hok k after Hk) as (Hlt & H1 & H2).
    split; [cbn; lia|]. split; [done|]. intros next Hx. apply H2. by rewrite next_pass_cons in Hx.
Qed.

Lemma uses_ok_cons_none p rest nu : uses_ok rest nu -> uses_ok (p :: rest) nu.
Proof.
  intros Hok k after Hk. destruct (Hok k after Hk) as (Hlt & H1 & H2).
  split; [cbn; lia|]. split; [done|]. intros next Hx. apply H2. by rewrite next_pass_cons in Hx.
Qed.

(** A pass over memories that agree off [dead], when what it attaches of [dead]
    it clears whole and what it discards more than before is dead behind it. *)
Lemma depth_stores_le dead dead' p q m1 m2 :
  wf p -> same_shape p q -> (forall sl, load_action q sl = load_action p sl) ->
  (forall s, dead s -> unread p (s_texture s) /\ (s_plane s = DepthPlane \/ s_plane s = StencilPlane)) ->
  (forall sl, store_action q sl = store_action p sl
     \/ depth_planes sl /\ forall s, attached p sl = Some s -> dead' s) ->
  (forall sl s, depth_planes sl -> attached p sl = Some s -> dead s -> ~ dead' s ->
     (exists v, load_action p sl = LClear v) /\ covers p sl = true) ->
  (forall sl s, depth_planes sl -> attached p sl = Some s -> dead s -> load_action p sl <> LLoad) ->
  (forall s, dead s -> dead' s \/ exists sl, attached p sl = Some s) ->
  mem_le dead m1 m2 -> mem_le dead' (run_pass views p m1) (run_pass views q m2).
Proof.
  intros W Hpq Hl Hdead Hs Hatt Hload Hout Hm.
  destruct (unread_not_read dead p W (λ s Hs, proj1 (Hdead s Hs))) as [Hsam Hbl].
  assert (forall sl s, attached p sl = Some s -> dead s -> depth_planes sl) as Hplane.
  { intros sl s Ha Hd. apply attached_plane in Ha. destruct (Hdead s Hd) as [_ [Hp|Hp]]; rewrite Hp in Ha;
      destruct sl; try done; [by left|by right]. }
  apply (run_pass_sim dead nowhere nowhere); [done..|apply carries_nowhere| |].
  - intros sl s _ Ha px v. rewrite Hl, <- (same_shape_blits p q) by done. unfold loaded.
    destruct (load_action p sl) eqn:El; try done. apply run_blits_le with (dead := dead); [done|done|].
    intros Hd. by apply (Hload sl s (Hplane sl s Ha Hd) Ha Hd).
  - intros s Hns. unfold closes. destruct (resolving views p s) as [sl|] eqn:Er.
    + split; [intros []|left]. intros Hd. apply resolving_plane in Er. destruct (Hdead s Hd) as [_ [Hp|Hp]]; congruence.
    + destruct (slot_of p s) as [sl|] eqn:Es.
      * apply slot_of_attached in Es. destruct (Hs sl) as [->|[_ Hd]]; [|by apply Hd in Es].
        destruct (store_action p sl); [right|by left]. split; [done|]. split; [intros []|].
        destruct sl as [i| | |]; [left; by eapply (wf_area _ _ _ _ _ W)| | |right];
          [destruct (covers p SlotDepth) eqn:Ec; [by left|right]
          |destruct (covers p SlotStencil) eqn:Ec; [by left|right]|];
          (split; [intros Hd|unfold discards_load; by rewrite Hl]).
        -- destruct (Hatt _ s (Hplane _ s Es Hd) Es Hd Hns) as [_ H]. by rewrite Ec in H.
        -- destruct (Hatt _ s (Hplane _ s Es Hd) Es Hd Hns) as [_ H]. by rewrite Ec in H.
        -- destruct (Hplane _ s Es Hd) as [H|H]; discriminate H.
      * intros Hd. destruct (Hout s Hd) as [|[sl Hsl]]; [done|]. by apply slot_of_None with (sl := sl) in Es.
Qed.

Lemma cleared_planes rest nu s : cleared_ahead rest nu s -> s_plane s = DepthPlane \/ s_plane s = StencilPlane.
Proof. intros (? & ? & ? & _ & _ & _ & _ & _ & _ & [[-> _]|[-> _]]); auto. Qed.

Lemma clears_plane_slot p s :
  wf p -> depth_texture p <> 0 -> clears_plane p s ->
  exists sl v, depth_planes sl /\ attached p sl = Some s /\ load_action (T := T) p sl = LClear v /\ covers p sl = true.
Proof.
  intros W Hn (Hc & H1 & H2 & Hp). pose proof (covers_depth p (wf_depth_size _ _ _ _ _ W) Hn Hc) as Hcov.
  apply Z.eqb_neq in Hn as Hn'. destruct s as [t sub pl]. cbn in *. subst t sub.
  destruct Hp as [[-> Hd]|(-> & Hd & Hpl)].
  - exists SlotDepth. cbn. rewrite Hn'. destruct (depth_load p) as [|v|]; try done.
    exists (depth_texel v). repeat split; [by left|]. apply Hcov. by left.
  - exists SlotStencil. cbn. rewrite Hn', (wf_depth_planes _ _ _ _ _ W Hn), Hpl. cbn.
    destruct (stencil_load p) as [|v|]; try done.
    exists (stencil_texel v). repeat split; [by right|]. apply Hcov. by right.
Qed.

Lemma attached_unique p sl1 sl2 s : wf p -> attached p sl1 = Some s -> attached p sl2 = Some s -> sl1 = sl2.
Proof. intros W. apply W. Qed.

Lemma before_clears_le ps m1 m2 :
  Forall wf ps ->
  let '(ps', nu) := discard_depth_stores_before_clears views sampled seen ps in
  Forall2 same_shape ps ps' /\ uses_ok ps' nu
  /\ (mem_le (cleared_ahead ps' nu) m1 m2 -> mem_le nowhere (run_passes views ps m1) (run_passes views ps' m2)).
Proof.
  revert m1 m2. induction ps as [|p ps IH]; intros m1 m2 Hwf.
  - split; [constructor|]. split; [by intros k after Hk; rewrite lookup_empty in Hk|].
    intros Hm s _. apply Hm. intros (k & after & next & Hk & _). by rewrite lookup_empty in Hk.
  - apply Forall_cons in Hwf as [W Hwf]. rewrite before_clears_cons.
    destruct (discard_depth_stores_before_clears views sampled seen ps) as [ps' nu].
    destruct (IH m1 m2 Hwf) as (Hsh & Hok & _). destruct (depth_texture p =? 0) eqn:Et.
    + split; [by constructor|]. split; [by apply uses_ok_cons_none|]. intros Hm. rewrite !run_passes_cons.
      apply IH; [done|]. apply (depth_stores_le (cleared_ahead (p :: ps') nu)); auto; try reflexivity.
      * intros s Hd. split; [by apply (cleared_cons_none p ps' nu)|by eapply cleared_planes].
      * intros sl s Hsl Ha _ _. apply Z.eqb_eq in Et. by destruct (attached_depth p sl s Ha Hsl).
      * intros sl s Hsl Ha _. apply Z.eqb_eq in Et. by destruct (attached_depth p sl s Ha Hsl).
      * intros s Hd. left. by apply (cleared_cons_none p ps' nu).
    + apply Z.eqb_neq in Et. destruct (before_clear_spec nu ps' p) as (H1 & H2 & H3 & H4 & H5).
      set (q := before_clear nu ps' p) in *. destruct (same_shape_depth p q H1) as (Hq1 & Hq2 & _).
      assert (wf q) as Wq by (by eapply pass_wf_shape). assert (depth_texture q <> 0) as Etq by (by rewrite <- Hq1).
      assert (depth_key p = depth_key q) as Hkey by (unfold depth_key; by rewrite Hq1, Hq2). rewrite Hkey.
      split; [by constructor|]. split; [by apply uses_ok_cons|]. intros Hm. rewrite !run_passes_cons.
      apply IH; [done|].
      assert (forall s, cleared_ahead (q :: ps') (<[depth_key q := length ps']> nu) s ->
                unread q (s_texture s)
                /\ (clears_plane q s \/ cleared_ahead ps' nu s
                    /\ (s_texture s <> depth_texture q \/ s_sub s <> Z.shiftl (depth_level q) 16))) as Hd
          by (intros s; by apply cleared_cons).
      assert (forall sl s, depth_planes sl -> attached p sl = Some s ->
                cleared_ahead (q :: ps') (<[depth_key q := length ps']> nu) s ->
                (exists v, load_action (T := T) p sl = LClear v) /\ covers p sl = true) as Hcl.
      { intros sl s Hsl Ha Hds. destruct (Hd s Hds) as [_ [Hc|(_ & Hne)]].
        - destruct (clears_plane_slot q s Wq Etq Hc) as (sl' & v & _ & Ha' & Hl & Hcov).
          rewrite <- (same_shape_attached p q) in Ha' by done.
          rewrite (attached_unique p sl sl' s W Ha Ha'). rewrite H4 in Hl.
          rewrite <- (same_shape_covers p q) in Hcov by done. eauto.
        - destruct (attached_depth p sl s Ha Hsl) as (_ & ? & ?). rewrite <- Hq1, <- Hq2 in Hne. tauto. }
      apply (depth_stores_le (cleared_ahead (q :: ps') (<[depth_key q := length ps']> nu))); auto.
      * intros s Hds. destruct (Hd s Hds) as [Hu _]. split; [|by eapply cleared_planes].
        unfold unread in *. by rewrite (depth_touched_shape p q).
      * intros sl. destruct (H5 sl) as [|[Hsl Hx]]; [by left|right]. split; [done|]. by apply Hx.
      * intros sl s Hsl Ha Hds _. by apply (Hcl sl s).
      * intros sl s Hsl Ha Hds Hl. destruct (Hcl sl s Hsl Ha Hds) as [[v Hv] _]. congruence.
      * intros s Hds. destruct (Hd s Hds) as [_ [Hc|[? _]]]; [right|by left].
        destruct (clears_plane_slot q s Wq Etq Hc) as (sl' & v & _ & Ha' & _).
        exists sl'. by rewrite (same_shape_attached p q).
Qed.
End DepthStores.
