(* ===== verification/PassFrameEnd.v ===== *)
(** Rule B, the last use of a depth texture in a frame, and the discard of
    stencil planes nothing has written. *)

From S2P Require Import Prelude PassCommands PassData PassRules PassMerge PassGpu PassFacts.
From S2P Require Import PassClearOnly PassDepthStores.

Section FrameEnd.
Context {T : Type} {views : Views} `{L : GpuLaws T views} (companion : Z -> Z) (planes : Z -> bool)
  (seen sampled : gset Z).

  Abbreviation wf := (pass_wf (views := views) companion planes seen sampled).

(** ** Rule B *)

(** The depth textures whose planes may be given up at the end of the frame. *)
Definition expendable (p : Pass) : Prop :=
  depth_texture p <> 0 /\ contains (depth_flags p) SAMPLEABLE = false /\ depth_texture p ∉ seen.

Definition lost_planes (ps : list Pass) (s : Surface) : Prop :=
  (s_plane s = DepthPlane \/ s_plane s = StencilPlane)
  /\ exists p, p ∈ ps /\ expendable p /\ s_texture s = depth_texture p.

Section Lost.
Context (lost : Z -> Prop).
Hypothesis lost_unseen : forall t, lost t -> t ∉ seen.

Definition given_up (tail : gmap Z (option nat)) (s : Surface) : Prop :=
  (s_plane s = DepthPlane \/ s_plane s = StencilPlane) /\ lost (s_texture s)
  /\ tail !! s_texture s <> Some None.

Definition last_use (tail : gmap Z (option nat)) (rest : list Pass) (p : Pass) : bool :=
  match tail !! depth_texture p with
  | None => true
  | Some (Some next) => negb (depth_touched_between views sampled rest next (depth_texture p))
  | Some None => false
  end
  && negb (contains (depth_flags p) SAMPLEABLE) && negb (bool_decide (depth_texture p ∈ seen)).

Definition unused_tail (tail : gmap Z (option nat)) (rest : list Pass) (p : Pass) : bool :=
  last_use tail rest p && negb (contains (depth_flags p) USED).

Lemma last_stores_cons p rest :
  discard_last_depth_stores views sampled seen (p :: rest)
  = let '(rest', tail) := discard_last_depth_stores views sampled seen rest in
    if depth_texture p =? 0 then (p :: rest', tail)
    else ((if last_use tail rest' p then discard_depth_and_stencil p else p) :: rest',
          <[depth_texture p := if unused_tail tail rest' p then Some (length rest') else None]> tail).
Proof. cbn [discard_last_depth_stores]. by destruct (discard_last_depth_stores _ _ _ rest). Qed.

Lemma last_use_spec tail rest p :
  last_use tail rest p = true ->
  tail !! depth_texture p <> Some None /\ contains (depth_flags p) SAMPLEABLE = false /\ depth_texture p ∉ seen.
Proof.
  unfold last_use. rewrite !andb_true_iff, !negb_true_iff, bool_decide_eq_false. intros [[H ?] ?].
  repeat split; [|done..]. by destruct (tail !! _) as [[|]|].
Qed.

Lemma discard_both_shape p : same_shape p (discard_depth_and_stencil p).
Proof. reflexivity. Qed.

(** Every step forgets at most the planes that were given up already. *)
Lemma given_up_cons tail rest p s :
  given_up (<[depth_texture p := if unused_tail tail rest p then Some (length rest) else None]> tail) s ->
  given_up tail s /\ (s_texture s = depth_texture p -> unused_tail tail rest p = true).
Proof.
  intros (Hp & Hl & Ht). destruct (decide (s_texture s = depth_texture p)) as [He|Hne].
  - rewrite He, lookup_insert_eq in Ht. destruct (unused_tail tail rest p) eqn:Eu; [|done].
    apply andb_true_iff in Eu as [Eu _]. destruct (last_use_spec _ _ _ Eu) as [Hn _].
    split; [|done]. split; [done|]. by rewrite He in *.
  - rewrite lookup_insert_ne in Ht by done. done.
Qed.

Lemma depth_slot_texture p sl s :
  attached p sl = Some s -> s_plane s = DepthPlane \/ s_plane s = StencilPlane ->
  depth_planes sl /\ s_texture s = depth_texture p.
Proof.
  intros Ha Hp. assert (depth_planes sl) as Hsl.
  { apply attached_plane in Ha. destruct Hp as [Hp|Hp]; rewrite Hp in Ha; destruct sl; try done; [by left|by right]. }
  split; [done|]. by apply (attached_depth p sl s).
Qed.

Lemma given_up_not_read tail p :
  wf p -> @samples_none views (given_up tail) (commands p) /\ @blits_none views (given_up tail) (leading_blits p).
Proof.
  intros W. apply (unread_not_read companion planes seen sampled); [done|].
  intros s (_ & Hl & _). left. by apply lost_unseen.
Qed.

Lemma last_use_pass_le tail rest p m1 m2 :
  wf p -> (expendable p -> lost (depth_texture p)) -> depth_texture p <> 0 ->
  mem_le (given_up (<[depth_texture p := if unused_tail tail rest p then Some (length rest) else None]> tail)) m1 m2 ->
  mem_le (given_up tail) (run_pass views p m1)
    (run_pass views (if last_use tail rest p then discard_depth_and_stencil p else p) m2).
Proof.
  intros W Hx Ht Hm. set (tail' := <[depth_texture p := if unused_tail tail rest p then Some (length rest) else None]> tail) in Hm.
  set (q := if last_use tail rest p then _ else p).
  assert (same_shape p q) as Hpq by (unfold q; by destruct (last_use _ _ _)).
  assert (forall sl, load_action (T := T) q sl = load_action p sl) as Hl.
  { intros sl. unfold q. destruct (last_use _ _ _); [|done]. by destruct sl. }
  pose (stale := λ sl, depth_planes sl /\ unused_tail tail rest p = true).
  destruct (given_up_not_read tail' p W) as [Hsam Hbl].
  assert (forall sl s, attached p sl = Some s -> given_up tail' s -> stale sl) as Hst.
  { intros sl s Ha Hd. destruct (depth_slot_texture p sl s Ha (proj1 Hd)) as [Hsl He].
    split; [done|]. by apply (given_up_cons tail rest p s Hd). }
  assert (forall sl s, depth_planes sl -> attached p sl = Some s -> last_use tail rest p = true -> given_up tail s) as Hgive.
  { intros sl s Hsl Ha Hu. destruct (last_use_spec _ _ _ Hu) as (Hn & H1 & H2).
    destruct (attached_depth p sl s Ha Hsl) as (_ & He & _). rewrite <- He in Hn.
    split; [apply attached_plane in Ha; rewrite Ha; destruct Hsl as [->| ->]; auto|].
    split; [|done]. rewrite He. by apply Hx. }
  apply (run_pass_sim (given_up tail') stale stale); [done..| | |].
  - eapply carries_shape; [done|]. destruct (unused_tail tail rest p) eqn:Eu.
    + apply depth_unused_carries; [|by intros sl [? _]]. apply (wf_unused _ _ _ _ _ W).
      apply andb_true_iff in Eu as [_ Eu]. by apply negb_true_iff in Eu.
    + intros m t1 t2 Hle. apply (tile_le_weaken nowhere); [intros ? []|].
      apply carries_nowhere. eapply (tile_le_weaken stale); [by intros ? [_ ?]|done].
  - intros sl s Hns Ha px v. rewrite Hl, <- (same_shape_blits p q) by done. unfold loaded.
    destruct (load_action p sl); try done. apply run_blits_le with (dead := given_up tail'); [done|done|].
    intros Hd. by eapply Hns, Hst.
  - intros s Hns. assert (~ given_up tail' s) as Hnd by (intros Hd; by apply given_up_cons in Hd as [? _]).
    unfold closes. destruct (resolving views p s) as [sl|] eqn:Er.
    + split; [|by left]. intros [Hsl _]. apply resolving_color in Er as [i ->]. by destruct Hsl.
    + destruct (slot_of p s) as [sl|] eqn:Es; [|done]. apply slot_of_attached in Es.
      destruct (last_use tail rest p) eqn:Eu.
      * assert (~ depth_planes sl) as Hsl by (intros Hsl; by eapply Hns, Hgive).
        assert (store_action q sl = store_action p sl) as ->.
        { unfold q. destruct sl; try done; exfalso; apply Hsl; [by left|by right]. }
        destruct (store_action p sl); [right|by left]. split; [done|]. split; [by intros [? _]|right].
        split; [done|]. unfold discards_load. by rewrite Hl.
      * unfold q. destruct (store_action p sl); [right|by left]. split; [done|]. split.
        -- intros [_ Hu]. unfold unused_tail in Hu. by rewrite Eu in Hu.
        -- right. done.
Qed.

Lemma last_stores_le ps m1 m2 :
  Forall wf ps -> (forall p, p ∈ ps -> expendable p -> lost (depth_texture p)) ->
  let '(ps', tail) := discard_last_depth_stores views sampled seen ps in
  Forall2 same_shape ps ps'
  /\ (mem_le (given_up tail) m1 m2 -> mem_le (given_up ∅) (run_passes views ps m1) (run_passes views ps' m2)).
Proof.
  revert m1 m2. induction ps as [|p ps IH]; intros m1 m2 Hwf Hx; [by split|].
  apply Forall_cons in Hwf as [W Hwf]. rewrite last_stores_cons.
  assert (forall q, q ∈ ps -> expendable q -> lost (depth_texture q)) as Hx' by (intros q Hq; apply Hx; by right).
  destruct (discard_last_depth_stores views sampled seen ps) as [ps' tail].
  destruct (IH m1 m2 Hwf Hx') as (Hsh & _). destruct (depth_texture p =? 0) eqn:Et.
  - split; [by constructor|]. intros Hm. rewrite !run_passes_cons. apply IH; [done..|].
    destruct (given_up_not_read tail p W) as [Hsam Hbl].
    assert (forall sl s, attached p sl = Some s -> ~ given_up tail s) as Hna.
    { intros sl s Ha Hd. destruct (depth_slot_texture p sl s Ha (proj1 Hd)) as [Hsl _].
      destruct (attached_depth p sl s Ha Hsl) as (Hn & _). by apply Z.eqb_eq in Et. }
    apply (run_pass_sim (given_up tail) nowhere nowhere); [done..|apply carries_nowhere| |].
    + intros sl s _ Ha px v. unfold loaded. destruct (load_action p sl); try done.
      apply run_blits_le with (dead := given_up tail); [done|done|]. by eapply Hna.
    + intros s Hns. unfold closes. destruct (resolving views p s); [split; [intros []|by left]|].
      destruct (slot_of p s) as [sl|]; [|done]. destruct (store_action p sl); [right|by left].
      split; [done|]. split; [intros []|by right].
  - apply Z.eqb_neq in Et. split; [constructor; [by destruct (last_use _ _ _)|done]|]. intros Hm.
    rewrite !run_passes_cons. apply IH; [done..|]. apply last_use_pass_le; [done| |done..].
    apply Hx. by left.
Qed.
End Lost.

Lemma discard_last_depth_stores_le ps m :
  Forall wf ps ->
  mem_le (lost_planes ps) (run_passes views ps m)
  (run_passes views (discard_last_depth_stores views sampled seen ps).1 m).
Proof.
  intros Hwf. pose (lost := λ t, exists p, p ∈ ps /\ expendable p /\ t = depth_texture p).
  assert (forall t, lost t -> t ∉ seen) as Hl by (intros t (p & _ & (_ & _ & ?) & ->); done).
  pose proof (last_stores_le lost Hl ps m m Hwf) as H.
  destruct (discard_last_depth_stores views sampled seen ps) as [ps' tail]. cbn [fst].
  destruct H as [_ H]; [intros p Hp He; by exists p|].
  eapply mem_le_weaken; [|apply H, mem_le_refl].
  intros s (Hp & (p & Hin & He & Ht) & _). split; [done|]. by exists p.
Qed.
(** ** Stencil nothing has written *)

Section Unwritten.
Context (written : gset Z).

Definition unwritten_plane (s : Surface) : Prop := s_plane s = StencilPlane /\ s_texture s ∉ written.

(** D3D9 defines nothing in such a plane. *)
Definition blank (m : Mem T) : Prop := forall s px, unwritten_plane s -> m s px = None.

(** Every stencil write of a pass is in the set. *)
Definition stencil_noted (p : Pass) : Prop :=
  (writes_stencil_plane p = true -> depth_texture p ∈ written)
  /\ forall b tex, b ∈ leading_blits p -> blit_writes_stencil b = true -> blit_written_texture b = Some tex ->
       tex ∈ written.

Lemma blank_blits p (m : Mem T) : wf p -> stencil_noted p -> blank m -> blank (run_blits (leading_blits p) m).
Proof.
  intros W [_ Hn]. assert (forall b tex, b ∈ leading_blits p -> blit_written_texture b = Some tex -> storage views tex = tex) as Hst
      by (intros b tex Hb Ht; by destruct (wf_blit_writes _ _ _ _ _ W b tex Hb Ht)).
  revert m Hn Hst. induction (leading_blits p) as [|b bs IH]; intros m Hn Hst Hm; [done|].
  unfold run_blits. cbn [foldl]. apply IH.
  - intros b' tex Hb. apply Hn. by right.
  - intros b' tex Hb. apply Hst. by right.
  - intros s px [Hp Hs]. rewrite <- (Hm s px) by done. destruct (blit_writes_stencil b) eqn:Eb.
    + apply blit_frame. intros tex Ht. rewrite (Hst b tex) by (done || by left). intros He.
      apply Hs. rewrite He. apply (Hn b); [by left|done..].
    + by apply blit_stencil_frame.
Qed.

Lemma unwritten_slot p s :
  stencil_noted p -> unwritten_plane s -> slot_of p s = None
  \/ slot_of p s = Some SlotStencil /\ contains (depth_flags p) STENCIL_WRITTEN = false
     /\ stencil_clears (stencil_load p) = false /\ attached p SlotStencil = Some s.
Proof.
  intros [Hw _] [Hp Hs]. destruct (slot_of p s) as [sl|] eqn:E; [right|by left].
  apply slot_of_attached in E. pose proof (attached_plane p sl s E) as Hpl. rewrite Hp in Hpl.
  destruct sl; try done. destruct (attached_depth p _ s E ltac:(by right)) as (Hn & Ht & _).
  assert (writes_stencil_plane p = false) as Hf.
  { apply not_true_iff_false. intros Hx. apply Hs. rewrite Ht. by apply Hw. }
  unfold writes_stencil_plane in Hf. apply Z.eqb_neq in Hn. rewrite Hn in Hf. cbn in Hf.
  by apply orb_false_iff in Hf as [? ?].
Qed.

Lemma blank_pass p m : wf p -> stencil_noted p -> blank m -> blank (run_pass views p m).
Proof.
  intros W Hn Hm s px Hs. pose proof (blank_blits p m W Hn Hm) as Hb. unfold run_pass, run_render, close_tile.
  destruct (resolving views p s) eqn:Er.
  { apply resolving_plane in Er. destruct Hs as [Hp _]. congruence. }
  destruct (unwritten_slot p s Hn Hs) as [->|(-> & Hw & Hc & Ha)]; [by apply Hb|].
  destruct (store_action p SlotStencil); [|done].
  destruct (reaches p SlotStencil px) eqn:Ere.
  - rewrite (wf_stencil_kept _ _ _ _ _ W Hw), open_tile_eq, Ha. cbn [mbind option_bind]. rewrite Ere.
    unfold loaded. cbn [load_action]. destruct (stencil_load p); [by apply Hb|done|done].
  - destruct (discards_load p SlotStencil); [done|by apply Hb].
Qed.

Lemma discard_stencil_shape p : same_shape p (discard_stencil written p).
Proof.
  unfold discard_stencil. destruct (_ || _ || _); [done|]. by destruct (stencil_loads _).
Qed.

Lemma discard_stencil_pass_le p m :
  wf p -> stencil_noted p -> blank m ->
  mem_le nowhere (run_pass views p m) (run_pass views (discard_stencil written p) m).
Proof.
  intros W Hn Hm.
  assert (mem_le unwritten_plane (run_pass views p m) (run_pass views (discard_stencil written p) m)) as Hle.
  2:{ intros s _ px v. destruct (decide (s_plane s = StencilPlane /\ s_texture s ∉ written)) as [Hu|Hu].
      - by rewrite (blank_pass p m W Hn Hm s px Hu).
      - by apply Hle. }
  unfold discard_stencil. destruct (_ || _ || _) eqn:E; [apply mem_le_refl|].
  apply orb_false_iff in E as [E Hw]. apply bool_decide_eq_false in Hw.
  set (q := with_depth p _). assert (same_shape p q) as Hpq by (unfold q; by destruct (stencil_loads _)).
  assert (forall sl, sl <> SlotStencil -> load_action (T := T) q sl = load_action p sl /\ store_action q sl = store_action p sl) as Ho
      by (intros sl Hsl; unfold q; destruct (stencil_loads _), sl; done).
  apply (run_pass_sim nowhere nowhere nowhere);
    [done|apply mem_le_refl|apply samples_nowhere|apply blits_nowhere|apply carries_nowhere| |].
  - intros sl s _ Ha. rewrite <- (same_shape_blits p q) by done.
    destruct (decide (sl = SlotStencil)) as [->|Hsl]; [|destruct (Ho sl Hsl) as [-> _]; apply texels_le_refl].
    assert (unwritten_plane s) as Hu.
    { split; [by apply attached_plane in Ha|]. destruct (attached_depth p _ s Ha ltac:(by right)) as (_ & -> & _). done. }
    intros px v. unfold loaded. cbn [load_action]. unfold q, stencil_load at 2. cbn [depth with_depth].
    destruct (stencil_load p) eqn:El; cbn [stencil_loads stencil_load_ set_stencil_load set_stencil_store];
      [by rewrite (blank_blits p m W Hn Hm)| |done].
    unfold stencil_load in El. cbn. by rewrite El.
  - intros s Hns. unfold closes. destruct (resolving views p s) as [sl|]; [split; [intros []|left; intros []]|].
    destruct (slot_of p s) as [sl|] eqn:Es; [|intros []]. apply slot_of_attached in Es.
    assert (sl <> SlotStencil) as Hsl.
    { intros ->. apply Hns. split; [by apply attached_plane in Es|].
      destruct (attached_depth p _ s Es ltac:(by right)) as (_ & -> & _). done. }
    destruct (Ho sl Hsl) as [Hl ->]. destruct (store_action p sl); [right|by left]. split; [done|].
    split; [intros []|right]. split; [intros []|]. unfold discards_load. by rewrite Hl.
Qed.

Lemma discard_stencil_le ps m1 m2 :
  Forall wf ps -> Forall stencil_noted ps -> blank m1 -> mem_le nowhere m1 m2 ->
  mem_le nowhere (run_passes views ps m1) (run_passes views (discard_stencil written <$> ps) m2).
Proof.
  revert m1 m2. induction ps as [|p ps IH]; intros m1 m2 Hwf Hn Hb Hm; [done|].
  apply Forall_cons in Hwf as [W Hwf]. apply Forall_cons in Hn as [Hp Hn]. cbn [fmap list_fmap].
  rewrite !run_passes_cons. apply IH; [done..|by apply blank_pass|].
  eapply mem_le_trans; [by apply discard_stencil_pass_le|]. by apply run_pass_mono.
Qed.
End Unwritten.

Lemma note_stencil_writes_spec written ps t :
  t ∈ note_stencil_writes written ps
  <-> t ∈ written \/ exists p, p ∈ ps /\ writes_stencil_plane p = true /\ depth_texture p = t.
Proof.
  unfold note_stencil_writes. revert written. induction ps as [|p ps IH]; intros written; cbn [foldl].
  - split; [by left|]. intros [?|(p & Hp & _)]; [done|]. by apply not_elem_of_nil in Hp.
  - rewrite IH. split.
  + intros [Ht|(q & Hq & H1 & H2)]; [|right; exists q; split; [by right|done]].
    destruct (writes_stencil_plane p) eqn:E; [|by left].
    apply elem_of_union in Ht as [->%elem_of_singleton|Ht]; [right|by left]. exists p. split; [by left|done].
  + intros [Ht|(q & Hq & H1 & H2)]; [left; destruct (writes_stencil_plane p); [apply elem_of_union; by right|done]|].
    apply elem_of_cons in Hq as [->|Hq]; [|right; by exists q].
    left. rewrite H1, H2. apply elem_of_union. left. by apply elem_of_singleton.
Qed.
End FrameEnd.
