(* ===== verification/PassOverwritten.v ===== *)
(** Rule I: a clear-only pass goes when everything it clears is overwritten whole
    before anything reads it. *)

From S2P Require Import Prelude PassCommands PassData PassRules PassMerge PassGpu PassFacts.
From S2P Require Import PassClearOnly PassDepthStores.

Lemma subresource_parts sub : Z.lor (Z.land sub 65535) (Z.shiftl (Z.shiftr sub 16) 16) = sub.
Proof.
  apply Z.bits_inj'. intros n Hn. change 65535 with (Z.ones 16).
  rewrite Z.lor_spec, Z.land_spec, Z.shiftl_spec, Z.testbit_ones_nonneg by lia.
  destruct (Z.ltb_spec n 16).
  - rewrite andb_true_r, (Z.testbit_neg_r _ (n - 16)), orb_false_r by lia. done.
  - rewrite andb_false_r, Z.shiftr_spec by lia. cbn. f_equal. lia.
Qed.

Section Overwritten.
Context {T : Type} {views : Views} `{L : GpuLaws T views} (companion : Z -> Z) (planes : Z -> bool)
  (seen sampled : gset Z).

  Abbreviation wf := (pass_wf (views := views) companion planes seen sampled).

(** The surface a target stands for. *)
Definition target_surface (t : ClearedTarget) : Surface :=
  surface (t_texture t) (Z.lor (t_slice t) (Z.shiftl (t_level t) 16)) (if t_depth t then DepthPlane else ColorPlane).

(** The surfaces of the targets still to be overwritten. *)
Definition among (ts : list ClearedTarget) (s : Surface) : Prop := s ∈ target_surface <$> ts.

Lemma among_iff ts s : among ts s <-> exists t, t ∈ ts /\ s = target_surface t.
Proof. unfold among. rewrite list_elem_of_fmap. naive_solver. Qed.

Record target_ok (t : ClearedTarget) : Prop := {
  ok_texture : t_texture t <> 0;
  ok_companion : no_companion companion (t_texture t);
  ok_base : storage views (t_texture t) = t_texture t;
  ok_size : t_size t = plane_extent (target_surface t) }.

(** What the code takes for overwriting a target does overwrite it whole. *)
Lemma overwrites_effect b t :
  target_ok t -> blit_effect_on b t views = Overwrites ->
  overwrites_whole views b (target_surface t) (plane_extent (target_surface t)).
Proof.
  intros Hok. unfold blit_effect_on, overwrites_whole. rewrite <- (ok_size t Hok).
  assert (forall h, handle_names_texture h (t_texture t) views = true -> h <> 0 /\ t_texture t = storage views h) as Hn.
  { intros h Hh. unfold handle_names_texture, names in Hh. destruct (h =? 0) eqn:H0; [done|]. destruct (t_texture t =? 0); [done|]. cbn [orb] in Hh.
    apply Z.eqb_neq in H0. split; [done|]. apply orb_true_iff in Hh as [Hh|Hh].
    - apply Z.eqb_eq in Hh as ->. symmetry. apply (ok_base t Hok).
    - apply bool_decide_eq_true in Hh. unfold storage. by rewrite Hh. }
  destruct (blit_from_repr (b_cmd b)) as [[]|]; try (by repeat case_match).
  - destruct (handle_names_texture (src_handle b) _ _); [done|]. destruct (_ && _) eqn:E; [|done]. intros _.
    rewrite !andb_true_iff, bool_decide_eq_true, !Z.eqb_eq, Z.leb_le in E.
    destruct E as (((((Hh & Hl) & Hs) & Ho) & Hd) & Hr). destruct (Hn _ Hh) as [H0 Ht].
    split_and!; [done|done| |by cbn; destruct (t_depth t); auto|done..]. cbn. by rewrite Hl, Hs.
  - destruct (handle_names_texture (src_handle b) _ _); [done|]. destruct (_ && _) eqn:E; [|done]. intros _.
    rewrite !andb_true_iff, !Z.eqb_eq in E. destruct E as (((Hp & Hs) & Hh) & Hl). destruct (Hn _ Hh) as [H0 Ht].
    split_and!; [done|done| |by cbn; rewrite Hp]. cbn. by rewrite Hl, Hs, Z.lor_0_l.
Qed.

Lemma read_effect b t tex :
  t_texture t <> 0 -> blit_read_texture b = Some tex -> storage views tex = t_texture t ->
  blit_effect_on b t views = Reads.
Proof.
  intros Ht Hr Hs. apply storage_names in Hs. unfold blit_read_texture in Hr. unfold blit_effect_on, handle_names_texture.
  rewrite (proj2 (Z.eqb_neq (t_texture t) 0) Ht). destruct (blit_from_repr (b_cmd b)) as [[]|]; try done.
  - destruct (src_handle b =? 0) eqn:E; [done|]. injection Hr as <-. cbn. by rewrite Hs.
  - destruct (dst_handle b =? 0) eqn:E; [done|]. injection Hr as <-. cbn. by rewrite Hs.
  - destruct (src_handle b =? 0) eqn:E; [done|]. injection Hr as <-. cbn. by rewrite Hs.
Qed.

Definition untouched_by (b : BlitCommand) (t : ClearedTarget) : bool :=
  match blit_effect_on b t views with Neither => true | _ => false end.
Definition undecided_by (bs : list BlitCommand) (t : ClearedTarget) : bool :=
  match blits_decide views t bs with None => true | _ => false end.

Lemma elem_filter {A} (f : A -> bool) l x : x ∈ List.filter f l <-> x ∈ l /\ f x = true.
Proof. by rewrite !list_elem_of_In, List.filter_In. Qed.

(** The blits leave the targets they overwrite in order. *)
Lemma blits_decide_le bs ts m1 m2 :
  (forall t, t ∈ ts -> blits_decide views t bs <> Some false /\ target_ok t) ->
  mem_le (among ts) m1 m2 ->
  mem_le (among (List.filter (undecided_by bs) ts)) (run_blits bs m1) (run_blits bs m2).
Proof.
  revert ts m1 m2. induction bs as [|b bs IH]; intros ts m1 m2 Hts Hm.
  { eapply mem_le_weaken; [|exact Hm]. intros s (t & Ht & ->)%among_iff. apply among_iff. exists t.
    split; [|done]. by apply elem_filter. }
  assert (forall t, t ∈ ts -> blit_effect_on b t views <> Reads) as Hnr.
  { intros t Ht He. destruct (Hts t Ht) as [Hd _]. cbn in Hd. by rewrite He in Hd. }
  assert (mem_le (among (List.filter (untouched_by b) ts)) (blit b m1) (blit b m2)) as Hb.
  { intros s Hs. apply (blit_mono b (among ts)); [|done|].
    - intros tex Hr (s' & (t & Ht & ->)%among_iff & He & _). apply (Hnr t Ht).
      eapply read_effect; [by apply ok_texture, Hts|done|done].
    - destruct (decide (s ∈ target_surface <$> ts)) as [Hin|]; [right|by left].
      apply among_iff in Hin as (t & Ht & ->).
      destruct (blit_effect_on b t views) eqn:E; [by apply Hnr in E|apply overwrites_effect; [by apply Hts|done]|].
      exfalso. apply Hs, among_iff. exists t. split; [|done]. apply elem_filter. unfold untouched_by. by rewrite E. }
  unfold run_blits. cbn [foldl]. eapply mem_le_weaken; [|apply (IH _ _ _) in Hb; [exact Hb|]].
  - intros s (t & Ht & ->)%among_iff. apply among_iff. exists t. split; [|done].
    apply elem_filter in Ht as [Ht Hd]. apply elem_filter in Ht as [Ht He]. apply elem_filter. split; [done|].
    unfold undecided_by, untouched_by in *. cbn. by destruct (blit_effect_on b t views).
  - intros t [Ht He]%elem_filter. destruct (Hts t Ht) as [Hd Hn]. split; [|done]. cbn in Hd.
    unfold untouched_by in He. by destruct (blit_effect_on b t views).
Qed.

(** A pass that neither samples nor attaches the targets carries them on. *)
Lemma unattached p t sl :
  wf p -> target_ok t -> pass_attaches_texture p (t_texture t) = false -> attached p sl <> Some (target_surface t).
Proof.
  intros W [Hn Hno _ _] Ha. unfold pass_attaches_texture in Ha. apply Z.eqb_neq in Hn as Hn'. rewrite Hn' in Ha.
  cbn [negb andb] in Ha. apply orb_false_iff in Ha as [Ha He]. apply orb_false_iff in Ha as [Hc Hd].
  intros Hs. destruct sl as [i| | |].
  - cbn in Hs. destruct (color_slots p !! i) as [a|] eqn:Hi; [|done]. cbn in Hs.
    destruct (is_bound a) eqn:Hb; [|done]. apply (inj Some) in Hs. pose proof (list_elem_of_lookup_2 _ _ _ Hi) as Hin.
    pose proof (wf_companion _ _ _ _ _ W a Hin Hb) as Hcomp. rewrite Hs in Hcomp. cbn in Hcomp.
    assert (texture a = t_texture t) as Ht by (apply Hno; by rewrite Hcomp).
    apply elem_of_cons in Hin as [->|Hin].
    + unfold color_texture in Hc. rewrite Ht, Z.eqb_refl in Hc. done.
    + apply not_true_iff_false in He. apply He, existsb_exists. exists a.
      split; [by apply list_elem_of_In|]. by apply Z.eqb_eq.
  - destruct (attached_depth p _ _ Hs ltac:(by left)) as (_ & Ht & _). cbn in Ht.
    rewrite <- Ht, Z.eqb_refl in Hd. done.
  - destruct (attached_depth p _ _ Hs ltac:(by right)) as (_ & Ht & _). cbn in Ht.
    rewrite <- Ht, Z.eqb_refl in Hd. done.
  - injection Hs as _ _ Hp. by destruct (t_depth t).
Qed.

Lemma overwritten_scan_le rest ts m1 m2 :
  Forall wf rest ->
  (forall t, t ∈ ts -> overwritten_scan views sampled t rest = true /\ target_ok t) ->
  mem_le (among ts) m1 m2 ->
  mem_le nowhere (run_passes views rest m1) (run_passes views rest m2).
Proof.
  revert ts m1 m2. induction rest as [|p rest IH]; intros ts m1 m2 Hwf Hts Hm.
  { eapply mem_le_weaken; [|exact Hm]. intros s (t & Ht & _)%among_iff. by destruct (Hts t Ht). }
  apply Forall_cons in Hwf as [W Hwf]. rewrite !run_passes_cons.
  set (ts' := List.filter (undecided_by (leading_blits p)) ts).
  assert (forall t, t ∈ ts' ->
    pass_samples_texture p (t_texture t) views sampled = false
    /\ pass_attaches_texture p (t_texture t) = false
    /\ overwritten_scan views sampled t rest = true /\ target_ok t) as Hts'.
  { intros t [Ht Hu]%elem_filter. destruct (Hts t Ht) as [Hs Hok]. cbn in Hs. unfold undecided_by in Hu.
    destruct (blits_decide views t (leading_blits p)); [done|].
    destruct (_ || _ || _) eqn:E; [done|]. apply orb_false_iff in E as [E _]. by apply orb_false_iff in E as [? ?]. }
  assert (mem_le (among ts') (run_blits (leading_blits p) m1) (run_blits (leading_blits p) m2)) as Hb.
  { apply blits_decide_le; [|done]. intros t Ht. destruct (Hts t Ht) as [Hs Hok]. split; [|done].
    cbn in Hs. by destruct (blits_decide views t (leading_blits p)) as [[]|]. }
  apply (IH ts'); [done|intros t Ht; by destruct (Hts' t Ht) as (_ & _ & ? & ?)|]. unfold run_pass.
  assert (forall sl s, attached p sl = Some s -> ~ among ts' s) as Hna.
  { intros sl s Ha (t & Ht & ->)%among_iff. destruct (Hts' t Ht) as (_ & Hx & _ & Hok). by eapply unattached. }
  apply (run_render_sim (among ts') nowhere nowhere); [done|done| |apply carries_nowhere| |].
  - eapply wf_samples_none; [done|]. intros s (t & Ht & ->)%among_iff _. right.
    destruct (Hts' t Ht) as (Hx & _ & _ & [Hn _ _ _]). by rewrite (pass_samples_eq companion planes seen) in Hx.
  - intros sl s _ Ha px v. unfold loaded. destruct (load_action p sl); try done. apply Hb. by eapply Hna.
  - intros s Hns. unfold closes. destruct (resolving views p s); [split; [intros []|by left]|].
    destruct (slot_of p s) as [sl|]; [|done]. destruct (store_action p sl); [right|by left].
    split; [done|]. split; [intros []|by right].
Qed.
(** ** The pass that goes *)

Lemma color_target_surface a :
  is_bound a = true -> msaa_texture a = 0 ->
  target_surface (mkTarget (texture a) (slice a) (level a) (size a) false) = color_surface a.
Proof.
  intros _ Hm. unfold target_surface, color_surface, slice, level. cbn.
  by rewrite Hm, subresource_parts, Z.eqb_refl.
Qed.

Lemma candidate_spec p ts :
  dead_clear_candidate p = Some ts ->
  clear_only p = true
  /\ (forall a, a ∈ color_slots p -> resolve_texture a = 0 /\ msaa_texture a = 0)
  /\ (depth_texture p <> 0 -> stencil_clears (stencil_load p) = false)
  /\ (forall t, t ∈ ts ->
        (exists a, a ∈ color_slots p /\ is_bound a = true /\ t_texture t = texture a
           /\ target_surface t = color_surface a /\ t_size t = size a)
        \/ depth_texture p <> 0 /\ t_texture t = depth_texture p
           /\ target_surface t = depth_surface p /\ t_size t = depth_size p)
  /\ (forall a, a ∈ color_slots p -> is_bound a = true -> color_clears (load a) = true -> among ts (color_surface a))
  /\ (depth_texture p <> 0 -> depth_clears (depth_load p) = true -> among ts (depth_surface p)).
Proof.
  unfold dead_clear_candidate. destruct (_ || _) eqn:E; [done|].
  apply orb_false_iff in E as [E Hst]. apply orb_false_iff in E as [E Hms].
  apply orb_false_iff in E as [E Hdr]. apply orb_false_iff in E as [Hb _]. apply negb_false_iff in Hb.
  set (ts0 := concat _ ++ _). destruct (bool_decide (ts0 = [])); [done|]. intros [= <-].
  assert (forall a, a ∈ color_slots p -> resolve_texture a = 0 /\ msaa_texture a = 0) as Hcol.
  { intros a Ha. apply not_true_iff_false in Hms. rewrite existsb_exists in Hms.
    destruct (resolve_texture a =? 0) eqn:E1, (msaa_texture a =? 0) eqn:E2;
      [by rewrite Z.eqb_eq in E1; rewrite Z.eqb_eq in E2| | |]; exfalso; apply Hms; exists a; rewrite E1, E2;
      (split; [by apply list_elem_of_In|done]). }
  split; [unfold clear_only; by rewrite Hdr, Hb|]. split; [done|]. split.
  { intros Hn. apply Z.eqb_neq in Hn. rewrite Hn in Hst. done. }
  assert (forall t, t ∈ concat (color_target <$> color_slots p) <->
            exists a, a ∈ color_slots p /\ is_bound a = true /\ color_clears (load a) = true
              /\ t = mkTarget (texture a) (slice a) (level a) (size a) false) as Hct.
  { intros t. rewrite list_elem_of_In, in_concat. setoid_rewrite <- list_elem_of_In.
    setoid_rewrite list_elem_of_fmap. unfold color_target. split.
    - intros (l & (a & -> & Ha) & Ht). destruct (is_bound a) eqn:E1, (color_clears (load a)) eqn:E2; cbn in Ht;
        try by apply not_elem_of_nil in Ht. apply list_elem_of_singleton in Ht as ->. by exists a.
    - intros (a & Ha & E1 & E2 & ->). eexists. split; [by exists a|]. rewrite E1, E2. by left. }
  split; [|split].
  - intros t Ht. apply elem_of_app in Ht as [Ht|Ht].
    + apply Hct in Ht as (a & Ha & Hbd & _ & ->). left. exists a. split_and!; try done.
      apply color_target_surface; [done|]. by apply Hcol.
    + destruct (depth_texture p =? 0) eqn:Ez; cbn in Ht; [by apply not_elem_of_nil in Ht|].
      destruct (depth_clears _); [|by apply not_elem_of_nil in Ht].
      apply list_elem_of_singleton in Ht as ->. right. by apply Z.eqb_neq in Ez.
  - intros a Ha Hbd Hc. apply among_iff. eexists. split.
    + apply elem_of_app. left. apply Hct. by exists a.
    + symmetry. apply color_target_surface; [done|]. by apply Hcol.
  - intros Hn Hc. apply among_iff. eexists. split.
    + apply elem_of_app. right. apply Z.eqb_neq in Hn. rewrite Hn, Hc. by left.
    + unfold target_surface, depth_surface. cbn. done.
Qed.

Lemma candidate_le p ts m :
  dead_clear_candidate p = Some ts -> mem_le (among ts) (run_pass views p m) m.
Proof.
  intros Hc. destruct (candidate_spec p ts Hc) as (Hco & Hcol & Hst & _ & Hcl & Hdp).
  intros s Hs px v. rewrite clear_only_run by done.
  rewrite unwritten_resolves by (intros a Ha _; by apply Hcol).
  destruct (slot_of p s) as [sl|] eqn:E; [|done]. apply slot_of_attached in E.
  apply left_behind_le. unfold slot_written. destruct (load_action p sl) eqn:El; [done| |done].
  exfalso. apply Hs. destruct sl as [i| | |]; cbn in E, El.
  - destruct (color_slots p !! i) as [a|] eqn:Hi; [|done]. cbn in E. destruct (is_bound a) eqn:Hb; [|done].
    injection E as <-. apply Hcl; [by eapply list_elem_of_lookup_2|done|]. unfold color_action in El. by destruct (load a).
  - destruct (depth_texture p =? 0) eqn:Ez; [done|]. apply (inj Some) in E as <-. apply Z.eqb_neq in Ez.
    apply Hdp; [done|]. by destruct (depth_load p).
  - destruct (depth_texture p =? 0) eqn:Ez; [done|]. apply Z.eqb_neq in Ez. specialize (Hst Ez).
    by destruct (stencil_load p).
  - done.
Qed.

Lemma drop_overwritten_le ps m :
  Forall wf ps ->
  Forall wf (drop_overwritten_clear_only_passes views sampled ps)
  /\ mem_le nowhere (run_passes views ps m)
       (run_passes views (drop_overwritten_clear_only_passes views sampled ps) m).
Proof.
  revert m. induction ps as [|p ps IH]; intros m Hwf; [split; [done|apply mem_le_refl]|].
  apply Forall_cons in Hwf as [W Hwf]. cbn [drop_overwritten_clear_only_passes].
  set (rest := drop_overwritten_clear_only_passes views sampled ps) in *.
  destruct (dead_clear_candidate p) as [ts|] eqn:Ec;
    [|split; [constructor; [done|by apply (IH m)]|rewrite !run_passes_cons; by apply IH]].
  destruct (forallb _ ts) eqn:Ef; [|split; [constructor; [done|by apply (IH m)]|rewrite !run_passes_cons; by apply IH]].
  split; [by apply (IH m)|]. rewrite run_passes_cons.
  eapply mem_le_trans; [by apply IH|]. apply (overwritten_scan_le rest ts); [by apply (IH m)| |by apply candidate_le].
  intros t Ht. rewrite forallb_forall in Ef. specialize (Ef t). rewrite <- list_elem_of_In in Ef. specialize (Ef Ht).
  unfold overwritten_before_read in Ef. destruct (_ || _); [done|]. split; [done|].
  destruct (candidate_spec p ts Ec) as (_ & _ & _ & Htex & _).
  destruct (Htex t Ht) as [(a & Ha & Hb & Htx & Hs & Hz)|(Hn & Htx & Hs & Hz)].
  - destruct (wf_color_base _ _ _ _ _ W a Ha Hb) as [Hst Hno]. split; rewrite ?Htx, ?Hs, ?Hz; try done.
    + unfold is_bound in Hb. by apply negb_true_iff, Z.eqb_neq in Hb.
    + by apply (wf_extents _ _ _ _ _ W).
  - destruct (wf_depth_base _ _ _ _ _ W Hn) as [Hst Hno]. split; rewrite ?Htx, ?Hs, ?Hz; try done.
    by apply (wf_depth_extent _ _ _ _ _ W).
Qed.
End Overwritten.
