(* ===== verification/PassFold.v ===== *)
(** Rule E: a clear-only pass folded into the load actions of the next pass on
    its targets.  The two runs differ in the surfaces the removed pass wrote,
    which in the longer run hold what its load actions left until the target
    loads them; the target of the shorter run clears them instead. *)

From S2P Require Import Prelude PassCommands PassData PassRules PassMerge PassGpu PassFacts.
From S2P Require Import PassClearOnly PassColorStores PassDepthStores.

Section Fold.
Context {T : Type} {views : Views} `{L : GpuLaws T views} (companion : Z -> Z) (planes : Z -> bool)
  (seen sampled : gset Z).
Hypothesis companion_inj : forall t u, companion t = companion u -> t = u.

  Abbreviation wf := (pass_wf (views := views) companion planes seen sampled).

(** What the rule needs of a pass and a later one, beyond what it tests: a
    depth texture's later uses never discard on load (only its first use
    does), and a target bound again is written through the same view. *)
Definition fold_pair (p q : Pass) : Prop :=
  (depth_texture p <> 0 -> depth_texture q = depth_texture p ->
     depth_load q <> DDontCare /\ stencil_load q <> SDontCare)
  /\ forall i a b, color_slots p !! i = Some a -> color_slots q !! i = Some b -> texture a = texture b ->
       attachment_texture a = attachment_texture b.

(** A pass the rule may drop takes no resolve. *)
Definition drops_no_resolve (p : Pass) : Prop :=
  clear_only p = true -> forall a, a ∈ color_slots p -> resolve_texture a = 0.

(** The slots whose load actions move to the target. *)
Definition moved (p : Pass) (sl : Slot) : bool :=
  match sl with
  | SlotColor i => needs_color (clear_merge p)
                   && match color_slots p !! i with Some a => negb (color_loads (load a)) | None => false end
  | SlotDepth => needs_depth (clear_merge p)
  | SlotStencil => needs_stencil (clear_merge p)
  | SlotCount => false
  end.

Definition moved_surface (p : Pass) (s : Surface) : Prop := exists sl, moved p sl = true /\ attached p sl = Some s.

(** The removed pass's surfaces hold what its load actions leave. *)
Definition pinned (p : Pass) (m : Mem T) : Prop :=
  forall sl s, moved p sl = true -> attached p sl = Some s ->
    texels_le (m s) (loaded (load_action p sl) (λ _, None)).

Definition apart (p : Pass) (m1 m2 : Mem T) : Prop := mem_le (moved_surface p) m1 m2 /\ pinned p m1.

Lemma needs_clear_only p :
  needs_color (clear_merge p) || needs_depth (clear_merge p) || needs_stencil (clear_merge p) = true ->
  clear_only p = true.
Proof.
  unfold clear_merge. cbn. destruct (clear_only p); [done|]. by cbn.
Qed.

(** A load action that is not [Load] and not moved is a discard. *)
Lemma unmoved_unwritten p sl s :
  clear_only p = true -> attached p sl = Some s -> moved p sl = false -> slot_written (T := T) p sl = false.
Proof.
  intros Hc Ha Hm. unfold slot_written, moved, clear_merge in *. rewrite Hc in Hm.
  cbn [negb needs_color needs_depth needs_stencil andb] in Hm. destruct sl as [i| | |]; cbn [load_action] in *; [| | |done].
  - cbn in Ha. destruct (color_slots p !! i) as [a|] eqn:Hi; [|done]. cbn in Ha. destruct (is_bound a) eqn:Hb; [|done].
    unfold color_action. destruct (load a) eqn:El; try done. cbn in Hm. rewrite andb_true_r in Hm.
    apply orb_false_iff in Hm as [H1 H2]. destruct i as [|i].
    + injection Hi as <-. unfold color_load in H1. by rewrite El in H1.
    + rewrite color_slots_S in Hi. apply list_elem_of_lookup_2, list_elem_of_In in Hi.
      apply not_true_iff_false in H2. exfalso. apply H2, existsb_exists. exists a. by rewrite Hb, El.
  - by destruct (depth_load p).
  - cbn in Ha. destruct (depth_texture p =? 0); [done|]. cbn in Hm. by destruct (stencil_load p).
Qed.

Lemma fold_start p m :
  wf p -> clear_only p = true -> drops_no_resolve p -> ready m p -> apart p (run_pass views p m) m.
Proof.
  intros W Hc Hr Hready. specialize (Hr Hc).
  assert (forall s, resolving views p s = None) as Hnr by (intros s; apply unwritten_resolves; auto).
  split.
  - intros s Hs px v. rewrite clear_only_run, Hnr by done.
    destruct (slot_of p s) as [sl|] eqn:E; [|done]. apply slot_of_attached in E.
    apply left_behind_le. eapply unmoved_unwritten; [done..|].
    apply not_true_iff_false. intros Hm. apply Hs. by exists sl.
  - intros sl s Hm Ha px v. rewrite clear_only_run, Hnr, (slot_of_Some p s sl (wf_distinct _ _ _ _ _ W) Ha) by done.
    unfold left_behind, discards_load, loaded. destruct (store_action p sl); [|done].
    destruct (load_action p sl) as [|w|] eqn:El; [|destruct (reaches p sl px) eqn:Er|by destruct (reaches _ _ _)].
    + exfalso. destruct sl as [i| | |]; cbn in Hm, El; [|unfold clear_merge in Hm; cbn in Hm..|done].
      * cbn in Ha. destruct (color_slots p !! i) as [a|]; [|done]. apply andb_true_iff in Hm as [_ Hm].
        unfold color_action in El. by destruct (load a).
      * rewrite Hc in Hm. cbn in Hm. by destruct (depth_load p).
      * rewrite Hc in Hm. cbn in Hm. apply andb_true_iff in Hm as [_ Hm]. by destruct (stencil_load p).
    + done.
    + intros Hv. f_equal. destruct sl as [i| | |].
      * by rewrite (covers_reaches p _ px (wf_area _ _ _ _ _ W i s Ha)) in Er.
      * destruct (Hready SlotDepth s w ltac:(by left) Ha El) as [Hcv|Hh]; [by rewrite covers_reaches in Er|].
        symmetry. by apply (Hh px).
      * destruct (Hready SlotStencil s w ltac:(by right) Ha El) as [Hcv|Hh]; [by rewrite covers_reaches in Er|].
        symmetry. by apply (Hh px).
      * done.
Qed.
(** ** What the walk tests at a later pass *)

(** The texture a moved surface is known by. *)
Definition base_of (p : Pass) (t : Z) (s : Surface) : Prop :=
  (exists i a, color_slots p !! i = Some a /\ is_bound a = true /\ needs_color (clear_merge p) = true
             /\ t = texture a /\ s = color_surface a)
  \/ exists sl, depth_planes sl /\ moved p sl = true /\ attached p sl = Some s /\ t = depth_texture p.

Lemma moved_base p s : moved_surface p s -> exists t, base_of p t s.
Proof.
  intros (sl & Hm & Ha). destruct sl as [i| | |]; [| | |done].
  - cbn in Hm, Ha. destruct (color_slots p !! i) as [a|] eqn:Hi; [|done]. cbn in Ha.
    destruct (is_bound a) eqn:Hb; [|done]. injection Ha as <-. apply andb_true_iff in Hm as [Hm _].
    exists (texture a). left. by exists i, a.
  - exists (depth_texture p). right. exists SlotDepth. repeat split; auto. by left.
  - exists (depth_texture p). right. exists SlotStencil. repeat split; auto. by right.
Qed.

Lemma base_known p t s :
  wf p -> base_of p t s -> t <> 0 /\ no_companion companion t /\ (s_texture s = t \/ s_texture s = companion t).
Proof.
  intros W [(i & a & Hi & Hb & _ & -> & ->)|(sl & Hsl & _ & Ha & ->)].
  - apply list_elem_of_lookup_2 in Hi. destruct (wf_color_base _ _ _ _ _ W a Hi Hb) as [_ ?].
    split; [by apply Z.eqb_neq, negb_true_iff|]. split; [done|right]. by apply (wf_companion _ _ _ _ _ W).
  - destruct (attached_depth p sl s Ha Hsl) as (Hn & Ht & _). split; [done|].
    split; [by apply (wf_depth_base _ _ _ _ _ W)|by left].
Qed.

  Abbreviation w p := (clear_merge p).

Lemma bails_color p q i a :
  merge_bails views sampled (w p) q = false -> needs_color (w p) = true ->
  color_slots p !! i = Some a -> is_bound a = true ->
  pass_reads_texture q (texture a) views sampled = false
  /\ blit_list_writes (leading_blits q) (texture a) = false
  /\ pass_resolves_into q (texture a) views = false.
Proof.
  unfold merge_bails. rewrite !orb_false_iff. intros Hb Hn Hi Ha. rewrite Hn in Hb. cbn [andb] in Hb.
  destruct Hb as (((((((((((H1 & H2) & H3) & _) & H5) & _) & _) & _) & _) & _) & _) & _).
  apply orb_false_iff in H3 as [H3 H3']. apply orb_false_iff in H5 as [H5 H5'].
  destruct i as [|i]; [injection Hi as <-; done|]. rewrite color_slots_S in Hi.
  assert (forall f, existsb f (fst <$> m_extra (w p)) = false -> f (texture a) = false) as Hex.
  { intros f Hf. apply not_true_iff_false. intros Hx. apply not_true_iff_false in Hf. apply Hf, existsb_exists.
    exists (texture a). split; [|done]. apply list_elem_of_In, list_elem_of_fmap.
    exists (texture a, subresource a). split; [done|]. cbn. unfold extra_set. apply list_elem_of_fmap. exists a.
    split; [done|]. by eapply list_elem_of_lookup_2. }
  apply Hex in H2, H3', H5'. unfold is_bound in Ha. rewrite Ha in H2. done.
Qed.

Lemma bails_depth p q :
  merge_bails views sampled (w p) q = false -> needs_depth (w p) || needs_stencil (w p) = true ->
  pass_reads_texture q (depth_texture p) views sampled = false
  /\ blit_list_writes (leading_blits q) (depth_texture p) = false.
Proof.
  unfold merge_bails. rewrite !orb_false_iff. intros Hb Hn. rewrite Hn in Hb. cbn [andb] in Hb.
  destruct Hb as (((((((((((_ & _) & _) & H4) & _) & _) & _) & H8) & _) & _) & _) & _). done.
Qed.

Lemma bails_base p q t s :
  merge_bails views sampled (w p) q = false -> base_of p t s ->
  pass_reads_texture q t views sampled = false /\ blit_list_writes (leading_blits q) t = false
  /\ (s_plane s = ColorPlane -> pass_resolves_into q t views = false).
Proof.
  intros Hb [(i & a & Hi & Ha & Hn & -> & ->)|(sl & Hsl & Hm & Ha & ->)].
  - destruct (bails_color p q i a Hb Hn Hi Ha) as (? & ? & ?). done.
  - destruct (bails_depth p q Hb) as [? ?].
    { unfold moved in Hm. destruct Hsl as [->| ->]; rewrite Hm; [done|by rewrite orb_true_r]. }
    split; [done|]. split; [done|]. intros Hp. apply attached_plane in Ha. rewrite Hp in Ha.
    by destruct Hsl as [->| ->].
Qed.

(** A later pass that does not stop the walk leaves the moved surfaces unread
    and unwritten until it renders. *)
Lemma bails_quiet p q :
  wf p -> wf q -> merge_bails views sampled (w p) q = false ->
  @samples_none views (moved_surface p) (commands q) /\ @blits_none views (moved_surface p) (leading_blits q)
  /\ (forall s m px, moved_surface p s -> run_blits (leading_blits q) m s px = m s px)
  /\ (forall s, moved_surface p s -> resolving views q s = None).
Proof.
  intros W Wq Hb.
  assert (forall s, moved_surface p s -> exists t, t <> 0 /\ no_companion companion t
            /\ (s_texture s = t \/ s_texture s = companion t)
            /\ pass_reads_texture q t views sampled = false /\ blit_list_writes (leading_blits q) t = false
            /\ (s_plane s = ColorPlane -> pass_resolves_into q t views = false)) as Hf.
  { intros s Hs. destruct (moved_base p s Hs) as [t Ht]. exists t.
    destruct (base_known p t s W Ht) as (? & ? & ?). by destruct (bails_base p q t s Hb Ht) as (? & ? & ?). }
  assert (forall s, moved_surface p s -> no_companion companion (s_texture s) ->
            pass_reads_texture q (s_texture s) views sampled = false /\ s_texture s <> 0) as Hr.
  { intros s Hs Hno. destruct (Hf s Hs) as (t & Hn & _ & [->|He] & Hrd & _); [done|].
    rewrite He in Hno |- *. by rewrite <- (Hno t eq_refl). }
  split; [|split; [|split]].
  - eapply wf_samples_none; [done|]. intros s Hs Hno. right. destruct (Hr s Hs Hno).
    by apply (pass_reads_false companion planes seen sampled).
  - eapply wf_blits_none; [done|]. intros s Hs Hno. right. destruct (Hr s Hs Hno).
    by apply (pass_reads_false companion planes seen sampled).
  - intros s m px Hs. apply run_blits_untouched. intros b tex Hbl Hw He.
    destruct (wf_blit_writes _ _ _ _ _ Wq b tex Hbl Hw) as [Hst Hno]. rewrite Hst in He.
    destruct (Hf s Hs) as (t & Hn & _ & Ht & _ & Hwr & _).
    assert (tex = t) as -> by (destruct Ht as [Ht|Ht]; [congruence|symmetry; apply Hno; congruence]).
    unfold blit_list_writes in Hwr. rewrite (proj2 (Z.eqb_neq t 0) Hn) in Hwr.
    apply not_true_iff_false in Hwr. apply Hwr, existsb_exists. exists b.
    split; [by apply list_elem_of_In|by apply bool_decide_eq_true].
  - intros s Hs. destruct (resolving views q s) as [sl|] eqn:E; [|done]. exfalso.
    pose proof (resolving_plane views q s sl E) as Hp. unfold resolving in E.
    destruct (list_find _ _) as [[j b]|] eqn:El; [|done]. apply list_find_Some in El as (Hj & [_ Hrs] & _).
    apply list_elem_of_lookup_2 in Hj. unfold resolves_to in Hrs. destruct (resolve_texture b =? 0) eqn:Ez; [done|].
    injection Hrs as <-. apply Z.eqb_neq in Ez as Hz. destruct (wf_resolves _ _ _ _ _ Wq b Hj Hz) as (Hbd & _ & Hbt).
    destruct (wf_color_base _ _ _ _ _ Wq b Hj Hbd) as [_ Hno].
    destruct (Hf _ Hs) as (t & Hn & _ & Ht & _ & _ & Hres). specialize (Hres Hp). cbn in Ht.
    assert (storage views (resolve_texture b) = t) as Htt.
    { destruct Ht as [|Ht]; [done|]. rewrite Hbt in Ht |- *. symmetry. by apply Hno. }
    unfold pass_resolves_into in Hres. rewrite (proj2 (Z.eqb_neq t 0) Hn) in Hres.
    apply not_true_iff_false in Hres. apply Hres, existsb_exists. exists b.
    split; [by apply list_elem_of_In|]. rewrite Ez. cbn. by apply storage_names.
Qed.
(** ** A pass on the way *)

(** One key names one slot: as for colour in general, so for two passes. *)
Lemma color_surface_key p q a b :
  wf p -> wf q -> a ∈ color_slots p -> b ∈ color_slots q -> is_bound a = true -> is_bound b = true ->
  color_surface a = color_surface b -> texture a = texture b /\ subresource a = subresource b.
Proof.
  intros W Wq Ha Hb Hba Hbb He. pose proof (wf_companion _ _ _ _ _ W a Ha Hba) as H1.
  pose proof (wf_companion _ _ _ _ _ Wq b Hb Hbb) as H2. rewrite He in H1. rewrite H1 in H2.
  split; [by apply companion_inj|]. by injection He.
Qed.

Lemma consumes_color p q i a b :
  merge_consumes (w p) q = false -> needs_color (w p) = true ->
  color_slots p !! i = Some a -> is_bound a = true -> b ∈ color_slots q ->
  texture b = texture a -> subresource b = subresource a -> False.
Proof.
  unfold merge_consumes. rewrite !orb_false_iff. intros [[Hc _] _] Hn Hi Ha Hb Ht Hs. rewrite Hn in Hc. cbn [andb] in Hc.
  apply not_true_iff_false in Hc. apply Hc, existsb_exists. exists (texture a, subresource a). split.
  - apply list_elem_of_In. destruct i as [|i]; [injection Hi as <-; by left|right].
    rewrite color_slots_S in Hi. apply list_elem_of_fmap. exists a. split; [done|]. by eapply list_elem_of_lookup_2.
  - unfold pass_attaches_color. cbn [fst snd]. unfold is_bound in Ha. apply negb_true_iff in Ha. rewrite Ha.
    apply existsb_exists. exists b. split; [by apply list_elem_of_In|]. by rewrite Ht, Hs, !Z.eqb_refl.
Qed.

Lemma attaches_depth_eq p q : attaches_depth (w p) q = true <-> depth_texture q = depth_texture p /\ depth_level q = depth_level p.
Proof. unfold attaches_depth. by rewrite andb_true_iff, !Z.eqb_eq. Qed.

Lemma skipped_unattached p q sl s :
  wf p -> wf q -> fold_pair p q -> merge_step views sampled (w p) q = Next ->
  moved_surface p s -> attached q sl <> Some s.
Proof.
  intros W Wq [Hfirst _] Hstep Hs Hq. unfold merge_step in Hstep.
  destruct (merge_bails views sampled (w p) q) eqn:Eb; [done|]. destruct (merge_matches (w p) q); [done|].
  destruct (merge_consumes (w p) q) eqn:Ec; [done|]. clear Hstep. destruct Hs as (sl' & Hm & Ha).
  pose proof (attached_plane p sl' s Ha) as Hp1. pose proof (attached_plane q sl s Hq) as Hp2. rewrite Hp1 in Hp2.
  assert (forall sl0 sl1, depth_planes sl0 -> depth_planes sl1 -> attached p sl0 = Some s -> attached q sl1 = Some s ->
            attaches_depth (w p) q = true /\ depth_load q <> DDontCare /\ stencil_load q <> SDontCare) as Hd.
  { intros sl0 sl1 H0 H1 Ha0 Ha1. destruct (attached_depth p sl0 s Ha0 H0) as (Hn & Ht & Hl).
    destruct (attached_depth q sl1 s Ha1 H1) as (_ & Ht' & Hl'). rewrite Hl in Hl'. apply shiftl16_inj in Hl'.
    split; [apply attaches_depth_eq; split; congruence|]. apply Hfirst; congruence. }
  unfold merge_bails in Eb. unfold merge_consumes in Ec. rewrite !orb_false_iff in Eb. rewrite !orb_false_iff in Ec.
  destruct sl' as [i| | |], sl as [j| | |]; try done.
  - cbn in Hm, Ha, Hq. destruct (color_slots p !! i) as [a|] eqn:Hi; [|done]. destruct (color_slots q !! j) as [b|] eqn:Hj; [|done].
    cbn in Ha, Hq. destruct (is_bound a) eqn:Hba; [|done]. destruct (is_bound b) eqn:Hbb; [|done].
    injection Ha as Ha. injection Hq as Hq. apply andb_true_iff in Hm as [Hm _].
    destruct (color_surface_key p q a b W Wq) as [Ht Hs]; try done;
      [by eapply list_elem_of_lookup_2..|congruence|].
    apply (consumes_color p q i a b); try done; [unfold merge_consumes; rewrite !orb_false_iff; exact Ec|].
    by eapply list_elem_of_lookup_2.
  - destruct (Hd SlotDepth SlotDepth ltac:(by left) ltac:(by left) Ha Hq) as (Hat & Hnd & _). cbn [moved] in Hm.
    destruct Eb as (((_ & Eb) & _) & _). destruct Ec as ((_ & Ec) & _). rewrite Hm, Hat in Eb, Ec. cbn [andb] in Eb, Ec.
    by destruct (depth_load q).
  - destruct (Hd SlotStencil SlotStencil ltac:(by right) ltac:(by right) Ha Hq) as (Hat & _ & Hnd). cbn [moved] in Hm.
    destruct Eb as ((_ & Eb) & _). destruct Ec as (_ & Ec). rewrite Hm, Hat in Eb, Ec. cbn [andb] in Eb, Ec.
    by destruct (stencil_load q).
Qed.

Lemma skip_apart p q m1 m2 :
  wf p -> wf q -> fold_pair p q -> merge_step views sampled (w p) q = Next ->
  apart p m1 m2 -> apart p (run_pass views q m1) (run_pass views q m2).
Proof.
  intros W Wq Hfp Hstep [Hm Hpin].
  assert (merge_bails views sampled (w p) q = false) as Eb.
  { unfold merge_step in Hstep. by destruct (merge_bails views sampled (w p) q). }
  destruct (bails_quiet p q W Wq Eb) as (Hsam & Hbl & Hfr & Hres).
  assert (forall sl s, attached q sl = Some s -> ~ moved_surface p s) as Hna
      by (intros sl s Ha Hs; by eapply (skipped_unattached p q sl s)).
  split.
  - apply (run_pass_sim (moved_surface p) nowhere nowhere); [done..|apply carries_nowhere| |].
    + intros sl s _ Ha px v. unfold loaded. destruct (load_action q sl); try done.
      apply run_blits_le with (dead := moved_surface p); [done|done|]. by eapply Hna.
    + intros s Hns. unfold closes. destruct (resolving views q s); [split; [intros []|by left]|].
      destruct (slot_of q s) as [sl|]; [|done]. destruct (store_action q sl); [right|by left].
      split; [done|]. split; [intros []|by right].
  - intros sl s Hmv Ha px v. assert (moved_surface p s) as Hs by (by exists sl).
    unfold run_pass, run_render, close_tile. rewrite Hres by done.
    destruct (slot_of q s) as [sl'|] eqn:E; [apply slot_of_attached in E; by apply Hna in E|].
    rewrite Hfr by done. by apply Hpin.
Qed.

(** ** The target *)

Lemma fold_extra_lookup (e f : list PassColorAttachment) i b a :
  e !! i = Some b -> f !! i = Some a ->
  zip_with (λ a b, if is_bound a then set_load a (load b) else a) e f !! i
  = Some (if is_bound b then set_load b (load a) else b).
Proof. intros He Hf. by rewrite lookup_zip_with, He, Hf. Qed.

Definition fold_colors (p q : Pass) : Pass :=
  if needs_color (w p)
  then with_colors q (set_load (color q) (color_load p))
         (zip_with (λ a b, if is_bound a then set_load a (load b) else a) (extra_color q) (extra_color p))
  else q.

Lemma fold_colors_shape p q : wf p -> wf q -> same_shape q (fold_colors p q).
Proof.
  intros W Wq. unfold fold_colors. destruct (needs_color (w p)); [|done]. unfold same_shape, erase. cbn.
  do 2 f_equal. apply list_eq. intros i. rewrite !list_lookup_fmap, lookup_zip_with.
  destruct (extra_color q !! i) as [b|] eqn:Hb; [|done]. cbn.
  destruct (lookup_lt_is_Some_2 (extra_color p) i) as [a Ha].
  { rewrite (wf_extras _ _ _ _ _ W), <- (wf_extras _ _ _ _ _ Wq). by eapply lookup_lt_Some. }
  rewrite Ha. cbn. by destruct (is_bound b).
Qed.

Lemma fold_shape p q : wf p -> wf q -> same_shape q (fold_clear (w p) p q).
Proof.
  intros W Wq. transitivity (erase (fold_colors p q)); [by apply fold_colors_shape|].
  unfold fold_clear. fold (fold_colors p q). by destruct (needs_depth (w p)), (needs_stencil (w p)).
Qed.

Lemma fold_store p q sl : wf p -> wf q -> store_action (fold_clear (w p) p q) sl = store_action q sl.
Proof.
  intros W Wq. transitivity (store_action (fold_colors p q) sl).
  { unfold fold_clear. fold (fold_colors p q). by destruct (needs_depth (w p)), (needs_stencil (w p)), sl. }
  unfold fold_colors. destruct (needs_color (w p)); [|done]. destruct sl as [[|i]| | |]; try done.
  cbn [store_action]. rewrite !color_slots_S. cbn [with_colors extra_color]. rewrite lookup_zip_with.
  destruct (extra_color q !! i) as [b|] eqn:Hb; [|done]. cbn.
  destruct (lookup_lt_is_Some_2 (extra_color p) i) as [a Ha].
  { rewrite (wf_extras _ _ _ _ _ W), <- (wf_extras _ _ _ _ _ Wq). by eapply lookup_lt_Some. }
  rewrite Ha. cbn. by destruct (is_bound b).
Qed.

(** The load actions of the target: the removed pass's on the moved slots. *)
Lemma fold_depth_loads p q :
  depth_load (fold_clear (w p) p q) = (if needs_depth (w p) then depth_load p else depth_load q)
  /\ stencil_load (fold_clear (w p) p q) = (if needs_stencil (w p) then stencil_load p else stencil_load q).
Proof.
  unfold fold_clear, fold_colors.
  destruct (needs_color (w p)), (needs_depth (w p)), (needs_stencil (w p)); done.
Qed.

Lemma fold_color_load p q i a b :
  needs_color (w p) = true -> color_slots p !! i = Some a -> color_slots q !! i = Some b -> is_bound b = true ->
  color_slots (fold_clear (w p) p q) !! i = Some (set_load b (load a)).
Proof.
  intros Hn Ha Hb Hbd. transitivity (color_slots (fold_colors p q) !! i).
  { unfold fold_clear. fold (fold_colors p q). by destruct (needs_depth (w p)), (needs_stencil (w p)). }
  unfold fold_colors. rewrite Hn. destruct i as [|i].
  - injection Ha as <-. injection Hb as <-. done.
  - rewrite color_slots_S in Ha, Hb |- *. cbn [with_colors extra_color].
    rewrite (fold_extra_lookup _ _ i b a Hb Ha). by rewrite Hbd.
Qed.

(** What a match says of the target's slots. *)
Lemma match_color p q i a b :
  merge_matches (w p) q = true -> merge_bails views sampled (w p) q = false -> needs_color (w p) = true ->
  color_slots p !! i = Some a -> color_slots q !! i = Some b ->
  texture b = texture a /\ subresource b = subresource a /\ (is_bound b = true -> load b = CLoad).
Proof.
  unfold merge_matches. rewrite !andb_true_iff. intros [[Hm _] _] Hb Hn Ha Hbq.
  rewrite Hn in Hm. cbn [negb orb] in Hm. rewrite !andb_true_iff, !Z.eqb_eq in Hm.
  destruct Hm as ((((Hset & H1) & _) & H2) & H3). destruct i as [|i].
  - injection Ha as <-. injection Hbq as <-. split; [done|]. split; [done|]. intros _.
    unfold color_load in H3. by destruct (load (color q)).
  - rewrite color_slots_S in Ha, Hbq. pose proof Hset as Hsame. apply bool_decide_eq_true in Hset.
    cbn [m_extra clear_merge] in Hset. apply (f_equal (λ l, l !! i)) in Hset.
    unfold extra_set in Hset. rewrite !list_lookup_fmap, Ha, Hbq in Hset. cbn in Hset. injection Hset as -> ->.
    split; [done|]. split; [done|]. intros Hbd. unfold merge_bails in Hb. rewrite !orb_false_iff in Hb.
    destruct Hb as ((((((_ & Hb) & _) & _) & _) & _) & _). rewrite Hn, Hsame in Hb. cbn [andb] in Hb.
    apply list_elem_of_lookup_2, list_elem_of_In in Hbq. destruct (load b) eqn:El; [done| |]; exfalso;
      apply not_true_iff_false in Hb; apply Hb, existsb_exists; exists b; by rewrite Hbd, El.
Qed.

Lemma match_depth p q :
  merge_matches (w p) q = true -> merge_bails views sampled (w p) q = false ->
  needs_depth (w p) || needs_stencil (w p) = true ->
  depth_texture q = depth_texture p /\ depth_level q = depth_level p /\ color_extent_covers_depth q = true
  /\ (needs_depth (w p) = true -> depth_load q = DLoad)
  /\ (needs_stencil (w p) = true -> stencil_load q = SLoad).
Proof.
  unfold merge_matches. rewrite !andb_true_iff. intros [[_ Hd] Hs] Hb Hn.
  assert (attaches_depth (w p) q = true) as Hat.
  { destruct (needs_depth (w p)); cbn in Hd; [by apply andb_true_iff in Hd as [? _]|].
    destruct (needs_stencil (w p)); [|done]. cbn in Hs. by apply andb_true_iff in Hs as [? _]. }
  apply attaches_depth_eq in Hat as Heq. destruct Heq as [-> ->]. split; [done|]. split; [done|].
  unfold merge_bails in Hb. rewrite !orb_false_iff in Hb. destruct Hb as (_ & Hb). rewrite Hn, Hat in Hb.
  split; [by apply negb_false_iff in Hb|]. split.
  - intros Hx. rewrite Hx, Hat in Hd. cbn in Hd. by destruct (depth_load q).
  - intros Hx. rewrite Hx, Hat in Hs. cbn in Hs. by destruct (stencil_load q).
Qed.

(** Each slot of the target either is one of the moved surfaces, which it loads
    and now takes the removed pass's action for, or keeps its load. *)
Lemma fold_slot p q sl s :
  wf p -> wf q -> fold_pair p q -> merge_bails views sampled (w p) q = false -> merge_matches (w p) q = true ->
  attached q sl = Some s ->
  (moved p sl = true /\ attached p sl = Some s /\ covers q sl = true
   /\ load_action (T := T) q sl = LLoad /\ load_action (T := T) (fold_clear (w p) p q) sl = load_action p sl)
  \/ (~ moved_surface p s /\ load_action (T := T) (fold_clear (w p) p q) sl = load_action q sl).
Proof.
  intros W Wq [_ Hview] Hb Hm Ha. destruct (fold_depth_loads p q) as [Hdl Hsl].
  destruct sl as [i| | |].
  - assert (forall s', attached q (SlotColor i) = Some s' -> moved_surface p s' ->
              exists j a b, color_slots p !! j = Some a /\ color_slots q !! i = Some b /\ is_bound a = true /\ is_bound b = true
                /\ needs_color (w p) = true /\ color_loads (load a) = false
                /\ texture a = texture b /\ subresource a = subresource b) as Hms.
    { intros s' Ha' (sl' & Hmv & Hp). pose proof (attached_plane _ _ _ Ha') as H1. rewrite (attached_plane _ _ _ Hp) in H1.
      destruct sl' as [j| | |]; try done. cbn [moved] in Hmv. cbn in Hp, Ha'.
      destruct (color_slots p !! j) as [a|] eqn:Hj; [|done]. destruct (color_slots q !! i) as [b|] eqn:Hi; [|done].
      cbn in Hp, Ha'. destruct (is_bound a) eqn:Hba; [|done]. destruct (is_bound b) eqn:Hbb; [|done].
      apply andb_true_iff in Hmv as [Hn Hl]. apply negb_true_iff in Hl. exists j, a, b.
      assert (color_surface a = color_surface b) as He by congruence.
      destruct (color_surface_key p q a b W Wq) as [Ht Hs]; try done; by eapply list_elem_of_lookup_2. }
    cbn in Ha. destruct (color_slots q !! i) as [b|] eqn:Hi; [|done]. cbn in Ha.
    destruct (is_bound b) eqn:Hbb; [|done]. injection Ha as <-.
    destruct (needs_color (w p)) eqn:Hn.
    2:{ right. split.
        - intros Hs. destruct (Hms (color_surface b)) as (j & a & b' & _ & _ & _ & _ & ? & _); [|done|done].
          cbn [attached]. rewrite Hi. cbn. by rewrite Hbb.
        - unfold fold_clear. rewrite Hn. by destruct (needs_depth (w p)), (needs_stencil (w p)). }
    destruct (lookup_lt_is_Some_2 (color_slots p) i) as [a Hpi].
    { apply lookup_lt_Some in Hi. revert Hi. unfold color_slots. cbn.
      by rewrite (wf_extras _ _ _ _ _ W), (wf_extras _ _ _ _ _ Wq). }
    destruct (match_color p q i a b Hm Hb Hn Hpi Hi) as (Ht & Hsub & Hload). specialize (Hload Hbb).
    assert (is_bound a = true) as Hba by (unfold is_bound in *; by rewrite <- Ht).
    assert (color_surface a = color_surface b) as Hsurf.
    { pose proof (wf_companion _ _ _ _ _ W a (list_elem_of_lookup_2 _ _ _ Hpi) Hba) as H1.
      pose proof (wf_companion _ _ _ _ _ Wq b (list_elem_of_lookup_2 _ _ _ Hi) Hbb) as H2.
      unfold color_surface in *. cbn [s_texture] in H1, H2. by rewrite H1, H2, Ht, Hsub. }
    pose proof (fold_color_load p q i a b Hn Hpi Hi Hbb) as Hf.
    assert (load_action (T := T) (fold_clear (w p) p q) (SlotColor i) = color_action a) as Hla.
    { cbn [load_action]. rewrite Hf. unfold color_action. cbn [load set_load].
      assert (attachment_texture (set_load b (load a)) = attachment_texture a) as ->.
      { symmetry. by apply (Hview i a b). }
      by destruct (load a). }
    destruct (color_loads (load a)) eqn:El.
    + right. split.
      * intros Hs. destruct (Hms (color_surface b)) as (j & a' & b' & Hj & Hi' & Hba' & _ & _ & Hnl & Ht' & Hs').
        { cbn [attached]. rewrite Hi. cbn. by rewrite Hbb. }
        { done. }
        injection Hi' as <-.
        assert (j = i) as ->; [|rewrite Hpi in Hj; injection Hj as <-; congruence].
        apply (key_slot companion planes seen sampled p j i a' a W Hj Hpi Hba' Hba). unfold key. congruence.
      * rewrite Hla. cbn [load_action]. rewrite Hi. unfold color_action. rewrite Hload. by destruct (load a).
    + left. split; [cbn [moved]; by rewrite Hn, Hpi, El|].
      split; [cbn [attached]; rewrite Hpi; cbn; by rewrite Hba, Hsurf|].
      split; [apply (wf_area _ _ _ _ _ Wq i (color_surface b)); cbn [attached]; rewrite Hi; cbn; by rewrite Hbb|].
      split; [cbn [load_action]; unfold color_action; by rewrite Hi, Hload|].
      rewrite Hla. cbn [load_action]. by rewrite Hpi.
  - destruct (attached_depth q _ s Ha ltac:(by left)) as (Hn & Ht & Hl).
    destruct (needs_depth (w p)) eqn:Hnd; [left|right].
    + destruct (match_depth p q Hm Hb ltac:(by rewrite Hnd)) as (H1 & H2 & Hc & H3 & _).
      split; [done|]. split; [cbn in Ha |- *; unfold depth_surface in *; by rewrite <- H1, <- H2|].
      split; [apply (covers_depth q (wf_depth_size _ _ _ _ _ Wq) Hn Hc); by left|].
      cbn [load_action]. rewrite Hdl, H3 by done. done.
    + split; [|cbn [load_action]; by rewrite Hdl]. intros (sl' & Hmv & Hp).
      pose proof (attached_plane _ _ _ Ha) as Hpl. rewrite (attached_plane _ _ _ Hp) in Hpl.
      destruct sl'; try done. unfold moved in Hmv. congruence.
  - destruct (attached_depth q _ s Ha ltac:(by right)) as (Hn & Ht & Hl).
    destruct (needs_stencil (w p)) eqn:Hnd; [left|right].
    + destruct (match_depth p q Hm Hb ltac:(by rewrite Hnd, orb_true_r)) as (H1 & H2 & Hc & _ & H3).
      split; [done|]. split.
      { cbn in Ha |- *. rewrite (wf_depth_planes _ _ _ _ _ Wq Hn) in Ha.
        rewrite (wf_depth_planes _ _ _ _ _ W) by congruence. unfold stencil_surface in *. by rewrite <- H1, <- H2. }
      split; [apply (covers_depth q (wf_depth_size _ _ _ _ _ Wq) Hn Hc); by right|].
      cbn [load_action]. rewrite Hsl, H3 by done. done.
    + split; [|cbn [load_action]; by rewrite Hsl]. intros (sl' & Hmv & Hp).
      pose proof (attached_plane _ _ _ Ha) as Hpl. rewrite (attached_plane _ _ _ Hp) in Hpl.
      destruct sl'; try done. unfold moved in Hmv. congruence.
  - right. split; [|done]. intros (sl' & Hmv & Hp).
    pose proof (attached_plane _ _ _ Ha) as Hpl. rewrite (attached_plane _ _ _ Hp) in Hpl. by destruct sl'.
Qed.
Lemma moved_attached p q s :
  wf p -> wf q -> merge_bails views sampled (w p) q = false -> merge_matches (w p) q = true ->
  moved_surface p s -> exists sl, attached q sl = Some s.
Proof.
  intros W Wq Hb Hm (sl & Hmv & Ha). destruct sl as [i| | |]; [| | |done].
  - cbn [moved] in Hmv. cbn in Ha. destruct (color_slots p !! i) as [a|] eqn:Hpi; [|done]. cbn in Ha.
    destruct (is_bound a) eqn:Hba; [|done]. injection Ha as <-. apply andb_true_iff in Hmv as [Hn _].
    destruct (lookup_lt_is_Some_2 (color_slots q) i) as [b Hi].
    { apply lookup_lt_Some in Hpi. revert Hpi. unfold color_slots. cbn.
      by rewrite (wf_extras _ _ _ _ _ W), (wf_extras _ _ _ _ _ Wq). }
    destruct (match_color p q i a b Hm Hb Hn Hpi Hi) as (Ht & Hsub & _).
    assert (is_bound b = true) as Hbb by (unfold is_bound in *; by rewrite Ht).
    exists (SlotColor i). cbn [attached]. rewrite Hi. cbn. rewrite Hbb. f_equal.
    pose proof (wf_companion _ _ _ _ _ W a (list_elem_of_lookup_2 _ _ _ Hpi) Hba) as H1.
    pose proof (wf_companion _ _ _ _ _ Wq b (list_elem_of_lookup_2 _ _ _ Hi) Hbb) as H2.
    unfold color_surface in *. cbn [s_texture] in H1, H2. by rewrite H1, H2, Ht, Hsub.
  - destruct (match_depth p q Hm Hb ltac:(unfold moved in Hmv; by rewrite Hmv)) as (H1 & H2 & _).
    exists SlotDepth. cbn in Ha |- *. unfold depth_surface in *. by rewrite H1, H2.
  - destruct (match_depth p q Hm Hb ltac:(unfold moved in Hmv; by rewrite Hmv, orb_true_r)) as (H1 & H2 & _).
    destruct (attached_depth p _ s Ha ltac:(by right)) as (Hn & _).
    exists SlotStencil. cbn in Ha |- *. rewrite (wf_depth_planes _ _ _ _ _ W Hn) in Ha.
    rewrite (wf_depth_planes _ _ _ _ _ Wq) by congruence. unfold stencil_surface in *. by rewrite H1, H2.
Qed.

Lemma fold_target_le p q m1 m2 :
  wf p -> wf q -> fold_pair p q -> merge_bails views sampled (w p) q = false -> merge_matches (w p) q = true ->
  apart p m1 m2 -> mem_le nowhere (run_pass views q m1) (run_pass views (fold_clear (w p) p q) m2).
Proof.
  intros W Wq Hfp Hb Hm [Hmem Hpin]. destruct (bails_quiet p q W Wq Hb) as (Hsam & Hbl & Hfr & Hres).
  pose proof (fold_shape p q W Wq) as Hsh.
  apply (run_pass_sim (moved_surface p) nowhere nowhere); [done..|apply carries_nowhere| |].
  - intros sl s _ Ha px v. rewrite <- (same_shape_blits _ _ Hsh).
    destruct (fold_slot p q sl s W Wq Hfp Hb Hm Ha) as [(Hmv & Hp & _ & Hl & Hf)|[Hns Hf]].
    + rewrite Hl, Hf. unfold loaded at 1. rewrite Hfr by (by exists sl). intros Hv.
      apply (Hpin sl s Hmv Hp) in Hv. unfold loaded in *. by destruct (load_action p sl).
    + rewrite Hf. unfold loaded. destruct (load_action q sl); try done.
      by apply run_blits_le with (dead := moved_surface p).
  - intros s _. unfold closes. destruct (resolving views q s) eqn:Er.
    + split; [intros []|left]. intros Hs. by rewrite Hres in Er.
    + destruct (slot_of q s) as [sl|] eqn:Es.
      * apply slot_of_attached in Es. rewrite (fold_store p q sl W Wq).
        destruct (store_action q sl); [right|by left]. split; [done|]. split; [intros []|].
        destruct (fold_slot p q sl s W Wq Hfp Hb Hm Es) as [(_ & _ & Hc & _)|[Hns Hf]]; [by left|right].
        split; [done|]. unfold discards_load. by rewrite Hf.
      * intros Hs. destruct (moved_attached p q s W Wq Hb Hm Hs) as [sl Hsl].
        by apply slot_of_None with (sl := sl) in Es.
Qed.

Lemma fold_walk_le p rest t m1 m2 :
  wf p -> Forall wf rest -> Forall (fold_pair p) rest ->
  find_clear_merge_target views sampled (w p) rest = Some t -> apart p m1 m2 ->
  mem_le nowhere (run_passes views rest m1) (run_passes views (alter (fold_clear (w p) p) t rest) m2).
Proof.
  intros W. revert t m1 m2. induction rest as [|q rest IH]; intros t m1 m2 Hwf Hfp Hf Ha; [done|].
  apply Forall_cons in Hwf as [Wq Hwf]. apply Forall_cons in Hfp as [Hq Hfp]. cbn [find_clear_merge_target] in Hf.
  destruct (merge_step views sampled (w p) q) eqn:Es; [done| |].
  - injection Hf as <-. unfold merge_step in Es. destruct (merge_bails views sampled (w p) q) eqn:Eb; [done|].
    destruct (merge_matches (w p) q) eqn:Em; [|by destruct (merge_consumes _ _)].
    cbn [alter list_alter]. rewrite !run_passes_cons. apply run_passes_mono. by apply fold_target_le.
  - destruct (find_clear_merge_target views sampled (w p) rest) as [t'|] eqn:Et; [|done]. injection Hf as <-.
    cbn [alter list_alter]. rewrite !run_passes_cons. apply IH; [done..|]. by apply skip_apart.
Qed.

(** ** Depth clears that stop short of their surface *)

Definition linked (prev : option Pass) (p : Pass) : Prop :=
  clear_only p = true -> clears_depth_past_its_area p = true -> exists pr, prev = Some pr /\ repeats_depth_clear_of p pr = true.

(** What the source asserts of every pass it opens, where it opens with a clear
    and nothing else. *)
Fixpoint chain (prev : option Pass) (ps : list Pass) : Prop :=
  match ps with
  | [] => True
  | p :: rest => linked prev p /\ chain (Some p) rest
  end.

Definition after (prev : option Pass) (m : Mem T) : Prop :=
  forall p, wf p -> clear_only p = true -> linked prev p -> ready m p.

Lemma not_past_ready p m : wf p -> clears_depth_past_its_area p = false -> ready m p.
Proof.
  intros W Hp sl s v Hsl Ha Hl. left. destruct (attached_depth p sl s Ha Hsl) as (Hn & _).
  apply (covers_depth p (wf_depth_size _ _ _ _ _ W) Hn); [|done].
  unfold clears_depth_past_its_area in Hp. destruct (color_extent_covers_depth p); [done|].
  rewrite andb_true_r in Hp. apply orb_false_iff in Hp as [H1 H2].
  destruct Hsl as [->| ->]; cbn [load_action] in Hl; [by destruct (depth_load p)|by destruct (stencil_load p)].
Qed.

Lemma after_none m : after None m.
Proof.
  intros p W Hco Hl. apply not_past_ready; [done|]. destruct (clears_depth_past_its_area p) eqn:E; [|done].
  destruct (Hl Hco E) as (pr & [=] & _).
Qed.

Lemma settled_depth pr sl s v m :
  wf pr -> color_extent_covers_depth pr = true -> has_draw pr = false -> depth_planes sl ->
  attached pr sl = Some s -> load_action pr sl = LClear v -> holds (run_pass views pr m s) v.
Proof.
  intros W Hc Hd Hsl Ha Hl px x. unfold run_pass, run_render, close_tile.
  destruct (resolving views pr s) eqn:Er.
  { apply resolving_plane in Er. apply attached_plane in Ha. rewrite Er in Ha. by destruct Hsl as [->| ->]. }
  rewrite (slot_of_Some pr s sl (wf_distinct _ _ _ _ _ W) Ha). destruct (store_action pr sl); [|done].
  assert (reaches pr sl px = true) as Hre.
  { apply covers_reaches, covers_depth; [apply (wf_depth_size _ _ _ _ _ W)| |done..]. by apply (attached_depth pr sl s). }
  rewrite Hre, no_draws, open_tile_eq, Ha by done. cbn. rewrite Hre. unfold loaded. rewrite Hl. congruence.
Qed.

Lemma after_pass pr m : wf pr -> after (Some pr) (run_pass views pr m).
Proof.
  intros Wr p W Hco Hlk. destruct (clears_depth_past_its_area p) eqn:E; [|by apply not_past_ready].
  destruct (Hlk Hco E) as (? & [= <-] & Hr). unfold repeats_depth_clear_of in Hr. rewrite !andb_true_iff in Hr.
  destruct Hr as ((((((Hc & He) & Hd) & Ht) & Hlv) & Hsz) & Hdl & Hst) || destruct Hr as (((((((Hc & He) & Hd) & Ht) & Hlv) & Hsz) & Hdl) & Hst).
  apply negb_true_iff in Hd. apply Z.eqb_eq in Ht, Hlv.
  assert (color_extent_covers_depth pr = true) as Hcov.
  { unfold color_extent_covers_depth. rewrite Hc. destruct (depth_texture pr =? 0); [done|]. cbn.
    rewrite forallb_forall in He. apply forallb_forall. intros a Ha. by rewrite He. }
  intros sl s v Hsl Ha Hl. right. destruct (attached_depth p sl s Ha Hsl) as (Hn & _).
  apply (settled_depth pr sl); try done.
  - destruct Hsl as [->| ->]; cbn in Ha |- *; unfold depth_surface, stencil_surface in *; rewrite Ht, Hlv; [done|].
    rewrite (wf_depth_planes _ _ _ _ _ Wr) by congruence. by rewrite Ht, <- (wf_depth_planes _ _ _ _ _ W Hn).
  - destruct Hsl as [->| ->]; cbn [load_action] in *.
    + destruct (depth_load p); try done. cbn in Hdl. apply bool_decide_eq_true in Hdl. by rewrite Hdl.
    + destruct (stencil_load p); try done. cbn in Hst. apply bool_decide_eq_true in Hst. by rewrite Hst.
Qed.
End Fold.
