(* ===== verification/PassCoalesce.v ===== *)
(** Rule E over a pass list: what one fold keeps of the list's invariants, and
    the soundness of the whole loop. *)

From S2P Require Import Prelude PassCommands PassData PassRules PassMerge PassGpu PassFacts.
From S2P Require Import PassClearOnly PassColorStores PassDepthStores PassFold.

(** ** What two passes of one shape share *)

Lemma erase_extent_covers p : color_extent_covers_depth (erase p) = color_extent_covers_depth p.
Proof.
  unfold color_extent_covers_depth. change (depth_texture (erase p)) with (depth_texture p).
  destruct (depth_texture p =? 0); [done|]. change (depth_size (erase p)) with (depth_size p).
  change (color_texture (erase p)) with (color_texture p). change (color_size (erase p)) with (color_size p).
  f_equal. change (extra_color (erase p)) with (erase_color <$> extra_color p).
  induction (extra_color p) as [|a l IH]; [done|]. cbn [fmap list_fmap forallb]. by rewrite IH.
Qed.

Lemma same_shape_extent p q : same_shape p q -> color_extent_covers_depth p = color_extent_covers_depth q.
Proof. intros H. by rewrite <- (erase_extent_covers p), H, erase_extent_covers. Qed.

Lemma same_shape_clear_only p q : same_shape p q -> clear_only p = clear_only q.
Proof.
  intros H. unfold clear_only, has_draw. by rewrite (same_shape_commands p q H), (same_shape_blits p q H).
Qed.

Lemma same_shape_color_texture p q : same_shape p q -> color_texture p = color_texture q.
Proof. intros H. exact (f_equal (λ p, texture (color p)) H). Qed.

Lemma same_shape_no_extras p q : same_shape p q ->
  forallb (λ a, negb (is_bound a)) (extra_color p) = forallb (λ a, negb (is_bound a)) (extra_color q).
Proof.
  intros H. apply (f_equal extra_color) in H. cbn in H. revert H. generalize (extra_color q).
  induction (extra_color p) as [|a l IH]; intros [|b k]; [done..|]. cbn [fmap list_fmap forallb]. intros [= H1 H2].
  rewrite (IH k) by done. f_equal. f_equal.
  assert (texture a = texture b) as Ht by congruence. unfold is_bound. by rewrite Ht.
Qed.

Section Coalesce.
Context {T : Type} {views : Views} `{L : GpuLaws T views} (companion : Z -> Z) (planes : Z -> bool)
  (seen sampled : gset Z).
Hypothesis companion_inj : forall t u, companion t = companion u -> t = u.

  Abbreviation wf := (pass_wf (views := views) companion planes seen sampled).
  Abbreviation w p := (clear_merge p).

(** ** A folded pass in its list *)

(** The same pass, but for loads that do not turn into discards. *)
Definition tamed (p q : Pass) : Prop :=
  same_shape p q /\ (depth_load q = DDontCare -> depth_load p = DDontCare)
  /\ (stencil_load q = SDontCare -> stencil_load p = SDontCare).

Lemma tamed_refl p : tamed p p.
Proof. done. Qed.

Lemma same_shape_slot p q i b : same_shape p q -> color_slots q !! i = Some b ->
  exists a, color_slots p !! i = Some a /\ erase_color a = erase_color b.
Proof.
  intros H Hi. apply (f_equal color_slots) in H. rewrite !erase_slots in H.
  apply (f_equal (λ l, l !! i)) in H. rewrite !list_lookup_fmap, Hi in H. cbn in H.
  destruct (color_slots p !! i) as [a|]; [|done]. exists a. split; [done|]. by apply (inj Some) in H.
Qed.

Lemma fold_pair_tamed p q p' q' : tamed p p' -> tamed q q' -> fold_pair p q -> fold_pair p' q'.
Proof.
  intros (Hp & _) (Hq & Hd & Hs) [H1 H2]. destruct (same_shape_depth p p' Hp) as (Ht & _).
  destruct (same_shape_depth q q' Hq) as (Ht' & _). split.
  - rewrite <- Ht, <- Ht'. intros Hn He. destruct (H1 Hn He) as [? ?]. auto.
  - intros i a b Ha Hb. destruct (same_shape_slot p p' i a Hp Ha) as (a0 & Ha0 & Ea).
    destruct (same_shape_slot q q' i b Hq Hb) as (b0 & Hb0 & Eb).
    change (texture (erase_color a) = texture (erase_color b) ->
            attachment_texture (erase_color a) = attachment_texture (erase_color b)).
    rewrite <- Ea, <- Eb. exact (H2 i a0 b0 Ha0 Hb0).
Qed.

Lemma fold_tamed p q : wf p -> wf q -> tamed q (fold_clear (w p) p q).
Proof.
  intros W Wq. split; [by eapply (fold_shape (views := views) companion planes seen sampled)|].
  destruct (fold_depth_loads p q) as [-> ->]. split.
  - destruct (needs_depth (w p)) eqn:E; [|done]. unfold clear_merge in E. cbn in E.
    apply andb_true_iff in E as [_ E]. by destruct (depth_load p).
  - destruct (needs_stencil (w p)) eqn:E; [|done]. unfold clear_merge in E. cbn in E.
    apply andb_true_iff in E as [_ E]. by destruct (stencil_load p).
Qed.

Lemma ForallOrdPairs_Forall2 {A} (R : A -> A -> Prop) (S : A -> A -> Prop) l k :
  (forall a b a' b', S a a' -> S b b' -> R a b -> R a' b') -> Forall2 S l k ->
  ForallOrdPairs R l -> ForallOrdPairs R k.
Proof.
  intros HR Hlk. induction Hlk as [|a b l k Hab Hlk IH]; intros H; [done|].
  inversion_clear H as [|? ? Ha Hl]. constructor; [|by apply IH].
  clear IH Hl. induction Hlk as [|c d l k Hcd Hlk IH]; [done|]. apply Forall_cons in Ha as [? ?].
  constructor; [by eapply HR|auto].
Qed.

Lemma alter_Forall2 {A} (S : A -> A -> Prop) (f : A -> A) t (l : list A) :
  (forall a, S a a) -> (forall a, l !! t = Some a -> S a (f a)) -> Forall2 S l (alter f t l).
Proof.
  intros Hr. revert t. induction l as [|a l IH]; intros t Hf; [done|]. destruct t as [|t].
  - constructor; [by apply Hf|]. clear IH Hf. induction l; constructor; auto.
  - cbn. constructor; [done|]. apply IH. intros b Hb. by apply Hf.
Qed.

Lemma tamed_all p rest t : wf p -> Forall wf rest -> Forall2 tamed rest (alter (fold_clear (w p) p) t rest).
Proof.
  intros W Hwf. apply alter_Forall2; [apply tamed_refl|]. intros q Hq. apply fold_tamed; [done|].
  by eapply Forall_lookup_1.
Qed.

(** What holds of a pass holds of a tamed one. *)
Lemma tamed_Forall (P : Pass -> Prop) ps qs :
  (forall p q, same_shape p q -> P p -> P q) -> Forall2 tamed ps qs -> Forall P ps -> Forall P qs.
Proof.
  intros HP H. induction H as [|p q ps qs (Hpq & _) H IH]; intros Hf; [done|].
  apply Forall_cons in Hf as [? ?]. constructor; [by eapply HP|auto].
Qed.

Lemma drops_no_resolve_shape p q : same_shape p q -> drops_no_resolve p -> drops_no_resolve q.
Proof.
  intros H Hp Hc. rewrite <- (same_shape_clear_only p q H) in Hc.
  by apply (same_shape_slots p q (λ a, resolve_texture a = 0) H); [|apply Hp].
Qed.

(** ** The chain of repeated depth clears *)

Lemma past_depth p :
  wf p -> clears_depth_past_its_area p = true -> depth_texture p <> 0
  /\ (depth_clears (depth_load p) = true \/ stencil_clears (stencil_load p) = true).
Proof.
  intros W H. unfold clears_depth_past_its_area in H. apply andb_true_iff in H as [H1 H2]. split.
  - intros Hz. unfold color_extent_covers_depth in H2. by rewrite Hz in H2.
  - by apply orb_true_iff in H1.
Qed.

(** The pass after a removed one does not repeat its clear. *)
Lemma not_past_head p q :
  wf q -> clear_only p = true -> clear_only q = true -> merge_bails views sampled (w p) q = false ->
  linked (Some p) q -> clears_depth_past_its_area q = false.
Proof.
  intros Wq Hc Hcq Hb Hl. destruct (clears_depth_past_its_area q) eqn:E; [exfalso|done].
  destruct (Hl Hcq E) as (? & [= <-] & Hr). destruct (past_depth q Wq E) as [Hn Hcl].
  unfold repeats_depth_clear_of in Hr. rewrite !andb_true_iff in Hr.
  destruct Hr as (((((((_ & _) & _) & Ht) & Hlv) & _) & Hdl) & Hst).
  assert (attaches_depth (w p) q = true) as Hat.
  { unfold attaches_depth. cbn [m_depth m_depth_level clear_merge]. by rewrite Z.eqb_sym, Ht, Z.eqb_sym, Hlv. }
  unfold merge_bails in Hb. rewrite !orb_false_iff in Hb. destruct Hb as (((_ & Hb1) & Hb2) & _).
  apply Z.eqb_eq in Ht. unfold clear_merge in Hb1, Hb2. cbn [needs_depth needs_stencil] in Hb1, Hb2.
  change (attaches_depth _ q) with (attaches_depth (w p) q) in Hb1, Hb2.
  rewrite Hc, Hat in Hb1, Hb2. cbn [negb andb] in Hb1, Hb2. destruct Hcl as [Hcl|Hcl]; rewrite Hcl in *.
  - cbn in Hdl. apply bool_decide_eq_true in Hdl. by rewrite Hdl, Hcl in Hb1.
  - cbn in Hst. apply bool_decide_eq_true in Hst. rewrite Ht, (proj2 (Z.eqb_neq _ _) Hn), Hst, Hcl in Hb2. done.
Qed.

Lemma fold_no_depth p q :
  needs_depth (w p) || needs_stencil (w p) = false -> depth (fold_clear (w p) p q) = depth q.
Proof.
  intros H. apply orb_false_iff in H as [H1 H2]. unfold fold_clear. rewrite H1, H2. by destruct (needs_color (w p)).
Qed.

(** A target that clears past its area kept its own depth loads. *)
Lemma fold_past p q :
  wf p -> wf q -> merge_bails views sampled (w p) q = false -> merge_matches (w p) q = true ->
  clears_depth_past_its_area (fold_clear (w p) p q) = true ->
  depth (fold_clear (w p) p q) = depth q /\ clears_depth_past_its_area q = true.
Proof.
  intros W Wq Hb Hm H.
  pose proof (same_shape_extent q _ (fold_shape (views := views) companion planes seen sampled p q W Wq)) as He.
  destruct (needs_depth (w p) || needs_stencil (w p)) eqn:En.
  - destruct (match_depth sampled p q Hm Hb En) as (_ & _ & Hc & _). unfold clears_depth_past_its_area in H.
    rewrite <- He, Hc in H. by rewrite andb_false_r in H.
  - pose proof (fold_no_depth p q En) as Hd. split; [done|]. unfold clears_depth_past_its_area in *. rewrite He.
    unfold depth_load, stencil_load in *. by rewrite Hd in H.
Qed.

Lemma fold_linked p q prev :
  wf p -> wf q -> merge_bails views sampled (w p) q = false -> merge_matches (w p) q = true ->
  linked prev q -> linked prev (fold_clear (w p) p q).
Proof.
  intros W Wq Hb Hm Hl Hc H. destruct (fold_past p q W Wq Hb Hm H) as [Hd Hp].
  rewrite <- (same_shape_clear_only q _ (fold_shape (views := views) companion planes seen sampled p q W Wq)) in Hc.
  destruct (Hl Hc Hp) as (pr & -> & Hr). exists pr. split; [done|]. unfold repeats_depth_clear_of in *.
  unfold depth_texture, depth_level, depth_size, depth_load, stencil_load in *. by rewrite Hd.
Qed.

Lemma fold_repeats p q r :
  wf p -> wf q -> merge_bails views sampled (w p) q = false -> merge_matches (w p) q = true ->
  repeats_depth_clear_of r q = true -> repeats_depth_clear_of r (fold_clear (w p) p q) = true.
Proof.
  intros W Wq Hb Hm H. pose proof (fold_shape (views := views) companion planes seen sampled p q W Wq) as Hs.
  destruct (same_shape_depth _ _ Hs) as (Ht & Hlv & Hsz & _). unfold repeats_depth_clear_of in *.
  rewrite <- (same_shape_color_texture _ _ Hs), <- (same_shape_no_extras _ _ Hs), <- Ht, <- Hlv, <- Hsz.
  replace (has_draw (fold_clear (w p) p q)) with (has_draw q)
    by (unfold has_draw; by rewrite (same_shape_commands _ _ Hs)).
  rewrite !andb_true_iff in H |- *.
  destruct H as (((((((H1 & H2) & H3) & H4) & H5) & H6) & Hdl) & Hst). repeat split; try done.
  - destruct (fold_depth_loads p q) as [-> _]. destruct (depth_clears (depth_load r)) eqn:E; [|done].
    cbn [negb orb] in Hdl |- *. destruct (needs_depth (w p)) eqn:En; [exfalso|done].
    destruct (match_depth sampled p q Hm Hb ltac:(by rewrite En)) as (_ & _ & _ & Hx & _).
    apply bool_decide_eq_true in Hdl. rewrite <- Hdl, Hx in E by done. done.
  - destruct (fold_depth_loads p q) as [_ ->]. destruct (stencil_clears (stencil_load r)) eqn:E; [|done].
    cbn [negb orb] in Hst |- *. destruct (needs_stencil (w p)) eqn:En; [exfalso|done].
    destruct (match_depth sampled p q Hm Hb ltac:(by rewrite En, orb_true_r)) as (_ & _ & _ & _ & Hx).
    apply bool_decide_eq_true in Hst. rewrite <- Hst, Hx in E by done. done.
Qed.

Lemma chain_head prev prev' p rest :
  (linked prev p -> linked prev' p) -> chain prev (p :: rest) -> chain prev' (p :: rest).
Proof. intros H [H1 H2]. split; auto. Qed.

Lemma fold_walk_chain p prev rest t :
  wf p -> Forall wf rest -> find_clear_merge_target views sampled (w p) rest = Some t -> chain prev rest ->
  chain prev (alter (fold_clear (w p) p) t rest).
Proof.
  intros W. revert t prev. induction rest as [|q rest IH]; intros t prev Hwf Hf Hc; [done|].
  apply Forall_cons in Hwf as [Wq Hwf]. destruct Hc as [Hl Hc]. cbn [find_clear_merge_target] in Hf.
  destruct (merge_step views sampled (w p) q) eqn:Es; [done| |].
  - injection Hf as <-. unfold merge_step in Es. destruct (merge_bails views sampled (w p) q) eqn:Eb; [done|].
    destruct (merge_matches (w p) q) eqn:Em; [|by destruct (merge_consumes _ _)].
    cbn [alter list_alter]. split; [by apply fold_linked|]. destruct rest as [|r rest]; [done|].
    revert Hc. apply chain_head. intros Hr Hcr H. destruct (Hr Hcr H) as (? & [= <-] & Hrep).
    exists (fold_clear (w p) p q). split; [done|by apply fold_repeats].
  - destruct (find_clear_merge_target views sampled (w p) rest) as [t'|] eqn:Et; [|done]. injection Hf as <-.
    cbn [alter list_alter]. split; [done|]. by apply IH.
Qed.

(** The removed pass is no link of the chain. *)
Lemma drop_chain p prev rest t :
  wf p -> Forall wf rest -> clear_only p = true -> find_clear_merge_target views sampled (w p) rest = Some t ->
  chain (Some p) rest -> chain prev rest.
Proof.
  intros W Hwf Hc Hf. destruct rest as [|q rest]; [done|]. apply Forall_cons in Hwf as [Wq _].
  apply chain_head. intros Hl Hcq H. exfalso. assert (merge_bails views sampled (w p) q = false) as Hb.
  { cbn [find_clear_merge_target] in Hf. unfold merge_step in Hf. by destruct (merge_bails views sampled (w p) q). }
  by rewrite (not_past_head p q Wq Hc Hcq Hb Hl) in H.
Qed.

(** ** The loop *)

(** What Rule E asks of a pass list in front of which [prev] ran. *)
Record foldable (prev : option Pass) (ps : list Pass) : Prop := {
  fo_wf : Forall wf ps;
  fo_pairs : ForallOrdPairs fold_pair ps;
  fo_resolves : Forall drops_no_resolve ps;
  fo_chain : chain prev ps }.

Lemma foldable_tail prev p ps : foldable prev (p :: ps) -> foldable (Some p) ps.
Proof.
  intros [H1 H2 H3 [_ H4]]. apply Forall_cons in H1 as [_ ?]. apply Forall_cons in H3 as [_ ?].
  inversion_clear H2. by split.
Qed.

Lemma foldable_fold prev p ps t :
  foldable prev (p :: ps) -> clear_only p = true -> find_clear_merge_target views sampled (w p) ps = Some t ->
  foldable prev (alter (fold_clear (w p) p) t ps).
Proof.
  intros [H1 H2 H3 [_ H4]] Hc Hf. apply Forall_cons in H1 as [W Hwf]. apply Forall_cons in H3 as [_ H3].
  inversion_clear H2 as [|? ? _ Hpairs]. pose proof (tamed_all p ps t W Hwf) as Ht. split.
  - revert Hwf. apply tamed_Forall; [|done]. intros ? ?. apply pass_wf_shape.
  - revert Hpairs. apply (ForallOrdPairs_Forall2 _ tamed); [|done]. intros a b a' b'. apply fold_pair_tamed.
  - revert H3. apply tamed_Forall; [|done]. apply drops_no_resolve_shape.
  - apply fold_walk_chain; [done..|]. by eapply drop_chain.
Qed.

Lemma coalesce_le fuel prev ps m :
  foldable prev ps -> after (views := views) companion planes seen sampled prev m ->
  mem_le nowhere (run_passes views ps m) (run_passes views (coalesce views sampled fuel ps) m).
Proof.
  revert prev ps m. induction fuel as [|fuel IH]; intros prev ps m Hfo Haf; [apply mem_le_refl|].
  destruct ps as [|p rest]; [apply mem_le_refl|]. cbn [coalesce].
  pose proof (foldable_tail prev p rest Hfo) as Htl.
  assert (wf p) as W by (by destruct Hfo as [[??]%Forall_cons _ _ _]).
  assert (mem_le nowhere (run_passes views (p :: rest) m) (run_passes views (p :: coalesce views sampled fuel rest) m))
    as Hkeep.
  { rewrite !run_passes_cons. apply (IH (Some p)); [done|]. by apply after_pass. }
  destruct (needs_color (w p) || needs_depth (w p) || needs_stencil (w p)) eqn:En; cbn [negb]; [|done].
  destruct (find_clear_merge_target views sampled (w p) rest) as [t|] eqn:Ef; [|done]. clear Hkeep.
  pose proof (needs_clear_only p En) as Hc.
  eapply mem_le_trans; [|apply (IH prev); [by apply foldable_fold|done]].
  rewrite run_passes_cons. destruct Htl as [Hwf _ _ _]. destruct Hfo as [_ Hp [Hr _]%Forall_cons [Hl _]].
  inversion_clear Hp as [|? ? Hpr _]. apply (fold_walk_le (views := views) companion planes seen sampled companion_inj); try done.
  apply (fold_start (views := views) companion planes seen sampled); [done..|]. by apply Haf.
Qed.
End Coalesce.
