(* ===== verification/PassJoin.v ===== *)
(** Rule J: a pass joined onto the one before it.  The tile the second pass
    would load is the tile the first leaves, and its draws find an encoder that
    a fresh one does not differ from in anything they read. *)

From S2P Require Import Prelude PassCommands PassData PassRules PassMerge PassGpu PassFacts PassClearOnly.
From S2P Require Import PassDepthStores.

(** Rule J's encoder states: what the walk back over the commands of the first
    pass finds, and that the commands put between the two passes leave every
    state at the value a fresh encoder has. *)

(** ** The last setting of a state *)

Definition last_setting (k : CommandType) (cs : list Command) : option Command :=
  snd <$> list_find (λ c, cmd c = command_code k) (reverse cs).

Lemma last_setting_snoc k cs c :
  last_setting k (cs ++ [c]) = if decide (cmd c = command_code k) then Some c else last_setting k cs.
Proof.
  unfold last_setting. rewrite reverse_snoc. cbn [list_find]. destruct (decide _); [done|].
  destruct (list_find _ _) as [[]|]; reflexivity.
Qed.

Lemma last_setting_Some k cs c : last_setting k cs = Some c -> c ∈ cs /\ cmd c = command_code k.
Proof.
  unfold last_setting. destruct (list_find _ _) as [[i x]|] eqn:E; [|done]. intros [= <-].
  apply list_find_Some in E as (Hi & Hc & _). split; [|done]. apply elem_of_reverse. by eapply list_elem_of_lookup_2.
Qed.

Lemma last_setting_None k cs c : last_setting k cs = None -> c ∈ cs -> cmd c <> command_code k.
Proof.
  unfold last_setting. destruct (list_find _ _) as [[i x]|] eqn:E; [done|]. intros _ Hc.
  apply list_find_None in E. rewrite Forall_forall in E. apply E. by apply elem_of_reverse.
Qed.

Lemma join_state_kind k : k ∈ JOIN_STATES ->
  (forall c, State k ∈ sets c <-> cmd c = command_code k) /\ (forall c, cmd c = command_code k -> is_draw c = false).
Proof.
  intros Hk. split.
  - intros c. split.
    + unfold sets. destruct (command_from_repr (cmd c)) as [k'|] eqn:E; [|by rewrite elem_of_nil].
      apply command_code_from_repr in E. intros Hs.
      destruct k'; rewrite ?elem_of_cons, ?elem_of_nil in Hs; naive_solver.
    + intros Hc. unfold sets. rewrite Hc, command_from_repr_code.
      unfold JOIN_STATES in Hk. rewrite !elem_of_cons, elem_of_nil in Hk. destruct_or! Hk; subst k; try done; by left.
  - intros c Hc. unfold is_draw. rewrite Hc. unfold JOIN_STATES in Hk.
    rewrite !elem_of_cons, elem_of_nil in Hk. by destruct_or! Hk; subst k.
Qed.

Lemma encoder_after_app cs1 cs2 e : encoder_after (cs1 ++ cs2) e = encoder_after cs2 (encoder_after cs1 e).
Proof. apply foldl_app. Qed.

(** A state of the encoder is what last set it. *)
Lemma encoder_after_state k cs e : k ∈ JOIN_STATES ->
  encoder_after cs e (State k) = match last_setting k cs with Some c => Some c | None => e (State k) end.
Proof.
  intros Hk. destruct (join_state_kind k Hk) as [Hs Hd]. induction cs as [|c cs IH] using rev_ind; [done|].
  rewrite encoder_after_app, last_setting_snoc. unfold encoder_after at 1. cbn [foldl]. unfold step_encoder.
  destruct (decide (cmd c = command_code k)) as [Hc|Hc].
  - rewrite Hd by done. unfold set_slots. by rewrite bool_decide_eq_true_2 by by apply Hs.
  - rewrite <- IH. destruct (is_draw c); [done|]. unfold set_slots. rewrite bool_decide_eq_false_2; [done|]. by rewrite Hs.
Qed.

Lemma encoder_state_kind k cs c : k ∈ JOIN_STATES -> encoder_after cs fresh (State k) = Some c -> cmd c = command_code k.
Proof.
  intros Hk. rewrite encoder_after_state by done. destruct (last_setting k cs) eqn:E; [|done].
  intros [= <-]. by apply last_setting_Some in E as [_ ?].
Qed.

(** ** The walk back *)

Lemma join_state_iff c i : join_state c = Some i <-> exists k, JOIN_STATES !! i = Some k /\ cmd c = command_code k.
Proof.
  unfold join_state. split.
  - destruct (list_find _ _) as [[j k]|] eqn:E; [|done]. intros [= <-]. apply list_find_Some in E as (Hj & Hk & _). eauto.
  - intros (k & Hi & Hc). destruct (list_find (λ k, command_code k = cmd c) JOIN_STATES) as [[j k']|] eqn:E.
    + apply list_find_Some in E as (Hj & Hk' & _). cbn. f_equal. rewrite Hc in Hk'.
      assert (k' = k) as ->.
      { apply (f_equal command_from_repr) in Hk'. rewrite !command_from_repr_code in Hk'. by injection Hk'. }
      apply (NoDup_lookup JOIN_STATES j i k); [|done..]. apply (bool_decide_unpack _). by vm_compute.
    + apply list_find_None in E. rewrite Forall_forall in E. exfalso. apply (E k); [by eapply list_elem_of_lookup_2|done].
Qed.

(** The states still looked for. *)
Definition wanted (sbd : list bool) (ls : list (option Command)) : nat :=
  length (filter (λ bl : bool * option Command, bl.1 = false /\ bl.2 = None) (zip sbd ls)).

Lemma wanted_none sbd ls i : wanted sbd ls = 0%nat -> sbd !! i = Some false -> ls !! i <> Some None.
Proof.
  intros Hw Hb Hl. apply nil_length_inv in Hw. eapply filter_nil_not_elem_of; [exact Hw| |].
  - instantiate (1 := (false, None)). done.
  - apply list_elem_of_lookup. exists i. by rewrite lookup_zip_with, Hb, Hl.
Qed.

Lemma wanted_insert sbd ls i c :
  sbd !! i = Some false -> ls !! i = Some None -> wanted sbd ls = S (wanted sbd (<[i := Some c]> ls)).
Proof.
  revert ls i. induction sbd as [|b sbd IH]; intros [|l ls] [|i] Hb Hl; try done.
  - injection Hb as ->. injection Hl as ->. unfold wanted. cbn [insert list_insert zip zip_with].
    rewrite filter_cons_True by done. by rewrite filter_cons_False by (by intros [_ ?]).
  - unfold wanted. cbn [insert list_insert zip zip_with]. rewrite !filter_cons. specialize (IH ls i Hb Hl).
    unfold wanted in IH. destruct (decide _); cbn [length]; by rewrite IH.
Qed.

Lemma wanted_start sbd n : length sbd = n -> wanted sbd (replicate n None) = length (List.filter negb sbd).
Proof.
  intros <-. induction sbd as [|b sbd IH]; [done|]. unfold wanted in *. cbn [length replicate zip zip_with List.filter].
  rewrite filter_cons. destruct b; cbn [negb]; destruct (decide _) as [[??]|Hn]; cbn [length]; try by rewrite IH.
  by destruct Hn.
Qed.

(** What the walk leaves at a state: what it had, or else the first setting of
    it the walk meets, which is the last in the pass. *)
Definition found (sbd : list bool) (ls : list (option Command)) (cs : list Command) (i : nat) : option (option Command) :=
  match sbd !! i, ls !! i with
  | Some false, Some None => Some (snd <$> list_find (λ c, join_state c = Some i) cs)
  | _, l => l
  end.

Lemma scan_last_set_found sbd ls cs i : scan_last_set sbd (wanted sbd ls) ls cs !! i = found sbd ls cs i.
Proof.
  revert ls. induction cs as [|c cs IH]; intros ls.
  { unfold found. cbn. destruct (wanted sbd ls); cbn; by destruct (sbd !! i) as [[]|], (ls !! i) as [[]|]. }
  destruct (wanted sbd ls) as [|n] eqn:Hw.
  { unfold found. cbn [scan_last_set]. destruct (sbd !! i) as [[]|] eqn:Hb; [done| |done].
    pose proof (wanted_none sbd ls i Hw Hb). by destruct (ls !! i) as [[]|]. }
  cbn [scan_last_set].
  assert (found sbd ls (c :: cs) i
          = if decide (join_state c = Some i /\ sbd !! i = Some false /\ ls !! i = Some None) then Some (Some c)
            else found sbd ls cs i) as ->.
  { unfold found. destruct (sbd !! i) as [[]|], (ls !! i) as [[]|]; cbn [list_find];
      destruct (decide (join_state c = Some i)) as [Hj|Hj]; destruct (decide (_ /\ _ /\ _)) as [(?&?&?)|Hn]; try done.
    - by destruct Hn.
    - destruct (list_find _ _) as [[]|]; reflexivity. }
  destruct (join_state c) as [st|] eqn:Hj; [|rewrite <- Hw, IH; by destruct (decide _) as [[? _]|]].
  destruct (sbd !! st) as [[]|] eqn:Hb.
  1,3: rewrite <- Hw, IH; destruct (decide _) as [([= <-] & ? & ?)|]; [congruence|done].
  destruct (ls !! st) as [[]|] eqn:Hl.
  1,3: rewrite <- Hw, IH; destruct (decide _) as [([= <-] & ? & ?)|]; [congruence|done].
  rewrite (wanted_insert sbd ls st c Hb Hl) in Hw. injection Hw as <-. rewrite IH. unfold found.
  destruct (decide (st = i)) as [->|Hne].
  - rewrite list_lookup_insert_eq by (by eapply lookup_lt_Some). rewrite Hb. by rewrite decide_True.
  - rewrite list_lookup_insert_ne by done. destruct (decide _) as [([= ->] & _)|]; done.
Qed.

(** The source's early exit is right: the walk finds the last setting of every
    state [next] leaves to the encoder. *)
Lemma scan_last_set_all sbd prev i k :
  length sbd = length JOIN_STATES -> JOIN_STATES !! i = Some k ->
  scan_last_set sbd (length (List.filter negb sbd)) (replicate (length JOIN_STATES) None) (reverse prev) !! i
  = Some (match sbd !! i with Some false => last_setting k prev | _ => None end).
Proof.
  intros Hlen Hk. rewrite <- (wanted_start sbd _ Hlen), scan_last_set_found. unfold found.
  rewrite lookup_replicate_2 by (by eapply lookup_lt_Some). destruct (sbd !! i) as [[]|]; try done.
  unfold last_setting. do 2 f_equal. apply list_find_ext_eq. intros c. rewrite join_state_iff. split.
  - by intros (k' & Hk' & Hc); rewrite Hk in Hk'; injection Hk' as <-.
  - eauto.
Qed.

(** ** The commands between the passes *)

Lemma fresh_state_command_fresh last c : fresh_state_command last = Some c ->
  sets_fresh_value c = true /\ cmd c = cmd last /\ is_draw c = false /\ command_sampled_texture c = None.
Proof.
  unfold fresh_state_command. destruct (command_from_repr (cmd last)) as [k|] eqn:E; [|done].
  apply command_code_from_repr in E. destruct k; try done; intros [= <-]; rewrite <- E; done.
Qed.

Lemma restore_states_in ls cs c : restore_states ls = Some cs -> c ∈ cs -> exists last, fresh_state_command last = Some c.
Proof.
  revert cs. induction ls as [|[last|] ls IH]; intros cs; cbn [restore_states]; [by intros [= <-] ?%elem_of_nil| |by apply IH].
  destruct (sets_fresh_value last); [by apply IH|]. destruct (fresh_state_command last) as [c'|] eqn:E; [|done]. cbn.
  destruct (restore_states ls) as [cs'|]; [|done]. cbn. intros [= <-] [->|Hc]%elem_of_cons; [by exists last|by eapply IH].
Qed.

Lemma restore_states_all ls cs last : restore_states ls = Some cs -> Some last ∈ ls ->
  sets_fresh_value last = true \/ exists c, c ∈ cs /\ cmd c = cmd last.
Proof.
  revert cs. induction ls as [|[l|] ls IH]; intros cs; cbn [restore_states]; [by intros _ ?%elem_of_nil| |].
  - destruct (sets_fresh_value l) eqn:Ef.
    { intros Hr [[= ->]|Hin]%elem_of_cons; [by left|by apply IH]. }
    destruct (fresh_state_command l) as [c'|] eqn:E; [|done]. cbn.
    destruct (restore_states ls) as [cs'|]; [|done]. cbn. intros [= <-] [[= ->]|Hin]%elem_of_cons.
    + right. exists c'. split; [by left|]. by apply fresh_state_command_fresh in E as (_ & ? & _).
    + destruct (IH cs' eq_refl Hin) as [|(c & ? & ?)]; [by left|right]. exists c. split; [by right|done].
  - intros Hr [?|Hin]%elem_of_cons; [done|by apply IH].
Qed.

Lemma states_set_at pre i k : JOIN_STATES !! i = Some k ->
  states_set pre !! i = Some (existsb (λ c, cmd c =? command_code k) pre).
Proof. intros Hk. unfold states_set. by rewrite list_lookup_fmap, Hk. Qed.

(** A state set to a fresh encoder's value counts as a state not set. *)
Definition state_value (o : option Command) : option Command :=
  match o with
  | Some c => if sets_fresh_value c then None else Some c
  | None => None
  end.

(** After the first pass and the commands between, every state the second pass
    does not set before its first draw is at a fresh encoder's value. *)
Lemma restored_fresh prev pre join k :
  restore_states (scan_last_set (states_set pre) (length (List.filter negb (states_set pre)))
                    (replicate (length JOIN_STATES) None) (reverse prev)) = Some join ->
  k ∈ JOIN_STATES -> last_setting k pre = None ->
  state_value (encoder_after (prev ++ join) fresh (State k)) = None.
Proof.
  intros Hr Hk Hpre. apply list_elem_of_lookup in Hk as Hk'. destruct Hk' as [i Hi].
  assert (length (states_set pre) = length JOIN_STATES) as Hlen by apply length_fmap.
  pose proof (scan_last_set_all (states_set pre) prev i k Hlen Hi) as Hs.
  rewrite (states_set_at pre i k Hi) in Hs. replace (existsb _ pre) with false in Hs.
  2:{ symmetry. apply not_true_iff_false. intros (c & Hc & He)%existsb_exists. apply Z.eqb_eq in He.
      by apply (last_setting_None k pre c Hpre); [apply list_elem_of_In|]. }
  rewrite encoder_after_app, encoder_after_state by done. destruct (last_setting k join) as [c|] eqn:Ej.
  - apply last_setting_Some in Ej as [Hc _]. destruct (restore_states_in _ _ c Hr Hc) as [last Hl].
    apply fresh_state_command_fresh in Hl as (Hf & _). cbn. by rewrite Hf.
  - rewrite encoder_after_state by done. destruct (last_setting k prev) as [last|] eqn:Ep; [|done]. cbn.
    apply list_elem_of_lookup_2 in Hs. destruct (restore_states_all _ _ last Hr Hs) as [->|(c & Hc & He)]; [done|].
    exfalso. apply (last_setting_None k join c Ej Hc). rewrite He. by apply last_setting_Some in Ep as [_ ?].
Qed.

(** The states the source keeps count of are all a draw reads: [None] and the
    value it takes for a fresh encoder's read the same. *)
Lemma last_call_value k e :
  last_call k e = (c ← state_value (e (State k)); if cmd c =? command_code k then Some c else None)
  \/ exists c, last_call k e = Some c /\ sets_fresh_value c = true /\ state_value (e (State k)) = None.
Proof.
  unfold last_call, state_value. destruct (e (State k)) as [c|]; [|by left]. cbn. destruct (sets_fresh_value c) eqn:F; [|by left].
  cbn. destruct (cmd c =? command_code k); [right; eauto|by left].
Qed.

Lemma last_call_kind k e c : last_call k e = Some c -> cmd c = command_code k.
Proof. unfold last_call. destruct (e (State k)) as [c'|]; [|done]. cbn. destruct (_ =? _) eqn:E; [|done]. intros [= <-]. by apply Z.eqb_eq. Qed.

(** What a reading of a state makes of a fresh value, it makes of none. *)
Lemma last_call_reads {A} (f : option Command -> A) k e1 e2 :
  (forall c, cmd c = command_code k -> sets_fresh_value c = true -> f (Some c) = f None) ->
  state_value (e1 (State k)) = state_value (e2 (State k)) -> f (last_call k e1) = f (last_call k e2).
Proof.
  intros Hf H. destruct (last_call_value k e1) as [E1|(c1 & E1 & F1 & V1)], (last_call_value k e2) as [E2|(c2 & E2 & F2 & V2)].
  - by rewrite E1, E2, H.
  - rewrite E1, H, V2, E2. symmetry. apply Hf; [by eapply last_call_kind|done].
  - rewrite E2, <- H, V1, E1. apply Hf; [by eapply last_call_kind|done].
  - rewrite E1, E2, (Hf c1), (Hf c2) by (done || by eapply last_call_kind). done.
Qed.

Lemma fresh_value_kinds c : sets_fresh_value c = true ->
  cmd c = command_code SetVisibilityResultMode /\ param_a c = 0
  \/ c = set_triangle_fill_mode 0 \/ c = set_depth_bias 0 0 \/ c = set_stencil_reference 0 \/ c = set_blend_color 0 0 0 0.
Proof.
  unfold sets_fresh_value. destruct (_ =? _) eqn:E.
  - apply Z.eqb_eq in E. intros H%Z.eqb_eq. by left.
  - cbn [existsb]. rewrite !orb_true_iff, !same_command_iff. unfold fresh_blend_color_command. intros [|[|[|[|]]]]; subst; auto. done.
Qed.

Lemma states_agree e1 e2 :
  (forall k, k ∈ JOIN_STATES -> state_value (e1 (State k)) = state_value (e2 (State k))) -> encoder_state e1 = encoder_state e2.
Proof.
  intros H. unfold encoder_state.
  assert (R : forall A (f : option Command -> A) k, bool_decide (k ∈ JOIN_STATES) = true ->
    (forall c, cmd c = command_code k -> sets_fresh_value c = true -> f (Some c) = f None) -> f (last_call k e1) = f (last_call k e2)).
  { intros A f k Hk Hf. by apply last_call_reads, H, (bool_decide_eq_true _). }
  f_equal; (apply (R _ (λ o, o)) || apply (R _ (from_option _ _)) || apply (R _ (λ o, c ← o; if param_a c =? 0 then None else Some (param_a c, param_b c)))); try done.
  all: intros c Hc [[Hv Ha]|[->|[->|[->| ->]]]]%fresh_value_kinds; try (by rewrite Hv in Hc); try done.
  cbn. by rewrite Ha.
Qed.

(** ** Where the slots of a pass are *)

Definition color_place (a : PassColorAttachment) : option (Z * Z * Surface * (Z * Z) * (Z * Z)) :=
  if is_bound a
  then Some (attachment_texture a, subresource a, color_surface a, (texture a, msaa_texture a), size a) else None.

Definition depth_place (p : Pass) : option (Z * Z * (Z * Z) * bool) :=
  if depth_texture p =? 0 then None else Some (depth_texture p, depth_level p, depth_size p, has_stencil p).

Definition place (p : Pass) := (color_place <$> color_slots p, depth_place p, visibility_buffer p).

Section Place.
Context (p q : Pass) (H : place p = place q).

Lemma place_colors : color_place <$> color_slots p = color_place <$> color_slots q.
Proof. exact (f_equal (λ x, x.1.1) H). Qed.

Lemma place_color i : color_slots p !! i ≫= color_place = color_slots q !! i ≫= color_place.
Proof.
  pose proof (f_equal (lookup i) place_colors) as Hi.
  rewrite !list_lookup_fmap in Hi. destruct (color_slots p !! i), (color_slots q !! i); cbn in *; congruence.
Qed.

Lemma place_depth : depth_place p = depth_place q.
Proof. exact (f_equal (λ x, x.1.2) H). Qed.

Lemma place_attached sl : attached p sl = attached q sl.
Proof.
  pose proof place_depth as Hd. unfold depth_place in Hd. destruct sl as [i| | |]; cbn [attached].
  - pose proof (place_color i) as Hi. destruct (color_slots p !! i) as [a|], (color_slots q !! i) as [b|]; cbn in *;
      unfold color_place in *; repeat (destruct (is_bound _)); congruence.
  - unfold depth_surface. destruct (depth_texture p =? 0), (depth_texture q =? 0); congruence.
  - unfold stencil_surface. destruct (depth_texture p =? 0), (depth_texture q =? 0); try done.
    injection Hd as -> -> _ ->. done.
  - by rewrite (f_equal snd H : visibility_buffer p = visibility_buffer q).
Qed.

Lemma place_length : length (color_slots p) = length (color_slots q).
Proof. pose proof (f_equal (λ x, length x.1.1) H) as Hl. cbn [place fst] in Hl. by rewrite !length_fmap in Hl. Qed.

Lemma place_slot_of s : slot_of p s = slot_of q s.
Proof.
  unfold slot_of, slots. rewrite place_length. f_equal. apply list_find_ext_eq. intros sl. by rewrite place_attached.
Qed.

Lemma bound_sizes_place r :
  bound_sizes r = (snd <$> omap id (color_place <$> color_slots r))
                  ++ match depth_place r with Some (_, _, sz, _) => [sz] | None => [] end.
Proof.
  unfold bound_sizes, depth_place. f_equal; [|by destruct (depth_texture r =? 0)].
  induction (color_slots r) as [|a l IH]; [done|]. cbn. unfold color_place at 1. destruct (is_bound a); cbn; by rewrite IH.
Qed.

Lemma place_area : render_area p = render_area q.
Proof.
  unfold render_area. by rewrite !bound_sizes_place, place_depth, place_colors.
Qed.

Lemma place_covers sl s : attached p sl = Some s -> covers p sl = covers q sl.
Proof.
  unfold covers. rewrite place_area. intros Ha. f_equal. pose proof place_depth as Hd. unfold depth_place in Hd.
  destruct sl as [i| | |]; cbn in Ha |- *; [|destruct (depth_texture p =? 0), (depth_texture q =? 0); cbn in Ha; try done;
    by injection Hd as _ _ -> _..|done].
  pose proof (place_color i) as Hi. destruct (color_slots p !! i) as [a|]; [|done]. cbn in Ha, Hi.
  unfold color_place in Hi at 1. destruct (is_bound a); [|done]. destruct (color_slots q !! i) as [b|]; [|done].
  cbn in Hi. unfold color_place in Hi. destruct (is_bound b); [|done]. congruence.
Qed.

Lemma place_reaches sl s px : attached p sl = Some s -> reaches p sl px = reaches q sl px.
Proof.
  intros Ha. pose proof (place_covers sl s Ha) as Hc. unfold covers in Hc. unfold reaches.
  by rewrite Hc, place_area.
Qed.

Lemma target_place r :
  target_of r = mkTargetViews ((λ o, (λ x, x.1.1.1) <$> o) <$> (color_place <$> color_slots r))
                  ((λ x, x.1.1) <$> depth_place r) (render_area r).
Proof.
  unfold target_of, depth_place. f_equal; [|by destruct (depth_texture r =? 0)].
  rewrite <- list_fmap_compose. apply list_fmap_ext. intros i a _. unfold color_place. cbn. by destruct (is_bound a).
Qed.

Lemma place_target : target_of p = target_of q.
Proof.
  by rewrite !target_place, place_depth, place_area, place_colors.
Qed.
End Place.

(** ** What the rule tests *)

Lemma same_views_place a b :
  is_bound a = true -> texture a = texture b -> same_views a b = true -> color_place a = color_place b.
Proof.
  unfold same_views. rewrite !andb_true_iff, !Z.eqb_eq, bool_decide_eq_true. intros Hb Ht (((((H1 & H2) & H3) & H4) & H5) & _).
  unfold color_place, is_bound, attachment_texture, color_surface in *. by rewrite Ht, H1, H2, H3, H4, H5.
Qed.

Lemma contains_stencil f g :
  Z.land f (Z.lor SAMPLEABLE HAS_STENCIL) = Z.land g (Z.lor SAMPLEABLE HAS_STENCIL) ->
  contains f HAS_STENCIL = contains g HAS_STENCIL.
Proof.
  intros H. assert (forall h, Z.land h HAS_STENCIL = Z.land (Z.land h (Z.lor SAMPLEABLE HAS_STENCIL)) HAS_STENCIL) as Hx
      by (intros h; by rewrite <- Z.land_assoc).
  unfold contains. by rewrite (Hx f), (Hx g), H.
Qed.

Lemma attachments_match_place a b :
  length (extra_color a) = length (extra_color b) -> visibility_buffer a = visibility_buffer b ->
  attachments_match a b = true -> place a = place b.
Proof.
  intros Hlen Hv. unfold attachments_match. rewrite !andb_true_iff. intros ((([Ht Hc] & He) & [Htd Hd]) & _).
  assert (forall x y, texture x =? texture y = true -> (texture x =? 0) || same_views x y = true ->
            color_place x = color_place y) as Hxy.
  { intros x y Ht0 Hs. apply Z.eqb_eq in Ht0. destruct (texture x =? 0) eqn:Ez.
    - unfold color_place, is_bound. by rewrite <- Ht0, Ez.
    - apply same_views_place; [|done..]. unfold is_bound. by rewrite Ez. }
  unfold place. f_equal; [|done]. f_equal.
  - cbn [color_slots fmap list_fmap]. f_equal; [by apply Hxy|]. apply list_eq. intros i. rewrite !list_lookup_fmap.
    destruct (extra_color a !! i) as [x|] eqn:Hx.
    + destruct (lookup_lt_is_Some_2 (extra_color b) i) as [y Hy]; [rewrite <- Hlen; by eapply lookup_lt_Some|].
      rewrite Hy. cbn. f_equal. rewrite forallb_forall in He.
      assert (In (x, y) (zip (extra_color a) (extra_color b))) as Hin.
      { apply list_elem_of_In, list_elem_of_lookup. exists i. by rewrite lookup_zip_with, Hx, Hy. }
      apply He in Hin. apply andb_true_iff in Hin as [? ?]. by apply Hxy.
    + rewrite (lookup_ge_None_2 (extra_color b) i); [done|]. rewrite <- Hlen. by apply lookup_ge_None.
  - apply Z.eqb_eq in Htd. unfold depth_place. rewrite <- Htd. destruct (depth_texture a =? 0) eqn:Ez; [done|].
    cbn [orb] in Hd. rewrite !andb_true_iff, !Z.eqb_eq, bool_decide_eq_true in Hd. destruct Hd as ((-> & ->) & Hf).
    unfold has_stencil. by rewrite (contains_stencil _ _ Hf).
Qed.

Lemma take_over_place a b : color_place (take_over a b) = color_place a.
Proof. reflexivity. Qed.

Lemma absorb_place p next join :
  length (extra_color p) = length (extra_color next) -> place (absorb p next join) = place p.
Proof.
  intros Hlen. unfold place. change (visibility_buffer (absorb p next join)) with (visibility_buffer p).
  do 2 f_equal.
  - cbn [absorb color_slots color extra_color fmap list_fmap]. f_equal. revert Hlen. generalize (extra_color next).
    induction (extra_color p) as [|a l IH]; intros [|b k] Hl; try done. cbn [zip_with fmap list_fmap].
    rewrite IH by by injection Hl. by rewrite take_over_place.
  - unfold depth_place. change (depth_texture (absorb p next join)) with (depth_texture p).
    destruct (depth_texture p =? 0); [done|]. do 2 f_equal. unfold has_stencil, contains, depth_flags. cbn [absorb depth depth_flags_].
    rewrite Z.land_lor_distr_l, <- Z.land_assoc.
    replace (Z.land (Z.lor USED STENCIL_WRITTEN) HAS_STENCIL) with 0 by reflexivity. by rewrite Z.land_0_r, Z.lor_0_r.
Qed.

(** The joined pass loads as the first and stores as the second. *)
Lemma absorb_slot p next join i a b :
  color_slots p !! i = Some a -> color_slots next !! i = Some b ->
  color_slots (absorb p next join) !! i = Some (take_over a b).
Proof.
  intros Ha Hb. destruct i as [|i]; [injection Ha as <-; by injection Hb as <-|].
  rewrite color_slots_S in Ha, Hb |- *. cbn [absorb extra_color]. by rewrite lookup_zip_with, Ha, Hb.
Qed.

(** * Joined runs

    The soundness of Rule J, for two passes and for the walk over the list. *)

Lemma contains_bit f n : 0 <= n -> contains f (2 ^ n) = Z.testbit f n.
Proof.
  intros Hn. unfold contains. destruct (Z.testbit f n) eqn:E.
  - apply Z.eqb_eq, Z.bits_inj'. intros k Hk. rewrite Z.land_spec, Z.pow2_bits_eqb by done.
    destruct (n =? k) eqn:Ek; [|apply andb_false_r]. apply Z.eqb_eq in Ek as <-. by rewrite E.
  - apply Z.eqb_neq. intros H. apply (f_equal (λ x, Z.testbit x n)) in H.
    rewrite Z.land_spec, E, Z.pow2_bits_true in H by done. done.
Qed.

(** [USED] and [STENCIL_WRITTEN] of a joined pass are either pass's. *)
Lemma absorb_flag p next join n :
  n = 2 \/ n = 3 ->
  contains (depth_flags (absorb p next join)) (2 ^ n)
  = contains (depth_flags p) (2 ^ n) || contains (depth_flags next) (2 ^ n).
Proof.
  intros Hn. rewrite !contains_bit by lia. unfold depth_flags at 1. cbn [absorb depth depth_flags_].
  rewrite Z.lor_spec, Z.land_spec. fold (depth_flags p). f_equal.
  by destruct Hn as [->| ->]; rewrite andb_true_r.
Qed.

Section JoinRun.
Context {T : Type} {views : Views} `{L : GpuLaws T views}.

(** ** The same commands on two encoders *)

Definition agree (e1 e2 : Encoder) : Prop :=
  (forall k, k ∈ JOIN_STATES -> state_value (e1 (State k)) = state_value (e2 (State k)))
  /\ (forall sl b, is_binding sl -> e1 sl = Some b -> e2 sl = Some b).

(** Each draw finds set all the bindings its pipeline declares. *)
Fixpoint draws_bound (e : Encoder) (cs : list Command) : Prop :=
  match cs with
  | [] => True
  | c :: cs' =>
      (is_draw c = true -> forall sl, is_binding sl -> declares (pipeline e) sl = true -> is_Some (e sl))
      /\ draws_bound (step_encoder e c) cs'
  end.

Lemma agree_set c e1 e2 : agree e1 e2 -> agree (set_slots c e1) (set_slots c e2).
Proof.
  intros [Hs Hb]. split; unfold set_slots.
  - intros k Hk. destruct (bool_decide _); [done|by apply Hs].
  - intros sl b Hsl. destruct (bool_decide _); [done|by apply Hb].
Qed.

Lemma agree_pipeline e1 e2 : agree e1 e2 -> pipeline e1 = pipeline e2.
Proof. intros [Hs _]. unfold pipeline. by rewrite (states_agree e1 e2 Hs). Qed.

Lemma agree_step c e1 e2 : agree e1 e2 -> agree (step_encoder e1 c) (step_encoder e2 c).
Proof. unfold step_encoder. destruct (is_draw c); [done|apply agree_set]. Qed.

Lemma agree_after cs e1 e2 : agree e1 e2 -> agree (encoder_after cs e1) (encoder_after cs e2).
Proof. revert e1 e2. induction cs as [|c cs IH]; intros e1 e2 Ha; [done|]. by apply IH, agree_step. Qed.

Lemma draws_bound_agree cs e1 e2 : agree e1 e2 -> draws_bound e1 cs -> draws_bound e2 cs.
Proof.
  revert e1 e2. induction cs as [|c cs IH]; intros e1 e2 Ha; [done|]. intros [Hc Hcs]. split.
  - intros Hd sl Hsl Hdl. rewrite <- (agree_pipeline e1 e2 Ha) in Hdl. destruct (Hc Hd sl Hsl Hdl) as [b Hb].
    exists b. by apply (proj2 Ha).
  - by apply (IH (step_encoder e1 c)); [apply agree_step|].
Qed.

Lemma draws_bound_app e cs1 cs2 :
  draws_bound e (cs1 ++ cs2) <-> draws_bound e cs1 /\ draws_bound (encoder_after cs1 e) cs2.
Proof.
  revert e. induction cs1 as [|c cs1 IH]; intros e; [by cbn; tauto|].
  cbn [app draws_bound]. rewrite IH. unfold encoder_after. cbn [foldl]. tauto.
Qed.

Lemma draws_bound_quiet e cs : existsb is_draw cs = false -> draws_bound e cs.
Proof.
  revert e. induction cs as [|c cs IH]; intros e H; [done|]. cbn in H. apply orb_false_iff in H as [Hc H].
  split; [congruence|by apply IH].
Qed.

Definition tile_eq (t1 t2 : Tile T) : Prop := tile_le nowhere t1 t2 /\ tile_le nowhere t2 t1.

Lemma tile_eq_at t1 t2 sl px : tile_eq t1 t2 -> t1 sl px = t2 sl px.
Proof.
  intros [H1 H2]. destruct (t1 sl px) as [v|] eqn:E1; [symmetry; by apply (H1 sl ltac:(intros []))|].
  destruct (t2 sl px) as [v|] eqn:E2; [|done]. by rewrite (H2 sl ltac:(intros []) px v E2) in E1.
Qed.

Lemma tile_eq_trans t1 t2 t3 : tile_eq t1 t2 -> tile_eq t2 t3 -> tile_eq t1 t3.
Proof. intros [H1 H2] [H3 H4]. split; by eapply tile_le_trans. Qed.

Lemma run_same_mono tv m cs e t1 t2 :
  tile_le nowhere t1 t2 -> tile_le nowhere (run_commands tv m cs (e, t1)).2 (run_commands tv m cs (e, t2)).2.
Proof.
  intros Ht. apply (run_commands_le nowhere); [|intros ? ? ? _ _ (? & [] & _)|apply mem_le_refl|done].
  intros ? ? _ _ (? & [] & _).
Qed.

Lemma run_agree tv m cs e1 e2 t :
  agree e1 e2 -> draws_bound e1 cs -> tile_eq (run_commands tv m cs (e1, t)).2 (run_commands tv m cs (e2, t)).2.
Proof.
  revert e1 e2 t. induction cs as [|c cs IH]; intros e1 e2 t Ha Hb; [split; apply tile_le_refl|].
  destruct Hb as [Hc Hcs]. unfold run_commands, exec. cbn [foldl fst snd]. unfold step_encoder in Hcs.
  destruct (is_draw c); [|by apply IH; [apply agree_set|]].
  assert (forall sl, is_binding sl -> declares (pipeline e1) sl = true -> e1 sl = e2 sl) as Hd.
  { intros sl Hsl Hdl. destruct (Hc eq_refl sl Hsl Hdl) as [b Hb]. rewrite Hb. symmetry. by apply (proj2 Ha). }
  eapply tile_eq_trans; [by apply IH|]. split; apply run_same_mono, draw_encoder.
  - apply states_agree, Ha.
  - done.
  - symmetry. apply states_agree, Ha.
  - intros sl Hsl. rewrite <- (agree_pipeline e1 e2 Ha). intros Hdl. symmetry. by apply Hd.
Qed.

(** Commands that draw nothing leave the tile. *)
Lemma run_quiet tv m cs st : existsb is_draw cs = false -> (run_commands tv m cs st).2 = st.2.
Proof.
  revert st. induction cs as [|c cs IH]; intros st H; [done|]. cbn [existsb] in H. apply orb_false_iff in H as [Hc H].
  etransitivity; [apply (IH _ H)|]. unfold exec. by rewrite Hc.
Qed.

Lemma run_commands_split tv m cs e t : run_commands tv m cs (e, t) = (encoder_after cs e, (run_commands tv m cs (e, t)).2).
Proof. rewrite <- (run_commands_encoder tv m cs e t). apply surjective_pairing. Qed.

(** ** The two encoders of a join *)

Lemma first_draw_split cs n : first_draw cs = Some n -> existsb is_draw (take n cs) = false.
Proof.
  unfold first_draw. destruct (list_find _ _) as [[i c]|] eqn:E; [|done]. intros [= <-].
  apply list_find_Some in E as (Hi & _ & Hlt). apply not_true_iff_false. intros (x & Hx & Hd)%existsb_exists.
  apply list_elem_of_In, list_elem_of_lookup in Hx as [j Hj]. apply lookup_take_Some in Hj as [Hj Hlj].
  by apply (Hlt j x Hj Hlj).
Qed.

Lemma first_draw_none cs : first_draw cs = None -> existsb is_draw cs = false.
Proof.
  unfold first_draw. destruct (list_find _ _) as [[i c]|] eqn:E; [done|]. intros _.
  apply list_find_None in E. rewrite Forall_forall in E. apply not_true_iff_false. intros (x & Hx & Hd)%existsb_exists.
  apply (E x); [by apply list_elem_of_In|done].
Qed.

Lemma fresh_bound_agree pre e :
  (forall k, k ∈ JOIN_STATES -> last_setting k pre = None -> state_value (e (State k)) = None) ->
  agree (encoder_after pre fresh) (encoder_after pre e).
Proof.
  intros H. split.
  - intros k Hk. rewrite !encoder_after_state by done. destruct (last_setting k pre) eqn:E; [done|].
    by rewrite H.
  - intros sl b _. clear H. assert (forall e1 e2 : Encoder, (forall sl b, e1 sl = Some b -> e2 sl = Some b) ->
        forall sl b, encoder_after pre e1 sl = Some b -> encoder_after pre e2 sl = Some b) as Hx.
    { induction pre as [|c pre IH]; intros e1 e2 He; [done|]. apply IH. intros sl' b'. unfold step_encoder.
      destruct (is_draw c); [apply He|]. unfold set_slots. destruct (bool_decide _); [done|apply He]. }
    apply Hx. by intros ? ?.
Qed.

(** What the test says of the commands it puts between. *)
Lemma merge_join_commands sampled p next join :
  merge_join views sampled p next = Some join ->
  existsb is_draw join = false
  /\ (forall c, c ∈ join -> command_sampled_texture c = None)
  /\ (existsb is_draw (commands next) = false
      \/ exists pre suf, commands next = pre ++ suf /\ existsb is_draw pre = false
           /\ agree (encoder_after pre fresh) (encoder_after pre (encoder_after (commands p ++ join) fresh))).
Proof.
  unfold merge_join. destruct (_ || _ || _ || _ || _); [done|]. destruct (existsb _ (_ :: _)); [done|].
  destruct (first_draw (commands next)) as [n|] eqn:En.
  - intros Hr. split; [|split].
    + apply not_true_iff_false. intros (c & Hc & Hd)%existsb_exists. apply list_elem_of_In in Hc.
      destruct (restore_states_in _ _ c Hr Hc) as [last Hl]. apply fresh_state_command_fresh in Hl as (_ & _ & ? & _). congruence.
    + intros c Hc. destruct (restore_states_in _ _ c Hr Hc) as [last Hl]. by apply fresh_state_command_fresh in Hl as (_ & _ & _ & ?).
    + right. exists (take n (commands next)), (drop n (commands next)). rewrite take_drop.
      split; [done|]. split; [by apply first_draw_split|]. apply fresh_bound_agree. intros k Hk Hl.
      by eapply restored_fresh.
  - intros [= <-]. split; [done|]. split; [by intros c ?%elem_of_nil|]. left. by apply first_draw_none.
Qed.

(** A draw of the second pass comes after what the pass sets before its first. *)
Lemma first_draw_before cs n c : cs !! n = Some c -> is_draw c = true -> exists i, first_draw cs = Some i /\ (i <= n)%nat.
Proof.
  intros Hn Hd. unfold first_draw. destruct (list_find (λ c, is_draw c = true) cs) as [[i x]|] eqn:E.
  - exists i. split; [done|]. apply list_find_Some in E as (_ & _ & Hlt). destruct (decide (i <= n)%nat); [done|]. exfalso.
    apply (Hlt n c Hn ltac:(lia) Hd).
  - apply list_find_None in E. rewrite Forall_forall in E. exfalso. apply (E c); [by eapply list_elem_of_lookup_2|done].
Qed.

(** The draws of the joined pass are those of the two passes in turn. *)
Lemma draws_absorb sampled p next join m t :
  place p = place next -> length (extra_color p) = length (extra_color next) ->
  merge_join views sampled p next = Some join -> draws_bound fresh (commands next) ->
  tile_eq (draws (absorb p next join) m t) (draws next m (draws p m t)).
Proof.
  intros Hpl Hlen Hj Hb. destruct (merge_join_commands sampled p next join Hj) as (Hq & _ & Hn).
  unfold draws. rewrite (place_target _ _ (absorb_place p next join Hlen)), <- (place_target _ _ Hpl).
  cbn [absorb commands]. rewrite app_assoc, !run_commands_app.
  rewrite (run_commands_split _ _ (commands p) fresh t), (run_commands_split _ _ join), (run_quiet _ _ join) by done.
  rewrite <- encoder_after_app. cbn [snd]. set (t' := (run_commands _ m (commands p) (fresh, t)).2).
  destruct Hn as [Hn|(pre & suf & Hs & Hpre & Ha)].
  { rewrite !run_quiet by done. split; apply tile_le_refl. }
  rewrite Hs in Hb |- *. apply draws_bound_app in Hb as [_ Hb]. rewrite !run_commands_app.
  rewrite (run_commands_split _ _ pre fresh), (run_commands_split _ _ pre (encoder_after _ _)), !(run_quiet _ _ pre) by done. cbn [snd].
  destruct (run_agree (target_of p) m suf _ _ t' Ha Hb) as [H1 H2]. by split.
Qed.

(** ** The joined pass *)

Lemma absorb_bound sampled p next join :
  merge_join views sampled p next = Some join -> draws_bound fresh (commands p) -> draws_bound fresh (commands next) ->
  draws_bound fresh (commands (absorb p next join)).
Proof.
  intros Hj Hp Hb. destruct (merge_join_commands sampled p next join Hj) as (Hq & _ & Hn).
  cbn [absorb commands]. rewrite app_assoc. apply draws_bound_app. split.
  - apply draws_bound_app. split; [done|by apply draws_bound_quiet].
  - destruct Hn as [Hn|(pre & suf & Hs & Hpre & Ha)]; [by apply draws_bound_quiet|].
    rewrite Hs in Hb |- *. apply draws_bound_app in Hb as [_ Hb]. apply draws_bound_app.
    split; [by apply draws_bound_quiet|]. by eapply draws_bound_agree.
Qed.

(** ** What the test says of the attachments *)

Lemma merge_join_place sampled p next join :
  length (extra_color p) = length (extra_color next) -> merge_join views sampled p next = Some join ->
  place p = place next /\ leading_blits next = [] /\ color_carries_over p next = true
  /\ depth_carries_over p next = true
  /\ (forall t, t ∈ color_texture p :: depth_texture p :: (texture <$> extra_color p) ->
       pass_samples_texture next t views sampled = false).
Proof.
  intros Hlen. unfold merge_join. destruct (attachments_match p next) eqn:Hm; cbn [negb orb]; [|done].
  destruct (visibility_buffer p =? visibility_buffer next) eqn:Hv; cbn [negb orb]; [|done]. apply Z.eqb_eq in Hv.
  case_bool_decide as Hbl; cbn [negb orb]; [|done]. destruct (color_carries_over p next); cbn [negb orb]; [|done].
  destruct (depth_carries_over p next); cbn [negb orb]; [|done]. destruct (existsb _ (_ :: _)) eqn:Hs; [done|]. intros _.
  split; [by apply attachments_match_place|]. repeat split; try done. intros t Ht.
  destruct (pass_samples_texture next t views sampled) eqn:E; [|done]. apply not_true_iff_false in Hs. exfalso.
  apply Hs, existsb_exists. exists t. split; [by apply list_elem_of_In|done].
Qed.

Lemma carries_over_slot p next i a b :
  color_carries_over p next = true -> color_slots p !! i = Some a -> color_slots next !! i = Some b -> is_bound a = true ->
  store a = Store /\ resolve_texture a = 0 /\ load b = CLoad.
Proof.
  unfold color_carries_over. rewrite andb_true_iff. intros [Hc He] Ha Hb Hbd.
  assert (carries_over a b = true) as Ho.
  { destruct i as [|i].
    - injection Ha as <-. injection Hb as <-. unfold is_bound, color_texture in *.
      apply negb_true_iff in Hbd. by rewrite Hbd in Hc.
    - rewrite color_slots_S in Ha, Hb. rewrite forallb_forall in He.
      assert (In (a, b) (zip (extra_color p) (extra_color next))) as Hin.
      { apply list_elem_of_In, list_elem_of_lookup. exists i. by rewrite lookup_zip_with, Ha, Hb. }
      apply He in Hin. cbn in Hin. by rewrite Hbd in Hin. }
  unfold carries_over in Ho. rewrite !andb_true_iff, Z.eqb_eq in Ho. destruct Ho as [[Hs Hr] Hl].
  by destruct (store a), (load b).
Qed.

Lemma slot_pair p next i b :
  length (extra_color p) = length (extra_color next) -> color_slots next !! i = Some b ->
  exists a, color_slots p !! i = Some a.
Proof.
  intros Hlen Hb. destruct (lookup_lt_is_Some_2 (color_slots p) i) as [a Ha]; [|by exists a].
  apply lookup_lt_Some in Hb. revert Hb. unfold color_slots. cbn. by rewrite Hlen.
Qed.

(** The first pass resolves nothing, and the second loads or discards. *)
Lemma carried_no_resolve p next s :
  length (extra_color p) = length (extra_color next) -> color_carries_over p next = true -> resolving views p s = None.
Proof.
  intros Hlen Hc. apply unwritten_resolves. intros a Ha Hb. apply list_elem_of_lookup in Ha as [i Ha].
  destruct (slot_pair next p i a (eq_sym Hlen) Ha) as [b Hbi]. by apply (carries_over_slot p next i a b).
Qed.

Lemma carried_load p next sl s v :
  length (extra_color p) = length (extra_color next) -> place p = place next ->
  color_carries_over p next = true -> depth_carries_over p next = true ->
  attached next sl = Some s -> load_action next sl <> LClear v.
Proof.
  intros Hlen Hpl Hc Hd Ha. destruct sl as [i| | |]; cbn [load_action]; [| | |done].
  - cbn in Ha. destruct (color_slots next !! i) as [b|] eqn:Hb; [|done]. cbn in Ha. destruct (is_bound b) eqn:Hbd; [|done].
    destruct (slot_pair p next i b Hlen Hb) as [a Hai].
    assert (is_bound a = true) as Hba.
    { pose proof (place_color p next Hpl i) as Hx. rewrite Hai, Hb in Hx. cbn in Hx. unfold color_place in Hx.
      rewrite Hbd in Hx. by destruct (is_bound a). }
    destruct (carries_over_slot p next i a b Hc Hai Hb Hba) as (_ & _ & Hl). unfold color_action. by rewrite Hl.
  - rewrite <- (place_attached p next Hpl) in Ha. cbn in Ha. unfold depth_carries_over, plane_carries_over in Hd.
    destruct (depth_texture p =? 0); [done|]. cbn [orb] in Hd. apply andb_true_iff in Hd as [Hd _].
    by destruct (depth_load next).
  - rewrite <- (place_attached p next Hpl) in Ha. cbn in Ha. unfold depth_carries_over, plane_carries_over in Hd.
    destruct (depth_texture p =? 0); [done|]. cbn [orb] in Hd, Ha. apply andb_true_iff in Hd as [_ Hd].
    unfold has_stencil in Ha. destruct (contains _ _); [|done]. cbn [negb orb] in Hd. by destruct (stencil_load next).
Qed.

(** The joined pass loads as the first and stores and resolves as the second. *)
Lemma absorb_actions p next join sl s :
  length (extra_color p) = length (extra_color next) -> attached p sl = Some s ->
  load_action (T := T) (absorb p next join) sl = load_action p sl
  /\ store_action (absorb p next join) sl = store_action next sl.
Proof.
  intros Hlen Ha. destruct sl as [i| | |]; [|done..]. cbn [load_action store_action]. cbn in Ha.
  destruct (color_slots p !! i) as [a|] eqn:Hi; [|done].
  destruct (slot_pair next p i a (eq_sym Hlen) Hi) as [b Hb].
  by rewrite (absorb_slot p next join i a b Hi Hb), Hb.
Qed.

Lemma absorb_resolving p next join s :
  length (extra_color p) = length (extra_color next) -> place p = place next ->
  resolving views (absorb p next join) s = resolving views next s.
Proof.
  intros Hlen Hpl. unfold resolving.
  pose proof (list_find_pointwise (λ a, is_bound a = true /\ resolves_to views a = Some s)
                (color_slots (absorb p next join)) (color_slots next)) as H.
  specialize (H (eq_trans (place_length _ _ (absorb_place p next join Hlen)) (place_length _ _ Hpl))).
  match type of H with ?P -> _ => assert P as Hp end.
  - intros i x b Hx Hb. destruct (slot_pair p next i b Hlen Hb) as [a Ha].
    rewrite (absorb_slot p next join i a b Ha Hb) in Hx. injection Hx as <-.
    pose proof (place_color p next Hpl i) as Hab. rewrite Ha, Hb in Hab. cbn in Hab. unfold color_place in Hab.
    change (is_bound (take_over a b)) with (is_bound a). destruct (is_bound a), (is_bound b); try done; [|by split; intros [? _]].
    injection Hab as _ Hsub _ _ _ _. unfold resolves_to. cbn [take_over set_resolve set_store resolve_texture subresource].
    by rewrite Hsub.
  - specialize (H Hp). destruct (list_find _ (color_slots (absorb _ _ _))) as [[]|], (list_find _ (color_slots next)) as [[]|];
      cbn in *; congruence.
Qed.
End JoinRun.

(** Rule J over a pass list: the join of two passes does what the two do, keeps
    what the recorder guarantees of a pass, and so does the whole walk. *)

Section Adjacent.
Context {T : Type} {views : Views} `{L : GpuLaws T views} (companion : Z -> Z) (planes : Z -> bool)
  (seen sampled : gset Z).
Hypothesis companion_inj : forall t u, companion t = companion u -> t = u.

  Abbreviation wf := (pass_wf (views := views) companion planes seen sampled).

Section Pair.
Context (p next : Pass) (join : list Command).
Context (W : wf p) (Wn : wf next) (Hb : draws_bound fresh (commands next)).
Hypothesis (Hj : merge_join views sampled p next = Some join).

  Abbreviation joined := (absorb p next join).

Lemma extras_length : length (extra_color p) = length (extra_color next).
Proof. by rewrite (wf_extras _ _ _ _ _ W), (wf_extras _ _ _ _ _ Wn). Qed.

Lemma join_place : place p = place next.
Proof. by destruct (merge_join_place sampled p next join extras_length Hj). Qed.

Lemma joined_place : place joined = place p.
Proof. apply absorb_place, extras_length. Qed.

Lemma join_draws m t : tile_eq (draws joined m t) (draws next m (draws p m t)).
Proof. by apply (draws_absorb sampled p next join m t join_place extras_length). Qed.

(** The second pass samples none of the first's attachments. *)
Definition attachment_of (s : Surface) : Prop := exists sl, attached p sl = Some s.

Lemma unbound_texture i a : color_slots p !! i = Some a -> texture a ∈ color_texture p :: depth_texture p :: (texture <$> extra_color p).
Proof.
  intros Ha. destruct i as [|i]; [injection Ha as <-; by left|]. rewrite color_slots_S in Ha.
  apply elem_of_cons; right; apply elem_of_cons; right. apply list_elem_of_fmap. exists a.
  split; [done|]. by eapply list_elem_of_lookup_2.
Qed.

Lemma join_unsampled : @samples_none views attachment_of (commands next).
Proof.
  destruct (merge_join_place sampled p next join extras_length Hj) as (_ & _ & _ & _ & Hs).
  assert (@samples_none views (λ s, attachment_of s /\ s_plane s <> CounterPlane) (commands next)) as Hx.
  { eapply wf_samples_none; [done|]. intros s [[sl Ha] Hc] Hno. right.
    enough (s_texture s ∈ color_texture p :: depth_texture p :: (texture <$> extra_color p) /\ s_texture s <> 0) as [Hin Hn].
    { rewrite <- (pass_samples_eq companion planes seen sampled next) by done. by apply Hs. }
    assert (depth_planes sl \/ exists i, sl = SlotColor i) as [Hsl|[i ->]].
    { unfold depth_planes. destruct sl; eauto. by injection Ha as <-. }
    - destruct (attached_depth p sl s Ha Hsl) as (Hn & -> & _). split; [|done]. by right; left.
    - cbn in Ha. destruct (color_slots p !! i) as [a|] eqn:Hi; [|done]. cbn in Ha. destruct (is_bound a) eqn:Hbd; [|done].
      injection Ha as <-. pose proof (wf_companion _ _ _ _ _ W a (list_elem_of_lookup_2 _ _ _ Hi) Hbd) as Hcm.
      rewrite <- (Hno (texture a)) by done. split; [by eapply unbound_texture|]. by apply Z.eqb_neq, negb_true_iff. }
  intros c tex Hin Ht (s & Ha & He & Hp). apply (Hx c tex Hin Ht). by exists s.
Qed.

(** What the second pass opens its tile with is what the first left in it. *)
Lemma reopen_le m t :
  tile_le nowhere (open_tile next (close_tile views p m t)) t.
Proof.
  destruct (merge_join_place sampled p next join extras_length Hj) as (Hpl & _ & Hc & Hd & _).
  intros sl _ px v. rewrite open_tile_eq. destruct (attached next sl) as [s|] eqn:Ha; cbn; [|done].
  destruct (reaches next sl px) eqn:Er; [|done]. rewrite (place_reaches next p (eq_sym Hpl) sl s px Ha) in Er.
  destruct (load_action next sl) as [|w|] eqn:El; cbn; [| |done].
  2:{ intros _. by apply (carried_load p next sl s w extras_length Hpl Hc Hd) in El. }
  rewrite <- (place_attached p next Hpl) in Ha. unfold close_tile.
  rewrite (carried_no_resolve p next s extras_length Hc), (slot_of_Some p s sl (wf_distinct _ _ _ _ _ W) Ha).
  destruct (store_action p sl); [|done]. by rewrite Er.
Qed.

Lemma close_unattached m t s : ~ attachment_of s -> forall px, close_tile views p m t s px = m s px.
Proof.
  destruct (merge_join_place sampled p next join extras_length Hj) as (_ & _ & Hc & _).
  intros Hs px. unfold close_tile. rewrite (carried_no_resolve p next s extras_length Hc).
  destruct (slot_of p s) as [sl|] eqn:E; [|done]. apply slot_of_attached in E. exfalso. apply Hs. by exists sl.
Qed.

Lemma joined_tile_le m t : open_tile p m = t ->
  tile_le nowhere
    (draws next (close_tile views p m (draws p m t)) (open_tile next (close_tile views p m (draws p m t))))
    (draws joined m (open_tile joined m)).
Proof.
  intros <-. eapply tile_le_trans; [apply (draws_le attachment_of)|].
  - apply join_unsampled.
  - intros s Hs px v. by rewrite close_unattached.
  - apply reopen_le.
  - eapply tile_le_trans; [apply (join_draws m (open_tile p m))|].
    apply (draws_le nowhere); [apply samples_nowhere|apply mem_le_refl|].
    intros sl _ px v. rewrite !open_tile_eq, (place_attached _ _ joined_place).
    destruct (attached p sl) as [s|] eqn:Ha; cbn; [|done].
    rewrite <- (place_attached _ _ joined_place) in Ha. rewrite (place_reaches _ _ joined_place sl s px Ha).
    rewrite (place_attached _ _ joined_place) in Ha. by rewrite (proj1 (absorb_actions p next join sl s extras_length Ha)).
Qed.

Lemma join_le m : mem_le nowhere (run_pass views next (run_pass views p m)) (run_pass views joined m).
Proof.
  destruct (merge_join_place sampled p next join extras_length Hj) as (Hpl & Hbl & Hc & Hd & _).
  unfold run_pass. rewrite Hbl. cbn [run_blits foldl]. change (leading_blits joined) with (leading_blits p).
  set (m1 := run_blits (leading_blits p) m). unfold run_render at 2. set (t := draws p m1 (open_tile p m1)).
  set (m2 := close_tile views p m1 t). pose proof (joined_tile_le m1 _ eq_refl) as Ht. fold t m2 in Ht.
  unfold run_blits. cbn [foldl]. unfold run_render. intros s _ px v. unfold close_tile at 1.
  unfold close_tile at 1. rewrite (absorb_resolving p next join s extras_length Hpl).
  destruct (resolving views next s) as [sl|] eqn:Er.
  - destruct (resolving_color next s sl Er) as [i ->]. unfold resolving in Er.
    destruct (list_find _ _) as [[j b]|] eqn:Ef; [|done]. injection Er as ->. apply list_find_Some in Ef as (Hi & [Hbd _] & _).
    assert (attached next (SlotColor i) = Some (color_surface b)) as Ha by (cbn; rewrite Hi; cbn; by rewrite Hbd).
    pose proof (wf_area _ _ _ _ _ Wn i _ Ha) as Hcv. rewrite (covers_reaches next _ px Hcv).
    rewrite covers_reaches; [apply resolve_mono; exact (Ht (SlotColor i) ltac:(intros []))|].
    rewrite <- Hcv. apply (place_covers _ _ (eq_trans joined_place Hpl) _ (color_surface b)).
    by rewrite (place_attached _ _ (eq_trans joined_place Hpl)).
  - rewrite (place_slot_of _ _ (eq_trans joined_place Hpl)). destruct (slot_of next s) as [sl|] eqn:Es.
    + apply slot_of_attached in Es. rewrite <- (place_attached _ _ Hpl) in Es.
      destruct (absorb_actions p next join sl s extras_length Es) as [Hl Hst]. rewrite Hst.
      destruct (store_action next sl) eqn:Esn; [|done].
      rewrite <- (place_reaches _ _ Hpl sl s px), <- (place_reaches _ _ (eq_sym joined_place) sl s px) by done.
      destruct (reaches p sl px) eqn:Ere; [exact (Ht sl ltac:(intros []) px v)|]. destruct (discards_load next sl) eqn:Edn; [done|].
      unfold m2, close_tile. rewrite (carried_no_resolve p next s extras_length Hc).
      rewrite (slot_of_Some p s sl (wf_distinct _ _ _ _ _ W) Es). rewrite Ere.
      destruct (store_action p sl); [|done]. unfold discards_load. by rewrite Hl.
    + unfold m2. rewrite close_unattached; [done|]. intros [sl Ha]. rewrite (place_attached _ _ Hpl) in Ha.
      by apply slot_of_None with (sl := sl) in Es.
Qed.

(** ** What the joined pass keeps *)

Lemma joined_carries stale stale' stale'' :
  carries stale stale' p -> carries stale' stale'' next -> carries stale stale'' joined.
Proof.
  intros Hp Hn m t1 t2 Ht sl Hsl px v. rewrite !(tile_eq_at _ _ sl px (join_draws m _)).
  by apply (Hn m _ _ (Hp m _ _ Ht)).
Qed.

Lemma joined_keeps sl :
  (forall m t px, draws p m t sl px = t sl px) -> (forall m t px, draws next m t sl px = t sl px) ->
  forall m t px, draws joined m t sl px = t sl px.
Proof. intros Hp Hn m t px. by rewrite (tile_eq_at _ _ sl px (join_draws m _)), Hn, Hp. Qed.

Lemma joined_slot a' : a' ∈ color_slots joined ->
  exists a b, a ∈ color_slots p /\ b ∈ color_slots next /\ a' = take_over a b /\ color_place a = color_place b.
Proof.
  intros [i Hi]%list_elem_of_lookup. destruct (lookup_lt_is_Some_2 (color_slots p) i) as [a Ha].
  { rewrite <- (place_length _ _ joined_place). by eapply lookup_lt_Some. }
  destruct (slot_pair next p i a (eq_sym extras_length) Ha) as [b Hbi]. exists a, b.
  rewrite (absorb_slot p next join i a b Ha Hbi) in Hi. injection Hi as <-.
  repeat split; [by eapply list_elem_of_lookup_2..|].
  pose proof (place_color p next join_place i) as Hx. by rewrite Ha, Hbi in Hx.
Qed.

Lemma joined_resolves a' : a' ∈ color_slots joined -> resolve_texture a' <> 0 ->
  is_bound a' = true /\ msaa_texture a' <> 0 /\ storage views (resolve_texture a') = texture a'.
Proof.
  intros (a & b & _ & Hbn & -> & He)%joined_slot Hr. destruct (wf_resolves _ _ _ _ _ Wn b Hbn Hr) as (Hbd & Hm & Hs).
  unfold color_place in He. rewrite Hbd in He. change (is_bound (take_over a b)) with (is_bound a).
  change (msaa_texture (take_over a b)) with (msaa_texture a). change (texture (take_over a b)) with (texture a).
  destruct (is_bound a); [|done]. apply (f_equal (fmap (λ x, x.1.2))) in He. by injection He as -> ->.
Qed.

Lemma joined_samples c tex : c ∈ commands joined -> command_sampled_texture c = Some tex ->
  tex ∈ sampled /\ storage views tex ∈ sampled
  /\ storage views tex ∈ seen /\ no_companion companion (storage views tex).
Proof.
  destruct (merge_join_commands sampled p next join Hj) as (_ & Hq & _). cbn [absorb commands].
  intros [Hc|[Hc|Hc]%elem_of_app]%elem_of_app Ht.
  - by apply (wf_samples _ _ _ _ _ W c).
  - by rewrite Hq in Ht.
  - by apply (wf_samples _ _ _ _ _ Wn c).
Qed.

Lemma joined_wf : wf joined.
Proof.
  pose proof joined_place as Hp. pose proof (place_depth _ _ Hp) as Hd. split.
  - intros sl1 sl2 s. rewrite !(place_attached _ _ Hp). apply W.
  - intros i s Ha. rewrite (place_covers _ _ Hp _ s Ha). rewrite (place_attached _ _ Hp) in Ha.
    by apply (wf_area _ _ _ _ _ W i s).
  - cbn [absorb extra_color]. rewrite length_zip_with, (wf_extras _ _ _ _ _ W), (wf_extras _ _ _ _ _ Wn). done.
  - intros a' (a & b & Ha & _ & -> & _)%joined_slot Hbd. by apply (wf_companion _ _ _ _ _ W a).
  - intros a' (a & b & Ha & _ & -> & _)%joined_slot Hbd. by apply (wf_color_base _ _ _ _ _ W a).
  - apply (wf_depth_base _ _ _ _ _ W).
  - intros Hn. change (depth_texture joined) with (depth_texture p) in *. rewrite <- (wf_depth_planes _ _ _ _ _ W Hn).
    unfold depth_place in Hd. change (depth_texture joined) with (depth_texture p) in Hd.
    rewrite (proj2 (Z.eqb_neq _ 0) Hn) in Hd. by injection Hd.
  - apply (wf_depth_size _ _ _ _ _ W).
  - apply joined_samples.
  - apply (wf_blit_reads _ _ _ _ _ W).
  - apply (wf_blit_writes _ _ _ _ _ W).
  - apply joined_resolves.
  - change USED with (2 ^ 2). rewrite absorb_flag by auto. intros [H1 H2]%orb_false_iff.
    destruct (wf_unused _ _ _ _ _ W H1) as [C1 K1], (wf_unused _ _ _ _ _ Wn H2) as [C2 K2]. split.
    + by eapply joined_carries.
    + intros m t sl px Hsl. apply joined_keeps; auto.
  - intros Hc. eapply joined_carries; [by apply (wf_covers _ _ _ _ _ W)|apply carries_nowhere].
  - change STENCIL_WRITTEN with (2 ^ 3). rewrite absorb_flag by auto. intros [H1 H2]%orb_false_iff.
    apply joined_keeps; [by apply (wf_stencil_kept _ _ _ _ _ W)|by apply (wf_stencil_kept _ _ _ _ _ Wn)].
  - intros a' (a & b & Ha & _ & -> & _)%joined_slot Hbd. by apply (wf_extents _ _ _ _ _ W a).
  - apply (wf_depth_extent _ _ _ _ _ W).
Qed.
End Pair.

(** ** The walk *)

Definition joinable (p : Pass) : Prop := wf p /\ draws_bound fresh (commands p).

Lemma joined_joinable p next join :
  joinable p -> joinable next -> merge_join views sampled p next = Some join -> joinable (absorb p next join).
Proof.
  intros [W B] [Wn Bn] Hj. split; [by apply joined_wf|by apply (absorb_bound (views := views) sampled)].
Qed.

Lemma merge_from_le rest p m :
  joinable p -> Forall joinable rest ->
  mem_le nowhere (run_passes views (p :: rest) m) (run_passes views (merge_from views sampled p rest) m).
Proof.
  revert p m. induction rest as [|next rest IH]; intros p m Hp Hr; [apply mem_le_refl|].
  apply Forall_cons in Hr as [Hn Hr]. cbn [merge_from]. destruct (merge_join views sampled p next) as [join|] eqn:Hj.
  - eapply mem_le_trans; [|apply IH; [by apply joined_joinable|done]]. rewrite !run_passes_cons.
  apply run_passes_mono. destruct Hp as [W ?], Hn as [Wn ?]. by apply join_le.
  - rewrite (run_passes_cons p (next :: rest)), (run_passes_cons p (merge_from _ _ _ _)). by apply IH.
Qed.

Lemma merge_from_joinable rest p :
  joinable p -> Forall joinable rest -> Forall joinable (merge_from views sampled p rest).
Proof.
  revert p. induction rest as [|next rest IH]; intros p Hp Hr; [by constructor|].
  apply Forall_cons in Hr as [Hn Hr]. cbn [merge_from]. destruct (merge_join views sampled p next) as [join|] eqn:Hj.
  - apply IH; [by eapply joined_joinable|done].
  - constructor; [done|by apply IH].
Qed.
End Adjacent.
