(* ===== verification/PassRecorded.v ===== *)
(** The rules on the list as it was recorded: what Rule I keeps for Rule E, and
    the composition of Rules I, E, A, B, C and the stencil and depth-load
    discards in the order [apply_pass_rules] runs them. *)

From S2P Require Import Prelude PassCommands PassData PassRules PassMerge PassGpu PassFacts PassClearOnly.
From S2P Require Import PassColorStores PassDepthStores PassFrameEnd PassOverwritten PassFold PassCoalesce.
From S2P Require Import PassJoin.

(** ** The chain of depth clears by what it looks at *)

Definition clear_of_depth (l : DepthLoad) : option Z := match l with DClear v => Some v | _ => None end.
Definition clear_of_stencil (l : StencilLoad) : option Z := match l with SClear v => Some v | _ => None end.

Definition link_key (p : Pass) :=
  (clear_only p, color_extent_covers_depth p,
   ((color_texture p =? 0) && forallb (λ a, negb (is_bound a)) (extra_color p) && negb (has_draw p),
    depth_texture p, depth_level p, depth_size p),
   (clear_of_depth (depth_load p), clear_of_stencil (stencil_load p))).

Lemma repeats_key p q :
  repeats_depth_clear_of p q
  = ((color_texture q =? 0) && forallb (λ a, negb (is_bound a)) (extra_color q) && negb (has_draw q))
    && (depth_texture q =? depth_texture p) && (depth_level q =? depth_level p)
    && bool_decide (depth_size q = depth_size p)
    && match clear_of_depth (depth_load p) with
       | Some v => bool_decide (clear_of_depth (depth_load q) = Some v) | None => true end
    && match clear_of_stencil (stencil_load p) with
       | Some v => bool_decide (clear_of_stencil (stencil_load q) = Some v) | None => true end.
Proof.
  unfold repeats_depth_clear_of. do 2 f_equal.
  - f_equal. destruct (depth_load p); cbn; [done| |done]. apply bool_decide_ext.
    destruct (depth_load q); cbn; split; congruence.
  - destruct (stencil_load p); cbn; [done| |done]. apply bool_decide_ext.
    destruct (stencil_load q); cbn; split; congruence.
Qed.

Lemma past_key p :
  clears_depth_past_its_area p
  = (bool_decide (is_Some (clear_of_depth (depth_load p))) || bool_decide (is_Some (clear_of_stencil (stencil_load p))))
    && negb (color_extent_covers_depth p).
Proof. unfold clears_depth_past_its_area. by destruct (depth_load p), (stencil_load p). Qed.

Lemma linked_key prev prev' p p' :
  link_key <$> prev = link_key <$> prev' -> link_key p = link_key p' -> linked prev p -> linked prev' p'.
Proof.
  intros Hprev Hp Hl Hc Hpast. injection Hp as H1 H2 H3 H4 H5 H6 H7 H8. rewrite past_key, <- H2, <- H7, <- H8, <- past_key in Hpast.
  rewrite <- H1 in Hc. destruct (Hl Hc Hpast) as (pr & -> & Hr). destruct prev' as [pr'|]; [|done].
  exists pr'. split; [done|]. injection Hprev as K1 K2 K3 K4 K5 K6 K7 K8.
  rewrite repeats_key in Hr |- *. rewrite <- K3, <- K4, <- K5, <- K6, <- K7, <- K8, <- H4, <- H5, <- H6, <- H7, <- H8. done.
Qed.

Lemma chain_key prev prev' ps qs :
  link_key <$> prev = link_key <$> prev' -> Forall2 (λ p q, link_key p = link_key q) ps qs -> chain prev ps -> chain prev' qs.
Proof.
  intros Hprev H. revert prev prev' Hprev. induction H as [|p q ps qs Hpq H IH]; intros prev prev' Hprev; [done|].
  intros [Hl Hc]. split; [by eapply linked_key|]. apply (IH (Some p)); [|done]. cbn. by f_equal.
Qed.

(** A rule that touches loads and stores only, and no clear of depth or stencil. *)
Definition same_clears (p q : Pass) : Prop :=
  clear_of_depth (depth_load p) = clear_of_depth (depth_load q)
  /\ clear_of_stencil (stencil_load p) = clear_of_stencil (stencil_load q).

Lemma shape_key p q : same_shape p q -> same_clears p q -> link_key p = link_key q.
Proof.
  intros H [H1 H2]. destruct (same_shape_depth p q H) as (H3 & H4 & H5 & _). unfold link_key.
  rewrite H1, H2, H3, H4, H5, (same_shape_clear_only p q H), (same_shape_extent p q H), (same_shape_color_texture p q H),
    (same_shape_no_extras p q H). unfold has_draw. by rewrite (same_shape_commands p q H).
Qed.

(** ** Rule I *)

Section Recorded.
Context {T : Type} {views : Views} `{L : GpuLaws T views} (companion : Z -> Z) (planes : Z -> bool)
  (seen sampled : gset Z).
Hypothesis companion_inj : forall t u, companion t = companion u -> t = u.

  Abbreviation wf := (pass_wf (views := views) companion planes seen sampled).
  Abbreviation foldable := (foldable (views := views) companion planes seen sampled).

Lemma drop_overwritten_sublist ps : sublist (drop_overwritten_clear_only_passes views sampled ps) ps.
Proof.
  induction ps as [|p ps IH]; [constructor|]. cbn [drop_overwritten_clear_only_passes].
  destruct (dead_clear_candidate p) as [ts|]; [|by apply sublist_skip].
  destruct (forallb _ ts); [by apply sublist_cons|by apply sublist_skip].
Qed.

(** The pass Rule I removes is no link: the pass that repeats its depth clear
    attaches the cleared level. *)
Lemma candidate_no_link p ts q rest :
  dead_clear_candidate p = Some ts -> forallb (overwritten_before_read views sampled (q :: rest)) ts = true ->
  clear_only q = true -> clears_depth_past_its_area q = true -> repeats_depth_clear_of q p = true -> False.
Proof.
  intros Hc Hf Hq Hp Hr. destruct (candidate_spec p ts Hc) as (_ & _ & Hst & _ & _ & Hd).
  unfold repeats_depth_clear_of in Hr. rewrite !andb_true_iff in Hr. destruct Hr as (((((((_ & _) & _) & Ht) & Hl) & _) & Hdl) & Hsl).
  apply Z.eqb_eq in Ht. unfold clears_depth_past_its_area in Hp. apply andb_true_iff in Hp as [Hcl Hcov].
  assert (depth_texture p <> 0) as Hn.
  { intros Hz. unfold color_extent_covers_depth in Hcov. by rewrite <- Ht, Hz in Hcov. }
  assert (depth_clears (depth_load p) = true) as Hdc.
  { apply orb_true_iff in Hcl as [Hcl|Hcl]; rewrite Hcl in *; cbn in Hdl, Hsl.
    - apply bool_decide_eq_true in Hdl. by rewrite Hdl.
    - apply bool_decide_eq_true in Hsl. rewrite Hsl, Hcl in Hst. by specialize (Hst Hn). }
  specialize (Hd Hn Hdc). apply among_iff in Hd as (t & Hin & Hs). rewrite forallb_forall in Hf.
  specialize (Hf t). rewrite <- list_elem_of_In in Hf. specialize (Hf Hin). unfold overwritten_before_read in Hf.
  destruct (_ || _); [done|]. cbn [overwritten_scan] in Hf.
  unfold clear_only in Hq. apply andb_true_iff in Hq as [_ Hbl]. apply bool_decide_eq_true in Hbl. rewrite Hbl in Hf. cbn in Hf.
  unfold depth_surface, target_surface in Hs. injection Hs as Htx _ _. unfold pass_attaches_texture in Hf.
  rewrite <- Htx in Hf. rewrite (proj2 (Z.eqb_neq _ 0) Hn), <- Ht, Z.eqb_refl in Hf. cbn in Hf.
  by rewrite !orb_true_r in Hf.
Qed.

Lemma drop_overwritten_chain ps prev :
  chain prev ps -> chain prev (drop_overwritten_clear_only_passes views sampled ps).
Proof.
  revert prev. induction ps as [|p ps IH]; intros prev [Hl Hc] || intros prev Hc; [done|].
  cbn [drop_overwritten_clear_only_passes]. specialize (IH (Some p) Hc).
  set (rest := drop_overwritten_clear_only_passes views sampled ps) in *.
  destruct (dead_clear_candidate p) as [ts|] eqn:Ec; [|done]. destruct (forallb _ ts) eqn:Ef; [|done].
  destruct rest as [|q rest]; [done|]. revert IH. apply chain_head. intros Hq Hco Hp.
  destruct (Hq Hco Hp) as (? & [= <-] & Hr). exfalso. by eapply candidate_no_link.
Qed.

Lemma Forall_sublist {A} (P : A -> Prop) l k : sublist l k -> Forall P k -> Forall P l.
Proof. induction 1; [done|intros [??]%Forall_cons; constructor; auto|intros [??]%Forall_cons; auto]. Qed.

Lemma ForallOrdPairs_sublist {A} (R : A -> A -> Prop) l k : sublist l k -> ForallOrdPairs R k -> ForallOrdPairs R l.
Proof.
  induction 1 as [|x l k Hs IH|x l k Hs IH]; intros Hk; [done| |]; inversion_clear Hk as [|? ? Hx Hk']; [|by apply IH].
  constructor; [|by apply IH]. by eapply Forall_sublist.
Qed.

Lemma drop_overwritten_foldable prev ps :
  foldable prev ps -> foldable prev (drop_overwritten_clear_only_passes views sampled ps).
Proof.
  pose proof (drop_overwritten_sublist ps) as Hs. intros [H1 H2 H3 H4]. split.
  - by eapply Forall_sublist.
  - by eapply ForallOrdPairs_sublist.
  - by eapply Forall_sublist.
  - by apply drop_overwritten_chain.
Qed.

(** ** Rule E keeps what the later rules need *)

Lemma coalesce_kept (P : Pass -> Prop) fuel prev ps :
  (forall p q, same_shape p q -> P p -> P q) -> foldable prev ps -> Forall P ps ->
  Forall P (coalesce views sampled fuel ps) /\ chain prev (coalesce views sampled fuel ps).
Proof.
  intros HP. revert prev ps. induction fuel as [|fuel IH]; intros prev ps Hfo Hps; [split; [done|apply Hfo]|].
  destruct ps as [|p rest]; [done|]. cbn [coalesce].
  pose proof (foldable_tail companion planes seen sampled prev p rest Hfo) as Htl.
  apply Forall_cons in Hps as [Hp Hrest]. assert (linked prev p) as Hl by apply Hfo.
  destruct (IH (Some p) rest Htl Hrest) as [I1 I2].
  destruct (_ || _ || _) eqn:En; cbn [negb]; [|by split; [constructor|]].
  destruct (find_clear_merge_target _ _ _ rest) as [t|] eqn:Ef; [|by split; [constructor|]].
  pose proof (needs_clear_only p En) as Hc. apply (IH prev).
  - by apply foldable_fold.
  - apply (tamed_Forall P rest); [done| |done]. destruct Hfo as [[W Hwf]%Forall_cons _ _ _]. by eapply tamed_all.
Qed.
End Recorded.

(** [finalize_load_actions] and [finalize_store_actions] as a whole, and the
    first half of [apply_pass_rules]: the rules up to the multisample resolves
    leave every texel the recorded passes define. *)

(** The passes [finalize_store_actions] assigns the resolves to. *)
Definition stored_passes (frame_continues : bool) (s : PassState) : list Pass :=
  let v := texture_view_to_base s in
  let fs := frame_sampled_textures s in
  let seen := seen_sampled_textures s in
  let ps := if frame_continues then passes s else (discard_last_depth_stores v fs seen (passes s)).1 in
  let ps := (discard_color_stores seen ps).1 in
  let ps := (discard_depth_stores_before_clears v fs seen ps).1 in
  discard_unused_depth_load <$> (discard_stencil (note_stencil_writes (stencil_written_textures s) ps) <$> ps).

Lemma finalize_store_actions_eq fc s :
  passes (finalize_store_actions fc s)
  = (assign_resolves (negb fc && backbuffer_undefined s && negb (backbuffer_texture s =? 0)) (backbuffer_texture s)
       (stored_passes fc s)).1.
Proof. reflexivity. Qed.

(** ** None of these rules changes a clear of depth or stencil *)

Lemma finalize_load_clears sampled p : same_clears p (finalize_load sampled p).
Proof.
  unfold same_clears, finalize_load, depth_load, stencil_load. cbn [with_depth depth].
  destruct (depth_load_ (depth p)) eqn:E1, (stencil_load_ (depth p)) eqn:E2; cbn; rewrite ?E1, ?E2; try done;
    repeat (destruct (bool_decide _); cbn; rewrite ?E1, ?E2); done.
Qed.

Lemma discard_stencil_clears written p : same_clears p (discard_stencil written p).
Proof.
  unfold same_clears, discard_stencil, depth_load, stencil_load. destruct (_ || _ || _); [done|].
  destruct (stencil_load_ (depth p)) eqn:E; cbn; by rewrite ?E.
Qed.

Lemma discard_unused_clears p : same_clears p (discard_unused_depth_load p).
Proof.
  unfold same_clears, discard_unused_depth_load, depth_load, stencil_load. destruct (_ || _); [done|].
  destruct (negb (stores (depth_store_ (depth p))) && depth_loads (depth_load_ (depth p))) eqn:A;
    destruct (contains _ _ && _ && stencil_loads _) eqn:B; cbn in *;
    destruct (depth_load_ (depth p)), (stencil_load_ (depth p)); cbn in *; try done;
    by rewrite andb_false_r in *.
Qed.


Section Clears.
Context (views : Views) (seen sampled : gset Z).

Lemma color_step_depth l p next : depth (foldl (discard_color_step seen) (p, next) l).1 = depth p.
Proof.
  revert p next. induction l as [|[i a] l IH]; intros p next; [done|]. cbn [foldl discard_color_step]. rewrite IH.
  destruct (_ && _); [by destruct i|done].
Qed.

Lemma color_stores_clears ps : Forall2 same_clears ps (discard_color_stores seen ps).1.
Proof.
  induction ps as [|p ps IH]; [constructor|]. cbn [discard_color_stores].
  destruct (discard_color_stores seen ps) as [ps' next]. pose proof (color_step_depth (bound_color_attachments p) p next) as Hd.
  destruct (foldl _ _ _) as [p' next']. constructor; [|done]. cbn in Hd. unfold same_clears, depth_load, stencil_load. by rewrite Hd.
Qed.

Lemma last_stores_clears ps : Forall2 same_clears ps (discard_last_depth_stores views sampled seen ps).1.
Proof.
  induction ps as [|p ps IH]; [constructor|]. cbn [discard_last_depth_stores].
  destruct (discard_last_depth_stores views sampled seen ps) as [ps' tail]. destruct (depth_texture p =? 0); [by constructor|].
  constructor; [|done]. by destruct (_ && _ && _).
Qed.

Lemma last_stores_shape ps : Forall2 same_shape ps (discard_last_depth_stores views sampled seen ps).1.
Proof.
  induction ps as [|p ps IH]; [constructor|]. cbn [discard_last_depth_stores].
  destruct (discard_last_depth_stores views sampled seen ps) as [ps' tail]. destruct (depth_texture p =? 0); [by constructor|].
  constructor; [|done]. by destruct (_ && _ && _).
Qed.

Lemma before_clears_clears ps : Forall2 same_clears ps (discard_depth_stores_before_clears views sampled seen ps).1.
Proof.
  induction ps as [|p ps IH]; [constructor|]. cbn [discard_depth_stores_before_clears].
  destruct (discard_depth_stores_before_clears views sampled seen ps) as [ps' nu].
  destruct (depth_texture p =? 0); [by constructor|]. constructor; [|done].
  destruct (nu !! _); [|done]. destruct (ps' !! _); [|done]. destruct (_ && _ && _ && _); [|done].
  by destruct (depth_clears _), (_ && _).
Qed.
End Clears.

(** Two lists that differ in loads and stores only, and in no such clear. *)
Definition kept (ps qs : list Pass) : Prop := Forall2 (λ p q, same_shape p q /\ same_clears p q) ps qs.

Lemma kept_both ps qs : Forall2 same_shape ps qs -> Forall2 same_clears ps qs -> kept ps qs.
Proof. intros H. induction H; intros Hc; [constructor|]. inversion_clear Hc. constructor; [done|by apply IHForall2]. Qed.

Lemma kept_map (f : Pass -> Pass) ps :
  (forall p, same_shape p (f p)) -> (forall p, same_clears p (f p)) -> kept ps (f <$> ps).
Proof. intros H1 H2. induction ps; constructor; auto. Qed.

Lemma kept_refl ps : kept ps ps.
Proof. induction ps; by constructor. Qed.

Lemma kept_trans ps qs rs : kept ps qs -> kept qs rs -> kept ps rs.
Proof.
  intros H. revert rs. induction H as [|p q ps qs [S1 C1] H IH]; intros rs Hr; inversion_clear Hr as [|? r ? rs' [S2 C2] Hr'];
    constructor; [|by apply IH]. destruct C1, C2. split; [by transitivity (erase q)|split; congruence].
Qed.

Lemma kept_chain prev ps qs : kept ps qs -> chain prev ps -> chain prev qs.
Proof.
  intros H. apply chain_key; [done|]. induction H as [|p q ps qs [??] H IH]; constructor; [by apply shape_key|done].
Qed.

Definition shape_closed (P : Pass -> Prop) : Prop := forall p q, same_shape p q -> P p -> P q.

Lemma kept_Forall (P : Pass -> Prop) ps qs : shape_closed P -> kept ps qs -> Forall P ps -> Forall P qs.
Proof.
  intros HP H. induction H as [|p q ps qs [? _] H IH]; intros Hf; [done|]. inversion_clear Hf. constructor; [by eapply HP|auto].
Qed.

(** ** The composition *)

Definition blits_noted (written : gset Z) (p : Pass) : Prop :=
  forall b tex, b ∈ leading_blits p -> blit_writes_stencil b = true -> blit_written_texture b = Some tex -> tex ∈ written.

Lemma blits_noted_closed written : shape_closed (blits_noted written).
Proof. intros p q H Hp b tex Hb. apply Hp. by rewrite (same_shape_blits p q H). Qed.

Section Stored.
Context {T : Type} (s : PassState) `{L : GpuLaws T (texture_view_to_base s)} (companion : Z -> Z) (planes : Z -> bool).
Hypothesis companion_inj : forall t u, companion t = companion u -> t = u.

  Abbreviation v := (texture_view_to_base s).
  Abbreviation seen := (seen_sampled_textures s).
  Abbreviation sampled := (frame_sampled_textures s).
  Abbreviation wf := (pass_wf (views := v) companion planes seen sampled).

Lemma wf_closed : shape_closed wf.
Proof. intros p q. apply pass_wf_shape. Qed.

(** Rules I, E and A. *)
Definition opened_passes (ps : list Pass) : list Pass :=
  finalize_load seen <$> coalesce_clear_only_passes v sampled (drop_overwritten_clear_only_passes v sampled ps).

Lemma opened_kept (P : Pass -> Prop) ps :
  shape_closed P -> foldable (views := v) companion planes seen sampled None ps -> Forall P ps ->
  Forall P (opened_passes ps) /\ chain None (opened_passes ps).
Proof.
  intros HP Hfo Hps. unfold opened_passes, coalesce_clear_only_passes.
  pose proof (drop_overwritten_foldable companion planes seen sampled None ps Hfo) as Hd.
  destruct (coalesce_kept companion planes seen sampled P (length (drop_overwritten_clear_only_passes v sampled ps))
              None _ HP Hd (Forall_sublist P _ ps (drop_overwritten_sublist sampled ps) Hps)) as [H1 H2]. split.
  - apply Forall_fmap. eapply Forall_impl; [exact H1|]. intros p. apply HP, finalize_load_shape.
  - eapply kept_chain; [|exact H2]. apply kept_map; [apply finalize_load_shape|apply finalize_load_clears].
Qed.

Lemma opened_le ps m :
  foldable (views := v) companion planes seen sampled None ps ->
  mem_le nowhere (run_passes v ps m) (run_passes v (opened_passes ps) m).
Proof.
  intros Hfo. pose proof (drop_overwritten_foldable companion planes seen sampled None ps Hfo) as Hd.
  eapply mem_le_trans; [by apply (drop_overwritten_le companion planes seen sampled), Hfo|].
  eapply mem_le_trans; [apply (coalesce_le companion planes seen sampled companion_inj) with (prev := None); [done|apply after_none]|].
  apply run_passes_map. intros p m' _. apply finalize_load_le.
Qed.

(** Rules B and C and the stencil and depth-load discards. *)
Lemma stored_kept fc ps : Forall wf ps -> kept ps (stored_passes fc (with_passes s ps)).
Proof.
  intros Hwf. unfold stored_passes. cbn [passes with_passes texture_view_to_base frame_sampled_textures seen_sampled_textures stencil_written_textures].
  set (ps1 := if fc then ps else _). assert (kept ps ps1) as H1.
  { unfold ps1. destruct fc; [apply kept_refl|]. apply kept_both; [apply last_stores_shape|apply last_stores_clears]. }
  pose proof (kept_Forall wf _ _ wf_closed H1 Hwf) as W1. set (ps2 := (discard_color_stores seen ps1).1).
  assert (kept ps1 ps2) as H2.
  { apply kept_both; [by apply (discard_color_stores_shape (views := v) companion planes seen sampled)|apply color_stores_clears]. }
  pose proof (kept_Forall wf _ _ wf_closed H2 W1) as W2. set (ps3 := (discard_depth_stores_before_clears _ _ _ ps2).1).
  assert (kept ps2 ps3) as H3.
  { apply kept_both; [|apply before_clears_clears].
    pose proof (before_clears_le companion planes seen sampled ps2 (λ _ _, None) (λ _ _, None) W2) as Hb. unfold ps3.
    destruct (discard_depth_stores_before_clears _ _ _ ps2). by destruct Hb. }
  eapply kept_trans; [exact H1|]. eapply kept_trans; [exact H2|]. eapply kept_trans; [exact H3|].
  eapply kept_trans; apply kept_map; intros p;
    [apply discard_stencil_shape|apply discard_stencil_clears|apply discard_unused_shape|apply discard_unused_clears].
Qed.

Lemma blank_mono (w w' : gset Z) (m : Mem T) : w ⊆ w' -> blank w m -> blank w' m.
Proof. intros Hw Hb sf px [Hp Hs]. apply Hb. split; [done|set_solver]. Qed.

Lemma stored_le (fc : bool) ps m :
  Forall wf ps -> Forall (blits_noted (stencil_written_textures s)) ps -> blank (stencil_written_textures s) m ->
  mem_le (if fc then nowhere else lost_planes seen ps) (run_passes v ps m)
    (run_passes v (stored_passes fc (with_passes s ps)) m).
Proof.
  intros Hwf Hn Hb. set (dead := if fc then nowhere else lost_planes seen ps : Surface -> Prop).
  assert (forall m1 m2 : Surface -> Texels T, mem_le nowhere m1 m2 -> mem_le dead m1 m2) as Hw.
  { intros m1 m2. apply mem_le_weaken. by intros ? []. }
  unfold stored_passes. cbn [passes with_passes texture_view_to_base frame_sampled_textures seen_sampled_textures stencil_written_textures].
  set (ps1 := if fc then ps else _). assert (kept ps ps1 /\ mem_le dead (run_passes v ps m) (run_passes v ps1 m)) as [K1 L1].
  { unfold ps1, dead. destruct fc; [split; [apply kept_refl|apply mem_le_refl]|]. split.
    - apply kept_both; [apply last_stores_shape|apply last_stores_clears].
    - by apply (discard_last_depth_stores_le companion planes seen sampled). }
  eapply mem_le_trans; [exact L1|]. apply Hw. clear Hw.
  pose proof (kept_Forall wf _ _ wf_closed K1 Hwf) as W1. pose proof (kept_Forall _ _ _ (blits_noted_closed _) K1 Hn) as N1.
  set (ps2 := (discard_color_stores seen ps1).1). assert (kept ps1 ps2) as K2.
  { apply kept_both; [by apply (discard_color_stores_shape (views := v) companion planes seen sampled)|apply color_stores_clears]. }
  pose proof (kept_Forall wf _ _ wf_closed K2 W1) as W2. pose proof (kept_Forall _ _ _ (blits_noted_closed _) K2 N1) as N2.
  eapply mem_le_trans; [apply (discard_color_stores_le companion planes seen sampled companion_inj ps1 m m W1), mem_le_refl|].
  fold ps2. set (ps3 := (discard_depth_stores_before_clears _ _ _ ps2).1).
  assert (kept ps2 ps3 /\ mem_le nowhere (run_passes v ps2 m) (run_passes v ps3 m)) as [K3 L3].
  { pose proof (before_clears_le companion planes seen sampled ps2 m m W2) as Hc. pose proof (before_clears_clears v seen sampled ps2) as Hcl.
    unfold ps3. destruct (discard_depth_stores_before_clears _ _ _ ps2). destruct Hc as (? & _ & Hc).
    split; [by apply kept_both|apply Hc, mem_le_refl]. }
  pose proof (kept_Forall wf _ _ wf_closed K3 W2) as W3. pose proof (kept_Forall _ _ _ (blits_noted_closed _) K3 N2) as N3.
  eapply mem_le_trans; [exact L3|]. set (w := note_stencil_writes _ ps3).
  eapply mem_le_trans; [apply (discard_stencil_le companion planes seen sampled w ps3 m m W3)|].
  - apply Forall_forall. intros p Hp. split.
    + intros Hwr. apply note_stencil_writes_spec. right. by exists p.
    + intros b tex Hbl Hbw Ht. apply note_stencil_writes_spec. left. rewrite Forall_forall in N3. by eapply N3.
  - eapply blank_mono; [|exact Hb]. intros t Ht. apply note_stencil_writes_spec. by left.
  - apply mem_le_refl.
  - apply run_passes_map. intros p m' Hp. apply discard_unused_le. apply list_elem_of_fmap in Hp as (q & -> & Hq).
    rewrite Forall_forall in W3. apply (wf_unused (views := v) companion planes seen sampled).
    eapply pass_wf_shape; [apply discard_stencil_shape|by apply W3].
Qed.
End Stored.
