(* ===== verification/PassResolves.v ===== *)
(** The multisample resolves: [assign_multisample_resolves] gives each
    multisampled target one resolve, on the last pass that binds it, and the
    passes it changes keep what the later rules need. *)

From S2P Require Import Prelude PassCommands PassData PassRules PassMerge PassGpu PassFacts.
From S2P Require Import PassClearOnly PassFold PassCoalesce PassJoin PassRecorded.

Definition multisampled (a : PassColorAttachment) : bool := negb (msaa_texture a =? 0).

Definition target_key (a : PassColorAttachment) : Z * Z := (texture a, subresource a).

(** What becomes of a slot that takes its target's resolve. *)
Definition resolved_slot (discard : bool) (backbuffer : Z) (a : PassColorAttachment) : PassColorAttachment :=
  let a' := set_resolve a (resolve_view a) in
  if discard && (texture a =? backbuffer) then set_store a' DontCare else a'.

(** The slots that still come: those after this one in the walk, which takes
    the passes back to front and the slots of a pass front to back. *)
Definition binds_key (k : Z * Z) (a : PassColorAttachment) : bool := multisampled a && bool_decide (target_key a = k).

Definition keys_of (l : list PassColorAttachment) (k : Z * Z) : Prop := existsb (binds_key k) l = true.

Definition assigned (discard : bool) (backbuffer : Z) (before : list PassColorAttachment) (a : PassColorAttachment)
  : PassColorAttachment :=
  if multisampled a && negb (existsb (binds_key (target_key a)) before) then resolved_slot discard backbuffer a else a.

(** The slots of a pass one by one; [before] are the ones the walk has seen. *)
Fixpoint assigned_slots (discard : bool) (backbuffer : Z) (before l : list PassColorAttachment) : list PassColorAttachment :=
  match l with
  | [] => []
  | a :: l' => assigned discard backbuffer before a :: assigned_slots discard backbuffer (a :: before) l'
  end.

Definition all_slots (ps : list Pass) : list PassColorAttachment := ps ≫= color_slots.

(** The reference: a slot takes the resolve when no later pass and no earlier
    slot of its pass binds the same multisampled target. *)
Fixpoint resolve_reference (discard : bool) (backbuffer : Z) (ps : list Pass) : list (list PassColorAttachment) :=
  match ps with
  | [] => []
  | p :: rest =>
      assigned_slots discard backbuffer (all_slots rest) (color_slots p) :: resolve_reference discard backbuffer rest
  end.

Section Reference.
Context (discard : bool) (backbuffer : Z).

Definition noted (resolved : gset (Z * Z)) (before : list PassColorAttachment) : Prop :=
  forall k, k ∈ resolved <-> keys_of before k.

Lemma assign_resolve_eq resolved before a a' resolved' :
  noted resolved before -> assign_resolve discard backbuffer resolved a = (a', resolved') ->
  a' = assigned discard backbuffer before a /\ noted resolved' (a :: before).
Proof.
  intros Hn. unfold assign_resolve, assigned, multisampled, resolved_slot. fold (target_key a).
  assert (bool_decide (target_key a ∈ resolved) = existsb (binds_key (target_key a)) before) as ->.
  { apply eq_bool_prop_intro. rewrite bool_decide_spec. rewrite (Hn (target_key a)). unfold keys_of. by rewrite Is_true_true. }
  assert (forall k, keys_of (a :: before) k <-> binds_key k a = true \/ keys_of before k) as Hk.
  { intros k. unfold keys_of. cbn [existsb]. by rewrite orb_true_iff. }
  unfold noted. setoid_rewrite Hk. unfold binds_key, multisampled in *.
  destruct (msaa_texture a =? 0) eqn:Em; cbn [orb negb andb].
  { intros [= <- <-]. split; [done|]. intros k. rewrite (Hn k). naive_solver. }
  destruct (existsb _ before) eqn:Eb; cbn [negb andb]; intros [= <- <-]; (split; [done|]); intros k.
  - rewrite (Hn k), bool_decide_eq_true. split; [by right|]. intros [<-|Hx]; [exact Eb|done].
  - rewrite elem_of_union, elem_of_singleton, (Hn k), bool_decide_eq_true. naive_solver.
Qed.

Lemma assign_slots_eq l resolved before l' resolved' :
  noted resolved before -> assign_slots discard backbuffer resolved l = (l', resolved') ->
  l' = assigned_slots discard backbuffer before l /\ noted resolved' (l ++ before).
Proof.
  revert resolved before l' resolved'. induction l as [|a l IH]; intros resolved before l' resolved' Hn; cbn [assign_slots].
  { by intros [= <- <-]. }
  destruct (assign_resolve discard backbuffer resolved a) as [a1 r1] eqn:E1.
  destruct (assign_slots discard backbuffer r1 l) as [l1 r2] eqn:E2. intros [= <- <-].
  destruct (assign_resolve_eq resolved before a a1 r1 Hn E1) as [-> Hn1].
  destruct (IH r1 (a :: before) l1 r2 Hn1 E2) as [-> Hn2]. split; [done|]. intros k. rewrite (Hn2 k). unfold keys_of.
  cbn [app]. rewrite !existsb_app. cbn [existsb]. rewrite !existsb_app, !orb_true_iff. tauto.
Qed.

Lemma assign_resolves_reference ps :
  color_slots <$> (assign_resolves discard backbuffer ps).1 = resolve_reference discard backbuffer ps
  /\ noted (assign_resolves discard backbuffer ps).2 (all_slots ps).
Proof.
  induction ps as [|p ps IH].
  { split; [done|]. intros k. split; [by intros ?%elem_of_empty|done]. }
  cbn [assign_resolves]. destruct (assign_resolves discard backbuffer ps) as [ps' r]. destruct IH as [IH Hn]. cbn [fst snd] in *.
  pose proof (assign_slots_eq (color_slots p) r (all_slots ps)) as H. cbn [color_slots assign_slots] in H.
  destruct (assign_resolve discard backbuffer r (color p)) as [c r1].
  destruct (assign_slots discard backbuffer r1 (extra_color p)) as [e r2]. cbn [fst snd fmap list_fmap].
  destruct (H _ _ Hn eq_refl) as [He Hn2]. split; [|exact Hn2]. cbn [resolve_reference]. by rewrite IH, <- He.
Qed.

Lemma assign_slots_length l resolved : length (assign_slots discard backbuffer resolved l).1 = length l.
Proof.
  revert resolved. induction l as [|a l IH]; intros resolved; [done|]. cbn [assign_slots].
  destruct (assign_resolve _ _ _ a) as [a' r]. specialize (IH r). destruct (assign_slots _ _ r l). cbn in *. by rewrite IH.
Qed.

(** Nothing of a pass but its colour slots changes. *)
Lemma assign_resolves_rest ps :
  Forall2 (λ p q, q = with_colors p (color q) (extra_color q)) ps (assign_resolves discard backbuffer ps).1.
Proof.
  induction ps as [|p ps IH]; [constructor|]. cbn [assign_resolves]. destruct (assign_resolves discard backbuffer ps) as [ps' r].
  destruct (assign_resolve _ _ r (color p)) as [c r1]. destruct (assign_slots _ _ r1 (extra_color p)) as [e r2]. by constructor.
Qed.

Lemma assigned_slots_Forall2 before l :
  Forall2 (λ a b, b = a \/ multisampled a = true /\ b = resolved_slot discard backbuffer a) l
    (assigned_slots discard backbuffer before l).
Proof.
  revert before. induction l as [|a l IH]; intros before; [constructor|]. cbn [assigned_slots]. constructor; [|done].
  unfold assigned. destruct (multisampled a); [|by left]. destruct (negb _); [by right|by left].
Qed.
End Reference.

(** ** The last use of a target, by place *)

(** Colour slot [j] of pass [i]. *)
Definition slot_at (ps : list Pass) (i j : nat) : option PassColorAttachment := p ← ps !! i; color_slots p !! j.

(** Slot [j] of pass [i] binds a multisampled target that no later pass and no
    earlier slot of the pass binds. *)
Definition last_use (ps : list Pass) (i j : nat) (a : PassColorAttachment) : Prop :=
  slot_at ps i j = Some a /\ multisampled a = true
  /\ forall i' j' b, slot_at ps i' j' = Some b -> multisampled b = true -> target_key b = target_key a ->
       (i' < i)%nat \/ i' = i /\ (j <= j')%nat.

Lemma binds_key_true k b : binds_key k b = true <-> multisampled b = true /\ target_key b = k.
Proof. unfold binds_key. by rewrite andb_true_iff, bool_decide_eq_true. Qed.

Lemma binds_key_false k l :
  existsb (binds_key k) l = false <-> forall b, b ∈ l -> multisampled b = true -> target_key b <> k.
Proof.
  split.
  - intros H b Hb Hm Hk. apply list_elem_of_In in Hb. pose proof (proj2 (existsb_exists (binds_key k) l)) as He.
    rewrite H in He. discriminate He. exists b. split; [done|]. by apply binds_key_true.
  - intros H. destruct (existsb _ l) eqn:E; [|done]. apply existsb_exists in E as (b & Hb & Hk). apply list_elem_of_In in Hb.
    apply binds_key_true in Hk as [Hm Hk]. by destruct (H b Hb Hm).
Qed.

Lemma all_slots_at ps b : b ∈ all_slots ps <-> exists i j, slot_at ps i j = Some b.
Proof.
  unfold all_slots, slot_at. rewrite list_elem_of_bind. split.
  - intros (p & [j Hj]%list_elem_of_lookup & [i Hi]%list_elem_of_lookup). exists i, j. by rewrite Hi.
  - intros (i & j & H). destruct (ps !! i) as [p|] eqn:Hi; [|done]. exists p. split; by eapply list_elem_of_lookup_2.
Qed.

Lemma assigned_slots_lookup discard backbuffer before l j :
  assigned_slots discard backbuffer before l !! j
  = assigned discard backbuffer (reverse (take j l) ++ before) <$> l !! j.
Proof.
  revert before j. induction l as [|a l IH]; intros before [|j]; try done. cbn [assigned_slots lookup list_lookup take].
  change (assigned_slots discard backbuffer (a :: before) l !! j
    = assigned discard backbuffer (reverse (a :: take j l) ++ before) <$> l !! j).
  by rewrite IH, reverse_cons, <- app_assoc.
Qed.

Lemma resolve_reference_lookup discard backbuffer ps i :
  resolve_reference discard backbuffer ps !! i
  = (λ p, assigned_slots discard backbuffer (all_slots (drop (S i) ps)) (color_slots p)) <$> ps !! i.
Proof. revert i. induction ps as [|p ps IH]; intros [|i]; try done. cbn [resolve_reference drop]. apply IH. Qed.

Lemma slot_at_S p ps i j : slot_at (p :: ps) (S i) j = slot_at ps i j.
Proof. done. Qed.

(** What the walk has seen before a slot holds the target iff the slot is not its last use. *)
Lemma last_use_iff ps i j p a :
  ps !! i = Some p -> color_slots p !! j = Some a ->
  last_use ps i j a
  <-> multisampled a && negb (existsb (binds_key (target_key a)) (reverse (take j (color_slots p)) ++ all_slots (drop (S i) ps))) = true.
Proof.
  intros Hp Ha. rewrite andb_true_iff, negb_true_iff, binds_key_false. unfold last_use.
  assert (slot_at ps i j = Some a) as Hs by (unfold slot_at; by rewrite Hp). split.
  - intros (_ & Hm & Hl). split; [done|]. intros b Hb Hbm Hk.
    apply elem_of_app in Hb as [Hb|(i' & j' & Hb)%all_slots_at].
    + rewrite elem_of_reverse in Hb. apply list_elem_of_lookup in Hb as [j' [Hb Hj]%lookup_take_Some].
      assert (slot_at ps i j' = Some b) as Hs' by (unfold slot_at; by rewrite Hp). specialize (Hl i j' b Hs' Hbm Hk). lia.
    + unfold slot_at in Hb. rewrite lookup_drop in Hb. specialize (Hl (S i + i')%nat j' b Hb Hbm Hk). lia.
  - intros [Hm Hl]. split; [done|]. split; [done|]. intros i' j' b Hb Hbm Hk.
    destruct (decide (i' < i)%nat) as [|Hi]; [by left|]. destruct (decide (i' = i)) as [->|Hn].
    + right. split; [done|]. destruct (decide (j <= j')%nat) as [|Hj]; [done|]. exfalso. unfold slot_at in Hb. rewrite Hp in Hb.
      apply (Hl b); [|done..]. apply elem_of_app. left. rewrite elem_of_reverse. apply (list_elem_of_lookup_2 _ j').
      rewrite lookup_take_lt; [done|lia].
    + exfalso. apply (Hl b); [|done..]. apply elem_of_app. right. apply all_slots_at. exists (i' - S i)%nat, j'.
      unfold slot_at in *. rewrite lookup_drop. replace (S i + (i' - S i))%nat with i' by lia. done.
Qed.

(** What the resolve changes of a slot. *)
Lemma resolved_slot_fields (presenting undefined : bool) backbuffer a :
  let b := resolved_slot (presenting && undefined && negb (backbuffer =? 0)) backbuffer a in
  let dropped := presenting = true /\ undefined = true /\ texture a = backbuffer /\ texture a <> 0 in
  resolve_texture b = resolve_view a
  /\ (store b = DontCare /\ dropped \/ store b = store a /\ ~ dropped)
  /\ set_store (set_resolve b (resolve_texture a)) (store a) = a.
Proof.
  intros b dropped. unfold b, dropped, resolved_slot.
  destruct presenting, undefined, (Z.eqb_spec backbuffer 0), (Z.eqb_spec (texture a) backbuffer); cbn [andb negb];
    (split; [by destruct a|split; [|by destruct a]]); ((left; split; [done|]; split_and!; congruence) || (right; split; [by destruct a|]; intros (? & ? & ? & ?); congruence)).
Qed.

(** Every slot after the walk. *)
Lemma assign_resolves_slot discard backbuffer ps i j a :
  slot_at ps i j = Some a ->
  exists b, slot_at (assign_resolves discard backbuffer ps).1 i j = Some b
  /\ (last_use ps i j a -> b = resolved_slot discard backbuffer a) /\ (~ last_use ps i j a -> b = a).
Proof.
  intros Hs. unfold slot_at in Hs. destruct (ps !! i) as [p|] eqn:Hp; [|done]. cbn in Hs.
  destruct (assign_resolves_reference discard backbuffer ps) as [Href _]. apply (f_equal (λ l, l !! i)) in Href.
  rewrite list_lookup_fmap, resolve_reference_lookup, Hp in Href. unfold slot_at.
  destruct ((assign_resolves discard backbuffer ps).1 !! i) as [q|] eqn:Hq; [|done]. apply (inj Some) in Href.
  assert (color_slots q !! j = assigned discard backbuffer (reverse (take j (color_slots p)) ++ all_slots (drop (S i) ps)) <$> Some a) as Hj.
  { rewrite Href, assigned_slots_lookup. by rewrite Hs. }
  exists (assigned discard backbuffer (reverse (take j (color_slots p)) ++ all_slots (drop (S i) ps)) a). split; [exact Hj|]. rewrite (last_use_iff ps i j p a Hp Hs).
  unfold assigned. destruct (multisampled a && _); split; intros H; try done; by destruct H.
Qed.

(** The last of the places a target is bound at, in the order of the walk. *)
Lemma last_use_exists ps i j a :
  slot_at ps i j = Some a -> multisampled a = true -> exists i' j' b, target_key b = target_key a /\ last_use ps i' j' b.
Proof.
  revert i j a. induction ps as [|p ps IH]; intros i j a Ha Hm; [done|].
  destruct (existsb (binds_key (target_key a)) (all_slots ps)) eqn:El.
  - apply existsb_exists in El as (c & Hc & Hk). apply list_elem_of_In, all_slots_at in Hc as (i' & j' & Hc).
    apply binds_key_true in Hk as [Hmc Hk]. destruct (IH i' j' c Hc Hmc) as (i2 & j2 & b & Hb & L1 & L2 & L3).
    exists (S i2), j2, b. split; [congruence|]. split; [done|]. split; [done|]. intros [|i3] j3 d Hd Hdm Hdk; [left; lia|].
    destruct (L3 i3 j3 d Hd Hdm Hdk) as [?|[-> ?]]; [left; lia|by right].
  - destruct i as [|i].
    + assert (is_Some (list_find (λ b, binds_key (target_key a) b = true) (color_slots p))) as [[j' b] Hf].
      { eapply list_find_elem_of; [exact (list_elem_of_lookup_2 (color_slots p) j a Ha)|by apply binds_key_true]. }
      apply list_find_Some in Hf as (Hb & Hbk & Hmin). apply binds_key_true in Hbk as [Hbm Hbk].
      exists 0%nat, j', b. split; [done|]. split; [done|]. split; [done|]. intros [|i3] j3 d Hd Hdm Hdk.
      * right. split; [done|]. destruct (decide (j' <= j3)%nat) as [|Hlt]; [done|]. exfalso.
        apply (Hmin j3 d Hd); [lia|]. apply binds_key_true. split; [done|congruence].
      * exfalso. rewrite binds_key_false in El. apply (El d); [|done|congruence]. apply all_slots_at. by exists i3, j3.
    + exfalso. rewrite binds_key_false in El. apply (El a); [|done|done]. apply all_slots_at. by exists i, j.
Qed.

Lemma last_use_unique ps i j a i' j' b :
  target_key a = target_key b -> last_use ps i j a -> last_use ps i' j' b -> i = i' /\ j = j'.
Proof.
  intros Hk (A1 & A2 & A3) (B1 & B2 & B3). specialize (A3 i' j' b B1 B2 (eq_sym Hk)). specialize (B3 i j a A1 A2 Hk). lia.
Qed.

(** ** The chain of depth clears sees the places of the colour slots *)

Lemma color_place_bound a : is_bound a = match color_place a with Some _ => true | None => false end.
Proof. unfold color_place. by destruct (is_bound a). Qed.

Lemma extent_place p :
  color_extent_covers_depth p
  = (depth_texture p =? 0) || forallb (λ o : option (Z * Z * Surface * (Z * Z) * (Z * Z)),
      match o with Some x => extent_covers x.2 (depth_size p) | None => true end) (color_place <$> color_slots p).
Proof.
  unfold color_extent_covers_depth. destruct (depth_texture p =? 0); [done|]. cbn [color_slots fmap list_fmap forallb orb]. f_equal.
  - unfold color_place, is_bound, color_texture, color_size. by destruct (texture (color p) =? 0).
  - induction (extra_color p) as [|a l IH]; [done|]. cbn [fmap list_fmap forallb]. rewrite IH. f_equal.
    unfold color_place. by destruct (is_bound a).
Qed.

Lemma unbound_place p :
  (color_texture p =? 0) && forallb (λ a, negb (is_bound a)) (extra_color p)
  = forallb (λ o : option (Z * Z * Surface * (Z * Z) * (Z * Z)), match o with Some _ => false | None => true end)
      (color_place <$> color_slots p).
Proof.
  cbn [color_slots fmap list_fmap forallb]. f_equal.
  - unfold color_place, is_bound, color_texture. by destruct (texture (color p) =? 0).
  - induction (extra_color p) as [|a l IH]; [done|]. cbn [fmap list_fmap forallb]. rewrite IH. f_equal.
    unfold color_place. by destruct (is_bound a).
Qed.

Lemma recolored_key p c e :
  color_place <$> color_slots p = color_place <$> (c :: e) -> link_key (with_colors p c e) = link_key p.
Proof.
  intros H. unfold link_key. rewrite !extent_place, !unbound_place. change (color_slots (with_colors p c e)) with (c :: e).
  by rewrite <- H.
Qed.

(** ** What the later rules keep *)

Section Wf.
Context {T : Type} {views : Views} `{L : GpuLaws T views} (companion : Z -> Z) (planes : Z -> bool)
  (seen sampled : gset Z).

  Abbreviation wf := (pass_wf (views := views) companion planes seen sampled).

(** A multisampled target is bound, and its resolve writes it or a view of it. *)
Definition resolvable (p : Pass) : Prop :=
  forall a, a ∈ color_slots p -> msaa_texture a <> 0 -> is_bound a = true /\ storage views (resolve_view a) = texture a.

Lemma resolvable_closed p q : same_shape p q -> resolvable p -> resolvable q.
Proof.
  intros H Hp. exact (same_shape_slots p q (λ a, msaa_texture a <> 0 -> is_bound a = true
    /\ storage views (resolve_view a) = texture a) H (λ a, iff_refl _) Hp).
Qed.

(** Colour slots that keep their places, and resolve as they may. *)
Lemma recolored_wf p c e :
  wf p -> color_place <$> color_slots p = color_place <$> (c :: e) -> length e = 3%nat ->
  (forall b, b ∈ c :: e -> exists a, a ∈ color_slots p /\ texture b = texture a /\ color_surface b = color_surface a
     /\ size b = size a) ->
  (forall b, b ∈ c :: e -> resolve_texture b <> 0 ->
     is_bound b = true /\ msaa_texture b <> 0 /\ storage views (resolve_texture b) = texture b) ->
  wf (with_colors p c e).
Proof.
  intros W Hpl Hlen Hslot Hres. set (q := with_colors p c e).
  assert (place p = place q) as H by (unfold place; by rewrite Hpl).
  assert (forall m t, draws q m t = draws p m t) as Hd by (intros m t; unfold draws; by rewrite (place_target p q H)).
  assert (forall stale stale', carries stale stale' p -> carries stale stale' q) as Hcar
      by (intros ? ? Hc m t1 t2 Ht; rewrite !Hd; by apply Hc).
  assert (forall b, is_bound b = negb (texture b =? 0)) as Hb by done.
  split; try apply W.
  - intros sl1 sl2 s. rewrite <- !(place_attached p q H). apply W.
  - intros i s Ha. rewrite <- (place_attached p q H) in Ha. rewrite <- (place_covers p q H _ s Ha). by apply (wf_area _ _ _ _ _ W i s).
  - done.
  - intros b (a & Ha & Ht & Hs & _)%Hslot Hbd. rewrite Hs, Ht. apply (wf_companion _ _ _ _ _ W a Ha). by rewrite Hb, <- Ht.
  - intros b (a & Ha & Ht & Hs & _)%Hslot Hbd. rewrite Ht. apply (wf_color_base _ _ _ _ _ W a Ha). by rewrite Hb, <- Ht.
  - exact Hres.
  - intros HU. destruct (wf_unused _ _ _ _ _ W HU) as [Hc Hk]. split; [by apply Hcar|]. intros m t sl px Hsl. rewrite Hd. by apply Hk.
  - intros HU. by apply Hcar, (wf_covers _ _ _ _ _ W).
  - intros HU m t px. rewrite Hd. by apply (wf_stencil_kept _ _ _ _ _ W).
  - intros b Hb' Hbd. destruct (Hslot b Hb') as (a & Ha & Ht & Hs & ->). rewrite Hs.
    apply (wf_extents _ _ _ _ _ W a Ha). by rewrite Hb, <- Ht.
Qed.

Lemma resolved_slot_same discard backbuffer a :
  color_place (resolved_slot discard backbuffer a) = color_place a
  /\ texture (resolved_slot discard backbuffer a) = texture a
  /\ color_surface (resolved_slot discard backbuffer a) = color_surface a
  /\ msaa_texture (resolved_slot discard backbuffer a) = msaa_texture a
  /\ resolve_texture (resolved_slot discard backbuffer a) = resolve_view a
  /\ size (resolved_slot discard backbuffer a) = size a.
Proof. unfold resolved_slot. by destruct (_ && _). Qed.

Lemma assigned_wf discard backbuffer p q :
  wf p -> resolvable p -> q = with_colors p (color q) (extra_color q) ->
  Forall2 (λ a b, b = a \/ multisampled a = true /\ b = resolved_slot discard backbuffer a) (color_slots p) (color_slots q) ->
  wf q /\ link_key p = link_key q.
Proof.
  intros W Hr Hq Hs.
  assert (color_place <$> color_slots p = color_place <$> color_slots q) as Hpl.
  { clear Hq Hr W. induction Hs as [|a b l k [->|[_ ->]] _ IH]; [done|by rewrite !fmap_cons, IH|].
    rewrite !fmap_cons, IH. by destruct (resolved_slot_same discard backbuffer a) as [-> _]. }
  assert (forall b, b ∈ color_slots q -> exists a, a ∈ color_slots p /\
    (b = a \/ multisampled a = true /\ b = resolved_slot discard backbuffer a)) as Hin.
  { intros b [i Hi]%list_elem_of_lookup. destruct (Forall2_lookup_r _ _ _ _ _ Hs Hi) as (a & Ha & ?). exists a.
    split; [by eapply list_elem_of_lookup_2|done]. }
  split.
  - rewrite Hq. apply recolored_wf; [done|done| | |].
    + pose proof (Forall2_length _ _ _ Hs) as Hl. cbn in Hl. injection Hl as Hl. rewrite <- Hl. apply (wf_extras _ _ _ _ _ W).
    + intros b (a & Ha & [->|[_ ->]])%Hin; exists a; [done|].
      by destruct (resolved_slot_same discard backbuffer a) as (_ & ? & ? & _ & _ & ?).
    + intros b (a & Ha & [->|[Hm ->]])%Hin Hn; [by apply (wf_resolves _ _ _ _ _ W)|].
      destruct (resolved_slot_same discard backbuffer a) as (_ & Ht & _ & Hms & Hrs & _). unfold is_bound. rewrite Ht, Hms, Hrs.
      apply negb_true_iff, Z.eqb_neq in Hm. by destruct (Hr a Ha Hm).
  - rewrite Hq. symmetry. by apply recolored_key.
Qed.

Lemma assigned_pairs discard backbuffer ps :
  Forall2 (λ p q, q = with_colors p (color q) (extra_color q)
    /\ Forall2 (λ a b, b = a \/ multisampled a = true /\ b = resolved_slot discard backbuffer a) (color_slots p) (color_slots q))
    ps (assign_resolves discard backbuffer ps).1.
Proof.
  pose proof (assign_resolves_rest discard backbuffer ps) as H1.
  destruct (assign_resolves_reference discard backbuffer ps) as [H2 _]. revert H2.
  induction H1 as [|p q ps' qs Hq H1 IH]; [constructor|]. cbn [fmap list_fmap resolve_reference]. intros H2.
  assert (color_slots q = assigned_slots discard backbuffer (all_slots ps') (color_slots p)) as Hs
      by exact (f_equal (hd []) H2).
  apply (f_equal tl) in H2. constructor; [|by apply IH]. split; [done|]. rewrite Hs. apply assigned_slots_Forall2.
Qed.

Lemma assigned_kept discard backbuffer ps :
  Forall wf ps -> Forall resolvable ps ->
  Forall wf (assign_resolves discard backbuffer ps).1
  /\ Forall2 (λ p q, link_key p = link_key q) ps (assign_resolves discard backbuffer ps).1
  /\ Forall2 (λ p q, commands p = commands q) ps (assign_resolves discard backbuffer ps).1.
Proof.
  pose proof (assigned_pairs discard backbuffer ps) as H. induction H as [|p q ps' qs [Hq Hs] H IH]; intros W R; [done|].
  apply Forall_cons in W as [Wp W]. apply Forall_cons in R as [Rp R]. destruct (IH W R) as (I1 & I2 & I3).
  destruct (assigned_wf discard backbuffer p q Wp Rp Hq Hs) as [Wq Hk]. repeat split; constructor; try done.
  by rewrite Hq.
Qed.

(** The draws of a pass leave the same in the tile whatever the slots resolve to. *)
Lemma assigned_tile discard backbuffer p q :
  q = with_colors p (color q) (extra_color q) ->
  Forall2 (λ a b, b = a \/ multisampled a = true /\ b = resolved_slot discard backbuffer a) (color_slots p) (color_slots q) ->
  forall m : Mem T, tile_le nowhere (draws p m (open_tile p m)) (draws q m (open_tile q m))
  /\ tile_le nowhere (draws q m (open_tile q m)) (draws p m (open_tile p m)).
Proof.
  intros Hq Hs m.
  assert (forall a b, b = a \/ multisampled a = true /\ b = resolved_slot discard backbuffer a ->
            color_place b = color_place a /\ color_action (T := T) b = color_action a) as Hab.
  { intros a b [->|[_ ->]]; [done|]. split; [apply resolved_slot_same|]. unfold resolved_slot. by destruct (_ && _). }
  assert (color_place <$> color_slots p = color_place <$> color_slots q) as Hpl.
  { clear Hq. induction Hs as [|a b l k H _ IH]; [done|]. rewrite !fmap_cons, IH. by destruct (Hab _ _ H) as [-> _]. }
  assert (place p = place q) as Hp by (unfold place; rewrite Hpl, Hq; done).
  assert (forall sl px, open_tile p m sl px = open_tile q m sl px) as Ho.
  { intros sl px. rewrite !open_tile_eq, (place_attached _ _ Hp). destruct (attached q sl) as [s|] eqn:Ea; cbn; [|done].
    assert (attached p sl = Some s) as Ea' by (by rewrite (place_attached _ _ Hp)). rewrite (place_reaches _ _ Hp sl s px Ea').
    assert (load_action (T := T) p sl = load_action q sl) as ->; [|done].
    destruct sl as [i| | |]; [|rewrite Hq; done..]. cbn [load_action].
    destruct (color_slots p !! i) as [x|] eqn:Ex, (color_slots q !! i) as [y|] eqn:Ey; [|exfalso..|done].
    - destruct (Hab x y (Forall2_lookup_lr _ _ _ _ _ _ Hs Ex Ey)) as [_ ->]. done.
    - destruct (Forall2_lookup_l _ _ _ _ _ Hs Ex) as (y & Hy & _). congruence.
    - destruct (Forall2_lookup_r _ _ _ _ _ Hs Ey) as (x & Hx & _). congruence. }
  assert (forall t, draws q m t = draws p m t) as Hd by (intros t; unfold draws; rewrite (place_target p q Hp), Hq; done).
  rewrite Hd. split; apply (draws_le nowhere); auto using samples_nowhere, mem_le_refl;
    intros sl _ px v; by rewrite Ho.
Qed.

(** The pass of a last use leaves the samples its draws left, resolved, in the
    single-sample texture of the target. *)
Lemma last_use_resolved discard backbuffer ps i j p q a (m : Mem T) px :
  ps !! i = Some p -> (assign_resolves discard backbuffer ps).1 !! i = Some q -> last_use ps i j a ->
  wf p -> resolvable p ->
  let m1 := run_blits (leading_blits p) m in
  run_pass views q m (surface (texture a) (subresource a) ColorPlane) px
  = resolve (draws p m1 (open_tile p m1) (SlotColor j)) px.
Proof.
  intros Hp Hq Hl W R m1. pose proof (assigned_pairs discard backbuffer ps) as Hpairs.
  destruct (Forall2_lookup_lr _ _ _ _ _ _ Hpairs Hp Hq) as [Hqe Hs]. clear Hpairs.
  destruct (assigned_wf discard backbuffer p q W R Hqe Hs) as [Wq _].
  pose proof Hl as (Hat & Hm & Hlast). pose proof Hat as Ha. unfold slot_at in Ha. rewrite Hp in Ha. cbn in Ha.
  destruct (assign_resolves_slot discard backbuffer ps i j a Hat) as (b & Hb & Hb1 & _). specialize (Hb1 Hl). subst b.
  unfold slot_at in Hb. rewrite Hq in Hb. cbn in Hb.
  assert (msaa_texture a <> 0) as Hma by (by apply negb_true_iff, Z.eqb_neq in Hm).
  destruct (R a ltac:(by eapply list_elem_of_lookup_2) Hma) as [Hbd Hst].
  destruct (resolved_slot_same discard backbuffer a) as (_ & Ht & Hcs & Hms & Hrt & Hsz).
  assert (forall x, is_bound x = negb (texture x =? 0)) as Hib by done.
  assert (subresource (resolved_slot discard backbuffer a) = subresource a) as Hsub by (unfold resolved_slot; by destruct (_ && _)).
  assert (resolve_view a <> 0) as Hv0.
  { rewrite Hib in Hbd. apply negb_true_iff, Z.eqb_neq in Hbd. unfold resolve_view. by destruct (Z.eqb_spec (srgb_texture a) 0). }
  set (s := surface (texture a) (subresource a) ColorPlane).
  assert (resolving views q s = Some (SlotColor j)) as Hrs.
  { unfold resolving. assert (list_find (λ x, is_bound x = true /\ resolves_to views x = Some s) (color_slots q)
      = Some (j, resolved_slot discard backbuffer a)) as ->; [|done].
    apply list_find_Some. split; [done|]. split.
    - split; [by rewrite Hib, Ht, <- Hib|]. unfold resolves_to. rewrite Hrt, (proj2 (Z.eqb_neq _ _) Hv0), Hst, Hsub. done.
    - intros j' y Hy Hj' [_ Hr]. unfold resolves_to in Hr. destruct (resolve_texture y =? 0) eqn:E0; [done|]. apply Z.eqb_neq in E0.
      injection Hr as Hr1 Hr2. destruct (wf_resolves _ _ _ _ _ Wq y ltac:(by eapply list_elem_of_lookup_2) E0) as (_ & Hmy & Hsy).
      destruct (Forall2_lookup_r _ _ _ _ _ Hs Hy) as (x & Hx & Hxy).
      assert (multisampled x = true /\ target_key x = target_key a) as [Hmx Hkx].
      { destruct (resolved_slot_same discard backbuffer x) as (_ & Htx & _ & Hmsx & _).
        assert (subresource (resolved_slot discard backbuffer x) = subresource x) as Hsubx by (unfold resolved_slot; by destruct (_ && _)).
        unfold multisampled, target_key. rewrite negb_true_iff, Z.eqb_neq.
        destruct Hxy as [->|[_ ->]]; [|rewrite Htx, Hmsx, Hsubx in *]; (split; [done|congruence]). }
      assert (slot_at ps i j' = Some x) as Hsx by (unfold slot_at; by rewrite Hp). specialize (Hlast i j' x Hsx Hmx Hkx). lia. }
  assert (covers q (SlotColor j) = true) as Hcov.
  { apply (wf_area _ _ _ _ _ Wq j (color_surface a)). cbn [attached]. rewrite Hb. cbn. rewrite Hib, Ht, <- Hib, Hbd. by rewrite Hcs. }
  unfold run_pass, run_render, close_tile. rewrite Hrs, (covers_reaches q _ px Hcov).
  assert (leading_blits q = leading_blits p) as -> by (by rewrite Hqe). fold m1.
  destruct (assigned_tile discard backbuffer p q Hqe Hs m1) as [H1 H2].
  apply option_eq. intros v. split; apply resolve_mono; [apply H2|apply H1]; intros [].
Qed.
End Wf.
