(* ===== verification/PassPipeline.v ===== *)
(** [apply_pass_rules] as a whole: Rules G, F, J and K after the resolves are
    assigned, and the composition of the pipeline. *)

From S2P Require Import Prelude PassCommands PassData PassRules PassMerge PassGpu PassFacts.
From S2P Require Import PassClearOnly PassFrameEnd PassFold PassCoalesce PassJoin.
From S2P Require Import PassRecorded PassResolves.

(** ** What Rule G leaves of a slot *)

Lemma strip_slot_cases p i a' :
  color_slots (strip_dead_color p) !! i = Some a' ->
  exists a, color_slots p !! i = Some a /\ (a' = a \/ a' = color_none \/ a' = drop_attachment a).
Proof.
  unfold strip_dead_color. destruct (negb (clear_only p)); [eauto|]. set (e := _ <$> extra_color p).
  assert (forall j b, e !! j = Some b -> exists a, extra_color p !! j = Some a /\ (b = a \/ b = color_none \/ b = drop_attachment a)) as He.
  { intros j b Hj. unfold e in Hj. rewrite list_lookup_fmap in Hj. destruct (extra_color p !! j) as [a|]; [|done].
    injection Hj as <-. exists a. split; [done|]. destruct (_ && _); auto. }
  destruct i as [|i]; destruct (_ && _ && _).
  - intros [= <-]. exists (color p). auto.
  - intros [= <-]. exists (color p). auto.
  - rewrite !color_slots_S. apply He.
  - rewrite !color_slots_S. apply He.
Qed.

Lemma strip_fields p : strip_dead_color p = with_colors p (color (strip_dead_color p)) (extra_color (strip_dead_color p)).
Proof. unfold strip_dead_color. destruct (negb _); [by destruct p|]. by destruct (_ && _ && _). Qed.

Lemma strip_commands p : commands (strip_dead_color p) = commands p.
Proof. by rewrite strip_fields. Qed.

Lemma merge_adjacent_fields s1 s2 :
  passes s1 = passes s2 -> upload_pass_end s1 = upload_pass_end s2 -> texture_view_to_base s1 = texture_view_to_base s2 ->
  frame_sampled_textures s1 = frame_sampled_textures s2 ->
  passes (merge_adjacent_identical_passes s1) = passes (merge_adjacent_identical_passes s2).
Proof.
  intros H1 H2 H3 H4. unfold merge_adjacent_identical_passes. rewrite H1, H2, H3, H4. by destruct (_ <? _)%nat.
Qed.

Section Pipeline.
Context {T : Type} (s : PassState) `{L : GpuLaws T (texture_view_to_base s)} (companion : Z -> Z) (planes : Z -> bool).
Hypothesis companion_inj : forall t u, companion t = companion u -> t = u.

  Abbreviation v := (texture_view_to_base s).
  Abbreviation seen := (seen_sampled_textures s).
  Abbreviation sampled := (frame_sampled_textures s).
  Abbreviation wf := (pass_wf (views := v) companion planes seen sampled).
  Abbreviation joinable := (joinable (views := v) companion planes seen sampled).

Lemma strip_covers p i sf : wf p -> attached (strip_dead_color p) (SlotColor i) = Some sf ->
  covers (strip_dead_color p) (SlotColor i) = true.
Proof.
  intros W Ha. pose proof (wf_area _ _ _ _ _ W i sf (strip_attached p _ sf Ha)) as Hc.
  destruct (strip_slot_same (T := T) p _ sf Ha) as (_ & _ & Hz). unfold covers in *. rewrite Hz.
  eapply extent_covers_trans; [apply area_grows, strip_bound_sizes|done].
Qed.

Lemma strip_draws p m t : draws (strip_dead_color p) m t = draws p m t.
Proof.
  destruct (clear_only p) eqn:Hc; [|unfold strip_dead_color; by rewrite Hc].
  assert (has_draw p = false) as Hd by (unfold clear_only in Hc; by destruct (has_draw p)).
  rewrite !no_draws; [done|done|]. unfold has_draw. by rewrite strip_commands.
Qed.

Lemma strip_wf p : wf p -> wf (strip_dead_color p).
Proof.
  intros W.
  assert (forall stale stale', carries stale stale' p -> carries stale stale' (strip_dead_color p)) as Hcar
      by (intros ? ? Hc m t1 t2 Ht; rewrite !strip_draws; by apply Hc).
  assert (forall a, a ∈ color_slots (strip_dead_color p) -> is_bound a = true -> a ∈ color_slots p) as Hin.
  { intros a [i Hi]%list_elem_of_lookup Hb. eapply list_elem_of_lookup_2. by apply strip_slot_inv. }
  split.
  - intros sl1 sl2 sf H1 H2. apply (wf_distinct _ _ _ _ _ W sl1 sl2 sf); by apply strip_attached.
  - intros i sf. by apply strip_covers.
  - pose proof (strip_length p) as Hl. cbn in Hl. injection Hl as Hl. rewrite Hl. apply (wf_extras _ _ _ _ _ W).
  - intros a Ha Hb. apply (wf_companion _ _ _ _ _ W a); auto.
  - intros a Ha Hb. apply (wf_color_base _ _ _ _ _ W a); auto.
  - unfold depth_texture. rewrite strip_depth. apply (wf_depth_base _ _ _ _ _ W).
  - unfold depth_texture, has_stencil, depth_flags. rewrite strip_depth. apply (wf_depth_planes _ _ _ _ _ W).
  - unfold depth_size. rewrite strip_depth. apply (wf_depth_size _ _ _ _ _ W).
  - rewrite strip_commands. apply (wf_samples _ _ _ _ _ W).
  - rewrite strip_fields. apply (wf_blit_reads _ _ _ _ _ W).
  - rewrite strip_fields. apply (wf_blit_writes _ _ _ _ _ W).
  - intros a' [i Hi]%list_elem_of_lookup Hr. destruct (strip_slot_cases p i a' Hi) as (a & Ha & [->|[->| ->]]); [|done..].
    apply (wf_resolves _ _ _ _ _ W); [by eapply list_elem_of_lookup_2|done].
  - unfold depth_flags. rewrite strip_depth. intros HU. destruct (wf_unused _ _ _ _ _ W HU) as [Hc Hk].
    split; [by apply Hcar|]. intros m t sl px Hsl. rewrite strip_draws. by apply Hk.
  - intros HU. apply Hcar, (wf_covers _ _ _ _ _ W). by rewrite strip_fields in HU.
  - unfold depth_flags. rewrite strip_depth. intros HU m t px. rewrite strip_draws. by apply (wf_stencil_kept _ _ _ _ _ W).
  - intros a Ha Hb. apply (wf_extents _ _ _ _ _ W a); auto.
  - unfold depth_surface, depth_texture, depth_size, depth_level. rewrite strip_depth. apply (wf_depth_extent _ _ _ _ _ W).
Qed.

Lemma strip_list_le prev ps m :
  Forall wf ps -> chain prev ps -> after (views := v) companion planes seen sampled prev m ->
  mem_le nowhere (run_passes v ps m) (run_passes v (strip_dead_color <$> ps) m).
Proof.
  revert prev m. induction ps as [|p ps IH]; intros prev m Hwf Hc Ha; [apply mem_le_refl|].
  apply Forall_cons in Hwf as [W Hwf]. destruct Hc as [Hl Hc]. cbn [fmap list_fmap]. rewrite !run_passes_cons.
  eapply mem_le_trans; [apply (IH (Some p)); [done..|by apply after_pass]|]. apply run_passes_mono.
  destruct (clear_only p) eqn:Hco; [|unfold strip_dead_color; rewrite Hco; apply mem_le_refl].
  apply strip_dead_color_le; [apply (wf_distinct _ _ _ _ _ W)|apply (wf_area _ _ _ _ _ W)|by apply Ha].
Qed.

(** ** Rules F, J and K *)

Lemma cull_kept (P : Pass -> Prop) ps : Forall P ps -> Forall P (cull_dead ps).
Proof.
  intros H. unfold cull_dead. induction H as [|p ps Hp H IH]; [constructor|]. cbn [List.filter].
  destruct (keeps_pass p); [by constructor|done].
Qed.

Lemma merge_adjacent_le ps m :
  Forall joinable ps ->
  mem_le nowhere (run_passes v ps m) (run_passes v (passes (merge_adjacent_identical_passes (with_passes s ps))) m)
  /\ Forall joinable (passes (merge_adjacent_identical_passes (with_passes s ps))).
Proof.
  intros Hj. unfold merge_adjacent_identical_passes. cbn [upload_pass_end passes with_passes].
  destruct (length ps <? _)%nat; cbn [passes with_passes texture_view_to_base frame_sampled_textures];
    [split; [apply mem_le_refl|done]|].
  set (n := upload_pass_end s). rewrite <- (take_drop n ps) in Hj. apply Forall_app in Hj as [H1 H2].
  assert (forall qs, mem_le nowhere (run_passes v (drop n ps) (run_passes v (take n ps) m)) (run_passes v qs (run_passes v (take n ps) m)) ->
            mem_le nowhere (run_passes v ps m) (run_passes v (take n ps ++ qs) m)) as Ht.
  { intros qs Hq. rewrite <- (take_drop n ps) at 1. by rewrite !run_passes_app. }
  destruct (drop n ps) as [|p rest]; [split; [apply Ht, mem_le_refl|by apply Forall_app]|].
  apply Forall_cons in H2 as [Hp Hr]. split.
  - apply Ht. by apply (merge_from_le companion planes seen sampled companion_inj).
  - apply Forall_app. split; [done|]. by apply (merge_from_joinable companion planes seen sampled companion_inj).
Qed.

Definition joined_passes (ps : list Pass) : list Pass :=
  discard_covered_load <$> passes (merge_adjacent_identical_passes (with_passes s (cull_dead ps))).

Lemma joined_passes_le ps m :
  Forall joinable ps -> mem_le nowhere (run_passes v ps m) (run_passes v (joined_passes ps) m).
Proof.
  intros Hj. eapply mem_le_trans; [apply cull_dead_le|].
  destruct (merge_adjacent_le (cull_dead ps) m (cull_kept _ _ Hj)) as [H1 H2].
  eapply mem_le_trans; [exact H1|]. apply run_passes_map. intros p m' Hp. rewrite Forall_forall in H2.
  destruct (H2 p Hp) as [W _]. apply discard_covered_le; [apply (wf_covers _ _ _ _ _ W)|].
  intros Ht. apply (wf_area _ _ _ _ _ W 0%nat (color_surface (color p))). cbn. unfold is_bound.
  unfold color_texture in Ht. by rewrite (proj2 (Z.eqb_neq _ _) Ht).
Qed.

(** ** The whole pipeline *)

(** What the recorder hands over: [m] is the memory the submission finds. *)
Record recorded (m : Mem T) : Prop := {
  rec_foldable : foldable (views := v) companion planes seen sampled None (passes s);
  rec_bound : Forall (λ p, draws_bound fresh (commands p)) (passes s);
  rec_resolvable : Forall (@resolvable v) (passes s);
  rec_blits : Forall (blits_noted (stencil_written_textures s)) (passes s);
  rec_blank : blank (stencil_written_textures s) m }.

Definition discards_samples (fc : bool) : bool := negb fc && backbuffer_undefined s && negb (backbuffer_texture s =? 0).

(** The passes before the resolves are assigned, and with them. *)
Definition unresolved_passes (fc : bool) : list Pass := stored_passes fc (with_passes s (opened_passes s (passes s))).

Definition resolved_passes (fc : bool) : list Pass :=
  (assign_resolves (discards_samples fc) (backbuffer_texture s) (unresolved_passes fc)).1.

Lemma apply_pass_rules_eq alt fc :
  passes <$> apply_pass_rules alt fc s
  = joined_passes <$> strip_color_from_no_color_draw_passes alt (strip_dead_color <$> resolved_passes fc).
Proof.
  unfold apply_pass_rules, joined_passes. cbv zeta.
  match goal with |- _ <$> (strip_color_from_no_color_draw_passes alt ?ps ≫= _) = _ =>
    change ps with (strip_dead_color <$> resolved_passes fc) end.
  destruct (strip_color_from_no_color_draw_passes alt _) as [ps|]; [|done].
  cbn [mbind option_bind fmap option_fmap option_map passes with_passes]. do 2 f_equal. by apply merge_adjacent_fields.
Qed.

Lemma resolved_kept fc (m : Mem T) :
  recorded m ->
  Forall wf (resolved_passes fc) /\ chain None (resolved_passes fc)
  /\ Forall (λ p, draws_bound fresh (commands p)) (resolved_passes fc).
Proof.
  intros [Hfo Hb Hr _ _]. unfold resolved_passes, unresolved_passes.
  assert (shape_closed (λ p, draws_bound fresh (commands p))) as HB.
  { intros p q H Hp. by rewrite <- (same_shape_commands p q H). }
  assert (forall P, shape_closed P -> Forall P (passes s) ->
            Forall P (stored_passes fc (with_passes s (opened_passes s (passes s))))
            /\ chain None (stored_passes fc (with_passes s (opened_passes s (passes s))))) as HP.
  { intros P HP Hp. destruct (opened_kept s companion planes P (passes s) HP Hfo Hp) as [H1 H2].
    destruct (opened_kept s companion planes wf (passes s) (wf_closed s companion planes) Hfo (fo_wf _ _ _ _ _ _ Hfo)) as [W _].
    pose proof (stored_kept s companion planes companion_inj fc _ W) as K. split; [by eapply kept_Forall|by eapply kept_chain]. }
  destruct (HP wf (wf_closed s companion planes) (fo_wf _ _ _ _ _ _ Hfo)) as [W Hc].
  destruct (HP _ HB Hb) as [B _]. destruct (HP _ (resolvable_closed (views := v)) Hr) as [R _].
  destruct (assigned_kept companion planes seen sampled (discards_samples fc) (backbuffer_texture s) _ W R) as (H1 & H2 & H3).
  split; [done|]. split; [by eapply chain_key|].
  clear - B H3. induction H3 as [|p q ps qs Hq H3 IH]; [constructor|]. apply Forall_cons in B as [Bp B].
  constructor; [by rewrite <- Hq|by apply IH].
Qed.

Lemma recorded_rules_le (fc : bool) m :
  recorded m ->
  mem_le (if fc then nowhere else lost_planes seen (opened_passes s (passes s)))
    (run_passes v (passes s) m) (run_passes v (unresolved_passes fc) m).
Proof.
  intros [Hfo _ _ Hbl Hblank].
  destruct (opened_kept s companion planes wf (passes s) (wf_closed s companion planes) Hfo (fo_wf _ _ _ _ _ _ Hfo)) as [W _].
  destruct (opened_kept s companion planes _ (passes s) (blits_noted_closed _) Hfo Hbl) as [N _].
  eapply mem_le_trans; [|by apply (stored_le s companion planes companion_inj)].
  eapply (mem_le_weaken nowhere); [by intros ? []|]. by apply (opened_le s companion planes companion_inj).
Qed.

Lemma placed_rules_le fc (m m' : Mem T) :
  recorded m ->
  mem_le nowhere (run_passes v (resolved_passes fc) m') (run_passes v (joined_passes (strip_dead_color <$> resolved_passes fc)) m').
Proof.
  intros H. destruct (resolved_kept fc m H) as (W & Hc & B).
  eapply mem_le_trans; [apply (strip_list_le None); [done..|apply after_none]|]. apply joined_passes_le.
  apply Forall_fmap. rewrite Forall_forall in W. rewrite Forall_forall in B. apply Forall_forall. intros p Hp.
  split; [by apply strip_wf, W|]. cbn. rewrite strip_commands. by apply B.
Qed.
End Pipeline.
