(* ===== verification/PassToy.v ===== *)
(** A small GPU the theorems on the pass list are tried on: draws blend the
    texture bound at fragment slot 0, blits copy whole planes, samples resolve as
    they are.  The laws hold of it, and what the recorder guarantees of a pass
    can be decided for its passes by computation. *)

From S2P Require Import Prelude PassCommands PassData PassRules PassMerge PassGpu PassFacts PassClearOnly.
From S2P Require Import PassFrameEnd PassFold PassCoalesce PassJoin PassRecorded PassClearOnly.
From S2P Require Import PassResolves PassPipeline PassRecorded.

(** ** The GPU *)

Definition no_views : Views := ∅.

(** The texel the bound texture gives. *)
Definition toy_sample (m : Mem Z) (e : Encoder) (px : Z * Z) : option Z :=
  match e (FragmentTextureAt 0) with
  | Some b =>
      match command_sampled_texture b with
      | Some tex => m (surface (storage no_views tex) 0 ColorPlane) px
      | None => Some 0
      end
  | None => Some 0
  end.

(** A pipeline with a 1 in its last parameter overwrites, any other blends. *)
Definition toy_opaque (pso : Command) : bool := param_d pso =? 1.

Definition toy_draw (m : Mem Z) (e : Encoder) (t : Tile Z) : Tile Z :=
  λ sl px,
    match sl with
    | SlotColor O =>
        match pipeline e with
        | None => t sl px
        | Some pso =>
            x ← toy_sample m e px;
            let blend := (ms_blend_color (encoder_state e)).1.1.1 in
            if toy_opaque pso then Some (x + param_b pso + blend)
            else y ← t sl px; Some (x + y + param_b pso + blend)
        end
    | _ => t sl px
    end.

Definition toy_blit (b : BlitCommand) (m : Mem Z) : Mem Z :=
  λ s px,
    match blit_written_texture b with
    | Some dst =>
        if (s_texture s =? storage no_views dst) && negb (bool_decide (s_plane s = CounterPlane))
           && (blit_writes_stencil b || negb (bool_decide (s_plane s = StencilPlane)))
        then match blit_read_texture b with
             | Some src => m (surface (storage no_views src) (s_sub s) (s_plane s)) px
             | None => Some 0
             end
        else m s px
    | None => m s px
    end.

(** Views from handle 1000 on are sRGB views: they store an encoded colour. *)
Definition toy_color (view : Z) (c : Z * Z * Z * Z) : Z := if 1000 <=? view then 2 * c.1.1.1 + 1 else c.1.1.1.

#[export] Instance toy_gpu : Gpu Z := {
  draw _ m e _ t := toy_draw m e t;
  blit := toy_blit;
  resolve f := f;
  color_texel := toy_color;
  depth_texel d := d;
  stencil_texel x := x;
  plane_extent _ := (64, 64);
  declares _ sl := bool_decide (sl = FragmentTextureAt 0) }.

Lemma toy_draw_mono e dead m1 m2 t1 t2 :
  (forall sl b tex, e sl = Some b -> command_sampled_texture b = Some tex -> ~ read_through no_views dead tex) ->
  mem_le dead m1 m2 -> tile_le nowhere t1 t2 -> tile_le nowhere (toy_draw m1 e t1) (toy_draw m2 e t2).
Proof.
  intros He Hm Ht sl _ px v. assert (t1 sl px = Some v -> t2 sl px = Some v) as Hk by (by apply (Ht sl ltac:(intros []))).
  unfold toy_draw. destruct sl as [[|i]| | |]; [|exact Hk..]. destruct (pipeline e) as [pso|]; [|exact Hk]. clear Hk.
  assert (forall x, toy_sample m1 e px = Some x -> toy_sample m2 e px = Some x) as Hx.
  { intros x. unfold toy_sample. destruct (e (FragmentTextureAt 0)) as [b|] eqn:Eb; [|done].
    destruct (command_sampled_texture b) as [tex|] eqn:Et; [|done]. apply Hm. intros Hd.
    apply (He _ _ _ Eb Et). by eexists. }
  destruct (toy_sample m1 e px) as [x|]; [|done]. rewrite (Hx x) by done. cbn. destruct (toy_opaque pso); [done|].
  destruct (t1 (SlotColor 0) px) as [y|] eqn:Ey; [|done]. cbn.
  by rewrite (Ht (SlotColor 0) ltac:(intros []) px y Ey).
Qed.

Lemma toy_draw_encoder m e1 e2 t :
  encoder_state e1 = encoder_state e2 ->
  e1 (FragmentTextureAt 0) = e2 (FragmentTextureAt 0) -> tile_le nowhere (toy_draw m e1 t) (toy_draw m e2 t).
Proof.
  intros Hs Hb sl _ px v. unfold toy_draw, toy_sample, pipeline. by rewrite Hb, Hs.
Qed.

Lemma toy_blit_mono b dead m1 m2 s :
  (forall tex, blit_read_texture b = Some tex -> ~ read_through no_views dead tex) ->
  mem_le dead m1 m2 ->
  ~ dead s \/ overwrites_whole no_views b s (64, 64) ->
  texels_le (toy_blit b m1 s) (toy_blit b m2 s).
Proof.
  intros Hr Hm Hs px v.
  assert (forall src, blit_read_texture b = Some src -> s_plane s <> CounterPlane ->
            texels_le (m1 (surface (storage no_views src) (s_sub s) (s_plane s)))
                      (m2 (surface (storage no_views src) (s_sub s) (s_plane s)))) as Hsrc.
  { intros src Hb Hp. apply Hm. intros Hd. apply (Hr src Hb). by eexists. }
  assert (~ dead s -> texels_le (m1 s) (m2 s)) as Hkeep by apply Hm.
  unfold toy_blit. destruct Hs as [Hs|Ho].
  - destruct (blit_written_texture b) as [dst|]; [|by apply Hkeep].
    destruct (_ && _ && _) eqn:E; [|by apply Hkeep]. rewrite !andb_true_iff, negb_true_iff, bool_decide_eq_false in E.
    destruct E as [[_ Hp] _], (blit_read_texture b) as [src|]; [|done]. by apply Hsrc.
  - assert (s_texture s = storage no_views (dst_handle b) /\ s_plane s <> CounterPlane /\ s_plane s <> StencilPlane
            /\ blit_written_texture b = Some (dst_handle b)) as (Ht & Hp & Hp' & Hw).
    { unfold overwrites_whole in Ho. unfold blit_written_texture. destruct (blit_from_repr (b_cmd b)) as [[]|]; try done;
        destruct Ho as (H0 & Ht & Ho); rewrite (proj2 (Z.eqb_neq (dst_handle b) 0) H0);
        split_and!; try done; intros Hq; rewrite Hq in Ho; naive_solver. }
    rewrite Hw, Ht, Z.eqb_refl, (bool_decide_eq_false_2 _ Hp), (bool_decide_eq_false_2 _ Hp'), orb_true_r. cbn [negb andb].
    destruct (blit_read_texture b) as [src|]; [by apply Hsrc|done].
Qed.

#[export] Instance toy_laws : GpuLaws Z no_views.
Proof.
  split; cbn [draw blit resolve declares toy_gpu].
  - intros tv e c. apply toy_draw_mono.
  - intros tv m e1 e2 c t Hs Hb. apply toy_draw_encoder; [done|]. apply Hb; [done|]. by apply bool_decide_eq_true.
  - apply toy_blit_mono.
  - intros b m s Hw px. unfold toy_blit. destruct (blit_written_texture b) as [dst|]; [|done].
    specialize (Hw dst eq_refl). by rewrite (proj2 (Z.eqb_neq _ _) Hw).
  - intros b m s Hw Hp px. unfold toy_blit. destruct (blit_written_texture b) as [dst|]; [|done].
    rewrite Hw, Hp. cbn. by rewrite andb_false_r.
  - done.
Qed.

(** ** Deciding what the recorder guarantees *)

(** Texture 20 is multisampled: its companion is 120. *)
Definition toy_companion (t : Z) : Z := if (20 <=? t) && (t mod 100 =? 20) then t + 100 else t.

(** Texture 3 has a stencil plane. *)
Definition toy_planes (t : Z) : bool := t =? 3.

Definition toy_owns (t : Z) : bool := negb (t mod 100 =? 20) || (t =? 20).

Lemma toy_companion_inj t u : toy_companion t = toy_companion u -> t = u.
Proof.
  unfold toy_companion. destruct (20 <=? t) eqn:E1, (t mod 100 =? 20) eqn:E2, (20 <=? u) eqn:E3, (u mod 100 =? 20) eqn:E4; cbn;
    Z.to_euclidean_division_equations; lia.
Qed.

Lemma toy_owns_spec t : toy_owns t = true -> no_companion toy_companion t.
Proof.
  unfold toy_owns, no_companion, toy_companion. intros H u.
  destruct (20 <=? u) eqn:E1, (u mod 100 =? 20) eqn:E2; cbn; [|done..].
  intros <-. exfalso. Z.to_euclidean_division_equations; lia.
Qed.

Section Check.
Context (seen sampled : gset Z).

Definition check_slot (a : PassColorAttachment) : bool :=
  negb (is_bound a)
  || ((s_texture (color_surface a) =? toy_companion (texture a)) && toy_owns (texture a)
      && bool_decide (size a = (64, 64))).

Definition check_resolve (a : PassColorAttachment) : bool :=
  (resolve_texture a =? 0) || (is_bound a && negb (msaa_texture a =? 0) && (resolve_texture a =? texture a)).

Definition check_sample (c : Command) : bool :=
  match command_sampled_texture c with
  | Some tex => bool_decide (tex ∈ sampled) && bool_decide (tex ∈ seen) && toy_owns tex
  | None => true
  end.

Definition check_blit (b : BlitCommand) : bool :=
  match blit_read_texture b with Some tex => bool_decide (tex ∈ seen) && toy_owns tex | None => true end
  && match blit_written_texture b with Some tex => toy_owns tex | None => true end.

Definition check_pass (p : Pass) : bool :=
  bool_decide (NoDup (omap (attached p) (slots p)))
  && forallb (λ i, match attached p (SlotColor i) with Some _ => covers p (SlotColor i) | None => true end)
       (seq 0 (length (color_slots p)))
  && (length (extra_color p) =? 3)%nat
  && forallb check_slot (color_slots p)
  && ((depth_texture p =? 0) || (toy_owns (depth_texture p) && bool_decide (has_stencil p = toy_planes (depth_texture p))
      && bool_decide (depth_size p = (64, 64))))
  && extent_covers (u64_max, u64_max) (depth_size p)
  && forallb check_sample (commands p) && forallb check_blit (leading_blits p) && forallb check_resolve (color_slots p).

Lemma no_views_storage t : storage no_views t = t.
Proof. unfold storage, no_views. by rewrite lookup_empty. Qed.

(** No draw of the small GPU looks at depth or stencil. *)
Lemma toy_draws_other p m t sl px : sl <> SlotColor 0 -> draws p m t sl px = t sl px.
Proof.
  intros Hsl. unfold draws. generalize (@fresh). revert t. induction (commands p) as [|c cs IH]; intros t e; [done|].
  unfold run_commands, exec. cbn [foldl fst snd]. destruct (is_draw c); [|apply IH].
  etransitivity; [apply IH|]. cbn [draw toy_gpu]. unfold toy_draw. by destruct sl as [[|i]| | |].
Qed.

Lemma toy_carries (dead : Slot -> Prop) cs e m (t1 t2 : Tile Z) :
  ~ dead (SlotColor 0) -> tile_le dead t1 t2 ->
  tile_le dead (run_commands (mkTargetViews [] None (0, 0)) m cs (e, t1)).2 (run_commands (mkTargetViews [] None (0, 0)) m cs (e, t2)).2.
Proof.
  intros Hd. revert t1 t2 e. induction cs as [|c cs IH]; intros t1 t2 e Ht; [done|].
  unfold run_commands, exec. cbn [foldl fst snd]. destruct (is_draw c); [|by apply IH]. apply IH.
  intros sl Hsl px v. pose proof (Ht sl Hsl px v) as Hk. cbn [draw toy_gpu]. unfold toy_draw.
  destruct sl as [[|i]| | |]; [|exact Hk..]. destruct (pipeline e) as [pso|]; [|exact Hk].
  destruct (toy_sample m e px) as [x|]; [|done]. cbn. destruct (toy_opaque pso); [done|].
  destruct (t1 (SlotColor 0) px) as [y|] eqn:Ey; [|done]. by rewrite (Ht _ Hd px y Ey).
Qed.

Lemma toy_depth_unused p : depth_unused p.
Proof.
  split.
  - intros m t1 t2. apply (toy_carries depth_planes (commands p) fresh m t1 t2). intros [?|?]; done.
  - intros m t sl px [->| ->]; by apply toy_draws_other.
Qed.

Lemma check_pass_wf p :
  check_pass p = true -> (FIRST_DRAW_COVERS (color_flags p) = true -> carries first_slot nowhere p) ->
  pass_wf (views := no_views) toy_companion toy_planes seen sampled p.
Proof.
  unfold check_pass. rewrite !andb_true_iff, !forallb_forall, bool_decide_eq_true.
  intros ((((((((H1 & H2) & H3) & H4) & H5) & H6) & H7) & H8) & H9) Hc.
  setoid_rewrite <- list_elem_of_In in H4. setoid_rewrite <- list_elem_of_In in H7.
  setoid_rewrite <- list_elem_of_In in H8. setoid_rewrite <- list_elem_of_In in H9.
  assert (forall t, storage no_views t = t) as Hst by apply no_views_storage.
  split; [| | | | | | | |intros c tex Hin Ht|intros b tex Hin Ht|intros b tex Hin Ht| | | | | |].
  - intros sl1 sl2 s Ha1 Ha2. pose proof (attached_slots p sl1 s Ha1) as I1. pose proof (attached_slots p sl2 s Ha2) as I2.
    revert H1 I1 I2. generalize (slots p). intros l. induction l as [|sl l IH]; intros Hnd I1 I2; [by apply elem_of_nil in I1|].
    cbn in Hnd. apply elem_of_cons in I1 as [->|I1], I2 as [->|I2]; [done| | |].
    + rewrite Ha1 in Hnd. apply NoDup_cons in Hnd as [Hn _]. exfalso. apply Hn, list_elem_of_omap. by exists sl2.
    + rewrite Ha2 in Hnd. apply NoDup_cons in Hnd as [Hn _]. exfalso. apply Hn, list_elem_of_omap. by exists sl1.
    + apply IH; [|done..]. destruct (attached p sl); [by apply NoDup_cons in Hnd as [_ ?]|done].
  - intros i s Ha. specialize (H2 i). rewrite Ha in H2. apply H2, in_seq. cbn in Ha.
    destruct (color_slots p !! i) eqn:E; [|done]. apply lookup_lt_Some in E. lia.
  - by apply Nat.eqb_eq.
  - intros a Ha Hb. specialize (H4 a Ha). unfold check_slot in H4. rewrite Hb in H4. cbn [negb orb] in H4. rewrite !andb_true_iff in H4. destruct H4 as [[H4 _] _]. by apply Z.eqb_eq.
  - intros a Ha Hb. specialize (H4 a Ha). unfold check_slot in H4. rewrite Hb in H4. cbn [negb orb] in H4. rewrite !andb_true_iff in H4. destruct H4 as [[_ H4] _].
    split; [apply Hst|by apply toy_owns_spec].
  - intros Hn. rewrite (proj2 (Z.eqb_neq _ _) Hn) in H5. cbn [orb] in H5. rewrite !andb_true_iff in H5. destruct H5 as [[H5 _] _].
    split; [apply Hst|by apply toy_owns_spec].
  - intros Hn. rewrite (proj2 (Z.eqb_neq _ _) Hn) in H5. cbn [orb] in H5. rewrite !andb_true_iff in H5. destruct H5 as [[_ H5] _]. by apply bool_decide_eq_true in H5.
  - done.
  - specialize (H7 c Hin). unfold check_sample in H7. rewrite Ht, !andb_true_iff, !bool_decide_eq_true in H7. rewrite !Hst.
    destruct H7 as [[??]?]. repeat split; [done..|by apply toy_owns_spec].
  - specialize (H8 b Hin). unfold check_blit in H8. rewrite Ht, !andb_true_iff, bool_decide_eq_true in H8. rewrite !Hst.
    destruct H8 as [[??]_]. split; [done|by apply toy_owns_spec].
  - specialize (H8 b Hin). unfold check_blit in H8. rewrite Ht in H8. apply andb_true_iff in H8 as [_ H8]. rewrite !Hst.
    split; [done|by apply toy_owns_spec].
  - intros a Ha Hr. specialize (H9 a Ha). unfold check_resolve in H9. rewrite (proj2 (Z.eqb_neq _ _) Hr) in H9. cbn in H9.
    rewrite !andb_true_iff, negb_true_iff, Z.eqb_neq, Z.eqb_eq in H9. rewrite Hst. by destruct H9 as [[??]?].
  - intros _. apply toy_depth_unused.
  - done.
  - intros _ m t px. by apply toy_draws_other.
  - intros a Ha Hb. specialize (H4 a Ha). unfold check_slot in H4. rewrite Hb in H4. cbn [negb orb] in H4. rewrite !andb_true_iff in H4.
    destruct H4 as [_ H4]. by apply bool_decide_eq_true in H4.
  - intros Hn. rewrite (proj2 (Z.eqb_neq _ _) Hn) in H5. cbn [orb] in H5. rewrite !andb_true_iff in H5.
    destruct H5 as [_ H5]. by apply bool_decide_eq_true in H5.
Qed.
End Check.

(** A recorded frame on the small GPU of [PassToy], in which each rule of the
    pipeline finds work, and the decision of what the recorder guarantees of
    it.  The theorems on the pipeline are witnessed on this frame. *)

(** ** Deciding the guarantees on lists *)

Definition check_pair (p q : Pass) : bool :=
  ((depth_texture p =? 0) || negb (depth_texture q =? depth_texture p)
   || (negb (depth_discards (depth_load q)) && negb (stencil_discards (stencil_load q))))
  && forallb (λ ab, negb (texture ab.1 =? texture ab.2) || (attachment_texture ab.1 =? attachment_texture ab.2))
       (zip (color_slots p) (color_slots q)).

Fixpoint check_pairs (ps : list Pass) : bool :=
  match ps with [] => true | p :: rest => forallb (check_pair p) rest && check_pairs rest end.

Fixpoint check_chain (prev : option Pass) (ps : list Pass) : bool :=
  match ps with
  | [] => true
  | p :: rest =>
      (negb (clear_only p) || negb (clears_depth_past_its_area p)
       || match prev with Some pr => repeats_depth_clear_of p pr | None => false end)
      && check_chain (Some p) rest
  end.

Fixpoint check_bound (e : Encoder) (cs : list Command) : bool :=
  match cs with
  | [] => true
  | c :: cs' => (negb (is_draw c) || bool_decide (is_Some (e (FragmentTextureAt 0)))) && check_bound (step_encoder e c) cs'
  end.

Definition check_drops (p : Pass) : bool := negb (clear_only p) || forallb (λ a, resolve_texture a =? 0) (color_slots p).

Definition check_resolvable (p : Pass) : bool :=
  forallb (λ a, (msaa_texture a =? 0) || (is_bound a && (resolve_view a =? texture a))) (color_slots p).

Definition check_noted (written : gset Z) (p : Pass) : bool :=
  forallb (λ b, negb (blit_writes_stencil b)
                || match blit_written_texture b with Some t => bool_decide (t ∈ written) | None => true end) (leading_blits p).

Lemma check_pair_spec p q : check_pair p q = true -> fold_pair p q.
Proof.
  unfold check_pair. rewrite andb_true_iff, forallb_forall. intros [Hd Hc]. split.
  - intros Hn He. rewrite (proj2 (Z.eqb_neq _ _) Hn), He, Z.eqb_refl in Hd. cbn in Hd. apply andb_true_iff in Hd as [H1 H2].
    split; [by destruct (depth_load q)|by destruct (stencil_load q)].
  - intros i a b Ha Hb Ht. assert (In (a, b) (zip (color_slots p) (color_slots q))) as Hin.
    { apply list_elem_of_In, list_elem_of_lookup. exists i. by rewrite lookup_zip_with, Ha, Hb. }
    apply Hc in Hin. cbn in Hin. rewrite Ht, Z.eqb_refl in Hin. cbn in Hin. by apply Z.eqb_eq in Hin.
Qed.

Lemma check_pairs_spec ps : check_pairs ps = true -> ForallOrdPairs fold_pair ps.
Proof.
  induction ps as [|p ps IH]; [constructor|]. cbn. rewrite andb_true_iff, forallb_forall. intros [H1 H2].
  constructor; [|by apply IH]. apply Forall_forall. intros q Hq. apply check_pair_spec, H1. by apply list_elem_of_In.
Qed.

Lemma check_chain_spec prev ps : check_chain prev ps = true -> chain prev ps.
Proof.
  revert prev. induction ps as [|p ps IH]; intros prev; [done|]. cbn. rewrite andb_true_iff. intros [H1 H2].
  split; [|by apply IH]. intros Hc Hp. rewrite Hc, Hp in H1. cbn in H1. destruct prev as [pr|]; [|done]. by exists pr.
Qed.

Lemma check_bound_spec e cs : check_bound e cs = true -> draws_bound e cs.
Proof.
  revert e. induction cs as [|c cs IH]; intros e; [done|]. cbn [check_bound]. rewrite andb_true_iff. intros [H1 H2].
  split; [|by apply IH]. intros Hd sl _ Hsl. apply bool_decide_eq_true in Hsl as ->. rewrite Hd in H1. by apply bool_decide_eq_true in H1.
Qed.

Lemma check_forall {A} (P : A -> Prop) (f : A -> bool) l :
  (forall x, f x = true -> P x) -> forallb f l = true -> Forall P l.
Proof. intros H. rewrite forallb_forall. intros Hf. apply Forall_forall. intros x Hx. apply H, Hf. by apply list_elem_of_In. Qed.

Lemma check_drops_spec p : check_drops p = true -> drops_no_resolve p.
Proof.
  unfold check_drops. intros H Hc a Ha. rewrite Hc in H. cbn [negb orb] in H. rewrite forallb_forall in H. apply Z.eqb_eq, H. by apply list_elem_of_In.
Qed.

Lemma check_resolvable_spec p : check_resolvable p = true -> @resolvable no_views p.
Proof.
  unfold check_resolvable. rewrite forallb_forall. intros H a Ha Hm. apply list_elem_of_In in Ha. apply H in Ha.
  rewrite (proj2 (Z.eqb_neq _ _) Hm) in Ha. cbn in Ha. apply andb_true_iff in Ha as [H1 H2]. split; [done|].
  rewrite no_views_storage. by apply Z.eqb_eq.
Qed.

Lemma check_noted_spec written p : check_noted written p = true -> blits_noted written p.
Proof.
  unfold check_noted. rewrite forallb_forall. intros H b tex Hb Hs Ht. apply list_elem_of_In in Hb. apply H in Hb.
  rewrite Hs, Ht in Hb. by apply bool_decide_eq_true in Hb.
Qed.

(** ** The frame *)

Definition demo_color (t m : Z) (l : ColorLoad) : PassColorAttachment := mkColor t 0 m 0 0 0 (64, 64) 80 l Store.
Definition demo_depth (dl : DepthLoad) (sl : StencilLoad) : PassDepth :=
  mkDepth 3 0 (64, 64) dl sl Store Store (Z.lor HAS_STENCIL USED).
Definition demo_no_depth : PassDepth := mkDepth 0 0 (0, 0) DDontCare SDontCare DontCare DontCare 0.

Definition demo_pass (c : PassColorAttachment) (d : PassDepth) (cs : list Command) (bs : list BlitCommand) (covers : bool) : Pass :=
  mkPass c [color_none; color_none; color_none] d (0, 0, 64, 64) cs bs false 900 (mkColorFlags true covers) [].

Definition demo_pso (n : Z) : Command := mkCommand 1 0 n 0 0.
Definition demo_opaque (n : Z) : Command := mkCommand 1 0 n 0 1.
Definition demo_bind (t : Z) : Command := mkCommand 7 0 t 0 0.
Definition demo_null : Command := mkCommand 20 0 0 0 0.
Definition demo_draw : Command := mkCommand 4 0 0 3 1.
(** A copy of all of texture [src] onto texture [dst]. *)
Definition demo_copy (src dst : Z) : BlitCommand := mkBlit 2 0 src dst 0 0 0 0 64 64 0 0 1 0 0 0 0.

(** Textures: 1 and 2 are colour targets, 3 a depth-stencil, 20 is multisampled
    with companion 120. *)
Definition demo_clear : Pass := demo_pass (demo_color 1 0 (CClear 5 0 0 0)) (demo_depth (DClear 9) (SClear 0)) [] [] false.
Definition demo_first : Pass :=
  demo_pass (demo_color 1 0 CLoad) (demo_depth DLoad SLoad) [demo_pso 7; demo_null; set_blend_color 4 0 0 0; demo_draw] [] false.
Definition demo_second : Pass :=
  demo_pass (demo_color 1 0 CLoad) (demo_depth DLoad SLoad) [demo_pso 8; demo_null; demo_draw] [] false.
Definition demo_overwritten : Pass := demo_pass (demo_color 2 0 (CClear 1 0 0 0)) demo_no_depth [] [] false.
Definition demo_samples : Pass :=
  demo_pass (demo_color 20 120 (CClear 3 0 0 0)) demo_no_depth [demo_pso 9; demo_bind 2; demo_draw] [demo_copy 1 2] false.
Definition demo_more_samples : Pass :=
  demo_pass (demo_color 20 120 CLoad) demo_no_depth [demo_pso 10; demo_null; demo_draw] [] false.
Definition demo_covered : Pass :=
  demo_pass (demo_color 2 0 CLoad) demo_no_depth [demo_opaque 11; demo_null; demo_draw] [] true.

Definition demo_passes : list Pass :=
  [demo_clear; demo_first; demo_second; demo_overwritten; demo_samples; demo_more_samples; demo_covered].

Definition demo_state : PassState := mkPassState demo_passes 0 {[1; 2]} {[2]} {[2]} no_views 1 true.

(** Every texture holds its own handle at first, a stencil plane nothing. *)
Definition demo_memory : Mem Z := λ s _, match s_plane s with StencilPlane => None | _ => Some (s_texture s) end.

  Abbreviation demo_wf := (pass_wf (views := no_views) toy_companion toy_planes {[1; 2]} {[2]}).
  Abbreviation demo_foldable := (foldable (views := no_views) toy_companion toy_planes {[1; 2]} {[2]}).

Lemma demo_covers : carries first_slot nowhere demo_covered.
Proof.
  intros m t1 t2 Ht sl _ px v. destruct (decide (sl = SlotColor 0)) as [->|Hn].
  - by unfold draws, run_commands; cbn.
  - rewrite !(toy_draws_other demo_covered) by done. by apply Ht.
Qed.

Lemma demo_all_wf : Forall demo_wf demo_passes.
Proof.
  unfold demo_passes. repeat (apply Forall_cons; split; [apply check_pass_wf; [by vm_compute|try done; intros _; apply demo_covers]|]).
  apply Forall_nil_2.
Qed.

Lemma demo_all_foldable : demo_foldable None demo_passes.
Proof.
  split; [apply demo_all_wf|by apply check_pairs_spec; vm_compute| |by apply check_chain_spec; vm_compute].
  by apply (check_forall _ check_drops _ check_drops_spec).
Qed.

Lemma demo_recorded : recorded demo_state toy_companion toy_planes demo_memory.
Proof.
  split.
  - apply demo_all_foldable.
  - by apply (check_forall _ (λ p, check_bound fresh (commands p)) _ (λ p, check_bound_spec fresh (commands p))).
  - by apply (check_forall _ check_resolvable _ check_resolvable_spec).
  - by apply (check_forall _ (check_noted {[2]}) _ (check_noted_spec {[2]})).
  - intros s px [Hp _]. unfold demo_memory. by rewrite Hp.
Qed.

Definition texel_after (ps : list Pass) (s : Surface) : option Z := run_passes no_views ps demo_memory s (0, 0).

(** ** Other lists *)

(** A multisampled target drawn, its depth cleared in a pass of its own that
    [note_msaa_read] then puts a resolve on, and a copy out of the target. *)
Definition bug_drawn : Pass :=
  demo_pass (demo_color 20 120 (CClear 3 0 0 0)) (demo_depth (DClear 9) (SClear 0)) [demo_pso 9; demo_null; demo_draw] [] false.
Definition bug_depth_clear : Pass := demo_pass (demo_color 20 120 CLoad) (demo_depth (DClear 7) SLoad) [] [] false.
Definition bug_copied : Pass :=
  demo_pass (demo_color 20 120 CLoad) (demo_depth DLoad SLoad) [demo_pso 10; demo_null; demo_draw] [demo_copy 20 2] false.
Definition bug_state : PassState := mkPassState [bug_drawn; bug_depth_clear] 0 {[20]} ∅ {[2]} no_views 1 true.

Definition bug_passes : list Pass := passes (note_msaa_read 20 bug_state) ++ [bug_copied].

(** Render target 1 cleared through one view and drawn through another. *)
Definition bug_extras (c : PassColorAttachment) (p : Pass) : Pass := with_colors p (color p) [c; color_none; color_none].
Definition bug_target (srgb : Z) (l : ColorLoad) : PassColorAttachment := mkColor 2 srgb 0 0 0 0 (64, 64) 80 l Store.

Definition bug_views : list Pass :=
  [bug_extras (bug_target 0 (CClear 5 0 0 0)) (demo_pass (demo_color 1 0 (CClear 5 0 0 0)) demo_no_depth [] [] false);
   bug_extras (bug_target 1002 CLoad) (demo_pass (demo_color 1 0 CLoad) demo_no_depth [demo_pso 7; demo_null; demo_draw] [] false)].

(** A target drawn, then cleared by the next pass on it, depth and all. *)
Definition demo_recleared : Pass :=
  demo_pass (demo_color 1 0 (CClear 6 0 0 0)) (demo_depth (DClear 2) (SClear 1)) [demo_pso 12; demo_null; demo_draw] [] false.

Definition demo_stores : PassState := mkPassState [demo_clear; demo_second; demo_recleared] 0 ∅ ∅ ∅ no_views 1 true.

(** Two passes on one target that Rule J joins. *)
Definition demo_adjacent : PassState := mkPassState [demo_clear; demo_first; demo_second] 0 ∅ ∅ ∅ no_views 1 true.

(** Two passes on a multisampled back buffer. *)
Definition demo_multisampled : PassState :=
  mkPassState [demo_samples; demo_more_samples] 0 ∅ ∅ ∅ no_views 20 true.

Lemma demo_last_use : last_use (passes demo_multisampled) 1 0 (color demo_more_samples).
Proof.
  split; [done|]. split; [done|]. intros [|[|i]] j b Hb _ _; [by left; lia| |done].
  right. split; [done|lia].
Qed.

Lemma demo_more_samples_wf : demo_wf demo_more_samples.
Proof. pose proof demo_all_wf as H. rewrite Forall_forall in H. apply H. unfold demo_passes. set_solver. Qed.

(** A pass whose draws write depth only, with two clear-quad blocks. *)
Definition demo_depth_only : Pass :=
  mkPass (set_store (demo_color 1 0 CLoad) DontCare) [color_none; color_none; color_none] (demo_depth DLoad SLoad) (0, 0, 64, 64)
    [demo_pso 7; demo_null; demo_opaque 30; demo_draw; demo_pso 8; demo_draw; demo_opaque 30; demo_draw] [] false 900
    (mkColorFlags false false) [(2%nat, 4%nat); (6%nat, 8%nat)].
