(* ===== verification/PassSound.v ===== *)
(** What the rules on the pass list promise: the texture memory a submission
    leaves is the one the recorded passes would have left, texel by texel
    wherever those define one. *)

From S2P Require Import Prelude PassCommands PassData PassRules PassMerge PassGpu PassFacts.
From S2P Require Import PassClearOnly PassColorStores PassDepthStores PassFrameEnd PassOverwritten PassFold.
From S2P Require Import PassCoalesce PassJoin PassRecorded.
From S2P Require Import PassResolves PassPipeline PassToy PassColorStores.

Lemma strips_nothing alt ps :
  forallb (λ p, negb (strips_color alt p)) ps = true -> strip_color_from_no_color_draw_passes alt ps = Some ps.
Proof.
  unfold strip_color_from_no_color_draw_passes. induction ps as [|p ps IH]; [done|]. cbn [forallb mapM].
  intros [Hp H]%andb_true_iff. apply negb_true_iff in Hp.
  assert (strip_color alt p = Some p) as -> by (unfold strip_color; by rewrite Hp). cbn. by rewrite (IH H).
Qed.

(** C2: the pipeline of [apply_pass_rules] on a submission in which Rule H strips
    no pass and whose list is [recorded], which takes two guarantees Rule E needs
    and the recorder does not give (C38, C39): no clear-only pass carries a
    resolve, and a target is always written through one view.  The rules up to
    the multisample resolves leave every texel the recorded passes define as it
    was; at the end of a frame this excepts the depth and stencil planes in
    [lost_planes], those of the depth textures the submission attaches and never
    samples, which Rule B discards although D3D9 keeps them across [Present]: a
    divergence the code keeps.  Then the resolves are assigned; and the rules
    after that, G, F, J and K, again leave every texel as it was. *)
Theorem apply_pass_rules_keeps_texels {T} (s s' : PassState) `{L : GpuLaws T (texture_view_to_base s)} (companion : Z -> Z)
    (planes : Z -> bool) (m m' : Mem T) (alt : gmap Z Z) (frame_continues : bool) :
  (forall t u, companion t = companion u -> t = u) -> recorded s companion planes m ->
  forallb (λ p, negb (strips_color alt p)) (strip_dead_color <$> resolved_passes s frame_continues) = true ->
  apply_pass_rules alt frame_continues s = Some s' ->
  let views := texture_view_to_base s in
  mem_le (if frame_continues then nowhere else lost_planes (seen_sampled_textures s) (opened_passes s (passes s)))
    (run_passes views (passes s) m) (run_passes views (unresolved_passes s frame_continues) m)
  /\ mem_le nowhere (run_passes views (resolved_passes s frame_continues) m') (run_passes views (passes s') m').
Proof.
  intros Hinj Hrec Hstrip Happly views. split; [by apply (recorded_rules_le s companion planes Hinj)|].
  pose proof (apply_pass_rules_eq s alt frame_continues) as He.
  rewrite Happly, (strips_nothing _ _ Hstrip) in He. cbn in He. injection He as ->.
  by apply (placed_rules_le s companion planes Hinj frame_continues m).
Qed.

Lemma apply_pass_rules_keeps_texels_witness :
  exists s', apply_pass_rules ∅ false demo_state = Some s' /\ length (passes s') = 3%nat
  /\ forall px v, run_passes no_views (passes demo_state) demo_memory (surface 1 0 ColorPlane) px = Some v ->
       run_passes no_views (unresolved_passes demo_state false) demo_memory (surface 1 0 ColorPlane) px = Some v.
Proof.
  destruct (apply_pass_rules ∅ false demo_state) as [s'|] eqn:E; [|exfalso; vm_compute in E; discriminate E].
  exists s'. split; [reflexivity|]. split; [vm_compute in E; injection E as <-; reflexivity|].
  destruct (apply_pass_rules_keeps_texels (L := toy_laws) demo_state s' toy_companion toy_planes demo_memory demo_memory ∅ false
              toy_companion_inj demo_recorded ltac:(vm_compute; reflexivity) E) as [H _].
  intros px v. apply H. intros [[H1|H1] _]; discriminate H1.
Defined.

(** C8: Rule E, [coalesce_clear_only_passes], may move a clear into the load
    actions of a later pass and drop the pass that held it without losing a
    texel, whatever lies between, for a list in which no clear-only pass carries
    a multisample resolve and a target is always written through one view. *)
Theorem coalesce_keeps_texels {T} {views} `{L : GpuLaws T views} (companion : Z -> Z) (planes : Z -> bool) (seen sampled : gset Z)
    (ps : list Pass) (m : Mem T) :
  (forall t u, companion t = companion u -> t = u) -> foldable (views := views) companion planes seen sampled None ps ->
  mem_le nowhere (run_passes views ps m) (run_passes views (coalesce_clear_only_passes views sampled ps) m).
Proof.
  intros Hinj Hfo. apply (coalesce_le companion planes seen sampled Hinj _ None); [done|apply after_none].
Qed.

Lemma coalesce_keeps_texels_witness :
  length (coalesce_clear_only_passes no_views {[2]} demo_passes) = 6%nat
  /\ mem_le nowhere (run_passes no_views demo_passes demo_memory)
       (run_passes no_views (coalesce_clear_only_passes no_views {[2]} demo_passes) demo_memory).
Proof.
  split; [vm_compute; reflexivity|].
  apply (coalesce_keeps_texels (L := toy_laws) toy_companion toy_planes {[1; 2]} {[2]}); [apply toy_companion_inj|apply demo_all_foldable].
Defined.

(** C38: Rule E loses a multisample resolve: the hypothesis of
    [coalesce_keeps_texels] on resolves is needed.  A multisampled target is
    drawn, its depth cleared, and [note_msaa_read] puts the resolve a
    [StretchRect] asks for on the clear-only pass; the copy runs ahead of the
    next pass, which loads the depth.  The rule folds the depth clear and drops
    the pass with its resolve, so the copy reads what the target held before. *)
Theorem coalesce_loses_resolve :
  Forall (pass_wf (views := no_views) toy_companion toy_planes {[20]} ∅) bug_passes
  /\ ForallOrdPairs fold_pair bug_passes /\ chain None bug_passes
  /\ texel_after bug_passes (surface 2 0 ColorPlane) = Some 12
  /\ texel_after (coalesce_clear_only_passes no_views ∅ bug_passes) (surface 2 0 ColorPlane) = Some 20.
Proof.
  split; [|split; [by apply check_pairs_spec; vm_compute|split; [by apply check_chain_spec; vm_compute|split; by vm_compute]]].
  unfold bug_passes. set (ps := passes _). vm_compute in ps. subst ps.
  repeat (apply Forall_cons; split; [apply check_pass_wf; [by vm_compute|done]|]). apply Forall_nil_2.
Qed.

(** C39: Rule E folds a clear into a pass that writes it through another view:
    the hypothesis of [coalesce_keeps_texels] on views is needed.  Render target
    1 is cleared with sRGB writes off and drawn with them on; render target 0
    has no sRGB twin, and the rule compares only its view.  The clear then goes
    through the sRGB view and is stored encoded. *)
Theorem coalesce_encodes_clear :
  Forall (pass_wf (views := no_views) toy_companion toy_planes ∅ ∅) bug_views
  /\ Forall drops_no_resolve bug_views /\ chain None bug_views
  /\ texel_after bug_views (surface 2 0 ColorPlane) = Some 5
  /\ texel_after (coalesce_clear_only_passes no_views ∅ bug_views) (surface 2 0 ColorPlane) = Some 11.
Proof.
  split; [|split; [by apply (check_forall _ check_drops _ check_drops_spec)|
    split; [by apply check_chain_spec; vm_compute|split; by vm_compute]]].
  unfold bug_views. repeat (apply Forall_cons; split; [apply check_pass_wf; [by vm_compute|done]|]). apply Forall_nil_2.
Qed.

(** C23: Rule I, [drop_overwritten_clear_only_passes], may drop a clear-only pass
    when each target it clears is overwritten whole by a later copy before
    anything reads it. *)
Theorem drop_overwritten_keeps_texels {T} {views} `{L : GpuLaws T views} (companion : Z -> Z) (planes : Z -> bool)
    (seen sampled : gset Z) (ps : list Pass) (m : Mem T) :
  Forall (pass_wf (views := views) companion planes seen sampled) ps ->
  mem_le nowhere (run_passes views ps m) (run_passes views (drop_overwritten_clear_only_passes views sampled ps) m).
Proof. intros H. by apply (drop_overwritten_le companion planes seen sampled). Qed.

Lemma drop_overwritten_keeps_texels_witness :
  drop_overwritten_clear_only_passes no_views {[2]} demo_passes
  = [demo_clear; demo_first; demo_second; demo_samples; demo_more_samples; demo_covered]
  /\ mem_le nowhere (run_passes no_views demo_passes demo_memory)
       (run_passes no_views (drop_overwritten_clear_only_passes no_views {[2]} demo_passes) demo_memory).
Proof.
  split; [vm_compute; reflexivity|].
  apply (drop_overwritten_keeps_texels (L := toy_laws) toy_companion toy_planes {[1; 2]} {[2]}), demo_all_wf.
Defined.

(** C10: Rules B and C and the stencil and depth-load discards, the first half
    of [finalize_store_actions]: a store is discarded only where a later pass of
    the submission clears the texels before anything reads them, a load only
    where no draw looks at it and it is not stored, and a stencil plane only
    where nothing has written it.  At the end of a frame Rule B discards besides
    the depth and stencil planes in [lost_planes], those of the depth textures
    the submission attaches and never samples.  D3D9 keeps them across [Present]
    unless the game asks otherwise; the discard is a divergence the code keeps,
    and the theorem is that no other texel changes. *)
Theorem store_rules_keep_texels {T} (s : PassState) `{L : GpuLaws T (texture_view_to_base s)} (companion : Z -> Z)
    (planes : Z -> bool) (m : Mem T) (frame_continues : bool) :
  (forall t u, companion t = companion u -> t = u) ->
  Forall (pass_wf (views := texture_view_to_base s) companion planes (seen_sampled_textures s) (frame_sampled_textures s)) (passes s) ->
  Forall (blits_noted (stencil_written_textures s)) (passes s) -> blank (stencil_written_textures s) m ->
  mem_le (if frame_continues then nowhere else lost_planes (seen_sampled_textures s) (passes s))
    (run_passes (texture_view_to_base s) (passes s) m)
    (run_passes (texture_view_to_base s) (stored_passes frame_continues s) m).
Proof.
  intros Hinj W Hn Hb. pose proof (stored_le s companion planes Hinj frame_continues (passes s) m W Hn Hb) as H. exact H.
Qed.

Lemma store_rules_keep_texels_witness :
  ((λ p, (color_store p, depth_store p, stencil_store p)) <$> stored_passes true demo_stores)
  = [(Store, Store, Store); (DontCare, DontCare, DontCare); (Store, Store, Store)]
  /\ mem_le nowhere (run_passes no_views (passes demo_stores) demo_memory)
       (run_passes no_views (stored_passes true demo_stores) demo_memory).
Proof.
  split; [vm_compute; reflexivity|].
  apply (store_rules_keep_texels (L := toy_laws) demo_stores toy_companion toy_planes demo_memory true).
  - apply toy_companion_inj.
  - repeat (apply Forall_cons; split; [apply check_pass_wf; [vm_compute; reflexivity|intros; discriminate]|]). apply Forall_nil_2.
  - apply (check_forall _ (check_noted ∅) _ (check_noted_spec ∅)). vm_compute. reflexivity.
  - intros sf px [Hp _]. unfold demo_memory. rewrite Hp. reflexivity.
Defined.

(** C9: Rule J, [merge_adjacent_identical_passes]: passes joined onto the ones
    before them, under one encoder, leave the texels the separate passes leave,
    and the joined passes keep what the recorder guarantees, so that they join
    on. *)
Theorem merge_adjacent_keeps_texels {T} (s : PassState) `{L : GpuLaws T (texture_view_to_base s)} (companion : Z -> Z)
    (planes : Z -> bool) (m : Mem T) :
  (forall t u, companion t = companion u -> t = u) ->
  Forall (joinable (views := texture_view_to_base s) companion planes (seen_sampled_textures s) (frame_sampled_textures s)) (passes s) ->
  let s' := merge_adjacent_identical_passes s in
  mem_le nowhere (run_passes (texture_view_to_base s) (passes s) m) (run_passes (texture_view_to_base s) (passes s') m)
  /\ Forall (joinable (views := texture_view_to_base s) companion planes (seen_sampled_textures s) (frame_sampled_textures s)) (passes s').
Proof. intros Hinj H. destruct s. exact (merge_adjacent_le _ companion planes Hinj _ m H). Qed.

Lemma merge_adjacent_keeps_texels_witness :
  ((λ p, commands p) <$> passes (merge_adjacent_identical_passes demo_adjacent))
  = [[demo_pso 7; demo_null; set_blend_color 4 0 0 0; demo_draw; set_blend_color 0 0 0 0; demo_pso 8; demo_null; demo_draw]]
  /\ mem_le nowhere (run_passes no_views (passes demo_adjacent) demo_memory)
       (run_passes no_views (passes (merge_adjacent_identical_passes demo_adjacent)) demo_memory).
Proof.
  split; [vm_compute; reflexivity|].
  apply (merge_adjacent_keeps_texels (L := toy_laws) demo_adjacent toy_companion toy_planes demo_memory); [apply toy_companion_inj|].
  repeat (apply Forall_cons; split;
    [split; [apply check_pass_wf; [vm_compute; reflexivity|intros; discriminate]|apply check_bound_spec; vm_compute; reflexivity]|]).
  apply Forall_nil_2.
Defined.

(** C24: the commands Rule J puts between two passes.  At every draw of the
    second pass, all the states of the encoder that a draw reads are, after the
    first pass and the join, what they are on the fresh encoder of a pass of
    its own: pipeline, viewport, depth-stencil state, cull mode, scissor, fill
    mode, depth bias, stencil reference, blend colour and visibility mode, with
    the values Metal documents of a fresh encoder where the pass sets none. *)
Theorem join_restores_states (views : Views) (sampled : gset Z) (prev next : Pass) (join : list Command) (n : nat) (c : Command) :
  merge_join views sampled prev next = Some join -> commands next !! n = Some c -> is_draw c = true ->
  encoder_state (encoder_after (commands prev ++ join ++ take n (commands next)) fresh)
  = encoder_state (encoder_after (take n (commands next)) fresh).
Proof.
  intros Hr Hn Hd. destruct (first_draw_before _ _ _ Hn Hd) as (i & Hi & Hle).
  unfold merge_join in Hr. destruct (_ || _ || _ || _ || _); [done|]. destruct (existsb _ (_ :: _)); [done|].
  rewrite Hi in Hr. rewrite app_assoc, encoder_after_app. apply states_agree. intros k Hk. rewrite !(encoder_after_state k) by done.
  assert (E : last_setting k (take n (commands next)) = None -> last_setting k (take i (commands next)) = None).
  { intros E. destruct (last_setting k (take i _)) as [x|] eqn:Ex; [|done]. apply last_setting_Some in Ex as [Hx Hc].
    exfalso. apply (last_setting_None k _ x E); [|done]. replace i with (i `min` n)%nat in Hx by lia. rewrite <- take_take in Hx.
    by eapply elem_of_sublist; [|apply sublist_take]. }
  destruct (last_setting k (take n (commands next))) eqn:En; [done|]. rewrite <- encoder_after_state by done.
  rewrite (restored_fresh (commands prev) _ join k Hr Hk (E eq_refl)). done.
Qed.

(** The second pass draws without setting a blend colour the first pass set. *)
Lemma join_restores_states_witness :
  merge_join no_views ∅ demo_first demo_second = Some [set_blend_color 0 0 0 0]
  /\ encoder_state (encoder_after (commands demo_first ++ [set_blend_color 0 0 0 0] ++ take 2 (commands demo_second)) fresh)
     = encoder_state (encoder_after (take 2 (commands demo_second)) fresh)
  /\ encoder_state (encoder_after (commands demo_first ++ take 2 (commands demo_second)) fresh)
     <> encoder_state (encoder_after (take 2 (commands demo_second)) fresh).
Proof.
  split; [vm_compute; reflexivity|]. split; [|vm_compute; discriminate].
  apply (join_restores_states no_views ∅ demo_first demo_second [set_blend_color 0 0 0 0] 2
           (default (set_blend_color 0 0 0 0) (commands demo_second !! 2%nat))); vm_compute; reflexivity.
Defined.

(** C27: [assign_multisample_resolves] places the resolves of a submission.  Each
    multisampled target a pass binds has exactly one last use: the slot no later
    pass and no earlier slot of its pass binds it after.  That slot, and no other,
    is changed: it resolves through the view the pass writes, and its samples are
    stored as before, except that the samples of the back buffer are dropped
    when the submission presents it and its contents are left undefined.  The
    rest of every pass stays, resolves [note_msaa_read] placed included.  The
    pass of a last use leaves in the target's single-sample texture what its
    draws left in the slot, resolved, every texel of it. *)
Theorem resolves_on_last_use (presenting : bool) (s : PassState) {T} `{L : GpuLaws T (texture_view_to_base s)}
    (companion : Z -> Z) (planes : Z -> bool) (seen sampled : gset Z) :
  let ps := passes s in
  let ps' := passes (assign_multisample_resolves presenting s) in
  (forall i j a, slot_at ps i j = Some a -> multisampled a = true ->
     exists i' j' b, (target_key b = target_key a /\ last_use ps i' j' b)
     /\ forall i2 j2 c, target_key c = target_key a -> last_use ps i2 j2 c -> i2 = i' /\ j2 = j')
  /\ (forall i j a, slot_at ps i j = Some a -> exists b, slot_at ps' i j = Some b
     /\ (last_use ps i j a ->
          resolve_texture b = resolve_view a
          /\ (store b = DontCare /\ presenting = true /\ backbuffer_undefined s = true
                 /\ texture a = backbuffer_texture s /\ texture a <> 0
              \/ store b = store a /\ ~ (presenting = true /\ backbuffer_undefined s = true
                 /\ texture a = backbuffer_texture s /\ texture a <> 0))
          /\ set_store (set_resolve b (resolve_texture a)) (store a) = a)
     /\ (~ last_use ps i j a -> b = a))
  /\ Forall2 (λ p q, length (color_slots q) = length (color_slots p) /\ q = with_colors p (color q) (extra_color q)) ps ps'
  /\ (forall i j p q a, ps !! i = Some p -> ps' !! i = Some q -> last_use ps i j a ->
       pass_wf (views := texture_view_to_base s) companion planes seen sampled p -> resolvable (views := texture_view_to_base s) p ->
       forall (m : Mem T) px, let m1 := run_blits (leading_blits p) m in
       run_pass (texture_view_to_base s) q m (surface (texture a) (subresource a) ColorPlane) px
       = resolve (draws p m1 (open_tile p m1) (SlotColor j)) px).
Proof.
  intros ps ps'. set (discard := presenting && backbuffer_undefined s && negb (backbuffer_texture s =? 0)).
  change ps' with (assign_resolves discard (backbuffer_texture s) ps).1. split; [|split; [|split]].
  - intros i j a Ha Hm. destruct (last_use_exists ps i j a Ha Hm) as (i' & j' & b & Hk & Hl). exists i', j', b. split; [done|].
    intros i2 j2 c Hc Hl2. apply (last_use_unique ps i2 j2 c i' j' b); [congruence|done..].
  - intros i j a Ha. destruct (assign_resolves_slot discard (backbuffer_texture s) ps i j a Ha) as (b & Hb & Hyes & Hno). exists b. split; [exact Hb|].
    split; [|exact Hno]. intros Hl. rewrite (Hyes Hl). by apply resolved_slot_fields.
  - eapply Forall2_impl; [apply assigned_pairs|]. intros p q [Hq Hs]. split; [|done]. symmetry. by apply (Forall2_length _ _ _ Hs).
  - intros i j p q a Hp Hq Hl W R m px. by apply (last_use_resolved companion planes seen sampled discard (backbuffer_texture s) ps i j p q a m px).
Qed.

(** The second of two passes on a multisampled back buffer takes its resolve and,
    when presented, drops its samples. *)
Lemma resolves_on_last_use_witness :
  last_use (passes demo_multisampled) 1 0 (color demo_more_samples)
  /\ (exists b, slot_at (passes (assign_multisample_resolves true demo_multisampled)) 1 0 = Some b
       /\ resolve_texture b = 20 /\ store b = DontCare)
  /\ slot_at (passes (assign_multisample_resolves true demo_multisampled)) 0 0 = Some (color demo_samples)
  /\ exists q, passes (assign_multisample_resolves true demo_multisampled) !! 1%nat = Some q
       /\ run_pass no_views q demo_memory (surface 20 0 ColorPlane) (0, 0)
          = draws demo_more_samples demo_memory (open_tile demo_more_samples demo_memory) (SlotColor 0) (0, 0).
Proof.
  assert (last_use (passes demo_multisampled) 1 0 (color demo_more_samples)) as Hl by apply demo_last_use.
  destruct (resolves_on_last_use true demo_multisampled (L := toy_laws) toy_companion toy_planes {[1; 2]} {[2]})
    as (_ & Hslots & _ & Hrun). split; [exact Hl|]. split; [|split].
  - destruct (Hslots 1%nat 0%nat (color demo_more_samples) eq_refl) as (b & Hb & Hyes & _). exists b. split; [exact Hb|].
    destruct (Hyes Hl) as (Hr & [[Hd _]|[_ Hn]] & _); [by split|]. exfalso. by apply Hn.
  - destruct (Hslots 0%nat 0%nat (color demo_samples) eq_refl) as (b & Hb & _ & Hno). rewrite Hb, Hno; [done|].
    intros (_ & _ & H). specialize (H 1%nat 0%nat (color demo_more_samples) eq_refl eq_refl eq_refl). lia.
  - eexists. split; [reflexivity|].
    apply (Hrun 1%nat 0%nat demo_more_samples _ (color demo_more_samples) eq_refl eq_refl Hl).
    + apply demo_more_samples_wf.
    + by apply check_resolvable_spec.
Defined.

(** Rule H, [strip_color_from_no_color_draw_passes], on a pass it strips:
    draining the clear-quad blocks from the back never goes out of bounds and
    leaves exactly the commands outside them, in order, every pipeline replaced
    by its no-colour twin; no colour attachment stays bound. *)
Theorem strip_color_drains_blocks (alt : gmap Z Z) (p : Pass) :
  strips_color alt p = true -> blocks_from 0 (color_clear_quad_ranges p) (length (commands p)) ->
  exists q, strip_color alt p = Some q
  /\ commands q = to_no_color alt <$> outside (color_clear_quad_ranges p) 0 (commands p)
  /\ (forall c, c ∈ commands q -> sets_pipeline c = true -> exists k, alt !! k = Some (param_b c))
  /\ (forall a, a ∈ color_slots q -> is_bound a = false) /\ depth q = depth p /\ color_clear_quad_ranges q = [].
Proof.
  intros Hs Hb. eexists. split; [by apply strip_color_eq|]. split; [done|]. split; [|split; [|done]].
  - intros c Hc. by apply (stripped_pipelines alt p c Hs).
  - intros a Ha%list_elem_of_In. cbn in Ha. by destruct_or! Ha; subst a.
Qed.

Lemma strip_color_drains_blocks_witness :
  exists q, strip_color {[7 := 107; 8 := 108]} demo_depth_only = Some q
  /\ commands q = [demo_pso 107; demo_null; demo_pso 108; demo_draw].
Proof.
  destruct (strip_color_drains_blocks {[7 := 107; 8 := 108]} demo_depth_only) as (q & Hq & Hc & _).
  - vm_compute. reflexivity.
  - cbn. lia.
  - exists q. split; [exact Hq|]. rewrite Hc. vm_compute. reflexivity.
Defined.
