(* ===== verification/RecorderState.v ===== *)
(** What [PassState] of [passes.rs] keeps while a frame is recorded, and the
    questions it answers about it: the bound colour and depth targets, the sRGB
    choice, the pending clears and blits, the targets already seen this frame,
    the viewport.

    [PassRules.PassState], the part the load/store rules read, is the field
    [frame].  Render target 0 is held in the record of the extra targets: its
    [current_color_*] fields and the bit [COLOR_HAS_ALPHA] are the fields of an
    [ExtraColorSlot], as [SavedColorAttachments::slot] reads them.  The other
    bits of [CurrentAttachmentFlags] are booleans beside what they describe.  An
    [f32] is its bit pattern. *)

From S2P Require Import Prelude Mtl DirtyRange RenderScale PassCommands PassData PassRules PipelineState.

(** ** State *)

(** [ExtraColorSlot]. *)
Module ColorSlot.
Record t := mk {
  texture : Z; msaa_texture : Z; msaa_srgb_texture : Z; sample_count : Z; subresource : Z;
  size : Z * Z; logical_size : Z * Z; format : PixelFormat; scale : Z; has_alpha : bool }.

Definition NONE : t := mk 0 0 0 1 0 (0, 0) (0, 0) Bgra8Unorm RenderScale.IDENTITY false.

Definition is_bound (s : t) : bool := negb (texture s =? 0).

#[global] Instance eq_dec : EqDecision t.
Proof. solve_decision. Defined.

Definition with_alpha (s : t) (b : bool) : t :=
  mk (texture s) (msaa_texture s) (msaa_srgb_texture s) (sample_count s) (subresource s) (size s)
    (logical_size s) (format s) (scale s) b.
Definition with_msaa (s : t) (msaa msaa_srgb samples : Z) : t :=
  mk (texture s) msaa msaa_srgb samples (subresource s) (size s) (logical_size s) (format s) (scale s) (has_alpha s).
Definition with_scale (s : t) (logical : Z * Z) (scale_ : Z) : t :=
  mk (texture s) (msaa_texture s) (msaa_srgb_texture s) (sample_count s) (subresource s) (size s)
    logical (format s) scale_ (has_alpha s).
End ColorSlot.

(** The bound depth attachment and the bits [DEPTH_SAMPLEABLE],
    [DEPTH_HAS_STENCIL] and [DEPTH_UNSCALED]. *)
Module DepthTarget.
Record t := mk {
  texture : Z; level : Z; size : Z * Z; sample_count : Z;
  sampleable : bool; has_stencil : bool; unscaled : bool }.

Definition with_stencil (d : t) (b : bool) : t :=
  mk (texture d) (level d) (size d) (sample_count d) (sampleable d) b (unscaled d).
Definition with_samples (d : t) (n : Z) : t :=
  mk (texture d) (level d) (size d) n (sampleable d) (has_stencil d) (unscaled d).
Definition with_unscaled (d : t) (b : bool) : t :=
  mk (texture d) (level d) (size d) (sample_count d) (sampleable d) (has_stencil d) b.
End DepthTarget.

(** The sRGB write state: the render state, the choice for the next pass, the
    views resolved for the bound targets, and the map they come from. *)
Module SrgbWrite.
Record t := mk {
  enabled : bool; pass_write : bool; rt0_twin : Z; extra_twins : list Z; base_to_twin : gmap Z Z }.
End SrgbWrite.

Module Pending.
Record t := mk {
  color_clear : option (Z * Z * Z * Z); depth_clear : option Z; stencil_clear : option Z;
  leading_blits : list BlitCommand }.

Definition none : t := mk None None None [].
Definition with_color (p : t) (c : option (Z * Z * Z * Z)) : t := mk c (depth_clear p) (stencil_clear p) (leading_blits p).
Definition with_depth (p : t) (d : option Z) : t := mk (color_clear p) d (stencil_clear p) (leading_blits p).
Definition with_stencil (p : t) (s : option Z) : t := mk (color_clear p) (depth_clear p) s (leading_blits p).
Definition with_blits (p : t) (b : list BlitCommand) : t := mk (color_clear p) (depth_clear p) (stencil_clear p) b.

Definition depth_or_stencil (p : t) : bool := bool_decide (is_Some (depth_clear p)) || bool_decide (is_Some (stencil_clear p)).
Definition color (p : t) : bool := bool_decide (is_Some (color_clear p)).
End Pending.

Module Seen.
Record t := mk {
  color_rts : gset (Z * Z); depth_rts : gset Z; blit_written : gset Z; sampleable_depth : gset Z }.

Definition add_color (s : t) (k : Z * Z) : t := mk ({[k]} ∪ color_rts s) (depth_rts s) (blit_written s) (sampleable_depth s).
Definition add_depth (s : t) (d : Z) : t := mk (color_rts s) ({[d]} ∪ depth_rts s) (blit_written s) (sampleable_depth s).
Definition add_blit (s : t) (d : Z) : t := mk (color_rts s) (depth_rts s) ({[d]} ∪ blit_written s) (sampleable_depth s).
Definition add_sampleable (s : t) (d : Z) : t := mk (color_rts s) (depth_rts s) (blit_written s) ({[d]} ∪ sampleable_depth s).
End Seen.

Module Viewport.
Record t := mk {
  x : Z; y : Z; width : Z; height : Z; min_z : Z; max_z : Z;
  last_emitted : option (Z * Z * Z * Z * Z * Z) }.

Definition with_emitted (v : t) (e : option (Z * Z * Z * Z * Z * Z)) : t :=
  mk (x v) (y v) (width v) (height v) (min_z v) (max_z v) e.
End Viewport.

(** What the next pass attaches. *)
Record Bindings := mkBindings {
  rt0 : ColorSlot.t; extra_slots : list ColorSlot.t; extra_attachments : ExtraColorAttachments;
  ds : DepthTarget.t; rt0_dropped : bool; srgb : SrgbWrite.t }.

(** The scale of the frame, the byte ranges its draws read, the texture binds of
    its passes. *)
Module Books.
Record t := mk {
  render_scale : Z; backbuffer_logical_size : Z * Z; drawn_ranges : gmap Z DirtyRange.t;
  pass_reads : option (list (nat * Z)) }.

Definition with_ranges (b : t) (r : gmap Z DirtyRange.t) : t := mk (render_scale b) (backbuffer_logical_size b) r (pass_reads b).
Definition with_reads (b : t) (r : option (list (nat * Z))) : t := mk (render_scale b) (backbuffer_logical_size b) (drawn_ranges b) r.
End Books.

Record Recorder := mkRecorder {
  frame : PassState; current_pass_closed : bool; current_visibility : Z; bindings : Bindings;
  pending : Pending.t; seen : Seen.t; view : Viewport.t; books : Books.t }.

(** *** Setters *)

Definition set_rt0 (b : Bindings) (x : ColorSlot.t) : Bindings :=
  mkBindings x (extra_slots b) (extra_attachments b) (ds b) (rt0_dropped b) (srgb b).
Definition set_extra_slots (b : Bindings) (x : list ColorSlot.t) : Bindings :=
  mkBindings (rt0 b) x (extra_attachments b) (ds b) (rt0_dropped b) (srgb b).
Definition set_extra_attachments (b : Bindings) (x : ExtraColorAttachments) : Bindings :=
  mkBindings (rt0 b) (extra_slots b) x (ds b) (rt0_dropped b) (srgb b).
Definition set_ds (b : Bindings) (x : DepthTarget.t) : Bindings :=
  mkBindings (rt0 b) (extra_slots b) (extra_attachments b) x (rt0_dropped b) (srgb b).
Definition set_dropped (b : Bindings) (x : bool) : Bindings :=
  mkBindings (rt0 b) (extra_slots b) (extra_attachments b) (ds b) x (srgb b).
Definition set_srgb (b : Bindings) (x : SrgbWrite.t) : Bindings :=
  mkBindings (rt0 b) (extra_slots b) (extra_attachments b) (ds b) (rt0_dropped b) x.

Definition set_frame (σ : Recorder) (x : PassState) : Recorder :=
  mkRecorder x (current_pass_closed σ) (current_visibility σ) (bindings σ) (pending σ) (seen σ) (view σ) (books σ).
Definition set_closed (σ : Recorder) (x : bool) : Recorder :=
  mkRecorder (frame σ) x (current_visibility σ) (bindings σ) (pending σ) (seen σ) (view σ) (books σ).
Definition set_visibility (σ : Recorder) (x : Z) : Recorder :=
  mkRecorder (frame σ) (current_pass_closed σ) x (bindings σ) (pending σ) (seen σ) (view σ) (books σ).
Definition set_bindings (σ : Recorder) (x : Bindings) : Recorder :=
  mkRecorder (frame σ) (current_pass_closed σ) (current_visibility σ) x (pending σ) (seen σ) (view σ) (books σ).
Definition set_pending (σ : Recorder) (x : Pending.t) : Recorder :=
  mkRecorder (frame σ) (current_pass_closed σ) (current_visibility σ) (bindings σ) x (seen σ) (view σ) (books σ).
Definition set_seen (σ : Recorder) (x : Seen.t) : Recorder :=
  mkRecorder (frame σ) (current_pass_closed σ) (current_visibility σ) (bindings σ) (pending σ) x (view σ) (books σ).
Definition set_view (σ : Recorder) (x : Viewport.t) : Recorder :=
  mkRecorder (frame σ) (current_pass_closed σ) (current_visibility σ) (bindings σ) (pending σ) (seen σ) x (books σ).
Definition set_books (σ : Recorder) (x : Books.t) : Recorder :=
  mkRecorder (frame σ) (current_pass_closed σ) (current_visibility σ) (bindings σ) (pending σ) (seen σ) (view σ) x.

(** The fields of [frame] the recorder writes. *)
Definition with_seen_sampled (s : PassState) (x : gset Z) : PassState :=
  mkPassState (passes s) (upload_pass_end s) x (frame_sampled_textures s) (stencil_written_textures s)
    (texture_view_to_base s) (backbuffer_texture s) (backbuffer_undefined s).
Definition with_frame_sampled (s : PassState) (x : gset Z) : PassState :=
  mkPassState (passes s) (upload_pass_end s) (seen_sampled_textures s) x (stencil_written_textures s)
    (texture_view_to_base s) (backbuffer_texture s) (backbuffer_undefined s).
Definition with_stencil_written (s : PassState) (x : gset Z) : PassState :=
  mkPassState (passes s) (upload_pass_end s) (seen_sampled_textures s) (frame_sampled_textures s) x
    (texture_view_to_base s) (backbuffer_texture s) (backbuffer_undefined s).
Definition with_views (s : PassState) (x : Views) : PassState :=
  mkPassState (passes s) (upload_pass_end s) (seen_sampled_textures s) (frame_sampled_textures s)
    (stencil_written_textures s) x (backbuffer_texture s) (backbuffer_undefined s).
Definition with_upload_end (s : PassState) (x : nat) : PassState :=
  mkPassState (passes s) x (seen_sampled_textures s) (frame_sampled_textures s) (stencil_written_textures s)
    (texture_view_to_base s) (backbuffer_texture s) (backbuffer_undefined s).
Definition with_backbuffer (s : PassState) (t : Z) (undefined : bool) : PassState :=
  mkPassState (passes s) (upload_pass_end s) (seen_sampled_textures s) (frame_sampled_textures s)
    (stencil_written_textures s) (texture_view_to_base s) t undefined.

Definition set_passes (σ : Recorder) (ps : list Pass) : Recorder := set_frame σ (with_passes (frame σ) ps).

(** The open pass, or the last one recorded: [passes.last_mut()]. *)
Definition alter_last (f : Pass -> Pass) (σ : Recorder) : Recorder :=
  set_passes σ (alter f (Nat.pred (length (passes (frame σ)))) (passes (frame σ))).

(** ** Questions about the bindings *)

Definition is_open (σ : Recorder) : bool :=
  negb (bool_decide (passes (frame σ) = [])) && negb (current_pass_closed σ).

Definition opens_pass (σ : Recorder) : bool :=
  current_pass_closed σ || bool_decide (passes (frame σ) = []).

Definition extra_present (b : Bindings) (i : nat) : bool := is_present (extra_attachments b) i.

Definition pass_binds_depth (b : Bindings) : bool :=
  negb (DepthTarget.texture (ds b) =? 0) && (DepthTarget.sample_count (ds b) =? ColorSlot.sample_count (rt0 b)).

Definition pass_binds_color (b : Bindings) : bool := negb (ColorSlot.texture (rt0 b) =? 0) && negb (rt0_dropped b).

Definition pass_color_covers_depth (b : Bindings) : bool :=
  negb (pass_binds_color b) || negb (pass_binds_depth b)
  || extent_covers (ColorSlot.size (rt0 b)) (DepthTarget.size (ds b)).

Inductive Rt0DropCandidate := DropNo | DropYes | DropScaledDepth.

Definition rt0_drop_candidate (b : Bindings) : Rt0DropCandidate :=
  if negb (fst (ColorSlot.logical_size (rt0 b)) =? 1) || negb (snd (ColorSlot.logical_size (rt0 b)) =? 1) then DropNo
  else if negb (Z.shiftr (ColorSlot.subresource (rt0 b)) 16 =? 0)
          || negb (RenderScale.is_identity (ColorSlot.scale (rt0 b)))
          || existsb ColorSlot.is_bound (extra_slots b)
          || negb (pass_binds_depth b)
          || ((fst (DepthTarget.size (ds b)) <=? 1) && (snd (DepthTarget.size (ds b)) <=? 1))
  then DropNo
  else if DepthTarget.unscaled (ds b) then DropYes else DropScaledDepth.

Definition has_extra_color_targets (b : Bindings) : bool := existsb ColorSlot.is_bound (extra_slots b).

Definition has_extra_color_targets_outside_pass (b : Bindings) : bool :=
  existsb (λ ix, ColorSlot.is_bound ix.2 && negb (extra_present b ix.1)) (imap pair (extra_slots b)).

(** [attached_color_targets]: what a clear of the colour targets reaches. *)
Definition attached_color_targets (b : Bindings) : list (Z * Z) :=
  (ColorSlot.texture (rt0 b), ColorSlot.subresource (rt0 b))
  :: ((λ ix, (ColorSlot.texture ix.2, ColorSlot.subresource ix.2)) <$>
        filter (λ ix, ColorSlot.is_bound ix.2 && extra_present b ix.1 = true) (imap pair (extra_slots b))).

(** ** The viewport *)

Definition target_extent (b : Bindings) : TargetExtent.t :=
  if rt0_dropped b then TargetExtent.mk RenderScale.IDENTITY (DepthTarget.size (ds b)) (DepthTarget.size (ds b))
  else TargetExtent.mk (ColorSlot.scale (rt0 b)) (ColorSlot.logical_size (rt0 b)) (ColorSlot.size (rt0 b)).

Definition effective_viewport (b : Bindings) (v : Viewport.t) : Z * Z * Z * Z :=
  if negb (Viewport.width v =? 0) && negb (Viewport.height v =? 0)
  then TargetExtent.rect (target_extent b) (Viewport.x v) (Viewport.y v) (Viewport.width v) (Viewport.height v)
  else if rt0_dropped b then (0, 0, fst (DepthTarget.size (ds b)), snd (DepthTarget.size (ds b)))
  else (0, 0, fst (ColorSlot.size (rt0 b)), snd (ColorSlot.size (rt0 b))).

Definition region_covers_extent (region : Z * Z * Z * Z) (extent : Z * Z) : bool :=
  let '(x, y, w, h) := region in (x =? 0) && (y =? 0) && extent_covers (w, h) extent.

Definition region_covers_color_attachment (b : Bindings) (region : Z * Z * Z * Z) : bool :=
  (ColorSlot.texture (rt0 b) =? 0) || region_covers_extent region (ColorSlot.size (rt0 b)).
Definition region_covers_depth_attachment (b : Bindings) (region : Z * Z * Z * Z) : bool :=
  (DepthTarget.texture (ds b) =? 0) || region_covers_extent region (DepthTarget.size (ds b)).
Definition viewport_covers_color_attachment (b : Bindings) (v : Viewport.t) : bool :=
  region_covers_color_attachment b (effective_viewport b v).
Definition viewport_covers_depth_attachment (b : Bindings) (v : Viewport.t) : bool :=
  region_covers_depth_attachment b (effective_viewport b v).

Definition viewport_has_no_area (b : Bindings) (v : Viewport.t) : bool :=
  let '(_, _, w, h) := effective_viewport b v in (w =? 0) || (h =? 0).

Definition viewport_inside_color_attachment (b : Bindings) (v : Viewport.t) : bool :=
  let '(x, y, w, h) := effective_viewport b v in
  extent_covers (ColorSlot.size (rt0 b)) ((x +| w)%u32, (y +| h)%u32).

Definition resolved_scissor_rect (b : Bindings) (v : Viewport.t) (test_enable : bool) (rect : Z * Z * Z * Z) : Z * Z * Z * Z :=
  let '(x, y, w, h) := rect in
  if test_enable then TargetExtent.rect (target_extent b) x y w h else effective_viewport b v.

(** ** The sRGB choice *)

Definition twin_of (s : SrgbWrite.t) (base : Z) : Z := default 0 (SrgbWrite.base_to_twin s !! base).

Definition companion_twin_present (msaa msaa_srgb : Z) : bool := (msaa =? 0) || negb (msaa_srgb =? 0).

Definition has_twin (f : PixelFormat) : bool := bool_decide (is_Some (srgb_twin f)).

(** A target whose view the pass can bind in place of it. *)
Definition twin_ready (s : SrgbWrite.t) (c : ColorSlot.t) : bool :=
  negb (twin_of s (ColorSlot.texture c) =? 0)
  && companion_twin_present (ColorSlot.msaa_texture c) (ColorSlot.msaa_srgb_texture c).

(** The extra targets in the pass whose format has a twin. *)
Definition encoding_extras (b : Bindings) : list ColorSlot.t :=
  snd <$> filter (λ ix, extra_present b ix.1 && has_twin (ColorSlot.format ix.2) = true) (imap pair (extra_slots b)).

Definition srgb_write_is_attachable (b : Bindings) : bool :=
  if ColorSlot.texture (rt0 b) =? 0 then false
  else
    let any_encodes := has_twin (ColorSlot.format (rt0 b)) in
    if any_encodes && negb (twin_ready (srgb b) (rt0 b)) then false
    else forallb (twin_ready (srgb b)) (encoding_extras b)
         && (any_encodes || negb (bool_decide (encoding_extras b = []))).

Definition shader_srgb_encode_mask (b : Bindings) : Z :=
  if negb (SrgbWrite.enabled (srgb b)) || SrgbWrite.pass_write (srgb b) then 0
  else
    foldl (λ mask ix, if extra_present b ix.1 && has_twin (ColorSlot.format ix.2)
                      then Z.lor mask (Z.shiftl 1 (Z.of_nat ix.1 + 1)) else mask)
      (Z.b2z (negb (ColorSlot.texture (rt0 b) =? 0) && has_twin (ColorSlot.format (rt0 b))))
      (imap pair (extra_slots b)).

Definition color_attachment_format (b : Bindings) : PixelFormat :=
  let f := ColorSlot.format (rt0 b) in
  if SrgbWrite.pass_write (srgb b) then default f (srgb_twin f) else f.

Definition extra_attachment_format (b : Bindings) (i : nat) (slot : ColorSlot.t) : PixelFormat :=
  let f := ColorSlot.format slot in
  if SrgbWrite.pass_write (srgb b) && extra_present b i then default f (srgb_twin f) else f.

Definition recompute_srgb_write (b : Bindings) : Bindings :=
  let s := srgb b in
  let b := set_srgb b (SrgbWrite.mk (SrgbWrite.enabled s) (SrgbWrite.enabled s && srgb_write_is_attachable b)
             (twin_of s (ColorSlot.texture (rt0 b))) ((λ c, twin_of s (ColorSlot.texture c)) <$> extra_slots b)
             (SrgbWrite.base_to_twin s)) in
  let e := extra_attachments b in
  set_extra_attachments b (mkExtra (imap (extra_attachment_format b) (extra_slots b)) (present_mask e) (has_alpha_mask e)).

(** The bits of the slots a test holds for. *)
Definition slot_mask (test : ColorSlot.t -> bool) (slots : list ColorSlot.t) : Z :=
  foldl (λ mask ix, if test ix.2 then Z.lor mask (Z.shiftl 1 (Z.of_nat ix.1)) else mask) 0 (imap pair slots).

(** Whether a bound extra target matches render target 0. *)
Definition takes_part (r : ColorSlot.t) (c : ColorSlot.t) : bool :=
  ColorSlot.is_bound c && (ColorSlot.sample_count c =? ColorSlot.sample_count r)
  && bool_decide (ColorSlot.size c = ColorSlot.size r).

Definition recompute_extra_present_mask (b : Bindings) : Bindings :=
  let mask := slot_mask (takes_part (rt0 b)) (extra_slots b) in
  recompute_srgb_write
    (set_extra_attachments b
       (mkExtra (ColorSlot.format <$> extra_slots b) mask
          (Z.land (slot_mask ColorSlot.has_alpha (extra_slots b)) mask))).

(** ** The open pass *)

Definition last_pass (σ : Recorder) : option Pass := last (passes (frame σ)).

Definition current_pass_has_work (σ : Recorder) : bool :=
  if current_pass_closed σ then false
  else match last_pass σ with Some p => (1 <? length (commands p))%nat | None => false end.

Definition current_pass_has_counting_visibility (σ : Recorder) : bool :=
  if current_pass_closed σ then false
  else match last_pass σ with Some p => has_counting_visibility p | None => false end.

Definition texture_written_by_blit_this_frame (σ : Recorder) (t : Z) : bool := bool_decide (t ∈ Seen.blit_written (seen σ)).
Definition texture_sampled_this_frame (σ : Recorder) (t : Z) : bool := bool_decide (t ∈ frame_sampled_textures (frame σ)).

Definition is_discarded_back_buffer (σ : Recorder) (t : Z) : bool :=
  negb (t =? 0) && (t =? backbuffer_texture (frame σ)) && backbuffer_undefined (frame σ).
