(* ===== verification/Recorder.v ===== *)
(** The operations of [PassState] that record a frame ([passes.rs]): opening,
    ending and splitting passes, binding targets, clearing, queueing blits, and
    emitting commands.  Traces, warnings, the pool of command vectors and the
    cascade counters are left out. *)

From S2P Require Import Prelude Mtl DirtyRange RenderScale PassCommands PassData PassRules PipelineState DepthStencil RecorderState.

(** ** Opening a pass *)

(** [PassAttach]. *)
Inductive PassAttach := Both | ColorOnly | DepthOnly.

Definition attaches_color (a : PassAttach) : bool := match a with DepthOnly => false | _ => true end.
Definition attaches_depth (a : PassAttach) : bool := match a with ColorOnly => false | _ => true end.

Definition pass_depth_flags (d : DepthTarget.t) : Z :=
  Z.lor (if DepthTarget.sampleable d then SAMPLEABLE else 0) (if DepthTarget.has_stencil d then HAS_STENCIL else 0).

(** The viewport a pass opens with. *)
Definition opening_viewport (b : Bindings) (v : Viewport.t) (a : PassAttach) : Z * Z * Z * Z :=
  if attaches_depth a then effective_viewport b v
  else (0, 0, fst (ColorSlot.size (rt0 b)), snd (ColorSlot.size (rt0 b))).

(** Rule A: the load action of a colour attachment; [covers] says the viewport
    is the whole of render target 0. *)
Definition color_load_for (σ : Recorder) (covers : bool) (clear : option (Z * Z * Z * Z)) (texture subresource : Z) : ColorLoad :=
  match clear with
  | Some (r, g, b, a) => CClear r g b a
  | None =>
      if covers && is_discarded_back_buffer σ texture
         && negb (bool_decide ((texture, subresource) ∈ Seen.color_rts (seen σ)))
         && negb (bool_decide (texture ∈ seen_sampled_textures (frame σ)))
         && negb (bool_decide (texture ∈ Seen.blit_written (seen σ)))
      then CDontCare else CLoad
  end.

(** The views a pass attaches a colour target through. *)
Definition color_attachment (pass_write : bool) (twin : Z) (fmt : PixelFormat) (c : ColorSlot.t) (l : ColorLoad) : PassColorAttachment :=
  mkColor (ColorSlot.texture c) (if pass_write then twin else 0) (ColorSlot.msaa_texture c)
    (if pass_write then ColorSlot.msaa_srgb_texture c else 0) 0 (ColorSlot.subresource c) (ColorSlot.size c)
    (repr fmt) l Store.

Definition rt0_attachment (b : Bindings) (l : ColorLoad) : PassColorAttachment :=
  color_attachment (SrgbWrite.pass_write (srgb b)) (SrgbWrite.rt0_twin (srgb b)) (color_attachment_format b) (rt0 b) l.

Definition extra_attachment (b : Bindings) (l : ColorSlot.t -> ColorLoad) (i : nat) (c : ColorSlot.t) : PassColorAttachment :=
  if extra_present b i
  then color_attachment (SrgbWrite.pass_write (srgb b)) (nth i (SrgbWrite.extra_twins (srgb b)) 0)
         (extra_attachment_format b i c) c (l c)
  else color_none.

(** Rule A for the two planes of the depth texture. *)
Definition depth_first_use (σ : Recorder) (depth_texture : Z) : bool :=
  viewport_covers_depth_attachment (bindings σ) (view σ)
  && negb (depth_texture =? 0)
  && negb (DepthTarget.sampleable (ds (bindings σ)))
  && negb (bool_decide (depth_texture ∈ Seen.depth_rts (seen σ)))
  && negb (bool_decide (depth_texture ∈ seen_sampled_textures (frame σ)))
  && negb (bool_decide (depth_texture ∈ Seen.blit_written (seen σ))).

Definition depth_load_of (pending : option Z) (first_use : bool) : DepthLoad :=
  match pending with Some v => DClear v | None => if first_use then DDontCare else DLoad end.
Definition stencil_load_of (pending : option Z) (first_use : bool) : StencilLoad :=
  match pending with Some v => SClear v | None => if first_use then SDontCare else SLoad end.

(** The depth texture the pass attaches: none for a colour-only pass, nor when its
    sample count is not render target 0's. *)
Definition opened_depth_texture (b : Bindings) (a : PassAttach) : Z :=
  if attaches_depth a && pass_binds_depth b then DepthTarget.texture (ds b) else 0.

(** A pass that attaches no depth leaves the pending depth and stencil clears. *)
Definition opened_depth (σ : Recorder) (a : PassAttach) : PassDepth :=
  let d := ds (bindings σ) in
  let t := opened_depth_texture (bindings σ) a in
  let taken (x : option Z) := if t =? 0 then None else x in
  let first_use := depth_first_use σ t in
  mkDepth t (DepthTarget.level d) (if t =? 0 then (0, 0) else DepthTarget.size d)
    (depth_load_of (taken (Pending.depth_clear (pending σ))) first_use)
    (stencil_load_of (taken (Pending.stencil_clear (pending σ))) first_use)
    Store Store (if attaches_depth a then pass_depth_flags d else 0).

Definition opened_load (σ : Recorder) (a : PassAttach) (c : ColorSlot.t) : ColorLoad :=
  let b := bindings σ in
  let covers := bool_decide (opening_viewport b (view σ) a
                             = (0, 0, fst (ColorSlot.size (rt0 b)), snd (ColorSlot.size (rt0 b)))) in
  color_load_for σ covers (if attaches_color a then Pending.color_clear (pending σ) else None)
    (ColorSlot.texture c) (ColorSlot.subresource c).

Definition with_size (a : PassColorAttachment) (s : Z * Z) : PassColorAttachment :=
  mkColor (texture a) (srgb_texture a) (msaa_texture a) (msaa_srgb_texture a) (resolve_texture a)
    (subresource a) s (format a) (load a) (store a).

Definition opened_color (σ : Recorder) (a : PassAttach) : PassColorAttachment :=
  let b := bindings σ in
  let c := rt0_attachment b (opened_load σ a (rt0 b)) in
  if attaches_color a then c else with_size (drop_attachment c) (depth_size_ (opened_depth σ a)).

Definition opened_extras (σ : Recorder) (a : PassAttach) : list PassColorAttachment :=
  let b := bindings σ in
  imap (λ i c, if attaches_color a then extra_attachment b (opened_load σ a) i c else color_none) (extra_slots b).

(** The pass [push_pass] builds. *)
Definition opened_pass (σ : Recorder) (a : PassAttach) : Pass :=
  let vp := opening_viewport (bindings σ) (view σ) a in
  mkPass (opened_color σ a) (opened_extras σ a) (opened_depth σ a) vp
    [set_viewport_command vp (Viewport.min_z (view σ)) (Viewport.max_z (view σ))]
    (Pending.leading_blits (pending σ)) false (current_visibility σ) (mkColorFlags false false) [].

(** What the opening consumes of the pending clears. *)
Definition consumed (σ : Recorder) (a : PassAttach) : Pending.t :=
  let depth_taken := attaches_depth a && pass_binds_depth (bindings σ) in
  Pending.mk (if attaches_color a then None else Pending.color_clear (pending σ))
    (if depth_taken then None else Pending.depth_clear (pending σ))
    (if depth_taken then None else Pending.stencil_clear (pending σ)) [].

Definition note_color (s : Seen.t) (a : PassColorAttachment) : Seen.t :=
  if is_bound a then Seen.add_color s (PassData.texture a, PassData.subresource a) else s.

Definition note_attachments (p : Pass) (s : Seen.t) : Seen.t :=
  let s := foldl note_color s (color_slots p) in
  if depth_texture p =? 0 then s else Seen.add_depth s (depth_texture p).

Definition push_pass (σ : Recorder) (a : PassAttach) : Recorder :=
  let p := opened_pass σ a in
  let '(x, y, w, h) := viewport p in
  let v := Viewport.with_emitted (view σ) (Some (x, y, w, h, Viewport.min_z (view σ), Viewport.max_z (view σ))) in
  mkRecorder (with_passes (frame σ) (passes (frame σ) ++ [p])) false (current_visibility σ) (bindings σ)
    (consumed σ a) (note_attachments p (seen σ)) v (books σ).

(** ** Ending a pass *)

Definition end_current_pass (σ : Recorder) : Recorder :=
  let σ := set_bindings σ (set_dropped (bindings σ) false) in
  if bool_decide (passes (frame σ) = []) || current_pass_closed σ then σ else set_closed σ true.

Definition break_for_visibility_buffer (σ : Recorder) : Recorder :=
  let σ' := if bool_decide (passes (frame σ) = []) || current_pass_closed σ then σ else set_closed σ true in
  set_visibility σ' (current_visibility σ + 1)%Z.

(** ** Pending clears *)

(** The depth-only pass [push_depth_clear_pass] records. *)
Definition depth_clear_pass (σ : Recorder) : Pass :=
  let d := ds (bindings σ) in
  let p := pending σ in
  mkPass (mkColor 0 0 0 0 0 0 (DepthTarget.size d) (repr (ColorSlot.format (rt0 (bindings σ)))) CDontCare DontCare)
    [color_none; color_none; color_none]
    (mkDepth (DepthTarget.texture d) (DepthTarget.level d) (DepthTarget.size d)
       (depth_load_of (Pending.depth_clear p) false) (stencil_load_of (Pending.stencil_clear p) false)
       Store Store (pass_depth_flags d))
    (0, 0, fst (DepthTarget.size d), snd (DepthTarget.size d)) [] (Pending.leading_blits p) false
    (current_visibility σ) (mkColorFlags false false) [].

Definition push_depth_clear_pass (σ : Recorder) : Recorder :=
  let t := DepthTarget.texture (ds (bindings σ)) in
  let without p := Pending.with_stencil (Pending.with_depth p None) None in
  if t =? 0 then set_pending σ (without (pending σ))
  else
    let p := depth_clear_pass σ in
    let σ := end_current_pass σ in
    mkRecorder (with_passes (frame σ) (passes (frame σ) ++ [p])) true (current_visibility σ) (bindings σ)
      (Pending.with_blits (without (pending σ)) []) (Seen.add_depth (seen σ) t) (view σ) (books σ).

(** [open_pass]: a pass that leaves render target 0 out lands a pending colour
    clear in a pass of its own first, one smaller than its depth surface a
    pending depth clear, and then loads the same clear values. *)
Definition open_pass (σ : Recorder) : Recorder :=
  if rt0_dropped (bindings σ) then
    let σ := if Pending.color (pending σ) then set_closed (push_pass σ ColorOnly) true else σ in
    push_pass σ DepthOnly
  else
    let p := pending σ in
    let σ :=
      if Pending.depth_or_stencil p && negb (pass_color_covers_depth (bindings σ)) then
        let σ := push_depth_clear_pass σ in
        set_pending σ (Pending.with_stencil (Pending.with_depth (pending σ) (Pending.depth_clear p)) (Pending.stencil_clear p))
      else σ in
    push_pass σ Both.

Definition ensure_pass_open (σ : Recorder) : Recorder := if opens_pass σ then open_pass σ else σ.

Definition flush_pending_clears (σ : Recorder) : Recorder :=
  let σ :=
    if Pending.color (pending σ)
       || (Pending.depth_or_stencil (pending σ) && pass_binds_depth (bindings σ) && pass_color_covers_depth (bindings σ))
    then end_current_pass (ensure_pass_open σ) else σ in
  if Pending.depth_or_stencil (pending σ) then push_depth_clear_pass σ else σ.

(** A pending colour clear belongs to the outgoing target. *)
Definition flush_color_clear (σ : Recorder) : Recorder :=
  if Pending.color (pending σ) then flush_pending_clears σ else σ.

(** ** Blits *)

Definition note_texture_read (t : Z) (σ : Recorder) : Recorder :=
  if t =? 0 then σ else set_frame σ (with_seen_sampled (frame σ) ({[t]} ∪ seen_sampled_textures (frame σ))).

Definition note_ordered_texture_write (t : Z) (σ : Recorder) : Recorder :=
  if t =? 0 then σ else set_frame σ (with_frame_sampled (frame σ) ({[t]} ∪ frame_sampled_textures (frame σ))).

Definition recorder_note_stencil_blit (b : BlitCommand) (σ : Recorder) : Recorder :=
  set_frame σ (with_stencil_written (frame σ) (note_stencil_blit b (stencil_written_textures (frame σ)))).

Definition push_pending_leading_blit (b : BlitCommand) (σ : Recorder) : Recorder :=
  let σ := match blit_read_texture b with Some src => note_texture_read src σ | None => σ end in
  let σ := match blit_written_texture b with
           | Some dst => set_seen σ (Seen.add_blit (seen σ) dst) | None => σ end in
  let σ := recorder_note_stencil_blit b σ in
  set_pending σ (Pending.with_blits (pending σ) (Pending.leading_blits (pending σ) ++ [b])).

Definition push_leading_blit_after_clears (b : BlitCommand) (σ : Recorder) : Recorder :=
  push_pending_leading_blit b (end_current_pass (flush_pending_clears σ)).

Definition take_pending_leading_blits (σ : Recorder) : list BlitCommand * Recorder :=
  (Pending.leading_blits (pending σ), set_pending σ (Pending.with_blits (pending σ) [])).

(** [UploadPassTarget]. *)
Record UploadPassTarget := mkUploadTarget {
  u_texture : Z; u_subresource : Z * Z; u_size : Z * Z; u_format : PixelFormat; u_rect : Z * Z * Z * Z }.

(** [1.0f32]. *)
Definition ONE_F32 : Z := 1065353216.

Definition upload_pass (σ : Recorder) (t : UploadPassTarget) (cmds : list Command) (blits : list BlitCommand) : Pass :=
  let '(x, y, w, h) := u_rect t in
  let covers := (x =? 0) && (y =? 0) && (w =? fst (u_size t)) && (h =? snd (u_size t)) in
  mkPass (mkColor (u_texture t) 0 0 0 0 (Z.lor (fst (u_subresource t)) (Z.shiftl (snd (u_subresource t)) 16))
            (u_size t) (repr (u_format t)) (if covers then CDontCare else CLoad) Store)
    [color_none; color_none; color_none] (mkDepth 0 0 (0, 0) DDontCare SDontCare DontCare DontCare 0)
    (u_rect t) (set_viewport_command (u_rect t) 0 ONE_F32 :: cmds) blits false (current_visibility σ)
    (mkColorFlags true false) [].

Definition push_upload_pass_with_order (ordered : bool) (t : UploadPassTarget) (cmds : list Command)
    (blits : list BlitCommand) (σ : Recorder) : Recorder :=
  let p := upload_pass σ t cmds blits in
  let f := frame σ in
  let e := upload_pass_end f in
  let f := if ordered then with_passes f (passes f ++ [p])
           else with_upload_end (with_passes f (take e (passes f) ++ p :: drop e (passes f))) (S e) in
  let s := Seen.add_color (seen σ) (u_texture t, PassData.subresource (color p)) in
  let s := if ordered then Seen.add_blit s (u_texture t) else s in
  set_seen (set_frame σ (with_seen_sampled f ({[u_texture t]} ∪ seen_sampled_textures f))) s.
