(* ===== verification/RecorderOps.v ===== *)
(** The rest of what [PassState] of [passes.rs] records: the targets the device
    binds, [Clear] in its forms, the commands of a draw, the views a texture is
    known by, and the start of a frame. *)

From S2P Require Import Prelude Mtl DirtyRange RenderScale PassCommands PassData PassRules PipelineState DepthStencil.
From S2P Require Import RecorderState Recorder.

(** ** The colour targets *)

(** A colour binding as it changes: the masks and views that follow it. *)
Definition bind_colors (σ : Recorder) (b : Bindings) : Recorder := set_bindings σ (recompute_extra_present_mask b).

Definition set_color_msaa (msaa msaa_srgb sample_count : Z) (σ : Recorder) : Recorder :=
  let msaa_srgb := if msaa =? 0 then 0 else msaa_srgb in
  let sample_count := if msaa =? 0 then 1 else Z.max sample_count 1 in
  let c := rt0 (bindings σ) in
  let σ :=
    if negb (ColorSlot.msaa_texture c =? msaa) || negb (ColorSlot.msaa_srgb_texture c =? msaa_srgb)
       || negb (ColorSlot.sample_count c =? sample_count)
    then end_current_pass (flush_color_clear σ) else σ in
  let b := bindings σ in
  bind_colors σ (set_rt0 b (ColorSlot.with_msaa (rt0 b) msaa msaa_srgb sample_count)).

Definition set_color_rt_has_alpha (has_alpha : bool) (σ : Recorder) : Recorder :=
  let b := bindings σ in set_bindings σ (set_rt0 b (ColorSlot.with_alpha (rt0 b) has_alpha)).

Definition pack_subresource (slice level : Z) : Z := Z.lor slice (Z.shiftl level 16).

Definition recompute_colors (b : Bindings) : Bindings :=
  if has_extra_color_targets b then recompute_extra_present_mask b else recompute_srgb_write b.

Definition set_color_render_target_subresource (texture : Z) (extent : TargetExtent.t) (format : PixelFormat)
    (slice level : Z) (σ : Recorder) : Recorder :=
  let scale := TargetExtent.scale extent in
  let logical := TargetExtent.logical extent in
  let size := TargetExtent.texture extent in
  let packed := pack_subresource slice level in
  let c := rt0 (bindings σ) in
  if (ColorSlot.texture c =? texture) && (ColorSlot.subresource c =? packed)
     && bool_decide (ColorSlot.format c = format) && bool_decide (ColorSlot.size c = size)
  then set_bindings σ (recompute_colors (set_rt0 (bindings σ) (ColorSlot.with_scale c logical scale)))
  else
    let σ := end_current_pass (flush_color_clear σ) in
    let b := bindings σ in
    set_bindings σ (recompute_colors
      (set_rt0 b (ColorSlot.mk texture 0 0 1 packed size logical format scale (ColorSlot.has_alpha (rt0 b))))).

(** [slot] is 1 to 3. *)
Definition set_extra_color_render_target (slot : nat) (binding : option ColorSlot.t) (σ : Recorder) : Recorder :=
  let c := default ColorSlot.NONE binding in
  let index := (slot - 1)%nat in
  let current := nth index (extra_slots (bindings σ)) ColorSlot.NONE in
  let σ :=
    if (ColorSlot.texture current =? ColorSlot.texture c) && (ColorSlot.subresource current =? ColorSlot.subresource c)
       && bool_decide (ColorSlot.format current = ColorSlot.format c)
       && bool_decide (ColorSlot.size current = ColorSlot.size c)
    then σ else end_current_pass (flush_color_clear σ) in
  bind_colors σ (set_extra_slots (bindings σ) (<[index := c]> (extra_slots (bindings σ)))).

(** [SavedColorAttachments]: render target 0 and the extras. *)
  Abbreviation SavedColors := (ColorSlot.t * list ColorSlot.t)%type.

Definition no_extras : list ColorSlot.t := [ColorSlot.NONE; ColorSlot.NONE; ColorSlot.NONE].

Definition take_color_attachments (σ : Recorder) : SavedColors * Recorder :=
  let σ := if has_extra_color_targets (bindings σ) then end_current_pass (flush_color_clear σ) else σ in
  ((rt0 (bindings σ), extra_slots (bindings σ)), bind_colors σ (set_extra_slots (bindings σ) no_extras)).

Definition saved_slot (s : SavedColors) (slot : nat) : option ColorSlot.t :=
  match slot with
  | O => Some s.1
  | S i => let c := nth i s.2 ColorSlot.NONE in if ColorSlot.is_bound c then Some c else None
  end.

Definition extra_matches_rt0 (s : SavedColors) (slot : nat) : bool :=
  let c := nth (slot - 1) s.2 ColorSlot.NONE in
  ColorSlot.is_bound c && bool_decide (ColorSlot.size c = ColorSlot.size s.1).

Definition restore_color_attachments (s : SavedColors) (σ : Recorder) : Recorder :=
  let c := s.1 in
  let σ := set_color_render_target_subresource (ColorSlot.texture c)
             (TargetExtent.mk (ColorSlot.scale c) (ColorSlot.logical_size c) (ColorSlot.size c)) (ColorSlot.format c)
             (Z.land (ColorSlot.subresource c) 65535) (Z.shiftr (ColorSlot.subresource c) 16) σ in
  let σ := set_color_rt_has_alpha (ColorSlot.has_alpha c) σ in
  let σ := set_color_msaa (ColorSlot.msaa_texture c) (ColorSlot.msaa_srgb_texture c) (ColorSlot.sample_count c) σ in
  let σ := if bool_decide (extra_slots (bindings σ) = s.2) then σ
           else let σ := end_current_pass (flush_color_clear σ) in
                set_bindings σ (set_extra_slots (bindings σ) s.2) in
  bind_colors σ (bindings σ).

(** ** The depth target *)

Definition alter_ds (f : DepthTarget.t -> DepthTarget.t) (σ : Recorder) : Recorder :=
  set_bindings σ (set_ds (bindings σ) (f (ds (bindings σ)))).

Definition set_depth_sample_count (n : Z) : Recorder -> Recorder :=
  alter_ds (λ d, DepthTarget.with_samples d (if n =? 0 then 1 else n)).

Definition set_depth_unscaled (unscaled : bool) : Recorder -> Recorder :=
  alter_ds (λ d, DepthTarget.with_unscaled d unscaled).

Definition set_depth_stencil_attachment_level (texture level : Z) (size : Z * Z) (is_sampleable has_stencil : bool)
    (σ : Recorder) : Recorder :=
  let σ := if is_sampleable && negb (texture =? 0) then set_seen σ (Seen.add_sampleable (seen σ) texture) else σ in
  let d := ds (bindings σ) in
  if (DepthTarget.texture d =? texture) && (DepthTarget.level d =? level)
     && eqb (DepthTarget.sampleable d) is_sampleable
  then alter_ds (λ d, DepthTarget.with_stencil d has_stencil) σ
  else
    let σ := if Pending.depth_or_stencil (pending σ) then flush_pending_clears σ else σ in
    alter_ds (λ _, DepthTarget.mk texture level size 1 is_sampleable has_stencil false) (end_current_pass σ).

Definition set_depth_stencil_attachment (texture : Z) (size : Z * Z) (is_sampleable has_stencil : bool) : Recorder -> Recorder :=
  set_depth_stencil_attachment_level texture 0 size is_sampleable has_stencil.

Definition retire_depth_texture (texture : Z) (σ : Recorder) : Recorder :=
  if negb (texture =? 0) && (DepthTarget.texture (ds (bindings σ)) =? texture)
  then set_depth_stencil_attachment 0 (0, 0) false false σ else σ.

Definition set_rt0_dropped (drop : bool) (σ : Recorder) : Recorder :=
  if eqb (rt0_dropped (bindings σ)) drop then σ
  else let σ := end_current_pass σ in set_bindings σ (set_dropped (bindings σ) drop).

Definition end_rt0_dropped_pass (σ : Recorder) : Recorder :=
  if rt0_dropped (bindings σ) then end_current_pass σ else σ.

(** ** Views and sRGB writes *)

Definition apply_srgb_write_change (σ : Recorder) : Recorder :=
  let b := bindings σ in
  let σ :=
    if eqb (SrgbWrite.pass_write (srgb b)) (SrgbWrite.enabled (srgb b) && srgb_write_is_attachable b) then σ
    else end_current_pass (flush_color_clear σ) in
  set_bindings σ (recompute_srgb_write (bindings σ)).

Definition set_srgb_write_enabled (enabled : bool) (σ : Recorder) : Recorder :=
  let s := srgb (bindings σ) in
  if eqb (SrgbWrite.enabled s) enabled then σ
  else apply_srgb_write_change
         (set_bindings σ (set_srgb (bindings σ)
            (SrgbWrite.mk enabled (SrgbWrite.pass_write s) (SrgbWrite.rt0_twin s) (SrgbWrite.extra_twins s)
               (SrgbWrite.base_to_twin s)))).

Definition set_base_to_twin (m : gmap Z Z) (σ : Recorder) : Recorder :=
  let s := srgb (bindings σ) in
  set_bindings σ (set_srgb (bindings σ)
    (SrgbWrite.mk (SrgbWrite.enabled s) (SrgbWrite.pass_write s) (SrgbWrite.rt0_twin s) (SrgbWrite.extra_twins s) m)).

Definition insert_view (view base : Z) (σ : Recorder) : Recorder :=
  set_frame σ (with_views (frame σ) (<[view := base]> (texture_view_to_base (frame σ)))).

Definition register_texture_view (view base : Z) (σ : Recorder) : Recorder :=
  if (view =? 0) || (base =? 0) || (view =? base) then σ else insert_view view base σ.

Definition store_srgb_twin (twin base : Z) (σ : Recorder) : bool * Recorder :=
  if (twin =? 0) || (base =? 0) then (false, σ)
  else (true, set_base_to_twin (<[base := twin]> (SrgbWrite.base_to_twin (srgb (bindings σ)))) (insert_view twin base σ)).

(** Whether [twin] is the renderable twin of a texture, and of which. *)
Definition drop_srgb_twin (twin : Z) (σ : Recorder) : bool * Recorder :=
  if twin =? 0 then (false, σ)
  else match texture_view_to_base (frame σ) !! twin with
       | None => (false, σ)
       | Some base =>
           if bool_decide (SrgbWrite.base_to_twin (srgb (bindings σ)) !! base = Some twin)
           then (true, set_base_to_twin (delete base (SrgbWrite.base_to_twin (srgb (bindings σ)))) σ)
           else (false, σ)
       end.

Definition register_srgb_twin (twin base : Z) (σ : Recorder) : Recorder :=
  let '(changed, σ) := store_srgb_twin twin base σ in if changed then apply_srgb_write_change σ else σ.

Definition unregister_srgb_twin (twin : Z) (σ : Recorder) : Recorder :=
  let '(changed, σ) := drop_srgb_twin twin σ in if changed then apply_srgb_write_change σ else σ.

(** [TextureViews]: [linear] is the texture itself. *)
Definition register_texture_views (linear srgb sample_linear sample_srgb : Z) (σ : Recorder) : Recorder :=
  register_texture_view sample_srgb linear (register_texture_view sample_linear linear (register_srgb_twin srgb linear σ)).

(** The [MTLTexture] behind the handle is destroyed. *)
Definition unregister_texture (t : Z) (σ : Recorder) : Recorder :=
  if t =? 0 then σ
  else
    let f := frame σ in
    let m := SrgbWrite.base_to_twin (srgb (bindings σ)) in
    let m := match texture_view_to_base f !! t with
             | Some base => if bool_decide (m !! base = Some t) then delete base m else m
             | None => m end in
    let f := with_views f (delete t (texture_view_to_base f)) in
    let f := with_seen_sampled f (seen_sampled_textures f ∖ {[t]}) in
    let f := with_frame_sampled f (frame_sampled_textures f ∖ {[t]}) in
    let f := with_stencil_written f (stencil_written_textures f ∖ {[t]}) in
    let s := seen σ in
    let s := Seen.mk (filter (λ k, k.1 <> t) (Seen.color_rts s)) (Seen.depth_rts s ∖ {[t]})
               (Seen.blit_written s ∖ {[t]}) (Seen.sampleable_depth s ∖ {[t]}) in
    set_base_to_twin (delete t m) (set_seen (set_frame σ f) s).

(** ** Draws *)

Definition with_color_flags (p : Pass) (f : PassColorFlags) : Pass :=
  mkPass (color p) (extra_color p) (depth p) (viewport p) (commands p) (leading_blits p) (has_counting_visibility p)
    (visibility_buffer p) f (color_clear_quad_ranges p).

Definition insert_depth_flags (p : Pass) (bits : Z) : Pass :=
  let d := depth p in
  with_depth p (mkDepth (depth_texture_ d) (depth_level_ d) (depth_size_ d) (depth_load_ d) (stencil_load_ d)
                  (depth_store_ d) (stencil_store_ d) (Z.lor (depth_flags_ d) bits)).

Definition note_draw_color_write_mask (mask : Z) (σ : Recorder) : Recorder :=
  let σ := ensure_pass_open σ in
  if mask =? 0 then σ
  else alter_last (λ p, with_color_flags p (mkColorFlags true (FIRST_DRAW_COVERS (color_flags p)))) σ.

Definition note_draw_depth_stencil (s : DepthStencilSnapshot) (attach : Z) (σ : Recorder) : Recorder :=
  let σ := ensure_pass_open σ in
  let used := (attaches attach HAS_DEPTH && uses_depth s)
              || (attaches attach ATTACH_STENCIL && negb (stencil_enable s =? 0)) in
  alter_last (λ p,
    let p := if used then insert_depth_flags p USED else p in
    if draw_writes_stencil s attach then insert_depth_flags p STENCIL_WRITTEN else p) σ.

Definition note_depth_stencil_clear_quad (clears_stencil : bool) (σ : Recorder) : Recorder :=
  alter_last (λ p,
    let p := insert_depth_flags p USED in
    if clears_stencil then insert_depth_flags p STENCIL_WRITTEN else p) (ensure_pass_open σ).

Definition open_pass_for_covering_draw (σ : Recorder) : Recorder :=
  let opens := opens_pass σ in
  let σ := ensure_pass_open σ in
  if opens then
    alter_last (λ p,
      if (color_texture p =? 0) || existsb is_bound (extra_color p) then p
      else with_color_flags p (mkColorFlags (WRITES_OBSERVED (color_flags p)) true)) σ
  else σ.

Definition open_color_clear_quad_block (σ : Recorder) : nat * Recorder :=
  let σ := ensure_pass_open σ in
  (match last_pass σ with Some p => length (commands p) | None => 0%nat end, σ).

Definition close_color_clear_quad_block (start : nat) (σ : Recorder) : Recorder :=
  alter_last (λ p,
    let stop := length (commands p) in
    if (start <? stop)%nat then with_commands p (commands p) (color_clear_quad_ranges p ++ [(start, stop)]) else p) σ.

Definition sets_counting (c : Command) : bool :=
  (cmd c =? command_code SetVisibilityResultMode) && (param_a c =? VisibilityResultMode_Counting).

Definition push_command (c : Command) (p : Pass) : Pass :=
  mkPass (color p) (extra_color p) (depth p) (viewport p) (commands p ++ [c]) (leading_blits p)
    (has_counting_visibility p || sets_counting c) (visibility_buffer p) (color_flags p) (color_clear_quad_ranges p).

(** A sampler bind: the view and the texture behind it are sampled from now on. *)
Definition note_sampled (tex : Z) (σ : Recorder) : Recorder :=
  let f := frame σ in
  let base := texture_view_to_base f !! tex in
  let add (s : gset Z) : gset Z := match base with Some b => {[b]} ∪ ({[tex]} ∪ s) | None => {[tex]} ∪ s end in
  let σ := set_frame σ (with_frame_sampled (with_seen_sampled f (add (seen_sampled_textures f))) (add (frame_sampled_textures f))) in
  match Books.pass_reads (books σ) with
  | Some reads =>
      let index := (length (passes f) - 1 - upload_pass_end f)%nat in
      set_books σ (Books.with_reads (books σ) (Some (reads ++ [(index, default tex base)])))
  | None => σ
  end.

Definition emit_command (c : Command) (σ : Recorder) : Recorder :=
  let σ := ensure_pass_open σ in
  let σ := match command_sampled_texture c with Some tex => note_sampled tex σ | None => σ end in
  alter_last (push_command c) σ.

Definition with_viewport (p : Pass) (vp : Z * Z * Z * Z) : Pass :=
  mkPass (color p) (extra_color p) (depth p) vp (commands p) (leading_blits p) (has_counting_visibility p)
    (visibility_buffer p) (color_flags p) (color_clear_quad_ranges p).

(** The command of a viewport goes to the pass directly. *)
Definition emit_viewport_if_changed (rect : Z * Z * Z * Z) (min_z max_z : Z) (σ : Recorder) : Recorder :=
  let '(x, y, w, h) := rect in
  let key := (x, y, w, h, min_z, max_z) in
  if negb (current_pass_closed σ) && negb (bool_decide (Viewport.last_emitted (view σ) = Some key))
     && negb (bool_decide (passes (frame σ) = []))
  then
    let σ := alter_last (λ p,
      with_viewport (with_commands p (commands p ++ [set_viewport_command rect min_z max_z]) (color_clear_quad_ranges p)) rect) σ in
    set_view σ (Viewport.with_emitted (view σ) (Some key))
  else σ.

Definition set_viewport (x y width height min_z max_z : Z) (σ : Recorder) : Recorder :=
  let σ := set_view σ (Viewport.mk x y width height min_z max_z (Viewport.last_emitted (view σ))) in
  emit_viewport_if_changed (TargetExtent.rect (target_extent (bindings σ)) x y width height) min_z max_z σ.

Definition set_emitted_depth_range (min_z max_z : Z) (σ : Recorder) : Recorder :=
  let v := view σ in
  let σ := set_view σ (Viewport.mk (Viewport.x v) (Viewport.y v) (Viewport.width v) (Viewport.height v) min_z max_z
                         (Viewport.last_emitted v)) in
  emit_viewport_if_changed (effective_viewport (bindings σ) (view σ)) min_z max_z σ.

(** [DrawnRangeTracker]. *)
Definition note_draw_range (id offset size logical_len : Z) (σ : Recorder) : Recorder :=
  let m := Books.drawn_ranges (books σ) in
  let r := default DirtyRange.empty (m !! id) in
  set_books σ (Books.with_ranges (books σ) (<[id := DirtyRange.conjoin r offset size logical_len]> m)).

Definition drawn_range_overlaps (σ : Recorder) (id off end_ : Z) : bool :=
  match Books.drawn_ranges (books σ) !! id with Some r => DirtyRange.overlaps r off end_ | None => false end.

Definition clear_drawn_range (id : Z) (σ : Recorder) : Recorder :=
  set_books σ (Books.with_ranges (books σ) (delete id (Books.drawn_ranges (books σ)))).

(** * Clears and frames

    [Clear] on [PassState] ([passes.rs]), and the start of a frame.  A clear of
    whole attachments becomes a load action, of the open pass when it has
    recorded nothing and of the next pass otherwise; one the open pass has draws
    before is answered with a quad for the caller to draw. *)

(** ** Clears of whole attachments *)

Definition set_pass_depth (p : Pass) (f : PassDepth -> PassDepth) : Pass := with_depth p (f (depth p)).

Definition clear_extra (l : ColorLoad) (a : PassColorAttachment) : PassColorAttachment :=
  if is_bound a then set_load a l else a.

Inductive ColorClearOutcome :=
  | ColorFolded
  | ColorQuad (rgba : Z * Z * Z * Z) (viewport : Z * Z * Z * Z) (color_format : PixelFormat).

(** The load action of the open pass, or of the next one. *)
Definition fold_color_clear (rgba : Z * Z * Z * Z) (σ : Recorder) : ColorClearOutcome * Recorder :=
  if is_open σ then
    let '(r, g, b, a) := rgba in
    let l := CClear r g b a in
    let σ := alter_last (λ p, with_colors p (set_load (color p) l) (clear_extra l <$> extra_color p)) σ in
    (ColorFolded, set_pending σ (Pending.with_color (pending σ) None))
  else (ColorFolded, set_pending σ (Pending.with_color (pending σ) (Some rgba))).

Definition clear_color (rgba : Z * Z * Z * Z) (σ : Recorder) : ColorClearOutcome * Recorder :=
  if current_pass_has_work σ then
    if current_pass_has_counting_visibility σ then fold_color_clear rgba (end_current_pass σ)
    else (ColorQuad rgba (effective_viewport (bindings σ) (view σ)) (color_attachment_format (bindings σ)), σ)
  else fold_color_clear rgba σ.

(** [DepthClearOutcome] and [StencilClearOutcome]. *)
Inductive PlaneClearOutcome :=
  | PlaneFolded | PlaneNoOp
  | PlaneQuad (value : Z) (viewport : Z * Z * Z * Z) (has_color : bool) (color_format : PixelFormat).

Definition end_small_color_pass_for_depth_clear (σ : Recorder) : Recorder :=
  if negb (current_pass_closed σ) && negb (pass_color_covers_depth (bindings σ)) then end_current_pass σ else σ.

(** [clear_depth_in_active_pass] and its stencil twin: no outcome when the pass
    is broken because its draws are being counted. *)
Definition clear_in_active_pass (value : Z) (σ : Recorder) : option PlaneClearOutcome * Recorder :=
  if current_pass_has_counting_visibility σ then (None, end_current_pass σ)
  else (Some (PlaneQuad value (effective_viewport (bindings σ) (view σ)) (pass_binds_color (bindings σ))
                (color_attachment_format (bindings σ))), σ).

Definition amendable (σ : Recorder) : bool := is_open σ && negb (current_pass_has_work σ).

Definition fold_depth_clear (value : Z) (σ : Recorder) : Recorder :=
  if amendable σ then
    let σ := alter_last (λ p, set_pass_depth p (λ d, set_depth_load d (DClear value))) σ in
    set_pending σ (Pending.with_depth (pending σ) None)
  else set_pending σ (Pending.with_depth (pending σ) (Some value)).

Definition fold_stencil_clear (value : Z) (σ : Recorder) : Recorder :=
  if amendable σ then
    let σ := alter_last (λ p, set_pass_depth p (λ d, set_stencil_load d (SClear value))) σ in
    set_pending σ (Pending.with_stencil (pending σ) None)
  else set_pending σ (Pending.with_stencil (pending σ) (Some value)).

(** The steps [clear_depth] and [clear_stencil] share. *)
Definition clear_plane (fold : Z -> Recorder -> Recorder) (value : Z) (σ : Recorder) : PlaneClearOutcome * Recorder :=
  if negb (pass_binds_depth (bindings σ)) then (PlaneNoOp, σ)
  else if viewport_has_no_area (bindings σ) (view σ) then (PlaneNoOp, σ)
  else
    let σ := end_small_color_pass_for_depth_clear σ in
    if current_pass_has_work σ then
      match clear_in_active_pass value σ with
      | (Some outcome, σ) => (outcome, σ)
      | (None, σ) => (PlaneFolded, fold value σ)
      end
    else (PlaneFolded, fold value σ).

Definition clear_depth : Z -> Recorder -> PlaneClearOutcome * Recorder := clear_plane fold_depth_clear.
Definition clear_stencil : Z -> Recorder -> PlaneClearOutcome * Recorder := clear_plane fold_stencil_clear.

(** The fallbacks when no clear-quad pipeline can be built. *)
Definition clear_color_legacy_break (rgba : Z * Z * Z * Z) (σ : Recorder) : Recorder :=
  let σ := end_current_pass σ in set_pending σ (Pending.with_color (pending σ) (Some rgba)).
Definition clear_depth_legacy_break (value : Z) (σ : Recorder) : Recorder :=
  let σ := end_current_pass σ in set_pending σ (Pending.with_depth (pending σ) (Some value)).
Definition clear_stencil_legacy_break (value : Z) (σ : Recorder) : Recorder :=
  let σ := end_current_pass σ in set_pending σ (Pending.with_stencil (pending σ) (Some value)).

(** ** Clears of regions *)

(** A pass a region clear opens loads what no clear replaces: the quads write
    their regions only. *)
Definition load_color (a : PassColorAttachment) : PassColorAttachment :=
  match load a with CClear _ _ _ _ | CDontCare => set_load a CLoad | CLoad => a end.
Definition load_depth (d : PassDepth) : PassDepth :=
  match depth_load_ d with DClear _ | DDontCare => set_depth_load d DLoad | DLoad => d end.
Definition load_stencil (d : PassDepth) : PassDepth :=
  match stencil_load_ d with SClear _ | SDontCare => set_stencil_load d SLoad | SLoad => d end.

Definition begin_region_color_clear (σ : Recorder) : PixelFormat * Recorder :=
  let σ := if current_pass_has_counting_visibility σ then end_current_pass σ else σ in
  let was_closed := current_pass_closed σ in
  let had_pending := Pending.color (pending σ) in
  let σ := ensure_pass_open σ in
  let σ := if was_closed && negb had_pending
           then alter_last (λ p, with_colors p (load_color (color p))
                                   ((λ a, if is_bound a then load_color a else a) <$> extra_color p)) σ
           else σ in
  (color_attachment_format (bindings σ), σ).

Definition begin_region_depth_stencil_clear (σ : Recorder) : option (bool * PixelFormat) * Recorder :=
  if negb (pass_binds_depth (bindings σ)) then (None, σ)
  else
    let σ := if current_pass_has_counting_visibility σ then end_current_pass σ else σ in
    let σ :=
      if negb (pass_color_covers_depth (bindings σ)) && negb (viewport_inside_color_attachment (bindings σ) (view σ))
      then if RenderScale.is_identity (ColorSlot.scale (rt0 (bindings σ))) && DepthTarget.unscaled (ds (bindings σ))
           then set_rt0_dropped true σ else σ
      else σ in
    let was_closed := current_pass_closed σ in
    let had_depth := bool_decide (is_Some (Pending.depth_clear (pending σ))) in
    let had_stencil := bool_decide (is_Some (Pending.stencil_clear (pending σ))) in
    let σ := ensure_pass_open σ in
    let σ := if was_closed
             then alter_last (λ p, set_pass_depth p (λ d,
                    let d := if had_depth then d else load_depth d in
                    if had_stencil then d else load_stencil d)) σ
             else σ in
    (Some (pass_binds_color (bindings σ), color_attachment_format (bindings σ)), σ).

(** ** A frame *)

(** [FrameReset]; [undefined] is [BackbufferContents::Undefined], which
    [from_swap_effect] gives the discard swap effect alone. *)
Record FrameReset := mkFrameReset {
  fr_backbuffer : Z; fr_backbuffer_srgb : Z; fr_backbuffer_msaa : Z; fr_backbuffer_msaa_srgb : Z;
  fr_sample_count : Z; fr_size : Z * Z; fr_format : PixelFormat; fr_undefined : bool;
  fr_depth_texture : Z; fr_depth_size : Z * Z; fr_depth_has_stencil : bool; fr_render_scale : Z;
  fr_continues_frame : bool }.

Definition reset_targets (r : FrameReset) (b : Bindings) : Bindings :=
  let scale := fr_render_scale r in
  let samples := Z.max (fr_sample_count r) 1 in
  mkBindings
    (ColorSlot.mk (fr_backbuffer r) (fr_backbuffer_msaa r) (fr_backbuffer_msaa_srgb r) samples 0
       (RenderScale.dimension scale (fst (fr_size r)), RenderScale.dimension scale (snd (fr_size r)))
       (fr_size r) (fr_format r) scale true)
    no_extras PipelineState.NONE
    (DepthTarget.mk (fr_depth_texture r) 0 (fr_depth_size r) samples false (fr_depth_has_stencil r)
       (RenderScale.is_identity scale))
    false (srgb b).

Definition reset_frame (r : FrameReset) (σ : Recorder) : Recorder :=
  let σ := set_bindings σ (reset_targets r (bindings σ)) in
  let stale := twin_of (srgb (bindings σ)) (backbuffer_texture (frame σ)) in
  let σ := if stale =? fr_backbuffer_srgb r then σ else (drop_srgb_twin stale σ).2 in
  let σ := (store_srgb_twin (fr_backbuffer_srgb r) (fr_backbuffer r) σ).2 in
  let f := with_upload_end (with_passes (with_frame_sampled (frame σ) ∅) []) 0 in
  let s := seen σ in
  mkRecorder (with_backbuffer f (fr_backbuffer r) (fr_undefined r)) true 0 (recompute_srgb_write (bindings σ)) Pending.none
    (if fr_continues_frame r then s else Seen.mk ∅ ∅ ∅ (Seen.sampleable_depth s))
    (Viewport.with_emitted (view σ) None)
    (Books.mk (fr_render_scale r) (fr_size r) ∅ ((λ _, []) <$> Books.pass_reads (books σ))).

(** [PassState::new]. *)
Definition new_recorder : Recorder :=
  mkRecorder (mkPassState [] 0 ∅ ∅ ∅ ∅ 0 true) true 0
    (mkBindings (ColorSlot.mk 0 0 0 1 0 (0, 0) (0, 0) Bgra8Unorm RenderScale.IDENTITY true) no_extras PipelineState.NONE
       (DepthTarget.mk 0 0 (0, 0) 1 false false false) false (SrgbWrite.mk false false 0 [0; 0; 0] ∅))
    Pending.none (Seen.mk ∅ ∅ ∅ ∅) (Viewport.mk 0 0 0 0 0 ONE_F32 None) (Books.mk RenderScale.IDENTITY (0, 0) ∅ None).
