(* ===== verification/RecorderSettle.v ===== *)
(** What a recorded pass attaches, apart from how it loads: the outline of a pass,
    the pass the bindings describe, and the run of a pass as its commands grow.
    The open pass has the outline of the bindings, so a draw may be thought of as
    a pass of its own over those. *)

From S2P Require Import Prelude Mtl RenderScale PassCommands PassData PassRules PassGpu PassFacts PassClearOnly.
From S2P Require Import PipelineState RecorderState Recorder.

(** ** Outlines *)

Definition outline (p : Pass) :=
  (erase_color <$> color_slots p, (depth_texture p, depth_level p, depth_size p, has_stencil p), visibility_buffer p).

Lemma outline_inv p q : outline p = outline q ->
  erase_color <$> color_slots p = erase_color <$> color_slots q
  /\ depth_texture p = depth_texture q /\ depth_level p = depth_level q /\ depth_size p = depth_size q
  /\ has_stencil p = has_stencil q /\ visibility_buffer p = visibility_buffer q.
Proof.
  intros H. split_and!;
    [exact (f_equal (λ x, x.1.1) H)|exact (f_equal (λ x, x.1.2.1.1.1) H)|exact (f_equal (λ x, x.1.2.1.1.2) H)
    |exact (f_equal (λ x, x.1.2.1.2) H)|exact (f_equal (λ x, x.1.2.2) H)|exact (f_equal snd H)].
Qed.

Lemma outline_slot p q i : outline p = outline q -> erase_color <$> color_slots p !! i = erase_color <$> color_slots q !! i.
Proof. intros (H & _)%outline_inv. by rewrite <- !list_lookup_fmap, H. Qed.

Lemma erase_color_keeps a b : erase_color a = erase_color b ->
  is_bound a = is_bound b /\ color_surface a = color_surface b /\ attachment_texture a = attachment_texture b
  /\ size a = size b /\ texture a = texture b /\ subresource a = subresource b /\ resolve_texture a = resolve_texture b
  /\ msaa_texture a = msaa_texture b.
Proof.
  destruct a, b. unfold erase_color, set_store, set_load, is_bound, color_surface, attachment_texture. cbn.
  intros [= -> -> -> -> -> -> -> ->]. done.
Qed.

Lemma outline_attached p q sl : outline p = outline q -> attached p sl = attached q sl.
Proof.
  intros H. destruct sl as [i| | |]; cbn [attached].
  - pose proof (outline_slot p q i H) as Hs.
    destruct (color_slots p !! i) as [a|], (color_slots q !! i) as [b|]; try done. cbn in Hs |- *.
    apply (inj Some) in Hs. by destruct (erase_color_keeps a b Hs) as (-> & -> & _).
  - unfold depth_surface. by destruct (outline_inv p q H) as (_ & -> & -> & _).
  - unfold stencil_surface. by destruct (outline_inv p q H) as (_ & -> & -> & _ & -> & _).
  - by destruct (outline_inv p q H) as (_ & _ & _ & _ & _ & ->).
Qed.

Lemma outline_length p q : outline p = outline q -> length (color_slots p) = length (color_slots q).
Proof. intros (H & _)%outline_inv. apply (f_equal length) in H. by rewrite !length_fmap in H. Qed.

Lemma outline_slot_of p q s : outline p = outline q -> slot_of p s = slot_of q s.
Proof.
  intros H. unfold slot_of, slots. rewrite (outline_length p q H). f_equal. apply list_find_ext_eq.
  intros sl. by rewrite (outline_attached p q sl H).
Qed.

Lemma outline_slot_size p q sl : outline p = outline q -> slot_size p sl = slot_size q sl.
Proof.
  intros H. destruct sl as [i| | |]; cbn [slot_size]; [|by destruct (outline_inv p q H) as (_ & _ & _ & -> & _)..|done].
  pose proof (outline_slot p q i H) as Hs.
  destruct (color_slots p !! i) as [a|], (color_slots q !! i) as [b|]; try done. apply (inj Some) in Hs.
  by destruct (erase_color_keeps a b Hs) as (_ & _ & _ & -> & _).
Qed.

Lemma erase_bound_list l : size <$> List.filter is_bound (erase_color <$> l) = size <$> List.filter is_bound l.
Proof.
  induction l as [|a l IH]; [done|]. cbn [fmap list_fmap List.filter]. change (is_bound (erase_color a)) with (is_bound a).
  destruct (is_bound a); cbn [fmap list_fmap]; by rewrite IH.
Qed.

Lemma outline_area p q : outline p = outline q -> render_area p = render_area q.
Proof.
  intros H. unfold render_area, bound_sizes. rewrite <- (erase_bound_list (color_slots p)), <- (erase_bound_list (color_slots q)).
  by destruct (outline_inv p q H) as (-> & -> & _ & -> & _).
Qed.

Lemma outline_reaches p q sl px : outline p = outline q -> reaches p sl px = reaches q sl px.
Proof. intros H. unfold reaches. by rewrite (outline_area p q H), (outline_slot_size p q sl H). Qed.

Lemma outline_target p q : outline p = outline q -> target_of p = target_of q.
Proof.
  intros H. unfold target_of. rewrite (outline_area p q H).
  set (view := λ a, if is_bound a then Some (attachment_texture a, subresource a) else None).
  assert (forall l : list PassColorAttachment, view <$> l = view <$> (erase_color <$> l)) as He.
  { intros l. rewrite <- list_fmap_compose. by apply list_fmap_ext. }
  rewrite (He (color_slots p)), (He (color_slots q)). by destruct (outline_inv p q H) as (-> & -> & -> & _).
Qed.

(** Every attachment is stored and none is resolved, as the recorder leaves them. *)
Definition stores_all (p : Pass) : Prop :=
  (forall sl s, attached p sl = Some s -> store_action p sl = Store) /\ forall a, a ∈ color_slots p -> resolve_texture a = 0.

Lemma no_resolving views p s : stores_all p -> resolving views p s = None.
Proof.
  intros [_ H]. unfold resolving. destruct (list_find _ _) as [[i a]|] eqn:E; [|done].
  apply list_find_Some in E as (Hl & [_ Hr] & _). unfold resolves_to in Hr.
  by rewrite (H a (list_elem_of_lookup_2 _ _ _ Hl)) in Hr.
Qed.

(** ** The pass the bindings describe *)

Definition bound_depth (b : Bindings) (a : PassAttach) : PassDepth :=
  let t := opened_depth_texture b a in
  mkDepth t (DepthTarget.level (ds b)) (if t =? 0 then (0, 0) else DepthTarget.size (ds b)) DLoad SLoad Store Store
    (if attaches_depth a then pass_depth_flags (ds b) else 0).

Definition loaded_rt0 (b : Bindings) : PassColorAttachment := rt0_attachment b CLoad.
Definition loaded_extras (b : Bindings) : list PassColorAttachment := imap (extra_attachment b (λ _, CLoad)) (extra_slots b).

Definition bound_pass (b : Bindings) (visibility : Z) (a : PassAttach) : Pass :=
  mkPass (if attaches_color a then loaded_rt0 b
          else with_size (drop_attachment (loaded_rt0 b)) (depth_size_ (bound_depth b a)))
    (if attaches_color a then loaded_extras b else imap (λ _ _, color_none) (extra_slots b))
    (bound_depth b a) (0, 0, 0, 0) [] [] false visibility (mkColorFlags false false) [].

(** What a draw's pass attaches. *)
Definition attach_of (b : Bindings) : PassAttach := if rt0_dropped b then DepthOnly else Both.

Lemma erase_rt0 b l l' : erase_color (rt0_attachment b l) = erase_color (rt0_attachment b l').
Proof. reflexivity. Qed.

Lemma erase_extra b l l' i c : erase_color (extra_attachment b l i c) = erase_color (extra_attachment b l' i c).
Proof. unfold extra_attachment. by destruct (extra_present b i). Qed.

Lemma imap_erase {A} (f g : nat -> A -> PassColorAttachment) (l : list A) :
  (forall i c, erase_color (f i c) = erase_color (g i c)) -> erase_color <$> imap f l = erase_color <$> imap g l.
Proof.
  intros H. apply list_eq. intros i. rewrite !list_lookup_fmap, !list_lookup_imap.
  destruct (l !! i); [|done]. cbn. by rewrite H.
Qed.

Lemma opened_outline σ a : outline (opened_pass σ a) = outline (bound_pass (bindings σ) (current_visibility σ) a).
Proof.
  unfold outline. f_equal. f_equal. unfold color_slots. cbn [fmap list_fmap color extra_color opened_pass bound_pass].
  unfold opened_color, opened_extras, loaded_extras. f_equal.
  - by destruct a.
  - destruct (attaches_color a); apply imap_erase; [|done]. intros. apply erase_extra.
Qed.

Lemma color_attachment_store w t f c l : store (color_attachment w t f c l) = Store.
Proof. reflexivity. Qed.

Lemma extra_attachment_cases b l i c :
  extra_attachment b l i c = color_none \/ (extra_present b i = true /\ store (extra_attachment b l i c) = Store).
Proof. unfold extra_attachment. destruct (extra_present b i); [by right|by left]. Qed.

Lemma opened_slot σ a x : x ∈ color_slots (opened_pass σ a) -> resolve_texture x = 0 /\ (is_bound x = true -> store x = Store).
Proof.
  unfold color_slots. intros [->|Hx]%elem_of_cons.
  - cbn [color opened_pass]. unfold opened_color. by destruct (attaches_color a).
  - cbn [extra_color opened_pass] in Hx. unfold opened_extras in Hx. apply list_elem_of_lookup in Hx as [i Hx].
    rewrite list_lookup_imap in Hx. destruct (extra_slots _ !! i) as [c|]; [|done]. cbn in Hx. injection Hx as <-.
    destruct (attaches_color a); [|done]. unfold extra_attachment. by destruct (extra_present _ i).
Qed.

Lemma opened_stores_all σ a : stores_all (opened_pass σ a).
Proof.
  split; [|intros x Hx; by eapply opened_slot].
  intros [i| | |] s Hs; try done. cbn [attached store_action] in *.
  destruct (color_slots _ !! i) as [x|] eqn:E; [|done]. cbn in Hs. destruct (is_bound x) eqn:Hb; [|done].
  eapply opened_slot; [|done]. by eapply list_elem_of_lookup_2.
Qed.

Lemma bound_stores_all b vis a : stores_all (bound_pass b vis a).
Proof.
  assert (forall x, x ∈ color_slots (bound_pass b vis a) -> resolve_texture x = 0 /\ (is_bound x = true -> store x = Store)) as H.
  { unfold color_slots. intros x [->|Hx]%elem_of_cons; cbn [color extra_color bound_pass] in *; destruct (attaches_color a); try done.
    - apply list_elem_of_lookup in Hx as [i Hx]. unfold loaded_extras in Hx. rewrite list_lookup_imap in Hx.
      destruct (extra_slots b !! i) as [c|]; [|done]. cbn in Hx. injection Hx as <-. unfold extra_attachment.
      by destruct (extra_present b i).
    - apply list_elem_of_lookup in Hx as [i Hx]. rewrite list_lookup_imap in Hx.
      by destruct (extra_slots b !! i); [injection Hx as <-|]. }
  split; [|intros x Hx; by apply H].
  intros [i| | |] s Hs; try done. cbn [attached store_action] in *.
  destruct (color_slots _ !! i) as [x|] eqn:E; [|done]. cbn in Hs. destruct (is_bound x) eqn:Hb; [|done].
  apply H; [|done]. by eapply list_elem_of_lookup_2.
Qed.

(** ** Running a pass as it grows *)

Section Run.
Context {T : Type} {views : Views} `{L : GpuLaws T views}.

Lemma run_render_eq p m s px : stores_all p ->
  run_render views p m s px
  = match slot_of p s with
    | Some sl => if reaches p sl px then draws p m (open_tile p m) sl px else if discards_load p sl then None else m s px
    | None => m s px
    end.
Proof.
  intros Hs. unfold run_render, close_tile. rewrite (no_resolving views p s Hs).
  destruct (slot_of p s) as [sl|] eqn:E; [|done]. by rewrite (proj1 Hs sl s (slot_of_attached _ _ _ E)).
Qed.

(** A pass without draws leaves what its load actions do. *)
Lemma run_undrawn p m s px : stores_all p -> has_draw p = false ->
  run_render views p m s px
  = match slot_of p s with
    | Some sl => if reaches p sl px then loaded (load_action p sl) (m s) px else if discards_load p sl then None else m s px
    | None => m s px
    end.
Proof.
  intros Hs Hd. rewrite run_render_eq by done. destruct (slot_of p s) as [sl|] eqn:E; [|done].
  rewrite (no_draws p m _ Hd), open_tile_eq, (slot_of_attached _ _ _ E). cbn. by destruct (reaches p sl px).
Qed.

Lemma draws_push p q c m t : commands q = commands p ++ [c] -> target_of q = target_of p ->
  draws q m t
  = if is_draw c then draw (target_of p) m (encoder_after (commands p) fresh) c (draws p m t) else draws p m t.
Proof.
  intros Hc Ht. unfold draws. rewrite Hc, Ht, run_commands_app.
  destruct (run_commands (target_of p) m (commands p) (fresh, t)) as [e t'] eqn:E.
  assert (e = encoder_after (commands p) fresh) as -> by (rewrite <- (run_commands_encoder (target_of p) m _ _ t); by rewrite E).
  unfold run_commands, exec. cbn [foldl fst snd]. by destruct (is_draw c).
Qed.

(** A draw as a pass of its own, over what its target holds. *)
Definition draw_alone (q : Pass) (e : Encoder) (c : Command) (m : Mem T) : Mem T :=
  close_tile views q m (draw (target_of q) m e c (open_tile q m)).

(** The draw joins the pass that is open on its target; nothing it samples is
    attached, or [dead]. *)
Lemma draw_joins (dead : Surface -> Prop) (p p' q : Pass) c (m : Mem T) (M : Mem T) :
  is_draw c = true -> commands p' = commands p ++ [c] -> outline p' = outline p -> outline q = outline p ->
  (forall sl, load_action p' sl = load_action p sl) ->
  (forall sl, attached q sl <> None -> load_action q sl = LLoad) ->
  stores_all p -> stores_all p' -> stores_all q -> distinct_slots p ->
  (forall sl s, attached p sl = Some s -> ~ dead s) ->
  (forall sl b tex, encoder_after (commands p) fresh sl = Some b -> command_sampled_texture b = Some tex ->
     ~ read_through views (λ s, (exists sl, attached p sl = Some s) \/ dead s) tex) ->
  mem_le dead M (run_render views p m) ->
  mem_le dead (draw_alone q (encoder_after (commands p) fresh) c M) (run_render views p' m).
Proof.
  intros Hc Hcs Ho' Hoq Hl Hq Hsp Hsp' Hsq Hd Hdead Hf HM.
  assert (forall s px v, ~ dead s -> M s px = Some v -> slot_of p s = None -> m s px = Some v) as Hout.
  { intros s px v Hs Hv Hn. specialize (HM s Hs px v Hv). by rewrite run_render_eq, Hn in HM. }
  assert (tile_le nowhere (open_tile q M) (draws p m (open_tile p m))) as Htile.
  { intros sl _ px v. rewrite open_tile_eq, (outline_attached q p sl Hoq).
    destruct (attached p sl) as [s|] eqn:Ea; [|done]. cbn. rewrite (outline_reaches q p sl px Hoq).
    destruct (reaches p sl px) eqn:Er; [|done].
    rewrite (Hq sl) by (by rewrite (outline_attached q p sl Hoq), Ea). cbn [loaded]. intros Hv.
    specialize (HM s (Hdead _ _ Ea) px v Hv). rewrite run_render_eq in HM by done.
    by rewrite (slot_of_Some p s sl Hd Ea), Er in HM. }
  set (e := encoder_after (commands p) fresh) in *.
  assert (tile_le nowhere (draw (target_of q) M e c (open_tile q M))
                          (draw (target_of p) m e c (draws p m (open_tile p m)))) as Hdraw.
  { rewrite (outline_target q p Hoq).
    apply (draw_mono (target_of p) e c (λ s, (exists sl, attached p sl = Some s) \/ dead s)); [done| |done].
    intros s Hs px v Hv. apply Hout; [tauto|done|]. apply slot_of_None. intros sl Ha. apply Hs. left. by exists sl. }
  intros s Hsd px v. unfold draw_alone, close_tile. rewrite (no_resolving views q s Hsq), (outline_slot_of q p s Hoq).
  rewrite run_render_eq, (outline_slot_of p' p s Ho') by done.
  destruct (slot_of p s) as [sl|] eqn:Es; [|intros Hv; by apply Hout].
  pose proof (slot_of_attached _ _ _ Es) as Ha.
  rewrite (proj1 Hsq sl s) by (by rewrite (outline_attached q p sl Hoq)).
  rewrite (outline_reaches q p sl px Hoq), (outline_reaches p' p sl px Ho').
  destruct (reaches p sl px) eqn:Er.
  - rewrite (draws_push p p' c) by (done || by apply outline_target). rewrite Hc. intros Hv.
    apply Hdraw in Hv; [|intros []]. revert Hv. apply (draw_mono (target_of p) e c nowhere m m); [intros ? ? ? _ _ (? & [] & _)|apply mem_le_refl| |intros []].
    apply (carries_nowhere p). intros sl' _ px' v'. rewrite !open_tile_eq, (outline_attached p' p sl' Ho').
    destruct (attached p sl'); [|done]. cbn. by rewrite (outline_reaches p' p sl' px' Ho'), Hl.
  - unfold discards_load. rewrite (Hq sl), (Hl sl) by (by rewrite (outline_attached q p sl Hoq), Ha). intros Hv.
    specialize (HM s Hsd px v Hv). rewrite run_render_eq, Es, Er in HM by done. exact HM.
Qed.

(** A change of tags, of commands that draw nothing, or of a discarded load into
    a real one. *)
Lemma run_alike p q cs (m : Mem T) : stores_all p -> stores_all q -> outline q = outline p ->
  leading_blits q = leading_blits p -> commands q = commands p ++ cs -> (forall c, c ∈ cs -> is_draw c = false) ->
  (forall sl, attached p sl <> None ->
     load_action q sl = load_action p sl \/ load_action p sl = LDontCare /\ load_action q sl = LLoad) ->
  mem_le nowhere (run_pass views p m) (run_pass views q m).
Proof.
  intros Hp Hq Ho Hb Hc Hcs Hl s _ px v. unfold run_pass. rewrite Hb. set (m1 := run_blits _ m). clearbody m1.
  rewrite !run_render_eq, (outline_slot_of q p s Ho) by done. destruct (slot_of p s) as [sl|] eqn:Es; [|done].
  rewrite (outline_reaches q p sl px Ho). pose proof (slot_of_attached _ _ _ Es) as Ha. destruct (reaches p sl px).
  - assert (forall t, draws q m1 t = draws p m1 t) as Hd.
    { intros t. unfold draws. rewrite Hc, (outline_target q p Ho), run_commands_app.
      generalize (run_commands (target_of p) m1 (commands p) (fresh, t)). revert Hcs. clear. induction cs as [|c cs IH]; intros Hcs st; [done|].
      unfold run_commands, exec. cbn [foldl]. rewrite (Hcs c) by by left. unfold run_commands in IH. rewrite IH by (intros; apply Hcs; by right). done. }
    rewrite Hd. apply (carries_nowhere p m1); [|intros []]. intros sl' _ px' v'. rewrite !open_tile_eq, (outline_attached q p sl' Ho).
    destruct (attached p sl') eqn:E; [|done]. cbn. rewrite (outline_reaches q p sl' px' Ho). destruct (reaches p sl' px'); [|done].
    destruct (Hl sl') as [-> | [-> ->]]; [by rewrite E|done|done].
  - unfold discards_load. destruct (Hl sl) as [-> | [-> ->]]; [by rewrite Ha|done|done].
Qed.
End Run.

(** * Pending work

    What is still pending means what it would if it were done now: [settle] is the
    memory once the pending blits and clears have run.  Opening a pass moves the
    pending clears of what it attaches into its load actions and leaves that
    memory as it was. *)

Section Settle.
Context {T : Type} {views : Views} `{L : GpuLaws T views}.

(** ** Pending clears *)

Definition clear_targets (b : Bindings) : list PassColorAttachment := loaded_rt0 b :: loaded_extras b.

Definition clear_target (b : Bindings) (s : Surface) : option PassColorAttachment :=
  snd <$> list_find (λ a, is_bound a = true /\ color_surface a = s) (clear_targets b).

Definition depth_plane_of (b : Bindings) (pl : Plane) : Surface :=
  surface (DepthTarget.texture (ds b)) (Z.shiftl (DepthTarget.level (ds b)) 16) pl.

(** The texel the pending clears put everywhere on a surface, if they clear it. *)
Definition pending_texel (b : Bindings) (p : Pending.t) (s : Surface) : option T :=
  match s_plane s with
  | ColorPlane =>
      c ← Pending.color_clear p; a ← clear_target b s; Some (color_texel (attachment_texture a) c)
  | DepthPlane =>
      v ← Pending.depth_clear p;
      if bool_decide (s = depth_plane_of b DepthPlane) && negb (DepthTarget.texture (ds b) =? 0)
      then Some (depth_texel v) else None
  | StencilPlane =>
      v ← Pending.stencil_clear p;
      if bool_decide (s = depth_plane_of b StencilPlane) && negb (DepthTarget.texture (ds b) =? 0)
         && DepthTarget.has_stencil (ds b)
      then Some (stencil_texel v) else None
  | CounterPlane => None
  end.

(** The clears as they would be at once. *)
Definition apply_clears (b : Bindings) (p : Pending.t) (m : Mem T) : Mem T :=
  λ s px, match pending_texel b p s with Some v => Some v | None => m s px end.

Definition settle (b : Bindings) (p : Pending.t) (m : Mem T) : Mem T :=
  apply_clears b p (run_blits (Pending.leading_blits p) m).

Lemma apply_clears_none b m p : Pending.color_clear p = None -> Pending.depth_clear p = None -> Pending.stencil_clear p = None ->
  forall s px, apply_clears b p m s px = m s px.
Proof. intros H1 H2 H3 s px. unfold apply_clears, pending_texel. rewrite H1, H2, H3. by destruct (s_plane s). Qed.

Lemma apply_clears_le b p m1 m2 : mem_le nowhere m1 m2 -> mem_le nowhere (apply_clears b p m1) (apply_clears b p m2).
Proof.
  intros H s _ px v. unfold apply_clears. destruct (pending_texel b p s); [done|]. apply H. intros [].
Qed.

(** ** Opening a pass *)

Lemma opened_color_attached σ a i s :
  attached (opened_pass σ a) (SlotColor i) = Some s <->
  attaches_color a = true /\ exists x, clear_targets (bindings σ) !! i = Some x /\ is_bound x = true /\ color_surface x = s.
Proof.
  rewrite (outline_attached _ _ _ (opened_outline σ a)). cbn [attached].
  unfold color_slots. cbn [color extra_color bound_pass]. destruct (attaches_color a); cbn [attaches_color].
  - change (loaded_rt0 (bindings σ) :: loaded_extras (bindings σ)) with (clear_targets (bindings σ)).
    destruct (clear_targets (bindings σ) !! i) as [x|].
    + change (Some x ≫= ?f) with (f x). cbn beta. destruct (is_bound x) eqn:E; split.
      * intros [= Hs]. split; [done|]. by exists x.
      * intros (_ & y & [= <-] & _ & <-). done.
      * done.
      * intros (_ & y & [= <-] & Hb & _). congruence.
    + split; [done|]. by intros (_ & y & ? & _).
  - split; [|by intros [? _]]. set (l := _ :: imap _ _). destruct (l !! i) as [x|] eqn:E; [|done].
    assert (is_bound x = false) as Hb; [|change (Some x ≫= ?f) with (f x); cbn beta; by rewrite Hb].
    apply list_elem_of_lookup_2, elem_of_cons in E as [->|(j & E)%list_elem_of_lookup]; [done|].
    rewrite list_lookup_imap in E. by destruct (extra_slots (bindings σ) !! j); [injection E as <-|].
Qed.

Lemma clear_target_Some b s : (exists x i, clear_targets b !! i = Some x /\ is_bound x = true /\ color_surface x = s) <->
  is_Some (clear_target b s).
Proof.
  unfold clear_target. destruct (list_find _ _) as [[i x]|] eqn:E; cbn.
  - apply list_find_Some in E as (Hl & Hb & _). split; [by eexists|]. intros _. by exists x, i.
  - apply list_find_None in E. split; [|by intros []].
    intros (x & i & Hl & Hb). rewrite Forall_forall in E. by destruct (E x (list_elem_of_lookup_2 _ _ _ Hl)).
Qed.

Lemma color_surface_plane x : s_plane (color_surface x) = ColorPlane.
Proof. reflexivity. Qed.

(** The attachment of a bound slot carries the load its target gets. *)
Lemma opened_color_slot σ a i x : attaches_color a = true -> clear_targets (bindings σ) !! i = Some x -> is_bound x = true ->
  exists y c, color_slots (opened_pass σ a) !! i = Some y /\ load y = opened_load σ a c
    /\ texture x = ColorSlot.texture c /\ subresource x = ColorSlot.subresource c
    /\ attachment_texture y = attachment_texture x.
Proof.
  intros Ha. unfold clear_targets, color_slots. cbn [color extra_color opened_pass]. unfold opened_color, opened_extras. rewrite Ha.
  destruct i as [|i]; [|change ((?x :: ?l) !! S i) with (l !! i)].
  - intros [= <-] _. eexists _, (rt0 (bindings σ)). split; [done|]. cbn. done.
  - unfold loaded_extras. rewrite !list_lookup_imap. destruct (extra_slots (bindings σ) !! i) as [c|]; [|done]. cbn [fmap option_fmap option_map].
    intros [= <-]. unfold extra_attachment. destruct (extra_present (bindings σ) i); [|done]. intros _.
    eexists _, c. split; [done|]. done.
Qed.

Lemma distinct_target b vis i x s : distinct_slots (bound_pass b vis Both) ->
  clear_targets b !! i = Some x -> is_bound x = true -> color_surface x = s -> clear_target b s = Some x.
Proof.
  intros Hd Hl Hb Hs. assert (is_Some (clear_target b s)) as [y Hy] by (apply clear_target_Some; by exists x, i).
  rewrite Hy. f_equal. unfold clear_target in Hy. destruct (list_find _ _) as [[j z]|] eqn:E; [|done]. injection Hy as ->.
  apply list_find_Some in E as (Hl' & [Hb' Hs'] & _).
  assert (SlotColor i = SlotColor j) as [= ->]; [|congruence].
  apply (Hd _ _ s); unfold attached, color_slots; cbn [color extra_color bound_pass attaches_color].
  - change (loaded_rt0 b :: loaded_extras b) with (clear_targets b). rewrite Hl. cbn. by rewrite Hb, Hs.
  - change (loaded_rt0 b :: loaded_extras b) with (clear_targets b). rewrite Hl'. cbn. by rewrite Hb', Hs'.
Qed.

(** Rule A's grounds for giving up what an attachment holds. *)
Definition unseen_color (σ : Recorder) (t sub : Z) : Prop :=
  is_discarded_back_buffer σ t = true /\ (t, sub) ∉ Seen.color_rts (seen σ)
  /\ t ∉ seen_sampled_textures (frame σ) /\ t ∉ Seen.blit_written (seen σ).

Definition unseen_depth (σ : Recorder) (t : Z) : Prop :=
  t <> 0 /\ t ∉ Seen.depth_rts (seen σ) /\ t ∉ seen_sampled_textures (frame σ) /\ t ∉ Seen.blit_written (seen σ).

Definition unseen_slot (σ : Recorder) (sl : Slot) (s : Surface) : Prop :=
  match sl with
  | SlotColor _ => exists x, x ∈ clear_targets (bindings σ) /\ is_bound x = true /\ color_surface x = s
                             /\ unseen_color σ (texture x) (subresource x)
  | SlotDepth | SlotStencil =>
      unseen_depth σ (DepthTarget.texture (ds (bindings σ))) /\ DepthTarget.sampleable (ds (bindings σ)) = false
      /\ pass_binds_depth (bindings σ) = true
      /\ (s = depth_plane_of (bindings σ) DepthPlane \/ s = depth_plane_of (bindings σ) StencilPlane)
  | SlotCount => False
  end.

Definition opened_as (σ : Recorder) (sl : Slot) (s : Surface) (l : LoadAction T) : Prop :=
  match pending_texel (bindings σ) (pending σ) s with
  | Some v => l = LClear v
  | None => l = LLoad \/ l = LDontCare /\ unseen_slot σ sl s
  end.

Lemma opened_load_cases σ a c :
  match (if attaches_color a then Pending.color_clear (pending σ) else None) with
  | Some (r, g, b, x) => opened_load σ a c = CClear r g b x
  | None => opened_load σ a c = CLoad
            \/ opened_load σ a c = CDontCare /\ unseen_color σ (ColorSlot.texture c) (ColorSlot.subresource c)
  end.
Proof.
  unfold opened_load, color_load_for. destruct (if attaches_color a then _ else _) as [[[[r g] b] x]|]; [done|].
  destruct (_ && _ && _ && _ && _) eqn:E; [right|by left]. split; [done|].
  rewrite !andb_true_iff, !negb_true_iff, !bool_decide_eq_false in E. by destruct E as [[[[_ ?] ?] ?] ?].
Qed.

Lemma depth_first_use_true σ t : depth_first_use σ t = true -> unseen_depth σ t /\ DepthTarget.sampleable (ds (bindings σ)) = false.
Proof.
  unfold depth_first_use, unseen_depth. rewrite !andb_true_iff, !negb_true_iff, !bool_decide_eq_false, Z.eqb_neq. tauto.
Qed.

Lemma opened_depth_attached σ a sl s : attached (opened_pass σ a) sl = Some s -> sl = SlotDepth \/ sl = SlotStencil ->
  attaches_depth a = true /\ pass_binds_depth (bindings σ) = true /\ DepthTarget.texture (ds (bindings σ)) <> 0
  /\ opened_depth_texture (bindings σ) a = DepthTarget.texture (ds (bindings σ))
  /\ s = depth_plane_of (bindings σ) (if decide (sl = SlotDepth) then DepthPlane else StencilPlane)
  /\ (sl = SlotStencil -> DepthTarget.has_stencil (ds (bindings σ)) = true).
Proof.
  intros Ha Hsl.
  assert (opened_depth_texture (bindings σ) a <> 0) as Hn.
  { destruct Hsl as [-> | ->]; cbn [attached depth_texture depth_texture_ depth opened_pass opened_depth] in Ha;
      unfold depth_texture, opened_pass, opened_depth in Ha; cbn [depth depth_texture_] in Ha;
      destruct (opened_depth_texture (bindings σ) a =? 0) eqn:E; try done; by apply Z.eqb_neq in E. }
  unfold opened_depth_texture in Hn |- *. destruct (attaches_depth a && pass_binds_depth (bindings σ)) eqn:Hb; [|done].
  apply andb_true_iff in Hb as [Had Hbd]. split_and!; [done..| |];
    destruct Hsl as [-> | ->]; cbn [attached] in Ha; unfold depth_surface, stencil_surface, has_stencil, depth_texture, depth_level, depth_flags, opened_pass, opened_depth in Ha;
    cbn [depth depth_texture_ depth_level_ depth_flags_] in Ha; unfold opened_depth_texture in Ha; rewrite Had, Hbd in Ha; cbn [andb] in Ha;
    rewrite (proj2 (Z.eqb_neq _ 0) Hn) in Ha; cbn [orb] in Ha; try done.
  - by injection Ha as <-.
  - destruct (negb _); [done|]. by injection Ha as <-.
  - intros _. unfold pass_depth_flags in Ha. by destruct (DepthTarget.has_stencil (ds (bindings σ))), (DepthTarget.sampleable (ds (bindings σ))).
Qed.

Lemma opened_action σ a sl s vis : distinct_slots (bound_pass (bindings σ) vis Both) ->
  attached (opened_pass σ a) sl = Some s ->
  opened_as σ sl s (load_action (opened_pass σ a) sl) /\ pending_texel (bindings σ) (consumed σ a) s = None.
Proof.
  intros Hd Ha. unfold opened_as. destruct sl as [i| | |].
  - apply opened_color_attached in Ha as (Hac & x & Hl & Hb & <-).
    destruct (opened_color_slot σ a i x Hac Hl Hb) as (y & c & Hy & Hld & Ht & Hs & Hv).
    unfold pending_texel. rewrite color_surface_plane, (distinct_target _ _ _ _ _ Hd Hl Hb eq_refl).
    unfold consumed. rewrite Hac. cbn [Pending.color_clear mbind option_bind]. split; [|done].
    cbn [load_action]. rewrite Hy. unfold color_action. rewrite Hld, Hv. pose proof (opened_load_cases σ a c) as Hc.
    rewrite Hac in Hc. destruct (Pending.color_clear (pending σ)) as [[[[r g] bl] al]|]; cbn [mbind option_bind].
    + by rewrite Hc.
    + destruct Hc as [-> | [-> Hu]]; [by left|right]. split; [done|]. exists x. rewrite Ht, Hs.
      split_and!; [by eapply list_elem_of_lookup_2|done|done|done].
  - destruct (opened_depth_attached σ a _ s Ha) as (Had & Hbd & Hn & Ht & -> & _); [by left|]. rewrite decide_True by done.
    unfold pending_texel. cbn [s_plane depth_plane_of decide]. unfold consumed. rewrite Had, Hbd. cbn [andb Pending.depth_clear].
    split; [|done]. cbn [load_action]. unfold depth_load, opened_pass. cbn [depth opened_depth depth_load_].
    rewrite Ht, (proj2 (Z.eqb_neq _ 0) Hn), bool_decide_eq_true_2 by done. cbn [negb andb].
    destruct (Pending.depth_clear (pending σ)) as [v|]; cbn [mbind option_bind depth_load_of]; [done|].
    destruct (depth_first_use σ _) eqn:E; [right|by left]. apply depth_first_use_true in E as [? ?]. split; [done|].
    cbn [unseen_slot]. split_and!; try done. by left.
  - destruct (opened_depth_attached σ a _ s Ha) as (Had & Hbd & Hn & Ht & -> & Hst); [by right|]. rewrite decide_False by done.
    unfold pending_texel. cbn [s_plane depth_plane_of decide]. unfold consumed. rewrite Had, Hbd. cbn [andb Pending.stencil_clear].
    split; [|done]. cbn [load_action]. unfold stencil_load, opened_pass. cbn [depth opened_depth stencil_load_].
    rewrite Ht, (proj2 (Z.eqb_neq _ 0) Hn), bool_decide_eq_true_2, Hst by done. cbn [negb andb].
    destruct (Pending.stencil_clear (pending σ)) as [v|]; cbn [mbind option_bind stencil_load_of]; [done|].
    destruct (depth_first_use σ _) eqn:E; [right|by left]. apply depth_first_use_true in E as [? ?]. split; [done|].
    cbn [unseen_slot]. split_and!; try done. by right.
  - cbn [attached] in Ha. injection Ha as <-. unfold pending_texel. cbn. split; [by left|done].
Qed.

(** A surface the pass leaves alone keeps its pending clear. *)
Lemma unopened_pending σ a s : slot_of (opened_pass σ a) s = None ->
  pending_texel (bindings σ) (consumed σ a) s = pending_texel (bindings σ) (pending σ) s.
Proof.
  intros Hs. unfold pending_texel. destruct (s_plane s) eqn:Hp; [| | |done].
  - unfold consumed. destruct (attaches_color a) eqn:Ha; [|done]. cbn [Pending.color_clear mbind option_bind].
    destruct (Pending.color_clear (pending σ)) as [c|]; [|done]. cbn [mbind option_bind].
    destruct (clear_target (bindings σ) s) as [y|] eqn:E; [|done]. exfalso.
    assert (is_Some (clear_target (bindings σ) s)) as (x & i & Hl & Hb & Hx)%clear_target_Some by (rewrite E; by eexists).
    rewrite slot_of_None in Hs. apply (Hs (SlotColor i)). apply opened_color_attached. split; [done|]. by exists x.
  - unfold consumed. destruct (attaches_depth a && pass_binds_depth (bindings σ)) eqn:Hb; [|done]. cbn [Pending.depth_clear mbind option_bind].
    destruct (Pending.depth_clear (pending σ)) as [c|]; [|done]. cbn [mbind option_bind].
    destruct (bool_decide (s = _) && _) eqn:E; [|done]. exfalso. apply andb_true_iff in E as [->%bool_decide_eq_true Hn].
    rewrite slot_of_None in Hs. apply (Hs SlotDepth). cbn [attached]. unfold depth_texture, depth_surface, depth_level, depth_texture, opened_pass, opened_depth, opened_depth_texture.
    cbn [depth depth_texture_ depth_level_]. rewrite Hb. apply negb_true_iff in Hn. by rewrite Hn.
  - unfold consumed. destruct (attaches_depth a && pass_binds_depth (bindings σ)) eqn:Hb; [|done]. cbn [Pending.stencil_clear mbind option_bind].
    destruct (Pending.stencil_clear (pending σ)) as [c|]; [|done]. cbn [mbind option_bind].
    destruct (bool_decide (s = _) && _ && _) eqn:E; [|done]. exfalso. rewrite !andb_true_iff in E. destruct E as [[->%bool_decide_eq_true Hn] Hst].
    rewrite slot_of_None in Hs. apply (Hs SlotStencil). cbn [attached]. unfold has_stencil, depth_flags, stencil_surface, depth_texture, depth_level, opened_pass, opened_depth, opened_depth_texture.
    cbn [depth depth_texture_ depth_level_ depth_flags_]. rewrite Hb. apply negb_true_iff in Hn. rewrite Hn.
    apply andb_true_iff in Hb as [-> _]. unfold pass_depth_flags. rewrite Hst. by destruct (DepthTarget.sampleable _).
Qed.

Lemma viewport_no_draw vp z1 z2 : is_draw (set_viewport_command vp z1 z2) = false.
Proof. by destruct vp as [[[? ?] ?] ?]. Qed.

Lemma opened_undrawn σ a : has_draw (opened_pass σ a) = false.
Proof. unfold has_draw. cbn [commands opened_pass existsb]. by rewrite viewport_no_draw. Qed.

(** Opening a pass settles what it consumes. *)
Lemma opens_le σ a vis (m M : Mem T) :
  distinct_slots (bound_pass (bindings σ) vis Both) ->
  (forall sl s v px, attached (opened_pass σ a) sl = Some s -> load_action (opened_pass σ a) sl = LClear v ->
     reaches (opened_pass σ a) sl px = false -> run_blits (Pending.leading_blits (pending σ)) m s px = Some v) ->
  (forall sl s px, attached (opened_pass σ a) sl = Some s -> unseen_slot σ sl s ->
     pending_texel (bindings σ) (pending σ) s = None -> M s px = None) ->
  mem_le nowhere M (settle (bindings σ) (pending σ) m) ->
  mem_le nowhere M (settle (bindings σ) (consumed σ a) (run_pass views (opened_pass σ a) m)).
Proof.
  intros Hd Hr Hu HM s _ px v Hv. specialize (HM s ltac:(intros []) px v Hv). revert HM.
  unfold settle, apply_clears. change (Pending.leading_blits (consumed σ a)) with (@nil BlitCommand). cbn [run_blits foldl].
  unfold run_pass. change (leading_blits (opened_pass σ a)) with (Pending.leading_blits (pending σ)).
  set (m1 := run_blits _ m) in *.
  rewrite run_undrawn by (apply opened_stores_all || apply opened_undrawn).
  destruct (slot_of (opened_pass σ a) s) as [sl|] eqn:Es; [|by rewrite unopened_pending].
  pose proof (slot_of_attached _ _ _ Es) as Ha.
  destruct (opened_action σ a sl s vis Hd Ha) as [Hact ->]. unfold opened_as in Hact.
  destruct (pending_texel (bindings σ) (pending σ) s) as [w|] eqn:Ep.
  - intros [= ->]. unfold discards_load. rewrite Hact. destruct (reaches _ sl px) eqn:Er; [done|]. by eapply Hr.
  - intros Hm1. unfold discards_load. destruct Hact as [-> | [-> Hus]]; [by destruct (reaches _ sl px)|].
    rewrite (Hu sl s px Ha Hus Ep) in Hv. done.
Qed.
End Settle.
