(* ===== verification/RecorderOpen.v ===== *)
(** Opening and flushing, as memory: whatever passes [open_pass] and
    [flush_pending_clears] record, what the frame would hold with its pending
    clears and blits done stays what it was. *)

From S2P Require Import Prelude Mtl RenderScale PipelineState PassCommands PassData PassRules PassGpu.
From S2P Require Import PassFacts PassClearOnly RecorderState Recorder RecorderOps RecorderSettle.

(** What a pass needs of the bindings to be opened on them: no surface bound
    twice, a depth surface as large as the colour targets, extents a [u64] holds,
    extra targets only beside target 0, and a depth surface when target 0 is left
    out. *)
Record ready (b : Bindings) : Prop := {
  rd_distinct : distinct_slots (bound_pass b 0 Both);
  rd_area : area_covers_colors (bound_pass b 0 Both);
  rd_extent : extent_covers (u64_max, u64_max) (DepthTarget.size (ds b)) = true;
  rd_size_nonneg : 0 <= fst (DepthTarget.size (ds b)) /\ 0 <= snd (DepthTarget.size (ds b));
  rd_rt0 : ColorSlot.texture (rt0 b) = 0 -> forall x, x ∈ loaded_extras b -> is_bound x = false;
  rd_dropped : rt0_dropped b = true -> pass_binds_depth b = true;
  (** an extra target takes part at the size of target 0 *)
  rd_extras : forall i c, extra_slots b !! i = Some c -> extra_present b i = true -> ColorSlot.size c = ColorSlot.size (rt0 b) }.

Lemma area_covers p sz : (forall x, x ∈ bound_sizes p -> extent_covers x sz = true) ->
  extent_covers (u64_max, u64_max) sz = true -> extent_covers (render_area p) sz = true.
Proof.
  unfold render_area. intros H Hm. induction (bound_sizes p) as [|x l IH]; [done|]. cbn [foldr].
  apply smaller_glb; [apply H; by left|]. apply IH. intros y Hy. apply H. by right.
Qed.

Lemma bound_sizes_in p x : x ∈ bound_sizes p <->
  (exists a, a ∈ color_slots p /\ is_bound a = true /\ size a = x) \/ (depth_texture p <> 0 /\ x = depth_size p).
Proof.
  unfold bound_sizes. rewrite elem_of_app, list_elem_of_fmap. split.
  - intros [(a & -> & Ha)|Hx].
    + left. exists a. rewrite list_elem_of_In, filter_In in Ha. destruct Ha as [Ha Hb]. by rewrite <- list_elem_of_In in Ha.
    + right. destruct (depth_texture p =? 0) eqn:E; [by apply not_elem_of_nil in Hx|]. apply Z.eqb_neq in E.
      by apply list_elem_of_singleton in Hx.
  - intros [(a & Ha & Hb & <-)|[Hn ->]].
    + left. exists a. split; [done|]. rewrite list_elem_of_In, filter_In. by rewrite <- list_elem_of_In.
    + right. apply Z.eqb_neq in Hn. rewrite Hn. by apply list_elem_of_singleton.
Qed.

Lemma bound_slots_both b vis : color_slots (bound_pass b vis Both) = clear_targets b.
Proof. reflexivity. Qed.

Lemma bound_target_size b x : ready b -> x ∈ clear_targets b -> is_bound x = true ->
  size x = ColorSlot.size (rt0 b) /\ ColorSlot.texture (rt0 b) <> 0.
Proof.
  intros R. unfold clear_targets. intros [->|Hx]%elem_of_cons Hb.
  - split; [done|]. unfold is_bound, loaded_rt0, rt0_attachment, color_attachment in Hb. cbn in Hb.
    by apply negb_true_iff, Z.eqb_neq in Hb.
  - assert (ColorSlot.texture (rt0 b) <> 0) as Hn by (intros H; pose proof (rd_rt0 b R H x Hx); congruence).
    split; [|done]. unfold loaded_extras in Hx. apply list_elem_of_lookup in Hx as [i Hx]. rewrite list_lookup_imap in Hx.
    destruct (extra_slots b !! i) as [c|] eqn:E; [|done]. injection Hx as <-. unfold extra_attachment in *.
    destruct (extra_present b i) eqn:Ep; [|done]. cbn. by apply (rd_extras b R i).
Qed.

Lemma bound_depth_size b a : opened_depth_texture b a <> 0 -> depth_size_ (bound_depth b a) = DepthTarget.size (ds b).
Proof. intros Hn. unfold bound_depth. cbn. by rewrite (proj2 (Z.eqb_neq _ 0) Hn). Qed.

(** The attachments of a pass on part of the bindings are among those of the whole. *)
Lemma bound_attached_both b vis a sl s : attached (bound_pass b vis a) sl = Some s -> attached (bound_pass b vis Both) sl = Some s.
Proof.
  destruct a; [done| |].
  - destruct sl; try done.
  - destruct sl as [i| | |]; try done. cbn [attached]. unfold color_slots. cbn [color extra_color bound_pass attaches_color].
    destruct i as [|i]; [done|]. change ((?x :: ?l) !! S i) with (l !! i). rewrite list_lookup_imap. by destruct (extra_slots b !! i).
Qed.

Lemma bound_distinct b vis a : ready b -> distinct_slots (bound_pass b vis a).
Proof.
  intros R sl1 sl2 s H1%bound_attached_both H2%bound_attached_both.
  destruct (decide (sl1 = SlotCount)) as [->|N1], (decide (sl2 = SlotCount)) as [->|N2]; [done| | |].
  - cbn [attached] in H1. injection H1 as <-. destruct sl2; try done; cbn [attached] in H2; repeat case_match; simplify_eq.
    all: try (destruct (color_slots _ !! _); cbn in H2; repeat case_match; simplify_eq).
  - cbn [attached] in H2. injection H2 as <-. destruct sl1; try done; cbn [attached] in H1; repeat case_match; simplify_eq.
    all: try (destruct (color_slots _ !! _); cbn in H1; repeat case_match; simplify_eq).
  - apply (rd_distinct b R sl1 sl2 s); [by destruct sl1|by destruct sl2].
Qed.

Lemma bound_sizes_both b vis a : bound_sizes (bound_pass b vis a) ⊆ bound_sizes (bound_pass b 0 Both) \/ attaches_color a = false.
Proof.
  destruct a; [by left| |by right]. left. intros x. rewrite !bound_sizes_in. intros [H|[H _]]; [by left|done].
Qed.

Lemma bound_covers_colors b vis a : ready b -> area_covers_colors (bound_pass b vis a).
Proof.
  intros R i s Ha. destruct (bound_sizes_both b vis a) as [Hs|Hc].
  - pose proof (rd_area b R i s) as H. pose proof (bound_attached_both b vis a _ s Ha) as Hb. specialize (H Hb).
    unfold covers in *. eapply extent_covers_trans; [by apply area_grows|]. replace (slot_size (bound_pass b vis a) (SlotColor i)) with (slot_size (bound_pass b 0 Both) (SlotColor i)); [done|].
    destruct a; [done|done|]. exfalso. revert Ha. cbn [attached]. unfold color_slots. cbn [color extra_color bound_pass attaches_color].
    destruct i as [|i]; [done|]. change ((?x :: ?l) !! S i) with (l !! i). rewrite list_lookup_imap. by destruct (extra_slots b !! i).
  - exfalso. revert Ha. destruct a; try done. cbn [attached]. unfold color_slots. cbn [color extra_color bound_pass attaches_color].
    destruct i as [|i]; [done|]. change ((?x :: ?l) !! S i) with (l !! i). rewrite list_lookup_imap. by destruct (extra_slots b !! i).
Qed.

(** The area reaches the whole depth surface unless target 0 is smaller. *)
Lemma bound_covers_depth b vis a sl : ready b -> pass_color_covers_depth b = true \/ a = DepthOnly ->
  (a = Both -> rt0_dropped b = false) ->
  sl = SlotDepth \/ sl = SlotStencil -> opened_depth_texture b a <> 0 -> covers (bound_pass b vis a) sl = true.
Proof.
  intros R Hc Hnd Hsl Hn. unfold covers.
  assert (slot_size (bound_pass b vis a) sl = DepthTarget.size (ds b)) as ->.
  { destruct Hsl as [-> | ->]; cbn [slot_size]; by apply bound_depth_size. }
  apply area_covers; [|apply R]. intros x Hx. apply bound_sizes_in in Hx as [(y & Hy & Hb & <-)|[_ ->]].
  - destruct a.
    + rewrite bound_slots_both in Hy. destruct (bound_target_size b y R Hy Hb) as [-> Hr].
      destruct Hc as [Hc|]; [|done]. unfold pass_color_covers_depth, pass_binds_color in Hc.
      rewrite (proj2 (Z.eqb_neq _ 0) Hr), (Hnd eq_refl) in Hc. cbn in Hc.
      unfold opened_depth_texture in Hn. cbn in Hn. destruct (pass_binds_depth b); [done|done].
    + done.
    + unfold color_slots in Hy. cbn [color extra_color bound_pass attaches_color] in Hy. apply elem_of_cons in Hy as [->|Hy]; [done|].
      apply list_elem_of_lookup in Hy as [i Hy]. rewrite list_lookup_imap in Hy. destruct (extra_slots b !! i); [|done]. by injection Hy as <-.
  - unfold depth_size. cbn [depth bound_pass]. rewrite bound_depth_size by done. apply extent_covers_refl.
Qed.

(** ** What the recorder notes as seen *)

Lemma note_color_mono s x k : k ∈ Seen.color_rts s -> k ∈ Seen.color_rts (note_color s x).
Proof. unfold note_color. destruct (is_bound x); [|done]. cbn. set_solver. Qed.

Lemma note_colors_in l s x : x ∈ l -> is_bound x = true -> (texture x, subresource x) ∈ Seen.color_rts (foldl note_color s l).
Proof.
  revert s. induction l as [|y l IH]; intros s Hx Hb; [by apply not_elem_of_nil in Hx|]. cbn [foldl].
  apply elem_of_cons in Hx as [->|Hx]; [|by apply IH].
  assert ((texture y, subresource y) ∈ Seen.color_rts (note_color s y)) as H by (unfold note_color; rewrite Hb; cbn; set_solver).
  clear IH Hb. revert H. generalize (note_color s y). induction l as [|z l IH]; intros s' H; [done|]. cbn [foldl]. by apply IH, note_color_mono.
Qed.

Lemma note_colors_keeps l s k : k ∈ Seen.color_rts s -> k ∈ Seen.color_rts (foldl note_color s l).
Proof. revert s. induction l as [|y l IH]; intros s H; [done|]. cbn [foldl]. by apply IH, note_color_mono. Qed.

Lemma note_colors_other l s : Seen.depth_rts (foldl note_color s l) = Seen.depth_rts s /\ Seen.blit_written (foldl note_color s l) = Seen.blit_written s.
Proof.
  revert s. induction l as [|y l IH]; intros s; [done|]. cbn [foldl]. destruct (IH (note_color s y)) as [-> ->].
  unfold note_color. by destruct (is_bound y).
Qed.

(** The targets a pass attaches are seen from then on, and nothing is forgotten. *)
Lemma note_attachments_spec p s :
  (forall k, k ∈ Seen.color_rts s -> k ∈ Seen.color_rts (note_attachments p s))
  /\ (forall t, t ∈ Seen.depth_rts s -> t ∈ Seen.depth_rts (note_attachments p s))
  /\ Seen.blit_written (note_attachments p s) = Seen.blit_written s
  /\ (forall x, x ∈ color_slots p -> is_bound x = true -> (texture x, subresource x) ∈ Seen.color_rts (note_attachments p s))
  /\ (depth_texture p <> 0 -> depth_texture p ∈ Seen.depth_rts (note_attachments p s)).
Proof.
  destruct (note_colors_other (color_slots p) s) as [Hd Hb]. unfold note_attachments.
  set (s' := foldl note_color s (color_slots p)) in *.
  assert (forall k, k ∈ Seen.color_rts s -> k ∈ Seen.color_rts s') as Hk by apply note_colors_keeps.
  assert (forall x, x ∈ color_slots p -> is_bound x = true -> (texture x, subresource x) ∈ Seen.color_rts s') as Hc
    by apply note_colors_in.
  clearbody s'. destruct (depth_texture p =? 0) eqn:E; split_and!.
  - done.
  - intros t. by rewrite Hd.
  - done.
  - done.
  - by apply Z.eqb_eq in E.
  - done.
  - intros t. cbn. rewrite Hd. set_solver.
  - done.
  - done.
  - intros _. cbn. set_solver.
Qed.

(** ** The memory behind a recorder *)

Section Memory.
Context {T : Type} {views : Views} `{L : GpuLaws T views} (m0 : Mem T) (companion : Z -> Z) (keeps : Z -> Prop).
Hypothesis companion_inj : forall t u, companion t = companion u -> t = u.

(** A target is attached through its multisampled companion, if it has one; a
    depth texture whose contents outlive the frame is bound as sampleable. *)
Record well_bound (b : Bindings) : Prop := {
  wb_ready : ready b;
  wb_companion : forall x, x ∈ clear_targets b -> is_bound x = true -> s_texture (color_surface x) = companion (texture x);
  wb_keeps : DepthTarget.sampleable (ds b) = false -> ~ keeps (DepthTarget.texture (ds b)) }.

Definition recorded_memory (σ : Recorder) : Mem T := run_passes views (passes (frame σ)) m0.
Definition settled (σ : Recorder) : Mem T := settle (bindings σ) (pending σ) (recorded_memory σ).

(** What no pass and no blit has touched this frame holds nothing, apart from
    the pending clears. *)
Definition blank (σ : Recorder) (M : Mem T) : Prop :=
  (forall t sub s px, unseen_color σ t sub -> s = surface (companion t) sub ColorPlane ->
     @pending_texel T _ (bindings σ) (pending σ) s = None -> M s px = None)
  /\ (forall s px, unseen_depth σ (s_texture s) -> ~ keeps (s_texture s) -> s_plane s = DepthPlane \/ s_plane s = StencilPlane ->
        @pending_texel T _ (bindings σ) (pending σ) s = None -> M s px = None).

Lemma blank_unseen σ M sl s px : well_bound (bindings σ) -> blank σ M ->
  unseen_slot σ sl s -> @pending_texel T _ (bindings σ) (pending σ) s = None -> M s px = None.
Proof.
  intros W [H1 H2] Hu Hp. destruct sl as [i| | |]; cbn [unseen_slot] in Hu; [| | |done].
  - destruct Hu as (x & Hx & Hb & <- & Hu). apply (H1 (texture x) (subresource x)); [done| |done].
    rewrite <- (wb_companion _ W x Hx Hb). done.
  - destruct Hu as (Hu & Hs & _ & [-> | ->]); apply H2; auto; by apply (wb_keeps _ W).
  - destruct Hu as (Hu & Hs & _ & [-> | ->]); apply H2; auto; by apply (wb_keeps _ W).
Qed.

Lemma attached_in_plane p sl s : attached p sl = Some s ->
  match sl with SlotColor _ => s_plane s = ColorPlane | SlotDepth => s_plane s = DepthPlane
              | SlotStencil => s_plane s = StencilPlane | SlotCount => s_plane s = CounterPlane end.
Proof.
  destruct sl as [i| | |]; cbn [attached].
  - destruct (color_slots p !! i) as [a|]; cbn; [|done]. destruct (is_bound a); [|done]. by intros [= <-].
  - destruct (_ =? _); [done|]. by intros [= <-].
  - destruct (_ || _); [done|]. by intros [= <-].
  - by intros [= <-].
Qed.

Lemma push_pass_fields σ a :
  frame (push_pass σ a) = with_passes (frame σ) (passes (frame σ) ++ [opened_pass σ a])
  /\ current_pass_closed (push_pass σ a) = false /\ current_visibility (push_pass σ a) = current_visibility σ
  /\ bindings (push_pass σ a) = bindings σ /\ pending (push_pass σ a) = consumed σ a
  /\ seen (push_pass σ a) = note_attachments (opened_pass σ a) (seen σ) /\ books (push_pass σ a) = books σ.
Proof. unfold push_pass. by destruct (viewport (opened_pass σ a)) as [[[? ?] ?] ?]. Qed.

Lemma blank_push σ a M : well_bound (bindings σ) -> blank σ M -> blank (push_pass σ a) M.
Proof.
  intros W [H1 H2]. destruct (push_pass_fields σ a) as (Hf & _ & _ & Hb & Hp & Hs & _).
  destruct (note_attachments_spec (opened_pass σ a) (seen σ)) as (N1 & N2 & N3 & N4 & N5).
  unfold blank, unseen_color, unseen_depth, is_discarded_back_buffer. rewrite Hf, Hb, Hp, Hs, N3.
  cbn [with_passes backbuffer_texture backbuffer_undefined seen_sampled_textures]. split.
  - intros t sub s px (Hd & Hn & Hr) -> Hpt. apply (H1 t sub); [|done|].
    { split; [done|]. split; [|done]. intros Hin. by apply Hn, N1. }
    destruct (slot_of (opened_pass σ a) (surface (companion t) sub ColorPlane)) as [sl|] eqn:Es; [|by rewrite <- (unopened_pending σ a)].
    exfalso. apply slot_of_attached in Es. pose proof (attached_in_plane _ _ _ Es) as Hpl. destruct sl as [i| | |]; try done.
    pose proof Es as Es'. apply opened_color_attached in Es as (Ha & x & Hx & Hbx & Hsx).
    destruct (opened_color_slot σ a i x Ha Hx Hbx) as (y & c & Hy & _ & Ht & Hsu & Hat).
    assert (is_bound y = true /\ texture y = texture x /\ subresource y = subresource x) as (By & Ty & Sy).
    { revert Es'. cbn [attached]. rewrite Hy. change (Some y ≫= ?f) with (f y). cbn beta. destruct (is_bound y); [|done]. intros [= Hc].
      assert (erase_color y = erase_color x) as He; [|by destruct (erase_color_keeps y x He) as (_ & _ & _ & _ & -> & -> & _)].
      pose proof (outline_slot _ _ i (opened_outline σ a)) as Ho. rewrite Hy in Ho. unfold color_slots in Ho.
      cbn [color extra_color bound_pass] in Ho. rewrite Ha in Ho.
      change (loaded_rt0 (bindings σ) :: loaded_extras (bindings σ)) with (clear_targets (bindings σ)) in Ho. rewrite Hx in Ho.
      by apply (inj Some) in Ho. }
    apply Hn. replace (t, sub) with (texture y, subresource y); [by apply N4; [eapply list_elem_of_lookup_2|]|].
    rewrite Ty, Sy. pose proof (f_equal s_sub Hsx) as Hsub. pose proof (f_equal s_texture Hsx) as Htx. cbn [s_sub s_texture] in Hsub, Htx.
    rewrite (wb_companion _ W x (list_elem_of_lookup_2 _ _ _ Hx) Hbx) in Htx. apply companion_inj in Htx. by rewrite <- Htx, <- Hsub.
  - intros s px (Hn0 & Hn & Hr) Hk Hpl Hpt. apply H2; [|done|done|].
    { split; [done|]. split; [|done]. intros Hin. by apply Hn, N2. }
    destruct (slot_of (opened_pass σ a) s) as [sl|] eqn:Es; [|by rewrite <- (unopened_pending σ a)].
    exfalso. apply slot_of_attached in Es. pose proof (attached_in_plane _ _ _ Es) as Hpl'.
    assert (sl = SlotDepth \/ sl = SlotStencil) as Hsl by (destruct sl, Hpl; (by left) || (by right) || congruence).
    destruct (opened_depth_attached σ a sl s Es Hsl) as (Had & Hbd & Hne & Ht & -> & _).
    apply Hn. cbn [s_texture depth_plane_of]. rewrite <- Ht. apply N5. unfold depth_texture, opened_pass, opened_depth. cbn. by rewrite Ht.
Qed.

Lemma run_passes_snoc ps p (m : Mem T) : run_passes views (ps ++ [p]) m = run_pass views p (run_passes views ps m).
Proof. by rewrite run_passes_app. Qed.

(** Every clear the pass loads reaches its whole surface, or is there already. *)
Definition clears_land (σ : Recorder) (a : PassAttach) : Prop :=
  forall sl s v px, attached (opened_pass σ a) sl = Some s -> load_action (opened_pass σ a) sl = LClear v ->
    reaches (opened_pass σ a) sl px = false ->
    run_blits (Pending.leading_blits (pending σ)) (recorded_memory σ) s px = Some v.

Lemma push_le σ a M : well_bound (bindings σ) -> clears_land σ a -> blank σ M -> mem_le nowhere M (settled σ) ->
  mem_le nowhere M (settled (push_pass σ a)) /\ blank (push_pass σ a) M.
Proof.
  intros W Hc Hb HM. split; [|by apply blank_push]. unfold settled, recorded_memory.
  destruct (push_pass_fields σ a) as (-> & _ & _ & -> & -> & _). cbn [passes with_passes]. rewrite run_passes_snoc.
  apply (opens_le σ a 0); [apply W|exact Hc| |exact HM].
  intros sl s px _ Hu Hp. by eapply blank_unseen.
Qed.

Lemma outline_covers p q sl : outline p = outline q -> covers p sl = covers q sl.
Proof. intros H. unfold covers. by rewrite (outline_area p q H), (outline_slot_size p q sl H). Qed.

Lemma colors_land σ a i s px : well_bound (bindings σ) -> attached (opened_pass σ a) (SlotColor i) = Some s ->
  reaches (opened_pass σ a) (SlotColor i) px = true.
Proof.
  intros W Ha. apply covers_reaches. rewrite (outline_covers _ _ _ (opened_outline σ a)).
  apply (bound_covers_colors _ _ _ (wb_ready _ W) i s). by rewrite <- (outline_attached _ _ _ (opened_outline σ a)).
Qed.

Lemma covered_land σ a : well_bound (bindings σ) -> pass_color_covers_depth (bindings σ) = true \/ a <> Both ->
  (a = Both -> rt0_dropped (bindings σ) = false) -> clears_land σ a.
Proof.
  intros W Hc Hd sl s v px Ha Hl Hr. exfalso. destruct sl as [i| | |].
  - by rewrite (colors_land σ a i s) in Hr.
  - destruct (opened_depth_attached σ a _ s Ha) as (Had & _ & Hn & Ht & _); [by left|].
    rewrite covers_reaches in Hr; [done|]. rewrite (outline_covers _ _ _ (opened_outline σ a)).
    apply bound_covers_depth; [apply W| |done|by left|by rewrite Ht]. destruct Hc as [|Hc]; [by left|right]. by destruct a.
  - destruct (opened_depth_attached σ a _ s Ha) as (Had & _ & Hn & Ht & _); [by right|].
    rewrite covers_reaches in Hr; [done|]. rewrite (outline_covers _ _ _ (opened_outline σ a)).
    apply bound_covers_depth; [apply W| |done|by right|by rewrite Ht]. destruct Hc as [|Hc]; [by left|right]. by destruct a.
  - done.
Qed.

(** *** The depth-only pass *)

Definition plane_clears (p : Pending.t) : Pending.t := Pending.mk None (Pending.depth_clear p) (Pending.stencil_clear p) [].

Lemma depth_clear_attached σ sl s : DepthTarget.texture (ds (bindings σ)) <> 0 ->
  attached (depth_clear_pass σ) sl = Some s ->
  sl = SlotCount \/ sl = SlotDepth /\ s = depth_plane_of (bindings σ) DepthPlane
  \/ sl = SlotStencil /\ s = depth_plane_of (bindings σ) StencilPlane /\ DepthTarget.has_stencil (ds (bindings σ)) = true.
Proof.
  intros Hn Ha. destruct sl as [[|[|[|[|i]]]]| | |]; try done.
  - right. left. cbn [attached] in Ha. unfold depth_texture, depth_clear_pass in Ha. cbn in Ha.
    rewrite (proj2 (Z.eqb_neq _ 0) Hn) in Ha. by injection Ha as <-.
  - right. right. cbn [attached] in Ha. unfold depth_texture, has_stencil, depth_flags, depth_clear_pass, pass_depth_flags in Ha. cbn in Ha.
    rewrite (proj2 (Z.eqb_neq _ 0) Hn) in Ha. cbn in Ha.
    destruct (DepthTarget.has_stencil (ds (bindings σ))), (DepthTarget.sampleable (ds (bindings σ)));
      [by injection Ha as <-..|discriminate Ha|discriminate Ha].
  - by left.
Qed.

Lemma depth_clear_run σ (m : Mem T) s px : ready (bindings σ) -> DepthTarget.texture (ds (bindings σ)) <> 0 ->
  run_pass views (depth_clear_pass σ) m s px
  = apply_clears (bindings σ) (plane_clears (pending σ)) (run_blits (Pending.leading_blits (pending σ)) m) s px.
Proof.
  intros R Hn. unfold run_pass. change (leading_blits (depth_clear_pass σ)) with (Pending.leading_blits (pending σ)).
  set (m1 := run_blits _ m).
  assert (stores_all (depth_clear_pass σ)) as Hst.
  { split; [by intros [[|[|[|[|i]]]]| | |] ? ?|].
    intros a Ha. unfold color_slots, depth_clear_pass in Ha. cbn in Ha. rewrite !elem_of_cons, elem_of_nil in Ha. naive_solver. }
  assert (forall sl, covers (depth_clear_pass σ) sl = true) as Hcov.
  { intros sl. unfold covers. assert (slot_size (depth_clear_pass σ) sl = DepthTarget.size (ds (bindings σ)) \/ slot_size (depth_clear_pass σ) sl = (0, 0)) as Hs
      by (destruct sl as [[|[|[|[|i]]]]| | |]; first [left; reflexivity|right; reflexivity]).
    assert (extent_covers (render_area (depth_clear_pass σ)) (DepthTarget.size (ds (bindings σ))) = true) as Hd.
    { apply area_covers; [|apply R]. intros x Hx. apply bound_sizes_in in Hx as [(y & Hy & Hb & _)|[_ ->]].
      - unfold color_slots, depth_clear_pass in Hy. cbn in Hy. rewrite !elem_of_cons, elem_of_nil in Hy. naive_solver.
      - apply extent_covers_refl. }
    destruct Hs as [-> | ->]; [done|]. eapply extent_covers_trans; [exact Hd|].
    pose proof (rd_size_nonneg _ R) as Hz. unfold extent_covers. cbn. by rewrite !andb_true_iff, !Z.leb_le. }
  rewrite run_undrawn by done. unfold apply_clears.
  destruct (slot_of (depth_clear_pass σ) s) as [sl|] eqn:Es.
  - rewrite covers_reaches by apply Hcov. apply slot_of_attached in Es.
    destruct (depth_clear_attached σ sl s Hn Es) as [-> | [[-> ->] | (-> & -> & Hs)]].
    + cbn [attached] in Es. injection Es as <-. done.
    + unfold pending_texel. cbn [s_plane depth_plane_of plane_clears Pending.depth_clear].
      rewrite bool_decide_eq_true_2, (proj2 (Z.eqb_neq _ 0) Hn) by done. cbn [negb andb load_action].
      unfold depth_load. cbn [depth depth_clear_pass depth_load_]. by destruct (Pending.depth_clear (pending σ)).
    + unfold pending_texel. cbn [s_plane depth_plane_of plane_clears Pending.stencil_clear].
      rewrite bool_decide_eq_true_2, (proj2 (Z.eqb_neq _ 0) Hn), Hs by done. cbn [negb andb load_action].
      unfold stencil_load. cbn [depth depth_clear_pass stencil_load_]. by destruct (Pending.stencil_clear (pending σ)).
  - destruct (pending_texel (bindings σ) (plane_clears (pending σ)) s) as [v|] eqn:Ep; [|done]. exfalso.
    rewrite slot_of_None in Es. unfold pending_texel in Ep. destruct (s_plane s); [done| | |done]; cbn [plane_clears Pending.depth_clear Pending.stencil_clear] in Ep.
    + destruct (Pending.depth_clear (pending σ)); [|done]. cbn [mbind option_bind] in Ep.
      destruct (bool_decide _ && _) eqn:E; [|done]. apply andb_true_iff in E as [->%bool_decide_eq_true _].
      apply (Es SlotDepth). cbn [attached]. unfold depth_texture, depth_clear_pass. cbn. by rewrite (proj2 (Z.eqb_neq _ 0) Hn).
    + destruct (Pending.stencil_clear (pending σ)); [|done]. cbn [mbind option_bind] in Ep.
      destruct (bool_decide _ && _ && _) eqn:E; [|done]. rewrite !andb_true_iff in E. destruct E as [[->%bool_decide_eq_true _] Hs].
      apply (Es SlotStencil). cbn [attached]. unfold depth_texture, has_stencil, depth_flags, depth_clear_pass, pass_depth_flags. cbn.
      rewrite (proj2 (Z.eqb_neq _ 0) Hn), Hs. by destruct (DepthTarget.sampleable _).
Qed.

(** *** Flushing and opening *)

Lemma blank_shrink σ σ' M : blank σ M ->
  (forall t sub, unseen_color σ' t sub -> unseen_color σ t sub) -> (forall t, unseen_depth σ' t -> unseen_depth σ t) ->
  (forall s, s_plane s = ColorPlane \/ unseen_depth σ' (s_texture s) ->
     @pending_texel T _ (bindings σ') (pending σ') s = None -> @pending_texel T _ (bindings σ) (pending σ) s = None) ->
  blank σ' M.
Proof.
  intros [H1 H2] Hc Hd Hp. split.
  - intros t sub s px Hu -> Ht. apply (H1 t sub); [by apply Hc|done|]. apply Hp; [by left|done].
  - intros s px Hu Hk Hpl Ht. apply H2; [by apply Hd|done|done|]. apply Hp; [by right|done].
Qed.

Lemma pending_texel_planes b p s : s_plane s <> ColorPlane -> @pending_texel T _ b p s = pending_texel b (plane_clears p) s.
Proof. unfold pending_texel. by destruct (s_plane s). Qed.

Lemma pending_texel_color b p p' s : s_plane s = ColorPlane -> Pending.color_clear p = Pending.color_clear p' ->
  @pending_texel T _ b p s = pending_texel b p' s.
Proof. unfold pending_texel. by intros -> ->. Qed.

Lemma push_depth_clear_fields σ : DepthTarget.texture (ds (bindings σ)) <> 0 ->
  frame (push_depth_clear_pass σ) = with_passes (frame σ) (passes (frame σ) ++ [depth_clear_pass σ])
  /\ bindings (push_depth_clear_pass σ) = set_dropped (bindings σ) false
  /\ pending (push_depth_clear_pass σ) = Pending.mk (Pending.color_clear (pending σ)) None None []
  /\ seen (push_depth_clear_pass σ) = Seen.add_depth (seen σ) (DepthTarget.texture (ds (bindings σ)))
  /\ current_pass_closed (push_depth_clear_pass σ) = true.
Proof.
  intros Hn. unfold push_depth_clear_pass. rewrite (proj2 (Z.eqb_neq _ 0) Hn). unfold end_current_pass.
  by destruct (_ || _).
Qed.

Lemma depth_clear_memory σ s px : ready (bindings σ) -> DepthTarget.texture (ds (bindings σ)) <> 0 ->
  recorded_memory (push_depth_clear_pass σ) s px
  = apply_clears (bindings σ) (plane_clears (pending σ)) (run_blits (Pending.leading_blits (pending σ)) (recorded_memory σ)) s px.
Proof.
  intros R Hn. unfold recorded_memory. destruct (push_depth_clear_fields σ Hn) as (-> & _). cbn [passes with_passes].
  rewrite run_passes_snoc. by apply depth_clear_run.
Qed.

(** The clears of one kind after those of the other are the clears of both. *)
Lemma apply_clears_split b p (m : Mem T) s px :
  apply_clears b (Pending.mk (Pending.color_clear p) None None []) (apply_clears b (plane_clears p) m) s px = apply_clears b p m s px.
Proof.
  unfold apply_clears. destruct (decide (s_plane s = ColorPlane)) as [Hc|Hc].
  - rewrite (pending_texel_color b (Pending.mk _ None None []) p) by done.
    assert (@pending_texel T _ b (plane_clears p) s = None) as -> by (unfold pending_texel; by rewrite Hc). done.
  - rewrite <- pending_texel_planes by done.
    assert (@pending_texel T _ b (Pending.mk (Pending.color_clear p) None None []) s = None) as ->; [|done].
    unfold pending_texel. by destruct (s_plane s).
Qed.

Lemma push_depth_clear_le σ M : well_bound (bindings σ) -> blank σ M -> mem_le nowhere M (settled σ) ->
  mem_le nowhere M (settled (push_depth_clear_pass σ)) /\ blank (push_depth_clear_pass σ) M.
Proof.
  intros W Hb HM. destruct (decide (DepthTarget.texture (ds (bindings σ)) = 0)) as [Hz|Hn].
  - assert (forall s, @pending_texel T _ (bindings σ) (pending σ) s
              = pending_texel (bindings σ) (Pending.with_stencil (Pending.with_depth (pending σ) None) None) s) as He.
    { intros s. unfold pending_texel. destruct (s_plane s); [done| | |done]; rewrite Hz; cbn;
        rewrite ?andb_false_r; [by destruct (Pending.depth_clear (pending σ))|by destruct (Pending.stencil_clear (pending σ))]. }
    unfold push_depth_clear_pass. rewrite Hz. cbn [Z.eqb]. split.
    + intros s _ px v Hv. specialize (HM s ltac:(intros []) px v Hv). unfold settled, settle, apply_clears in HM |- *. by rewrite He in HM.
    + eapply blank_shrink; [exact Hb|done|done|]. intros s _. cbn. by rewrite He.
  - destruct (push_depth_clear_fields σ Hn) as (Hf & Hbi & Hp & Hs & _). split.
    + intros s _ px v Hv. specialize (HM s ltac:(intros []) px v Hv). unfold settled, settle in HM |- *. rewrite Hp, Hbi. cbn [Pending.leading_blits run_blits foldl].
      rewrite <- apply_clears_split in HM. unfold apply_clears at 1 in HM. unfold apply_clears at 1.
      rewrite depth_clear_memory by (done || apply W). exact HM.
    + assert (forall t sub, unseen_color (push_depth_clear_pass σ) t sub -> unseen_color σ t sub) as Hc.
      { intros t sub. unfold unseen_color, is_discarded_back_buffer. rewrite Hf, Hs. cbn. done. }
      assert (forall t, unseen_depth (push_depth_clear_pass σ) t -> unseen_depth σ t /\ t <> DepthTarget.texture (ds (bindings σ))) as Hd.
      { intros t. unfold unseen_depth. rewrite Hf, Hs. cbn. set_solver. }
      eapply blank_shrink; [exact Hb|exact Hc|by apply Hd|]. rewrite Hbi, Hp. intros s [Hpl|Hu].
      * rewrite (pending_texel_color _ _ (pending σ)) by done. done.
      * intros Hpt. apply Hd in Hu as [_ Hne]. revert Hpt. unfold pending_texel. destruct (s_plane s) eqn:Epl; [done| | |done]; intros _.
        -- destruct (Pending.depth_clear (pending σ)); [|done]. cbn. rewrite bool_decide_eq_false_2; [done|]. by intros ->.
        -- destruct (Pending.stencil_clear (pending σ)); [|done]. cbn. rewrite bool_decide_eq_false_2; [done|]. by intros ->.
Qed.

(** Ending the open pass changes no memory. *)
Lemma end_fields σ :
  frame (end_current_pass σ) = frame σ /\ bindings (end_current_pass σ) = set_dropped (bindings σ) false
  /\ pending (end_current_pass σ) = pending σ /\ seen (end_current_pass σ) = seen σ
  /\ view (end_current_pass σ) = view σ /\ current_visibility (end_current_pass σ) = current_visibility σ.
Proof. unfold end_current_pass. by destruct (_ || _). Qed.

Lemma end_pass_le σ M : blank σ M -> mem_le nowhere M (settled σ) ->
  mem_le nowhere M (settled (end_current_pass σ)) /\ blank (end_current_pass σ) M.
Proof.
  destruct (end_fields σ) as (Hf & Hb & Hp & Hs & _). intros HB HM. split.
  - intros s _ px v Hv. specialize (HM s ltac:(intros []) px v Hv). unfold settled, recorded_memory. rewrite Hf, Hb, Hp. exact HM.
  - eapply blank_shrink; [exact HB|unfold unseen_color, is_discarded_back_buffer|unfold unseen_depth|]; rewrite ?Hf, ?Hs, ?Hb, ?Hp; done.
Qed.

Lemma well_bound_dropped b x : well_bound b -> x = false \/ pass_binds_depth b = true -> well_bound (set_dropped b x).
Proof. intros [[] ? ?] Hx. split; [split|..]; try done. cbn. intros ->. by destruct Hx. Qed.

Definition restore_planes (p : Pending.t) (σ : Recorder) : Recorder :=
  set_pending σ (Pending.with_stencil (Pending.with_depth (pending σ) (Pending.depth_clear p)) (Pending.stencil_clear p)).

(** The pass that follows the depth-only one loads the clears it landed. *)
Lemma restore_planes_le σ M : well_bound (bindings σ) -> DepthTarget.texture (ds (bindings σ)) <> 0 ->
  blank σ M -> mem_le nowhere M (settled σ) ->
  let σ' := restore_planes (pending σ) (push_depth_clear_pass σ) in
  mem_le nowhere M (settled σ') /\ blank σ' M /\ clears_land σ' Both.
Proof.
  intros W Hn HB HM σ'. destruct (push_depth_clear_fields σ Hn) as (Hf & Hbi & Hp & Hs & _).
  assert (forall s, @pending_texel T _ (bindings σ') (pending σ') s = pending_texel (bindings σ) (pending σ) s) as Hpt.
  { intros s. unfold σ', restore_planes. cbn [bindings set_pending pending]. rewrite Hbi, Hp. done. }
  assert (Pending.leading_blits (pending σ') = []) as Hbl by (unfold σ', restore_planes; cbn [set_pending pending]; by rewrite Hp).
  split_and!.
  - intros s _ px v Hv. specialize (HM s ltac:(intros []) px v Hv). unfold settled, settle, apply_clears in HM |- *.
    rewrite Hpt, Hbl. cbn [run_blits foldl]. destruct (pending_texel (bindings σ) (pending σ) s) as [w|] eqn:E; [done|].
    change (recorded_memory σ') with (recorded_memory (push_depth_clear_pass σ)). rewrite depth_clear_memory by (done || apply W).
    unfold apply_clears. destruct (pending_texel (bindings σ) (plane_clears (pending σ)) s) eqn:E'; [|done]. exfalso.
    unfold pending_texel in E, E'. destruct (s_plane s); [done|cbn in E'; congruence..|done].
  - eapply blank_shrink; [exact HB| | |]; unfold unseen_color, unseen_depth, is_discarded_back_buffer, σ', restore_planes;
      cbn [set_pending frame seen bindings pending]; rewrite ?Hf, ?Hs, ?Hbi, ?Hp; cbn; [done|set_solver|done].
  - intros sl s v px Ha Hl Hr. rewrite Hbl. cbn [run_blits foldl].
    change (recorded_memory σ') with (recorded_memory (push_depth_clear_pass σ)). rewrite depth_clear_memory by (done || apply W).
    assert (well_bound (bindings σ')) as W' by (unfold σ', restore_planes; cbn [set_pending bindings]; rewrite Hbi; apply well_bound_dropped; auto).
    destruct (opened_action σ' Both sl s 0 (rd_distinct _ (wb_ready _ W')) Ha) as [Hact _]. unfold opened_as in Hact. rewrite Hpt, Hl in Hact.
    destruct sl as [i| | |]; [by rewrite (colors_land σ' Both i s) in Hr| | |done];
      unfold apply_clears; rewrite <- pending_texel_planes by (by rewrite (attached_in_plane _ _ _ Ha));
      destruct (pending_texel (bindings σ) (pending σ) s); [by injection Hact as ->|by destruct Hact as [|[]]
        |by injection Hact as ->|by destruct Hact as [|[]]].
Qed.

Lemma open_pass_le σ M : well_bound (bindings σ) -> blank σ M -> mem_le nowhere M (settled σ) ->
  (Pending.depth_or_stencil (pending σ) = true -> DepthTarget.texture (ds (bindings σ)) <> 0) ->
  mem_le nowhere M (settled (open_pass σ)) /\ blank (open_pass σ) M.
Proof.
  intros W HB HM Hp. unfold open_pass. destruct (rt0_dropped (bindings σ)) eqn:Hd.
  - destruct (Pending.color (pending σ)).
    + destruct (push_le σ ColorOnly M W) as [HM' HB']; [by apply covered_land; [|right|]|done..|].
      set (σ1 := set_closed (push_pass σ ColorOnly) true).
      assert (bindings σ1 = bindings σ) as Hb1 by apply push_pass_fields.
      apply push_le; [by rewrite Hb1|by apply covered_land; [rewrite Hb1|right|]|exact HB'|exact HM'].
    + apply push_le; [done|by apply covered_land; [|right|]|done..].
  - destruct (Pending.depth_or_stencil (pending σ) && negb (pass_color_covers_depth (bindings σ))) eqn:E.
    + apply andb_true_iff in E as [E _]. specialize (Hp E).
      destruct (restore_planes_le σ M W Hp HB HM) as (HM' & HB' & Hl). apply push_le; [|done..].
      cbn [set_pending bindings]. destruct (push_depth_clear_fields σ Hp) as (_ & -> & _). apply well_bound_dropped; auto.
    + apply push_le; [done| |done..]. apply andb_false_iff in E as [E|E].
      * intros sl s v px Ha Hld Hr. exfalso. destruct sl as [i| | |]; [by rewrite (colors_land σ Both i s) in Hr| | |done];
          (destruct (opened_action σ Both _ s 0 (rd_distinct _ (wb_ready _ W)) Ha) as [Hact _]; unfold opened_as in Hact; rewrite Hld in Hact;
           apply attached_in_plane in Ha; unfold pending_texel in Hact; rewrite Ha in Hact; unfold Pending.depth_or_stencil in E;
           apply orb_false_iff in E as [E1%bool_decide_eq_false E2%bool_decide_eq_false]).
        -- destruct (Pending.depth_clear (pending σ)); [by destruct E1|]. by destruct Hact as [|[]].
        -- destruct (Pending.stencil_clear (pending σ)); [by destruct E2|]. by destruct Hact as [|[]].
      * apply negb_false_iff in E. by apply covered_land; [|left|].
Qed.
End Memory.

(** The open pass and the bindings: while a pass is open it attaches exactly what
    the bindings say, nothing it could take is left pending, and its targets are
    noted as seen.  Opening a pass establishes this; the binding operations that
    leave a pass open leave what it attaches alone. *)

Lemma alter_last_snoc f σ ps p : passes (frame σ) = ps ++ [p] -> passes (frame (alter_last f σ)) = ps ++ [f p].
Proof.
  intros H. unfold alter_last. cbn. rewrite H, length_app. cbn. rewrite Nat.add_1_r. cbn [Nat.pred].
  rewrite alter_app_r_alt by lia. by rewrite Nat.sub_diag.
Qed.

Lemma alter_last_fields f σ :
  current_pass_closed (alter_last f σ) = current_pass_closed σ /\ current_visibility (alter_last f σ) = current_visibility σ
  /\ bindings (alter_last f σ) = bindings σ /\ pending (alter_last f σ) = pending σ /\ seen (alter_last f σ) = seen σ
  /\ view (alter_last f σ) = view σ /\ books (alter_last f σ) = books σ
  /\ seen_sampled_textures (frame (alter_last f σ)) = seen_sampled_textures (frame σ)
  /\ backbuffer_texture (frame (alter_last f σ)) = backbuffer_texture (frame σ)
  /\ backbuffer_undefined (frame (alter_last f σ)) = backbuffer_undefined (frame σ).
Proof. done. Qed.

Lemma note_sampled_fields tex σ :
  passes (frame (note_sampled tex σ)) = passes (frame σ) /\ current_pass_closed (note_sampled tex σ) = current_pass_closed σ
  /\ current_visibility (note_sampled tex σ) = current_visibility σ /\ bindings (note_sampled tex σ) = bindings σ
  /\ pending (note_sampled tex σ) = pending σ /\ seen (note_sampled tex σ) = seen σ
  /\ backbuffer_texture (frame (note_sampled tex σ)) = backbuffer_texture (frame σ)
  /\ backbuffer_undefined (frame (note_sampled tex σ)) = backbuffer_undefined (frame σ)
  /\ seen_sampled_textures (frame σ) ⊆ seen_sampled_textures (frame (note_sampled tex σ)).
Proof.
  unfold note_sampled. set (σ1 := set_frame σ _).
  assert (seen_sampled_textures (frame σ) ⊆ seen_sampled_textures (frame σ1)) as Hs.
  { unfold σ1. cbn. destruct (texture_view_to_base (frame σ) !! tex); set_solver. }
  by destruct (Books.pass_reads (books σ1)).
Qed.

Lemma last_pass_snoc σ ps p : passes (frame σ) = ps ++ [p] -> last_pass σ = Some p.
Proof. unfold last_pass. intros ->. apply last_snoc. Qed.

(** What an open pass has to do with the state. *)
Record open_on (σ : Recorder) (p : Pass) : Prop := {
  oo_outline : outline p = outline (bound_pass (bindings σ) (current_visibility σ) (attach_of (bindings σ)));
  oo_stores : stores_all p;
  oo_first : exists c cs, commands p = c :: cs /\ is_draw c = false;
  oo_color : Pending.color_clear (pending σ) = None;
  oo_blits : Pending.leading_blits (pending σ) = [];
  oo_planes : pass_binds_depth (bindings σ) = true -> Pending.depth_clear (pending σ) = None /\ Pending.stencil_clear (pending σ) = None;
  oo_seen : forall x, x ∈ color_slots p -> is_bound x = true -> (texture x, subresource x) ∈ Seen.color_rts (seen σ);
  oo_seen_depth : depth_texture p <> 0 -> depth_texture p ∈ Seen.depth_rts (seen σ) }.

Definition open_inv (σ : Recorder) : Prop :=
  current_pass_closed σ = false -> exists ps p, passes (frame σ) = ps ++ [p] /\ open_on σ p.

(** A change that keeps what is attached, what is pending and what is seen. *)
Record kept (σ σ' : Recorder) : Prop := {
  ke_outline : outline (bound_pass (bindings σ') (current_visibility σ') (attach_of (bindings σ')))
               = outline (bound_pass (bindings σ) (current_visibility σ) (attach_of (bindings σ)));
  ke_binds : pass_binds_depth (bindings σ') = pass_binds_depth (bindings σ);
  ke_closed : current_pass_closed σ' = current_pass_closed σ;
  ke_color : Pending.color_clear (pending σ') = Pending.color_clear (pending σ);
  ke_blits : Pending.leading_blits (pending σ') = Pending.leading_blits (pending σ);
  ke_depth : Pending.depth_clear (pending σ') = Pending.depth_clear (pending σ);
  ke_stencil : Pending.stencil_clear (pending σ') = Pending.stencil_clear (pending σ);
  ke_seen : Seen.color_rts (seen σ) ⊆ Seen.color_rts (seen σ') /\ Seen.depth_rts (seen σ) ⊆ Seen.depth_rts (seen σ') }.

Lemma kept_self σ : kept σ σ.
Proof. done. Qed.

(** The open pass changes its loads, its tags and the tail of its commands. *)
Lemma open_on_alter σ σ' p q : open_on σ p -> kept σ σ' -> outline q = outline p -> stores_all q ->
  (exists cs, commands q = commands p ++ cs) -> open_on σ' q.
Proof.
  intros [H1 H2 (c & cs & Hcs & Hc) H4 H5 H6 H7 H8] K Ho Hs [cs' Hcs']. split.
  - by rewrite Ho, H1, (ke_outline _ _ K).
  - done.
  - exists c, (cs ++ cs'). by rewrite Hcs', Hcs.
  - by rewrite (ke_color _ _ K).
  - by rewrite (ke_blits _ _ K).
  - rewrite (ke_binds _ _ K), (ke_depth _ _ K), (ke_stencil _ _ K). exact H6.
  - intros x Hx Hb. apply (proj1 (ke_seen _ _ K)). apply list_elem_of_lookup in Hx as [i Hx].
    pose proof (outline_slot q p i Ho) as Hl. rewrite Hx in Hl. destruct (color_slots p !! i) as [y|] eqn:E; [|done].
    apply (inj Some) in Hl. destruct (erase_color_keeps x y Hl) as (Hb' & _ & _ & _ & -> & -> & _).
    apply H7; [by eapply list_elem_of_lookup_2|congruence].
  - destruct (outline_inv q p Ho) as (_ & -> & _). intros Hn. apply (proj2 (ke_seen _ _ K)). by apply H8.
Qed.

Lemma open_inv_kept σ σ' : open_inv σ -> kept σ σ' -> passes (frame σ') = passes (frame σ) -> open_inv σ'.
Proof.
  intros H K Hp Hc. rewrite (ke_closed _ _ K) in Hc. destruct (H Hc) as (ps & p & Hps & Ho). exists ps, p. split; [by rewrite Hp|].
  apply (open_on_alter σ σ' p p); [done|done|done|apply Ho|]. exists []. by rewrite app_nil_r.
Qed.

Lemma open_inv_closed σ : current_pass_closed σ = true -> open_inv σ.
Proof. intros H H'. congruence. Qed.

(** ** Opening *)

Lemma bindings_eta b : rt0_dropped b = false -> set_dropped b false = b.
Proof. destruct b; cbn. by intros ->. Qed.

Lemma push_opens σ a : attach_of (bindings σ) = a -> (a = DepthOnly -> Pending.color_clear (pending σ) = None) ->
  open_inv (push_pass σ a).
Proof.
  intros Ha Hc _. destruct (push_pass_fields σ a) as (Hf & Hcl & Hv & Hb & Hp & Hs & _).
  destruct (note_attachments_spec (opened_pass σ a) (seen σ)) as (_ & _ & _ & N4 & N5).
  exists (passes (frame σ)), (opened_pass σ a). rewrite Hf. split; [done|]. split.
  - by rewrite Hb, Hv, Ha, opened_outline.
  - apply opened_stores_all.
  - eexists _, []. split; [done|]. apply viewport_no_draw.
  - rewrite Hp. unfold consumed. cbn [Pending.color_clear]. destruct a; [done|done|]. by apply Hc.
  - by rewrite Hp.
  - rewrite Hb, Hp. intros Hbd. unfold consumed. rewrite Hbd. unfold attach_of in Ha. by destruct (rt0_dropped (bindings σ)); subst a.
  - rewrite Hs. exact N4.
  - rewrite Hs. exact N5.
Qed.


(** What [open_pass] leaves of the state before its last push. *)
Definition before_push (σ σ1 : Recorder) : Prop :=
  bindings σ1 = bindings σ /\ current_visibility σ1 = current_visibility σ
  /\ Pending.depth_clear (pending σ1) = Pending.depth_clear (pending σ)
  /\ Pending.stencil_clear (pending σ1) = Pending.stencil_clear (pending σ)
  /\ (attach_of (bindings σ) = DepthOnly -> Pending.color_clear (pending σ1) = None)
  /\ (Pending.color_clear (pending σ) = None -> Pending.color_clear (pending σ1) = None).

Lemma open_pass_last σ : exists σ1, open_pass σ = push_pass σ1 (attach_of (bindings σ)) /\ before_push σ σ1.
Proof.
  unfold open_pass, before_push, attach_of. destruct (rt0_dropped (bindings σ)) eqn:Hd.
  - destruct (Pending.color (pending σ)) eqn:Hc.
    + eexists. split; [done|]. destruct (push_pass_fields σ ColorOnly) as (Hf & _ & Hv & Hb & Hp & _).
      cbn [set_closed bindings current_visibility pending]. rewrite Hv, Hb, Hp. done.
    + exists σ. split; [done|]. split_and!; try done. intros _. unfold Pending.color in Hc. apply bool_decide_eq_false in Hc.
      destruct (Pending.color_clear (pending σ)); [|done]. by destruct Hc.
  - destruct (Pending.depth_or_stencil (pending σ) && negb (pass_color_covers_depth (bindings σ))) eqn:E; [|by exists σ].
    eexists. split; [done|]. cbn [set_pending bindings current_visibility pending Pending.with_stencil Pending.with_depth Pending.depth_clear Pending.stencil_clear].
    unfold push_depth_clear_pass. destruct (DepthTarget.texture (ds (bindings σ)) =? 0); [done|].
    destruct (end_fields σ) as (_ & Hb & Hp & _ & _ & Hv). cbn [bindings current_visibility pending Pending.with_blits Pending.with_stencil Pending.with_depth Pending.color_clear].
    rewrite Hb, Hp, Hv, bindings_eta by done. done.
Qed.

Lemma open_pass_opens σ : open_inv (open_pass σ) /\ current_pass_closed (open_pass σ) = false
  /\ bindings (open_pass σ) = bindings σ /\ current_visibility (open_pass σ) = current_visibility σ.
Proof.
  destruct (open_pass_last σ) as (σ1 & -> & Hb & Hv & _ & _ & Hc & _).
  destruct (push_pass_fields σ1 (attach_of (bindings σ))) as (_ & Hcl & Hv' & Hb' & _). split_and!.
  - apply push_opens; [by rewrite Hb|done].
  - done.
  - by rewrite Hb'.
  - by rewrite Hv'.
Qed.

Lemma ensure_opens σ : open_inv σ -> open_inv (ensure_pass_open σ) /\ current_pass_closed (ensure_pass_open σ) = false
  /\ bindings (ensure_pass_open σ) = bindings σ /\ current_visibility (ensure_pass_open σ) = current_visibility σ.
Proof.
  intros H. unfold ensure_pass_open. destruct (opens_pass σ) eqn:E; [apply open_pass_opens|].
  unfold opens_pass in E. by apply orb_false_iff in E as [-> _].
Qed.

(** ** The masks and views that follow the bindings *)

Lemma foldl_mask_testbit (test : ColorSlot.t -> bool) l k acc i :
  Z.testbit (foldl (λ mask ix, if test ix.2 then Z.lor mask (Z.shiftl 1 (Z.of_nat ix.1)) else mask) acc
               (imap (λ j c, ((k + j)%nat, c)) l)) (Z.of_nat i)
  = Z.testbit acc (Z.of_nat i)
    || (if decide (k <= i)%nat then match l !! (i - k)%nat with Some c => test c | None => false end else false).
Proof.
  revert k acc. induction l as [|c l IH]; intros k acc; cbn [imap foldl].
  - rewrite lookup_nil. destruct (decide _); by rewrite orb_false_r.
  - cbn [fst snd]. rewrite Nat.add_0_r.
    rewrite (imap_ext _ (λ j c, ((S k + j)%nat, c))) by (intros; unfold compose; f_equal; lia).
    rewrite IH. assert (forall a, Z.testbit (if test c then Z.lor a (Z.shiftl 1 (Z.of_nat k)) else a) (Z.of_nat i)
                                  = Z.testbit a (Z.of_nat i) || (test c && bool_decide (i = k))) as ->.
    { intros a. destruct (test c); [|by rewrite orb_false_r]. rewrite Z.lor_spec, Z.shiftl_spec by lia. f_equal. cbn.
      case_bool_decide as Hik; [subst; by rewrite Z.sub_diag|]. destruct (decide (Z.of_nat i < Z.of_nat k)); [by rewrite Z.testbit_neg_r by lia|].
      rewrite (Z.bits_above_log2 1); [done|lia|cbn; lia]. }
    rewrite <- orb_assoc. f_equal. destruct (decide (k <= i)%nat) as [Hk|Hk].
    + destruct (decide (i = k)) as [->|Hne].
      * rewrite bool_decide_eq_true_2, andb_true_r, Nat.sub_diag, decide_False by lia || done. cbn. by rewrite orb_false_r.
      * rewrite bool_decide_eq_false_2, andb_false_r, decide_True by lia || done. cbn [orb].
        by replace (i - k)%nat with (S (i - S k)) by lia.
    + rewrite bool_decide_eq_false_2, andb_false_r, decide_False by lia. done.
Qed.

Lemma slot_mask_testbit test l i :
  Z.testbit (slot_mask test l) (Z.of_nat i) = match l !! i with Some c => test c | None => false end.
Proof.
  unfold slot_mask. pose proof (foldl_mask_testbit test l 0 0 i) as H. cbn [Nat.add] in H.
  rewrite Z.bits_0, decide_True, Nat.sub_0_r in H by lia. exact H.
Qed.

Lemma slot_mask_ext test test' l l' : (forall i, test <$> l !! i = test' <$> l' !! i) -> slot_mask test l = slot_mask test' l'.
Proof.
  intros H. apply Z.bits_inj'. intros n Hn. rewrite <- (Z2Nat.id n) by done. rewrite !slot_mask_testbit.
  specialize (H (Z.to_nat n)). destruct (l !! Z.to_nat n), (l' !! Z.to_nat n); cbn in H; by simplify_eq.
Qed.

(** What a pass reads of a bound slot. *)
Definition core (c : ColorSlot.t) :=
  (ColorSlot.texture c, ColorSlot.msaa_texture c, ColorSlot.msaa_srgb_texture c, ColorSlot.sample_count c,
   ColorSlot.subresource c, ColorSlot.size c, ColorSlot.format c).

Definition slot_core (c : ColorSlot.t) := if ColorSlot.is_bound c then Some (core c) else None.

(** The caches say what a fresh computation would. *)
Record synced (b : Bindings) : Prop := {
  sy_length : length (extra_slots b) = 3%nat;
  sy_mask : present_mask (extra_attachments b) = slot_mask (takes_part (rt0 b)) (extra_slots b);
  sy_rt0 : SrgbWrite.rt0_twin (srgb b) = twin_of (srgb b) (ColorSlot.texture (rt0 b));
  sy_extras : SrgbWrite.extra_twins (srgb b) = (λ c, twin_of (srgb b) (ColorSlot.texture c)) <$> extra_slots b;
  sy_write : SrgbWrite.pass_write (srgb b) = SrgbWrite.enabled (srgb b) && srgb_write_is_attachable b }.

Lemma synced_present b i : synced b -> extra_present b i = match extra_slots b !! i with Some c => takes_part (rt0 b) c | None => false end.
Proof. intros S. unfold extra_present, is_present. by rewrite (sy_mask _ S), slot_mask_testbit. Qed.

(** Attachability looks at the bindings and the mask, not at the caches. *)
Lemma attachable_ext b b' : rt0 b' = rt0 b -> extra_slots b' = extra_slots b ->
  present_mask (extra_attachments b') = present_mask (extra_attachments b) ->
  SrgbWrite.base_to_twin (srgb b') = SrgbWrite.base_to_twin (srgb b) ->
  srgb_write_is_attachable b' = srgb_write_is_attachable b.
Proof.
  intros Hr He Hm Ht. unfold srgb_write_is_attachable, encoding_extras, extra_present, is_present, twin_ready, twin_of.
  by rewrite Hr, He, Hm, Ht.
Qed.

Lemma recompute_srgb_synced b : length (extra_slots b) = 3%nat ->
  present_mask (extra_attachments b) = slot_mask (takes_part (rt0 b)) (extra_slots b) -> synced (recompute_srgb_write b).
Proof. intros Hl Hm. by split. Qed.

Lemma recompute_mask_synced b : length (extra_slots b) = 3%nat -> synced (recompute_extra_present_mask b).
Proof. intros Hl. by apply recompute_srgb_synced. Qed.

Lemma no_extras_mask b : has_extra_color_targets b = false -> slot_mask (takes_part (rt0 b)) (extra_slots b) = 0.
Proof.
  intros H. apply Z.bits_inj'. intros n Hn. rewrite <- (Z2Nat.id n), slot_mask_testbit, Z.bits_0 by done.
  destruct (extra_slots b !! Z.to_nat n) as [c|] eqn:E; [|done]. unfold has_extra_color_targets in H.
  unfold takes_part. destruct (ColorSlot.is_bound c) eqn:Hc; [|done]. exfalso. apply not_true_iff_false in H. apply H.
  apply existsb_exists. exists c. split; [|done]. rewrite <- list_elem_of_In. by eapply list_elem_of_lookup_2.
Qed.

(** Render target 0 changes: with no extra bound, no mask needs it. *)
Lemma recompute_colors_synced b : length (extra_slots b) = 3%nat ->
  (has_extra_color_targets b = false -> present_mask (extra_attachments b) = 0) -> synced (recompute_colors b).
Proof.
  intros Hl Hm. unfold recompute_colors. destruct (has_extra_color_targets b) eqn:E; [by apply recompute_mask_synced|].
  apply recompute_srgb_synced; [done|]. by rewrite no_extras_mask, Hm.
Qed.

(** ** Changes a pass does not see *)

Record same (b b' : Bindings) : Prop := {
  sa_rt0 : loaded_rt0 b' = loaded_rt0 b;
  sa_extras : loaded_extras b' = loaded_extras b;
  sa_length : length (extra_slots b') = length (extra_slots b);
  sa_dropped : rt0_dropped b' = rt0_dropped b;
  sa_binds : pass_binds_depth b' = pass_binds_depth b;
  sa_depth : (DepthTarget.texture (ds b'), DepthTarget.level (ds b'), DepthTarget.size (ds b'), DepthTarget.has_stencil (ds b'),
              pass_depth_flags (ds b'))
             = (DepthTarget.texture (ds b), DepthTarget.level (ds b), DepthTarget.size (ds b), DepthTarget.has_stencil (ds b),
                pass_depth_flags (ds b)) }.

Lemma same_refl b : same b b.
Proof. done. Qed.

Lemma imap_const {A B} (x : B) (l l' : list A) : length l = length l' -> imap (λ _ _, x) l = imap (λ _ _, x) l'.
Proof.
  intros H. apply list_eq. intros i. rewrite !list_lookup_imap.
  destruct (l !! i) eqn:E, (l' !! i) eqn:E'; try done; [apply lookup_lt_Some in E; apply lookup_ge_None in E'|apply lookup_lt_Some in E'; apply lookup_ge_None in E]; lia.
Qed.

Lemma same_bound b b' vis a : same b b' -> bound_pass b' vis a = bound_pass b vis a.
Proof.
  intros [H1 H2 H3 H4 H5 H6]. injection H6 as T1 T2 T3 _ T4.
  assert (bound_depth b' a = bound_depth b a) as Hd.
  { unfold bound_depth, opened_depth_texture. by rewrite H5, T1, T2, T3, T4. }
  unfold bound_pass. rewrite H1, H2, Hd. f_equal. destruct (attaches_color a); [done|]. by apply imap_const.
Qed.

Lemma same_kept σ b : same (bindings σ) b -> kept σ (set_bindings σ b).
Proof.
  intros H. split; try done.
  - cbn [set_bindings bindings current_visibility]. unfold attach_of. rewrite (sa_dropped _ _ H). by rewrite (same_bound _ _ _ _ H).
  - apply H.
Qed.

Section Texel.
Context {T : Type} `{G : Gpu T}.

Lemma same_pending_texel b b' p s : same b b' -> @pending_texel T _ b' p s = pending_texel b p s.
Proof.
  intros [H1 H2 _ _ _ H6]. injection H6 as T1 T2 T3 T4 _.
  unfold pending_texel, clear_target, clear_targets, depth_plane_of. by rewrite H1, H2, T1, T2, T4.
Qed.
End Texel.

Lemma encoding_in b c : c ∈ encoding_extras b <->
  exists i, extra_slots b !! i = Some c /\ extra_present b i = true /\ has_twin (ColorSlot.format c) = true.
Proof.
  unfold encoding_extras. rewrite list_elem_of_fmap. split.
  - intros ([i d] & -> & (Hp & Hin)%list_elem_of_filter). cbn in Hp. apply andb_true_iff in Hp as [Hp Ht].
    apply list_elem_of_lookup in Hin as [j Hj]. rewrite list_lookup_imap in Hj. destruct (extra_slots b !! j) as [e|] eqn:E; [|done].
    cbn in Hj. simplify_eq. by exists i.
  - intros (i & Hi & Hp & Ht). exists (i, c). split; [done|]. apply list_elem_of_filter. cbn. rewrite Hp, Ht. split; [done|].
    apply list_elem_of_lookup. exists i. by rewrite list_lookup_imap, Hi.
Qed.

Lemma encoding_forall f b : forallb f (encoding_extras b) = true <->
  forall i c, extra_slots b !! i = Some c -> extra_present b i = true -> has_twin (ColorSlot.format c) = true -> f c = true.
Proof.
  rewrite forallb_forall. split.
  - intros H i c Hi Hp Ht. apply H. rewrite <- list_elem_of_In. apply encoding_in. eauto.
  - intros H c Hc. rewrite <- list_elem_of_In in Hc. apply encoding_in in Hc as (i & Hi & Hp & Ht). eauto.
Qed.

Lemma encoding_none b : encoding_extras b = [] <->
  forall i c, extra_slots b !! i = Some c -> extra_present b i = true -> has_twin (ColorSlot.format c) <> true.
Proof.
  split.
  - intros H i c Hi Hp Ht. assert (c ∈ encoding_extras b) as Hin by (apply encoding_in; eauto). rewrite H in Hin. by apply not_elem_of_nil in Hin.
  - intros H. destruct (encoding_extras b) as [|c l] eqn:E; [done|]. exfalso.
    assert (c ∈ encoding_extras b) as (i & Hi & Hp & Ht)%encoding_in by (rewrite E; by left). by apply (H i c).
Qed.

(** Targets replaced by ones a pass attaches alike, the views of the bound ones
    unchanged: the recomputed bindings attach what they did. *)
Section Recompute.
Context (b b' : Bindings) (S : synced b)
  (Hrt0 : core (rt0 b') = core (rt0 b))
  (Hslots : slot_core <$> extra_slots b' = slot_core <$> extra_slots b)
  (Hds : ds b' = ds b) (Hdropped : rt0_dropped b' = rt0_dropped b)
  (Htwin : forall t, (t = ColorSlot.texture (rt0 b) \/ exists c, c ∈ extra_slots b /\ ColorSlot.is_bound c = true /\ ColorSlot.texture c = t) ->
     twin_of (srgb b') t = twin_of (srgb b) t).

Lemma slots_alike i : slot_core <$> extra_slots b' !! i = slot_core <$> extra_slots b !! i.
Proof. by rewrite <- !list_lookup_fmap, Hslots. Qed.

Lemma rt0_fields : ColorSlot.texture (rt0 b') = ColorSlot.texture (rt0 b) /\ ColorSlot.msaa_texture (rt0 b') = ColorSlot.msaa_texture (rt0 b)
  /\ ColorSlot.msaa_srgb_texture (rt0 b') = ColorSlot.msaa_srgb_texture (rt0 b) /\ ColorSlot.sample_count (rt0 b') = ColorSlot.sample_count (rt0 b)
  /\ ColorSlot.subresource (rt0 b') = ColorSlot.subresource (rt0 b) /\ ColorSlot.size (rt0 b') = ColorSlot.size (rt0 b)
  /\ ColorSlot.format (rt0 b') = ColorSlot.format (rt0 b).
Proof. unfold core in Hrt0. by injection Hrt0 as -> -> -> -> -> ->. Qed.

Lemma slots_length : length (extra_slots b') = length (extra_slots b).
Proof. apply (f_equal length) in Hslots. by rewrite !length_fmap in Hslots. Qed.

Lemma takes_part_alike c c' : slot_core c' = slot_core c -> takes_part (rt0 b') c' = takes_part (rt0 b) c.
Proof.
  destruct rt0_fields as (_ & _ & _ & R4 & _ & R6 & _). unfold slot_core, takes_part. rewrite R4, R6.
  destruct (ColorSlot.is_bound c'), (ColorSlot.is_bound c); try done. unfold core. by intros [= _ _ _ -> _ -> _].
Qed.

Lemma mask_alike : slot_mask (takes_part (rt0 b')) (extra_slots b') = slot_mask (takes_part (rt0 b)) (extra_slots b).
Proof.
  apply slot_mask_ext. intros i. pose proof (slots_alike i) as H.
  destruct (extra_slots b' !! i), (extra_slots b !! i); try done. cbn in H |- *. apply (inj Some) in H. f_equal. by apply takes_part_alike.
Qed.

Context (Hmask : present_mask (extra_attachments b') = slot_mask (takes_part (rt0 b')) (extra_slots b')).

Lemma present_alike i : extra_present b' i = extra_present b i.
Proof. unfold extra_present, is_present. by rewrite Hmask, mask_alike, (sy_mask _ S). Qed.

Lemma present_slot i c : extra_present b i = true -> extra_slots b !! i = Some c ->
  ColorSlot.is_bound c = true /\ exists c', extra_slots b' !! i = Some c' /\ core c' = core c.
Proof.
  intros Hp Hc. rewrite (synced_present b i S), Hc in Hp. unfold takes_part in Hp. rewrite !andb_true_iff in Hp.
  destruct Hp as [[Hb _] _]. split; [done|]. pose proof (slots_alike i) as H. rewrite Hc in H.
  destruct (extra_slots b' !! i) as [c'|]; [|done]. exists c'. split; [done|]. cbn in H. apply (inj Some) in H.
  unfold slot_core in H. rewrite Hb in H. destruct (ColorSlot.is_bound c'); [|done]. by apply (inj Some) in H.
Qed.

Lemma core_fields c c' : core c' = core c ->
  ColorSlot.texture c' = ColorSlot.texture c /\ ColorSlot.msaa_texture c' = ColorSlot.msaa_texture c
  /\ ColorSlot.msaa_srgb_texture c' = ColorSlot.msaa_srgb_texture c /\ ColorSlot.subresource c' = ColorSlot.subresource c
  /\ ColorSlot.size c' = ColorSlot.size c /\ ColorSlot.format c' = ColorSlot.format c.
Proof. unfold core. by intros [= -> -> -> _ -> -> ->]. Qed.

Lemma twin_ready_alike c c' : core c' = core c -> twin_of (srgb b') (ColorSlot.texture c) = twin_of (srgb b) (ColorSlot.texture c) ->
  twin_ready (srgb b') c' = twin_ready (srgb b) c.
Proof. intros (H1 & H2 & H3 & _)%core_fields Ht. unfold twin_ready. by rewrite H1, H2, H3, Ht. Qed.

Lemma attachable_alike : srgb_write_is_attachable b' = srgb_write_is_attachable b.
Proof.
  destruct rt0_fields as (R1 & R2 & R3 & _ & _ & _ & R7).
  assert (forall i c c', extra_present b i = true -> extra_slots b !! i = Some c -> extra_slots b' !! i = Some c' ->
    core c' = core c /\ twin_of (srgb b') (ColorSlot.texture c) = twin_of (srgb b) (ColorSlot.texture c)) as Hc.
  { intros i c c' Hp Hi Hi'. destruct (present_slot i c Hp Hi) as (Hb & c'' & Hi'' & Hcc).
    rewrite Hi' in Hi''. injection Hi'' as <-. split; [done|].
    apply Htwin. right. exists c. split; [by eapply list_elem_of_lookup_2|done]. }
  assert (forall i c, extra_present b i = true -> extra_slots b !! i = Some c -> exists c', extra_slots b' !! i = Some c') as Hex.
  { intros i c Hp Hi. destruct (present_slot i c Hp Hi) as (_ & c' & ? & _). eauto. }
  assert (forall i c', extra_present b i = true -> extra_slots b' !! i = Some c' -> exists c, extra_slots b !! i = Some c) as Hex'.
  { intros i c' Hp Hi. rewrite (synced_present b i S) in Hp. destruct (extra_slots b !! i); [eauto|done]. }
  assert (forallb (twin_ready (srgb b')) (encoding_extras b') = forallb (twin_ready (srgb b)) (encoding_extras b)) as Hf.
  { apply eq_bool_prop_intro. rewrite !Is_true_true, !encoding_forall. split; intros H i c Hi Hp Ht.
    - destruct (Hex i c Hp Hi) as [c' Hi']. destruct (Hc i c c' Hp Hi Hi') as [Hcc Htw].
      rewrite <- (twin_ready_alike c c') by done. apply (H i); [done|by rewrite present_alike|].
      by destruct (core_fields c c' Hcc) as (_ & _ & _ & _ & _ & ->).
    - rewrite present_alike in Hp. destruct (Hex' i c Hp Hi) as [d Hd]. destruct (Hc i d c Hp Hd Hi) as [Hcc Htw].
      rewrite (twin_ready_alike d c) by done. apply (H i); [done..|]. destruct (core_fields d c Hcc) as (_ & _ & _ & _ & _ & E). by rewrite <- E. }
  assert (bool_decide (encoding_extras b' = []) = bool_decide (encoding_extras b = [])) as He.
  { apply bool_decide_ext. rewrite !encoding_none. split; intros H i c Hi Hp.
    - destruct (Hex i c Hp Hi) as [c' Hi']. destruct (Hc i c c' Hp Hi Hi') as [Hcc _]. destruct (core_fields c c' Hcc) as (_ & _ & _ & _ & _ & <-).
      apply (H i); [done|by rewrite present_alike].
    - rewrite present_alike in Hp. destruct (Hex' i c Hp Hi) as [d Hd]. destruct (Hc i d c Hp Hd Hi) as [Hcc _].
      destruct (core_fields d c Hcc) as (_ & _ & _ & _ & _ & ->). by apply (H i). }
  unfold srgb_write_is_attachable. rewrite Hf, He, R1, R7.
  rewrite (twin_ready_alike (rt0 b) (rt0 b')) by (done || apply Htwin; by left). done.
Qed.

(** The write choice that goes with it is the one in force. *)
Lemma recompute_same : SrgbWrite.pass_write (srgb b) = SrgbWrite.enabled (srgb b') && srgb_write_is_attachable b' ->
  same b (recompute_srgb_write b').
Proof.
  intros Hw. destruct rt0_fields as (R1 & R2 & R3 & R4 & R5 & R6 & R7). split; try done.
  - unfold loaded_rt0, rt0_attachment, color_attachment, color_attachment_format, recompute_srgb_write. cbn.
    rewrite <- Hw, R1, R2, R3, R5, R6, R7, (sy_rt0 _ S), (Htwin _ (or_introl eq_refl)). done.
  - unfold loaded_extras. apply list_eq. intros i. rewrite !list_lookup_imap. cbn [extra_slots recompute_srgb_write set_extra_attachments set_srgb].
    pose proof (slots_alike i) as Hs. destruct (extra_slots b !! i) as [c|] eqn:Ec, (extra_slots b' !! i) as [c'|] eqn:Ec'; try done.
    cbn [fmap option_fmap option_map]. f_equal. unfold extra_attachment.
    change (extra_present (recompute_srgb_write b') i) with (extra_present b' i). rewrite present_alike.
    destruct (extra_present b i) eqn:Ep; [|done]. destruct (present_slot i c Ep Ec) as (Hb & c'' & Hc'' & Hcc).
    rewrite Ec' in Hc''. injection Hc'' as <-.
    destruct (core_fields c c' Hcc) as (C1 & C2 & C3 & C5 & C6 & C7).
    unfold color_attachment, extra_attachment_format. cbn [srgb recompute_srgb_write set_extra_attachments set_srgb SrgbWrite.pass_write SrgbWrite.extra_twins].
    rewrite <- Hw. repeat match goal with |- context [extra_present ?x i] =>
      lazymatch x with b => fail | b' => fail | _ => change (extra_present x i) with (extra_present b' i) end end.
    rewrite present_alike, Ep, C1, C2, C3, C5, C6, C7, (sy_extras _ S).
    rewrite !(nth_lookup_Some _ i 0 (twin_of (srgb b) (ColorSlot.texture c))); [done|by rewrite list_lookup_fmap, Ec|].
    rewrite list_lookup_fmap, Ec'. cbn. f_equal. rewrite C1. apply Htwin. right. exists c. split; [by eapply list_elem_of_lookup_2|done].
  - apply slots_length.
  - cbn. unfold pass_binds_depth. cbn. by rewrite Hds, R4.
  - cbn. by rewrite Hds.
Qed.
End Recompute.
