(* ===== verification/RecorderSim.v ===== *)
(** The recorder against immediate rendering.  The memory [M] is what D3D9 would
    hold had every call been done at once; the invariant says that the passes
    recorded so far, with what is pending, define every texel [M] does, and each
    operation keeps it. *)

From S2P Require Import Prelude Mtl RenderScale PassCommands PassData PassRules PassGpu PassFacts PassClearOnly PipelineState DepthStencil.
From S2P Require Import RecorderState Recorder RecorderOps RecorderSettle RecorderOpen.

Section Sim.
Context {T : Type} {views : Views} `{L : GpuLaws T views} (m0 : Mem T) (companion : Z -> Z) (keeps : Z -> Prop).
Hypothesis companion_inj : forall t u, companion t = companion u -> t = u.

  Abbreviation settled := (settled (views := views) m0).
  Abbreviation blank := (blank companion keeps).
  Abbreviation well_bound := (well_bound companion keeps).
  Abbreviation texel σ := (@pending_texel T _ (bindings σ) (pending σ)).

Record inv (σ : Recorder) (M : Mem T) : Prop := {
  iv_open : open_inv σ;
  iv_first : passes (frame σ) = [] -> current_pass_closed σ = true;
  iv_synced : synced (bindings σ);
  iv_planes : Pending.depth_or_stencil (pending σ) = true -> DepthTarget.texture (ds (bindings σ)) <> 0;
  iv_mem : mem_le nowhere M (settled σ);
  iv_blank : blank σ M }.

(** ** Steps that leave the recorded passes alone *)

Record quiet (σ σ' : Recorder) : Prop := {
  qu_passes : passes (frame σ') = passes (frame σ);
  qu_closed : current_pass_closed σ' = true \/ kept σ σ';
  qu_texel : forall s, texel σ' s = texel σ s;
  qu_blits : Pending.leading_blits (pending σ') = Pending.leading_blits (pending σ);
  qu_color : forall t sub, unseen_color σ' t sub -> unseen_color σ t sub;
  qu_depth : forall t, unseen_depth σ' t -> unseen_depth σ t }.

Lemma inv_quiet σ σ' M : inv σ M -> quiet σ σ' -> synced (bindings σ') ->
  (Pending.depth_or_stencil (pending σ') = true -> DepthTarget.texture (ds (bindings σ')) <> 0) -> inv σ' M.
Proof.
  intros I Q Hs Hp. split; [| |done|done| |].
  - destruct (qu_closed _ _ Q) as [Hc|Hk]; [by apply open_inv_closed|].
    eapply open_inv_kept; [apply (iv_open _ _ I)|done|apply Q].
  - rewrite (qu_passes _ _ Q). intros Hn. destruct (qu_closed _ _ Q) as [Hc|Hk]; [done|].
    rewrite (ke_closed _ _ Hk). by apply (iv_first _ _ I).
  - intros s _ px v Hv. pose proof (iv_mem _ _ I s ltac:(intros []) px v Hv) as H. revert H.
    unfold RecorderOpen.settled, settle, apply_clears, recorded_memory.
    by rewrite (qu_passes _ _ Q), (qu_texel _ _ Q), (qu_blits _ _ Q).
  - eapply blank_shrink; [apply (iv_blank _ _ I)|apply Q|apply Q|]. intros s _. by rewrite (qu_texel _ _ Q).
Qed.

Lemma quiet_bindings σ b : same (bindings σ) b -> quiet σ (set_bindings σ b).
Proof.
  intros H. split; try done.
  - right. by apply same_kept.
  - intros s. by apply same_pending_texel.
Qed.

(** A rebind that attaches what was attached. *)
Lemma inv_same σ b M : inv σ M -> same (bindings σ) b -> synced b -> inv (set_bindings σ b) M.
Proof.
  intros I H Hs. apply (inv_quiet σ); [done|by apply quiet_bindings|done|].
  intros Hp. apply (iv_planes _ _ I) in Hp. pose proof (sa_depth _ _ H) as Hd. injection Hd as Hd _ _ _ _.
  cbn [set_bindings bindings]. by rewrite Hd.
Qed.

(** A rebind between passes, of targets no clear is pending on. *)
Lemma inv_rebind σ b M : inv σ M -> current_pass_closed σ = true -> synced b ->
  (forall s, @pending_texel T _ b (pending σ) s = texel σ s) ->
  (Pending.depth_or_stencil (pending σ) = true -> DepthTarget.texture (ds b) <> 0) -> inv (set_bindings σ b) M.
Proof.
  intros I Hc Hs Ht Hp. apply (inv_quiet σ); [done| |done|done]. split; try done. by left.
Qed.

Lemma synced_dropped b x : synced b -> synced (set_dropped b x).
Proof. intros []. by split. Qed.

Lemma inv_end σ M : inv σ M -> inv (end_current_pass σ) M /\ current_pass_closed (end_current_pass σ) = true.
Proof.
  intros I. destruct (end_fields σ) as (Hf & Hb & Hp & Hs & _).
  assert (current_pass_closed (end_current_pass σ) = true) as Hc.
  { unfold end_current_pass. cbn [set_bindings frame current_pass_closed].
    case_bool_decide as Hn; [by apply (iv_first _ _ I)|]. by destruct (current_pass_closed σ) eqn:E. }
  split; [|done]. apply (inv_quiet σ); [done| |rewrite Hb; apply synced_dropped, I|].
  - split; [by rewrite Hf|by left|intros s; by rewrite Hb, Hp|by rewrite Hp| |].
    + unfold unseen_color, is_discarded_back_buffer. by rewrite Hf, Hs.
    + unfold unseen_depth. by rewrite Hf, Hs.
  - rewrite Hb, Hp. apply I.
Qed.

(** ** Opening and flushing *)

Lemma consumed_planes σ a : Pending.depth_or_stencil (consumed σ a) = true -> Pending.depth_or_stencil (pending σ) = true.
Proof. unfold consumed, Pending.depth_or_stencil. cbn. by destruct (attaches_depth a && _). Qed.

Lemma open_pass_planes σ : Pending.depth_or_stencil (pending (open_pass σ)) = true -> Pending.depth_or_stencil (pending σ) = true.
Proof.
  destruct (open_pass_last σ) as (σ1 & -> & _ & _ & Hd & Hs & _). destruct (push_pass_fields σ1 (attach_of (bindings σ))) as (_ & _ & _ & _ & -> & _).
  intros H%consumed_planes. unfold Pending.depth_or_stencil in *. by rewrite Hd, Hs in H.
Qed.

Lemma inv_open_pass σ M : inv σ M -> well_bound (bindings σ) -> inv (open_pass σ) M.
Proof.
  intros I W. destruct (open_pass_opens σ) as (Ho & Hc & Hb & Hv).
  destruct (open_pass_le m0 companion keeps companion_inj σ M W (iv_blank _ _ I) (iv_mem _ _ I) (iv_planes _ _ I)) as [HM HB].
  split; [done| |by rewrite Hb; apply I| |done|done].
  - destruct (Ho Hc) as (ps & p & -> & _). intros H. by apply app_eq_nil in H as [_ ?].
  - rewrite Hb. intros H%open_pass_planes. by apply (iv_planes _ _ I).
Qed.

Lemma inv_ensure σ M : inv σ M -> well_bound (bindings σ) ->
  inv (ensure_pass_open σ) M /\ current_pass_closed (ensure_pass_open σ) = false
  /\ bindings (ensure_pass_open σ) = bindings σ /\ current_visibility (ensure_pass_open σ) = current_visibility σ.
Proof.
  intros I W. split; [|by apply ensure_opens, I]. unfold ensure_pass_open. destruct (opens_pass σ); [by apply inv_open_pass|done].
Qed.

Lemma push_depth_clear_synced σ : synced (bindings σ) -> synced (bindings (push_depth_clear_pass σ)).
Proof.
  intros S. unfold push_depth_clear_pass. destruct (_ =? 0); [done|]. cbn [bindings].
  destruct (end_fields σ) as (_ & -> & _). by apply synced_dropped.
Qed.

Lemma inv_push_depth_clear σ M : inv σ M -> well_bound (bindings σ) -> Pending.depth_or_stencil (pending σ) = true ->
  inv (push_depth_clear_pass σ) M.
Proof.
  intros I W Hp. specialize (iv_planes _ _ I Hp) as Hn. destruct (push_depth_clear_fields σ Hn) as (Hf & Hb & Hpe & _ & Hc).
  destruct (push_depth_clear_le m0 companion keeps companion_inj σ M W (iv_blank _ _ I) (iv_mem _ _ I)) as [HM HB].
  split; [by apply open_inv_closed|done|apply push_depth_clear_synced, I|by rewrite Hpe|done|done].
Qed.

(** What is pending when nothing is to be cleared. *)
Definition settled_pending (σ : Recorder) : Prop :=
  Pending.color_clear (pending σ) = None /\ Pending.depth_clear (pending σ) = None /\ Pending.stencil_clear (pending σ) = None.

Lemma depth_or_stencil_false p : Pending.depth_or_stencil p = false <-> Pending.depth_clear p = None /\ Pending.stencil_clear p = None.
Proof.
  unfold Pending.depth_or_stencil. rewrite orb_false_iff, !bool_decide_eq_false, <- !eq_None_not_Some. done.
Qed.

Lemma color_false p : Pending.color p = false <-> Pending.color_clear p = None.
Proof. unfold Pending.color. by rewrite bool_decide_eq_false, <- eq_None_not_Some. Qed.

Definition anything_pending (σ : Recorder) : bool := Pending.color (pending σ) || Pending.depth_or_stencil (pending σ).

(** A flush lands every clear; it leaves the pass open only when there was none. *)
Lemma inv_flush σ M : inv σ M -> (anything_pending σ = true -> well_bound (bindings σ)) ->
  inv (flush_pending_clears σ) M /\ settled_pending (flush_pending_clears σ)
  /\ (flush_pending_clears σ = σ \/ current_pass_closed (flush_pending_clears σ) = true
      /\ bindings (flush_pending_clears σ) = set_dropped (bindings σ) false).
Proof.
  intros I W. unfold flush_pending_clears.
  set (cond := Pending.color (pending σ) || _). set (σ1 := if cond then _ else σ).
  assert (inv σ1 M /\ (cond = true -> current_pass_closed σ1 = true /\ bindings σ1 = set_dropped (bindings σ) false)
          /\ Pending.color_clear (pending σ1) = None /\ (cond = false -> σ1 = σ)
          /\ (Pending.depth_or_stencil (pending σ1) = true -> anything_pending σ = true)) as (I1 & H1 & Hcol & H2 & H3).
  { unfold σ1. destruct cond eqn:Ec.
    - assert (anything_pending σ = true) as Hap.
      { unfold anything_pending, cond in *. destruct (Pending.color (pending σ)); [done|]. cbn in *. by destruct (Pending.depth_or_stencil (pending σ)). }
      destruct (inv_ensure σ M I (W Hap)) as (I' & Hc' & Hb' & _). destruct (inv_end _ M I') as [I'' Hc''].
      destruct (end_fields (ensure_pass_open σ)) as (_ & Hb & Hp & _). split_and!; try done.
      + intros _. by rewrite Hb, Hb'.
      + rewrite Hp. destruct (iv_open _ _ I' Hc') as (ps & p & _ & Ho). apply Ho.
    - split_and!; try done.
      + apply color_false. unfold cond in Ec. by apply orb_false_iff in Ec as [? _].
      + unfold anything_pending. intros ->. by rewrite orb_true_r. }
  destruct (Pending.depth_or_stencil (pending σ1)) eqn:Ed.
  - assert (well_bound (bindings σ1)) as W1.
    { destruct cond; [|rewrite H2 by done; by apply W, H3]. destruct (H1 eq_refl) as [_ ->]. apply well_bound_dropped; [by apply W, H3|by left]. }
    pose proof (inv_push_depth_clear σ1 M I1 W1 Ed) as I2. destruct (push_depth_clear_fields σ1 (iv_planes _ _ I1 Ed)) as (_ & Hb & Hp & _ & Hc).
    split_and!; [done|unfold settled_pending; by rewrite Hp|]. right. split; [done|]. rewrite Hb.
    destruct cond; [by destruct (H1 eq_refl) as [_ ->]|by rewrite H2].
  - apply depth_or_stencil_false in Ed as [? ?]. split_and!; [done|done|]. destruct cond; [right; by apply H1|left; by apply H2].
Qed.

(** The flush before a colour target changes. *)
Lemma inv_flush_color σ M : inv σ M -> (Pending.color (pending σ) = true -> well_bound (bindings σ)) ->
  let σ' := end_current_pass (flush_color_clear σ) in
  inv σ' M /\ current_pass_closed σ' = true /\ Pending.color_clear (pending σ') = None /\ bindings σ' = set_dropped (bindings σ) false.
Proof.
  intros I W. cbn zeta. unfold flush_color_clear. destruct (Pending.color (pending σ)) eqn:E.
  - destruct (inv_flush σ M I (λ _, W eq_refl)) as (I' & Hp & Hb). destruct (inv_end _ M I') as [I'' Hc].
    destruct (end_fields (flush_pending_clears σ)) as (_ & -> & -> & _). split_and!; [done|done|apply Hp|].
    destruct Hb as [-> | [_ ->]]; done.
  - destruct (inv_end _ M I) as [I' Hc]. destruct (end_fields σ) as (_ & -> & -> & _). split_and!; try done. by apply color_false.
Qed.

(** ** Steps on the open pass *)

(** How the open pass may change without changing what it does. *)
Record retouch (p q : Pass) : Prop := {
  re_outline : outline q = outline p;
  re_stores : stores_all p -> stores_all q;
  re_blits : leading_blits q = leading_blits p;
  re_commands : exists cs, commands q = commands p ++ cs /\ forall c, c ∈ cs -> is_draw c = false;
  re_loads : forall sl, attached p sl <> None ->
    load_action (T := T) q sl = load_action p sl \/ load_action (T := T) p sl = LDontCare /\ load_action (T := T) q sl = LLoad }.

Lemma recorded_snoc σ ps p : passes (frame σ) = ps ++ [p] ->
  recorded_memory (views := views) m0 σ = run_pass views p (run_passes views ps m0).
Proof. unfold recorded_memory. intros ->. apply run_passes_snoc. Qed.

Lemma settle_le b p (m1 m2 : Mem T) : mem_le nowhere m1 m2 -> mem_le nowhere (settle b p m1) (settle b p m2).
Proof. intros H. apply apply_clears_le. by apply (run_blits_le nowhere); [apply blits_nowhere|]. Qed.

Lemma inv_retouch_last f σ M : inv σ M -> current_pass_closed σ = false ->
  (forall ps p, passes (frame σ) = ps ++ [p] -> open_on σ p -> retouch p (f p)) -> inv (alter_last f σ) M.
Proof.
  intros I Hc Hf. destruct (iv_open _ _ I Hc) as (ps & p & Hps & Ho). specialize (Hf ps p Hps Ho).
  pose proof (alter_last_snoc f σ ps p Hps) as Hps'. split; [| |apply I|apply I| |apply (iv_blank _ _ I)].
  - intros _. exists ps, (f p). split; [done|]. apply (open_on_alter σ _ p); [done|done|apply Hf|by apply (re_stores _ _ Hf), (oo_stores _ _ Ho)|].
    destruct (re_commands _ _ Hf) as (cs & Hcs & _). by exists cs.
  - rewrite Hps'. intros H. by apply app_eq_nil in H as [_ ?].
  - eapply mem_le_trans; [apply (iv_mem _ _ I)|]. unfold RecorderOpen.settled.
    change (bindings (alter_last f σ)) with (bindings σ). change (pending (alter_last f σ)) with (pending σ). apply settle_le.
    rewrite (recorded_snoc _ _ _ Hps), (recorded_snoc _ _ _ Hps'). destruct (re_commands _ _ Hf) as (cs & Hcs & Hd).
    pose proof (oo_stores _ _ Ho) as Hs.
    apply (run_alike p (f p) cs); [exact Hs|exact (re_stores _ _ Hf Hs)|apply Hf|apply Hf|exact Hcs|exact Hd|apply Hf].
Qed.

Lemma inv_retouch f σ M : inv σ M -> current_pass_closed σ = false -> (forall p, open_on σ p -> retouch p (f p)) -> inv (alter_last f σ) M.
Proof. intros I Hc Hf. apply inv_retouch_last; auto. Qed.

Lemma no_commands p q : commands q = commands p ->
  exists cs, commands q = commands p ++ cs /\ forall c, c ∈ cs -> is_draw c = false.
Proof. intros H. exists []. split; [by rewrite app_nil_r|by intros c ?%not_elem_of_nil]. Qed.

Lemma retouch_color_flags p f : retouch p (with_color_flags p f).
Proof. split; [done|done|done|by apply no_commands|by left]. Qed.

Lemma contains_lor_stencil f bits : Z.testbit bits 1 = false -> contains (Z.lor f bits) HAS_STENCIL = contains f HAS_STENCIL.
Proof.
  intros H. unfold contains, HAS_STENCIL. f_equal. apply Z.bits_inj'. intros n Hn. rewrite !Z.land_spec, Z.lor_spec.
  destruct (decide (n = 1)) as [->|Hne]; [by rewrite H, orb_false_r|].
  assert (Z.testbit 2 n = false) as ->; [|by rewrite !andb_false_r].
  change 2 with (2 ^ 1). apply Z.pow2_bits_false. lia.
Qed.

Lemma retouch_depth_flags p bits : Z.testbit bits 1 = false -> retouch p (insert_depth_flags p bits).
Proof.
  intros H. assert (outline (insert_depth_flags p bits) = outline p) as Ho.
  { unfold outline, insert_depth_flags, has_stencil, depth_flags. cbn. by rewrite contains_lor_stencil. }
  split; [done| |done|by apply no_commands|by intros []; left].
  intros [Hs Hr]. split; [|done]. intros sl s Ha. rewrite (outline_attached _ p) in Ha by done.
  specialize (Hs sl s Ha). by destruct sl.
Qed.

Lemma retouch_trans p q r : retouch p q -> retouch q r -> retouch p r.
Proof.
  intros [A1 A2 A3 (cs & A4 & A5) A6] [B1 B2 B3 (ds & B4 & B5) B6]. split; [congruence|auto|congruence| |].
  - exists (cs ++ ds). split; [by rewrite B4, A4, app_assoc|]. intros c [?|?]%elem_of_app; auto.
  - intros sl Hsl. assert (attached q sl <> None) as Hq by (by rewrite (outline_attached q p sl A1)).
    destruct (A6 sl Hsl) as [E | [E1 E2]], (B6 sl Hq) as [F | [F1 F2]].
    + left. congruence.
    + right. split; congruence.
    + right. split; congruence.
    + congruence.
Qed.

Lemma retouch_refl p : retouch p p.
Proof. split; [done|done|done|by apply no_commands|by left]. Qed.

(** Tags and quad ranges. *)
Lemma inv_note f σ M : inv σ M -> well_bound (bindings σ) -> (forall p, retouch p (f p)) -> inv (alter_last f (ensure_pass_open σ)) M.
Proof. intros I W Hf. destruct (inv_ensure σ M I W) as (I' & Hc & _). by apply inv_retouch. Qed.

Lemma inv_note_color_write_mask mask σ M : inv σ M -> well_bound (bindings σ) -> inv (note_draw_color_write_mask mask σ) M.
Proof.
  intros I W. unfold note_draw_color_write_mask. destruct (mask =? 0); [by apply inv_ensure|].
  apply inv_note; [done..|]. intros p. apply retouch_color_flags.
Qed.

Lemma inv_note_depth_stencil s attach σ M : inv σ M -> well_bound (bindings σ) -> inv (note_draw_depth_stencil s attach σ) M.
Proof.
  intros I W. unfold note_draw_depth_stencil. apply inv_note; [done..|]. intros p.
  apply (retouch_trans _ (if (attaches attach HAS_DEPTH && uses_depth s) || (attaches attach ATTACH_STENCIL && negb (stencil_enable s =? 0))
                          then insert_depth_flags p USED else p)).
  - destruct (_ || _); [by apply retouch_depth_flags|apply retouch_refl].
  - destruct (draw_writes_stencil s attach); [by apply retouch_depth_flags|apply retouch_refl].
Qed.

Lemma inv_note_clear_quad b σ M : inv σ M -> well_bound (bindings σ) -> inv (note_depth_stencil_clear_quad b σ) M.
Proof.
  intros I W. unfold note_depth_stencil_clear_quad. apply inv_note; [done..|]. intros p.
  apply (retouch_trans _ (insert_depth_flags p USED)); [by apply retouch_depth_flags|].
  destruct b; [by apply retouch_depth_flags|apply retouch_refl].
Qed.

Lemma inv_covering_draw σ M : inv σ M -> well_bound (bindings σ) -> inv (open_pass_for_covering_draw σ) M.
Proof.
  intros I W. unfold open_pass_for_covering_draw. destruct (opens_pass σ); [|by apply inv_ensure].
  apply inv_note; [done..|]. intros p. destruct (_ || _); [apply retouch_refl|apply retouch_color_flags].
Qed.

Lemma inv_close_quad_block start σ M : inv σ M -> current_pass_closed σ = false -> inv (close_color_clear_quad_block start σ) M.
Proof.
  intros I Hc. apply inv_retouch; [done..|]. intros p _. cbn zeta. destruct (start <? length (commands p))%nat; [|apply retouch_refl].
  split; [done|done|done|by apply no_commands|by left].
Qed.

(** A viewport set on the open encoder. *)
Lemma inv_view σ v M : inv σ M -> inv (set_view σ v) M.
Proof. intros I. apply (inv_quiet σ); [done| |apply I|apply I]. split; try done. by right. Qed.

Lemma retouch_viewport p vp z1 z2 :
  retouch p (with_viewport (with_commands p (commands p ++ [set_viewport_command vp z1 z2]) (color_clear_quad_ranges p)) vp).
Proof.
  split; try done; [|by left]. exists [set_viewport_command vp z1 z2]. split; [done|].
  intros c ->%list_elem_of_singleton. apply viewport_no_draw.
Qed.

Lemma inv_emit_viewport rect z1 z2 σ M : inv σ M -> inv (emit_viewport_if_changed rect z1 z2 σ) M.
Proof.
  intros I. unfold emit_viewport_if_changed. destruct rect as [[[x y] w] h]. destruct (_ && _ && _) eqn:E; [|done].
  rewrite !andb_true_iff, !negb_true_iff in E. destruct E as [[Hc _] _]. apply inv_view, inv_retouch; [done..|].
  intros p _. apply retouch_viewport.
Qed.

Lemma inv_set_viewport x y w h z1 z2 σ M : inv σ M -> inv (set_viewport x y w h z1 z2 σ) M.
Proof. intros I. by apply inv_emit_viewport, inv_view. Qed.

Lemma inv_set_depth_range z1 z2 σ M : inv σ M -> inv (set_emitted_depth_range z1 z2 σ) M.
Proof. intros I. by apply inv_emit_viewport, inv_view. Qed.

(** ** Commands *)

Definition encoder_of (σ : Recorder) : Encoder :=
  match last_pass σ with Some p => encoder_after (commands p) fresh | None => fresh end.

(** What the bindings attach. *)
Definition drawn_pass (σ : Recorder) : Pass := bound_pass (bindings σ) (current_visibility σ) (attach_of (bindings σ)).

(** No texture bound for sampling is attached, or to be cleared. *)
Definition no_feedback (σ : Recorder) : Prop :=
  forall sl b tex, encoder_of σ sl = Some b -> command_sampled_texture b = Some tex ->
    ~ read_through views (λ s, (exists sl, attached (drawn_pass σ) sl = Some s) \/ texel σ s <> None) tex.

(** A draw of immediate rendering: a pass of its own on what is bound, with the
    states its encoder holds. *)
Definition draw_now (σ : Recorder) (c : Command) (M : Mem T) : Mem T :=
  if is_draw c then draw_alone (views := views) (drawn_pass σ) (encoder_of σ) c M else M.

Lemma inv_note_sampled tex σ M : inv σ M -> inv (note_sampled tex σ) M.
Proof.
  intros I. destruct (note_sampled_fields tex σ) as (H1 & H2 & H3 & H4 & H5 & H6 & H7 & H8 & H9).
  apply (inv_quiet σ); [done| |rewrite H4; apply I|rewrite H4, H5; apply I]. split; [done| |by rewrite H4, H5|by rewrite H5| |].
  - right. split; rewrite ?H2, ?H3, ?H4, ?H5, ?H6; done.
  - unfold unseen_color, is_discarded_back_buffer. rewrite H6, H7, H8. set_solver.
  - unfold unseen_depth. rewrite H6. set_solver.
Qed.

Lemma drawn_bound_attached b vis a sl : attached (bound_pass b vis a) sl <> None ->
  load_action (T := T) (bound_pass b vis a) sl = LLoad.
Proof.
  destruct sl as [i| | |]; try done. cbn [attached load_action]. unfold color_slots. cbn [color extra_color bound_pass].
  destruct (_ !! i) as [x|] eqn:E; [|done]. change (Some x ≫= ?f) with (f x). cbn beta. destruct (is_bound x) eqn:Hb; [|done]. intros _.
  apply list_elem_of_lookup_2, elem_of_cons in E as [->|(j & Hj)%list_elem_of_lookup].
  - by destruct (attaches_color a).
  - destruct (attaches_color a); [unfold loaded_extras in Hj|]; rewrite list_lookup_imap in Hj; destruct (extra_slots b !! j) as [c|]; try done;
      cbn in Hj; injection Hj as <-; [|done]. unfold extra_attachment in *. by destruct (extra_present b j).
Qed.

(** What is pending while a pass is open is no attachment of it. *)
Lemma open_not_pending σ p sl s : open_on σ p -> attached p sl = Some s -> texel σ s = None.
Proof.
  intros Ho Ha. rewrite (outline_attached _ _ _ (oo_outline _ _ Ho)) in Ha. pose proof (attached_in_plane _ _ _ Ha) as Hp.
  unfold pending_texel. destruct sl as [i| | |]; rewrite Hp; [by rewrite (oo_color _ _ Ho)| | |done].
  - assert (pass_binds_depth (bindings σ) = true) as Hb; [|by rewrite (proj1 (oo_planes _ _ Ho Hb))].
    revert Ha. cbn [attached]. unfold depth_texture, bound_pass, bound_depth, opened_depth_texture. cbn [depth depth_texture_].
    destruct (pass_binds_depth (bindings σ)); [done|]. by rewrite andb_false_r.
  - assert (pass_binds_depth (bindings σ) = true) as Hb; [|by rewrite (proj2 (oo_planes _ _ Ho Hb))].
    revert Ha. cbn [attached]. unfold depth_texture, bound_pass, bound_depth, opened_depth_texture. cbn [depth depth_texture_].
    destruct (pass_binds_depth (bindings σ)); [done|]. by rewrite andb_false_r.
Qed.

Lemma outline_distinct p q : outline p = outline q -> distinct_slots q -> distinct_slots p.
Proof. intros H Hd sl1 sl2 s. rewrite !(outline_attached p q) by done. apply Hd. Qed.
End Sim.
