(* ===== verification/RecorderCalls.v ===== *)
(** What the calls of a frame do to the recorder, against doing them at once: a
    command and a draw, [Clear] folded into load actions, a blit between passes. *)

From S2P Require Import Prelude Mtl RenderScale PassCommands PassData PassRules PassGpu PassFacts PassClearOnly PipelineState DepthStencil.
From S2P Require Import RecorderState Recorder RecorderOps RecorderSettle RecorderOpen RecorderSim.

#[local] Arguments clear_target : simpl never.
#[local] Arguments clear_targets : simpl never.

Section Calls.
Context {T : Type} {views : Views} `{L : GpuLaws T views} (m0 : Mem T) (companion : Z -> Z) (keeps : Z -> Prop).
Hypothesis companion_inj : forall t u, companion t = companion u -> t = u.

  Abbreviation inv := (inv (views := views) m0 companion keeps).
  Abbreviation well_bound := (well_bound companion keeps).
  Abbreviation texel σ := (@pending_texel T _ (bindings σ) (pending σ)).
  Abbreviation draw_now := (@draw_now T views _).
  Abbreviation no_feedback := (@no_feedback T views _).

(** ** Commands *)

Lemma draw_samples_nothing c : is_draw c = true -> command_sampled_texture c = None.
Proof.
  unfold is_draw, command_sampled_texture. rewrite !orb_true_iff, !Z.eqb_eq. by intros [[-> | ->] | ->].
Qed.

Lemma retouch_push c p : is_draw c = false -> @retouch T _ p (push_command c p).
Proof.
  intros Hc. split; [done|done|done| |by left]. exists [c]. split; [done|]. by intros d ->%list_elem_of_singleton.
Qed.

(** A draw writes what its pass attaches. *)
Lemma draw_elsewhere q e c (M : Mem T) s px : stores_all q -> (forall sl, attached q sl <> Some s) ->
  draw_alone (views := views) q e c M s px = M s px.
Proof.
  intros Hs Ha. unfold draw_alone, close_tile. rewrite (no_resolving views q s Hs).
  apply slot_of_None in Ha. by rewrite Ha.
Qed.

(** What the open pass attaches counts as seen. *)
Lemma open_seen_color σ p sl s t sub : well_bound (bindings σ) -> open_on σ p ->
  attached p sl = Some s -> s = surface (companion t) sub ColorPlane -> ~ unseen_color σ t sub.
Proof.
  intros W Ho Ha -> (_ & Hn & _). apply Hn. pose proof (attached_in_plane _ _ _ Ha) as Hp. destruct sl as [i| | |]; try done.
  pose proof (outline_attached _ _ (SlotColor i) (oo_outline _ _ Ho)) as Hb. rewrite Ha in Hb. symmetry in Hb.
  apply bound_attached_both in Hb.
  cbn [attached] in Ha, Hb. rewrite (bound_slots_both (bindings σ)) in Hb.
  destruct (color_slots p !! i) as [x|] eqn:Ex; [|done]. change (Some x ≫= ?f) with (f x) in Ha. cbn beta in Ha.
  destruct (is_bound x) eqn:Hbx; [|done].
  assert (exists y, clear_targets (bindings σ) !! i = Some y /\ is_bound y = true /\ color_surface y = surface (companion t) sub ColorPlane) as (y & Hy & Hby & Hsy).
  { destruct (clear_targets (bindings σ) !! i) as [y|]; [|done]. exists y. change (Some y ≫= ?f) with (f y) in Hb. cbn beta in Hb.
    destruct (is_bound y); [|done]. split_and!; [done|done|]. by apply (inj Some) in Hb. }
  assert (y ∈ clear_targets (bindings σ)) as Hyin by (by eapply list_elem_of_lookup_2).
  pose proof (wb_companion _ _ _ W y Hyin Hby) as Hc. rewrite Hsy in Hc. cbn in Hc. apply companion_inj in Hc as ->.
  assert (texture x = texture y /\ subresource x = subresource y) as [<- Hsub].
  { pose proof (outline_slot _ _ i (oo_outline _ _ Ho)) as Hl. rewrite Ex in Hl. unfold color_slots in Hl.
    destruct (attach_of (bindings σ)) eqn:Eo; cbn [color extra_color bound_pass attaches_color] in Hl.
    - change (loaded_rt0 (bindings σ) :: loaded_extras (bindings σ)) with (clear_targets (bindings σ)) in Hl. rewrite Hy in Hl.
      apply (inj Some) in Hl. by destruct (erase_color_keeps _ _ Hl) as (_ & _ & _ & _ & ? & ? & _).
    - unfold attach_of in Eo. by destruct (rt0_dropped (bindings σ)).
    - exfalso. assert (is_bound x = false); [|congruence]. destruct i as [|i].
      + change ((?y :: ?l) !! 0%nat) with (Some y) in Hl. apply (inj Some) in Hl. by destruct (erase_color_keeps _ _ Hl) as (-> & _).
      + change ((?y :: ?l) !! S i) with (l !! i) in Hl. rewrite list_lookup_imap in Hl. destruct (extra_slots (bindings σ) !! i); [|done]. apply (inj Some) in Hl.
        by destruct (erase_color_keeps _ _ Hl) as (-> & _). }
  assert (subresource y = sub) as <-.
  { apply (f_equal s_sub) in Hsy. exact Hsy. }
  rewrite <- Hsub. apply (oo_seen _ _ Ho); [by eapply list_elem_of_lookup_2|done].
Qed.

Lemma open_seen_depth σ p sl s : open_on σ p -> attached p sl = Some s ->
  s_plane s = DepthPlane \/ s_plane s = StencilPlane -> ~ unseen_depth σ (s_texture s).
Proof.
  intros Ho Ha Hp (_ & Hn & _). apply Hn. pose proof (attached_in_plane _ _ _ Ha) as Hpl.
  assert (depth_texture p <> 0 /\ s_texture s = depth_texture p) as [Hd ->]; [|by apply (oo_seen_depth _ _ Ho)].
  destruct sl as [i| | |]; [by rewrite Hpl in Hp; destruct Hp| | |by rewrite Hpl in Hp; destruct Hp]; cbn [attached] in Ha.
  - destruct (depth_texture p =? 0) eqn:E; [done|]. apply Z.eqb_neq in E. injection Ha as <-. done.
  - destruct (depth_texture p =? 0) eqn:E; [done|]. apply Z.eqb_neq in E. cbn in Ha. destruct (negb _); [done|]. injection Ha as <-. done.
Qed.

Lemma blank_draw σ p q e c M : well_bound (bindings σ) -> open_on σ p -> outline q = outline p -> stores_all q ->
  blank companion keeps σ M -> blank companion keeps σ (draw_alone (views := views) q e c M).
Proof.
  intros W Ho Hq Hs [H1 H2]. split.
  - intros t sub s px Hu Hsf Hp. rewrite draw_elsewhere; [by eapply H1|done|]. intros sl Ha.
    rewrite (outline_attached _ _ _ Hq) in Ha. by apply (open_seen_color σ p sl s t sub W Ho Ha Hsf).
  - intros s px Hu Hk Hpl Hp. rewrite draw_elsewhere; [by apply H2|done|]. intros sl Ha.
    rewrite (outline_attached _ _ _ Hq) in Ha. by apply (open_seen_depth σ p sl s Ho Ha Hpl).
Qed.

Lemma inv_push_draw c σ M : inv σ M -> well_bound (bindings σ) -> current_pass_closed σ = false -> is_draw c = true -> no_feedback σ ->
  inv (alter_last (push_command c) σ) (draw_now σ c M).
Proof.
  intros I W Hcl Hc Hf. destruct (iv_open _ _ _ _ _ I Hcl) as (ps & p & Hps & Ho).
  pose proof (alter_last_snoc (push_command c) σ ps p Hps) as Hps'. set (p' := push_command c p) in *.
  unfold RecorderSim.draw_now. rewrite Hc. set (q := drawn_pass σ).
  assert (encoder_of σ = encoder_after (commands p) fresh) as He by (unfold encoder_of; by rewrite (last_pass_snoc _ _ _ Hps)).
  assert (outline q = outline p) as Hq by (symmetry; apply Ho).
  assert (stores_all q) as Hsq by apply bound_stores_all.
  set (dead := λ s, texel σ s <> None). set (m1 := run_blits (leading_blits p) (run_passes views ps m0)).
  assert (forall s, ~ dead s -> RecorderOpen.settled (views := views) m0 σ s = run_render views p m1 s) as Hset.
  { intros s Hd. unfold RecorderOpen.settled, settle, apply_clears. rewrite (recorded_snoc m0 σ ps p Hps), (oo_blits _ _ Ho).
    unfold dead in Hd. destruct (texel σ s); [by destruct Hd|done]. }
  assert (forall sl s, attached p sl = Some s -> ~ dead s) as Hdead.
  { intros sl s Ha Hd. apply Hd. by apply (open_not_pending σ p sl s Ho). }
  assert (mem_le dead (draw_alone (views := views) q (encoder_of σ) c M) (run_render views p' m1)) as Hj.
  { rewrite He. apply (draw_joins dead p p' q c m1 M Hc); [done|done|done|by intros []| |apply (oo_stores _ _ Ho)|apply (oo_stores _ _ Ho)|done| |exact Hdead| |].
    - intros sl Ha. by apply drawn_bound_attached.
    - eapply outline_distinct; [symmetry; exact Hq|]. apply bound_distinct, W.
    - intros sl b tex Hb Ht (s & Hs & Hr). rewrite <- He in Hb. apply (Hf sl b tex Hb Ht). exists s. split; [|done].
      destruct Hs as [[sl' Ha]|Hs]; [left|by right]. exists sl'. change (drawn_pass σ) with q. by rewrite (outline_attached _ _ _ Hq).
    - intros s Hs px v Hv. rewrite <- Hset by done. exact (iv_mem _ _ _ _ _ I s ltac:(intros []) px v Hv). }
  split; [| |apply I|apply I| |].
  - intros _. exists ps, p'. split; [done|]. apply (open_on_alter σ _ p); [done|done|done|apply (oo_stores _ _ Ho)|by exists [c]].
  - rewrite Hps'. intros H. by apply app_eq_nil in H as [_ ?].
  - intros s _ px v Hv. destruct (decide (texel σ s = None)) as [Hn|Hn].
    + unfold RecorderOpen.settled, settle, apply_clears.
      change (texel (alter_last (push_command c) σ) s) with (texel σ s). rewrite Hn.
      change (Pending.leading_blits (pending (alter_last (push_command c) σ))) with (Pending.leading_blits (pending σ)).
      rewrite (oo_blits _ _ Ho), (recorded_snoc m0 _ ps p' Hps'). cbn [run_blits foldl]. apply Hj; [unfold dead; tauto|done].
    + rewrite draw_elsewhere in Hv; [|done|intros sl Ha; rewrite (outline_attached _ _ _ Hq) in Ha; by apply (Hdead sl s)].
      pose proof (iv_mem _ _ _ _ _ I s ltac:(intros []) px v Hv) as H. revert H.
      unfold RecorderOpen.settled, settle, apply_clears. change (texel (alter_last (push_command c) σ) s) with (texel σ s).
      by destruct (texel σ s).
  - apply (blank_draw σ p); [done|done|done|done|apply I].
Qed.

(** A command goes to the open pass; a draw does what it would in a pass of its
    own. *)
Lemma inv_emit c σ M : inv σ M -> well_bound (bindings σ) -> (is_draw c = true -> no_feedback (ensure_pass_open σ)) ->
  inv (emit_command c σ) (draw_now (ensure_pass_open σ) c M).
Proof.
  intros I W Hf. destruct (inv_ensure m0 companion keeps companion_inj σ M I W) as (I' & Hc & Hb & _). unfold emit_command.
  destruct (is_draw c) eqn:Hd.
  - rewrite (draw_samples_nothing c Hd). apply inv_push_draw; [done|by rewrite Hb|done|done|by apply Hf].
  - unfold RecorderSim.draw_now. rewrite Hd.
    destruct (command_sampled_texture c) as [tex|].
    + apply inv_retouch; [by apply inv_note_sampled| |intros p _; by apply retouch_push].
      by rewrite (proj1 (proj2 (note_sampled_fields tex _))).
    + apply inv_retouch; [done|done|intros p _; by apply retouch_push].
Qed.

(** ** Clears *)

Definition color_only (c : Z * Z * Z * Z) : Pending.t := Pending.mk (Some c) None None [].
Definition depth_only (v : Z) : Pending.t := Pending.mk None (Some v) None [].
Definition stencil_only (v : Z) : Pending.t := Pending.mk None None (Some v) [].

(** A clear is put aside: it is the last word on what it clears. *)
Lemma inv_stash σ p q M : inv σ M -> current_pass_closed σ = true ->
  (forall s, @pending_texel T _ (bindings σ) p s
             = match @pending_texel T _ (bindings σ) q s with Some v => Some v | None => texel σ s end) ->
  Pending.leading_blits p = Pending.leading_blits (pending σ) ->
  (Pending.depth_or_stencil p = true -> DepthTarget.texture (ds (bindings σ)) <> 0) ->
  inv (set_pending σ p) (apply_clears (bindings σ) q M).
Proof.
  intros I Hc Ht Hb Hp. split; [by apply open_inv_closed|done|apply I|done| |].
  - intros s _ px v. unfold RecorderOpen.settled, settle, apply_clears. cbn [set_pending bindings pending]. rewrite Ht, Hb.
    destruct (@pending_texel T _ (bindings σ) q s); [done|]. intros Hv. exact (iv_mem _ _ _ _ _ I s ltac:(intros []) px v Hv).
  - destruct (iv_blank _ _ _ _ _ I) as [H1 H2]. split.
    + intros t sub s px Hu Hs. cbn [set_pending bindings pending]. rewrite Ht. unfold apply_clears.
      destruct (@pending_texel T _ (bindings σ) q s); [done|]. by apply (H1 t sub).
    + intros s px Hu Hk Hpl. cbn [set_pending bindings pending]. rewrite Ht. unfold apply_clears.
      destruct (@pending_texel T _ (bindings σ) q s); [done|]. by apply H2.
Qed.

(** A clear becomes the load action of an open pass that has drawn nothing. *)
Record amends (σ : Recorder) (q : Pending.t) (p p' : Pass) : Prop := {
  am_outline : outline p' = outline p;
  am_commands : commands p' = commands p;
  am_blits : leading_blits p' = leading_blits p;
  am_stores : stores_all p -> stores_all p';
  am_slots : forall sl s, attached p sl = Some s ->
    match @pending_texel T _ (bindings σ) q s with
    | Some v => load_action p' sl = LClear v /\ forall px, reaches p sl px = true
    | None => load_action (T := T) p' sl = load_action p sl
    end;
  am_all : forall s v, @pending_texel T _ (bindings σ) q s = Some v -> exists sl, attached p sl = Some s }.

Lemma idle_undrawn σ p : open_on σ p -> (length (commands p) <= 1)%nat -> has_draw p = false.
Proof.
  intros Ho Hl. destruct (oo_first _ _ Ho) as (c & cs & Hcs & Hd). unfold has_draw. rewrite Hcs in *. destruct cs; [|cbn in Hl; lia].
  cbn. by rewrite Hd.
Qed.

Lemma inv_amend f q σ M : inv σ M -> well_bound (bindings σ) -> current_pass_closed σ = false ->
  current_pass_has_work σ = false -> (forall p, open_on σ p -> amends σ q p (f p)) ->
  inv (alter_last f σ) (apply_clears (bindings σ) q M).
Proof.
  intros I W Hcl Hw Hf. destruct (iv_open _ _ _ _ _ I Hcl) as (ps & p & Hps & Ho). pose proof (Hf p Ho) as A. clear Hf.
  assert (length (commands p) <= 1)%nat as Hl.
  { revert Hw. unfold current_pass_has_work. rewrite Hcl, (last_pass_snoc _ _ _ Hps). intros H%Nat.ltb_ge. lia. }
  pose proof (alter_last_snoc f σ ps p Hps) as Hps'. pose proof (oo_stores _ _ Ho) as Hst. pose proof (am_stores _ _ _ _ A Hst) as Hst'.
  pose proof (idle_undrawn σ p Ho Hl) as Hnd. assert (has_draw (f p) = false) as Hnd' by (unfold has_draw; by rewrite (am_commands _ _ _ _ A)).
  assert (forall s, slot_of (f p) s = slot_of p s) as Hso by (intros; apply outline_slot_of, A).
  split; [| |apply I|apply I| |].
  - intros _. exists ps, (f p). split; [done|]. apply (open_on_alter σ _ p); [done|done|apply A|done|]. exists [].
    by rewrite (am_commands _ _ _ _ A), app_nil_r.
  - rewrite Hps'. intros H. by apply app_eq_nil in H as [_ ?].
  - intros s _ px v. unfold RecorderOpen.settled, settle, apply_clears.
    change (pending (alter_last f σ)) with (pending σ). change (bindings (alter_last f σ)) with (bindings σ).
    rewrite (oo_blits _ _ Ho), (recorded_snoc m0 _ ps (f p) Hps'). cbn [run_blits foldl].
    unfold run_pass. rewrite (am_blits _ _ _ _ A). set (m1 := run_blits _ _).
    rewrite (run_undrawn (f p)) by done. rewrite Hso.
    destruct (@pending_texel T _ (bindings σ) q s) as [w|] eqn:Eq.
    + intros [= ->]. destruct (am_all _ _ _ _ A s v Eq) as [sl Ha].
      assert (texel σ s = None) as -> by (by apply (open_not_pending σ p sl s Ho)).
      destruct (slot_of p s) as [sl'|] eqn:Es; [|rewrite slot_of_None in Es; by destruct (Es sl)].
      pose proof (am_slots _ _ _ _ A sl' s (slot_of_attached _ _ _ Es)) as Hs. rewrite Eq in Hs. destruct Hs as [-> Hr].
      rewrite (outline_reaches _ _ _ _ (am_outline _ _ _ _ A)), Hr. done.
    + intros Hv. pose proof (iv_mem _ _ _ _ _ I s ltac:(intros []) px v Hv) as H. revert H.
      unfold RecorderOpen.settled, settle, apply_clears. rewrite (oo_blits _ _ Ho), (recorded_snoc m0 _ ps p Hps). cbn [run_blits foldl].
      unfold run_pass. change (run_blits (leading_blits p) (run_passes views ps m0)) with m1.
      rewrite run_undrawn by done. destruct (texel σ s); [done|]. destruct (slot_of p s) as [sl|] eqn:Es; [|done].
      pose proof (am_slots _ _ _ _ A sl s (slot_of_attached _ _ _ Es)) as Hs. rewrite Eq in Hs.
      unfold discards_load. by rewrite Hs, (outline_reaches _ _ _ _ (am_outline _ _ _ _ A)).
  - destruct (iv_blank _ _ _ _ _ I) as [H1 H2]. split.
    + intros t sub s px Hu Hs Hp. unfold apply_clears. destruct (@pending_texel T _ (bindings σ) q s) as [w|] eqn:Eq; [|by apply (H1 t sub)].
      exfalso. destruct (am_all _ _ _ _ A s w Eq) as [sl Ha]. by apply (open_seen_color σ p sl s t sub W Ho Ha Hs).
    + intros s px Hu Hk Hpl Hp. unfold apply_clears. destruct (@pending_texel T _ (bindings σ) q s) as [w|] eqn:Eq; [|by apply H2].
      exfalso. destruct (am_all _ _ _ _ A s w Eq) as [sl Ha]. by apply (open_seen_depth σ p sl s Ho Ha Hpl).
Qed.

(** *** Colour *)

Lemma stash_color b p c s : @pending_texel T _ b (Pending.with_color p (Some c)) s
  = match @pending_texel T _ b (color_only c) s with Some v => Some v | None => pending_texel b p s end.
Proof.
  unfold pending_texel. destruct (s_plane s); try done. cbn. destruct (clear_target b s); cbn; [done|]. by destruct (Pending.color_clear p).
Qed.

Lemma stash_depth b p c s : @pending_texel T _ b (Pending.with_depth p (Some c)) s
  = match @pending_texel T _ b (depth_only c) s with Some v => Some v | None => pending_texel b p s end.
Proof.
  unfold pending_texel. destruct (s_plane s); try done. cbn. destruct (bool_decide _ && _); [done|]. by destruct (Pending.depth_clear p).
Qed.

Lemma stash_stencil b p c s : @pending_texel T _ b (Pending.with_stencil p (Some c)) s
  = match @pending_texel T _ b (stencil_only c) s with Some v => Some v | None => pending_texel b p s end.
Proof.
  unfold pending_texel. destruct (s_plane s); try done. cbn. destruct (bool_decide _ && _ && _); [done|]. by destruct (Pending.stencil_clear p).
Qed.

Definition recolor (l : ColorLoad) (p : Pass) : Pass := with_colors p (set_load (color p) l) (clear_extra l <$> extra_color p).

Lemma recolor_slot l p i :
  color_slots (recolor l p) !! i = (λ a, if decide (i = O) then set_load a l else clear_extra l a) <$> color_slots p !! i.
Proof.
  unfold color_slots, recolor. cbn [color extra_color with_colors]. destruct i as [|i]; [done|].
  change ((?x :: ?m) !! S i) with (m !! i). by rewrite list_lookup_fmap.
Qed.

Lemma recolor_erase (l : ColorLoad) (i : nat) a :
  erase_color (if decide (i = O) then set_load a l else clear_extra l a) = erase_color a.
Proof. destruct (decide _); [done|]. unfold clear_extra. by destruct (is_bound a). Qed.

Lemma recolor_outline l p : outline (recolor l p) = outline p.
Proof.
  unfold outline. f_equal. f_equal. apply list_eq. intros i. rewrite !list_lookup_fmap, recolor_slot.
  destruct (color_slots p !! i) as [a|]; [|done]. change (Some (erase_color (if decide (i = O) then set_load a l else clear_extra l a)) = Some (erase_color a)).
  by rewrite recolor_erase.
Qed.

Lemma recolor_stores l p : stores_all p -> stores_all (recolor l p).
Proof.
  intros [Hs Hr]. split.
  - intros sl s Ha. rewrite (outline_attached _ _ _ (recolor_outline l p)) in Ha. specialize (Hs sl s Ha).
    destruct sl as [i| | |]; try done. cbn [store_action] in *. rewrite recolor_slot.
    destruct (color_slots p !! i) as [a|]; [|done]. cbn. destruct (decide _); [done|]. unfold clear_extra. by destruct (is_bound a).
  - intros a [i Hi]%list_elem_of_lookup. rewrite recolor_slot in Hi. destruct (color_slots p !! i) as [x|] eqn:E; [|done].
    injection Hi as <-. specialize (Hr x (list_elem_of_lookup_2 _ _ _ E)). destruct (decide _); [done|].
    unfold clear_extra. by destruct (is_bound x).
Qed.

(** The open pass attaches the colour targets bound, slot for slot. *)
Lemma open_color_slot σ p i x : open_on σ p -> rt0_dropped (bindings σ) = false ->
  color_slots p !! i = Some x -> exists y, clear_targets (bindings σ) !! i = Some y /\ erase_color x = erase_color y.
Proof.
  intros Ho Hd Hx. pose proof (outline_slot _ _ i (oo_outline _ _ Ho)) as Hl. unfold attach_of in Hl. rewrite Hd, Hx in Hl.
  change (color_slots (bound_pass (bindings σ) (current_visibility σ) Both)) with (clear_targets (bindings σ)) in Hl.
  destruct (clear_targets (bindings σ) !! i) as [y|]; [|done]. exists y. split; [done|]. by apply (inj Some) in Hl.
Qed.

Lemma open_target σ p s : open_on σ p -> rt0_dropped (bindings σ) = false ->
  is_Some (clear_target (bindings σ) s) -> exists i, attached p (SlotColor i) = Some s.
Proof.
  intros Ho Hd (x & i & Hl & Hb & <-)%clear_target_Some. exists i.
  rewrite (outline_attached _ _ _ (oo_outline _ _ Ho)). unfold attach_of. rewrite Hd. cbn [attached].
  change (color_slots (bound_pass (bindings σ) (current_visibility σ) Both)) with (clear_targets (bindings σ)).
  rewrite Hl. change (Some x ≫= ?f) with (f x). cbn beta. by rewrite Hb.
Qed.

Lemma open_reaches σ p i s px : well_bound (bindings σ) -> open_on σ p -> attached p (SlotColor i) = Some s ->
  reaches p (SlotColor i) px = true.
Proof.
  intros W Ho Ha. rewrite (outline_reaches _ _ _ _ (oo_outline _ _ Ho)). apply covers_reaches.
  eapply bound_covers_colors; [apply W|]. rewrite <- (outline_attached _ _ _ (oo_outline _ _ Ho)). exact Ha.
Qed.

Lemma recolor_amends σ p r g b a : well_bound (bindings σ) -> open_on σ p -> rt0_dropped (bindings σ) = false ->
  amends σ (color_only (r, g, b, a)) p (recolor (CClear r g b a) p).
Proof.
  intros W Ho Hd. split; [apply recolor_outline|done|done|apply recolor_stores| |].
  - intros sl s Ha. pose proof (attached_in_plane _ _ _ Ha) as Hpl. unfold pending_texel. destruct sl as [i| | |]; rewrite Hpl; try done.
    pose proof Ha as Ha'. cbn [attached] in Ha'. destruct (color_slots p !! i) as [x|] eqn:Ex; [|done].
    change (Some x ≫= ?f) with (f x) in Ha'. cbn beta in Ha'. destruct (is_bound x) eqn:Hb; [|done]. apply (inj Some) in Ha' as <-.
    destruct (open_color_slot σ p i x Ho Hd Ex) as (y & Hy & Hxy).
    destruct (erase_color_keeps _ _ Hxy) as (Hby & Hsy & Hty & _).
    assert (clear_target (bindings σ) (color_surface x) = Some y) as Hct.
    { apply (distinct_target (bindings σ) 0 i); [apply W|done|by rewrite <- Hby|done]. }
    cbn. rewrite Hct. cbn. split; [|intros px; by apply (open_reaches σ p i (color_surface x) px W Ho)].
    change ((match color_slots (recolor (CClear r g b a) p) !! i with Some a => color_action a | None => LDontCare end)
            = LClear (color_texel (attachment_texture y) (r, g, b, a))).
    rewrite recolor_slot, Ex, <- Hty. cbn. unfold color_action. destruct (decide _); [done|]. unfold clear_extra. by rewrite Hb.
  - intros s v Hv. assert (is_Some (clear_target (bindings σ) s)) as Hc.
    { revert Hv. unfold pending_texel. destruct (s_plane s); try done. cbn. by destruct (clear_target (bindings σ) s). }
    destruct (open_target σ p s Ho Hd Hc) as [i Hi]. by exists (SlotColor i).
Qed.

Lemma is_open_eq σ M : inv σ M -> is_open σ = negb (current_pass_closed σ).
Proof.
  intros I. unfold is_open. case_bool_decide as Hn; [|done]. by rewrite (iv_first _ _ _ _ _ I Hn).
Qed.

Lemma no_color_eta σ : Pending.color_clear (pending σ) = None -> set_pending σ (Pending.with_color (pending σ) None) = σ.
Proof. destruct σ as [? ? ? ? [] ? ? ?]. cbn. by intros ->. Qed.
Lemma no_depth_eta σ : Pending.depth_clear (pending σ) = None -> set_pending σ (Pending.with_depth (pending σ) None) = σ.
Proof. destruct σ as [? ? ? ? [] ? ? ?]. cbn. by intros ->. Qed.
Lemma no_stencil_eta σ : Pending.stencil_clear (pending σ) = None -> set_pending σ (Pending.with_stencil (pending σ) None) = σ.
Proof. destruct σ as [? ? ? ? [] ? ? ?]. cbn. by intros ->. Qed.

Lemma inv_fold_color rgba σ M : inv σ M -> well_bound (bindings σ) -> current_pass_has_work σ = false ->
  (current_pass_closed σ = false -> rt0_dropped (bindings σ) = false) ->
  (fold_color_clear rgba σ).1 = ColorFolded /\ inv (fold_color_clear rgba σ).2 (apply_clears (bindings σ) (color_only rgba) M).
Proof.
  intros I W Hw Hd. unfold fold_color_clear. rewrite (is_open_eq σ M I). destruct (current_pass_closed σ) eqn:Hc; cbn [negb].
  - split; [done|]. apply inv_stash; [done|done|intros; apply stash_color|done|]. apply (iv_planes _ _ _ _ _ I).
  - destruct rgba as [[[r g] b] a]. split; [done|]. cbn [snd].
    destruct (iv_open _ _ _ _ _ I Hc) as (_ & p & _ & Ho). rewrite no_color_eta by apply Ho.
    apply inv_amend; [done..|]. intros q Hq. apply recolor_amends; auto.
Qed.

(** What a clear does at once: all of it when folded, nothing when the caller is
    to draw a quad. *)
Definition color_effect (b : Bindings) (rgba : Z * Z * Z * Z) (o : ColorClearOutcome) (M : Mem T) : Mem T :=
  match o with ColorFolded => apply_clears b (color_only rgba) M | ColorQuad _ _ _ => M end.

Lemma end_no_work σ M : inv σ M -> current_pass_has_work (end_current_pass σ) = false.
Proof. intros I. unfold current_pass_has_work. by rewrite (proj2 (inv_end m0 companion keeps σ M I)). Qed.

Lemma inv_clear_color rgba σ M : inv σ M -> well_bound (bindings σ) -> rt0_dropped (bindings σ) = false ->
  inv (clear_color rgba σ).2 (color_effect (bindings σ) rgba (clear_color rgba σ).1 M).
Proof.
  intros I W Hd. unfold clear_color. destruct (current_pass_has_work σ) eqn:Hw.
  - destruct (current_pass_has_counting_visibility σ); [|done].
    destruct (inv_end m0 companion keeps σ M I) as [I' Hc'].
    destruct (end_fields σ) as (_ & Hb & _). assert (well_bound (bindings (end_current_pass σ))) as W'.
    { rewrite Hb. apply well_bound_dropped; [done|by left]. }
    destruct (inv_fold_color rgba _ M I' W' (end_no_work σ M I)) as [-> H]; [by rewrite Hc'|].
    cbn [color_effect]. by rewrite Hb in H.
  - destruct (inv_fold_color rgba σ M I W Hw) as [-> H]; done.
Qed.

Lemma inv_color_break rgba σ M : inv σ M -> inv (clear_color_legacy_break rgba σ) (apply_clears (bindings σ) (color_only rgba) M).
Proof.
  intros I. destruct (inv_end m0 companion keeps σ M I) as [I' Hc'].
  change (apply_clears (bindings σ) (color_only rgba) M) with (apply_clears (set_dropped (bindings σ) false) (color_only rgba) M).
  destruct (end_fields σ) as (_ & <- & _). apply inv_stash; [done|done|intros; apply stash_color|done|]. apply (iv_planes _ _ _ _ _ I').
Qed.

(** *** Depth and stencil *)

Lemma bound_planes b vis a : attaches_depth a = true -> pass_binds_depth b = true ->
  attached (bound_pass b vis a) SlotDepth = Some (depth_plane_of b DepthPlane)
  /\ attached (bound_pass b vis a) SlotStencil = (if DepthTarget.has_stencil (ds b) then Some (depth_plane_of b StencilPlane) else None).
Proof.
  intros Ha Hb. assert (opened_depth_texture b a = DepthTarget.texture (ds b)) as Ht by (unfold opened_depth_texture; by rewrite Ha, Hb).
  assert (DepthTarget.texture (ds b) =? 0 = false) as Hn.
  { apply andb_true_iff in Hb as [Hb _]. by apply negb_true_iff in Hb. }
  cbn [attached]. unfold depth_surface, stencil_surface, has_stencil, depth_texture, depth_level, depth_flags, bound_pass, bound_depth.
  cbn [depth depth_texture_ depth_level_ depth_flags_]. rewrite Ht, Hn, Ha. split; [done|]. cbn [orb].
  unfold pass_depth_flags. by destruct (DepthTarget.has_stencil (ds b)), (DepthTarget.sampleable (ds b)).
Qed.

Lemma attach_of_depth b : attaches_depth (attach_of b) = true.
Proof. unfold attach_of. by destruct (rt0_dropped b). Qed.

(** The planes of the open pass, all of them reached. *)
Lemma open_planes σ p : well_bound (bindings σ) -> open_on σ p -> pass_binds_depth (bindings σ) = true ->
  pass_color_covers_depth (bindings σ) = true ->
  attached p SlotDepth = Some (depth_plane_of (bindings σ) DepthPlane)
  /\ attached p SlotStencil = (if DepthTarget.has_stencil (ds (bindings σ)) then Some (depth_plane_of (bindings σ) StencilPlane) else None)
  /\ forall sl px, sl = SlotDepth \/ sl = SlotStencil -> reaches p sl px = true.
Proof.
  intros W Ho Hb Hc. rewrite !(outline_attached _ _ _ (oo_outline _ _ Ho)).
  destruct (bound_planes (bindings σ) (current_visibility σ) (attach_of (bindings σ)) (attach_of_depth _) Hb) as [-> ->].
  split_and!; [done|done|]. intros sl px Hsl. rewrite (outline_reaches _ _ _ _ (oo_outline _ _ Ho)). apply covers_reaches.
  apply bound_covers_depth; [apply W|by left| |done|].
  - unfold attach_of. by destruct (rt0_dropped (bindings σ)).
  - unfold opened_depth_texture. rewrite attach_of_depth, Hb. apply andb_true_iff in Hb as [Hb _]. by apply negb_true_iff, Z.eqb_neq in Hb.
Qed.

Lemma redepth_amends σ p v : well_bound (bindings σ) -> open_on σ p -> pass_binds_depth (bindings σ) = true ->
  pass_color_covers_depth (bindings σ) = true ->
  amends σ (depth_only v) p (set_pass_depth p (λ d, set_depth_load d (DClear v)))
  /\ amends σ (stencil_only v) p (set_pass_depth p (λ d, set_stencil_load d (SClear v))).
Proof.
  intros W Ho Hb Hc. destruct (open_planes σ p W Ho Hb Hc) as (Hd & Hs & Hr).
  assert (forall f, stores_all p -> (forall sl, attached (set_pass_depth p f) sl = attached p sl) ->
            (forall sl, store_action (set_pass_depth p f) sl = store_action p sl) -> stores_all (set_pass_depth p f)) as Hst.
  { intros f [S1 S2] Ha Hsa. split; [|done]. intros sl s. rewrite Ha, Hsa. apply S1. }
  split; (split; [done|done|done|intros S; apply Hst; [done|by intros []|by intros []]| |]).
  - intros sl s Ha. pose proof (attached_in_plane _ _ _ Ha) as Hp. unfold pending_texel. destruct sl as [i| | |]; rewrite Hp; try done.
    rewrite Hd in Ha. apply (inj Some) in Ha as <-. cbn [Pending.depth_clear depth_only mbind option_bind].
    rewrite bool_decide_eq_true_2 by done. cbn [andb]. apply andb_true_iff in Hb as [-> _]. split; [done|]. intros px. apply Hr. by left.
  - intros s w. unfold pending_texel. destruct (s_plane s); try done. cbn [Pending.depth_clear depth_only mbind option_bind].
    destruct (bool_decide (s = _) && _) eqn:E; [|done]. apply andb_true_iff in E as [->%bool_decide_eq_true _]. intros _. by exists SlotDepth.
  - intros sl s Ha. pose proof (attached_in_plane _ _ _ Ha) as Hp. unfold pending_texel. destruct sl as [i| | |]; rewrite Hp; try done.
    rewrite Hs in Ha. destruct (DepthTarget.has_stencil (ds (bindings σ))); [|done]. apply (inj Some) in Ha as <-.
    cbn [Pending.stencil_clear stencil_only mbind option_bind].
    rewrite bool_decide_eq_true_2 by done. cbn [andb]. apply andb_true_iff in Hb as [-> _]. split; [done|]. intros px. apply Hr. by right.
  - intros s w. unfold pending_texel. destruct (s_plane s); try done. cbn [Pending.stencil_clear stencil_only mbind option_bind].
    destruct (bool_decide (s = _) && _ && _) eqn:E; [|done]. rewrite !andb_true_iff in E. destruct E as [[->%bool_decide_eq_true _] Hh].
    intros _. exists SlotStencil. by rewrite Hs, Hh.
Qed.

(** What a fold needs, and what it does. *)
Definition folds (fold : Z -> Recorder -> Recorder) (only : Z -> Pending.t) : Prop :=
  forall v σ M, inv σ M -> well_bound (bindings σ) -> current_pass_has_work σ = false -> pass_binds_depth (bindings σ) = true ->
    (current_pass_closed σ = false -> pass_color_covers_depth (bindings σ) = true) ->
    inv (fold v σ) (apply_clears (bindings σ) (only v) M).

Lemma binds_texture b : pass_binds_depth b = true -> DepthTarget.texture (ds b) <> 0.
Proof. intros [H _]%andb_true_iff. by apply negb_true_iff, Z.eqb_neq in H. Qed.

Lemma amendable_eq σ M : inv σ M -> current_pass_has_work σ = false -> amendable σ = negb (current_pass_closed σ).
Proof. intros I Hw. unfold amendable. by rewrite (is_open_eq σ M I), Hw, andb_true_r. Qed.

Lemma depth_folds : folds fold_depth_clear depth_only.
Proof.
  intros v σ M I W Hw Hb Hcov. unfold fold_depth_clear. rewrite (amendable_eq σ M I Hw). destruct (current_pass_closed σ) eqn:Hc; cbn [negb].
  - apply inv_stash; [done|done|intros; apply stash_depth|done|]. intros _. by apply binds_texture.
  - destruct (iv_open _ _ _ _ _ I Hc) as (_ & p & _ & Ho). rewrite no_depth_eta by (by apply (oo_planes _ _ Ho)).
    apply inv_amend; [done..|]. intros q Hq. by apply redepth_amends; auto.
Qed.

Lemma stencil_folds : folds fold_stencil_clear stencil_only.
Proof.
  intros v σ M I W Hw Hb Hcov. unfold fold_stencil_clear. rewrite (amendable_eq σ M I Hw). destruct (current_pass_closed σ) eqn:Hc; cbn [negb].
  - apply inv_stash; [done|done|intros; apply stash_stencil|done|]. intros _. by apply binds_texture.
  - destruct (iv_open _ _ _ _ _ I Hc) as (_ & p & _ & Ho). rewrite no_stencil_eta by (by apply (oo_planes _ _ Ho)).
    apply inv_amend; [done..|]. intros q Hq. by apply redepth_amends; auto.
Qed.

(** Ending a pass leaves the targets bound. *)
Lemma inv_ended σ M : inv σ M -> well_bound (bindings σ) ->
  inv (end_current_pass σ) M /\ well_bound (bindings (end_current_pass σ)) /\ current_pass_closed (end_current_pass σ) = true
  /\ bindings (end_current_pass σ) = set_dropped (bindings σ) false /\ current_pass_has_work (end_current_pass σ) = false.
Proof.
  intros I W. destruct (inv_end m0 companion keeps σ M I) as [I' Hc]. destruct (end_fields σ) as (_ & Hb & _).
  split_and!; [done| |done|done|by apply (end_no_work σ M)]. rewrite Hb. apply well_bound_dropped; [done|by left].
Qed.

Definition plane_effect (b : Bindings) (q : Pending.t) (o : PlaneClearOutcome) (M : Mem T) : Mem T :=
  match o with PlaneFolded => apply_clears b q M | _ => M end.

Lemma inv_clear_plane fold only v σ M : folds fold only -> inv σ M -> well_bound (bindings σ) ->
  inv (clear_plane fold v σ).2 (plane_effect (bindings σ) (only v) (clear_plane fold v σ).1 M).
Proof.
  intros Hf I W. unfold clear_plane. destruct (pass_binds_depth (bindings σ)) eqn:Hb; [|done]. cbn [negb].
  destruct (viewport_has_no_area _ _); [done|].
  destruct (inv_ended σ M I W) as (Ie & We & Hce & Hbe & _).
  assert (exists σ1, end_small_color_pass_for_depth_clear σ = σ1 /\ inv σ1 M /\ well_bound (bindings σ1)
          /\ (bindings σ1 = bindings σ \/ bindings σ1 = set_dropped (bindings σ) false)
          /\ (current_pass_closed σ1 = false -> pass_color_covers_depth (bindings σ1) = true)) as (σ1 & -> & I1 & W1 & Hb1 & Hc1).
  { unfold end_small_color_pass_for_depth_clear. destruct (negb (current_pass_closed σ) && _) eqn:E; eexists; split_and!; try done.
    - by right.
    - by rewrite Hce.
    - by left.
    - intros Hc. rewrite Hc in E. by apply negb_false_iff in E. }
  assert (pass_binds_depth (bindings σ1) = true) as Hb'.
  { destruct Hb1 as [-> | ->]; done. }
  assert (forall x, apply_clears (bindings σ) (only v) M = apply_clears (set_dropped (bindings σ) x) (only v) M) as Hx by done.
  destruct (current_pass_has_work σ1) eqn:Hw.
  - unfold clear_in_active_pass. destruct (current_pass_has_counting_visibility σ1); [|done]. cbn [plane_effect fst snd].
    destruct (inv_ended σ1 M I1 W1) as (I2 & W2 & Hc2 & Hb2 & Hw2).
    pose proof (Hf v (end_current_pass σ1) M I2 W2 Hw2) as H. rewrite Hb2, Hc2 in H. specialize (H Hb' ltac:(done)).
    by destruct Hb1 as [E | E]; rewrite E in H.
  - cbn [plane_effect fst snd]. pose proof (Hf v σ1 M I1 W1 Hw Hb' Hc1) as H. by destruct Hb1 as [E | E]; rewrite E in H.
Qed.

Lemma inv_plane_break v σ M : inv σ M -> DepthTarget.texture (ds (bindings σ)) <> 0 ->
  inv (clear_depth_legacy_break v σ) (apply_clears (bindings σ) (depth_only v) M)
  /\ inv (clear_stencil_legacy_break v σ) (apply_clears (bindings σ) (stencil_only v) M).
Proof.
  intros I Hn. destruct (inv_end m0 companion keeps σ M I) as [I' Hc']. destruct (end_fields σ) as (_ & Hb & _).
  split; [pose proof (inv_stash (end_current_pass σ) (Pending.with_depth (pending (end_current_pass σ)) (Some v)) (depth_only v) M I' Hc') as H
         |pose proof (inv_stash (end_current_pass σ) (Pending.with_stencil (pending (end_current_pass σ)) (Some v)) (stencil_only v) M I' Hc') as H];
    rewrite Hb in H; apply H; try done; intros; [apply stash_depth|apply stash_stencil].
Qed.

(** *** Regions *)

Lemma inv_set_dropped drop σ M : inv σ M -> inv (set_rt0_dropped drop σ) M.
Proof.
  intros I. unfold set_rt0_dropped. destruct (eqb _ drop); [done|]. destruct (inv_end m0 companion keeps σ M I) as [I' Hc].
  apply inv_rebind; [done|done|apply synced_dropped, I'|done|apply I'].
Qed.

Lemma inv_drop drop σ M : inv σ M -> well_bound (bindings σ) -> (drop = true -> pass_binds_depth (bindings σ) = true) ->
  inv (set_rt0_dropped drop σ) M /\ well_bound (bindings (set_rt0_dropped drop σ)).
Proof.
  intros I W Hd. split; [by apply inv_set_dropped|]. unfold set_rt0_dropped. destruct (eqb _ drop); [done|].
  destruct (inv_ended σ M I W) as (I' & W' & Hc & Hb & _).
  { cbn [set_bindings bindings]. apply well_bound_dropped; [done|]. rewrite Hb.
    destruct drop; [right; by apply Hd|by left]. }
Qed.

(** The pass a closed recorder opens next. *)
Lemma ensure_last σ : current_pass_closed σ = true -> exists σ1, before_push σ σ1
  /\ passes (frame (ensure_pass_open σ)) = passes (frame σ1) ++ [opened_pass σ1 (attach_of (bindings σ))].
Proof.
  intros Hc. unfold ensure_pass_open, opens_pass. rewrite Hc. cbn [orb].
  destruct (open_pass_last σ) as (σ1 & -> & H). exists σ1. split; [done|].
  by destruct (push_pass_fields σ1 (attach_of (bindings σ))) as (-> & _).
Qed.

Lemma opened_unclear σ a i x : color_slots (opened_pass σ a) !! i = Some x -> is_bound x = true ->
  Pending.color_clear (pending σ) = None -> load x = CLoad \/ load x = CDontCare.
Proof.
  intros Hx Hb Hc. assert (attached (opened_pass σ a) (SlotColor i) = Some (color_surface x)) as Ha.
  { cbn [attached]. rewrite Hx. change (Some x ≫= ?f) with (f x). cbn beta. by rewrite Hb. }
  apply opened_color_attached in Ha as (Ha & y & Hy & Hby & _).
  destruct (opened_color_slot σ a i y Ha Hy Hby) as (z & c & Hz & Hl & _). rewrite Hx in Hz. injection Hz as <-. rewrite Hl.
  pose proof (opened_load_cases σ a c) as Hcs. rewrite Hc, Ha in Hcs. destruct Hcs as [->|[-> _]]; auto.
Qed.

Definition reload_colors (p : Pass) : Pass :=
  with_colors p (load_color (color p)) ((λ a, if is_bound a then load_color a else a) <$> extra_color p).

Lemma load_color_keeps a : erase_color (load_color a) = erase_color a /\ store (load_color a) = store a /\ resolve_texture (load_color a) = resolve_texture a.
Proof. unfold load_color. by destruct (load a). Qed.

Lemma reload_slot p i : exists f, color_slots (reload_colors p) !! i = f <$> color_slots p !! i
  /\ forall a, f a = load_color a \/ f a = a.
Proof.
  unfold color_slots, reload_colors. cbn [color extra_color with_colors]. destruct i as [|i].
  - exists load_color. split; [done|by left].
  - change ((?x :: ?m) !! S i) with (m !! i). exists (λ a, if is_bound a then load_color a else a).
    split; [by rewrite list_lookup_fmap|]. intros a. destruct (is_bound a); auto.
Qed.

Lemma retouch_reload p : (forall i x, color_slots p !! i = Some x -> is_bound x = true -> load x = CLoad \/ load x = CDontCare) ->
  @retouch T _ p (reload_colors p).
Proof.
  intros Hl.
  assert (outline (reload_colors p) = outline p) as Ho.
  { unfold outline. f_equal. f_equal. apply list_eq. intros i. rewrite !list_lookup_fmap.
    destruct (reload_slot p i) as (f & -> & Hf). destruct (color_slots p !! i) as [a|]; [|done]. cbn [fmap option_fmap option_map].
    destruct (Hf a) as [-> | ->]; [|done]. by destruct (load_color_keeps a) as (-> & _). }
  split; [done| |done|by apply no_commands|].
  - intros [Hs Hr]. split.
    + intros sl s Ha. rewrite (outline_attached _ _ _ Ho) in Ha. specialize (Hs sl s Ha). destruct sl as [i| | |]; try done.
      cbn [store_action] in *. destruct (reload_slot p i) as (f & -> & Hf). destruct (color_slots p !! i) as [a|]; [|done].
      cbn [fmap option_fmap option_map]. destruct (Hf a) as [-> | ->]; [|done]. by destruct (load_color_keeps a) as (_ & -> & _).
    + intros a [i Hi]%list_elem_of_lookup. destruct (reload_slot p i) as (f & Hsl & Hf). rewrite Hi in Hsl.
      destruct (color_slots p !! i) as [x|] eqn:E; [|done]. injection Hsl as ->. specialize (Hr x (list_elem_of_lookup_2 _ _ _ E)).
      destruct (Hf x) as [-> | ->]; [|done]. by destruct (load_color_keeps x) as (_ & _ & ->).
  - intros [i| | |] Ha; try by left. cbn [load_action]. destruct (reload_slot p i) as (f & -> & Hf). cbn [attached] in Ha.
    destruct (color_slots p !! i) as [x|] eqn:E; [|done]. change (Some x ≫= ?f) with (f x) in Ha. cbn beta in Ha.
    destruct (is_bound x) eqn:Hb; [|done]. cbn [fmap option_fmap option_map]. destruct (Hf x) as [-> | ->]; [|by left].
    unfold color_action, load_color. destruct (Hl i x E Hb) as [Hld | Hld]; rewrite Hld; [left; by rewrite Hld|by right].
Qed.

Lemma inv_region_color σ M : inv σ M -> well_bound (bindings σ) -> inv (begin_region_color_clear σ).2 M.
Proof.
  intros I W. unfold begin_region_color_clear. cbn [snd].
  set (σ1 := if current_pass_has_counting_visibility σ then _ else σ).
  assert (inv σ1 M /\ well_bound (bindings σ1)) as [I1 W1].
  { unfold σ1. destruct (current_pass_has_counting_visibility σ); [|done]. by destruct (inv_ended σ M I W) as (? & ? & _). }
  destruct (inv_ensure m0 companion keeps companion_inj σ1 M I1 W1) as (I2 & Hc2 & _ & _).
  destruct (current_pass_closed σ1 && negb (Pending.color (pending σ1))) eqn:E; [|done].
  apply andb_true_iff in E as [Hc Hp]. apply negb_true_iff, color_false in Hp.
  apply inv_retouch_last; [done|done|]. intros ps p Hps _.
  destruct (ensure_last σ1 Hc) as (σ' & (_ & _ & _ & _ & _ & Hcol) & Hps'). rewrite Hps in Hps'. apply app_inj_tail in Hps' as [_ ->].
  apply retouch_reload. intros i x Hx Hb. eapply opened_unclear; eauto.
Qed.

Definition reload_planes (keep_depth keep_stencil : bool) (d : PassDepth) : PassDepth :=
  let d := if keep_depth then d else load_depth d in if keep_stencil then d else load_stencil d.

Lemma retouch_planes kd ks p :
  (kd = false -> forall v, depth_load p <> DClear v) -> (ks = false -> forall v, stencil_load p <> SClear v) ->
  @retouch T _ p (set_pass_depth p (reload_planes kd ks)).
Proof.
  unfold depth_load, stencil_load. intros Hd Hs.
  assert (outline (set_pass_depth p (reload_planes kd ks)) = outline p
          /\ forall sl, store_action (set_pass_depth p (reload_planes kd ks)) sl = store_action p sl) as [Ho Hst].
  { destruct p as [? ? [? ? ? [] [] ? ? ?] ? ? ? ? ? ? ?], kd, ks; split; try done; by intros []. }
  split; [done| |done|by apply no_commands|].
  - intros [S1 S2]. split; [|done]. intros sl s Ha. rewrite Hst. rewrite (outline_attached _ _ _ Ho) in Ha. by apply (S1 sl s).
  - destruct p as [? ? [? ? ? dl sl ? ? ?] ? ? ? ? ? ? ?]. cbn [depth depth_load_ stencil_load_] in *.
    intros [i| | |] _; [by left| | |by left]; unfold load_action, depth_load, stencil_load; cbn [depth depth_load_ stencil_load_].
    + destruct kd; [left; by destruct ks, sl|]. destruct dl as [|v|]; [|by destruct (Hd eq_refl v)|]; [left|right]; by destruct ks, sl.
    + destruct ks; [left; by destruct kd, dl|]. destruct sl as [|v|]; [|by destruct (Hs eq_refl v)|]; [left|right]; by destruct kd, dl.
Qed.

Lemma depth_load_pending σ a : (Pending.depth_clear (pending σ) = None -> forall v, depth_load (opened_pass σ a) <> DClear v)
  /\ (Pending.stencil_clear (pending σ) = None -> forall v, stencil_load (opened_pass σ a) <> SClear v).
Proof.
  unfold depth_load, stencil_load, opened_pass, opened_depth. cbn [depth depth_load_ stencil_load_].
  split; intros -> v; destruct (opened_depth_texture (bindings σ) a =? 0); cbn; by destruct (depth_first_use σ _).
Qed.

Lemma inv_region_planes σ M : inv σ M -> well_bound (bindings σ) -> inv (begin_region_depth_stencil_clear σ).2 M.
Proof.
  intros I W. unfold begin_region_depth_stencil_clear. destruct (pass_binds_depth (bindings σ)) eqn:Hb; [|done]. cbn [negb].
  set (σ1 := if current_pass_has_counting_visibility σ then _ else σ).
  assert (inv σ1 M /\ well_bound (bindings σ1) /\ pass_binds_depth (bindings σ1) = true) as (I1 & W1 & Hb1).
  { unfold σ1. destruct (current_pass_has_counting_visibility σ); [|done]. destruct (inv_ended σ M I W) as (? & ? & _ & E & _).
    split_and!; [done|done|by rewrite E]. }
  set (σ2 := if negb (pass_color_covers_depth (bindings σ1)) && _ then _ else σ1).
  assert (inv σ2 M /\ well_bound (bindings σ2)) as [I2 W2].
  { unfold σ2. destruct (_ && _); [|done]. destruct (_ && _); [|done]. by apply inv_drop. }
  clearbody σ2. cbn [snd].
  destruct (inv_ensure m0 companion keeps companion_inj σ2 M I2 W2) as (I3 & Hc3 & _ & _).
  destruct (current_pass_closed σ2) eqn:Hc; [|done]. apply inv_retouch_last; [done|done|]. intros ps p Hps _.
  destruct (ensure_last σ2 Hc) as (σ' & (_ & _ & Hd & Hs & _) & Hps'). rewrite Hps in Hps'. apply app_inj_tail in Hps' as [_ ->].
  destruct (depth_load_pending σ' (attach_of (bindings σ2))) as [L1 L2]. rewrite Hd in L1. rewrite Hs in L2.
  apply (retouch_planes (bool_decide (is_Some (Pending.depth_clear (pending σ2)))) (bool_decide (is_Some (Pending.stencil_clear (pending σ2)))));
    rewrite bool_decide_eq_false, <- eq_None_not_Some; [exact L1|exact L2].
Qed.

(** ** Blits *)

(** A destination is storage of its own: no view, no companion of another. *)
Definition own_storage (t : Z) : Prop := storage views t = t /\ companion t = t.

Lemma settled_texel σ s : settled_pending σ -> texel σ s = None.
Proof. intros (H1 & H2 & H3). unfold pending_texel. rewrite H1, H2, H3. by destruct (s_plane s). Qed.

Lemma push_blit_fields b σ :
  passes (frame (push_pending_leading_blit b σ)) = passes (frame σ)
  /\ current_pass_closed (push_pending_leading_blit b σ) = current_pass_closed σ
  /\ bindings (push_pending_leading_blit b σ) = bindings σ
  /\ pending (push_pending_leading_blit b σ) = Pending.with_blits (pending σ) (Pending.leading_blits (pending σ) ++ [b])
  /\ Seen.color_rts (seen (push_pending_leading_blit b σ)) = Seen.color_rts (seen σ)
  /\ Seen.depth_rts (seen (push_pending_leading_blit b σ)) = Seen.depth_rts (seen σ)
  /\ (forall t, t ∈ Seen.blit_written (seen (push_pending_leading_blit b σ))
                <-> t ∈ Seen.blit_written (seen σ) \/ blit_written_texture b = Some t)
  /\ (forall t, t ∈ seen_sampled_textures (frame σ) -> t ∈ seen_sampled_textures (frame (push_pending_leading_blit b σ)))
  /\ backbuffer_texture (frame (push_pending_leading_blit b σ)) = backbuffer_texture (frame σ)
  /\ backbuffer_undefined (frame (push_pending_leading_blit b σ)) = backbuffer_undefined (frame σ).
Proof.
  unfold push_pending_leading_blit, recorder_note_stencil_blit, note_texture_read.
  destruct (blit_read_texture b) as [src|], (blit_written_texture b) as [dst|]; try (destruct (src =? 0)); cbn; split_and!; try done; try set_solver;
    intros t; rewrite ?elem_of_union, ?elem_of_singleton; split; try (intros [|]); naive_solver.
Qed.

Lemma inv_push_blit b σ M : inv σ M -> current_pass_closed σ = true -> settled_pending σ ->
  (forall t, blit_written_texture b = Some t -> own_storage t) ->
  inv (push_pending_leading_blit b σ) (blit b M).
Proof.
  intros I Hc Hp Hw. destruct (push_blit_fields b σ) as (F1 & F2 & F3 & F4 & F5 & F6 & F7 & F8 & F9 & F10).
  assert (settled_pending (push_pending_leading_blit b σ)) as Hp' by (unfold settled_pending; by rewrite F4).
  split; [apply open_inv_closed; by rewrite F2|by rewrite F2|rewrite F3; apply I|rewrite F3, F4; apply I| |].
  - intros s _ px v Hv. unfold RecorderOpen.settled, settle, apply_clears. rewrite settled_texel by done.
    unfold recorded_memory. rewrite F1, F4. cbn [Pending.leading_blits Pending.with_blits]. unfold run_blits. rewrite foldl_app. cbn [foldl].
    revert px v Hv. apply (blit_mono b nowhere); [by intros ? _ (? & [] & _)| |by left; intros []].
    intros s' _ px v Hv. pose proof (iv_mem _ _ _ _ _ I s' ltac:(intros []) px v Hv) as H. revert H.
    unfold RecorderOpen.settled, settle, apply_clears. by rewrite settled_texel.
  - destruct (iv_blank _ _ _ _ _ I) as [H1 H2]. split.
    + intros t sub s px (U1 & U2 & U3 & U4) -> _. rewrite blit_frame.
      * apply (H1 t sub); [|done|by apply settled_texel]. revert U1. unfold unseen_color, is_discarded_back_buffer. rewrite F9, F10.
        intros U1. split_and!; [done|by rewrite <- F5|intros H; by apply U3, F8|]. intros H. apply U4, F7. by left.
      * intros tex Ht Hs. destruct (Hw tex Ht) as [V1 V2]. cbn in Hs. rewrite V1 in Hs.
        assert (t = tex) as -> by (apply companion_inj; congruence). apply U4, F7. by right.
    + intros s px (U1 & U2 & U3 & U4) Hk Hpl _. rewrite blit_frame.
      * apply H2; [|done|done|by apply settled_texel]. split_and!; [done|by rewrite <- F6|intros H; by apply U3, F8|].
        intros H. apply U4, F7. by left.
      * intros tex Ht Hs. destruct (Hw tex Ht) as [V1 _]. rewrite V1 in Hs. apply U4, F7. right. by rewrite Hs.
Qed.

(** Clears land before a blit that may read or write what they clear. *)
Lemma inv_blit_after_clears b σ M : inv σ M -> (anything_pending σ = true -> well_bound (bindings σ)) ->
  (forall t, blit_written_texture b = Some t -> own_storage t) ->
  inv (push_leading_blit_after_clears b σ) (blit b M).
Proof.
  intros I W Hw. unfold push_leading_blit_after_clears.
  destruct (inv_flush m0 companion keeps companion_inj σ M I W) as (I' & Hp & _).
  destruct (inv_end m0 companion keeps _ M I') as [I'' Hc]. apply inv_push_blit; [done|done| |done].
  destruct (end_fields (flush_pending_clears σ)) as (_ & _ & Hpe & _). unfold settled_pending. by rewrite Hpe.
Qed.

(** ** Calls that leave the memory alone *)

Lemma inv_texture_read t σ M : inv σ M -> inv (note_texture_read t σ) M.
Proof.
  intros I. unfold note_texture_read. destruct (t =? 0); [done|]. apply (inv_quiet m0 companion keeps σ); [done| |apply I|apply I].
  split; [done|by right|done|done|unfold unseen_color, is_discarded_back_buffer|unfold unseen_depth]; cbn; set_solver.
Qed.

Lemma inv_ordered_write t σ M : inv σ M -> inv (note_ordered_texture_write t σ) M.
Proof.
  intros I. unfold note_ordered_texture_write. destruct (t =? 0); [done|]. apply (inv_quiet m0 companion keeps σ); [done| |apply I|apply I].
  split; try done. by right.
Qed.

Lemma inv_break_visibility σ M : inv σ M -> inv (break_for_visibility_buffer σ) M.
Proof.
  intros I. unfold break_for_visibility_buffer. set (σ1 := if bool_decide (passes (frame σ) = []) || current_pass_closed σ then σ else set_closed σ true).
  assert (current_pass_closed σ1 = true /\ frame σ1 = frame σ /\ bindings σ1 = bindings σ /\ pending σ1 = pending σ /\ seen σ1 = seen σ) as (Hc & Hf & Hb & Hp & Hs).
  { unfold σ1. case_bool_decide as Hn; cbn [orb]; [by rewrite (iv_first _ _ _ _ _ I Hn)|]. by destruct (current_pass_closed σ) eqn:E. }
  apply (inv_quiet m0 companion keeps σ); [done| |cbn; rewrite Hb; apply I|cbn; rewrite Hb, Hp; apply I].
  split; cbn [set_visibility frame bindings pending current_pass_closed]; [by rewrite Hf|by left|intros s; by rewrite Hb, Hp|by rewrite Hp|
    unfold unseen_color, is_discarded_back_buffer|unfold unseen_depth]; cbn; by rewrite Hf, Hs.
Qed.
End Calls.
