(* ===== verification/RecorderSound.v ===== *)
(** A recorded frame.  The targets the device binds, then every call as a step of
    the recorder with what it does at once, and the frame as a whole: the passes
    recorded render what the calls would have, done one at a time. *)

From S2P Require Import Prelude Mtl RenderScale PassCommands PassData PassRules PassGpu PassFacts PassClearOnly PipelineState DepthStencil PassToy.
From S2P Require Import RecorderState Recorder RecorderOps RecorderSettle RecorderOpen RecorderSim RecorderCalls.

Section Binds.
Context {T : Type} {views : Views} `{L : GpuLaws T views} (m0 : Mem T) (companion : Z -> Z) (keeps : Z -> Prop).
Hypothesis companion_inj : forall t u, companion t = companion u -> t = u.

  Abbreviation inv := (inv (views := views) m0 companion keeps).
  Abbreviation well_bound := (well_bound companion keeps).
  Abbreviation texel σ := (@pending_texel T _ (bindings σ) (pending σ)).

(** ** Targets *)

Lemma pending_ds b b' p s : Pending.color_clear p = None -> ds b' = ds b -> @pending_texel T _ b' p s = pending_texel b p s.
Proof. intros Hc Hd. unfold pending_texel, depth_plane_of. by rewrite Hc, Hd. Qed.

(** Between passes, with no colour clear pending, any colour targets may be bound. *)
Lemma inv_recolor b σ M : inv σ M -> current_pass_closed σ = true -> Pending.color_clear (pending σ) = None ->
  ds b = ds (bindings σ) -> synced b -> inv (set_bindings σ b) M.
Proof.
  intros I Hc Hp Hd Hs. apply inv_rebind; [done|done|done|intros; by apply pending_ds|]. rewrite Hd. apply I.
Qed.

(** The flush before a colour target changes. *)
Definition flushes_color (σ : Recorder) : Prop := Pending.color (pending σ) = true -> well_bound (bindings σ).

Lemma inv_flushed f σ M : inv σ M -> flushes_color σ ->
  (forall b, synced b -> ds (f b) = ds b /\ synced (f b)) ->
  let σ' := end_current_pass (flush_color_clear σ) in inv (set_bindings σ' (f (bindings σ'))) M.
Proof.
  intros I W Hf. cbn zeta. destruct (inv_flush_color m0 companion keeps companion_inj σ M I W) as (I' & Hc & Hp & _).
  destruct (Hf _ (iv_synced _ _ _ _ _ I')) as [Hd Hs]. by apply inv_recolor.
Qed.

(** Targets a pass attaches as it did. *)
Record like (b b' : Bindings) : Prop := {
  li_rt0 : core (rt0 b') = core (rt0 b);
  li_slots : slot_core <$> extra_slots b' = slot_core <$> extra_slots b;
  li_ds : ds b' = ds b;
  li_dropped : rt0_dropped b' = rt0_dropped b;
  li_enabled : SrgbWrite.enabled (srgb b') = SrgbWrite.enabled (srgb b);
  li_twins : forall t, (t = ColorSlot.texture (rt0 b) \/ exists c, c ∈ extra_slots b /\ ColorSlot.is_bound c = true /\ ColorSlot.texture c = t) ->
     twin_of (srgb b') t = twin_of (srgb b) t }.

Lemma like_length b b' : like b b' -> length (extra_slots b') = length (extra_slots b).
Proof. intros H. apply (slots_length b b'), H. Qed.

Lemma like_attachable b b' : synced b -> like b b' ->
  present_mask (extra_attachments b') = slot_mask (takes_part (rt0 b')) (extra_slots b') ->
  srgb_write_is_attachable b' = srgb_write_is_attachable b.
Proof. intros S [] Hm. by apply attachable_alike. Qed.

Lemma inv_like_srgb b' σ M : inv σ M -> like (bindings σ) b' ->
  present_mask (extra_attachments b') = slot_mask (takes_part (rt0 b')) (extra_slots b') ->
  inv (set_bindings σ (recompute_srgb_write b')) M.
Proof.
  intros I H Hm. pose proof (iv_synced _ _ _ _ _ I) as S.
  assert (length (extra_slots b') = 3%nat) as Hl by (rewrite (like_length _ _ H); apply S).
  apply inv_same; [done| |by apply recompute_srgb_synced].
  apply recompute_same; [done|apply H..|done|]. rewrite (like_attachable _ _ S H Hm), (li_enabled _ _ H). apply S.
Qed.

Lemma inv_like_mask b' σ M : inv σ M -> like (bindings σ) b' -> inv (set_bindings σ (recompute_extra_present_mask b')) M.
Proof. intros I H. apply inv_like_srgb; [done|by destruct H|done]. Qed.

Lemma no_extras_zero b : synced b -> has_extra_color_targets b = false -> present_mask (extra_attachments b) = 0.
Proof. intros S H. rewrite (sy_mask _ S). by apply no_extras_mask. Qed.

Lemma inv_like_colors c σ M : inv σ M -> core c = core (rt0 (bindings σ)) ->
  inv (set_bindings σ (recompute_colors (set_rt0 (bindings σ) c))) M.
Proof.
  intros I Hc. pose proof (iv_synced _ _ _ _ _ I) as S. unfold recompute_colors.
  assert (like (bindings σ) (set_rt0 (bindings σ) c)) as Hl by (by split).
  destruct (has_extra_color_targets _) eqn:E; [by apply inv_like_mask|]. apply inv_like_srgb; [done|done|].
  rewrite no_extras_mask by done. exact (no_extras_zero (bindings σ) S E).
Qed.

Lemma set_rt0_synced c b : synced b -> ds (recompute_colors (set_rt0 b c)) = ds b /\ synced (recompute_colors (set_rt0 b c)).
Proof.
  intros S. split; [unfold recompute_colors; by destruct (has_extra_color_targets _)|].
  apply recompute_colors_synced; [apply S|]. exact (no_extras_zero b S).
Qed.

Lemma inv_bind_color texture extent format slice level σ M : inv σ M -> flushes_color σ ->
  inv (set_color_render_target_subresource texture extent format slice level σ) M.
Proof.
  intros I W. unfold set_color_render_target_subresource. cbn zeta. destruct (_ && _ && _ && _).
  - by apply inv_like_colors.
  - apply (inv_flushed (λ b, recompute_colors (set_rt0 b (ColorSlot.mk texture 0 0 1 (pack_subresource slice level)
             (TargetExtent.texture extent) (TargetExtent.logical extent) format (TargetExtent.scale extent)
             (ColorSlot.has_alpha (rt0 b)))))); [done|done|]. intros b. apply set_rt0_synced.
Qed.

Lemma mask_synced b' : length (extra_slots b') = 3%nat ->
  ds (recompute_extra_present_mask b') = ds b' /\ synced (recompute_extra_present_mask b').
Proof. intros H. split; [done|by apply recompute_mask_synced]. Qed.

Lemma inv_bind_msaa msaa msaa_srgb n σ M : inv σ M -> flushes_color σ -> inv (set_color_msaa msaa msaa_srgb n σ) M.
Proof.
  intros I W. unfold set_color_msaa, bind_colors. cbn zeta. set (srgb' := if msaa =? 0 then 0 else msaa_srgb).
  set (n' := if msaa =? 0 then 1 else Z.max n 1). destruct (_ || _ || _) eqn:E.
  - apply (inv_flushed (λ b, recompute_extra_present_mask (set_rt0 b (ColorSlot.with_msaa (rt0 b) msaa srgb' n')))); [done|done|].
    intros b S. exact (mask_synced (set_rt0 b _) (sy_length b S)).
  - rewrite !orb_false_iff, !negb_false_iff, !Z.eqb_eq in E. destruct E as [[E1 E2] E3].
    apply inv_like_mask; [done|]. split; try done. cbn. unfold core, ColorSlot.with_msaa. cbn. by rewrite <- E1, <- E2, <- E3.
Qed.

Lemma inv_bind_alpha has_alpha σ M : inv σ M -> inv (set_color_rt_has_alpha has_alpha σ) M.
Proof.
  intros I. apply inv_same; [done|by split|]. destruct (iv_synced _ _ _ _ _ I). by split.
Qed.

(** A slot rebound with the same key has the same storage. *)
Definition same_slot (slot : nat) (binding : option ColorSlot.t) (b : Bindings) : Prop :=
  let c := default ColorSlot.NONE binding in
  let current := nth (slot - 1) (extra_slots b) ColorSlot.NONE in
  ColorSlot.texture current = ColorSlot.texture c -> ColorSlot.subresource current = ColorSlot.subresource c ->
  ColorSlot.format current = ColorSlot.format c -> ColorSlot.size current = ColorSlot.size c -> slot_core c = slot_core current.

Lemma inv_bind_extra slot binding σ M : inv σ M -> flushes_color σ -> same_slot slot binding (bindings σ) ->
  inv (set_extra_color_render_target slot binding σ) M.
Proof.
  intros I W Hk. unfold set_extra_color_render_target, bind_colors. cbn zeta. set (c := default ColorSlot.NONE binding) in *.
  destruct (_ && _ && _ && _) eqn:E.
  - rewrite !andb_true_iff, !Z.eqb_eq, !bool_decide_eq_true in E. destruct E as [[[E1 E2] E3] E4]. specialize (Hk E1 E2 E3 E4).
    apply inv_like_mask; [done|]. split; try done. cbn [set_extra_slots extra_slots]. rewrite list_fmap_insert. fold c in Hk. rewrite Hk.
    destruct (extra_slots (bindings σ) !! (slot - 1)%nat) as [d|] eqn:Ed.
    + apply list_insert_id. by rewrite list_lookup_fmap, Ed, (nth_lookup_Some _ _ _ _ Ed).
    + apply list_insert_ge. rewrite length_fmap. by apply lookup_ge_None.
  - apply (inv_flushed (λ b, recompute_extra_present_mask (set_extra_slots b (<[(slot - 1)%nat := c]> (extra_slots b))))); [done|done|].
    intros b S. refine (mask_synced (set_extra_slots b _) _). cbn. by rewrite length_insert, (sy_length _ S).
Qed.

Lemma unbound_cores b : synced b -> has_extra_color_targets b = false -> slot_core <$> no_extras = slot_core <$> extra_slots b.
Proof.
  intros S H. unfold has_extra_color_targets in H. pose proof (sy_length _ S) as Hl.
  destruct (extra_slots b) as [|x [|y [|z [|]]]]; try done. cbn in H |- *. rewrite !orb_false_iff in H. destruct H as (Hx & Hy & Hz & _).
  unfold slot_core. by rewrite Hx, Hy, Hz.
Qed.

Lemma inv_take_colors σ M : inv σ M -> flushes_color σ -> inv (take_color_attachments σ).2 M.
Proof.
  intros I W. unfold take_color_attachments, bind_colors. cbn [snd]. destruct (has_extra_color_targets (bindings σ)) eqn:E.
  - apply (inv_flushed (λ b, recompute_extra_present_mask (set_extra_slots b no_extras))); [done|done|]. intros b S. exact (mask_synced (set_extra_slots b no_extras) eq_refl).
  - apply inv_like_mask; [done|]. split; try done. by apply unbound_cores; [apply I|].
Qed.

(** *** The saved targets *)

Lemma flush_color_none σ : Pending.color_clear (pending σ) = None -> flush_color_clear σ = σ.
Proof. intros H. unfold flush_color_clear. by rewrite (proj2 (color_false _) H). Qed.

Lemma none_flushes σ : Pending.color_clear (pending σ) = None -> flushes_color σ.
Proof. intros H Hp. by rewrite (proj2 (color_false _) H) in Hp. Qed.

Lemma end_pending σ : pending (end_current_pass σ) = pending σ.
Proof. apply (end_fields σ). Qed.

Lemma bind_color_none t e f sl l σ : Pending.color_clear (pending σ) = None ->
  Pending.color_clear (pending (set_color_render_target_subresource t e f sl l σ)) = None.
Proof.
  intros H. unfold set_color_render_target_subresource. cbn zeta. destruct (_ && _ && _ && _); [done|].
  rewrite flush_color_none by done. cbn [set_bindings pending]. by rewrite end_pending.
Qed.

Lemma bind_msaa_none m ms n σ : Pending.color_clear (pending σ) = None ->
  Pending.color_clear (pending (set_color_msaa m ms n σ)) = None.
Proof.
  intros H. unfold set_color_msaa, bind_colors. cbn zeta. destruct (_ || _ || _); [|done].
  rewrite flush_color_none by done. cbn [set_bindings pending]. by rewrite end_pending.
Qed.

(** Restored with no colour clear of the temporary target left over. *)
Lemma inv_restore_colors saved σ M : inv σ M -> Pending.color_clear (pending σ) = None -> length saved.2 = 3%nat ->
  inv (restore_color_attachments saved σ) M.
Proof.
  intros I Hn Hl. unfold restore_color_attachments. cbn zeta.
  set (σ1 := set_color_render_target_subresource _ _ _ _ _ σ).
  assert (inv σ1 M) as I1 by (by apply inv_bind_color; [|apply none_flushes]).
  assert (Pending.color_clear (pending σ1) = None) as H1 by (by apply bind_color_none).
  set (σ2 := set_color_msaa _ _ _ _).
  assert (inv σ2 M) as I2 by (apply inv_bind_msaa; [by apply inv_bind_alpha|by apply none_flushes]).
  assert (Pending.color_clear (pending σ2) = None) as H2 by (by apply bind_msaa_none).
  clearbody σ2. clear I1 H1 I. case_bool_decide as E.
  - apply inv_like_mask; [done|by split].
  - rewrite flush_color_none by done. destruct (inv_end m0 companion keeps σ2 M I2) as [I3 Hc].
    apply (inv_recolor (recompute_extra_present_mask (set_extra_slots (bindings (end_current_pass σ2)) saved.2)) _ M I3 Hc);
      [by rewrite end_pending|done|by apply mask_synced].
Qed.

(** *** The depth target *)

Lemma synced_ds b d : synced b -> synced (set_ds b d).
Proof. intros []. by split. Qed.

Lemma inv_seen_sampleable t σ M : inv σ M -> inv (set_seen σ (Seen.add_sampleable (seen σ) t)) M.
Proof.
  intros I. apply (inv_quiet m0 companion keeps σ); [done| |apply I|apply I]. split; try done. by right.
Qed.

Definition flushes_planes (σ : Recorder) : Prop := Pending.depth_or_stencil (pending σ) = true -> well_bound (bindings σ).

Lemma inv_bind_depth texture level size sampleable has_stencil σ M : inv σ M -> flushes_planes σ ->
  (DepthTarget.texture (ds (bindings σ)) = texture -> DepthTarget.has_stencil (ds (bindings σ)) = has_stencil) ->
  inv (set_depth_stencil_attachment_level texture level size sampleable has_stencil σ) M.
Proof.
  intros I W Hh. unfold set_depth_stencil_attachment_level.
  set (σ1 := if sampleable && negb (texture =? 0) then _ else σ).
  assert (inv σ1 M) as I1 by (unfold σ1; destruct (_ && _); [by apply inv_seen_sampleable|done]).
  assert (bindings σ1 = bindings σ /\ pending σ1 = pending σ) as [Hb Hp] by (unfold σ1; by destruct (_ && _)).
  clearbody σ1. cbn zeta. destruct (_ && _ && _) eqn:E.
  - rewrite !andb_true_iff, Z.eqb_eq in E. destruct E as [[Et _] _]. specialize (Hh ltac:(by rewrite <- Hb)).
    unfold alter_ds. rewrite <- Hb in Hh. apply inv_same; [done| |apply synced_ds, I1].
    assert (DepthTarget.with_stencil (ds (bindings σ1)) has_stencil = ds (bindings σ1)) as ->.
    { destruct (ds (bindings σ1)). cbn in Hh. by subst. }
    by split.
  - set (σ2 := if Pending.depth_or_stencil (pending σ1) then _ else σ1).
    assert (inv σ2 M /\ Pending.depth_or_stencil (pending σ2) = false) as [I2 H2].
    { unfold σ2. destruct (Pending.depth_or_stencil (pending σ1)) eqn:Ed; [|done].
      destruct (inv_flush m0 companion keeps companion_inj σ1 M I1) as (I' & (_ & Hd & Hs) & _).
      { intros _. rewrite Hb. apply W. by rewrite <- Hp. }
      split; [done|]. by apply depth_or_stencil_false. }
    destruct (inv_end m0 companion keeps σ2 M I2) as [I3 Hc]. pose proof H2 as [Hd Hs]%depth_or_stencil_false.
    apply inv_rebind; [done|done|apply synced_ds, I3| |by rewrite end_pending, H2].
    intros s. unfold pending_texel. rewrite end_pending, Hd, Hs. by destruct (s_plane s).
Qed.

Lemma inv_retire_depth texture σ M : inv σ M -> flushes_planes σ -> inv (retire_depth_texture texture σ) M.
Proof.
  intros I W. unfold retire_depth_texture. destruct (_ && _) eqn:E; [|done].
  apply andb_true_iff in E as [E1%negb_true_iff%Z.eqb_neq E2%Z.eqb_eq]. apply inv_bind_depth; [done|done|congruence].
Qed.

(** A sample count that keeps the depth surface in or out of an open pass. *)
Definition same_binds (n : Z) (σ : Recorder) : Prop :=
  current_pass_closed σ = true
  \/ pass_binds_depth (set_ds (bindings σ) (DepthTarget.with_samples (ds (bindings σ)) (if n =? 0 then 1 else n))) = pass_binds_depth (bindings σ).

Lemma inv_depth_samples n σ M : inv σ M -> same_binds n σ -> inv (set_depth_sample_count n σ) M.
Proof.
  intros I [Hc|Hb].
  - apply inv_rebind; [done|done|apply synced_ds, I|done|apply I].
  - apply inv_same; [done| |apply synced_ds, I]. by split.
Qed.

Lemma inv_depth_unscaled u σ M : inv σ M -> inv (set_depth_unscaled u σ) M.
Proof. intros I. apply inv_same; [done|by split|apply synced_ds, I]. Qed.

(** *** sRGB writes *)

Definition enable (e : bool) (b : Bindings) : Bindings :=
  let s := srgb b in
  set_srgb b (SrgbWrite.mk e (SrgbWrite.pass_write s) (SrgbWrite.rt0_twin s) (SrgbWrite.extra_twins s) (SrgbWrite.base_to_twin s)).

Definition enabling (e : bool) (σ : Recorder) : Recorder := set_bindings σ (enable e (bindings σ)).

(** The render state is read when a pass is prepared, not when one is recorded. *)
Lemma push_pass_enabling e σ a : push_pass (enabling e σ) a = enabling e (push_pass σ a).
Proof. unfold push_pass. change (opened_pass (enabling e σ) a) with (opened_pass σ a). by destruct (viewport (opened_pass σ a)) as [[[? ?] ?] ?]. Qed.

Lemma end_enabling e σ : end_current_pass (enabling e σ) = enabling e (end_current_pass σ).
Proof. unfold end_current_pass. cbn [set_bindings enabling frame current_pass_closed]. by destruct (_ || _). Qed.

Lemma push_depth_clear_enabling e σ : push_depth_clear_pass (enabling e σ) = enabling e (push_depth_clear_pass σ).
Proof.
  unfold push_depth_clear_pass. change (DepthTarget.texture (ds (bindings (enabling e σ)))) with (DepthTarget.texture (ds (bindings σ))).
  destruct (_ =? 0); [done|]. change (depth_clear_pass (enabling e σ)) with (depth_clear_pass σ). by rewrite end_enabling.
Qed.

Lemma open_enabling e σ : open_pass (enabling e σ) = enabling e (open_pass σ).
Proof.
  unfold open_pass. change (rt0_dropped (bindings (enabling e σ))) with (rt0_dropped (bindings σ)).
  change (pending (enabling e σ)) with (pending σ).
  change (pass_color_covers_depth (bindings (enabling e σ))) with (pass_color_covers_depth (bindings σ)).
  destruct (rt0_dropped _).
  - destruct (Pending.color _); [|apply push_pass_enabling].
    change (set_closed (push_pass (enabling e σ) ColorOnly) true) with (set_closed (push_pass (enabling e σ) ColorOnly) true).
    rewrite push_pass_enabling. exact (push_pass_enabling e (set_closed (push_pass σ ColorOnly) true) DepthOnly).
  - destruct (_ && _); [|apply push_pass_enabling]. rewrite push_depth_clear_enabling.
    exact (push_pass_enabling e (set_pending (push_depth_clear_pass σ) _) Both).
Qed.

Lemma flush_enabling e σ : flush_pending_clears (enabling e σ) = enabling e (flush_pending_clears σ).
Proof.
  unfold flush_pending_clears. change (pending (enabling e σ)) with (pending σ).
  change (pass_binds_depth (bindings (enabling e σ))) with (pass_binds_depth (bindings σ)).
  change (pass_color_covers_depth (bindings (enabling e σ))) with (pass_color_covers_depth (bindings σ)).
  set (c := Pending.color _ || _). set (σ1 := if c then end_current_pass (ensure_pass_open σ) else σ).
  assert ((if c then end_current_pass (ensure_pass_open (enabling e σ)) else enabling e σ) = enabling e σ1) as ->.
  { unfold σ1. destruct c; [|done]. rewrite <- end_enabling. f_equal. unfold ensure_pass_open.
    change (opens_pass (enabling e σ)) with (opens_pass σ). destruct (opens_pass σ); [apply open_enabling|done]. }
  change (pending (enabling e σ1)) with (pending σ1). destruct (Pending.depth_or_stencil (pending σ1)); [|done]. apply push_depth_clear_enabling.
Qed.

Lemma inv_srgb_write e σ M : inv σ M -> flushes_color σ -> inv (set_srgb_write_enabled e σ) M.
Proof.
  intros I W. unfold set_srgb_write_enabled. destruct (eqb _ e); [done|].
  change (inv (apply_srgb_write_change (enabling e σ)) M). unfold apply_srgb_write_change.
  pose proof (iv_synced _ _ _ _ _ I) as S.
  destruct (eqb (SrgbWrite.pass_write _) _) eqn:E.
  - apply eqb_prop in E. change (inv (set_bindings σ (recompute_srgb_write (enable e (bindings σ)))) M).
    apply inv_same; [done| |apply recompute_srgb_synced; [apply S|exact (sy_mask _ S)]].
    apply recompute_same; [done|done|done|done|done|done|exact (sy_mask _ S)|]. exact E.
  - assert (end_current_pass (flush_color_clear (enabling e σ)) = enabling e (end_current_pass (flush_color_clear σ))) as ->.
    { rewrite <- end_enabling. f_equal. unfold flush_color_clear. change (pending (enabling e σ)) with (pending σ).
      destruct (Pending.color (pending σ)); [apply flush_enabling|done]. }
    apply (inv_flushed (λ b, recompute_srgb_write (enable e b))); [done|done|]. intros b Sb. split; [done|].
    apply recompute_srgb_synced; [apply Sb|exact (sy_mask _ Sb)].
Qed.

(** *** Views *)

Lemma inv_view_tables m σ M : inv σ M -> inv (set_frame σ (with_views (frame σ) m)) M.
Proof. intros I. apply (inv_quiet m0 companion keeps σ); [done| |apply I|apply I]. split; try done. by right. Qed.

(** Whether a colour target is bound. *)
Definition bound_color (b : Bindings) (t : Z) : Prop :=
  t = ColorSlot.texture (rt0 b) \/ exists c, c ∈ extra_slots b /\ ColorSlot.is_bound c = true /\ ColorSlot.texture c = t.

(** The twins of textures that are not bound come and go. *)
Lemma inv_twins m σ M : inv σ M ->
  (forall t, bound_color (bindings σ) t -> default 0 (m !! t) = twin_of (srgb (bindings σ)) t) ->
  inv (apply_srgb_write_change (set_base_to_twin m σ)) M.
Proof.
  intros I Ht. pose proof (iv_synced _ _ _ _ _ I) as S.
  assert (like (bindings σ) (bindings (set_base_to_twin m σ))) as H by (split; try done; intros t Hb; by apply Ht).
  unfold apply_srgb_write_change.
  assert (eqb (SrgbWrite.pass_write (srgb (bindings (set_base_to_twin m σ))))
             (SrgbWrite.enabled (srgb (bindings (set_base_to_twin m σ))) && srgb_write_is_attachable (bindings (set_base_to_twin m σ))) = true) as ->.
  { rewrite (like_attachable _ _ S H) by exact (sy_mask _ S). apply eqb_true_iff, (sy_write _ S). }
  apply (inv_like_srgb (bindings (set_base_to_twin m σ)) σ); [done|done|exact (sy_mask _ S)].
Qed.

Lemma inv_register_twin twin base σ M : inv σ M -> ~ bound_color (bindings σ) base -> inv (register_srgb_twin twin base σ) M.
Proof.
  intros I Hb. unfold register_srgb_twin, store_srgb_twin. destruct (_ || _); [done|].
  apply inv_twins; [by apply inv_view_tables|]. intros t Ht. rewrite lookup_insert_ne; [done|]. intros <-. by apply Hb.
Qed.

Lemma inv_unregister_twin twin σ M : inv σ M ->
  (forall base, texture_view_to_base (frame σ) !! twin = Some base -> ~ bound_color (bindings σ) base) ->
  inv (unregister_srgb_twin twin σ) M.
Proof.
  intros I Hb. unfold unregister_srgb_twin, drop_srgb_twin. destruct (twin =? 0); [done|].
  destruct (texture_view_to_base (frame σ) !! twin) as [base|]; [|done]. case_bool_decide; [|done].
  apply inv_twins; [done|]. intros t Ht. rewrite lookup_delete_ne; [done|]. intros <-. by apply (Hb base).
Qed.

Lemma inv_register_view view base σ M : inv σ M -> inv (register_texture_view view base σ) M.
Proof. intros I. unfold register_texture_view. destruct (_ || _ || _); [done|]. by apply inv_view_tables. Qed.
End Binds.

(** ** The calls of a frame *)

Inductive Call :=
(* draws *)
  | Emit (c : Command)
  | SetViewportRect (x y width height min_z max_z : Z)
  | SetDepthRange (min_z max_z : Z)
  | NoteColorWriteMask (mask : Z)
  | NoteDepthStencil (s : DepthStencilSnapshot) (attach : Z)
  | NoteClearQuad (clears_stencil : bool)
  | OpenForCoveringDraw
  | OpenQuadBlock
  | CloseQuadBlock (start : nat)
(* clears *)
  | ClearColor (rgba : Z * Z * Z * Z)
  | ClearDepth (value : Z)
  | ClearStencil (value : Z)
  | ColorBreak (rgba : Z * Z * Z * Z)
  | DepthBreak (value : Z)
  | StencilBreak (value : Z)
  | RegionColor
  | RegionDepthStencil
(* passes and blits *)
  | FlushClears
  | EndPass
  | BreakVisibility
  | Blit (b : BlitCommand)
  | TextureRead (t : Z)
  | OrderedWrite (t : Z)
(* targets *)
  | BindColor (texture : Z) (extent : TargetExtent.t) (format : PixelFormat) (slice level : Z)
  | BindMsaa (msaa msaa_srgb samples : Z)
  | BindAlpha (has_alpha : bool)
  | BindExtra (slot : nat) (binding : option ColorSlot.t)
  | TakeColors
  | RestoreColors (saved : SavedColors)
  | BindDepth (texture level : Z) (size : Z * Z) (sampleable has_stencil : bool)
  | RetireDepth (texture : Z)
  | DepthSamples (samples : Z)
  | DepthUnscaled (unscaled : bool)
  | DropRt0 (drop : bool)
  | EndDropped
  | SrgbWriteEnable (enabled : bool)
  | RegisterTwin (twin base : Z)
  | UnregisterTwin (twin : Z)
  | RegisterView (view base : Z).

(** What the recorder does. *)
Definition call (c : Call) (σ : Recorder) : Recorder :=
  match c with
  | Emit c => emit_command c σ
  | SetViewportRect x y w h z1 z2 => set_viewport x y w h z1 z2 σ
  | SetDepthRange z1 z2 => set_emitted_depth_range z1 z2 σ
  | NoteColorWriteMask mask => note_draw_color_write_mask mask σ
  | NoteDepthStencil s attach => note_draw_depth_stencil s attach σ
  | NoteClearQuad b => note_depth_stencil_clear_quad b σ
  | OpenForCoveringDraw => open_pass_for_covering_draw σ
  | OpenQuadBlock => (open_color_clear_quad_block σ).2
  | CloseQuadBlock start => close_color_clear_quad_block start σ
  | ClearColor rgba => (clear_color rgba σ).2
  | ClearDepth v => (clear_depth v σ).2
  | ClearStencil v => (clear_stencil v σ).2
  | ColorBreak rgba => clear_color_legacy_break rgba σ
  | DepthBreak v => clear_depth_legacy_break v σ
  | StencilBreak v => clear_stencil_legacy_break v σ
  | RegionColor => (begin_region_color_clear σ).2
  | RegionDepthStencil => (begin_region_depth_stencil_clear σ).2
  | FlushClears => flush_pending_clears σ
  | EndPass => end_current_pass σ
  | BreakVisibility => break_for_visibility_buffer σ
  | Blit b => push_leading_blit_after_clears b σ
  | TextureRead t => note_texture_read t σ
  | OrderedWrite t => note_ordered_texture_write t σ
  | BindColor t e f slice level => set_color_render_target_subresource t e f slice level σ
  | BindMsaa m ms n => set_color_msaa m ms n σ
  | BindAlpha a => set_color_rt_has_alpha a σ
  | BindExtra slot binding => set_extra_color_render_target slot binding σ
  | TakeColors => (take_color_attachments σ).2
  | RestoreColors saved => restore_color_attachments saved σ
  | BindDepth t level size sampleable has_stencil => set_depth_stencil_attachment_level t level size sampleable has_stencil σ
  | RetireDepth t => retire_depth_texture t σ
  | DepthSamples n => set_depth_sample_count n σ
  | DepthUnscaled u => set_depth_unscaled u σ
  | DropRt0 drop => set_rt0_dropped drop σ
  | EndDropped => end_rt0_dropped_pass σ
  | SrgbWriteEnable e => set_srgb_write_enabled e σ
  | RegisterTwin twin base => register_srgb_twin twin base σ
  | UnregisterTwin twin => unregister_srgb_twin twin σ
  | RegisterView view base => register_texture_view view base σ
  end.

Section Frame.
Context {T : Type} {views : Views} `{L : GpuLaws T views} (companion : Z -> Z) (keeps : Z -> Prop).
Hypothesis companion_inj : forall t u, companion t = companion u -> t = u.

  Abbreviation well_bound σ := (well_bound companion keeps (bindings σ)).

(** What the caller owes: targets a pass can be opened on where one may be, no
    draw that samples what it renders to, one storage to a handle. *)
Definition legal (σ : Recorder) (c : Call) : Prop :=
  match c with
  | Emit c => well_bound σ /\ (is_draw c = true -> no_feedback (T := T) (views := views) (ensure_pass_open σ))
  | NoteColorWriteMask _ | NoteDepthStencil _ _ | NoteClearQuad _ | OpenForCoveringDraw | OpenQuadBlock
  | ClearDepth _ | ClearStencil _ | RegionColor | RegionDepthStencil => well_bound σ
  | CloseQuadBlock _ => current_pass_closed σ = false
  | ClearColor _ => well_bound σ /\ rt0_dropped (bindings σ) = false
  | DepthBreak _ | StencilBreak _ => DepthTarget.texture (ds (bindings σ)) <> 0
  | FlushClears => anything_pending σ = true -> well_bound σ
  | Blit b => (anything_pending σ = true -> well_bound σ)
              /\ forall t, blit_written_texture b = Some t -> own_storage (views := views) companion t
  | BindColor _ _ _ _ _ | BindMsaa _ _ _ | TakeColors | SrgbWriteEnable _ => flushes_color companion keeps σ
  | BindExtra slot binding => flushes_color companion keeps σ /\ same_slot slot binding (bindings σ)
  | RestoreColors saved => Pending.color_clear (pending σ) = None /\ length saved.2 = 3%nat
  | BindDepth t _ _ _ has_stencil =>
      flushes_planes companion keeps σ
      /\ (DepthTarget.texture (ds (bindings σ)) = t -> DepthTarget.has_stencil (ds (bindings σ)) = has_stencil)
  | RetireDepth _ => flushes_planes companion keeps σ
  | DepthSamples n => same_binds n σ
  | RegisterTwin _ base => ~ bound_color (bindings σ) base
  | UnregisterTwin twin => forall base, texture_view_to_base (frame σ) !! twin = Some base -> ~ bound_color (bindings σ) base
  | _ => True
  end.

(** What the call does at once. *)
Definition effect (σ : Recorder) (c : Call) (M : Mem T) : Mem T :=
  match c with
  | Emit c => draw_now (views := views) (ensure_pass_open σ) c M
  | ClearColor rgba => color_effect (bindings σ) rgba (clear_color rgba σ).1 M
  | ClearDepth v => plane_effect (bindings σ) (depth_only v) (clear_depth v σ).1 M
  | ClearStencil v => plane_effect (bindings σ) (stencil_only v) (clear_stencil v σ).1 M
  | ColorBreak rgba => apply_clears (bindings σ) (color_only rgba) M
  | DepthBreak v => apply_clears (bindings σ) (depth_only v) M
  | StencilBreak v => apply_clears (bindings σ) (stencil_only v) M
  | Blit b => blit b M
  | _ => M
  end.

Lemma inv_call m0 c σ M : inv (views := views) m0 companion keeps σ M -> legal σ c ->
  inv (views := views) m0 companion keeps (call c σ) (effect σ c M).
Proof.
  intros I. destruct c; cbn [legal effect call].
  - intros [W Hf]. by apply inv_emit.
  - intros _. by apply inv_set_viewport.
  - intros _. by apply inv_set_depth_range.
  - intros W. by apply inv_note_color_write_mask.
  - intros W. by apply inv_note_depth_stencil.
  - intros W. by apply inv_note_clear_quad.
  - intros W. by apply inv_covering_draw.
  - intros W. by apply inv_ensure.
  - intros Hc. by apply inv_close_quad_block.
  - intros [W Hd]. by apply inv_clear_color.
  - intros W. apply inv_clear_plane; done || by apply depth_folds.
  - intros W. apply inv_clear_plane; done || by apply stencil_folds.
  - intros _. by apply inv_color_break.
  - intros Hn. by apply inv_plane_break.
  - intros Hn. by apply inv_plane_break.
  - intros W. by apply inv_region_color.
  - intros W. by apply inv_region_planes.
  - intros W. by apply inv_flush.
  - intros _. by apply inv_end.
  - intros _. by apply inv_break_visibility.
  - intros [W Hw]. by apply inv_blit_after_clears.
  - intros _. by apply inv_texture_read.
  - intros _. by apply inv_ordered_write.
  - intros W. by apply inv_bind_color.
  - intros W. by apply inv_bind_msaa.
  - intros _. by apply inv_bind_alpha.
  - intros [W Hs]. by apply inv_bind_extra.
  - intros W. by apply inv_take_colors.
  - intros [Hn Hl]. by apply inv_restore_colors.
  - intros [W Hh]. by apply inv_bind_depth.
  - intros W. by apply inv_retire_depth.
  - intros Hb. by apply inv_depth_samples.
  - intros _. by apply inv_depth_unscaled.
  - intros _. by apply inv_set_dropped.
  - intros _. unfold end_rt0_dropped_pass. destruct (rt0_dropped _); [by apply inv_end|done].
  - intros W. by apply inv_srgb_write.
  - intros Hb. by apply inv_register_twin.
  - intros Hb. by apply inv_unregister_twin.
  - intros _. by apply inv_register_view.
Qed.

(** A run of calls, what they do at once, and that each is legal where it comes. *)
Fixpoint calls (cs : list Call) (σ : Recorder) : Recorder :=
  match cs with [] => σ | c :: cs => calls cs (call c σ) end.
Fixpoint effects (cs : list Call) (σ : Recorder) (M : Mem T) : Mem T :=
  match cs with [] => M | c :: cs => effects cs (call c σ) (effect σ c M) end.
Fixpoint all_legal (cs : list Call) (σ : Recorder) : Prop :=
  match cs with [] => True | c :: cs => legal σ c /\ all_legal cs (call c σ) end.

Lemma inv_calls m0 cs σ M : inv (views := views) m0 companion keeps σ M -> all_legal cs σ ->
  inv (views := views) m0 companion keeps (calls cs σ) (effects cs σ M).
Proof.
  revert σ M. induction cs as [|c cs IH]; intros σ M I; [done|]. intros [Hc Hcs]. cbn [calls effects].
  apply IH; [by apply inv_call|done].
Qed.

Lemma reset_synced r σ : synced (bindings (reset_frame r σ)).
Proof.
  unfold reset_frame. cbn [bindings]. apply recompute_srgb_synced.
  - unfold drop_srgb_twin, store_srgb_twin. repeat case_match; simplify_eq; done.
  - unfold drop_srgb_twin, store_srgb_twin. repeat case_match; simplify_eq; done.
Qed.

(** The start of a frame. *)
Lemma inv_reset r σ m0 M : mem_le nowhere M m0 -> blank companion keeps (reset_frame r σ) M ->
  inv (views := views) m0 companion keeps (reset_frame r σ) M.
Proof.
  intros HM HB. split; [by apply open_inv_closed|done|apply reset_synced|done| |done].
  intros s _ px v Hv. unfold settled, settle. rewrite apply_clears_none by done.
  exact (HM s ltac:(intros []) px v Hv).
Qed.
End Frame.

(** ** What the recorder promises *)

(** C1: the recorder and its calls.  From the start of a frame, any legal
    sequence of calls (draws, clears, blits, targets bound and rebound) leaves
    passes that, run in order with what is pending when the frame is closed,
    define every texel doing each call at once would have, with the value it
    would have had.  Clears become load actions or passes of their own, draws
    share passes, and Rule A discards what a target holds: none of it is seen.
    [companion] is the multisampled storage of a texture; [keeps] holds of the
    depth textures whose contents outlive a frame. *)
Theorem recorder_renders_calls {T} {views} `{L : GpuLaws T views} (companion : Z -> Z) (keeps : Z -> Prop)
    (r : FrameReset) (σ : Recorder) (cs : list Call) (m0 M : Mem T) :
  (forall t u, companion t = companion u -> t = u) ->
  let σ0 := reset_frame r σ in
  mem_le nowhere M m0 -> blank companion keeps σ0 M -> all_legal (views := views) companion keeps cs σ0 ->
  (anything_pending (calls cs σ0) = true -> well_bound companion keeps (bindings (calls cs σ0))) ->
  let σ1 := end_current_pass (flush_pending_clears (calls cs σ0)) in
  mem_le nowhere (effects (views := views) cs σ0 M)
    (run_blits (Pending.leading_blits (pending σ1)) (run_passes views (passes (frame σ1)) m0)).
Proof.
  intros Hinj σ0 HM HB Hl W σ1.
  pose proof (inv_calls companion keeps Hinj m0 cs σ0 M (inv_reset companion keeps r σ m0 M HM HB) Hl) as I.
  destruct (inv_flush m0 companion keeps Hinj _ _ I W) as (I' & Hp & _). destruct (inv_end m0 companion keeps _ _ I') as [I'' _].
  fold σ1 in I''. intros s _ px v Hv. pose proof (iv_mem _ _ _ _ _ I'' s ltac:(intros []) px v Hv) as H.
  assert (settled_pending σ1) as (Hc & Hd & Hs) by (unfold settled_pending, σ1; by rewrite end_pending).
  unfold settled, settle in H. by rewrite apply_clears_none in H.
Qed.

(** *** A frame on the small GPU *)

Definition trial_reset : FrameReset :=
  mkFrameReset 1 0 0 0 1 (64, 64) Bgra8Unorm true 3 (64, 64) true RenderScale.IDENTITY false.
Definition trial_start : Recorder := reset_frame trial_reset new_recorder.
Definition trial_command (code b d : Z) : Command := mkCommand code 0 b 0 d.
(** A clear, a draw on it, a copy of the result, another clear. *)
Definition trial_calls : list Call :=
  [ClearColor (5, 0, 0, 0); ClearDepth 9; Emit (trial_command 1 7 0); Emit (trial_command 20 0 0);
   Emit (mkCommand 4 0 0 3 1); Blit (mkBlit 2 0 1 2 0 0 0 0 64 64 0 0 1 0 0 0 0); ClearColor (6, 0, 0, 0)].
(** Memory starts with every texture holding its handle. *)
Definition trial_start_memory : Mem Z := λ s _, match s_plane s with CounterPlane => Some 0 | _ => Some (s_texture s) end.
(** To D3D9 the back buffer and every depth surface start undefined. *)
Definition trial_memory : Mem Z :=
  λ s _, match s_plane s with
         | ColorPlane => if s_texture s =? 1 then None else Some (s_texture s)
         | CounterPlane => Some 0
         | _ => None
         end.

Lemma trial_bound σ : bindings σ = bindings trial_start -> well_bound toy_companion (λ _, False) (bindings σ).
Proof.
  intros ->. set (b := bindings trial_start). vm_compute in b. split; [split|..].
  - intros [[|[|[|[|i]]]]| | |] [[|[|[|[|j]]]]| | |] s H1 H2; vm_compute in H1; vm_compute in H2; try done; congruence.
  - intros [|[|[|[|i]]]] s H; vm_compute in H; try done.
  - done.
  - done.
  - done.
  - done.
  - intros [|[|[|i]]] c Hc Hp; vm_compute in Hp; done.
  - intros x Hx Hb. vm_compute in Hx. repeat (apply elem_of_cons in Hx as [->|Hx]; [done|]). by apply not_elem_of_nil in Hx.
  - tauto.
Qed.

(** Nothing the encoder holds is a texture. *)
Lemma trial_no_feedback σ : match last_pass σ with Some p => forallb (λ c, bool_decide (command_sampled_texture c = None)) (commands p) | None => true end = true ->
  no_feedback (T := Z) (views := no_views) σ.
Proof.
  unfold no_feedback, encoder_of. destruct (last_pass σ) as [p|]; [|done]. rewrite forallb_forall. intros H sl b tex Hb Ht.
  apply encoder_after_bound in Hb as [Hb|Hb]; [|done]. apply list_elem_of_In, H, bool_decide_eq_true in Hb. congruence.
Qed.

Ltac trial_bound := apply trial_bound; vm_compute; reflexivity.
Ltac trial_samples := intros _; apply trial_no_feedback; vm_compute; reflexivity.

Lemma trial_legal : all_legal (views := no_views) toy_companion (λ _, False) trial_calls trial_start.
Proof.
  unfold trial_calls. cbn [all_legal legal].
  split; [split; [trial_bound|vm_compute; reflexivity]|].
  split; [trial_bound|].
  split; [split; [trial_bound|trial_samples]|].
  split; [split; [trial_bound|trial_samples]|].
  split; [split; [trial_bound|trial_samples]|].
  split; [split; [intros _; trial_bound|intros t Ht; vm_compute in Ht; injection Ht as <-; split; vm_compute; reflexivity]|].
  split; [split; [trial_bound|vm_compute; reflexivity]|exact I].
Qed.

Lemma trial_blank : mem_le nowhere trial_memory trial_start_memory /\ blank toy_companion (λ _, False) trial_start trial_memory.
Proof.
  split.
  - intros s _ px v. unfold trial_memory, trial_start_memory. destruct (s_plane s); try done. by destruct (s_texture s =? 1).
  - split.
    + intros t sub s px (H & _) -> _. unfold is_discarded_back_buffer in H. change (backbuffer_texture (frame trial_start)) with 1 in H.
      rewrite !andb_true_iff in H. destruct H as [[_ ->%Z.eqb_eq] _]. reflexivity.
    + intros s px _ _ Hp _. unfold trial_memory. by destruct Hp as [-> | ->].
Qed.

(** The copy holds what was drawn on the cleared target. *)
Lemma recorder_renders_calls_witness :
  length (passes (frame (end_current_pass (flush_pending_clears (calls trial_calls trial_start))))) = 2%nat
  /\ run_blits (Pending.leading_blits (pending (end_current_pass (flush_pending_clears (calls trial_calls trial_start)))))
       (run_passes no_views (passes (frame (end_current_pass (flush_pending_clears (calls trial_calls trial_start))))) trial_start_memory)
       (surface 2 0 ColorPlane) (0, 0) = Some 12.
Proof.
  split; [vm_compute; reflexivity|].
  apply (recorder_renders_calls (L := toy_laws) toy_companion (λ _, False) trial_reset new_recorder trial_calls trial_start_memory trial_memory
           toy_companion_inj (proj1 trial_blank) (proj2 trial_blank) trial_legal).
  - intros _. apply trial_bound. vm_compute. reflexivity.
  - intros [].
  - vm_compute. reflexivity.
Defined.

(** C6: the open pass is what the bindings say.  After any legal sequence of
    calls: while a pass is open it is the last one recorded, each of its slots
    is attached to what the bound targets name, with the depth surface left out
    when its sample count differs and the colour targets when render target 0 is
    dropped, everything it attaches is stored, and nothing that would land on it
    is still pending.  The cached mask of extra targets, the resolved twins and
    the sRGB choice are what computing them afresh would give. *)
Theorem open_pass_mirrors_bindings {T} {views} `{L : GpuLaws T views} (companion : Z -> Z) (keeps : Z -> Prop)
    (r : FrameReset) (σ : Recorder) (cs : list Call) :
  (forall t u, companion t = companion u -> t = u) ->
  all_legal (T := T) (views := views) companion keeps cs (reset_frame r σ) ->
  let σ1 := calls cs (reset_frame r σ) in
  (current_pass_closed σ1 = false ->
     exists ps p, passes (frame σ1) = ps ++ [p]
       /\ (forall sl, attached p sl = attached (bound_pass (bindings σ1) (current_visibility σ1) (attach_of (bindings σ1))) sl)
       /\ stores_all p /\ Pending.color_clear (pending σ1) = None /\ Pending.leading_blits (pending σ1) = []
       /\ (pass_binds_depth (bindings σ1) = true -> Pending.depth_or_stencil (pending σ1) = false))
  /\ synced (bindings σ1).
Proof.
  intros Hinj Hl σ1. set (M := λ (_ : Surface) (_ : Z * Z), @None T).
  assert (inv (views := views) M companion keeps (reset_frame r σ) M) as I0 by (apply inv_reset; [by intros|by split]).
  pose proof (inv_calls companion keeps Hinj M cs _ M I0 Hl) as I. fold σ1 in I. split; [|apply I].
  intros Hc. destruct (iv_open _ _ _ _ _ I Hc) as (ps & p & Hps & Ho). exists ps, p. split_and!; [done| |apply Ho..|].
  - intros sl. apply outline_attached, Ho.
  - intros Hb. by apply depth_or_stencil_false, (oo_planes _ _ Ho).
Qed.

Lemma open_pass_mirrors_bindings_witness :
  let σ1 := calls (take 5 trial_calls) trial_start in
  current_pass_closed σ1 = false
  /\ exists ps p, passes (frame σ1) = ps ++ [p] /\ attached p (SlotColor 0) = Some (surface 1 0 ColorPlane)
       /\ Pending.color_clear (pending σ1) = None.
Proof.
  assert (all_legal (T := Z) (views := no_views) toy_companion (λ _, False) (take 5 trial_calls) trial_start) as Hl.
  { pose proof trial_legal as H. unfold trial_calls in H |- *. cbn [all_legal take] in H |- *. tauto. }
  destruct (open_pass_mirrors_bindings (L := toy_laws) toy_companion (λ _, False) trial_reset new_recorder (take 5 trial_calls)
              toy_companion_inj Hl) as [H _].
  cbn zeta. split; [vm_compute; reflexivity|]. destruct H as (ps & p & Hps & Ha & _ & Hp & _); [vm_compute; reflexivity|].
  exists ps, p. split_and!; [exact Hps| |exact Hp]. rewrite Ha. vm_compute. reflexivity.
Defined.

(** ** Saving and restoring the colour targets *)

(** What the caches are computed from. *)
Definition targets (b : Bindings) :=
  (rt0 b, extra_slots b, ds b, SrgbWrite.enabled (srgb b), SrgbWrite.base_to_twin (srgb b)).

Lemma recompute_targets b b' : targets b = targets b' ->
  set_dropped (recompute_extra_present_mask b) false = set_dropped (recompute_extra_present_mask b') false.
Proof.
  destruct b as [r e a d x [s1 s2 s3 s4 s5]], b' as [r' e' a' d' x' [t1 t2 t3 t4 t5]]. unfold targets. cbn.
  intros H. simplify_eq. reflexivity.
Qed.

Lemma end_targets σ : targets (bindings (end_current_pass σ)) = targets (bindings σ).
Proof. by destruct (end_fields σ) as (_ & -> & _). Qed.

Lemma flush_targets σ : targets (bindings (end_current_pass (flush_color_clear σ))) = targets (bindings σ).
Proof.
  rewrite end_targets. unfold flush_color_clear. destruct (Pending.color (pending σ)); [|done]. unfold flush_pending_clears.
  set (σ1 := if _ || _ then _ else σ). assert (targets (bindings σ1) = targets (bindings σ)) as <-.
  { unfold σ1. destruct (_ || _); [|done]. rewrite end_targets. unfold ensure_pass_open. destruct (opens_pass σ); [|done].
    by destruct (open_pass_opens σ) as (_ & _ & -> & _). }
  destruct (Pending.depth_or_stencil (pending σ1)); [|done]. unfold push_depth_clear_pass. destruct (_ =? 0); [done|].
  cbn [bindings]. apply end_targets.
Qed.

Lemma recompute_colors_targets b : targets (recompute_colors b) = targets b.
Proof. unfold recompute_colors. by destruct (has_extra_color_targets b). Qed.

Lemma pack_unpack s : pack_subresource (Z.land s 65535) (Z.shiftr s 16) = s.
Proof.
  unfold pack_subresource. apply Z.bits_inj'. intros n Hn. rewrite Z.lor_spec, Z.land_spec.
  change 65535 with (Z.ones 16). rewrite Z.shiftl_spec by lia. destruct (decide (n < 16)).
  - rewrite Z.ones_spec_low by lia. rewrite (Z.testbit_neg_r _ (n - 16)) by lia. by rewrite andb_true_r, orb_false_r.
  - rewrite Z.ones_spec_high, Z.shiftr_spec by lia. rewrite andb_false_r. cbn. f_equal. lia.
Qed.

(** A target as the device binds it: a view and a sample count above one come
    with a multisampled companion. *)
Definition slot_ok (c : ColorSlot.t) : Prop :=
  if ColorSlot.msaa_texture c =? 0 then ColorSlot.msaa_srgb_texture c = 0 /\ ColorSlot.sample_count c = 1
  else 1 <= ColorSlot.sample_count c.

Lemma slot_msaa c : slot_ok c ->
  (if ColorSlot.msaa_texture c =? 0 then 0 else ColorSlot.msaa_srgb_texture c) = ColorSlot.msaa_srgb_texture c
  /\ (if ColorSlot.msaa_texture c =? 0 then 1 else Z.max (ColorSlot.sample_count c) 1) = ColorSlot.sample_count c.
Proof. unfold slot_ok. destruct (_ =? 0); [by intros [-> ->]|]. intros H. split; [done|]. lia. Qed.

Definition rest (b : Bindings) :=
  (extra_slots b, ds b, SrgbWrite.enabled (srgb b), SrgbWrite.base_to_twin (srgb b)).
Definition base (c : ColorSlot.t) : ColorSlot.t := ColorSlot.with_alpha (ColorSlot.with_msaa c 0 0 0) false.

Lemma targets_split b b' : targets b = targets b' <-> rt0 b = rt0 b' /\ rest b = rest b'.
Proof. unfold targets, rest. split; [intros [= -> -> -> -> ->]|intros [-> [= -> -> -> ->]]]; done. Qed.

Lemma flush_rest σ : rt0 (bindings (end_current_pass (flush_color_clear σ))) = rt0 (bindings σ)
  /\ rest (bindings (end_current_pass (flush_color_clear σ))) = rest (bindings σ).
Proof. apply targets_split, flush_targets. Qed.

Lemma recompute_colors_rest b : rt0 (recompute_colors b) = rt0 b /\ rest (recompute_colors b) = rest b.
Proof. apply targets_split, recompute_colors_targets. Qed.

Lemma bind_color_rest t e f sl l σ :
  let b := bindings (set_color_render_target_subresource t e f sl l σ) in
  rest b = rest (bindings σ)
  /\ base (rt0 b) = base (ColorSlot.mk t 0 0 1 (pack_subresource sl l) (TargetExtent.texture e) (TargetExtent.logical e) f (TargetExtent.scale e) false).
Proof.
  cbn zeta. unfold set_color_render_target_subresource. cbn zeta. destruct (_ && _ && _ && _) eqn:E; cbn [set_bindings bindings].
  - rewrite !andb_true_iff, !Z.eqb_eq, !bool_decide_eq_true in E. destruct E as [[[E1 E2] E3] E4].
    destruct (recompute_colors_rest (set_rt0 (bindings σ) (ColorSlot.with_scale (rt0 (bindings σ)) (TargetExtent.logical e) (TargetExtent.scale e)))) as [-> ->].
    split; [done|]. unfold base, ColorSlot.with_alpha, ColorSlot.with_msaa, ColorSlot.with_scale. cbn. by rewrite E1, E2, E3, E4.
  - match goal with |- context [recompute_colors ?b] => destruct (recompute_colors_rest b) as [-> ->] end.
    destruct (flush_rest σ) as [_ Hr]. split; [exact Hr|done].
Qed.

Lemma bind_msaa_rest m ms n σ :
  let b := bindings (set_color_msaa m ms n σ) in
  rest b = rest (bindings σ)
  /\ rt0 b = ColorSlot.with_msaa (rt0 (bindings σ)) m (if m =? 0 then 0 else ms) (if m =? 0 then 1 else Z.max n 1).
Proof.
  cbn zeta. unfold set_color_msaa, bind_colors. cbn zeta. destruct (flush_rest σ) as [H1 H2]. destruct (_ || _ || _); [|done].
  split; [exact H2|]. by rewrite <- H1.
Qed.

(** C7: [StretchRect], the clear quads and the other internal passes take the
    colour attachments, bind their own and put the taken ones back.  Whatever
    was bound in between, the bindings come back whole, caches included: the
    fields the targets were saved from, recomputed, with render target 0 no
    longer dropped.  The depth target and the sRGB state are those in force. *)
Theorem restore_undoes_take (σ σ1 : Recorder) :
  slot_ok (rt0 (bindings σ)) -> ds (bindings σ1) = ds (bindings σ) ->
  SrgbWrite.enabled (srgb (bindings σ1)) = SrgbWrite.enabled (srgb (bindings σ)) ->
  SrgbWrite.base_to_twin (srgb (bindings σ1)) = SrgbWrite.base_to_twin (srgb (bindings σ)) ->
  set_dropped (bindings (restore_color_attachments (take_color_attachments σ).1 σ1)) false
  = set_dropped (recompute_extra_present_mask (bindings σ)) false.
Proof.
  intros Hok Hd He Ht.
  assert ((take_color_attachments σ).1 = (rt0 (bindings σ), extra_slots (bindings σ))) as ->.
  { unfold take_color_attachments. cbn [fst]. destruct (has_extra_color_targets _); [|done].
    pose proof (flush_targets σ) as H. apply (f_equal (λ t, t.1.1.1)) in H. exact H. }
  unfold restore_color_attachments. cbn zeta. cbn [fst snd]. set (c := rt0 (bindings σ)) in *.
  set (σ2 := set_color_render_target_subresource _ _ _ _ _ σ1).
  destruct (bind_color_rest (ColorSlot.texture c) (TargetExtent.mk (ColorSlot.scale c) (ColorSlot.logical_size c) (ColorSlot.size c))
              (ColorSlot.format c) (Z.land (ColorSlot.subresource c) 65535) (Z.shiftr (ColorSlot.subresource c) 16) σ1) as [R2 B2].
  fold σ2 in R2, B2. rewrite pack_unpack in B2.
  set (σ3 := set_color_msaa _ _ _ _).
  destruct (bind_msaa_rest (ColorSlot.msaa_texture c) (ColorSlot.msaa_srgb_texture c) (ColorSlot.sample_count c)
              (set_color_rt_has_alpha (ColorSlot.has_alpha c) σ2)) as [R3 B3].
  fold σ3 in R3, B3. destruct (slot_msaa c Hok) as [M1 M2]. rewrite M1, M2 in B3.
  assert (rt0 (bindings σ3) = c) as Hc.
  { rewrite B3. revert B2. unfold set_color_rt_has_alpha. cbn [set_bindings bindings set_rt0 rt0]. clear. destruct c, (rt0 (bindings σ2)).
    unfold base, ColorSlot.with_alpha, ColorSlot.with_msaa. cbn. intros [= -> -> -> -> -> ->]. done. }
  assert (rest (bindings σ3) = rest (bindings σ1)) as Hr by (rewrite R3; exact R2). clearbody σ3. clear σ2 R2 B2 R3 B3.
  unfold rest in Hr. injection Hr as R1 R2 R3 R4.
  unfold bind_colors. cbn [set_bindings bindings]. apply recompute_targets. apply targets_split. case_bool_decide as Ee.
  - unfold rest. by rewrite Hc, Ee, R2, R3, R4, Hd, He, Ht.
  - cbn [set_bindings bindings set_extra_slots rt0 extra_slots ds srgb]. destruct (flush_rest σ3) as [F1 F2].
    unfold rest in F2 |- *. injection F2 as _ F2 F3 F4. cbn [set_extra_slots rt0 extra_slots ds srgb].
    by rewrite F1, F2, F3, F4, Hc, R2, R3, R4, Hd, He, Ht.
Qed.

Definition trial_bound_extra : Recorder :=
  set_extra_color_render_target 1 (Some (ColorSlot.mk 4 0 0 1 0 (64, 64) (64, 64) Bgra8Unorm RenderScale.IDENTITY true)) trial_start.
Definition trial_temporary : Recorder :=
  set_color_render_target_subresource 9 (TargetExtent.mk RenderScale.IDENTITY (8, 8) (8, 8)) Bgra8Unorm 0 2
    (take_color_attachments trial_bound_extra).2.

Lemma restore_undoes_take_witness :
  ColorSlot.texture (rt0 (bindings trial_temporary)) = 9 /\ extra_present (bindings trial_temporary) 0 = false
  /\ set_dropped (bindings (restore_color_attachments (take_color_attachments trial_bound_extra).1 trial_temporary)) false
     = set_dropped (recompute_extra_present_mask (bindings trial_bound_extra)) false
  /\ extra_present (recompute_extra_present_mask (bindings trial_bound_extra)) 0 = true.
Proof.
  split; [vm_compute; reflexivity|]. split; [vm_compute; reflexivity|]. split; [|vm_compute; reflexivity].
  apply restore_undoes_take; [split; vm_compute; reflexivity|vm_compute; reflexivity..].
Defined.
